(* ===== verification/_CoqProject ===== *)
-Q . S2P
Prelude.v
Text.v
Range.v
IntervalTree.v
IntervalTreeInv.v
Allocator.v
AllocatorProps.v
Resources.v
ResourceManager.v
PoolClient.v
ResourceManagerSpec.v
BTreeMap.v
IoManager.v
IoManagerSpec.v
RateLimiter.v
ConfigManager.v
AddressSpace.v
AddressSpaceSpec.v
AddressSpaceMgr.v
AddressSpaceMgrSpec.v
VsockStream.v
TxBuf.v
VsockPacket.v
VsockConnection.v
VsockConnectionSpec.v
VsockConnectionProps.v
VsockQueues.v
VsockPort.v
VsockMuxer.v
VsockMuxerSpec.v
VsockMuxerRecv.v
VsockMuxerOps.v
VsockMuxerProps.v
Path.v
SafePath.v
SafePathSpec.v
SafePathBuilder.v
VirtioMem.v
VirtioMemSpec.v
VirtioMemRequests.v
VirtioMemProps.v
VirtioMemResources.v
Interrupt.v
KvmIrq.v
InterruptSpec.v
KvmIrqSpec.v
VirtioDevice.v
Mmio.v
MmioSpec.v
MmioProps.v
MmioMsi.v
MmioDemo.v
Block.v
BlockSpec.v
BlockHandler.v
BlockProps.v
LocalFile.v
BlockDevice.v
BlockDeviceSpec.v
BlockDemo.v
VsockDevice.v
VsockDeviceSpec.v
Balloon.v
BalloonSpec.v
MpTable.v
MpTableSpec.v
Boot.v
BootSpec.v
BootMap.v
Vcpu.v
VcpuSpec.v
VcpuManager.v
VcpuManagerSpec.v
CpuSet.v
CpuSetSpec.v
CpuResource.v
CpuResourceSpec.v
Pci.v
AgentDevices.v
AgentDevicesSpec.v
