(* ===== verification/Prelude.v ===== *)
(** * Verification of Dragonball and its surroundings (Kata Containers)

    The repository is a fork of Kata Containers.  The development models the
    parts of it in which a mistake lets a guest or a container reach what it should
    not: the resource, memory and interrupt management of the hypervisor
    Dragonball (src/src/dragonball), its vCPUs, the virtio devices a guest talks to, the
    library that resolves untrusted paths (src/src/libs/safe-path), and what the
    runtimes in Go and Rust and the agent in the guest must agree on: CPU sets, the
    number of vCPUs, PCI addresses and devices.  It follows the x86_64 build.

    ** The program and the files

    Paths below are under src/src/dragonball/src unless they start with libs, runtime,
    runtime-rs or agent.

    - Pools of integers, dbs_allocator: an AVL tree of address ranges.  Range.v and
      IntervalTree.v are the operations of lib.rs and interval_tree.rs;
      IntervalTreeInv.v shows that the operations keep the tree
      ordered, balanced and with right maxima, and refine operations on the list of
      entries; Allocator.v and AllocatorProps.v are the contract:
      [allocate] finds the first fit and fails only when there is none, [free] is
      its inverse.  Pools are of arbitrary ranges of [u64]; where the code overflows at
      its end is part of the contract.
    - Resources of devices, dbs_device/src/resources.rs and resource_manager.rs:
      Resources.v, ResourceManager.v, with PoolClient.v as the interface between a
      pool and its client and ResourceManagerSpec.v for the theorems: a list of
      requests is answered in order with disjoint resources that were free, up to the first
      that has no fit; what giving back does is exact too: it restores the pools, except
      for the ranges the code cannot give back.
    - Dispatch of guest accesses, dbs_device/src/device_manager.rs: BTreeMap.v,
      IoManager.v, IoManagerSpec.v.  An access reaches the device that registered
      the range, and registration fails on an overlap.
    - Rate limiting, dbs_utils/src/rate_limiter.rs: RateLimiter.v.
      Over any run a bucket grants no more than its initial
      credit plus what the refill rate allows and the excess of requests beyond its
      capacity; those can double the rate.
    - Configuration, config_manager.rs: ConfigManager.v.
    - Guest memory, dbs_address_space and address_space_manager.rs: AddressSpace.v,
      AddressSpaceSpec.v, AddressSpaceMgr.v, AddressSpaceMgrSpec.v.  Regions never
      overlap; the memory of a machine is laid out around the hole for devices
      without overlap and with the size asked for; the work of faulting it in is
      divided without gaps.
    - Vsock, dbs_virtio_devices/src/vsock: VsockStream.v (the host side),
      TxBuf.v (the ring buffer, csm/txbuf.rs), VsockPacket.v
      (packet.rs), VsockConnection.v with its Spec and Props (csm/connection.rs),
      VsockQueues.v (muxer_rxq.rs, muxer_killq.rs), VsockPort.v
      (the port commands), VsockMuxer.v with Spec, Recv, Ops and Props
      (muxer_impl.rs) and VsockDevice.v with its Spec (epoll_handler.rs, device.rs).  Bytes arrive in order and complete in both directions
      whatever the streams do, credit is never exceeded, a connection follows the
      shutdown protocol, and the muxer keeps its invariant, routes packets to the
      connection they belong to, and drains its queues; the event loop of the device
      serves every event, returns buffers in order, and leaves nothing to deliver once the driver
      has offered enough of them.
    - Paths, libs/safe-path/src: Path.v (std::path as the library uses it),
      SafePath.v (scoped_path_resolver.rs, pinned_path_buf.rs,
      scoped_dir_builder.rs), SafePathSpec.v, SafePathBuilder.v.  In a world where
      every system call may answer anything, the result lies below the root; in a
      world that stands still it is the path a chroot would find.
    - Memory hotplug, dbs_virtio_devices/src/mem.rs: VirtioMem.v, with VirtioMemSpec.v,
      VirtioMemRequests.v, VirtioMemProps.v and
      VirtioMemResources.v.  The requests of the guest, the bitmap and the sizes,
      the memory given back to the host, and the resources from the manager.
    - Block devices, dbs_virtio_devices/src/block: Block.v (request.rs, and the
      interface of a disk as the class [Ufile]), BlockHandler.v (handler.rs, the
      thread of a queue), LocalFile.v (ufile/localfile.rs, an instance of the
      interface and of its laws), BlockDevice.v (device.rs, an instance of [VirtioDevice]).
      BlockSpec.v: which chains are requests, which requests pass the check of the
      capacity, and that a read finds what a write left.  BlockProps.v: no chain is
      lost or returned twice, and when a handler panics.  BlockDeviceSpec.v:
      activation, and the device behind the transport.  BlockDemo.v: runs.
    - The balloon, dbs_virtio_devices/src/balloon.rs: Balloon.v, BalloonSpec.v.  The
      host is told about the pages a guest lists and no other memory; what free page
      reporting drops, and where it is not confined to guest memory; sizes,
      configuration and activation.
    - The start of a guest: MpTable.v (dbs_boot/src/x86_64/mptable.rs with the
      structures of mpspec.rs), Boot.v (dbs_arch/src/x86_64/gdt.rs, regs.rs and
      interrupts.rs, dbs_boot/src/x86_64/mod.rs, configure_system of vm/x86_64.rs and
      configure of vcpu/x86_64.rs).  MpTableSpec.v: the guest finds the whole table
      with right checksums.  BootSpec.v: the boot processor starts in long mode with the
      segments in its descriptor table and page tables that map the first GiB to itself.
      BootMap.v: the memory map lists the memory that the address space manager
      made.
    - Interrupts, dbs_interrupt/src: Interrupt.v (lib.rs as the class
      [InterruptManager], manager.rs), InterruptSpec.v (the promises of groups as
      [InterruptManagerLaws] and the theorems against them), KvmIrq.v (kvm/, an
      instance of the interface), KvmIrqSpec.v (which keeps the promises; the
      messages of a device are the routes of KVM).
    - The virtio transport, dbs_virtio_devices/src/device.rs and mmio/:
      VirtioDevice.v (the interface of a device as the class [VirtioDevice],
      VirtioDeviceInfo), Mmio.v (mmio_state.rs, mmio_v2.rs,
      dragonball.rs), MmioSpec.v (the invariant, ioevents),
      MmioProps.v (driver status, configuration, activation, panics),
      MmioMsi.v (from the registers to the routes of KVM), MmioDemo.v (a run).
    - vCPUs, vcpu/vcpu_impl.rs and vcpu/vcpu_manager.rs: Vcpu.v (the thread of a
      vCPU, its states, events and exits), VcpuSpec.v (the protocol of states, and that
      every event is answered), VcpuManager.v (creation, start, pause, hotplug and the
      answers of the guest), VcpuManagerSpec.v (the books of the manager in every run, and what a resize, its roll back and the
      answer of the guest do on every branch, threads that fail, do not answer or never end included).
    - CPU sets, runtime/virtcontainers/pkg/cpuset/cpuset.go and
      libs/kata-types/src/utils/u32_set.rs, with pinning in
      runtime/virtcontainers/sandbox.go: CpuSet.v, CpuSetSpec.v.  The two parsers agree on
      the lists both take, printed sets are read back, and each vCPU thread is pinned to a
      CPU of its own.
    - The number of vCPUs, libs/kata-types/src/cpu.rs,
      runtime-rs/crates/resource/src/cpu_mem and
      runtime-rs/crates/hypervisor/src/dragonball/inner.rs: CpuResource.v,
      CpuResourceSpec.v.  When the count of the runtime is the count of the vCPU manager.
    - PCI addresses, agent/src/pci.rs and runtime/virtcontainers/types/pcipath.go and
      bridges.go: Pci.v.  Which paths of the runtime the agent understands.
    - Devices of a container, agent/src/device.rs: AgentDevices.v,
      AgentDevicesSpec.v.  Devices, rules and environment of a container get the numbers
      and addresses of the guest.

    The parts use each other the way the code does: the resource manager and the
    address space manager are clients of the pools, virtio-mem of the resource
    manager, the block device of the rate limiter, its disk and the transport, the
    vsock device of its muxer, the transport of the interrupt manager and the
    interrupt manager of KVM, the resources of runtime-rs of the vCPU manager and of CPU sets,
    and the devices of the agent of PCI addresses; the theorems of the one are used through the lemmas of the other.

    ** How code is modelled

    This file holds what all parts share: integers of a width as [Z], truncation
    and checked arithmetic, the monad [outcome] whose [Panic] is a panic of the code
    (an overflow with overflow checks on, an index out of bounds, unwrap or assert),
    [result] for [Result], and tactics.  Text.v holds text as the
    code splits, parses and prints it, with numbers in base 10 and 16.  A structure of the code is
    a record, a function on it takes and returns the record; a value behind
    [Arc<Mutex<..>>] is part of the state of whoever uses it, since each operation
    holds the lock for its whole body.  Log messages are left out.

    What is not in the sources - the kernel, other crates, the clock, the host side
    of a stream, the guest's memory - is a parameter: a class of operations on a
    world ([MuxerEnv], [Os], [MemHost], [Kvm], [MmioEnv], [Queue], [BlkGuest],
    [BlkHost], [StdFile], [IoEngine] and so on), with a
    class of laws next to it that says what its documentation promises
    ([StreamLaws], [MemHostLaws], [KvmLaws], [MmioLaws], [VirtioDeviceLaws],
    [UfileLaws], [TransferLaws], [IoEngineLaws], [RegionLaws], [MemBytes],
    [OffsetLaws], [ThreadLaws], [AffinityLaws], [GuestAgentLaws]).
    Theorems that use laws have a witness with a concrete instance, so the laws can
    hold.  [ThreadLaws] say only which threads exist and that one at its barrier does not
    end; they hold of the thread of Vcpu.v whenever it may be started or answer.  [IoEngineLaws] are the contract of
    an engine; the engines themselves are not modelled, and the one with io_uring
    keeps the contract only while its submission queue has room and submitting succeeds.

    ** What the theorems show

    - Safety in every run: invariants over an inductive set of reachable states
      (pools, muxer, connection, vsock device, virtio-mem, block handler, interrupt
      manager, transport, vCPU threads and manager).
    - Behaviour on every branch: an operation equals a function that is simpler than
      it, or its result and effect are given for success and for each failure.
    - Refinement: the tree is a list, the ring buffer a queue, the resolver a chroot;
      the memory map of a guest is the memory of its address space, and a page walk
      through its first tables is the identity.
    - Equivalence across languages: the parser of CPU lists in Rust and the one in Go,
      the PCI paths of the runtime and of the agent.
    - Progress: loops end, the muxer drains, a sweep terminates, the resolver
      returns; none of this is conditional on a result.
    - Errors and panics: where the code can panic, the theorems say exactly when
      (allocation at the end of the address space, a virtio-mem state query below
      the region, DRIVER_OK in an interrupt mode without interrupts, an unknown
      completion of a block request, a report of more than 4 GiB, a roll back that
      cuts more thread ids than there are).

    The doc comment of a theorem states its property; those that begin with a number
    C1, C2, ... are the properties of the development.

    ** Bounds and fuel

    Recursion that is not structural has fuel, and each theorem about it holds
    because the fuel is enough: 129 steps for a gcd of 64-bit numbers (the second
    number at least halves every two steps); the number of queued entries, and three
    more, for the loop of the muxer's [recv_pkt]; one more than the ports in use for
    the search of a free port; the length of the queue for a sweep; three rounds for
    flushing a ring buffer, which wraps at most once; one more than the 255 links
    allowed for the resolver, and within one pass the components left; five
    doublings for the block size of virtio-mem; one more than the words of a
    descriptor for the page frame numbers of a balloon; 20 decimal or 16 hexadecimal
    digits for a 64-bit number.
    The transport is proved for up to 1024 queues, which is what fits the window of
    the doorbells; a vsock device for 2^30 events of epoll, each of which may take a
    local port, and for receive buffers that leave room for the 44 bytes of the
    header in a 32-bit length.  The loops over a queue are over the list of what
    their rounds find.

    ** Not modelled

    Left out because they only move data through system calls or other crates, so
    that a model would state its own parameters: the devices for network and file
    system, vhost, the asynchronous engines behind a block device, the
    CPUID tables, the upcall service, the device managers and the request loop of the VMM, the rest of
    the agent, of the runtimes in Rust and Go and of the shared libraries, and the tools.  The code for
    ARM64 and generated bindings are left out.  Inside the modelled parts: the
    registration of event handlers and file descriptors, [trigger], [notifier] and [get_pending_state] of
    interrupt groups, which read and write an eventfd, the unmapping of shared
    memory when a transport is dropped, and the byte view of the configuration of
    virtio-mem. *)

From Stdlib Require Export ZArith Lia Bool.
From stdpp Require Export base tactics list numbers option sets gmap strings.

#[global] Open Scope Z_scope.
#[export] Set Warnings "-clear-no-such-hyp".

(** ** Machine integers

    A value of a Rust type [uN] is a [Z] within [0 .. uN_max].  Checked
    operations return [option] ([checked_add]), wrapping operations are written
    with [Z.modulo], and plain operators ([+], [-], [*]), which panic on
    overflow in a build with overflow checks, live in the [outcome] monad below. *)

Definition u8_max : Z := 2 ^ 8 - 1.
Definition u16_max : Z := 2 ^ 16 - 1.
Definition u32_max : Z := 2 ^ 32 - 1.
Definition u64_max : Z := 2 ^ 64 - 1.

Definition in_u8 (x : Z) : Prop := 0 <= x <= u8_max.
Definition in_u16 (x : Z) : Prop := 0 <= x <= u16_max.
Definition in_u32 (x : Z) : Prop := 0 <= x <= u32_max.
Definition in_u64 (x : Z) : Prop := 0 <= x <= u64_max.

(** [!x] on a [u64]. *)
Definition u64_not (x : Z) : Z := Z.lxor x u64_max.

(** [x as u32] and [x as u16] truncate. *)
Definition as_u32 (x : Z) : Z := x mod 2 ^ 32.
Definition as_u16 (x : Z) : Z := x mod 2 ^ 16.
Definition as_u64 (x : Z) : Z := x mod 2 ^ 64.

(** [x as i32] for a [u32] value [x]. *)
Definition as_i32 (x : Z) : Z := if x <? 2 ^ 31 then x else x - 2 ^ 32.

(** [uN::checked_add], [uN::checked_sub] with [m] the type's maximum. *)
Definition checked_add (m x y : Z) : option Z :=
  if x + y <=? m then Some (x + y) else None.
Definition checked_sub (x y : Z) : option Z :=
  if y <=? x then Some (x - y) else None.

(** Constants are folded for [lia] by unfolding every width. *)
Ltac widths :=
  unfold in_u8, in_u16, in_u32, in_u64, u8_max, u16_max, u32_max, u64_max in *;
  change (2 ^ 8) with 256 in *; change (2 ^ 16) with 65536 in *;
  change (2 ^ 31) with 2147483648 in *; change (2 ^ 32) with 4294967296 in *;
  change (2 ^ 64) with 18446744073709551616 in *.
Ltac ulia := widths; lia.

(** ** Panics

    A Rust computation either returns or panics ([panic!], [unwrap] on [None],
    [expect], [unreachable!], an overflowing operator, a slice index out of
    range).  A panic unwinds to the caller, so it absorbs the rest of the
    computation. *)

Inductive outcome (A : Type) : Type :=
| Ret (a : A)
| Panic.
Arguments Ret {A} a.
Arguments Panic {A}.

Definition obind {A B} (m : outcome A) (k : A -> outcome B) : outcome B :=
  match m with Ret a => k a | Panic => Panic end.

Declare Scope rust_scope.
Delimit Scope rust_scope with rust.
Notation "'let!' x := m 'in' k" := (obind m (fun x => k))
  (at level 10, x pattern, m at level 99, k at level 200,
   format "'[v' 'let!'  x  :=  m  'in' '/' k ']'") : rust_scope.
#[global] Open Scope rust_scope.

(** [Option::unwrap]/[expect]. *)
Definition unwrap {A} (o : option A) : outcome A :=
  match o with Some a => Ret a | None => Panic end.

(** [a + b], [a - b], [a * b] on an unsigned type with maximum [m]. *)
Definition add_u (m x y : Z) : outcome Z := unwrap (checked_add m x y).
Definition sub_u (x y : Z) : outcome Z := unwrap (checked_sub x y).
Definition mul_u (m x y : Z) : outcome Z := if x * y <=? m then Ret (x * y) else Panic.

(** ** [Result<A, E>] *)

Inductive result (A E : Type) : Type :=
| Ok (a : A)
| Err (e : E).
Arguments Ok {A E} a.
Arguments Err {A E} e.

(** [Option::ok_or]. *)
Definition ok_or {A E} (o : option A) (e : E) : result A E :=
  match o with Some a => Ok a | None => Err e end.

(** ** Tactics and hints *)

Create HintDb rust discriminated.

(** [step!] inverts one monadic bind that is known to have returned. *)
Lemma obind_ret {A B} (m : outcome A) (k : A -> outcome B) b :
  obind m k = Ret b -> exists a, m = Ret a /\ k a = Ret b.
Proof. destruct m; simpl; [eauto | discriminate]. Qed.

Ltac bind_inv H :=
  let a := fresh "a" in let Ha := fresh "Ha" in
  apply obind_ret in H as (a & Ha & H).

(** Case analysis on the innermost scrutinee of the goal, or of [H]. *)
Ltac case_goal :=
  match goal with
  | |- context [match ?x with _ => _ end] =>
      lazymatch x with context [match _ with _ => _ end] => fail | _ => destruct x eqn:? end
  end.
Ltac case_hyp H :=
  match type of H with
  | context [match ?x with _ => _ end] =>
      lazymatch x with context [match _ with _ => _ end] => fail | _ => destruct x eqn:? end
  end.

(** Right-nested appends. *)
Ltac app_norm := repeat first [progress rewrite <- ?app_assoc | progress cbn [app]].

(** Boolean comparisons to propositions. *)
Ltac bools :=
  repeat match goal with
  | H : (_ && _)%bool = true |- _ => apply andb_true_iff in H as [? ?]
  | H : (_ && _)%bool = false |- _ => apply andb_false_iff in H
  | H : (_ || _)%bool = true |- _ => apply orb_true_iff in H
  | H : (_ || _)%bool = false |- _ => apply orb_false_iff in H as [? ?]
  | H : negb _ = true |- _ => apply negb_true_iff in H
  | H : negb _ = false |- _ => apply negb_false_iff in H
  | H : (_ <=? _) = true |- _ => apply Z.leb_le in H
  | H : (_ <=? _) = false |- _ => apply Z.leb_gt in H
  | H : (_ <? _) = true |- _ => apply Z.ltb_lt in H
  | H : (_ <? _) = false |- _ => apply Z.ltb_ge in H
  | H : (_ >? _) = true |- _ => rewrite Z.gtb_ltb in H
  | H : (_ >? _) = false |- _ => rewrite Z.gtb_ltb in H
  | H : (_ >=? _) = true |- _ => rewrite Z.geb_leb in H
  | H : (_ >=? _) = false |- _ => rewrite Z.geb_leb in H
  | H : (_ =? _) = true |- _ => apply Z.eqb_eq in H
  | H : (_ =? _) = false |- _ => apply Z.eqb_neq in H
  end.

Lemma add_u_ret m x y : x + y <= m -> add_u m x y = Ret (x + y).
Proof. intros. unfold add_u, checked_add. rewrite (proj2 (Z.leb_le _ _)); [done | lia]. Qed.

Lemma sub_u_ret x y : y <= x -> sub_u x y = Ret (x - y).
Proof. intros. unfold sub_u, checked_sub. rewrite (proj2 (Z.leb_le _ _)); [done | lia]. Qed.

Lemma add_u_inv m x y z : add_u m x y = Ret z -> z = x + y /\ x + y <= m.
Proof. unfold add_u, checked_add. case_goal; simpl; intros [=]; bools; lia. Qed.

Lemma sub_u_inv x y z : sub_u x y = Ret z -> z = x - y /\ y <= x.
Proof. unfold sub_u, checked_sub. case_goal; simpl; intros [=]; bools; lia. Qed.

(** ** Powers of two and alignment *)

(** [align & (align - 1) == 0], the code's test for a power of two. *)
Definition is_pow2 (a : Z) : bool := Z.land a (a - 1) =? 0.

Lemma is_pow2_pow k : 0 <= k -> is_pow2 (2 ^ k) = true.
Proof.
  intros. unfold is_pow2. replace (2 ^ k - 1) with (Z.ones k) by (rewrite Z.ones_equiv; lia).
  rewrite Z.land_ones by done. rewrite Z_mod_same_full. done.
Qed.

(** A positive number that shares no bit with its predecessor is [2 ^ log2]. *)
Lemma is_pow2_inv a : 0 < a -> is_pow2 a = true -> a = 2 ^ Z.log2 a.
Proof.
  intros Ha Hp. unfold is_pow2 in Hp. apply Z.eqb_eq in Hp.
  pose proof (Z.log2_spec a Ha) as [Hlo Hhi].
  pose proof (Z.log2_nonneg a) as Hl.
  destruct (decide (a = 2 ^ Z.log2 a)) as [|Hne]; [done|exfalso].
  assert (Hb : Z.testbit (Z.land a (a - 1)) (Z.log2 a) = true).
  { rewrite Z.land_spec, Z.bit_log2 by lia. simpl.
    replace (Z.log2 a) with (Z.log2 (a - 1)); [apply Z.bit_log2; lia|].
    apply Z.log2_unique; [done | lia]. }
  rewrite Hp, Z.bits_0 in Hb. done.
Qed.

(** Clearing the low [k] bits rounds down to a multiple of [2 ^ k]. *)
Lemma land_not_low v k :
  in_u64 v -> 0 <= k < 64 ->
  Z.land v (u64_not (2 ^ k - 1)) = v / 2 ^ k * 2 ^ k.
Proof.
  intros Hv Hk. rewrite <- Z.shiftr_div_pow2, <- Z.shiftl_mul_pow2 by lia.
  rewrite <- Z.ldiff_ones_r by lia.
  replace (2 ^ k - 1) with (Z.ones k) by (rewrite Z.ones_equiv; lia).
  unfold u64_not. replace u64_max with (Z.ones 64) by reflexivity.
  apply Z.bits_inj'. intros n Hn.
  rewrite Z.land_spec, Z.ldiff_spec, Z.lxor_spec.
  destruct (decide (n < 64)).
  - rewrite (Z.ones_spec_low 64) by lia. by rewrite xorb_true_r.
  - rewrite (Z.ones_spec_high 64) by lia.
    replace (Z.testbit v n) with false; [done|].
    symmetry. destruct (decide (v = 0)) as [->|]; [apply Z.bits_0|].
    apply Z.bits_above_log2; [ulia|].
    apply Z.log2_lt_pow2; [ulia|]. apply Z.lt_le_trans with (2 ^ 64); [ulia|].
    apply Z.pow_le_mono_r; lia.
Qed.

(** [(v + (a - 1)) & !(a - 1)]: the least multiple of [a] that is at least [v]. *)
Definition round_up (v a : Z) : Z := Z.land (v + (a - 1)) (u64_not (a - 1)).

Lemma round_up_pow2 v a :
  0 < a -> is_pow2 a = true -> a <= u64_max -> 0 <= v -> v + (a - 1) <= u64_max ->
  v <= round_up v a < v + a /\ (a | round_up v a).
Proof.
  intros Ha Hp Ham Hv Hs. pose proof (is_pow2_inv a Ha Hp) as Hpow.
  assert (Hk : 0 <= Z.log2 a < 64).
  { split; [apply Z.log2_nonneg|]. apply Z.log2_lt_pow2; [lia|ulia]. }
  assert (E : round_up v a = (v + (a - 1)) / a * a).
  { unfold round_up. remember (Z.log2 a) as k. subst a.
    apply land_not_low; [split; lia | done]. }
  rewrite E. split; [|apply Z.divide_factor_r].
  pose proof (Z.div_mod (v + (a - 1)) a ltac:(lia)).
  pose proof (Z.mod_pos_bound (v + (a - 1)) a ltac:(lia)). nia.
Qed.

(** It is the least one. *)
Lemma multiple_gap a x y : 0 < a -> (a | x) -> (a | y) -> x < y + a -> x <= y.
Proof. 
  intros Ha [p ->] [q ->] H. apply Z.mul_le_mono_nonneg_r; [lia|].
  enough (p < q + 1) by lia. apply (Z.mul_lt_mono_pos_r a); lia.
Qed.
