(* ===== verification/Text.v ===== *)
(** Text as lists of character codes: splitting and joining, and numbers in text.

    [str::split] and [strings.Split] with one character agree.  [from_str_radix] of the Rust integer
    types and [strconv.Atoi] accept the same text for the same range; [strconv.ParseUint] takes no sign. *)

From S2P Require Import Prelude.

Definition text := list Z.

(** ** Splitting and joining *)

Fixpoint split (sep : Z) (s : text) : list text :=
  match s with
  | [] => [[]]
  | c :: s =>
      if c =? sep then [] :: split sep s
      else match split sep s with t :: ts => (c :: t) :: ts | [] => [[c]] end
  end.

Fixpoint join (sep : Z) (ts : list text) : text :=
  match ts with
  | [] => []
  | [t] => t
  | t :: ts => t ++ sep :: join sep ts
  end.

Lemma split_nonempty sep s : split sep s <> [].
Proof. destruct s as [|c s]; [done|]. simpl. destruct (c =? sep); [done|]. by destruct (split sep s). Qed.

Lemma split_free sep t : sep ∉ t -> split sep t = [t].
Proof.
  induction t as [|c t IH]; intros Hn; [done|]. simpl. destruct (Z.eqb_spec c sep) as [->|]; [set_solver|]. rewrite IH; [done|set_solver].
Qed.

Lemma split_app sep t s : sep ∉ t -> split sep (t ++ sep :: s) = t :: split sep s.
Proof.
  induction t as [|c t IH]; intros Hn; simpl; [by rewrite Z.eqb_refl|]. destruct (Z.eqb_spec c sep) as [->|]; [set_solver|]. rewrite IH; [done|set_solver].
Qed.

Lemma split_join sep ts : ts <> [] -> Forall (fun t => sep ∉ t) ts -> split sep (join sep ts) = ts.
Proof.
  intros Hne Hf. induction Hf as [|t ts Ht Hf IH]; [done|]. destruct ts as [|t' ts]; [by apply split_free|].
  simpl join. rewrite split_app by done. f_equal. by apply IH.
Qed.

Lemma join_split sep s : join sep (split sep s) = s.
Proof.
  induction s as [|c s IH]; [done|]. simpl. destruct (Z.eqb_spec c sep) as [->|Hne].
  - pose proof (split_nonempty sep s). destruct (split sep s) as [|t ts]; [done|]. simpl in *. by rewrite IH.
  - pose proof (split_nonempty sep s). destruct (split sep s) as [|t [|t' ts]]; [done|..]; simpl in *; by rewrite IH.
Qed.

Lemma split_parts sep s : Forall (fun t => sep ∉ t) (split sep s).
Proof.
  induction s as [|c s IH]; [repeat constructor; apply not_elem_of_nil|]. simpl. destruct (Z.eqb_spec c sep) as [->|Hne].
  - constructor; [apply not_elem_of_nil|done].
  - destruct (split sep s) as [|t ts]; [repeat constructor; set_solver|]. apply Forall_cons in IH as [? ?]. constructor; [set_solver|done].
Qed.

Lemma split_one sep s : (length (split sep s) = 1)%nat <-> sep ∉ s.
Proof.
  split; [|intros Hs; by rewrite split_free].
  intros Hl. pose proof (split_parts sep s) as Hp. pose proof (join_split sep s) as Hj. destruct (split sep s) as [|t [|t' ts]]; try done.
  simpl in Hj. subst t. by apply Forall_cons in Hp as [? _].
Qed.

(** ** Numbers *)

Definition between (lo hi c : Z) : bool := (lo <=? c) && (c <=? hi).

Definition digit_value (c : Z) : option Z :=
  if between 48 57 c then Some (c - 48) else if between 97 122 c then Some (c - 87) else if between 65 90 c then Some (c - 55) else None.

(** Digits after a number [acc], up to [max]. *)
Fixpoint parse_digits (radix max acc : Z) (ds : text) : option Z :=
  match ds with
  | [] => Some acc
  | d :: ds =>
      match digit_value d with
      | Some x => if (x <? radix) && (acc * radix + x <=? max) then parse_digits radix max (acc * radix + x) ds else None
      | None => None
      end
  end.

Definition PLUS : Z := 43.
Definition MINUS : Z := 45.

(** [from_str_radix] of an integer type from [min] to [max], and with 10 and the range of an int [strconv.Atoi]. *)
Definition from_str_radix (radix min max : Z) (s : text) : option Z :=
  match s with
  | [] => None
  | c :: ds =>
      if (c =? PLUS) || (c =? MINUS) && (min <? 0) then
        match ds with
        | [] => None
        | _ => if c =? PLUS then parse_digits radix max 0 ds else Z.opp <$> parse_digits radix (- min) 0 ds
        end
      else parse_digits radix max 0 s
  end.

(** [strconv.ParseUint]. *)
Definition parse_uint (radix max : Z) (s : text) : option Z :=
  match s with [] => None | _ => parse_digits radix max 0 s end.

Definition parse_u32 (s : text) : option Z := from_str_radix 10 0 u32_max s.

Definition digit_char (d : Z) : Z := if d <? 10 then 48 + d else 87 + d.

Fixpoint print_digits (fuel : nat) (radix n : Z) : text :=
  match fuel with
  | O => []
  | S fuel => if n <? radix then [digit_char n] else print_digits fuel radix (n / radix) ++ [digit_char (n mod radix)]
  end.

(** Numbers of 64 bits have at most 20 decimal and 16 hexadecimal digits. *)
Definition dec (n : Z) : text := print_digits 20 10 n.
Definition hex (n : Z) : text := print_digits 16 16 n.

(** [{:0wx}] *)
Definition hex_pad (w : nat) (n : Z) : text := replicate (w - length (hex n)) 48 ++ hex n.

(** A character that stands for a digit, and none for a sign or a separator. *)
Definition is_digit (radix d : Z) : Prop := exists x, 0 <= x < radix /\ d = digit_char x.

Lemma digit_char_value x : 0 <= x < 36 -> digit_value (digit_char x) = Some x.
Proof.
  intros Hx. unfold digit_char, digit_value, between. destruct (Z.ltb_spec x 10).
  - rewrite !(proj2 (Z.leb_le _ _)) by lia. simpl. f_equal. lia.
  - rewrite (proj2 (Z.leb_le 48 _)), (proj2 (Z.leb_gt _ 57)) by lia. rewrite !(proj2 (Z.leb_le _ _)) by lia. simpl. f_equal. lia.
Qed.

Lemma is_digit_range radix d : radix <= 36 -> is_digit radix d -> 48 <= d <= 57 \/ 97 <= d <= 122.
Proof. intros Hr (x & Hx & ->). unfold digit_char. destruct (Z.ltb_spec x 10); lia. Qed.

Lemma parse_digits_app radix max x y : forall acc,
  parse_digits radix max acc (x ++ y) = a ← parse_digits radix max acc x; parse_digits radix max a y.
Proof. induction x as [|d x IH]; intros acc; [done|]. simpl. destruct (digit_value d); [|done]. by destruct (_ && _). Qed.

Lemma digit_value_pos c x : digit_value c = Some x -> 0 <= x.
Proof. unfold digit_value, between. repeat case_goal; intros [= <-]; bools; lia. Qed.

Lemma parse_digits_bounds radix max ds acc n : 1 <= radix -> 0 <= acc <= max -> parse_digits radix max acc ds = Some n -> acc <= n <= max.
Proof.
  intros Hr. revert acc. induction ds as [|d ds IH]; intros acc Ha; simpl; [intros [= <-]; lia|].
  destruct (digit_value d) as [x|] eqn:E; [|done]. destruct ((x <? radix) && _) eqn:Eb; [|done]. bools. apply digit_value_pos in E.
  intros Hp. apply IH in Hp; nia.
Qed.

(** Another maximum that the number does not exceed. *)
Lemma parse_digits_max radix max max' ds acc n : 1 <= radix -> 0 <= acc <= max -> parse_digits radix max acc ds = Some n -> n <= max' -> parse_digits radix max' acc ds = Some n.
Proof.
  intros Hr. revert acc. induction ds as [|d ds IH]; intros acc Ha; simpl; [done|].
  destruct (digit_value d) as [x|] eqn:E; [|done]. destruct ((x <? radix) && _) eqn:Eb; [|done]. bools. apply digit_value_pos in E.
  assert (0 <= acc * radix) by (apply Z.mul_nonneg_nonneg; lia).
  intros Hp Hm. pose proof (parse_digits_bounds radix max ds (acc * radix + x) n Hr ltac:(lia) Hp). rewrite (proj2 (Z.ltb_lt _ _)), (proj2 (Z.leb_le _ _)) by lia. apply IH; [lia|done|done].
Qed.

Lemma print_digits_ok radix fuel max : 2 <= radix <= 36 -> forall n,
  0 <= n < radix ^ Z.of_nat fuel -> n <= max -> (0 < fuel)%nat ->
  Forall (is_digit radix) (print_digits fuel radix n) /\ print_digits fuel radix n <> [] /\
  (length (print_digits fuel radix n) <= fuel)%nat /\ parse_digits radix max 0 (print_digits fuel radix n) = Some n.
Proof.
  intros Hr. induction fuel as [|fuel IH]; intros n Hn Hm Hf; [lia|]. simpl print_digits. rewrite Nat2Z.inj_succ, Z.pow_succ_r in Hn by lia.
  pose proof (Z.div_mod n radix ltac:(lia)). pose proof (Z.mod_pos_bound n radix ltac:(lia)). destruct (Z.ltb_spec n radix).
  - split_and!; [repeat constructor; exists n; lia|done|simpl; lia|]. simpl. rewrite digit_char_value by lia.
    by rewrite (proj2 (Z.ltb_lt _ _)), (proj2 (Z.leb_le _ _)) by lia.
  - assert (Hd : 0 <= n / radix < radix ^ Z.of_nat fuel) by (split; [apply Z.div_pos | apply Z.div_lt_upper_bound]; lia).
    destruct fuel as [|fuel]; [simpl in Hd; nia|]. destruct (IH (n / radix)) as (D1 & D2 & D3 & D4); [done|nia|lia|]. split_and!.
    + apply Forall_app. split; [done|]. repeat constructor. exists (n mod radix). lia.
    + by destruct (print_digits (S fuel) radix (n / radix)).
    + rewrite length_app. cbn [length]. lia.
    + rewrite parse_digits_app, D4. simpl. rewrite digit_char_value by lia. rewrite (proj2 (Z.ltb_lt _ _)), (proj2 (Z.leb_le _ _)) by nia. simpl. f_equal. nia.
Qed.

Lemma print_length radix fuel k n : 2 <= radix -> (0 < k)%nat -> 0 <= n < radix ^ Z.of_nat k -> (length (print_digits fuel radix n) <= k)%nat.
Proof.
  intros Hr. revert fuel n. induction k as [|k IH]; intros fuel n Hk Hn; [lia|]. destruct fuel as [|fuel]; [simpl; lia|].
  simpl print_digits. destruct (Z.ltb_spec n radix); [simpl; lia|]. rewrite length_app. cbn [length]. rewrite Nat2Z.inj_succ, Z.pow_succ_r in Hn by lia.
  destruct k as [|k]; [simpl in Hn; lia|]. assert (length (print_digits fuel radix (n / radix)) <= S k)%nat; [|lia].
  apply IH; [lia|]. split; [apply Z.div_pos; lia|]. apply Z.div_lt_upper_bound; lia.
Qed.

Lemma dec_digit d : is_digit 10 d -> 48 <= d <= 57.
Proof. intros (x & Hx & ->). unfold digit_char. rewrite (proj2 (Z.ltb_lt _ _)) by lia. lia. Qed.

(** Text that starts with a digit has no sign. *)
Lemma unsigned_text radix min max s : radix <= 36 -> Forall (is_digit radix) s -> s <> [] -> from_str_radix radix min max s = parse_digits radix max 0 s.
Proof.
  intros Hr Hd Hne. destruct s as [|c s]; [done|]. apply Forall_cons in Hd as [Hc _]. apply (is_digit_range _ _ Hr) in Hc. unfold from_str_radix, PLUS, MINUS.
  by rewrite !(proj2 (Z.eqb_neq c _)) by lia.
Qed.

(** Without a minus sign only the maximum matters. *)
Lemma from_str_max radix min min' max max' s n : 1 <= radix -> 0 <= max -> MINUS ∉ s -> from_str_radix radix min max s = Some n ->
  0 <= n <= max /\ (n <= max' -> from_str_radix radix min' max' s = Some n).
Proof.
  intros Hr Hm Hn. unfold from_str_radix. destruct s as [|c ds]; [done|]. assert (Ec : c =? MINUS = false) by (apply Z.eqb_neq; set_solver). rewrite Ec. cbn [andb]. rewrite !orb_false_r.
  destruct (c =? PLUS).
  - destruct ds as [|d ds]; [done|]. intros Hp. split; [by eapply parse_digits_bounds|]. intros Hx. by eapply parse_digits_max.
  - intros Hp. split; [by eapply parse_digits_bounds|]. intros Hx. by eapply parse_digits_max.
Qed.

Lemma dec_digits n : 0 <= n <= u64_max -> Forall (is_digit 10) (dec n) /\ dec n <> [] /\ (length (dec n) <= 20)%nat.
Proof. intros Hn. destruct (print_digits_ok 10 20 n ltac:(lia) n) as (D1 & D2 & D3 & _); [|lia|lia|done]. change (10 ^ Z.of_nat 20) with 100000000000000000000. ulia. Qed.

Lemma dec_parse min max n : 0 <= n <= u64_max -> n <= max -> from_str_radix 10 min max (dec n) = Some n.
Proof.
  intros Hn Hm. destruct (dec_digits n Hn) as (D1 & D2 & _). rewrite unsigned_text by (done || lia).
  apply (print_digits_ok 10 20 max ltac:(lia) n); [|done|lia]. change (10 ^ Z.of_nat 20) with 100000000000000000000. ulia.
Qed.

(** ** Padded hexadecimal numbers *)

Lemma parse_zeros radix max k s : 2 <= radix -> 0 <= max -> parse_digits radix max 0 (replicate k 48 ++ s) = parse_digits radix max 0 s.
Proof.
  intros Hr Hm. induction k as [|k IH]; [done|]. cbn [replicate app parse_digits]. change (digit_value 48) with (Some 0). cbv iota.
  rewrite (proj2 (Z.ltb_lt 0 radix)), (proj2 (Z.leb_le _ _)) by lia. exact IH.
Qed.

Lemma hex_pad_digits w n : 0 <= n <= u64_max -> Forall (is_digit 16) (hex_pad w n) /\ hex_pad w n <> [].
Proof.
  intros Hn. destruct (print_digits_ok 16 16 n ltac:(lia) n) as (D1 & D2 & _ & _); [change (16 ^ Z.of_nat 16) with 18446744073709551616; ulia|lia|lia|]. unfold hex_pad. split.
  - apply Forall_app. split; [|done]. apply Forall_replicate. exists 0. split; [lia|done].
  - intros E. apply app_eq_nil in E as [_ E]. done.
Qed.

Lemma hex_pad_parse w n max : 0 <= n <= u64_max -> n <= max -> parse_digits 16 max 0 (hex_pad w n) = Some n.
Proof.
  intros Hn Hm. unfold hex_pad. rewrite parse_zeros by lia. apply (print_digits_ok 16 16 max ltac:(lia) n); [|done|lia]. change (16 ^ Z.of_nat 16) with 18446744073709551616. ulia.
Qed.

Lemma hex_pad_length k n : (0 < k <= 16)%nat -> 0 <= n < 16 ^ Z.of_nat k -> length (hex_pad k n) = k.
Proof. intros Hk Hn. unfold hex_pad. rewrite length_app, length_replicate. pose proof (print_length 16 16 k n ltac:(lia) (proj1 Hk) Hn). unfold hex. lia. Qed.
