(* ===== verification/Range.v ===== *)
(** Closed ranges of [u64] and allocation constraints
    (src/src/dragonball/src/dbs_allocator/src/lib.rs and the [Range] type of
    interval_tree.rs).

    [Range_new] and [Range_with_size] panic on an invalid range, [Range_len]
    on overflow; [Range_align_to] rounds the lower end up to an alignment.
    The theorems say what alignment computes: the aligned range starts at the
    least multiple of the alignment within the range, and alignment fails only
    when the range holds no such multiple or the alignment is no power of two. *)

From S2P Require Import Prelude.

(** ** [struct Range] *)

Record Range := mkRange { r_min : Z; r_max : Z }.

#[global] Instance Range_eq_dec : EqDecision Range.
Proof. solve_decision. Defined.

(** [Range::new]. *)
Definition Range_new (umin umax : Z) : outcome Range :=
  if (umin >? umax) || ((umin =? 0) && (umax =? u64_max))
  then Panic
  else Ret (mkRange umin umax).

(** [Range::with_size]. *)
Definition Range_with_size (base size : Z) : outcome Range :=
  let umin := base in
  let! umax := unwrap (checked_add u64_max size umin) in
  if (umin >? umax) || ((umin =? 0) && (umax =? u64_max))
  then Panic
  else Ret (mkRange umin umax).

(** [Range::new_point]. *)
Definition Range_new_point (value : Z) : Range := mkRange value value.

(** [Range::len]: [self.max - self.min + 1]. *)
Definition Range_len (r : Range) : outcome Z :=
  let! d := sub_u (r_max r) (r_min r) in
  add_u u64_max d 1.

(** [Range::is_empty]. *)
Definition Range_is_empty (r : Range) : bool := false.

(** [Range::intersect]. *)
Definition Range_intersect (r other : Range) : bool :=
  Z.max (r_min r) (r_min other) <=? Z.min (r_max r) (r_max other).

(** [Range::contain]. *)
Definition Range_contain (r other : Range) : bool :=
  (r_min r <=? r_min other) && (r_max r >=? r_max other).

(** [Range::align_to].  The lower end is rounded up with
    [checked_add(align - 1)] followed by [& !(align - 1)]. *)
Definition Range_align_to (r : Range) (align : Z) : outcome (option Range) :=
  if (align =? 0) || (align =? 1) then Ret (Some r)
  else if negb (Z.land align (align - 1) =? 0) then Ret None
  else
    match checked_add u64_max (r_min r) (align - 1) with
    | Some v =>
        let min := Z.land v (u64_not (align - 1)) in
        if min <=? r_max r then
          let! a := Range_new min (r_max r) in Ret (Some a)
        else Ret None
    | None => Ret None
    end.

(** [impl Ord for Range]: lexicographic on [(min, max)]. *)
Definition Range_cmp (r other : Range) : comparison :=
  match Z.compare (r_min r) (r_min other) with
  | Eq => Z.compare (r_max r) (r_max other)
  | res => res
  end.

(** [impl PartialOrd for Range]. *)
Definition Range_partial_cmp (r other : Range) : option comparison :=
  match Z.compare (r_min r) (r_min other) with
  | Eq => Some (Z.compare (r_max r) (r_max other))
  | res => Some res
  end.

(** ** [struct Constraint] *)

(** [enum AllocPolicy]. *)
Inductive AllocPolicy := PolicyDefault | FirstMatch.

Record Constraint := mkConstraint {
  c_size : Z; c_min : Z; c_max : Z; c_align : Z; c_policy : AllocPolicy }.

(** [enum Error] of dbs_allocator. *)
Inductive AllocError := InvalidBoundary (min max : Z).

(** [Constraint::new]. *)
Definition Constraint_new (size : Z) : Constraint :=
  mkConstraint size 0 u64_max 1 PolicyDefault.

(** The builder methods [min], [max], [align], [policy]. *)
Definition Constraint_min (c : Constraint) (m : Z) : Constraint :=
  mkConstraint (c_size c) m (c_max c) (c_align c) (c_policy c).
Definition Constraint_max (c : Constraint) (m : Z) : Constraint :=
  mkConstraint (c_size c) (c_min c) m (c_align c) (c_policy c).
Definition Constraint_align (c : Constraint) (a : Z) : Constraint :=
  mkConstraint (c_size c) (c_min c) (c_max c) a (c_policy c).
Definition Constraint_policy (c : Constraint) (p : AllocPolicy) : Constraint :=
  mkConstraint (c_size c) (c_min c) (c_max c) (c_align c) p.

(** [Constraint::validate]. *)
Definition Constraint_validate (c : Constraint) : result unit AllocError :=
  if c_max c <? c_min c then Err (InvalidBoundary (c_min c) (c_max c)) else Ok tt.

(** ** Validity *)

(** What [Range::new] guarantees of its result, for [u64] arguments. *)
Definition valid_range (r : Range) : Prop :=
  0 <= r_min r <= r_max r /\ r_max r <= u64_max /\ ~ (r_min r = 0 /\ r_max r = u64_max).

(** An address of the range. *)
Definition in_range (a : Z) (r : Range) : Prop := r_min r <= a <= r_max r.

(** [valid_constraint]: the fields are [u64] values. *)
Definition valid_constraint (c : Constraint) : Prop :=
  in_u64 (c_size c) /\ in_u64 (c_min c) /\ in_u64 (c_max c) /\ in_u64 (c_align c).

Lemma Range_eta r : mkRange (r_min r) (r_max r) = r.
Proof. by destruct r. Qed.

Lemma Range_new_ret umin umax :
  umin <= umax -> ~ (umin = 0 /\ umax = u64_max) -> Range_new umin umax = Ret (mkRange umin umax).
Proof.
  intros Hle Hf. unfold Range_new. case_goal; [|done]. bools.
  destruct Heqb as [H|H]; bools; [lia | tauto].
Qed.

Lemma Range_new_inv umin umax r :
  Range_new umin umax = Ret r ->
  r = mkRange umin umax /\ umin <= umax /\ ~ (umin = 0 /\ umax = u64_max).
Proof.
  unfold Range_new. case_goal; intros [=]; bools. split; [done|].
  split; [lia|]. intros [-> ->]. simpl in *. destruct H0; bools; lia.
Qed.

Lemma Range_len_ret r : valid_range r -> Range_len r = Ret (r_max r - r_min r + 1).
Proof.
  intros (Hm & Hu & Hf). unfold Range_len. rewrite sub_u_ret by lia. simpl.
  apply add_u_ret. lia.
Qed.

Lemma Range_cmp_eq r s : Range_cmp r s = Eq <-> r = s.
Proof.
  unfold Range_cmp. destruct r as [a b], s as [c d]; simpl.
  destruct (Z.compare_spec a c); [|split; [done|intros [=]; lia]..].
  rewrite Z.compare_eq_iff. split; [intros; congruence | intros [=]; lia].
Qed.

Lemma Range_cmp_lt r s :
  Range_cmp r s = Lt -> r_min r < r_min s \/ (r_min r = r_min s /\ r_max r < r_max s).
Proof.
  unfold Range_cmp. destruct (Z.compare_spec (r_min r) (r_min s)); try done; [|intros; lia].
  destruct (Z.compare_spec (r_max r) (r_max s)); intros; try done; lia.
Qed.

Lemma Range_cmp_gt r s :
  Range_cmp r s = Gt -> r_min s < r_min r \/ (r_min r = r_min s /\ r_max s < r_max r).
Proof.
  unfold Range_cmp. destruct (Z.compare_spec (r_min r) (r_min s)); try done; [|intros; lia].
  destruct (Z.compare_spec (r_max r) (r_max s)); intros; try done; lia.
Qed.

(** For ranges that do not meet, the order is "lies before". *)
Lemma Range_intersect_false r s :
  r_min r <= r_max r -> r_min s <= r_max s ->
  Range_intersect r s = false <-> r_max r < r_min s \/ r_max s < r_min r.
Proof. intros. unfold Range_intersect. rewrite Z.leb_gt. lia. Qed.

Lemma Range_intersect_spec r s :
  r_min r <= r_max r -> r_min s <= r_max s ->
  Range_intersect r s = true <-> exists a, in_range a r /\ in_range a s.
Proof.
  intros. unfold Range_intersect, in_range. rewrite Z.leb_le. split; [|intros [a ?]; lia].
  intros. exists (Z.max (r_min r) (r_min s)). lia.
Qed.

Lemma Range_contain_spec r s :
  r_min s <= r_max s ->
  Range_contain r s = true <-> (forall a, in_range a s -> in_range a r).
Proof.
  intros Hs. unfold Range_contain, in_range. rewrite andb_true_iff, Z.geb_leb, !Z.leb_le.
  split; [lia|]. intros H. pose proof (H (r_min s)). pose proof (H (r_max s)). lia.
Qed.

(** The alignment a constraint asks for, with 0 meaning none. *)
Definition eff_align (a : Z) : Z := Z.max 1 a.
Definition good_align (a : Z) : Prop := a = 0 \/ is_pow2 a = true.

(** The aligned lower end, as a relation: the least multiple of the alignment
    that is at least [lo]. *)
Definition least_aligned (lo a m : Z) : Prop :=
  lo <= m /\ (eff_align a | m) /\ forall x, lo <= x -> (eff_align a | x) -> m <= x.

Lemma align_to_spec r a :
  valid_range r -> in_u64 a ->
  exists o, Range_align_to r a = Ret o /\
    match o with
    | Some r' => good_align a /\ r_max r' = r_max r /\ r_min r' <= r_max r' /\
                 least_aligned (r_min r) a (r_min r')
    | None => ~ good_align a \/
              forall x, in_range x r -> ~ (eff_align a | x)
    end.
Proof.
  intros (Hm & Hu & Hf) Ha. unfold Range_align_to, good_align, least_aligned, in_range.
  destruct ((a =? 0) || (a =? 1)) eqn:E01.
  { exists (Some r). split; [done|]. bools.
    assert (Ea : eff_align a = 1) by (unfold eff_align; destruct E01; bools; lia). rewrite Ea.
    split; [destruct E01; bools; subst; [by left | by right]|].
    split; [done|]. split; [lia|]. split; [lia|]. split; [apply Z.divide_1_l | tauto]. }
  bools. unfold is_pow2.
  assert (Ea : eff_align a = a) by (unfold eff_align; ulia). rewrite Ea.
  destruct (Z.land a (a - 1) =? 0) eqn:Ep; simpl; [|eexists; split; [done|left; intros [->|]; done]].
  unfold checked_add. destruct (r_min r + (a - 1) <=? u64_max) eqn:Eo; bools.
  - destruct (round_up_pow2 (r_min r) a) as [[Hlo Hhi] Hdiv]; [ulia|by apply Z.eqb_eq|ulia..|].
    fold (round_up (r_min r) a).
    destruct (round_up (r_min r) a <=? r_max r) eqn:El; bools.
    + rewrite Range_new_ret by lia. eexists; split; [done|]. simpl.
      split; [by right|]. do 3 (split; [done || lia|]). split; [done|].
      intros x Hx Hd. apply (multiple_gap a); [ulia|done..|lia].
    + eexists; split; [done|]. right. intros x Hx Hd.
      assert (round_up (r_min r) a <= x) by (apply (multiple_gap a); [ulia|done..|lia]). lia.
  - eexists; split; [done|]. right. intros x Hx Hd.
    pose proof (is_pow2_inv a ltac:(ulia)) as Hpow.
    assert (Hd64 : (a | 2 ^ 64)).
    { rewrite Hpow by (by apply Z.eqb_eq). exists (2 ^ (64 - Z.log2 a)).
      rewrite <- Z.pow_add_r; [f_equal; lia| |apply Z.log2_nonneg].
      enough (Z.log2 a < 64) by lia. apply Z.log2_lt_pow2; ulia. }
    assert (2 ^ 64 <= x) by (apply (multiple_gap a); [ulia|done..|ulia]). ulia.
Qed.

(** An aligned range stays within the range and valid. *)
Lemma align_to_valid r a r' :
  valid_range r -> in_u64 a -> Range_align_to r a = Ret (Some r') ->
  valid_range r' /\ r_min r <= r_min r' /\ r_max r' = r_max r.
Proof.
  intros Hr Ha E. destruct (align_to_spec r a Hr Ha) as (o & E' & Ho).
  rewrite E in E'. injection E' as <-. destruct Ho as (_ & Hx & Hle & Hlo & _).
  destruct Hr as (?&?&?). repeat split; try lia.
Qed.

(** Alignment ([Range::align_to]) on a valid range never panics; it
    succeeds exactly when the alignment is 0 or a power of two and the range
    holds a multiple of it, and then returns the same upper end with the least
    such multiple as its lower end. *)
Theorem align_to_complete r a :
  valid_range r -> in_u64 a ->
  exists o, Range_align_to r a = Ret o /\
    (forall r', o = Some r' ->
       r_max r' = r_max r /\ r_min r' <= r_max r' /\ least_aligned (r_min r) a (r_min r')) /\
    (is_Some o <-> good_align a /\ exists x, in_range x r /\ (eff_align a | x)).
Proof.
  intros Hr Ha. destruct (align_to_spec r a Hr Ha) as (o & E & Ho).
  exists o. split; [done|]. split.
  - intros r' ->. by destruct Ho as (_ & ? & ? & ?).
  - destruct o as [r'|].
    + split; [|by eauto]. intros _. destruct Ho as (Hg & Hx & Hle & Hlo & Hd & _).
      split; [done|]. exists (r_min r'). unfold in_range. split; [lia|done].
    + split; [by intros [? [=]]|]. intros (Hg & x & Hx & Hd). destruct Ho as [Ho|Ho]; [done|].
      by destruct (Ho x Hx).
Qed.

(** The witness: aligning [2, 6] to 4. *)
Lemma align_to_complete_witness :
  exists o, Range_align_to (mkRange 2 6) 4 = Ret o /\
    (forall r', o = Some r' ->
       r_max r' = 6 /\ r_min r' <= r_max r' /\ least_aligned 2 4 (r_min r')) /\
    (is_Some o <-> good_align 4 /\ exists x, in_range x (mkRange 2 6) /\ (eff_align 4 | x)).
Proof.
  apply (align_to_complete (mkRange 2 6) 4); unfold valid_range; simpl; ulia.
Defined.

Example align_to_doc :
  map (fun a => Range_align_to (mkRange 2 6) a) [0; 1; 2; 4; 8; 3] =
  [Ret (Some (mkRange 2 6)); Ret (Some (mkRange 2 6)); Ret (Some (mkRange 2 6));
   Ret (Some (mkRange 4 6)); Ret None; Ret None].
Proof. vm_compute. reflexivity. Qed.
