(* ===== verification/IntervalTree.v ===== *)
(** The balanced interval tree behind every resource pool
    (src/src/dragonball/src/dbs_allocator/src/interval_tree.rs): data and
    operations.

    [Option<Node<T>>] is the type [tree T], with [Leaf] for [None]; the code
    calls a method of [Node] only on [Some], and a method that recurses through
    [Option::and_then] or a [match] on a child gives on [Leaf] what the code's
    [None] arm gives.  Where the code would [expect] a node, [Leaf] panics.
    [&mut self] methods return the new node beside their result. *)

From S2P Require Import Prelude Range.

(** ** [enum NodeState] *)

Inductive NodeState (T : Type) :=
| Free
| Allocated
| Valued (data : T).
Arguments Free {T}.
Arguments Allocated {T}.
Arguments Valued {T} data.

Section Tree.
Context {T : Type}.

(** [NodeState::is_free]. *)
Definition NodeState_is_free (s : NodeState T) : bool :=
  match s with Free => true | _ => false end.

(** [NodeState::take]: the old state, [Free] left behind. *)
Definition NodeState_take (s : NodeState T) : NodeState T * NodeState T := (s, Free).

(** [NodeState::replace]: the old state, [value] left behind. *)
Definition NodeState_replace (s value : NodeState T) : NodeState T * NodeState T := (s, value).

(** [From<NodeState<T>> for Option<T>]. *)
Definition NodeState_into (n : NodeState T) : option T :=
  match n with
  | Free | Allocated => None
  | Valued data => Some data
  end.

(** What a holder of [NodeState<&mut T>] ([NodeState::as_mut]) can do to the
    state: replace the data of a valued node. *)
Definition NodeState_as_mut (f : T -> T) (s : NodeState T) : NodeState T :=
  match s with
  | Valued x => Valued (f x)
  | Allocated => Allocated
  | Free => Free
  end.

(** ** [struct InnerNode], [struct Node] and [Option<Node>] *)

Inductive tree :=
| Leaf
| Node (key : Range) (data : NodeState T) (left right : tree) (ht : Z) (mk : Z).

Definition is_some (t : tree) : bool := match t with Leaf => false | _ => true end.

(** [fn height] and [fn max_key]: the cached values, 0 for [None]. *)
Definition height (t : tree) : Z := match t with Leaf => 0 | Node _ _ _ _ h _ => h end.
Definition max_key (t : tree) : Z := match t with Leaf => 0 | Node _ _ _ _ _ m => m end.

(** [InnerNode::new]. *)
Definition InnerNode_new (key : Range) (data : NodeState T) : tree :=
  Node key data Leaf Leaf 1 (r_max key).

(** [Node::new]. *)
Definition Node_new (key : Range) (data : option T) : tree :=
  let value := match data with Some t => Valued t | None => Free end in
  InnerNode_new key value.

(** [Node::search]. *)
Fixpoint Node_search (t : tree) (key : Range) : option tree :=
  match t with
  | Leaf => None
  | Node k d l r h m =>
      match Range_cmp k key with
      | Eq => Some t
      | Lt => Node_search r key
      | Gt => Node_search l key
      end
  end.

(** [Node::search_superset]. *)
Fixpoint Node_search_superset (t : tree) (key : Range) : option tree :=
  match t with
  | Leaf => None
  | Node k d l r h m =>
      if Range_contain k key then Some t
      else if (r_max key <? r_min k) && is_some l then Node_search_superset l key
      else if (r_min key >? r_max k) && is_some r then Node_search_superset r key
      else None
  end.

(** [Node::search_superset_mut] together with the use of the reference it
    returns: [f] is applied to the data of the node found. *)
Fixpoint Node_search_superset_mut (t : tree) (key : Range) (f : T -> T) : option (tree * Range * NodeState T) :=
  match t with
  | Leaf => None
  | Node k d l r h m =>
      if Range_contain k key then Some (Node k (NodeState_as_mut f d) l r h m, k, d)
      else if (r_max key <? r_min k) && is_some l then
        match Node_search_superset_mut l key f with
        | Some (l', k', d') => Some (Node k d l' r h m, k', d')
        | None => None
        end
      else if (r_min key >? r_max k) && is_some r then
        match Node_search_superset_mut r key f with
        | Some (r', k', d') => Some (Node k d l r' h m, k', d')
        | None => None
        end
      else None
  end.

(** [Node::update_cached_info]. *)
Definition Node_update_cached_info (t : tree) : outcome tree :=
  match t with
  | Leaf => Panic
  | Node k d l r _ _ =>
      let! h := add_u u32_max (Z.max (height l) (height r)) 1 in
      Ret (Node k d l r h (Z.max (max_key l) (Z.max (max_key r) (r_max k))))
  end.

(** [Node::rotate_left]. *)
Definition Node_rotate_left (t : tree) : outcome tree :=
  match t with
  | Leaf => Panic
  | Node k d l r h m =>
      match r with
      | Leaf => Panic (* expect("Node is broken") *)
      | Node nk nd nl nr nh nm =>
          let! self := Node_update_cached_info (Node k d l nl h m) in
          Node_update_cached_info (Node nk nd self nr nh nm)
      end
  end.

(** [Node::rotate_right]. *)
Definition Node_rotate_right (t : tree) : outcome tree :=
  match t with
  | Leaf => Panic
  | Node k d l r h m =>
      match l with
      | Leaf => Panic (* expect("Node is broken") *)
      | Node nk nd nl nr nh nm =>
          let! self := Node_update_cached_info (Node k d nr r h m) in
          Node_update_cached_info (Node nk nd nl self nh nm)
      end
  end.

(** [Node::rotate_left_successor]. *)
Definition Node_rotate_left_successor (t : tree) : outcome tree :=
  match t with
  | Leaf => Panic
  | Node k d l r h m =>
      match l with
      | Leaf => Panic (* expect("Node is broken") *)
      | Node _ _ ll lr _ _ =>
          let! self :=
            if height ll <? height lr then
              let! rotated := Node_rotate_left l in
              Node_update_cached_info (Node k d rotated r h m)
            else Ret t in
          Node_rotate_right self
      end
  end.

(** [Node::rotate_right_successor]. *)
Definition Node_rotate_right_successor (t : tree) : outcome tree :=
  match t with
  | Leaf => Panic
  | Node k d l r h m =>
      match r with
      | Leaf => Panic (* expect("Node is broken") *)
      | Node _ _ rl rr _ _ =>
          let! self :=
            if height rl >? height rr then
              let! rotated := Node_rotate_right r in
              Node_update_cached_info (Node k d l rotated h m)
            else Ret t in
          Node_rotate_left self
      end
  end.

(** [Node::rotate]. *)
Definition Node_rotate (t : tree) : outcome tree :=
  match t with
  | Leaf => Panic
  | Node k d l r h m =>
      let diff := as_i32 (height l) - as_i32 (height r) in
      if (diff =? 1) || (diff =? 0) || (diff =? -1) then Ret t
      else if diff =? 2 then Node_rotate_left_successor t
      else if diff =? -2 then Node_rotate_right_successor t
      else Panic (* unreachable!() *)
  end.

(** [Node::updated_node]. *)
Definition Node_updated_node (t : tree) : outcome tree :=
  let! t := Node_update_cached_info t in
  Node_rotate t.

(** [Node::insert]; a missing child becomes [Node::new(key, data)]. *)
Fixpoint Node_insert (t : tree) (key : Range) (data : option T) : outcome tree :=
  match t with
  | Leaf => Ret (Node_new key data)
  | Node k d l r h m =>
      let! self :=
        match Range_cmp k key with
        | Eq => Panic (* key exists *)
        | Lt =>
            if Range_intersect k key then Panic
            else let! r' := Node_insert r key data in Ret (Node k d l r' h m)
        | Gt =>
            if Range_intersect k key then Panic
            else let! l' := Node_insert l key data in Ret (Node k d l' r h m)
        end in
      Node_updated_node self
  end.

(** [Node::update]: the old value and the updated node. *)
Fixpoint Node_update (t : tree) (key : Range) (data : NodeState T) : outcome (option T * tree) :=
  match t with
  | Leaf => Ret (None, Leaf)
  | Node k d l r h m =>
      match Range_cmp k key with
      | Eq =>
          match d, data with
          | Free, Free | Free, Valued _
          | Allocated, Free | Allocated, Allocated
          | Valued _, Free | Valued _, Allocated => Panic
          | _, _ =>
              let (old, d') := NodeState_replace d data in
              Ret (NodeState_into old, Node k d' l r h m)
          end
      | Lt =>
          let! (old, r') := Node_update r key data in
          Ret (old, Node k d l r' h m)
      | Gt =>
          let! (old, l') := Node_update l key data in
          Ret (old, Node k d l' r h m)
      end
  end.

(** [Node::get_new_root]: the node of least key, and the rest. *)
Fixpoint Node_get_new_root (t : tree) : outcome (tree * tree) :=
  match t with
  | Leaf => Panic
  | Node k d l r h m =>
      match l with
      | Leaf => Ret (Node k d Leaf Leaf h m, r)
      | _ =>
          let! (min_node, l') := Node_get_new_root l in
          let! self := Node_updated_node (Node k d l' r h m) in
          Ret (min_node, self)
      end
  end.

(** [Node::combine_subtrees]. *)
Definition Node_combine_subtrees (l r : tree) : outcome tree :=
  let! (new_root, remaining) := Node_get_new_root r in
  match new_root with
  | Leaf => Panic
  | Node k d _ _ h m => Node_updated_node (Node k d l remaining h m)
  end.

(** [Node::delete_root]. *)
Definition Node_delete_root (l r : tree) : outcome tree :=
  match l, r with
  | Leaf, Leaf => Ret Leaf
  | _, Leaf => Ret l
  | Leaf, _ => Ret r
  | _, _ => Node_combine_subtrees l r
  end.

(** [Node::delete]: the data of the deleted node, and the remaining tree. *)
Fixpoint Node_delete (t : tree) (key : Range) : outcome (option T * tree) :=
  match t with
  | Leaf => Ret (None, Leaf)
  | Node k d l r h m =>
      match Range_cmp k key with
      | Eq =>
          let (data, _) := NodeState_take d in
          let! root := Node_delete_root l r in
          Ret (NodeState_into data, root)
      | Lt =>
          match r with
          | Leaf => Ret (None, t)
          | _ =>
              let! (data, r') := Node_delete r key in
              let! self := Node_updated_node (Node k d l r' h m) in
              Ret (data, self)
          end
      | Gt =>
          match l with
          | Leaf => Ret (None, t)
          | _ =>
              let! (data, l') := Node_delete l key in
              let! self := Node_updated_node (Node k d l' r h m) in
              Ret (data, self)
          end
      end
  end.

(** [Node::check_constraint]. *)
Definition Node_check_constraint (key : Range) (data : NodeState T) (c : Constraint) : outcome bool :=
  if NodeState_is_free data then
    let min := Z.max (r_min key) (c_min c) in
    let max := Z.min (r_max key) (c_max c) in
    if min <=? max then
      let! key := Range_new min max in
      if (c_align c =? 0) || (c_align c =? 1) then
        let! len := Range_len key in Ret (len >=? c_size c)
      else
        let! aligned := Range_align_to key (c_align c) in
        match aligned with
        | None => Ret false
        | Some aligned_key => let! len := Range_len aligned_key in Ret (len >=? c_size c)
        end
    else Ret false
  else Ret false.

(** [Node::first_match]: leftmost node that satisfies the constraint. *)
Fixpoint Node_first_match (t : tree) (c : Constraint) : outcome (option tree) :=
  match t with
  | Leaf => Ret None
  | Node k d l r h m =>
      let! candidate := if is_some l then Node_first_match l c else Ret None in
      let! candidate :=
        match candidate with
        | None => let! ok := Node_check_constraint k d c in Ret (if ok then Some t else None)
        | Some _ => Ret candidate
        end in
      match candidate with
      | None => if is_some r then Node_first_match r c else Ret None
      | Some _ => Ret candidate
      end
  end.

(** [Node::find_candidate]. *)
Definition Node_find_candidate (t : tree) (c : Constraint) : outcome (option tree) :=
  match c_policy c with
  | FirstMatch => Node_first_match t c
  | PolicyDefault => Node_first_match t c
  end.

(** ** [struct IntervalTree] *)

Record IntervalTree := mkIntervalTree { root : tree }.

(** [IntervalTree::new] and [is_empty]. *)
Definition IntervalTree_new : IntervalTree := mkIntervalTree Leaf.
Definition IntervalTree_is_empty (t : IntervalTree) : bool := negb (is_some (root t)).

(** [IntervalTree::get]. *)
Definition IntervalTree_get (t : IntervalTree) (key : Range) : option (NodeState T) :=
  match Node_search (root t) key with
  | Some (Node _ d _ _ _ _) => Some d
  | _ => None
  end.

(** [IntervalTree::get_superset]. *)
Definition IntervalTree_get_superset (t : IntervalTree) (key : Range) : option (Range * NodeState T) :=
  match Node_search_superset (root t) key with
  | Some (Node k d _ _ _ _) => Some (k, d)
  | _ => None
  end.

(** [IntervalTree::get_superset_mut], with the update [f] its caller makes. *)
Definition IntervalTree_get_superset_mut (t : IntervalTree) (key : Range) (f : T -> T) :
    option (Range * NodeState T) * IntervalTree :=
  match Node_search_superset_mut (root t) key f with
  | Some (r, k, d) => (Some (k, d), mkIntervalTree r)
  | None => (None, t)
  end.

(** [IntervalTree::get_by_id]. *)
Definition IntervalTree_get_by_id (t : IntervalTree) (id : Z) : option T :=
  let key := Range_new_point id in
  match Node_search_superset (root t) key with
  | Some (Node _ d _ _ _ _) => NodeState_into d
  | _ => None
  end.

(** [IntervalTree::get_by_id_mut], with the update [f] its caller makes. *)
Definition IntervalTree_get_by_id_mut (t : IntervalTree) (id : Z) (f : T -> T) : option T * IntervalTree :=
  let key := Range_new_point id in
  match Node_search_superset_mut (root t) key f with
  | Some (r, _, d) => (NodeState_into d, mkIntervalTree r)
  | None => (None, t)
  end.

(** [IntervalTree::insert]. *)
Definition IntervalTree_insert (t : IntervalTree) (key : Range) (data : option T) : outcome IntervalTree :=
  let! r := Node_insert (root t) key data in Ret (mkIntervalTree r).

(** [IntervalTree::update]. *)
Definition IntervalTree_update (t : IntervalTree) (key : Range) (data : T) : outcome (option T * IntervalTree) :=
  let! (old, r) := Node_update (root t) key (Valued data) in
  Ret (old, mkIntervalTree r).

(** [IntervalTree::delete]. *)
Definition IntervalTree_delete (t : IntervalTree) (key : Range) : outcome (option T * IntervalTree) :=
  let! (data, r) := Node_delete (root t) key in
  Ret (data, mkIntervalTree r).

(** [self.root.as_mut().unwrap().update(key, Allocated)], its result dropped. *)
Definition mark_allocated (t : IntervalTree) (key : Range) : outcome IntervalTree :=
  match root t with
  | Leaf => Panic
  | n => let! (_, r) := Node_update n key Allocated in Ret (mkIntervalTree r)
  end.

(** [IntervalTree::allocate]. *)
Definition IntervalTree_allocate (t : IntervalTree) (c : Constraint) :
    outcome (option Range * IntervalTree) :=
  if c_size c =? 0 then Ret (None, t)
  else
    let! candidate := Node_find_candidate (root t) c in
    match candidate with
    | Some (Node node_key _ _ _ _ _) =>
        let! range := Range_new (Z.max (r_min node_key) (c_min c)) (Z.min (r_max node_key) (c_max c)) in
        let! aligned := Range_align_to range (c_align c) in
        let! aligned_key := unwrap aligned in
        let! e := add_u u64_max (r_min aligned_key) (c_size c) in
        let! e := sub_u e 1 in
        let! result := Range_new (r_min aligned_key) e in
        let! whole :=
          if r_min node_key =? r_min aligned_key
          then let! len := Range_len node_key in Ret (len =? c_size c)
          else Ret false in
        if (whole : bool) then
          let! t := mark_allocated t node_key in Ret (Some node_key, t)
        else
          let! (_, t) := IntervalTree_delete t node_key in
          let! t :=
            if r_min aligned_key >? r_min node_key then
              let! lo := Range_new (r_min node_key) (r_min aligned_key - 1) in
              IntervalTree_insert t lo None
            else Ret t in
          let! t := IntervalTree_insert t result None in
          let! t :=
            if r_max result <? r_max node_key then
              let! hi := Range_new (r_max result + 1) (r_max node_key) in
              IntervalTree_insert t hi None
            else Ret t in
          let! t := mark_allocated t result in
          Ret (Some result, t)
    | _ => Ret (None, t)
    end.

(** [IntervalTree::free]. *)
Definition IntervalTree_free (t : IntervalTree) (key : Range) : outcome (option T * IntervalTree) :=
  let! (result, t) := IntervalTree_delete t key in
  let! lo :=
    if r_min key >? 0 then
      let! p := Range_new (r_min key - 1) (r_min key - 1) in
      Ret (match IntervalTree_get_superset t p with
           | Some (r, v) => if NodeState_is_free v then r_min r else r_min key
           | None => r_min key
           end)
    else Ret (r_min key) in
  let! hi :=
    if r_max key <? u64_max then
      let! p := Range_new (r_max key + 1) (r_max key + 1) in
      Ret (match IntervalTree_get_superset t p with
           | Some (r, v) => if NodeState_is_free v then r_max r else r_max key
           | None => r_max key
           end)
    else Ret (r_max key) in
  let! t :=
    if lo <? r_min key then
      let! k := Range_new lo (r_min key - 1) in
      let! (_, t) := IntervalTree_delete t k in Ret t
    else Ret t in
  let! t :=
    if hi >? r_max key then
      let! k := Range_new (r_max key + 1) hi in
      let! (_, t) := IntervalTree_delete t k in Ret t
    else Ret t in
  let! t := IntervalTree_insert t (mkRange lo hi) None in
  Ret (result, t).

End Tree.

Arguments tree : clear implicits.
Arguments IntervalTree : clear implicits.

(** The examples of the module's documentation. *)
Module Examples.

Definition pool : outcome (IntervalTree Z) :=
  let! t := IntervalTree_insert IntervalTree_new (mkRange 256 256) None in
  IntervalTree_insert t (mkRange 512 767) None.

Definition doc_constraint : Constraint :=
  Constraint_align (Constraint_max (Constraint_min (Constraint_new 8) 529) 543) 8.

Example doc_allocate :
  (let! t := pool in
   let! (key, t) := IntervalTree_allocate t doc_constraint in
   let! (old1, t1) := IntervalTree_update t (mkRange 536 543) 2 in
   let! (old2, t2) := IntervalTree_update t1 (mkRange 536 543) 3 in
   let! (old3, t3) := IntervalTree_free t2 (mkRange 536 543) in
   Ret (key, IntervalTree_get t (mkRange 536 543), old1, old2, old3,
        IntervalTree_get t3 (mkRange 512 767)))
  = Ret (Some (mkRange 536 543), Some Allocated, None, Some 2, Some 3, Some Free).
Proof. vm_compute. reflexivity. Qed.

End Examples.
