(* ===== verification/IntervalTreeInv.v ===== *)
(** The invariant of the interval tree and the refinement of its operations.

    A tree is abstracted by [elements], its (key, state) pairs in key order.
    [chain lo hi] says that a list of entries is ordered, disjoint and within
    [lo .. hi]; [balanced] says that the cached heights and maxima are right and
    that sibling heights differ by at most one.  Every operation preserves the
    invariant, never panics on the inputs the callers use, and acts on
    [elements] as list insertion, deletion, update in place and search. *)

From S2P Require Import Prelude Range IntervalTree.

Section Inv.
Context {T : Type}.
Abbreviation tree := (tree T).
Abbreviation entry := (Range * NodeState T)%type.
Implicit Types (t l r : tree) (es : list entry) (k : Range) (d : NodeState T).

(** ** Abstraction *)

Fixpoint elements (t : tree) : list entry :=
  match t with
  | Leaf => []
  | Node k d l r _ _ => elements l ++ (k, d) :: elements r
  end.

Fixpoint chain (lo hi : Z) (es : list entry) : Prop :=
  match es with
  | [] => True
  | (k, d) :: es' => lo <= r_min k /\ r_min k <= r_max k <= hi /\ chain (r_max k + 1) hi es'
  end.

Lemma chain_weaken es lo lo' hi hi' :
  chain lo hi es -> lo' <= lo -> hi <= hi' -> chain lo' hi' es.
Proof.
  revert lo lo'. induction es as [|[k d] es IH]; [done|]. simpl.
  intros lo lo' (?&?&?) ??. split_and!; [lia..|]. eapply IH; [done|lia..].
Qed.

Lemma chain_app es1 k d es2 lo hi :
  chain lo hi (es1 ++ (k, d) :: es2) <->
  chain lo (r_min k - 1) es1 /\ lo <= r_min k /\ r_min k <= r_max k <= hi /\
  chain (r_max k + 1) hi es2.
Proof.
  revert lo. induction es1 as [|[k1 d1] es1 IH]; intros lo; simpl; [tauto|].
  rewrite IH. split; intros; destruct_and?; split_and?; auto; lia.
Qed.

Lemma chain_elem es lo hi k d :
  chain lo hi es -> (k, d) ∈ es -> lo <= r_min k /\ r_min k <= r_max k <= hi.
Proof.
  intros Hc (es1 & es2 & ->)%list_elem_of_split. apply chain_app in Hc. tauto.
Qed.

Lemma chain_app_r es1 es2 lo hi : chain lo hi (es1 ++ es2) -> chain lo hi es2.
Proof.
  revert lo. induction es1 as [|[k1 d1] es1 IH]; [done|]. simpl.
  intros lo (?&?&H%IH). eapply chain_weaken; [done|lia..].
Qed.

Lemma chain_remove es1 k d es2 lo hi :
  chain lo hi (es1 ++ (k, d) :: es2) -> chain lo hi (es1 ++ es2).
Proof.
  revert lo. induction es1 as [|[k1 d1] es1 IH]; intros lo; simpl.
  - intros (?&?&?). eapply chain_weaken; [done|lia..].
  - intros (?&?&?). auto.
Qed.

Lemma chain_replace es1 k d d' es2 lo hi :
  chain lo hi (es1 ++ (k, d) :: es2) -> chain lo hi (es1 ++ (k, d') :: es2).
Proof. by rewrite !chain_app. Qed.

Lemma chain_length es lo hi :
  chain lo hi es -> lo <= hi + 1 -> Z.of_nat (length es) <= hi - lo + 1.
Proof.
  revert lo. induction es as [|[k d] es IH]; intros lo; simpl; [lia|].
  intros (?&?&H) ?. apply IH in H; lia.
Qed.

(** Keys are unique. *)
Lemma chain_unique es lo hi k d d' :
  chain lo hi es -> (k, d) ∈ es -> (k, d') ∈ es -> d = d'.
Proof.
  intros Hc (es1 & es2 & ->)%list_elem_of_split.
  pose proof Hc as (Hl & _ & ? & Hr)%chain_app.
  intros [He|[[= ->]|He]%elem_of_cons]%elem_of_app; [|done|].
  - pose proof (chain_elem _ _ _ _ _ Hl He). lia.
  - pose proof (chain_elem _ _ _ _ _ Hr He). lia.
Qed.

(** An entry has one position, so replacing its state is well defined. *)
Lemma chain_same_split es1 es2 es1' es2' k d d' d'' lo hi :
  chain lo hi (es1 ++ (k, d) :: es2) ->
  es1 ++ (k, d) :: es2 = es1' ++ (k, d') :: es2' ->
  es1' ++ (k, d'') :: es2' = es1 ++ (k, d'') :: es2.
Proof.
  revert es1' lo. induction es1 as [|[k1 d1] es1 IH]; intros [|[k1' d1'] es1'] lo; simpl.
  - by intros _ [= <- <-].
  - intros (? & ? & Hc) [= <- <- ->]. apply chain_app in Hc. lia.
  - intros (? & ? & Hc) [= -> <- <-]. apply chain_app in Hc. lia.
  - intros (? & ? & Hc) [= -> -> He]. f_equal. by eapply IH.
Qed.

(** ** Balance *)

(** A node whose cached fields are right. *)
Definition mkn k d l r : tree :=
  Node k d l r (Z.max (height l) (height r) + 1)
    (Z.max (max_key l) (Z.max (max_key r) (r_max k))).

Inductive balanced : tree -> Prop :=
| balanced_leaf : balanced Leaf
| balanced_node k d l r :
    balanced l -> balanced r -> -1 <= height l - height r <= 1 ->
    balanced (mkn k d l r).

Lemma height_nonneg t : balanced t -> 0 <= height t.
Proof. induction 1; simpl; lia. Qed.

Lemma height_leaf t : balanced t -> height t <= 0 -> t = Leaf.
Proof. destruct 1 as [|k d l r Hl Hr]; [done|]. simpl. apply height_nonneg in Hl. lia. Qed.

(** A balanced tree of height [h] has at least [2 ^ (h / 2) - 1] nodes. *)
Lemma balanced_size t :
  balanced t -> 2 ^ (height t / 2) <= Z.of_nat (length (elements t)) + 1.
Proof.
  induction 1 as [|k d l r Hl IHl Hr IHr Hd]; simpl; [done|].
  rewrite length_app. simpl. pose proof (height_nonneg l Hl). pose proof (height_nonneg r Hr).
  destruct (decide (Z.max (height l) (height r) = 0)) as [E|E].
  { rewrite E. change (2 ^ ((0 + 1) / 2)) with 1. lia. }
  set (m := Z.min (height l) (height r)).
  assert (Hm : forall h, m <= h -> 2 ^ (m / 2) <= 2 ^ (h / 2)).
  { intros h Hh. apply Z.pow_le_mono_r; [lia|]. apply Z.div_le_mono; lia. }
  pose proof (Hm (height l) ltac:(lia)). pose proof (Hm (height r) ltac:(lia)).
  assert (2 ^ ((Z.max (height l) (height r) + 1) / 2) <= 2 * 2 ^ (m / 2)); [|lia].
  rewrite <- Z.pow_succ_r by (apply Z.div_pos; lia).
  apply Z.pow_le_mono_r; [lia|].
  replace (Z.succ (m / 2)) with ((m + 1 * 2) / 2) by (rewrite Z.div_add; lia).
  apply Z.div_le_mono; lia.
Qed.

(** Disjoint ranges of [u64] are at most [2 ^ 64] in number, so the height is
    small: the [u32] addition never overflows and the casts to [i32] are exact. *)
Lemma height_bound t lo :
  balanced t -> 0 <= lo -> chain lo u64_max (elements t) -> height t <= 131.
Proof.
  intros Hb Hlo Hc. destruct (decide (lo <= u64_max)).
  - pose proof (chain_length _ _ _ Hc ltac:(lia)). pose proof (balanced_size _ Hb).
    destruct (decide (height t <= 131)); [done|exfalso].
    assert (2 ^ 66 <= 2 ^ (height t / 2)).
    { apply Z.pow_le_mono_r; [lia|]. change 66 with (132 / 2). apply Z.div_le_mono; lia. }
    change (2 ^ 66) with 73786976294838206464 in *. ulia.
  - destruct Hb as [|k d l r]; [simpl; lia|]. simpl in Hc.
    apply chain_app in Hc. lia.
Qed.

Lemma update_cached_info_ok k d l r h m :
  height l <= 1000 -> height r <= 1000 ->
  Node_update_cached_info (Node k d l r h m) = Ret (mkn k d l r).
Proof. intros. simpl. rewrite add_u_ret by ulia. done. Qed.

Lemma rotate_right_ok k d nk nd nl nr r h m h' m' :
  height nl <= 1000 -> height nr <= 1000 -> height r <= 1000 -> Z.max (height nr) (height r) < 1000 ->
  Node_rotate_right (Node k d (Node nk nd nl nr h' m') r h m) = Ret (mkn nk nd nl (mkn k d nr r)).
Proof.
  intros. cbn [Node_rotate_right]. rewrite update_cached_info_ok by lia. cbn [obind].
  apply update_cached_info_ok; [done|]. simpl. lia.
Qed.

Lemma rotate_left_ok k d nk nd nl nr l h m h' m' :
  height nl <= 1000 -> height nr <= 1000 -> height l <= 1000 -> Z.max (height nl) (height l) < 1000 ->
  Node_rotate_left (Node k d l (Node nk nd nl nr h' m') h m) = Ret (mkn nk nd (mkn k d l nl) nr).
Proof.
  intros. cbn [Node_rotate_left]. rewrite update_cached_info_ok by lia. cbn [obind].
  apply update_cached_info_ok; [|done]. simpl. lia.
Qed.

(** Restoring balance after a subtree grew or shrank by one. *)
Lemma rotate_left_successor_ok k d l r h m :
  balanced l -> balanced r -> height l = height r + 2 -> height l <= 500 ->
  exists t', Node_rotate_left_successor (Node k d l r h m) = Ret t' /\ balanced t' /\
    elements t' = elements l ++ (k, d) :: elements r /\
    height l <= height t' <= height l + 1.
Proof.
  intros Hl Hr Hd Hb. pose proof (height_nonneg r Hr).
  destruct Hl as [|lk ld ll lr Hll Hlr Hld]; [simpl in *; lia|].
  pose proof (height_nonneg ll Hll). pose proof (height_nonneg lr Hlr).
  simpl in Hd, Hb. unfold mkn; cbn [Node_rotate_left_successor].
  destruct (height ll <? height lr) eqn:E; bools; cbn [obind].
  - destruct Hlr as [|rk rd rl rr Hrl Hrr Hrd]; [simpl in *; lia|].
    simpl in Hd, Hb, Hld, E, H0, H1. pose proof (height_nonneg rl Hrl). pose proof (height_nonneg rr Hrr).
    unfold mkn. rewrite rotate_left_ok by lia. cbn [obind].
    rewrite update_cached_info_ok by (simpl; lia). cbn [obind]; unfold mkn at 1 2.
    rewrite rotate_right_ok by (simpl; lia).
    eexists; split; [done|]. split; [|split; [|simpl; lia]].
    + repeat constructor; simpl; auto; lia.
    + simpl. by app_norm.
  - rewrite rotate_right_ok by lia.
    eexists; split; [done|]. split; [|split; [|simpl; lia]].
    + repeat constructor; simpl; auto; lia.
    + simpl. by app_norm.
Qed.

Lemma rotate_right_successor_ok k d l r h m :
  balanced l -> balanced r -> height r = height l + 2 -> height r <= 500 ->
  exists t', Node_rotate_right_successor (Node k d l r h m) = Ret t' /\ balanced t' /\
    elements t' = elements l ++ (k, d) :: elements r /\
    height r <= height t' <= height r + 1.
Proof.
  intros Hl Hr Hd Hb. pose proof (height_nonneg l Hl).
  destruct Hr as [|rk rd rl rr Hrl Hrr Hrd]; [simpl in *; lia|].
  pose proof (height_nonneg rl Hrl). pose proof (height_nonneg rr Hrr).
  simpl in Hd, Hb. unfold mkn; cbn [Node_rotate_right_successor].
  destruct (height rl >? height rr) eqn:E; bools; cbn [obind].
  - destruct Hrl as [|lk ld ll lr Hll Hlr Hld]; [simpl in *; lia|].
    simpl in Hd, Hb, Hrd, E, H0, H1. pose proof (height_nonneg ll Hll). pose proof (height_nonneg lr Hlr).
    unfold mkn. rewrite rotate_right_ok by lia. cbn [obind].
    rewrite update_cached_info_ok by (simpl; lia). cbn [obind]; unfold mkn at 1 2.
    rewrite rotate_left_ok by (simpl; lia).
    eexists; split; [done|]. split; [|split; [|simpl; lia]].
    + repeat constructor; simpl; auto; lia.
    + simpl. by app_norm.
  - rewrite rotate_left_ok by lia.
    eexists; split; [done|]. split; [|split; [|simpl; lia]].
    + repeat constructor; simpl; auto; lia.
    + simpl. by app_norm.
Qed.

Lemma as_i32_small x : 0 <= x <= 1000 -> as_i32 x = x.
Proof. intros. unfold as_i32. case_goal; bools; ulia. Qed.

Lemma updated_node_ok k d l r h m :
  balanced l -> balanced r -> -2 <= height l - height r <= 2 ->
  height l <= 500 -> height r <= 500 ->
  exists t', Node_updated_node (Node k d l r h m) = Ret t' /\ balanced t' /\
    elements t' = elements l ++ (k, d) :: elements r /\
    Z.max (height l) (height r) <= height t' <= Z.max (height l) (height r) + 1 /\
    (-1 <= height l - height r <= 1 -> height t' = Z.max (height l) (height r) + 1).
Proof.
  intros Hl Hr Hd Hbl Hbr. unfold Node_updated_node.
  rewrite update_cached_info_ok by lia. cbn [obind]; unfold mkn; cbn [Node_rotate].
  pose proof (height_nonneg l Hl). pose proof (height_nonneg r Hr).
  rewrite !as_i32_small by lia.
  case_goal.
  { eexists; split; [done|]. split; [|split; [done|simpl; lia]].
    apply balanced_node; auto. lia. }
  case_goal.
  { edestruct (rotate_left_successor_ok k d l r) as (t' & E & ? & ? & ?); [done..|lia|lia|].
    rewrite E. exists t'. split_and!; auto; lia. }
  case_goal.
  { edestruct (rotate_right_successor_ok k d l r) as (t' & E & ? & ? & ?); [done..|lia|lia|].
    rewrite E. exists t'. split_and!; auto; lia. }
  exfalso. lia.
Qed.

End Inv.

#[global] Hint Constructors balanced : rust.

Section Ops.
Context {T : Type}.
Abbreviation tree := (tree T).
Abbreviation entry := (Range * NodeState T)%type.
Implicit Types (t l r : tree) (es : list entry) (k key : Range) (d : NodeState T).

(** The state of a node created by [Node::new]. *)
Definition state_of (data : option T) : NodeState T :=
  match data with Some x => Valued x | None => Free end.

#[local] Instance is_leaf_dec t : Decision (t = Leaf).
Proof. destruct t; [by left|by right]. Defined.

Lemma balanced_inv k d l r h m :
  balanced (Node k d l r h m) ->
  balanced l /\ balanced r /\ -1 <= height l - height r <= 1 /\
  h = Z.max (height l) (height r) + 1 /\ m = Z.max (max_key l) (Z.max (max_key r) (r_max k)).
Proof. inversion 1; subst. auto. Qed.

Lemma bounded_height t lo hi :
  balanced t -> 0 <= lo -> hi <= u64_max -> chain lo hi (elements t) -> 0 <= height t <= 131.
Proof.
  intros Hb ?? Hc. split; [by apply height_nonneg|]. apply (height_bound t lo); auto.
  eapply chain_weaken; eauto; lia.
Qed.

Lemma before_cmp k key :
  r_min k <= r_max k -> r_max k < r_min key -> r_min key <= r_max key ->
  Range_cmp k key = Lt /\ Range_cmp key k = Gt /\
  Range_intersect k key = false /\ Range_intersect key k = false.
Proof.
  intros. unfold Range_cmp, Range_intersect.
  rewrite (proj2 (Z.compare_lt_iff (r_min k) (r_min key))) by lia.
  rewrite (proj2 (Z.compare_gt_iff (r_min key) (r_min k))) by lia.
  split_and!; auto; apply Z.leb_gt; lia.
Qed.

Lemma cmp_refl k : Range_cmp k k = Eq.
Proof. by apply Range_cmp_eq. Qed.

(** Splitting the entries of a node at a position. *)
Lemma elements_split (el er es1 es2 : list entry) e :
  el ++ e :: er = es1 ++ es2 ->
  (exists m, es1 = el ++ e :: m /\ er = m ++ es2) \/ (exists m, el = es1 ++ m /\ es2 = m ++ e :: er).
Proof.
  intros [(m & -> & ->)|(m & -> & Hm)]%app_eq_inv; [right; eauto|].
  destruct m as [|e' m].
  - right. exists []. rewrite !app_nil_r. simpl in *. auto.
  - left. injection Hm as -> ->. eauto.
Qed.

Lemma Node_insert_ok t : forall lo hi es1 es2 key data,
  balanced t -> 0 <= lo -> hi <= u64_max ->
  elements t = es1 ++ es2 -> chain lo hi (es1 ++ (key, state_of data) :: es2) ->
  exists t', Node_insert t key data = Ret t' /\ balanced t' /\
    elements t' = es1 ++ (key, state_of data) :: es2 /\ height t <= height t' <= height t + 1.
Proof.
  induction t as [|k d l IHl r IHr h m]; intros lo hi es1 es2 key data Hb Hlo Hhi He Hc.
  { symmetry in He. apply app_nil in He as [-> ->].
    exists (Node_new key data). split; [done|]. split; [|split; [by destruct data|simpl; lia]].
    assert (0 <= r_max key) by (apply chain_app in Hc; lia).
    replace (Node_new key data) with (mkn key (state_of data) Leaf Leaf : tree).
    { repeat constructor; simpl; lia. }
    unfold mkn, Node_new, InnerNode_new, state_of. simpl. f_equal. lia. }
  pose proof (chain_remove _ _ _ _ _ _ Hc) as Hc0. rewrite <- He in Hc0. simpl in Hc0.
  pose proof Hc0 as (Hcl & ? & ? & Hcr)%chain_app.
  apply balanced_inv in Hb as (Hbl & Hbr & Hd & -> & ->).
  pose proof (bounded_height l lo (r_min k - 1) Hbl Hlo ltac:(lia) Hcl).
  pose proof (bounded_height r (r_max k + 1) hi Hbr ltac:(lia) Hhi Hcr).
  simpl in He. apply elements_split in He as [(mid & -> & Her)|(mid & Hel & ->)].
  - rewrite <- app_assoc, <- app_comm_cons in Hc. apply chain_app in Hc as (_ & _ & _ & Hc).
    pose proof Hc as (_ & Hlt & Hk & _)%chain_app.
    destruct (before_cmp k key) as (E1 & _ & E2 & _); [lia..|].
    destruct (IHr (r_max k + 1) hi mid es2 key data) as (r' & E & Hb' & He' & Hh); auto; [lia|].
    destruct (updated_node_ok k d l r' (Z.max (height l) (height r) + 1)
      (Z.max (max_key l) (Z.max (max_key r) (r_max k)))) as (t' & Eu & ? & Hu & ? & ?); auto; [lia..|].
    exists t'. simpl. rewrite E1, E2, E. simpl. split; [done|]. split; [done|].
    split; [rewrite Hu, He'; by app_norm|]. lia.
  - app_norm. rewrite app_comm_cons, app_assoc in Hc. apply chain_app in Hc as (Hc & _ & _ & _).
    pose proof Hc as (_ & _ & Hk & _)%chain_app.
    destruct (before_cmp key k) as (_ & E1 & _ & E2); [lia..|].
    destruct (IHl lo (r_min k - 1) es1 mid key data) as (l' & E & Hb' & He' & Hh); auto; [lia|].
    destruct (updated_node_ok k d l' r (Z.max (height l) (height r) + 1)
      (Z.max (max_key l) (Z.max (max_key r) (r_max k)))) as (t' & Eu & ? & Hu & ? & ?); auto; [lia..|].
    exists t'. simpl. rewrite E1, E2, E. simpl. split; [done|]. split; [done|].
    split; [rewrite Hu, He'; by app_norm|]. lia.
Qed.

(** Inserting a range that meets an existing one panics. *)
Lemma Node_insert_panic t : forall lo hi key data k d,
  chain lo hi (elements t) -> r_min key <= r_max key ->
  (k, d) ∈ elements t -> Range_intersect k key = true -> Node_insert t key data = Panic.
Proof.
  induction t as [|k0 d0 l IHl r IHr h m]; intros lo hi key data k d Hc Hk He Hi; [by inversion He|].
  simpl in Hc, He. pose proof Hc as (Hcl & ? & ? & Hcr)%chain_app. simpl.
  destruct (Range_intersect k0 key) eqn:E0; [by destruct (Range_cmp k0 key)|].
  apply Range_intersect_false in E0; [|lia..].
  assert (Hi' : Z.max (r_min k) (r_min key) <= Z.min (r_max k) (r_max key))
    by (by apply Z.leb_le).
  apply elem_of_app in He as [He|[[= <- <-]|He]%elem_of_cons].
  - pose proof (chain_elem _ _ _ _ _ Hcl He).
    destruct (before_cmp key k0) as (_ & -> & _ & _); [lia..|]. erewrite IHl by eauto. done.
  - lia.
  - pose proof (chain_elem _ _ _ _ _ Hcr He).
    destruct (before_cmp k0 key) as (-> & _ & _ & _); [lia..|]. erewrite IHr by eauto. done.
Qed.

Lemma Node_get_new_root_ok t : forall lo hi,
  balanced t -> t <> Leaf -> 0 <= lo -> hi <= u64_max -> chain lo hi (elements t) ->
  exists k d h m rest, Node_get_new_root t = Ret (Node k d Leaf Leaf h m, rest) /\
    elements t = (k, d) :: elements rest /\ balanced rest /\
    height t - 1 <= height rest <= height t.
Proof.
  induction t as [|k d l IHl r IHr h m]; intros lo hi Hb Hne Hlo Hhi Hc; [done|].
  apply balanced_inv in Hb as (Hbl & Hbr & Hd & -> & ->).
  simpl in Hc. pose proof Hc as (Hcl & ? & ? & Hcr)%chain_app.
  pose proof (bounded_height l lo (r_min k - 1) Hbl Hlo ltac:(lia) Hcl).
  pose proof (bounded_height r (r_max k + 1) hi Hbr ltac:(lia) Hhi Hcr).
  destruct (decide (l = Leaf)) as [->|Hl].
  { simpl. do 5 eexists. split; [done|]. split; [done|]. split; [done|]. simpl in *. lia. }
  destruct (IHl lo (r_min k - 1)) as (k' & d' & h' & m' & rest & E & He & Hbr' & Hh); auto; [lia|].
  destruct (updated_node_ok k d rest r (Z.max (height l) (height r) + 1)
      (Z.max (max_key l) (Z.max (max_key r) (r_max k)))) as (t' & Eu & ? & Hu & ? & ?); auto; [lia..|].
  exists k', d', h', m', t'. split; [|split; [|split; [done|simpl; lia]]].
  - destruct l; [done|]. cbn [Node_get_new_root] in *. rewrite E. cbn [obind]. by rewrite Eu.
  - simpl. by rewrite He, Hu.
Qed.

Lemma Node_delete_root_ok k d l r lo hi :
  balanced l -> balanced r -> -1 <= height l - height r <= 1 ->
  0 <= lo -> hi <= u64_max -> chain lo hi (elements l ++ (k, d) :: elements r) ->
  exists t', Node_delete_root l r = Ret t' /\ balanced t' /\ elements t' = elements l ++ elements r /\
    Z.max (height l) (height r) <= height t' <= Z.max (height l) (height r) + 1.
Proof.
  intros Hbl Hbr Hd Hlo Hhi Hc. pose proof Hc as (Hcl & ? & ? & Hcr)%chain_app.
  pose proof (bounded_height l lo (r_min k - 1) Hbl Hlo ltac:(lia) Hcl).
  pose proof (bounded_height r (r_max k + 1) hi Hbr ltac:(lia) Hhi Hcr).
  unfold Node_delete_root.
  destruct (decide (r = Leaf)) as [->|Hr].
  { exists l. destruct l; simpl in *; rewrite ?app_nil_r; split_and!; auto; lia. }
  destruct (decide (l = Leaf)) as [->|Hl].
  { exists r. destruct r; [done|]. split_and!; auto; simpl in *; lia. }
  destruct (Node_get_new_root_ok r (r_max k + 1) hi) as (k' & d' & h' & m' & rest & E & He & Hb' & Hh);
    auto; [lia|].
  destruct (updated_node_ok k' d' l rest h' m') as (t' & Eu & ? & Hu & ? & ?); auto; [lia..|].
  exists t'. split; [|split; [done|split; [by rewrite Hu, He|lia]]].
  destruct l, r; try done. unfold Node_combine_subtrees. rewrite E. cbn [obind]. done.
Qed.

Lemma Node_delete_ok t : forall lo hi es1 es2 key d,
  balanced t -> 0 <= lo -> hi <= u64_max -> chain lo hi (elements t) ->
  elements t = es1 ++ (key, d) :: es2 ->
  exists t', Node_delete t key = Ret (NodeState_into d, t') /\ balanced t' /\
    elements t' = es1 ++ es2 /\ height t - 1 <= height t' <= height t.
Proof.
  induction t as [|k d l IHl r IHr h m]; intros lo hi es1 es2 key d0 Hb Hlo Hhi Hc He.
  { by destruct es1. }
  simpl in Hc. pose proof Hc as (Hcl & ? & ? & Hcr)%chain_app.
  apply balanced_inv in Hb as (Hbl & Hbr & Hd & -> & ->).
  pose proof (bounded_height l lo (r_min k - 1) Hbl Hlo ltac:(lia) Hcl).
  pose proof (bounded_height r (r_max k + 1) hi Hbr ltac:(lia) Hhi Hcr).
  simpl in He. pose proof He as [(mid & -> & Her)|(mid & Hel & Hm)]%elements_split.
  - rewrite Her in Hcr. pose proof Hcr as (_ & ? & ? & _)%chain_app. rewrite <- Her in Hcr.
    destruct (before_cmp k key) as (E1 & _); [lia..|].
    destruct (IHr (r_max k + 1) hi mid es2 key d0) as (r' & E & Hb' & He' & Hh); auto; [lia|].
    destruct (updated_node_ok k d l r' (Z.max (height l) (height r) + 1)
      (Z.max (max_key l) (Z.max (max_key r) (r_max k)))) as (t' & Eu & ? & Hu & ? & ?); auto; [lia..|].
    exists t'. split; [|split; [done|split; [rewrite Hu, He'; by app_norm|simpl; lia]]].
    cbn [Node_delete]. rewrite E1. destruct r as [|? ? ? ? ? ?]; [by destruct mid|].
    rewrite E. cbn [obind]. by rewrite Eu.
  - destruct mid as [|e mid].
    + injection Hm as -> -> ->. rewrite app_nil_r in Hel. subst es1.
      destruct (Node_delete_root_ok k d l r lo hi) as (t' & E & ? & Ht & ?); auto.
      exists t'. cbn [Node_delete]. rewrite cmp_refl. cbn [NodeState_take]. rewrite E.
      split_and!; auto; simpl; lia.
    + injection Hm as <- ->. rewrite Hel in Hcl.
      pose proof Hcl as (_ & ? & ? & _)%chain_app. rewrite <- Hel in Hcl.
      destruct (before_cmp key k) as (_ & E1 & _); [lia..|].
      destruct (IHl lo (r_min k - 1) es1 mid key d0) as (l' & E & Hb' & He' & Hh); auto; [lia|].
      destruct (updated_node_ok k d l' r (Z.max (height l) (height r) + 1)
        (Z.max (max_key l) (Z.max (max_key r) (r_max k)))) as (t' & Eu & ? & Hu & ? & ?); auto; [lia..|].
      exists t'. split; [|split; [done|split; [rewrite Hu, He'; by app_norm|simpl; lia]]].
      cbn [Node_delete]. rewrite E1. destruct l as [|? ? ? ? ? ?]; [by destruct es1|].
      rewrite E. cbn [obind]. by rewrite Eu.
Qed.

Lemma Node_delete_missing t : forall lo hi key,
  balanced t -> 0 <= lo -> hi <= u64_max -> chain lo hi (elements t) ->
  (forall d, (key, d) ∉ elements t) ->
  exists t', Node_delete t key = Ret (None, t') /\ balanced t' /\
    elements t' = elements t /\ height t' = height t.
Proof.
  induction t as [|k d l IHl r IHr h m]; intros lo hi key Hb Hlo Hhi Hc Hn.
  { exists Leaf. auto with rust. }
  pose proof Hb as Hb0. simpl in Hc. pose proof Hc as (Hcl & ? & ? & Hcr)%chain_app.
  apply balanced_inv in Hb as (Hbl & Hbr & Hd & -> & ->).
  pose proof (bounded_height l lo (r_min k - 1) Hbl Hlo ltac:(lia) Hcl).
  pose proof (bounded_height r (r_max k + 1) hi Hbr ltac:(lia) Hhi Hcr).
  cbn [Node_delete]. destruct (Range_cmp k key) eqn:Ek.
  - apply Range_cmp_eq in Ek as ->. exfalso. apply (Hn d). simpl. set_solver.
  - destruct (IHr (r_max k + 1) hi key) as (r' & E & Hb' & He' & Hh); auto;
      [lia|intros d' ?; apply (Hn d'); simpl; set_solver|].
    destruct r as [|k1 d1 r1 r2 h1 m1]; [by eexists|].
    destruct (updated_node_ok k d l r' (Z.max (height l) (height (Node k1 d1 r1 r2 h1 m1)) + 1)
      (Z.max (max_key l) (Z.max (max_key (Node k1 d1 r1 r2 h1 m1)) (r_max k))))
      as (t' & Eu & ? & Hu & ? & ?); auto; [lia..|].
    rewrite E. cbn [obind]. rewrite Eu. exists t'. split_and!; auto; [by rewrite Hu, He'|].
    simpl in *. lia.
  - destruct (IHl lo (r_min k - 1) key) as (l' & E & Hb' & He' & Hh); auto;
      [lia|intros d' ?; apply (Hn d'); simpl; set_solver|].
    destruct l as [|k1 d1 r1 r2 h1 m1]; [by eexists|].
    destruct (updated_node_ok k d l' r (Z.max (height (Node k1 d1 r1 r2 h1 m1)) (height r) + 1)
      (Z.max (max_key (Node k1 d1 r1 r2 h1 m1)) (Z.max (max_key r) (r_max k))))
      as (t' & Eu & ? & Hu & ? & ?); auto; [lia..|].
    rewrite E. cbn [obind]. rewrite Eu. exists t'. split_and!; auto; [by rewrite Hu, He'|].
    simpl in *. lia.
Qed.

(** The state changes [Node::update] accepts: free to allocated, and any
    allocated state to a value. *)
Definition update_allowed (d data : NodeState T) : bool :=
  match d, data with
  | Free, Allocated | Allocated, Valued _ | Valued _, Valued _ => true
  | _, _ => false
  end.

Lemma Node_update_ok t : forall lo hi es1 es2 key d data,
  balanced t -> chain lo hi (elements t) -> elements t = es1 ++ (key, d) :: es2 ->
  if update_allowed d data then
    exists t', Node_update t key data = Ret (NodeState_into d, t') /\ balanced t' /\
      elements t' = es1 ++ (key, data) :: es2 /\ height t' = height t /\ max_key t' = max_key t
  else Node_update t key data = Panic.
Proof.
  induction t as [|k d l IHl r IHr h m]; intros lo hi es1 es2 key d0 data Hb Hc He.
  { by destruct es1. }
  simpl in Hc. pose proof Hc as (Hcl & ? & ? & Hcr)%chain_app.
  apply balanced_inv in Hb as (Hbl & Hbr & Hd & -> & ->).
  simpl in He. pose proof He as [(mid & -> & Her)|(mid & Hel & Hm)]%elements_split.
  - rewrite Her in Hcr. pose proof Hcr as (_ & ? & ? & _)%chain_app. rewrite <- Her in Hcr.
    destruct (before_cmp k key) as (E1 & _); [lia..|]. cbn [Node_update]. rewrite E1.
    pose proof (IHr _ _ _ _ _ _ data Hbr Hcr Her) as IH. destruct (update_allowed d0 data).
    + destruct IH as (r' & -> & Hb' & He' & Hh & Hmk). cbn [obind].
      eexists; split; [done|]. simpl. rewrite He'. split_and!; [|by app_norm|done..].
      rewrite <- Hh, <- Hmk in *. by apply balanced_node.
    + by rewrite IH.
  - destruct mid as [|e mid].
    + injection Hm as -> -> ->. rewrite app_nil_r in Hel. subst es1. cbn [Node_update].
      rewrite cmp_refl. destruct (update_allowed d data) eqn:Ea.
      * exists (mkn k data l r). split_and!; [|by apply balanced_node|done..].
        by destruct d, data.
      * by destruct d, data.
    + injection Hm as <- ->. rewrite Hel in Hcl.
      pose proof Hcl as (_ & ? & ? & _)%chain_app. rewrite <- Hel in Hcl.
      destruct (before_cmp key k) as (_ & E1 & _); [lia..|]. cbn [Node_update]. rewrite E1.
      pose proof (IHl _ _ _ _ _ _ data Hbl Hcl Hel) as IH. destruct (update_allowed d0 data).
      * destruct IH as (l' & -> & Hb' & He' & Hh & Hmk). cbn [obind].
        eexists; split; [done|]. simpl. rewrite He'. split_and!; [|by app_norm|done..].
        rewrite <- Hh, <- Hmk in *. by apply balanced_node.
      * by rewrite IH.
Qed.

Lemma Node_search_some t lo hi key d :
  chain lo hi (elements t) -> (key, d) ∈ elements t ->
  exists l r h m, Node_search t key = Some (Node key d l r h m).
Proof.
  revert lo hi. induction t as [|k d0 l IHl r IHr h m]; intros lo hi Hc He; [by inversion He|].
  simpl in Hc, He. pose proof Hc as (Hcl & ? & ? & Hcr)%chain_app. simpl.
  apply elem_of_app in He as [He|[[= -> ->]|He]%elem_of_cons].
  - pose proof (chain_elem _ _ _ _ _ Hcl He).
    destruct (before_cmp key k) as (_ & -> & _); [lia..|]. eauto.
  - rewrite cmp_refl. eauto.
  - pose proof (chain_elem _ _ _ _ _ Hcr He).
    destruct (before_cmp k key) as (-> & _); [lia..|]. eauto.
Qed.

Lemma Node_search_sound t key n :
  Node_search t key = Some n ->
  exists d l r h m, n = Node key d l r h m /\ (key, d) ∈ elements t.
Proof.
  induction t as [|k d0 l IHl r IHr h m]; simpl; [done|].
  destruct (Range_cmp k key) eqn:Ek.
  - apply Range_cmp_eq in Ek as ->. intros [= <-]. do 5 eexists. split; [done|]. set_solver.
  - intros (d&?&?&?&?&->&?)%IHr. do 5 eexists. split; [done|]. set_solver.
  - intros (d&?&?&?&?&->&?)%IHl. do 5 eexists. split; [done|]. set_solver.
Qed.

Lemma Node_search_superset_some t lo hi k d key :
  chain lo hi (elements t) -> (k, d) ∈ elements t -> r_min key <= r_max key ->
  Range_contain k key = true ->
  exists l r h m, Node_search_superset t key = Some (Node k d l r h m).
Proof.
  intros Hc He Hk Hk'. unfold Range_contain in Hk'. bools. revert lo hi Hc He.
  induction t as [|k0 d0 l IHl r IHr h m]; intros lo hi Hc He; [by inversion He|].
  simpl in Hc, He. pose proof Hc as (Hcl & ? & ? & Hcr)%chain_app. cbn [Node_search_superset].
  apply elem_of_app in He as [He|[[= -> ->]|He]%elem_of_cons].
  - pose proof (chain_elem _ _ _ _ _ Hcl He).
    assert (is_some l = true) as -> by (by destruct l; [inversion He|]).
    rewrite (proj2 (Z.ltb_lt _ _)) by lia. simpl.
    replace (Range_contain k0 key) with false; [by eauto|].
    unfold Range_contain. symmetry. apply andb_false_iff. left. apply Z.leb_gt. lia.
  - replace (Range_contain k0 key) with true; [by eauto|].
    unfold Range_contain. symmetry. apply andb_true_iff. rewrite Z.geb_leb, !Z.leb_le. lia.
  - pose proof (chain_elem _ _ _ _ _ Hcr He).
    assert (is_some r = true) as -> by (by destruct r; [inversion He|]).
    rewrite (proj2 (Z.ltb_ge _ _)) by lia. simpl.
    rewrite Z.gtb_ltb, (proj2 (Z.ltb_lt _ _)) by lia. simpl.
    replace (Range_contain k0 key) with false; [by eauto|].
    unfold Range_contain. symmetry. apply andb_false_iff. right. rewrite Z.geb_leb. apply Z.leb_gt. lia.
Qed.

Lemma Node_search_superset_sound t key n :
  Node_search_superset t key = Some n ->
  exists k d l r h m, n = Node k d l r h m /\ (k, d) ∈ elements t /\ Range_contain k key = true.
Proof.
  induction t as [|k d0 l IHl r IHr h m]; cbn [Node_search_superset]; [done|].
  destruct (Range_contain k key) eqn:Ek.
  { intros [= <-]. do 6 eexists. split; [done|]. split; [simpl; set_solver|done]. }
  case_goal; [intros (?&?&?&?&?&?&->&?&?)%IHl; do 6 eexists; split; [done|simpl; set_solver]|].
  case_goal; [|done]. intros (?&?&?&?&?&?&->&?&?)%IHr. do 6 eexists; split; [done|simpl; set_solver].
Qed.

End Ops.
