(* ===== verification/Allocator.v ===== *)
(** The allocator contract of [IntervalTree]: [allocate] and [free]
    (src/src/dragonball/src/dbs_allocator/src/interval_tree.rs).

    A pool is a tree whose entries are ordered, disjoint ranges of [u64].
    Allocation returns the lowest address range that satisfies the constraint,
    taken out of one free entry, and fails exactly when no free entry can hold the
    request; it panics exactly when that range ends at [u64::MAX], and in some
    cases when one free entry covers the whole of [u64].  A pool whose entries end
    below [u64::MAX] never panics.  Freeing coalesces the range with free
    neighbours; the two are inverse on a pool without adjacent free entries. *)

From S2P Require Import Prelude Range IntervalTree IntervalTreeInv.

(** A bound of addresses within [u64]. *)
Class Top (top : Z) : Prop := top_le : top <= u64_max.

Section Alloc.
Context {T : Type} {top : Z} {Htop : Top top}.
Abbreviation entry := (Range * NodeState T)%type.
Abbreviation pool := (IntervalTree T).
Implicit Types (t : pool) (es : list entry) (k key : Range) (d : NodeState T) (c : Constraint).

Definition entries (t : pool) : list entry := elements (root t).

(** The invariant of a resource pool with addresses up to [top]. *)
Definition pool_upto (t : pool) : Prop := balanced (root t) /\ chain 0 top (entries t).

Lemma pool_new : pool_upto IntervalTree_new.
Proof. split; simpl; auto with rust. Qed.

Lemma pool_chain t : pool_upto t -> chain 0 top (entries t).
Proof. by intros []. Qed.

Lemma chain_glue es1 es2 lo m hi :
  chain lo m es1 -> lo <= m + 1 -> m <= hi -> chain (m + 1) hi es2 -> chain lo hi (es1 ++ es2).
Proof.
  revert lo. induction es1 as [|[k d] es1 IH]; intros lo; simpl.
  - intros. eapply chain_weaken; [done|lia..].
  - intros (?&?&?) ???. split_and!; [lia..|]. apply IH; auto. lia.
Qed.

(** ** The operations at the level of entries *)

Lemma insert_entries t es1 es2 key data :
  pool_upto t -> entries t = es1 ++ es2 ->
  chain 0 top (es1 ++ (key, state_of data) :: es2) ->
  exists t', IntervalTree_insert t key data = Ret t' /\ pool_upto t' /\
    entries t' = es1 ++ (key, state_of data) :: es2.
Proof.
  intros [Hb Hc] He Hc'.
  destruct (Node_insert_ok (root t) 0 top es1 es2 key data) as (r & E & ? & Hr & _); auto; [lia..|].
  exists (mkIntervalTree r). unfold IntervalTree_insert. rewrite E. split; [done|].
  unfold pool_upto, entries. simpl. by rewrite Hr.
Qed.

Lemma delete_entries t es1 es2 key d :
  pool_upto t -> entries t = es1 ++ (key, d) :: es2 ->
  exists t', IntervalTree_delete t key = Ret (NodeState_into d, t') /\ pool_upto t' /\
    entries t' = es1 ++ es2.
Proof.
  intros [Hb Hc] He.
  destruct (Node_delete_ok (root t) 0 top es1 es2 key d) as (r & E & ? & Hr & _); auto; [lia..|].
  exists (mkIntervalTree r). unfold IntervalTree_delete. rewrite E. split; [done|].
  unfold pool_upto, entries. simpl. rewrite Hr. split_and!; auto.
  eapply chain_remove. by rewrite <- He.
Qed.

Lemma mark_allocated_entries t es1 es2 key :
  pool_upto t -> entries t = es1 ++ (key, Free) :: es2 ->
  exists t', mark_allocated t key = Ret t' /\ pool_upto t' /\ entries t' = es1 ++ (key, Allocated) :: es2.
Proof.
  intros [Hb Hc] He. unfold entries in *.
  pose proof (Node_update_ok (root t) 0 top es1 es2 key Free Allocated Hb Hc He)
    as (r & E & ? & Hr & _).
  exists (mkIntervalTree r). unfold mark_allocated. destruct (root t) eqn:Er; [by destruct es1|].
  rewrite E. split; [done|]. unfold pool_upto, entries. simpl. rewrite Hr. split_and!; auto.
  eapply chain_replace. by rewrite <- He.
Qed.

Lemma get_superset_some t k d key :
  pool_upto t -> (k, d) ∈ entries t -> r_min key <= r_max key -> Range_contain k key = true ->
  IntervalTree_get_superset t key = Some (k, d).
Proof.
  intros [_ Hc] He Hk Hk'. unfold IntervalTree_get_superset.
  edestruct (Node_search_superset_some (root t)) as (?&?&?&?&->); eauto.
Qed.

Lemma get_superset_sound t k d key :
  IntervalTree_get_superset t key = Some (k, d) ->
  (k, d) ∈ entries t /\ Range_contain k key = true.
Proof.
  unfold IntervalTree_get_superset. destruct (Node_search_superset (root t) key) eqn:E; [|done].
  apply Node_search_superset_sound in E as (?&?&?&?&?&?&->&?&?). by intros [= <- <-].
Qed.

(** ** First fit *)

(** A free entry with range [k] can serve the constraint: an aligned address of
    [k] within the bounds leaves room for [size]. *)
Definition can_hold c k (a : Z) : Prop :=
  (eff_align (c_align c) | a) /\
  Z.max (r_min k) (c_min c) <= a /\ a + c_size c - 1 <= Z.min (r_max k) (c_max c).
Definition fits c (e : entry) : Prop :=
  e.2 = Free /\ good_align (c_align c) /\ exists a, can_hold c e.1 a.

(** The range [allocate] carves out of a free entry [k]: it starts at the least
    aligned address of [k] that is within the bounds. *)
Definition carve c k (r : Range) : Prop :=
  least_aligned (Z.max (r_min k) (c_min c)) (c_align c) (r_min r) /\
  r_max r = r_min r + c_size c - 1 /\ r_max r <= Z.min (r_max k) (c_max c).

(** The code computes ranges and their lengths except for the whole of [u64], for
    which it panics. *)
Definition whole_space k : Prop := r_min k = 0 /\ r_max k = u64_max.
Definition unbounded c : Prop := c_min c = 0 /\ c_max c = u64_max.
Definition too_wide c (e : entry) : Prop := e.2 = Free /\ whole_space e.1 /\ unbounded c.

#[global] Instance too_wide_dec c (e : entry) : Decision (too_wide c e).
Proof.
  unfold too_wide, whole_space, unbounded. destruct e as [k [ | | v]]; [|right; by intros [[=] _]..].
  destruct (decide ((r_min k = 0 /\ r_max k = u64_max) /\ c_min c = 0 /\ c_max c = u64_max)); [left|right]; simpl; tauto.
Defined.

Lemma check_constraint_ok c k d :
  valid_constraint c -> 0 < c_size c -> 0 <= r_min k -> r_min k <= r_max k <= top -> ~ too_wide c (k, d) ->
  exists b, Node_check_constraint k d c = Ret b /\ (b = true <-> fits c (k, d)).
Proof.
  intros (Hs & Hmin & Hmax & Ha) Hpos Hk1 Hk2 Hw. unfold too_wide, whole_space, unbounded in Hw. simpl in Hw. pose proof top_le as Htl.
  unfold Node_check_constraint, fits, can_hold. simpl.
  destruct d; simpl; [|eexists; split; [done|split; [done|intros [[=] _]]]..].
  assert (Hw' : ~ (r_min k = 0 /\ r_max k = u64_max /\ c_min c = 0 /\ c_max c = u64_max)) by tauto. clear Hw.
  set (lo := Z.max (r_min k) (c_min c)). set (hi := Z.min (r_max k) (c_max c)).
  destruct (lo <=? hi) eqn:Elh; bools;
    [|eexists; split; [done|split; [done|intros (_ & _ & a & _ & ? & ?); lia]]].
  rewrite Range_new_ret by ulia. cbn [obind].
  assert (Hv : valid_range (mkRange lo hi)) by (unfold valid_range; simpl; ulia).
  destruct (align_to_spec (mkRange lo hi) (c_align c) Hv Ha) as (o & Eo & Ho).
  destruct ((c_align c =? 0) || (c_align c =? 1)) eqn:E01.
  - rewrite Range_len_ret by done. cbn [obind r_min r_max]. eexists; split; [done|].
    assert (eff_align (c_align c) = 1) as -> by (unfold eff_align; lia).
    rewrite Z.geb_leb, Z.leb_le. split.
    + intros. split; [done|]. split.
      { unfold good_align. bools. destruct E01; bools; [by left|]. right.
        rewrite H0. done. }
      exists lo. split; [apply Z.divide_1_l|lia].
    + intros (_ & _ & a & _ & ? & ?). lia.
  - rewrite Eo. cbn [obind]. destruct o as [r'|].
    + pose proof (align_to_valid _ _ _ Hv Ha Eo) as (Hv' & _ & _).
      rewrite Range_len_ret by done. cbn [obind]. eexists; split; [done|].
      destruct Ho as (Hg & Hx & Hle & Hlo' & Hd & Hleast). simpl in *.
      rewrite Z.geb_leb, Z.leb_le. split.
      * intros. split; [done|]. split; [done|]. exists (r_min r'). split; [done|lia].
      * intros (_ & _ & a & Hda & ? & ?). pose proof (Hleast a ltac:(lia) Hda). lia.
    + eexists; split; [done|]. split; [done|]. intros (_ & Hg & a & Hda & ? & ?).
      destruct Ho as [Ho|Ho]; [done|]. exfalso. apply (Ho a); [|done]. unfold in_range. simpl. lia.
Qed.

Lemma first_match_ok c (n : tree T) : forall lo,
  valid_constraint c -> 0 < c_size c -> 0 <= lo -> chain lo top (elements n) ->
  Forall (fun e => ~ too_wide c e) (elements n) ->
  exists o, Node_first_match n c = Ret o /\
    match o with
    | Some n' => exists k d l r h m es1 es2, n' = Node k d l r h m /\
        elements n = es1 ++ (k, d) :: es2 /\ fits c (k, d) /\ Forall (fun e => ~ fits c e) es1
    | None => Forall (fun e => ~ fits c e) (elements n)
    end.
Proof.
  intros lo Hv Hpos. revert lo. induction n as [|k d l IHl r IHr h m]; intros lo Hlo Hc Hw.
  { exists None. split; [done|]. constructor. }
  simpl in Hc, Hw. pose proof Hc as (Hcl & ? & ? & Hcr)%chain_app. apply Forall_app in Hw as [Hwl [Hwk Hwr]%Forall_cons].
  destruct (IHl lo) as (ol & El & Hl); [done|eapply chain_weaken; [done|lia..]|done|].
  destruct (IHr (r_max k + 1)) as (orr & Er & Hr); [lia|done|done|].
  assert (El' : (if is_some l then Node_first_match l c else Ret None) = Ret ol).
  { destruct l; [|done]. simpl in *. congruence. }
  assert (Er' : (if is_some r then Node_first_match r c else Ret None) = Ret orr).
  { destruct r; [|done]. simpl in *. congruence. }
  cbn [Node_first_match]. rewrite El'. cbn [obind]. destruct ol as [n'|].
  { cbn [obind]. eexists; split; [done|].
    destruct Hl as (k' & d' & l' & r' & h' & m' & es1 & es2 & -> & Hes & Hf & Hno).
    exists k', d', l', r', h', m', es1, (es2 ++ (k, d) :: elements r). simpl. rewrite Hes.
    split; [done|]. split; [by app_norm|]. done. }
  destruct (check_constraint_ok c k d) as (b & Eb & Hb); [done..|lia|lia|done|].
  rewrite Eb. cbn [obind]. destruct b; cbn [obind].
  { eexists; split; [done|]. exists k, d, l, r, h, m, (elements l), (elements r).
    split; [done|]. split; [done|]. split; [by apply Hb|done]. }
  rewrite Er'. eexists; split; [done|].
  assert (Hn : ~ fits c (k, d)) by (intros ?%Hb; done).
  destruct orr as [n'|].
  - destruct Hr as (k' & d' & l' & r' & h' & m' & es1 & es2 & -> & Hes & Hf & Hno).
    exists k', d', l', r', h', m', (elements l ++ (k, d) :: es1), es2. simpl. rewrite Hes.
    split; [done|]. split; [by app_norm|]. split; [done|].
    apply Forall_app; split; [done|]. by constructor.
  - simpl. apply Forall_app; split; [done|]. by constructor.
Qed.

(** ** Allocation *)

(** What remains free of an entry on either side of an allocation. *)
Definition gap (lo hi : Z) : list entry :=
  if lo <=? hi then [(mkRange lo hi, Free)] else [].

Definition carve_out es1 k (r : Range) es2 : list entry :=
  es1 ++ gap (r_min k) (r_min r - 1) ++ (r, Allocated) :: gap (r_max r + 1) (r_max k) ++ es2.

Lemma gap_chain lo hi b es :
  lo <= hi + 1 -> hi <= b ->
  chain (hi + 1) b es -> chain lo b (gap lo hi ++ es).
Proof.
  intros. unfold gap. destruct (lo <=? hi) eqn:E; bools; simpl.
  - split_and!; auto; lia.
  - by replace lo with (hi + 1) by lia.
Qed.

Lemma insert_gap t es1 es2 lo hi :
  pool_upto t -> entries t = es1 ++ es2 ->
  chain 0 top (es1 ++ gap lo hi ++ es2) ->
  0 <= lo -> lo <= hi + 1 -> ~ (lo = 0 /\ hi = u64_max) ->
  exists t', (if lo <=? hi then let! x := Range_new lo hi in IntervalTree_insert t x None else Ret t) = Ret t' /\
    pool_upto t' /\ entries t' = es1 ++ gap lo hi ++ es2.
Proof.
  intros Hwf He Hc ???. unfold gap in *. destruct (lo <=? hi) eqn:E; bools; simpl in *.
  - rewrite Range_new_ret by lia. cbn [obind].
    by destruct (insert_entries t es1 es2 (mkRange lo hi) None) as (t' & ? & ? & ?); eauto.
  - eauto.
Qed.

(** Carving [r] out of the free entry [k] by deletion and up to three insertions. *)
Lemma carve_steps t es1 k es2 r :
  pool_upto t -> entries t = es1 ++ (k, Free) :: es2 ->
  r_min k <= r_min r -> r_min r <= r_max r -> r_max r <= r_max k -> (whole_space k -> 0 < r_min r) ->
  exists t',
    (let! (_, t) := IntervalTree_delete t k in
     let! t := if r_min r >? r_min k
               then let! lo := Range_new (r_min k) (r_min r - 1) in IntervalTree_insert t lo None
               else Ret t in
     let! t := IntervalTree_insert t r None in
     let! t := if r_max r <? r_max k
               then let! hi := Range_new (r_max r + 1) (r_max k) in IntervalTree_insert t hi None
               else Ret t in
     let! t := mark_allocated t r in Ret (Some r, t)) = Ret (Some r, t') /\
    pool_upto t' /\ entries t' = carve_out es1 k r es2.
Proof.
  intros Hwf He ??? Hws. unfold whole_space in Hws. pose proof top_le as Htl. pose proof (pool_chain t Hwf) as Hc. rewrite He in Hc.
  pose proof Hc as (Hc1 & ? & ? & Hc2)%chain_app.
  destruct (delete_entries t es1 es2 k Free) as (t1 & E1 & Hwf1 & He1); auto.
  rewrite E1. cbn [obind].
  assert (Hhi : chain (r_max r + 1) top (gap (r_max r + 1) (r_max k) ++ es2))
    by (apply gap_chain; auto; lia).
  assert (Hr : forall d, chain (r_min r) top ((r, d) :: gap (r_max r + 1) (r_max k) ++ es2))
    by (intros d; simpl; split_and!; auto; lia).
  assert (Hlo : forall es, chain (r_min r) top es ->
            chain 0 top (es1 ++ gap (r_min k) (r_min r - 1) ++ es)).
  { intros es Hes. eapply chain_glue; [done|lia|lia|]. eapply chain_weaken; [|done|done].
    replace (r_min k - 1 + 1) with (r_min k) by lia. apply gap_chain; [lia..|].
    by replace (r_min r - 1 + 1) with (r_min r) by lia. }
  replace (r_min r >? r_min k) with (r_min k <=? r_min r - 1) by lia.
  destruct (insert_gap t1 es1 es2 (r_min k) (r_min r - 1)) as (t2 & -> & Hwf2 & He2); auto; [|lia..|].
  { apply Hlo. eapply chain_weaken; [done|lia..]. }
  cbn [obind]. rewrite app_assoc in He2.
  destruct (insert_entries t2 _ _ r None Hwf2 He2) as (t3 & -> & Hwf3 & He3).
  { rewrite <- app_assoc. apply Hlo. simpl. split_and!; [lia..|]. eapply chain_weaken; [done|lia..]. }
  cbn [obind]. replace (r_max r <? r_max k) with (r_max r + 1 <=? r_max k) by lia.
  change (_ :: es2) with ([(r, @Free T)] ++ es2) in He3. rewrite app_assoc in He3.
  destruct (insert_gap t3 _ _ (r_max r + 1) (r_max k) Hwf3 He3) as (t4 & -> & Hwf4 & He4); [|lia..|].
  { rewrite <- !app_assoc. apply Hlo, Hr. }
  cbn [obind]. rewrite <- (app_assoc _ [_]) in He4. cbn [app] in He4.
  destruct (mark_allocated_entries t4 _ _ r Hwf4 He4) as (t5 & -> & Hwf5 & He5).
  cbn [obind]. exists t5. split_and!; auto. unfold carve_out. rewrite He5. by app_norm.
Qed.

(** The range computed from a fitting entry; the sum that gives its end overflows
    if it ends at [u64::MAX]. *)
Lemma fits_carve c k :
  valid_constraint c -> 0 < c_size c -> 0 <= r_min k -> r_min k <= r_max k <= top -> ~ too_wide c (k, Free) ->
  fits c (k, Free) ->
  exists range aligned_key,
    Range_new (Z.max (r_min k) (c_min c)) (Z.min (r_max k) (c_max c)) = Ret range /\
    Range_align_to range (c_align c) = Ret (Some aligned_key) /\
    carve c k (mkRange (r_min aligned_key) (r_min aligned_key + c_size c - 1)).
Proof.
  intros (Hs & Hmin & Hmax & Ha) Hpos Hk1 Hk2 Hw (_ & Hg & a & Hda & Hlo & Hhi). unfold too_wide, whole_space, unbounded in Hw. simpl in Hw, Hlo, Hhi.
  assert (Hw' : ~ (r_min k = 0 /\ r_max k = u64_max /\ c_min c = 0 /\ c_max c = u64_max)) by tauto. clear Hw.
  pose proof top_le as Htl. set (lo := Z.max (r_min k) (c_min c)) in *. set (hi := Z.min (r_max k) (c_max c)) in *.
  exists (mkRange lo hi). rewrite Range_new_ret by ulia.
  assert (Hv : valid_range (mkRange lo hi)) by (unfold valid_range; simpl; ulia).
  destruct (align_to_spec (mkRange lo hi) (c_align c) Hv Ha) as (o & Eo & Ho).
  destruct o as [r'|]; [|destruct Ho as [Ho|Ho]; [done|]; exfalso;
    apply (Ho a); [unfold in_range; simpl; lia|done]].
  destruct Ho as (_ & Hx & Hle' & Hleast). exists r'. simpl in *.
  assert (Hra : r_min r' <= a) by (apply Hleast; [lia|done]).
  destruct Hleast as (Hl1 & Hl2 & Hl3).
  split_and!; try done. unfold carve, least_aligned; simpl. fold lo hi. split_and!; auto; lia.
Qed.

(** The candidate of a request: the first free entry that fits, and the range carved
    out of it. *)
Definition candidate t c es1 k (r : Range) es2 : Prop :=
  0 < c_size c /\ good_align (c_align c) /\ entries t = es1 ++ (k, Free) :: es2 /\ carve c k r /\ Forall (fun e => ~ fits c e) es1.

(** When [allocate] panics: the candidate ends at [u64::MAX], or the only entry is free
    and covers the whole of [u64] and its length or that of the request's bounds is needed. *)
Definition overflows t c : Prop :=
  0 < c_size c /\
  (Exists (too_wide c) (entries t) \/
   exists es1 k r es2, candidate t c es1 k r es2 /\ (r_max r = u64_max \/ (whole_space k /\ r_min r = 0))).

(** An entry for the whole space is the only one. *)
Lemma whole_space_only t k d : pool_upto t -> (k, d) ∈ entries t -> whole_space k -> entries t = [(k, d)].
Proof.
  intros Hwf Hin [Hlo Hhi]. pose proof (pool_chain t Hwf) as Hc. pose proof top_le as Htl.
  apply list_elem_of_split in Hin as (es1 & es2 & He). rewrite He in Hc |- *. apply chain_app in Hc as (Hc1 & ? & ? & Hc2).
  destruct es1 as [|[k1 d1] es1]; [|simpl in Hc1; lia]. destruct es2 as [|[k2 d2] es2]; [done|simpl in Hc2; lia].
Qed.

Lemma first_match_whole t c k :
  pool_upto t -> (k, Free) ∈ entries t -> whole_space k -> unbounded c -> Node_first_match (root t) c = Panic.
Proof.
  intros Hwf Hin Hw [Hc1 Hc2]. pose proof (whole_space_only t k Free Hwf Hin Hw) as He. destruct Hw as [Hw1 Hw2]. unfold entries in He.
  destruct (root t) as [|k' d l r h m]; [done|]. simpl in He.
  destruct l as [|kl dl ll lr hl ml]; [|simpl in He; apply (f_equal length) in He; rewrite length_app in He; simpl in He; rewrite ?length_app in He; simpl in He; lia].
  injection He as -> -> He. destruct r as [|kr dr rl rr hr mr]; [|simpl in He; symmetry in He; by apply app_cons_not_nil in He].
  cbn. unfold Node_check_constraint. cbn. rewrite Hw1, Hw2, Hc1, Hc2. reflexivity.
Qed.

(** The two ways in which the tree is changed, once the candidate is known. *)
Lemma allocate_candidate t c es1 k es2 (r : Range) :
  pool_upto t -> entries t = es1 ++ (k, Free) :: es2 -> r_min k <= r_min r -> r_max r = r_min r + c_size c - 1 -> r_max r <= r_max k ->
  0 < c_size c -> ~ (whole_space k /\ r_min r = 0) ->
  exists t',
    (let! whole := if r_min k =? r_min r then let! len := Range_len k in Ret (len =? c_size c) else Ret false in
     if (whole : bool) then let! t := mark_allocated t k in Ret (Some k, t)
     else
       let! (_, t) := IntervalTree_delete t k in
       let! t := if r_min r >? r_min k
                 then let! lo := Range_new (r_min k) (r_min r - 1) in IntervalTree_insert t lo None
                 else Ret t in
       let! t := IntervalTree_insert t r None in
       let! t := if r_max r <? r_max k
                 then let! hi := Range_new (r_max r + 1) (r_max k) in IntervalTree_insert t hi None
                 else Ret t in
       let! t := mark_allocated t r in Ret (Some r, t)) = Ret (Some r, t') /\
    pool_upto t' /\ entries t' = carve_out es1 k r es2.
Proof.
  intros Hwf He Hlo Hlen Hhi Hpos Hw. pose proof (pool_chain t Hwf) as Hc. pose proof top_le as Htl. unfold whole_space in Hw.
  rewrite He in Hc. apply chain_app in Hc as (_ & ? & Hk & _).
  destruct (decide (r_min k = r_min r /\ r_max k - r_min k + 1 = c_size c)) as [[Ew1 Ew2]|Hnw].
  - rewrite (proj2 (Z.eqb_eq _ _)) by done. rewrite Range_len_ret by (unfold valid_range; ulia).
    cbn [obind]. rewrite (proj2 (Z.eqb_eq _ _)) by done. cbn [obind].
    assert (k = r) as -> by (rewrite <- (Range_eta k), <- (Range_eta r); f_equal; lia).
    destruct (mark_allocated_entries t es1 es2 r) as (t' & -> & Hwf' & He'); auto.
    cbn [obind]. exists t'. split_and!; auto. rewrite He'. unfold carve_out, gap.
    by rewrite !(proj2 (Z.leb_gt _ _)) by lia.
  - assert ((if r_min k =? r_min r then let! len := Range_len k in Ret (len =? c_size c) else Ret false)
            = Ret false) as ->.
    { destruct (r_min k =? r_min r) eqn:E; bools; [|done].
      rewrite Range_len_ret by (unfold valid_range; ulia). cbn [obind]. f_equal. lia. }
    cbn [obind]. apply carve_steps; auto; [lia..|]. unfold whole_space. lia.
Qed.

(** Every outcome of [allocate]. *)
Lemma allocate_cases t c :
  pool_upto t -> valid_constraint c ->
  (overflows t c /\ IntervalTree_allocate t c = Panic) \/
  (exists o t', IntervalTree_allocate t c = Ret (o, t') /\ pool_upto t' /\
    match o with
    | Some r => exists es1 k es2, candidate t c es1 k r es2 /\ entries t' = carve_out es1 k r es2 /\
        r_max r <> u64_max /\ ~ (whole_space k /\ r_min r = 0) /\ Forall (fun e => ~ too_wide c e) (entries t)
    | None => t' = t /\ (c_size c = 0 \/ Forall (fun e => ~ fits c e) (entries t) /\ Forall (fun e => ~ too_wide c e) (entries t))
    end).
Proof.
  intros Hwf Hv. unfold IntervalTree_allocate. pose proof top_le as Htl.
  destruct (c_size c =? 0) eqn:Es; bools; [right; exists None, t; auto|].
  assert (Hpos : 0 < c_size c) by (destruct Hv as ([? _] & _); lia).
  assert (Hd : {Exists (too_wide c) (entries t)} + {~ Exists (too_wide c) (entries t)}) by (apply Exists_dec; intros; apply _).
  assert (Hf : Node_find_candidate (root t) c = Node_first_match (root t) c) by (unfold Node_find_candidate; by destruct (c_policy c)).
  rewrite Hf. clear Hf. destruct Hd as [Hd|Hd].
  { left. split; [split; [done|by left]|]. apply Exists_exists in Hd as ([k d] & Hin & Hfree & Hw & Hu). simpl in *. subst d.
    by rewrite (first_match_whole t c k). }
  apply Forall_Exists_neg in Hd.
  destruct (first_match_ok c (root t) 0) as (o & -> & Ho); [done..|lia|by apply pool_chain|done|].
  cbn [obind]. destruct o as [n|]; [|right; exists None, t; split_and!; auto].
  destruct Ho as (k & d & l & r0 & h & m & es1 & es2 & -> & He & Hf & Hno).
  assert (d = Free) as -> by apply Hf. fold (entries t) in He.
  pose proof (pool_chain t Hwf) as Hc. rewrite He in Hc. apply chain_app in Hc as (_ & ? & Hk & _).
  destruct (fits_carve c k) as (range & al & -> & E2 & Hca); auto.
  { rewrite Forall_forall in Hd. apply Hd. rewrite He. set_solver. }
  cbn [obind]. rewrite E2. cbn [obind unwrap]. clear E2.
  pose proof Hca as ((Hlo & Hdv & _) & Hlen & Hhi). simpl in Hlo, Hdv, Hlen, Hhi.
  set (res := mkRange (r_min al) (r_min al + c_size c - 1)) in *.
  assert (Hcand : candidate t c es1 k res es2) by (split_and!; auto; apply Hf).
  destruct (decide (r_max res = u64_max)) as [Hmax|Hmax].
  { left. split; [split; [done|]; right; exists es1, k, res, es2; auto|]. simpl in Hmax.
    unfold add_u, checked_add. by rewrite (proj2 (Z.leb_gt _ _)) by lia. }
  simpl in Hmax. rewrite add_u_ret by ulia. cbn [obind]. rewrite sub_u_ret by ulia. cbn [obind].
  rewrite Range_new_ret by lia. cbn [obind]. fold res.
  destruct (decide (r_min k = 0 /\ r_max k = u64_max /\ r_min res = 0)) as [(Hw1 & Hw2 & Hw3)|Hw].
  { left. split; [split; [done|]; right; exists es1, k, res, es2; split; [done|]; right; by split|]. simpl in Hw3.
    rewrite Hw1, Hw3, Z.eqb_refl. unfold Range_len. by rewrite Hw1, Hw2. }
  right. destruct (allocate_candidate t c es1 k es2 res) as (t' & E & Hwf' & He'); auto; [simpl; lia..|unfold whole_space; tauto|].
  exists (Some res), t'. split; [exact E|]. split; [done|]. exists es1, k, es2. split_and!; auto. unfold whole_space. tauto.
Qed.

(** The candidate is unique, so the panics are exactly those of [overflows]. *)
Lemma candidate_unique t c es1 k r es2 es1' k' r' es2' :
  candidate t c es1 k r es2 -> candidate t c es1' k' r' es2' -> k = k' /\ r = r'.
Proof.
  intros (Hp & Hg & He & Hca & Hn) (_ & _ & He' & Hca' & Hn').
  assert (Hfit : forall k r, carve c k r -> fits c (k, @Free T)).
  { intros k0 r0 ((? & Hd & _) & Hl & Hh). split; [done|]. split; [done|]. exists (r_min r0). split; [done|]. simpl. lia. }
  assert (Hlen : forall a b (x y : entry) la lb, la ++ x :: a = lb ++ y :: b -> (length la < length lb)%nat -> x ∈ lb).
  { intros a b x y la lb E Hl. apply (f_equal (fun l => l !! length la)) in E. rewrite list_lookup_middle, lookup_app_l in E by done.
    symmetry in E. by apply list_elem_of_lookup_2 in E. }
  assert (Hk : k = k').
  { rewrite He in He'. destruct (Nat.lt_trichotomy (length es1) (length es1')) as [Hl|[Hl|Hl]].
    - exfalso. rewrite Forall_forall in Hn'. apply (Hn' (k, Free)); [by eapply Hlen|by eapply Hfit].
    - apply app_inj_1 in He' as [_ [= -> _]]; done.
    - exfalso. rewrite Forall_forall in Hn. apply (Hn (k', Free)); [by eapply Hlen|by eapply Hfit]. }
  subst k'. split; [done|]. destruct Hca as ((Ha & Hb & Hc) & Hd & _), Hca' as ((Ha' & Hb' & Hc') & Hd' & _).
  rewrite <- (Range_eta r), <- (Range_eta r'). assert (r_min r = r_min r') by (apply Z.le_antisymm; auto). f_equal; lia.
Qed.

Lemma candidate_fits t c es1 k r es2 : candidate t c es1 k r es2 -> fits c (k, @Free T) /\ (k, Free) ∈ entries t.
Proof.
  intros (_ & Hg & He & ((? & Hd & _) & Hl & Hh) & _). split; [|rewrite He; set_solver].
  split; [done|]. split; [done|]. exists (r_min r). split; [done|]. simpl. lia.
Qed.

Lemma allocate_panics t c :
  pool_upto t -> valid_constraint c -> IntervalTree_allocate t c = Panic <-> overflows t c.
Proof.
  intros Hwf Hv. destruct (allocate_cases t c Hwf Hv) as [[Ho ->]|(o & t' & -> & _ & Ho)]; [done|]. split; [done|].
  intros (Hpos & Hcase). exfalso. destruct o as [r|].
  - destruct Ho as (es1 & k & es2 & Hca & _ & Hm & Hw & Hn). destruct Hcase as [Hex|(es1' & k' & r' & es2' & Hca' & Hr)].
    + by apply Forall_Exists_neg in Hn.
    + destruct (candidate_unique _ _ _ _ _ _ _ _ _ _ Hca Hca') as [<- <-]. by destruct Hr.
  - destruct Ho as [_ [?|[Hf Hn]]]; [lia|]. destruct Hcase as [Hex|(es1' & k' & r' & es2' & Hca' & _)].
    + by apply Forall_Exists_neg in Hn.
    + apply candidate_fits in Hca' as [Hfit Hin]. rewrite Forall_forall in Hf. by apply (Hf _ Hin).
Qed.

(** Below [u64::MAX] there is no panic. *)
Lemma overflows_top t c : pool_upto t -> top < u64_max -> ~ overflows t c.
Proof.
  intros Hwf Ht (_ & Hcase). pose proof (pool_chain t Hwf) as Hc. destruct Hcase as [Hex|(es1 & k & r & es2 & Hca & Hr)].
  - apply Exists_exists in Hex as ([k d] & Hin & _ & [_ Hw] & _). pose proof (chain_elem _ _ _ _ _ Hc Hin). simpl in *. lia.
  - pose proof (candidate_fits _ _ _ _ _ _ Hca) as [_ Hin]. pose proof (chain_elem _ _ _ _ _ Hc Hin).
    destruct Hca as (_ & _ & _ & (_ & _ & ?) & _). unfold whole_space in Hr. lia.
Qed.

Lemma allocate_entries t c :
  pool_upto t -> valid_constraint c -> ~ overflows t c ->
  exists o t', IntervalTree_allocate t c = Ret (o, t') /\ pool_upto t' /\
    match o with
    | Some r => 0 < c_size c /\ good_align (c_align c) /\
        exists es1 k es2, entries t = es1 ++ (k, Free) :: es2 /\ carve c k r /\
          Forall (fun e => ~ fits c e) es1 /\ entries t' = carve_out es1 k r es2
    | None => t' = t /\ (c_size c = 0 \/ Forall (fun e => ~ fits c e) (entries t))
    end.
Proof.
  intros Hwf Hv Hno. destruct (allocate_cases t c Hwf Hv) as [[Ho _]|(o & t' & E & Hwf' & Ho)]; [done|].
  exists o, t'. split; [done|]. split; [done|]. destruct o as [r|].
  - destruct Ho as (es1 & k & es2 & (? & ? & ? & ? & ?) & ? & _). split; [done|]. split; [done|]. by exists es1, k, es2.
  - destruct Ho as [-> [?|[? _]]]; auto.
Qed.

(** ** Freeing *)

(** The entry that ends right below [lo] in [es1], the entries below a key, and
    the entry that starts right above [hi] in [es2], the entries above it. *)
Definition touch_left es1 (lo : Z) : option entry :=
  match last es1 with
  | Some (k, d) => if r_max k + 1 =? lo then Some (k, d) else None
  | None => None
  end.
Definition touch_right es2 (hi : Z) : option entry :=
  match head es2 with
  | Some (k, d) => if hi + 1 =? r_min k then Some (k, d) else None
  | None => None
  end.

(** Coalescing with a free neighbour: the remaining entries and the new bound. *)
Definition merge_left es1 (lo : Z) : list entry * Z :=
  match touch_left es1 lo with
  | Some (k, Free) => (removelast es1, r_min k)
  | _ => (es1, lo)
  end.
Definition merge_right es2 (hi : Z) : list entry * Z :=
  match touch_right es2 hi with
  | Some (k, Free) => (tail es2, r_max k)
  | _ => (es2, hi)
  end.

Lemma contain_point k a : Range_contain k (mkRange a a) = true <-> r_min k <= a <= r_max k.
Proof. unfold Range_contain. simpl. rewrite andb_true_iff, Z.geb_leb, !Z.leb_le. lia. Qed.

Lemma superset_left t es1 es2 key d :
  pool_upto t -> entries t = es1 ++ es2 -> chain 0 top (es1 ++ (key, d) :: es2) ->
  IntervalTree_get_superset t (mkRange (r_min key - 1) (r_min key - 1)) = touch_left es1 (r_min key).
Proof.
  intros Hwf He Hc. pose proof Hc as (Hc1 & ? & ? & Hc2)%chain_app. unfold touch_left.
  destruct (IntervalTree_get_superset t _) as [[k v]|] eqn:E.
  - apply get_superset_sound in E as [Hin Hk%contain_point]. rewrite He in Hin.
    apply elem_of_app in Hin as [Hin|Hin]; [|pose proof (chain_elem _ _ _ _ _ Hc2 Hin); lia].
    apply list_elem_of_split in Hin as (ea & eb & ->).
    apply chain_app in Hc1 as (_ & ? & ? & Hb). destruct eb as [|[k' v'] eb]; [|simpl in Hb; lia].
    rewrite last_snoc, (proj2 (Z.eqb_eq _ _)) by lia. done.
  - destruct (last es1) as [[k v]|] eqn:El; [|done].
    destruct (r_max k + 1 =? r_min key) eqn:Ek; [|done]. bools.
    apply last_Some in El as (ea & ->). apply chain_app in Hc1 as (_ & ? & ? & _).
    rewrite (get_superset_some t k v) in E; [done|done| |simpl; lia|apply contain_point; lia].
    rewrite He. set_solver.
Qed.

Lemma superset_right t es1 es2 key d :
  pool_upto t -> entries t = es1 ++ es2 -> chain 0 top (es1 ++ (key, d) :: es2) ->
  IntervalTree_get_superset t (mkRange (r_max key + 1) (r_max key + 1)) = touch_right es2 (r_max key).
Proof.
  intros Hwf He Hc. pose proof Hc as (Hc1 & ? & ? & Hc2)%chain_app. unfold touch_right.
  destruct (IntervalTree_get_superset t _) as [[k v]|] eqn:E.
  - apply get_superset_sound in E as [Hin Hk%contain_point]. rewrite He in Hin.
    apply elem_of_app in Hin as [Hin|Hin]; [pose proof (chain_elem _ _ _ _ _ Hc1 Hin); lia|].
    destruct es2 as [|[k' v'] es2]; [by inversion Hin|]. simpl in Hc2. simpl.
    apply elem_of_cons in Hin as [[= -> ->]|Hin].
    + by rewrite (proj2 (Z.eqb_eq _ _)) by lia.
    + destruct Hc2 as (? & ? & Hc2). pose proof (chain_elem _ _ _ _ _ Hc2 Hin). lia.
  - destruct es2 as [|[k v] es2]; [done|]. simpl in *.
    destruct (r_max key + 1 =? r_min k) eqn:Ek; [|done]. bools.
    rewrite (get_superset_some t k v) in E; [done|done| |simpl; lia|apply contain_point; lia].
    rewrite He. set_solver.
Qed.

(** Absorbing the left neighbour removes it from the tree. *)
Lemma absorb_left t es1 es2 key d :
  pool_upto t -> entries t = es1 ++ es2 -> chain 0 top (es1 ++ (key, d) :: es2) ->
  let lo := (merge_left es1 (r_min key)).2 in
  0 <= lo <= r_min key /\
  exists t', (if lo <? r_min key
              then let! k := Range_new lo (r_min key - 1) in let! (_, t) := IntervalTree_delete t k in Ret t
              else Ret t) = Ret t' /\
    pool_upto t' /\ entries t' = (merge_left es1 (r_min key)).1 ++ es2 /\
    chain 0 (lo - 1) (merge_left es1 (r_min key)).1.
Proof.
  intros Hwf He Hc. pose proof top_le as Htl. pose proof Hc as (Hc1 & ? & ? & Hc2)%chain_app. unfold merge_left.
  assert (Hnone : exists t', (if r_min key <? r_min key
              then let! k := Range_new (r_min key) (r_min key - 1) in
                   let! (_, t) := IntervalTree_delete t k in Ret t
              else Ret t) = Ret t' /\ pool_upto t' /\ entries t' = es1 ++ es2 /\ chain 0 (r_min key - 1) es1).
  { rewrite Z.ltb_irrefl. eauto. }
  destruct (touch_left es1 (r_min key)) as [[k [ | | ]]|] eqn:Et; simpl; try (split; [lia|done]).
  unfold touch_left in Et. destruct (last es1) as [[k' v]|] eqn:El; [|done].
  case_hyp Et; [|done]. injection Et as -> ->. bools.
  apply last_Some in El as (ea & ->). rewrite removelast_last.
  pose proof Hc1 as (Hca & ? & ? & _)%chain_app.
  split; [lia|]. rewrite (proj2 (Z.ltb_lt _ _)) by lia. rewrite Range_new_ret by lia. cbn [obind].
  replace (mkRange (r_min k) (r_min key - 1)) with k by (rewrite <- (Range_eta k) at 1; f_equal; lia).
  rewrite <- app_assoc in He. cbn [app] in He.
  destruct (delete_entries t ea es2 k Free) as (t' & -> & ? & ?); auto. cbn [obind]. eauto.
Qed.

Lemma absorb_right t es1 es2 key :
  pool_upto t -> entries t = es1 ++ es2 -> 
  r_min key <= r_max key <= top -> 0 <= r_min key -> chain (r_max key + 1) top es2 ->
  let hi := (merge_right es2 (r_max key)).2 in
  r_max key <= hi <= top /\
  exists t', (if hi >? r_max key
              then let! k := Range_new (r_max key + 1) hi in let! (_, t) := IntervalTree_delete t k in Ret t
              else Ret t) = Ret t' /\
    pool_upto t' /\ entries t' = es1 ++ (merge_right es2 (r_max key)).1 /\
    chain (hi + 1) top (merge_right es2 (r_max key)).1.
Proof.
  intros Hwf He ?? Hc2. pose proof top_le as Htl. unfold merge_right.
  assert (Hnone : exists t', (if r_max key >? r_max key
              then let! k := Range_new (r_max key + 1) (r_max key) in
                   let! (_, t) := IntervalTree_delete t k in Ret t
              else Ret t) = Ret t' /\ pool_upto t' /\ entries t' = es1 ++ es2 /\
              chain (r_max key + 1) top es2).
  { rewrite Z.gtb_ltb, Z.ltb_irrefl. eauto. }
  destruct (touch_right es2 (r_max key)) as [[k [ | | ]]|] eqn:Et; simpl; try (split; [lia|done]).
  unfold touch_right in Et. destruct es2 as [|[k' v] es2]; [done|]. simpl in Et.
  case_hyp Et; [|done]. injection Et as -> ->. bools. simpl in *. destruct Hc2 as (? & ? & Hc2).
  split; [lia|]. rewrite Z.gtb_ltb, (proj2 (Z.ltb_lt _ _)) by lia. rewrite Range_new_ret by lia. cbn [obind].
  replace (mkRange (r_max key + 1) (r_max k)) with k by (rewrite <- (Range_eta k) at 1; f_equal; lia).
  destruct (delete_entries t es1 es2 k Free) as (t' & -> & ? & ?); auto. cbn [obind]. eauto.
Qed.

(** The entries after freeing [key], which lies between [es1] and [es2]. *)
Definition coalesced es1 key es2 : list entry :=
  (merge_left es1 (r_min key)).1 ++
  (mkRange (merge_left es1 (r_min key)).2 (merge_right es2 (r_max key)).2, Free) ::
  (merge_right es2 (r_max key)).1.

Lemma merge_left_bound es1 lo :
  (match touch_left es1 lo with
   | Some (r, v) => if NodeState_is_free v then r_min r else lo | None => lo end)
  = (merge_left es1 lo).2.
Proof. unfold merge_left. by destruct (touch_left es1 lo) as [[k []]|]. Qed.

Lemma merge_right_bound es2 hi :
  (match touch_right es2 hi with
   | Some (r, v) => if NodeState_is_free v then r_max r else hi | None => hi end)
  = (merge_right es2 hi).2.
Proof. unfold merge_right. by destruct (touch_right es2 hi) as [[k []]|]. Qed.

(** After the first deletion, [free] works on a gap between [es1] and [es2]. *)
Lemma free_gap t es1 es2 key (result : option T) :
  pool_upto t -> entries t = es1 ++ es2 -> chain 0 top (es1 ++ (key, Free) :: es2) ->
  exists t',
   (let! lo :=
      if r_min key >? 0 then
        let! p := Range_new (r_min key - 1) (r_min key - 1) in
        Ret (match IntervalTree_get_superset t p with
             | Some (r, v) => if NodeState_is_free v then r_min r else r_min key
             | None => r_min key end)
      else Ret (r_min key) in
    let! hi :=
      if r_max key <? u64_max then
        let! p := Range_new (r_max key + 1) (r_max key + 1) in
        Ret (match IntervalTree_get_superset t p with
             | Some (r, v) => if NodeState_is_free v then r_max r else r_max key
             | None => r_max key end)
      else Ret (r_max key) in
    let! t :=
      if lo <? r_min key then
        let! k := Range_new lo (r_min key - 1) in
        let! (_, t) := IntervalTree_delete t k in Ret t
      else Ret t in
    let! t :=
      if hi >? r_max key then
        let! k := Range_new (r_max key + 1) hi in
        let! (_, t) := IntervalTree_delete t k in Ret t
      else Ret t in
    let! t := IntervalTree_insert t (mkRange lo hi) None in
    Ret (result, t)) = Ret (result, t') /\ pool_upto t' /\ entries t' = coalesced es1 key es2.
Proof.
  intros Hwf He Hc. pose proof top_le as Htl. pose proof Hc as (Hc1 & ? & ? & Hc2)%chain_app.
  assert ((if r_min key >? 0 then
        let! p := Range_new (r_min key - 1) (r_min key - 1) in
        Ret (match IntervalTree_get_superset t p with
             | Some (r, v) => if NodeState_is_free v then r_min r else r_min key
             | None => r_min key end)
      else Ret (r_min key)) = Ret (merge_left es1 (r_min key)).2) as ->.
  { destruct (r_min key >? 0) eqn:E; bools.
    - rewrite Range_new_ret by ulia. cbn [obind]. erewrite superset_left by eauto.
      by rewrite merge_left_bound.
    - assert (es1 = []) as ->; [|done]. destruct es1 as [|[k1 d1] es1]; [done|]. simpl in Hc1. lia. }
  assert ((if r_max key <? u64_max then
        let! p := Range_new (r_max key + 1) (r_max key + 1) in
        Ret (match IntervalTree_get_superset t p with
             | Some (r, v) => if NodeState_is_free v then r_max r else r_max key
             | None => r_max key end)
      else Ret (r_max key)) = Ret (merge_right es2 (r_max key)).2) as ->.
  { destruct (r_max key <? u64_max) eqn:E; bools.
    - rewrite Range_new_ret by ulia. cbn [obind]. erewrite superset_right by eauto. by rewrite merge_right_bound.
    - assert (es2 = []) as ->; [|done]. destruct es2 as [|[k2 d2] es2]; [done|]. simpl in Hc2. lia. }
  cbn [obind].
  destruct (absorb_left t es1 es2 key Free) as (Hlo & t1 & -> & Hwf1 & He1 & Hch1); auto.
  cbn [obind].
  destruct (absorb_right t1 _ es2 key Hwf1 He1) as (Hhi & t2 & -> & Hwf2 & He2 & Hch2); auto.
  cbn [obind].
  destruct (insert_entries t2 _ _ (mkRange (merge_left es1 (r_min key)).2 (merge_right es2 (r_max key)).2)
              None Hwf2 He2) as (t3 & -> & Hwf3 & He3).
  { apply chain_app. simpl. split_and!; auto; lia. }
  cbn [obind]. exists t3. auto.
Qed.

Lemma free_entries t es1 es2 key d :
  pool_upto t -> entries t = es1 ++ (key, d) :: es2 ->
  exists t', IntervalTree_free t key = Ret (NodeState_into d, t') /\ pool_upto t' /\
    entries t' = coalesced es1 key es2.
Proof.
  intros Hwf He. pose proof (pool_chain t Hwf) as Hc. rewrite He in Hc.
  unfold IntervalTree_free.
  destruct (delete_entries t es1 es2 key d) as (t1 & -> & Hwf1 & He1); auto. cbn [obind].
  apply free_gap; auto. by eapply chain_replace.
Qed.

End Alloc.

Arguments pool_upto {T} top t.

(** Pools of 64-bit addresses, and those that stay below the last one. *)
Abbreviation pool_wf := (pool_upto u64_max).
Abbreviation pool_below := (pool_upto (u64_max - 1)).

Lemma top_all : Top u64_max.
Proof. unfold Top. lia. Qed.
Lemma top_below : Top (u64_max - 1).
Proof. unfold Top. lia. Qed.
