(* ===== verification/AllocatorProps.v ===== *)
(** The contract of a resource pool, as its clients see it
    (src/src/dragonball/src/dbs_allocator/src/interval_tree.rs).

    The state of an address is read through [IntervalTree::get_superset], the
    code's own query.  The theorems cover allocation, freeing, their round
    trip, the panics, the depth of the tree and every reachable pool. *)

From S2P Require Import Prelude Range IntervalTree IntervalTreeInv Allocator.

(** Case analysis on the comparisons of an address with range ends. *)
Ltac by_addr :=
  repeat match goal with
  | |- context [(?x <=? ?y)] => destruct (Z.leb_spec x y); simpl
  end; try done; try lia.

Section Props.
Context {T : Type}.
Abbreviation entry := (Range * NodeState T)%type.
Abbreviation pool := (IntervalTree T).
Implicit Types (t : pool) (es : list entry) (k key : Range) (d : NodeState T) (c : Constraint).

(** The state of the address [a]. *)
Definition state_at (t : pool) (a : Z) : option (NodeState T) :=
  match IntervalTree_get_superset t (Range_new_point a) with
  | Some (_, d) => Some d
  | None => None
  end.

Fixpoint addr_state es (a : Z) : option (NodeState T) :=
  match es with
  | [] => None
  | (k, d) :: es' => if (r_min k <=? a) && (a <=? r_max k) then Some d else addr_state es' a
  end.

Lemma addr_state_app es1 es2 a :
  addr_state (es1 ++ es2) a =
  match addr_state es1 a with Some d => Some d | None => addr_state es2 a end.
Proof. induction es1 as [|[k d] es1 IH]; simpl; [done|]. by case_goal. Qed.

Lemma addr_state_elem es lo hi k d a :
  chain lo hi es -> (k, d) ∈ es -> in_range a k -> addr_state es a = Some d.
Proof.
  intros Hc He Ha. revert lo Hc. induction es as [|[k' d'] es IH]; intros lo Hc; [by inversion He|].
  simpl in Hc. destruct Hc as (? & ? & Hc). unfold in_range in *. simpl.
  apply elem_of_cons in He as [[= <- <-]|He].
  - by rewrite (proj2 (Z.leb_le _ _)), (proj2 (Z.leb_le _ _)) by lia.
  - pose proof (chain_elem _ _ _ _ _ Hc He).
    rewrite andb_comm, (proj2 (Z.leb_gt _ _)) by lia. simpl. eauto.
Qed.

Lemma addr_state_none es a :
  (forall k d, (k, d) ∈ es -> ~ in_range a k) -> addr_state es a = None.
Proof.
  induction es as [|[k d] es IH]; intros H; [done|]. simpl.
  destruct ((r_min k <=? a) && (a <=? r_max k)) eqn:E; bools.
  - exfalso. apply (H k d); [set_solver|]. unfold in_range. lia.
  - apply IH. intros k' d' ?. apply (H k' d'). set_solver.
Qed.

Lemma addr_state_below es lo hi a : chain lo hi es -> a < lo -> addr_state es a = None.
Proof.
  intros Hc ?. apply addr_state_none. intros k d He. pose proof (chain_elem _ _ _ _ _ Hc He).
  unfold in_range. lia.
Qed.

Lemma addr_state_above es lo hi a : chain lo hi es -> hi < a -> addr_state es a = None.
Proof.
  intros Hc ?. apply addr_state_none. intros k d He. pose proof (chain_elem _ _ _ _ _ Hc He).
  unfold in_range. lia.
Qed.

Context {top : Z} {Htop : Top top}.

Lemma state_at_entries t a : pool_upto top t -> state_at t a = addr_state (entries t) a.
Proof.
  intros Hwf. unfold state_at, Range_new_point. pose proof (pool_chain t Hwf) as Hc.
  destruct (IntervalTree_get_superset t (mkRange a a)) as [[k d]|] eqn:E.
  - apply get_superset_sound in E as [He Hk%contain_point].
    symmetry. by eapply addr_state_elem.
  - symmetry. apply addr_state_none. intros k d He Ha.
    pose proof (chain_elem _ _ _ _ _ Hc He).
    rewrite (get_superset_some (top := top) t k d) in E; [done|done|done|simpl; lia|by apply contain_point].
Qed.

Lemma addr_state_gap lo hi a :
  addr_state (gap lo hi) a = if (lo <=? a) && (a <=? hi) then Some Free else None.
Proof. unfold gap. by_addr. Qed.

Lemma addr_state_carve es1 k (r : Range) es2 a :
  chain 0 top (es1 ++ (k, Free) :: es2) ->
  r_min k <= r_min r -> r_min r <= r_max r -> r_max r <= r_max k ->
  addr_state (carve_out es1 k r es2) a =
  if (r_min r <=? a) && (a <=? r_max r) then Some Allocated
  else addr_state (es1 ++ (k, Free) :: es2) a.
Proof.
  intros (Hc1 & ? & ? & Hc2)%chain_app ???. unfold carve_out. rewrite !addr_state_app. simpl.
  rewrite addr_state_app, !addr_state_gap.
  destruct (decide (r_min k <= a)).
  - rewrite (addr_state_above es1 _ _ a Hc1) by lia. by_addr.
  - destruct (addr_state es1 a); by_addr.
Qed.

Lemma addr_state_merge_left es1 key d es2 a :
  chain 0 top (es1 ++ (key, d) :: es2) ->
  0 <= (merge_left es1 (r_min key)).2 <= r_min key /\
  addr_state es1 a =
  (if ((merge_left es1 (r_min key)).2 <=? a) && (a <=? r_min key - 1) then Some Free
   else addr_state (merge_left es1 (r_min key)).1 a).
Proof.
  intros (Hc1 & ? & ? & Hc2)%chain_app. unfold merge_left.
  assert (Hn : 0 <= r_min key <= r_min key /\ addr_state es1 a =
     (if (r_min key <=? a) && (a <=? r_min key - 1) then Some Free else addr_state es1 a))
    by (split; [lia|by_addr]).
  destruct (touch_left es1 (r_min key)) as [[k [ | | ]]|] eqn:Et; simpl; try done.
  unfold touch_left in Et. destruct (last es1) as [[k' v]|] eqn:El; [|done].
  case_hyp Et; [|done]. injection Et as -> ->. bools.
  apply last_Some in El as (ea & ->). rewrite removelast_last.
  pose proof Hc1 as (Hca & ? & ? & _)%chain_app. split; [lia|].
  rewrite addr_state_app. simpl. destruct (decide (r_min k <= a)).
  - rewrite (addr_state_above ea _ _ a Hca) by lia. by_addr.
  - destruct (addr_state ea a); by_addr.
Qed.

Lemma addr_state_merge_right es1 key d es2 a :
  chain 0 top (es1 ++ (key, d) :: es2) ->
  r_max key <= (merge_right es2 (r_max key)).2 /\
  addr_state es2 a =
  (if (r_max key + 1 <=? a) && (a <=? (merge_right es2 (r_max key)).2) then Some Free
   else addr_state (merge_right es2 (r_max key)).1 a).
Proof.
  intros (Hc1 & ? & ? & Hc2)%chain_app. unfold merge_right.
  assert (Hn : r_max key <= r_max key /\ addr_state es2 a =
     (if (r_max key + 1 <=? a) && (a <=? r_max key) then Some Free else addr_state es2 a))
    by (split; [lia|by_addr]).
  destruct (touch_right es2 (r_max key)) as [[k [ | | ]]|] eqn:Et; simpl; try done.
  unfold touch_right in Et. destruct es2 as [|[k' v] es2]; [done|]. simpl in Et.
  case_hyp Et; [|done]. injection Et as -> ->. bools. simpl in *. destruct Hc2 as (? & ? & Hc2).
  split; [lia|]. by_addr.
Qed.

Lemma merge_left_chain es1 lo :
  0 <= lo -> chain 0 (lo - 1) es1 -> chain 0 ((merge_left es1 lo).2 - 1) (merge_left es1 lo).1.
Proof.
  intros Hlo Hc. unfold merge_left.
  destruct (touch_left es1 lo) as [[k [ | | ]]|] eqn:Et; simpl; try done.
  unfold touch_left in Et. destruct (last es1) as [[k' v]|] eqn:El; [|done].
  case_hyp Et; [|done]. injection Et as -> ->. apply last_Some in El as (ea & ->).
  rewrite removelast_last. by apply chain_app in Hc as (? & _).
Qed.

Lemma addr_state_coalesced es1 key d es2 a :
  chain 0 top (es1 ++ (key, d) :: es2) ->
  addr_state (coalesced es1 key es2) a =
  if (r_min key <=? a) && (a <=? r_max key) then Some Free
  else addr_state (es1 ++ (key, d) :: es2) a.
Proof.
  intros Hc. unfold coalesced.
  destruct (addr_state_merge_left es1 key d es2 a Hc) as [? E1].
  destruct (addr_state_merge_right es1 key d es2 a Hc) as [? E2].
  apply chain_app in Hc as (Hc1 & ? & ? & Hc2).
  rewrite !addr_state_app. simpl. rewrite E1, E2. clear E1 E2.
  pose proof (merge_left_chain es1 (r_min key) ltac:(lia) Hc1) as Hm.
  destruct (decide ((merge_left es1 (r_min key)).2 <= a)).
  - rewrite (addr_state_above _ _ _ a Hm) by lia. by_addr.
  - destruct (addr_state (merge_left es1 (r_min key)).1 a); by_addr.
Qed.

(** ** Adjacent free entries *)

Definition ok_pair (e1 e2 : entry) : Prop :=
  e1.2 = Free -> e2.2 = Free -> r_max e1.1 + 1 <> r_min e2.1.

(** No two neighbouring free entries touch. *)
Fixpoint no_adjacent_free es : Prop :=
  match es with
  | [] => True
  | e :: es' => (forall e', head es' = Some e' -> ok_pair e e') /\ no_adjacent_free es'
  end.

Lemma naf_app es1 es2 :
  no_adjacent_free (es1 ++ es2) <->
  no_adjacent_free es1 /\ no_adjacent_free es2 /\
  (forall e1 e2, last es1 = Some e1 -> head es2 = Some e2 -> ok_pair e1 e2).
Proof.
  induction es1 as [|e es1 IH]; simpl; [naive_solver|].
  destruct es1 as [|e' es1]; simpl in *; [naive_solver|]. rewrite IH. naive_solver.
Qed.

(** Freeing what was carved out of [k] restores [k]. *)
Lemma coalesced_carve es1 k (r : Range) es2 :
  no_adjacent_free (es1 ++ (k, Free) :: es2) ->
  r_min k <= r_min r -> r_min r <= r_max r -> r_max r <= r_max k ->
  coalesced (es1 ++ gap (r_min k) (r_min r - 1)) r (gap (r_max r + 1) (r_max k) ++ es2) =
  es1 ++ (k, Free) :: es2.
Proof.
  intros Hn ???. apply naf_app in Hn as (_ & [Hn2 _] & Hn1). unfold coalesced.
  assert (merge_left (es1 ++ gap (r_min k) (r_min r - 1)) (r_min r) = (es1, r_min k)) as ->.
  { unfold merge_left, touch_left, gap. destruct (r_min k <=? r_min r - 1) eqn:E; bools.
    - rewrite last_snoc. simpl. rewrite (proj2 (Z.eqb_eq _ _)) by lia. by rewrite removelast_last.
    - rewrite app_nil_r. assert (r_min k = r_min r) as -> by lia.
      destruct (last es1) as [[k1 d1]|] eqn:El; [|done].
      destruct (r_max k1 + 1 =? r_min r) eqn:E'; [|done]. bools.
      destruct d1; try done. exfalso. by apply (Hn1 _ _ eq_refl eq_refl); simpl; auto; lia. }
  assert (merge_right (gap (r_max r + 1) (r_max k) ++ es2) (r_max r) = (es2, r_max k)) as ->.
  { unfold merge_right, touch_right, gap. destruct (r_max r + 1 <=? r_max k) eqn:E; bools; simpl.
    - by rewrite (proj2 (Z.eqb_eq _ _)) by lia.
    - assert (r_max k = r_max r) as -> by lia. destruct es2 as [|[k2 d2] es2]; [done|]. simpl.
      destruct (r_max r + 1 =? r_min k2) eqn:E'; [|done]. bools.
      destruct d2; try done. exfalso. by apply (Hn2 _ eq_refl); simpl; auto; lia. }
  simpl. by rewrite Range_eta.
Qed.

Lemma naf_carve es1 k (r : Range) es2 d :
  no_adjacent_free (es1 ++ (k, Free) :: es2) -> d <> Free -> r_max r <= r_max k -> 
  no_adjacent_free (es1 ++ gap (r_min k) (r_min r - 1) ++ (r, d) :: gap (r_max r + 1) (r_max k) ++ es2).
Proof.
  intros (Hn1 & [Hk Hn2] & Hl)%naf_app Hd Hr.
  assert (Hg2 : no_adjacent_free (gap (r_max r + 1) (r_max k) ++ es2)).
  { unfold gap. destruct (r_max r + 1 <=? r_max k); simpl; [|done]. split; [|done].
    intros e' He' _ Hf. simpl. by apply (Hk e' He'). }
  assert (Hr2 : no_adjacent_free ((r, d) :: gap (r_max r + 1) (r_max k) ++ es2)).
  { simpl. split; [|done]. intros e' _ Hf. by simpl in Hf. }
  apply naf_app. split; [done|]. unfold gap at 1 3. destruct (r_min k <=? r_min r - 1); simpl.
  - split; [split; [|done]|]; [intros e' [= <-] _ Hf; by simpl in Hf|].
    intros e1 e2 He1 [= <-] Hf1 _. simpl. by apply (Hl e1 (k, Free)).
  - split; [done|]. intros e1 e2 He1 [= <-] _ Hf. by simpl in Hf.
Qed.

Lemma last_removelast_ok es1 lo (e : entry) :
  last (merge_left es1 lo).1 = Some e -> no_adjacent_free es1 ->
  e.2 = Free -> chain 0 (lo - 1) es1 -> r_max e.1 + 1 <> (merge_left es1 lo).2.
Proof.
  intros Hl Hn Hf Hc. unfold merge_left, touch_left in *.
  destruct (last es1) as [[k1 d1]|] eqn:El; simpl in *; [|rewrite El in Hl; done].
  destruct (r_max k1 + 1 =? lo) eqn:E; bools; simpl in *.
  - destruct d1; simpl in *.
    + apply last_Some in El as (ea & ->). rewrite removelast_last in Hl.
      apply naf_app in Hn as (_ & _ & Hn). by apply (Hn e (k1, Free)).
    + rewrite El in Hl. injection Hl as <-. done.
    + rewrite El in Hl. injection Hl as <-. done.
  - rewrite El in Hl. injection Hl as <-. done.
Qed.

Lemma head_tail_ok es2 hi (e : entry) :
  head (merge_right es2 hi).1 = Some e -> no_adjacent_free es2 ->
  e.2 = Free -> (merge_right es2 hi).2 + 1 <> r_min e.1.
Proof.
  intros Hh Hn Hf. unfold merge_right, touch_right in *.
  destruct es2 as [|[k2 d2] es2]; simpl in *; [done|]. destruct Hn as [Hn _].
  destruct (hi + 1 =? r_min k2) eqn:E; bools; [|injection Hh as <-; simpl in *; lia].
  destruct d2; simpl in *; [by apply Hn|injection Hh as <-; done..].
Qed.

Lemma naf_merge_left es1 lo : no_adjacent_free es1 -> no_adjacent_free (merge_left es1 lo).1.
Proof.
  intros Hn. unfold merge_left. destruct (touch_left es1 lo) as [[k [ | | ]]|] eqn:E; try done. simpl.
  destruct es1 as [|e es] using rev_ind; [done|]. rewrite removelast_last.
  by apply naf_app in Hn as (? & _).
Qed.

Lemma naf_merge_right es2 hi : no_adjacent_free es2 -> no_adjacent_free (merge_right es2 hi).1.
Proof.
  intros Hn. unfold merge_right. destruct (touch_right es2 hi) as [[k [ | | ]]|] eqn:E; try done. simpl.
  destruct es2; [done|]. by destruct Hn.
Qed.

(** Freeing leaves no adjacent free entries. *)
Lemma naf_coalesced es1 key es2 lo hi d :
  no_adjacent_free es1 -> no_adjacent_free es2 -> 0 <= lo ->
  chain lo hi (es1 ++ (key, d) :: es2) -> no_adjacent_free (coalesced es1 key es2).
Proof.
  intros H1 H2 Hlo (Hc1 & _)%chain_app. unfold coalesced. apply naf_app. split; [by apply naf_merge_left|].
  split; [split; [|by apply naf_merge_right]|].
  - intros e' He' _ Hf. simpl. by apply (head_tail_ok es2).
  - intros e1 e2 He1 [= <-] Hf _. simpl. apply (last_removelast_ok es1); auto.
    eapply chain_weaken; [done|lia..].
Qed.

(** ** Totality of the operations *)

Definition meets key (e : entry) : Prop := Range_intersect e.1 key = true.

#[global] Instance meets_dec key (e : entry) : Decision (meets key e).
Proof. unfold meets. apply _. Defined.

Lemma chain_insert_point es lo hi key d :
  chain lo hi es -> lo <= r_min key -> r_min key <= r_max key <= hi -> Forall (fun e => ~ meets key e) es ->
  exists es1 es2, es = es1 ++ es2 /\ chain lo hi (es1 ++ (key, d) :: es2).
Proof.
  revert lo. induction es as [|[k v] es IH]; intros lo Hc Hlo Hk Hn.
  { exists [], []. simpl. split_and!; auto; lia. }
  simpl in Hc. destruct Hc as (? & ? & Hc). inversion Hn as [|? ? Hm Hn']; subst.
  unfold meets in Hm. simpl in Hm. apply not_true_is_false, Range_intersect_false in Hm as [Hm|Hm]; [| |lia..].
  - destruct (IH (r_max k + 1)) as (es1 & es2 & -> & Hc'); auto; [lia|].
    exists ((k, v) :: es1), es2. simpl. split; [done|]. split_and!; auto; lia.
  - exists [], ((k, v) :: es). simpl. split; [done|]. split_and!; auto; lia.
Qed.

Lemma insert_total t key data :
  pool_upto top t -> 0 <= r_min key -> r_min key <= r_max key <= top ->
  (Exists (meets key) (entries t) /\ IntervalTree_insert t key data = Panic) \/
  (Forall (fun e => ~ meets key e) (entries t) /\
   exists t' es1 es2, IntervalTree_insert t key data = Ret t' /\ pool_upto top t' /\
     entries t = es1 ++ es2 /\ entries t' = es1 ++ (key, state_of data) :: es2).
Proof.
  intros Hwf Hlo Hk. pose proof (pool_chain t Hwf) as Hc.
  destruct (decide (Exists (meets key) (entries t))) as [Hex|Hno].
  - left. split; [done|]. apply Exists_exists in Hex as ([k d] & Hin & Hm).
    unfold IntervalTree_insert. rewrite (Node_insert_panic _ 0 top key data k d); auto. lia.
  - right. apply Forall_Exists_neg in Hno. split; [done|].
    destruct (chain_insert_point (entries t) 0 top key (state_of data))
      as (es1 & es2 & He & Hc'); auto.
    destruct (insert_entries t es1 es2 key data) as (t' & ? & ? & ?); auto.
    exists t', es1, es2. auto.
Qed.

(** Deletion is total; it removes the entry with exactly that key, if any. *)
Lemma delete_total t key :
  pool_upto top t -> exists o t', IntervalTree_delete t key = Ret (o, t') /\ pool_upto top t' /\
    forall k d, (k, d) ∈ entries t' <-> (k, d) ∈ entries t /\ k <> key.
Proof.
  intros Hwf. pose proof Hwf as [Hb Hc].
  destruct (decide (Exists (fun e : entry => e.1 = key) (entries t))) as [Hex|Hno].
  - apply Exists_exists in Hex as ([k d] & Hin & <-). simpl in *.
    apply list_elem_of_split in Hin as (es1 & es2 & He). rewrite He in Hc |- *.
    destruct (delete_entries t es1 es2 k d) as (t' & ? & ? & He'); auto.
    do 2 eexists. split_and!; eauto. rewrite He'. clear He'.
    apply chain_app in Hc as (Hc1 & ? & ? & Hc2). intros k' d'. split; [|set_solver].
    intros [He'|He']%elem_of_app.
    + pose proof (chain_elem _ _ _ _ _ Hc1 He'). split; [set_solver|intros ->; lia].
    + pose proof (chain_elem _ _ _ _ _ Hc2 He'). split; [set_solver|intros ->; lia].
  - apply Forall_Exists_neg in Hno. rewrite Forall_forall in Hno.
    destruct (Node_delete_missing (root t) 0 top key) as (r & E & ? & Hr & _); auto; [lia..| |].
    { intros d Hin. by apply (Hno (key, d)). }
    exists None, (mkIntervalTree r). unfold IntervalTree_delete. rewrite E. cbn [obind].
    split; [done|]. unfold pool_upto, entries in *. simpl. rewrite Hr. split; [done|].
    intros k d. split; [|by intros [? _]]. intros Hin. split; [done|]. intros ->. by apply (Hno (key, d)).
Qed.

Lemma delete_absent t key :
  pool_upto top t -> (forall d, (key, d) ∉ entries t) ->
  exists t', IntervalTree_delete t key = Ret (None, t') /\ pool_upto top t' /\ entries t' = entries t.
Proof.
  intros [Hb Hc] Hn.
  destruct (Node_delete_missing (root t) 0 top key) as (r & E & ? & Hr & _); auto; [lia..|].
  exists (mkIntervalTree r). unfold IntervalTree_delete. rewrite E. cbn [obind].
  unfold pool_upto, entries in *. simpl. rewrite Hr. auto.
Qed.

(** Freeing a range that meets an entry without being one panics: the final
    insertion meets that entry. *)
Lemma free_meets t key :
  pool_upto top t -> 0 <= r_min key -> r_min key <= r_max key <= top ->
  (forall d, (key, d) ∉ entries t) -> Exists (meets key) (entries t) ->
  IntervalTree_free t key = Panic.
Proof.
  intros Hwf Hlo Hk Hn Hex. pose proof top_le as Htl. unfold IntervalTree_free.
  destruct (delete_absent t key) as (t1 & -> & Hwf1 & He1); auto. cbn [obind].
  rewrite <- He1 in Hex. apply Exists_exists in Hex as ([k d] & Hin & Hm). unfold meets in Hm. simpl in Hm.
  pose proof (pool_chain t1 Hwf1) as Hc1.
  pose proof (chain_elem _ _ _ _ _ Hc1 Hin) as Hkb.
  assert (Hi : Z.max (r_min k) (r_min key) <= Z.min (r_max k) (r_max key)) by (by apply Z.leb_le).
  match goal with |- obind ?m _ = _ => assert (Hm1 : exists lo, m = Ret lo /\ 0 <= lo <= r_min key) end.
  { destruct (r_min key >? 0) eqn:E; bools; [|eauto with lia].
    rewrite Range_new_ret by ulia. cbn [obind]. eexists; split; [done|].
    destruct (IntervalTree_get_superset t1 _) as [[k' v]|] eqn:Es; [|lia].
    apply get_superset_sound in Es as [Hin' Hk'%contain_point].
    pose proof (chain_elem _ _ _ _ _ Hc1 Hin'). destruct (NodeState_is_free v); lia. }
  destruct Hm1 as (lo & -> & Hlo'). cbn [obind].
  match goal with |- obind ?m _ = _ => assert (Hm2 : exists hi, m = Ret hi /\ r_max key <= hi <= top) end.
  { destruct (r_max key <? u64_max) eqn:E; bools; [|eauto with lia].
    rewrite Range_new_ret by ulia. cbn [obind]. eexists; split; [done|].
    destruct (IntervalTree_get_superset t1 _) as [[k' v]|] eqn:Es; [|lia].
    apply get_superset_sound in Es as [Hin' Hk'%contain_point].
    pose proof (chain_elem _ _ _ _ _ Hc1 Hin'). destruct (NodeState_is_free v); lia. }
  destruct Hm2 as (hi & -> & Hhi'). cbn [obind].
  match goal with |- obind ?m _ = _ =>
    assert (Hm3 : exists t2, m = Ret t2 /\ pool_upto top t2 /\ (k, d) ∈ entries t2) end.
  { destruct (lo <? r_min key) eqn:E; bools; [|eauto].
    rewrite Range_new_ret by ulia. cbn [obind].
    destruct (delete_total t1 (mkRange lo (r_min key - 1)) Hwf1) as (o & t2 & -> & Hwf2 & He2).
    cbn [obind]. eexists; split_and!; eauto. apply He2. split; [done|]. intros ->. simpl in *. lia. }
  destruct Hm3 as (t2 & -> & Hwf2 & Hin2). cbn [obind].
  match goal with |- obind ?m _ = _ =>
    assert (Hm4 : exists t3, m = Ret t3 /\ pool_upto top t3 /\ (k, d) ∈ entries t3) end.
  { destruct (hi >? r_max key) eqn:E; bools; [|eauto].
    rewrite Range_new_ret by ulia. cbn [obind].
    destruct (delete_total t2 (mkRange (r_max key + 1) hi) Hwf2) as (o & t3 & -> & Hwf3 & He3).
    cbn [obind]. eexists; split_and!; eauto. apply He3. split; [done|]. intros ->. simpl in *. lia. }
  destruct Hm4 as (t3 & -> & Hwf3 & Hin3). cbn [obind].
  destruct (insert_total t3 (mkRange lo hi) None Hwf3) as [[_ ->]|[Hno _]]; simpl; [lia|lia|done|].
  rewrite Forall_forall in Hno. exfalso. apply (Hno (k, d) Hin3). unfold meets, Range_intersect. simpl.
  apply Z.leb_le. lia.
Qed.

Lemma free_fresh t key :
  pool_upto top t -> 0 <= r_min key -> r_min key <= r_max key <= top ->
  Forall (fun e => ~ meets key e) (entries t) ->
  exists t' es1 es2, IntervalTree_free t key = Ret (None, t') /\ pool_upto top t' /\
    entries t = es1 ++ es2 /\ chain 0 top (es1 ++ (key, Free) :: es2) /\
    entries t' = coalesced es1 key es2.
Proof.
  intros Hwf Hlo Hk Hno. unfold IntervalTree_free.
  destruct (delete_absent t key) as (t1 & -> & Hwf1 & He1); auto.
  { intros d Hin. rewrite Forall_forall in Hno. apply (Hno _ Hin). unfold meets, Range_intersect. simpl.
    apply Z.leb_le. lia. }
  destruct (chain_insert_point (entries t) 0 top key Free) as (es1 & es2 & He & Hc');
    auto; [by apply pool_chain|].
  cbn [obind]. destruct (free_gap t1 es1 es2 key None) as (t' & E & Hwf' & He'); auto; [congruence|].
  exists t', es1, es2. auto.
Qed.

Lemma addr_state_insert es1 es2 key d a :
  chain 0 top (es1 ++ (key, d) :: es2) ->
  addr_state (es1 ++ (key, d) :: es2) a =
  if (r_min key <=? a) && (a <=? r_max key) then Some d else addr_state (es1 ++ es2) a.
Proof.
  intros (Hc1 & ? & ? & Hc2)%chain_app. rewrite !addr_state_app. simpl.
  destruct (decide (r_min key <= a)).
  - rewrite (addr_state_above es1 _ _ a Hc1) by lia. by_addr.
  - destruct (addr_state es1 a); by_addr.
Qed.

End Props.

Section Spec.
Context {T : Type} {top : Z} {Htop : Top top}.
Abbreviation pool := (IntervalTree T).
Implicit Types (t : pool) (k key r : Range) (c : Constraint).

Definition within r (a : Z) : bool := (r_min r <=? a) && (a <=? r_max r).

(** [get] returns the state of the entry with exactly that key. *)
Lemma get_entries t key d : pool_upto top t -> IntervalTree_get t key = Some d <-> (key, d) ∈ entries t.
Proof.
  intros [_ Hc]. unfold IntervalTree_get. split.
  - destruct (Node_search (root t) key) as [n|] eqn:E; [|done].
    apply Node_search_sound in E as (d' & ? & ? & ? & ? & -> & ?). by intros [= ->].
  - intros He. by destruct (Node_search_some (root t) 0 top key d Hc He) as (?&?&?&?&->).
Qed.

Lemma search_superset_mut_ok (f : T -> T) key (n : tree T) : forall lo hi n' k d,
  balanced n -> chain lo hi (elements n) -> Node_search_superset_mut n key f = Some (n', k, d) ->
  balanced n' /\ chain lo hi (elements n') /\ height n' = height n /\ max_key n' = max_key n.
Proof.
  induction n as [|k0 d0 l IHl r IHr h m]; intros lo hi n' k d Hb Hc E; [done|].
  pose proof Hb as (Hbl & Hbr & Hd & Eh & Em)%balanced_inv. simpl in Hc.
  pose proof Hc as (Hcl & ? & ? & Hcr)%chain_app. cbn [Node_search_superset_mut] in E.
  case_hyp E.
  { injection E as <- <- <-. split_and!; [subst; by apply balanced_node| |done..].
    simpl. apply chain_app. auto. }
  case_hyp E.
  { destruct (Node_search_superset_mut l key f) as [[[l' k'] d']|] eqn:El; [|done].
    injection E as <- <- <-. destruct (IHl _ _ _ _ _ Hbl Hcl eq_refl) as (? & ? & Hh & Hm).
    split_and!; [|simpl; apply chain_app; auto|done..].
    subst. rewrite <- Hh, <- Hm. apply balanced_node; auto; lia. }
  case_hyp E; [|done].
  destruct (Node_search_superset_mut r key f) as [[[r' k'] d']|] eqn:Er; [|done].
  injection E as <- <- <-. destruct (IHr _ _ _ _ _ Hbr Hcr eq_refl) as (? & ? & Hh & Hm).
  split_and!; [|simpl; apply chain_app; auto|done..].
  subst. rewrite <- Hh, <- Hm. apply balanced_node; auto; lia.
Qed.

Lemma update_total t key data :
  pool_upto top t ->
  (exists d es1 es2, entries t = es1 ++ (key, d) :: es2 /\
     if update_allowed d (Valued data)
     then exists t', IntervalTree_update t key data = Ret (NodeState_into d, t') /\ pool_upto top t' /\
            entries t' = es1 ++ (key, Valued data) :: es2
     else IntervalTree_update t key data = Panic) \/
  ((forall d, (key, d) ∉ entries t) /\ IntervalTree_update t key data = Ret (None, t)).
Proof.
  intros [Hb Hc]. unfold IntervalTree_update, entries in *.
  destruct (decide (Exists (fun e : Range * NodeState T => e.1 = key) (elements (root t)))) as [Hex|Hno].
  - left. apply Exists_exists in Hex as ([k d] & Hin & <-).
    apply list_elem_of_split in Hin as (es1 & es2 & He). exists d, es1, es2. split; [done|].
    pose proof (Node_update_ok (root t) 0 top es1 es2 k d (Valued data) Hb Hc He) as Hu.
    simpl. destruct (update_allowed d (Valued data)); [|by rewrite Hu].
    destruct Hu as (r & -> & ? & Hr & _). exists (mkIntervalTree r). cbn [obind]. split; [done|].
    unfold pool_upto, entries. simpl. rewrite Hr. split_and!; auto.
    eapply chain_replace. by rewrite <- He.
  - right. apply Forall_Exists_neg in Hno. rewrite Forall_forall in Hno.
    assert (Hn : forall d, (key, d) ∉ elements (root t)) by (intros d Hin; by apply (Hno _ Hin)).
    split; [done|]. destruct t as [n]. simpl in *.
    enough (Node_update n key (Valued data) = Ret (None, n)) as -> by done.
    clear -Hn. induction n as [|k d l IHl r IHr h m]; [done|]. simpl in *.
    destruct (Range_cmp k key) eqn:E.
    + apply Range_cmp_eq in E as ->. exfalso. apply (Hn d). set_solver.
    + rewrite IHr; [done|set_solver].
    + rewrite IHl; [done|set_solver].
Qed.

(** ** Freeing *)

(** [IntervalTree::free] on a pool, for a range within the bound:
    an existing entry is freed, its data returned, and every other address
    keeps its state; a range disjoint from all entries becomes a free part of
    the pool; a range that meets an entry without being one panics. *)
Theorem free_correct t key :
  pool_upto top t -> 0 <= r_min key -> r_min key <= r_max key <= top ->
  (exists d t', (key, d) ∈ entries t /\ IntervalTree_free t key = Ret (NodeState_into d, t') /\
     pool_upto top t' /\ forall a, state_at t' a = if within key a then Some Free else state_at t a) \/
  (Forall (fun e => ~ meets key e) (entries t) /\ exists t',
     IntervalTree_free t key = Ret (None, t') /\ pool_upto top t' /\
     forall a, state_at t' a = if within key a then Some Free else state_at t a) \/
  ((forall d, (key, d) ∉ entries t) /\ Exists (meets key) (entries t) /\
     IntervalTree_free t key = Panic).
Proof.
  intros Hwf Hlo Hk. pose proof (pool_chain t Hwf) as Hc.
  destruct (decide (Exists (fun e : Range * NodeState T => e.1 = key) (entries t))) as [Hex|Hno].
  - left. apply Exists_exists in Hex as ([k d] & Hin & <-). simpl in *.
    pose proof Hin as (es1 & es2 & He)%list_elem_of_split.
    destruct (free_entries t es1 es2 k d Hwf He) as (t' & E & Hwf' & He').
    exists d, t'. split_and!; auto. intros a. rewrite !state_at_entries, He', He by done.
    rewrite He in Hc. by eapply addr_state_coalesced.
  - right. apply Forall_Exists_neg in Hno. rewrite Forall_forall in Hno.
    assert (Hn : forall d, (key, d) ∉ entries t) by (intros d Hin; by apply (Hno _ Hin)).
    destruct (decide (Exists (meets key) (entries t))) as [Hm|Hm].
    + right. split_and!; auto. by apply free_meets.
    + left. apply Forall_Exists_neg in Hm. split; [done|].
      destruct (free_fresh t key Hwf Hlo Hk Hm) as (t' & es1 & es2 & E & Hwf' & He & Hc' & He').
      exists t'. split_and!; auto. intros a. rewrite !state_at_entries, He', He by done.
      erewrite addr_state_coalesced by done. rewrite (addr_state_insert es1 es2 key Free a Hc').
      unfold within. by destruct (_ && _).
Qed.

(** Allocating and then freeing the returned range restores the entries of
    a pool without adjacent free entries exactly, whether or not the range was
    given a value by [update] in between, and such pools stay such. *)
Theorem allocate_free_roundtrip t c r t1 (v : option T) :
  pool_upto top t -> no_adjacent_free (entries t) -> valid_constraint c ->
  IntervalTree_allocate t c = Ret (Some r, t1) ->
  exists t2 t3,
    match v with
    | Some x => IntervalTree_update t1 r x = Ret (None, t2)
    | None => t2 = t1
    end /\ no_adjacent_free (entries t2) /\
    IntervalTree_free t2 r = Ret (v, t3) /\ entries t3 = entries t.
Proof.
  intros Hwf Hn Hv E. destruct (allocate_entries t c Hwf Hv) as (o & t' & E' & Hwf1 & Ho).
  { rewrite <- allocate_panics by done. by rewrite E. }
  rewrite E in E'. injection E' as <- <-.
  destruct Ho as (Hpos & Hg & es1 & k & es2 & He & ((Hlo & _) & Hlen & Hhi) & _ & He1).
  unfold carve_out in He1. rewrite app_assoc in He1. rewrite He in Hn |- *.
  assert (Hbnd : r_min k <= r_min r /\ r_min r <= r_max r /\ r_max r <= r_max k) by lia.
  assert (Hfin : forall (d : NodeState T) t2, d <> Free -> pool_upto top t2 ->
    entries t2 = (es1 ++ gap (r_min k) (r_min r - 1)) ++ (r, d) :: gap (r_max r + 1) (r_max k) ++ es2 ->
    no_adjacent_free (entries t2) /\ exists t3, IntervalTree_free t2 r = Ret (NodeState_into d, t3) /\
    entries t3 = es1 ++ (k, Free) :: es2).
  { intros d t2 Hd Hwf2 He2. split.
    - rewrite He2, <- app_assoc. apply naf_carve; auto; lia.
    - destruct (free_entries t2 _ _ r d Hwf2 He2) as (t3 & E3 & _ & He3).
      exists t3. split; [done|]. rewrite He3. apply coalesced_carve; auto; lia. }
  destruct v as [x|].
  - destruct (update_total t1 r x Hwf1) as [(d & ea & eb & Hee & Hu)|[Hno _]].
    + assert (d = Allocated) as ->.
      { pose proof (pool_chain t1 Hwf1) as Hc1. eapply (chain_unique _ _ _ r); [done| |]; [rewrite Hee|rewrite He1]; set_solver. }
      destruct Hu as (t2 & E2 & Hwf2 & He2). exists t2.
      assert (Heq : entries t2 = (es1 ++ gap (r_min k) (r_min r - 1)) ++ (r, Valued x) :: gap (r_max r + 1) (r_max k) ++ es2).
      { pose proof (pool_chain t1 Hwf1) as Hc1. rewrite He2. rewrite He1 in Hee, Hc1.
        by eapply chain_same_split. }
      destruct (Hfin (Valued x) t2) as (? & t3 & ? & ?); auto. exists t3. auto.
    + exfalso. apply (Hno Allocated). rewrite He1. set_solver.
  - destruct (Hfin Allocated t1) as (? & t3 & ? & ?); auto. exists t1, t3. auto.
Qed.

(** ** Insertion and update *)

(** [IntervalTree::insert] of a range within the bound panics exactly
    when the range meets an existing entry; otherwise the addresses of the range
    take the given state (a value, or free) and all others keep theirs. *)
Theorem insert_correct t key data :
  pool_upto top t -> 0 <= r_min key -> r_min key <= r_max key <= top ->
  (Exists (meets key) (entries t) /\ IntervalTree_insert t key data = Panic) \/
  (Forall (fun e => ~ meets key e) (entries t) /\ exists t',
     IntervalTree_insert t key data = Ret t' /\ pool_upto top t' /\
     IntervalTree_get t' key = Some (state_of data) /\
     forall a, state_at t' a = if within key a then Some (state_of data) else state_at t a).
Proof.
  intros Hwf Hlo Hk.
  destruct (insert_total t key data Hwf Hlo Hk) as [?|(Hno & t' & es1 & es2 & E & Hwf' & He & He')]; [by left|].
  right. split; [done|]. exists t'. pose proof (pool_chain t' Hwf') as Hc'.
  split_and!; auto.
  - apply get_entries; [done|]. rewrite He'. set_solver.
  - intros a. rewrite !state_at_entries, He', He by done. rewrite He' in Hc'.
    by eapply addr_state_insert.
Qed.

(** [IntervalTree::update] gives an allocated or valued entry its new value
    and returns the old one; on a free entry it panics; on a missing key it
    returns [None] and changes nothing. *)
Theorem update_correct t key data :
  pool_upto top t ->
  match IntervalTree_get t key with
  | Some Free => IntervalTree_update t key data = Panic
  | Some d => exists t', IntervalTree_update t key data = Ret (NodeState_into d, t') /\ pool_upto top t' /\
                IntervalTree_get t' key = Some (Valued data) /\
                forall key', key' <> key -> IntervalTree_get t' key' = IntervalTree_get t key'
  | None => IntervalTree_update t key data = Ret (None, t)
  end.
Proof.
  intros Hwf. destruct (update_total t key data Hwf) as [(d & es1 & es2 & He & Hu)|[Hn Hu]].
  - assert (IntervalTree_get t key = Some d) as ->.
    { apply get_entries; [done|]. rewrite He. set_solver. }
    destruct d; simpl in Hu; [done|..]; destruct Hu as (t' & -> & Hwf' & He'); exists t';
      (split; [done|split; [done|split]]).
    + apply get_entries; [done|]. rewrite He'. set_solver.
    + intros key' Hne. apply option_eq. intros d'. rewrite !get_entries by done.
      rewrite He, He'. set_solver.
    + apply get_entries; [done|]. rewrite He'. set_solver.
    + intros key' Hne. apply option_eq. intros d'. rewrite !get_entries by done.
      rewrite He, He'. set_solver.
  - destruct (IntervalTree_get t key) as [d|] eqn:E; [|done].
    exfalso. apply get_entries in E; [|done]. by apply (Hn d).
Qed.

End Spec.

Section Whole.
Context {T : Type}.
Abbreviation pool := (IntervalTree T).
Implicit Types (t : pool) (k key r : Range) (c : Constraint).
#[local] Existing Instance top_all.

(** ** Every reachable pool *)

(** One call of an operation of [IntervalTree] that returned. *)
Inductive pool_step : pool -> pool -> Prop :=
| step_insert t t' key data :
    0 <= r_min key -> r_min key <= r_max key <= u64_max ->
    IntervalTree_insert t key data = Ret t' -> pool_step t t'
| step_update t t' key data old :
    IntervalTree_update t key data = Ret (old, t') -> pool_step t t'
| step_delete t t' key old :
    IntervalTree_delete t key = Ret (old, t') -> pool_step t t'
| step_allocate t t' c o :
    valid_constraint c -> IntervalTree_allocate t c = Ret (o, t') -> pool_step t t'
| step_free t t' key old :
    0 <= r_min key -> r_min key <= r_max key <= u64_max ->
    IntervalTree_free t key = Ret (old, t') -> pool_step t t'
| step_get_mut t t' key f o :
    IntervalTree_get_superset_mut t key f = (o, t') -> pool_step t t'
| step_get_by_id_mut t t' id f o :
    IntervalTree_get_by_id_mut t id f = (o, t') -> pool_step t t'.

Inductive reachable_pool : pool -> Prop :=
| reachable_new : reachable_pool IntervalTree_new
| reachable_step t t' : reachable_pool t -> pool_step t t' -> reachable_pool t'.

Lemma pool_step_wf t t' : pool_wf t -> pool_step t t' -> pool_wf t'.
Proof.
  intros Hwf Hs. destruct Hs as [t t' key data Hlo Hk E|t t' key data old E|t t' key old E
    |t t' c o Hc E|t t' key old Hlo Hk E|t t' key f o E|t t' id f o E].
  - destruct (insert_total t key data Hwf Hlo Hk) as [[_ E']|(_ & t1 & _ & _ & E' & ? & _)]; congruence.
  - destruct (update_total t key data Hwf) as [(d & es1 & es2 & _ & Hu)|[_ E']]; [|congruence].
    destruct (update_allowed d (Valued data)); [|congruence]. destruct Hu as (t1 & E' & ? & _). congruence.
  - destruct (delete_total t key Hwf) as (o & t1 & E' & ? & _). congruence.
  - destruct (allocate_cases t c Hwf Hc) as [[_ E']|(o' & t1 & E' & ? & _)]; congruence.
  - destruct (decide (Exists (fun e : Range * NodeState T => e.1 = key) (entries t))) as [Hex|Hno].
    + apply Exists_exists in Hex as ([k d] & Hin & <-).
      apply list_elem_of_split in Hin as (es1 & es2 & He).
      destruct (free_entries t es1 es2 k d Hwf He) as (t1 & E' & ? & _). simpl in *. congruence.
    + apply Forall_Exists_neg in Hno. rewrite Forall_forall in Hno.
      destruct (decide (Exists (meets key) (entries t))) as [Hm|Hm].
      * rewrite free_meets in E; auto; [done|]. intros d Hin. by apply (Hno _ Hin).
      * apply Forall_Exists_neg in Hm.
        destruct (free_fresh t key Hwf Hlo Hk Hm) as (t1 & _ & _ & E' & ? & _). congruence.
  - unfold IntervalTree_get_superset_mut in E. case_hyp E; [|congruence].
    destruct p as [[n k] d]. injection E as _ <-. destruct Hwf as [Hb Hc].
    by destruct (search_superset_mut_ok _ _ _ _ _ _ _ _ Hb Hc Heqo0) as (? & ? & _).
  - unfold IntervalTree_get_by_id_mut in E. case_hyp E; [|congruence].
    destruct p as [[n k] d]. injection E as _ <-. destruct Hwf as [Hb Hc].
    by destruct (search_superset_mut_ok _ _ _ _ _ _ _ _ Hb Hc Heqo0) as (? & ? & _).
Qed.

Lemma reachable_wf t : reachable_pool t -> pool_wf t.
Proof. induction 1; [apply pool_new|]. by eapply pool_step_wf. Qed.

(** C40. Every pool reachable from the empty one by [insert], [update],
    [delete], [allocate], [free] and the mutable lookups keeps the invariant:
    entries are ordered, disjoint ranges of [u64], cached heights and
    maxima are right, siblings are balanced, and the tree is at most 131 levels
    deep and logarithmic in the number of entries. *)
Theorem reachable_pool_invariant t :
  reachable_pool t ->
  balanced (root t) /\ chain 0 u64_max (entries t) /\
  height (root t) <= 131 /\ 2 ^ (height (root t) / 2) <= Z.of_nat (length (entries t)) + 1.
Proof.
  intros [Hb Hc]%reachable_wf. split_and!; auto.
  - eapply (bounded_height _ 0 u64_max); auto; lia.
  - by apply balanced_size.
Qed.

(** ** Allocation *)

(** The address [a] of the free entry [k] is the lowest that can serve the request. *)
Definition lowest_fit t c k (a : Z) : Prop :=
  (k, Free) ∈ entries t /\ can_hold c k a /\ forall k' a', (k', Free) ∈ entries t -> can_hold c k' a' -> a <= a'.

(** The requests on which [allocate] panics: the lowest fit ends at [u64::MAX], or a
    free entry covers the whole of [u64] and either the request has no bounds or its
    lowest fit is 0. *)
Definition alloc_panics t c : Prop :=
  0 < c_size c /\ exists k, (k, Free) ∈ entries t /\
    (whole_space k /\ unbounded c \/
     good_align (c_align c) /\ exists a, lowest_fit t c k a /\ (a + c_size c - 1 = u64_max \/ whole_space k /\ a = 0)).

Lemma candidate_lowest t c es1 k r es2 :
  pool_wf t -> candidate t c es1 k r es2 -> lowest_fit t c k (r_min r).
Proof.
  intros Hwf (Hpos & Hg & He & (Hleast & Hlen & Hhi) & Hno). destruct Hleast as (Hlo & Hdv & Hl).
  pose proof (pool_chain t Hwf) as Hc. rewrite He in Hc. split; [rewrite He; set_solver|]. split; [split_and!; auto; lia|].
  intros k' a Hin (Hda & Ha1 & Ha2). rewrite He in Hin. apply chain_app in Hc as (Hc1 & _ & ? & Hc2).
  apply elem_of_app in Hin as [Hin|[[= ->]|Hin]%elem_of_cons].
  - rewrite Forall_forall in Hno. exfalso. apply (Hno _ Hin). split; [done|]. split; [done|]. by exists a.
  - apply Hl; [lia|done].
  - pose proof (chain_elem _ _ _ _ _ Hc2 Hin). lia.
Qed.

(** Every fit has a candidate below it. *)
Lemma fit_candidate t c k a :
  pool_wf t -> valid_constraint c -> 0 < c_size c -> good_align (c_align c) -> ~ Exists (too_wide c) (entries t) ->
  (k, Free) ∈ entries t -> can_hold c k a -> exists es1 k' r es2, candidate t c es1 k' r es2.
Proof.
  intros Hwf Hv Hpos Hg Hn Hin Hh. destruct (allocate_cases t c Hwf Hv) as [[(_ & [?|(es1 & k' & r & es2 & Hc & _)]) _]|(o & t' & _ & _ & Ho)]; [done|by exists es1, k', r, es2|].
  destruct o as [r|]; [destruct Ho as (es1 & k' & es2 & Hc & _); by exists es1, k', r, es2|]. exfalso.
  destruct Ho as [_ [?|[Hf _]]]; [lia|]. rewrite Forall_forall in Hf. apply (Hf _ Hin). split; [done|]. split; [done|]. by exists a.
Qed.

Lemma overflows_lowest t c : pool_wf t -> valid_constraint c -> overflows t c <-> alloc_panics t c.
Proof.
  intros Hwf Hv. pose proof (pool_chain t Hwf) as Hc. split.
  - intros (Hpos & [Hex|(es1 & k & r & es2 & Hca & Hr)]); (split; [done|]).
    + apply Exists_exists in Hex as ([k d] & Hin & E & Hw & Hu). simpl in *. subst d. exists k. auto.
    + exists k. pose proof (candidate_lowest _ _ _ _ _ _ Hwf Hca) as Hlow. split; [apply Hlow|]. right. destruct Hca as (_ & Hg & _ & (_ & Hlen & _) & _).
      split; [done|]. exists (r_min r). split; [done|]. destruct Hr as [?|?]; [left; lia|by right].
  - intros (Hpos & k & Hin & Hcase). split; [done|]. destruct (decide (Exists (too_wide c) (entries t))) as [?|Hn]; [by left|]. right.
    destruct Hcase as [[Hw Hu]|(Hg & a & (_ & Hh & Hlow) & Ha)]; [destruct Hn; apply Exists_exists; by exists (k, Free)|].
    destruct (fit_candidate t c k a) as (es1 & k' & r & es2 & Hca); auto. exists es1, k', r, es2. split; [done|].
    destruct (candidate_lowest _ _ _ _ _ _ Hwf Hca) as (Hin' & Hh' & Hlow'). pose proof (Hlow _ _ Hin' Hh') as H1. pose proof (Hlow' _ _ Hin Hh) as H2.
    assert (a = r_min r) as -> by lia. destruct Ha as [Ha|[Hw Ha]]; [left; destruct Hca as (_ & _ & _ & (_ & -> & _) & _); lia|]. right. split; [|done].
    pose proof (whole_space_only t k Free Hwf Hin Hw) as He. rewrite He in Hin'. by apply list_elem_of_singleton in Hin' as [= ->].
Qed.

(** C1. [IntervalTree::allocate] on a pool of arbitrary ranges of [u64].  It panics
    exactly when the lowest fit ends at [u64::MAX], whose end the code computes with an
    overflow, or when one free entry covers the whole of [u64] and the request has no
    bounds or is served at 0.  Otherwise, when it returns a
    range, the range has the requested size, lies within the constraint's
    bounds and is aligned, every address of it was free and is now allocated,
    every other address keeps its state, and no free entry can serve the request
    at a lower address.  When it returns [None] the pool is unchanged and the
    size is 0, the alignment is no power of two, or no free entry can hold the
    request. *)
Theorem allocate_correct t c :
  pool_wf t -> valid_constraint c ->
  (alloc_panics t c /\ IntervalTree_allocate t c = Panic) \/
  (~ alloc_panics t c /\ exists o t', IntervalTree_allocate t c = Ret (o, t') /\ pool_wf t' /\
    match o with
    | Some r =>
        (r_max r = r_min r + c_size c - 1 /\ c_min c <= r_min r <= r_max r /\
         r_max r <= c_max c /\ (eff_align (c_align c) | r_min r)) /\
        (r, Allocated) ∈ entries t' /\
        (forall a, in_range a r -> state_at t a = Some Free) /\
        (forall a, state_at t' a = if within r a then Some Allocated else state_at t a) /\
        (forall k a, (k, Free) ∈ entries t -> can_hold c k a -> r_min r <= a)
    | None => t' = t /\
        (c_size c = 0 \/ ~ good_align (c_align c) \/
         forall k a, (k, Free) ∈ entries t -> ~ can_hold c k a)
    end).
Proof.
  intros Hwf Hv. rewrite <- (overflows_lowest t c Hwf Hv), <- (allocate_panics t c Hwf Hv).
  destruct (allocate_cases t c Hwf Hv) as [[_ E]|(o & t' & E & Hwf' & Ho)]; [by left|]. right. split; [by rewrite E|].
  exists o, t'. split; [done|]. split; [done|]. destruct o as [r|].
  - destruct Ho as (es1 & k & es2 & Hca & He' & _). pose proof (candidate_lowest _ _ _ _ _ _ Hwf Hca) as (_ & _ & Hlow).
    destruct Hca as (Hpos & Hg & He & ((Hlo & Hdv & _) & Hlen & Hhi) & _).
    pose proof (pool_chain t Hwf) as Hc. rewrite He in Hc. split; [split_and!; auto; lia|].
    split; [rewrite He'; unfold carve_out; set_solver|]. split; [|split; [|done]].
    + intros a Ha'. rewrite state_at_entries, He by done. unfold in_range in *.
      eapply (addr_state_elem _ _ _ k); [done|set_solver|unfold in_range; lia].
    + intros a. rewrite !state_at_entries, He', He by done. eapply (addr_state_carve (top := u64_max)); auto; lia.
  - destruct Ho as [-> [Hz|[Hno _]]]; (split; [done|]); [by left|].
    destruct (decide (c_align c = 0 \/ is_pow2 (c_align c) = true)) as [Hg|Hg]; [|by right; left].
    right. right. intros k a Hin Hh. rewrite Forall_forall in Hno. apply (Hno _ Hin).
    split; [done|]. split; [done|]. by exists a.
Qed.

End Whole.

(** The sum [aligned_key.min + constraint.size - 1] of
    [IntervalTree::allocate] overflows before the subtraction when the
    allocation ends at [u64::MAX]: with overflow checks the call panics although
    the range exists and is free. *)
Theorem allocate_overflow_at_max :
  (let! t := IntervalTree_insert (T := unit) IntervalTree_new (mkRange (u64_max - 15) u64_max) None in
   IntervalTree_allocate t (Constraint_new 16)) = Panic.
Proof. vm_compute. reflexivity. Qed.

(** Freeing can join two entries into one for the whole of [u64], whose length
    cannot be computed: a request that it could serve at 0 then panics. *)
Theorem allocate_from_whole_space :
  (let! t := IntervalTree_insert (T := unit) IntervalTree_new (mkRange 0 9) None in
   let! t := IntervalTree_insert t (mkRange 10 u64_max) None in
   let! (_, t) := IntervalTree_free t (mkRange 0 9) in
   IntervalTree_allocate t (Constraint_max (Constraint_new 1) 100)) = Panic.
Proof. vm_compute. reflexivity. Qed.

(** ** Witnesses *)

Definition ex_pool : IntervalTree Z := mkIntervalTree (mkn (mkRange 16 1023) Free Leaf Leaf).
Definition ex_constraint : Constraint := Constraint_align (Constraint_new 24) 32.

#[local] Existing Instance top_all.

Lemma ex_pool_wf : pool_wf ex_pool.
Proof. split; [repeat constructor; simpl; lia | simpl; ulia]. Qed.

Lemma ex_constraint_valid : valid_constraint ex_constraint.
Proof. unfold valid_constraint. simpl. ulia. Qed.

Definition ex_allocated : IntervalTree Z :=
  match IntervalTree_allocate ex_pool ex_constraint with Ret (_, t) => t | Panic => IntervalTree_new end.

Lemma reachable_pool_invariant_witness :
  exists t : IntervalTree Z, reachable_pool t /\ entries t = [(mkRange 16 1023, Free)] /\
    height (root t) <= 131.
Proof.
  exists ex_pool.
  assert (H : reachable_pool ex_pool).
  { eapply reachable_step; [apply reachable_new|].
    apply (step_insert _ _ (mkRange 16 1023) None); [simpl; lia|simpl; ulia|reflexivity]. }
  split; [exact H|]. split; [reflexivity|]. apply (reachable_pool_invariant ex_pool H).
Defined.

Lemma allocate_correct_witness :
  exists r t', IntervalTree_allocate ex_pool ex_constraint = Ret (Some r, t') /\
    r = mkRange 32 55 /\ (forall a, in_range a r -> state_at ex_pool a = Some Free).
Proof.
  destruct (allocate_correct ex_pool ex_constraint ex_pool_wf ex_constraint_valid) as [[_ E]|(_ & o & t' & E & _ & Ho)];
    [vm_compute in E; discriminate E|].
  assert (Eo : o = Some (mkRange 32 55)) by (vm_compute in E; congruence).
  subst o. exists (mkRange 32 55), t'. split; [exact E|]. split; [reflexivity|]. apply Ho.
Defined.

Lemma free_correct_witness :
  exists t', IntervalTree_free ex_pool (mkRange 2000 2015) = Ret (None, t') /\
    state_at t' 2007 = Some Free /\ state_at ex_pool 2007 = None.
Proof.
  destruct (free_correct ex_pool (mkRange 2000 2015) ex_pool_wf) as [H|[H|H]]; [simpl; lia|simpl; ulia|..].
  - destruct H as (d & t' & He & _). exfalso. cbn in He. set_solver.
  - destruct H as (_ & t' & E & _ & Ha). exists t'. split; [exact E|].
    split; [rewrite Ha; reflexivity|reflexivity].
  - destruct H as (_ & _ & E). vm_compute in E. discriminate E.
Defined.

Lemma allocate_free_roundtrip_witness :
  exists t2 t3, IntervalTree_update ex_allocated (mkRange 32 55) 7 = Ret (None, t2) /\
    IntervalTree_free t2 (mkRange 32 55) = Ret (Some 7, t3) /\ entries t3 = entries ex_pool.
Proof.
  destruct (allocate_free_roundtrip ex_pool ex_constraint (mkRange 32 55) ex_allocated (Some 7))
    as (t2 & t3 & ? & _ & ? & ?);
    [apply ex_pool_wf|simpl; split; [intros ? [=]|done]|apply ex_constraint_valid|vm_compute; reflexivity|].
  exists t2, t3. auto.
Defined.

Lemma insert_correct_witness :
  IntervalTree_insert ex_pool (mkRange 0 16) None = Panic /\
  exists t', IntervalTree_insert ex_pool (mkRange 0 15) (Some 5) = Ret t' /\
    IntervalTree_get t' (mkRange 0 15) = Some (Valued 5).
Proof.
  split.
  - destruct (insert_correct ex_pool (mkRange 0 16) None ex_pool_wf) as [[_ H]|(_ & t' & H & _)];
      [simpl; lia|simpl; ulia|exact H|vm_compute in H; discriminate H].
  - destruct (insert_correct ex_pool (mkRange 0 15) (Some 5) ex_pool_wf) as [[_ H]|(_ & t' & H & _ & Hg & _)];
      [simpl; lia|simpl; ulia|vm_compute in H; discriminate H|]. exists t'. auto.
Defined.

Lemma update_correct_witness : IntervalTree_update ex_pool (mkRange 16 1023) 3 = Panic.
Proof. exact (update_correct ex_pool (mkRange 16 1023) 3 ex_pool_wf). Defined.
