(* ===== verification/Resources.v ===== *)
(** Resource descriptors exchanged between devices and the VMM
    (src/src/dragonball/src/dbs_device/src/resources.rs). *)

From S2P Require Import Prelude.

(** [enum ResourceConstraint]. *)
Inductive ResourceConstraint :=
| RC_PioAddress (range : option (Z * Z)) (align size : Z)
| RC_MmioAddress (range : option (Z * Z)) (align size : Z)
| RC_MemAddress (range : option (Z * Z)) (align size : Z)
| RC_LegacyIrq (irq : option Z)
| RC_PciMsiIrq (size : Z)
| RC_PciMsixIrq (size : Z)
| RC_GenericIrq (size : Z)
| RC_KvmMemSlot (slot : option Z) (size : Z).

(** The constructors of [impl ResourceConstraint]. *)
Definition new_pio (size : Z) := RC_PioAddress None 1 size.
Definition pio_with_constraints (size : Z) (range : option (Z * Z)) (align : Z) :=
  RC_PioAddress range align size.
Definition new_mmio (size : Z) := RC_MmioAddress None 4096 size.
Definition mmio_with_constraints (size : Z) (range : option (Z * Z)) (align : Z) :=
  RC_MmioAddress range align size.
Definition new_mem (size : Z) := RC_MemAddress None 4096 size.
Definition mem_with_constraints (size : Z) (range : option (Z * Z)) (align : Z) :=
  RC_MemAddress range align size.
Definition new_legacy_irq (irq : option Z) := RC_LegacyIrq irq.
Definition new_pci_msi_irq (size : Z) := RC_PciMsiIrq size.
Definition new_pci_msix_irq (size : Z) := RC_PciMsixIrq size.
Definition new_generic_irq (size : Z) := RC_GenericIrq size.
Definition new_kvm_mem_slot (size : Z) (slot : option Z) := RC_KvmMemSlot slot size.

(** [enum MsiIrqType]. *)
Inductive MsiIrqType := PciMsi | PciMsix | GenericMsi.

#[global] Instance MsiIrqType_eq_dec : EqDecision MsiIrqType.
Proof. solve_decision. Defined.

(** [enum Resource]. *)
Inductive Resource :=
| PioAddressRange (base size : Z)
| MmioAddressRange (base size : Z)
| MemAddressRange (base size : Z)
| LegacyIrq (irq : Z)
| MsiIrq (ty : MsiIrqType) (base size : Z)
| MacAddresss (addr : string)
| KvmMemSlot (slot : Z).

#[global] Instance Resource_eq_dec : EqDecision Resource.
Proof. solve_decision. Defined.

(** [struct DeviceResources(Vec<Resource>)]. *)
Record DeviceResources := mkDeviceResources { dr_vec : list Resource }.

Definition DeviceResources_new : DeviceResources := mkDeviceResources [].

(** [DeviceResources::append]. *)
Definition DeviceResources_append (r : DeviceResources) (entry : Resource) : DeviceResources :=
  mkDeviceResources (dr_vec r ++ [entry]).

(** The loops that collect every entry of a kind. *)
Fixpoint collect {A} (f : Resource -> option A) (l : list Resource) : list A :=
  match l with
  | [] => []
  | e :: l' => match f e with Some a => a :: collect f l' | None => collect f l' end
  end.

(** The loops that return the first entry of a kind. *)
Fixpoint first {A} (f : Resource -> option A) (l : list Resource) : option A :=
  match l with
  | [] => None
  | e :: l' => match f e with Some a => Some a | None => first f l' end
  end.

Definition get_pio_address_ranges (r : DeviceResources) : list (Z * Z) :=
  collect (fun e => match e with PioAddressRange b s => Some (b, s) | _ => None end) (dr_vec r).
Definition get_mmio_address_ranges (r : DeviceResources) : list (Z * Z) :=
  collect (fun e => match e with MmioAddressRange b s => Some (b, s) | _ => None end) (dr_vec r).
Definition get_mem_address_ranges (r : DeviceResources) : list (Z * Z) :=
  collect (fun e => match e with MemAddressRange b s => Some (b, s) | _ => None end) (dr_vec r).
Definition get_legacy_irq (r : DeviceResources) : option Z :=
  first (fun e => match e with LegacyIrq i => Some i | _ => None end) (dr_vec r).
Definition get_msi_irqs (r : DeviceResources) (ty : MsiIrqType) : option (Z * Z) :=
  first (fun e => match e with
                  | MsiIrq ty' b s => if decide (ty = ty') then Some (b, s) else None
                  | _ => None end) (dr_vec r).
Definition get_pci_msi_irqs (r : DeviceResources) := get_msi_irqs r PciMsi.
Definition get_pci_msix_irqs (r : DeviceResources) := get_msi_irqs r PciMsix.
Definition get_generic_msi_irqs (r : DeviceResources) := get_msi_irqs r GenericMsi.
Definition get_kvm_mem_slots (r : DeviceResources) : list Z :=
  collect (fun e => match e with KvmMemSlot i => Some i | _ => None end) (dr_vec r).
Definition get_mac_address (r : DeviceResources) : option string :=
  first (fun e => match e with MacAddresss a => Some a | _ => None end) (dr_vec r).
Definition get_all_resources (r : DeviceResources) : list Resource := dr_vec r.
