(* ===== verification/ResourceManager.v ===== *)
(** The resource manager of a virtual machine
    (src/src/dragonball/src/resource_manager.rs, for x86_64, with the address
    layout of dbs_boot/src/x86_64/layout.rs).

    Six interval-tree pools hand out legacy and MSI interrupt numbers, port and
    memory-mapped I/O addresses, guest memory and KVM slots.  Each method locks
    one pool for its whole body, so a method is an atomic step on the record of
    pools.  The physical address width, which the code reads from
    /proc/cpuinfo, is a parameter. *)

From S2P Require Import Prelude Range IntervalTree Resources.

(** ** Constants *)

Definition LEGACY_IRQ_BASE : Z := 5.
Definition LEGACY_IRQ_MAX : Z := 15.
Definition SHARED_IRQ : Z := LEGACY_IRQ_BASE.
Definition MSI_IRQ_BASE : Z := 24.
Definition MSI_IRQ_MAX : Z := 1023.
Definition KVM_USER_MEM_SLOTS : Z := 509.
Definition PIO_MIN : Z := 0.
Definition PIO_MAX : Z := 65535.
Definition MMIO_SPACE_RESERVED : Z := 67108864. (* 0x400_0000 *)
Definition MMIO_LOW_START : Z := Z.shiftl 3 30.
Definition MMIO_LOW_END : Z := Z.shiftl 4 30 - 1.
Definition GUEST_MEM_START : Z := 0.

(** [GUEST_PHYS_END] for a processor with [size] physical address bits: the
    code accepts 36 to 64, and [1u64 << 64] overflows. *)
Definition GUEST_PHYS_END (size : Z) : outcome Z :=
  if (36 <=? size) && (size <=? 63) then Ret (Z.shiftl 1 size - 1) else Panic.
(** [GUEST_MEM_END = GUEST_PHYS_END >> 1]. *)
Definition GUEST_MEM_END (phys_end : Z) : Z := Z.shiftr phys_end 1.

(** [enum ResourceError]. *)
Inductive ResourceError :=
| UnknownResourceType
| InvalidResourceRange (what : string)
| NoAvailResource.

Abbreviation upool := (IntervalTree unit).

(** [struct ResourceManager]; [ResourceManagerBuilder] has the same fields. *)
Record ResourceManager := mkRM {
  legacy_irq_pool : upool;
  msi_irq_pool : upool;
  pio_pool : upool;
  mmio_pool : upool;
  mem_pool : upool;
  kvm_mem_slot_pool : upool }.

Definition set_legacy_irq_pool m p :=
  mkRM p (msi_irq_pool m) (pio_pool m) (mmio_pool m) (mem_pool m) (kvm_mem_slot_pool m).
Definition set_msi_irq_pool m p :=
  mkRM (legacy_irq_pool m) p (pio_pool m) (mmio_pool m) (mem_pool m) (kvm_mem_slot_pool m).
Definition set_pio_pool m p :=
  mkRM (legacy_irq_pool m) (msi_irq_pool m) p (mmio_pool m) (mem_pool m) (kvm_mem_slot_pool m).
Definition set_mmio_pool m p :=
  mkRM (legacy_irq_pool m) (msi_irq_pool m) (pio_pool m) p (mem_pool m) (kvm_mem_slot_pool m).
Definition set_mem_pool m p :=
  mkRM (legacy_irq_pool m) (msi_irq_pool m) (pio_pool m) (mmio_pool m) p (kvm_mem_slot_pool m).
Definition set_kvm_mem_slot_pool m p :=
  mkRM (legacy_irq_pool m) (msi_irq_pool m) (pio_pool m) (mmio_pool m) (mem_pool m) p.

(** ** [ResourceManagerBuilder] *)

Definition ResourceManager_default : ResourceManager :=
  mkRM IntervalTree_new IntervalTree_new IntervalTree_new IntervalTree_new IntervalTree_new IntervalTree_new.

Definition init_legacy_irq_pool (m : ResourceManager) : outcome ResourceManager :=
  let! r := Range_new (LEGACY_IRQ_BASE + 1) LEGACY_IRQ_MAX in
  let! p := IntervalTree_insert (legacy_irq_pool m) r None in
  Ret (set_legacy_irq_pool m p).

Definition init_msi_irq_pool (m : ResourceManager) : outcome ResourceManager :=
  let! r := Range_new MSI_IRQ_BASE MSI_IRQ_MAX in
  let! p := IntervalTree_insert (msi_irq_pool m) r None in
  Ret (set_msi_irq_pool m p).

Definition init_pio_pool (m : ResourceManager) : outcome ResourceManager :=
  let! r := Range_new PIO_MIN PIO_MAX in
  let! p := IntervalTree_insert (pio_pool m) r None in
  Ret (set_pio_pool m p).

(** [init_mmio_pool_helper]. *)
Definition init_mmio_pool_helper (phys_end : Z) (mmio : upool) : outcome upool :=
  let mem_end := GUEST_MEM_END phys_end in
  let! r := Range_new MMIO_LOW_START MMIO_LOW_END in
  let! mmio := IntervalTree_insert mmio r None in
  let! mmio :=
    if negb ((mem_end <? MMIO_LOW_START) || (GUEST_MEM_START >? MMIO_LOW_END)
             || (MMIO_LOW_START =? MMIO_LOW_END))
    then
      let constraint := Constraint_max (Constraint_min (Constraint_new MMIO_SPACE_RESERVED)
                          (MMIO_LOW_END - MMIO_SPACE_RESERVED)) 4294967295 in
      let! (key, mmio) := IntervalTree_allocate mmio constraint in
      match key with
      | Some k => let! (_, mmio) := IntervalTree_update mmio k tt in Ret mmio
      | None => Panic
      end
    else Ret mmio in
  if mem_end <? phys_end then
    let! r := Range_new (mem_end + 1) phys_end in
    IntervalTree_insert mmio r None
  else Ret mmio.

Definition init_mmio_pool (phys_end : Z) (m : ResourceManager) : outcome ResourceManager :=
  let! p := init_mmio_pool_helper phys_end (mmio_pool m) in
  Ret (set_mmio_pool m p).

(** [init_mem_pool_helper]. *)
Definition init_mem_pool_helper (phys_end : Z) (mem : upool) : outcome upool :=
  let mem_end := GUEST_MEM_END phys_end in
  if (mem_end <? MMIO_LOW_START) || (GUEST_MEM_START >? MMIO_LOW_END)
     || (MMIO_LOW_START =? MMIO_LOW_END)
  then
    let! r := Range_new GUEST_MEM_START mem_end in
    IntervalTree_insert mem r None
  else
    let! mem :=
      if MMIO_LOW_START >? GUEST_MEM_START then
        let! r := Range_new GUEST_MEM_START (MMIO_LOW_START - 1) in
        IntervalTree_insert mem r None
      else Ret mem in
    if MMIO_LOW_END <? mem_end then
      let! r := Range_new (MMIO_LOW_END + 1) mem_end in
      IntervalTree_insert mem r None
    else Ret mem.

Definition builder_init_mem_pool (phys_end : Z) (m : ResourceManager) : outcome ResourceManager :=
  let! p := init_mem_pool_helper phys_end (mem_pool m) in
  Ret (set_mem_pool m p).

Definition init_kvm_mem_slot_pool (max_kvm_mem_slot : option Z) (m : ResourceManager) :
    outcome ResourceManager :=
  let max_slots := match max_kvm_mem_slot with Some s => s | None => KVM_USER_MEM_SLOTS end in
  let! r := Range_new 0 max_slots in
  let! p := IntervalTree_insert (kvm_mem_slot_pool m) r None in
  Ret (set_kvm_mem_slot_pool m p).

(** [ResourceManager::new]. *)
Definition ResourceManager_new (phys_end : Z) (max_kvm_mem_slot : option Z) : outcome ResourceManager :=
  let! m := init_legacy_irq_pool ResourceManager_default in
  let! m := init_msi_irq_pool m in
  let! m := init_pio_pool m in
  let! m := init_mmio_pool phys_end m in
  let! m := builder_init_mem_pool phys_end m in
  init_kvm_mem_slot_pool max_kvm_mem_slot m.

(** [ResourceManager::init_mem_pool] and [is_mem_pool_empty]. *)
Definition RM_init_mem_pool (phys_end : Z) (m : ResourceManager) : outcome ResourceManager :=
  let! p := init_mem_pool_helper phys_end (mem_pool m) in
  Ret (set_mem_pool m p).
Definition is_mem_pool_empty (m : ResourceManager) : bool := IntervalTree_is_empty (mem_pool m).

(** ** Allocation and freeing of single resources *)

(** [let key = pool.allocate(&constraint); if let Some(k) = key { pool.update(k, ()) }]. *)
Definition allocate_update (p : upool) (c : Constraint) : outcome (option Range * upool) :=
  let! (key, p) := IntervalTree_allocate p c in
  match key with
  | Some k => let! (_, p) := IntervalTree_update p k tt in Ret (key, p)
  | None => Ret (key, p)
  end.

Definition allocate_legacy_irq (m : ResourceManager) (shared : bool) (fixed : option Z) :
    outcome (option Z * ResourceManager) :=
  if shared then Ret (Some SHARED_IRQ, m)
  else
    let constraint := Constraint_new 1 in
    match fixed with
    | Some v =>
        if v =? SHARED_IRQ then Ret (None, m)
        else
          let constraint := Constraint_max (Constraint_min constraint v) v in
          let! (key, p) := allocate_update (legacy_irq_pool m) constraint in
          Ret ((fun k => as_u32 (r_min k)) <$> key, set_legacy_irq_pool m p)
    | None =>
        let! (key, p) := allocate_update (legacy_irq_pool m) constraint in
        Ret ((fun k => as_u32 (r_min k)) <$> key, set_legacy_irq_pool m p)
    end.

Definition free_legacy_irq (m : ResourceManager) (irq : Z) :
    outcome (result unit ResourceError * ResourceManager) :=
  if irq =? SHARED_IRQ then Ret (Ok tt, m)
  else if negb ((LEGACY_IRQ_BASE <=? irq) && (irq <=? LEGACY_IRQ_MAX))
  then Ret (Err (InvalidResourceRange "Legacy IRQ"), m)
  else
    let! key := Range_new irq irq in
    let! (_, p) := IntervalTree_free (legacy_irq_pool m) key in
    Ret (Ok tt, set_legacy_irq_pool m p).

Definition allocate_msi_irq (m : ResourceManager) (count : Z) : outcome (option Z * ResourceManager) :=
  let! (key, p) := allocate_update (msi_irq_pool m) (Constraint_new count) in
  Ret ((fun k => as_u32 (r_min k)) <$> key, set_msi_irq_pool m p).

Definition allocate_msi_irq_aligned (m : ResourceManager) (count : Z) :
    outcome (option Z * ResourceManager) :=
  let! (key, p) := allocate_update (msi_irq_pool m) (Constraint_align (Constraint_new count) count) in
  Ret ((fun k => as_u32 (r_min k)) <$> key, set_msi_irq_pool m p).

Definition free_msi_irq (m : ResourceManager) (irq count : Z) :
    outcome (result unit ResourceError * ResourceManager) :=
  if (irq <? MSI_IRQ_BASE) || (count =? 0)
     || match checked_add u32_max irq count with None => true | Some _ => false end
     || (irq + count - 1 >? MSI_IRQ_MAX)
  then Ret (Err (InvalidResourceRange "MSI IRQ"), m)
  else
    let! key := Range_new irq (irq + count - 1) in
    let! (_, p) := IntervalTree_free (msi_irq_pool m) key in
    Ret (Ok tt, set_msi_irq_pool m p).

Definition allocate_pio_address (m : ResourceManager) (c : Constraint) :
    outcome (option Z * ResourceManager) :=
  let! (key, p) := allocate_update (pio_pool m) c in
  Ret ((fun k => as_u16 (r_min k)) <$> key, set_pio_pool m p).

Definition allocate_pio_address_simple (m : ResourceManager) (size : Z) :
    outcome (option Z * ResourceManager) :=
  allocate_pio_address m (Constraint_new size).

Definition free_pio_address (m : ResourceManager) (base size : Z) :
    outcome (result unit ResourceError * ResourceManager) :=
  match checked_add u16_max base size with
  | None => Ret (Err (InvalidResourceRange "PIO Address"), m)
  | Some e =>
      let! last := sub_u e 1 in
      let! key := Range_new base last in
      let! (_, p) := IntervalTree_free (pio_pool m) key in
      Ret (Ok tt, set_pio_pool m p)
  end.

Definition allocate_mmio_address (m : ResourceManager) (c : Constraint) :
    outcome (option Z * ResourceManager) :=
  let! (key, p) := IntervalTree_allocate (mmio_pool m) c in
  Ret (r_min <$> key, set_mmio_pool m p).

Definition allocate_mmio_address_aligned (m : ResourceManager) (size align : Z) :
    outcome (option Z * ResourceManager) :=
  allocate_mmio_address m (Constraint_align (Constraint_new size) align).

Definition free_mmio_address (m : ResourceManager) (base size : Z) :
    outcome (result unit ResourceError * ResourceManager) :=
  match checked_add u64_max base size with
  | None => Ret (Err (InvalidResourceRange "MMIO Address"), m)
  | Some e =>
      let! last := sub_u e 1 in
      let! key := Range_new base last in
      let! (_, p) := IntervalTree_free (mmio_pool m) key in
      Ret (Ok tt, set_mmio_pool m p)
  end.

Definition allocate_mem_address (m : ResourceManager) (c : Constraint) :
    outcome (option Z * ResourceManager) :=
  let! (key, p) := IntervalTree_allocate (mem_pool m) c in
  Ret (r_min <$> key, set_mem_pool m p).

Definition free_mem_address (phys_end : Z) (m : ResourceManager) (base size : Z) :
    outcome (result unit ResourceError * ResourceManager) :=
  match checked_add u64_max base size with
  | None => Ret (Err (InvalidResourceRange "MEM Address"), m)
  | Some e =>
      if (base <? GUEST_MEM_START) || (e >? GUEST_MEM_END phys_end)
      then Ret (Err (InvalidResourceRange "MEM Address"), m)
      else
        let! last := sub_u e 1 in
        let! key := Range_new base last in
        let! (_, p) := IntervalTree_free (mem_pool m) key in
        Ret (Ok tt, set_mem_pool m p)
  end.

Definition allocate_kvm_mem_slot (m : ResourceManager) (size : Z) (fixed : option Z) :
    outcome (option Z * ResourceManager) :=
  let constraint := Constraint_new size in
  let constraint := match fixed with
                    | Some v => Constraint_max (Constraint_min constraint v) v
                    | None => constraint
                    end in
  let! (key, p) := allocate_update (kvm_mem_slot_pool m) constraint in
  Ret ((fun k => as_u32 (r_min k)) <$> key, set_kvm_mem_slot_pool m p).

Definition free_kvm_mem_slot (m : ResourceManager) (slot : Z) :
    outcome (result unit ResourceError * ResourceManager) :=
  let! key := Range_new slot slot in
  let! (_, p) := IntervalTree_free (kvm_mem_slot_pool m) key in
  Ret (Ok tt, set_kvm_mem_slot_pool m p).

(** ** Device resources *)

(** [free_device_resources]: frees in order, stopping at the first error. *)
Definition free_one (phys_end : Z) (m : ResourceManager) (res : Resource) :
    outcome (result unit ResourceError * ResourceManager) :=
  match res with
  | PioAddressRange base size => free_pio_address m base size
  | MmioAddressRange base size => free_mmio_address m base size
  | MemAddressRange base size => free_mem_address phys_end m base size
  | LegacyIrq base => free_legacy_irq m base
  | MsiIrq _ base size => free_msi_irq m base size
  | KvmMemSlot slot => free_kvm_mem_slot m slot
  | MacAddresss _ => Ret (Ok tt, m)
  end.

Fixpoint free_resource_list (phys_end : Z) (m : ResourceManager) (resources : list Resource) :
    outcome (result unit ResourceError * ResourceManager) :=
  match resources with
  | [] => Ret (Ok tt, m)
  | res :: rest =>
      let! (r, m) := free_one phys_end m res in
      match r with
      | Ok _ => free_resource_list phys_end m rest
      | Err e => Ret (Err e, m)
      end
  end.

Definition free_device_resources (phys_end : Z) (m : ResourceManager) (resources : DeviceResources) :
    outcome (result unit ResourceError * ResourceManager) :=
  free_resource_list phys_end m (dr_vec resources).

(** The constraint built from a request's optional range. *)
Definition ranged (c : Constraint) (range : option (Z * Z)) : Constraint :=
  match range with
  | Some (lo, hi) => Constraint_max (Constraint_min c lo) hi
  | None => c
  end.

(** The [match resource] of [allocate_device_resources]: [None] where the code
    takes a failure arm. *)
Definition allocate_one (m : ResourceManager) (shared_irq : bool) (resource : ResourceConstraint) :
    outcome (option Resource * ResourceManager) :=
  match resource with
  | RC_PioAddress range align size =>
      let! (o, m) := allocate_pio_address m (ranged (Constraint_align (Constraint_new size) align) range) in
      Ret ((fun base => PioAddressRange base size) <$> o, m)
  | RC_MmioAddress range align size =>
      let! (o, m) := allocate_mmio_address m (ranged (Constraint_align (Constraint_new size) align) range) in
      Ret ((fun base => MmioAddressRange base size) <$> o, m)
  | RC_MemAddress range align size =>
      let! (o, m) := allocate_mem_address m (ranged (Constraint_align (Constraint_new size) align) range) in
      Ret ((fun base => MemAddressRange base size) <$> o, m)
  | RC_LegacyIrq irq =>
      let! (o, m) := allocate_legacy_irq m shared_irq irq in
      Ret (LegacyIrq <$> o, m)
  | RC_PciMsiIrq size =>
      let! (o, m) := allocate_msi_irq_aligned m size in
      Ret ((fun base => MsiIrq PciMsi base size) <$> o, m)
  | RC_PciMsixIrq size =>
      let! (o, m) := allocate_msi_irq m size in
      Ret ((fun base => MsiIrq PciMsix base size) <$> o, m)
  | RC_GenericIrq size =>
      let! (o, m) := allocate_msi_irq m size in
      Ret ((fun base => MsiIrq GenericMsi base size) <$> o, m)
  | RC_KvmMemSlot slot size =>
      let! (o, m) := allocate_kvm_mem_slot m size slot in
      Ret (KvmMemSlot <$> o, m)
  end.

(** The loop of [allocate_device_resources], with the resources so far. *)
Fixpoint allocate_resource_list (phys_end : Z) (m : ResourceManager) (shared_irq : bool)
    (requests : list ResourceConstraint) (resources : DeviceResources) :
    outcome (result DeviceResources ResourceError * ResourceManager) :=
  match requests with
  | [] => Ret (Ok resources, m)
  | resource :: rest =>
      let! (o, m) := allocate_one m shared_irq resource in
      match o with
      | Some res => allocate_resource_list phys_end m shared_irq rest (DeviceResources_append resources res)
      | None =>
          let! (r, m) := free_device_resources phys_end m resources in
          match r with
          | Err e => Ret (Err e, m)
          | Ok _ => Ret (Err NoAvailResource, m)
          end
      end
  end.

Definition allocate_device_resources (phys_end : Z) (m : ResourceManager)
    (requests : list ResourceConstraint) (shared_irq : bool) :
    outcome (result DeviceResources ResourceError * ResourceManager) :=
  allocate_resource_list phys_end m shared_irq requests DeviceResources_new.
