(* ===== verification/PoolClient.v ===== *)
(** What a client of a pool relies on.

    [holds t0 t L]: the pool [t] is the pool [t0] with the entries [L] handed
    out.  Allocation adds an entry to [L], freeing an entry of [L], in any
    order, removes it, and with [L] empty the entries are those of [t0] again:
    a pool without adjacent free entries is determined by its busy entries and
    its free addresses ([canonical]). *)

From S2P Require Import Prelude Range IntervalTree IntervalTreeInv Allocator AllocatorProps.

#[local] Existing Instance top_below.

Section Client.
Context {T : Type}.
Abbreviation entry := (Range * NodeState T)%type.
Abbreviation pool := (IntervalTree T).
Implicit Types (t : pool) (es L : list entry) (k key r : Range) (d : NodeState T) (c : Constraint).

Definition busy es k d : Prop := (k, d) ∈ es /\ d <> Free.
Definition free_addr es (a : Z) : Prop := addr_state es a = Some Free.

Lemma addr_state_some es a d :
  addr_state es a = Some d -> exists k, (k, d) ∈ es /\ in_range a k.
Proof.
  induction es as [|[k d'] es IH]; simpl; [done|].
  destruct ((r_min k <=? a) && (a <=? r_max k)) eqn:E; bools.
  - intros [= ->]. exists k. unfold in_range. split; [set_solver|lia].
  - intros (k' & ? & ?)%IH. exists k'. split; [set_solver|done].
Qed.

Lemma free_addr_elem es lo hi a :
  chain lo hi es -> free_addr es a <-> exists k, (k, Free) ∈ es /\ in_range a k.
Proof.
  intros Hc. split; [apply addr_state_some|]. intros (k & He & Ha). by eapply addr_state_elem.
Qed.

(** Freeing removes exactly one busy entry. *)
Lemma coalesced_busy es1 es2 r d lo hi k' d' :
  chain lo hi (es1 ++ (r, d) :: es2) ->
  busy (coalesced es1 r es2) k' d' <-> busy (es1 ++ (r, d) :: es2) k' d' /\ k' <> r.
Proof.
  intros Hc. assert (Hk : busy (es1 ++ (r, d) :: es2) k' d' /\ k' <> r <-> busy (es1 ++ es2) k' d').
  { apply chain_app in Hc as (Hc1 & ? & ? & Hc2). unfold busy. split; [set_solver|].
    intros [He Hd]. split; [set_solver|]. intros ->.
    apply elem_of_app in He as [He|He].
    - pose proof (chain_elem _ _ _ _ _ Hc1 He). lia.
    - pose proof (chain_elem _ _ _ _ _ Hc2 He). lia. }
  rewrite Hk. unfold busy, coalesced.
  assert (H1 : d' <> Free -> (k', d') ∈ (merge_left es1 (r_min r)).1 <-> (k', d') ∈ es1).
  { intros Hd. unfold merge_left. destruct (touch_left es1 (r_min r)) as [[k0 [ | | ]]|] eqn:E; try done. simpl.
    unfold touch_left in E. destruct (last es1) as [[k1 d1]|] eqn:El; [|done]. case_hyp E; [|done].
    injection E as -> ->. apply last_Some in El as (ea & ->). rewrite removelast_last. set_solver. }
  assert (H2 : d' <> Free -> (k', d') ∈ (merge_right es2 (r_max r)).1 <-> (k', d') ∈ es2).
  { intros Hd. unfold merge_right. destruct (touch_right es2 (r_max r)) as [[k0 [ | | ]]|] eqn:E; try done. simpl.
    unfold touch_right in E. destruct es2 as [|[k1 d1] es2]; [done|]. simpl in *. case_hyp E; [|done].
    injection E as -> ->. set_solver. }
  split; intros [He Hd]; (split; [|done]); specialize (H1 Hd); specialize (H2 Hd); set_solver.
Qed.

(** ** Canonical form *)

(** The first address of a chain, if any, and its state. *)
Lemma chain_head k d es lo hi a :
  chain lo hi ((k, d) :: es) ->
  addr_state ((k, d) :: es) (r_min k) = Some d /\
  (a < r_min k -> addr_state ((k, d) :: es) a = None).
Proof.
  intros Hc. split.
  - eapply (addr_state_elem _ lo hi k); [done|set_solver|]. simpl in Hc. unfold in_range. lia.
  - intros. eapply (addr_state_below _ (r_min k) hi); [|done]. simpl in *. split_and!; tauto || lia.
Qed.

(** Equal busy entries and free addresses give equal address states. *)
Lemma same_state es es' lo hi :
  chain lo hi es -> chain lo hi es' ->
  (forall k d, busy es k d <-> busy es' k d) -> (forall a, free_addr es a <-> free_addr es' a) ->
  forall a, addr_state es a = addr_state es' a.
Proof.
  intros Hc Hc' Hb Hf.
  assert (Hd : forall es1 es2 a d, chain lo hi es1 -> chain lo hi es2 ->
     (forall k d, busy es1 k d <-> busy es2 k d) -> (forall a, free_addr es1 a <-> free_addr es2 a) ->
     addr_state es1 a = Some d -> addr_state es2 a = Some d).
  { intros es1 es2 a d Hc1 Hc2 Hb1 Hf1 E. destruct (decide (NodeState_is_free d = true)) as [Ed|Ed].
    - assert (d = Free) as -> by (by destruct d). by apply Hf1.
    - apply addr_state_some in E as (k & He & Ha).
      assert (busy es2 k d) as [He' _] by (apply Hb1; split; [done|by intros ->]).
      by eapply addr_state_elem. }
  intros a. apply option_eq. intros d. split; apply Hd; auto; intros; symmetry; auto.
Qed.

Lemma canonical es es' lo hi :
  chain lo hi es -> chain lo hi es' -> no_adjacent_free es -> no_adjacent_free es' ->
  (forall k d, busy es k d <-> busy es' k d) -> (forall a, free_addr es a <-> free_addr es' a) ->
  es = es'.
Proof.
  revert es' lo. induction es as [|[k d] es IH]; intros es' lo Hc Hc' Hn Hn' Hb Hf.
  { destruct es' as [|[k' d'] es']; [done|exfalso].
    pose proof (same_state _ _ _ _ Hc Hc' Hb Hf (r_min k')) as E.
    destruct (chain_head k' d' es' lo hi 0 Hc') as [E' _]. rewrite E' in E. done. }
  destruct es' as [|[k' d'] es'].
  { exfalso. pose proof (same_state _ _ _ _ Hc Hc' Hb Hf (r_min k)) as E.
    destruct (chain_head k d es lo hi 0 Hc) as [E' _]. rewrite E' in E. done. }
  pose proof (same_state _ _ _ _ Hc Hc' Hb Hf) as Hs.
  destruct (chain_head k d es lo hi (r_min k') Hc) as [E1 E2].
  destruct (chain_head k' d' es' lo hi (r_min k) Hc') as [E1' E2'].
  assert (Hmin : r_min k = r_min k').
  { destruct (decide (r_min k < r_min k')); [rewrite Hs, E2' in E1 by done; done|].
    destruct (decide (r_min k' < r_min k)); [rewrite <- Hs, E2 in E1' by done; done|]. lia. }
  assert (d' = d) as -> by (rewrite <- Hmin, <- Hs, E1 in E1'; congruence).
  simpl in Hc, Hc'. destruct Hc as (? & ? & Hc), Hc' as (? & ? & Hc').
  assert (Hmax : r_max k = r_max k').
  { destruct (decide (NodeState_is_free d = true)) as [Ed|Ed].
    - assert (d = Free) as -> by (by destruct d).
      assert (Haux : forall (k1 k2 : Range) (l1 l2 : list entry) d2,
        chain (r_max k1 + 1) hi l1 -> r_min k1 = r_min k2 -> r_min k1 <= r_max k1 ->
        no_adjacent_free ((k1, Free) :: l1) ->
        (forall a, addr_state ((k1, Free) :: l1) a = addr_state ((k2, d2) :: l2) a) -> d2 = Free ->
        r_max k1 < r_max k2 -> False).
      { intros k1 k2 l1 l2 d2 Hc1 Hm Hle [Hn1 _] Hs1 Hd2 Hlt. subst d2. specialize (Hs1 (r_max k1 + 1)).
        simpl in Hs1. rewrite (proj2 (Z.leb_gt (r_max k1 + 1) (r_max k1))), andb_false_r in Hs1 by lia.
        rewrite !(proj2 (Z.leb_le _ _)) in Hs1 by lia. simpl in Hs1.
        destruct l1 as [|[k3 d3] l1]; [done|]. simpl in Hc1.
        apply addr_state_some in Hs1 as (k4 & He & Ha). unfold in_range in Ha.
        apply elem_of_cons in He as [[= -> <-]|He].
        - eapply (Hn1 (k3, Free)); simpl; auto; lia.
        - destruct Hc1 as (? & ? & Hc1). pose proof (chain_elem _ _ _ _ _ Hc1 He). lia. }
      destruct (Z.lt_trichotomy (r_max k) (r_max k')) as [Hlt|[|Hlt]]; [exfalso|done|exfalso].
      + eapply (Haux k k' es es'); eauto; lia.
      + eapply (Haux k' k es' es); eauto; lia.
    - assert (Hk : busy ((k', d) :: es') k d) by (apply Hb; split; [set_solver|by intros ->]).
      destruct Hk as [[[= ->]|He]%elem_of_cons _]; [done|].
      pose proof (chain_elem _ _ _ _ _ Hc' He). lia. }
  assert (k' = k) as -> by (rewrite <- (Range_eta k), <- (Range_eta k'); congruence).
  f_equal. eapply (IH _ (r_max k + 1)); eauto; [by destruct Hn|by destruct Hn'|..].
  - assert (Hx : forall es1 es2, chain (r_max k + 1) hi es1 ->
      (forall k' d', busy ((k, d) :: es1) k' d' -> busy ((k, d) :: es2) k' d') ->
      forall k' d', busy es1 k' d' -> busy es2 k' d').
    { intros es1 es2 Hc1 Hb1 k' d' [He Hd]. pose proof (chain_elem _ _ _ _ _ Hc1 He).
      destruct (Hb1 k' d') as [[[= -> ->]|?]%elem_of_cons ?]; [split; [set_solver|done]|lia|done]. }
    intros k' d'. split; apply Hx; auto; intros ??; apply Hb.
  - intros a. destruct (decide (a <= r_max k)).
    + unfold free_addr. rewrite !(addr_state_below _ (r_max k + 1) hi) by (done || lia). done.
    + pose proof (Hf a) as Hfa. unfold free_addr in *. simpl in Hfa.
      by rewrite (proj2 (Z.leb_gt a (r_max k))), andb_false_r in Hfa by lia.
Qed.

(** ** Handing out and taking back *)

(** The entries after handing out [r] with state [d]. *)
Definition carve_with d es1 k r es2 : list entry :=
  (es1 ++ gap (r_min k) (r_min r - 1)) ++ (r, d) :: gap (r_max r + 1) (r_max k) ++ es2.

Lemma carve_with_busy d es1 k r es2 k' d' :
  d <> Free ->
  busy (carve_with d es1 k r es2) k' d' <->
  busy (es1 ++ (k, Free) :: es2) k' d' \/ (k', d') = (r, d).
Proof.
  intros Hd. unfold busy, carve_with, gap.
  destruct (r_min k <=? r_min r - 1), (r_max r + 1 <=? r_max k); set_solver.
Qed.

Lemma carve_with_state d es1 k r es2 a lo hi :
  chain lo hi (es1 ++ (k, Free) :: es2) ->
  r_min k <= r_min r -> r_min r <= r_max r -> r_max r <= r_max k ->
  addr_state (carve_with d es1 k r es2) a =
  if within r a then Some d else addr_state (es1 ++ (k, Free) :: es2) a.
Proof.
  intros (Hc1 & ? & ? & Hc2)%chain_app ???. unfold carve_with, within.
  rewrite !addr_state_app. simpl. rewrite addr_state_app, !addr_state_gap.
  destruct (decide (r_min k <= a)).
  - rewrite (addr_state_above es1 _ _ a Hc1) by lia. by_addr.
  - destruct (addr_state es1 a); by_addr.
Qed.

(** No free entry can serve the request. *)
Definition no_fit t c : Prop :=
  c_size c = 0 \/ ~ good_align (c_align c) \/ forall k a, (k, Free) ∈ entries t -> ~ can_hold c k a.

Lemma no_fit_intro t c : c_size c = 0 \/ Forall (fun e => ~ fits c e) (entries t) -> no_fit t c.
Proof.
  intros [Hz|Hno]; [by left|]. destruct (decide (c_align c = 0 \/ is_pow2 (c_align c) = true)) as [Hg|Hg]; [|by right; left].
  right. right. intros k a Hin Hh. rewrite Forall_forall in Hno. apply (Hno _ Hin). split; [done|]. split; [done|]. by exists a.
Qed.

(** The state a handed-out range is left in: [Allocated], or [Valued] after [update]. *)
Lemma allocate_then_update t c (v : option T) :
  pool_below t -> valid_constraint c ->
  exists o t1, IntervalTree_allocate t c = Ret (o, t1) /\
    match o with
    | Some r => 0 < c_size c /\ good_align (c_align c) /\
        exists t2 es1 k es2,
        match v with
        | Some x => IntervalTree_update t1 r x = Ret (None, t2)
        | None => t2 = t1
        end /\ pool_below t2 /\ entries t = es1 ++ (k, Free) :: es2 /\ carve c k r /\
        entries t2 = carve_with (match v with Some x => Valued x | None => Allocated end) es1 k r es2
    | None => t1 = t /\ no_fit t c
    end.
Proof.
  intros Hwf Hv. destruct (allocate_entries t c Hwf Hv (overflows_top t c Hwf ltac:(lia))) as (o & t1 & E & Hwf1 & Ho).
  exists o, t1. split; [done|]. destruct o as [r|]; [|destruct Ho as [-> Ho]; split; [done|by apply no_fit_intro]].
  destruct Ho as (? & ? & es1 & k & es2 & He & Hca & _ & He1). split; [done|]. split; [done|].
  unfold carve_out in He1. rewrite app_assoc in He1.
  destruct v as [x|]; [|exists t1, es1, k, es2; auto].
  destruct (update_total t1 r x Hwf1) as [(d & ea & eb & Hee & Hu)|[Hno _]];
    [|exfalso; apply (Hno Allocated); rewrite He1; set_solver].
  pose proof (pool_chain t1 Hwf1) as Hc1.
  assert (d = Allocated) as ->.
  { eapply (chain_unique _ _ _ r); [done| |]; [rewrite Hee|rewrite He1]; set_solver. }
  destruct Hu as (t2 & E2 & Hwf2 & He2). exists t2, es1, k, es2. split_and!; auto.
  rewrite He2. rewrite He1 in Hee, Hc1. by eapply chain_same_split.
Qed.

Fixpoint all_disjoint L : Prop :=
  match L with
  | [] => True
  | e :: L' => Forall (fun e' => forall a, in_range a e.1 -> ~ in_range a e'.1) L' /\ all_disjoint L'
  end.

Lemma all_disjoint_snoc L e :
  all_disjoint L -> Forall (fun e' => forall a, in_range a e'.1 -> ~ in_range a e.1) L ->
  all_disjoint (L ++ [e]).
Proof.
  induction L as [|e' L IH]; simpl; [done|]. intros [? ?] [? ?]%Forall_cons.
  split; [|auto]. apply Forall_app. auto.
Qed.

Record holds t0 t L : Prop := mk_holds {
  holds_wf0 : pool_below t0;
  holds_naf0 : no_adjacent_free (entries t0);
  holds_wf : pool_below t;
  holds_naf : no_adjacent_free (entries t);
  holds_state : Forall (fun e => e.2 <> Free) L;
  holds_busy : forall k d, busy (entries t) k d <-> busy (entries t0) k d \/ (k, d) ∈ L;
  holds_free : forall a, free_addr (entries t) a <->
    free_addr (entries t0) a /\ Forall (fun e => ~ in_range a e.1) L;
  holds_from : forall k d a, (k, d) ∈ L -> in_range a k -> free_addr (entries t0) a;
  holds_disjoint : all_disjoint L }.

Lemma holds_refl t : pool_below t -> no_adjacent_free (entries t) -> holds t t [].
Proof. intros. constructor; auto; set_solver. Qed.

(** With nothing handed out, the pool has its original entries. *)
Lemma holds_nil t0 t : holds t0 t [] -> entries t = entries t0.
Proof.
  intros H. destruct (holds_wf0 _ _ _ H) as [_ Hc0], (holds_wf _ _ _ H) as [_ Hc].
  eapply canonical; eauto using holds_naf0, holds_naf.
  - intros k d. rewrite (holds_busy _ _ _ H). set_solver.
  - intros a. rewrite (holds_free _ _ _ H), Forall_nil. tauto.
Qed.

(** Every address handed out was a free address of the original pool. *)
Lemma holds_bounds t0 t L k d lo hi :
  holds t0 t L -> (k, d) ∈ L -> chain lo hi (entries t0) -> r_min k <= r_max k ->
  lo <= r_min k /\ r_max k <= hi.
Proof.
  intros H He Hc Hk.
  assert (Ha : forall a, in_range a k -> lo <= a <= hi).
  { intros a Ha. pose proof (holds_from _ _ _ H _ _ _ He Ha) as Hf.
    apply addr_state_some in Hf as (k' & He' & Ha'). pose proof (chain_elem _ _ _ _ _ Hc He').
    unfold in_range in *. lia. }
  unfold in_range in Ha. pose proof (Ha (r_min k)). pose proof (Ha (r_max k)). lia.
Qed.

Lemma holds_valid t0 t L k d : holds t0 t L -> (k, d) ∈ L -> r_min k <= r_max k.
Proof.
  intros H He. assert (Hb : busy (entries t) k d).
  { apply (holds_busy _ _ _ H). by right. }
  destruct Hb as [Hb _]. destruct (holds_wf _ _ _ H) as [_ Hc].
  pose proof (chain_elem _ _ _ _ _ Hc Hb). lia.
Qed.

(** What the range returned for a constraint satisfies. *)
Definition served c r : Prop :=
  r_max r = r_min r + c_size c - 1 /\ c_min c <= r_min r <= r_max r /\ r_max r <= c_max c /\
  (eff_align (c_align c) | r_min r).

Lemma holds_allocate t0 t L c (v : option T) :
  holds t0 t L -> valid_constraint c ->
  exists o t1, IntervalTree_allocate t c = Ret (o, t1) /\
    match o with
    | Some r => served c r /\ exists t2,
        match v with
        | Some x => IntervalTree_update t1 r x = Ret (None, t2)
        | None => t2 = t1
        end /\ holds t0 t2 (L ++ [(r, match v with Some x => Valued x | None => Allocated end)])
    | None => t1 = t /\ no_fit t c
    end.
Proof.
  intros H Hv. destruct (allocate_then_update t c v (holds_wf _ _ _ H) Hv) as (o & t1 & E & Ho).
  exists o, t1. split; [done|]. destruct o as [r|]; [|done].
  destruct Ho as (Hpos & Hg & t2 & es1 & k & es2 & Hup & Hwf2 & He & ((Hlo & Hdv & _) & Hlen & Hhi) & He2).
  split; [unfold served; split_and!; auto; lia|]. exists t2. split; [done|].
  set (d := match v with Some x => Valued x | None => Allocated end) in *.
  assert (Hd : d <> Free) by (by destruct v).
  pose proof (holds_naf _ _ _ H) as Hn. rewrite He in Hn.
  destruct (holds_wf _ _ _ H) as [_ Hc]. rewrite He in Hc.
  assert (Hfree : forall a, in_range a r -> free_addr (entries t) a).
  { intros a Ha. rewrite He. eapply (addr_state_elem _ _ _ k); [done|set_solver|].
    unfold in_range in *. lia. }
  constructor; eauto using holds_wf0, holds_naf0.
  - rewrite He2. unfold carve_with. rewrite <- app_assoc. apply naf_carve; auto; lia.
  - apply Forall_app. split; [eauto using holds_state|]. by constructor.
  - intros k' d'. rewrite He2, carve_with_busy by done. rewrite <- He, (holds_busy _ _ _ H).
    rewrite elem_of_app, list_elem_of_singleton. tauto.
  - intros a. unfold free_addr at 1. rewrite He2. erewrite carve_with_state by (done || lia).
    rewrite <- He, Forall_app, Forall_singleton. simpl.
    unfold within, in_range.
    destruct ((r_min r <=? a) && (a <=? r_max r)) eqn:Ea; bools.
    + split; [congruence|]. intros (_ & _ & ?). lia.
    + fold (free_addr (entries t) a). rewrite (holds_free _ _ _ H). split; [|tauto]. intros [? ?]. split_and!; auto. lia.
  - intros k' d' a [He'|[= -> ->]%list_elem_of_singleton]%elem_of_app Ha.
    + eapply holds_from; eauto.
    + apply (holds_free _ _ _ H). auto.
  - apply all_disjoint_snoc; [eauto using holds_disjoint|]. apply Forall_forall. intros [k' d'] He' a Ha Ha'.
    simpl in *. apply Hfree, (holds_free _ _ _ H) in Ha' as [_ Hf]. rewrite Forall_forall in Hf.
    by apply (Hf _ He').
Qed.

(** Taking back the first of the entries handed out. *)
Lemma holds_free_head t0 t r d L :
  holds t0 t ((r, d) :: L) ->
  exists t', IntervalTree_free t r = Ret (NodeState_into d, t') /\ holds t0 t' L.
Proof.
  intros H. destruct (holds_wf _ _ _ H) as [Hb Hc].
  assert (Hin : busy (entries t) r d) by (apply (holds_busy _ _ _ H); set_solver).
  destruct Hin as [Hin Hd]. pose proof Hin as (es1 & es2 & He)%list_elem_of_split.
  destruct (free_entries t es1 es2 r d (holds_wf _ _ _ H) He) as (t' & E & Hwf' & He').
  exists t'. split; [done|]. rewrite He in Hc.
  pose proof (holds_naf _ _ _ H) as Hn. rewrite He in Hn. apply naf_app in Hn as (Hn1 & [_ Hn2] & _).
  destruct (holds_disjoint _ _ _ H) as [Hdj1 Hdj2].
  pose proof (holds_state _ _ _ H) as [_ Hst]%Forall_cons.
  assert (Hrb : r_min r <= r_max r) by (apply chain_app in Hc; lia).
  assert (Hmin : in_range (r_min r) r) by (unfold in_range; lia).
  constructor; eauto using holds_wf0, holds_naf0.
  - rewrite He'. eapply (naf_coalesced _ _ _ 0); [done|done|lia|done].
  - intros k' d'. rewrite He'.
    assert (Hco : busy (coalesced es1 r es2) k' d' <-> busy (entries t) k' d' /\ k' <> r).
    { rewrite He. by eapply coalesced_busy. }
    rewrite Hco, (holds_busy _ _ _ H), elem_of_cons. split.
    + intros [[?|[[= -> ->]|?]] ?]; auto. done.
    + intros [Hb0|Hl]; (split; [auto|]); intros ->.
      * pose proof (holds_from _ _ _ H r d (r_min r) ltac:(set_solver) Hmin) as Hf.
        destruct (holds_wf0 _ _ _ H) as [_ Hc0]. destruct Hb0 as [Hb0 Hne].
        assert (addr_state (entries t0) (r_min r) = Some d') by (by eapply addr_state_elem).
        unfold free_addr in Hf. congruence.
      * rewrite Forall_forall in Hdj1. by apply (Hdj1 _ Hl (r_min r)).
  - intros a. unfold free_addr at 1. rewrite He'. erewrite addr_state_coalesced by done.
    rewrite <- He.
    destruct ((r_min r <=? a) && (a <=? r_max r)) eqn:Ea; bools.
    + assert (Hra : in_range a r) by (unfold in_range; lia). split; [intros _|done]. split.
      * eapply (holds_from _ _ _ H r d); [set_solver|done].
      * apply Forall_forall. intros e He''. rewrite Forall_forall in Hdj1. by apply (Hdj1 _ He'').
    + fold (free_addr (entries t) a). rewrite (holds_free _ _ _ H), Forall_cons. unfold in_range at 1. simpl. split; [tauto|].
      intros [? ?]. split_and!; auto. lia.
  - intros k' d' a Hk'. eapply (holds_from _ _ _ H _ d'). set_solver.
Qed.

End Client.
