(* ===== verification/ResourceManagerSpec.v ===== *)
(** Properties of the resource manager (src/src/dragonball/src/resource_manager.rs).

    The manager refines an abstract ledger: a starting manager [m0] and the
    list of resources handed out since.  [rm_holds m0 m L] relates the six pools
    to that ledger.  Allocation of a device's resources is all or nothing, the
    resources are disjoint and match the requests, and freeing them restores
    every pool. *)

From S2P Require Import Prelude Range IntervalTree IntervalTreeInv Allocator AllocatorProps.
From S2P Require Import PoolClient Resources ResourceManager.

#[local] Existing Instance top_below.

(** ** The ledger *)

Inductive PoolId := LegacyPool | MsiPool | PioPool | MmioPool | MemPool | KvmPool.

#[global] Instance PoolId_eq_dec : EqDecision PoolId.
Proof. solve_decision. Defined.

Definition rm_pool (m : ResourceManager) (p : PoolId) : IntervalTree unit :=
  match p with
  | LegacyPool => legacy_irq_pool m
  | MsiPool => msi_irq_pool m
  | PioPool => pio_pool m
  | MmioPool => mmio_pool m
  | MemPool => mem_pool m
  | KvmPool => kvm_mem_slot_pool m
  end.

(** The pool entry a resource stands for; the shared interrupt is in no pool. *)
Definition claim (res : Resource) : option (PoolId * (Range * NodeState unit)) :=
  match res with
  | PioAddressRange b s => Some (PioPool, (mkRange b (b + s - 1), Valued tt))
  | MmioAddressRange b s => Some (MmioPool, (mkRange b (b + s - 1), Allocated))
  | MemAddressRange b s => Some (MemPool, (mkRange b (b + s - 1), Allocated))
  | LegacyIrq i => if i =? SHARED_IRQ then None else Some (LegacyPool, (mkRange i i, Valued tt))
  | MsiIrq _ b s => Some (MsiPool, (mkRange b (b + s - 1), Valued tt))
  | KvmMemSlot s => Some (KvmPool, (mkRange s s, Valued tt))
  | MacAddresss _ => None
  end.

(** A request with the resource it was answered with.  A request for [n] memory slots takes [n] numbers
    from the pool, but its answer names the first only. *)
Definition grant : Type := ResourceConstraint * Resource.
Definition grant_claim (g : grant) : option (PoolId * (Range * NodeState unit)) :=
  match g with
  | (RC_KvmMemSlot _ n, KvmMemSlot s) => Some (KvmPool, (mkRange s (s + n - 1), Valued tt))
  | (_, res) => claim res
  end.

(** The entries of the pool [p] among what was taken from the pools. *)
Definition taken_in (p : PoolId) (c : option (PoolId * (Range * NodeState unit))) : list (Range * NodeState unit) :=
  match c with
  | Some (p', e) => if decide (p = p') then [e] else []
  | None => []
  end.
Definition taken (p : PoolId) (C : list (option (PoolId * (Range * NodeState unit)))) : list (Range * NodeState unit) :=
  concat (map (taken_in p) C).

Lemma taken_snoc p C c : taken p (C ++ [c]) = taken p C ++ taken_in p c.
Proof. unfold taken. rewrite map_app, concat_app. simpl. by rewrite app_nil_r. Qed.

Definition rm_ledger (m0 m : ResourceManager) C : Prop := forall p, holds (rm_pool m0 p) (rm_pool m p) (taken p C).

Definition claims (p : PoolId) (L : list Resource) : list (Range * NodeState unit) := taken p (claim <$> L).
Definition rm_holds (m0 m : ResourceManager) (L : list Resource) : Prop := rm_ledger m0 m (claim <$> L).

Lemma claims_snoc p L res : claims p (L ++ [res]) = claims p L ++ taken_in p (claim res).
Proof. unfold claims. rewrite fmap_app. apply taken_snoc. Qed.

Lemma claims_cons p res L : claims p (res :: L) = taken_in p (claim res) ++ claims p L.
Proof. done. Qed.

(** Every pool has the entries it had in [m0]. *)
Definition rm_same (m0 m : ResourceManager) : Prop :=
  forall p, entries (rm_pool m p) = entries (rm_pool m0 p).

Section Manager.
Variable phys_end : Z.

(** The interval of numbers each pool manages. *)
Definition pool_lo (p : PoolId) : Z :=
  match p with LegacyPool => LEGACY_IRQ_BASE + 1 | MsiPool => MSI_IRQ_BASE | _ => 0 end.
Definition pool_hi (p : PoolId) : Z :=
  match p with
  | LegacyPool => LEGACY_IRQ_MAX
  | MsiPool => MSI_IRQ_MAX
  | PioPool => PIO_MAX
  | MmioPool => phys_end
  | MemPool => GUEST_MEM_END phys_end
  | KvmPool => u32_max
  end.

Record rm_inv (m : ResourceManager) : Prop := mk_rm_inv {
  inv_wf : forall p, pool_below (rm_pool m p);
  inv_naf : forall p, no_adjacent_free (entries (rm_pool m p));
  inv_bounds : forall p, chain (pool_lo p) (pool_hi p) (entries (rm_pool m p)) }.

Lemma rm_ledger_refl m : rm_inv m -> rm_ledger m m [].
Proof. intros [] p. apply holds_refl; auto. Qed.
Lemma rm_holds_refl m : rm_inv m -> rm_holds m m [].
Proof. apply rm_ledger_refl. Qed.

Lemma rm_ledger_same m0 m : rm_ledger m0 m [] -> rm_same m0 m.
Proof. intros H p. apply holds_nil, (H p). Qed.

(** A resource handed out lies within its pool's numbers. *)
Lemma claim_bounds m0 m C p k d :
  rm_inv m0 -> rm_ledger m0 m C -> (k, d) ∈ taken p C ->
  pool_lo p <= r_min k /\ r_min k <= r_max k /\ r_max k <= pool_hi p /\ r_max k <= u64_max - 1.
Proof.
  intros Hi H He. pose proof (holds_valid _ _ _ _ _ (H p) He) as Hv.
  destruct (holds_bounds _ _ _ _ _ _ _ (H p) He (inv_bounds _ Hi p) Hv).
  destruct (holds_bounds _ _ _ _ _ _ _ (H p) He (pool_chain _ (inv_wf _ Hi p)) Hv). lia.
Qed.

(** ** Requests *)

Definition range_ok (P : Z -> Prop) (range : option (Z * Z)) : Prop :=
  match range with Some (lo, hi) => P lo /\ P hi | None => True end.

(** The fields of a request have their types. *)
Definition req_typed (req : ResourceConstraint) : Prop :=
  match req with
  | RC_PioAddress range align size => in_u16 align /\ in_u16 size /\ range_ok in_u16 range
  | RC_MmioAddress range align size | RC_MemAddress range align size => in_u64 align /\ in_u64 size /\ range_ok in_u64 range
  | RC_LegacyIrq irq => match irq with Some v => in_u32 v | None => True end
  | RC_PciMsiIrq size | RC_PciMsixIrq size | RC_GenericIrq size => in_u32 size
  | RC_KvmMemSlot slot size => in_u32 size /\ match slot with Some v => in_u32 v | None => True end
  end.

(** The pool and the constraint a request stands for. *)
Definition demand (req : ResourceConstraint) : PoolId * Constraint :=
  match req with
  | RC_PioAddress range align size => (PioPool, ranged (Constraint_align (Constraint_new size) align) range)
  | RC_MmioAddress range align size => (MmioPool, ranged (Constraint_align (Constraint_new size) align) range)
  | RC_MemAddress range align size => (MemPool, ranged (Constraint_align (Constraint_new size) align) range)
  | RC_LegacyIrq irq => (LegacyPool, ranged (Constraint_new 1) ((fun v => (v, v)) <$> irq))
  | RC_PciMsiIrq size => (MsiPool, Constraint_align (Constraint_new size) size)
  | RC_PciMsixIrq size | RC_GenericIrq size => (MsiPool, Constraint_new size)
  | RC_KvmMemSlot slot size => (KvmPool, ranged (Constraint_new size) ((fun v => (v, v)) <$> slot))
  end.

(** A request the pools of [m] cannot meet: it is for the shared interrupt as an interrupt of its own, or
    its constraint has no fit among the free numbers of its pool. *)
Definition unmet (m : ResourceManager) (shared : bool) (req : ResourceConstraint) : Prop :=
  match req with
  | RC_LegacyIrq irq => shared = false /\ (irq = Some SHARED_IRQ \/ no_fit (legacy_irq_pool m) (demand req).2)
  | _ => no_fit (rm_pool m (demand req).1) (demand req).2
  end.

Definition in_request (range : option (Z * Z)) (b s : Z) : Prop :=
  match range with Some (lo, hi) => lo <= b /\ b + s - 1 <= hi | None => True end.

(** The resource a request is answered with. *)
Definition answers (shared : bool) (req : ResourceConstraint) (res : Resource) : Prop :=
  match req, res with
  | RC_PioAddress range align size, PioAddressRange b s
  | RC_MmioAddress range align size, MmioAddressRange b s
  | RC_MemAddress range align size, MemAddressRange b s =>
      s = size /\ 0 < s /\ (eff_align align | b) /\ in_request range b s
  | RC_LegacyIrq irq, LegacyIrq i =>
      if shared then i = SHARED_IRQ
      else i <> SHARED_IRQ /\ match irq with Some v => i = v | None => True end
  | RC_PciMsiIrq size, MsiIrq PciMsi b s => s = size /\ 0 < s /\ (eff_align size | b)
  | RC_PciMsixIrq size, MsiIrq PciMsix b s
  | RC_GenericIrq size, MsiIrq GenericMsi b s => s = size /\ 0 < s
  | RC_KvmMemSlot slot size, KvmMemSlot i => 0 < size /\ match slot with Some v => i = v | None => True end
  | _, _ => False
  end.

(** ** Single steps *)

(** Handing out an entry of the pool [p] extends the ledger. *)
Lemma rm_ledger_snoc m0 m m' C p e :
  rm_ledger m0 m C -> holds (rm_pool m0 p) (rm_pool m' p) (taken p C ++ [e]) ->
  (forall q, q <> p -> rm_pool m' q = rm_pool m q) -> rm_ledger m0 m' (C ++ [Some (p, e)]).
Proof.
  intros H Hp Hq q. rewrite taken_snoc. simpl.
  destruct (decide (q = p)) as [->|Hne]; [done|]. rewrite app_nil_r, Hq by done. apply H.
Qed.

Lemma rm_holds_snoc m0 m m' L p e res :
  rm_holds m0 m L -> claim res = Some (p, e) ->
  holds (rm_pool m0 p) (rm_pool m' p) (claims p L ++ [e]) ->
  (forall q, q <> p -> rm_pool m' q = rm_pool m q) -> rm_holds m0 m' (L ++ [res]).
Proof. intros H Hc Hp Hq. unfold rm_holds. rewrite fmap_app. cbn. rewrite Hc. by eapply rm_ledger_snoc. Qed.

Lemma rm_ledger_none m0 m C : rm_ledger m0 m C -> rm_ledger m0 m (C ++ [None]).
Proof. intros H q. rewrite taken_snoc. simpl. rewrite app_nil_r. apply H. Qed.

Lemma allocate_update_ok t0 t L c :
  holds t0 t L -> valid_constraint c ->
  exists o t', allocate_update t c = Ret (o, t') /\
    match o with
    | Some r => served c r /\ holds t0 t' (L ++ [(r, Valued tt)])
    | None => t' = t /\ no_fit t c
    end.
Proof.
  intros H Hv. unfold allocate_update.
  destruct (holds_allocate t0 t L c (Some tt) H Hv) as (o & t1 & -> & Ho). cbn [obind].
  destruct o as [r|]; [|by exists None, t1]. destruct Ho as (Hs & t2 & -> & Hh). cbn [obind].
  by exists (Some r), t2.
Qed.

Lemma allocate_only_ok (t0 t : IntervalTree unit) L c :
  holds t0 t L -> valid_constraint c ->
  exists o t', IntervalTree_allocate t c = Ret (o, t') /\
    match o with
    | Some r => served c r /\ holds t0 t' (L ++ [(r, Allocated)])
    | None => t' = t /\ no_fit t c
    end.
Proof.
  intros H Hv. destruct (holds_allocate t0 t L c None H Hv) as (o & t1 & E & Ho).
  exists o, t1. split; [done|]. destruct o as [r|]; [|done]. by destruct Ho as (Hs & t2 & -> & Hh).
Qed.

Lemma ranged_valid c range :
  valid_constraint c -> range_ok in_u64 range -> valid_constraint (ranged c range).
Proof. unfold valid_constraint. destruct range as [[lo hi]|]; simpl; tauto. Qed.

Lemma new_valid size align : in_u64 size -> in_u64 align -> valid_constraint (Constraint_align (Constraint_new size) align).
Proof. unfold valid_constraint. simpl. intros. split_and!; auto; ulia. Qed.

Lemma served_ranged size align range r :
  served (ranged (Constraint_align (Constraint_new size) align) range) r ->
  r_max r = r_min r + size - 1 /\ r_min r <= r_max r /\ (eff_align align | r_min r) /\
  match range with Some (lo, hi) => lo <= r_min r /\ r_max r <= hi | None => True end.
Proof. unfold served. destruct range as [[lo hi]|]; simpl; intros; split_and!; tauto || lia. Qed.

Lemma as_u32_small x : in_u32 x -> as_u32 x = x.
Proof. intros. unfold as_u32. apply Z.mod_small. ulia. Qed.

Lemma as_u16_small x : in_u16 x -> as_u16 x = x.
Proof. intros. unfold as_u16. apply Z.mod_small. ulia. Qed.

(** The address of the last handed-out entry, within its pool. *)
Lemma last_claim_bounds m0 p t L r d :
  rm_inv m0 -> holds (rm_pool m0 p) t (L ++ [(r, d)]) -> r_min r <= r_max r ->
  pool_lo p <= r_min r /\ r_max r <= pool_hi p /\
  (forall a, in_range a r -> free_addr (entries (rm_pool m0 p)) a).
Proof.
  intros Hi H Hr. destruct (holds_bounds _ _ _ r d _ _ H ltac:(set_solver) (inv_bounds _ Hi p) Hr).
  split_and!; auto. intros a. apply (holds_from _ _ _ H r d). set_solver.
Qed.

Lemma RM_eta m p :
  match p with
  | LegacyPool => set_legacy_irq_pool m (rm_pool m p)
  | MsiPool => set_msi_irq_pool m (rm_pool m p)
  | PioPool => set_pio_pool m (rm_pool m p)
  | MmioPool => set_mmio_pool m (rm_pool m p)
  | MemPool => set_mem_pool m (rm_pool m p)
  | KvmPool => set_kvm_mem_slot_pool m (rm_pool m p)
  end = m.
Proof. destruct m, p; done. Qed.

(** The result of answering one request. *)
Definition step_ok (m0 m : ResourceManager) (shared : bool) (req : ResourceConstraint) C
    (out : outcome (option Resource * ResourceManager)) : Prop :=
  exists o m', out = Ret (o, m') /\
    match o with
    | Some res => answers shared req res /\ rm_ledger m0 m' (C ++ [grant_claim (req, res)])
    | None => m' = m /\ unmet m shared req
    end.

(** A pool whose allocations keep the address, as the interrupt, slot, port and
    address pools do: [m'] is [m] with the pool [p] replaced. *)
Lemma step_intro m0 m shared req C p d c (t : IntervalTree unit) (out : outcome (option Resource * ResourceManager))
    (o : option Range) (mk : Range -> Resource) (m' : ResourceManager) :
  rm_inv m0 -> rm_ledger m0 m C ->
  match o with
  | Some r => served c r /\ holds (rm_pool m0 p) t (taken p C ++ [(r, d)])
  | None => t = rm_pool m p /\ no_fit (rm_pool m p) c
  end ->
  out = Ret (mk <$> o, m') ->
  rm_pool m' p = t -> (forall q, q <> p -> rm_pool m' q = rm_pool m q) ->
  (t = rm_pool m p -> m' = m) -> (no_fit (rm_pool m p) c -> unmet m shared req) ->
  (forall r, served c r -> pool_lo p <= r_min r -> r_max r <= pool_hi p ->
     grant_claim (req, mk r) = Some (p, (r, d)) /\ answers shared req (mk r)) ->
  step_ok m0 m shared req C out.
Proof.
  intros Hi H Ho -> Hp Hq Hm Hu Hr. exists (mk <$> o), m'. split; [done|].
  destruct o as [r|]; cbn [fmap option_fmap option_map]; [|destruct Ho as [-> Hn]; auto]. destruct Ho as [Hs Hh].
  destruct (last_claim_bounds _ _ _ _ _ _ Hi Hh) as (Hlo & Hhi & Hf); [apply Hs|].
  destruct (Hr r Hs Hlo Hhi) as (Hc & Ha). split; [done|]. rewrite Hc. eapply rm_ledger_snoc; eauto. by rewrite Hp.
Qed.

Lemma range_in_claim r size b :
  r_max r = r_min r + size - 1 -> r_min r = b -> mkRange b (b + size - 1) = r.
Proof. destruct r; simpl; intros; subst; done. Qed.

Lemma claim_legacy i r :
  LEGACY_IRQ_BASE + 1 <= i -> r_max r = r_min r + 1 - 1 -> r_min r = i ->
  claim (LegacyIrq i) = Some (LegacyPool, (r, Valued tt)).
Proof.
  intros Hi Hr <-. simpl. unfold SHARED_IRQ, LEGACY_IRQ_BASE in *.
  destruct (Z.eqb_spec (r_min r) 5); [lia|]. destruct r; simpl in *. repeat f_equal. lia.
Qed.

(** Applies [step_intro] and closes its frame goals, leaving what the answer is. *)
Ltac answer_with P d c t o mk m m' Hi H Ho :=
  apply (step_intro _ _ _ _ _ P d c t _ o mk m' Hi H Ho);
  [by destruct o | reflexivity | by intros [] | intros ->; by destruct m | try done |].

Lemma allocate_one_legacy m0 m shared irq C :
  rm_inv m0 -> rm_ledger m0 m C -> req_typed (RC_LegacyIrq irq) ->
  step_ok m0 m shared (RC_LegacyIrq irq) C (allocate_one m shared (RC_LegacyIrq irq)).
Proof.
  intros Hi H Hr. simpl. unfold allocate_legacy_irq. destruct shared.
  { exists (Some (LegacyIrq SHARED_IRQ)), m. split_and!; try done. by apply rm_ledger_none. }
  set (c := ranged (Constraint_new 1) ((fun v => (v, v)) <$> irq)).
  assert (Hgo : step_ok m0 m false (RC_LegacyIrq irq) C
      (let! (o, m1) := (let! (key, p) := allocate_update (legacy_irq_pool m) c in
         Ret ((fun k => as_u32 (r_min k)) <$> key, set_legacy_irq_pool m p)) in
       Ret (LegacyIrq <$> o, m1))).
  { assert (Hc : valid_constraint c) by (unfold valid_constraint, c; destruct irq; simpl in *; split_and!; auto; ulia).
    assert (Hs : c_size c = 1) by (unfold c; by destruct irq).
    destruct (allocate_update_ok _ _ _ _ (H LegacyPool) Hc) as (o & t & E & Ho).
    simpl in E. rewrite E. cbn [obind].
    answer_with LegacyPool (@Valued unit tt) c t o (fun r => LegacyIrq (as_u32 (r_min r))) m
      (set_legacy_irq_pool m t) Hi H Ho; [intros Hn; split; [done|by right]|].
    intros r (Hlen & Hb & Hhi & _) Hlo Hup. simpl in Hlo, Hup.
    unfold LEGACY_IRQ_BASE, LEGACY_IRQ_MAX in *.
    rewrite as_u32_small by ulia. rewrite Hs in Hlen. split.
    - apply claim_legacy; auto; unfold LEGACY_IRQ_BASE; lia.
    - simpl. split; [unfold SHARED_IRQ, LEGACY_IRQ_BASE; lia|]. unfold c in *. destruct irq as [v|]; simpl in *; [lia|done]. }
  destruct irq as [v|]; [|exact Hgo].
  destruct (Z.eqb_spec v SHARED_IRQ) as [->|]; [|exact Hgo]. exists None, m. split; [done|]. split; [done|]. split; [done|by left].
Qed.

(** The interrupts of an MSI request, under the constraint [c]. *)
Lemma allocate_one_msi m0 m shared req kind c C :
  rm_inv m0 -> rm_ledger m0 m C -> valid_constraint c -> (no_fit (msi_irq_pool m) c -> unmet m shared req) ->
  (forall r, served c r -> answers shared req (MsiIrq kind (r_min r) (c_size c))) ->
  step_ok m0 m shared req C
    (let! (o, m1) := (let! (key, p) := allocate_update (msi_irq_pool m) c in
       Ret ((fun k => as_u32 (r_min k)) <$> key, set_msi_irq_pool m p)) in
     Ret ((fun base => MsiIrq kind base (c_size c)) <$> o, m1)).
Proof.
  intros Hi H Hc Hu Hans. destruct (allocate_update_ok _ _ _ _ (H MsiPool) Hc) as (o & t & E & Ho).
  simpl in E. rewrite E. cbn [obind].
  answer_with MsiPool (@Valued unit tt) c t o (fun r => MsiIrq kind (as_u32 (r_min r)) (c_size c)) m
    (set_msi_irq_pool m t) Hi H Ho.
  intros r Hs Hlo Hup. simpl in Hlo, Hup. unfold MSI_IRQ_BASE, MSI_IRQ_MAX in *.
  pose proof Hs as (Hlen & Hb & Hrest). rewrite as_u32_small by ulia. split; [|by apply Hans].
  replace (grant_claim (req, _)) with (claim (MsiIrq kind (r_min r) (c_size c))) by (by destruct req). simpl. by rewrite (range_in_claim r).
Qed.

(** An address request, whose answer is a range of the same size. *)
Lemma answers_range range size align r :
  served (ranged (Constraint_align (Constraint_new size) align) range) r ->
  mkRange (r_min r) (r_min r + size - 1) = r /\ 0 < size /\ (eff_align align | r_min r) /\ in_request range (r_min r) size.
Proof.
  intros (Hlen & Hb & Hal & Hin)%served_ranged. split; [by apply range_in_claim|]. split; [lia|]. split; [done|].
  destruct range as [[]|]; simpl; [lia|done].
Qed.

Lemma allocate_one_pio m0 m shared range align size C :
  rm_inv m0 -> rm_ledger m0 m C -> req_typed (RC_PioAddress range align size) ->
  step_ok m0 m shared (RC_PioAddress range align size) C
    (allocate_one m shared (RC_PioAddress range align size)).
Proof.
  intros Hi H (Ha & Hsz & Hrg). simpl. unfold allocate_pio_address.
  assert (Hc : valid_constraint (ranged (Constraint_align (Constraint_new size) align) range)).
  { apply ranged_valid; [apply new_valid; ulia|]. destruct range as [[]|]; simpl in *; [ulia|done]. }
  destruct (allocate_update_ok _ _ _ _ (H PioPool) Hc) as (o & t & E & Ho).
  simpl in E. rewrite E. cbn [obind].
  answer_with PioPool (@Valued unit tt) (ranged (Constraint_align (Constraint_new size) align) range) t o
    (fun r => PioAddressRange (as_u16 (r_min r)) size) m (set_pio_pool m t) Hi H Ho.
  intros r Hs Hlo Hup. simpl in Hlo, Hup. unfold PIO_MAX in *. pose proof Hs as (_ & ? & _).
  apply answers_range in Hs as (Er & ? & ? & ?). rewrite as_u16_small by ulia. simpl. rewrite Er. auto.
Qed.

Lemma allocate_one_mmio m0 m shared range align size C :
  rm_inv m0 -> rm_ledger m0 m C -> req_typed (RC_MmioAddress range align size) ->
  step_ok m0 m shared (RC_MmioAddress range align size) C
    (allocate_one m shared (RC_MmioAddress range align size)).
Proof.
  intros Hi H (Ha & Hsz & Hrg). simpl. unfold allocate_mmio_address.
  assert (Hc : valid_constraint (ranged (Constraint_align (Constraint_new size) align) range))
    by (by apply ranged_valid; [apply new_valid|]).
  destruct (allocate_only_ok _ _ _ _ (H MmioPool) Hc) as (o & t & E & Ho).
  simpl in E. rewrite E. cbn [obind].
  answer_with MmioPool (@Allocated unit) (ranged (Constraint_align (Constraint_new size) align) range) t o
    (fun r => MmioAddressRange (r_min r) size) m (set_mmio_pool m t) Hi H Ho.
  intros r (Er & ? & ? & ?)%answers_range _ _. simpl. rewrite Er. auto.
Qed.

Lemma allocate_one_mem m0 m shared range align size C :
  rm_inv m0 -> rm_ledger m0 m C -> req_typed (RC_MemAddress range align size) ->
  step_ok m0 m shared (RC_MemAddress range align size) C
    (allocate_one m shared (RC_MemAddress range align size)).
Proof.
  intros Hi H (Ha & Hsz & Hrg). simpl. unfold allocate_mem_address.
  assert (Hc : valid_constraint (ranged (Constraint_align (Constraint_new size) align) range))
    by (by apply ranged_valid; [apply new_valid|]).
  destruct (allocate_only_ok _ _ _ _ (H MemPool) Hc) as (o & t & E & Ho).
  simpl in E. rewrite E. cbn [obind].
  answer_with MemPool (@Allocated unit) (ranged (Constraint_align (Constraint_new size) align) range) t o
    (fun r => MemAddressRange (r_min r) size) m (set_mem_pool m t) Hi H Ho.
  intros r (Er & ? & ? & ?)%answers_range _ _. simpl. rewrite Er. auto.
Qed.

Lemma allocate_one_kvm m0 m shared slot size C :
  rm_inv m0 -> rm_ledger m0 m C -> req_typed (RC_KvmMemSlot slot size) ->
  step_ok m0 m shared (RC_KvmMemSlot slot size) C (allocate_one m shared (RC_KvmMemSlot slot size)).
Proof.
  intros Hi H [Hsz Hsl]. simpl. unfold allocate_kvm_mem_slot.
  set (c := ranged (Constraint_new size) ((fun v => (v, v)) <$> slot)).
  replace (match slot with Some v => _ | None => _ end) with c by (unfold c; by destruct slot).
  assert (Hc : valid_constraint c)
    by (unfold valid_constraint, c; destruct slot; simpl in *; split_and!; auto; ulia).
  assert (Hcs : c_size c = size) by (by unfold c; destruct slot).
  destruct (allocate_update_ok _ _ _ _ (H KvmPool) Hc) as (o & t & E & Ho).
  simpl in E. rewrite E. cbn [obind].
  answer_with KvmPool (@Valued unit tt) c t o (fun r => KvmMemSlot (as_u32 (r_min r))) m
    (set_kvm_mem_slot_pool m t) Hi H Ho.
  intros r (Hlen & Hb & Hhi & _) Hlo Hup. simpl in Hlo, Hup.
  rewrite Hcs in Hlen. rewrite as_u32_small by ulia. split; simpl; [by rewrite (range_in_claim r)|].
  split; [lia|]. unfold c in *. destruct slot as [v|]; simpl in *; [lia|done].
Qed.

Lemma allocate_one_ok m0 m shared req C :
  rm_inv m0 -> rm_ledger m0 m C -> req_typed req ->
  step_ok m0 m shared req C (allocate_one m shared req).
Proof.
  intros Hi H Hr. destruct req as [range al sz|range al sz|range al sz|irq|sz|sz|sz|slot sz].
  - by apply allocate_one_pio.
  - by apply allocate_one_mmio.
  - by apply allocate_one_mem.
  - by apply allocate_one_legacy.
  - apply (allocate_one_msi m0 m shared _ PciMsi (Constraint_align (Constraint_new sz) sz)); auto.
    + simpl in Hr. apply new_valid; ulia.
    + intros r Hs. unfold served in Hs. simpl in *. split_and!; auto; [lia|]. tauto.
  - apply (allocate_one_msi m0 m shared _ PciMsix (Constraint_new sz)); auto.
    + simpl in Hr. unfold valid_constraint. simpl. split_and!; ulia.
    + intros r Hs. unfold served in Hs. simpl in *. lia.
  - apply (allocate_one_msi m0 m shared _ GenericMsi (Constraint_new sz)); auto.
    + simpl in Hr. unfold valid_constraint. simpl. split_and!; ulia.
    + intros r Hs. unfold served in Hs. simpl in *. lia.
  - by apply allocate_one_kvm.
Qed.

(** ** Freeing *)

Lemma rm_ledger_free_head m0 m m' p e C t' :
  rm_ledger m0 m (Some (p, e) :: C) -> holds (rm_pool m0 p) t' (taken p C) -> rm_pool m' p = t' ->
  (forall q, q <> p -> rm_pool m' q = rm_pool m q) -> rm_ledger m0 m' C.
Proof.
  intros H Hh <- Hq q. destruct (decide (q = p)) as [->|Hne]; [done|]. rewrite Hq by done.
  pose proof (H q) as Hq'. unfold taken in Hq'. simpl in Hq'. by destruct (decide (q = p)).
Qed.

(** The pool a claimed resource lives in frees its entry. *)
Lemma free_head_pool m0 m C p k d :
  rm_inv m0 -> rm_ledger m0 m (Some (p, (k, d)) :: C) ->
  pool_lo p <= r_min k /\ r_min k <= r_max k /\ r_max k <= pool_hi p /\ r_max k <= u64_max - 1 /\
  exists t', IntervalTree_free (rm_pool m p) k = Ret (NodeState_into d, t') /\
    holds (rm_pool m0 p) t' (taken p C).
Proof.
  intros Hi H.
  assert (Hcl : taken p (Some (p, (k, d)) :: C) = (k, d) :: taken p C) by (unfold taken; simpl; by destruct (decide (p = p))).
  destruct (claim_bounds _ _ _ p k d Hi H) as (? & ? & ? & ?); [rewrite Hcl; set_solver|].
  pose proof (H p) as Hp. rewrite Hcl in Hp. split_and!; auto. by apply holds_free_head.
Qed.

Lemma checked_add_some mx x y : x + y <= mx -> checked_add mx x y = Some (x + y).
Proof. intros. unfold checked_add. by rewrite (proj2 (Z.leb_le _ _)). Qed.
Lemma checked_add_none mx x y : mx < x + y -> checked_add mx x y = None.
Proof. intros. unfold checked_add. by rewrite (proj2 (Z.leb_gt _ _)). Qed.

(** Ends a free operation: the pool [p] is replaced by the one that freed. *)
Ltac freed H Hh :=
  eexists; split; [reflexivity|];
  eapply rm_ledger_free_head; [exact H|exact Hh|reflexivity|by intros []].

(** What becomes of resources that are given back in order: all are free again; or one that
    ends at the last port or the last guest address is refused, and stays taken with
    those after it; or the call panics at the first of several slots. *)
Inductive fate := AllBack | Refused (what : string) (kept : list grant) | Dies.

Fixpoint given_back (G : list grant) : fate :=
  match G with
  | [] => AllBack
  | (req, res) :: G' =>
      match req, res with
      | _, PioAddressRange b s => if b + s <=? PIO_MAX then given_back G' else Refused "PIO Address" G
      | _, MemAddressRange b s => if b + s <=? GUEST_MEM_END phys_end then given_back G' else Refused "MEM Address" G
      | RC_KvmMemSlot _ n, KvmMemSlot _ => if n =? 1 then given_back G' else Dies
      | _, _ => given_back G'
      end
  end.

Definition fate_ok (m0 m : ResourceManager) (f : fate) (out : outcome (result unit ResourceError * ResourceManager)) : Prop :=
  match f with
  | AllBack => exists m', out = Ret (Ok tt, m') /\ rm_same m0 m'
  | Refused what kept => exists m', out = Ret (Err (InvalidResourceRange what), m') /\ rm_ledger m0 m' (grant_claim <$> kept)
  | Dies => out = Panic
  end.

(** A resource whose entry is exactly what its freeing names, and whose freeing the code accepts. *)
Definition freeable (g : grant) : Prop :=
  match g with
  | (_, PioAddressRange b s) => b + s <= PIO_MAX
  | (_, MemAddressRange b s) => b + s <= GUEST_MEM_END phys_end
  | (RC_KvmMemSlot _ n, KvmMemSlot _) => n = 1
  | _ => True
  end.

Lemma free_one_range m0 m req res C :
  rm_inv m0 -> rm_ledger m0 m (claim res :: C) -> freeable (req, res) ->
  match res with PioAddressRange _ _ | MmioAddressRange _ _ | MemAddressRange _ _ => True | _ => False end ->
  exists m', free_one phys_end m res = Ret (Ok tt, m') /\ rm_ledger m0 m' C.
Proof.
  intros Hi H Hf Hres. destruct res as [b s|b s|b s| | | |]; try done;
    (edestruct free_head_pool as (Hlo & Hk & Hhi & Hm & t' & E & Hh); [done|exact H|]);
    simpl in Hlo, Hk, Hhi, Hm, E; simpl.
  - assert (Hf' : b + s <= PIO_MAX) by (by destruct req). unfold free_pio_address, PIO_MAX in *. rewrite checked_add_some by ulia.
    rewrite sub_u_ret by lia. cbn [obind]. rewrite Range_new_ret by ulia. cbn [obind].
    rewrite E. cbn [obind]. freed H Hh.
  - unfold free_mmio_address. rewrite checked_add_some by lia.
    rewrite sub_u_ret by lia. cbn [obind]. rewrite Range_new_ret by lia. cbn [obind].
    rewrite E. cbn [obind]. freed H Hh.
  - assert (Hf' : b + s <= GUEST_MEM_END phys_end) by (by destruct req). unfold free_mem_address, GUEST_MEM_START in *. rewrite checked_add_some by lia.
    rewrite (proj2 (Z.ltb_ge b 0)) by lia. rewrite Z.gtb_ltb, (proj2 (Z.ltb_ge _ (b + s))) by lia. cbn [orb].
    rewrite sub_u_ret by lia. cbn [obind]. rewrite Range_new_ret by lia. cbn [obind].
    rewrite E. cbn [obind]. freed H Hh.
Qed.

Lemma free_one_legacy m0 m i C :
  rm_inv m0 -> rm_ledger m0 m (claim (LegacyIrq i) :: C) ->
  exists m', free_one phys_end m (LegacyIrq i) = Ret (Ok tt, m') /\ rm_ledger m0 m' C.
Proof.
  intros Hi H. simpl in *. unfold free_legacy_irq. destruct (i =? SHARED_IRQ) eqn:Es.
  { exists m. split; [done|]. intros p. apply (H p). }
  destruct (free_head_pool _ _ _ _ _ _ Hi H) as (Hlo & Hk & Hhi & Hm & t' & E & Hh).
  simpl in Hlo, Hk, Hhi, Hm, E. rewrite (proj2 (Z.leb_le _ i)), (proj2 (Z.leb_le i _)) by lia. cbn [andb negb].
  rewrite Range_new_ret by lia. cbn [obind]. rewrite E. cbn [obind]. freed H Hh.
Qed.

Lemma free_one_msi m0 m kind b s C :
  rm_inv m0 -> rm_ledger m0 m (claim (MsiIrq kind b s) :: C) ->
  exists m', free_one phys_end m (MsiIrq kind b s) = Ret (Ok tt, m') /\ rm_ledger m0 m' C.
Proof.
  intros Hi H. edestruct free_head_pool as (Hlo & Hk & Hhi & Hm & t' & E & Hh); [done|exact H|].
  simpl in Hlo, Hk, Hhi, Hm, E. unfold MSI_IRQ_BASE, MSI_IRQ_MAX in *. simpl. unfold free_msi_irq.
  rewrite checked_add_some by ulia.
  rewrite (proj2 (Z.ltb_ge b _)), (proj2 (Z.eqb_neq s 0)), Z.gtb_ltb, (proj2 (Z.ltb_ge _ (b + s - 1)))
    by (unfold MSI_IRQ_BASE, MSI_IRQ_MAX; lia).
  cbn [orb]. rewrite Range_new_ret by lia. cbn [obind]. rewrite E. cbn [obind]. freed H Hh.
Qed.

(** Freeing one slot of several panics: the slot is no entry of the pool but meets one. *)
Lemma free_one_slots m0 m slot n s C :
  rm_inv m0 -> rm_ledger m0 m (grant_claim (RC_KvmMemSlot slot n, KvmMemSlot s) :: C) ->
  if n =? 1 then exists m', free_one phys_end m (KvmMemSlot s) = Ret (Ok tt, m') /\ rm_ledger m0 m' C
  else free_one phys_end m (KvmMemSlot s) = Panic.
Proof.
  intros Hi H. cbn [grant_claim] in H. destruct (free_head_pool _ _ _ _ _ _ Hi H) as (Hlo & Hk & Hhi & Hm & t' & E & Hh).
  simpl in Hlo, Hk, Hhi, Hm, E. simpl. unfold free_kvm_mem_slot. rewrite Range_new_ret by lia. cbn [obind].
  destruct (Z.eqb_spec n 1) as [->|Hn]; [replace (s + 1 - 1) with s in E by lia; rewrite E; cbn [obind]; freed H Hh|].
  assert (Hin : (mkRange s (s + n - 1), Valued tt) ∈ entries (kvm_mem_slot_pool m)).
  { assert (Hb : busy (entries (kvm_mem_slot_pool m)) (mkRange s (s + n - 1)) (Valued tt)); [|apply Hb].
    apply (holds_busy _ _ _ (H KvmPool)). right. unfold taken. simpl. set_solver. }
  assert (Hwf : pool_below (kvm_mem_slot_pool m)) by (apply (holds_wf _ _ _ (H KvmPool))).
  pose proof (pool_chain _ Hwf) as Hc. rewrite free_meets; [done|done|simpl; lia|simpl; lia| |].
  - intros d Hd. assert (Hs : forall d', (mkRange s s, d') ∉ entries (kvm_mem_slot_pool m)); [|by apply (Hs d)].
    intros d' Hd'. assert (E1 : addr_state (entries (kvm_mem_slot_pool m)) s = Some (Valued tt)) by (eapply addr_state_elem; [done|done|unfold in_range; simpl; lia]).
    apply list_elem_of_split in Hin as (ea & eb & He). rewrite He in Hc, Hd'. apply chain_app in Hc as (Hc1 & _ & _ & Hc2).
    apply elem_of_app in Hd' as [Hd'|[[= E2]|Hd']%elem_of_cons]; [pose proof (chain_elem _ _ _ _ _ Hc1 Hd'); simpl in *; lia|lia|].
    pose proof (chain_elem _ _ _ _ _ Hc2 Hd'). simpl in *. lia.
  - apply Exists_exists. eexists. split; [done|]. unfold meets, Range_intersect. simpl. apply Z.leb_le. lia.
Qed.

(** Freeing the first resource of the ledger succeeds and removes it. *)
Lemma free_one_ok m0 m req res C :
  rm_inv m0 -> rm_ledger m0 m (grant_claim (req, res) :: C) -> freeable (req, res) ->
  (forall s, res = KvmMemSlot s -> exists slot n, req = RC_KvmMemSlot slot n) ->
  exists m', free_one phys_end m res = Ret (Ok tt, m') /\ rm_ledger m0 m' C.
Proof.
  intros Hi H Hf Hk. assert (Hcl : (forall s, res <> KvmMemSlot s) -> grant_claim (req, res) = claim res) by (intros Hn; destruct req, res; try done; by destruct (Hn slot0)).
  destruct res as [b s|b s|b s|i|kind b s|mac|slot].
  1-3: rewrite Hcl in H by done; by eapply free_one_range.
  - rewrite Hcl in H by done. by apply free_one_legacy.
  - rewrite Hcl in H by done. by apply free_one_msi.
  - exists m. split; [done|]. rewrite Hcl in H by done. intros p. apply (H p).
  - destruct (Hk slot eq_refl) as (sl & n & ->). simpl in Hf. subst n. by apply (free_one_slots m0 m sl 1).
Qed.

(** An answered request. *)
Definition answered (shared : bool) (g : grant) : Prop := answers shared g.1 g.2.

Lemma answered_slot shared req s : answered shared (req, KvmMemSlot s) -> exists slot n, req = RC_KvmMemSlot slot n.
Proof. destruct req; try done. eauto. Qed.

(** The refusal of a range that ends at the last number. *)
Lemma free_one_refused m0 m req b s C :
  rm_inv m0 ->
  (rm_ledger m0 m (grant_claim (req, PioAddressRange b s) :: C) -> PIO_MAX < b + s ->
   free_one phys_end m (PioAddressRange b s) = Ret (Err (InvalidResourceRange "PIO Address"), m)) /\
  (rm_ledger m0 m (grant_claim (req, MemAddressRange b s) :: C) -> GUEST_MEM_END phys_end < b + s ->
   free_one phys_end m (MemAddressRange b s) = Ret (Err (InvalidResourceRange "MEM Address"), m)).
Proof.
  intros Hi. split; intros H Hgt.
  - simpl. unfold free_pio_address, PIO_MAX in *. by rewrite checked_add_none by ulia.
  - assert (H' : rm_ledger m0 m (Some (MemPool, (mkRange b (b + s - 1), Allocated)) :: C)) by (by destruct req).
    destruct (free_head_pool _ _ _ _ _ _ Hi H') as (Hlo & Hk & Hhi & Hm & _). simpl in Hlo, Hk, Hhi, Hm.
    simpl. unfold free_mem_address. rewrite checked_add_some by lia. by rewrite Z.gtb_ltb, (proj2 (Z.ltb_lt _ (b + s))), orb_true_r by lia.
Qed.

Lemma free_resource_list_ok m0 shared G m :
  rm_inv m0 -> rm_ledger m0 m (grant_claim <$> G) -> Forall (answered shared) G ->
  fate_ok m0 m (given_back G) (free_resource_list phys_end m G.*2).
Proof.
  intros Hi. revert m. induction G as [|[req res] G IH]; intros m H Ha.
  { exists m. split; [done|]. by apply rm_ledger_same. }
  apply Forall_cons in Ha as [Ha HG]. cbn [fmap list_fmap snd free_resource_list]. rewrite fmap_cons in H.
  assert (Hgo : freeable (req, res) -> fate_ok m0 m (given_back G) (let! (r, m1) := free_one phys_end m res in match r with Ok _ => free_resource_list phys_end m1 G.*2 | Err e => Ret (Err e, m1) end)).
  { intros Hf. destruct (free_one_ok m0 m req res _ Hi H Hf) as (m1 & -> & H1); [intros s ->; by eapply answered_slot|]. cbn [obind].
    specialize (IH m1 H1 HG). by destruct (given_back G). }
  assert (Hstop : forall what, free_one phys_end m res = Ret (Err (InvalidResourceRange what), m) ->
    fate_ok m0 m (Refused what ((req, res) :: G)) (let! (r, m1) := free_one phys_end m res in match r with Ok _ => free_resource_list phys_end m1 G.*2 | Err e => Ret (Err e, m1) end)).
  { intros what ->. cbn [obind]. exists m. by rewrite fmap_cons. }
  destruct res as [b s|b s|b s|i|kind b s|mac|slot]; cbn [given_back].
  - destruct (Z.leb_spec (b + s) PIO_MAX); [replace (given_back _) with (given_back G) by (by destruct req)|].
    all: destruct req; (apply Hgo; done) || (apply Hstop; by eapply free_one_refused).
  - destruct req; by apply Hgo.
  - destruct (Z.leb_spec (b + s) (GUEST_MEM_END phys_end)); destruct req; (apply Hgo; done) || (apply Hstop; by eapply free_one_refused).
  - destruct req; by apply Hgo.
  - destruct req; by apply Hgo.
  - destruct req; by apply Hgo.
  - destruct (answered_slot _ _ _ Ha) as (sl & n & ->). pose proof (free_one_slots _ _ _ _ _ _ Hi H) as Hs.
    destruct (Z.eqb_spec n 1) as [->|]; [by apply Hgo|]. by rewrite Hs.
Qed.

(** ** Device resources *)

(** The result of a list of requests: [G] were answered and [rest] were not looked at or could not be met. *)
Definition requests_ok (m0 : ResourceManager) (shared : bool) (G : list grant) (rest : list ResourceConstraint) (m1 : ResourceManager)
    (out : outcome (result DeviceResources ResourceError * ResourceManager)) : Prop :=
  match rest with
  | [] => out = Ret (Ok (mkDeviceResources G.*2), m1)
  | req :: _ => unmet m1 shared req /\
      match given_back G with
      | AllBack => exists m2, out = Ret (Err NoAvailResource, m2) /\ rm_same m0 m2
      | Refused what kept => exists m2, out = Ret (Err (InvalidResourceRange what), m2) /\ rm_ledger m0 m2 (grant_claim <$> kept)
      | Dies => out = Panic
      end
  end.

Lemma allocate_resource_list_ok m0 shared requests m G0 :
  rm_inv m0 -> rm_ledger m0 m (grant_claim <$> G0) -> Forall (answered shared) G0 -> Forall req_typed requests ->
  exists G rest m1, requests = G.*1 ++ rest /\ Forall (answered shared) (G0 ++ G) /\ rm_ledger m0 m1 (grant_claim <$> (G0 ++ G)) /\
    requests_ok m0 shared (G0 ++ G) rest m1 (allocate_resource_list phys_end m shared requests (mkDeviceResources G0.*2)).
Proof.
  intros Hi. revert m G0. induction requests as [|req rest IH]; intros m G0 H Ha Hr; simpl.
  { exists [], [], m. rewrite !app_nil_r. split_and!; done. }
  apply Forall_cons in Hr as [Hr Hrest]. destruct (allocate_one_ok _ _ shared req _ Hi H) as (o & m1 & -> & Ho); [done|].
  cbn [obind]. destruct o as [res|].
  - destruct Ho as (Hans & H1). destruct (IH m1 (G0 ++ [(req, res)])) as (G & rest' & m2 & E & Ha' & H2 & Hok).
    + by rewrite fmap_app.
    + apply Forall_app. split; [done|]. by constructor.
    + done.
    + exists ((req, res) :: G), rest', m2. rewrite <- app_assoc in *. rewrite fmap_app in Hok. split; [by rewrite E|]. done.
  - destruct Ho as [-> Hu]. exists [], (req :: rest), m. rewrite app_nil_r. split_and!; [done..|]. split; [done|].
    unfold free_device_resources. cbn [dr_vec]. pose proof (free_resource_list_ok _ shared _ _ Hi H Ha) as Hf. unfold fate_ok in Hf.
    destruct (given_back G0); [destruct Hf as (m2 & -> & Hs)..|by rewrite Hf]; cbn [obind]; by exists m2.
Qed.

End Manager.

(** ** The initial pools *)

(** The entries [ResourceManager::new] gives each pool, for the last physical
    address [phys_end] and the memory slots [0..=slots]. *)
Definition initial_entries (phys_end slots : Z) (p : PoolId) : list (Range * NodeState unit) :=
  match p with
  | LegacyPool => [(mkRange (LEGACY_IRQ_BASE + 1) LEGACY_IRQ_MAX, Free)]
  | MsiPool => [(mkRange MSI_IRQ_BASE MSI_IRQ_MAX, Free)]
  | PioPool => [(mkRange PIO_MIN PIO_MAX, Free)]
  | MmioPool =>
      let reserved := MMIO_LOW_END - MMIO_SPACE_RESERVED in
      [(mkRange MMIO_LOW_START (reserved - 1), Free);
       (mkRange reserved (MMIO_LOW_END - 1), Valued tt);
       (mkRange MMIO_LOW_END MMIO_LOW_END, Free);
       (mkRange (GUEST_MEM_END phys_end + 1) phys_end, Free)]
  | MemPool => [(mkRange GUEST_MEM_START (MMIO_LOW_START - 1), Free);
                (mkRange (MMIO_LOW_END + 1) (GUEST_MEM_END phys_end), Free)]
  | KvmPool => [(mkRange 0 slots, Free)]
  end.

Lemma mmio_low_window :
  MMIO_LOW_START = 3221225472 /\ MMIO_LOW_END = 4294967295 /\ MMIO_SPACE_RESERVED = 67108864.
Proof. done. Qed.

(** The architecture's possible values of [GUEST_PHYS_END]. *)
Lemma GUEST_PHYS_END_range size pe :
  GUEST_PHYS_END size = Ret pe -> 2 ^ 36 - 1 <= pe <= 2 ^ 63 - 1 /\ pe = 2 * GUEST_MEM_END pe + 1.
Proof.
  unfold GUEST_PHYS_END. case_goal; [|done]. intros [= <-]. bools.
  rewrite Z.shiftl_1_l. split.
  - pose proof (Z.pow_le_mono_r 2 36 size). pose proof (Z.pow_le_mono_r 2 size 63). lia.
  - unfold GUEST_MEM_END. rewrite Z.shiftr_div_pow2 by lia.
    assert (Hs : 2 ^ size = 2 * 2 ^ (size - 1)) by (rewrite <- Z.pow_succ_r by lia; f_equal; lia).
    rewrite Hs. change (2 ^ 1) with 2. Z.div_mod_to_equations. lia.
Qed.

(** Appending a free range to a pool, above all its entries. *)
Lemma insert_above (t : IntervalTree unit) lo hi :
  pool_below t -> chain 0 (lo - 1) (entries t) -> 0 <= lo -> lo <= hi -> hi < u64_max ->
  exists t', (let! r := Range_new lo hi in IntervalTree_insert t r None) = Ret t' /\ pool_below t' /\
    entries t' = entries t ++ [(mkRange lo hi, Free)].
Proof.
  intros Hwf Hc Hlo Hr Hhi. rewrite Range_new_ret by lia. cbn [obind].
  apply (insert_entries t (entries t) [] (mkRange lo hi) None Hwf); [by rewrite app_nil_r|].
  apply chain_app. simpl. split_and!; auto; lia.
Qed.

Lemma init_empty lo hi :
  0 <= lo -> lo <= hi -> hi < u64_max ->
  exists t', (let! r := Range_new lo hi in IntervalTree_insert IntervalTree_new r None) = Ret t' /\
    pool_below t' /\ entries t' = [(mkRange lo hi, @Free unit)].
Proof. intros. by apply (insert_above IntervalTree_new lo hi pool_new). Qed.

(** The low MMIO window with its reserved part taken out. *)
Lemma reserve_low_mmio (t1 : IntervalTree unit) :
  IntervalTree_insert IntervalTree_new (mkRange MMIO_LOW_START MMIO_LOW_END) None = Ret t1 ->
  exists k t2 t3,
    IntervalTree_allocate t1 (Constraint_max (Constraint_min (Constraint_new MMIO_SPACE_RESERVED)
      (MMIO_LOW_END - MMIO_SPACE_RESERVED)) 4294967295) = Ret (Some k, t2) /\
    IntervalTree_update t2 k tt = Ret (None, t3) /\ pool_below t3 /\
    entries t3 = take 3 (initial_entries 0 0 MmioPool).
Proof.
  intros E. destruct (init_empty MMIO_LOW_START MMIO_LOW_END) as (t' & E1 & Hwf & He); [done..|].
  rewrite Range_new_ret in E1 by (vm_compute; intuition congruence). cbn [obind] in E1.
  rewrite E in E1. injection E1 as <-.
  set (c := Constraint_max _ _).
  destruct (holds_allocate t1 t1 [] c (Some tt)) as (o & t2 & E2 & Ho).
  { apply holds_refl; [done|]. by rewrite He. }
  { by vm_compute. }
  vm_compute in E. injection E as <-. pose proof E2 as E2'. vm_compute in E2'.
  injection E2' as <- <-. destruct Ho as (_ & t3 & E3 & Hh).
  eexists _, _, t3. split_and!; [exact E2|exact E3|apply (holds_wf _ _ _ Hh)|].
  vm_compute in E3. injection E3 as <-. reflexivity.
Qed.

Lemma init_mmio_ok size pe :
  GUEST_PHYS_END size = Ret pe ->
  exists t, init_mmio_pool_helper pe IntervalTree_new = Ret t /\ pool_below t /\
    entries t = initial_entries pe 0 MmioPool.
Proof.
  intros [Hpe Hm]%GUEST_PHYS_END_range. unfold init_mmio_pool_helper.
  rewrite Range_new_ret by (vm_compute; intuition congruence). cbn [obind].
  destruct (IntervalTree_insert _ _ _) as [t1|] eqn:E1; [|by vm_compute in E1]. cbn [obind].
  destruct (reserve_low_mmio t1 E1) as (k & t2 & t3 & E2 & E3 & Hwf & He).
  change (MMIO_LOW_START =? MMIO_LOW_END) with false.
  change (GUEST_MEM_START >? MMIO_LOW_END) with false.
  rewrite (proj2 (Z.ltb_ge _ MMIO_LOW_START)) by (pose proof mmio_low_window; lia). cbn [orb negb].
  rewrite E2. cbn [obind]. rewrite E3. cbn [obind].
  rewrite (proj2 (Z.ltb_lt _ pe)) by lia.
  destruct (insert_above t3 (GUEST_MEM_END pe + 1) pe) as (t4 & E4 & Hwf4 & He4); auto; try ulia.
  { rewrite He. simpl. pose proof mmio_low_window. lia. }
  exists t4. split_and!; auto. by rewrite He4, He.
Qed.

Lemma init_mem_ok size pe :
  GUEST_PHYS_END size = Ret pe ->
  exists t, init_mem_pool_helper pe IntervalTree_new = Ret t /\ pool_below t /\
    entries t = initial_entries pe 0 MemPool.
Proof.
  intros [Hpe Hm]%GUEST_PHYS_END_range. unfold init_mem_pool_helper.
  change (MMIO_LOW_START =? MMIO_LOW_END) with false.
  change (GUEST_MEM_START >? MMIO_LOW_END) with false.
  change (MMIO_LOW_START >? GUEST_MEM_START) with true.
  rewrite (proj2 (Z.ltb_ge _ MMIO_LOW_START)) by (pose proof mmio_low_window; lia). cbn [orb].
  destruct (init_empty GUEST_MEM_START (MMIO_LOW_START - 1)) as (t1 & E1 & Hwf & He); [done..|].
  rewrite E1. cbn [obind].
  rewrite (proj2 (Z.ltb_lt MMIO_LOW_END _)) by (pose proof mmio_low_window; lia).
  destruct (insert_above t1 (MMIO_LOW_END + 1) (GUEST_MEM_END pe)) as (t2 & E2 & Hwf2 & He2);
    auto; try done; [by rewrite He|pose proof mmio_low_window; lia|ulia|].
  exists t2. split_and!; auto. by rewrite He2, He.
Qed.

Lemma init_pool_ok {B} lo hi (k : IntervalTree unit -> B) :
  0 <= lo -> lo <= hi -> hi < u64_max ->
  exists t, (let! r := Range_new lo hi in let! p := IntervalTree_insert IntervalTree_new r None in Ret (k p)) = Ret (k t) /\
    pool_below t /\ entries t = [(mkRange lo hi, Free)].
Proof.
  intros. destruct (init_empty lo hi) as (t & E & ? & ?); auto. exists t. split; [|done].
  rewrite Range_new_ret in * by lia. cbn [obind] in *. by rewrite E.
Qed.

(** [ResourceManager::new] returns, with these pools. *)
Lemma ResourceManager_new_ok size pe slot :
  GUEST_PHYS_END size = Ret pe -> match slot with Some s => in_u32 s | None => True end ->
  exists m, ResourceManager_new pe slot = Ret m /\ (forall p, pool_below (rm_pool m p)) /\
    forall p, entries (rm_pool m p) =
      initial_entries pe (match slot with Some s => s | None => KVM_USER_MEM_SLOTS end) p.
Proof.
  intros Hpe Hs. set (slots := match slot with Some s => s | None => _ end).
  assert (Hslots : in_u32 slots).
  { unfold slots, KVM_USER_MEM_SLOTS. destruct slot; [done|ulia]. }
  unfold ResourceManager_new, init_legacy_irq_pool, init_msi_irq_pool, init_pio_pool, init_mmio_pool,
    builder_init_mem_pool, init_kvm_mem_slot_pool. fold slots. simpl legacy_irq_pool.
  destruct (init_pool_ok (LEGACY_IRQ_BASE + 1) LEGACY_IRQ_MAX
              (set_legacy_irq_pool ResourceManager_default)) as (t1 & R1 & W1 & E1); [done..|].
  rewrite R1. cbn [obind]. set (m1 := set_legacy_irq_pool _ _).
  destruct (init_pool_ok MSI_IRQ_BASE MSI_IRQ_MAX (set_msi_irq_pool m1)) as (t2 & R2 & W2 & E2); [done..|].
  simpl msi_irq_pool. rewrite R2. cbn [obind]. set (m2 := set_msi_irq_pool _ _).
  destruct (init_pool_ok PIO_MIN PIO_MAX (set_pio_pool m2)) as (t3 & R3 & W3 & E3); [done..|].
  simpl pio_pool. rewrite R3. cbn [obind]. set (m3 := set_pio_pool _ _).
  destruct (init_mmio_ok size pe Hpe) as (t4 & E4' & W4 & E4). simpl mmio_pool. rewrite E4'. cbn [obind]. set (m4 := set_mmio_pool _ _).
  destruct (init_mem_ok size pe Hpe) as (t5 & E5' & W5 & E5). simpl mem_pool. rewrite E5'. cbn [obind]. set (m5 := set_mem_pool _ _).
  destruct (init_pool_ok 0 slots (set_kvm_mem_slot_pool m5)) as (t6 & R6 & W6 & E6); [done|ulia..|].
  simpl kvm_mem_slot_pool. rewrite R6. eexists. split; [reflexivity|]. split; intros []; simpl; auto.
Qed.

Lemma ResourceManager_new_inv size pe slot m :
  GUEST_PHYS_END size = Ret pe -> match slot with Some s => in_u32 s | None => True end ->
  ResourceManager_new pe slot = Ret m -> rm_inv pe m.
Proof.
  intros Hpe Hs E. destruct (ResourceManager_new_ok size pe slot Hpe Hs) as (m' & E' & W & He).
  rewrite E in E'. injection E' as <-. apply GUEST_PHYS_END_range in Hpe as [Hpe Hm].
  split; [done| |]; intros p; rewrite He; destruct p; try done.
  all: unfold initial_entries, pool_lo, pool_hi, GUEST_MEM_START.
  all: try (simpl; pose proof mmio_low_window; lia).
  1-2: simpl; pose proof mmio_low_window; split_and!; try done; intros e [= <-]; unfold ok_pair; simpl; intuition (congruence || lia).
  destruct slot; simpl in *; [ulia|unfold KVM_USER_MEM_SLOTS; ulia].
Qed.

(** ** The invariant is kept *)

Lemma chain_within {T} (es : list (Range * NodeState T)) lo hi lo' hi' :
  chain lo hi es -> (forall k d, (k, d) ∈ es -> lo' <= r_min k /\ r_max k <= hi') -> chain lo' hi' es.
Proof.
  revert lo lo'. induction es as [|[k d] es IH]; [done|]. simpl.
  intros lo lo' (H1 & H2 & H3) Hb. destruct (Hb k d); [set_solver|]. split_and!; [lia..|].
  apply (IH _ _ H3). intros k' d' He. destruct (Hb k' d'); [set_solver|].
  pose proof (chain_elem _ _ _ _ _ H3 He). lia.
Qed.

(** Handing out entries does not extend a pool. *)
Lemma holds_chain {T} (t0 t : IntervalTree T) L lo hi :
  holds t0 t L -> chain lo hi (entries t0) -> chain lo hi (entries t).
Proof.
  intros H Hc. pose proof (pool_chain _ (holds_wf _ _ _ H)) as Hct.
  apply (chain_within _ _ _ _ _ Hct). intros k d He.
  pose proof (chain_elem _ _ _ _ _ Hct He) as Hk.
  destruct d as [| |v].
  2, 3: assert (Hb : busy (entries t) k _) by (split; [exact He|done]);
    apply (holds_busy _ _ _ H) in Hb as [[Hb _]|Hb];
    [pose proof (chain_elem _ _ _ _ _ Hc Hb); lia | eapply holds_bounds; eauto; lia].
  assert (Hf : forall a, in_range a k -> lo <= a <= hi).
  { intros a Ha. assert (Hfr : free_addr (entries t) a) by (eapply addr_state_elem; eauto).
    apply (holds_free _ _ _ H) in Hfr as [Hfr _]. apply addr_state_some in Hfr as (k' & He' & Ha').
    pose proof (chain_elem _ _ _ _ _ Hc He'). unfold in_range in *. lia. }
  pose proof (Hf (r_min k)). pose proof (Hf (r_max k)). unfold in_range in *. lia.
Qed.

Lemma rm_ledger_inv pe m0 m C : rm_inv pe m0 -> rm_ledger m0 m C -> rm_inv pe m.
Proof.
  intros Hi H. split; intros p.
  - apply (holds_wf _ _ _ (H p)).
  - apply (holds_naf _ _ _ (H p)).
  - eapply holds_chain; [apply H|apply Hi].
Qed.

(** ** Properties *)

(** [ResourceManager::new] does not panic for any number of physical
    address bits the architecture code accepts and any limit of memory slots.
    Every pool starts as the listed ranges and satisfies the manager's
    invariant: balanced trees, disjoint ordered ranges inside the pool's
    numbers, no two free neighbours left unmerged. *)
Theorem ResourceManager_new_correct size pe slot :
  GUEST_PHYS_END size = Ret pe -> match slot with Some s => in_u32 s | None => True end ->
  exists m, ResourceManager_new pe slot = Ret m /\ rm_inv pe m /\
    forall p, entries (rm_pool m p) =
      initial_entries pe (match slot with Some s => s | None => KVM_USER_MEM_SLOTS end) p.
Proof.
  intros Hpe Hs. destruct (ResourceManager_new_ok size pe slot Hpe Hs) as (m & E & _ & He).
  exists m. split_and!; auto. by eapply ResourceManager_new_inv.
Qed.

Definition ex_phys_end : Z := Z.shiftl 1 46 - 1.

Lemma ResourceManager_new_correct_witness :
  exists m, ResourceManager_new ex_phys_end (Some 32) = Ret m /\ rm_inv ex_phys_end m /\
    forall p, entries (rm_pool m p) = initial_entries ex_phys_end 32 p.
Proof. apply (ResourceManager_new_correct 46 ex_phys_end (Some 32)); vm_compute; intuition congruence. Defined.

Lemma rm_holds_inv pe m0 m L : rm_inv pe m0 -> rm_holds m0 m L -> rm_inv pe m.
Proof. apply rm_ledger_inv. Qed.

(** C2. [allocate_device_resources] on every list of requests with fields of their types.
    The requests are answered in order up to the first that cannot be met, for which there
    is no fit in its pool.  The i-th resource answers the i-th request (size, alignment,
    range, kind), what is taken from one pool is disjoint and was free, and the manager
    keeps its invariant.  If all are met they are the result.  If not, what was taken is given
    back by [free_device_resources] and the error is [NoAvailResource] with all pools as
    before, except that giving back stops with an error at a range that ends at port 0xffff or at the last
    guest address, which stays taken with all after it, and panics at a request for several slots.
    [free_device_resources] of a result does the same. *)
Theorem allocate_device_resources_correct pe m0 requests shared :
  rm_inv pe m0 -> Forall req_typed requests ->
  exists G rest m1, requests = G.*1 ++ rest /\ Forall (answered shared) G /\
    (forall p, all_disjoint (taken p (grant_claim <$> G))) /\
    (forall p k d a, (k, d) ∈ taken p (grant_claim <$> G) -> in_range a k -> free_addr (entries (rm_pool m0 p)) a) /\
    rm_inv pe m1 /\ rm_ledger m0 m1 (grant_claim <$> G) /\
    match rest with
    | [] => allocate_device_resources pe m0 requests shared = Ret (Ok (mkDeviceResources G.*2), m1) /\
        match given_back pe G with
        | AllBack => exists m2, free_device_resources pe m1 (mkDeviceResources G.*2) = Ret (Ok tt, m2) /\ rm_same m0 m2
        | Refused what kept => exists m2, free_device_resources pe m1 (mkDeviceResources G.*2) = Ret (Err (InvalidResourceRange what), m2) /\
            rm_ledger m0 m2 (grant_claim <$> kept)
        | Dies => free_device_resources pe m1 (mkDeviceResources G.*2) = Panic
        end
    | req :: _ => unmet m1 shared req /\
        match given_back pe G with
        | AllBack => exists m2, allocate_device_resources pe m0 requests shared = Ret (Err NoAvailResource, m2) /\ rm_same m0 m2
        | Refused what kept => exists m2, allocate_device_resources pe m0 requests shared = Ret (Err (InvalidResourceRange what), m2) /\
            rm_ledger m0 m2 (grant_claim <$> kept)
        | Dies => allocate_device_resources pe m0 requests shared = Panic
        end
    end.
Proof.
  intros Hi Hr. destruct (allocate_resource_list_ok pe m0 shared requests m0 [] Hi) as (G & rest & m1 & E & Ha & H & Hok); auto.
  { by eapply rm_ledger_refl. }
  exists G, rest, m1. cbn [app] in *. split_and!; [done..| | | |done|].
  - intros p. apply (holds_disjoint _ _ _ (H p)).
  - intros p k d a. apply (holds_from _ _ _ (H p)).
  - by eapply rm_ledger_inv.
  - unfold requests_ok in Hok. destruct rest as [|req rest]; [|exact Hok]. split; [exact Hok|]. by apply (free_resource_list_ok pe m0 shared G m1).
Qed.

Definition ex_rm : ResourceManager :=
  match ResourceManager_new ex_phys_end None with Ret m => m | Panic => ResourceManager_default end.
Definition ex_requests : list ResourceConstraint :=
  [RC_PioAddress (Some (4096, 8191)) 4 8; RC_MmioAddress None 4096 8192; RC_PciMsiIrq 4;
   RC_LegacyIrq (Some 7); RC_KvmMemSlot None 1; RC_MemAddress (Some (0, 1048575)) 1 4096].

Lemma allocate_device_resources_correct_witness :
  exists G m1, ex_requests = G.*1 /\ Forall (answered false) G /\ rm_ledger ex_rm m1 (grant_claim <$> G) /\
    allocate_device_resources ex_phys_end ex_rm ex_requests false = Ret (Ok (mkDeviceResources G.*2), m1) /\
    exists m2, free_device_resources ex_phys_end m1 (mkDeviceResources G.*2) = Ret (Ok tt, m2) /\ rm_same ex_rm m2.
Proof.
  destruct (allocate_device_resources_correct ex_phys_end ex_rm ex_requests false) as (G & rest & m1 & E & Ha & _ & _ & _ & H & Hc).
  - apply (ResourceManager_new_inv 46 ex_phys_end None); [done..|]. by vm_compute.
  - repeat constructor; vm_compute; intuition congruence.
  - assert (Hrun : exists l m, allocate_device_resources ex_phys_end ex_rm ex_requests false = Ret (Ok (mkDeviceResources l), m) /\
      free_resource_list ex_phys_end m l <> Panic /\ forall e m', free_resource_list ex_phys_end m l <> Ret (Err e, m')).
    { eexists _, _. split; [vm_compute; reflexivity|]. split; [by vm_compute|]. intros e m'. by vm_compute. }
    destruct Hrun as (l & m & Erun & Hp & He). destruct rest as [|req rest].
    + destruct Hc as [Eal Hf]. rewrite app_nil_r in E. rewrite Erun in Eal. injection Eal as -> ->. exists G, m1. split_and!; [done..|].
      unfold free_device_resources in *. cbn [dr_vec] in *. destruct (given_back ex_phys_end G) as [|what kept|]; [exact Hf| |done].
      destruct Hf as (m2 & E2 & _). by apply He in E2.
    + exfalso. destruct Hc as [_ Hf]. destruct (given_back ex_phys_end G) as [|what kept|]; [destruct Hf as (m2 & E2 & _)..|]; congruence.
Defined.

(** ** What the code does at the edges *)

(** The 64 MB reserved below 4G are shifted down by one byte: the constraint's
    lower bound is [MMIO_LOW_END - MMIO_SPACE_RESERVED] with an inclusive end,
    so the last byte of the window is still handed out. *)
Lemma mmio_reservation_leaves_last_byte :
  let c := Constraint_max (Constraint_min (Constraint_new 1) 4294967295) 4294967295 in
  match allocate_mmio_address ex_rm c with
  | Ret (Some base, _) => base = MMIO_LOW_END
  | _ => False
  end.
Proof. by vm_compute. Qed.

(** A request for two memory slots is recorded as one slot, and freeing the
    device's resources then panics. *)
Lemma kvm_slots_free_panics :
  match allocate_device_resources ex_phys_end ex_rm [RC_KvmMemSlot None 2] false with
  | Ret (Ok res, m) => free_device_resources ex_phys_end m res = Panic
  | _ => False
  end.
Proof. by vm_compute. Qed.

(** A port range that ends at port 0xffff is handed out but cannot be freed. *)
Lemma pio_range_at_max_not_freed :
  match allocate_device_resources ex_phys_end ex_rm [RC_PioAddress (Some (65528, 65535)) 1 8] false with
  | Ret (Ok res, m) => match free_device_resources ex_phys_end m res with
                       | Ret (Err e, m') => e = InvalidResourceRange "PIO Address" /\ m' = m
                       | _ => False
                       end
  | _ => False
  end.
Proof. by vm_compute. Qed.

(** Nor can a memory range that ends at the last guest memory address. *)
Lemma mem_range_at_end_not_freed :
  let hi := GUEST_MEM_END ex_phys_end in
  match allocate_device_resources ex_phys_end ex_rm [RC_MemAddress (Some (hi - 4095, hi)) 1 4096] false with
  | Ret (Ok res, m) => match free_device_resources ex_phys_end m res with
                       | Ret (Err e, m') => e = InvalidResourceRange "MEM Address" /\ m' = m
                       | _ => False
                       end
  | _ => False
  end.
Proof. by vm_compute. Qed.
