(* ===== verification/BTreeMap.v ===== *)
(** [std::collections::BTreeMap] as the sources use it: a list of entries in
    strictly ascending key order.  The order of a key is an integer [ord k], and
    two keys with the same order are the same key for the map.  Inserting at a
    present key replaces the value and keeps the stored key, as documented for
    [BTreeMap::insert]. *)

From S2P Require Import Prelude.

Section BTreeMap.
Context {K V : Type} (ord : K -> Z).
Implicit Types (m : list (K * V)) (k : K) (v : V) (b : Z).

Fixpoint bt_get m b : option (K * V) :=
  match m with
  | [] => None
  | (k, v) :: m' => if ord k =? b then Some (k, v) else bt_get m' b
  end.

Definition bt_contains_key m k : bool := match bt_get m (ord k) with Some _ => true | None => false end.

(** [insert]: the previous value and the new map. *)
Fixpoint bt_insert m k v : option V * list (K * V) :=
  match m with
  | [] => (None, [(k, v)])
  | (k', v') :: m' =>
      if ord k <? ord k' then (None, (k, v) :: m)
      else if ord k =? ord k' then (Some v', (k', v) :: m')
      else let '(o, m'') := bt_insert m' k v in (o, (k', v') :: m'')
  end.

(** [remove]. *)
Fixpoint bt_remove m k : list (K * V) :=
  match m with
  | [] => []
  | (k', v') :: m' => if ord k =? ord k' then m' else (k', v') :: bt_remove m' k
  end.

(** [range(..=k).nth_back(0)]: the last entry whose key is at most [k]. *)
Fixpoint bt_last_le m k : option (K * V) :=
  match m with
  | [] => None
  | (k', v') :: m' =>
      if ord k' <=? ord k then
        match bt_last_le m' k with Some e => Some e | None => Some (k', v') end
      else None
  end.

(** ** Sorted maps *)

Fixpoint bt_above (lo : Z) m : Prop :=
  match m with
  | [] => True
  | (k, _) :: m' => lo < ord k /\ bt_above (ord k) m'
  end.

Definition bt_sorted m : Prop := match m with [] => True | (k, _) :: m' => bt_above (ord k) m' end.

Lemma bt_above_sorted lo m : bt_above lo m -> bt_sorted m.
Proof. destruct m as [|[k v] m]; simpl; tauto. Qed.

Lemma bt_above_weaken lo lo' m : bt_above lo m -> lo' <= lo -> bt_above lo' m.
Proof. destruct m as [|[k v] m]; simpl; [done|]. intros [? ?]. split; [lia|done]. Qed.

Lemma bt_sorted_above m : bt_sorted m -> exists lo, bt_above lo m.
Proof. destruct m as [|[k v] m]; [by exists 0|]. intros H. exists (ord k - 1). simpl. split; [lia|done]. Qed.

Lemma bt_above_elem lo m k v : bt_above lo m -> (k, v) ∈ m -> lo < ord k.
Proof.
  revert lo. induction m as [|[k' v'] m IH]; intros lo; [by intros _ ?%elem_of_nil|]. simpl.
  intros [H1 H2] He. apply elem_of_cons in He as [[= <- <-]|He]; [done|]. pose proof (IH _ H2 He). lia.
Qed.

Lemma bt_get_below lo m b : bt_above lo m -> b <= lo -> bt_get m b = None.
Proof.
  revert lo. induction m as [|[k v] m IH]; intros lo; [done|]. simpl. intros [? ?] ?.
  destruct (Z.eqb_spec (ord k) b); [lia|]. eapply IH; [done|lia].
Qed.

Lemma bt_get_elem m b k v : bt_get m b = Some (k, v) -> (k, v) ∈ m /\ ord k = b.
Proof.
  induction m as [|[k' v'] m IH]; [done|]. simpl. destruct (Z.eqb_spec (ord k') b).
  - intros [= <- <-]. set_solver.
  - intros [? ?]%IH. set_solver.
Qed.

Lemma bt_elem_get lo m k v : bt_above lo m -> (k, v) ∈ m -> bt_get m (ord k) = Some (k, v).
Proof.
  revert lo. induction m as [|[k' v'] m IH]; intros lo; [by intros _ ?%elem_of_nil|]. simpl.
  intros [H1 H2] He. apply elem_of_cons in He as [[= <- <-]|He]; [by rewrite Z.eqb_refl|].
  pose proof (bt_above_elem _ _ _ _ H2 He). destruct (Z.eqb_spec (ord k') (ord k)); [lia|]. eauto.
Qed.

(** Sorted maps with the same entries are equal. *)
Lemma bt_ext_above m m' lo lo' :
  bt_above lo m -> bt_above lo' m' -> (forall b, bt_get m b = bt_get m' b) -> m = m'.
Proof.
  revert m' lo lo'. induction m as [|[k v] m IH]; intros [|[k' v'] m'] lo lo'; simpl; auto.
  - intros _ _ H. specialize (H (ord k')). by rewrite Z.eqb_refl in H.
  - intros _ _ H. specialize (H (ord k)). by rewrite Z.eqb_refl in H.
  - intros [_ H1] [_ H2] H.
    assert (Hk : ord k = ord k').
    { pose proof (H (ord k)) as Ha. pose proof (H (ord k')) as Hb. rewrite Z.eqb_refl in *.
      destruct (Z.eqb_spec (ord k') (ord k)); [done|]. destruct (Z.eqb_spec (ord k) (ord k')); [done|].
      symmetry in Ha. apply bt_get_elem in Ha as [Ha _], Hb as [Hb _].
      pose proof (bt_above_elem _ _ _ _ H1 Hb). pose proof (bt_above_elem _ _ _ _ H2 Ha). lia. }
    pose proof (H (ord k)) as Ha. rewrite Z.eqb_refl, <- Hk, Z.eqb_refl in Ha. injection Ha as -> ->.
    f_equal. apply (IH m' _ _ H1 H2). intros b. specialize (H b).
    destruct (Z.eqb_spec (ord k') b) as [Hb|]; [|done].
    rewrite (bt_get_below (ord k') m b), (bt_get_below (ord k') m' b); auto; lia.
Qed.

Lemma bt_ext m m' : bt_sorted m -> bt_sorted m' -> (forall b, bt_get m b = bt_get m' b) -> m = m'.
Proof. intros [lo H]%bt_sorted_above [lo' H']%bt_sorted_above. by apply bt_ext_above with lo lo'. Qed.

(** ** The operations on sorted maps *)

Lemma bt_insert_above m k v lo : bt_above lo m -> lo < ord k -> bt_above lo (bt_insert m k v).2.
Proof.
  revert lo. induction m as [|[k' v'] m IH]; intros lo; simpl; [done|]. intros [H1 H2] Hk.
  case_goal; [simpl; bools; auto|]. case_goal; [done|]. bools.
  specialize (IH (ord k') H2 ltac:(lia)). destruct (bt_insert m k v) as [o m'']. done.
Qed.

Lemma bt_insert_sorted m k v : bt_sorted m -> bt_sorted (bt_insert m k v).2.
Proof.
  intros [lo H]%bt_sorted_above. apply (bt_above_sorted (Z.min lo (ord k - 1))).
  apply bt_insert_above; [eapply bt_above_weaken; [done|lia]|lia].
Qed.

Lemma bt_insert_get_above m k v lo b :
  bt_above lo m ->
  (bt_insert m k v).1 = snd <$> bt_get m (ord k) /\
  bt_get (bt_insert m k v).2 b =
    if b =? ord k then Some (match bt_get m (ord k) with Some (k', _) => k' | None => k end, v)
    else bt_get m b.
Proof.
  revert lo. induction m as [|[k' v'] m IH]; intros lo; simpl.
  { intros _. split; [done|]. rewrite (Z.eqb_sym b). by case_goal. }
  intros [H1 H2]. destruct (Z.ltb_spec (ord k) (ord k')).
  { destruct (Z.eqb_spec (ord k') (ord k)); [lia|]. rewrite (bt_get_below (ord k') m) by (auto; lia).
    split; [done|]. simpl. rewrite (Z.eqb_sym b). done. }
  destruct (Z.eqb_spec (ord k) (ord k')) as [E|E].
  { rewrite E, Z.eqb_refl. split; [done|]. simpl. rewrite (Z.eqb_sym b). by case_goal. }
  destruct (Z.eqb_spec (ord k') (ord k)); [lia|].
  destruct (IH _ H2) as [IH1 IH2]. destruct (bt_insert m k v) as [o m'']. simpl in *.
  split; [done|]. rewrite IH2. destruct (Z.eqb_spec (ord k') b), (Z.eqb_spec b (ord k)); done || lia.
Qed.

Lemma bt_insert_get m k v b :
  bt_sorted m ->
  (bt_insert m k v).1 = snd <$> bt_get m (ord k) /\
  bt_get (bt_insert m k v).2 b =
    if b =? ord k then Some (match bt_get m (ord k) with Some (k', _) => k' | None => k end, v)
    else bt_get m b.
Proof. intros [lo H]%bt_sorted_above. by apply (bt_insert_get_above m k v lo b). Qed.

Lemma bt_remove_above m k lo : bt_above lo m -> bt_above lo (bt_remove m k).
Proof.
  revert lo. induction m as [|[k' v'] m IH]; intros lo; simpl; [done|]. intros [H1 H2].
  case_goal; [eapply bt_above_weaken; [done|lia]|]. simpl. auto.
Qed.

Lemma bt_remove_sorted m k : bt_sorted m -> bt_sorted (bt_remove m k).
Proof. intros [lo H]%bt_sorted_above. eapply bt_above_sorted, bt_remove_above, H. Qed.

Lemma bt_remove_get m k b :
  bt_sorted m -> bt_get (bt_remove m k) b = if b =? ord k then None else bt_get m b.
Proof.
  intros [lo H]%bt_sorted_above. revert lo H. induction m as [|[k' v'] m IH]; intros lo; simpl.
  { by case_goal. }
  intros [H1 H2]. destruct (Z.eqb_spec (ord k) (ord k')) as [E|E].
  - destruct (Z.eqb_spec b (ord k)) as [Eb|].
    + apply (bt_get_below (ord k')); [done|lia].
    + destruct (Z.eqb_spec (ord k') b); [lia|done].
  - simpl. rewrite (IH _ H2). destruct (Z.eqb_spec (ord k') b), (Z.eqb_spec b (ord k)); done || lia.
Qed.

(** The entry found by [bt_last_le] is the greatest at or below the key. *)
Lemma bt_last_le_spec m k :
  bt_sorted m ->
  match bt_last_le m k with
  | Some (k', v') => (k', v') ∈ m /\ ord k' <= ord k /\
      (forall k2 v2, (k2, v2) ∈ m -> ord k2 <= ord k -> ord k2 <= ord k')
  | None => forall k2 v2, (k2, v2) ∈ m -> ord k < ord k2
  end.
Proof.
  intros [lo H]%bt_sorted_above. revert lo H. induction m as [|[k' v'] m IH]; intros lo; simpl.
  { intros _ k2 v2 ?%elem_of_nil. done. }
  intros [H1 H2]. specialize (IH _ H2).
  destruct (Z.leb_spec (ord k') (ord k)) as [Hle|Hgt].
  - destruct (bt_last_le m k) as [[k1 v1]|].
    + destruct IH as (He & Hk & Hmax). split_and!; [set_solver|done|].
      intros k2 v2 [[= -> ->]|He2]%elem_of_cons Hk2; [|by eapply Hmax].
      pose proof (bt_above_elem _ _ _ _ H2 He). lia.
    + split_and!; [set_solver|done|]. intros k2 v2 [[= -> ->]|He2]%elem_of_cons Hk2; [lia|].
      pose proof (IH _ _ He2). lia.
  - intros k2 v2 [[= -> ->]|He2]%elem_of_cons; [lia|].
    pose proof (bt_above_elem _ _ _ _ H2 He2). lia.
Qed.

End BTreeMap.
