(* ===== verification/IoManager.v ===== *)
(** The IO manager (src/src/dragonball/src/dbs_device/src/device_manager.rs and
    the address types of lib.rs): registration of a device's trapped address
    ranges on the port and memory buses, and dispatch of guest accesses.

    A device is a value of a type [D] that implements [DeviceIo]; the effect of
    a device callback on the world [W] and on the data buffer is the class's.
    The buses are [BTreeMap]s keyed by the base address alone. *)

From S2P Require Import Prelude Resources BTreeMap.

(** ** Addresses and sizes (lib.rs)

    [IoAddress], [IoSize] wrap a [u64], [PioAddress], [PioSize] a [u16]; they
    are their raw values here.  The checked conversions: *)

Definition PioSize_try_from (size : Z) : result Z Z :=
  if size <=? u16_max then Ok (as_u16 size) else Err size.
Definition PioAddress_try_from (addr : Z) : result Z Z :=
  if addr <=? u16_max then Ok (as_u16 addr) else Err addr.

(** [trait DeviceIo]: callbacks with the base address and the offset. *)
Class DeviceIo (D W : Type) := {
  dev_read : D -> Z -> Z -> list Z -> W -> list Z * W;
  dev_write : D -> Z -> Z -> list Z -> W -> W;
  dev_pio_read : D -> Z -> Z -> list Z -> W -> list Z * W;
  dev_pio_write : D -> Z -> Z -> list Z -> W -> W;
  get_trapped_io_resources : D -> W -> DeviceResources }.

Inductive IoError := DeviceOverlap | NoDevice.

(** [struct IoRange]; [Ord] and [PartialEq] compare the base only. *)
Record IoRange := mkIoRange { io_base : Z; io_size : Z }.
Definition new_pio_range (base size : Z) : IoRange := mkIoRange base size.
Definition new_mmio_range (base size : Z) : IoRange := mkIoRange base size.

Abbreviation bus D := (list (IoRange * D)).

(** [struct IoManager]. *)
Record IoManager (D : Type) := mkIoManager { pio_bus : bus D; mmio_bus : bus D }.
Arguments mkIoManager {D}.
Arguments pio_bus {D}.
Arguments mmio_bus {D}.

Section IoManager.
Context {D : Type}.
Implicit Types (m : IoManager D) (device : D).

Definition IoManager_new : IoManager D := mkIoManager [] [].

(** [unregister_device_io]. *)
Fixpoint unregister_device_io m (resources : list Resource) : result unit IoError * IoManager D :=
  match resources with
  | [] => (Ok tt, m)
  | PioAddressRange base size :: rest =>
      unregister_device_io (mkIoManager (bt_remove io_base (pio_bus m) (new_pio_range base size)) (mmio_bus m)) rest
  | MmioAddressRange base size :: rest =>
      unregister_device_io (mkIoManager (pio_bus m) (bt_remove io_base (mmio_bus m) (new_mmio_range base size))) rest
  | _ :: rest => unregister_device_io m rest
  end.

(** The rollback: [self.unregister_device_io(&resources[0..idx]).expect(..)], then
    [Err(DeviceOverlap)]. *)
Definition rollback m (registered : list Resource) : outcome (result unit IoError * IoManager D) :=
  match unregister_device_io m registered with
  | (Ok _, m) => Ret (Err DeviceOverlap, m)
  | (Err _, _) => Panic
  end.

(** The loop of [register_device_io]; [registered] is [resources[0..idx]]. *)
Fixpoint register_loop m device (registered resources : list Resource) :
    outcome (result unit IoError * IoManager D) :=
  match resources with
  | [] => Ret (Ok tt, m)
  | res :: rest =>
      match res with
      | PioAddressRange base size =>
          let '(old, b) := bt_insert io_base (pio_bus m) (new_pio_range base size) device in
          let m := mkIoManager b (mmio_bus m) in
          match old with
          | Some _ => rollback m registered
          | None => register_loop m device (registered ++ [res]) rest
          end
      | MmioAddressRange base size =>
          let '(old, b) := bt_insert io_base (mmio_bus m) (new_mmio_range base size) device in
          let m := mkIoManager (pio_bus m) b in
          match old with
          | Some _ => rollback m registered
          | None => register_loop m device (registered ++ [res]) rest
          end
      | _ => register_loop m device (registered ++ [res]) rest
      end
  end.

Definition register_device_io m device (resources : list Resource) :
    outcome (result unit IoError * IoManager D) :=
  register_loop m device [] resources.

(** [get_mmio_device]. *)
Definition get_mmio_device m (addr : Z) : outcome (option (D * Z)) :=
  let range := new_mmio_range addr 0 in
  match bt_last_le io_base (mmio_bus m) range with
  | Some (range, dev) =>
      let! off := sub_u addr (io_base range) in
      if off <? io_size range then Ret (Some (dev, io_base range)) else Ret None
  | None => Ret None
  end.

(** [get_pio_device]. *)
Definition get_pio_device m (addr : Z) : outcome (option (D * Z)) :=
  let range := new_pio_range addr 0 in
  match bt_last_le io_base (pio_bus m) range with
  | Some (range, dev) =>
      let! off := sub_u addr (io_base range) in
      if off <? io_size range then Ret (Some (dev, as_u16 (io_base range))) else Ret None
  | None => Ret None
  end.

Section Dispatch.
Context {W : Type} `{DeviceIo D W}.

Definition mmio_read m (addr : Z) (data : list Z) (w : W) : outcome (result unit IoError * list Z * W) :=
  let! o := get_mmio_device m addr in
  match o with
  | Some (device, base) =>
      let! off := sub_u addr base in
      let '(data, w) := dev_read device base off data w in Ret (Ok tt, data, w)
  | None => Ret (Err NoDevice, data, w)
  end.

Definition mmio_write m (addr : Z) (data : list Z) (w : W) : outcome (result unit IoError * W) :=
  let! o := get_mmio_device m addr in
  match o with
  | Some (device, base) =>
      let! off := sub_u addr base in
      Ret (Ok tt, dev_write device base off data w)
  | None => Ret (Err NoDevice, w)
  end.

Definition pio_read m (addr : Z) (data : list Z) (w : W) : outcome (result unit IoError * list Z * W) :=
  let! o := get_pio_device m addr in
  match o with
  | Some (device, base) =>
      let! off := sub_u addr base in
      let '(data, w) := dev_pio_read device base off data w in Ret (Ok tt, data, w)
  | None => Ret (Err NoDevice, data, w)
  end.

Definition pio_write m (addr : Z) (data : list Z) (w : W) : outcome (result unit IoError * W) :=
  let! o := get_pio_device m addr in
  match o with
  | Some (device, base) =>
      let! off := sub_u addr base in
      Ret (Ok tt, dev_pio_write device base off data w)
  | None => Ret (Err NoDevice, w)
  end.

(** [impl PartialEq for IoManager]: equal sizes, the same keys, and devices with
    the same trapped resources. *)
Definition bus_same (w : W) (b1 b2 : bus D) : bool :=
  forallb (fun '(r, d) =>
    match bt_get io_base b2 (io_base r) with
    | Some (_, d') =>
        bool_decide (dr_vec (get_trapped_io_resources d w) = dr_vec (get_trapped_io_resources d' w))
    | None => false
    end) b1.

Definition IoManager_eq (w : W) (m1 m2 : IoManager D) : bool :=
  bool_decide (length (pio_bus m1) = length (pio_bus m2)) &&
  bool_decide (length (mmio_bus m1) = length (mmio_bus m2)) &&
  bus_same w (pio_bus m1) (pio_bus m2) && bus_same w (mmio_bus m1) (mmio_bus m2).

End Dispatch.
End IoManager.
