(* ===== verification/IoManagerSpec.v ===== *)
(** Properties of the IO manager: what registration does to the two buses on
    every path, that unregistering undoes it, and that dispatch reaches the
    device whose range holds the address. *)

From S2P Require Import Prelude Resources BTreeMap IoManager.

(** ** Buses as partial maps *)

Inductive BusId := PioBus | MmioBus.

#[global] Instance BusId_eq_dec : EqDecision BusId.
Proof. solve_decision. Defined.

(** The bus and range a resource traps. *)
Definition trapped (res : Resource) : option (BusId * IoRange) :=
  match res with
  | PioAddressRange base size => Some (PioBus, mkIoRange base size)
  | MmioAddressRange base size => Some (MmioBus, mkIoRange base size)
  | _ => None
  end.

(** The range with base [b] on the bus [id] among [resources]. *)
Fixpoint range_of (resources : list Resource) (id : BusId) (b : Z) : option IoRange :=
  match resources with
  | [] => None
  | res :: rest =>
      match trapped res with
      | Some (id', r) => if bool_decide (id' = id) && (io_base r =? b) then Some r else range_of rest id b
      | None => range_of rest id b
      end
  end.

Section Spec.
Context {D : Type}.
Implicit Types (m : IoManager D) (device : D) (id : BusId) (b : Z).

Definition bus_at m id : bus D := match id with PioBus => pio_bus m | MmioBus => mmio_bus m end.
Definition set_bus m id (x : bus D) : IoManager D :=
  match id with PioBus => mkIoManager x (mmio_bus m) | MmioBus => mkIoManager (pio_bus m) x end.
Definition at_base m id b : option (IoRange * D) := bt_get io_base (bus_at m id) b.

Definition iom_wf m : Prop := forall id, bt_sorted io_base (bus_at m id).

Lemma iom_ext m m' : iom_wf m -> iom_wf m' -> (forall id b, at_base m id b = at_base m' id b) -> m = m'.
Proof.
  intros H H' He. destruct m as [p q], m' as [p' q']. f_equal.
  - apply (bt_ext io_base); [apply (H PioBus)|apply (H' PioBus)|apply (He PioBus)].
  - apply (bt_ext io_base); [apply (H MmioBus)|apply (H' MmioBus)|apply (He MmioBus)].
Qed.

Lemma at_base_set m id x id' b :
  at_base (set_bus m id x) id' b = if decide (id' = id) then bt_get io_base x b else at_base m id' b.
Proof. by destruct id, id'. Qed.

Lemma set_bus_wf m id x : iom_wf m -> bt_sorted io_base x -> iom_wf (set_bus m id x).
Proof. intros H Hx id'. pose proof (H id'). by destruct id, id'. Qed.

(** ** Unregistering *)

Lemma unregister_cons m res rest :
  unregister_device_io m (res :: rest) =
  unregister_device_io
    (match trapped res with
     | Some (id, r) => set_bus m id (bt_remove io_base (bus_at m id) r)
     | None => m
     end) rest.
Proof. by destruct res. Qed.

(** Unregistering succeeds and removes exactly the bases of the resources. *)
Lemma unregister_ok resources m :
  iom_wf m ->
  exists m', unregister_device_io m resources = (Ok tt, m') /\ iom_wf m' /\
    forall id b, at_base m' id b =
      match range_of resources id b with Some _ => None | None => at_base m id b end.
Proof.
  revert m. induction resources as [|res rest IH]; intros m Hwf; [by exists m|].
  rewrite unregister_cons. simpl. destruct (trapped res) as [[id r]|]; [|by apply IH].
  destruct (IH (set_bus m id (bt_remove io_base (bus_at m id) r))) as (m' & E & Hwf' & Hg).
  { apply set_bus_wf; [done|]. apply bt_remove_sorted, Hwf. }
  exists m'. split_and!; auto. intros id' b. rewrite Hg, at_base_set.
  destruct (decide (id' = id)) as [->|Hne].
  - rewrite bool_decide_eq_true_2 by done. simpl. rewrite bt_remove_get by apply Hwf.
    rewrite (Z.eqb_sym (io_base r)). destruct (b =? io_base r); [by destruct (range_of rest id b)|done].
  - by rewrite bool_decide_eq_false_2 by congruence.
Qed.

(** ** Registering *)

(** The bases of [resources] are new to [m] and pairwise distinct. *)
Fixpoint no_conflict m (resources : list Resource) : Prop :=
  match resources with
  | [] => True
  | res :: rest =>
      no_conflict m rest /\
      match trapped res with
      | Some (id, r) => at_base m id (io_base r) = None /\ range_of rest id (io_base r) = None
      | None => True
      end
  end.

(** [m] is [m0] with the ranges of [resources] served by [device]. *)
Definition extends m0 m device (resources : list Resource) : Prop :=
  forall id b, at_base m id b =
    match range_of resources id b with Some r => Some (r, device) | None => at_base m0 id b end.

Lemma range_of_app rs1 rs2 id b :
  range_of (rs1 ++ rs2) id b = match range_of rs1 id b with Some r => Some r | None => range_of rs2 id b end.
Proof.
  induction rs1 as [|res rs1 IH]; simpl; [done|]. destruct (trapped res) as [[id' r]|]; [|done].
  by case_goal.
Qed.

Lemma range_of_single res id r id' b :
  trapped res = Some (id, r) ->
  range_of [res] id' b = if bool_decide (id = id') && (io_base r =? b) then Some r else None.
Proof. intros E. simpl. by rewrite E. Qed.

Lemma no_conflict_app m rs1 rs2 :
  no_conflict m (rs1 ++ rs2) <->
  no_conflict m rs1 /\ no_conflict m rs2 /\
  forall id b, range_of rs1 id b <> None -> range_of rs2 id b = None.
Proof.
  induction rs1 as [|res rs1 IH]; simpl; [naive_solver|]. rewrite IH. clear IH.
  destruct (trapped res) as [[id r]|]; [|naive_solver]. rewrite range_of_app. split.
  - intros ((H1 & H2 & H3) & Ha & Hb). destruct (range_of rs1 id (io_base r)) eqn:E; [done|].
    split_and!; auto. intros id' b. destruct (bool_decide_reflect (id = id')) as [<-|]; simpl; [|by apply H3].
    destruct (Z.eqb_spec (io_base r) b) as [<-|]; [done|by apply H3].
  - intros ((H1 & Ha & Hb) & H2 & H3). split_and!; auto.
    + intros id' b Hr. apply H3. by case_goal.
    + rewrite Hb. apply H3. by rewrite bool_decide_eq_true_2, Z.eqb_refl.
Qed.

Lemma no_conflict_fresh m rs id b : no_conflict m rs -> range_of rs id b <> None -> at_base m id b = None.
Proof.
  induction rs as [|res rs IH]; simpl; [done|]. intros [H1 H2].
  destruct (trapped res) as [[id' r]|]; [|by apply IH].
  destruct (bool_decide_reflect (id' = id)) as [<-|]; simpl; [|by apply IH].
  destruct (Z.eqb_spec (io_base r) b) as [<-|]; [by destruct H2|by apply IH].
Qed.

(** What a failed registration leaves: at the conflicting base the registered
    range keeps its size but is served by the new device. *)
Definition replaced m0 m device id b : Prop :=
  forall id' b', at_base m id' b' =
    if bool_decide (id' = id) && (b' =? b) then (fun e => (e.1, device)) <$> at_base m0 id b
    else at_base m0 id' b'.

Lemma register_cons m device registered res rest :
  register_loop m device registered (res :: rest) =
  match trapped res with
  | Some (id, r) =>
      match (bt_insert io_base (bus_at m id) r device).1 with
      | Some _ => rollback (set_bus m id (bt_insert io_base (bus_at m id) r device).2) registered
      | None => register_loop (set_bus m id (bt_insert io_base (bus_at m id) r device).2) device
                  (registered ++ [res]) rest
      end
  | None => register_loop m device (registered ++ [res]) rest
  end.
Proof. destruct res; simpl; try done; by destruct (bt_insert _ _ _ _). Qed.

(** The insertion of one resource, before the test of its result. *)
Lemma insert_at m id r device id' b :
  iom_wf m ->
  at_base (set_bus m id (bt_insert io_base (bus_at m id) r device).2) id' b =
  if bool_decide (id' = id) && (b =? io_base r)
  then Some (match at_base m id (io_base r) with Some (k, _) => k | None => r end, device)
  else at_base m id' b.
Proof.
  intros Hwf. rewrite at_base_set. destruct (decide (id' = id)) as [->|Hne].
  - rewrite bool_decide_eq_true_2 by done. simpl. by apply bt_insert_get.
  - by rewrite bool_decide_eq_false_2 by done.
Qed.

(** Rolling back after a conflict on [res]. *)
Lemma rollback_ok m0 m device registered id r :
  iom_wf m -> extends m0 m device registered -> no_conflict m0 registered ->
  at_base m id (io_base r) <> None ->
  exists m', rollback (set_bus m id (bt_insert io_base (bus_at m id) r device).2) registered =
      Ret (Err DeviceOverlap, m') /\ iom_wf m' /\ replaced m0 m' device id (io_base r).
Proof.
  intros Hwf Hx Hn Hc. unfold rollback.
  destruct (unregister_ok registered (set_bus m id (bt_insert io_base (bus_at m id) r device).2))
    as (m' & -> & Hwf' & Hg).
  { apply set_bus_wf; [done|]. apply bt_insert_sorted, Hwf. }
  exists m'. split_and!; auto. intros id' b. rewrite Hg, insert_at by done.
  pose proof (no_conflict_fresh _ _ id' b Hn) as Hf. pose proof (Hx id' b) as Hxb.
  destruct (bool_decide_reflect (id' = id)) as [->|]; simpl.
  - destruct (Z.eqb_spec b (io_base r)) as [->|].
    + destruct (range_of registered id (io_base r)) eqn:E.
      * by rewrite Hf.
      * rewrite Hxb. rewrite Hxb in Hc. by destruct (at_base m0 id (io_base r)) as [[k d]|].
    + destruct (range_of registered id b) eqn:E; [by rewrite Hf|done].
  - destruct (range_of registered id' b) eqn:E; [by rewrite Hf|done].
Qed.

Lemma register_loop_ok m0 device rest m registered :
  iom_wf m -> extends m0 m device registered -> no_conflict m0 registered ->
  exists r m', register_loop m device registered rest = Ret (r, m') /\ iom_wf m' /\
    match r with
    | Ok _ => no_conflict m0 (registered ++ rest) /\ extends m0 m' device (registered ++ rest)
    | Err e => e = DeviceOverlap /\ ~ no_conflict m0 (registered ++ rest) /\
        exists id b, replaced m0 m' device id b
    end.
Proof.
  revert m registered. induction rest as [|res rest IH]; intros m reg Hwf Hx Hn.
  { exists (Ok tt), m. rewrite app_nil_r. done. }
  rewrite register_cons, (cons_middle res reg rest), (app_assoc reg).
  destruct (trapped res) as [[id r]|] eqn:Et.
  - destruct (bt_insert_get io_base (bus_at m id) r device 0 (Hwf id)) as [-> _].
    fold (at_base m id (io_base r)). destruct (at_base m id (io_base r)) as [[k d]|] eqn:Eg; simpl.
    + destruct (rollback_ok m0 m device reg id r) as (m' & -> & Hwf' & Hr); auto; [by rewrite Eg|].
      exists (Err DeviceOverlap), m'. split_and!; auto; [|eauto].
      rewrite !no_conflict_app. intros ((_ & [_ H1] & H2) & _). rewrite Et in H1.
      rewrite (Hx id (io_base r)) in Eg. specialize (H2 id (io_base r)).
      simpl in H2. rewrite Et, bool_decide_eq_true_2, Z.eqb_refl in H2 by done.
      destruct (range_of reg id (io_base r)) eqn:E; [by discriminate H2|]. destruct H1. congruence.
    + apply IH.
      * apply set_bus_wf; [done|]. apply bt_insert_sorted, Hwf.
      * intros id' b. rewrite insert_at, Eg, range_of_app, (range_of_single _ _ _ _ _ Et) by done.
        rewrite (Z.eqb_sym b), (bool_decide_ext (id' = id) (id = id')) by done.
        pose proof (Hx id' b) as Hb.
        destruct (bool_decide_reflect (id = id')) as [<-|]; simpl; [|by destruct (range_of reg id' b)].
        destruct (Z.eqb_spec (io_base r) b) as [<-|]; [|by destruct (range_of reg id b)].
        destruct (range_of reg id (io_base r)); congruence.
      * apply no_conflict_app. rewrite Hx in Eg. destruct (range_of reg id (io_base r)) eqn:E; [done|].
        split_and!; auto; simpl; [by rewrite Et|]. intros id' b Hr. rewrite Et.
        destruct (bool_decide_reflect (id = id')) as [<-|]; simpl; [|done].
        destruct (Z.eqb_spec (io_base r) b) as [<-|]; [congruence|done].
  - apply IH; auto.
    + intros id b. rewrite range_of_app. simpl. rewrite Et, Hx. by destruct (range_of reg id b).
    + apply no_conflict_app. simpl. rewrite Et. auto.
Qed.

(** ** Dispatch *)

(** The ranges of a bus do not overlap. *)
Definition bus_disjoint (x : bus D) : Prop :=
  forall r1 d1 r2 d2, (r1, d1) ∈ x -> (r2, d2) ∈ x -> io_base r1 < io_base r2 ->
    io_base r1 + io_size r1 <= io_base r2.

(** [d] serves the address [a] with the range based at [base]. *)
Definition serves (x : bus D) (a base : Z) (d : D) : Prop :=
  exists r, (r, d) ∈ x /\ io_base r = base /\ base <= a < base + io_size r.

Lemma last_le_serves (x : bus D) a :
  bt_sorted io_base x -> bus_disjoint x ->
  (forall base d, serves x a base d <->
     match bt_last_le io_base x (mkIoRange a 0) with
     | Some (r, d') => io_base r = base /\ d' = d /\ a - io_base r < io_size r
     | None => False
     end) /\
  match bt_last_le io_base x (mkIoRange a 0) with Some (r, _) => io_base r <= a | None => True end.
Proof.
  intros Hs Hd. pose proof (bt_last_le_spec io_base x (mkIoRange a 0) Hs) as Hl.
  destruct (bt_last_le _ _ _) as [[r d']|]; simpl in *.
  - destruct Hl as (He & Hle & Hmax). split; [|done]. intros base d. split.
    + intros (r2 & He2 & <- & Ha). pose proof (Hmax _ _ He2 ltac:(lia)) as Hm.
      destruct (Z.eq_dec (io_base r2) (io_base r)) as [E|Hne].
      * apply bt_sorted_above in Hs as [lo Hs]. pose proof (bt_elem_get _ _ _ _ _ Hs He) as G1.
        pose proof (bt_elem_get _ _ _ _ _ Hs He2) as G2. rewrite E, G1 in G2. injection G2 as -> ->.
        split_and!; auto. lia.
      * pose proof (Hd _ _ _ _ He2 He ltac:(lia)). lia.
    + intros (<- & <- & Ho). exists r. split_and!; auto; lia.
  - split; [|done]. intros base d. split; [|done]. intros (r & He & <- & Ha).
    specialize (Hl _ _ He). lia.
Qed.

Lemma get_mmio_device_ok m a :
  iom_wf m -> bus_disjoint (mmio_bus m) ->
  exists o, get_mmio_device m a = Ret o /\
    forall d base, o = Some (d, base) <-> serves (mmio_bus m) a base d.
Proof.
  intros Hwf Hd. destruct (last_le_serves (mmio_bus m) a (Hwf MmioBus) Hd) as [Hs Hle].
  unfold get_mmio_device, new_mmio_range. destruct (bt_last_le _ _ _) as [[r d']|].
  - rewrite sub_u_ret by done. cbn [obind]. destruct (Z.ltb_spec (a - io_base r) (io_size r)).
    + eexists. split; [reflexivity|]. intros d base. rewrite Hs. naive_solver.
    + exists None. split; [done|]. intros d base. rewrite Hs. naive_solver lia.
  - exists None. split; [done|]. intros d base. rewrite Hs. done.
Qed.

Definition pio_typed (x : bus D) : Prop := forall r d, (r, d) ∈ x -> in_u16 (io_base r).

Lemma get_pio_device_ok m a :
  iom_wf m -> bus_disjoint (pio_bus m) -> pio_typed (pio_bus m) ->
  exists o, get_pio_device m a = Ret o /\
    forall d base, o = Some (d, base) <-> serves (pio_bus m) a base d.
Proof.
  intros Hwf Hd Ht. destruct (last_le_serves (pio_bus m) a (Hwf PioBus) Hd) as [Hs Hle].
  pose proof (bt_last_le_spec io_base (pio_bus m) (mkIoRange a 0) (Hwf PioBus)) as Hl.
  unfold get_pio_device, new_pio_range. destruct (bt_last_le _ _ _) as [[r d']|].
  - destruct Hl as [He _]. apply Ht in He. rewrite sub_u_ret by done. cbn [obind].
    unfold as_u16. rewrite Z.mod_small by ulia.
    destruct (Z.ltb_spec (a - io_base r) (io_size r)).
    + eexists. split; [reflexivity|]. intros d base. rewrite Hs. naive_solver.
    + exists None. split; [done|]. intros d base. rewrite Hs. naive_solver lia.
  - exists None. split; [done|]. intros d base. rewrite Hs. done.
Qed.

End Spec.

(** ** Properties *)

(** Registration on every path.  [register_device_io] never panics, its
    rollback included.  It succeeds exactly when no base address is registered
    or repeated; then the device serves its ranges, everything else is as
    before, and unregistering the same resources restores the manager.  When it
    fails the error is [DeviceOverlap] and the manager is as before except at
    the conflicting base, where the old range is now served by the new device. *)
Theorem register_device_io_correct {D} (m : IoManager D) device resources :
  iom_wf m ->
  exists r m', register_device_io m device resources = Ret (r, m') /\ iom_wf m' /\
    match r with
    | Ok _ => no_conflict m resources /\ extends m m' device resources /\
        unregister_device_io m' resources = (Ok tt, m)
    | Err e => e = DeviceOverlap /\ ~ no_conflict m resources /\
        exists id b, replaced m m' device id b
    end.
Proof.
  intros Hwf. destruct (register_loop_ok m device resources m [] Hwf) as (r & m' & E & Hwf' & H); [done..|].
  exists r, m'. split_and!; auto. destruct r as [u|e]; [|done]. destruct H as [Hn Hx].
  simpl in Hn, Hx. split_and!; auto.
  destruct (unregister_ok resources m' Hwf') as (m2 & -> & Hwf2 & Hg). f_equal.
  apply iom_ext; auto. intros id b. rewrite Hg.
  destruct (range_of resources id b) eqn:Er.
  - symmetry. apply (no_conflict_fresh m resources); [done|]. by rewrite Er.
  - by rewrite (Hx id b), Er.
Qed.

Definition ex_iom : IoManager nat :=
  mkIoManager [(mkIoRange 64 4, 1%nat)] [(mkIoRange 4096 4096, 1%nat)].

Lemma register_device_io_correct_witness :
  exists r m', register_device_io ex_iom 2%nat [MmioAddressRange 8192 4096; PioAddressRange 96 8] = Ret (r, m') /\
    iom_wf m' /\
    match r with
    | Ok _ => no_conflict ex_iom [MmioAddressRange 8192 4096; PioAddressRange 96 8] /\
        extends ex_iom m' 2%nat [MmioAddressRange 8192 4096; PioAddressRange 96 8] /\
        unregister_device_io m' [MmioAddressRange 8192 4096; PioAddressRange 96 8] = (Ok tt, ex_iom)
    | Err e => e = DeviceOverlap /\ ~ no_conflict ex_iom [MmioAddressRange 8192 4096; PioAddressRange 96 8] /\
        exists id b, replaced ex_iom m' 2%nat id b
    end.
Proof. apply (register_device_io_correct ex_iom). by intros []. Defined.

(** Dispatch.  On buses without overlapping ranges, every access returns
    without panic.  It reaches the device whose range holds the address, with
    that range's base and the offset from it, and is [NoDevice] with the data
    and the world unchanged exactly when no range holds the address. *)
Theorem dispatch_correct {D W} `{DeviceIo D W} (m : IoManager D) a data (w : W) :
  iom_wf m -> bus_disjoint (mmio_bus m) -> bus_disjoint (pio_bus m) -> pio_typed (pio_bus m) ->
  ((forall d base, serves (mmio_bus m) a base d ->
      mmio_read m a data w = Ret (Ok tt, (dev_read d base (a - base) data w).1, (dev_read d base (a - base) data w).2) /\
      mmio_write m a data w = Ret (Ok tt, dev_write d base (a - base) data w)) /\
   ((forall d base, ~ serves (mmio_bus m) a base d) ->
      mmio_read m a data w = Ret (Err NoDevice, data, w) /\ mmio_write m a data w = Ret (Err NoDevice, w))) /\
  ((forall d base, serves (pio_bus m) a base d ->
      pio_read m a data w = Ret (Ok tt, (dev_pio_read d base (a - base) data w).1, (dev_pio_read d base (a - base) data w).2) /\
      pio_write m a data w = Ret (Ok tt, dev_pio_write d base (a - base) data w)) /\
   ((forall d base, ~ serves (pio_bus m) a base d) ->
      pio_read m a data w = Ret (Err NoDevice, data, w) /\ pio_write m a data w = Ret (Err NoDevice, w))).
Proof.
  intros Hwf Hm Hp Ht.
  destruct (get_mmio_device_ok m a Hwf Hm) as (om & Em & Hom).
  destruct (get_pio_device_ok m a Hwf Hp Ht) as (op & Ep & Hop).
  unfold mmio_read, mmio_write, pio_read, pio_write. rewrite Em, Ep. cbn [obind].
  split; (split; [intros d base Hs|intros Hno]).
  - pose proof Hs as (r & _ & _ & Ha). apply Hom in Hs as ->. rewrite sub_u_ret by lia. cbn [obind].
    by destruct (dev_read _ _ _ _ _).
  - destruct om as [[d base]|]; [|done]. destruct (Hno d base). by apply Hom.
  - pose proof Hs as (r & _ & _ & Ha). apply Hop in Hs as ->. rewrite sub_u_ret by lia. cbn [obind].
    by destruct (dev_pio_read _ _ _ _ _).
  - destruct op as [[d base]|]; [|done]. destruct (Hno d base). by apply Hop.
Qed.

(** A device that logs its accesses. *)
#[local] Instance log_device : DeviceIo nat (list (nat * Z * Z)) := {
  dev_read d base off data w := (data, w ++ [(d, base, off)]);
  dev_write d base off data w := w ++ [(d, base, off)];
  dev_pio_read d base off data w := (data, w ++ [(d, base, off)]);
  dev_pio_write d base off data w := w ++ [(d, base, off)];
  get_trapped_io_resources d w := DeviceResources_new }.

Lemma dispatch_correct_witness :
  mmio_read ex_iom 4100 [0] [] = Ret (Ok tt, [0], [(1%nat, 4096, 4)]) /\
  pio_write ex_iom 68 [0] [] = Ret (Err NoDevice, []).
Proof.
  assert (Hd : forall a, _) by (intros a; apply (dispatch_correct ex_iom a [0] []);
    [by intros [] | | |]; unfold bus_disjoint, pio_typed; simpl; intros *; rewrite ?list_elem_of_singleton;
    intros; simplify_eq; simpl; ulia).
  split.
  - apply (Hd 4100). exists (mkIoRange 4096 4096). simpl. split_and!; [by apply list_elem_of_singleton|lia..].
  - apply (Hd 68). intros d base (r & Hr%list_elem_of_singleton & ? & ?). simplify_eq. simpl in *. lia.
Defined.

(** ** What the code does at conflicts *)

(** The conflict test looks at base addresses only: a range that overlaps a
    registered one at another base is accepted, and takes its addresses over. *)
Lemma overlap_accepted :
  match register_device_io ex_iom 2%nat [MmioAddressRange 6144 4096] with
  | Ret (r, m) => r = Ok tt /\ get_mmio_device ex_iom 7000 = Ret (Some (1%nat, 4096)) /\
      get_mmio_device m 7000 = Ret (Some (2%nat, 6144))
  | Panic => False
  end.
Proof. by vm_compute. Qed.

(** A rejected registration redirects the old device's range to the new one. *)
Lemma failed_register_redirects :
  match register_device_io ex_iom 2%nat [MmioAddressRange 4096 16] with
  | Ret (r, m) => r = Err DeviceOverlap /\ get_mmio_device ex_iom 8000 = Ret (Some (1%nat, 4096)) /\
      get_mmio_device m 8000 = Ret (Some (2%nat, 4096))
  | Panic => False
  end.
Proof. by vm_compute. Qed.
