(* ===== verification/RateLimiter.v ===== *)
(** The rate limiter (src/src/dragonball/src/dbs_utils/src/rate_limiter.rs) and
    its configuration (src/src/dragonball/src/config_manager.rs).

    Time is in nanoseconds.  The readings of the monotonic clock are arguments:
    an operation that reads it at most twice takes a pair of readings.  The
    [timerfd] is the last state it was armed with and, for [event_handler], the
    number of expirations its [read] returns.  The over-consumption ratio is an
    IEEE double, with the arithmetic of the standard library's [SpecFloat].

    Properties of the token buckets and of the rate limiter: the pre-processed
    refill fraction computes the documented amount, the outcome of every
    [reduce], the long-run bound on what a bucket grants, and the blocking
    protocol of the limiter with its timer. *)

From Stdlib Require Import SpecFloat.
From S2P Require Import Prelude.

(** ** IEEE doubles *)

Definition f64_of_u64 (x : Z) : spec_float := binary_normalize 53 1024 x 0 false.
Definition f64_div : spec_float -> spec_float -> spec_float := SFdiv 53 1024.
Definition f64_mul : spec_float -> spec_float -> spec_float := SFmul 53 1024.
(** [x as u64] truncates and saturates; NaN is 0. *)
Definition f64_as_u64 (x : spec_float) : Z :=
  match x with
  | S754_zero _ | S754_nan => 0
  | S754_infinity s => if s then 0 else u64_max
  | S754_finite s m e => if s then 0 else Z.min u64_max (Z.shiftl (Z.pos m) e)
  end.

(** ** Token buckets *)

Definition REFILL_TIMER_INTERVAL_MS : Z := 10.
Definition NANOSEC_IN_ONE_MILLISEC : Z := 1000000.

(** [gcd]: the loop [while y != 0], with fuel.  The second argument at least
    halves every two rounds, so 129 rounds are enough for 64-bit arguments. *)
Fixpoint gcd_loop (fuel : nat) (x y : Z) : option Z :=
  if y =? 0 then Some x
  else match fuel with
       | O => None
       | S fuel => gcd_loop fuel y (x mod y)
       end.
Definition gcd (x y : Z) : outcome Z := unwrap (gcd_loop 129 x y).

Inductive BucketReduction :=
| Failure
| Success
| OverConsumption (ratio : spec_float).

(** [struct TokenBucket]. *)
Record TokenBucket := mkTokenBucket {
  tb_size : Z;
  tb_initial_one_time_burst : Z;
  tb_refill_time : Z;
  tb_one_time_burst : Z;
  tb_budget : Z;
  tb_last_update : Z;
  tb_processed_capacity : Z;
  tb_processed_refill_time : Z }.

Definition set_burst (b : TokenBucket) (x : Z) : TokenBucket :=
  mkTokenBucket (tb_size b) (tb_initial_one_time_burst b) (tb_refill_time b) x (tb_budget b)
    (tb_last_update b) (tb_processed_capacity b) (tb_processed_refill_time b).
Definition set_budget (b : TokenBucket) (x : Z) : TokenBucket :=
  mkTokenBucket (tb_size b) (tb_initial_one_time_burst b) (tb_refill_time b) (tb_one_time_burst b) x
    (tb_last_update b) (tb_processed_capacity b) (tb_processed_refill_time b).
Definition set_last_update (b : TokenBucket) (x : Z) : TokenBucket :=
  mkTokenBucket (tb_size b) (tb_initial_one_time_burst b) (tb_refill_time b) (tb_one_time_burst b)
    (tb_budget b) x (tb_processed_capacity b) (tb_processed_refill_time b).

(** [TokenBucket::new] at the clock reading [now]. *)
Definition TokenBucket_new (size one_time_burst complete_refill_time_ms now : Z) : outcome TokenBucket :=
  if negb (negb (size =? 0) && negb (complete_refill_time_ms =? 0)) then Panic
  else
    let! complete_refill_time_ns := mul_u u64_max complete_refill_time_ms NANOSEC_IN_ONE_MILLISEC in
    let! common_factor := gcd size complete_refill_time_ns in
    let processed_capacity := size / common_factor in
    let processed_refill_time := complete_refill_time_ns / common_factor in
    Ret (mkTokenBucket size one_time_burst complete_refill_time_ms one_time_burst size now
           processed_capacity processed_refill_time).

(** [auto_replenish] with the readings of [elapsed] and of [Instant::now]. *)
Definition auto_replenish (b : TokenBucket) (clk : Z * Z) : outcome TokenBucket :=
  let time_delta := as_u64 (Z.max 0 (clk.1 - tb_last_update b)) in
  let b := set_last_update b clk.2 in
  let! p := mul_u u64_max time_delta (tb_processed_capacity b) in
  let tokens := p / tb_processed_refill_time b in
  let! s := add_u u64_max (tb_budget b) tokens in
  Ret (set_budget b (Z.min s (tb_size b))).

(** The part of [reduce] after the burst allowance. *)
Definition reduce_budget (b : TokenBucket) (tokens : Z) (clk : Z * Z) : outcome (BucketReduction * TokenBucket) :=
  if tokens >? tb_budget b then
    let! b := auto_replenish b clk in
    if tokens >? tb_size b then
      let! left_ := sub_u tokens (tb_budget b) in
      Ret (OverConsumption (f64_div (f64_of_u64 left_) (f64_of_u64 (tb_size b))), set_budget b 0)
    else if tokens >? tb_budget b then Ret (Failure, b)
    else
      let! x := sub_u (tb_budget b) tokens in
      Ret (Success, set_budget b x)
  else
    let! x := sub_u (tb_budget b) tokens in
    Ret (Success, set_budget b x).

Definition reduce (b : TokenBucket) (tokens : Z) (clk : Z * Z) : outcome (BucketReduction * TokenBucket) :=
  if tb_one_time_burst b >? 0 then
    if tb_one_time_burst b >=? tokens then
      let! x := sub_u (tb_one_time_burst b) tokens in
      Ret (Success, set_last_update (set_burst b x) clk.1)
    else
      let! tokens := sub_u tokens (tb_one_time_burst b) in
      reduce_budget (set_burst b 0) tokens clk
  else reduce_budget b tokens clk.

(** [force_replenish]. *)
Definition force_replenish (b : TokenBucket) (tokens : Z) : outcome TokenBucket :=
  if tb_one_time_burst b >? 0 then
    let! x := add_u u64_max (tb_one_time_burst b) tokens in
    Ret (set_burst b x)
  else
    let! x := add_u u64_max (tb_budget b) tokens in
    Ret (set_budget b (Z.min x (tb_size b))).

(** ** The limiter *)

Inductive TokenType := Bytes | Ops.

Inductive BucketUpdate :=
| BU_None
| BU_Disabled
| BU_Update (tb : TokenBucket).

(** [TimerState::Oneshot(d)] with [d] in milliseconds. *)
Inductive TimerState := Disarmed | Oneshot (ms : Z).
Definition TIMER_REFILL_STATE : TimerState := Oneshot REFILL_TIMER_INTERVAL_MS.

Record RateLimiter := mkRateLimiter {
  bandwidth : option TokenBucket;
  ops : option TokenBucket;
  timer_fd : TimerState;
  timer_active : bool }.

Inductive RateLimiterError := SpuriousRateLimiterEvent.

(** [make_bucket]. *)
Definition make_bucket (total_capacity one_time_burst complete_refill_time_ms now : Z) :
    outcome (option TokenBucket) :=
  if negb (total_capacity =? 0) && negb (complete_refill_time_ms =? 0) then
    let! b := TokenBucket_new total_capacity one_time_burst complete_refill_time_ms now in
    Ret (Some b)
  else Ret None.

(** [RateLimiter::new]; [timer] is what [TimerFd::new_custom] returns. *)
Definition RateLimiter_new {E} (bytes_capacity bytes_burst bytes_refill ops_capacity ops_burst ops_refill : Z)
    (clk : Z * Z) (timer : result unit E) : outcome (result RateLimiter E) :=
  let! bytes_token_bucket := make_bucket bytes_capacity bytes_burst bytes_refill clk.1 in
  let! ops_token_bucket := make_bucket ops_capacity ops_burst ops_refill clk.2 in
  match timer with
  | Ok _ => Ret (Ok (mkRateLimiter bytes_token_bucket ops_token_bucket Disarmed false))
  | Err e => Ret (Err e)
  end.

Definition activate_timer (l : RateLimiter) (s : TimerState) : RateLimiter :=
  mkRateLimiter (bandwidth l) (ops l) s true.

Definition bucket_of (l : RateLimiter) (t : TokenType) : option TokenBucket :=
  match t with Bytes => bandwidth l | Ops => ops l end.
Definition set_bucket (l : RateLimiter) (t : TokenType) (b : TokenBucket) : RateLimiter :=
  match t with
  | Bytes => mkRateLimiter (Some b) (ops l) (timer_fd l) (timer_active l)
  | Ops => mkRateLimiter (bandwidth l) (Some b) (timer_fd l) (timer_active l)
  end.

(** [consume]. *)
Definition consume (l : RateLimiter) (tokens : Z) (token_type : TokenType) (clk : Z * Z) :
    outcome (bool * RateLimiter) :=
  if timer_active l then Ret (false, l)
  else
    match bucket_of l token_type with
    | Some bucket =>
        let refill_time := tb_refill_time bucket in
        let! (r, bucket) := reduce bucket tokens clk in
        let l := set_bucket l token_type bucket in
        match r with
        | Failure => Ret (false, if timer_active l then l else activate_timer l TIMER_REFILL_STATE)
        | Success => Ret (true, l)
        | OverConsumption ratio =>
            Ret (true, activate_timer l (Oneshot (f64_as_u64 (f64_mul ratio (f64_of_u64 refill_time)))))
        end
    | None => Ret (true, l)
    end.

(** [manual_replenish]. *)
Definition manual_replenish (l : RateLimiter) (tokens : Z) (token_type : TokenType) : outcome RateLimiter :=
  match bucket_of l token_type with
  | Some bucket => let! b := force_replenish bucket tokens in Ret (set_bucket l token_type b)
  | None => Ret l
  end.

Definition is_blocked (l : RateLimiter) : bool := timer_active l.

(** [event_handler]; [expirations] is what [timer_fd.read()] returns. *)
Definition event_handler (l : RateLimiter) (expirations : Z) : result unit RateLimiterError * RateLimiter :=
  if expirations =? 0 then (Err SpuriousRateLimiterEvent, l)
  else (Ok tt, mkRateLimiter (bandwidth l) (ops l) (timer_fd l) false).

(** [update_buckets]. *)
Definition update_buckets (l : RateLimiter) (bytes ops_ : BucketUpdate) : RateLimiter :=
  let upd old u := match u with BU_Disabled => None | BU_Update tb => Some tb | BU_None => old end in
  mkRateLimiter (upd (bandwidth l) bytes) (upd (ops l) ops_) (timer_fd l) (timer_active l).

(** ** Configuration (config_manager.rs) *)

Record TokenBucketConfigInfo := mkTBC { tbc_size : Z; tbc_one_time_burst : Z; tbc_refill_time : Z }.

Definition TokenBucketConfigInfo_resize (c : TokenBucketConfigInfo) (n : Z) : TokenBucketConfigInfo :=
  if negb (n =? 0) then mkTBC (tbc_size c / n) (tbc_one_time_burst c / n) (tbc_refill_time c) else c.

Definition TokenBucket_from (t : TokenBucketConfigInfo) (now : Z) : outcome TokenBucket :=
  TokenBucket_new (tbc_size t) (tbc_one_time_burst t) (tbc_refill_time t) now.

Record RateLimiterConfigInfo := mkRLC { rlc_bandwidth : TokenBucketConfigInfo; rlc_ops : TokenBucketConfigInfo }.

Definition update_bandwidth (c : RateLimiterConfigInfo) (new_config : TokenBucketConfigInfo) :=
  mkRLC new_config (rlc_ops c).
Definition update_ops (c : RateLimiterConfigInfo) (new_config : TokenBucketConfigInfo) :=
  mkRLC (rlc_bandwidth c) new_config.
Definition RateLimiterConfigInfo_resize (c : RateLimiterConfigInfo) (n : Z) : RateLimiterConfigInfo :=
  mkRLC (TokenBucketConfigInfo_resize (rlc_bandwidth c) n) (TokenBucketConfigInfo_resize (rlc_ops c) n).

(** [TryInto<RateLimiter>]. *)
Definition RateLimiterConfigInfo_try_into {E} (c : RateLimiterConfigInfo) (clk : Z * Z) (timer : result unit E) :
    outcome (result RateLimiter E) :=
  RateLimiter_new (tbc_size (rlc_bandwidth c)) (tbc_one_time_burst (rlc_bandwidth c)) (tbc_refill_time (rlc_bandwidth c))
    (tbc_size (rlc_ops c)) (tbc_one_time_burst (rlc_ops c)) (tbc_refill_time (rlc_ops c)) clk timer.

(** The macro [get_bucket_update!] for one of the two metrics. *)
Definition get_bucket_update (rate_limiter : option RateLimiterConfigInfo)
    (metric : RateLimiterConfigInfo -> TokenBucketConfigInfo) (now : Z) : outcome BucketUpdate :=
  match rate_limiter with
  | Some rl_cfg =>
      let tb_cfg := metric rl_cfg in
      let! b := make_bucket (tbc_size tb_cfg) (tbc_one_time_burst tb_cfg) (tbc_refill_time tb_cfg) now in
      Ret (match b with Some tb => BU_Update tb | None => BU_Disabled end)
  | None => Ret BU_None
  end.

(** ** The greatest common divisor *)

Lemma gcd_loop_ok k x y :
  0 <= x -> 0 <= y < 2 ^ Z.of_nat k -> gcd_loop (k + S k) x y = Some (Z.gcd x y).
Proof.
  revert x y. induction k as [|k IH]; intros x y Hx Hy.
  { assert (y = 0) by (simpl in Hy; lia). subst. simpl. by rewrite Z.gcd_0_r, Z.abs_eq. }
  replace (S k + S (S k))%nat with (S (S (k + S k))) by lia. cbn [gcd_loop].
  destruct (Z.eqb_spec y 0) as [->|Hn]; [by rewrite Z.gcd_0_r, Z.abs_eq|].
  pose proof (Z.mod_pos_bound x y ltac:(lia)) as Hr.
  rewrite (Z.gcd_comm x y), <- Z.gcd_mod by lia.
  destruct (Z.eqb_spec (x mod y) 0) as [->|Hn']; [by rewrite Z.gcd_0_l, Z.abs_eq by lia|].
  pose proof (Z.mod_pos_bound y (x mod y) ltac:(lia)).
  rewrite IH; [|lia|].
  - by rewrite Z.gcd_comm, Z.gcd_mod by lia.
  - rewrite Nat2Z.inj_succ, Z.pow_succ_r in Hy by lia.
    pose proof (Z.div_mod y (x mod y) ltac:(lia)).
    assert (1 <= y / (x mod y)) by (apply Z.div_le_lower_bound; lia). nia.
Qed.

Lemma gcd_ok x y : 0 <= x -> in_u64 y -> gcd x y = Ret (Z.gcd x y).
Proof.
  intros Hx Hy. unfold gcd. change 129%nat with (64 + S 64)%nat.
  rewrite gcd_loop_ok; [done..|]. simpl Z.of_nat. ulia.
Qed.

(** ** The bucket invariant *)

(** The complete refill time in nanoseconds. *)
Definition refill_ns (b : TokenBucket) : Z := tb_refill_time b * NANOSEC_IN_ONE_MILLISEC.

Record tb_wf (b : TokenBucket) : Prop := mk_tb_wf {
  wf_size : 0 < tb_size b <= u64_max;
  wf_budget : 0 <= tb_budget b <= tb_size b;
  wf_burst : in_u64 (tb_one_time_burst b);
  wf_refill : 0 < refill_ns b;
  wf_prt : 0 < tb_processed_refill_time b;
  wf_pc : 0 < tb_processed_capacity b;
  wf_fraction : tb_processed_capacity b * refill_ns b = tb_size b * tb_processed_refill_time b }.

Lemma TokenBucket_new_ok size burst refill now :
  0 < size <= u64_max -> in_u64 burst -> 0 < refill -> refill * NANOSEC_IN_ONE_MILLISEC <= u64_max ->
  exists b, TokenBucket_new size burst refill now = Ret b /\ tb_wf b /\
    tb_size b = size /\ tb_budget b = size /\ tb_one_time_burst b = burst /\
    tb_refill_time b = refill /\ tb_last_update b = now /\
    Z.gcd (tb_processed_capacity b) (tb_processed_refill_time b) = 1.
Proof.
  intros Hs Hb Hr Hm. unfold TokenBucket_new.
  destruct (Z.eqb_spec size 0), (Z.eqb_spec refill 0); simpl negb; cbn [andb negb]; try lia.
  unfold mul_u. rewrite (proj2 (Z.leb_le _ _)) by lia. cbn [obind].
  set (R := refill * NANOSEC_IN_ONE_MILLISEC) in *.
  assert (HR : 0 < R) by (unfold R, NANOSEC_IN_ONE_MILLISEC; lia).
  rewrite gcd_ok by (unfold in_u64; lia). cbn [obind].
  pose proof (Z.gcd_nonneg size R) as Hg0. pose proof (Z.gcd_eq_0_l size R) as Hg1.
  set (g := Z.gcd size R) in *. assert (Hg : 0 < g) by lia.
  assert (Hds : (g | size)) by apply Z.gcd_divide_l. assert (HdR : (g | R)) by apply Z.gcd_divide_r.
  destruct Hds as [s' Hs'], HdR as [r' Hr'].
  eexists. split; [reflexivity|]. split_and!; try done.
  - split; simpl; auto; try lia.
    + rewrite Hr', Z.div_mul by lia. nia.
    + rewrite Hs', Z.div_mul by lia. nia.
    + unfold refill_ns. simpl. fold R. rewrite Hr', Hs', !Z.div_mul by lia. lia.
  - simpl. apply Z.gcd_div_gcd; [lia|done].
Qed.

(** The documented refill amount, [time_delta * size / refill_time_ns]. *)
Definition refill_amount (b : TokenBucket) (delta : Z) : Z := delta * tb_size b / refill_ns b.

(** The pre-processed fraction gives the documented amount. *)
Lemma processed_fraction b delta :
  tb_wf b -> delta * tb_processed_capacity b / tb_processed_refill_time b = refill_amount b delta.
Proof.
  intros H. destruct H as [_ _ _ Hr Hp _ Hf]. unfold refill_amount.
  rewrite <- (Z.div_mul_cancel_r _ _ (refill_ns b)) by lia.
  rewrite <- Z.mul_assoc, Hf, Z.mul_assoc, (Z.mul_comm (tb_processed_refill_time b)).
  rewrite Z.div_mul_cancel_r by lia. done.
Qed.

(** The nanoseconds [auto_replenish] sees at the reading [now]. *)
Definition elapsed (b : TokenBucket) (now : Z) : Z := as_u64 (Z.max 0 (now - tb_last_update b)).

(** The two products of [auto_replenish] fit in 64 bits. *)
Definition refill_fits (b : TokenBucket) (now : Z) : Prop :=
  elapsed b now * tb_processed_capacity b <= u64_max /\
  tb_budget b + refill_amount b (elapsed b now) <= u64_max.

Definition refilled (b : TokenBucket) (now : Z) : Z :=
  Z.min (tb_budget b + refill_amount b (elapsed b now)) (tb_size b).

Lemma auto_replenish_ok b clk :
  tb_wf b -> refill_fits b clk.1 ->
  auto_replenish b clk = Ret (set_budget (set_last_update b clk.2) (refilled b clk.1)).
Proof.
  intros Hwf [H1 H2]. unfold auto_replenish. simpl. fold (elapsed b clk.1).
  unfold mul_u. rewrite (proj2 (Z.leb_le _ _)) by done. cbn [obind].
  rewrite processed_fraction by done. rewrite add_u_ret by done. done.
Qed.

Lemma elapsed_nonneg b now : 0 <= elapsed b now.
Proof. unfold elapsed, as_u64. apply Z.mod_pos_bound. lia. Qed.

Lemma elapsed_le b now : tb_last_update b <= now -> elapsed b now <= now - tb_last_update b.
Proof. intros. unfold elapsed, as_u64. rewrite Z.max_r by lia. apply Z.mod_le; lia. Qed.

Lemma refill_amount_nonneg b now : tb_wf b -> 0 <= refill_amount b (elapsed b now).
Proof.
  intros H. pose proof (elapsed_nonneg b now). destruct H. unfold refill_amount.
  apply Z.div_pos; [nia|lia].
Qed.

Lemma refilled_bounds b now : tb_wf b -> tb_budget b <= refilled b now <= tb_size b.
Proof.
  intros H. pose proof (refill_amount_nonneg b now H). destruct H. unfold refilled. lia.
Qed.

(** ** [reduce] *)

(** The tokens asked of the budget once the burst allowance is used. *)
Definition from_budget (b : TokenBucket) (tokens : Z) : Z := Z.max 0 (tokens - tb_one_time_burst b).

(** What [reduce] does, in terms of the allowance, the budget and the refill. *)
Definition reduce_spec (b : TokenBucket) (tokens : Z) (clk : Z * Z) : BucketReduction * TokenBucket :=
  let need := from_budget b tokens in
  let avail := refilled b clk.1 in
  if (0 <? tb_one_time_burst b) && (tokens <=? tb_one_time_burst b) then
    (Success, set_last_update (set_burst b (tb_one_time_burst b - tokens)) clk.1)
  else if need <=? tb_budget b then (Success, set_budget (set_burst b 0) (tb_budget b - need))
  else
    let b' := set_last_update (set_burst b 0) clk.2 in
    if tb_size b <? need then
      (OverConsumption (f64_div (f64_of_u64 (need - avail)) (f64_of_u64 (tb_size b))), set_budget b' 0)
    else if avail <? need then (Failure, set_budget b' avail)
    else (Success, set_budget b' (avail - need)).

Lemma set_burst_id b : tb_one_time_burst b = 0 -> set_burst b 0 = b.
Proof. destruct b; simpl; intros ->; done. Qed.

Lemma tb_wf_burst b x : tb_wf b -> in_u64 x -> tb_wf (set_burst b x).
Proof. intros [] ?. by split. Qed.

Lemma tb_wf_update b x t : tb_wf b -> 0 <= x <= tb_size b -> tb_wf (set_budget (set_last_update b t) x).
Proof. intros [] ?. by split. Qed.

Lemma reduce_budget_ok b tokens clk :
  tb_wf b -> refill_fits b clk.1 ->
  reduce_budget b tokens clk = Ret (
    if tokens <=? tb_budget b then (Success, set_budget b (tb_budget b - tokens))
    else
      let b' := set_last_update b clk.2 in
      let avail := refilled b clk.1 in
      if tb_size b <? tokens then
        (OverConsumption (f64_div (f64_of_u64 (tokens - avail)) (f64_of_u64 (tb_size b))), set_budget b' 0)
      else if avail <? tokens then (Failure, set_budget b' avail)
      else (Success, set_budget b' (avail - tokens))).
Proof.
  intros Hwf Hf. unfold reduce_budget. rewrite Z.gtb_ltb, Z.leb_antisym.
  destruct (Z.ltb_spec (tb_budget b) tokens) as [Hlt|Hge]; simpl negb; cbn match.
  - rewrite auto_replenish_ok by done. cbn [obind]. simpl.
    pose proof (refilled_bounds b clk.1 Hwf). rewrite !Z.gtb_ltb.
    destruct (Z.ltb_spec (tb_size b) tokens); [rewrite sub_u_ret by lia; done|].
    destruct (Z.ltb_spec (refilled b clk.1) tokens); [done|]. by rewrite sub_u_ret by lia.
  - by rewrite sub_u_ret by lia.
Qed.

Lemma reduce_ok b tokens clk :
  tb_wf b -> refill_fits b clk.1 -> in_u64 tokens -> reduce b tokens clk = Ret (reduce_spec b tokens clk).
Proof.
  intros Hwf Hf Ht. pose proof (wf_burst _ Hwf) as Hb. unfold reduce, reduce_spec, from_budget.
  rewrite Z.gtb_ltb, Z.geb_leb. destruct (Z.ltb_spec 0 (tb_one_time_burst b)) as [Hp|Hp]; cbn [andb].
  - destruct (Z.leb_spec tokens (tb_one_time_burst b)); [by rewrite sub_u_ret by lia|].
    rewrite sub_u_ret by lia. cbn [obind]. rewrite reduce_budget_ok; auto.
    + by rewrite Z.max_r by lia.
    + apply tb_wf_burst; [done|]. ulia.
  - assert (E : tb_one_time_burst b = 0) by ulia. rewrite E, Z.sub_0_r, Z.max_r by ulia.
    rewrite reduce_budget_ok by done. by rewrite set_burst_id.
Qed.

(** A refill that did not overflow. *)
Lemma auto_replenish_inv b clk b' : tb_wf b -> auto_replenish b clk = Ret b' -> refill_fits b clk.1.
Proof.
  intros Hwf E. unfold auto_replenish in E. simpl in E. fold (elapsed b clk.1) in E. bind_inv E.
  unfold mul_u in Ha. case_hyp Ha; [|done]. injection Ha as <-. rewrite processed_fraction in E by done.
  bind_inv E. apply add_u_inv in Ha as [_ Ha]. bools. by split.
Qed.

Lemma reduce_inv b tokens clk p :
  tb_wf b -> in_u64 tokens -> reduce b tokens clk = Ret p -> p = reduce_spec b tokens clk.
Proof.
  intros Hwf Ht E.
  assert (Hspec : refill_fits b clk.1 -> p = reduce_spec b tokens clk).
  { intros Hf. rewrite reduce_ok in E by done. by injection E. }
  assert (Hb : forall b1 need, tb_wf b1 -> reduce_budget b1 need clk = Ret p ->
    need <= tb_budget b1 \/ refill_fits b1 clk.1).
  { intros b1 need Hwf1 E1. unfold reduce_budget in E1. rewrite Z.gtb_ltb in E1.
    destruct (Z.ltb_spec (tb_budget b1) need); [|by left]. bind_inv E1. right. by eapply auto_replenish_inv. }
  pose proof (wf_burst _ Hwf) as Hu. pose proof (wf_budget _ Hwf) as Hbud.
  unfold reduce, reduce_spec, from_budget in *. rewrite Z.gtb_ltb, Z.geb_leb in *.
  destruct (Z.ltb_spec 0 (tb_one_time_burst b)) as [Hp|Hp]; cbn [andb] in *.
  - destruct (Z.leb_spec tokens (tb_one_time_burst b)).
    { rewrite sub_u_ret in E by lia. by injection E as <-. }
    rewrite sub_u_ret in E by lia. cbn [obind] in E.
    destruct (Hb (set_burst b 0) _ (tb_wf_burst b 0 Hwf ltac:(ulia)) E) as [Hle|]; [|by apply Hspec].
    simpl in Hle. rewrite Z.max_r in * by lia. rewrite (proj2 (Z.leb_le _ _)) by done.
    unfold reduce_budget in E. simpl in E. rewrite Z.gtb_ltb, (proj2 (Z.ltb_ge _ _)), sub_u_ret in E by done.
    by injection E as <-.
  - assert (E0 : tb_one_time_burst b = 0) by ulia. rewrite E0, Z.sub_0_r, Z.max_r in * by ulia.
    destruct (Hb b _ Hwf E) as [Hle|]; [|by apply Hspec].
    rewrite (proj2 (Z.leb_le _ _)) by done. rewrite set_burst_id by done.
    unfold reduce_budget in E. rewrite Z.gtb_ltb, (proj2 (Z.ltb_ge _ _)), sub_u_ret in E by done.
    by injection E as <-.
Qed.

(** ** The rate bound *)

(** What a request of [tokens] was granted: all of it by [Success] and by
    [OverConsumption], after which [consume] returns [true]. *)
Definition granted (r : BucketReduction) (tokens : Z) : Z := match r with Failure => 0 | _ => tokens end.

(** The ratios reported, and the ratio for an excess of [e] tokens. *)
Definition reported (r : BucketReduction) : list spec_float := match r with OverConsumption x => [x] | _ => [] end.
Definition ratio_of (size e : Z) : spec_float := f64_div (f64_of_u64 e) (f64_of_u64 size).

(** What an over-consuming request took beyond what the bucket had. *)
Definition excess (b : TokenBucket) (tokens : Z) (clk : Z * Z) : list Z :=
  match (reduce_spec b tokens clk).1 with OverConsumption _ => [from_budget b tokens - refilled b clk.1] | _ => [] end.

Definition zsum : list Z -> Z := foldr Z.add 0.

Lemma zsum_app l1 l2 : zsum (l1 ++ l2) = zsum l1 + zsum l2.
Proof. unfold zsum. induction l1; simpl; lia. Qed.

(** [b'] evolved from [b] by a grant of [g] tokens, [x] of them in excess: what was
    granted and what is left is covered by what there was, by the refill over the
    time passed, and by the excess. *)
Record evolved (b : TokenBucket) (g x : Z) (b' : TokenBucket) : Prop := mk_evolved {
  ev_wf : tb_wf b';
  ev_size : tb_size b' = tb_size b;
  ev_refill : tb_refill_time b' = tb_refill_time b;
  ev_time : tb_last_update b <= tb_last_update b';
  ev_bound : (g + tb_budget b' + tb_one_time_burst b') * refill_ns b <=
    (tb_budget b + tb_one_time_burst b + x) * refill_ns b +
    tb_size b * (tb_last_update b' - tb_last_update b) }.

Lemma evolved_trans b g x b1 g1 x1 b2 : evolved b g x b1 -> evolved b1 g1 x1 b2 -> evolved b (g + g1) (x + x1) b2.
Proof.
  intros [W S R T B] [W1 S1 R1 T1 B1]. split; auto; try congruence; try lia.
  assert (E : refill_ns b1 = refill_ns b) by (unfold refill_ns; congruence). rewrite E, S in B1. lia.
Qed.

(** The refill over an interval is at most the interval's share. *)
Lemma refill_bound b now t :
  tb_wf b -> tb_last_update b <= now <= t ->
  refilled b now * refill_ns b <= tb_budget b * refill_ns b + tb_size b * (t - tb_last_update b).
Proof.
  intros Hwf Ht. pose proof (elapsed_le b now ltac:(lia)). pose proof (elapsed_nonneg b now).
  destruct Hwf. unfold refilled, refill_amount.
  pose proof (Z.mul_div_le (elapsed b now * tb_size b) (refill_ns b) ltac:(lia)).
  assert (elapsed b now * tb_size b <= tb_size b * (t - tb_last_update b)) by nia.
  assert (Hm : forall x y, Z.min x y * refill_ns b <= x * refill_ns b) by (intros; nia).
  etransitivity; [apply Hm|]. lia.
Qed.

Lemma reduce_evolved b tokens clk :
  tb_wf b -> in_u64 tokens -> tb_last_update b <= clk.1 <= clk.2 ->
  evolved b (granted (reduce_spec b tokens clk).1 tokens) (zsum (excess b tokens clk)) (reduce_spec b tokens clk).2 /\
  tb_last_update (reduce_spec b tokens clk).2 <= clk.2 /\
  Forall (fun e => 0 < e) (excess b tokens clk) /\ reported (reduce_spec b tokens clk).1 = ratio_of (tb_size b) <$> excess b tokens clk.
Proof.
  intros Hwf Ht Hclk. pose proof (refilled_bounds b clk.1 Hwf) as Hrf.
  pose proof (refill_bound b clk.1 clk.2 Hwf Hclk) as Hrb. pose proof Hwf as [Hs Hbd Hbu Hr _ _ _].
  unfold excess, reduce_spec, from_budget, zsum.
  destruct (Z.ltb_spec 0 (tb_one_time_burst b)), (Z.leb_spec tokens (tb_one_time_burst b)); cbn [andb].
  all: assert (Hbr : 0 <= tb_one_time_burst b * refill_ns b) by (unfold in_u64 in *; nia).
  all: assert (Htm : 0 <= tb_size b * (clk.2 - tb_last_update b)) by nia.
  all: destruct (Z.max_spec 0 (tokens - tb_one_time_burst b)) as [[Hmx Emx]|[Hmx Emx]]; rewrite ?Emx.
  all: repeat match goal with |- context [if ?c then _ else _] => destruct c eqn:? end; bools.
  all: split_and!; [split|..]; simpl; auto; try lia; try nia; try (destruct Hwf; split; simpl; auto; ulia); repeat constructor; lia.
Qed.

(** A sequence of requests with their clock readings: the tokens granted, the
    ratios reported, and the final bucket. *)
Fixpoint reduce_run (b : TokenBucket) (reqs : list (Z * (Z * Z))) : outcome (Z * list spec_float * TokenBucket) :=
  match reqs with
  | [] => Ret (0, [], b)
  | (tokens, clk) :: rest =>
      let! (r, b) := reduce b tokens clk in
      let! (g, rs, b) := reduce_run b rest in
      Ret (granted r tokens + g, reported r ++ rs, b)
  end.

(** Requests of 64-bit sizes whose readings do not go backwards from [t]. *)
Fixpoint clocked (t : Z) (reqs : list (Z * (Z * Z))) : Prop :=
  match reqs with
  | [] => True
  | (tokens, clk) :: rest => in_u64 tokens /\ t <= clk.1 <= clk.2 /\ clocked clk.2 rest
  end.

Lemma clocked_weaken t t' reqs : clocked t reqs -> t' <= t -> clocked t' reqs.
Proof. destruct reqs as [|[tokens clk] reqs]; simpl; [done|]. intros (? & ? & ?) ?. split_and!; auto; lia. Qed.

Lemma reduce_run_evolved reqs b g rs b' :
  tb_wf b -> clocked (tb_last_update b) reqs -> reduce_run b reqs = Ret (g, rs, b') ->
  exists es, evolved b g (zsum es) b' /\ Forall (fun e => 0 < e) es /\ rs = ratio_of (tb_size b) <$> es.
Proof.
  revert b g rs b'. induction reqs as [|[tokens clk] reqs IH]; intros b g rs b' Hwf Hc E.
  - injection E as <- <- <-. exists []. split; [split; auto; simpl; lia|done].
  - simpl in Hc, E. destruct Hc as (Ht & Hclk & Hc). bind_inv E.
    apply reduce_inv in Ha; [|done..]. destruct (reduce_evolved b tokens clk Hwf Ht Hclk) as (Hev & Hle & Hpos & Hrep).
    rewrite <- Ha in Hev, Hle, Hrep. destruct a as [r b1]. simpl in Hev, Hle, Hrep. bind_inv E.
    destruct a as [[g1 rs1] b2]. injection E as <- <- <-.
    destruct (IH b1 g1 rs1 b2) as (es & Hev1 & Hpos1 & Hrep1); [apply Hev|by eapply clocked_weaken|done|].
    exists (excess b tokens clk ++ es). rewrite zsum_app. split; [by eapply evolved_trans|].
    split; [by apply Forall_app|]. by rewrite fmap_app, Hrep, Hrep1, (ev_size _ _ _ _ Hev).
Qed.

(** Requests for no more than the capacity never over-consume. *)
Lemma small_requests reqs b g rs b' :
  tb_wf b -> clocked (tb_last_update b) reqs -> Forall (fun req => req.1 <= tb_size b) reqs ->
  reduce_run b reqs = Ret (g, rs, b') -> rs = [].
Proof.
  revert b g rs b'. induction reqs as [|[tokens clk] reqs IH]; intros b g rs b' Hwf Hc Hsm E; [by injection E as <- <- <-|].
  simpl in Hc, E. destruct Hc as (Ht & Hclk & Hc). apply Forall_cons in Hsm as [Hsm Hsm']. simpl in Hsm. bind_inv E.
  apply reduce_inv in Ha; [|done..]. destruct (reduce_evolved b tokens clk Hwf Ht Hclk) as (Hev & Hle & _ & Hrep).
  rewrite <- Ha in Hev, Hle, Hrep. destruct a as [r b1]. simpl in Hev, Hle, Hrep. bind_inv E. destruct a as [[g1 rs1] b2]. injection E as <- <- <-.
  rewrite (IH b1 g1 rs1 b2); [|apply Hev|by eapply clocked_weaken|by rewrite (ev_size _ _ _ _ Hev)|done].
  rewrite app_nil_r. pose proof (wf_burst _ Hwf) as Hb. revert Ha. unfold reduce_spec, from_budget.
  rewrite (proj2 (Z.ltb_ge (tb_size b) _)) by ulia. cbv zeta.
  repeat match goal with |- context [if ?c then _ else _] => destruct c end; intros Hx; injection Hx as -> _; done.
Qed.

(** ** Properties *)

(** A bucket is created for every non-zero capacity and refill time whose
    nanoseconds fit in 64 bits: the loop of [gcd] ends, the bucket starts full,
    and its pre-processed fraction is the reduced form of
    [size / refill_time_ns], so that the refill computed from it is the
    documented [time_delta * size / refill_time_ns] for every interval. *)
Theorem TokenBucket_new_correct size burst refill now :
  0 < size <= u64_max -> in_u64 burst -> 0 < refill -> refill * NANOSEC_IN_ONE_MILLISEC <= u64_max ->
  exists b, TokenBucket_new size burst refill now = Ret b /\ tb_wf b /\
    tb_size b = size /\ tb_budget b = size /\ tb_one_time_burst b = burst /\
    tb_refill_time b = refill /\ tb_last_update b = now /\
    Z.gcd (tb_processed_capacity b) (tb_processed_refill_time b) = 1 /\
    forall delta, delta * tb_processed_capacity b / tb_processed_refill_time b =
      delta * size / (refill * NANOSEC_IN_ONE_MILLISEC).
Proof.
  intros. destruct (TokenBucket_new_ok size burst refill now) as (b & E & Hwf & Hs & Hb & Hu & Hr & Hl & Hg); auto.
  exists b. split_and!; auto. intros delta. rewrite processed_fraction by done.
  unfold refill_amount, refill_ns. by rewrite Hs, Hr.
Qed.

Lemma TokenBucket_new_correct_witness :
  exists b, TokenBucket_new 1000 100 1000 5 = Ret b /\ tb_wf b /\
    tb_size b = 1000 /\ tb_budget b = 1000 /\ tb_one_time_burst b = 100 /\
    tb_refill_time b = 1000 /\ tb_last_update b = 5 /\
    Z.gcd (tb_processed_capacity b) (tb_processed_refill_time b) = 1 /\
    forall delta, delta * tb_processed_capacity b / tb_processed_refill_time b =
      delta * 1000 / (1000 * NANOSEC_IN_ONE_MILLISEC).
Proof. apply (TokenBucket_new_correct 1000 100 1000 5); vm_compute; intuition congruence. Defined.

Definition ex_bucket : TokenBucket := mkTokenBucket 1000 0 1000 0 10 0 1 1000000.

Lemma ex_bucket_wf : tb_wf ex_bucket.
Proof. split; vm_compute; intuition congruence. Qed.

(** [reduce] on every branch.  With a refill that fits in 64 bits it
    returns, keeps the bucket's invariant, and: takes from the burst allowance
    while that covers the request; takes the rest from the budget; refills only
    when the budget is short; empties the bucket and reports the excess when
    the request is larger than the bucket; fails, granting nothing of the
    budget, when the refilled budget is still short. *)
Theorem reduce_correct b tokens clk :
  tb_wf b -> refill_fits b clk.1 -> in_u64 tokens -> tb_last_update b <= clk.1 <= clk.2 ->
  reduce b tokens clk = Ret (reduce_spec b tokens clk) /\ tb_wf (reduce_spec b tokens clk).2.
Proof.
  intros. split; [by apply reduce_ok|]. by apply reduce_evolved.
Qed.

Lemma reduce_correct_witness :
  reduce ex_bucket 500 (400000000, 400000001) = Ret (reduce_spec ex_bucket 500 (400000000, 400000001)) /\
  tb_wf (reduce_spec ex_bucket 500 (400000000, 400000001)).2.
Proof.
  apply (reduce_correct ex_bucket); [apply ex_bucket_wf | vm_compute; intuition congruence..].
Defined.

(** C37. The long-run rate bound.  Over any sequence of requests that does not
    overflow the refill, at clock readings that do not go backwards, the tokens a
    bucket grants, by [Success] or by [OverConsumption], are at most its capacity
    and burst allowance plus the refill share [size / refill_time] of the time
    that passed, plus the excess of the over-consuming requests, those for more
    than the bucket's capacity; each ratio reported is this excess divided by the
    capacity.  So requests that fit in the bucket never exceed the rate. *)
Theorem rate_bound size burst refill now b reqs g rs b' :
  0 < size <= u64_max -> in_u64 burst -> 0 < refill ->
  TokenBucket_new size burst refill now = Ret b -> clocked now reqs -> reduce_run b reqs = Ret (g, rs, b') ->
  exists es, Forall (fun e => 0 < e) es /\ rs = ratio_of size <$> es /\
    (Forall (fun req => req.1 <= size) reqs -> es = []) /\
    g * (refill * NANOSEC_IN_ONE_MILLISEC) <=
    (size + burst + zsum es) * (refill * NANOSEC_IN_ONE_MILLISEC) + size * (tb_last_update b' - now).
Proof.
  intros Hs Hb Hr E Hc Er.
  assert (Hm : refill * NANOSEC_IN_ONE_MILLISEC <= u64_max).
  { unfold TokenBucket_new in E. case_hyp E; [done|]. bind_inv E. unfold mul_u in Ha. case_hyp Ha; [|done].
    by bools. }
  destruct (TokenBucket_new_ok size burst refill now) as (b0 & E0 & Hwf & H1 & H2 & H3 & H4 & H5 & _); auto.
  rewrite E in E0. injection E0 as <-. rewrite <- H5 in Hc.
  destruct (reduce_run_evolved reqs b g rs b' Hwf Hc Er) as (es & [Hw' _ _ _ Hbd] & Hpos & Hrs).
  exists es. split; [done|]. split; [by rewrite <- H1|]. split.
  - intros Hsm. apply (fmap_nil_inv (ratio_of (tb_size b))). rewrite <- Hrs.
    eapply small_requests; [exact Hwf|exact Hc| |exact Er]. by rewrite H1.
  - unfold refill_ns in Hbd. rewrite H1, H2, H3, H4, H5 in Hbd.
    destruct Hw' as [_ Hb1 [Hb2 _] _ _ _ _]. unfold NANOSEC_IN_ONE_MILLISEC in *. nia.
Qed.

(** Two requests that the refill covers, and one of twice the capacity. *)
Lemma rate_bound_witness :
  1400 * (1000 * NANOSEC_IN_ONE_MILLISEC) <=
  (1000 + 100) * (1000 * NANOSEC_IN_ONE_MILLISEC) + 1000 * (300000001 - 0) /\
  exists es, [ratio_of 1000 900] = ratio_of 1000 <$> es /\
    2000 * (1000 * NANOSEC_IN_ONE_MILLISEC) <= (1000 + 100 + zsum es) * (1000 * NANOSEC_IN_ONE_MILLISEC) + 1000 * (6 - 0).
Proof.
  split.
  - destruct (rate_bound 1000 100 1000 0 (mkTokenBucket 1000 100 1000 100 1000 0 1 1000000)
      [(1000, (5, 6)); (400, (300000000, 300000001))] 1400 []
      (mkTokenBucket 1000 100 1000 0 0 300000001 1 1000000)) as (es & _ & _ & Hes & Hb);
      [vm_compute; intuition congruence..| ].
    rewrite Hes in Hb; [|repeat constructor; vm_compute; congruence]. exact Hb.
  - destruct (rate_bound 1000 100 1000 0 (mkTokenBucket 1000 100 1000 100 1000 0 1 1000000)
      [(2000, (5, 6))] 2000 [ratio_of 1000 900] (mkTokenBucket 1000 100 1000 0 0 6 1 1000000)) as (es & _ & Hrs & _ & Hb);
      [vm_compute; intuition congruence..| ].
    exists es. split; [exact Hrs|exact Hb].
Defined.

(** ** The limiter *)

Definition bucket_ok (o : option TokenBucket) (clk : Z * Z) : Prop :=
  match o with
  | Some b => tb_wf b /\ refill_fits b clk.1 /\ tb_last_update b <= clk.1 <= clk.2
  | None => True
  end.

(** [consume] on every branch.  A blocked limiter refuses and does not
    change.  Without a bucket for the token type it always grants.  Otherwise it
    grants unless the bucket fails; only the bucket of that type changes; a
    failure blocks the limiter for the refill interval, an over-consumption
    grants and blocks it for the time of the excess. *)
Theorem consume_correct l tokens ty clk :
  bucket_ok (bucket_of l ty) clk -> in_u64 tokens ->
  exists r l', consume l tokens ty clk = Ret (r, l') /\
    if timer_active l then r = false /\ l' = l
    else match bucket_of l ty with
         | None => r = true /\ l' = l
         | Some b =>
             let '(red, b') := reduce_spec b tokens clk in
             let l1 := set_bucket l ty b' in
             tb_wf b' /\
             match red with
             | Success => r = true /\ l' = l1
             | Failure => r = false /\ l' = activate_timer l1 (Oneshot 10)
             | OverConsumption ratio => r = true /\
                 l' = activate_timer l1 (Oneshot (f64_as_u64 (f64_mul ratio (f64_of_u64 (tb_refill_time b)))))
             end
         end.
Proof.
  intros Hb Ht. unfold consume. destruct (timer_active l) eqn:Ea; [eauto|].
  destruct (bucket_of l ty) as [b|] eqn:Eb; [|eauto]. destruct Hb as (Hwf & Hf & Hc).
  rewrite reduce_ok by done. cbn [obind]. destruct (reduce_evolved b tokens clk Hwf Ht Hc) as (Hev & _).
  destruct (reduce_spec b tokens clk) as [red b']. simpl in Hev.
  assert (Hta : timer_active (set_bucket l ty b') = false) by (by destruct ty).
  destruct red; [rewrite Hta|..]; eexists _, _; (split; [reflexivity|]); (split; [apply Hev|done]).
Qed.

Definition ex_limiter : RateLimiter := mkRateLimiter (Some ex_bucket) None Disarmed false.

Lemma consume_correct_witness :
  exists r l', consume ex_limiter 500 Bytes (400000000, 400000001) = Ret (r, l') /\
    let '(red, b') := reduce_spec ex_bucket 500 (400000000, 400000001) in
    let l1 := set_bucket ex_limiter Bytes b' in
    tb_wf b' /\
    match red with
    | Success => r = true /\ l' = l1
    | Failure => r = false /\ l' = activate_timer l1 (Oneshot 10)
    | OverConsumption ratio => r = true /\
        l' = activate_timer l1 (Oneshot (f64_as_u64 (f64_mul ratio (f64_of_u64 1000))))
    end.
Proof.
  apply (consume_correct ex_limiter 500 Bytes (400000000, 400000001)).
  - split; [apply ex_bucket_wf | vm_compute; intuition congruence].
  - vm_compute; intuition congruence.
Defined.

(** The calls a limiter's user makes. *)
Inductive lim_op :=
| OpConsume (tokens : Z) (ty : TokenType) (clk : Z * Z)
| OpReplenish (tokens : Z) (ty : TokenType)
| OpUpdate (bytes ops_ : BucketUpdate)
| OpEvent (expirations : Z).

(** One call; the boolean is the answer of [consume]. *)
Definition lim_step (l : RateLimiter) (o : lim_op) : outcome (option bool * RateLimiter) :=
  match o with
  | OpConsume tokens ty clk => let! (r, l) := consume l tokens ty clk in Ret (Some r, l)
  | OpReplenish tokens ty => let! l := manual_replenish l tokens ty in Ret (None, l)
  | OpUpdate bytes ops_ => Ret (None, update_buckets l bytes ops_)
  | OpEvent n => let '(_, l) := event_handler l n in Ret (None, l)
  end.

Fixpoint lim_run (l : RateLimiter) (os : list lim_op) : outcome (list bool * RateLimiter) :=
  match os with
  | [] => Ret ([], l)
  | o :: os =>
      let! (r, l) := lim_step l o in
      let! (rs, l) := lim_run l os in
      Ret (match r with Some b => b :: rs | None => rs end, l)
  end.

Definition expires (o : lim_op) : bool := match o with OpEvent n => negb (n =? 0) | _ => false end.

Lemma lim_step_blocked l o r l' :
  timer_active l = true -> expires o = false -> lim_step l o = Ret (r, l') ->
  timer_active l' = true /\ r <> Some true.
Proof.
  intros Ha He E. destruct o as [tokens ty clk|tokens ty|bytes ops_|n]; simpl in E.
  - unfold consume in E. rewrite Ha in E. by injection E as <- <-.
  - bind_inv E. injection E as <- <-. split; [|done]. unfold manual_replenish in Ha0.
    destruct (bucket_of l ty); [|by injection Ha0 as <-]. bind_inv Ha0. injection Ha0 as <-. by destruct ty.
  - by injection E as <- <-.
  - simpl in He. apply negb_false_iff in He. unfold event_handler in E. rewrite He in E. by injection E as <- <-.
Qed.

(** The blocking protocol.  After [consume] has refused, every sequence of
    calls without a timer expiration leaves the limiter blocked and every
    [consume] in it refused; the event handler, on an expiration, unblocks. *)
Theorem blocked_until_expiration l tokens ty clk l1 os rs l2 :
  consume l tokens ty clk = Ret (false, l1) -> Forall (fun o => expires o = false) os ->
  lim_run l1 os = Ret (rs, l2) ->
  is_blocked l2 = true /\ Forall (fun r => r = false) rs /\
  forall n, n <> 0 -> exists l3, event_handler l2 n = (Ok tt, l3) /\ is_blocked l3 = false.
Proof.
  intros E Hos Er.
  assert (Hb : timer_active l1 = true).
  { unfold consume in E. destruct (timer_active l) eqn:Ea; [by injection E as <-|].
    destruct (bucket_of l ty) as [b|]; [|done]. bind_inv E. destruct a as [[] b']; try done.
    injection E as <-. by destruct (timer_active (set_bucket l ty b')) eqn:E2. }
  assert (Hrun : timer_active l2 = true /\ Forall (fun r => r = false) rs).
  { clear E. revert l1 rs Hb Er. induction Hos as [|o os Ho Hos IH]; intros l1 rs Hb Er; simpl in Er.
    { by injection Er as <- <-. }
    bind_inv Er. destruct a as [r l']. bind_inv Er. destruct a as [rs' l'']. injection Er as <- <-.
    destruct (lim_step_blocked _ _ _ _ Hb Ho Ha) as [Hb' Hr].
    destruct (IH _ _ Hb' Ha0) as [? ?]. split; [done|]. destruct r as [[]|]; [done|by constructor|done]. }
  destruct Hrun. split_and!; auto. intros n Hn. unfold event_handler.
  rewrite (proj2 (Z.eqb_neq _ _)) by done. eauto.
Qed.

Lemma blocked_until_expiration_witness :
  exists l1 l2, consume ex_limiter 900 Bytes (0, 0) = Ret (false, l1) /\
    lim_run l1 [OpEvent 0; OpConsume 1 Ops (0, 0)] = Ret ([false], l2) /\ is_blocked l2 = true.
Proof.
  eexists _, _. split; [vm_compute; reflexivity|]. split; [vm_compute; reflexivity|].
  eapply (blocked_until_expiration ex_limiter 900 Bytes (0, 0) _ [OpEvent 0; OpConsume 1 Ops (0, 0)] [false]);
    [vm_compute; reflexivity | by repeat constructor | vm_compute; reflexivity].
Defined.

(** ** What the code does after long idle times *)

(** The product in [auto_replenish] leaves 64 bits for a bucket of 1000003
    tokens a second after about five hours without a refill. *)
Lemma auto_replenish_overflows :
  match TokenBucket_new 1000003 0 1000 0 with
  | Ret b => match reduce b 1000003 (0, 0) with
             | Ret (Success, b) => reduce b 1 (20000000000000, 20000000000000) = Panic
             | _ => False
             end
  | Panic => False
  end.
Proof. by vm_compute. Qed.

(** The over-consumption ratio of the unit test: 2500 tokens of a full bucket of 1000. *)
Lemma over_consumption_ratio :
  reduce (set_budget ex_bucket 1000) 2500 (1000000000, 1000000000) =
  Ret (OverConsumption (S754_finite false 6755399441055744 (-52)),
       mkTokenBucket 1000 0 1000 0 0 1000000000 1 1000000).
Proof. by vm_compute. Qed.

(** ** What the code does to requests larger than the bucket

    [consume] blocks the limiter for the time in which the excess refills, to
    enforce the limit, but the bucket refills during this time as well: with
    requests for twice the capacity, each made as soon as the timer has expired,
    a limiter of 1000 tokens a second grants 2000 a second. *)
Fixpoint doubled (n : nat) (l : RateLimiter) (t : Z) : outcome (list bool * RateLimiter) :=
  match n with
  | O => Ret ([], l)
  | S n =>
      let! (r, l) := consume l 2000 Bytes (t, t) in
      match timer_fd l with
      | Oneshot ms => let! (rs, l) := doubled n (event_handler l 1).2 (t + ms * NANOSEC_IN_ONE_MILLISEC) in Ret (r :: rs, l)
      | Disarmed => Ret ([r], l)
      end
  end.

Lemma over_consumption_doubles_rate :
  match doubled 10 (mkRateLimiter (Some (set_budget ex_bucket 1000)) None Disarmed false) 0 with
  | Ret (rs, l) => rs = replicate 10 true /\ (tb_last_update <$> bandwidth l) = Some 9000000000
  | Panic => False
  end.
Proof. by vm_compute. Qed.
