(* ===== verification/ConfigManager.v ===== *)
(** Configuration groups (src/src/dragonball/src/config_manager.rs):
    [ConfigInfos] and [DeviceConfigInfos], generic in the configuration type.
    [ConfigItem] is the trait: an identifier and a conflict test.  The device
    type of [DeviceConfigInfo] is arbitrary. *)

From S2P Require Import Prelude.

Class ConfigItem (T E : Type) := {
  item_id : T -> string;
  check_conflicts : T -> T -> result unit E }.

(** [iter().position(p)]. *)
Fixpoint position {A} (p : A -> bool) (l : list A) : option nat :=
  match l with
  | [] => None
  | x :: l => if p x then Some O else S <$> position p l
  end.

(** [iter().rfind(p)]. *)
Definition rfind {A} (p : A -> bool) (l : list A) : option A := head (List.filter p (reverse l)).

(** A loop whose body is [check(item)?]. *)
Fixpoint check_each {A E} (check : A -> result unit E) (l : list A) : result unit E :=
  match l with
  | [] => Ok tt
  | x :: l => match check x with Ok _ => check_each check l | Err e => Err e end
  end.

(** The same loop over [enumerate()], skipping the index [index]. *)
Fixpoint check_others {A E} (check : A -> result unit E) (index idx : nat) (l : list A) : result unit E :=
  match l with
  | [] => Ok tt
  | x :: l =>
      if bool_decide (idx = index) then check_others check index (S idx) l
      else match check x with Ok _ => check_others check index (S idx) l | Err e => Err e end
  end.

(** [Vec::remove]. *)
Definition vec_remove {A} (l : list A) (i : nat) : option A * list A := (l !! i, take i l ++ drop (S i) l).

(** ** [ConfigInfos] *)

Section Configs.
Context {T E : Type} `{ConfigItem T E}.
Implicit Types (configs : list T) (config : T).

Definition same_id (a b : T) : bool := bool_decide (item_id a = item_id b).

Definition Configs_index configs config : option nat := position (fun cfg => same_id cfg config) configs.

Definition Configs_insert configs config : result unit E * list T :=
  match check_each (check_conflicts config) configs with
  | Ok _ => (Ok tt, configs ++ [config])
  | Err e => (Err e, configs)
  end.

Definition Configs_update configs config (err : E) : result unit E * list T :=
  match Configs_index configs config with
  | None => (Err err, configs)
  | Some index =>
      match check_others (check_conflicts config) index 0 configs with
      | Ok _ => (Ok tt, <[index := config]> configs)
      | Err e => (Err e, configs)
      end
  end.

Definition Configs_insert_or_update configs config : result unit E * list T :=
  match Configs_index configs config with
  | None =>
      match check_each (check_conflicts config) configs with
      | Ok _ => (Ok tt, configs ++ [config])
      | Err e => (Err e, configs)
      end
  | Some index =>
      match check_others (check_conflicts config) index 0 configs with
      | Ok _ => (Ok tt, <[index := config]> configs)
      | Err e => (Err e, configs)
      end
  end.

Definition Configs_remove configs config : option T * list T :=
  match Configs_index configs config with
  | Some index => vec_remove configs index
  | None => (None, configs)
  end.

Definition Configs_get_by_id configs item : option T := rfind (fun cfg => same_id cfg item) configs.

(** ** [DeviceConfigInfos] *)

Context {D : Type}.

Record DeviceConfigInfo := mkDCI { dci_config : T; dci_device : option D }.
Implicit Types (infos : list DeviceConfigInfo).

Definition DeviceConfigInfo_new config : DeviceConfigInfo := mkDCI config None.
Definition set_device (i : DeviceConfigInfo) (device : D) : DeviceConfigInfo := mkDCI (dci_config i) (Some device).

Definition Infos_index infos config : option nat :=
  position (fun info => same_id (dci_config info) config) infos.

Definition Infos_insert_or_update infos config : result nat E * list DeviceConfigInfo :=
  let device_info := DeviceConfigInfo_new config in
  match Infos_index infos config with
  | Some index =>
      match check_others (fun info => check_conflicts (dci_config info) config) index 0 infos with
      | Ok _ => (Ok index, alter (fun info => mkDCI config (dci_device info)) index infos)
      | Err e => (Err e, infos)
      end
  | None =>
      match check_each (fun info => check_conflicts (dci_config info) config) infos with
      | Ok _ => (Ok (length (infos ++ [device_info]) - 1)%nat, infos ++ [device_info])
      | Err e => (Err e, infos)
      end
  end.

Definition Infos_remove infos (index : nat) : option DeviceConfigInfo * list DeviceConfigInfo :=
  if (index <? length infos)%nat then vec_remove infos index else (None, infos).

Definition Infos_push infos (info : DeviceConfigInfo) : list DeviceConfigInfo := infos ++ [info].
Definition Infos_pop infos : option DeviceConfigInfo * list DeviceConfigInfo :=
  (last infos, take (length infos - 1) infos).

(** [Index]: out of range panics. *)
Definition Infos_get infos (idx : nat) : outcome DeviceConfigInfo := unwrap (infos !! idx).

End Configs.
Arguments DeviceConfigInfo : clear implicits.

(** ** Lemmas *)

Section Lemmas.
Context {A E : Type}.

Lemma position_spec (p : A -> bool) l :
  match position p l with
  | Some i => exists x, l !! i = Some x /\ p x = true /\ forall j y, (j < i)%nat -> l !! j = Some y -> p y = false
  | None => forall x, x ∈ l -> p x = false
  end.
Proof.
  induction l as [|x l IH]; simpl; [by intros ? ?%elem_of_nil|]. destruct (p x) eqn:Ex.
  - exists x. split_and!; auto. lia.
  - destruct (position p l) as [i|]; simpl.
    + destruct IH as (y & Hy & Hp & Hj). exists y. split_and!; auto. intros [|j] z Hlt Hz; [naive_solver|].
      apply (Hj j); [lia|done].
    + intros y [->|Hy]%elem_of_cons; auto.
Qed.

Lemma check_each_spec (check : A -> result unit E) l :
  match check_each check l with
  | Ok _ => forall x, x ∈ l -> check x = Ok tt
  | Err e => exists x, x ∈ l /\ check x = Err e
  end.
Proof.
  induction l as [|x l IH]; simpl; [by intros ? ?%elem_of_nil|]. destruct (check x) as [[]|e] eqn:Ex.
  - destruct (check_each check l); [set_solver|]. destruct IH as (y & ? & ?). exists y. set_solver.
  - exists x. set_solver.
Qed.

Lemma check_others_spec (check : A -> result unit E) index idx l :
  match check_others check index idx l with
  | Ok _ => forall j x, l !! j = Some x -> (idx + j)%nat <> index -> check x = Ok tt
  | Err e => exists j x, l !! j = Some x /\ (idx + j)%nat <> index /\ check x = Err e
  end.
Proof.
  revert idx. induction l as [|x l IH]; intros idx; simpl; [done|]. specialize (IH (S idx)).
  assert (Hs : forall j, (idx + S j)%nat = (S idx + j)%nat) by lia.
  destruct (bool_decide_reflect (idx = index)) as [Hi|Hi].
  - destruct (check_others check index (S idx) l).
    + intros [|j] y Hy Hj; [lia|]. apply (IH j); [done|lia].
    + destruct IH as (j & y & ? & ? & ?). exists (S j), y. split_and!; auto. lia.
  - destruct (check x) as [[]|e] eqn:Ex.
    + destruct (check_others check index (S idx) l).
      * intros [|j] y Hy Hj; [by injection Hy as <-|]. apply (IH j); [done|lia].
      * destruct IH as (j & y & ? & ? & ?). exists (S j), y. split_and!; auto. lia.
    + exists 0%nat, x. split_and!; auto. lia.
Qed.

End Lemmas.

Section Spec.
Context {T E : Type} `{ConfigItem T E}.
Implicit Types (l : list T) (c : T).

(** Distinct positions hold distinct identifiers. *)
Definition ids_unique l : Prop := NoDup (item_id <$> l).

(** Any two items were found free of conflict, one against the other. *)
Definition compatible l : Prop :=
  forall i j a b, i <> j -> l !! i = Some a -> l !! j = Some b ->
    check_conflicts a b = Ok tt \/ check_conflicts b a = Ok tt.

Lemma compatible_snoc l c :
  compatible l -> (forall x, x ∈ l -> check_conflicts c x = Ok tt \/ check_conflicts x c = Ok tt) ->
  compatible (l ++ [c]).
Proof.
  intros Hc Hn i j a b Hij Ha Hb.
  apply lookup_app_Some in Ha as [Ha|[Hi Ha]], Hb as [Hb|[Hj Hb]]; try by apply (Hc i j a b).
  - apply list_lookup_singleton_Some in Hb as [? <-]. apply list_elem_of_lookup_2 in Ha. destruct (Hn a Ha); auto.
  - apply list_lookup_singleton_Some in Ha as [? <-]. apply list_elem_of_lookup_2 in Hb. destruct (Hn b Hb); auto.
  - apply list_lookup_singleton_Some in Ha as [? <-], Hb as [? <-]. lia.
Qed.

Lemma compatible_insert l c k :
  compatible l ->
  (forall j x, l !! j = Some x -> j <> k -> check_conflicts c x = Ok tt \/ check_conflicts x c = Ok tt) ->
  compatible (<[k := c]> l).
Proof.
  intros Hc Hn i j a b Hij Ha Hb.
  apply list_lookup_insert_Some in Ha as [(-> & -> & ?)|[Hi Ha]], Hb as [(-> & -> & ?)|[Hj Hb]]; try done.
  - destruct (Hn j b); auto.
  - destruct (Hn i a); auto.
  - by apply (Hc i j a b).
Qed.

Lemma ids_snoc l c : ids_unique l -> (forall x, x ∈ l -> item_id x <> item_id c) -> ids_unique (l ++ [c]).
Proof.
  intros Hu Hn. unfold ids_unique. rewrite fmap_app. apply NoDup_app. split_and!; [done| |apply NoDup_singleton].
  intros i Hi. apply list_elem_of_fmap in Hi as (x & -> & Hx). simpl. rewrite list_elem_of_singleton. auto.
Qed.

Lemma ids_insert l c k x : l !! k = Some x -> item_id x = item_id c -> item_id <$> <[k := c]> l = item_id <$> l.
Proof.
  intros Hk He. rewrite list_fmap_insert. apply list_insert_id. by rewrite list_lookup_fmap, Hk, <- He.
Qed.

(** [ConfigInfos::insert_or_update] keeps the identifiers distinct and the
    configurations compatible.  On success exactly the entry with the
    configuration's identifier changes, in place, or the configuration is
    appended; an error leaves the group as it was and is the error of some
    other entry. *)
Theorem Configs_insert_or_update_correct l c :
  ids_unique l -> compatible l ->
  exists r l', Configs_insert_or_update l c = (r, l') /\
    match r with
    | Ok _ => ids_unique l' /\ compatible l' /\
        ((exists k x, l !! k = Some x /\ item_id x = item_id c /\ l' = <[k := c]> l) \/
         ((forall x, x ∈ l -> item_id x <> item_id c) /\ l' = l ++ [c]))
    | Err e => l' = l /\ exists j x, l !! j = Some x /\ check_conflicts c x = Err e
    end.
Proof.
  intros Hu Hc. unfold Configs_insert_or_update, Configs_index.
  pose proof (position_spec (fun cfg => same_id cfg c) l) as Hp.
  destruct (position _ l) as [k|].
  - destruct Hp as (x & Hk & Hid%bool_decide_eq_true & _).
    pose proof (check_others_spec (check_conflicts c) k 0 l) as Hch.
    destruct (check_others _ _ _ _); eexists _, _; (split; [reflexivity|]).
    + split_and!; [unfold ids_unique; by erewrite ids_insert| |left; eauto].
      apply compatible_insert; [done|]. intros j y Hj Hne. left. by eapply Hch.
    + destruct Hch as (j & y & ? & _ & ?). eauto.
  - pose proof (check_each_spec (check_conflicts c) l) as Hch.
    assert (Hn : forall x, x ∈ l -> item_id x <> item_id c) by (intros x Hx; by apply Hp, bool_decide_eq_false in Hx).
    destruct (check_each _ _); eexists _, _; (split; [reflexivity|]).
    + split_and!; [by apply ids_snoc|apply compatible_snoc; auto|right; auto].
    + split; [done|]. destruct Hch as (x & Hx & ?). apply list_elem_of_lookup in Hx as [j ?]. eauto.
Qed.

(** [DeviceConfigInfos::insert_or_update] on every branch: it keeps the
    identifiers distinct and the configurations compatible, and returns the
    index that now holds the configuration; a device object already attached to
    that entry stays attached, and all other entries are unchanged.  An error
    leaves the group as it was. *)
Theorem Infos_insert_or_update_correct {D} (infos : list (DeviceConfigInfo T D)) c :
  ids_unique (dci_config <$> infos) -> compatible (dci_config <$> infos) ->
  exists r infos', Infos_insert_or_update infos c = (r, infos') /\
    match r with
    | Ok k => ids_unique (dci_config <$> infos') /\ compatible (dci_config <$> infos') /\
        infos' !! k = Some (mkDCI c (info ← infos !! k; dci_device info)) /\
        forall j, j <> k -> infos' !! j = infos !! j
    | Err e => infos' = infos /\ exists j x, infos !! j = Some x /\ check_conflicts (dci_config x) c = Err e
    end.
Proof.
  intros Hu Hc. unfold Infos_insert_or_update, Infos_index.
  pose proof (position_spec (fun info => same_id (dci_config info) c) infos) as Hp.
  destruct (position _ infos) as [k|].
  - destruct Hp as (x & Hk & Hid%bool_decide_eq_true & _).
    pose proof (check_others_spec (fun info => check_conflicts (dci_config info) c) k 0 infos) as Hch.
    assert (Hf : dci_config <$> alter (fun info => mkDCI c (dci_device info)) k infos =
                 <[k := c]> (dci_config <$> infos)).
    { apply list_eq. intros j. rewrite list_lookup_fmap. destruct (decide (j = k)) as [->|Hne].
      - rewrite list_lookup_alter_eq, list_lookup_insert_eq, Hk; [done|].
        rewrite length_fmap. by eapply lookup_lt_Some.
      - by rewrite list_lookup_alter_ne, list_lookup_insert_ne, list_lookup_fmap. }
    destruct (check_others _ _ _ _); eexists _, _; (split; [reflexivity|]).
    + rewrite Hf. split_and!.
      * unfold ids_unique. erewrite ids_insert; [done|by rewrite list_lookup_fmap, Hk|done].
      * apply compatible_insert; [done|]. intros j y Hj Hne. rewrite list_lookup_fmap_Some in Hj.
        destruct Hj as (z & -> & Hj). right. by eapply (Hch j).
      * by rewrite list_lookup_alter_eq, Hk.
      * intros j Hj. by rewrite list_lookup_alter_ne.
    + destruct Hch as (j & y & ? & _ & ?). eauto.
  - pose proof (check_each_spec (fun info => check_conflicts (dci_config info) c) infos) as Hch.
    assert (Hn : forall x, x ∈ dci_config <$> infos -> item_id x <> item_id c).
    { intros x (y & -> & Hy)%list_elem_of_fmap. by apply Hp, bool_decide_eq_false in Hy. }
    destruct (check_each _ _); eexists _, _; (split; [reflexivity|]).
    + rewrite fmap_app, length_app, Nat.add_sub. simpl. split_and!; [by apply ids_snoc| | |].
      * apply compatible_snoc; [done|]. intros x (y & -> & Hy)%list_elem_of_fmap. right. by apply Hch.
      * by rewrite lookup_app_r, Nat.sub_diag, (lookup_ge_None_2 infos) by lia.
      * intros j Hj. destruct (decide (j < length infos)%nat); [by rewrite lookup_app_l|].
        rewrite (lookup_ge_None_2 infos) by lia. apply lookup_ge_None_2. rewrite length_app. simpl. lia.
    + split; [done|]. destruct Hch as (x & Hx & ?). apply list_elem_of_lookup in Hx as [j ?]. eauto.
Qed.

End Spec.

(** Numbers as configurations: the identifier is the parity. *)
#[local] Instance parity_config : ConfigItem Z Z := {
  item_id c := if c mod 2 =? 0 then "even" else "odd";
  check_conflicts a b := if a =? b + 1 then Err a else Ok tt }.

Lemma Configs_insert_or_update_correct_witness :
  exists r l', Configs_insert_or_update [4; 7] 10 = (r, l') /\
    match r with
    | Ok _ => ids_unique l' /\ compatible l' /\
        ((exists k x, [4; 7] !! k = Some x /\ item_id x = item_id 10 /\ l' = <[k := 10]> [4; 7]) \/
         ((forall x, x ∈ [4; 7] -> item_id x <> item_id 10) /\ l' = [4; 7] ++ [10]))
    | Err e => l' = [4; 7] /\ exists j x, [4; 7] !! j = Some x /\ check_conflicts 10 x = Err e
    end.
Proof.
  apply (Configs_insert_or_update_correct [4; 7] 10).
  - apply (bool_decide_unpack _). by vm_compute.
  - intros [|[|[|i]]] [|[|[|j]]] a b Hij Ha Hb; simpl in Ha, Hb; simplify_eq; by left.
Defined.

Lemma Infos_insert_or_update_correct_witness :
  exists r infos', Infos_insert_or_update [mkDCI 4 (Some true); mkDCI 7 None] 10 = (r, infos') /\
    match r with
    | Ok k => ids_unique (dci_config <$> infos') /\ compatible (dci_config <$> infos') /\
        infos' !! k = Some (mkDCI 10 (info ← [mkDCI 4 (Some true); mkDCI 7 None] !! k; dci_device info)) /\
        forall j, j <> k -> infos' !! j = [mkDCI 4 (Some true); mkDCI 7 None] !! j
    | Err e => infos' = [mkDCI 4 (Some true); mkDCI 7 None] /\
        exists j x, [mkDCI 4 (Some true); mkDCI 7 None] !! j = Some x /\ check_conflicts (dci_config x) 10 = Err e
    end.
Proof.
  apply (Infos_insert_or_update_correct [mkDCI 4 (Some true); mkDCI 7 None] 10).
  - apply (bool_decide_unpack _). by vm_compute.
  - intros [|[|[|i]]] [|[|[|j]]] a b Hij Ha Hb; simpl in Ha, Hb; simplify_eq; by left.
Defined.
