(* ===== verification/AddressSpace.v ===== *)
(** Guest physical address spaces (src/src/dragonball/src/dbs_address_space/src):
    regions ([region.rs]), the source types of guest memory ([memory/mod.rs]),
    the layout ([layout.rs]), NUMA nodes ([numa.rs]) and the address space with
    and without hotplug ([address_space.rs]).

    [GuestAddress] and [GuestUsize] are [u64] values.  The files that back a
    region and the system calls that make them are parameters. *)

From stdpp Require Import sorting.
From S2P Require Import Prelude.

(** ** Regions *)

Inductive AddressSpaceRegionType := DefaultMemory | DeviceMemory | DAXMemory.

#[global] Instance AddressSpaceRegionType_eq_dec : EqDecision AddressSpaceRegionType.
Proof. solve_decision. Defined.

(** [libc] flags on Linux. *)
Definition MAP_SHARED : Z := 1.
Definition MAP_PRIVATE : Z := 2.
Definition MAP_ANONYMOUS : Z := 32.
Definition MAP_POPULATE : Z := 32768.
Definition PROT_READ : Z := 1.
Definition PROT_WRITE : Z := 2.

Section AddressSpace.
(** The type of open files; [FileOffset] is a file and an offset. *)
Context {File : Type}.

Record AddressSpaceRegion := mkRegion {
  ty : AddressSpaceRegionType;
  base : Z;
  size : Z;
  host_numa_node_id : option Z;
  file_offset : option (File * Z);
  perm_flags : Z;
  prot_flags : Z;
  is_hugepage : bool;
  is_hotplug : bool;
  is_anon : bool }.

Definition Region_new (t : AddressSpaceRegionType) (b s : Z) : AddressSpaceRegion :=
  mkRegion t b s None None MAP_SHARED (Z.lor PROT_READ PROT_WRITE) false false false.

Definition set_host_numa_node_id (r : AddressSpaceRegion) (n : option Z) :=
  mkRegion (ty r) (base r) (size r) n (file_offset r) (perm_flags r) (prot_flags r)
    (is_hugepage r) (is_hotplug r) (is_anon r).
Definition set_file_offset (r : AddressSpaceRegion) (f : option (File * Z)) :=
  mkRegion (ty r) (base r) (size r) (host_numa_node_id r) f (perm_flags r) (prot_flags r)
    (is_hugepage r) (is_hotplug r) (is_anon r).
Definition set_perm_flags (r : AddressSpaceRegion) (x : Z) :=
  mkRegion (ty r) (base r) (size r) (host_numa_node_id r) (file_offset r) x (prot_flags r)
    (is_hugepage r) (is_hotplug r) (is_anon r).
Definition set_prot_flags (r : AddressSpaceRegion) (x : Z) :=
  mkRegion (ty r) (base r) (size r) (host_numa_node_id r) (file_offset r) (perm_flags r) x
    (is_hugepage r) (is_hotplug r) (is_anon r).
Definition set_hotplug (r : AddressSpaceRegion) :=
  mkRegion (ty r) (base r) (size r) (host_numa_node_id r) (file_offset r) (perm_flags r) (prot_flags r)
    (is_hugepage r) true (is_anon r).
Definition set_hugepage (r : AddressSpaceRegion) :=
  mkRegion (ty r) (base r) (size r) (host_numa_node_id r) (file_offset r) (perm_flags r) (prot_flags r)
    true (is_hotplug r) (is_anon r).
Definition set_anonpage (r : AddressSpaceRegion) :=
  mkRegion (ty r) (base r) (size r) (host_numa_node_id r) (file_offset r) (perm_flags r) (prot_flags r)
    (is_hugepage r) (is_hotplug r) true.

(** [AddressSpaceRegion::build]. *)
Definition Region_build (t : AddressSpaceRegionType) (b s : Z) (numa : option Z) (f : option (File * Z))
    (perm prot : Z) (hotplug : bool) : AddressSpaceRegion :=
  let region := Region_new t b s in
  let region := set_host_numa_node_id region numa in
  let region := set_file_offset region f in
  let region := set_perm_flags region perm in
  let region := set_prot_flags region prot in
  if hotplug then set_hotplug region else region.

(** [is_valid], [last_addr] (with its [debug_assert!]) and [intersect_with]. *)
Definition is_valid (r : AddressSpaceRegion) : bool :=
  (size r >? 0) && match checked_add u64_max (base r) (size r) with Some _ => true | None => false end.

Definition Region_last_addr (r : AddressSpaceRegion) : outcome Z :=
  if is_valid r then
    let! e := add_u u64_max (base r) (size r) in
    sub_u e 1
  else Panic.

Definition intersect_with (r other : AddressSpaceRegion) : bool :=
  match checked_add u64_max (base r) (size r) with
  | None => true
  | Some end1 =>
      match checked_add u64_max (base other) (size other) with
      | None => true
      | Some end2 => negb ((end1 <=? base other) || (base r >=? end2))
      end
  end.

(** [create_device_region]. *)
Definition create_device_region (b s : Z) : AddressSpaceRegion :=
  Region_build DeviceMemory b s None None 0 0 false.

(** ** The layout *)

Record AddressSpaceLayout := mkLayout { phys_end : Z; mem_start : Z; mem_end : Z; usable_end : Z }.

(** [AddressSpaceLayout::new]; [usable] is [USABLE_END], read from /proc/meminfo. *)
Definition Layout_new (usable pe ms me : Z) : AddressSpaceLayout := mkLayout pe ms me usable.

Definition is_region_valid (l : AddressSpaceLayout) (region : AddressSpaceRegion) : bool :=
  match checked_add u64_max (base region) (size region) with
  | None => false
  | Some region_end =>
      match ty region with
      | DefaultMemory => negb ((base region <? mem_start l) || (region_end >? mem_end l))
      | DeviceMemory | DAXMemory => negb ((base region <? mem_end l) || (region_end >? phys_end l))
      end
  end.

(** ** The address space *)

Inductive AddressSpaceError {Errno : Type} :=
| InvalidRegionType
| InvalidAddressRange (start len : Z)
| InvalidMemorySourceType (s : string)
| CreateMemFd (e : Errno)
| OpenFile (e : Errno)
| CreateDir (e : Errno)
| SetFileSize (e : Errno)
| UnlinkFile (e : Errno).
Arguments AddressSpaceError : clear implicits.

Context {Errno : Type}.

Record AddressSpaceBase := mkASB { regions : list AddressSpaceRegion; layout : AddressSpaceLayout }.

Definition base_le (a b : AddressSpaceRegion) : Prop := base a <= base b.
#[global] Instance base_le_dec : RelDecision base_le.
Proof. intros a b. unfold base_le. apply _. Defined.

(** [regions[idx].intersect_with(&regions[idx - 1])] for each [idx] from 1. *)
Fixpoint adjacent_intersect (rs : list AddressSpaceRegion) : bool :=
  match rs with
  | r1 :: (r2 :: _) as rest => intersect_with r2 r1 || adjacent_intersect rest
  | _ => false
  end.

(** [AddressSpaceBase::from_regions]: sorts by base, panics on a region the
    layout does not admit and on neighbours that intersect. *)
Definition Base_from_regions (rs : list AddressSpaceRegion) (l : AddressSpaceLayout) : outcome AddressSpaceBase :=
  let rs := merge_sort base_le rs in
  if negb (forallb (is_region_valid l) rs) then Panic
  else if adjacent_intersect rs then Panic
  else Ret (mkASB rs l).

(** [AddressSpaceBase::insert_region]. *)
Definition Base_insert_region (s : AddressSpaceBase) (region : AddressSpaceRegion) :
    result unit (AddressSpaceError Errno) * AddressSpaceBase :=
  if negb (is_region_valid (layout s) region) then
    (Err (InvalidAddressRange (base region) (size region)), s)
  else if existsb (fun r => intersect_with r region) (regions s) then
    (Err (InvalidAddressRange (base region) (size region)), s)
  else (Ok tt, mkASB (regions s ++ [region]) (layout s)).

(** [walk_regions] with a callback on a state. *)
Fixpoint walk_list {S E} (cb : AddressSpaceRegion -> S -> result unit E * S) (rs : list AddressSpaceRegion) (st : S) :
    result unit E * S :=
  match rs with
  | [] => (Ok tt, st)
  | reg :: rs => let '(r, st) := cb reg st in
                 match r with Ok _ => walk_list cb rs st | Err e => (Err e, st) end
  end.
Definition walk_regions {S E} (s : AddressSpaceBase) (cb : AddressSpaceRegion -> S -> result unit E * S) (st : S) :
    result unit E * S := walk_list cb (regions s) st.

(** [last_addr]. *)
Fixpoint last_addr_from (rs : list AddressSpaceRegion) (last : Z) : outcome Z :=
  match rs with
  | [] => Ret last
  | reg :: rs =>
      if negb (bool_decide (ty reg = DAXMemory)) then
        let! a := Region_last_addr reg in
        last_addr_from rs (if a >? last then a else last)
      else last_addr_from rs last
  end.
Definition Base_last_addr (s : AddressSpaceBase) : outcome Z := last_addr_from (regions s) (mem_start (layout s)).

(** [is_dax_region]: the sum is evaluated only when the comparisons before it hold. *)
Fixpoint dax_in (rs : list AddressSpaceRegion) (a : Z) : outcome bool :=
  match rs with
  | [] => Ret false
  | reg :: rs =>
      if bool_decide (ty reg = DAXMemory) && (base reg <=? a) then
        let! e := add_u u64_max (base reg) (size reg) in
        if e >? a then Ret true else dax_in rs a
      else dax_in rs a
  end.
Definition is_dax_region (s : AddressSpaceBase) (guest_addr : Z) : outcome bool := dax_in (regions s) guest_addr.

(** The first region that holds the address, as [prot_flags] and [numa_node_id] search it. *)
Fixpoint find_region (rs : list AddressSpaceRegion) (a : Z) : outcome (option AddressSpaceRegion) :=
  match rs with
  | [] => Ret None
  | reg :: rs =>
      if base reg <=? a then
        let! e := add_u u64_max (base reg) (size reg) in
        if e >? a then Ret (Some reg) else find_region rs a
      else find_region rs a
  end.

Definition Base_prot_flags (s : AddressSpaceBase) (guest_addr : Z) : outcome (result Z (AddressSpaceError Errno)) :=
  let! o := find_region (regions s) guest_addr in
  Ret (match o with Some reg => Ok (prot_flags reg) | None => Err InvalidRegionType end).

Definition Base_numa_node_id (s : AddressSpaceBase) (gpa : Z) : outcome (option Z) :=
  let! o := find_region (regions s) gpa in
  Ret (match o with Some reg => host_numa_node_id reg | None => None end).

(** [AddressSpace]: an [ArcSwap] of the base; [insert_region] builds a new base
    from the current regions and swaps it in when the insertion succeeded. *)
Definition AddressSpace_insert_region (state : AddressSpaceBase) (region : AddressSpaceRegion) :
    outcome (result unit (AddressSpaceError Errno) * AddressSpaceBase) :=
  let! b := Base_from_regions (regions state) (layout state) in
  match Base_insert_region b region with
  | (Ok _, b) => Ret (Ok tt, b)
  | (Err e, _) => Ret (Err e, state)
  end.

(** ** Creating memory regions *)

Inductive MemorySourceType :=
| FileOnHugeTlbFs
| MmapAnonymous
| MmapAnonymousHugeTlbFs
| MemFdShared
| MemFdOnHugeTlbFs.

Definition source_is_hugepage (t : MemorySourceType) : bool :=
  match t with FileOnHugeTlbFs | MmapAnonymousHugeTlbFs | MemFdOnHugeTlbFs => true | _ => false end.
Definition is_mmap_anonymous (t : MemorySourceType) : bool :=
  match t with MmapAnonymous | MmapAnonymousHugeTlbFs => true | _ => false end.

(** [FromStr]. *)
Definition MemorySourceType_from_str (s : string) : option MemorySourceType :=
  if String.eqb s "hugetlbfs" then Some FileOnHugeTlbFs
  else if String.eqb s "memfd" then Some MemFdShared
  else if String.eqb s "shmem" then Some MemFdShared
  else if String.eqb s "hugememfd" then Some MemFdOnHugeTlbFs
  else if String.eqb s "hugeshmem" then Some MemFdOnHugeTlbFs
  else if String.eqb s "anon" then Some MmapAnonymous
  else if String.eqb s "mmap" then Some MmapAnonymous
  else if String.eqb s "hugeanon" then Some MmapAnonymousHugeTlbFs
  else if String.eqb s "hugemmap" then Some MmapAnonymousHugeTlbFs
  else None.

(** The file operations of the host, on a world [W]. *)
Record FileOps (W : Type) := mkFileOps {
  memfd_create : string -> W -> result File Errno * W;
  set_len : File -> Z -> W -> result unit Errno * W;
  path_parent : string -> option string;
  create_dir_all : string -> W -> result unit Errno * W;
  open_rw_create : string -> W -> result File Errno * W;
  unlink : string -> W -> result unit Errno * W }.
Arguments memfd_create {W}.
Arguments set_len {W}.
Arguments path_parent {W}.
Arguments create_dir_all {W}.
Arguments open_rw_create {W}.
Arguments unlink {W}.

Section Create.
Context {W : Type} (host : FileOps W).

(** The three arms of the match on the source type, up to [Self::build]. *)
Definition memfd_region (shared : bool) (b s : Z) (numa : option Z) (perm prot : Z) (hotplug : bool) (w : W) :
    result AddressSpaceRegion (AddressSpaceError Errno) * W :=
  let fn_str := if shared then "shmem"%string else "hugeshmem"%string in
  match memfd_create host fn_str w with
  | (Err e, w) => (Err (CreateMemFd e), w)
  | (Ok file, w) =>
      match set_len host file s w with
      | (Err e, w) => (Err (SetFileSize e), w)
      | (Ok _, w) => (Ok (Region_build DefaultMemory b s numa (Some (file, 0)) perm prot hotplug), w)
      end
  end.

Definition hugetlbfs_region (path : string) (b s : Z) (numa : option Z) (perm prot : Z) (hotplug : bool) (w : W) :
    result AddressSpaceRegion (AddressSpaceError Errno) * W :=
  let '(r, w) := match path_parent host path with
                 | Some parent_dir => create_dir_all host parent_dir w
                 | None => (Ok tt, w)
                 end in
  match r with
  | Err e => (Err (CreateDir e), w)
  | Ok _ =>
      match open_rw_create host path w with
      | (Err e, w) => (Err (OpenFile e), w)
      | (Ok file, w) =>
          match unlink host path w with
          | (Err e, w) => (Err (UnlinkFile e), w)
          | (Ok _, w) =>
              match set_len host file s w with
              | (Err e, w) => (Err (SetFileSize e), w)
              | (Ok _, w) => (Ok (Region_build DefaultMemory b s numa (Some (file, 0)) perm prot hotplug), w)
              end
          end
      end
  end.

Definition create_memory_region (b s : Z) (numa_node_id : option Z) (mem_type mem_file_path : string)
    (mem_prealloc : bool) (prot : Z) (hotplug : bool) (w : W) :
    result AddressSpaceRegion (AddressSpaceError Errno) * W :=
  let perm := if mem_prealloc then Z.lor MAP_SHARED MAP_POPULATE else MAP_SHARED in
  match MemorySourceType_from_str mem_type with
  | None => (Err (InvalidMemorySourceType mem_type), w)
  | Some source_type =>
      let '(r, w) :=
        match source_type with
        | MemFdShared => memfd_region true b s numa_node_id perm prot hotplug w
        | MemFdOnHugeTlbFs => memfd_region false b s numa_node_id perm prot hotplug w
        | MmapAnonymous | MmapAnonymousHugeTlbFs =>
            let perm := Z.lor MAP_PRIVATE MAP_ANONYMOUS in
            let perm := if mem_prealloc then Z.lor perm MAP_POPULATE else perm in
            (Ok (Region_build DefaultMemory b s numa_node_id None perm prot hotplug), w)
        | FileOnHugeTlbFs => hugetlbfs_region mem_file_path b s numa_node_id perm prot hotplug w
        end in
      match r with
      | Err e => (Err e, w)
      | Ok reg =>
          let reg := if source_is_hugepage source_type then set_hugepage reg else reg in
          let reg := if is_mmap_anonymous source_type then set_anonpage reg else reg in
          (Ok reg, w)
      end
  end.

Definition create_default_memory_region (b s : Z) (numa_node_id : option Z) (mem_type mem_file_path : string)
    (mem_prealloc hotplug : bool) (w : W) : result AddressSpaceRegion (AddressSpaceError Errno) * W :=
  create_memory_region b s numa_node_id mem_type mem_file_path mem_prealloc (Z.lor PROT_READ PROT_WRITE) hotplug w.

End Create.
End AddressSpace.
Arguments AddressSpaceRegion : clear implicits.
Arguments AddressSpaceBase : clear implicits.
Arguments FileOps : clear implicits.
Arguments AddressSpaceError : clear implicits.

(** ** NUMA nodes *)

Record NumaNodeInfo := mkNumaInfo { ni_base : Z; ni_size : Z }.
Record NumaNode := mkNumaNode { region_infos : list NumaNodeInfo; vcpu_ids : list Z }.

Definition NumaNode_new : NumaNode := mkNumaNode [] [].
Definition add_info (n : NumaNode) (info : NumaNodeInfo) : NumaNode :=
  mkNumaNode (region_infos n ++ [info]) (vcpu_ids n).
Definition add_vcpu_ids (n : NumaNode) (ids : list Z) : NumaNode :=
  mkNumaNode (region_infos n) (vcpu_ids n ++ ids).
