(* ===== verification/AddressSpaceSpec.v ===== *)
(** Properties of guest address spaces: an address space holds regions its
    layout admits and that are pairwise disjoint, whatever the order they were
    given or inserted in, and its queries answer for the one region that holds
    the address. *)

From stdpp Require Import sorting.
From S2P Require Import Prelude AddressSpace.

Section Spec.
Context {File Errno : Type}.
Implicit Types (r reg : AddressSpaceRegion File) (rs : list (AddressSpaceRegion File)) (a : Z).

(** ** Regions *)

Definition region_end r : Z := base r + size r.
Definition in_region a r : Prop := base r <= a < region_end r.
Definition disjoint_regions r1 r2 : Prop := region_end r1 <= base r2 \/ region_end r2 <= base r1.
Definition region_typed r : Prop := in_u64 (base r) /\ 0 < size r <= u64_max.

#[global] Instance disjoint_regions_sym : Symmetric disjoint_regions.
Proof. unfold disjoint_regions. intros r1 r2. lia. Qed.

Lemma checked_end r : checked_add u64_max (base r) (size r) = if region_end r <=? u64_max then Some (region_end r) else None.
Proof. done. Qed.

Lemma intersect_with_false r1 r2 :
  intersect_with r1 r2 = false <->
  region_end r1 <= u64_max /\ region_end r2 <= u64_max /\ disjoint_regions r1 r2.
Proof.
  unfold intersect_with, disjoint_regions. rewrite !checked_end.
  destruct (Z.leb_spec (region_end r1) u64_max); [|lia].
  destruct (Z.leb_spec (region_end r2) u64_max); [|lia]. rewrite negb_false_iff. lia.
Qed.

(** The condition the layout puts on a region. *)
Definition admitted (l : AddressSpaceLayout) r : Prop :=
  region_end r <= u64_max /\
  match ty r with
  | DefaultMemory => mem_start l <= base r /\ region_end r <= mem_end l
  | _ => mem_end l <= base r /\ region_end r <= phys_end l
  end.

Lemma is_region_valid_spec l r : is_region_valid l r = true <-> admitted l r.
Proof.
  unfold is_region_valid, admitted. rewrite checked_end.
  destruct (Z.leb_spec (region_end r) u64_max); [|split; [done|lia]].
  destruct (ty r); rewrite negb_true_iff; lia.
Qed.

(** ** Pairwise disjoint regions *)

Fixpoint pairwise rs : Prop :=
  match rs with
  | [] => True
  | r :: rs => Forall (disjoint_regions r) rs /\ pairwise rs
  end.

#[global] Instance pairwise_perm : Proper (Permutation ==> iff) pairwise.
Proof.
  assert (H : forall rs rs', Permutation rs rs' -> pairwise rs -> pairwise rs').
  { intros rs rs'. induction 1 as [|r rs rs' Hp IH|r1 r2 rs|]; simpl; auto.
    - intros [H1 H2]. split; [by eapply Forall_Permutation|auto].
    - rewrite !Forall_cons. intros ((? & ?) & ? & ?). split_and!; auto. by symmetry. }
  intros rs rs' Hp. split; apply H; [done|by symmetry].
Qed.

Lemma pairwise_elem rs r1 r2 a :
  pairwise rs -> r1 ∈ rs -> r2 ∈ rs -> in_region a r1 -> in_region a r2 -> r1 = r2.
Proof.
  induction rs as [|r rs IH]; [by intros _ ?%elem_of_nil|]. intros [Hf Hp] H1 H2 Ha1 Ha2.
  assert (Hd : forall r', r' ∈ rs -> in_region a r' -> ~ in_region a r).
  { intros r' Hr' Ha' Ha. rewrite Forall_forall in Hf. specialize (Hf r' Hr').
    unfold disjoint_regions, in_region in *. lia. }
  apply elem_of_cons in H1 as [->|H1], H2 as [->|H2]; auto; naive_solver.
Qed.

(** In base order, disjoint neighbours are enough. *)
Lemma sorted_pairwise rs :
  Sorted base_le rs -> Forall region_typed rs -> adjacent_intersect rs = false -> pairwise rs.
Proof.
  induction rs as [|r rs IH]; [done|]. intros Hs Ht Ha. inversion Hs as [|? ? Hs' Hh]; subst.
  inversion Ht as [|? ? Hr Ht']; subst.
  assert (Hrest : pairwise rs).
  { apply IH; auto. destruct rs as [|r2 rs]; [done|]. simpl in Ha. by apply orb_false_iff in Ha as [_ Ha]. }
  split; [|done]. destruct rs as [|r2 rs]; [done|]. simpl in Ha. apply orb_false_iff in Ha as [Ha _].
  apply intersect_with_false in Ha as (_ & _ & Hd). inversion Hh as [|? ? Hb]; subst.
  inversion Ht' as [|? ? Hr2 _]; subst. unfold disjoint_regions, region_end, region_typed, base_le in *.
  assert (Hlt : base r + size r <= base r2) by lia.
  apply Sorted_StronglySorted in Hs'; [|intros x y z; unfold base_le; lia].
  inversion Hs' as [|? ? _ Hall]; subst. constructor; [lia|]. eapply Forall_impl; [exact Hall|].
  unfold base_le. intros x Hx. simpl in Hx. lia.
Qed.

Lemma pairwise_adjacent rs :
  pairwise rs -> Forall (fun r => region_end r <= u64_max) rs -> adjacent_intersect rs = false.
Proof.
  induction rs as [|r rs IH]; [done|]. intros [Hf Hp] He. inversion He as [|? ? He1 He2]; subst.
  destruct rs as [|r2 rs]; [done|]. simpl. apply orb_false_iff. split; [|by apply IH].
  apply intersect_with_false. inversion Hf; inversion He2; subst. split_and!; auto. by symmetry.
Qed.

(** ** Construction *)

Definition merge_sort_perm rs : Permutation (merge_sort base_le rs) rs := merge_sort_Permutation base_le rs.

Lemma merge_sort_sorted rs : Sorted base_le (merge_sort base_le rs).
Proof.
  apply Sorted_merge_sort. intros x y. unfold base_le. lia.
Qed.

Lemma from_regions_ok rs l :
  Forall (admitted l) rs -> pairwise rs ->
  Base_from_regions rs l = Ret (mkASB (merge_sort base_le rs) l).
Proof.
  intros Hv Hp. unfold Base_from_regions. rewrite <- (merge_sort_perm rs) in Hv, Hp.
  rewrite (proj2 (forallb_forall _ _)).
  2: { intros r Hr. apply is_region_valid_spec. rewrite Forall_forall in Hv. by apply Hv, list_elem_of_In. }
  cbn [negb]. rewrite pairwise_adjacent; [done|done|].
  eapply Forall_impl; [exact Hv|]. by intros r [].
Qed.

Lemma from_regions_inv rs l s :
  Forall region_typed rs -> Base_from_regions rs l = Ret s ->
  s = mkASB (merge_sort base_le rs) l /\ Forall (admitted l) rs /\ pairwise rs.
Proof.
  intros Ht E. unfold Base_from_regions in E. destruct (forallb _ _) eqn:Ef; [|done]. cbn [negb] in E.
  destruct (adjacent_intersect _) eqn:Ea; [done|]. injection E as <-. split; [done|].
  rewrite <- (merge_sort_perm rs) in Ht |- *. split.
  - rewrite forallb_forall in Ef. apply Forall_forall. intros r Hr. by apply is_region_valid_spec, Ef, list_elem_of_In.
  - apply sorted_pairwise; auto. apply merge_sort_sorted.
Qed.

(** ** The invariant *)

Record as_inv (s : AddressSpaceBase File) : Prop := mk_as_inv {
  inv_typed : Forall region_typed (regions s);
  inv_admitted : Forall (admitted (layout s)) (regions s);
  inv_pairwise : pairwise (regions s) }.

Lemma as_inv_perm s s' :
  Permutation (regions s) (regions s') -> layout s = layout s' -> as_inv s -> as_inv s'.
Proof. intros Hp Hl []. rewrite Hp, Hl in *. by split. Qed.

Lemma pairwise_snoc rs r : pairwise (rs ++ [r]) <-> pairwise rs /\ Forall (disjoint_regions r) rs.
Proof. rewrite (Permutation_app_comm rs [r]). simpl. tauto. Qed.

Lemma insert_region_ok (s : AddressSpaceBase File) reg :
  as_inv s -> region_typed reg ->
  let '(res, s') := Base_insert_region (Errno := Errno) s reg in
  match res with
  | Ok _ => s' = mkASB (regions s ++ [reg]) (layout s) /\ as_inv s'
  | Err e => e = InvalidAddressRange (base reg) (size reg) /\ s' = s /\
      (~ admitted (layout s) reg \/ ~ Forall (disjoint_regions reg) (regions s))
  end.
Proof.
  intros Hi Ht. unfold Base_insert_region. pose proof (is_region_valid_spec (layout s) reg) as Hv.
  destruct (is_region_valid _ _); cbn [negb].
  2: { split_and!; auto. left. intros H%Hv. done. }
  assert (Ha : admitted (layout s) reg) by (by apply Hv).
  destruct (existsb _ _) eqn:Ee.
  - apply existsb_exists in Ee as (r & Hr & Hx). split_and!; auto. right. rewrite Forall_forall. intros Hd.
    apply list_elem_of_In in Hr.
    enough (intersect_with r reg = false) by congruence. apply intersect_with_false.
    split_and!; [|apply Ha|symmetry; by apply Hd].
    pose proof (inv_admitted _ Hi) as Had. rewrite Forall_forall in Had. by apply Had in Hr as [].
  - split; [done|]. destruct Hi as [H1 H2 H3]. split; simpl.
    + apply Forall_app. auto.
    + apply Forall_app. auto.
    + apply pairwise_snoc. split; [done|]. apply Forall_forall. intros r Hr. symmetry.
      apply (proj1 (intersect_with_false r reg)). destruct (intersect_with r reg) eqn:Ex; [|done].
      assert (existsb (fun r => intersect_with r reg) (regions s) = true); [|congruence].
      apply existsb_exists. exists r. split; [by apply list_elem_of_In|done].
Qed.

(** ** Queries *)

Lemma find_region_ok rs a :
  Forall (fun r => region_end r <= u64_max) rs -> pairwise rs ->
  exists o, find_region rs a = Ret o /\
    forall r, o = Some r <-> r ∈ rs /\ in_region a r.
Proof.
  intros He Hp.
  assert (Hex : exists o, find_region rs a = Ret o /\
    match o with Some r => r ∈ rs /\ in_region a r | None => forall r, r ∈ rs -> ~ in_region a r end).
  { clear Hp. induction He as [|r rs He _ IH]; simpl; [exists None; split; [done|by intros ? ?%elem_of_nil]|].
    destruct IH as (o & E & Ho). unfold in_region in *.
    destruct (Z.leb_spec (base r) a).
    - rewrite add_u_ret by done. cbn [obind]. fold (region_end r). rewrite Z.gtb_ltb.
      destruct (Z.ltb_spec a (region_end r)); [exists (Some r); split; [done|]; set_solver|].
      exists o. split; [done|]. destruct o; [set_solver|]. intros r' [->|?]%elem_of_cons; [lia|auto].
    - exists o. split; [done|]. destruct o; [set_solver|]. intros r' [->|?]%elem_of_cons; [lia|auto]. }
  destruct Hex as (o & E & Ho). exists o. split; [done|]. intros r. destruct o as [r'|].
  - destruct Ho as [H1 H2]. split; [by intros [= <-]|]. intros [H3 H4]. f_equal.
    by apply (pairwise_elem rs _ _ a).
  - split; [done|]. intros [H1 H2]. by destruct (Ho r).
Qed.

Lemma dax_in_ok rs a :
  Forall (fun r => region_end r <= u64_max) rs ->
  exists b, dax_in rs a = Ret b /\ (b = true <-> exists r, r ∈ rs /\ ty r = DAXMemory /\ in_region a r).
Proof.
  induction 1 as [|r rs He _ (b & E & Hb)]; simpl.
  { exists false. split; [done|]. split; [done|]. by intros (r & ?%elem_of_nil & _). }
  rewrite add_u_ret by done. cbn [obind]. fold (region_end r). rewrite E, Z.gtb_ltb.
  destruct (bool_decide_reflect (ty r = DAXMemory)), (Z.leb_spec (base r) a), (Z.ltb_spec a (region_end r));
    cbn [andb].
  1: { exists true. split; [done|]. split; [|done]. intros _. exists r. unfold in_region. set_solver. }
  all: exists b; split; [done|]; rewrite Hb; split; [intros (r' & ? & ?); exists r'; set_solver|].
  all: intros (r' & [->|Hr']%elem_of_cons & Hty & Ha); [|by exists r'].
  all: unfold in_region in Ha; done || lia.
Qed.

Lemma last_addr_from_ok rs x0 :
  Forall region_typed rs -> Forall (fun r => region_end r <= u64_max) rs ->
  exists x, last_addr_from rs x0 = Ret x /\ x0 <= x /\
    (forall r, r ∈ rs -> ty r <> DAXMemory -> region_end r - 1 <= x) /\
    (x = x0 \/ exists r, r ∈ rs /\ ty r <> DAXMemory /\ x = region_end r - 1).
Proof.
  intros Ht He. revert x0. induction He as [|r rs He _ IH]; intros x0; simpl.
  { exists x0. split_and!; auto; [lia|]. by intros ? ?%elem_of_nil. }
  inversion Ht as [|? ? [_ Hsz] Ht']; subst. specialize (IH Ht').
  destruct (bool_decide_reflect (ty r = DAXMemory)) as [Hd|Hd]; cbn [negb].
  - destruct (IH x0) as (x & E & Hle & Hub & Hin). exists x. split_and!; auto.
    + intros r' [->|?]%elem_of_cons ?; [done|auto].
    + destruct Hin as [|(r' & ? & ? & ?)]; [by left|right; exists r'; set_solver].
  - unfold Region_last_addr, is_valid. rewrite checked_end, Z.gtb_ltb.
    rewrite (proj2 (Z.ltb_lt 0 _)), (proj2 (Z.leb_le _ u64_max)) by lia. cbn [andb].
    rewrite add_u_ret by done. cbn [obind]. fold (region_end r).
    rewrite sub_u_ret by (unfold in_u64, region_end, region_typed in *; inversion Ht; unfold region_typed, in_u64 in *; lia).
    cbn [obind]. rewrite Z.gtb_ltb.
    edestruct IH as (x & E & Hle & Hub & Hin). rewrite E. exists x. split_and!; auto.
    + destruct (Z.ltb_spec x0 (region_end r - 1)); lia.
    + intros r' [->|?]%elem_of_cons ?; [destruct (Z.ltb_spec x0 (region_end r - 1)); lia|auto].
    + destruct Hin as [->|(r' & ? & ? & ?)]; [|right; exists r'; set_solver].
      destruct (Z.ltb_spec x0 (region_end r - 1)); [right; exists r; set_solver|by left].
Qed.

Lemma inv_ends (s : AddressSpaceBase File) : as_inv s -> Forall (fun r => region_end r <= u64_max) (regions s).
Proof. intros []. eapply Forall_impl; [eassumption|]. by intros r []. Qed.

End Spec.

(** ** Properties *)

(** [from_regions] on non-empty regions, in any order: it returns exactly
    when every region satisfies the layout and all regions are pairwise
    disjoint, although the code compares neighbours only; it panics otherwise.
    The address space holds the given regions in ascending base order. *)
Theorem from_regions_correct {File} (rs : list (AddressSpaceRegion File)) l :
  Forall region_typed rs ->
  (Forall (admitted l) rs /\ pairwise rs /\
   exists s, Base_from_regions rs l = Ret s /\ Permutation (regions s) rs /\
     Sorted base_le (regions s) /\ layout s = l /\ as_inv s) \/
  (~ (Forall (admitted l) rs /\ pairwise rs) /\ Base_from_regions rs l = Panic).
Proof.
  intros Ht. destruct (Base_from_regions rs l) as [s|] eqn:E.
  - left. destruct (from_regions_inv rs l s Ht E) as (-> & Ha & Hp). split_and!; auto.
    eexists. split_and!; [done|apply merge_sort_perm|apply merge_sort_sorted|done|].
    split; cbn [regions layout]; by rewrite merge_sort_perm.
  - right. split; [|done]. intros [Ha Hp]. by rewrite from_regions_ok in E.
Qed.

Definition ex_layout : AddressSpaceLayout := mkLayout 65536 0 32768 65535.
Definition ex_regions : list (AddressSpaceRegion unit) :=
  [Region_new DAXMemory 40960 4096; Region_new DefaultMemory 4096 4096; Region_new DefaultMemory 0 4096].
Definition ex_space : AddressSpaceBase unit := mkASB (merge_sort base_le ex_regions) ex_layout.

Lemma ex_regions_typed : Forall region_typed ex_regions.
Proof. repeat constructor; vm_compute; intuition congruence. Qed.

Lemma ex_space_inv : as_inv ex_space.
Proof.
  assert (E : Base_from_regions ex_regions ex_layout = Ret ex_space) by (by vm_compute).
  destruct (from_regions_inv _ _ _ ex_regions_typed E) as (-> & ? & ?).
  split; cbn [regions layout]; rewrite merge_sort_perm; auto. apply ex_regions_typed.
Qed.

Lemma from_regions_correct_witness :
  (Forall (admitted ex_layout) ex_regions /\ pairwise ex_regions /\
   exists s, Base_from_regions ex_regions ex_layout = Ret s /\ Permutation (regions s) ex_regions /\
     Sorted base_le (regions s) /\ layout s = ex_layout /\ as_inv s) \/
  (~ (Forall (admitted ex_layout) ex_regions /\ pairwise ex_regions) /\
   Base_from_regions ex_regions ex_layout = Panic).
Proof. apply (from_regions_correct ex_regions ex_layout), ex_regions_typed. Defined.

(** Hotplug: [AddressSpace::insert_region] never panics on an address
    space that satisfies the invariant.  It succeeds exactly when the layout
    admits the region and it is disjoint from every region; then the regions
    are the old ones and the new one, and the invariant holds.  Otherwise the
    error carries the region's range and the address space is not replaced. *)
Theorem insert_region_correct {File Errno} (s : AddressSpaceBase File) reg :
  as_inv s -> region_typed reg ->
  exists res s', AddressSpace_insert_region (Errno := Errno) s reg = Ret (res, s') /\ as_inv s' /\
    match res with
    | Ok _ => admitted (layout s) reg /\ Forall (disjoint_regions reg) (regions s) /\
        Permutation (regions s') (reg :: regions s) /\ layout s' = layout s
    | Err e => e = InvalidAddressRange (base reg) (size reg) /\ s' = s /\
        (~ admitted (layout s) reg \/ ~ Forall (disjoint_regions reg) (regions s))
    end.
Proof.
  intros Hi Ht. unfold AddressSpace_insert_region.
  rewrite from_regions_ok by apply Hi. cbn [obind].
  set (s1 := mkASB (merge_sort base_le (regions s)) (layout s)).
  assert (Hp : Permutation (regions s) (regions s1)) by (symmetry; apply merge_sort_perm).
  assert (Hi1 : as_inv s1) by (by apply (as_inv_perm s s1)).
  pose proof (insert_region_ok (Errno := Errno) s1 reg Hi1 Ht) as H.
  destruct (Base_insert_region s1 reg) as [[[]|e] s']; eexists _, _; (split; [reflexivity|]).
  - destruct H as [-> Hi']. simpl in *. split; [done|]. destruct Hi' as [_ H2 H3]. simpl in *.
    rewrite <- Hp in *. apply pairwise_snoc in H3 as [_ H3]. apply Forall_app in H2 as [_ H2].
    split_and!; auto; [by inversion H2|]. by rewrite Permutation_app_comm.
  - destruct H as (-> & -> & H). split; [done|]. rewrite Hp. auto.
Qed.

Lemma insert_region_correct_witness :
  let reg := Region_new DefaultMemory 8192 4096 in
  exists res s', AddressSpace_insert_region (Errno := Z) ex_space reg = Ret (res, s') /\ as_inv s' /\
    match res with
    | Ok _ => admitted (layout ex_space) reg /\ Forall (disjoint_regions reg) (regions ex_space) /\
        Permutation (regions s') (reg :: regions ex_space) /\ layout s' = layout ex_space
    | Err e => e = InvalidAddressRange (base reg) (size reg) /\ s' = ex_space /\
        (~ admitted (layout ex_space) reg \/ ~ Forall (disjoint_regions reg) (regions ex_space))
    end.
Proof.
  apply (insert_region_correct (Errno := Z) ex_space (Region_new DefaultMemory 8192 4096)).
  - apply ex_space_inv.
  - vm_compute; intuition congruence.
Defined.

(** The queries of an address space answer for the region that holds the
    address: at most one does, its flags, NUMA node and kind are the answers,
    and an address in no region has the documented defaults.  None of them
    panics.  [last_addr] is the greatest address of the regions other than DAX
    windows, at least the start of memory. *)
Theorem queries_correct {File Errno} (s : AddressSpaceBase File) a :
  as_inv s ->
  (forall r, r ∈ regions s -> in_region a r ->
     Base_prot_flags (Errno := Errno) s a = Ret (Ok (prot_flags r)) /\
     Base_numa_node_id s a = Ret (host_numa_node_id r) /\
     is_dax_region s a = Ret (bool_decide (ty r = DAXMemory)) /\
     forall r', r' ∈ regions s -> in_region a r' -> r' = r) /\
  ((forall r, r ∈ regions s -> ~ in_region a r) ->
     Base_prot_flags (Errno := Errno) s a = Ret (Err InvalidRegionType) /\
     Base_numa_node_id s a = Ret None /\ is_dax_region s a = Ret false) /\
  exists x, Base_last_addr s = Ret x /\ mem_start (layout s) <= x /\
    (forall r, r ∈ regions s -> ty r <> DAXMemory -> region_end r - 1 <= x) /\
    (x = mem_start (layout s) \/ exists r, r ∈ regions s /\ ty r <> DAXMemory /\ x = region_end r - 1).
Proof.
  intros Hi. pose proof (inv_ends s Hi) as He. pose proof Hi as [Ht _ Hp].
  destruct (find_region_ok (regions s) a He Hp) as (o & Eo & Ho).
  destruct (dax_in_ok (regions s) a He) as (b & Eb & Hb).
  unfold Base_prot_flags, Base_numa_node_id, is_dax_region. rewrite Eo, Eb. cbn [obind].
  split_and!; [intros r Hr Ha|intros Hno|by apply last_addr_from_ok].
  - rewrite (proj2 (Ho r)) by done.
    assert (Hu : forall r', r' ∈ regions s -> in_region a r' -> r' = r).
    { intros r' Hr' Ha'. by apply (pairwise_elem (regions s) _ _ a). }
    split_and!; auto. f_equal. destruct b, (bool_decide_reflect (ty r = DAXMemory)) as [Hd|Hd]; auto.
    + destruct Hb as [(r' & Hr' & Hd' & Ha') _]; [done|]. by rewrite (Hu r') in Hd'.
    + destruct Hb as [_ Hb]. apply Hb. eauto.
  - destruct o as [r|]; [by destruct (Hno r); apply Ho|]. split_and!; auto. destruct b; [|done].
    destruct Hb as [(r & Hr & _ & Ha) _]; [done|]. by destruct (Hno r).
Qed.

Lemma ex_space_regions :
  regions ex_space =
  [Region_new DefaultMemory 0 4096; Region_new DefaultMemory 4096 4096; Region_new DAXMemory 40960 4096].
Proof. by vm_compute. Qed.

Lemma queries_correct_witness :
  Base_prot_flags (Errno := Z) ex_space 5000 = Ret (Ok 3) /\
  is_dax_region ex_space 41000 = Ret true /\
  Base_numa_node_id ex_space 20000 = Ret None.
Proof.
  split_and!.
  - apply (queries_correct (Errno := Z) ex_space 5000 ex_space_inv) with (r := Region_new DefaultMemory 4096 4096).
    + rewrite ex_space_regions, !elem_of_cons. auto.
    + vm_compute; intuition congruence.
  - apply (queries_correct (Errno := Z) ex_space 41000 ex_space_inv) with (r := Region_new DAXMemory 40960 4096).
    + rewrite ex_space_regions, !elem_of_cons. auto.
    + vm_compute; intuition congruence.
  - apply (queries_correct (Errno := Z) ex_space 20000 ex_space_inv).
    intros r Hr. rewrite ex_space_regions in Hr. repeat (apply elem_of_cons in Hr as [->|Hr]; [vm_compute; intuition congruence|]).
    by apply elem_of_nil in Hr.
Defined.

(** ** Memory regions *)

Definition host_error {Errno} (e : AddressSpaceError Errno) : Prop :=
  match e with CreateMemFd _ | OpenFile _ | CreateDir _ | SetFileSize _ | UnlinkFile _ => True | _ => False end.

Section Create.
Context {File Errno W : Type} (host : FileOps File Errno W).

(** A region on the file [f], or the host's error. *)
Definition file_region (r : result (AddressSpaceRegion File) (AddressSpaceError Errno)) b s numa perm prot hotplug : Prop :=
  match r with
  | Ok reg => exists f, reg = Region_build DefaultMemory b s numa (Some f) perm prot hotplug
  | Err e => host_error e
  end.

Lemma memfd_region_file shared b s numa perm prot hotplug w :
  file_region (memfd_region host shared b s numa perm prot hotplug w).1 b s numa perm prot hotplug.
Proof.
  unfold memfd_region, file_region. destruct (memfd_create _ _ _ _) as [[f|e] w1]; [|done].
  destruct (set_len _ _ _ _ _) as [[[]|e] w2]; [|done]. simpl. eauto.
Qed.

Lemma hugetlbfs_region_file path b s numa perm prot hotplug w :
  file_region (hugetlbfs_region host path b s numa perm prot hotplug w).1 b s numa perm prot hotplug.
Proof.
  unfold hugetlbfs_region, file_region.
  destruct (match path_parent _ _ _ with Some _ => _ | None => _ end) as [[[]|e] w0]; [|done].
  destruct (open_rw_create _ _ _ _) as [[f|e] w1]; [|done].
  destruct (unlink _ _ _ _) as [[[]|e] w2]; [|done].
  destruct (set_len _ _ _ _ _) as [[[]|e] w3]; [|done]. simpl. eauto.
Qed.

(** [create_memory_region], whatever the host's file operations return: an
    unknown source type is reported without touching the host; a region that is
    returned covers the requested range as default memory with the requested
    protection and NUMA node, has a file exactly when the source is not
    anonymous, is shared or private accordingly, is populated exactly when
    pre-allocation is asked for, and carries the huge page, anonymous and
    hotplug marks of its source. *)
Theorem create_memory_region_correct (b s : Z) numa mem_type path
    prealloc prot hotplug (w : W) :
  match MemorySourceType_from_str mem_type with
  | None => create_memory_region host b s numa mem_type path prealloc prot hotplug w =
      (Err (InvalidMemorySourceType mem_type), w)
  | Some t =>
      match (create_memory_region host b s numa mem_type path prealloc prot hotplug w).1 with
      | Ok r =>
          ty r = DefaultMemory /\ base r = b /\ size r = s /\ host_numa_node_id r = numa /\
          prot_flags r = prot /\ is_hotplug r = hotplug /\
          is_hugepage r = source_is_hugepage t /\ is_anon r = is_mmap_anonymous t /\
          (is_Some (file_offset r) <-> is_mmap_anonymous t = false) /\
          (Z.testbit (perm_flags r) 15 = prealloc) /\
          (Z.land (perm_flags r) MAP_SHARED <> 0 <-> is_mmap_anonymous t = false)
      | Err e => is_mmap_anonymous t = false /\ host_error e
      end
  end.
Proof.
  unfold create_memory_region. destruct (MemorySourceType_from_str mem_type) as [t|]; [|done].
  destruct t.
  1: pose proof (hugetlbfs_region_file path b s numa (if prealloc then Z.lor MAP_SHARED MAP_POPULATE else MAP_SHARED)
       prot hotplug w) as Hf; destruct (hugetlbfs_region _ _ _ _ _ _ _ _ _) as [[r|e] w']; [|done].
  4: pose proof (memfd_region_file true b s numa (if prealloc then Z.lor MAP_SHARED MAP_POPULATE else MAP_SHARED)
       prot hotplug w) as Hf; destruct (memfd_region _ _ _ _ _ _ _ _ _) as [[r|e] w']; [|done].
  5: pose proof (memfd_region_file false b s numa (if prealloc then Z.lor MAP_SHARED MAP_POPULATE else MAP_SHARED)
       prot hotplug w) as Hf; destruct (memfd_region _ _ _ _ _ _ _ _ _) as [[r|e] w']; [|done].
  1, 4, 5: destruct Hf as [f ->].
  all: destruct prealloc, hotplug; vm_compute; naive_solver.
Qed.

End Create.

(** ** What the code does with empty regions *)

(** The layout admits empty regions, and an empty region between two that
    overlap hides the overlap from the neighbour test. *)
Lemma empty_region_hides_overlap :
  let a := Region_new (File := unit) DefaultMemory 0 8192 in
  let z := Region_new (File := unit) DefaultMemory 0 0 in
  let b := Region_new (File := unit) DefaultMemory 4096 4096 in
  intersect_with a b = true /\ Base_from_regions [a; b] ex_layout = Panic /\
  Base_from_regions [a; z; b] ex_layout = Ret (mkASB [a; z; b] ex_layout).
Proof. by vm_compute. Qed.
