(* ===== verification/AddressSpaceMgr.v ===== *)
(** The address space manager (src/src/dragonball/src/address_space_manager.rs):
    creation of the guest memory of a virtual machine from its NUMA regions,
    around the MMIO hole, with the addresses and memory slots taken from the
    resource manager.

    The host is a parameter: the file operations of [AddressSpace.v], and the
    mapping operations of [MapOps] (dup, mmap, madvise, mbind, threads, the
    vm-memory objects and the KVM ioctl), all on a world [W].  Log messages and
    the metrics they compute are left out. *)

From stdpp Require Import pretty sorting.
From S2P Require Import Prelude Range IntervalTree Resources ResourceManager BTreeMap AddressSpace.

Definition MAX_PRE_ALLOC_THREAD : Z := 16.
Definition PRE_ALLOC_GRANULARITY : Z := 32.
Definition MINIMAL_SPLIT_SPACE : Z := Z.shiftl 128 20.

(** [struct NumaRegionInfo]; the size is in MiB. *)
Record NumaRegionInfo := mkNumaRegion {
  nr_size : Z;
  nr_host_numa_node_id : option Z;
  nr_guest_numa_node_id : option Z;
  nr_vcpu_ids : list Z }.

(** [u64::checked_shl]: only the shift amount is checked. *)
Definition checked_shl (x n : Z) : option Z := if n <? 64 then Some (as_u64 (Z.shiftl x n)) else None.

(** The pages each pre-allocation thread touches, for a mapping of [size] bytes. *)
Definition touch_threads (size : Z) : Z :=
  let t := Z.shiftr size PRE_ALLOC_GRANULARITY + 1 in
  if t >? MAX_PRE_ALLOC_THREAD then MAX_PRE_ALLOC_THREAD else t.
Definition thread_range (size n : Z) : Z * Z :=
  let npage := Z.shiftr size 12 in
  let t := touch_threads size in
  let per_npage := npage / t in
  (per_npage * n, if n =? t - 1 then npage else per_npage * (n + 1)).
Definition prealloc_ranges (size : Z) : list (Z * Z) :=
  map (thread_range size) (seqZ 0 (touch_threads size)).

Section Mgr.
Context {File Errno Mmap GuestRegion VmMemory W : Type}.

Inductive AddressManagerError :=
| InvalidOperation
| AM_InvalidAddressRange (start len : Z)
| NoAvailableMemAddress
| NoAvailableKvmSlot
| TypeInvalid (s : string)
| DupFd (e : Errno)
| CreateGuestMemory (e : Errno)
| GuestMemoryNotInitialized
| MmapGuestMemory (e : Errno)
| KvmSetMemorySlot (e : Errno)
| Madvise (e : Errno)
| JoinFail
| CreateAddressSpaceRegion (e : AddressSpaceError Errno).

Inductive Advice := MADV_DONTFORK | MADV_HUGEPAGE.

(** A [kvm_userspace_memory_region] (its flags are 0). *)
Record KvmRegion := mkKvmRegion { kr_slot : Z; kr_guest_phys_addr : Z; kr_memory_size : Z; kr_userspace_addr : Z }.

Record MapOps := mkMapOps {
  dup : File -> W -> result File Errno * W;
  mmap_build : option (File * Z) -> Z -> Z -> Z -> W -> result Mmap Errno * W;
  madvise : Mmap -> Advice -> W -> result unit Errno * W;
  mbind : Mmap -> Z -> W -> Z * W;
  spawn_prealloc : Mmap -> Z * Z -> W -> bool * W;
  guest_region_new : Mmap -> Z -> result GuestRegion Errno;
  vm_memory_new : VmMemory;
  vm_insert_region : VmMemory -> GuestRegion -> result VmMemory Errno;
  get_host_address : GuestRegion -> option Z;
  set_user_memory_region : KvmRegion -> W -> result unit Errno * W }.

Context (host : FileOps File Errno W) (ops : MapOps).

(** ** The builder *)

Record AddressSpaceMgrBuilder := mkBuilder {
  b_mem_type : string;
  b_mem_file : string;
  b_mem_index : Z;
  b_mem_suffix : bool;
  b_mem_prealloc : bool;
  b_dirty_page_logging : bool;
  b_vmfd : bool }.

Definition Builder_new (mem_type mem_file : string) : result AddressSpaceMgrBuilder AddressManagerError :=
  if String.eqb mem_type EmptyString then Err (TypeInvalid mem_type)
  else Ok (mkBuilder mem_type mem_file 0 true false false false).

Definition toggle_file_suffix (b : AddressSpaceMgrBuilder) (enabled : bool) : AddressSpaceMgrBuilder :=
  mkBuilder (b_mem_type b) (b_mem_file b) (b_mem_index b) enabled (b_mem_prealloc b) (b_dirty_page_logging b) (b_vmfd b).
Definition toggle_prealloc (b : AddressSpaceMgrBuilder) (prealloc : bool) : AddressSpaceMgrBuilder :=
  mkBuilder (b_mem_type b) (b_mem_file b) (b_mem_index b) (b_mem_suffix b) prealloc (b_dirty_page_logging b) (b_vmfd b).
Definition toggle_dirty_page_logging (b : AddressSpaceMgrBuilder) (logging : bool) : AddressSpaceMgrBuilder :=
  mkBuilder (b_mem_type b) (b_mem_file b) (b_mem_index b) (b_mem_suffix b) (b_mem_prealloc b) logging (b_vmfd b).

Definition get_next_mem_file (b : AddressSpaceMgrBuilder) : outcome (string * AddressSpaceMgrBuilder) :=
  if b_mem_suffix b then
    let path := (b_mem_file b ++ pretty (b_mem_index b))%string in
    let! i := add_u u32_max (b_mem_index b) 1 in
    Ret (path, mkBuilder (b_mem_type b) (b_mem_file b) i (b_mem_suffix b) (b_mem_prealloc b)
                 (b_dirty_page_logging b) (b_vmfd b))
  else Ret (b_mem_file b, b).

(** ** The manager *)

Abbreviation numa_map := (list (Z * NumaNode)).

Record AddressSpaceMgr := mkMgr {
  m_address_space : option (AddressSpaceBase File);
  m_vm_as : option VmMemory;
  m_base_to_slot : gmap Z Z;
  m_prealloc_handlers : list (Z * Z);
  m_prealloc_exit : bool;
  m_numa_nodes : numa_map }.

Definition Mgr_default : AddressSpaceMgr := mkMgr None None ∅ [] false [].

Definition set_numa_nodes (m : AddressSpaceMgr) (n : numa_map) : AddressSpaceMgr :=
  mkMgr (m_address_space m) (m_vm_as m) (m_base_to_slot m) (m_prealloc_handlers m) (m_prealloc_exit m) n.
Definition set_base_to_slot (m : AddressSpaceMgr) (x : gmap Z Z) : AddressSpaceMgr :=
  mkMgr (m_address_space m) (m_vm_as m) x (m_prealloc_handlers m) (m_prealloc_exit m) (m_numa_nodes m).
Definition push_handler (m : AddressSpaceMgr) (h : Z * Z) : AddressSpaceMgr :=
  mkMgr (m_address_space m) (m_vm_as m) (m_base_to_slot m) (m_prealloc_handlers m ++ [h]) (m_prealloc_exit m) (m_numa_nodes m).

(** [insert_into_numa_nodes]: the map's entry, or a new node. *)
Definition insert_into_numa_nodes (m : AddressSpaceMgr) (region : AddressSpaceRegion File)
    (guest_numa_node_id : Z) (ids : list Z) : AddressSpaceMgr :=
  let node := match bt_get id (m_numa_nodes m) guest_numa_node_id with
              | Some (_, n) => n
              | None => NumaNode_new
              end in
  let node := add_info node (mkNumaInfo (base region) (size region)) in
  let node := add_vcpu_ids node ids in
  set_numa_nodes m (bt_insert id (m_numa_nodes m) guest_numa_node_id node).2.

(** [create_region]. *)
Definition create_region (m : AddressSpaceMgr) (start_addr size_bytes : Z) (info : NumaRegionInfo)
    (param : AddressSpaceMgrBuilder) (w : W) :
    outcome (result (AddressSpaceRegion File) AddressManagerError * AddressSpaceMgr * AddressSpaceMgrBuilder * W) :=
  let! (mem_file_path, param) := get_next_mem_file param in
  let '(r, w) := create_default_memory_region host start_addr size_bytes (nr_host_numa_node_id info)
                   (b_mem_type param) mem_file_path (b_mem_prealloc param) false w in
  match r with
  | Err e => Ret (Err (CreateAddressSpaceRegion e), m, param, w)
  | Ok region =>
      let guest := match nr_guest_numa_node_id info with Some g => g | None => 0 end in
      Ret (Ok region, insert_into_numa_nodes m region guest (nr_vcpu_ids info), param, w)
  end.

(** The loop over the NUMA regions in [create_address_space]. *)
Fixpoint create_regions (infos : list NumaRegionInfo) (start_addr : Z) (rs : list (AddressSpaceRegion File))
    (m : AddressSpaceMgr) (param : AddressSpaceMgrBuilder) (w : W) :
    outcome (result (list (AddressSpaceRegion File)) AddressManagerError * AddressSpaceMgr * AddressSpaceMgrBuilder * W) :=
  match infos with
  | [] => Ret (Ok rs, m, param, w)
  | info :: infos =>
      match checked_shl (nr_size info) 20 with
      | None => Ret (Err InvalidOperation, m, param, w)
      | Some size =>
          let! below :=
            if start_addr >? MMIO_LOW_END then Ret true
            else let! e := add_u u64_max start_addr size in Ret (e <=? MMIO_LOW_START) in
          if below : bool then
            let! (r, m, param, w) := create_region m start_addr size info param w in
            match r with
            | Err e => Ret (Err e, m, param, w)
            | Ok region =>
                match checked_add u64_max start_addr size with
                | None => Ret (Err InvalidOperation, m, param, w)
                | Some start_addr => create_regions infos start_addr (rs ++ [region]) m param w
                end
            end
          else
            match checked_sub MMIO_LOW_START start_addr with
            | None => Ret (Err InvalidOperation, m, param, w)
            | Some below_size =>
                let! (r, below_size, m, param, w) :=
                  if below_size <? MINIMAL_SPLIT_SPACE then Ret (Ok rs, 0, m, param, w)
                  else
                    let! (r, m, param, w) := create_region m start_addr below_size info param w in
                    Ret (match r with Ok region => Ok (rs ++ [region]) | Err e => Err e end, below_size, m, param, w) in
                match r with
                | Err e => Ret (Err e, m, param, w)
                | Ok rs =>
                    let above_start := MMIO_LOW_END + 1 in
                    match checked_sub size below_size with
                    | None => Ret (Err InvalidOperation, m, param, w)
                    | Some above_size =>
                        let! (r, m, param, w) := create_region m above_start above_size info param w in
                        match r with
                        | Err e => Ret (Err e, m, param, w)
                        | Ok region =>
                            match checked_add u64_max above_start above_size with
                            | None => Ret (Err InvalidOperation, m, param, w)
                            | Some start_addr => create_regions infos start_addr (rs ++ [region]) m param w
                            end
                        end
                    end
                end
            end
      end
  end.

(** ** Mapping a region *)

(** [configure_numa]: a failing [mbind] is only logged. *)
Definition configure_numa (mm : Mmap) (node_id : Z) (w : W) : result unit AddressManagerError * W :=
  match checked_shl 1 node_id with
  | None => (Err InvalidOperation, w)
  | Some nodemask => let '(_, w) := mbind ops mm nodemask w in (Ok tt, w)
  end.

Definition configure_anon_mem (mm : Mmap) (w : W) : result unit AddressManagerError * W :=
  match madvise ops mm MADV_DONTFORK w with
  | (Ok _, w) => (Ok tt, w)
  | (Err e, w) => (Err (Madvise e), w)
  end.

(** Starts the threads; one that cannot be created is only logged. *)
Fixpoint spawn_all (m : AddressSpaceMgr) (mm : Mmap) (ranges : list (Z * Z)) (w : W) : AddressSpaceMgr * W :=
  match ranges with
  | [] => (m, w)
  | rg :: ranges =>
      let '(ok, w) := spawn_prealloc ops mm rg w in
      spawn_all (if ok then push_handler m rg else m) mm ranges w
  end.

Definition configure_thp_and_prealloc (m : AddressSpaceMgr) (region : AddressSpaceRegion File) (mm : Mmap) (w : W) :
    result unit AddressManagerError * AddressSpaceMgr * W :=
  match madvise ops mm MADV_HUGEPAGE w with
  | (Err e, w) => (Err (Madvise e), m, w)
  | (Ok _, w) =>
      if Z.land (perm_flags region) MAP_POPULATE >? 0 then
        let '(m, w) := spawn_all m mm (prealloc_ranges (size region)) w in (Ok tt, m, w)
      else (Ok tt, m, w)
  end.

(** [create_mmap_region] on a 64-bit host, where no length exceeds [usize]. *)
Definition create_mmap_region (m : AddressSpaceMgr) (region : AddressSpaceRegion File) (w : W) :
    result GuestRegion AddressManagerError * AddressSpaceMgr * W :=
  if bool_decide (ty region = DeviceMemory) then (Err InvalidOperation, m, w)
  else
    let '(fo, w) :=
      match file_offset region with
      | Some (f, start) => let '(r, w) := dup ops f w in
                           (match r with Ok f' => Ok (Some (f', start)) | Err e => Err (DupFd e) end, w)
      | None => (Ok None, w)
      end in
    match fo with
    | Err e => (Err e, m, w)
    | Ok fo =>
        let perm := if negb (Z.land (perm_flags region) MAP_POPULATE =? 0) && is_hugepage region
                    then Z.ldiff (perm_flags region) MAP_POPULATE else perm_flags region in
        match mmap_build ops fo (size region) (Z.lor PROT_READ PROT_WRITE) perm w with
        | (Err e, w) => (Err (MmapGuestMemory e), m, w)
        | (Ok mm, w) =>
            let '(r, w) := if is_anon region then configure_anon_mem mm w else (Ok tt, w) in
            match r with
            | Err e => (Err e, m, w)
            | Ok _ =>
                let '(r, w) := match host_numa_node_id region with
                               | Some node_id => configure_numa mm node_id w
                               | None => (Ok tt, w)
                               end in
                match r with
                | Err e => (Err e, m, w)
                | Ok _ =>
                    let '(r, m, w) := if is_hugepage region then configure_thp_and_prealloc m region mm w
                                      else (Ok tt, m, w) in
                    match r with
                    | Err e => (Err e, m, w)
                    | Ok _ =>
                        match guest_region_new ops mm (base region) with
                        | Ok g => (Ok g, m, w)
                        | Err e => (Err (CreateGuestMemory e), m, w)
                        end
                    end
                end
            end
        end
    end.

(** [map_to_kvm]. *)
Definition map_to_kvm (m : AddressSpaceMgr) (rm : ResourceManager) (param : AddressSpaceMgrBuilder)
    (reg : AddressSpaceRegion File) (g : GuestRegion) (w : W) :
    outcome (result unit AddressManagerError * AddressSpaceMgr * ResourceManager * W) :=
  let! (slot, rm) := allocate_kvm_mem_slot rm 1 None in
  match slot with
  | None => Ret (Err NoAvailableKvmSlot, m, rm, w)
  | Some slot =>
      let '(r, w) :=
        if b_vmfd param then
          match get_host_address ops g with
          | None => (Err InvalidOperation, w)
          | Some host_addr =>
              match set_user_memory_region ops (mkKvmRegion slot (base reg) (size reg) host_addr) w with
              | (Ok _, w) => (Ok tt, w)
              | (Err e, w) => (Err (KvmSetMemorySlot e), w)
              end
          end
        else (Ok tt, w) in
      match r with
      | Err e => Ret (Err e, m, rm, w)
      | Ok _ => Ret (Ok tt, set_base_to_slot m (<[base reg := slot]> (m_base_to_slot m)), rm, w)
      end
  end.

(** The second loop of [create_address_space]: the statically allocated address
    range, the mapping, the guest memory object and the memory slot of each region. *)
Fixpoint map_regions (rs : list (AddressSpaceRegion File)) (vm : VmMemory) (m : AddressSpaceMgr)
    (rm : ResourceManager) (param : AddressSpaceMgrBuilder) (w : W) :
    outcome (result VmMemory AddressManagerError * AddressSpaceMgr * ResourceManager * W) :=
  match rs with
  | [] => Ret (Ok vm, m, rm, w)
  | reg :: rs =>
      let! last := Region_last_addr reg in
      let constraint := Constraint_max (Constraint_min (Constraint_new (size reg)) (base reg)) last in
      let! (key, rm) := allocate_mem_address rm constraint in
      match key with
      | None => Ret (Err NoAvailableMemAddress, m, rm, w)
      | Some _ =>
          let '(r, m, w) := create_mmap_region m reg w in
          match r with
          | Err e => Ret (Err e, m, rm, w)
          | Ok g =>
              match vm_insert_region ops vm g with
              | Err e => Ret (Err (CreateGuestMemory e), m, rm, w)
              | Ok vm =>
                  let! (r, m, rm, w) := map_to_kvm m rm param reg g w in
                  match r with
                  | Err e => Ret (Err e, m, rm, w)
                  | Ok _ => map_regions rs vm m rm param w
                  end
              end
          end
      end
  end.

(** [create_address_space]; [usable] is [USABLE_END]. *)
Definition create_address_space (usable pe : Z) (m : AddressSpaceMgr) (rm : ResourceManager)
    (infos : list NumaRegionInfo) (param : AddressSpaceMgrBuilder) (w : W) :
    outcome (result unit AddressManagerError * AddressSpaceMgr * ResourceManager * W) :=
  let! (r, m, param, w) := create_regions infos GUEST_MEM_START [] m param w in
  match r with
  | Err e => Ret (Err e, m, rm, w)
  | Ok rs =>
      let! (r, m, rm, w) := map_regions rs (vm_memory_new ops) m rm param w in
      match r with
      | Err e => Ret (Err e, m, rm, w)
      | Ok vm =>
          let m := mkMgr (m_address_space m) (Some vm) (m_base_to_slot m) (m_prealloc_handlers m) (m_prealloc_exit m) (m_numa_nodes m) in
          let layout := Layout_new usable pe GUEST_MEM_START (GUEST_MEM_END pe) in
          let! space := Base_from_regions rs layout in
          Ret (Ok tt, mkMgr (Some space) (m_vm_as m) (m_base_to_slot m) (m_prealloc_handlers m) (m_prealloc_exit m) (m_numa_nodes m), rm, w)
      end
  end.

(** [AddressSpaceMgrBuilder::build]. *)
Definition Builder_build (usable pe : Z) (b : AddressSpaceMgrBuilder) (rm : ResourceManager)
    (infos : list NumaRegionInfo) (w : W) :
    outcome (result AddressSpaceMgr AddressManagerError * ResourceManager * W) :=
  let! (r, m, rm, w) := create_address_space usable pe Mgr_default rm infos b w in
  Ret (match r with Ok _ => Ok m | Err e => Err e end, rm, w).

Definition is_initialized (m : AddressSpaceMgr) : bool := match m_address_space m with Some _ => true | None => false end.
Definition get_layout (m : AddressSpaceMgr) : result AddressSpaceLayout AddressManagerError :=
  match m_address_space m with Some s => Ok (layout s) | None => Err GuestMemoryNotInitialized end.

(** [wait_prealloc]: sets the exit flag when asked to stop and joins from the last handler; [joins] says how each join ends. *)
Fixpoint join_all (handlers : list (Z * Z)) (joins : Z * Z -> bool) : result unit AddressManagerError * list (Z * Z) :=
  match handlers with
  | [] => (Ok tt, [])
  | h :: hs => if joins h then join_all hs joins else (Err JoinFail, hs)
  end.
Definition wait_prealloc (m : AddressSpaceMgr) (stop : bool) (joins : Z * Z -> bool) : result unit AddressManagerError * AddressSpaceMgr :=
  let '(r, hs) := join_all (reverse (m_prealloc_handlers m)) joins in
  (r, mkMgr (m_address_space m) (m_vm_as m) (m_base_to_slot m) (reverse hs) (stop || m_prealloc_exit m) (m_numa_nodes m)).

End Mgr.
