(* ===== verification/AddressSpaceMgrSpec.v ===== *)
(** Properties of the address space manager: the pre-allocation threads cover
    every page once; guest memory is laid out around the MMIO hole without
    overlap and without loss; and creating the address space takes exactly the
    regions' addresses and one memory slot each from the resource manager. *)

From stdpp Require Import sorting.
From S2P Require Import Prelude Range IntervalTree IntervalTreeInv Allocator AllocatorProps.
From S2P Require Import PoolClient Resources ResourceManager ResourceManagerSpec BTreeMap AddressSpace.
From S2P Require Import AddressSpaceSpec AddressSpaceMgr.

(** ** Pre-allocation *)

Definition pages (rg : Z * Z) : list Z := seqZ rg.1 (rg.2 - rg.1).

Lemma seqZ_one m : seqZ m 1 = [m].
Proof. done. Qed.

Lemma touch_threads_pos size : 0 <= size -> 1 <= touch_threads size <= MAX_PRE_ALLOC_THREAD.
Proof.
  intros Hs. unfold touch_threads, MAX_PRE_ALLOC_THREAD.
  pose proof (proj2 (Z.shiftr_nonneg size PRE_ALLOC_GRANULARITY) Hs). case_goal; bools; lia.
Qed.

(** The first [n] threads, none of them the last, touch the first pages. *)
Lemma prealloc_prefix size n :
  0 <= size -> 0 <= n < touch_threads size ->
  concat (map pages (map (thread_range size) (seqZ 0 n))) =
  seqZ 0 (Z.shiftr size 12 / touch_threads size * n).
Proof.
  intros Hs Hn. pose proof (touch_threads_pos size Hs). set (t := touch_threads size) in *.
  pose proof (proj2 (Z.shiftr_nonneg size 12) Hs) as Hp.
  assert (Hper : 0 <= Z.shiftr size 12 / t) by (apply Z.div_pos; lia).
  destruct Hn as [Hn0 Hn]. revert Hn. pattern n. apply natlike_ind; [|intros i Hi IH Hn|done].
  { intros _. rewrite Z.mul_0_r. done. }
  rewrite <- Z.add_1_r, seqZ_app, !map_app, concat_app, IH, seqZ_one, Z.add_0_l by lia. simpl.
  rewrite app_nil_r. unfold pages, thread_range. fold t.
  rewrite (proj2 (Z.eqb_neq i (t - 1))) by lia. simpl.
  rewrite Z.mul_add_distr_l, Z.mul_1_r, seqZ_app by nia. f_equal. f_equal; lia.
Qed.

(** The pre-allocation threads share the pages of a mapping without gap
    and without overlap: concatenating the page ranges of the threads, in
    order, gives every page number of the mapping once.  There are at least one
    and at most [MAX_PRE_ALLOC_THREAD] threads. *)
Theorem prealloc_partition size :
  0 <= size ->
  concat (map pages (prealloc_ranges size)) = seqZ 0 (Z.shiftr size 12) /\
  1 <= Z.of_nat (length (prealloc_ranges size)) <= MAX_PRE_ALLOC_THREAD.
Proof.
  intros Hs. pose proof (touch_threads_pos size Hs) as Ht.
  unfold prealloc_ranges. rewrite length_map, length_seqZ. split; [|unfold MAX_PRE_ALLOC_THREAD in *; lia].
  pose proof (prealloc_prefix size (touch_threads size - 1) Hs ltac:(lia)) as Hp.
  assert (Hsplit : seqZ 0 (touch_threads size) = seqZ 0 (touch_threads size - 1) ++ [touch_threads size - 1]).
  { rewrite <- (Z.sub_add 1 (touch_threads size)) at 1. rewrite seqZ_app, seqZ_one by lia. done. }
  rewrite Hsplit, !map_app, concat_app, Hp. clear Hp Hsplit. cbn [map concat]. rewrite app_nil_r.
  unfold pages, thread_range. rewrite Z.eqb_refl. cbn [fst snd].
  pose proof (proj2 (Z.shiftr_nonneg size 12) Hs) as Hn.
  generalize dependent (touch_threads size). generalize dependent (Z.shiftr size 12). intros np Hn t Ht.
  pose proof (Z.mul_div_le np t ltac:(lia)) as H1. pose proof (Z.div_pos np t ltac:(lia) ltac:(lia)) as H2.
  assert (Hm : np / t * (t - 1) = t * (np / t) - np / t) by ring.
  assert (np / t <= t * (np / t)) by nia.
  rewrite Hm. assert (Ha : 0 <= t * (np / t) - np / t <= np) by lia.
  revert Ha. generalize (t * (np / t) - np / t). intros a Ha.
  transitivity (seqZ 0 (a + (np - a))); [by rewrite seqZ_app by lia|f_equal; lia].
Qed.

Lemma prealloc_partition_witness :
  concat (map pages (prealloc_ranges 8589975552)) = seqZ 0 (Z.shiftr 8589975552 12) /\
  1 <= Z.of_nat (length (prealloc_ranges 8589975552)) <= MAX_PRE_ALLOC_THREAD.
Proof. apply (prealloc_partition 8589975552). lia. Defined.

(** ** Allocating an exact range *)

(** Consecutive free addresses of a merged pool lie in one free entry. *)
Lemma free_range_entry {T} (es : list (Range * NodeState T)) lo hi a b :
  chain lo hi es -> no_adjacent_free es -> a <= b ->
  (forall x, a <= x <= b -> free_addr es x) ->
  exists k, (k, Free) ∈ es /\ r_min k <= a /\ b <= r_max k.
Proof.
  revert lo. induction es as [|[k d] es IH]; intros lo Hc Hn Hab Hf.
  { specialize (Hf a ltac:(lia)). done. }
  simpl in Hc. destruct Hc as (H1 & H2 & Hc). destruct Hn as [Hk Hn].
  destruct (decide (in_range a k)) as [Ha|Ha].
  - assert (Hd : d = Free).
    { pose proof (Hf a ltac:(lia)) as Hfa. unfold free_addr in Hfa.
      rewrite (addr_state_elem ((k, d) :: es) lo hi k d a) in Hfa; [by injection Hfa| |set_solver|done].
      simpl. auto. }
    subst d. exists k. unfold in_range in Ha. split_and!; [set_solver|lia|].
    destruct (Z.le_gt_cases b (r_max k)) as [|Hb]; [done|exfalso].
    pose proof (Hf (r_max k + 1) ltac:(lia)) as Hnext.
    apply addr_state_some in Hnext as (k' & He' & Hin'). unfold in_range in Hin'.
    apply elem_of_cons in He' as [[= ->]|He']; [lia|].
    destruct es as [|[k2 d2] es]; [by apply elem_of_nil in He'|].
    simpl in Hc. destruct Hc as (H3 & H4 & Hc).
    assert (k' = k2 /\ d2 = Free) as [-> ->].
    { apply elem_of_cons in He' as [[= -> <-]|He']; [done|].
      pose proof (chain_elem _ _ _ _ _ Hc He'). lia. }
    apply (Hk (k2, Free) eq_refl); auto. simpl. lia.
  - assert (Hgt : r_max k < a).
    { pose proof (Hf a ltac:(lia)) as Hfa. apply addr_state_some in Hfa as (k' & He' & Hin').
      unfold in_range in *. apply elem_of_cons in He' as [[= -> <-]|He']; [done|].
      pose proof (chain_elem _ _ _ _ _ Hc He'). lia. }
    destruct (IH _ Hc Hn Hab) as (k' & ? & ? & ?); [|exists k'; set_solver].
    intros x Hx. specialize (Hf x Hx). unfold free_addr in *. simpl in Hf.
    case_hyp Hf; [|done]. bools. lia.
Qed.

(** The constraint of a statically placed range is met by that range. *)
Lemma allocate_exact {T} (t0 t : IntervalTree T) L lo hi :
  holds t0 t L -> 0 <= lo -> lo <= hi -> hi < u64_max ->
  (forall x, lo <= x <= hi -> free_addr (entries t) x) ->
  exists t', IntervalTree_allocate t (Constraint_max (Constraint_min (Constraint_new (hi - lo + 1)) lo) hi) =
      Ret (Some (mkRange lo hi), t') /\ holds t0 t' (L ++ [(mkRange lo hi, Allocated)]).
Proof.
  intros H Hlo Hle Hhi Hf. set (c := Constraint_max _ _).
  assert (Hv : valid_constraint c) by (unfold valid_constraint, c; simpl; split_and!; ulia).
  destruct (holds_allocate t0 t L c None H Hv) as (o & t1 & E & Ho).
  destruct o as [r|].
  - destruct Ho as (Hs & t3 & -> & Hh). exists t1. unfold served, c in Hs. simpl in Hs.
    assert (mkRange lo hi = r) as ->; [|done]. destruct r as [x y]. simpl in *. f_equal; lia.
  - exfalso. destruct Ho as [_ [Hz|[Hg|Hno]]]; [simpl in Hz; lia|destruct Hg; unfold good_align; simpl; auto|].
    destruct (free_range_entry (entries t) 0 (u64_max - 1) lo hi) as (k & He & Hk1 & Hk2); auto.
    { apply pool_chain, H. } { apply H. }
    apply (Hno k lo He). unfold can_hold. simpl. split_and!; [|lia..]. unfold eff_align. simpl. apply Z.divide_1_l.
Qed.

(** ** Laying out guest memory *)

Section Mgr.
Context {File Errno Mmap GuestRegion VmMemory W : Type}.
Context (host : FileOps File Errno W) (ops : @MapOps File Errno Mmap GuestRegion VmMemory W).
Implicit Types (r : AddressSpaceRegion File) (rs : list (AddressSpaceRegion File)).

Definition outside_hole r : Prop := region_end r <= MMIO_LOW_START \/ MMIO_LOW_END < base r.

(** Non-empty regions above [b], in ascending order, none of them in the hole. *)
Fixpoint ascending (b : Z) rs : Prop :=
  match rs with
  | [] => True
  | r :: rs => b <= base r /\ 0 < size r /\ outside_hole r /\ ascending (region_end r) rs
  end.

Definition bytes_of (info : NumaRegionInfo) : Z := nr_size info * 2 ^ 20.
Fixpoint total_bytes (infos : list NumaRegionInfo) : Z :=
  match infos with [] => 0 | info :: infos => bytes_of info + total_bytes infos end.
Fixpoint total_size rs : Z := match rs with [] => 0 | r :: rs => size r + total_size rs end.

(** The regions so far: they end at [fin] and hold [tot] bytes. *)
Record laid_out rs (fin tot : Z) : Prop := mk_laid_out {
  lo_ascending : ascending 0 rs;
  lo_ends : Forall (fun r => region_end r <= fin) rs;
  lo_total : total_size rs = tot;
  lo_memory : Forall (fun r => ty r = DefaultMemory) rs }.

Lemma ascending_snoc b rs r fin :
  ascending b rs -> Forall (fun r => region_end r <= fin) rs -> b <= fin -> fin <= base r -> 0 < size r ->
  outside_hole r -> ascending b (rs ++ [r]).
Proof.
  revert b. induction rs as [|r' rs IH]; intros b; simpl.
  - intros. split_and!; auto. lia.
  - intros (? & ? & ? & ?) [? ?]%Forall_cons ? ? ? ?. split_and!; auto.
Qed.

Lemma total_size_app rs1 rs2 : total_size (rs1 ++ rs2) = total_size rs1 + total_size rs2.
Proof. induction rs1 as [|r rs1 IH]; simpl; lia. Qed.

Lemma laid_out_snoc rs fin tot r :
  laid_out rs fin tot -> 0 <= fin -> fin <= base r -> 0 < size r -> outside_hole r -> ty r = DefaultMemory ->
  laid_out (rs ++ [r]) (region_end r) (tot + size r).
Proof.
  intros [H1 H2 H3 H4] Hf Hb Hs Ho Ht. split.
  - by apply (ascending_snoc 0 rs r fin).
  - apply Forall_app. split; [|by repeat constructor].
    eapply Forall_impl; [exact H2|]. unfold region_end. simpl. intros. lia.
  - rewrite total_size_app, H3. simpl. lia.
  - apply Forall_app. auto.
Qed.

(** The memory regions the host backs. *)
Lemma default_region_ok b s numa mem_type path prealloc hotplug w r w' :
  create_default_memory_region host b s numa mem_type path prealloc hotplug w = (Ok r, w') ->
  base r = b /\ size r = s /\ ty r = DefaultMemory.
Proof.
  unfold create_default_memory_region, create_memory_region.
  assert (Hf : forall (res : result (AddressSpaceRegion File) (AddressSpaceError Errno)) perm prot, file_region res b s numa perm prot hotplug ->
    match res with Ok r => base r = b /\ size r = s /\ ty r = DefaultMemory | Err _ => True end).
  { intros [r'|e] perm prot; [|done]. intros [f ->]. by destruct hotplug. }
  destruct (MemorySourceType_from_str mem_type) as [t|]; [|done].
  destruct t; intros E; simpl in E.
  - pose proof (Hf _ _ _ (hugetlbfs_region_file host path b s numa
      (if prealloc then Z.lor MAP_SHARED MAP_POPULATE else MAP_SHARED) (Z.lor PROT_READ PROT_WRITE) hotplug w)) as H.
    destruct (hugetlbfs_region _ _ _ _ _ _ _ _ _) as [[r'|e] w1]; [|done]; injection E as <- <-; by destruct r'.
  - simplify_eq. by destruct hotplug.
  - simplify_eq. by destruct hotplug.
  - pose proof (Hf _ _ _ (memfd_region_file host true b s numa
      (if prealloc then Z.lor MAP_SHARED MAP_POPULATE else MAP_SHARED) (Z.lor PROT_READ PROT_WRITE) hotplug w)) as H.
    destruct (memfd_region _ _ _ _ _ _ _ _ _) as [[r'|e] w1]; [|done]; injection E as <- <-; by destruct r'.
  - pose proof (Hf _ _ _ (memfd_region_file host false b s numa
      (if prealloc then Z.lor MAP_SHARED MAP_POPULATE else MAP_SHARED) (Z.lor PROT_READ PROT_WRITE) hotplug w)) as H.
    destruct (memfd_region _ _ _ _ _ _ _ _ _) as [[r'|e] w1]; [|done]; injection E as <- <-; by destruct r'.
Qed.

(** What [create_region] leaves unchanged in the manager. *)
Definition same_but_numa (m m' : @AddressSpaceMgr File VmMemory) : Prop :=
  m_base_to_slot m' = m_base_to_slot m /\ m_address_space m' = m_address_space m /\
  m_prealloc_handlers m' = m_prealloc_handlers m.

Definition builder_fits (b : AddressSpaceMgrBuilder) (n : Z) : Prop := 0 <= b_mem_index b /\ b_mem_index b + n <= u32_max.

Lemma create_region_ok m start sz info param w n :
  builder_fits param (n + 1) -> 0 <= n ->
  exists res m' param' w',
    create_region (Errno := Errno) (VmMemory := VmMemory) host m start sz info param w = Ret (res, m', param', w') /\
    same_but_numa m m' /\ builder_fits param' n /\
    match res with
    | Ok r => base r = start /\ size r = sz /\ ty r = DefaultMemory
    | Err e => exists e', e = CreateAddressSpaceRegion e'
    end.
Proof.
  intros [Hi Hn] Hp. unfold create_region, get_next_mem_file.
  assert (Hgo : forall path param', builder_fits param' n ->
    exists res m' param'' w',
    (let '(r, w) := create_default_memory_region host start sz (nr_host_numa_node_id info) (b_mem_type param')
        path (b_mem_prealloc param') false w in
     match r with
     | Err e => Ret (Err (CreateAddressSpaceRegion e), m, param', w)
     | Ok region => Ret (Ok region, insert_into_numa_nodes m region
         (match nr_guest_numa_node_id info with Some g => g | None => 0 end) (nr_vcpu_ids info), param', w)
     end) = Ret (res, m', param'', w') /\ same_but_numa m m' /\ builder_fits param'' n /\
    match res with
    | Ok r => base r = start /\ size r = sz /\ ty r = DefaultMemory
    | Err e => exists e', e = CreateAddressSpaceRegion e'
    end).
  { intros path param' Hf. destruct (create_default_memory_region _ _ _ _ _ _ _ _ _) as [[r|e] w'] eqn:E;
      eexists _, _, _, _; (split; [reflexivity|]); (split; [by unfold same_but_numa|]); (split; [done|]).
    - by apply default_region_ok in E.
    - by eexists. }
  destruct (b_mem_suffix param).
  - rewrite add_u_ret by lia. cbn [obind]. apply Hgo. unfold builder_fits. simpl. lia.
  - cbn [obind]. apply Hgo. unfold builder_fits. lia.
Qed.

Definition info_ok (info : NumaRegionInfo) : Prop := 0 < nr_size info < 2 ^ 44.

Lemma checked_shl_mib info : info_ok info -> checked_shl (nr_size info) 20 = Some (bytes_of info).
Proof.
  intros [H1 H2]. unfold checked_shl, bytes_of, as_u64. simpl. f_equal.
  rewrite Z.shiftl_mul_pow2 by lia. apply Z.mod_small. change (2 ^ 64) with (2 ^ 44 * 2 ^ 20). nia.
Qed.

Lemma laid_out_weaken rs fin fin' tot : laid_out rs fin tot -> fin <= fin' -> laid_out rs fin' tot.
Proof.
  intros [H1 H2 H3 H4] Hf. split; auto. eapply Forall_impl; [exact H2|]. simpl. intros. lia.
Qed.

(** The result of the first loop. *)
Definition regions_ok (m : @AddressSpaceMgr File VmMemory) (tot : Z)
    (out : outcome (result (list (AddressSpaceRegion File)) (@AddressManagerError Errno) *
      @AddressSpaceMgr File VmMemory * AddressSpaceMgrBuilder * W)) : Prop :=
  exists res m' param' w', out = Ret (res, m', param', w') /\ same_but_numa m m' /\
    match res with
    | Ok rs => exists fin, laid_out rs fin tot /\ fin <= MMIO_LOW_END + 1 + tot
    | Err e => exists e', e = CreateAddressSpaceRegion e'
    end.

Lemma same_but_numa_trans m1 m2 m3 : same_but_numa m1 m2 -> same_but_numa m2 m3 -> same_but_numa m1 m3.
Proof. unfold same_but_numa. intuition congruence. Qed.

Lemma regions_ok_trans m m1 tot out : same_but_numa m m1 -> regions_ok m1 tot out -> regions_ok m tot out.
Proof.
  intros Hs (res & m' & p' & w' & E & Hs' & H). exists res, m', p', w'. split_and!; auto.
  by eapply same_but_numa_trans.
Qed.

(** One region placed at [start] on one side of the hole, and the rest of the loop. *)
Lemma place_ok m start sz info param w n rs fin tot T
    (k : Z -> list (AddressSpaceRegion File) -> AddressSpaceMgr -> AddressSpaceMgrBuilder -> W -> _) :
  builder_fits param (n + 1) -> 0 <= n -> laid_out rs fin tot -> 0 <= fin <= start -> 0 < sz ->
  start > MMIO_LOW_END \/ start + sz <= MMIO_LOW_START -> start + sz <= u64_max ->
  (forall r m1 p1 w1, builder_fits p1 n -> laid_out (rs ++ [r]) (start + sz) (tot + sz) ->
     regions_ok m1 T (k (start + sz) (rs ++ [r]) m1 p1 w1)) ->
  regions_ok m T
    (let! (r, m, param, w) := create_region host m start sz info param w in
     match r with
     | Err e => Ret (Err e, m, param, w)
     | Ok region =>
         match checked_add u64_max start sz with
         | None => Ret (Err InvalidOperation, m, param, w)
         | Some start_addr => k start_addr (rs ++ [region]) m param w
         end
     end).
Proof.
  intros Hb Hn Hl Hf Hsz Hside Hmax Hk.
  destruct (create_region_ok m start sz info param w n Hb Hn) as (res & m1 & p1 & w1 & -> & Hm1 & Hp1 & Hres).
  cbn [obind]. destruct res as [r|e]; [|by exists (Err e), m1, p1, w1]. destruct Hres as (Hbr & Hsr & Htr).
  rewrite checked_add_some by lia. eapply regions_ok_trans; [exact Hm1|]. apply Hk; [done|].
  assert (He : region_end r = start + sz) by (unfold region_end; lia).
  rewrite <- He, <- Hsr. eapply laid_out_snoc; eauto; try lia. unfold outside_hole. rewrite He, Hbr. lia.
Qed.

Lemma create_regions_ok infos start rs m param w tot :
  Forall info_ok infos -> builder_fits param (2 * Z.of_nat (length infos)) -> laid_out rs start tot ->
  0 <= start -> start <= MMIO_LOW_START \/ MMIO_LOW_END < start -> 0 <= tot ->
  start <= MMIO_LOW_END + 1 + tot -> MMIO_LOW_END + 1 + tot + total_bytes infos <= u64_max ->
  regions_ok m (tot + total_bytes infos) (create_regions host infos start rs m param w).
Proof.
  intros Hok. revert start rs m param w tot.
  induction Hok as [|info infos Hi Hok IH]; intros start rs m param w tot Hb Hl Hs0 Hs Ht Hs1 Hmax;
    cbn [create_regions total_bytes] in *.
  { exists (Ok rs), m, param, w. split_and!; try done. exists start. rewrite Z.add_0_r. done. }
  rewrite checked_shl_mib by done. pose proof mmio_low_window as (EL & EH & _).
  assert (Hbytes : 0 < bytes_of info) by (unfold bytes_of; destruct Hi; lia).
  assert (Htb : 0 <= total_bytes infos).
  { clear -Hok. induction Hok as [|i l [? ?] _ ?]; simpl; [lia|]. unfold bytes_of. lia. }
  set (sz := bytes_of info) in *. rewrite Z.add_assoc in *.
  replace (2 * Z.of_nat (length (info :: infos))) with (2 * Z.of_nat (length infos) + 1 + 1) in Hb
    by (simpl length; lia).
  assert (Hb' : forall p, builder_fits p (2 * Z.of_nat (length infos) + 1) -> builder_fits p (2 * Z.of_nat (length infos)))
    by (intros p []; split; lia).
  (* the memory fits on one side of the hole *)
  destruct (Z.gtb_spec start MMIO_LOW_END).
  { cbn [obind]. eapply place_ok; eauto; try lia. intros r m1 p1 w1 Hp1 Hl1. apply IH; auto; lia. }
  rewrite add_u_ret by lia. cbn [obind]. destruct (Z.leb_spec (start + sz) MMIO_LOW_START).
  { eapply place_ok; eauto; try lia. intros r m1 p1 w1 Hp1 Hl1. apply IH; auto; lia. }
  unfold checked_sub at 1. rewrite (proj2 (Z.leb_le start _)) by lia.
  (* the memory is split, or moved above the hole *)
  destruct (Z.ltb_spec (MMIO_LOW_START - start) MINIMAL_SPLIT_SPACE); cbn [obind].
  - unfold checked_sub. rewrite (proj2 (Z.leb_le 0 sz)), Z.sub_0_r by lia.
    eapply place_ok; eauto; try lia. intros r m1 p1 w1 Hp1 Hl1. apply IH; auto; lia.
  - destruct (create_region_ok m start (MMIO_LOW_START - start) info param w _ Hb ltac:(lia))
      as (res & m1 & p1 & w1 & -> & Hm1 & Hp1 & Hres). cbn [obind].
    destruct res as [r|e]; [|by exists (Err e), m1, p1, w1]. destruct Hres as (Hbr & Hsr & Htr).
    assert (He : region_end r = MMIO_LOW_START) by (unfold region_end; lia).
    assert (Hl1 : laid_out (rs ++ [r]) MMIO_LOW_START (tot + (MMIO_LOW_START - start))).
    { assert (MINIMAL_SPLIT_SPACE = 134217728) by done. rewrite <- He at 1. rewrite <- Hsr.
      eapply laid_out_snoc; eauto; try lia. left. lia. }
    unfold checked_sub. rewrite (proj2 (Z.leb_le _ sz)) by lia. eapply regions_ok_trans; [exact Hm1|].
    eapply place_ok; eauto; try lia. intros r2 m2 p2 w2 Hp2 Hl2.
    replace (tot + sz) with (tot + (MMIO_LOW_START - start) + (sz - (MMIO_LOW_START - start))) in * by lia.
    apply IH; auto; lia.
Qed.

(** ** Mapping the regions *)

Definition frame (m m' : @AddressSpaceMgr File VmMemory) : Prop :=
  m_base_to_slot m' = m_base_to_slot m /\ m_address_space m' = m_address_space m /\
  m_numa_nodes m' = m_numa_nodes m.

Lemma spawn_all_frame m mm ranges w : frame m (spawn_all ops m mm ranges w).1.
Proof.
  revert m w. induction ranges as [|rg ranges IH]; intros m w; simpl; [done|].
  destruct (spawn_prealloc _ _ _ _) as [[] w']; [exact (IH (push_handler m rg) w')|apply IH].
Qed.

Definition map_error (e : @AddressManagerError Errno) : Prop :=
  match e with
  | InvalidOperation | DupFd _ | MmapGuestMemory _ | Madvise _ | CreateGuestMemory _ => True
  | _ => False
  end.

Lemma create_mmap_region_frame m reg w :
  let '(res, m', _) := create_mmap_region ops m reg w in
  frame m m' /\ match res with Ok _ => True | Err e => map_error e end.
Proof.
  unfold create_mmap_region, configure_anon_mem, configure_numa, configure_thp_and_prealloc.
  case_bool_decide; [done|].
  destruct (match file_offset reg with Some _ => _ | None => _ end) as [[fo|e] w1] eqn:Ef.
  2: { destruct (file_offset reg) as [[f st]|]; [|done]. destruct (dup _ _ _) as [[]]; by simplify_eq. }
  destruct (mmap_build _ _ _ _ _ _) as [[mm|e] w2]; [|done].
  destruct (if is_anon reg then _ else _) as [[u|e] w3] eqn:Ea.
  2: { destruct (is_anon reg); [|done]. destruct (madvise _ _ _ _) as [[]]; by simplify_eq. }
  destruct (match host_numa_node_id reg with Some _ => _ | None => _ end) as [[u2|e] w4] eqn:En.
  2: { destruct (host_numa_node_id reg) as [nid|]; [|done]. destruct (checked_shl 1 nid); [|by simplify_eq].
       by destruct (mbind _ _ _ _). }
  destruct (if is_hugepage reg then _ else _) as [[[u3|e] m5] w5] eqn:Eh.
  - assert (Hf : frame m m5).
    { destruct (is_hugepage reg); [|by simplify_eq]. destruct (madvise ops mm MADV_HUGEPAGE w4) as [[u'|e'] w6]; [|done].
      case_hyp Eh; [|by simplify_eq]. destruct (spawn_all ops m mm (prealloc_ranges (size reg)) w6) eqn:Es.
      pose proof (spawn_all_frame m mm (prealloc_ranges (size reg)) w6) as Hs. rewrite Es in Hs. by simplify_eq. }
    destruct (guest_region_new _ _ _); done.
  - destruct (is_hugepage reg); [|done]. destruct (madvise ops mm MADV_HUGEPAGE w4) as [[u'|e'] w6]; [|by simplify_eq].
    case_hyp Eh; [|done]. by destruct (spawn_all _ _ _ _ _).
Qed.

Lemma kvm_slot_ok pe rm0 rm L :
  rm_inv pe rm0 -> rm_holds rm0 rm L ->
  exists o rm', allocate_kvm_mem_slot rm 1 None = Ret (o, rm') /\
    match o with Some slot => rm_holds rm0 rm' (L ++ [KvmMemSlot slot]) | None => True end.
Proof.
  intros Hi H. destruct (allocate_one_kvm pe rm0 rm false None 1 (claim <$> L) Hi H) as (o & rm' & E & Ho); [split; [ulia|done]|].
  simpl in E. bind_inv E. destruct a as [o' rm1]. exists o', rm1. split; [done|].
  injection E as <- <-. destruct o' as [slot|]; [|done]. destruct Ho as (_ & Ho). unfold rm_holds. rewrite fmap_app. cbn in *. by replace (slot + 1 - 1) with slot in Ho by lia.
Qed.

(** The resources taken for each region: its addresses and its memory slot. *)
Fixpoint ledger rs (slots : list Z) : list Resource :=
  match rs, slots with
  | r :: rs, slot :: slots => MemAddressRange (base r) (size r) :: KvmMemSlot slot :: ledger rs slots
  | _, _ => []
  end.

Fixpoint slot_map rs (slots : list Z) (x : gmap Z Z) : gmap Z Z :=
  match rs, slots with
  | r :: rs, slot :: slots => slot_map rs slots (<[base r := slot]> x)
  | _, _ => x
  end.

Definition mem_free (rm0 : ResourceManager) r : Prop :=
  forall a, in_region a r -> free_addr (entries (mem_pool rm0)) a.

Definition claims_below (L : list Resource) (b : Z) : Prop :=
  forall k d, (k, d) ∈ claims MemPool L -> r_max k < b.

Lemma region_last_ok r : 0 <= base r -> 0 < size r -> region_end r <= u64_max ->
  Region_last_addr r = Ret (region_end r - 1).
Proof.
  intros Hb Hs He. unfold Region_last_addr, is_valid. rewrite checked_end, Z.gtb_ltb.
  rewrite (proj2 (Z.ltb_lt 0 _)), (proj2 (Z.leb_le _ u64_max)) by lia. cbn [andb].
  rewrite add_u_ret by done. cbn [obind]. fold (region_end r). apply sub_u_ret. unfold region_end. lia.
Qed.

(** The addresses of a region above everything taken so far are allocated as asked. *)
Lemma allocate_region_ok rm0 rm L b r :
  rm_holds rm0 rm L -> claims_below L b -> 0 <= b -> b <= base r -> 0 < size r -> region_end r <= u64_max ->
  mem_free rm0 r ->
  exists rm', allocate_mem_address rm (Constraint_max (Constraint_min (Constraint_new (size r)) (base r))
      (region_end r - 1)) = Ret (Some (base r), rm') /\
    rm_holds rm0 rm' (L ++ [MemAddressRange (base r) (size r)]) /\
    claims_below (L ++ [MemAddressRange (base r) (size r)]) (region_end r).
Proof.
  intros H Hbel Hb Hbr Hs He Hf.
  destruct (allocate_exact (mem_pool rm0) (mem_pool rm) (claims MemPool L) (base r) (region_end r - 1))
    as (t' & E & Hh); [apply (H MemPool)|unfold region_end in *; ulia..| |].
  { intros x Hx. apply (holds_free _ _ _ (H MemPool)). split; [apply Hf; unfold in_region; lia|].
    apply Forall_forall. intros [k d] Hk. pose proof (Hbel k d Hk). unfold in_range. simpl. lia. }
  replace (region_end r - 1 - base r + 1) with (size r) in E by (unfold region_end; lia).
  unfold allocate_mem_address. rewrite E. cbn [obind]. eexists. split_and!; [reflexivity| |].
  - eapply (rm_holds_snoc rm0 rm _ L MemPool); [done|reflexivity|exact Hh|by intros []].
  - intros k d. rewrite claims_snoc. intros [Hk|Hk]%elem_of_app.
    + specialize (Hbel k d Hk). unfold region_end. lia.
    + simpl in Hk. apply list_elem_of_singleton in Hk as [= -> ->]. simpl. unfold region_end. lia.
Qed.

Lemma claims_below_slot L b slot : claims_below L b -> claims_below (L ++ [KvmMemSlot slot]) b.
Proof. intros H k d. rewrite claims_snoc. simpl. rewrite app_nil_r. apply H. Qed.

Lemma map_regions_ok pe rm0 rs rm L b vm m param w :
  rm_inv pe rm0 -> rm_holds rm0 rm L -> claims_below L b -> 0 <= b -> ascending b rs ->
  Forall (fun r => region_end r <= u64_max) rs -> Forall (mem_free rm0) rs ->
  exists res m' rm' w', map_regions ops rs vm m rm param w = Ret (res, m', rm', w') /\
    match res with
    | Ok _ => exists slots, length slots = length rs /\ rm_holds rm0 rm' (L ++ ledger rs slots) /\
        m_base_to_slot m' = slot_map rs slots (m_base_to_slot m) /\ m_numa_nodes m' = m_numa_nodes m
    | Err e => e <> NoAvailableMemAddress
    end.
Proof.
  intros Hi. revert rm L b vm m w. induction rs as [|r rs IH]; intros rm L b vm m w H Hbel Hb Ha He Hf.
  { exists (Ok vm), m, rm, w. split; [done|]. exists []. simpl. by rewrite app_nil_r. }
  destruct Ha as (Hbr & Hsz & _ & Ha). apply Forall_cons in He as [He1 He], Hf as [Hf1 Hf].
  cbn [map_regions]. rewrite region_last_ok by lia. cbn [obind].
  destruct (allocate_region_ok rm0 rm L b r) as (rm1 & -> & H1 & Hbel1); auto. cbn [obind].
  pose proof (create_mmap_region_frame m r w) as Hfr.
  destruct (create_mmap_region ops m r w) as [[[g|e] m1] w1].
  2: { eexists _, _, _, _. split; [reflexivity|]. destruct Hfr as [_ Hme]. by intros ->. }
  destruct Hfr as [(F1 & F2 & F3) _]. destruct (vm_insert_region ops vm g) as [vm1|e].
  2: { eexists _, _, _, _. by split; [reflexivity|]. }
  unfold map_to_kvm. destruct (kvm_slot_ok pe rm0 rm1 _ Hi H1) as (o & rm2 & -> & Ho). cbn [obind].
  destruct o as [slot|]; [|cbn [obind]; eexists _, _, _, _; by split; [reflexivity|]].
  destruct (if b_vmfd param then _ else _) as [[u|e] w2] eqn:Ek; cbn [obind].
  2: { eexists _, _, _, _. split; [reflexivity|]. destruct (b_vmfd param); [|done].
       destruct (get_host_address _ _); [|by simplify_eq]. destruct (set_user_memory_region _ _ _) as [[]]; by simplify_eq. }
  destruct (IH rm2 _ (region_end r) vm1 (set_base_to_slot m1 (<[base r := slot]> (m_base_to_slot m1))) w2 Ho)
    as (res & m' & rm' & w' & -> & Hres); auto; [by apply claims_below_slot|unfold region_end; lia|].
  eexists _, _, _, _. split; [reflexivity|]. destruct res as [vm'|e]; [|done].
  destruct Hres as (slots & Hlen & Hh & Hm & Hn). exists (slot :: slots). simpl. split_and!; auto.
  - by rewrite <- !app_assoc in Hh.
  - rewrite Hm. simpl. by rewrite F1.
  - rewrite Hn. simpl. done.
Qed.

(** ** The whole operation *)

Lemma ascending_bases b rs : ascending b rs -> Forall (fun r => b <= base r /\ 0 < size r /\ outside_hole r) rs.
Proof.
  revert b. induction rs as [|r rs IH]; intros b; simpl; [done|]. intros (H1 & H2 & H3 & H4).
  constructor; [done|]. eapply Forall_impl; [by apply IH|]. unfold region_end. simpl. intros r' (? & ?). split; [lia|done].
Qed.

Lemma ascending_pairwise b rs : ascending b rs -> pairwise rs.
Proof.
  revert b. induction rs as [|r rs IH]; intros b; simpl; [done|]. intros (H1 & H2 & H3 & H4).
  split; [|by eapply IH]. eapply Forall_impl; [by apply ascending_bases|]. simpl. intros r' (? & ?). by left.
Qed.

Lemma slot_map_below rs slots x b k : ascending b rs -> k < b -> slot_map rs slots x !! k = x !! k.
Proof.
  revert slots x b. induction rs as [|r rs IH]; intros slots x b; simpl; [done|].
  intros (H1 & H2 & _ & H4) Hk. destruct slots as [|slot slots]; [done|].
  rewrite (IH _ _ _ H4) by (unfold region_end; lia). apply lookup_insert_ne. lia.
Qed.

Lemma slot_map_lookup rs slots x b i r slot :
  ascending b rs -> rs !! i = Some r -> slots !! i = Some slot -> slot_map rs slots x !! base r = Some slot.
Proof.
  revert slots x b i. induction rs as [|r' rs IH]; intros slots x b i; simpl; [done|].
  intros (H1 & H2 & _ & H4) Hr Hs. destruct slots as [|slot' slots]; [done|].
  destruct i as [|i]; simpl in *; [|by eapply IH]. simplify_eq.
  rewrite (slot_map_below _ _ _ _ _ H4) by (unfold region_end; lia). apply lookup_insert_eq.
Qed.

(** All guest memory addresses outside the MMIO hole are free. *)
Definition mem_unused (pe : Z) (rm0 : ResourceManager) : Prop :=
  forall a, 0 <= a <= GUEST_MEM_END pe -> a < MMIO_LOW_START \/ MMIO_LOW_END < a ->
    free_addr (entries (mem_pool rm0)) a.

(** The state after a successful creation. *)
Definition created (rm0 : ResourceManager) (infos : list NumaRegionInfo)
    (m : @AddressSpaceMgr File VmMemory) (rm : ResourceManager) : Prop :=
  exists space rs slots,
    m_address_space m = Some space /\ as_inv space /\ Permutation (regions space) rs /\
    ascending 0 rs /\ total_size rs = total_bytes infos /\
    length slots = length rs /\ rm_holds rm0 rm (ledger rs slots) /\
    forall i r slot, rs !! i = Some r -> slots !! i = Some slot -> m_base_to_slot m !! base r = Some slot.

(** C28. Creating the address space of a virtual machine.  With the memory below
    the end of guest memory, on a resource manager whose memory addresses
    outside the MMIO hole are free, and whatever the host answers, the operation
    never panics and never fails for lack of an address.  On success the regions
    are disjoint, in ascending order, outside the hole, and hold exactly the
    memory asked for; the resource manager has handed out exactly their
    addresses and one memory slot each; and the slot of each region is recorded
    under its base address. *)
Theorem create_address_space_correct usable pe m rm0 infos param w :
  rm_inv pe rm0 -> in_u64 pe -> mem_unused pe rm0 -> Forall info_ok infos ->
  builder_fits param (2 * Z.of_nat (length infos)) ->
  MMIO_LOW_END + 1 + total_bytes infos <= GUEST_MEM_END pe ->
  exists res m' rm' w', create_address_space host ops usable pe m rm0 infos param w = Ret (res, m', rm', w') /\
    match res with
    | Ok _ => created rm0 infos m' rm'
    | Err e => e <> NoAvailableMemAddress
    end.
Proof.
  intros Hi Hpe Hu Hinf Hb Hmax. pose proof mmio_low_window as (EL & EH & _).
  assert (Hme : GUEST_MEM_END pe <= u64_max).
  { unfold GUEST_MEM_END. rewrite Z.shiftr_div_pow2 by lia. change (2 ^ 1) with 2.
    pose proof (Z.div_le_upper_bound pe 2 pe). unfold in_u64 in *. lia. }
  unfold create_address_space.
  destruct (create_regions_ok infos GUEST_MEM_START [] m param w 0 Hinf Hb)
    as (res & m1 & p1 & w1 & -> & Hm1 & Hres); [by split|unfold GUEST_MEM_START; lia..|].
  cbn [obind]. destruct res as [rs|e]; [|destruct Hres as [e' ->]; by eexists _, _, _, _; split; [reflexivity|]].
  destruct Hres as (fin & [Ha He Ht Hty] & Hfin). rewrite Z.add_0_l in *.
  pose proof (ascending_bases 0 rs Ha) as Hbs. rewrite Forall_forall in Hbs, He, Hty.
  assert (Hends : Forall (fun r => region_end r <= u64_max) rs).
  { apply Forall_forall. intros r Hr. specialize (He r Hr). simpl in He. lia. }
  destruct (map_regions_ok pe rm0 rs rm0 [] 0 (vm_memory_new ops) m1 p1 w1)
    as (res & m2 & rm2 & w2 & -> & Hres); auto.
  { by eapply rm_holds_refl. } { by intros k d ?%elem_of_nil. } { lia. }
  { apply Forall_forall. intros r Hr a Hin. specialize (Hbs r Hr). specialize (He r Hr).
    unfold in_region, outside_hole in *. apply Hu; lia. }
  cbn [obind]. destruct res as [vm|e]; [|by eexists _, _, _, _; split; [reflexivity|]].
  destruct Hres as (slots & Hlen & Hh & Hbm & _).
  assert (Had : Forall (admitted (Layout_new usable pe GUEST_MEM_START (GUEST_MEM_END pe))) rs).
  { apply Forall_forall. intros r Hr. specialize (Hbs r Hr). specialize (He r Hr). specialize (Hty r Hr).
    unfold admitted. rewrite Hty. simpl. unfold GUEST_MEM_START. lia. }
  rewrite from_regions_ok by (eauto using ascending_pairwise). cbn [obind].
  eexists _, _, _, _. split; [reflexivity|]. eexists _, rs, slots. split; [reflexivity|]. split_and!; auto.
  - split; cbn [regions layout]; rewrite merge_sort_perm; [|done|by eapply ascending_pairwise].
    apply Forall_forall. intros r Hr. specialize (Hbs r Hr). rewrite Forall_forall in Hends. specialize (Hends r Hr).
    unfold region_typed, region_end in *. unfold in_u64. lia.
  - apply merge_sort_perm.
  - intros i r slot Hr Hs. simpl. rewrite Hbm. by eapply slot_map_lookup.
Qed.

End Mgr.

(** A host that answers every call with success. *)
Definition ok_host : FileOps unit unit unit :=
  mkFileOps unit (fun _ w => (Ok tt, w)) (fun _ _ w => (Ok tt, w)) (fun _ => None) (fun _ w => (Ok tt, w))
    (fun _ w => (Ok tt, w)) (fun _ w => (Ok tt, w)).
Definition ok_ops : @MapOps unit unit unit Z (list Z) unit :=
  mkMapOps (fun _ w => (Ok tt, w)) (fun _ _ _ _ w => (Ok tt, w)) (fun _ _ w => (Ok tt, w)) (fun _ _ w => (0, w))
    (fun _ _ w => (true, w)) (fun _ b => Ok b) [] (fun vm g => Ok (vm ++ [g])) (fun _ => Some 4096)
    (fun _ w => (Ok tt, w)).
Definition ex_infos : list NumaRegionInfo :=
  [mkNumaRegion 2048 None (Some 0) [0; 1]; mkNumaRegion 4096 (Some 1) (Some 1) [2; 3]].
Definition ex_builder : AddressSpaceMgrBuilder := mkBuilder "hugeshmem" "mem" 0 true true false true.

Lemma ex_rm_unused : mem_unused ex_phys_end ex_rm.
Proof.
  intros a Ha Hh. pose proof mmio_low_window as (EL & EH & _). unfold free_addr.
  assert (He : entries (mem_pool ex_rm) = initial_entries ex_phys_end 0 MemPool) by (by vm_compute).
  rewrite He. simpl. unfold GUEST_MEM_START.
  destruct ((0 <=? a) && (a <=? MMIO_LOW_START - 1)) eqn:E1; [done|].
  destruct ((MMIO_LOW_END + 1 <=? a) && (a <=? GUEST_MEM_END ex_phys_end)) eqn:E2; [done|]. lia.
Qed.

Lemma create_address_space_correct_witness :
  exists res m' rm' w', create_address_space ok_host ok_ops 0 ex_phys_end Mgr_default ex_rm ex_infos ex_builder tt =
      Ret (res, m', rm', w') /\
    match res with
    | Ok _ => created ex_rm ex_infos m' rm'
    | Err e => e <> NoAvailableMemAddress
    end.
Proof.
  apply (create_address_space_correct ok_host ok_ops).
  - apply (ResourceManager_new_inv 46 ex_phys_end None); [done..|]. by vm_compute.
  - by vm_compute.
  - apply ex_rm_unused.
  - repeat constructor; vm_compute; done.
  - by vm_compute.
  - by vm_compute.
Defined.

(** ** What the code does at the edges *)

(** [checked_shl] checks the shift amount only: a size of 2^44 MiB becomes zero bytes. *)
Lemma size_in_mib_wraps : checked_shl (2 ^ 44) 20 = Some 0.
Proof. by vm_compute. Qed.

(** A NUMA region split by the hole records its vCPUs twice. *)
Lemma split_region_repeats_vcpus :
  match create_address_space ok_host ok_ops 0 ex_phys_end Mgr_default ex_rm
          [mkNumaRegion 4096 None (Some 0) [0; 1]] ex_builder tt with
  | Ret (Ok _, m, _, _) =>
      match m_numa_nodes m with
      | [(0, n)] => vcpu_ids n = [0; 1; 0; 1] /\ length (region_infos n) = 2%nat
      | _ => False
      end
  | _ => False
  end.
Proof. by vm_compute. Qed.
