(* ===== verification/VsockStream.v ===== *)
(** The host side of a vsock connection: byte strings, slices and the trait
    [VsockStream] (backend/mod.rs), a [Read + Write] object the sources only
    call.  A stream is a state of an arbitrary type [S] with the two
    operations the connection uses; [StreamLaws] states what
    [std::io::Read] and [std::io::Write] document about them. *)

From S2P Require Import Prelude.

(** ** Bytes *)

Abbreviation bytes := (list Z).

Definition zlen {A} (l : list A) : Z := Z.of_nat (length l).
Definition ztake {A} (n : Z) (l : list A) : list A := take (Z.to_nat n) l.
Definition zdrop {A} (n : Z) (l : list A) : list A := drop (Z.to_nat n) l.

(** [&l[a..b]], which panics when the bounds are out of range. *)
Definition slice (l : bytes) (a b : Z) : outcome bytes :=
  if (a <=? b) && (b <=? zlen l) then Ret (ztake (b - a) (zdrop a l)) else Panic.

(** [dst[a..b].copy_from_slice(src)], which also panics when the lengths differ. *)
Definition copy_from_slice (dst : bytes) (a b : Z) (src : bytes) : outcome bytes :=
  if (a <=? b) && (b <=? zlen dst) && (b - a =? zlen src)
  then Ret (ztake a dst ++ src ++ zdrop b dst)
  else Panic.

Section Lists.
Context {A : Type}.
Implicit Types x y l : list A.

Lemma zlen_nonneg l : 0 <= zlen l.
Proof. unfold zlen. lia. Qed.

Lemma zlen_nil_inv l : zlen l <= 0 -> l = [].
Proof. unfold zlen. intros. apply nil_length_inv. lia. Qed.

Lemma zlen_app x y : zlen (x ++ y) = zlen x + zlen y.
Proof. unfold zlen. rewrite length_app. lia. Qed.

Lemma zlen_ztake n l : 0 <= n <= zlen l -> zlen (ztake n l) = n.
Proof. unfold zlen, ztake. rewrite length_take. lia. Qed.

Lemma zlen_zdrop n l : 0 <= n <= zlen l -> zlen (zdrop n l) = zlen l - n.
Proof. unfold zlen, zdrop. rewrite length_drop. lia. Qed.

Lemma ztake_zdrop n l : ztake n l ++ zdrop n l = l.
Proof. apply take_drop. Qed.

Lemma ztake_app n x y : n = zlen x -> ztake n (x ++ y) = x.
Proof. intros ->. unfold ztake, zlen. rewrite Nat2Z.id. apply take_app_length. Qed.

Lemma zdrop_app n x y : n = zlen x -> zdrop n (x ++ y) = y.
Proof. intros ->. unfold zdrop, zlen. rewrite Nat2Z.id. apply drop_app_length. Qed.

Lemma ztake_app_l n x y : 0 <= n <= zlen x -> ztake n (x ++ y) = ztake n x.
Proof. unfold ztake, zlen. intros. apply take_app_le. lia. Qed.

Lemma ztake_app_r n x y : zlen x <= n -> ztake n (x ++ y) = x ++ ztake (n - zlen x) y.
Proof.
  unfold ztake, zlen. intros. rewrite take_app_ge by lia.
  do 2 f_equal. lia.
Qed.

Lemma zdrop_app_l n x y : 0 <= n <= zlen x -> zdrop n (x ++ y) = zdrop n x ++ y.
Proof. unfold zdrop, zlen. intros. apply drop_app_le. lia. Qed.

Lemma ztake_all n l : zlen l <= n -> ztake n l = l.
Proof. unfold ztake, zlen. intros. apply take_ge. lia. Qed.

Lemma zdrop_all n l : zlen l <= n -> zdrop n l = [].
Proof. unfold zdrop, zlen. intros. apply drop_ge. lia. Qed.

Lemma zdrop_0 l : zdrop 0 l = l.
Proof. done. Qed.

(** Splitting a list at a position within it. *)
Lemma zsplit n l : 0 <= n <= zlen l -> exists x y, l = x ++ y /\ zlen x = n.
Proof.
  intros. exists (ztake n l), (zdrop n l). rewrite ztake_zdrop. split; [done|].
  by apply zlen_ztake.
Qed.
End Lists.

Lemma slice_ret l a b :
  a <= b -> b <= zlen l -> slice l a b = Ret (ztake (b - a) (zdrop a l)).
Proof. intros. unfold slice. by rewrite !(proj2 (Z.leb_le _ _)). Qed.

Lemma copy_from_slice_ret dst a b src :
  a <= b -> b <= zlen dst -> b - a = zlen src ->
  copy_from_slice dst a b src = Ret (ztake a dst ++ src ++ zdrop b dst).
Proof.
  intros ? ? E. unfold copy_from_slice. rewrite !(proj2 (Z.leb_le _ _)) by done.
  by rewrite (proj2 (Z.eqb_eq _ _) E).
Qed.

(** ** Streams *)

(** [std::io::Error] by its [kind()]; the code only tells [WouldBlock] apart. *)
Inductive ErrorKind : Type :=
| WouldBlock
| OtherError (code : Z).

Definition is_would_block (e : ErrorKind) : bool :=
  match e with WouldBlock => true | OtherError _ => false end.

(** [write(buf)] returns how many bytes it took, [read(&mut buf[..n])] the bytes
    it put into the buffer. *)
Class VsockStream (S : Type) := {
  stream_write : S -> bytes -> result Z ErrorKind * S;
  stream_read : S -> Z -> result bytes ErrorKind * S;
}.

(** [Write::write]: on [Ok(n)], [n <= buf.len()] and the first [n] bytes of the
    buffer have been taken; on an error nothing was.  [Read::read]: on [Ok(n)],
    [n <= buf.len()].  [received] and [supplied] are the bytes that have gone
    into and come out of the stream. *)
Class StreamLaws (S : Type) `{VsockStream S} := {
  received : S -> bytes;
  supplied : S -> bytes;
  write_ok s buf n s' : stream_write s buf = (Ok n, s') ->
    0 <= n <= zlen buf /\ received s' = received s ++ ztake n buf /\ supplied s' = supplied s;
  write_err s buf e s' : stream_write s buf = (Err e, s') ->
    received s' = received s /\ supplied s' = supplied s;
  read_ok s n bs s' : 0 <= n -> stream_read s n = (Ok bs, s') ->
    zlen bs <= n /\ received s' = received s /\ supplied s' = supplied s ++ bs;
  read_err s n e s' : stream_read s n = (Err e, s') ->
    received s' = received s /\ supplied s' = supplied s;
}.

(** ** A stream to evaluate on

    A scripted host: each write takes at most the next amount of [takes] (none
    left: the whole buffer; a negative one is an error), each read gives the
    next chunk of [chunks] (none left: would block; an empty one is the end of
    the stream). *)
Record Script := mkScript {
  takes : list Z;
  chunks : list bytes;
  got : bytes;
  gave : bytes;
}.

Definition script_write (s : Script) (buf : bytes) : result Z ErrorKind * Script :=
  match takes s with
  | [] => (Ok (zlen buf), mkScript [] (chunks s) (got s ++ buf) (gave s))
  | n :: ns =>
      if n <? 0 then (Err (if n =? -1 then WouldBlock else OtherError n),
                      mkScript ns (chunks s) (got s) (gave s))
      else (Ok (Z.min n (zlen buf)),
            mkScript ns (chunks s) (got s ++ ztake (Z.min n (zlen buf)) buf) (gave s))
  end.

Definition script_read (s : Script) (n : Z) : result bytes ErrorKind * Script :=
  match chunks s with
  | [] => (Err WouldBlock, s)
  | c :: cs => (Ok (ztake n c), mkScript (takes s) cs (got s) (gave s ++ ztake n c))
  end.

#[export] Instance Script_stream : VsockStream Script :=
  {| stream_write := script_write; stream_read := script_read |}.

#[export] Program Instance Script_laws : StreamLaws Script :=
  {| received := got; supplied := gave |}.
Next Obligation.
  intros s buf n s'. simpl. unfold script_write. pose proof (zlen_nonneg buf).
  repeat case_goal; intros [= <- <-]; simpl; bools; split_and!; auto; try lia.
  by rewrite ztake_all.
Qed.
Next Obligation. intros s buf e s'. simpl. unfold script_write. repeat case_goal; by intros [= <- <-]. Qed.
Next Obligation.
  intros s n bs s' Hn. simpl. unfold script_read. repeat case_goal; intros [= <- <-]; simpl.
  split_and!; auto. unfold zlen, ztake. rewrite length_take. lia.
Qed.
Next Obligation. intros s n e s'. simpl. unfold script_read. repeat case_goal; by intros [= <- <-]. Qed.
