(* ===== verification/TxBuf.v ===== *)
(** The ring buffer that holds guest data the host side could not take at once
    (dbs_virtio_devices/src/vsock/csm/txbuf.rs), and its refinement to a byte
    queue: [push] appends, [flush_to] removes a prefix and hands it to the
    stream, whatever the wrap-around of the 32-bit offsets. *)

From S2P Require Import Prelude VsockStream.

(** ** csm/mod.rs: constants and errors *)

Definition CONN_TX_BUF_SIZE : Z := 64 * 1024.
Definition CONN_CREDIT_UPDATE_THRESHOLD : Z := 4 * 1024.

(** Timeouts, in milliseconds. *)
Definition CONN_REQUEST_TIMEOUT_MS : Z := 2000.
Definition CONN_SHUTDOWN_TIMEOUT_MS : Z := 2000.

Inductive CsmError : Type :=
| TxBufFull
| TxBufFlush (e : ErrorKind)
| StreamWrite (e : ErrorKind).

(** [Wrapping<u32>] arithmetic. *)
Definition wadd (x y : Z) : Z := (x + y) mod 2 ^ 32.
Definition wsub (x y : Z) : Z := (x - y) mod 2 ^ 32.

(** ** [struct TxBuf] *)

Record TxBuf := mkTxBuf {
  txb_data : option bytes;
  txb_head : Z;
  txb_tail : Z;
}.

Definition TxBuf_SIZE : Z := CONN_TX_BUF_SIZE.

Definition TxBuf_default : TxBuf := mkTxBuf None 0 0.

Definition TxBuf_len (b : TxBuf) : Z := wsub (txb_head b) (txb_tail b).

Definition TxBuf_is_empty (b : TxBuf) : bool := TxBuf_len b =? 0.

Definition TxBuf_push (b : TxBuf) (src : bytes) : outcome (result unit CsmError * TxBuf) :=
  if TxBuf_len b + zlen src >? TxBuf_SIZE then Ret (Err TxBufFull, b) else
  let data := match txb_data b with
              | Some d => d
              | None => replicate (Z.to_nat TxBuf_SIZE) 0
              end in
  let head_ofs := txb_head b mod TxBuf_SIZE in
  let len := Z.min (TxBuf_SIZE - head_ofs) (zlen src) in
  let! s1 := slice src 0 len in
  let! data := copy_from_slice data head_ofs (head_ofs + len) s1 in
  let! data :=
    if len <? zlen src then
      let! s2 := slice src len (zlen src) in
      copy_from_slice data 0 (zlen src - len) s2
    else Ret data in
  Ret (Ok tt, mkTxBuf (Some data) (wadd (txb_head b) (as_u32 (zlen src))) (txb_tail b)).

Section Flush.
Context {S : Type} `{VsockStream S}.

(** [flush_to] calls itself once more after a complete first write; the third
    call finds the buffer empty. *)
Fixpoint flush_to_fuel (fuel : nat) (b : TxBuf) (sink : S) :
  outcome (result Z CsmError * TxBuf * S) :=
  match fuel with
  | O => Panic
  | Datatypes.S fuel =>
      if TxBuf_is_empty b then Ret (Ok 0, b, sink) else
      let tail_ofs := txb_tail b mod TxBuf_SIZE in
      let len_to_write := Z.min (TxBuf_SIZE - tail_ofs) (TxBuf_len b) in
      let! data := unwrap (txb_data b) in
      let! chunk := slice data tail_ofs (tail_ofs + len_to_write) in
      match stream_write sink chunk with
      | (Err e, sink) => Ret (Err (TxBufFlush e), b, sink)
      | (Ok written, sink) =>
          let b := mkTxBuf (txb_data b) (txb_head b) (wadd (txb_tail b) (as_u32 written)) in
          if written <? len_to_write then Ret (Ok written, b, sink) else
          let! rest := flush_to_fuel fuel b sink in
          let '(r, b, sink) := rest in
          Ret (Ok (written + match r with Ok n => n | Err _ => 0 end), b, sink)
      end
  end.

Definition TxBuf_flush_to (b : TxBuf) (sink : S) : outcome (result Z CsmError * TxBuf * S) :=
  flush_to_fuel 3 b sink.
End Flush.

(** ** The queue a ring represents *)

(** The [l] bytes of the ring [d] from offset [t] on, wrapping at its end. *)
Definition ring (d : bytes) (t l : Z) : bytes := ztake l (zdrop t d ++ ztake t d).

Definition contents (b : TxBuf) : bytes :=
  match txb_data b with
  | None => []
  | Some d => ring d (txb_tail b mod TxBuf_SIZE) (TxBuf_len b)
  end.

Definition txbuf_wf (b : TxBuf) : Prop :=
  in_u32 (txb_head b) /\ in_u32 (txb_tail b) /\ TxBuf_len b <= TxBuf_SIZE /\
  match txb_data b with
  | None => txb_head b = txb_tail b
  | Some d => zlen d = TxBuf_SIZE
  end.

(** ** Rings *)

(** Normalise takes and drops at known split points. *)
Ltac zl := rewrite ?zlen_app in *; lia.
Ltac zlist :=
  repeat first
    [ rewrite <- app_assoc
    | rewrite zdrop_0
    | rewrite ztake_app by zl
    | rewrite zdrop_app by zl ].

Lemma ring_len d t l : 0 <= t <= zlen d -> 0 <= l <= zlen d -> zlen (ring d t l) = l.
Proof.
  intros. unfold ring. apply zlen_ztake. rewrite zlen_app, zlen_zdrop, zlen_ztake by lia. lia.
Qed.

Lemma ring_mid a c b t l : t = zlen a -> l = zlen c -> ring (a ++ c ++ b) t l = c.
Proof. intros. unfold ring. by zlist. Qed.

Lemma ring_wrap a m c t l :
  t = zlen a + zlen m -> l = zlen c + zlen a -> ring (a ++ m ++ c) t l = c ++ a.
Proof.
  intros. unfold ring. rewrite (app_assoc a m), (zdrop_app t), (ztake_app t) by zl.
  rewrite (app_assoc c a). by rewrite ztake_app by zl.
Qed.

(** The ring after [push] has written [src] at the head, in two pieces when it
    does not fit before the end. *)
Definition ring_write (d src : bytes) (h n : Z) : bytes :=
  let d1 := ztake h d ++ ztake n src ++ zdrop (h + n) d in
  if n <? zlen src then ztake 0 d1 ++ zdrop n src ++ zdrop (zlen src - n) d1 else d1.

Lemma ring_write_inner a x y src h n :
  h = zlen a -> n = zlen src -> zlen x = n ->
  ring_write (a ++ x ++ y) src h n = a ++ src ++ y.
Proof.
  intros -> -> Hx. unfold ring_write. rewrite Z.ltb_irrefl, (ztake_all _ src) by lia.
  rewrite (ztake_app (zlen a)) by done. rewrite (app_assoc a x), zdrop_app by zl. done.
Qed.

Lemma ring_write_split a1 m x s1 s2 h n :
  h = zlen a1 + zlen m -> n = zlen s1 -> zlen x = n -> zlen a1 = zlen s2 -> 0 < zlen s2 ->
  ring_write (a1 ++ m ++ x) (s1 ++ s2) h n = s2 ++ m ++ s1.
Proof.
  intros -> -> Hx Ha Hs. unfold ring_write. rewrite (proj2 (Z.ltb_lt _ _)) by zl.
  rewrite (ztake_app (zlen s1)), (zdrop_app (zlen s1)) by done.
  rewrite (zdrop_all (_ + _ + _)) by (rewrite !zlen_app; lia). rewrite app_nil_r.
  rewrite (app_assoc a1 m x), (ztake_app (zlen a1 + zlen m)) by zl.
  rewrite <- (app_assoc a1 m s1). by rewrite (zdrop_app _ a1) by zl.
Qed.

Lemma ring_push d src t l h n :
  0 <= t < zlen d -> 0 <= l -> l + zlen src <= zlen d ->
  h = (if t + l <? zlen d then t + l else t + l - zlen d) ->
  n = Z.min (zlen d - h) (zlen src) ->
  zlen (ring_write d src h n) = zlen d /\
  ring (ring_write d src h n) t (l + zlen src) = ring d t l ++ src.
Proof.
  intros Ht Hl Hs Hh Hn. pose proof (zlen_nonneg src).
  destruct (Z.ltb_spec (t + l) (zlen d)).
  - destruct (zsplit t d) as (a & r & -> & Ha); [lia|].
    destruct (zsplit l r) as (c & r' & -> & Hc); [zl|]. rewrite !zlen_app in *.
    rewrite ring_mid by lia. destruct (Z.le_gt_cases (zlen src) (zlen r')).
    + destruct (zsplit (zlen src) r') as (x & y & -> & Hx); [lia|]. rewrite !zlen_app in *.
      rewrite (app_assoc a c), ring_write_inner by zl. rewrite !zlen_app. split; [lia|].
      rewrite <- app_assoc, (app_assoc c src). apply ring_mid; zl.
    + destruct (zsplit (zlen r') src) as (s1 & s2 & -> & Hs1); [lia|]. rewrite !zlen_app in *.
      destruct (zsplit (zlen s2) a) as (a1 & a2 & -> & Ha1); [zl|]. rewrite !zlen_app in *.
      rewrite <- (app_assoc a1 a2), (app_assoc a2 c).
      rewrite ring_write_split by zl. rewrite !zlen_app. split; [lia|].
      rewrite <- (app_assoc a2 c), (app_assoc c s1 s2). apply ring_wrap; zl.
  - destruct (zsplit h d) as (a & r & -> & Ha); [lia|]. rewrite zlen_app in *.
    destruct (zsplit (t - h) r) as (m & c & -> & Hm); [lia|]. rewrite zlen_app in *.
    rewrite ring_wrap by lia.
    destruct (zsplit (zlen src) m) as (x & y & -> & Hx); [lia|]. rewrite zlen_app in *.
    rewrite <- (app_assoc x y), ring_write_inner by lia. rewrite !zlen_app. split; [lia|].
    rewrite (app_assoc a src), <- (app_assoc c a). apply ring_wrap; zl.
Qed.

(** Moving the tail past [w] bytes removes them. *)
Lemma ring_advance d t l w :
  0 <= t < zlen d -> 0 <= w <= l -> l <= zlen d -> t + w <= zlen d ->
  ring d (if t + w <? zlen d then t + w else 0) (l - w) = zdrop w (ring d t l).
Proof.
  intros Ht Hw Hl Htw. unfold ring.
  destruct (zsplit t d) as (a & r & -> & Ha); [lia|].
  destruct (zsplit w r) as (x & y & -> & Hx); [zl|]. rewrite !zlen_app in *.
  rewrite (zdrop_app t a), (ztake_app t a) by lia. rewrite <- (app_assoc x y a).
  rewrite (ztake_app_r l x), (zdrop_app w x) by lia.
  destruct (Z.ltb_spec (t + w) (zlen a + (zlen x + zlen y))).
  - rewrite (app_assoc a x y), (zdrop_app (t + w)), (ztake_app (t + w)) by zl.
    rewrite (app_assoc y a x), ztake_app_l by zl. by rewrite Hx.
  - rewrite (zlen_nil_inv y) by lia. rewrite zdrop_0. unfold ztake at 2. simpl.
    rewrite !app_nil_r, ztake_app_l by zl. by rewrite Hx.
Qed.

(** ** Offsets *)

Ltac wrap :=
  unfold TxBuf_len, wadd, wsub, as_u32, TxBuf_SIZE, CONN_TX_BUF_SIZE in *; widths;
  change (64 * 1024) with 65536 in *; Z.div_mod_to_equations; lia.

Lemma len_bounds b : 0 <= TxBuf_len b < 2 ^ 32.
Proof. apply Z.mod_pos_bound. done. Qed.

Lemma head_ofs b :
  in_u32 (txb_head b) -> in_u32 (txb_tail b) -> TxBuf_len b <= TxBuf_SIZE ->
  txb_head b mod TxBuf_SIZE =
    (if txb_tail b mod TxBuf_SIZE + TxBuf_len b <? TxBuf_SIZE
     then txb_tail b mod TxBuf_SIZE + TxBuf_len b
     else txb_tail b mod TxBuf_SIZE + TxBuf_len b - TxBuf_SIZE).
Proof. intros. destruct (Z.ltb_spec (txb_tail b mod TxBuf_SIZE + TxBuf_len b) TxBuf_SIZE); wrap. Qed.

Lemma tail_ofs_advance x w :
  0 <= w -> x mod TxBuf_SIZE + w <= TxBuf_SIZE ->
  wadd x (as_u32 w) mod TxBuf_SIZE =
    (if x mod TxBuf_SIZE + w <? TxBuf_SIZE then x mod TxBuf_SIZE + w else 0).
Proof. intros. destruct (Z.ltb_spec (x mod TxBuf_SIZE + w) TxBuf_SIZE); wrap. Qed.

Lemma len_push h t n : 0 <= n -> wsub h t + n < 2 ^ 32 -> wsub (wadd h (as_u32 n)) t = wsub h t + n.
Proof. intros. wrap. Qed.

Lemma len_flush h t n : 0 <= n <= wsub h t -> wsub h (wadd t (as_u32 n)) = wsub h t - n.
Proof. intros. wrap. Qed.

Lemma wadd_u32 x y : in_u32 (wadd x y).
Proof. wrap. Qed.

(** ** Operations on the queue *)

Lemma txbuf_wf_default : txbuf_wf TxBuf_default.
Proof. unfold txbuf_wf. split_and!; by vm_compute. Qed.

Lemma tail_ofs_bounds x : 0 <= x mod TxBuf_SIZE < TxBuf_SIZE.
Proof. apply Z.mod_pos_bound. done. Qed.

Lemma contents_len b : txbuf_wf b -> zlen (contents b) = TxBuf_len b.
Proof.
  intros (_ & _ & Hl & Hd). unfold contents. destruct (txb_data b) as [d|].
  - pose proof (tail_ofs_bounds (txb_tail b)). pose proof (len_bounds b).
    apply ring_len; lia.
  - unfold TxBuf_len, wsub. rewrite Hd, Z.sub_diag. done.
Qed.

Lemma is_empty_contents b : txbuf_wf b -> TxBuf_is_empty b = bool_decide (contents b = []).
Proof.
  intros Hwf. pose proof (contents_len b Hwf) as Hl. unfold TxBuf_is_empty.
  case_bool_decide as E.
  - rewrite E in Hl. rewrite <- Hl. done.
  - apply Z.eqb_neq. intros H0. apply E, zlen_nil_inv. lia.
Qed.

Lemma wf_data b :
  txbuf_wf b ->
  let d := match txb_data b with Some d => d | None => replicate (Z.to_nat TxBuf_SIZE) 0 end in
  zlen d = TxBuf_SIZE /\ contents b = ring d (txb_tail b mod TxBuf_SIZE) (TxBuf_len b).
Proof.
  intros Hwf. pose proof (contents_len b Hwf) as Hl. destruct Hwf as (_ & _ & _ & Hd).
  unfold contents in *. destruct (txb_data b) as [d|]; [done|]. cbv zeta. split.
  - unfold zlen. rewrite length_replicate. by apply Z2Nat.id.
  - rewrite <- Hl. generalize (replicate (Z.to_nat TxBuf_SIZE) 0). done.
Qed.

Lemma push_ring b src :
  txbuf_wf b -> TxBuf_len b + zlen src <= TxBuf_SIZE ->
  exists d, TxBuf_push b src =
    Ret (Ok tt, mkTxBuf (Some d) (wadd (txb_head b) (as_u32 (zlen src))) (txb_tail b)) /\
    zlen d = TxBuf_SIZE /\
    ring d (txb_tail b mod TxBuf_SIZE) (TxBuf_len b + zlen src) = contents b ++ src.
Proof.
  intros Hwf Hs. unfold TxBuf_push. rewrite Z.gtb_ltb, (proj2 (Z.ltb_ge _ _)) by lia.
  destruct (wf_data b Hwf) as [Hd ->]. destruct Hwf as (Hh & Ht & Hl & _).
  set (d := match txb_data b with Some d => d | None => _ end) in *. clearbody d.
  pose proof (tail_ofs_bounds (txb_tail b)). pose proof (tail_ofs_bounds (txb_head b)).
  pose proof (len_bounds b). pose proof (zlen_nonneg src).
  pose proof (head_ofs b Hh Ht Hl) as Eh. rewrite <- Hd in *.
  destruct (ring_push d src (txb_tail b mod zlen d) (TxBuf_len b) (txb_head b mod zlen d)
    (Z.min (zlen d - txb_head b mod zlen d) (zlen src))) as [L R]; [lia..|].
  set (h := txb_head b mod zlen d) in *. clearbody h.
  set (n := Z.min (zlen d - h) (zlen src)) in *.
  rewrite slice_ret by lia. cbn [obind]. rewrite zdrop_0, Z.sub_0_r.
  rewrite copy_from_slice_ret by (rewrite ?zlen_ztake; lia). cbn [obind].
  exists (ring_write d src h n). split; [|done].
  unfold ring_write. destruct (Z.ltb_spec n (zlen src)); [|done].
  rewrite slice_ret by lia. cbn [obind].
  rewrite (ztake_all (zlen src - n)) by (rewrite zlen_zdrop; lia).
  rewrite copy_from_slice_ret; [done|lia| |rewrite zlen_zdrop; lia].
  rewrite !zlen_app, !zlen_ztake, zlen_zdrop by lia. lia.
Qed.

Lemma push_ok b src :
  txbuf_wf b ->
  exists r b', TxBuf_push b src = Ret (r, b') /\ txbuf_wf b' /\
    if bool_decide (zlen (contents b) + zlen src <= TxBuf_SIZE)
    then r = Ok tt /\ contents b' = contents b ++ src
    else r = Err TxBufFull /\ b' = b.
Proof.
  intros Hwf. pose proof (contents_len b Hwf) as Hl. case_bool_decide as Hs; rewrite Hl in Hs.
  - destruct (push_ring b src Hwf Hs) as (d & -> & Hd & R). destruct Hwf as (Hh & Ht & _ & _).
    pose proof (zlen_nonneg src).
    assert (E : TxBuf_len (mkTxBuf (Some d) (wadd (txb_head b) (as_u32 (zlen src))) (txb_tail b)) =
      TxBuf_len b + zlen src) 
      by (apply len_push; [done|]; apply (Z.le_lt_trans _ _ _ Hs); done).
    do 2 eexists. split; [done|]. split.
    + split_and!; [apply wadd_u32|done|lia|done].
    + split; [done|]. unfold contents at 1. by rewrite E.
  - do 2 eexists. unfold TxBuf_push. rewrite Z.gtb_ltb, (proj2 (Z.ltb_lt _ _)) by lia. done.
Qed.

Section Flush.
Context {S : Type} `{StreamLaws S}.
Implicit Types s : S.

(** One write of [flush_to]: the slice it takes is a prefix of the queue. *)
Lemma flush_chunk b d t n :
  txbuf_wf b -> txb_data b = Some d ->
  t = txb_tail b mod TxBuf_SIZE -> n = Z.min (TxBuf_SIZE - t) (TxBuf_len b) ->
  slice d t (t + n) = Ret (ztake n (contents b)) /\ zlen (ztake n (contents b)) = n /\
  forall w b', 0 <= w <= n ->
    b' = mkTxBuf (Some d) (txb_head b) (wadd (txb_tail b) (as_u32 w)) ->
    txbuf_wf b' /\ contents b' = zdrop w (contents b).
Proof.
  intros Hwf Ed Et En. pose proof (contents_len b Hwf) as Hlen.
  destruct Hwf as (Hh & Ht & Hl & Hd). rewrite Ed in Hd.
  pose proof (tail_ofs_bounds (txb_tail b)) as Hto. pose proof (len_bounds b) as Hlb.
  unfold contents in *. rewrite Ed in *. rewrite <- Et in *. split_and!.
  - rewrite slice_ret by lia. f_equal. replace (t + n - t) with n by lia. unfold ring.
    rewrite <- (ztake_app_l n (zdrop t d) (ztake t d)) by (rewrite zlen_zdrop; lia).
    generalize (zdrop t d ++ ztake t d). intros x. unfold ztake. rewrite take_take. f_equal. lia.
  - rewrite zlen_ztake; lia.
  - intros w b' Hw Eb.
    assert (El : TxBuf_len b' = TxBuf_len b - w)
      by (rewrite Eb; apply len_flush; unfold TxBuf_len in *; simpl; lia).
    rewrite Eb in *. split.
    + split_and!; simpl; [done|apply wadd_u32|lia|done].
    + simpl. rewrite El, tail_ofs_advance by lia.
      rewrite <- Et, <- Hd. apply ring_advance; lia.
Qed.

(** What a flush may do with the queue [q]: it moves the prefix [out] into the
    stream, and all of it unless a write fell short. *)
Definition flushed (q out q' : bytes) s s' (r : result Z CsmError) : Prop :=
  q = out ++ q' /\ received s' = received s ++ out /\ supplied s' = supplied s /\
  match r with
  | Ok n => n = zlen out
  | Err e => out = [] /\ exists k, e = TxBufFlush k
  end /\
  ((forall s buf, fst (stream_write s buf) = Ok (zlen buf)) -> q' = []).

(** A call that ends well for the buffer [b]. *)
Definition flush_good fuel b s : Prop :=
  exists r b' s' out, flush_to_fuel fuel b s = Ret (r, b', s') /\ txbuf_wf b' /\
    flushed (contents b) out (contents b') s s' r.

Lemma flush_good_empty fuel b s :
  txbuf_wf b -> contents b = [] -> flush_good (Datatypes.S fuel) b s.
Proof.
  intros Hwf E. exists (Ok 0), b, s, []. simpl.
  rewrite is_empty_contents, bool_decide_eq_true_2 by done. split_and!; auto.
  rewrite E. split_and!; rewrite ?app_nil_r; done.
Qed.

(** The length of the first write. *)
Definition first_write (b : TxBuf) : Z :=
  Z.min (TxBuf_SIZE - txb_tail b mod TxBuf_SIZE) (TxBuf_len b).

Lemma flushed_more q x out q' s s1 s' r :
  received s1 = received s ++ x -> supplied s1 = supplied s ->
  flushed q out q' s1 s' r ->
  flushed (x ++ q) (x ++ out) q' s s' (Ok (zlen x + match r with Ok n => n | Err _ => 0 end)).
Proof.
  intros Er Es (-> & Hr & Hs & Hn & Hf). split_and!; [|rewrite Hr, Er|congruence| |done];
    rewrite ?app_assoc; [done..|].
  rewrite zlen_app. destruct r as [n|e]; [lia|]. destruct Hn as [-> _]. done.
Qed.

Lemma flush_good_step fuel b s :
  txbuf_wf b -> contents b <> [] ->
  (forall b1 s1, txbuf_wf b1 -> contents b1 = zdrop (first_write b) (contents b) ->
     txb_tail b1 = wadd (txb_tail b) (as_u32 (first_write b)) -> flush_good fuel b1 s1) ->
  flush_good (Datatypes.S fuel) b s.
Proof.
  intros Hwf Hne IH. unfold flush_good. simpl.
  rewrite is_empty_contents, bool_decide_eq_false_2 by done.
  destruct (txb_data b) as [d|] eqn:Ed; [|unfold contents in Hne; by rewrite Ed in Hne].
  cbn [unwrap obind]. fold (first_write b).
  destruct (flush_chunk b d _ (first_write b) Hwf Ed eq_refl eq_refl) as (-> & Hn & Hadv).
  cbn [obind]. set (n := first_write b) in *. clearbody n.
  destruct (stream_write s (ztake n (contents b))) as [[w|e] s1] eqn:Ew.
  - destruct (write_ok _ _ _ _ Ew) as (Hw & Hr & Hs). rewrite Hn in Hw.
    assert (Ew' : ztake w (ztake n (contents b)) = ztake w (contents b)).
    { unfold ztake. rewrite take_take. f_equal. lia. }
    rewrite Ew' in Hr. destruct (Hadv w _ Hw eq_refl) as [Hwf1 Hc1].
    assert (Hlw : zlen (ztake w (contents b)) = w).
    { rewrite <- Ew'. apply zlen_ztake. lia. }
    destruct (Z.ltb_spec w n).
    + do 3 eexists. exists (ztake w (contents b)). split_and!; [done..|]. rewrite Hc1.
      split_and!; [by rewrite ztake_zdrop|done..|].
      intros Hfull. specialize (Hfull s (ztake n (contents b))). rewrite Ew, Hn in Hfull.
      simpl in Hfull. injection Hfull. lia.
    + assert (w = n) as -> by lia.
      destruct (IH _ s1 Hwf1 Hc1 eq_refl) as (r & b' & s' & out & -> & Hwf' & Hfl).
      cbn [obind]. do 3 eexists. exists (ztake n (contents b) ++ out). split_and!; [done..|].
      pose proof (flushed_more _ _ _ _ _ _ _ _ Hr Hs Hfl) as Hm.
      by rewrite Hc1, ztake_zdrop, Hlw in Hm.
  - destruct (write_err _ _ _ _ Ew) as (Hr & Hs). do 3 eexists. exists []. split_and!; [done..|].
    split_and!; rewrite ?app_nil_r; eauto.
    intros Hfull. specialize (Hfull s (ztake n (contents b))). by rewrite Ew in Hfull.
Qed.

(** Two writes empty the buffer, so a third call returns at once. *)
Lemma flush_to_ok b s : txbuf_wf b -> flush_good 3 b s.
Proof.
  intros Hwf. destruct (decide (contents b = [])) as [E|Hne]; [by apply flush_good_empty|].
  pose proof (contents_len b Hwf) as Hl.
  apply flush_good_step; [done..|]. intros b1 s1 Hwf1 Hc1 Ht1.
  destruct (decide (contents b1 = [])) as [E1|Hne1]; [by apply flush_good_empty|].
  apply flush_good_step; [done..|]. intros b2 s2 Hwf2 Hc2 _.
  apply flush_good_empty; [done|]. rewrite Hc2. apply zdrop_all.
  rewrite (contents_len b1 Hwf1). unfold first_write at 1.
  assert (E : txb_tail b1 mod TxBuf_SIZE = 0).
  { pose proof (tail_ofs_bounds (txb_tail b)) as Hto. pose proof (len_bounds b).
    assert (Hmin : first_write b <> TxBuf_len b).
    { intros E. apply Hne1. rewrite Hc1, E. apply zdrop_all. lia. }
    unfold first_write in *. rewrite Ht1, tail_ofs_advance by lia.
    rewrite (proj2 (Z.ltb_ge _ _)); [done|lia]. }
  rewrite E. destruct Hwf1 as (_ & _ & ? & _). lia.
Qed.
End Flush.

(** The transmit buffer refines a byte queue of 64 KiB.  It starts empty
    and [len] is the length of the queue.  [push] never panics: it appends the
    whole slice when it fits, and otherwise returns [TxBufFull] with nothing
    changed.  [flush_to] never panics and ends after at most two writes: it
    moves a prefix of the queue, in order, into the stream and returns its
    length, an error means that nothing was moved, and a stream that takes all
    it is given leaves the queue empty.  All this holds for any position of the
    wrapping 32-bit offsets. *)
Theorem TxBuf_refines_queue {S} `{StreamLaws S} (b : TxBuf) :
  txbuf_wf b ->
  (txbuf_wf TxBuf_default /\ contents TxBuf_default = []) /\
  TxBuf_len b = zlen (contents b) /\
  (forall src, exists r b', TxBuf_push b src = Ret (r, b') /\ txbuf_wf b' /\
     if bool_decide (zlen (contents b) + zlen src <= TxBuf_SIZE)
     then r = Ok tt /\ contents b' = contents b ++ src
     else r = Err TxBufFull /\ b' = b) /\
  (forall s : S, exists r b' s' out, TxBuf_flush_to b s = Ret (r, b', s') /\ txbuf_wf b' /\
     flushed (contents b) out (contents b') s s' r).
Proof.
  intros Hwf. split_and!; [apply txbuf_wf_default|done|by rewrite contents_len|..].
  - intros src. by apply push_ok.
  - intros s. by apply flush_to_ok.
Qed.

(** A buffer of three bytes whose offsets are about to wrap around [2 ^ 32]. *)
Definition ex_txbuf : TxBuf :=
  mkTxBuf (Some (ztake 1 [12] ++ replicate (Z.to_nat (TxBuf_SIZE - 3)) 0 ++ [10; 11]))
    1 (2 ^ 32 - 2).

Lemma TxBuf_refines_queue_witness :
  contents ex_txbuf = [10; 11; 12] /\
  exists r b' s' out,
    TxBuf_flush_to ex_txbuf (mkScript [] [] [] []) = Ret (r, b', s') /\ txbuf_wf b' /\
    flushed (contents ex_txbuf) out (contents b') (mkScript [] [] [] []) s' r.
Proof.
  split; [by vm_compute|].
  apply (TxBuf_refines_queue ex_txbuf).
  split_and!; by vm_compute.
Defined.
