(* ===== verification/VsockPacket.v ===== *)
(** Vsock packets (dbs_virtio_devices/src/vsock/mod.rs and packet.rs): the
    44-byte little-endian header, the packet's accessors, and the checks that
    build a packet from a descriptor chain of the guest.

    The descriptor type and the guest memory are those of the crates
    virtio-queue and vm-memory: a chain is the list of its descriptors, and the
    memory is a parameter with its two address operations and its bytes. *)

From S2P Require Import Prelude VsockStream.

(** ** [defs] *)

Definition MAX_PKT_BUF_SIZE : Z := 64 * 1024.

Definition VSOCK_OP_REQUEST : Z := 1.
Definition VSOCK_OP_RESPONSE : Z := 2.
Definition VSOCK_OP_RST : Z := 3.
Definition VSOCK_OP_SHUTDOWN : Z := 4.
Definition VSOCK_OP_RW : Z := 5.
Definition VSOCK_OP_CREDIT_UPDATE : Z := 6.
Definition VSOCK_OP_CREDIT_REQUEST : Z := 7.
Definition VSOCK_FLAGS_SHUTDOWN_RCV : Z := 1.
Definition VSOCK_FLAGS_SHUTDOWN_SEND : Z := 2.
Definition VSOCK_TYPE_STREAM : Z := 1.
Definition VSOCK_HOST_CID : Z := 2.

(** ** [VsockError]; the payloads that are only printed are left out *)

Inductive VsockError : Type :=
| BufDescMissing
| BufDescTooSmall
| GuestMemory
| GuestMemoryBounds (addr size : Z)
| HdrDescTooSmall (len : Z)
| InvalidPktLen (len : Z)
| NoData
| PktBufMissing
| UnreadableDescriptor
| UnwritableDescriptor.

(** ** [struct VsockPacketHdr] *)

Record VsockPacketHdr := mkHdr {
  h_src_cid : Z;
  h_dst_cid : Z;
  h_src_port : Z;
  h_dst_port : Z;
  h_len : Z;
  h_type : Z;
  h_op : Z;
  h_flags : Z;
  h_buf_alloc : Z;
  h_fwd_cnt : Z;
}.

Definition VSOCK_PKT_HDR_SIZE : Z := 44.

(** A header of zero bytes. *)
Definition Hdr_zero : VsockPacketHdr := mkHdr 0 0 0 0 0 0 0 0 0 0.

(** *** Its bytes: [repr(C)], little endian *)

Fixpoint le_bytes (n : nat) (x : Z) : bytes :=
  match n with O => [] | S n => x mod 256 :: le_bytes n (x / 256) end.

Fixpoint of_le_bytes (bs : bytes) : Z :=
  match bs with [] => 0 | b :: bs => b + 256 * of_le_bytes bs end.

Definition hdr_bytes (h : VsockPacketHdr) : bytes :=
  le_bytes 8 (h_src_cid h) ++ le_bytes 8 (h_dst_cid h) ++ le_bytes 4 (h_src_port h) ++
  le_bytes 4 (h_dst_port h) ++ le_bytes 4 (h_len h) ++ le_bytes 2 (h_type h) ++
  le_bytes 2 (h_op h) ++ le_bytes 4 (h_flags h) ++ le_bytes 4 (h_buf_alloc h) ++
  le_bytes 4 (h_fwd_cnt h).

Definition field (bs : bytes) (ofs n : Z) : Z := of_le_bytes (ztake n (zdrop ofs bs)).

Definition hdr_of_bytes (bs : bytes) : VsockPacketHdr :=
  mkHdr (field bs 0 8) (field bs 8 8) (field bs 16 4) (field bs 20 4) (field bs 24 4)
    (field bs 28 2) (field bs 30 2) (field bs 32 4) (field bs 36 4) (field bs 40 4).

(** ** [struct VsockPacket]: the header and the data buffer behind the pointers *)

Record VsockPacket := mkPacket {
  hdr : VsockPacketHdr;
  buf : option bytes;
}.

Definition src_cid (p : VsockPacket) : Z := h_src_cid (hdr p).
Definition dst_cid (p : VsockPacket) : Z := h_dst_cid (hdr p).
Definition src_port (p : VsockPacket) : Z := h_src_port (hdr p).
Definition dst_port (p : VsockPacket) : Z := h_dst_port (hdr p).
Definition pkt_len (p : VsockPacket) : Z := h_len (hdr p).
Definition type_ (p : VsockPacket) : Z := h_type (hdr p).
Definition op (p : VsockPacket) : Z := h_op (hdr p).
Definition flags (p : VsockPacket) : Z := h_flags (hdr p).
Definition buf_alloc (p : VsockPacket) : Z := h_buf_alloc (hdr p).
Definition fwd_cnt (p : VsockPacket) : Z := h_fwd_cnt (hdr p).

Definition set_hdr (f : VsockPacketHdr -> VsockPacketHdr) (p : VsockPacket) : VsockPacket :=
  mkPacket (f (hdr p)) (buf p).
Definition set_src_cid (p : VsockPacket) (x : Z) : VsockPacket :=
  set_hdr (fun '(mkHdr _ b c d e f g h i j) => mkHdr x b c d e f g h i j) p.
Definition set_dst_cid (p : VsockPacket) (x : Z) : VsockPacket :=
  set_hdr (fun '(mkHdr a _ c d e f g h i j) => mkHdr a x c d e f g h i j) p.
Definition set_src_port (p : VsockPacket) (x : Z) : VsockPacket :=
  set_hdr (fun '(mkHdr a b _ d e f g h i j) => mkHdr a b x d e f g h i j) p.
Definition set_dst_port (p : VsockPacket) (x : Z) : VsockPacket :=
  set_hdr (fun '(mkHdr a b c _ e f g h i j) => mkHdr a b c x e f g h i j) p.
Definition set_len (p : VsockPacket) (x : Z) : VsockPacket :=
  set_hdr (fun '(mkHdr a b c d _ f g h i j) => mkHdr a b c d x f g h i j) p.
Definition set_type (p : VsockPacket) (x : Z) : VsockPacket :=
  set_hdr (fun '(mkHdr a b c d e _ g h i j) => mkHdr a b c d e x g h i j) p.
Definition set_op (p : VsockPacket) (x : Z) : VsockPacket :=
  set_hdr (fun '(mkHdr a b c d e f _ h i j) => mkHdr a b c d e f x h i j) p.
Definition set_flags (p : VsockPacket) (x : Z) : VsockPacket :=
  set_hdr (fun '(mkHdr a b c d e f g _ i j) => mkHdr a b c d e f g x i j) p.
Definition set_flag (p : VsockPacket) (x : Z) : VsockPacket := set_flags p (Z.lor (flags p) x).
Definition set_buf_alloc (p : VsockPacket) (x : Z) : VsockPacket :=
  set_hdr (fun '(mkHdr a b c d e f g h _ j) => mkHdr a b c d e f g h x j) p.
Definition set_fwd_cnt (p : VsockPacket) (x : Z) : VsockPacket :=
  set_hdr (fun '(mkHdr a b c d e f g h i _) => mkHdr a b c d e f g h i x) p.

(** ** Packets from descriptor chains *)

Record Descriptor := mkDescriptor {
  d_addr : Z;
  d_len : Z;
  d_write_only : bool;
}.

(** [GuestMemory::checked_offset] and [get_host_address] of the crate
    vm-memory, and the byte at a host address. *)
Class GuestMem (M : Type) := {
  checked_offset : M -> Z -> Z -> option Z;
  get_host_address : M -> Z -> option Z;
  host_byte : M -> Z -> Z;
}.

(** [HdrWrapper] and [BufWrapper]: pointers into guest memory. *)
Record RawPacket := mkRaw {
  raw_hdr : Z;
  raw_buf : option (Z * Z);
}.

Section FromVirtq.
Context {M : Type} `{GuestMem M}.

Definition host_bytes (mem : M) (ptr len : Z) : bytes :=
  host_byte mem <$> seqZ ptr len.

(** [HdrWrapper::deref]. *)
Definition hdr_deref (mem : M) (ptr : Z) : VsockPacketHdr :=
  hdr_of_bytes (host_bytes mem ptr VSOCK_PKT_HDR_SIZE).

Definition HdrWrapper_from_virtq_desc (desc : Descriptor) (mem : M) : result Z VsockError :=
  if d_len desc <? VSOCK_PKT_HDR_SIZE then Err (HdrDescTooSmall (d_len desc)) else
  match checked_offset mem (d_addr desc) VSOCK_PKT_HDR_SIZE with
  | None => Err (GuestMemoryBounds (d_addr desc) VSOCK_PKT_HDR_SIZE)
  | Some _ => ok_or (get_host_address mem (d_addr desc)) GuestMemory
  end.

Definition BufWrapper_from_virtq_desc (desc : Descriptor) (mem : M) : result (Z * Z) VsockError :=
  match checked_offset mem (d_addr desc) (d_len desc) with
  | None => Err (GuestMemoryBounds (d_addr desc) (d_len desc))
  | Some _ =>
      match get_host_address mem (d_addr desc) with
      | None => Err GuestMemory
      | Some ptr => Ok (ptr, d_len desc)
      end
  end.

Definition from_tx_virtq_head (mem : M) (desc_chain : list Descriptor) :
  result RawPacket VsockError :=
  match desc_chain with
  | [] => Err BufDescMissing
  | desc :: rest =>
      if d_write_only desc then Err UnreadableDescriptor else
      match HdrWrapper_from_virtq_desc desc mem with
      | Err e => Err e
      | Ok h =>
          let len := h_len (hdr_deref mem h) in
          if len >? MAX_PKT_BUF_SIZE then Err (InvalidPktLen len) else
          if len =? 0 then Ok (mkRaw h None) else
          match rest with
          | [] => Err BufDescMissing
          | buf_desc :: _ =>
              if d_write_only buf_desc then Err UnreadableDescriptor else
              if d_len buf_desc <? len then Err BufDescTooSmall else
              match BufWrapper_from_virtq_desc buf_desc mem with
              | Err e => Err e
              | Ok b => Ok (mkRaw h (Some b))
              end
          end
      end
  end.

Definition from_rx_virtq_head (mem : M) (desc_chain : list Descriptor) :
  result RawPacket VsockError :=
  match desc_chain with
  | [] => Err BufDescMissing
  | desc :: rest =>
      if negb (d_write_only desc) then Err UnwritableDescriptor else
      match HdrWrapper_from_virtq_desc desc mem with
      | Err e => Err e
      | Ok h =>
          match rest with
          | [] => Err BufDescMissing
          | buf_desc :: _ =>
              if negb (d_write_only buf_desc) then Err UnwritableDescriptor else
              match BufWrapper_from_virtq_desc buf_desc mem with
              | Err e => Err e
              | Ok b => Ok (mkRaw h (Some b))
              end
          end
      end
  end.

(** The packet a pair of wrappers shows. *)
Definition view (mem : M) (r : RawPacket) : VsockPacket :=
  mkPacket (hdr_deref mem (raw_hdr r))
    ((fun '(ptr, len) => host_bytes mem ptr len) <$> raw_buf r).
End FromVirtq.

(** ** The header's bytes *)

Lemma of_le_bytes_range bs :
  Forall in_u8 bs -> 0 <= of_le_bytes bs < 256 ^ Z.of_nat (length bs).
Proof.
  induction 1 as [|b bs Hb _ IH]; [done|]. cbn [of_le_bytes length].
  rewrite Nat2Z.inj_succ, Z.pow_succ_r by lia. widths. lia.
Qed.

Lemma of_le_le_bytes n x : 0 <= x < 256 ^ Z.of_nat n -> of_le_bytes (le_bytes n x) = x.
Proof.
  revert x. induction n as [|n IH]; intros x Hx; [simpl in *; lia|].
  rewrite Nat2Z.inj_succ, Z.pow_succ_r in Hx by lia. cbn [le_bytes of_le_bytes].
  rewrite IH; [pose proof (Z.div_mod x 256); lia|].
  split; [apply Z.div_pos; lia|]. apply Z.div_lt_upper_bound; lia.
Qed.

Lemma le_bytes_len n x : zlen (le_bytes n x) = Z.of_nat n.
Proof. unfold zlen. f_equal. revert x. induction n; intros; simpl; auto. Qed.

Definition hdr_typed (h : VsockPacketHdr) : Prop :=
  in_u64 (h_src_cid h) /\ in_u64 (h_dst_cid h) /\ in_u32 (h_src_port h) /\
  in_u32 (h_dst_port h) /\ in_u32 (h_len h) /\ in_u16 (h_type h) /\ in_u16 (h_op h) /\
  in_u32 (h_flags h) /\ in_u32 (h_buf_alloc h) /\ in_u32 (h_fwd_cnt h).

(** Reading the field after the fields [pre]. *)
Lemma field_at pre n x post ofs k :
  ofs = zlen pre -> k = Z.of_nat n -> 0 <= x < 256 ^ k ->
  field (pre ++ le_bytes n x ++ post) ofs k = x.
Proof.
  intros -> -> Hx. unfold field. rewrite zdrop_app, ztake_app by (rewrite ?le_bytes_len; done).
  by apply of_le_le_bytes.
Qed.

Lemma field_last pre n x ofs k :
  ofs = zlen pre -> k = Z.of_nat n -> 0 <= x < 256 ^ k ->
  field (pre ++ le_bytes n x) ofs k = x.
Proof. intros. rewrite <- (app_nil_r (le_bytes n x)). by apply field_at. Qed.

Lemma hdr_roundtrip h : hdr_typed h -> hdr_of_bytes (hdr_bytes h) = h.
Proof.
  intros (?&?&?&?&?&?&?&?&?&?). unfold hdr_of_bytes, hdr_bytes. destruct h.
  cbn [h_src_cid h_dst_cid h_src_port h_dst_port h_len h_type h_op h_flags h_buf_alloc h_fwd_cnt] in *.
  f_equal;
    repeat first
      [ apply field_at; [rewrite ?zlen_app, ?le_bytes_len; reflexivity|reflexivity|widths; lia]
      | apply (field_at []); [reflexivity|reflexivity|widths; lia]
      | apply field_last; [rewrite ?zlen_app, ?le_bytes_len; reflexivity|reflexivity|widths; lia]
      | rewrite app_assoc ].
Qed.

Lemma field_range bs ofs k :
  Forall in_u8 bs -> 0 <= k -> 0 <= field bs ofs k < 256 ^ k.
Proof.
  intros Hb Hk. unfold field, ztake, zdrop.
  pose proof (of_le_bytes_range (take (Z.to_nat k) (drop (Z.to_nat ofs) bs))) as R.
  destruct R as [? R]; [by apply Forall_take, Forall_drop|]. split; [done|].
  eapply Z.lt_le_trans; [exact R|]. apply Z.pow_le_mono_r; [lia|].
  rewrite length_take. lia.
Qed.

Lemma hdr_of_bytes_typed bs : Forall in_u8 bs -> hdr_typed (hdr_of_bytes bs).
Proof.
  intros Hb. unfold hdr_typed. simpl.
  split_and!; widths; 
    match goal with |- context [field bs ?o ?k] =>
      pose proof (field_range bs o k Hb ltac:(lia)) as [? Hlt]; 
      first [ change (256 ^ k) with 18446744073709551616 in Hlt
            | change (256 ^ k) with 4294967296 in Hlt
            | change (256 ^ k) with 65536 in Hlt ]; lia
    end.
Qed.

(** ** Accepted packets *)

(** A packet whose header does not claim more data than its buffer holds. *)
Definition pkt_valid (p : VsockPacket) : Prop :=
  hdr_typed (hdr p) /\
  match buf p with None => pkt_len p = 0 | Some b => pkt_len p <= zlen b end.

Section Accepted.
Context {M : Type} `{GuestMem M}.
Implicit Types mem : M.

Definition header_at mem d ptr : Prop :=
  VSOCK_PKT_HDR_SIZE <= d_len d /\ is_Some (checked_offset mem (d_addr d) VSOCK_PKT_HDR_SIZE) /\
  get_host_address mem (d_addr d) = Some ptr.

Definition buffer_at mem d (b : Z * Z) : Prop :=
  b.2 = d_len d /\ is_Some (checked_offset mem (d_addr d) (d_len d)) /\
  get_host_address mem (d_addr d) = Some b.1.

Lemma hdr_from_ok mem d ptr : HdrWrapper_from_virtq_desc d mem = Ok ptr <-> header_at mem d ptr.
Proof.
  unfold HdrWrapper_from_virtq_desc, header_at. destruct (Z.ltb_spec (d_len d) VSOCK_PKT_HDR_SIZE);
    [naive_solver lia|].
  destruct (checked_offset mem (d_addr d) VSOCK_PKT_HDR_SIZE);
    [|split; [done|intros (_ & [? ?] & _); done]].
  destruct (get_host_address mem (d_addr d)); simpl; naive_solver.
Qed.

Lemma buf_from_ok mem d b : BufWrapper_from_virtq_desc d mem = Ok b <-> buffer_at mem d b.
Proof.
  unfold BufWrapper_from_virtq_desc, buffer_at. destruct b as [ptr n]. simpl.
  destruct (checked_offset mem (d_addr d) (d_len d));
    [|split; [done|intros (_ & [? ?] & _); done]].
  destruct (get_host_address mem (d_addr d)); naive_solver.
Qed.

Lemma host_bytes_len mem ptr n : 0 <= n -> zlen (host_bytes mem ptr n) = n.
Proof. intros. unfold zlen, host_bytes. rewrite length_fmap, length_seqZ. lia. Qed.

Lemma hdr_deref_typed mem ptr :
  (forall a, in_u8 (host_byte mem a)) -> hdr_typed (hdr_deref mem ptr).
Proof. intros Hb. apply hdr_of_bytes_typed. apply Forall_fmap, Forall_true. done. Qed.

(** The chains [from_tx_virtq_head] accepts, and the packet it makes of them. *)
Definition tx_chain mem chain r : Prop :=
  exists d rest, chain = d :: rest /\ d_write_only d = false /\ header_at mem d (raw_hdr r) /\
    pkt_len (view mem r) <= MAX_PKT_BUF_SIZE /\
    match raw_buf r with
    | None => pkt_len (view mem r) = 0
    | Some b => pkt_len (view mem r) <> 0 /\
        exists bd tl, rest = bd :: tl /\ d_write_only bd = false /\
          pkt_len (view mem r) <= d_len bd /\ buffer_at mem bd b
    end.

Lemma from_tx_complete mem chain r : tx_chain mem chain r -> from_tx_virtq_head mem chain = Ok r.
Proof.
  intros (d & rest & -> & Hw & Hh & Hn & Hbuf). simpl. rewrite Hw.
  rewrite (proj2 (hdr_from_ok mem d _) Hh). unfold pkt_len in *. simpl in *.
  rewrite Z.gtb_ltb, (proj2 (Z.ltb_ge _ _) Hn). destruct r as [h [b|]]; simpl in *.
  - destruct Hbuf as (Hne & bd & tl & -> & Hw' & Hle & Hb').
    rewrite (proj2 (Z.eqb_neq _ _) Hne), Hw', (proj2 (Z.ltb_ge _ _) Hle).
    by rewrite (proj2 (buf_from_ok mem bd b) Hb').
  - by rewrite Hbuf.
Qed.

Lemma from_tx_sound mem chain r : from_tx_virtq_head mem chain = Ok r -> tx_chain mem chain r.
Proof.
  destruct chain as [|d rest]; [done|]. cbn [from_tx_virtq_head]. destruct (d_write_only d) eqn:Hw; [done|].
  destruct (HdrWrapper_from_virtq_desc d mem) as [h|] eqn:Hh; [|done]. apply hdr_from_ok in Hh.
  rewrite Z.gtb_ltb. destruct (Z.ltb_spec MAX_PKT_BUF_SIZE (h_len (hdr_deref mem h))) as [|Hn]; [done|].
  intros Hr. exists d, rest. do 2 (split; [done|]).
  destruct (Z.eqb_spec (h_len (hdr_deref mem h)) 0) as [H0|H0];
    [injection Hr as <-; split; [done|]; by split|].
  destruct rest as [|bd tl]; [done|]. destruct (d_write_only bd) eqn:Hw'; [done|].
  destruct (Z.ltb_spec (d_len bd) (h_len (hdr_deref mem h))); [done|].
  destruct (BufWrapper_from_virtq_desc bd mem) as [b|] eqn:Hb; [|done]. apply buf_from_ok in Hb.
  injection Hr as <-. split; [done|]. split; [done|]. split; [done|]. by exists bd, tl.
Qed.

Lemma from_tx_valid mem chain r :
  (forall a, in_u8 (host_byte mem a)) -> Forall (fun d => 0 <= d_len d) chain ->
  from_tx_virtq_head mem chain = Ok r -> pkt_valid (view mem r).
Proof.
  intros Hb Hd Hr. apply from_tx_sound in Hr as (d & rest & -> & _ & _ & _ & Hbuf). 
  split; [by apply hdr_deref_typed|]. simpl.
  destruct (raw_buf r) as [[ptr k]|]; [|done]. 
  destruct Hbuf as (_ & bd & tl & -> & _ & Hle & Hk & _). simpl in *. subst k.
  rewrite host_bytes_len; [done|]. by inversion Hd as [|? ? _ Hd']; inversion Hd'.
Qed.

(** Packets from the guest's transmit queue.  [from_tx_virtq_head] accepts
    a chain exactly when its first descriptor is readable and holds a header
    within guest memory, the header's length is at most 64 KiB, and, when it is
    not 0, a second readable descriptor within guest memory is large enough for
    it.  An accepted packet never claims more data than its buffer holds, and
    the header's bytes, as they lie in memory, and its fields determine each
    other. *)
Theorem from_tx_correct mem chain r :
  (forall a, in_u8 (host_byte mem a)) -> Forall (fun d => 0 <= d_len d) chain ->
  (from_tx_virtq_head mem chain = Ok r <-> tx_chain mem chain r) /\
  (from_tx_virtq_head mem chain = Ok r -> pkt_valid (view mem r)) /\
  (forall h, hdr_typed h -> hdr_of_bytes (hdr_bytes h) = h /\ zlen (hdr_bytes h) = VSOCK_PKT_HDR_SIZE).
Proof.
  intros Hb Hd. split_and!; [split; [apply from_tx_sound | apply from_tx_complete]|by apply from_tx_valid|].
  intros h Hh. split; [by apply hdr_roundtrip|]. unfold hdr_bytes. rewrite !zlen_app, !le_bytes_len. done.
Qed.
End Accepted.

(** A guest memory of consecutive bytes from address 0. *)
#[local] Instance flat_mem : GuestMem bytes := {|
  checked_offset m a n := if a + n <=? zlen m then Some (a + n) else None;
  get_host_address m a := if a <? zlen m then Some a else None;
  host_byte m a := default 0 (m !! Z.to_nat a) mod 256;
|}.

(** A data packet with two bytes, followed by its buffer. *)
Definition ex_hdr : VsockPacketHdr := mkHdr 3 2 1024 52 2 1 VSOCK_OP_RW 0 65536 0.
Definition ex_mem : bytes := hdr_bytes ex_hdr ++ [104; 105].
Definition ex_chain : list Descriptor := [mkDescriptor 0 44 false; mkDescriptor 44 2 false].

Lemma from_tx_correct_witness :
  view ex_mem (mkRaw 0 (Some (44, 2))) = mkPacket ex_hdr (Some [104; 105]) /\
  tx_chain ex_mem ex_chain (mkRaw 0 (Some (44, 2))) /\
  pkt_valid (view ex_mem (mkRaw 0 (Some (44, 2)))).
Proof.
  split; [by vm_compute|].
  destruct (from_tx_correct ex_mem ex_chain (mkRaw 0 (Some (44, 2)))) as (Hiff & Hv & _).
  - intros a. simpl. pose proof (Z.mod_pos_bound (default 0 (ex_mem !! Z.to_nat a)) 256). ulia.
  - repeat constructor; simpl; lia.
  - split; [apply Hiff | apply Hv]; by vm_compute.
Defined.
