(* ===== verification/VsockConnection.v ===== *)
(** A vsock connection (dbs_virtio_devices/src/vsock/csm/mod.rs and
    csm/connection.rs): the connection states, the set of pending receive
    indications as its bit mask, and the operations that move packets between
    the guest and the host stream.

    [Instant::now()] is an argument, in nanoseconds.  Log messages are left
    out. *)

From S2P Require Import Prelude VsockStream TxBuf VsockPacket.

(** ** csm/mod.rs *)

Inductive ConnState : Type :=
| LocalInit
| PeerInit
| Established
| LocalClosed
| PeerClosed (recv_off send_off : bool)
| Killed.

#[export] Instance ConnState_eq_dec : EqDecision ConnState.
Proof. solve_decision. Defined.

Inductive PendingRx : Type := Request | Response | Rst | Rw | CreditUpdate.

#[export] Instance PendingRx_eq_dec : EqDecision PendingRx.
Proof. solve_decision. Defined.

(** The discriminants of the enum. *)
Definition PendingRx_disc (it : PendingRx) : Z :=
  match it with Request => 0 | Response => 1 | Rst => 2 | Rw => 3 | CreditUpdate => 4 end.

Definition into_mask (it : PendingRx) : Z := Z.shiftl 1 (PendingRx_disc it).

(** [struct PendingRxSet], by its [data: u16]. *)
Definition PendingRxSet : Type := Z.

Definition prx_insert (s : PendingRxSet) (it : PendingRx) : PendingRxSet := Z.lor s (into_mask it).

Definition prx_contains (s : PendingRxSet) (it : PendingRx) : bool :=
  negb (Z.land s (into_mask it) =? 0).

(** [self.data &= !mask]. *)
Definition prx_remove (s : PendingRxSet) (it : PendingRx) : bool * PendingRxSet :=
  (prx_contains s it, Z.land s (Z.lxor (into_mask it) u16_max)).

Definition prx_is_empty (s : PendingRxSet) : bool := s =? 0.

Definition prx_from (it : PendingRx) : PendingRxSet := into_mask it.

(** ** epoll event sets *)

Record Events := mkEvents {
  EPOLLIN : bool;
  EPOLLOUT : bool;
}.

#[export] Instance Events_eq_dec : EqDecision Events.
Proof. solve_decision. Defined.

Definition ev_is_empty (e : Events) : bool := negb (EPOLLIN e) && negb (EPOLLOUT e).

Definition millis (ms : Z) : Z := ms * 1000000.

Section Connection.
Context {S : Type} `{VsockStream S}.

(** ** [struct VsockConnection] *)

Record VsockConnection := mkConn {
  c_state : ConnState;
  c_local_cid : Z;
  c_peer_cid : Z;
  c_local_port : Z;
  c_peer_port : Z;
  c_stream : S;
  c_tx_buf : TxBuf;
  c_fwd_cnt : Z;
  c_peer_buf_alloc : Z;
  c_peer_fwd_cnt : Z;
  c_rx_cnt : Z;
  c_last_fwd_cnt_to_peer : Z;
  c_pending_rx : PendingRxSet;
  c_expiry : option Z;
}.

(** Field assignments. *)
Definition upd_state (c : VsockConnection) (x : ConnState) : VsockConnection :=
  let '(mkConn _ b c d e f g h i j k l m n) := c in mkConn x b c d e f g h i j k l m n.
Definition upd_stream (c : VsockConnection) (x : S) : VsockConnection :=
  let '(mkConn a b c d e _ g h i j k l m n) := c in mkConn a b c d e x g h i j k l m n.
Definition upd_tx_buf (c : VsockConnection) (x : TxBuf) : VsockConnection :=
  let '(mkConn a b c d e f _ h i j k l m n) := c in mkConn a b c d e f x h i j k l m n.
Definition upd_fwd_cnt (c : VsockConnection) (x : Z) : VsockConnection :=
  let '(mkConn a b c d e f g _ i j k l m n) := c in mkConn a b c d e f g x i j k l m n.
Definition upd_peer_credit (c : VsockConnection) (x y : Z) : VsockConnection :=
  let '(mkConn a b c d e f g h _ _ k l m n) := c in mkConn a b c d e f g h x y k l m n.
Definition upd_rx_cnt (c : VsockConnection) (x : Z) : VsockConnection :=
  let '(mkConn a b c d e f g h i j _ l m n) := c in mkConn a b c d e f g h i j x l m n.
Definition upd_last_fwd (c : VsockConnection) (x : Z) : VsockConnection :=
  let '(mkConn a b c d e f g h i j k _ m n) := c in mkConn a b c d e f g h i j k x m n.
Definition upd_pending (c : VsockConnection) (x : PendingRxSet) : VsockConnection :=
  let '(mkConn a b c d e f g h i j k l _ n) := c in mkConn a b c d e f g h i j k l x n.
Definition upd_expiry (c : VsockConnection) (x : option Z) : VsockConnection :=
  let '(mkConn a b c d e f g h i j k l m _) := c in mkConn a b c d e f g h i j k l m x.

Definition pend (c : VsockConnection) (it : PendingRx) : VsockConnection :=
  upd_pending c (prx_insert (c_pending_rx c) it).

(** ** Constructors *)

Definition new_peer_init (stream : S) (local_cid peer_cid local_port peer_port peer_buf_alloc : Z) :
  VsockConnection :=
  mkConn PeerInit local_cid peer_cid local_port peer_port stream TxBuf_default 0 peer_buf_alloc
    0 0 0 (prx_from Response) None.

Definition new_local_init (stream : S) (local_cid peer_cid local_port peer_port : Z) :
  VsockConnection :=
  mkConn LocalInit local_cid peer_cid local_port peer_port stream TxBuf_default 0 0
    0 0 0 (prx_from Request) None.

(** ** Queries *)

Definition has_pending_rx (c : VsockConnection) : bool := negb (prx_is_empty (c_pending_rx c)).

Definition will_expire (c : VsockConnection) (now : Z) : bool :=
  match c_expiry c with None => false | Some t => t >? now end.

Definition has_expired (c : VsockConnection) (now : Z) : bool :=
  match c_expiry c with None => false | Some t => t <=? now end.

Definition peer_needs_credit_update (c : VsockConnection) : bool :=
  let peer_seen_free_buf :=
    wsub CONN_TX_BUF_SIZE (wsub (c_fwd_cnt c) (c_last_fwd_cnt_to_peer c)) in
  peer_seen_free_buf <? CONN_CREDIT_UPDATE_THRESHOLD.

Definition peer_avail_credit (c : VsockConnection) : Z :=
  wsub (c_peer_buf_alloc c) (wsub (c_rx_cnt c) (c_peer_fwd_cnt c)).

Definition need_credit_update_from_peer (c : VsockConnection) : bool := peer_avail_credit c =? 0.

Definition get_polled_evset (c : VsockConnection) : Events :=
  let evset := mkEvents false (negb (TxBuf_is_empty (c_tx_buf c))) in
  match c_state c with
  | Killed | LocalClosed | PeerClosed true _ => evset
  | _ => if need_credit_update_from_peer c then evset else mkEvents true (EPOLLOUT evset)
  end.

(** ** Termination *)

Definition kill (c : VsockConnection) : VsockConnection := pend (upd_state c Killed) Rst.

(** ** Data from the guest to the stream *)

Definition send_bytes_raw (c : VsockConnection) (buf : bytes) :
  result Z CsmError * VsockConnection :=
  match stream_write (c_stream c) buf with
  | (Ok n, s) => (Ok n, upd_stream c s)
  | (Err e, s) => (Err (StreamWrite e), upd_stream c s)
  end.

Definition send_bytes (c : VsockConnection) (buf : bytes) :
  outcome (result unit CsmError * VsockConnection) :=
  if negb (TxBuf_is_empty (c_tx_buf c)) then
    let! (r, b) := TxBuf_push (c_tx_buf c) buf in
    Ret (r, upd_tx_buf c b)
  else
  let '(r, s) := stream_write (c_stream c) buf in
  let c := upd_stream c s in
  match (match r with
         | Ok cnt => Ok cnt
         | Err e => if is_would_block e then Ok 0 else Err (StreamWrite e)
         end) with
  | Err e => Ret (Err e, c)
  | Ok written =>
      let c := upd_fwd_cnt c (wadd (c_fwd_cnt c) (as_u32 written)) in
      if written <? zlen buf then
        let! rest := slice buf written (zlen buf) in
        let! (r, b) := TxBuf_push (c_tx_buf c) rest in
        Ret (r, upd_tx_buf c b)
      else Ret (Ok tt, c)
  end.

(** ** Packets for the guest *)

Definition init_pkt (c : VsockConnection) (pkt : VsockPacket) : VsockPacket :=
  let pkt := mkPacket Hdr_zero (buf pkt) in
  let pkt := set_src_cid pkt (c_local_cid c) in
  let pkt := set_dst_cid pkt (c_peer_cid c) in
  let pkt := set_src_port pkt (c_local_port c) in
  let pkt := set_dst_port pkt (c_peer_port c) in
  let pkt := set_type pkt VSOCK_TYPE_STREAM in
  let pkt := set_buf_alloc pkt CONN_TX_BUF_SIZE in
  set_fwd_cnt pkt (c_fwd_cnt c).

(** The last part of [recv_pkt]: a credit update, if there is nothing else. *)
Definition recv_credit_update (c : VsockConnection) (pkt : VsockPacket) :
  result unit VsockError * VsockConnection * VsockPacket :=
  let '(had, p) := prx_remove (c_pending_rx c) CreditUpdate in
  let c := upd_pending c p in
  if had && negb (has_pending_rx c) then
    (Ok tt, upd_last_fwd c (c_fwd_cnt c), set_op pkt VSOCK_OP_CREDIT_UPDATE)
  else (Err NoData, c, pkt).

(** The part of [recv_pkt] that reads data from the stream. *)
Definition recv_read (c : VsockConnection) (pkt : VsockPacket) (now : Z) :
  result unit VsockError * VsockConnection * VsockPacket :=
  if need_credit_update_from_peer c then
    (Ok tt, upd_last_fwd c (c_fwd_cnt c), set_op pkt VSOCK_OP_CREDIT_REQUEST)
  else
  match buf pkt with
  | None => (Err PktBufMissing, c, pkt)
  | Some b =>
      let max_len := Z.min (zlen b) (peer_avail_credit c) in
      match stream_read (c_stream c) max_len with
      | (Ok bs, s) =>
          let c := upd_stream c s in
          let pkt := mkPacket (hdr pkt) (Some (bs ++ zdrop (zlen bs) b)) in
          let read_cnt := zlen bs in
          let '(c, pkt) :=
            if read_cnt =? 0 then
              (upd_expiry (upd_state c LocalClosed) (Some (now + millis CONN_SHUTDOWN_TIMEOUT_MS)),
               set_flag (set_flag (set_op pkt VSOCK_OP_SHUTDOWN) VSOCK_FLAGS_SHUTDOWN_RCV)
                 VSOCK_FLAGS_SHUTDOWN_SEND)
            else (c, set_len (set_op pkt VSOCK_OP_RW) (as_u32 read_cnt)) in
          let c := upd_rx_cnt c (wadd (c_rx_cnt c) (pkt_len pkt)) in
          (Ok tt, upd_last_fwd c (c_fwd_cnt c), pkt)
      | (Err WouldBlock, s) => recv_credit_update (upd_stream c s) pkt
      | (Err _, s) =>
          let c := upd_stream c s in
          (Ok tt, upd_last_fwd c (c_fwd_cnt c), set_op pkt VSOCK_OP_RST)
      end
  end.

(** The part of [recv_pkt] after [PendingRx::Rw] has been removed. *)
Definition recv_rw (c : VsockConnection) (pkt : VsockPacket) (now : Z) :
  result unit VsockError * VsockConnection * VsockPacket :=
  match c_state c with
  | Established | PeerClosed false _ => recv_read c pkt now
  | _ => (Ok tt, c, set_op pkt VSOCK_OP_RST)
  end.

Definition recv_pkt (c : VsockConnection) (pkt : VsockPacket) (now : Z) :
  result unit VsockError * VsockConnection * VsockPacket :=
  let pkt := init_pkt c pkt in
  let '(had, p) := prx_remove (c_pending_rx c) Rst in
  let c := upd_pending c p in
  if had then (Ok tt, c, set_op pkt VSOCK_OP_RST) else
  let '(had, p) := prx_remove (c_pending_rx c) Response in
  let c := upd_pending c p in
  if had then (Ok tt, upd_state c Established, set_op pkt VSOCK_OP_RESPONSE) else
  let '(had, p) := prx_remove (c_pending_rx c) Request in
  let c := upd_pending c p in
  if had then
    (Ok tt, upd_expiry c (Some (now + millis CONN_REQUEST_TIMEOUT_MS)),
     set_op pkt VSOCK_OP_REQUEST) else
  let '(had, p) := prx_remove (c_pending_rx c) Rw in
  let c := upd_pending c p in
  if had then recv_rw c pkt now else recv_credit_update c pkt.

(** ** Packets from the guest *)

Definition send_rw (c : VsockConnection) (pkt : VsockPacket) : outcome VsockConnection :=
  match buf pkt with
  | None => Ret c
  | Some b =>
      let! buf_slice := slice b 0 (pkt_len pkt) in
      let! (r, c) := send_bytes c buf_slice in
      match r with
      | Err _ => Ret (kill c)
      | Ok _ => Ret (if peer_needs_credit_update c then pend c CreditUpdate else c)
      end
  end.

(** [pkt.flags() & flag != 0]. *)
Definition has_flag (pkt : VsockPacket) (flag : Z) : bool := negb (Z.land (flags pkt) flag =? 0).

Definition send_pkt (c : VsockConnection) (pkt : VsockPacket) (now : Z) :
  outcome (result unit VsockError * VsockConnection) :=
  let c := upd_peer_credit c (buf_alloc pkt) (fwd_cnt pkt) in
  let can_send := match c_state c with Established | PeerClosed _ false => true | _ => false end in
  let can_recv := match c_state c with Established | PeerClosed false _ => true | _ => false end in
  let! c :=
    if can_send && (op pkt =? VSOCK_OP_RW) then send_rw c pkt else
    if bool_decide (c_state c = LocalInit) && (op pkt =? VSOCK_OP_RESPONSE) then
      Ret (upd_state (upd_expiry c None) Established) else
    if bool_decide (c_state c = Established) && (op pkt =? VSOCK_OP_SHUTDOWN) then
      let recv_off := has_flag pkt VSOCK_FLAGS_SHUTDOWN_RCV in
      let send_off := has_flag pkt VSOCK_FLAGS_SHUTDOWN_SEND in
      let c := upd_state c (PeerClosed recv_off send_off) in
      Ret (if recv_off && send_off then
             if TxBuf_is_empty (c_tx_buf c) then pend c Rst
             else upd_expiry c (Some (now + millis CONN_SHUTDOWN_TIMEOUT_MS))
           else c) else
    match c_state c, op pkt =? VSOCK_OP_SHUTDOWN with
    | PeerClosed recv_off send_off, true =>
        let recv_off := recv_off || has_flag pkt VSOCK_FLAGS_SHUTDOWN_RCV in
        let send_off := send_off || has_flag pkt VSOCK_FLAGS_SHUTDOWN_SEND in
        let c := upd_state c (PeerClosed recv_off send_off) in
        Ret (if recv_off && send_off && TxBuf_is_empty (c_tx_buf c) then pend c Rst else c)
    | _, _ =>
        if (can_recv || bool_decide (c_state c = PeerInit)) && (op pkt =? VSOCK_OP_CREDIT_UPDATE) then
          Ret c else
        if (can_send || bool_decide (c_state c = PeerInit)) && (op pkt =? VSOCK_OP_CREDIT_REQUEST) then
          Ret (pend c CreditUpdate) else
        Ret c
    end in
  Ret (Ok tt, c).

(** ** Events of the stream *)

Definition notify (c : VsockConnection) (evset : Events) : outcome VsockConnection :=
  let c := if EPOLLIN evset then pend c Rw else c in
  if EPOLLOUT evset then
    if TxBuf_is_empty (c_tx_buf c) then Ret c else
    let! (r, b, s) := TxBuf_flush_to (c_tx_buf c) (c_stream c) in
    let c := upd_stream (upd_tx_buf c b) s in
    let '(flushed, c) :=
      match r with
      | Ok n => (n, c)
      | Err (TxBufFlush WouldBlock) => (0, c)
      | Err _ => (0, kill c)
      end in
    let c := upd_fwd_cnt c (wadd (c_fwd_cnt c) (as_u32 flushed)) in
    Ret (if bool_decide (c_state c = PeerClosed true true) && TxBuf_is_empty (c_tx_buf c)
         then pend c Rst
         else if peer_needs_credit_update c then pend c CreditUpdate else c)
  else Ret c.
End Connection.
Arguments VsockConnection S : clear implicits.
