(* ===== verification/VsockConnectionSpec.v ===== *)
(** Correctness of a vsock connection over every sequence of packets and
    events: the byte streams in both directions, the two credit protocols, the
    shutdown protocol and the packets [recv_pkt] yields. *)

From S2P Require Import Prelude VsockStream TxBuf VsockPacket VsockConnection.

(** ** The set of pending indications *)

Definition pending_ok (p : PendingRxSet) : Prop := 0 <= p < 32.

(** A property of small sets holds when it evaluates to true on all of them. *)
Lemma pending_all (f : Z -> bool) p :
  forallb f (seqZ 0 32) = true -> pending_ok p -> f p = true.
Proof.
  intros Hf Hp. rewrite forallb_forall in Hf. apply Hf, list_elem_of_In, elem_of_seqZ.
  unfold pending_ok in Hp. lia.
Qed.

Lemma pending_contains_insert p it it' :
  pending_ok p -> prx_contains (prx_insert p it) it' = bool_decide (it = it') || prx_contains p it'.
Proof.
  intros Hp. apply (pending_all (fun p => Bool.eqb (prx_contains (prx_insert p it) it')
    (bool_decide (it = it') || prx_contains p it'))) in Hp; [by apply eqb_prop|].
  by destruct it, it'.
Qed.

Lemma pending_insert_ok p it : pending_ok p -> pending_ok (prx_insert p it).
Proof.
  intros Hp. apply (pending_all (fun p => (0 <=? prx_insert p it) && (prx_insert p it <? 32))) in Hp;
    [bools; split; lia|]. by destruct it.
Qed.

Lemma pending_contains_remove p it it' :
  pending_ok p ->
  prx_contains (prx_remove p it).2 it' = negb (bool_decide (it = it')) && prx_contains p it'.
Proof.
  intros Hp. apply (pending_all (fun p => Bool.eqb (prx_contains (prx_remove p it).2 it')
    (negb (bool_decide (it = it')) && prx_contains p it'))) in Hp; [by apply eqb_prop|].
  by destruct it, it'.
Qed.

Lemma pending_remove_ok p it : pending_ok p -> pending_ok (prx_remove p it).2.
Proof.
  intros Hp. apply (pending_all (fun p =>
    (0 <=? (prx_remove p it).2) && ((prx_remove p it).2 <? 32))) in Hp;
    [bools; split; lia|]. by destruct it.
Qed.

Lemma pending_empty p :
  pending_ok p -> prx_is_empty p =
    negb (prx_contains p Request || prx_contains p Response || prx_contains p Rst ||
          prx_contains p Rw || prx_contains p CreditUpdate).
Proof.
  intros Hp. apply (pending_all (fun p => Bool.eqb (prx_is_empty p)
    (negb (prx_contains p Request || prx_contains p Response || prx_contains p Rst ||
           prx_contains p Rw || prx_contains p CreditUpdate)))) in Hp; [by apply eqb_prop|].
  done.
Qed.

Lemma pending_remove_absent p it :
  pending_ok p -> prx_contains p it = false -> (prx_remove p it).2 = p.
Proof.
  intros Hp. apply (pending_all (fun p => prx_contains p it || ((prx_remove p it).2 =? p))) in Hp;
    [|by destruct it]. intros E. rewrite E in Hp. by apply Z.eqb_eq.
Qed.

(** Nothing but a credit update is pending. *)
Lemma pending_credit_only p :
  pending_ok p -> prx_contains p Rst = false -> prx_contains p Response = false ->
  prx_contains p Request = false -> prx_contains p Rw = false ->
  p = if prx_contains p CreditUpdate then into_mask CreditUpdate else 0.
Proof.
  intros Hp. apply (pending_all (fun p => prx_contains p Rst || (prx_contains p Response ||
    (prx_contains p Request || (prx_contains p Rw ||
     (p =? if prx_contains p CreditUpdate then into_mask CreditUpdate else 0)))))) in Hp; [|done].
  intros E1 E2 E3 E4. rewrite E1, E2, E3, E4 in Hp. by apply Z.eqb_eq.
Qed.

(** ** Events of a connection *)

Section Spec.
Context {S : Type} `{StreamLaws S}.
Implicit Types c : VsockConnection S.
Implicit Types p : VsockPacket.

(** What the muxer may do with a connection.  A receive gives it a packet to
    fill in. *)
Inductive conn_event : Type :=
| EvSend (pkt : VsockPacket) (now : Z)
| EvRecv (pkt : VsockPacket) (now : Z)
| EvNotify (evset : Events)
| EvKill.

(** The new connection and the packet that goes to the guest, if any. *)
Definition conn_step c (ev : conn_event) : outcome (VsockConnection S * option VsockPacket) :=
  match ev with
  | EvSend pkt now => let! (_, c) := send_pkt c pkt now in Ret (c, None)
  | EvRecv pkt now =>
      match recv_pkt c pkt now with
      | (Ok _, c, pkt) => Ret (c, Some pkt)
      | (Err _, c, _) => Ret (c, None)
      end
  | EvNotify evset => let! c := notify c evset in Ret (c, None)
  | EvKill => Ret (kill c, None)
  end.

Definition ev_valid (ev : conn_event) : Prop :=
  match ev with EvSend pkt _ => pkt_valid pkt | _ => True end.

(** States in which data from the guest is accepted. *)
Definition can_send (st : ConnState) : bool :=
  match st with Established | PeerClosed _ false => true | _ => false end.

(** The data of a packet. *)
Definition payload p : bytes :=
  if op p =? VSOCK_OP_RW then ztake (pkt_len p) (default [] (buf p)) else [].

(** The bytes an event adds to the guest's stream. *)
Definition accepted c (ev : conn_event) : bytes :=
  match ev with
  | EvSend pkt _ => if can_send (c_state c) then payload pkt else []
  | _ => []
  end.

Definition rst_sent (out : list VsockPacket) : bool := existsb (fun p => op p =? VSOCK_OP_RST) out.

(** Connections reached by events that satisfy [ok], with the guest's bytes so
    far and the packets sent to it.  The muxer drops a connection once it has
    yielded an RST. *)
Inductive conn_reach (ok : VsockConnection S -> bytes -> list VsockPacket -> conn_event -> Prop)
  (c0 : VsockConnection S) : VsockConnection S -> bytes -> list VsockPacket -> Prop :=
| reach_init : conn_reach ok c0 c0 [] []
| reach_step c acc out ev c' (o : option VsockPacket) :
    conn_reach ok c0 c acc out -> rst_sent out = false -> ev_valid ev -> ok c acc out ev ->
    conn_step c ev = Ret (c', o) ->
    conn_reach ok c0 c' (acc ++ accepted c ev) (out ++ option_list o).

(** New connections. *)
Definition conn_init c : Prop :=
  (exists s lc pc lp pp alloc, in_u32 alloc /\ c = new_peer_init s lc pc lp pp alloc) \/
  (exists s lc pc lp pp, c = new_local_init s lc pc lp pp).

(** ** The invariant *)

Record conn_base (s0 : S) (acc : bytes) (out : list VsockPacket) c : Prop := {
  cb_tx : txbuf_wf (c_tx_buf c);
  cb_pending : pending_ok (c_pending_rx c);
  (* the stream and the buffer hold the guest's bytes, in order *)
  cb_data : exists lost,
    received s0 ++ acc = received (c_stream c) ++ contents (c_tx_buf c) ++ lost /\
    (c_state c <> Killed -> lost = []);
  cb_fwd : c_fwd_cnt c = (zlen (received (c_stream c)) - zlen (received s0)) mod 2 ^ 32;
  (* the guest got the stream's bytes, in order *)
  cb_out : supplied (c_stream c) = supplied s0 ++ concat (payload <$> out);
  cb_rx : c_rx_cnt c = zlen (concat (payload <$> out)) mod 2 ^ 32;
  (* before the handshake nothing has been forwarded *)
  cb_early : c_state c = LocalInit \/ c_state c = PeerInit ->
    c_fwd_cnt c = c_last_fwd_cnt_to_peer c /\ contents (c_tx_buf c) = [];
  cb_response : prx_contains (c_pending_rx c) Response = true ->
    c_state c = PeerInit \/ c_state c = Killed;
}.

Record conn_inv (s0 : S) (acc : bytes) (out : list VsockPacket) c : Prop := {
  ci_base : conn_base s0 acc out c;
  (* a credit update is scheduled when the guest's view is outdated *)
  ci_credit : can_send (c_state c) = true -> peer_needs_credit_update c = true ->
    prx_contains (c_pending_rx c) CreditUpdate = true;
  (* an RST is scheduled when the connection is over *)
  ci_rst : rst_sent out = false ->
    c_state c = Killed \/ (c_state c = PeerClosed true true /\ contents (c_tx_buf c) = []) ->
    prx_contains (c_pending_rx c) Rst = true;
}.

Lemma conn_init_inv c : conn_init c -> conn_inv (c_stream c) [] [] c.
Proof.
  intros [(s & lc & pc & lp & pp & alloc & Ha & ->) | (s & lc & pc & lp & pp & ->)];
    split; [split| | |split| |]; simpl;
    try done; try apply txbuf_wf_default; try (intros _ [?|[? ?]]; done);
    try (exists []; by rewrite !app_nil_r); try (by rewrite Z.sub_diag); try (by rewrite app_nil_r);
    try (by left).
Qed.

(** ** Forwarding bytes to the stream *)

(** The connection after bytes have moved into the stream and the buffer. *)
Definition forwarded c s b f : VsockConnection S := upd_fwd_cnt (upd_tx_buf (upd_stream c s) b) f.

(** [kept] of the bytes [src] went, behind those already there, to the stream
    and the buffer. *)
Definition forwards c (kept : bytes) s b f : Prop :=
  txbuf_wf b /\
  received s ++ contents b = received (c_stream c) ++ contents (c_tx_buf c) ++ kept /\
  received (c_stream c) `prefix_of` received s /\
  supplied s = supplied (c_stream c) /\
  f = (c_fwd_cnt c + (zlen (received s) - zlen (received (c_stream c)))) mod 2 ^ 32.

(** [send_bytes] changes nothing but the stream, the buffer and the counter. *)
Lemma send_bytes_frame c src r c' :
  send_bytes c src = Ret (r, c') -> exists s b f, c' = forwarded c s b f.
Proof.
  unfold send_bytes. intros E. destruct (negb _).
  - bind_inv E. destruct a as [r' b]. injection E as <- <-.
    exists (c_stream c), b, (c_fwd_cnt c). by destruct c.
  - destruct (stream_write _ _) as [w s].
    destruct (match w with Ok _ => _ | Err _ => _ end) as [n|e].
    + destruct (n <? zlen src).
      * bind_inv E. bind_inv E. destruct a0 as [r' b]. injection E as <- <-.
        exists s, b, (wadd (c_fwd_cnt c) (as_u32 n)). by destruct c.
      * injection E as <- <-. exists s, (c_tx_buf c), (wadd (c_fwd_cnt c) (as_u32 n)). by destruct c.
    + injection E as <- <-. exists s, (c_tx_buf c), (c_fwd_cnt c). by destruct c.
Qed.

Lemma wadd_as_u32 x n : wadd x (as_u32 n) = (x + n) mod 2 ^ 32.
Proof. unfold wadd, as_u32. apply Z.add_mod_idemp_r. done. Qed.

Lemma forwarded_same c b :
  in_u32 (c_fwd_cnt c) -> forwarded c (c_stream c) b (c_fwd_cnt c) = upd_tx_buf c b.
Proof. by destruct c. Qed.

Lemma push_cases b src :
  txbuf_wf b ->
  exists r b' kept lost, TxBuf_push b src = Ret (r, b') /\ txbuf_wf b' /\ src = kept ++ lost /\
    contents b' = contents b ++ kept /\
    ((r = Ok tt /\ lost = []) \/ (r = Err TxBufFull /\ TxBuf_SIZE < zlen (contents b) + zlen src)).
Proof.
  intros Hwf. destruct (push_ok b src Hwf) as (r & b' & E & Hwf' & Hc). case_bool_decide.
  - destruct Hc as [-> Hc]. exists (Ok tt), b', src, []. rewrite app_nil_r. split_and!; auto.
  - destruct Hc as [-> ->]. exists (Err TxBufFull), b, [], src. rewrite app_nil_r.
    split_and!; auto. right. split; [done|lia].
Qed.

(** What [send_bytes] does after a direct write of [w] bytes. *)
Definition after_write c (src : bytes) (w : Z) : outcome (result unit CsmError * VsockConnection S) :=
  let c := upd_fwd_cnt c (wadd (c_fwd_cnt c) (as_u32 w)) in
  if w <? zlen src then
    let! rest := slice src w (zlen src) in
    let! (r, b) := TxBuf_push (c_tx_buf c) rest in
    Ret (r, upd_tx_buf c b)
  else Ret (Ok tt, c).

Lemma after_write_ok c s src w :
  txbuf_wf (c_tx_buf c) -> contents (c_tx_buf c) = [] -> 0 <= w <= zlen src ->
  received s = received (c_stream c) ++ ztake w src -> supplied s = supplied (c_stream c) ->
  exists r b f kept lost, after_write (upd_stream c s) src w = Ret (r, forwarded c s b f) /\
    src = kept ++ lost /\ forwards c kept s b f /\
    ((r = Ok tt /\ lost = []) \/ (r = Err TxBufFull /\ TxBuf_SIZE < zlen src)).
Proof.
  intros Hwf He Hw Hr Hs. unfold after_write, forwards. rewrite He, Hr.
  assert (Hf : c_fwd_cnt (upd_stream c s) = c_fwd_cnt c) by (by destruct c).
  assert (Hl : c_fwd_cnt c + (zlen (received (c_stream c) ++ ztake w src) -
    zlen (received (c_stream c))) = c_fwd_cnt c + w) by (rewrite zlen_app, zlen_ztake; lia).
  rewrite Hf, wadd_as_u32, Hl. destruct (Z.ltb_spec w (zlen src)).
  - rewrite slice_ret by lia. cbn [obind].
    rewrite (ztake_all (zlen src - w)) by (rewrite zlen_zdrop; lia).
    replace (c_tx_buf (upd_fwd_cnt (upd_stream c s) ((c_fwd_cnt c + w) mod 2 ^ 32)))
      with (c_tx_buf c) by (by destruct c).
    destruct (push_cases (c_tx_buf c) (zdrop w src) Hwf)
      as (r & b & kept & lost & -> & Hwf' & Hk & Hc & Hrl).
    exists r, b, ((c_fwd_cnt c + w) mod 2 ^ 32), (ztake w src ++ kept), lost. split_and!; auto.
    + by destruct c.
    + by rewrite <- app_assoc, <- Hk, ztake_zdrop.
    + rewrite Hc, He. by rewrite <- app_assoc.
    + by apply prefix_app_r.
    + destruct Hrl as [[-> ->]|[-> Hlt]]; [by left|right]. split; [done|].
      rewrite He, zlen_zdrop in Hlt by lia. change (zlen (@nil Z)) with 0 in Hlt. lia.
  - exists (Ok tt), (c_tx_buf c), ((c_fwd_cnt c + w) mod 2 ^ 32), src, [].
    rewrite He, !app_nil_r, (ztake_all w) by lia. split_and!; auto using prefix_app_r. by destruct c.
Qed.

(** [send_bytes] keeps everything, or stops at an error. *)
Lemma send_bytes_ok c src :
  txbuf_wf (c_tx_buf c) -> in_u32 (c_fwd_cnt c) ->
  exists r s b f kept lost, send_bytes c src = Ret (r, forwarded c s b f) /\
    src = kept ++ lost /\ forwards c kept s b f /\
    match r with
    | Ok _ => lost = []
    | Err TxBufFull => TxBuf_SIZE < zlen (contents (c_tx_buf c)) + zlen src
    | Err (StreamWrite e) => is_would_block e = false /\
        exists s0 buf s1, stream_write s0 buf = (Err e, s1)
    | Err (TxBufFlush _) => False
    end.
Proof.
  intros Hwf Hf. unfold send_bytes. rewrite is_empty_contents by done.
  case_bool_decide as He; simpl.
  - destruct (stream_write (c_stream c) src) as [r s] eqn:Ew.
    assert (Hw : exists w, 0 <= w <= zlen src /\ received s = received (c_stream c) ++ ztake w src /\
      supplied s = supplied (c_stream c) /\ match r with Ok n => n = w | Err _ => w = 0 end).
    { destruct r as [n|e]; [exists n; by destruct (write_ok _ _ _ _ Ew) as (?&?&?)|].
      exists 0. destruct (write_err _ _ _ _ Ew). rewrite app_nil_r.
      pose proof (zlen_nonneg src). split_and!; auto; lia. }
    destruct Hw as (w & Hw & Hr & Hs & Hrw).
    destruct r as [n|e]; [|destruct (is_would_block e) eqn:Hwb].
    3: { exists (Err (StreamWrite e)), s, (c_tx_buf c), (c_fwd_cnt c), [], src. subst w.
      split_and!; [by destruct c|done| |done|by eauto]. 
      unfold forwards. rewrite Hr, He, !app_nil_r, Z.sub_diag, Z.add_0_r. simpl.
      split_and!; auto. symmetry. apply Z.mod_small. ulia. }
    all: subst w; fold (after_write (upd_stream c s) src n) || fold (after_write (upd_stream c s) src 0);
      edestruct (after_write_ok c s src) as (r & b & f & kept & lost & -> & Hk & Hfw & Hrl); [done..|];
      exists r, s, b, f, kept, lost; split_and!; auto;
      destruct Hrl as [[-> ->]|[-> ?]]; [done|]; rewrite He; by simpl.
  - destruct (push_cases (c_tx_buf c) src Hwf) as (r & b & kept & lost & -> & Hwf' & Hk & Hc & Hr).
    exists r, (c_stream c), b, (c_fwd_cnt c), kept, lost. simpl.
    split_and!; [by destruct c|done| |by destruct Hr as [[-> ->]|[-> ?]]].
    unfold forwards. rewrite Hc, Z.sub_diag, Z.add_0_r. split_and!; auto.
    symmetry. apply Z.mod_small. ulia.
Qed.

(** ** Small steps on the invariant *)

Lemma base_pending s0 acc out c q :
  conn_base s0 acc out c -> pending_ok q ->
  (prx_contains q Response = true -> prx_contains (c_pending_rx c) Response = true) ->
  conn_base s0 acc out (upd_pending c q).
Proof. intros [] ? ?. destruct c; split; simpl in *; auto. Qed.

Lemma base_pend s0 acc out c it :
  conn_base s0 acc out c -> it <> Response -> conn_base s0 acc out (pend c it).
Proof.
  intros Hb Hne. pose proof (cb_pending _ _ _ _ Hb). apply base_pending; [done|by apply pending_insert_ok|].
  rewrite pending_contains_insert by done. by rewrite bool_decide_eq_false_2.
Qed.

Lemma base_peer_credit s0 acc out c x y :
  conn_base s0 acc out c -> conn_base s0 acc out (upd_peer_credit c x y).
Proof. intros []. destruct c; split; simpl in *; auto. Qed.

Lemma base_expiry s0 acc out c x :
  conn_base s0 acc out c -> conn_base s0 acc out (upd_expiry c x).
Proof. intros []. destruct c; split; simpl in *; auto. Qed.

Lemma base_last s0 acc out c :
  conn_base s0 acc out c -> conn_base s0 acc out (upd_last_fwd c (c_fwd_cnt c)).
Proof. intros []. destruct c; split; simpl in *; naive_solver. Qed.

(** A change of state that leaves the handshake. *)
Lemma base_state s0 acc out c st :
  conn_base s0 acc out c -> (st <> Killed -> c_state c <> Killed) ->
  st <> LocalInit -> st <> PeerInit ->
  (prx_contains (c_pending_rx c) Response = true -> st = Killed) ->
  conn_base s0 acc out (upd_state c st).
Proof.
  intros [? ? (lost & ? & ?)] Hk ? ? ?. destruct c; split; simpl in *; auto; [|naive_solver].
  exists lost. auto.
Qed.

Lemma base_out s0 acc out c (o : list VsockPacket) :
  conn_base s0 acc out c -> concat (payload <$> o) = [] -> conn_base s0 acc (out ++ o) c.
Proof. intros [] Ho. split; auto; by rewrite fmap_app, concat_app, Ho, app_nil_r. Qed.

(** Bytes [kept ++ lost] of the guest, of which [kept] were forwarded. *)
Lemma base_forward s0 acc out c kept lost s b f :
  conn_base s0 acc out c -> forwards c kept s b f ->
  c_state c <> LocalInit -> c_state c <> PeerInit ->
  (c_state c = Killed -> kept ++ lost = []) ->
  (lost = [] -> conn_base s0 (acc ++ kept ++ lost) out (forwarded c s b f)) /\
  conn_base s0 (acc ++ kept ++ lost) out (upd_state (forwarded c s b f) Killed).
Proof.
  intros [? Hp (l & Hd & Hl) Hfwd ? ? ? ?] (Hwf & Hdata & _ & Hs & Hf) ? ? Hk.
  assert (Hdata' : exists l', received s0 ++ acc ++ kept ++ lost = received s ++ contents b ++ l' /\
    (lost = [] -> c_state c <> Killed -> l' = [])).
  { destruct (decide (c_state c = Killed)) as [Ek|Ek]; [exists l | exists lost];
      rewrite (app_assoc (received s)), Hdata, (app_assoc (received s0)), Hd.
    - apply app_nil in Hk as [-> ->]; [|done]. rewrite !app_nil_r, <- !app_assoc. done.
    - rewrite Hl, app_nil_r by done. rewrite <- !app_assoc. done. }
  assert (Hf' : f = (zlen (received s) - zlen (received s0)) mod 2 ^ 32).
  { rewrite Hf, Hfwd, Z.add_mod_idemp_l by done. f_equal. lia. }
  destruct Hdata' as (l' & Hd' & Hl').
  split; [intros Hlost|]; destruct c; split; simpl in *; auto using pending_insert_ok; try congruence;
    try (exists l'; by auto); intros [?|?]; done.
Qed.

(** ** The invariant over the operations *)

Lemma fwd_u32 s0 acc out c : conn_base s0 acc out c -> in_u32 (c_fwd_cnt c).
Proof. intros []. rewrite cb_fwd0. apply wadd_u32. Qed.

Lemma needs_same c : c_fwd_cnt c = c_last_fwd_cnt_to_peer c -> peer_needs_credit_update c = false.
Proof. unfold peer_needs_credit_update. intros ->. unfold wsub. rewrite Z.sub_diag. done. Qed.

Lemma inv_peer_credit s0 acc out c x y :
  conn_inv s0 acc out c -> conn_inv s0 acc out (upd_peer_credit c x y).
Proof. intros [? Hc Hr]. split; [by apply base_peer_credit|..]; destruct c; auto. Qed.

Lemma inv_expiry s0 acc out c x : conn_inv s0 acc out c -> conn_inv s0 acc out (upd_expiry c x).
Proof. intros [? Hc Hr]. split; [by apply base_expiry|..]; destruct c; auto. Qed.

(** Scheduling an indication. *)
Lemma inv_pend s0 acc out c it :
  conn_base s0 acc out c -> it <> Response ->
  (can_send (c_state c) = true -> peer_needs_credit_update c = true ->
     it = CreditUpdate \/ prx_contains (c_pending_rx c) CreditUpdate = true) ->
  (rst_sent out = false ->
     c_state c = Killed \/ (c_state c = PeerClosed true true /\ contents (c_tx_buf c) = []) ->
     it = Rst \/ prx_contains (c_pending_rx c) Rst = true) ->
  conn_inv s0 acc out (pend c it).
Proof.
  intros Hb Hne Hc Hr. pose proof (cb_pending _ _ _ _ Hb) as Hp.
  assert (Hin : forall it', it = it' \/ prx_contains (c_pending_rx c) it' = true ->
    prx_contains (c_pending_rx (pend c it)) it' = true).
  { intros it' Hit. replace (c_pending_rx (pend c it)) with (prx_insert (c_pending_rx c) it)
      by (by destruct c).
    rewrite pending_contains_insert by done. apply orb_true_iff.
    rewrite bool_decide_eq_true. naive_solver. }
  split; [by apply base_pend| |].
  - intros H1 H2. apply Hin, Hc; by destruct c.
  - intros H1 H2. apply Hin, Hr; [done|]. by destruct c.
Qed.

Lemma inv_pend_more s0 acc out c it :
  conn_inv s0 acc out c -> it <> Response -> conn_inv s0 acc out (pend c it).
Proof. intros [] ?. apply inv_pend; auto. Qed.

Lemma inv_killed s0 acc out c :
  conn_base s0 acc out (upd_state c Killed) -> conn_inv s0 acc out (kill c).
Proof. intros Hb. apply inv_pend; [done|done|by destruct c|auto]. Qed.

Lemma inv_kill s0 acc out c : conn_inv s0 acc out c -> conn_inv s0 acc out (kill c).
Proof. intros [Hb _ _]. by apply inv_killed, base_state. Qed.

Lemma forwarded_state c s b f : c_state (forwarded c s b f) = c_state c.
Proof. by destruct c. Qed.

(** After bytes have moved, a credit update is scheduled if it is due. *)
Definition credit_check c : VsockConnection S :=
  if peer_needs_credit_update c then pend c CreditUpdate else c.

Lemma inv_credit_check s0 acc out c :
  conn_base s0 acc out c ->
  (rst_sent out = false ->
     c_state c = Killed \/ (c_state c = PeerClosed true true /\ contents (c_tx_buf c) = []) ->
     prx_contains (c_pending_rx c) Rst = true) ->
  conn_inv s0 acc out (credit_check c).
Proof.
  intros Hb ?. unfold credit_check. destruct (peer_needs_credit_update c) eqn:E.
  - apply inv_pend; [done..|by left|auto].
  - split; [done|congruence|done].
Qed.

Lemma inv_send_rw s0 acc out c pkt :
  conn_inv s0 acc out c -> can_send (c_state c) = true -> pkt_valid pkt -> op pkt = VSOCK_OP_RW ->
  exists c', send_rw c pkt = Ret c' /\ conn_inv s0 (acc ++ payload pkt) out c'.
Proof.
  intros [Hb Hc Hr] Hs [Ht Hv] Hop. unfold send_rw, payload. rewrite Hop. simpl.
  destruct (buf pkt) as [b|]; simpl.
  2: { exists c. split; [done|]. unfold ztake. rewrite take_nil, app_nil_r. done. }
  destruct Ht as (_&_&_&_&Hlen&_). fold (pkt_len pkt) in Hlen.
  rewrite slice_ret by ulia. cbn [obind]. rewrite zdrop_0, Z.sub_0_r.
  destruct (send_bytes_ok c (ztake (pkt_len pkt) b) (cb_tx _ _ _ _ Hb) (fwd_u32 _ _ _ _ Hb))
    as (r & s & b' & f & kept & lost & -> & -> & Hf & Hrl).
  cbn [obind]. 
  destruct (base_forward s0 acc out c kept lost s b' f Hb Hf) as [Bok Bkill];
    [by destruct (c_state c)..|].
  destruct r as [[]|e].
  - eexists. split; [done|]. apply inv_credit_check; [auto|]. intros _.
    rewrite forwarded_state. destruct (c_state c) as [| | | |[] []|]; by intros [?|[? ?]].
  - eexists. split; [done|]. by apply inv_killed.
Qed.

Lemma inv_shutdown s0 acc out c ro so :
  conn_inv s0 acc out c -> c_state c = Established \/ (exists r s, c_state c = PeerClosed r s) ->
  (so = false -> can_send (c_state c) = true) ->
  let c1 := upd_state c (PeerClosed ro so) in
  (ro && so && TxBuf_is_empty (c_tx_buf c) = true -> conn_inv s0 acc out (pend c1 Rst)) /\
  (ro && so && TxBuf_is_empty (c_tx_buf c) = false -> conn_inv s0 acc out c1).
Proof.
  intros [Hb Hc Hr] Hst Hso c1.
  assert (Hb1 : conn_base s0 acc out c1).
  { assert (Hn : c_state c <> PeerInit /\ c_state c <> Killed)
      by (destruct Hst as [->|(? & ? & ->)]; done).
    apply base_state; [done|by intros _; apply Hn|done..|]. intros Hresp.
    apply (cb_response _ _ _ _ Hb) in Hresp as [?|?]; exfalso; tauto. }
  assert (Hcs : can_send (c_state c1) = true -> peer_needs_credit_update c1 = true ->
    prx_contains (c_pending_rx c1) CreditUpdate = true).
  { intros Hcs Hn. subst c1. destruct c; simpl in *. apply Hc; [|done]. destruct so; [done|auto]. }
  split; intros He.
  - apply inv_pend; auto.
  - split; [done..|]. intros _. rewrite is_empty_contents in He by apply Hb.
    subst c1. destruct c; simpl in *. intros [?|[[= -> ->] Hn]]; [done|].
    rewrite Hn in He. done.
Qed.

Lemma inv_established s0 acc out c :
  conn_inv s0 acc out c -> c_state c = LocalInit ->
  conn_inv s0 acc out (upd_state (upd_expiry c None) Established).
Proof.
  intros [Hb Hc Hr] Hst.
  assert (Hs : c_fwd_cnt c = c_last_fwd_cnt_to_peer c) by (apply (cb_early _ _ _ _ Hb); auto).
  split.
  - apply base_state; [by apply base_expiry|destruct c; simpl in *; congruence|done..|].
    intros Hresp. destruct (cb_response _ _ _ _ Hb); [by destruct c|congruence..].
  - intros _. rewrite needs_same; [done|]. by destruct c.
  - intros _. destruct c. by intros [?|[? ?]].
Qed.

(** The branches of [send_pkt] for a SHUTDOWN packet. *)
Definition send_shutdown c pkt (now : Z) : VsockConnection S :=
  let ro := has_flag pkt VSOCK_FLAGS_SHUTDOWN_RCV in
  let so := has_flag pkt VSOCK_FLAGS_SHUTDOWN_SEND in
  match c_state c with
  | Established =>
      let c := upd_state c (PeerClosed ro so) in
      if ro && so then
        if TxBuf_is_empty (c_tx_buf c) then pend c Rst
        else upd_expiry c (Some (now + millis CONN_SHUTDOWN_TIMEOUT_MS))
      else c
  | PeerClosed r s =>
      let c := upd_state c (PeerClosed (r || ro) (s || so)) in
      if (r || ro) && (s || so) && TxBuf_is_empty (c_tx_buf c) then pend c Rst else c
  | _ => c
  end.

Lemma inv_send_shutdown s0 acc out c pkt now :
  conn_inv s0 acc out c -> conn_inv s0 acc out (send_shutdown c pkt now).
Proof.
  intros Hi. unfold send_shutdown.
  set (ro := has_flag pkt VSOCK_FLAGS_SHUTDOWN_RCV). set (so := has_flag pkt VSOCK_FLAGS_SHUTDOWN_SEND).
  assert (Htx : forall st, c_tx_buf (upd_state c st) = c_tx_buf c) by (by destruct c).
  destruct (c_state c) as [| | | |r s|] eqn:Est; try done; rewrite Htx.
  - destruct (inv_shutdown s0 acc out c ro so Hi) as [H1 H2]; [by left|by rewrite Est|].
    destruct (ro && so); [destruct (TxBuf_is_empty (c_tx_buf c))|];
      [by apply H1|by apply inv_expiry, H2|by apply H2].
  - destruct (inv_shutdown s0 acc out c (r || ro) (s || so) Hi) as [H1 H2];
      [right; eauto| |].
    { rewrite Est. by destruct s. }
    destruct (_ && _) eqn:E; auto.
Qed.

Lemma inv_send s0 acc out c pkt now :
  conn_inv s0 acc out c -> pkt_valid pkt ->
  exists c', send_pkt c pkt now = Ret (Ok tt, c') /\
    conn_inv s0 (acc ++ accepted c (EvSend pkt now)) out c'.
Proof.
  intros Hi Hv. unfold send_pkt, accepted.
  apply (inv_peer_credit _ _ _ _ (buf_alloc pkt) (fwd_cnt pkt)) in Hi.
  replace (c_state c) with (c_state (upd_peer_credit c (buf_alloc pkt) (fwd_cnt pkt)))
    by (by destruct c).
  set (c1 := upd_peer_credit c (buf_alloc pkt) (fwd_cnt pkt)) in *. clearbody c1. clear c.
  fold (can_send (c_state c1)).
  destruct (Z.eqb_spec (op pkt) VSOCK_OP_RW) as [Hop|Hop].
  { destruct (can_send (c_state c1)) eqn:Hcs; simpl.
    - destruct (inv_send_rw s0 acc out c1 pkt Hi Hcs Hv Hop) as (c' & -> & Hi'). by exists c'.
    - rewrite Hop. simpl. rewrite !andb_false_r, app_nil_r. simpl.
      exists c1. split; [|done]. by destruct (c_state c1). }
  assert (Hacc : (if can_send (c_state c1) then payload pkt else []) = []).
  { unfold payload. rewrite (proj2 (Z.eqb_neq _ _) Hop). by destruct (can_send (c_state c1)). }
  rewrite Hacc, app_nil_r, andb_false_r. clear Hacc.
  destruct (Z.eqb_spec (op pkt) VSOCK_OP_RESPONSE) as [Er|_].
  { rewrite Er. simpl. rewrite !andb_false_r, andb_true_r. case_bool_decide; simpl.
    - eexists. split; [done|]. by apply inv_established.
    - exists c1. split; [|done]. by destruct (c_state c1). }
  rewrite andb_false_r. destruct (Z.eqb_spec (op pkt) VSOCK_OP_SHUTDOWN) as [Es|_].
  - exists (send_shutdown c1 pkt now). split; [|by apply inv_send_shutdown].
    unfold send_shutdown. rewrite Es. destruct (c_state c1) as [| | | |r s|]; done.
  - rewrite andb_false_r. exists (if (can_send (c_state c1) || bool_decide (c_state c1 = PeerInit)) &&
      (op pkt =? VSOCK_OP_CREDIT_REQUEST) then pend c1 CreditUpdate else c1). split.
    + destruct (Z.eqb_spec (op pkt) VSOCK_OP_CREDIT_UPDATE) as [Eu|_]; [rewrite Eu|];
        destruct (c_state c1) as [| | | |[] []|]; simpl; try done;
        by destruct (op pkt =? VSOCK_OP_CREDIT_REQUEST).
    + destruct (_ && _); [by apply inv_pend_more|done].
Qed.

(** The end of [notify], after a flush. *)
Definition after_flush c : VsockConnection S :=
  if bool_decide (c_state c = PeerClosed true true) && TxBuf_is_empty (c_tx_buf c) then pend c Rst
  else credit_check c.

Lemma inv_after_flush s0 acc out c :
  conn_base s0 acc out c ->
  (rst_sent out = false -> c_state c = Killed -> prx_contains (c_pending_rx c) Rst = true) ->
  conn_inv s0 acc out (after_flush c).
Proof.
  intros Hb Hk. unfold after_flush. rewrite is_empty_contents by apply Hb.
  destruct (_ && _) eqn:E.
  - bools. rewrite bool_decide_eq_true in *. apply inv_pend; [done..| |by left].
    intros Hc. by destruct (c_state c) as [| | | |[] []|].
  - apply inv_credit_check; [done|]. intros Ho [Hs|[Hs Hn]]; [auto|].
    rewrite Hs, Hn in E. by rewrite !bool_decide_eq_true_2 in E.
Qed.

(** A flush forwards bytes of the buffer and adds none. *)
Lemma flush_forwards c s b out r :
  in_u32 (c_fwd_cnt c) -> txbuf_wf b ->
  flushed (contents (c_tx_buf c)) out (contents b) (c_stream c) s r ->
  forwards c [] s b (wadd (c_fwd_cnt c) (as_u32 (match r with Ok n => n | Err _ => 0 end))).
Proof.
  intros Hu Hwf (Hq & Hr & Hs & Hn & _). unfold forwards. split_and!; auto.
  - by rewrite Hr, app_nil_r, Hq, <- app_assoc.
  - rewrite Hr. by apply prefix_app_r.
  - rewrite wadd_as_u32. f_equal. rewrite Hr, zlen_app.
    destruct r as [n|e]; [lia|]. destruct Hn as [-> _]. change (zlen (@nil Z)) with 0. lia.
Qed.

Lemma inv_notify s0 acc out c evset :
  conn_inv s0 acc out c ->
  exists c', notify c evset = Ret c' /\ conn_inv s0 acc out c'.
Proof.
  intros Hi. unfold notify.
  set (c1 := if EPOLLIN evset then pend c Rw else c).
  assert (Hi1 : conn_inv s0 acc out c1).
  { subst c1. destruct (EPOLLIN evset); [by apply inv_pend_more|done]. }
  clearbody c1. clear Hi c. destruct (EPOLLOUT evset); [|eauto].
  destruct Hi1 as [Hb Hc Hr]. pose proof (cb_tx _ _ _ _ Hb) as Hwf.
  rewrite is_empty_contents by done. case_bool_decide as He; [eauto using Build_conn_inv|].
  destruct (flush_to_ok (c_tx_buf c1) (c_stream c1) Hwf) as (r & b & s & fl & Ef & Hwf' & Hfl).
  unfold TxBuf_flush_to. rewrite Ef. cbn [obind].
  pose proof (flush_forwards c1 s b fl r (fwd_u32 _ _ _ _ Hb) Hwf' Hfl) as Hfw.
  destruct (base_forward s0 acc out c1 [] [] s b _ Hb Hfw) as [Bok Bkill];
    [intros Es; apply He, (cb_early _ _ _ _ Hb); auto..|done|].
  rewrite !app_nil_r in *. set (f := wadd _ _) in *.
  assert (Hgo : conn_inv s0 acc out (after_flush (forwarded c1 s b f))).
  { apply inv_after_flush; [auto|]. intros. destruct c1; simpl in *; auto. }
  assert (Hkill : conn_inv s0 acc out (after_flush (kill (forwarded c1 s b f)))).
  { apply inv_killed in Bkill. destruct Bkill. apply inv_after_flush; auto. }
  destruct r as [n|e]; [|destruct Hfl as (_ & _ & _ & (_ & k & ->) & _)]; simpl.
  - eexists. split; [done|]. by destruct c1.
  - destruct k; eexists; (split; [done|]); by destruct c1.
Qed.

(** ** [recv_pkt] *)

Lemma upd_pending_same c : upd_pending c (c_pending_rx c) = c.
Proof. by destruct c. Qed.

Definition without (c : VsockConnection S) it := upd_pending c (prx_remove (c_pending_rx c) it).2.

(** The tests of [recv_pkt] in order; a removal that finds nothing changes nothing. *)
Ltac recv_test c :=
  lazymatch goal with
  | |- context [prx_remove (c_pending_rx c) ?it] =>
      let E := fresh "E" in
      destruct (prx_contains (c_pending_rx c) it) eqn:E; unfold prx_remove at 1; rewrite E; [done|];
      change (Z.land (c_pending_rx c) (Z.lxor (into_mask it) u16_max))
        with (prx_remove (c_pending_rx c) it).2;
      rewrite pending_remove_absent, upd_pending_same by done
  end.

Lemma recv_pkt_cases c pkt now :
  pending_ok (c_pending_rx c) ->
  recv_pkt c pkt now =
    let pkt := init_pkt c pkt in
    if prx_contains (c_pending_rx c) Rst then (Ok tt, without c Rst, set_op pkt VSOCK_OP_RST)
    else if prx_contains (c_pending_rx c) Response then
      (Ok tt, upd_state (without c Response) Established, set_op pkt VSOCK_OP_RESPONSE)
    else if prx_contains (c_pending_rx c) Request then
      (Ok tt, upd_expiry (without c Request) (Some (now + millis CONN_REQUEST_TIMEOUT_MS)),
       set_op pkt VSOCK_OP_REQUEST)
    else if prx_contains (c_pending_rx c) Rw then recv_rw (without c Rw) pkt now
    else recv_credit_update c pkt.
Proof.
  intros Hp. unfold recv_pkt. cbv zeta. by do 4 recv_test c.
Qed.

Lemma without_pending c it : c_pending_rx (without c it) = (prx_remove (c_pending_rx c) it).2.
Proof. by destruct c. Qed.

Lemma base_without s0 acc out c it : conn_base s0 acc out c -> conn_base s0 acc out (without c it).
Proof.
  intros Hb. pose proof (cb_pending _ _ _ _ Hb). apply base_pending; [done|by apply pending_remove_ok|].
  rewrite pending_contains_remove by done. intros E. by bools.
Qed.

(** The invariant after a packet without data has been handed to the guest. *)
Lemma inv_emit s0 acc out c p :
  conn_base s0 acc out c -> payload p = [] ->
  (can_send (c_state c) = true -> peer_needs_credit_update c = true ->
     prx_contains (c_pending_rx c) CreditUpdate = true) ->
  (op p = VSOCK_OP_RST \/
   ~ (c_state c = Killed \/ (c_state c = PeerClosed true true /\ contents (c_tx_buf c) = []))) ->
  conn_inv s0 acc (out ++ [p]) c.
Proof.
  intros Hb Hp Hc Hr. split; [|done|].
  - apply base_out; [done|]. simpl. by rewrite Hp.
  - unfold rst_sent. rewrite existsb_app. simpl. intros Ho Hst.
    destruct Hr as [Hr|]; [|done]. rewrite Hr in Ho. bools. done.
Qed.

Lemma op_set_op p x : op (set_op p x) = x.
Proof. by destruct p as [[] ?]. Qed.

Lemma payload_op p x : x <> VSOCK_OP_RW -> payload (set_op p x) = [].
Proof. intros Hx. unfold payload. by rewrite op_set_op, (proj2 (Z.eqb_neq _ _) Hx). Qed.

(** A connection with no RST pending is not over. *)
Lemma inv_not_over s0 acc out c :
  conn_inv s0 acc out c -> rst_sent out = false -> prx_contains (c_pending_rx c) Rst = false ->
  ~ (c_state c = Killed \/ (c_state c = PeerClosed true true /\ contents (c_tx_buf c) = [])).
Proof. intros [_ _ Hr] Ho Hn Hst. rewrite (Hr Ho Hst) in Hn. done. Qed.

(** The result of a receive that starts from [c]. *)
Definition recv_inv s0 acc out (res : result unit VsockError * VsockConnection S * VsockPacket) : Prop :=
  let '(r, c', p) := res in
  conn_inv s0 acc (out ++ match r with Ok _ => [p] | Err _ => [] end) c'.

Lemma inv_recv_credit s0 acc out c p :
  conn_inv s0 acc out c -> rst_sent out = false ->
  prx_contains (c_pending_rx c) Rst = false -> prx_contains (c_pending_rx c) Response = false ->
  prx_contains (c_pending_rx c) Request = false -> prx_contains (c_pending_rx c) Rw = false ->
  recv_inv s0 acc out (recv_credit_update c p).
Proof.
  intros Hi Ho E1 E2 E3 E4. pose proof (inv_not_over _ _ _ _ Hi Ho E1) as Hno.
  pose proof (ci_base _ _ _ _ Hi) as Hb. pose proof (cb_pending _ _ _ _ Hb) as Hp.
  pose proof (pending_credit_only _ Hp E1 E2 E3 E4) as Hq.
  unfold recv_credit_update. destruct (prx_remove (c_pending_rx c) CreditUpdate) as [had q] eqn:Er.
  assert (Hhad : had = prx_contains (c_pending_rx c) CreditUpdate) by (by inversion Er).
  assert (Hw : upd_pending c q = without c CreditUpdate) by (unfold without; by rewrite Er).
  rewrite Hw. destruct (prx_contains (c_pending_rx c) CreditUpdate) eqn:E5; subst had.
  - assert (Hno' : has_pending_rx (without c CreditUpdate) = false).
    { unfold has_pending_rx. rewrite without_pending, Hq. done. }
    rewrite Hno'. simpl. apply inv_emit.
    + by apply base_last, base_without.
    + by apply payload_op.
    + intros _. rewrite needs_same; [done|]. by destruct c.
    + right. by destruct c.
  - simpl. rewrite app_nil_r. unfold without.
    rewrite pending_remove_absent, upd_pending_same by done. done.
Qed.

(** Reading does not touch what has been received from the guest. *)
Lemma base_read s0 acc out c s :
  conn_base s0 acc out c -> received s = received (c_stream c) ->
  supplied s = supplied (c_stream c) -> conn_base s0 acc out (upd_stream c s).
Proof. intros [] Hr Hs. destruct c; split; simpl in *; rewrite ?Hr, ?Hs; auto. Qed.

Lemma inv_read s0 acc out c s :
  conn_inv s0 acc out c -> received s = received (c_stream c) ->
  supplied s = supplied (c_stream c) -> conn_inv s0 acc out (upd_stream c s).
Proof. intros [] Hr Hs. split; [by apply base_read|..]; by destruct c. Qed.

(** A packet with the bytes [bs] that were read. *)
Lemma inv_data s0 acc out c s bs p :
  conn_inv s0 acc out c ->
  ~ (c_state c = Killed \/ (c_state c = PeerClosed true true /\ contents (c_tx_buf c) = [])) ->
  received s = received (c_stream c) -> supplied s = supplied (c_stream c) ++ bs ->
  payload p = bs ->
  let c1 := upd_rx_cnt (upd_stream c s) (wadd (c_rx_cnt c) (as_u32 (zlen bs))) in
  conn_inv s0 acc (out ++ [p]) (upd_last_fwd c1 (c_fwd_cnt c1)).
Proof.
  intros [[] Hc Hr] Hno Hrec Hsup Hp c1.
  assert (Hcat : concat (payload <$> (out ++ [p])) = concat (payload <$> out) ++ bs).
  { rewrite fmap_app, concat_app. simpl. by rewrite Hp, app_nil_r. }
  split; [split|..]; subst c1; rewrite ?Hcat; destruct c; simpl in *; rewrite ?Hrec; auto.
  - rewrite Hsup, cb_out0. by rewrite app_assoc.
  - rewrite wadd_as_u32, cb_rx0, zlen_app, Z.add_mod_idemp_l by done. done.
  - intros Hs. split; [done|]. by apply cb_early0.
  - intros _. by rewrite needs_same.
Qed.

Lemma needs_last c : peer_needs_credit_update (upd_last_fwd c (c_fwd_cnt c)) = false.
Proof. apply needs_same. by destruct c. Qed.

(** The end of the stream: the connection closes and asks the guest to do so. *)
Lemma inv_closed s0 acc out c x p :
  conn_inv s0 acc out c -> c_state c <> Killed -> payload p = [] ->
  (prx_contains (c_pending_rx c) Response = false) ->
  let c1 := upd_expiry (upd_state c LocalClosed) x in
  conn_inv s0 acc (out ++ [p]) (upd_last_fwd c1 (c_fwd_cnt c1)).
Proof.
  intros [Hb Hc Hr] Hk Hp Hresp c1. apply inv_emit; auto.
  - apply base_last, base_expiry, base_state; auto; congruence.
  - intros _. by rewrite needs_last.
  - right. subst c1. destruct c; simpl. intros [?|[? ?]]; done.
Qed.

(** A data packet carries the bytes read. *)
Lemma payload_data p bs rest :
  0 <= zlen bs < 2 ^ 32 ->
  payload (set_len (set_op (mkPacket (hdr p) (Some (bs ++ rest))) VSOCK_OP_RW) (as_u32 (zlen bs))) = bs.
Proof.
  intros Hl. destruct p as [[] ?]. unfold payload, as_u32. cbn. rewrite Z.mod_small by done.
  by apply ztake_app.
Qed.

Lemma mod_u32 x : in_u32 (x mod 2 ^ 32).
Proof. pose proof (Z.mod_pos_bound x (2 ^ 32) eq_refl). ulia. Qed.

Lemma upd_rx_cnt_same c : in_u32 (c_rx_cnt c) -> upd_rx_cnt c (wadd (c_rx_cnt c) 0) = c.
Proof. intros Hu. unfold wadd. rewrite Z.add_0_r, Z.mod_small by ulia. by destruct c. Qed.

Lemma inv_recv_read s0 acc out c pkt now :
  conn_inv s0 acc out c -> rst_sent out = false -> pkt_len pkt = 0 ->
  prx_contains (c_pending_rx c) Rst = false -> prx_contains (c_pending_rx c) Response = false ->
  prx_contains (c_pending_rx c) Request = false -> prx_contains (c_pending_rx c) Rw = false ->
  recv_inv s0 acc out (recv_read c pkt now).
Proof.
  intros Hi Ho Hpl E1 E2 E3 E4. pose proof (inv_not_over _ _ _ _ Hi Ho E1) as Hno.
  pose proof (ci_base _ _ _ _ Hi) as Hb. unfold recv_read.
  destruct (need_credit_update_from_peer c).
  { apply inv_emit; [by apply base_last|by apply payload_op| |right; by destruct c].
    intros _. by rewrite needs_last. }
  destruct (buf pkt) as [b|]; [|simpl; by rewrite app_nil_r].
  pose proof (zlen_nonneg b).
  assert (Hcr : 0 <= peer_avail_credit c < 2 ^ 32) by (apply Z.mod_pos_bound; done).
  destruct (stream_read (c_stream c) (Z.min (zlen b) (peer_avail_credit c))) as [[bs|e] s] eqn:Er.
  - apply read_ok in Er as (Hl & Hr & Hs); [|lia]. pose proof (zlen_nonneg bs).
    destruct (Z.eqb_spec (zlen bs) 0) as [E0|E0].
    + assert (bs = []) as -> by (apply zlen_nil_inv; lia). rewrite app_nil_r in Hs.
      set (x := Some (now + _)). set (p' := set_flag _ _).
      replace (pkt_len p') with 0 by (subst p'; destruct pkt as [[] ?]; done).
      rewrite upd_rx_cnt_same.
      2: { replace (c_rx_cnt _) with (c_rx_cnt c) by (by destruct c). rewrite (cb_rx _ _ _ _ Hb).
        apply mod_u32. }
      apply inv_closed; [by apply inv_read|destruct c; naive_solver| |by destruct c].
      subst p'. destruct pkt as [[] ?]. done.
    + replace (pkt_len _) with (as_u32 (zlen bs)) by (destruct pkt as [[] ?]; done).
      replace (c_rx_cnt (upd_stream c s)) with (c_rx_cnt c) by (by destruct c).
      apply inv_data; auto. apply payload_data. lia.
  - destruct (read_err _ _ _ _ Er) as (Hr & Hs).
    pose proof (inv_read _ _ _ _ s Hi Hr Hs) as Hi'.
    destruct e; [apply inv_recv_credit; auto; by destruct c|].
    apply inv_emit; [apply base_last, Hi'|by apply payload_op| |left; apply op_set_op].
    intros _. by rewrite needs_last.
Qed.

Lemma inv_without_rw s0 acc out c : conn_inv s0 acc out c -> conn_inv s0 acc out (without c Rw).
Proof.
  intros [Hb Hc Hr]. pose proof (cb_pending _ _ _ _ Hb). split; [by apply base_without|..]; intros ? ?;
    rewrite without_pending, pending_contains_remove by done; destruct c; by auto.
Qed.

Lemma inv_recv s0 acc out c pkt now :
  conn_inv s0 acc out c -> rst_sent out = false -> recv_inv s0 acc out (recv_pkt c pkt now).
Proof.
  intros Hi Ho. pose proof (ci_base _ _ _ _ Hi) as Hb. pose proof (cb_pending _ _ _ _ Hb) as Hp.
  rewrite recv_pkt_cases by done. cbv zeta. set (q := init_pkt c pkt).
  destruct (prx_contains (c_pending_rx c) Rst) eqn:E1.
  { apply inv_emit; [by apply base_without|by apply payload_op| |left; apply op_set_op].
    intros. rewrite without_pending, pending_contains_remove by done. simpl.
    destruct c. by apply Hi. }
  pose proof (inv_not_over _ _ _ _ Hi Ho E1) as Hno.
  destruct (prx_contains (c_pending_rx c) Response) eqn:E2.
  { assert (Hst : c_state c = PeerInit) by (destruct (cb_response _ _ _ _ Hb E2); [done|tauto]).
    assert (Hr : prx_contains (c_pending_rx (without c Response)) Response = false)
      by (by rewrite without_pending, pending_contains_remove).
    apply inv_emit; [|by apply payload_op| |right; destruct c; intros [?|[? ?]]; done].
    - apply base_state; [by apply base_without|destruct c; simpl in *; congruence|done..|congruence].
    - intros _. rewrite needs_same; [done|].
      destruct (cb_early _ _ _ _ Hb (or_intror Hst)) as [Hf _]. by destruct c. }
  destruct (prx_contains (c_pending_rx c) Request) eqn:E3.
  { apply inv_emit; [by apply base_expiry, base_without|by apply payload_op| |right; by destruct c].
    intros. replace (c_pending_rx _) with (c_pending_rx (without c Request)) by (by destruct c).
    rewrite without_pending, pending_contains_remove by done. destruct c. by apply Hi. }
  destruct (prx_contains (c_pending_rx c) Rw) eqn:E4; [|by apply inv_recv_credit].
  pose proof (inv_without_rw _ _ _ _ Hi) as Hi'.
  assert (Hq : forall it, it <> Rw -> prx_contains (c_pending_rx (without c Rw)) it =
    prx_contains (c_pending_rx c) it).
  { intros it Hit. rewrite without_pending, pending_contains_remove by done.
    rewrite bool_decide_eq_false_2; [done|congruence]. }
  unfold recv_rw. assert (Hst : c_state (without c Rw) = c_state c) by (by destruct c).
  rewrite Hst.
  assert (Hread : recv_inv s0 acc out (recv_read (without c Rw) q now)).
  { apply inv_recv_read; [done..|by rewrite Hq|by rewrite Hq|by rewrite Hq|].
    by rewrite without_pending, pending_contains_remove. }
  assert (Hrst : recv_inv s0 acc out (Ok tt, without c Rw, set_op q VSOCK_OP_RST)).
  { apply inv_emit; [apply Hi'|by apply payload_op|apply Hi'|left; apply op_set_op]. }
  by destruct (c_state c) as [| | | |[] ?|].
Qed.

(** ** Runs *)

Lemma step_inv s0 acc out c ev :
  conn_inv s0 acc out c -> rst_sent out = false -> ev_valid ev ->
  exists c' o, conn_step c ev = Ret (c', o) /\
    conn_inv s0 (acc ++ accepted c ev) (out ++ option_list o) c'.
Proof.
  intros Hi Ho Hv. destruct ev as [pkt now|pkt now|evset|]; simpl.
  - destruct (inv_send s0 acc out c pkt now Hi Hv) as (c' & -> & Hi'). cbn [obind].
    exists c', None. by rewrite app_nil_r.
  - pose proof (inv_recv s0 acc out c pkt now Hi Ho) as Hr. unfold recv_inv in Hr.
    destruct (recv_pkt c pkt now) as [[[[]|e] c'] p]; [exists c', (Some p) | exists c', None];
      (split; [done|]); rewrite ?app_nil_r in *; done.
  - destruct (inv_notify s0 acc out c evset Hi) as (c' & -> & Hi').
    exists c', None. by rewrite !app_nil_r.
  - exists (kill c), None. rewrite !app_nil_r. split; [done|by apply inv_kill].
Qed.

Lemma reach_inv ok c0 c acc out :
  conn_init c0 -> conn_reach ok c0 c acc out -> conn_inv (c_stream c0) acc out c.
Proof.
  intros Hi. induction 1 as [|c acc out ev c' o _ IH Ho Hv _ Hstep]; [by apply conn_init_inv|].
  destruct (step_inv _ _ _ _ _ IH Ho Hv) as (c'' & o' & E & Hi'). rewrite Hstep in E.
  by injection E as <- <-.
Qed.
End Spec.
