(* ===== verification/VsockConnectionProps.v ===== *)
(** The promises of a vsock connection, for every sequence of packets from the
    guest, receive calls, stream events and kills: data integrity, scheduling,
    the packets it yields, both directions of flow control and the connection
    states. *)

From S2P Require Import Prelude VsockStream TxBuf VsockPacket VsockConnection.
From S2P Require Import VsockConnectionSpec.

(** No condition on the events. *)
Definition any_event {S} : VsockConnection S -> bytes -> list VsockPacket -> conn_event -> Prop :=
  fun _ _ _ _ => True.

(** ** A connection to evaluate on *)

(** A host that takes two bytes, then would block once. *)
Definition ex_stream : Script := mkScript [2; -1] [[1; 2; 3]] [] [].
Definition ex_conn : VsockConnection Script := new_peer_init ex_stream 2 3 52 1024 8.

Definition ex_pkt (o len alloc : Z) (b : option bytes) : VsockPacket :=
  mkPacket (mkHdr 3 2 1024 52 len 1 o 0 alloc 0) b.

Definition ex_rx : VsockPacket := mkPacket Hdr_zero (Some [0; 0; 0; 0]).

(** The handshake, two bytes from the guest, a notification and a data packet. *)
Definition ex_events : list conn_event :=
  [EvRecv ex_rx 0; EvSend (ex_pkt VSOCK_OP_RW 2 8 (Some [7; 8; 9])) 0;
   EvNotify (mkEvents true false); EvRecv ex_rx 5].

Definition ex_step (st : VsockConnection Script * bytes * list VsockPacket) (ev : conn_event) :
  VsockConnection Script * bytes * list VsockPacket :=
  let '(c, acc, out) := st in
  match conn_step c ev with
  | Ret (c', o) => (c', acc ++ accepted c ev, out ++ option_list o)
  | Panic => st
  end.

Definition ex_run : VsockConnection Script * bytes * list VsockPacket :=
  foldl ex_step (ex_conn, [], []) ex_events.

Lemma ex_conn_init : conn_init ex_conn.
Proof. left. do 6 eexists. split; [|done]. split; vm_compute; done. Qed.

Lemma ex_reach ok :
  Forall (fun x => x)
    (imap (fun i ev => let '(c, acc, out) := foldl ex_step (ex_conn, [], []) (take i ex_events) in
       ok c acc out ev) ex_events) ->
  conn_reach ok ex_conn ex_run.1.1 ex_run.1.2 ex_run.2.
Proof.
  intros Hok. inversion_clear Hok as [|? ? O1 Hok1]. inversion_clear Hok1 as [|? ? O2 Hok2].
  inversion_clear Hok2 as [|? ? O3 Hok3]. inversion_clear Hok3 as [|? ? O4 _].
  pose proof (reach_init ok ex_conn) as R0.
  pose proof (reach_step ok ex_conn _ _ _ (EvRecv ex_rx 0) _ _ R0 eq_refl I O1 eq_refl) as R1.
  assert (V : ev_valid (EvSend (ex_pkt VSOCK_OP_RW 2 8 (Some [7; 8; 9])) 0)).
  { split; [|done]. split_and!; vm_compute; split; done. }
  pose proof (reach_step ok ex_conn _ _ _ _ _ _ R1 eq_refl V O2 eq_refl) as R2.
  pose proof (reach_step ok ex_conn _ _ _ (EvNotify (mkEvents true false)) _ _ R2 eq_refl I O3 eq_refl) as R3.
  exact (reach_step ok ex_conn _ _ _ (EvRecv ex_rx 5) _ _ R3 eq_refl I O4 eq_refl).
Qed.

(** ** The packets of [recv_pkt] *)

Section Recv.
Context {S : Type} `{StreamLaws S}.
Implicit Types c : VsockConnection S.
Implicit Types p pkt : VsockPacket.

(** A header that names the connection [c] and reports its credit. *)
Definition header_of c p : Prop :=
  src_cid p = c_local_cid c /\ dst_cid p = c_peer_cid c /\ src_port p = c_local_port c /\
  dst_port p = c_peer_port c /\ type_ p = VSOCK_TYPE_STREAM /\ buf_alloc p = CONN_TX_BUF_SIZE /\
  fwd_cnt p = c_fwd_cnt c.

Lemma header_init c pkt : header_of c (init_pkt c pkt).
Proof. by destruct pkt as [[] ?]. Qed.

Lemma header_op c p x : header_of c p -> header_of c (set_op p x).
Proof. by destruct p as [[] ?]. Qed.

Definition can_recv (st : ConnState) : bool :=
  match st with Established | PeerClosed false _ => true | _ => false end.

(** The data a result carries. *)
Definition result_data (r : result unit VsockError) p : bytes :=
  match r with Ok _ => payload p | Err _ => [] end.

(** The result [res] of a receive on [c]: its packet names [c], it carries data
    only in a state that allows it and never more than the guest's credit and
    the buffer, the data is counted, and the rest of [c] is as before. *)
Definition recv_ok c pkt (res : result unit VsockError * VsockConnection S * VsockPacket) : Prop :=
  let '(r, c', p) := res in
  header_of c p /\
  (r = Ok tt -> op p = VSOCK_OP_RW -> result_data r p <> []) /\
  (result_data r p <> [] -> can_recv (c_state c) = true /\
     zlen (result_data r p) <= peer_avail_credit c /\
     exists b, buf pkt = Some b /\ zlen (result_data r p) <= zlen b) /\
  c_rx_cnt c' = (c_rx_cnt c + zlen (result_data r p)) mod 2 ^ 32 /\
  c_peer_buf_alloc c' = c_peer_buf_alloc c /\ c_peer_fwd_cnt c' = c_peer_fwd_cnt c /\
  c_tx_buf c' = c_tx_buf c /\ received (c_stream c') = received (c_stream c) /\
  (c_state c' = Killed -> c_state c = Killed).

(** A result without data. *)
Lemma recv_ok_nodata c c' pkt p r :
  header_of c p -> in_u32 (c_rx_cnt c) -> result_data r p = [] -> (r = Ok tt -> op p <> VSOCK_OP_RW) ->
  c_rx_cnt c' = c_rx_cnt c -> c_peer_buf_alloc c' = c_peer_buf_alloc c ->
  c_peer_fwd_cnt c' = c_peer_fwd_cnt c -> c_tx_buf c' = c_tx_buf c ->
  received (c_stream c') = received (c_stream c) -> (c_state c' = Killed -> c_state c = Killed) ->
  recv_ok c pkt (r, c', p).
Proof.
  intros Hh Hu Hd Hop Hx ? ? ? ? ?. unfold recv_ok. rewrite Hd, Hx.
  change (zlen (@nil Z)) with 0. rewrite Z.add_0_r, Z.mod_small by ulia.
  split_and!; auto; [|done]. intros Hr Ho. by apply Hop in Hr.
Qed.

Lemma recv_ok_op c c' pkt p x :
  header_of c p -> in_u32 (c_rx_cnt c) -> x <> VSOCK_OP_RW ->
  c_rx_cnt c' = c_rx_cnt c -> c_peer_buf_alloc c' = c_peer_buf_alloc c ->
  c_peer_fwd_cnt c' = c_peer_fwd_cnt c -> c_tx_buf c' = c_tx_buf c ->
  received (c_stream c') = received (c_stream c) -> (c_state c' = Killed -> c_state c = Killed) ->
  recv_ok c pkt (Ok tt, c', set_op p x).
Proof.
  intros. apply recv_ok_nodata; auto; [by apply header_op|by apply payload_op|].
  intros _. by rewrite op_set_op.
Qed.

Lemma recv_ok_err c c' pkt p e :
  header_of c p -> in_u32 (c_rx_cnt c) ->
  c_rx_cnt c' = c_rx_cnt c -> c_peer_buf_alloc c' = c_peer_buf_alloc c ->
  c_peer_fwd_cnt c' = c_peer_fwd_cnt c -> c_tx_buf c' = c_tx_buf c ->
  received (c_stream c') = received (c_stream c) -> (c_state c' = Killed -> c_state c = Killed) ->
  recv_ok c pkt (Err e, c', p).
Proof. intros. by apply recv_ok_nodata. Qed.

(** [c1] is [c] with another stream and pending set. *)
Lemma recv_credit_ok c s q pkt p :
  header_of c p -> in_u32 (c_rx_cnt c) -> received s = received (c_stream c) ->
  recv_ok c pkt (recv_credit_update (upd_stream (upd_pending c q) s) p).
Proof.
  intros Hh Hu Hs. unfold recv_credit_update. destruct (prx_remove _ _) as [had q'].
  destruct (had && _); [apply recv_ok_op | apply recv_ok_err]; by destruct c.
Qed.

Lemma recv_read_ok c q pkt p now :
  header_of c p -> in_u32 (c_rx_cnt c) -> can_recv (c_state c) = true ->
  buf p = buf pkt -> pkt_len p = 0 ->
  recv_ok c pkt (recv_read (upd_pending c q) p now).
Proof.
  intros Hh Hu Hst Hbuf Hlen. unfold recv_read.
  replace (need_credit_update_from_peer (upd_pending c q)) with (need_credit_update_from_peer c)
    by (by destruct c).
  replace (peer_avail_credit (upd_pending c q)) with (peer_avail_credit c) by (by destruct c).
  replace (c_stream (upd_pending c q)) with (c_stream c) by (by destruct c).
  destruct (need_credit_update_from_peer c); [apply recv_ok_op; by destruct c|].
  destruct (buf p) as [b|] eqn:Eb; [|apply recv_ok_err; by destruct c].
  pose proof (zlen_nonneg b).
  assert (Hcr : 0 <= peer_avail_credit c < 2 ^ 32) by (apply Z.mod_pos_bound; done).
  destruct (stream_read (c_stream c) _) as [[bs|e] s] eqn:Er.
  - apply read_ok in Er as (Hl & Hr & _); [|lia]. pose proof (zlen_nonneg bs).
    destruct (Z.eqb_spec (zlen bs) 0) as [E0|E0].
    + set (p' := set_flag _ _). assert (Hl' : pkt_len p' = 0) by (subst p'; by destruct p as [[] ?]).
      assert (Hop : op p' = VSOCK_OP_SHUTDOWN) by (subst p'; by destruct p as [[] ?]).
      apply recv_ok_nodata; auto; try (by destruct c).
      * subst p'. by destruct p as [[] ?].
      * unfold result_data, payload. by rewrite Hop.
      * intros _. by rewrite Hop.
      * rewrite Hl'. unfold wadd. destruct c; simpl in *. rewrite Z.add_0_r. apply Z.mod_small. ulia.
    + assert (Hd := payload_data p bs (zdrop (zlen bs) b) ltac:(lia)).
      unfold recv_ok, result_data. rewrite Hd. split_and!; try (by destruct c).
      * by destruct p as [[] ?].
      * intros _ _ ->. done.
      * intros _. split_and!; [done|lia|]. exists b. split; [congruence|lia].
      * replace (pkt_len _) with (as_u32 (zlen bs)) by (by destruct p as [[] ?]).
        rewrite wadd_as_u32. by destruct c.
  - destruct (read_err _ _ _ _ Er) as (Hr & _).
    destruct e; [by apply recv_credit_ok|]. apply recv_ok_op; by destruct c.
Qed.

Lemma recv_pkt_ok c pkt now :
  pending_ok (c_pending_rx c) -> in_u32 (c_rx_cnt c) -> recv_ok c pkt (recv_pkt c pkt now).
Proof.
  intros Hp Hu. rewrite recv_pkt_cases by done. cbv zeta. pose proof (header_init c pkt) as Hh.
  destruct (prx_contains (c_pending_rx c) Rst); [apply recv_ok_op; by destruct c|].
  destruct (prx_contains (c_pending_rx c) Response); [apply recv_ok_op; by destruct c|].
  destruct (prx_contains (c_pending_rx c) Request); [apply recv_ok_op; by destruct c|].
  destruct (prx_contains (c_pending_rx c) Rw).
  - unfold recv_rw. replace (c_state (without c Rw)) with (c_state c) by (by destruct c).
    destruct (c_state c) as [| | | |[] ?|] eqn:Est; try (apply recv_ok_op; by destruct c).
    all: apply recv_read_ok; auto; by rewrite Est.
  - pose proof (recv_credit_ok c (c_stream c) (c_pending_rx c) pkt _ Hh Hu eq_refl) as R.
    rewrite upd_pending_same in R. by replace (upd_stream c (c_stream c)) with c in R by (by destruct c).
Qed.

(** Reading fails only for want of a buffer or of data. *)
Lemma recv_read_err c q p now e c' p' :
  recv_read (upd_pending c q) p now = (Err e, c', p') ->
  buf p = None \/ exists n s', stream_read (c_stream c) n = (Err WouldBlock, s').
Proof.
  unfold recv_read. replace (c_stream (upd_pending c q)) with (c_stream c) by (by destruct c).
  destruct (need_credit_update_from_peer _); [done|]. destruct (buf p) as [b|]; [|by left].
  destruct (stream_read (c_stream c) _) as [[bs|[]] s] eqn:Er; [|by eauto|done].
  by destruct (zlen bs =? 0).
Qed.

(** With something pending, there is a packet, unless it would be a data packet
    and there is no buffer or no data for it. *)
Lemma recv_yields c pkt now r c' p :
  pending_ok (c_pending_rx c) -> recv_pkt c pkt now = (r, c', p) ->
  (has_pending_rx c = false -> r = Err NoData /\ c' = c) /\
  (has_pending_rx c = true -> r = Ok tt \/
     (prx_contains (c_pending_rx c) Rw = true /\
      (buf pkt = None \/ exists n s', stream_read (c_stream c) n = (Err WouldBlock, s')))).
Proof.
  intros Hp. rewrite recv_pkt_cases by done. cbv zeta. unfold has_pending_rx.
  rewrite (pending_empty _ Hp), negb_involutive.
  destruct (prx_contains (c_pending_rx c) Rst) eqn:E1; [intros [= <- <- <-]; split; [by rewrite !orb_true_r|by left]|].
  destruct (prx_contains (c_pending_rx c) Response) eqn:E2; [intros [= <- <- <-]; split; [by rewrite !orb_true_r|by left]|].
  destruct (prx_contains (c_pending_rx c) Request) eqn:E3; [intros [= <- <- <-]; split; [done|by left]|].
  destruct (prx_contains (c_pending_rx c) Rw) eqn:E4; simpl.
  - intros Hr. split; [done|intros _]. destruct r as [[]|e]; [by left|right]. split; [done|].
    unfold recv_rw in Hr. destruct (c_state (without c Rw)) as [| | | |[] ?|]; try done;
      by apply recv_read_err in Hr.
  - pose proof (pending_credit_only _ Hp E1 E2 E3 E4) as Hq. unfold recv_credit_update.
    destruct (prx_remove (c_pending_rx c) CreditUpdate) as [had q] eqn:Er.
    assert (Hhad : had = prx_contains (c_pending_rx c) CreditUpdate) by (by inversion Er).
    assert (Hqq : q = (prx_remove (c_pending_rx c) CreditUpdate).2) by (by rewrite Er).
    clear Er. destruct (prx_contains (c_pending_rx c) CreditUpdate) eqn:E5; subst had; simpl.
    + assert (q = 0) as -> by (rewrite Hqq, Hq; done).
      replace (has_pending_rx _) with false by (by destruct c). intros [= <- <- <-]. split; [done|by left].
    + rewrite Hqq, pending_remove_absent, upd_pending_same by done. by intros [= <- <- <-].
Qed.

(** [recv_pkt].  Every packet carries the connection's addresses, the
    buffer size and the current forwarded-bytes counter.  A pending RST comes
    first, then the connection response, which establishes the connection, then
    the connection request, which starts its timeout.  A data packet is never
    empty, is yielded only while the guest may receive, and never exceeds the
    guest's credit nor the packet's buffer.  When something is pending the call
    yields a packet, except that a data packet may lack a buffer or the stream
    may have no data; when nothing is, it is [NoData] with nothing changed. *)
Theorem recv_pkt_correct c pkt now r c' p :
  pending_ok (c_pending_rx c) -> in_u32 (c_rx_cnt c) -> recv_pkt c pkt now = (r, c', p) ->
  let pending := prx_contains (c_pending_rx c) in
  recv_ok c pkt (r, c', p) /\
  (pending Rst = true -> r = Ok tt /\ op p = VSOCK_OP_RST) /\
  (pending Rst = false -> pending Response = true ->
     r = Ok tt /\ op p = VSOCK_OP_RESPONSE /\ c_state c' = Established) /\
  (pending Rst = false -> pending Response = false -> pending Request = true ->
     r = Ok tt /\ op p = VSOCK_OP_REQUEST /\
     c_expiry c' = Some (now + millis CONN_REQUEST_TIMEOUT_MS)) /\
  (has_pending_rx c = true -> r = Ok tt \/
     (pending Rw = true /\
      (buf pkt = None \/ exists n s', stream_read (c_stream c) n = (Err WouldBlock, s')))) /\
  (has_pending_rx c = false -> r = Err NoData /\ c' = c).
Proof.
  intros Hp Hu Hr pending. subst pending. simpl.
  pose proof (recv_pkt_ok c pkt now Hp Hu) as Hok. rewrite Hr in Hok.
  destruct (recv_yields c pkt now r c' p Hp Hr) as [Hy1 Hy2].
  rewrite recv_pkt_cases in Hr by done. cbv zeta in Hr.
  split; [exact Hok|]. clear Hok. split_and!; [..|done|done].
  - intros E1. rewrite E1 in Hr. injection Hr as <- <- <-. by rewrite op_set_op.
  - intros E1 E2. rewrite E1, E2 in Hr. injection Hr as <- <- <-. rewrite op_set_op. by destruct c.
  - intros E1 E2 E3. rewrite E1, E2, E3 in Hr. injection Hr as <- <- <-.
    rewrite op_set_op. by destruct c.
Qed.
End Recv.

Lemma recv_pkt_correct_witness :
  exists r c' p, recv_pkt ex_conn ex_rx 7 = (r, c', p) /\ recv_ok ex_conn ex_rx (r, c', p).
Proof.
  do 3 eexists. split; [reflexivity|].
  apply (recv_pkt_correct ex_conn ex_rx 7); [split; by vm_compute|split; by vm_compute|reflexivity].
Defined.

(** ** Flow control towards the guest *)

Section Credit.
Context {S : Type} `{StreamLaws S}.
Implicit Types c : VsockConnection S.

(** The bytes sent and the guest's credit. *)
Definition credit c : Z * Z * Z := (c_rx_cnt c, c_peer_buf_alloc c, c_peer_fwd_cnt c).

Lemma send_bytes_credit c b r c' : send_bytes c b = Ret (r, c') -> credit c' = credit c.
Proof. intros (s & t & f & ->)%send_bytes_frame. by destruct c. Qed.

Lemma send_rw_credit c pkt c' : send_rw c pkt = Ret c' -> credit c' = credit c.
Proof.
  unfold send_rw. destruct (buf pkt) as [b|]; [|by intros [= <-]]. intros E. bind_inv E. bind_inv E.
  destruct a0 as [r c1]. apply send_bytes_credit in Ha0. rewrite <- Ha0.
  destruct r; injection E as <-; [destruct (peer_needs_credit_update c1)|]; by destruct c1.
Qed.

Lemma send_pkt_credit c pkt now r c' :
  send_pkt c pkt now = Ret (r, c') -> credit c' = (c_rx_cnt c, buf_alloc pkt, fwd_cnt pkt).
Proof.
  intros E. unfold send_pkt in E. bind_inv E. injection E as <- <-.
  replace (c_rx_cnt c, buf_alloc pkt, fwd_cnt pkt)
    with (credit (upd_peer_credit c (buf_alloc pkt) (fwd_cnt pkt))) by (by destruct c).
  set (c1 := upd_peer_credit _ _ _) in *. clearbody c1.
  destruct (_ && (op pkt =? VSOCK_OP_RW)); [by apply send_rw_credit in Ha|].
  repeat case_hyp Ha; injection Ha as <-; by destruct c1.
Qed.

Lemma notify_credit c ev c' : notify c ev = Ret c' -> credit c' = credit c.
Proof.
  unfold notify. replace (credit c) with (credit (if EPOLLIN ev then pend c Rw else c))
    by (by destruct (EPOLLIN ev), c).
  set (c1 := if EPOLLIN ev then _ else _). clearbody c1. intros E.
  destruct (EPOLLOUT ev); [|by injection E as <-]. destruct (TxBuf_is_empty _); [by injection E as <-|].
  bind_inv E. destruct a as [[r b] s]. destruct c1.
  destruct r as [n|[|[]|]]; injection E as <-; simpl; by repeat case_match.
Qed.

(** The guest never claims to have consumed what it was not sent, and keeps room
    for what is under way. *)
Definition honest_guest c (acc : bytes) (out : list VsockPacket) (ev : conn_event) : Prop :=
  match ev with
  | EvSend pkt _ => wsub (c_rx_cnt c) (fwd_cnt pkt) <= buf_alloc pkt
  | _ => True
  end.

Definition within_credit (cr : Z * Z * Z) : Prop := 
  let '(rx, alloc, fwd) := cr in in_u32 alloc /\ wsub rx fwd <= alloc.

Lemma credit_arith rx alloc fwd n :
  in_u32 alloc -> 0 <= n -> wsub rx fwd <= alloc -> n <= wsub alloc (wsub rx fwd) ->
  wsub ((rx + n) mod 2 ^ 32) fwd <= alloc.
Proof.
  intros Ha Hn Hw Hc. pose proof (Z.mod_pos_bound (rx - fwd) (2 ^ 32) eq_refl) as Hm.
  unfold wsub in *. rewrite Z.mod_small in Hc by ulia. rewrite Zminus_mod_idemp_l.
  replace (rx + n - fwd) with (rx - fwd + n) by lia. rewrite <- Z.add_mod_idemp_l by done.
  rewrite Z.mod_small; ulia.
Qed.

Lemma step_credit c0 c acc out ev c' o :
  conn_inv (c_stream c0) acc out c -> rst_sent out = false -> honest_guest c acc out ev -> ev_valid ev ->
  conn_step c ev = Ret (c', o) -> within_credit (credit c) -> within_credit (credit c').
Proof.
  intros Hi Ho Hh Hv Hs Hw. destruct ev as [pkt now|pkt now|evset|]; simpl in Hs.
  - bind_inv Hs. destruct a as [r c1]. injection Hs as <- <-. apply send_pkt_credit in Ha as ->.
    split; [apply Hv|done].
  - destruct Hi as [Hb _ _].
    assert (Hu : in_u32 (c_rx_cnt c)) by (rewrite (cb_rx _ _ _ _ Hb); apply mod_u32).
    pose proof (recv_pkt_ok c pkt now (cb_pending _ _ _ _ Hb) Hu) as Hok.
    destruct (recv_pkt c pkt now) as [[r c1] p].
    assert (c' = c1) as -> by (destruct r; by injection Hs). clear Hs.
    destruct Hok as (_ & _ & Hd & Hrx & Hal & Hf & _). unfold credit, within_credit in *.
    rewrite Hrx, Hal, Hf. destruct Hw as [Ha Hw]. split; [done|].
    apply credit_arith; [done|apply zlen_nonneg|done|].
    destruct (decide (result_data r p = [])) as [->|Hne]; [|by apply Hd].
    apply Z.mod_pos_bound. done.
  - bind_inv Hs. injection Hs as <- <-. by apply notify_credit in Ha as ->.
  - injection Hs as <- <-. by destruct c.
Qed.
End Credit.

(** ** Flow control towards the host *)

Section Compliant.
Context {S : Type} `{StreamLaws S}.
Implicit Types c : VsockConnection S.

(** The host stream fails only by asking to try again. *)
Definition steady_stream : Prop :=
  forall (s : S) buf e s', stream_write s buf = (Err e, s') -> e = WouldBlock.

(** The counter the guest saw last. *)
Definition last_seen (out : list VsockPacket) : Z := from_option fwd_cnt 0 (last out).

(** The guest's own accounting ([acc] is what it has sent): it sends data only
    within the 64 KiB it was promised. *)
Definition compliant_guest c (acc : bytes) (out : list VsockPacket) (ev : conn_event) : Prop :=
  match ev with
  | EvSend pkt _ =>
      wsub (zlen acc mod 2 ^ 32) (last_seen out) + zlen (accepted c ev) <= CONN_TX_BUF_SIZE
  | EvKill => False
  | _ => True
  end.

(** A step that neither kills the connection nor takes back bytes. *)
Definition alive_step c c' : Prop :=
  c_state c' <> Killed /\ received (c_stream c) `prefix_of` received (c_stream c').

Lemma alive_same c c' :
  c_state c' <> Killed -> c_stream c' = c_stream c -> alive_step c c'.
Proof. intros ? E. split; [done|]. by rewrite E. Qed.

Lemma send_rw_alive c pkt c' :
  steady_stream -> txbuf_wf (c_tx_buf c) -> in_u32 (c_fwd_cnt c) -> c_state c <> Killed ->
  in_u32 (pkt_len pkt) -> op pkt = VSOCK_OP_RW ->
  zlen (contents (c_tx_buf c)) + zlen (payload pkt) <= TxBuf_SIZE ->
  send_rw c pkt = Ret c' -> alive_step c c'.
Proof.
  intros Hst Hwf Hu Hk Hl Hop Hfit Hs. unfold send_rw, payload in *. rewrite Hop in Hfit.
  destruct (buf pkt) as [b|]; [|injection Hs as <-; by apply alive_same].
  bind_inv Hs. unfold slice in Ha. case_hyp Ha; [|done]. injection Ha as <-.
  rewrite zdrop_0, Z.sub_0_r in Hs. simpl in Hfit.
  destruct (send_bytes_ok c (ztake (pkt_len pkt) b) Hwf Hu)
    as (r & s & b' & f & kept & lost & Eq & _ & (_ & _ & Hpre & _) & Hr).
  rewrite Eq in Hs. cbn [obind] in Hs.
  destruct r as [[]|[| |e]]; [|unfold TxBuf_SIZE in *; lia|done|].
  - injection Hs as <-. unfold alive_step. destruct (peer_needs_credit_update _); by destruct c.
  - destruct Hr as (Hwb & s1 & b1 & s2 & Hw). by rewrite (Hst _ _ _ _ Hw) in Hwb.
Qed.

Lemma send_pkt_alive c pkt now r c' :
  steady_stream -> txbuf_wf (c_tx_buf c) -> in_u32 (c_fwd_cnt c) -> c_state c <> Killed ->
  in_u32 (pkt_len pkt) ->
  zlen (contents (c_tx_buf c)) + zlen (accepted c (EvSend pkt now)) <= TxBuf_SIZE ->
  send_pkt c pkt now = Ret (r, c') -> alive_step c c'.
Proof.
  intros Hst Hwf Hu Hk Hl Hfit E. unfold send_pkt in E. bind_inv E. injection E as <- <-.
  unfold accepted in Hfit.
  enough (alive_step (upd_peer_credit c (buf_alloc pkt) (fwd_cnt pkt)) a) as Ha' by (by destruct c).
  assert (Hst' : c_state (upd_peer_credit c (buf_alloc pkt) (fwd_cnt pkt)) = c_state c) by (by destruct c).
  rewrite Hst' in Ha. fold (can_send (c_state c)) in Ha.
  destruct (can_send (c_state c) && (op pkt =? VSOCK_OP_RW)) eqn:Eop.
  - bools. rewrite H1 in Hfit. apply (send_rw_alive _ pkt); auto; by destruct c.
  - set (c1 := upd_peer_credit _ _ _) in *. clearbody c1.
    repeat case_hyp Ha; injection Ha as <-; apply alive_same; destruct c1; simpl in *; congruence.
Qed.

Lemma flush_err fuel b s e b' s' :
  flush_to_fuel fuel b s = Ret (Err (TxBufFlush e), b', s') ->
  exists s1 buf s2, stream_write s1 buf = (Err e, s2).
Proof.
  destruct fuel; [done|]. simpl. destruct (TxBuf_is_empty b); [done|]. intros E. bind_inv E. bind_inv E.
  destruct (stream_write s a0) as [[w|k] s1] eqn:Ew.
  - destruct (w <? _); [done|]. bind_inv E. by destruct a1 as [[? ?] ?].
  - injection E as -> <- <-. eauto.
Qed.

Lemma notify_alive c ev c' :
  steady_stream -> txbuf_wf (c_tx_buf c) -> c_state c <> Killed ->
  notify c ev = Ret c' -> alive_step c c'.
Proof.
  intros Hst Hwf Hk E. unfold notify in E.
  set (c1 := if EPOLLIN ev then pend c Rw else c) in *.
  assert (Hc1 : c_state c1 = c_state c /\ c_stream c1 = c_stream c /\ c_tx_buf c1 = c_tx_buf c)
    by (subst c1; by destruct (EPOLLIN ev), c).
  clearbody c1. destruct Hc1 as (E1 & E2 & E3). unfold alive_step. rewrite <- E2. clear E2.
  destruct (EPOLLOUT ev); [|injection E as <-; by rewrite E1].
  destruct (TxBuf_is_empty _); [injection E as <-; by rewrite E1|].
  bind_inv E. destruct a as [[r b] s]. rewrite E3 in Ha.
  destruct (flush_to_ok (c_tx_buf c) (c_stream c1) Hwf) as (r' & b' & s' & fl & Ef & _ & Hfl).
  unfold TxBuf_flush_to in Ha. rewrite Ef in Ha. injection Ha as -> -> ->.
  destruct Hfl as (_ & Hrec & _ & Hr & _).
  assert (Hpre : received (c_stream c1) `prefix_of` received s) by (rewrite Hrec; by apply prefix_app_r).
  enough (c_state c' = c_state c1 /\ c_stream c' = s) as [-> ->] by (by rewrite E1).
  destruct r as [n|e].
  - injection E as <-. destruct c1; simpl. by repeat case_match.
  - destruct Hr as (_ & k & ->). apply flush_err in Ef as (s1 & b1 & s2 & Hw).
    apply Hst in Hw as ->. injection E as <-. destruct c1; simpl. by repeat case_match.
Qed.

Lemma recv_alive c pkt now :
  pending_ok (c_pending_rx c) -> in_u32 (c_rx_cnt c) -> c_state c <> Killed ->
  let '(_, c', p) := recv_pkt c pkt now in
  alive_step c c' /\ received (c_stream c') = received (c_stream c) /\ fwd_cnt p = c_fwd_cnt c.
Proof.
  intros Hp Hu Hk. pose proof (recv_pkt_ok c pkt now Hp Hu) as Hok.
  destruct (recv_pkt c pkt now) as [[r c'] p].
  destruct Hok as ((_ & _ & _ & _ & _ & _ & Hf) & _ & _ & _ & _ & _ & _ & Hr & Hkill).
  split_and!; [|done..]. split; [naive_solver|by rewrite Hr].
Qed.

(** [seen] is the guest's last seen counter before it is reduced modulo [2 ^ 32]. *)
Definition compliant_inv (s0 : S) c (acc : bytes) (out : list VsockPacket) : Prop :=
  c_state c <> Killed /\
  exists seen, last_seen out = seen mod 2 ^ 32 /\ 0 <= seen /\
    seen <= zlen (received (c_stream c)) - zlen (received s0) /\
    zlen acc - seen <= CONN_TX_BUF_SIZE.

Lemma prefix_zlen (x y : bytes) : x `prefix_of` y -> zlen x <= zlen y.
Proof. intros [k ->]. rewrite zlen_app. pose proof (zlen_nonneg k). lia. Qed.

(** What is buffered is what was accepted and not yet taken by the stream. *)
Lemma buffered s0 acc out c :
  conn_base s0 acc out c -> c_state c <> Killed ->
  zlen (contents (c_tx_buf c)) = zlen acc - (zlen (received (c_stream c)) - zlen (received s0)) /\
  zlen (contents (c_tx_buf c)) <= CONN_TX_BUF_SIZE.
Proof.
  intros Hb Hk. destruct (cb_data _ _ _ _ Hb) as (lost & Hd & Hl). rewrite Hl, app_nil_r in Hd by done.
  apply (f_equal zlen) in Hd. rewrite !zlen_app in Hd. split; [lia|].
  rewrite contents_len by apply Hb. apply Hb.
Qed.

(** The bytes accepted by [ev] fit, and the guest's view stays within bounds. *)
Lemma compliant_alive s0 acc out c c' ev seen :
  conn_base s0 acc out c -> alive_step c c' -> last_seen out = seen mod 2 ^ 32 -> 0 <= seen ->
  seen <= zlen (received (c_stream c)) - zlen (received s0) ->
  zlen acc + zlen (accepted c ev) - seen <= CONN_TX_BUF_SIZE ->
  compliant_inv s0 c' (acc ++ accepted c ev) out.
Proof.
  intros Hb [Hk Hpre] Hseen H0s Hle Hfit. split; [done|]. exists seen. apply prefix_zlen in Hpre.
  rewrite zlen_app. split_and!; [done..|lia|lia].
Qed.

Lemma step_compliant s0 acc out c ev c' o :
  steady_stream -> conn_inv s0 acc out c -> rst_sent out = false -> ev_valid ev ->
  compliant_guest c acc out ev -> compliant_inv s0 c acc out -> conn_step c ev = Ret (c', o) ->
  compliant_inv s0 c' (acc ++ accepted c ev) (out ++ option_list o).
Proof.
  intros Hst [Hb _ _] Ho Hv Hok (Hk & seen & Hseen & H0s & Hle & Hacc) Hs.
  destruct (buffered _ _ _ _ Hb Hk) as [Hbuf Hcap]. pose proof (zlen_nonneg (contents (c_tx_buf c))).
  destruct ev as [pkt now|pkt now|evset|]; [..|done].
  - cbn [conn_step] in Hs. bind_inv Hs. destruct a as [r c1]. injection Hs as <- <-.
    simpl (option_list _). rewrite app_nil_r. unfold compliant_guest in Hok.
    rewrite Hseen in Hok. unfold wsub in Hok. rewrite <- Zminus_mod, Z.mod_small in Hok
      by (unfold CONN_TX_BUF_SIZE in *; ulia).
    eapply compliant_alive; eauto; [|lia].
    eapply send_pkt_alive; eauto; [apply Hb|by eapply fwd_u32|apply Hv|]. unfold TxBuf_SIZE. lia.
  - cbn [conn_step] in Hs.
    assert (Hu : in_u32 (c_rx_cnt c)) by (rewrite (cb_rx _ _ _ _ Hb); apply mod_u32).
    pose proof (recv_alive c pkt now (cb_pending _ _ _ _ Hb) Hu Hk) as Hal.
    destruct (recv_pkt c pkt now) as [[r c1] p]. destruct Hal as (Hal & Hr & Hf).
    destruct r; injection Hs as <- <-; simpl (option_list _).
    + rewrite app_nil_r. split; [apply Hal|].
      exists (zlen (received (c_stream c)) - zlen (received s0)). rewrite Hr.
      unfold last_seen. rewrite last_snoc. simpl. rewrite Hf, (cb_fwd _ _ _ _ Hb). split_and!; lia.
    + rewrite (app_nil_r out). eapply (compliant_alive _ _ _ _ _ (EvRecv pkt now)); eauto.
      change (zlen (accepted c (EvRecv pkt now))) with 0. lia.
  - cbn [conn_step] in Hs. bind_inv Hs. injection Hs as <- <-. simpl (option_list _).
    rewrite (app_nil_r out). eapply (compliant_alive _ _ _ _ _ (EvNotify evset)); eauto.
    + eapply notify_alive; eauto. apply Hb.
    + change (zlen (accepted c (EvNotify evset))) with 0. lia.
Qed.

(** Flow control towards the host.  When the guest sends data only within
    the 64 KiB it was promised, counted from the last forwarded-bytes counter it
    saw, and the stream fails only by asking to try again, then the connection
    is never killed and no byte is lost: the transmit buffer always has room. *)
Theorem compliant_guest_never_killed c0 c acc out :
  steady_stream -> conn_init c0 -> conn_reach compliant_guest c0 c acc out ->
  c_state c <> Killed /\
  received (c_stream c0) ++ acc = received (c_stream c) ++ contents (c_tx_buf c).
Proof.
  intros Hst Hi Hr. enough (compliant_inv (c_stream c0) c acc out) as [Hk _].
  { split; [done|]. destruct (cb_data _ _ _ _ (ci_base _ _ _ _ (reach_inv _ _ _ _ _ Hi Hr)))
      as (lost & -> & Hl). by rewrite Hl, app_nil_r. }
  induction Hr as [|c acc out ev c' o Hr IH Ho Hv Hok Hs].
  - split; [by destruct Hi as [(? & ? & ? & ? & ? & ? & _ & ->) | (? & ? & ? & ? & ? & ->)]|].
    exists 0. unfold CONN_TX_BUF_SIZE. change (zlen (@nil Z)) with 0. split_and!; [done|lia..].
  - eapply step_compliant; eauto using reach_inv.
Qed.
End Compliant.

(** ** The connection states *)

Inductive conn_trans : ConnState -> ConnState -> Prop :=
| tr_same st : conn_trans st st
| tr_accepted : conn_trans PeerInit Established
| tr_confirmed : conn_trans LocalInit Established
| tr_shutdown r s : conn_trans Established (PeerClosed r s)
| tr_shutdown_more r s r' s' :
    conn_trans (PeerClosed r s) (PeerClosed (r || r') (s || s'))
| tr_end_of_stream st : can_recv st = true -> conn_trans st LocalClosed
| tr_kill st : conn_trans st Killed.

Section States.
Context {S : Type} `{StreamLaws S}.
Implicit Types c : VsockConnection S.

Lemma send_bytes_state c b r c' : send_bytes c b = Ret (r, c') -> c_state c' = c_state c.
Proof. intros (s & t & f & ->)%send_bytes_frame. by destruct c. Qed.

Lemma kill_state c : c_state (kill c) = Killed.
Proof. by destruct c. Qed.

Lemma send_rw_trans c pkt c' : send_rw c pkt = Ret c' -> conn_trans (c_state c) (c_state c').
Proof.
  unfold send_rw. destruct (buf pkt) as [b|]; [|intros [= <-]; constructor]. intros E.
  bind_inv E. bind_inv E. destruct a0 as [[[]|e] c1]; injection E as <-;
    [|rewrite kill_state; constructor].
  apply send_bytes_state in Ha0. rewrite <- Ha0.
  destruct (peer_needs_credit_update c1); [|constructor].
  replace (c_state (pend c1 CreditUpdate)) with (c_state c1) by (by destruct c1). constructor.
Qed.

Lemma send_pkt_trans c pkt now r c' :
  send_pkt c pkt now = Ret (r, c') -> conn_trans (c_state c) (c_state c').
Proof.
  intros E. unfold send_pkt in E. bind_inv E. injection E as <- <-.
  replace (c_state c) with (c_state (upd_peer_credit c (buf_alloc pkt) (fwd_cnt pkt)))
    by (by destruct c).
  set (c1 := upd_peer_credit _ _ _) in *. clearbody c1.
  destruct (_ && (op pkt =? VSOCK_OP_RW)); [by apply send_rw_trans in Ha|].
  repeat case_hyp Ha; injection Ha as <-; destruct c1; simpl in *; bools;
    rewrite ?bool_decide_eq_true in *; subst; constructor.
Qed.

Lemma notify_trans c ev c' : notify c ev = Ret c' -> conn_trans (c_state c) (c_state c').
Proof.
  unfold notify. replace (c_state c) with (c_state (if EPOLLIN ev then pend c Rw else c))
    by (by destruct (EPOLLIN ev), c).
  set (c1 := if EPOLLIN ev then _ else _). clearbody c1. intros E.
  destruct (EPOLLOUT ev); [|injection E as <-; constructor].
  destruct (TxBuf_is_empty _); [injection E as <-; constructor|].
  bind_inv E. destruct a as [[r b] s]. destruct c1.
  destruct r as [n|[|[]|]]; injection E as <-; simpl; repeat case_match; constructor.
Qed.

(** A result of a receive with its state change and the packet that tells the
    guest about it. *)
Definition recv_trans c (res : result unit VsockError * VsockConnection S * VsockPacket) : Prop :=
  let '(r, c', p) := res in
  conn_trans (c_state c) (c_state c') /\
  (c_state c' = c_state c \/
   (r = Ok tt /\ op p = VSOCK_OP_RESPONSE /\ c_state c = PeerInit /\ c_state c' = Established) \/
   (r = Ok tt /\ op p = VSOCK_OP_SHUTDOWN /\ c_state c' = LocalClosed)).

Lemma recv_trans_same c r c' p : c_state c' = c_state c -> recv_trans c (r, c', p).
Proof. intros E. unfold recv_trans. rewrite E. split; [constructor|by left]. Qed.

Lemma recv_credit_trans c1 c p :
  c_state c1 = c_state c -> recv_trans c (recv_credit_update c1 p).
Proof.
  intros E. unfold recv_credit_update. destruct (prx_remove _ _) as [had q'].
  destruct (had && _); apply recv_trans_same; by destruct c1.
Qed.

Lemma recv_read_trans c q p now :
  can_recv (c_state c) = true -> recv_trans c (recv_read (upd_pending c q) p now).
Proof.
  intros Hst. unfold recv_read.
  destruct (need_credit_update_from_peer _); [apply recv_trans_same; by destruct c|].
  destruct (buf p) as [b|]; [|apply recv_trans_same; by destruct c].
  destruct (stream_read _ _) as [[bs|[]] s];
    [|apply recv_credit_trans; by destruct c|apply recv_trans_same; by destruct c].
  destruct (zlen bs =? 0); [|apply recv_trans_same; by destruct c].
  set (p' := set_flag _ _). assert (Hop : op p' = VSOCK_OP_SHUTDOWN) by (subst p'; by destruct p as [[] ?]).
  unfold recv_trans. rewrite Hop.
  match goal with |- conn_trans _ (c_state ?x) /\ _ =>
    assert (Hc : c_state x = LocalClosed) by (by destruct c); rewrite Hc end.
  split; [by apply tr_end_of_stream|auto 6].
Qed.

Lemma recv_pkt_trans s0 acc out c pkt now :
  conn_inv s0 acc out c -> rst_sent out = false -> recv_trans c (recv_pkt c pkt now).
Proof.
  intros Hi Ho. pose proof (ci_base _ _ _ _ Hi) as Hb. pose proof (cb_pending _ _ _ _ Hb) as Hp.
  rewrite recv_pkt_cases by done. cbv zeta.
  destruct (prx_contains (c_pending_rx c) Rst) eqn:E1; [apply recv_trans_same; by destruct c|].
  pose proof (inv_not_over _ _ _ _ Hi Ho E1) as Hno.
  destruct (prx_contains (c_pending_rx c) Response) eqn:E2.
  { assert (Hst : c_state c = PeerInit) by (destruct (cb_response _ _ _ _ Hb E2); [done|tauto]).
    unfold recv_trans. rewrite op_set_op.
    replace (c_state (upd_state (without c Response) Established)) with Established by (by destruct c).
    rewrite Hst. split; [constructor|]. right. left. done. }
  destruct (prx_contains (c_pending_rx c) Request); [apply recv_trans_same; by destruct c|].
  destruct (prx_contains (c_pending_rx c) Rw); [|by apply recv_credit_trans].
  unfold recv_rw. replace (c_state (without c Rw)) with (c_state c) by (by destruct c).
  destruct (c_state c) as [| | | |[] ?|] eqn:Est; try (apply recv_trans_same; by destruct c).
  all: apply recv_read_trans; by rewrite Est.
Qed.
End States.

Section Props.
Context {S : Type} `{StreamLaws S}.
Implicit Types c : VsockConnection S.

(** C3. Data integrity of a connection.  After any sequence of events no step
    panics, and the bytes the host stream has taken followed by those in the
    transmit buffer are exactly the data of the packets accepted from the
    guest, in order (a prefix of them once the connection is killed), the
    forwarded-bytes counter is the number of bytes taken modulo [2 ^ 32], and
    the data of the packets given to the guest is exactly what was read from
    the stream, in order, with its length counted modulo [2 ^ 32]. *)
Theorem connection_data_integrity ok c0 c acc out :
  conn_init c0 -> conn_reach ok c0 c acc out ->
  (exists lost, received (c_stream c0) ++ acc =
     received (c_stream c) ++ contents (c_tx_buf c) ++ lost /\
     (c_state c <> Killed -> lost = [])) /\
  c_fwd_cnt c = (zlen (received (c_stream c)) - zlen (received (c_stream c0))) mod 2 ^ 32 /\
  supplied (c_stream c) = supplied (c_stream c0) ++ concat (payload <$> out) /\
  c_rx_cnt c = zlen (concat (payload <$> out)) mod 2 ^ 32 /\
  (rst_sent out = false -> forall ev, ev_valid ev -> conn_step c ev <> Panic).
Proof.
  intros Hi Hr. pose proof (reach_inv _ _ _ _ _ Hi Hr) as Hinv.
  destruct (ci_base _ _ _ _ Hinv). split_and!; auto.
  intros Ho ev Hv. destruct (step_inv _ _ _ _ ev Hinv Ho Hv) as (c' & o & -> & _). done.
Qed.

(** Scheduling.  As long as a connection has not yielded an RST: once it is
    killed, or the guest has shut down both directions and the transmit buffer
    is drained, an RST is pending; and while data from the guest is accepted, a
    credit update is pending whenever more than 60 KiB have been forwarded
    since the counter was last reported, so a guest that waits for credit is
    told. *)
Theorem connection_scheduling ok c0 c acc out :
  conn_init c0 -> conn_reach ok c0 c acc out -> rst_sent out = false ->
  (c_state c = Killed -> prx_contains (c_pending_rx c) Rst = true) /\
  (c_state c = PeerClosed true true -> contents (c_tx_buf c) = [] ->
     prx_contains (c_pending_rx c) Rst = true) /\
  (can_send (c_state c) = true ->
   CONN_TX_BUF_SIZE - CONN_CREDIT_UPDATE_THRESHOLD <
     wsub (c_fwd_cnt c) (c_last_fwd_cnt_to_peer c) <= CONN_TX_BUF_SIZE ->
   prx_contains (c_pending_rx c) CreditUpdate = true).
Proof.
  intros Hi Hr Ho. destruct (reach_inv _ _ _ _ _ Hi Hr) as [_ Hc Hrst]. split_and!; auto.
  intros Hcs Hlt. apply Hc; [done|]. unfold peer_needs_credit_update.
  apply Z.ltb_lt. remember (wsub (c_fwd_cnt c) (c_last_fwd_cnt_to_peer c)) as w.
  unfold CONN_TX_BUF_SIZE, CONN_CREDIT_UPDATE_THRESHOLD in *. unfold wsub.
  rewrite Z.mod_small; ulia.
Qed.

(** Flow control towards the guest.  If the guest's packets are honest, in
    that none of them reports more consumed bytes than were sent or less buffer
    space than the bytes under way, then at every point the bytes sent and not
    yet reported as consumed fit in the guest's buffer. *)
Theorem guest_buffer_never_overrun c0 c acc out :
  conn_init c0 -> conn_reach honest_guest c0 c acc out ->
  c_rx_cnt c = zlen (concat (payload <$> out)) mod 2 ^ 32 /\
  wsub (c_rx_cnt c) (c_peer_fwd_cnt c) <= c_peer_buf_alloc c.
Proof.
  intros Hi Hr. split; [apply (reach_inv _ _ _ _ _ Hi Hr)|].
  enough (within_credit (credit c)) as [_ ?] by done.
  induction Hr as [|c acc out ev c' o Hr IH Ho Hv Hok Hs].
  - destruct Hi as [(? & ? & ? & ? & ? & ? & Ha & ->) | (? & ? & ? & ? & ? & ->)];
      (split; simpl; [|change (wsub 0 0) with 0]); ulia.
  - eapply step_credit; eauto using reach_inv.
Qed.

(** The connection state machine.  Every step of a connection that has not
    yielded an RST stays in its state or takes one of the transitions of
    [conn_trans]: a handshake in either direction establishes it, the guest's
    shutdown flags only accumulate, the end of the stream closes it, a kill is
    final.  A receive that changes the state tells the guest so with a RESPONSE
    or a SHUTDOWN packet, data is handed out only in a state in which the guest
    receives, and a killed connection yields nothing but an RST. *)
Theorem connection_state_machine ok c0 c acc out ev c' o :
  conn_init c0 -> conn_reach ok c0 c acc out -> rst_sent out = false ->
  conn_step c ev = Ret (c', o) ->
  conn_trans (c_state c) (c_state c') /\
  match ev with
  | EvRecv pkt now =>
      (c_state c' = c_state c \/
       exists p, o = Some p /\
         ((op p = VSOCK_OP_RESPONSE /\ c_state c = PeerInit /\ c_state c' = Established) \/
          (op p = VSOCK_OP_SHUTDOWN /\ c_state c' = LocalClosed))) /\
      (forall p, o = Some p -> op p = VSOCK_OP_RW -> can_recv (c_state c) = true) /\
      (c_state c = Killed -> exists p, o = Some p /\ op p = VSOCK_OP_RST /\ c_state c' = Killed)
  | _ => o = None
  end.
Proof.
  intros Hi Hr Ho Hs. pose proof (reach_inv _ _ _ _ _ Hi Hr) as Hinv.
  destruct ev as [pkt now|pkt now|evset|]; simpl in Hs.
  - bind_inv Hs. destruct a as [r c1]. injection Hs as <- <-. by apply send_pkt_trans in Ha.
  - pose proof (recv_pkt_trans _ _ _ _ pkt now Hinv Ho) as Ht. pose proof (ci_base _ _ _ _ Hinv) as Hb.
    assert (Hu : in_u32 (c_rx_cnt c)) by (rewrite (cb_rx _ _ _ _ Hb); apply mod_u32).
    pose proof (recv_pkt_ok c pkt now (cb_pending _ _ _ _ Hb) Hu) as Hok.
    destruct (recv_pkt c pkt now) as [[r c1] p] eqn:Er. destruct Ht as [Ht1 Ht2].
    assert (c' = c1 /\ o = match r with Ok _ => Some p | Err _ => None end) as [-> ->]
      by (destruct r; by injection Hs as <- <-).
    split; [done|]. split_and!.
    + destruct Ht2 as [?|[(-> & ? & ? & ?)|(-> & ? & ?)]]; [by left|right; exists p; auto..].
    + intros p' Hp' Hop. destruct r as [[]|]; [injection Hp' as <-|done].
      destruct Hok as (_ & Hne & Hd & _). by apply Hd, Hne.
    + intros Hk. pose proof (ci_rst _ _ _ _ Hinv Ho (or_introl Hk)) as Hrst.
      rewrite recv_pkt_cases in Er by apply Hb. rewrite Hrst in Er. injection Er as <- <- <-.
      exists (set_op (init_pkt c pkt) VSOCK_OP_RST). rewrite op_set_op. by destruct c.
  - bind_inv Hs. injection Hs as <- <-. by apply notify_trans in Ha.
  - injection Hs as <- <-. rewrite kill_state. split; [constructor|done].
Qed.
End Props.

Lemma connection_data_integrity_witness :
  ex_run.1.2 = [7; 8] /\ received (c_stream ex_run.1.1) = [7; 8] /\
  concat (payload <$> ex_run.2) = [1; 2; 3] /\
  exists lost, received (c_stream ex_conn) ++ ex_run.1.2 =
    received (c_stream ex_run.1.1) ++ contents (c_tx_buf ex_run.1.1) ++ lost /\
    (c_state ex_run.1.1 <> Killed -> lost = []).
Proof.
  do 3 (split; [by vm_compute|]).
  apply (connection_data_integrity any_event ex_conn ex_run.1.1 ex_run.1.2 ex_run.2 ex_conn_init).
  apply ex_reach. repeat constructor.
Defined.

Lemma connection_scheduling_witness :
  rst_sent ex_run.2 = false /\
  (c_state ex_run.1.1 = Killed -> prx_contains (c_pending_rx ex_run.1.1) Rst = true).
Proof.
  split; [by vm_compute|].
  apply (connection_scheduling any_event ex_conn ex_run.1.1 ex_run.1.2 ex_run.2 ex_conn_init);
    [|by vm_compute].
  apply ex_reach. repeat constructor.
Defined.

Lemma guest_buffer_never_overrun_witness :
  c_rx_cnt ex_run.1.1 = 3 /\
  wsub (c_rx_cnt ex_run.1.1) (c_peer_fwd_cnt ex_run.1.1) <= c_peer_buf_alloc ex_run.1.1.
Proof.
  split; [by vm_compute|].
  apply (guest_buffer_never_overrun ex_conn ex_run.1.1 ex_run.1.2 ex_run.2 ex_conn_init).
  apply ex_reach. repeat constructor; by vm_compute.
Defined.

Lemma connection_state_machine_witness :
  exists c' o, conn_step ex_conn (EvRecv ex_rx 0) = Ret (c', o) /\
    conn_trans (c_state ex_conn) (c_state c') /\ c_state c' = Established.
Proof.
  do 2 eexists. split; [reflexivity|]. split; [|reflexivity].
  apply (connection_state_machine any_event ex_conn ex_conn [] [] (EvRecv ex_rx 0) _ _ ex_conn_init
    (reach_init _ _) eq_refl eq_refl).
Defined.

(** A host that takes two bytes at a time and has nothing to say. *)
#[local] Instance slow_stream : VsockStream bytes := {|
  stream_write s buf := (Ok (Z.min 2 (zlen buf)), s ++ ztake (Z.min 2 (zlen buf)) buf);
  stream_read s n := (Err WouldBlock, s);
|}.

#[local] Program Instance slow_laws : StreamLaws bytes :=
  {| received s := s; supplied _ := [] |}.
Next Obligation.
  intros s buf n s' E. injection E as <- <-. pose proof (zlen_nonneg buf). split_and!; auto; lia.
Qed.
Next Obligation. intros s buf e s' [=]. Qed.
Next Obligation. intros s n bs s' _ [=]. Qed.
Next Obligation. intros s n e s' [= _ <-]. done. Qed.

Definition slow_conn : VsockConnection bytes := new_local_init [] 2 3 (2 ^ 30) 1024.

(** The guest confirms the connection and sends two bytes. *)
Definition slow_events : list conn_event :=
  [EvSend (ex_pkt VSOCK_OP_RESPONSE 0 64 None) 0; EvSend (ex_pkt VSOCK_OP_RW 2 64 (Some [7; 8])) 0].

Lemma compliant_guest_never_killed_witness :
  exists c, conn_reach compliant_guest slow_conn c [7; 8] [] /\ c_state c <> Killed /\
    received (c_stream slow_conn) ++ [7; 8] = received (c_stream c) ++ contents (c_tx_buf c).
Proof.
  assert (V : forall ev, ev ∈ slow_events -> ev_valid ev).
  { intros ev [->|[->|[]%elem_of_nil]%elem_of_cons]%elem_of_cons;
      (split; [split_and!; vm_compute; split; done|done]). }
  pose proof (reach_step compliant_guest slow_conn _ _ _ _ _ _ (reach_init _ _) eq_refl
    (V (EvSend (ex_pkt VSOCK_OP_RESPONSE 0 64 None) 0) ltac:(by left)) ltac:(by vm_compute) eq_refl) as R1.
  pose proof (reach_step compliant_guest slow_conn _ _ _ _ _ _ R1 eq_refl
    (V (EvSend (ex_pkt VSOCK_OP_RW 2 64 (Some [7; 8])) 0) ltac:(by right; left)) ltac:(by vm_compute)
    eq_refl) as R2.
  assert (Hs : @steady_stream bytes _) by (intros s buf e s' [=]).
  assert (Hi : conn_init slow_conn) by (right; by do 5 eexists).
  exact (ex_intro _ _ (conj R2 (compliant_guest_never_killed slow_conn _ _ _ Hs Hi R2))).
Defined.

(** ** A shutdown in two steps has no timeout

    The guest closes one direction, then the other, while the host has not taken
    the buffered data.  The comment of the second branch says that the logic of
    the first one applies, but only the first one arms the kill timer. *)

Definition half_closed (tx : TxBuf) : VsockConnection Script :=
  mkConn (PeerClosed true false) 2 3 52 1024 ex_stream tx 0 64 0 0 0 0 None.

Definition shutdown_send : VsockPacket :=
  mkPacket (mkHdr 3 2 1024 52 0 1 VSOCK_OP_SHUTDOWN VSOCK_FLAGS_SHUTDOWN_SEND 64 0) None.

Lemma second_shutdown_without_timer tx now :
  TxBuf_is_empty tx = false ->
  exists c, send_pkt (half_closed tx) shutdown_send now = Ret (Ok tt, c) /\
    c_state c = PeerClosed true true /\ has_pending_rx c = false /\ c_expiry c = None.
Proof. intros E. eexists. unfold send_pkt. simpl. rewrite E. done. Qed.
