(* ===== verification/VsockQueues.v ===== *)
(** The queues of the vsock muxer (dbs_virtio_devices/src/vsock/muxer/): the RX
    queue of muxer_rxq.rs and the kill queue of muxer_killq.rs.  Both are
    bounded, may lose sync with the connection pool, and are rebuilt from it.

    The connection pool is a finite map; [HashMap::iter] visits it in an order
    of its own, which the rebuilding functions get as the list of its entries.

    Correctness of the muxer's queues: their bounds, what a push does on each
    branch, and that a queue in sync after a rebuild holds what it should. *)

From stdpp Require Import sorting.
From S2P Require Import Prelude VsockStream TxBuf VsockPacket VsockConnection.

(** ** muxer/mod.rs: defs *)

Definition MAX_CONNECTIONS : Z := 1023.
Definition MUXER_RXQ_SIZE : Z := 256.
Definition MUXER_KILLQ_SIZE : Z := 128.

(** ** Keys and RX items (muxer_impl.rs) *)

Record ConnMapKey := mkKey {
  k_local_port : Z;
  k_peer_port : Z;
}.

#[export] Instance ConnMapKey_eq_dec : EqDecision ConnMapKey.
Proof. solve_decision. Defined.

#[export] Instance ConnMapKey_countable : Countable ConnMapKey.
Proof.
  apply (inj_countable' (fun k => (k_local_port k, k_peer_port k)) (fun '(l, p) => mkKey l p)).
  by intros [].
Defined.

Inductive MuxerRx : Type :=
| ConnRx (key : ConnMapKey)
| RstPkt (local_port peer_port : Z).

#[export] Instance MuxerRx_eq_dec : EqDecision MuxerRx.
Proof. solve_decision. Defined.

(** ** [MuxerRxQ] *)

Record MuxerRxQ := mkRxQ {
  rxq_q : list MuxerRx;
  rxq_synced : bool;
}.

Definition RxQ_default : MuxerRxQ := mkRxQ [] true.
Definition RxQ_len (r : MuxerRxQ) : Z := zlen (rxq_q r).
Definition RxQ_is_empty (r : MuxerRxQ) : bool := RxQ_len r =? 0.
Definition RxQ_is_full (r : MuxerRxQ) : bool := RxQ_len r =? MUXER_RXQ_SIZE.
Definition RxQ_peek (r : MuxerRxQ) : option MuxerRx := head (rxq_q r).
Definition RxQ_pop (r : MuxerRxQ) : option MuxerRx * MuxerRxQ :=
  match rxq_q r with
  | [] => (None, r)
  | x :: q => (Some x, mkRxQ q (rxq_synced r))
  end.

(** [for qi in q.iter_mut().rev()]: replace the last connection key by [rx]. *)
Fixpoint replace_last_conn (q : list MuxerRx) (rx : MuxerRx) : option (list MuxerRx) :=
  match q with
  | [] => None
  | x :: q =>
      match replace_last_conn q rx with
      | Some q => Some (x :: q)
      | None => match x with ConnRx _ => Some (rx :: q) | RstPkt _ _ => None end
      end
  end.

Definition RxQ_push (r : MuxerRxQ) (rx : MuxerRx) : bool * MuxerRxQ :=
  if rxq_synced r && negb (RxQ_is_full r) then (true, mkRxQ (rxq_q r ++ [rx]) (rxq_synced r)) else
  match rx with
  | RstPkt _ _ =>
      match replace_last_conn (rxq_q r) rx with
      | Some q => (true, mkRxQ q false)
      | None => (false, r)
      end
  | ConnRx _ => (false, mkRxQ (rxq_q r) false)
  end.

(** ** [MuxerKillQ] *)

Record MuxerKillQItem := mkKillItem {
  ki_key : ConnMapKey;
  ki_kill_time : Z;
}.

Record MuxerKillQ := mkKillQ {
  kq_q : list MuxerKillQItem;
  kq_synced : bool;
}.

Definition KillQ_default : MuxerKillQ := mkKillQ [] true.
Definition KillQ_is_empty (k : MuxerKillQ) : bool := zlen (kq_q k) =? 0.
Definition KillQ_is_full (k : MuxerKillQ) : bool := zlen (kq_q k) =? MUXER_KILLQ_SIZE.

Definition KillQ_push (k : MuxerKillQ) (key : ConnMapKey) (kill_time : Z) : MuxerKillQ :=
  if negb (kq_synced k) || KillQ_is_full k then mkKillQ (kq_q k) false
  else mkKillQ (kq_q k ++ [mkKillItem key kill_time]) (kq_synced k).

Definition KillQ_pop (k : MuxerKillQ) (now : Z) : option ConnMapKey * MuxerKillQ :=
  match kq_q k with
  | item :: q =>
      if now >? ki_kill_time item then (Some (ki_key item), mkKillQ q (kq_synced k)) else (None, k)
  | [] => (None, k)
  end.

Definition kill_before (x y : MuxerKillQItem) : Prop := ki_kill_time x <= ki_kill_time y.
#[export] Instance kill_before_dec x y : Decision (kill_before x y).
Proof. unfold kill_before. apply _. Defined.

(** ** Rebuilding the queues from the connection pool *)

Section FromConnMap.
Context {S : Type} `{VsockStream S}.

Fixpoint rxq_walk (conns : list (ConnMapKey * VsockConnection S)) (q : list MuxerRx) : MuxerRxQ :=
  match conns with
  | [] => mkRxQ q true
  | (key, conn) :: conns =>
      if negb (has_pending_rx conn) then rxq_walk conns q else
      if zlen q >=? MUXER_RXQ_SIZE then mkRxQ q false else
      rxq_walk conns (q ++ [ConnRx key])
  end.

Definition RxQ_from_conn_map (conns : list (ConnMapKey * VsockConnection S)) : MuxerRxQ :=
  rxq_walk conns [].

Fixpoint killq_walk (now : Z) (conns : list (ConnMapKey * VsockConnection S))
  (q : list MuxerKillQItem) : outcome (list MuxerKillQItem * bool) :=
  match conns with
  | [] => Ret (q, true)
  | (key, conn) :: conns =>
      if negb (will_expire conn now) then killq_walk now conns q else
      if zlen q >=? MUXER_KILLQ_SIZE then Ret (q, false) else
      let! t := unwrap (c_expiry conn) in
      killq_walk now conns (q ++ [mkKillItem key t])
  end.

Definition KillQ_from_conn_map (now : Z) (conns : list (ConnMapKey * VsockConnection S)) :
  outcome MuxerKillQ :=
  let! (q, synced) := killq_walk now conns [] in
  Ret (mkKillQ (merge_sort kill_before q) synced).
End FromConnMap.

Definition is_conn_rx (x : MuxerRx) : bool := match x with ConnRx _ => true | RstPkt _ _ => false end.

Lemma replace_last_none q rx :
  replace_last_conn q rx = None <-> Forall (fun x => is_conn_rx x = false) q.
Proof.
  induction q as [|x q IH]; simpl; [by split|]. rewrite Forall_cons.
  destruct (replace_last_conn q rx) as [q'|].
  - split; [done|]. intros [_ Hq]. by apply IH in Hq.
  - destruct x; simpl; [naive_solver|]. split; [intros _|done]. split; [done|]. by apply IH.
Qed.

Lemma replace_last_some q rx q' :
  replace_last_conn q rx = Some q' ->
  exists a k b, q = a ++ ConnRx k :: b /\ q' = a ++ rx :: b /\
    Forall (fun x => is_conn_rx x = false) b.
Proof.
  revert q'. induction q as [|x q IH]; intros q' Hq; simpl in Hq; [done|].
  destruct (replace_last_conn q rx) as [q1|] eqn:E.
  - injection Hq as <-. destruct (IH q1 eq_refl) as (a & k & b & -> & -> & Hb). by exists (x :: a), k, b.
  - destruct x as [k|]; [|done]. injection Hq as <-. exists [], k, q.
    split_and!; [done..|]. by apply (replace_last_none q rx).
Qed.

(** A push keeps what is queued unless the queue loses sync. *)
Definition rxq_extends (r r' : MuxerRxQ) : Prop :=
  rxq_synced r' = true -> rxq_synced r = true /\ forall x, x ∈ rxq_q r -> x ∈ rxq_q r'.

Lemma rxq_extends_refl r : rxq_extends r r.
Proof. by intros ?. Qed.

Lemma rxq_extends_trans r1 r2 r3 : rxq_extends r1 r2 -> rxq_extends r2 r3 -> rxq_extends r1 r3.
Proof.
  intros H1 H2 Hs. destruct (H2 Hs) as [Hs2 Hq2]. destruct (H1 Hs2) as [Hs1 Hq1].
  split; [done|]. intros x Hx. by apply Hq2, Hq1.
Qed.

Lemma push_extends r rx : rxq_extends r (RxQ_push r rx).2.
Proof.
  unfold RxQ_push. destruct (rxq_synced r && negb (RxQ_is_full r)) eqn:E.
  - intros Hs. split; [done|]. intros x Hx. apply elem_of_app. by left.
  - destruct rx; [done|]. destruct (replace_last_conn _ _); [done|]. by intros ?.
Qed.

Lemma push_conn r k : rxq_synced (RxQ_push r (ConnRx k)).2 = true -> ConnRx k ∈ rxq_q (RxQ_push r (ConnRx k)).2.
Proof.
  unfold RxQ_push. destruct (rxq_synced r && negb (RxQ_is_full r)); [|done].
  intros _. apply elem_of_app. right. by left.
Qed.

Lemma push_bound r rx : RxQ_len r <= MUXER_RXQ_SIZE -> RxQ_len (RxQ_push r rx).2 <= MUXER_RXQ_SIZE.
Proof.
  intros Hl. unfold RxQ_push. destruct (rxq_synced r && negb (RxQ_is_full r)) eqn:E.
  - unfold RxQ_is_full, RxQ_len in *. bools. cbn [snd rxq_q]. rewrite zlen_app.
    change (zlen [rx]) with 1. lia.
  - destruct rx; [done|]. destruct (replace_last_conn _ _) as [q|] eqn:Eq; [|done].
    apply replace_last_some in Eq as (a & k & b & Eq & -> & _). unfold RxQ_len in *.
    rewrite Eq in Hl. cbn [snd rxq_q]. unfold zlen in *. rewrite length_app in *. simpl in *. lia.
Qed.

(** A push of a connection key leaves the front alone. *)
Lemma push_conn_front r k : exists t, rxq_q (RxQ_push r (ConnRx k)).2 = rxq_q r ++ t.
Proof.
  unfold RxQ_push. destruct (rxq_synced r && negb (RxQ_is_full r)); simpl; [by eexists|].
  exists []. by rewrite app_nil_r.
Qed.

(** ** Rebuilding *)

Section FromConnMap.
Context {S : Type} `{VsockStream S}.
Implicit Types conns : list (ConnMapKey * VsockConnection S).

(** The connections that have something to say, in order. *)
Definition pending_keys conns : list MuxerRx :=
  ConnRx <$> (filter (fun kc => has_pending_rx kc.2 = true) conns).*1.

Lemma rxq_walk_ok conns : forall q,
  zlen q <= MUXER_RXQ_SIZE ->
  let r := rxq_walk conns q in
  RxQ_len r <= MUXER_RXQ_SIZE /\
  (if rxq_synced r then rxq_q r = q ++ pending_keys conns
   else RxQ_len r = MUXER_RXQ_SIZE /\ rxq_q r `prefix_of` q ++ pending_keys conns).
Proof.
  induction conns as [|[k c] conns IH]; intros q Hq; simpl.
  - unfold RxQ_len. by rewrite app_nil_r.
  - unfold pending_keys. rewrite filter_cons. simpl.
    destruct (has_pending_rx c) eqn:E; simpl; [|by apply IH].
    rewrite Z.geb_leb. destruct (Z.leb_spec MUXER_RXQ_SIZE (zlen q)).
    + simpl. unfold RxQ_len. simpl. split_and!; [lia|lia|by apply prefix_app_r].
    + specialize (IH (q ++ [ConnRx k])). rewrite <- app_assoc in IH. apply IH.
      rewrite zlen_app. change (zlen [ConnRx k]) with 1. lia.
Qed.

(** The connections that will expire, in order. *)
Definition expiring conns (now : Z) : list MuxerKillQItem :=
  (fun kc => mkKillItem kc.1 (default 0 (c_expiry kc.2))) <$>
    filter (fun kc => will_expire kc.2 now = true) conns.

Lemma killq_walk_ok now conns : forall q,
  zlen q <= MUXER_KILLQ_SIZE ->
  exists q' synced, killq_walk now conns q = Ret (q', synced) /\ zlen q' <= MUXER_KILLQ_SIZE /\
    (if synced then q' = q ++ expiring conns now
     else zlen q' = MUXER_KILLQ_SIZE /\ q' `prefix_of` q ++ expiring conns now).
Proof.
  induction conns as [|[k c] conns IH]; intros q Hq; simpl.
  - exists q, true. by rewrite app_nil_r.
  - unfold expiring. rewrite filter_cons. simpl.
    destruct (will_expire c now) eqn:E; simpl; [|by apply IH].
    rewrite Z.geb_leb. destruct (Z.leb_spec MUXER_KILLQ_SIZE (zlen q)).
    + exists q, false. split_and!; [done|done|lia|by apply prefix_app_r].
    + unfold will_expire in E. destruct (c_expiry c) as [t|] eqn:Et; [|done]. simpl.
      specialize (IH (q ++ [mkKillItem k t])). rewrite <- app_assoc in IH. apply IH.
      rewrite zlen_app. change (zlen [mkKillItem k t]) with 1. lia.
Qed.
End FromConnMap.

#[local] Instance kill_before_total : Total kill_before.
Proof. intros x y. unfold kill_before. lia. Qed.

Lemma KillQ_from_conn_map_ok {S} `{VsockStream S} (now : Z) (conns : list (ConnMapKey * VsockConnection S)) :
  exists k, KillQ_from_conn_map now conns = Ret k /\ zlen (kq_q k) <= MUXER_KILLQ_SIZE /\
    Sorted kill_before (kq_q k) /\
    (if kq_synced k then kq_q k ≡ₚ expiring conns now
     else zlen (kq_q k) = MUXER_KILLQ_SIZE /\ kq_q k ⊆+ expiring conns now).
Proof.
  destruct (killq_walk_ok now conns []) as (q & sy & E & Hl & Hq); [done|].
  unfold KillQ_from_conn_map. rewrite E. cbn [obind]. eexists. split; [done|]. cbn [kq_q kq_synced].
  pose proof (merge_sort_Permutation kill_before q) as Hp.
  assert (Hlen : zlen (merge_sort kill_before q) = zlen q) by (unfold zlen; by rewrite Hp).
  split_and!; [lia|apply Sorted_merge_sort; apply _|]. destruct sy; [by rewrite Hp, Hq|].
  destruct Hq as [Hq Hpre]. split; [lia|]. rewrite Hp. destruct Hpre as [t Ht]. simpl in Ht.
  rewrite Ht. by apply submseteq_inserts_r.
Qed.

(** The muxer's queues.  The RX queue never holds more than 256 items.  A
    push onto a queue that is in sync and not full appends; otherwise a
    connection key is refused and the queue loses sync, while an RST takes the
    place of the last connection key, with loss of sync, and is dropped only
    when the queue holds no connection key.  A rebuilt RX queue that is in sync
    holds exactly the connections with something pending, one that is not is
    full of them.  A rebuilt kill queue is sorted by time and, when in sync,
    holds exactly the connections that will expire; a pop yields the first item
    exactly when its time has passed. *)
Theorem queues_correct {S} `{VsockStream S} (r : MuxerRxQ) (rx : MuxerRx)
  (conns : list (ConnMapKey * VsockConnection S)) (now : Z) :
  RxQ_len r <= MUXER_RXQ_SIZE ->
  (let '(ok, r') := RxQ_push r rx in
   RxQ_len r' <= MUXER_RXQ_SIZE /\
   if rxq_synced r && negb (RxQ_is_full r) then ok = true /\ r' = mkRxQ (rxq_q r ++ [rx]) true
   else match rx with
        | ConnRx _ => ok = false /\ r' = mkRxQ (rxq_q r) false
        | RstPkt _ _ =>
            (ok = false /\ r' = r /\ Forall (fun x => is_conn_rx x = false) (rxq_q r)) \/
            (exists a k b, ok = true /\ rxq_q r = a ++ ConnRx k :: b /\
               Forall (fun x => is_conn_rx x = false) b /\ r' = mkRxQ (a ++ rx :: b) false)
        end) /\
  (let r' := RxQ_from_conn_map conns in
   RxQ_len r' <= MUXER_RXQ_SIZE /\
   if rxq_synced r' then rxq_q r' = pending_keys conns
   else RxQ_len r' = MUXER_RXQ_SIZE /\ rxq_q r' `prefix_of` pending_keys conns) /\
  (exists k, KillQ_from_conn_map now conns = Ret k /\ zlen (kq_q k) <= MUXER_KILLQ_SIZE /\
     Sorted kill_before (kq_q k) /\
     if kq_synced k then kq_q k ≡ₚ expiring conns now
     else zlen (kq_q k) = MUXER_KILLQ_SIZE /\ kq_q k ⊆+ expiring conns now) /\
  (forall i q sy, KillQ_pop (mkKillQ (i :: q) sy) now =
     if ki_kill_time i <? now then (Some (ki_key i), mkKillQ q sy) else (None, mkKillQ (i :: q) sy)).
Proof.
  intros Hl. split_and!.
  - pose proof (push_bound r rx Hl) as Hb. unfold RxQ_push in *.
    destruct (rxq_synced r) eqn:Es; destruct (RxQ_is_full r); cbn [andb negb] in *;
      try (split; [exact Hb|done]).
    all: destruct rx; [split; [exact Hb|done]|].
    all: destruct (replace_last_conn _ _) as [q|] eqn:E; (split; [exact Hb|]).
    all: first [ right; apply replace_last_some in E as (a & k & b & E1 & -> & Hf); by exists a, k, b
               | left; split_and!; [done..|]; by apply replace_last_none in E ].
  - by apply (rxq_walk_ok conns []).
  - apply KillQ_from_conn_map_ok.
  - intros i q sy. unfold KillQ_pop. simpl. by rewrite Z.gtb_ltb.
Qed.

Definition ex_key : ConnMapKey := mkKey 52 1024.
Definition ex_kconn (expiry : option Z) : VsockConnection Script :=
  mkConn Established 2 3 52 1024 (mkScript [] [] [] []) TxBuf_default 0 64 0 0 0 0 expiry.

Lemma queues_correct_witness :
  RxQ_len RxQ_default <= MUXER_RXQ_SIZE /\
  exists k, KillQ_from_conn_map 5 [(ex_key, ex_kconn (Some 7))] = Ret k /\
    zlen (kq_q k) <= MUXER_KILLQ_SIZE /\ Sorted kill_before (kq_q k) /\
    if kq_synced k then kq_q k ≡ₚ expiring [(ex_key, ex_kconn (Some 7))] 5
    else zlen (kq_q k) = MUXER_KILLQ_SIZE /\ kq_q k ⊆+ expiring [(ex_key, ex_kconn (Some 7))] 5.
Proof.
  split; [by vm_compute|].
  apply (queues_correct RxQ_default (RstPkt 1 2) [(ex_key, ex_kconn (Some 7))] 5). by vm_compute.
Defined.

(** ** Where the queues differ from their description

    An RST that is pushed onto an out-of-sync queue without connection keys is
    dropped even when the queue is empty; the description says that an RST is
    refused only by a queue full of RSTs. *)
Lemma rst_dropped_by_empty_queue lp pp :
  RxQ_push (mkRxQ [] false) (RstPkt lp pp) = (false, mkRxQ [] false).
Proof. done. Qed.

(** A connection whose time has passed while the kill queue was out of sync is
    left out of the rebuilt queue, which claims to be in sync: the connection is
    never terminated. *)
Lemma expired_connection_left_out :
  has_expired (ex_kconn (Some 5)) 7 = true /\
  KillQ_from_conn_map 7 [(ex_key, ex_kconn (Some 5))] = Ret (mkKillQ [] true).
Proof. split; by vm_compute. Qed.
