(* ===== verification/VsockPort.v ===== *)
(** The port commands of the host (muxer/muxer_impl.rs): [connect <port>] and
    [passfd], as read from a freshly accepted stream, and the [OK <port>] line
    sent back.

    [std::str::from_utf8], [split_whitespace], [to_lowercase] and
    [u32::from_str] are modelled on bytes and code points. *)

From S2P Require Import Prelude Text VsockStream.

(** muxer/mod.rs; the I/O errors that are only printed are left out *)
Inductive VsockBackendType : Type := UnixStream | Tcp | Inner | HybridStream.

#[export] Instance VsockBackendType_eq_dec : EqDecision VsockBackendType.
Proof. solve_decision. Defined.

Inductive MuxerError : Type :=
| EpollAdd
| EpollFdCreate
| InvalidPortRequest
| BackendAccept
| BackendConnect
| BackendSetNonBlock
| BackendRead
| TooManyConnections
| BackendRegistered (t : VsockBackendType)
| BackendAddAfterActivated.

Inductive ReadPortResult : Type :=
| PassFd
| Connect (port : Z).

(** [read_exact(&mut buf)] of [std::io::Read] for a buffer of [n] bytes, and
    [recv_data_fd] of [VsockStream] with buffers of 32 bytes and 2 descriptors. *)
Class PortStream (S : Type) `{VsockStream S} := {
  stream_read_exact : S -> Z -> result bytes ErrorKind * S;
  recv_data_fd : S -> result (bytes * list Z) ErrorKind;
}.

(** ** Text *)

Definition is_cont (b : Z) : bool := (128 <=? b) && (b <=? 191).

(** [std::str::from_utf8]: the code points, or [None] for ill-formed bytes. *)
Fixpoint from_utf8 (bs : bytes) : option (list Z) :=
  match bs with
  | [] => Some []
  | b0 :: r0 =>
      if b0 <? 128 then cons b0 <$> from_utf8 r0 else
      match r0 with
      | b1 :: r1 =>
          if between 194 223 b0 && is_cont b1 then
            cons ((b0 - 192) * 64 + (b1 - 128)) <$> from_utf8 r1 else
          match r1 with
          | b2 :: r2 =>
              if is_cont b2 &&
                 ((b0 =? 224) && between 160 191 b1 || (between 225 236 b0 || between 238 239 b0) && is_cont b1 ||
                  (b0 =? 237) && between 128 159 b1) then
                cons ((b0 - 224) * 4096 + (b1 - 128) * 64 + (b2 - 128)) <$> from_utf8 r2 else
              match r2 with
              | b3 :: r3 =>
                  if is_cont b2 && is_cont b3 &&
                     ((b0 =? 240) && between 144 191 b1 || between 241 243 b0 && is_cont b1 ||
                      (b0 =? 244) && between 128 143 b1) then
                    cons ((b0 - 240) * 262144 + (b1 - 128) * 4096 + (b2 - 128) * 64 + (b3 - 128)) <$>
                      from_utf8 r3
                  else None
              | [] => None
              end
          | [] => None
          end
      | [] => None
      end
  end.

(** [char::is_whitespace]: the Unicode property White_Space. *)
Definition is_whitespace (c : Z) : bool :=
  between 9 13 c || (c =? 32) || (c =? 133) || (c =? 160) || (c =? 5760) || between 8192 8202 c ||
  (c =? 8232) || (c =? 8233) || (c =? 8239) || (c =? 8287) || (c =? 12288).

(** The maximal runs of non-blank characters; [cur] is the run being read. *)
Fixpoint words (cur : list Z) (cs : list Z) : list (list Z) :=
  match cs with
  | [] => match cur with [] => [] | _ => [cur] end
  | c :: cs =>
      if is_whitespace c then match cur with [] => words [] cs | _ => cur :: words [] cs end
      else words (cur ++ [c]) cs
  end.

Definition split_whitespace (cs : list Z) : list (list Z) := words [] cs.

(** [to_lowercase], as far as a comparison with a word in [a-z] without [k] can
    tell: no other character has such a letter as its lower case. *)
Definition to_lowercase (w : list Z) : list Z :=
  (fun c => if between 65 90 c then c + 32 else c) <$> w.

(** [b"connect"], [b"passfd"], [b"OK "]. *)
Definition word_connect : bytes := [99; 111; 110; 110; 101; 99; 116].
Definition word_passfd : bytes := [112; 97; 115; 115; 102; 100].
Definition word_ok : bytes := [79; 75; 32].

(** [format!("OK {}\n", port)] *)
Definition ok_msg (port : Z) : bytes := word_ok ++ dec port ++ [10].

(** ** [read_local_stream_port] *)

Definition PORT_BUF_LEN : Z := 32.
Definition MIN_READ_LEN : Z := 7.

(** The text of the command: its words decide. *)
Definition parse_command (buf : bytes) : result ReadPortResult MuxerError :=
  match from_utf8 buf with
  | None => Err InvalidPortRequest
  | Some text =>
      match split_whitespace text with
      | [] => Err InvalidPortRequest
      | word :: rest =>
          let key := to_lowercase word in
          if bool_decide (key = word_connect) then
            match rest with
            | [] => Err InvalidPortRequest
            | word :: _ =>
                match parse_u32 word with
                | None => Err InvalidPortRequest
                | Some port => Ok (Connect port)
                end
            end
          else if bool_decide (key = word_passfd) then Ok PassFd
          else Err InvalidPortRequest
      end
  end.

Section Read.
Context {S : Type} `{PortStream S}.

(** [while buf[blen - 1] != b'\n' && blen < buf.len()]; [buf] is the part read so
    far, [blen] its length. *)
Fixpoint read_line (fuel : nat) (buf : bytes) (s : S) : result bytes MuxerError * S :=
  match fuel with
  | O => (Ok buf, s)
  | Datatypes.S fuel =>
      if bool_decide (last buf = Some 10) then (Ok buf, s) else
      match stream_read_exact s 1 with
      | (Err _, s) => (Err BackendRead, s)
      | (Ok b, s) => read_line fuel (buf ++ b) s
      end
  end.

(** [n] bytes of [buf], filled up with zeros. *)
Definition zero_pad (n : Z) (buf : bytes) : bytes :=
  ztake n buf ++ replicate (Z.to_nat (n - zlen buf)) 0.

Definition read_local_stream_port (s : S) : result ReadPortResult MuxerError * S :=
  match stream_read s MIN_READ_LEN with
  | (Err _, s) => (Err BackendRead, s)
  | (Ok bs, s) =>
      match read_line (Z.to_nat (PORT_BUF_LEN - MIN_READ_LEN)) (zero_pad MIN_READ_LEN bs) s with
      | (Err e, s) => (Err e, s)
      | (Ok buf, s) => (parse_command (zero_pad PORT_BUF_LEN buf), s)
      end
  end.

(** ** [passfd_read_port_and_fd]: the descriptor and the port *)

Definition passfd_read_port_and_fd (s : S) : result (Z * Z) MuxerError :=
  match recv_data_fd s with
  | Err _ => Err BackendRead
  | Ok (data, fds) =>
      match fds with
      | [fd] =>
          if fd <=? 0 then Err InvalidPortRequest else
          match from_utf8 data with
          | None => Err InvalidPortRequest
          | Some text =>
              match split_whitespace text with
              | [] => Err InvalidPortRequest
              | word :: _ =>
                  match parse_u32 word with
                  | None => Err InvalidPortRequest
                  | Some port => Ok (fd, port)
                  end
              end
          end
      | _ => Err InvalidPortRequest
      end
  end.
End Read.

(** ** Decimal numbers *)

Lemma dec_ok n : in_u32 n -> Forall (is_digit 10) (dec n) /\ dec n <> [] /\ (length (dec n) <= 10)%nat /\ parse_u32 (dec n) = Some n.
Proof.
  intros Hn. destruct (dec_digits n) as (D1 & D2 & _); [ulia|]. split_and!; [done|done| |apply dec_parse; ulia].
  apply print_length; [lia|lia|]. change (10 ^ Z.of_nat 10) with 10000000000. ulia.
Qed.

(** ** Words *)

Definition ascii (bs : bytes) : Prop := Forall (fun b => 0 <= b < 128) bs.

Lemma from_utf8_ascii bs : ascii bs -> from_utf8 bs = Some bs.
Proof.
  induction 1 as [|b bs Hb _ IH]; [done|]. simpl. rewrite (proj2 (Z.ltb_lt _ _)) by lia.
  by rewrite IH.
Qed.

Lemma words_run w : forall cur b rest,
  Forall (fun c => is_whitespace c = false) w -> cur ++ w <> [] -> is_whitespace b = true ->
  words cur (w ++ b :: rest) = (cur ++ w) :: words [] rest.
Proof.
  induction w as [|c w IH]; intros cur b rest Hw Hne Hb; simpl.
  - rewrite Hb, app_nil_r in *. by destruct cur.
  - inversion Hw as [|? ? Hc Hw']; subst. rewrite Hc, IH; [by rewrite <- app_assoc|done| |done].
    by destruct cur.
Qed.

Lemma digit_not_blank d : is_digit 10 d -> is_whitespace d = false.
Proof.
  intros Hd%dec_digit. unfold is_whitespace, between.
  repeat match goal with
  | |- context [d =? ?k] => rewrite (proj2 (Z.eqb_neq d k)) by lia
  | |- context [?k <=? d] => first [rewrite (proj2 (Z.leb_gt k d)) by lia | rewrite (proj2 (Z.leb_le k d)) by lia]
  | |- context [d <=? ?k] => first [rewrite (proj2 (Z.leb_gt d k)) by lia | rewrite (proj2 (Z.leb_le d k)) by lia]
  end. done.
Qed.

(** A word that is a lower-case word up to case consists of letters. *)
Lemma lowercase_letters w x :
  to_lowercase w = x -> Forall (fun c => 97 <= c <= 122) x -> Forall (fun c => 65 <= c <= 122) w.
Proof.
  intros <-. induction w as [|c w IH]; intros Hx; [constructor|].
  inversion Hx as [|? ? Hc Hx']; subst. constructor; [|auto].
  revert Hc. unfold between. repeat case_match; bools; lia.
Qed.

Lemma letter_not_blank c : 65 <= c <= 122 -> is_whitespace c = false.
Proof.
  intros Hd. unfold is_whitespace, between.
  rewrite (proj2 (Z.leb_gt c 13)), !(proj2 (Z.eqb_neq c _)), (proj2 (Z.leb_gt 8192 c)) by lia.
  by rewrite andb_false_r.
Qed.

Lemma connect_letters : Forall (fun c => 97 <= c <= 122) word_connect.
Proof. repeat constructor; lia. Qed.

(** A [connect] line, padded with zeros. *)
Lemma parse_connect w port pad :
  to_lowercase w = word_connect -> in_u32 port -> ascii pad ->
  parse_command (w ++ [32] ++ dec port ++ [10] ++ pad) = Ok (Connect port).
Proof.
  intros Hw Hp Hpad. destruct (dec_ok port Hp) as (D1 & D2 & _ & D4). unfold parse_command.
  pose proof (lowercase_letters _ _ Hw connect_letters) as Hl.
  rewrite from_utf8_ascii.
  2: { unfold ascii in *. rewrite !Forall_app.
    split_and!; auto; try (repeat constructor; lia); (eapply Forall_impl; [eassumption|]);
      intros d Hd; try apply dec_digit in Hd; simpl in *; lia. }
  unfold split_whitespace. cbn [app].
  rewrite (words_run w [] 32);
    [|by eapply Forall_impl; [|apply letter_not_blank]|by destruct w|done].
  rewrite (words_run (dec port) [] 10);
    [|by eapply Forall_impl; [|apply digit_not_blank]|by destruct (dec port)|done].
  simpl app. rewrite Hw, bool_decide_eq_true_2 by done. by rewrite D4.
Qed.

(** ** A pipe of bytes *)

#[local] Instance pipe_stream : VsockStream bytes := {|
  stream_write s buf := (Ok (zlen buf), s);
  stream_read s n := (Ok (ztake n s), zdrop n s);
|}.

#[local] Instance pipe_port : PortStream bytes := {|
  stream_read_exact s n := if n <=? zlen s then (Ok (ztake n s), zdrop n s) else (Err (OtherError 0), []);
  recv_data_fd s := Ok (s, [3]);
|}.

Lemma read_line_pipe line : forall fuel buf rest,
  Forall (fun b => b <> 10) line -> last buf <> Some 10 -> (length line < fuel)%nat ->
  read_line fuel buf (line ++ 10 :: rest) = (Ok (buf ++ line ++ [10]), rest).
Proof.
  assert (E : forall b l, stream_read_exact (b :: l) 1 = (Ok [b], l)).
  { intros b l. simpl. by rewrite (proj2 (Z.leb_le 1 _)) by (unfold zlen; simpl; lia). }
  induction line as [|b line IH]; intros fuel buf rest Hl Hb Hf; destruct fuel as [|fuel];
    cbn [length] in Hf; [lia| |lia|]; cbn [read_line app]; rewrite bool_decide_eq_false_2, E by done.
  - destruct fuel; [done|]. cbn [read_line]. rewrite bool_decide_eq_true_2; [done|]. by rewrite last_snoc.
  - inversion Hl; subst. rewrite IH; [by rewrite <- app_assoc|done| |lia].
    rewrite last_snoc. congruence.
Qed.

(** The port command of the host.  For every port, a line
    [connect <port>], with the word in any case and the port in decimal, is
    read as a connection request for that port, and exactly the line is
    consumed from the stream; likewise for [passfd]. *)
Theorem connect_command_roundtrip w port rest :
  to_lowercase w = word_connect -> in_u32 port ->
  read_local_stream_port (w ++ [32] ++ dec port ++ [10] ++ rest) = (Ok (Connect port), rest) /\
  read_local_stream_port (word_passfd ++ [10] ++ rest) = (Ok PassFd, rest).
Proof.
  intros Hw Hp. split; [|done]. pose proof (dec_ok port Hp) as (D1 & D2 & D3 & D4).
  pose proof (lowercase_letters _ _ Hw connect_letters) as Hl.
  assert (Hlen : zlen w = 7).
  { apply (f_equal zlen) in Hw. unfold zlen, to_lowercase in *. by rewrite length_fmap in Hw. }
  unfold read_local_stream_port. cbn [stream_read pipe_stream].
  rewrite ztake_app, zdrop_app by (by rewrite Hlen).
  assert (Hz : zero_pad MIN_READ_LEN w = w).
  { unfold zero_pad. rewrite ztake_all, Hlen by (rewrite Hlen; done). apply app_nil_r. }
  rewrite Hz. change ([32] ++ dec port ++ [10] ++ rest) with ((32 :: dec port) ++ 10 :: rest).
  rewrite read_line_pipe.
  - unfold zero_pad. rewrite ztake_all.
    2: { rewrite !zlen_app, Hlen. unfold zlen, PORT_BUF_LEN. simpl. lia. }
    set (pad := replicate _ _). pose proof (parse_connect w port pad Hw Hp) as P.
    rewrite <- !app_assoc. cbn [app] in *. rewrite <- ?app_assoc. cbn [app].
    rewrite P; [done|]. apply Forall_replicate. lia.
  - constructor; [done|]. eapply Forall_impl; [exact D1|]. intros d Hd%dec_digit. lia.
  - intros E. apply last_Some in E as (l' & ->). apply Forall_app in Hl as [_ Hl]. inversion Hl; lia.
  - simpl. unfold PORT_BUF_LEN, MIN_READ_LEN. lia.
Qed.

Lemma connect_command_roundtrip_witness :
  to_lowercase [67; 79; 78; 78; 69; 67; 84] = word_connect /\
  read_local_stream_port ([67; 79; 78; 78; 69; 67; 84] ++ [32] ++ dec 1024 ++ [10] ++ [1; 2]) =
    (Ok (Connect 1024), [1; 2]).
Proof.
  split; [by vm_compute|].
  apply (connect_command_roundtrip [67; 79; 78; 78; 69; 67; 84] 1024 [1; 2]);
    [by vm_compute|split; by vm_compute].
Defined.

(** ** Short reads

    The first read may return fewer bytes than the minimum; the rest of the
    buffer then stays zero and the remaining bytes of the line are put behind
    it, so a valid command is refused. *)
Lemma short_read_refused :
  parse_command (zero_pad PORT_BUF_LEN
    (zero_pad MIN_READ_LEN [99; 111; 110] ++ [110; 101; 99; 116; 32; 53; 10])) = Err InvalidPortRequest.
Proof. by vm_compute. Qed.
