(* ===== verification/VsockMuxer.v ===== *)
(** The vsock connection multiplexer
    (dbs_virtio_devices/src/vsock/muxer/muxer_impl.rs): routing of packets to
    connections, the epoll listeners, creation and termination of connections.

    Streams, backends and epoll are outside: a stream has a file descriptor and
    a backend type besides reading and writing, and a world [W] holds the epoll
    instance and the backends' sockets.  Each call gets the time of the call as
    [now]; the order in which [HashMap::iter] visits the connections is
    [conn_iter].  Log messages are left out. *)

From S2P Require Import Prelude VsockStream TxBuf VsockPacket VsockConnection VsockQueues VsockPort.

(** ** Types *)

Inductive EpollOp : Type := EPOLL_CTL_ADD | EPOLL_CTL_MOD | EPOLL_CTL_DEL.

Class MuxerEnv (S W : Type) `{PortStream S} := {
  stream_fd : S -> Z;
  stream_backend : S -> VsockBackendType;
  hybrid_stream : Z -> S -> S;
  set_nonblocking : S -> result S ErrorKind;
  epoll_create : W -> result Z ErrorKind * W;
  epoll_ctl : W -> EpollOp -> Z -> Events -> result unit ErrorKind * W;
  epoll_wait : W -> result (list (Z * Events)) ErrorKind * W;
  backend_fd : VsockBackendType -> Z;
  backend_accept : W -> VsockBackendType -> result S ErrorKind * W;
  backend_connect : W -> VsockBackendType -> Z -> result S ErrorKind * W;
  conn_iter : gmap ConnMapKey (VsockConnection S) -> list (ConnMapKey * VsockConnection S);
}.

Section Muxer.
Context {S W : Type} `{MuxerEnv S W}.

Inductive EpollListener : Type :=
| Connection (key : ConnMapKey) (evset : Events) (backend : VsockBackendType)
| Backend (t : VsockBackendType)
| LocalStream (s : S)
| PassFdStream (s : S).

(** [struct VsockMuxer], with the world it acts on. *)
Record VsockMuxer := mkMuxer {
  m_cid : Z;
  m_conn_map : gmap ConnMapKey (VsockConnection S);
  m_listener_map : gmap Z EpollListener;
  m_rxq : MuxerRxQ;
  m_killq : MuxerKillQ;
  m_epoll_fd : Z;
  m_local_port_set : gset Z;
  m_local_port_last : Z;
  m_backend_map : list VsockBackendType;
  m_peer_backend : option VsockBackendType;
  m_world : W;
}.

Definition upd_conns (m : VsockMuxer) x : VsockMuxer :=
  let '(mkMuxer a _ c d e f g h i j k) := m in mkMuxer a x c d e f g h i j k.
Definition upd_listeners (m : VsockMuxer) x : VsockMuxer :=
  let '(mkMuxer a b _ d e f g h i j k) := m in mkMuxer a b x d e f g h i j k.
Definition upd_rxq (m : VsockMuxer) x : VsockMuxer :=
  let '(mkMuxer a b c _ e f g h i j k) := m in mkMuxer a b c x e f g h i j k.
Definition upd_killq (m : VsockMuxer) x : VsockMuxer :=
  let '(mkMuxer a b c d _ f g h i j k) := m in mkMuxer a b c d x f g h i j k.
Definition upd_ports (m : VsockMuxer) x y : VsockMuxer :=
  let '(mkMuxer a b c d e f _ _ i j k) := m in mkMuxer a b c d e f x y i j k.
Definition upd_backends (m : VsockMuxer) x y : VsockMuxer :=
  let '(mkMuxer a b c d e f g h _ _ k) := m in mkMuxer a b c d e f g h x y k.
Definition upd_world (m : VsockMuxer) x : VsockMuxer :=
  let '(mkMuxer a b c d e f g h i j _) := m in mkMuxer a b c d e f g h i j x.

Definition rxq_push (m : VsockMuxer) (rx : MuxerRx) : VsockMuxer :=
  upd_rxq m (RxQ_push (m_rxq m) rx).2.

(** ** [new] and [add_backend] *)

Definition VsockMuxer_new (w : W) (cid : Z) : result VsockMuxer MuxerError * W :=
  match epoll_create w with
  | (Err _, w) => (Err EpollFdCreate, w)
  | (Ok fd, w) =>
      (Ok (mkMuxer cid ∅ ∅ RxQ_default KillQ_default fd ∅ (2 ^ 30 - 1) [] None w), w)
  end.

(** [add_listener] and [remove_listener] *)

Definition listener_evset (l : EpollListener) : Events :=
  match l with
  | Connection _ evset _ => evset
  | LocalStream _ | Backend _ | PassFdStream _ => mkEvents true false
  end.

Definition add_listener (m : VsockMuxer) (fd : Z) (l : EpollListener) :
  result unit MuxerError * VsockMuxer :=
  match epoll_ctl (m_world m) EPOLL_CTL_ADD fd (listener_evset l) with
  | (Err _, w) => (Err EpollAdd, upd_world m w)
  | (Ok _, w) => (Ok tt, upd_listeners (upd_world m w) (<[fd := l]> (m_listener_map m)))
  end.

Definition remove_listener (m : VsockMuxer) (fd : Z) : option EpollListener * VsockMuxer :=
  match m_listener_map m !! fd with
  | None => (None, m)
  | Some l =>
      let m := upd_listeners m (delete fd (m_listener_map m)) in
      (Some l, upd_world m (epoll_ctl (m_world m) EPOLL_CTL_DEL fd (mkEvents false false)).2)
  end.

Definition add_backend (m : VsockMuxer) (t : VsockBackendType) (is_peer_backend : bool) :
  result unit MuxerError * VsockMuxer :=
  if bool_decide (t ∈ m_backend_map m) then (Err (BackendRegistered t), m) else
  match add_listener m (backend_fd t) (Backend t) with
  | (Err e, m) => (Err e, m)
  | (Ok _, m) =>
      (Ok tt, upd_backends m (t :: m_backend_map m)
                (if is_peer_backend then Some t else m_peer_backend m))
  end.

(** ** Local ports *)

(** [(last + 1) & !(1 << 31) | (1 << 30)]. *)
Definition next_local_port (last : Z) : outcome Z :=
  let! x := add_u u32_max last 1 in
  Ret (Z.lor (Z.land x (Z.lxor (Z.shiftl 1 31) u32_max)) (Z.shiftl 1 30)).

(** The loop ends when it finds a port that is not in the set; as many turns as
    the set has elements, and one more, are enough. *)
Fixpoint allocate_port_loop (fuel : nat) (set : gset Z) (last : Z) : outcome Z :=
  match fuel with
  | O => Panic
  | Datatypes.S fuel =>
      let! last := next_local_port last in
      if bool_decide (last ∈ set) then allocate_port_loop fuel set last else Ret last
  end.

Definition allocate_local_port (m : VsockMuxer) : outcome (Z * VsockMuxer) :=
  let! port := allocate_port_loop (Datatypes.S (size (m_local_port_set m)))
                 (m_local_port_set m) (m_local_port_last m) in
  Ret (port, upd_ports m ({[port]} ∪ m_local_port_set m) port).

Definition free_local_port (m : VsockMuxer) (port : Z) : VsockMuxer :=
  upd_ports m (m_local_port_set m ∖ {[port]}) (m_local_port_last m).

(** ** Terminating connections *)

Definition remove_connection (m : VsockMuxer) (key : ConnMapKey) : VsockMuxer :=
  let m := match m_conn_map m !! key with
           | None => m
           | Some conn =>
               (remove_listener (upd_conns m (delete key (m_conn_map m)))
                  (stream_fd (c_stream conn))).2
           end in
  free_local_port m (k_local_port key).

Definition kill_connection (m : VsockMuxer) (key : ConnMapKey) : VsockMuxer :=
  let '(had_rx, m) :=
    match m_conn_map m !! key with
    | None => (false, m)
    | Some conn => (has_pending_rx conn, upd_conns m (<[key := kill conn]> (m_conn_map m)))
    end in
  if negb had_rx then rxq_push m (ConnRx key) else m.

(** [while let Some(key) = self.killq.pop()] of [sweep_killq]. *)
Fixpoint sweep_loop (fuel : nat) (m : VsockMuxer) (now : Z) : VsockMuxer :=
  match fuel with
  | O => m
  | Datatypes.S fuel =>
      match KillQ_pop (m_killq m) now with
      | (None, _) => m
      | (Some key, q) =>
          let m := upd_killq m q in
          let expired := match m_conn_map m !! key with
                         | Some conn => has_expired conn now
                         | None => false
                         end in
          sweep_loop fuel (if expired then kill_connection m key else m) now
      end
  end.

Fixpoint sweep_killq_fuel (fuel : nat) (m : VsockMuxer) (now : Z) : outcome VsockMuxer :=
  match fuel with
  | O => Panic
  | Datatypes.S fuel =>
      let m := sweep_loop (length (kq_q (m_killq m))) m now in
      if KillQ_is_empty (m_killq m) && negb (kq_synced (m_killq m)) then
        let! q := KillQ_from_conn_map now (conn_iter (m_conn_map m)) in
        sweep_killq_fuel fuel (upd_killq m q) now
      else Ret m
  end.

Definition sweep_killq (m : VsockMuxer) (now : Z) : outcome VsockMuxer := sweep_killq_fuel 2 m now.

(** ** Adding connections *)

Definition add_connection (m : VsockMuxer) (key : ConnMapKey) (conn : VsockConnection S) (now : Z) :
  outcome (result unit MuxerError * VsockMuxer) :=
  let! m := sweep_killq m now in
  if Z.of_nat (size (m_conn_map m)) >=? MAX_CONNECTIONS then Ret (Err TooManyConnections, m) else
  match add_listener m (stream_fd (c_stream conn))
          (Connection key (get_polled_evset conn) (stream_backend (c_stream conn))) with
  | (Err e, m) => Ret (Err e, m)
  | (Ok _, m) =>
      let m := if has_pending_rx conn then rxq_push m (ConnRx key) else m in
      Ret (Ok tt, upd_conns m (<[key := conn]> (m_conn_map m)))
  end.

Definition enq_rst (m : VsockMuxer) (local_port peer_port : Z) : VsockMuxer :=
  rxq_push m (RstPkt local_port peer_port).

Definition handle_peer_request_pkt (m : VsockMuxer) (pkt : VsockPacket) (now : Z) :
  outcome VsockMuxer :=
  let refuse m := Ret (enq_rst m (dst_port pkt) (src_port pkt)) in
  match m_peer_backend m with
  | None => refuse m
  | Some t =>
      if bool_decide (t ∈ m_backend_map m) then
        match backend_connect (m_world m) t (dst_port pkt) with
        | (Err _, w) => refuse (upd_world m w)
        | (Ok stream, w) =>
            let! (r, m) := add_connection (upd_world m w) (mkKey (dst_port pkt) (src_port pkt))
              (new_peer_init stream VSOCK_HOST_CID (m_cid m) (dst_port pkt) (src_port pkt)
                 (buf_alloc pkt)) now in
            match r with Ok _ => Ret m | Err _ => refuse m end
        end
      else refuse m
  end.

(** ** Mutations of a connection *)

(** The ack to the host of a connection that has just become established. *)
Definition ack_established (prev_state : ConnState) (key : ConnMapKey) (conn : VsockConnection S) :
  VsockConnection S :=
  if bool_decide (prev_state = LocalInit) && bool_decide (c_state conn = Established) then
    let msg := ok_msg (k_local_port key) in
    match send_bytes_raw conn msg with
    | (Ok written, conn) => if written =? zlen msg then conn else kill conn
    | (Err _, conn) => kill conn
    end
  else conn.

(** The end of [apply_conn_mutation]: the connection's epoll listener. *)
Definition update_listener (m : VsockMuxer) (key : ConnMapKey) (conn : VsockConnection S)
  (backend : VsockBackendType) : VsockMuxer :=
  let fd := stream_fd (c_stream conn) in
  let new_evset := get_polled_evset conn in
  if ev_is_empty new_evset then (remove_listener m fd).2 else
  match m_listener_map m !! fd with
  | Some (Connection k evset b) =>
      if bool_decide (evset = new_evset) then m else
      let m := upd_listeners m (<[fd := Connection k new_evset b]> (m_listener_map m)) in
      match epoll_ctl (m_world m) EPOLL_CTL_MOD fd new_evset with
      | (Ok _, w) => upd_world m w
      | (Err _, w) => kill_connection (upd_world m w) key
      end
  | _ =>
      match add_listener m fd (Connection key new_evset backend) with
      | (Ok _, m) => m
      | (Err _, m) => kill_connection m key
      end
  end.

(** [mut_fn] also returns what the closure of the source stores in captured
    variables. *)
Definition apply_conn_mutation {X} (m : VsockMuxer) (key : ConnMapKey) (now : Z)
  (mut_fn : VsockConnection S -> outcome (X * VsockConnection S)) : outcome (option X * VsockMuxer) :=
  match m_conn_map m !! key with
  | None => Ret (None, m)
  | Some conn =>
      let had_rx := has_pending_rx conn in
      let was_expiring := will_expire conn now in
      let prev_state := c_state conn in
      let backend_type := stream_backend (c_stream conn) in
      let! (x, conn) := mut_fn conn in
      let conn := ack_established prev_state key conn in
      let m := upd_conns m (<[key := conn]> (m_conn_map m)) in
      let m := if negb had_rx && has_pending_rx conn then rxq_push m (ConnRx key) else m in
      let! m :=
        if negb was_expiring && will_expire conn now then
          let! t := unwrap (c_expiry conn) in
          Ret (upd_killq m (KillQ_push (m_killq m) key t))
        else Ret m in
      Ret (Some x, update_listener m key conn backend_type)
  end.

(** ** [VsockChannel for VsockMuxer] *)

(** An RST packet for a pair of ports. *)
Definition rst_pkt (m : VsockMuxer) (pkt : VsockPacket) (local_port peer_port : Z) : VsockPacket :=
  let pkt := set_op pkt VSOCK_OP_RST in
  let pkt := set_src_cid pkt VSOCK_HOST_CID in
  let pkt := set_dst_cid pkt (m_cid m) in
  let pkt := set_src_port pkt local_port in
  let pkt := set_dst_port pkt peer_port in
  let pkt := set_len pkt 0 in
  let pkt := set_type pkt VSOCK_TYPE_STREAM in
  let pkt := set_flags pkt 0 in
  let pkt := set_buf_alloc pkt 0 in
  set_fwd_cnt pkt 0.

(** One turn of the loop of [recv_pkt] for a connection: the result, whether the
    item is done, and the packet. *)
Definition recv_from_conn (m : VsockMuxer) (pkt : VsockPacket) (key : ConnMapKey) (now : Z) :
  outcome (result unit VsockError * VsockPacket * VsockMuxer) :=
  let! (res, m) :=
    apply_conn_mutation m key now (fun conn =>
      let '(r, conn, pkt) := recv_pkt conn pkt now in
      Ret ((r, negb (has_pending_rx conn), pkt), conn)) in
  let '(conn_res, do_pop, pkt) := default (Err NoData, true, pkt) res in
  let! m :=
    if (do_pop : bool) then
      match RxQ_pop (m_rxq m) with
      | (None, _) => Panic
      | (Some _, q) => Ret (upd_rxq m q)
      end
    else Ret m in
  Ret (conn_res, pkt, m).

(** [while let Some(rx) = self.rxq.peek()]. *)
Fixpoint recv_loop (fuel : nat) (m : VsockMuxer) (pkt : VsockPacket) (now : Z) :
  outcome (result unit VsockError * VsockPacket * VsockMuxer) :=
  match fuel with
  | O => Panic
  | Datatypes.S fuel =>
      match RxQ_peek (m_rxq m) with
      | None => Ret (Err NoData, pkt, m)
      | Some (RstPkt local_port peer_port) =>
          match RxQ_pop (m_rxq m) with
          | (None, _) => Panic
          | (Some _, q) => Ret (Ok tt, rst_pkt m pkt local_port peer_port, upd_rxq m q)
          end
      | Some (ConnRx key) =>
          let! (res, pkt, m) := recv_from_conn m pkt key now in
          match res with
          | Ok _ =>
              let m := if op pkt =? VSOCK_OP_RST
                       then remove_connection m (mkKey (src_port pkt) (dst_port pkt)) else m in
              Ret (Ok tt, pkt, m)
          | Err _ => recv_loop fuel m pkt now
          end
      end
  end.

(** A turn either returns, drops an item whose connection has no RST to yield,
    or is followed by one that returns. *)
Definition mux_recv_pkt (m : VsockMuxer) (pkt : VsockPacket) (now : Z) :
  outcome (result unit VsockError * VsockPacket * VsockMuxer) :=
  let m := if RxQ_is_empty (m_rxq m) && negb (rxq_synced (m_rxq m))
           then upd_rxq m (RxQ_from_conn_map (conn_iter (m_conn_map m))) else m in
  recv_loop (length (rxq_q (m_rxq m)) + 3) m pkt now.

Definition mux_send_pkt (m : VsockMuxer) (pkt : VsockPacket) (now : Z) :
  outcome (result unit VsockError * VsockMuxer) :=
  let conn_key := mkKey (dst_port pkt) (src_port pkt) in
  if negb (type_ pkt =? VSOCK_TYPE_STREAM) then
    Ret (Ok tt, enq_rst m (dst_port pkt) (src_port pkt)) else
  if negb (dst_cid pkt =? VSOCK_HOST_CID) then Ret (Ok tt, m) else
  if bool_decide (is_Some (m_conn_map m !! conn_key)) then
    if op pkt =? VSOCK_OP_RST then Ret (Ok tt, remove_connection m conn_key) else
    let! (res, m) := apply_conn_mutation m conn_key now (fun conn => send_pkt conn pkt now) in
    Ret (default (Ok tt) res, m)
  else if op pkt =? VSOCK_OP_REQUEST then
    let! m := handle_peer_request_pkt m pkt now in Ret (Ok tt, m)
  else Ret (Ok tt, enq_rst m (dst_port pkt) (src_port pkt)).

Definition mux_has_pending_rx (m : VsockMuxer) : bool :=
  negb (RxQ_is_empty (m_rxq m)) || negb (rxq_synced (m_rxq m)).

(** ** [VsockEpollListener for VsockMuxer] *)

Definition mux_get_polled_evset (m : VsockMuxer) : Events := mkEvents true false.

(** A host-initiated connection on [stream] to [peer_port]. *)
Definition connect_local (m : VsockMuxer) (stream : S) (local_port peer_port now : Z) :
  outcome VsockMuxer :=
  let! (_, m) := add_connection m (mkKey local_port peer_port)
    (new_local_init stream VSOCK_HOST_CID (m_cid m) local_port peer_port) now in
  Ret m.

Definition handle_event (m : VsockMuxer) (fd : Z) (event_set : Events) (now : Z) :
  outcome VsockMuxer :=
  match m_listener_map m !! fd with
  | Some (Connection key _ _) =>
      let! (_, m) := apply_conn_mutation m key now (fun conn =>
        let! conn := notify conn event_set in Ret (tt, conn)) in
      Ret m
  | Some (Backend t) =>
      if bool_decide (t ∈ m_backend_map m) then
        let '(r, w) := backend_accept (m_world m) t in
        let m := upd_world m w in
        if RxQ_len (m_rxq m) =? MAX_CONNECTIONS then Ret m else
        match r with
        | Err _ => Ret m
        | Ok stream => Ret (add_listener m (stream_fd stream) (LocalStream stream)).2
        end
      else Ret m
  | Some (LocalStream stream) =>
      let m := (remove_listener m fd).2 in
      let '(r, stream) := read_local_stream_port stream in
      match r with
      | Err _ => Ret m
      | Ok (Connect peer_port) =>
          let! (local_port, m) := allocate_local_port m in
          connect_local m stream local_port peer_port now
      | Ok PassFd => Ret (add_listener m (stream_fd stream) (PassFdStream stream)).2
      end
  | Some (PassFdStream stream) =>
      let m := (remove_listener m fd).2 in
      match passfd_read_port_and_fd stream with
      | Err _ => Ret m
      | Ok (nfd, peer_port) =>
          let! (local_port, m) := allocate_local_port m in
          match set_nonblocking (hybrid_stream nfd stream) with
          | Err _ => Ret m
          | Ok hybridstream => connect_local m hybridstream local_port peer_port now
          end
      end
  | None => Ret m
  end.

(** [notify]: the events epoll has collected, in order.  Their flags are ones that epoll defines, as
    [Events::from_bits] requires, and the clock stands still meanwhile. *)
Fixpoint handle_events (m : VsockMuxer) (evs : list (Z * Events)) (now : Z) : outcome VsockMuxer :=
  match evs with
  | [] => Ret m
  | (fd, ev) :: evs => let! m := handle_event m fd ev now in handle_events m evs now
  end.

Definition mux_notify (m : VsockMuxer) (now : Z) : outcome VsockMuxer :=
  match epoll_wait (m_world m) with
  | (Err _, w) => Ret (upd_world m w)
  | (Ok evs, w) => handle_events (upd_world m w) evs now
  end.
End Muxer.
Arguments VsockMuxer S W : clear implicits.
