(* ===== verification/VsockMuxerSpec.v ===== *)
(** The invariant of the vsock muxer and its preservation by the operations on
    connections: well-formed connections under their keys, bounded queues, and
    an RX queue that, when in sync, knows every connection with something to
    say. *)

From S2P Require Import Prelude VsockStream TxBuf VsockPacket VsockConnection.
From S2P Require Import VsockConnectionSpec VsockConnectionProps VsockQueues VsockPort.
From S2P Require Import VsockMuxer.

(** ** Connections *)

Section Conn.
Context {S : Type} `{StreamLaws S}.
Implicit Types c : VsockConnection S.

Definition conn_wf c : Prop :=
  txbuf_wf (c_tx_buf c) /\ pending_ok (c_pending_rx c) /\ in_u32 (c_fwd_cnt c) /\ in_u32 (c_rx_cnt c) /\
  (prx_contains (c_pending_rx c) Response = true -> c_state c <> LocalInit).

(** The addresses of a connection. *)
Definition ids c : Z * Z * Z * Z := (c_local_cid c, c_peer_cid c, c_local_port c, c_peer_port c).

(** A well-formed successor with the same addresses. *)
Definition conn_next c c' : Prop := conn_wf c' /\ ids c' = ids c.

Lemma next_trans c1 c2 c3 : conn_next c1 c2 -> conn_next c2 c3 -> conn_next c1 c3.
Proof. intros [_ E1] [W E2]. split; [done|congruence]. Qed.

Lemma next_pend c it : conn_wf c -> it <> Response -> conn_next c (pend c it).
Proof.
  intros (? & ? & ? & ? & Hr) Hit. destruct c.
  split; [split_and!|]; simpl in *; auto using pending_insert_ok.
  rewrite pending_contains_insert, bool_decide_eq_false_2 by done. done.
Qed.

Lemma next_state c st : conn_wf c -> st <> LocalInit -> conn_next c (upd_state c st).
Proof. intros (? & ? & ? & ? & _) ?. destruct c. by split; [split_and!|]. Qed.

Lemma next_kill c : conn_wf c -> conn_next c (kill c).
Proof.
  intros Hw. pose proof (next_state c Killed Hw ltac:(done)) as Hs.
  eapply next_trans; [exact Hs|]. by apply next_pend; [apply Hs|].
Qed.

Lemma next_check c : conn_wf c -> conn_next c (if peer_needs_credit_update c then pend c CreditUpdate else c).
Proof. intros. destruct (peer_needs_credit_update c); [by apply next_pend|done]. Qed.

Lemma next_forwarded c s b f :
  conn_wf c -> txbuf_wf b -> in_u32 f -> conn_next c (forwarded c s b f).
Proof. intros (? & ? & ? & ? & ?) ? ?. by destruct c. Qed.

Lemma next_send_rw c pkt :
  conn_wf c -> pkt_valid pkt -> exists c', send_rw c pkt = Ret c' /\ conn_next c c'.
Proof.
  intros Hw [Ht Hv]. unfold send_rw. destruct (buf pkt) as [b|]; [|by exists c].
  destruct Ht as (_ & _ & _ & _ & Hlen & _). fold (pkt_len pkt) in Hlen.
  rewrite slice_ret by ulia. cbn [obind].
  destruct (send_bytes_ok c (ztake (pkt_len pkt - 0) (zdrop 0 b))) as (r & s & b' & f & kept & lost & -> & _ & Hf & _);
    [apply Hw..|]. cbn [obind].
  assert (Hn : conn_next c (forwarded c s b' f)).
  { destruct Hf as (Hwf & _ & _ & _ & ->). apply next_forwarded; [done..|apply mod_u32]. }
  destruct r; eexists; (split; [done|]); (eapply next_trans; [exact Hn|]); apply next_check || apply next_kill; apply Hn.
Qed.

Lemma next_credit c x y : conn_wf c -> conn_next c (upd_peer_credit c x y).
Proof. by destruct c. Qed.

Lemma next_send_pkt c pkt now :
  conn_wf c -> pkt_valid pkt -> exists c', send_pkt c pkt now = Ret (Ok tt, c') /\ conn_next c c'.
Proof.
  intros Hw Hv. pose proof (next_credit c (buf_alloc pkt) (fwd_cnt pkt) Hw) as Hn.
  unfold send_pkt. set (c1 := upd_peer_credit c (buf_alloc pkt) (fwd_cnt pkt)) in *. clearbody c1.
  destruct (_ && (op pkt =? VSOCK_OP_RW)).
  { destruct (next_send_rw c1 pkt) as (c' & -> & Hn'); [apply Hn|done|].
    exists c'. split; [done|by eapply next_trans]. }
  assert (Hp : forall c2 it, conn_next c c2 -> it <> Response -> conn_next c (pend c2 it)).
  { intros c2 it H2 Hit. eapply next_trans; [exact H2|]. by apply next_pend; [apply H2|]. }
  assert (He : forall c2 x, conn_next c c2 -> conn_next c (upd_expiry c2 x)).
  { intros c2 x H2. by destruct c2. }
  assert (Hs : forall c2 st, conn_next c c2 -> st <> LocalInit -> conn_next c (upd_state c2 st)).
  { intros c2 st H2 Hst. eapply next_trans; [exact H2|]. by apply next_state; [apply H2|]. }
  repeat case_match; cbn [obind]; eexists; (split; [reflexivity|]); auto.
Qed.

Lemma next_notify c ev : conn_wf c -> exists c', notify c ev = Ret c' /\ conn_next c c'.
Proof.
  intros Hw. unfold notify.
  assert (Hn : conn_next c (if EPOLLIN ev then pend c Rw else c))
    by (destruct (EPOLLIN ev); [by apply next_pend|done]).
  set (c1 := if EPOLLIN ev then _ else _) in *. clearbody c1.
  destruct (EPOLLOUT ev); [|by exists c1]. destruct (TxBuf_is_empty _); [by exists c1|].
  pose proof Hn as [(Htx & _) _].
  destruct (flush_to_ok (c_tx_buf c1) (c_stream c1) Htx) as (r & b & s & fl & Ef & Hwf & Hfl).
  unfold TxBuf_flush_to. rewrite Ef. cbn [obind].
  assert (Hend : forall c2, conn_next c c2 -> conn_next c
    (if bool_decide (c_state c2 = PeerClosed true true) && TxBuf_is_empty (c_tx_buf c2) then pend c2 Rst
     else if peer_needs_credit_update c2 then pend c2 CreditUpdate else c2)).
  { intros c2 H2. eapply next_trans; [exact H2|].
    destruct (_ && _); [by apply next_pend; [apply H2|]|apply next_check, H2]. }
  assert (Hfw : forall f, in_u32 f -> conn_next c (forwarded c1 s b f)).
  { intros f Hf'. eapply next_trans; [exact Hn|]. by apply next_forwarded; [apply Hn|..]. }
  assert (Hk : forall f, in_u32 f -> conn_next c (kill (forwarded c1 s b f))).
  { intros f Hf'. eapply next_trans; [by apply Hfw|]. apply next_kill, Hfw. done. }
  destruct r as [n|[|[]|]]; (eexists; split; [reflexivity|]); apply Hend; destruct c1; simpl in *;
    first [apply Hfw, wadd_u32 | apply Hk, wadd_u32].
Qed.

Lemma next_without c it : conn_wf c -> conn_next c (without c it).
Proof.
  intros (? & ? & ? & ? & Hr). pose proof (pending_remove_ok (c_pending_rx c) it).
  pose proof (pending_contains_remove (c_pending_rx c) it Response) as Hc. destruct c.
  split; [split_and!|]; simpl in *; auto. rewrite Hc by done. intros E. bools. auto.
Qed.

(** [recv_pkt]: everything but the error case keeps the connection well-formed
    by what [recv_ok] says; the pending set only shrinks. *)
Lemma next_recv_credit c p : conn_wf c -> let '(_, c', _) := recv_credit_update c p in conn_next c c'.
Proof.
  intros Hw. pose proof (next_without c CreditUpdate Hw) as Hn. unfold recv_credit_update, without in *.
  destruct (prx_remove _ _) as [had q]. destruct (had && _); [by destruct c|done].
Qed.

Lemma next_recv_read c p now : conn_wf c -> let '(_, c', _) := recv_read c p now in conn_next c c'.
Proof.
  intros Hw. unfold recv_read. pose proof Hw as (? & ? & ? & ? & ?).
  destruct (need_credit_update_from_peer c); [by destruct c|]. destruct (buf p) as [b|]; [|by destruct c].
  destruct (stream_read _ _) as [[bs|[]] s]; [| |by destruct c].
  - destruct (zlen bs =? 0); destruct c; (split; [split_and!|]); simpl in *; auto; try apply wadd_u32; done.
  - pose proof (next_recv_credit (upd_stream c s) p) as Hn.
    destruct (recv_credit_update _ _) as [[r c'] p']. destruct c. by apply Hn.
Qed.

Lemma next_recv_pkt c p now : conn_wf c -> let '(_, c', _) := recv_pkt c p now in conn_next c c'.
Proof.
  intros Hw. rewrite recv_pkt_cases by apply Hw. cbv zeta.
  assert (Hwo : forall it, conn_next c (without c it)) by (intros; by apply next_without).
  destruct (prx_contains _ Rst); [auto|].
  destruct (prx_contains _ Response);
    [eapply next_trans; [apply (Hwo Response)|]; by apply next_state; [apply Hwo|]|].
  destruct (prx_contains _ Request); [specialize (Hwo Request); by destruct c|].
  destruct (prx_contains _ Rw); [|by apply next_recv_credit].
  unfold recv_rw. pose proof (next_recv_read (without c Rw) (init_pkt c p) now) as Hr.
  destruct (c_state (without c Rw)) as [| | | |[] ?|]; try (by apply Hwo).
  all: destruct (recv_read _ _ _) as [[r c'] p']; eapply next_trans; [apply (Hwo Rw)|]; apply Hr, Hwo.
Qed.

(** Only a credit update may be pending. *)
Definition credit_only c : Prop := c_pending_rx c = 0 \/ c_pending_rx c = into_mask CreditUpdate.

Lemma recv_credit_err c p e c' p' :
  credit_only c -> recv_credit_update c p = (Err e, c', p') -> c_pending_rx c' = 0 /\ c_state c' = c_state c.
Proof.
  intros Hc. unfold recv_credit_update, has_pending_rx.
  destruct Hc as [Hc|Hc]; rewrite Hc; simpl; [|destruct c; done]. destruct c. by intros [= _ <- _].
Qed.

(** With at most a credit update pending, a receive fails only if nothing is. *)
Lemma recv_read_pending c p now e c' p' :
  credit_only c -> recv_read c p now = (Err e, c', p') -> credit_only c' /\ c_state c' = c_state c.
Proof.
  intros Hc. unfold recv_read. destruct (need_credit_update_from_peer c); [done|].
  destruct (buf p) as [b|]; [|by intros [= _ <- _]].
  destruct (stream_read _ _) as [[bs|[]] s]; [by destruct (zlen bs =? 0)| |done].
  intros Hr. apply recv_credit_err in Hr as [Hp Hs]; [|by destruct c].
  split; [by left|]. rewrite Hs. by destruct c.
Qed.

(** A receive that fails found no RST and leaves at most a credit update. *)
Lemma recv_err_pending c p now e c' p' :
  conn_wf c -> recv_pkt c p now = (Err e, c', p') ->
  prx_contains (c_pending_rx c) Rst = false /\ credit_only c' /\ c_state c' = c_state c.
Proof.
  intros (_ & Hp & _). rewrite recv_pkt_cases by done. cbv zeta.
  destruct (prx_contains (c_pending_rx c) Rst) eqn:E1; [done|].
  destruct (prx_contains (c_pending_rx c) Response) eqn:E2; [done|].
  destruct (prx_contains (c_pending_rx c) Request) eqn:E3; [done|].
  destruct (prx_contains (c_pending_rx c) Rw) eqn:E4; intros Hr; (split; [done|]).
  - assert (Hc : credit_only (without c Rw)).
    { unfold credit_only. rewrite without_pending. set (q := (prx_remove (c_pending_rx c) Rw).2).
      assert (Hq : forall it, prx_contains q it = negb (bool_decide (Rw = it)) && prx_contains (c_pending_rx c) it)
        by (intros; by apply pending_contains_remove).
      rewrite (pending_credit_only q); [|by apply pending_remove_ok|by rewrite Hq, ?E1, ?E2, ?E3..].
      destruct (prx_contains q CreditUpdate); auto. }
    replace (c_state c) with (c_state (without c Rw)) by (by destruct c). unfold recv_rw in Hr.
    destruct (c_state (without c Rw)) as [| | | |[] ?|] eqn:Est; try done;
      rewrite <- Est; by eapply recv_read_pending.
  - apply recv_credit_err in Hr as [Hq Hs]; [split; [by left|done]|].
    unfold credit_only. rewrite (pending_credit_only (c_pending_rx c)) by done.
    destruct (prx_contains _ CreditUpdate); auto.
Qed.

(** What is surely yielded. *)
Lemma recv_rst c p now :
  conn_wf c -> prx_contains (c_pending_rx c) Rst = true \/ c_pending_rx c = into_mask CreditUpdate ->
  exists c' p', recv_pkt c p now = (Ok tt, c', p').
Proof.
  intros (_ & Hp & _) Hc. rewrite recv_pkt_cases by done. cbv zeta. destruct Hc as [E|E].
  - rewrite E. eauto.
  - assert (prx_contains (c_pending_rx c) Rst = false /\ prx_contains (c_pending_rx c) Response = false /\
      prx_contains (c_pending_rx c) Request = false /\ prx_contains (c_pending_rx c) Rw = false)
      as (-> & -> & -> & ->) by (by rewrite E).
    unfold recv_credit_update, has_pending_rx. rewrite E. simpl. destruct c. simpl. eauto.
Qed.

Lemma next_ack st key c : conn_wf c -> conn_next c (ack_established st key c).
Proof.
  intros Hw. unfold ack_established. destruct (_ && _); [|done]. unfold send_bytes_raw.
  destruct (stream_write _ _) as [[w|e] s];
    assert (Hs : conn_next c (upd_stream c s)) by (by destruct c); [destruct (w =? _); [done|]|];
    (eapply next_trans; [exact Hs|]; apply next_kill, Hs).
Qed.
End Conn.

(** ** The muxer *)

Section Mux.
Context {S W : Type} `{Hstream : VsockStream S} `{!PortStream S} `{!MuxerEnv S W} `{!StreamLaws S}.
Implicit Types m : VsockMuxer S W.
Implicit Types c : VsockConnection S.

(** [HashMap::iter] visits every entry once. *)
Definition iter_law : Prop :=
  forall conns : gmap ConnMapKey (VsockConnection S), conn_iter conns ≡ₚ map_to_list conns.

(** A queue in sync knows every connection with something pending. *)
Definition covers (conns : gmap ConnMapKey (VsockConnection S)) (r : MuxerRxQ) : Prop :=
  rxq_synced r = true -> forall k c, conns !! k = Some c -> has_pending_rx c = true -> ConnRx k ∈ rxq_q r.

(** A connection under its key. *)
Definition keyed (cid : Z) (k : ConnMapKey) c : Prop :=
  conn_wf c /\ ids c = (VSOCK_HOST_CID, cid, k_local_port k, k_peer_port k).

Record mux_inv m : Prop := {
  mi_rxq : RxQ_len (m_rxq m) <= MUXER_RXQ_SIZE;
  mi_killq : zlen (kq_q (m_killq m)) <= MUXER_KILLQ_SIZE;
  mi_size : Z.of_nat (size (m_conn_map m)) <= MAX_CONNECTIONS;
  mi_covers : covers (m_conn_map m) (m_rxq m);
  mi_conns : map_Forall (keyed (m_cid m)) (m_conn_map m);
  mi_port : 2 ^ 30 - 1 <= m_local_port_last m < 2 ^ 31;
}.

(** The parts the invariant is about. *)
Definition same_core m m' : Prop :=
  m_cid m' = m_cid m /\ m_conn_map m' = m_conn_map m /\ m_rxq m' = m_rxq m /\
  m_killq m' = m_killq m /\ m_local_port_last m' = m_local_port_last m /\
  m_local_port_set m' = m_local_port_set m.

Lemma inv_same m m' : mux_inv m -> same_core m m' -> mux_inv m'.
Proof. intros [] (E1 & E2 & E3 & E4 & E5 & E6). split; rewrite ?E1, ?E2, ?E3, ?E4, ?E5; done. Qed.

Lemma same_trans m1 m2 m3 : same_core m1 m2 -> same_core m2 m3 -> same_core m1 m3.
Proof.
  intros (E1 & E2 & E3 & E4 & E5 & E6) (F1 & F2 & F3 & F4 & F5 & F6).
  split_and!; congruence.
Qed.

Lemma same_world m w : same_core m (upd_world m w).
Proof. by destruct m. Qed.

Lemma same_add_listener m fd l : same_core m (add_listener m fd l).2.
Proof. unfold add_listener. destruct (epoll_ctl _ _ _ _) as [[[]|] w]; by destruct m. Qed.

Lemma same_remove_listener m fd : same_core m (remove_listener m fd).2.
Proof. unfold remove_listener. destruct (m_listener_map m !! fd); by destruct m. Qed.

(** Another pool and RX queue, everything else as before. *)
Definition with_conns m conns r m' : Prop :=
  m_cid m' = m_cid m /\ m_conn_map m' = conns /\ m_rxq m' = r /\ m_killq m' = m_killq m /\
  m_local_port_last m' = m_local_port_last m /\ m_local_port_set m' = m_local_port_set m.

Lemma inv_with_conns m m' conns r :
  mux_inv m -> with_conns m conns r m' -> RxQ_len r <= MUXER_RXQ_SIZE ->
  Z.of_nat (size conns) <= MAX_CONNECTIONS -> covers conns r -> map_Forall (keyed (m_cid m)) conns ->
  mux_inv m'.
Proof.
  intros [] (E1 & E2 & E3 & E4 & E5 & E6) ? ? ? ?. split; rewrite ?E1, ?E2, ?E3, ?E4, ?E5; done.
Qed.

Lemma with_same m conns r m1 m2 : with_conns m conns r m1 -> same_core m1 m2 -> with_conns m conns r m2.
Proof.
  intros (E1 & E2 & E3 & E4 & E5 & E6) (F1 & F2 & F3 & F4 & F5 & F6). split_and!; congruence.
Qed.

Lemma covers_insert conns r r' k c :
  covers conns r -> rxq_extends r r' ->
  (rxq_synced r' = true -> has_pending_rx c = true -> ConnRx k ∈ rxq_q r') ->
  covers (<[k := c]> conns) r'.
Proof.
  intros Hc He Hk Hs k' c' Hl Hp. apply lookup_insert_Some in Hl as [[<- <-]|[_ Hl]]; [auto|].
  destruct (He Hs) as [Hs' Hin]. by apply Hin, (Hc Hs' k' c').
Qed.

Lemma covers_push conns r rx : covers conns r -> covers conns (RxQ_push r rx).2.
Proof. intros Hc Hs k c Hl Hp. destruct (push_extends r rx Hs) as [Hs' Hin]. by apply Hin, (Hc Hs' k c). Qed.

Lemma covers_delete conns r k : covers conns r -> covers (delete k conns) r.
Proof. intros Hc Hs k' c Hl Hp. apply lookup_delete_Some in Hl as [_ Hl]. by apply (Hc Hs k' c). Qed.

Lemma size_insert_present (conns : gmap ConnMapKey (VsockConnection S)) k c c' :
  conns !! k = Some c -> size (<[k := c']> conns) = size conns.
Proof. intros Hl. by apply map_size_insert_Some. Qed.

(** *** Killing a connection *)

Definition killed_conns m key : gmap ConnMapKey (VsockConnection S) :=
  match m_conn_map m !! key with
  | Some c => <[key := kill c]> (m_conn_map m)
  | None => m_conn_map m
  end.

Definition killed_rxq m key : MuxerRxQ :=
  if match m_conn_map m !! key with Some c => has_pending_rx c | None => false end
  then m_rxq m else (RxQ_push (m_rxq m) (ConnRx key)).2.

Lemma kill_connection_ok m key :
  mux_inv m ->
  let m' := kill_connection m key in
  mux_inv m' /\ with_conns m (killed_conns m key) (killed_rxq m key) m'.
Proof.
  intros Hi. unfold kill_connection, killed_conns, killed_rxq. pose proof (mi_covers _ Hi) as Hcov.
  destruct (m_conn_map m !! key) as [c|] eqn:El.
  - pose proof (mi_conns _ Hi key c El) as [Hw Hids]. destruct (next_kill c Hw) as [Hw' Hids'].
    assert (Hall : map_Forall (keyed (m_cid m)) (<[key := kill c]> (m_conn_map m))).
    { apply map_Forall_insert_2; [|apply Hi]. split; [done|congruence]. }
    assert (Hsz : Z.of_nat (size (<[key := kill c]> (m_conn_map m))) <= MAX_CONNECTIONS).
    { rewrite (size_insert_present _ _ c) by done. apply Hi. }
    set (conns := <[key := kill c]> (m_conn_map m)) in *. cbv zeta.
    match goal with |- mux_inv ?x /\ with_conns _ _ ?r _ =>
      assert (Hwc : with_conns m conns r x) by (destruct (has_pending_rx c); by destruct m) end.
    split; [|exact Hwc]. eapply inv_with_conns; [exact Hi|exact Hwc| |done| |done].
    + destruct (has_pending_rx c); [apply Hi|apply push_bound, Hi].
    + destruct (has_pending_rx c) eqn:Ep; (eapply covers_insert; [exact Hcov| |]).
      * apply rxq_extends_refl.
      * intros Hs _. by apply (Hcov Hs key c).
      * apply push_extends.
      * intros Hs _. by apply push_conn.
  - cbv zeta. match goal with |- mux_inv ?x /\ with_conns _ _ ?r _ =>
      assert (Hwc : with_conns m (m_conn_map m) r x) by (by destruct m) end.
    split; [|exact Hwc].
    eapply inv_with_conns; [exact Hi|exact Hwc|apply push_bound, Hi|apply Hi|by apply covers_push|apply Hi].
Qed.

(** *** The listener of a connection *)

(** Listeners aside, an update of the listener changes nothing, or kills the
    connection because epoll refused it. *)
(** epoll refuses to watch [fd]. *)
Definition watch_fails (w : W) (fd : Z) (ev : Events) : Prop :=
  exists op e w', op <> EPOLL_CTL_DEL /\ epoll_ctl w op fd ev = (Err e, w').

Lemma add_listener_fails m fd l e m' :
  add_listener m fd l = (Err e, m') -> watch_fails (m_world m) fd (listener_evset l).
Proof. unfold add_listener. destruct (epoll_ctl _ _ _ _) as [[|e1] w1] eqn:E; [done|]. intros _. by exists EPOLL_CTL_ADD, e1, w1. Qed.

Lemma update_listener_ok m key conn b :
  mux_inv m ->
  let m' := update_listener m key conn b in
  mux_inv m' /\
  (same_core m m' \/
   with_conns m (killed_conns m key) (killed_rxq m key) m' /\ watch_fails (m_world m) (stream_fd (c_stream conn)) (get_polled_evset conn)).
Proof.
  intros Hi m'. set (fails := watch_fails _ _ _).
  assert (Hres : same_core m m' \/ (exists m1, same_core m m1 /\ m' = kill_connection m1 key) /\ fails).
  { subst m'. unfold update_listener. destruct (ev_is_empty _); [left; apply same_remove_listener|].
    set (fd := stream_fd (c_stream conn)). set (ev := get_polled_evset conn).
    assert (Hadd : let l := Connection key ev b in let m2 := match add_listener m fd l with
                      | (Ok _, m) => m | (Err _, m) => kill_connection m key end in
      same_core m m2 \/ (exists m1, same_core m m1 /\ m2 = kill_connection m1 key) /\ fails).
    { intros l. pose proof (same_add_listener m fd l) as Hs.
      destruct (add_listener m fd l) as [[[]|e] m1] eqn:El; simpl in *; [eauto|]. right.
      split; [eauto|]. exact (add_listener_fails _ _ _ _ _ El). }
    destruct (m_listener_map m !! fd) as [[k evset bk| | |]|]; try apply Hadd.
    case_bool_decide; [by left|]. set (m1 := upd_listeners m _).
    destruct (epoll_ctl (m_world m1) EPOLL_CTL_MOD fd ev) as [[[]|e] w] eqn:Ew; [left; by destruct m|].
    right. split; [exists (upd_world m1 w); split; [by destruct m|done]|].
    exists EPOLL_CTL_MOD, e, w. split; [done|]. rewrite <- Ew. by destruct m. }
  destruct Hres as [Hs|[(m1 & Hs & ->) Hf]]; [split; [by eapply inv_same|by left]|].
  pose proof (inv_same _ _ Hi Hs) as Hi1. destruct (kill_connection_ok m1 key Hi1) as [Hi' Hw].
  split; [done|]. right. split; [|done]. destruct Hs as (E1 & E2 & E3 & E4 & E5 & E6).
  unfold killed_conns, killed_rxq in *. rewrite E2, E3 in Hw.
  destruct Hw as (F1 & F2 & F3 & F4 & F5 & F6). split_and!; congruence.
Qed.

(** *** Mutating a connection *)

Lemma inv_killq m q :
  mux_inv m -> zlen (kq_q q) <= MUXER_KILLQ_SIZE -> mux_inv (upd_killq m q).
Proof. intros [] ?. destruct m; split; simpl in *; done. Qed.

Lemma killq_push_bound k key t :
  zlen (kq_q k) <= MUXER_KILLQ_SIZE -> zlen (kq_q (KillQ_push k key t)) <= MUXER_KILLQ_SIZE.
Proof.
  intros Hl. unfold KillQ_push, KillQ_is_full. destruct (negb _ || _) eqn:E; [done|]. bools.
  cbn [kq_q]. rewrite zlen_app. change (zlen [mkKillItem key t]) with 1. lia.
Qed.

(** The RX queue once a connection went from [c] to [c']. *)
Definition sched_rxq (r : MuxerRxQ) key c c' : MuxerRxQ :=
  if negb (has_pending_rx c) && has_pending_rx c' then (RxQ_push r (ConnRx key)).2 else r.

Lemma inv_sched m key c c' :
  mux_inv m -> m_conn_map m !! key = Some c -> conn_next c c' ->
  let m1 := upd_conns m (<[key := c']> (m_conn_map m)) in
  let m2 := if negb (has_pending_rx c) && has_pending_rx c' then rxq_push m1 (ConnRx key) else m1 in
  mux_inv m2 /\ with_conns m (<[key := c']> (m_conn_map m)) (sched_rxq (m_rxq m) key c c') m2.
Proof.
  intros Hi Hl [Hw Hids] m1 m2. pose proof (mi_covers _ Hi) as Hcov.
  destruct (mi_conns _ Hi key c Hl) as [_ Hk].
  assert (Hwc : with_conns m (<[key := c']> (m_conn_map m)) (sched_rxq (m_rxq m) key c c') m2).
  { subst m2 m1. unfold sched_rxq. destruct (_ && _); by destruct m. }
  split; [|done]. eapply inv_with_conns; [exact Hi|exact Hwc|..].
  - unfold sched_rxq. destruct (_ && _); [apply push_bound|]; apply Hi.
  - rewrite (size_insert_present _ _ c) by done. apply Hi.
  - unfold sched_rxq. destruct (has_pending_rx c) eqn:E1; destruct (has_pending_rx c') eqn:E2; simpl;
      (eapply covers_insert; [exact Hcov|apply rxq_extends_refl || apply push_extends|]); try congruence.
    + intros Hs _. by apply (Hcov Hs key c).
    + intros Hs _. by apply push_conn.
  - apply map_Forall_insert_2; [|apply Hi]. split; [done|congruence].
Qed.

Lemma apply_ok {X} m key now (f : VsockConnection S -> outcome (X * VsockConnection S)) c x c1 :
  mux_inv m -> m_conn_map m !! key = Some c -> f c = Ret (x, c1) -> conn_next c c1 ->
  let c2 := ack_established (c_state c) key c1 in
  let r := sched_rxq (m_rxq m) key c c2 in
  exists m', apply_conn_mutation m key now f = Ret (Some x, m') /\ mux_inv m' /\
    m_cid m' = m_cid m /\ m_local_port_set m' = m_local_port_set m /\
    ((m_conn_map m' = <[key := c2]> (m_conn_map m) /\ m_rxq m' = r) \/
     (m_conn_map m' = <[key := kill c2]> (m_conn_map m) /\
      m_rxq m' = (if has_pending_rx c2 then r else (RxQ_push r (ConnRx key)).2) /\
      watch_fails (m_world m) (stream_fd (c_stream c2)) (get_polled_evset c2))).
Proof.
  intros Hi Hl Hf Hn c2 r. unfold apply_conn_mutation. rewrite Hl, Hf. cbn [obind]. fold c2.
  assert (Hn2 : conn_next c c2) by (eapply next_trans; [exact Hn|]; apply next_ack, Hn).
  destruct (inv_sched m key c c2 Hi Hl Hn2) as [Hi2 Hw2].
  set (m2 := if negb (has_pending_rx c) && has_pending_rx c2 then _ else _) in *.
  assert (Hw : m_world m2 = m_world m) by (subst m2; destruct (_ && _); by destruct m). clearbody m2.
  assert (Hkq : exists m3, (if negb (will_expire c now) && will_expire c2 now
      then (let! t := unwrap (c_expiry c2) in Ret (upd_killq m2 (KillQ_push (m_killq m2) key t)))
      else Ret m2) = Ret m3 /\ mux_inv m3 /\
    m_cid m3 = m_cid m /\ m_local_port_set m3 = m_local_port_set m /\
    m_conn_map m3 = <[key := c2]> (m_conn_map m) /\ m_rxq m3 = r /\ m_world m3 = m_world m).
  { destruct Hw2 as (E1 & E2 & E3 & E4 & E5 & E6). destruct (_ && _) eqn:E; [|by exists m2].
    bools. unfold will_expire in *. destruct (c_expiry c2) as [t|]; [|done]. eexists. split; [done|].
    split; [apply inv_killq; [done|apply killq_push_bound, Hi2]|]. by destruct m2. }
  destruct Hkq as (m3 & -> & Hi3 & E1 & E2 & E3 & E4 & E5). cbn [obind]. eexists. split; [done|].
  destruct (update_listener_ok m3 key c2 (stream_backend (c_stream c)) Hi3) as [Hi4 Hc].
  split; [done|]. unfold killed_conns, killed_rxq in Hc. rewrite E3, lookup_insert_eq, E4 in Hc.
  rewrite insert_insert_eq, E5 in Hc.
  destruct Hc as [(F1 & F2 & F3 & F4 & F5 & F6)|[(F1 & F2 & F3 & F4 & F5 & F6) F7]];
    rewrite F1, F2, F3, F6, ?E1, ?E2, ?E3, ?E4; (split; [done|]; split; [done|]); [by left|by right].
Qed.
End Mux.
