(* ===== verification/VsockMuxerRecv.v ===== *)
(** The muxer's [recv_pkt]: every turn keeps the invariant, the loop ends,
    [NoData] means that the RX queue is drained, a packet it yields belongs to a
    connection or to a queued RST, and calling it again and again drains the
    muxer. *)

From S2P Require Import Prelude VsockStream TxBuf VsockPacket VsockConnection.
From S2P Require Import VsockConnectionSpec VsockConnectionProps VsockQueues VsockPort.
From S2P Require Import VsockMuxer VsockMuxerSpec.

Section Recv.
Context {S W : Type} `{Hstream : VsockStream S} `{!PortStream S} `{!MuxerEnv S W} `{!StreamLaws S}.
Implicit Types m : VsockMuxer S W.
Implicit Types c : VsockConnection S.

(** A receive never establishes a host-initiated connection. *)
Lemma recv_local_init c p now r c' p' :
  conn_wf c -> c_state c = LocalInit -> recv_pkt c p now = (r, c', p') -> c_state c' = LocalInit.
Proof.
  intros (_ & Hp & _ & _ & Hresp) Hst. rewrite recv_pkt_cases by done. cbv zeta.
  destruct (prx_contains (c_pending_rx c) Rst); [intros [= _ <- _]; by destruct c|].
  destruct (prx_contains (c_pending_rx c) Response); [by apply Hresp in Hst|].
  destruct (prx_contains (c_pending_rx c) Request); [intros [= _ <- _]; by destruct c|].
  destruct (prx_contains (c_pending_rx c) Rw).
  - unfold recv_rw. replace (c_state (without c Rw)) with (c_state c) by (by destruct c).
    rewrite Hst. intros [= _ <- _]. by destruct c.
  - unfold recv_credit_update. destruct (prx_remove _ _) as [had q].
    destruct (had && _); intros [= _ <- _]; by destruct c.
Qed.

Lemma recv_no_ack c p now r c' p' key :
  conn_wf c -> recv_pkt c p now = (r, c', p') -> ack_established (c_state c) key c' = c'.
Proof.
  intros Hw Hr. unfold ack_established. destruct (decide (c_state c = LocalInit)) as [E|E].
  - rewrite (recv_local_init c p now r c' p' Hw E Hr). by rewrite andb_false_r.
  - by rewrite bool_decide_eq_false_2.
Qed.

(** A receive schedules nothing new. *)
Lemma recv_no_sched q c p now r c' p' key :
  conn_wf c -> recv_pkt c p now = (r, c', p') -> sched_rxq q key c c' = q.
Proof.
  intros Hw Hr. unfold sched_rxq. destruct (has_pending_rx c) eqn:E; [done|].
  destruct (recv_yields c p now r c' p' ltac:(apply Hw) Hr) as [Hy _].
  destruct (Hy E) as [_ ->]. by rewrite E.
Qed.

(** The pool and queue after a turn on the front item [ConnRx key]: the
    connection is [c'], the outcome of its receive, killed if epoll refused its
    listener.  The item stays while [c'] has more to say. *)
Definition turn_done m key c' rest m' : Prop :=
  m_cid m' = m_cid m /\ m_local_port_set m' = m_local_port_set m /\
  exists killed : bool,
    m_conn_map m' = <[key := if killed then kill c' else c']> (m_conn_map m) /\
    rxq_q (m_rxq m') =
      (if has_pending_rx c' then ConnRx key :: rest
       else if killed && rxq_synced (m_rxq m') then rest ++ [ConnRx key] else rest).

(** Taking the front item off keeps the queue's cover when its connection has
    nothing more to say, or is queued again. *)
Lemma inv_pop m key rest conn sy t :
  mux_inv m -> rxq_q (m_rxq m) = ConnRx key :: rest ++ t -> sy = rxq_synced (m_rxq m) ->
  m_conn_map m !! key = conn ->
  (forall c, conn = Some c -> has_pending_rx c = true -> sy = true -> ConnRx key ∈ rest ++ t) ->
  mux_inv (upd_rxq m (mkRxQ (rest ++ t) sy)).
Proof.
  intros Hi Hq -> Hl Hk. apply (inv_with_conns m _ (m_conn_map m) (mkRxQ (rest ++ t) (rxq_synced (m_rxq m))));
    [exact Hi|by destruct m| |apply Hi| |apply Hi].
  - pose proof (mi_rxq _ Hi) as Hb. unfold RxQ_len in *. rewrite Hq in Hb. cbn [rxq_q].
    unfold zlen in *. cbn [length] in Hb. lia.
  - intros Hs k c Hlk Hp. cbn [rxq_q rxq_synced] in *.
    pose proof (mi_covers _ Hi Hs k c Hlk Hp) as Hin. rewrite Hq in Hin.
    apply elem_of_cons in Hin as [[= ->]|Hin]; [|done]. apply (Hk c); [congruence|done..].
Qed.

Lemma pop_front m x q :
  rxq_q (m_rxq m) = x :: q -> RxQ_pop (m_rxq m) = (Some x, mkRxQ q (rxq_synced (m_rxq m))).
Proof. intros E. unfold RxQ_pop. by rewrite E. Qed.

(** A key pushed behind the front item, if the queue takes it. *)
Lemma push_behind r key x rest :
  rxq_q r = x :: rest ->
  let r' := (RxQ_push r (ConnRx key)).2 in
  exists t, rxq_q r' = x :: rest ++ t /\ t = if rxq_synced r' then [ConnRx key] else [].
Proof.
  intros Hq. unfold RxQ_push. destruct (rxq_synced r && _) eqn:E; rewrite Hq; cbn [snd rxq_q rxq_synced].
  - apply andb_true_iff in E as [-> _]. by exists [ConnRx key].
  - exists []. by rewrite app_nil_r.
Qed.

Lemma turn_missing m pkt key now rest :
  mux_inv m -> rxq_q (m_rxq m) = ConnRx key :: rest -> m_conn_map m !! key = None ->
  exists m', recv_from_conn m pkt key now = Ret (Err NoData, pkt, m') /\ mux_inv m' /\
    m_conn_map m' = m_conn_map m /\ rxq_q (m_rxq m') = rest /\ m_cid m' = m_cid m /\
    m_local_port_set m' = m_local_port_set m.
Proof.
  intros Hi Hq Hl. unfold recv_from_conn, apply_conn_mutation. rewrite Hl. cbn [obind default].
  simpl. rewrite (pop_front m _ _ Hq). cbn [obind]. eexists. split; [done|]. split; [|by destruct m].
  rewrite <- (app_nil_r rest) in *. eapply inv_pop; [exact Hi|exact Hq|done|exact Hl|done].
Qed.

Lemma turn_present m pkt key now rest c r c' p' :
  mux_inv m -> rxq_q (m_rxq m) = ConnRx key :: rest -> m_conn_map m !! key = Some c ->
  recv_pkt c pkt now = (r, c', p') ->
  exists m', recv_from_conn m pkt key now = Ret (r, p', m') /\ mux_inv m' /\
    turn_done m key c' rest m'.
Proof.
  intros Hi Hq Hl Hr. destruct (mi_conns _ Hi key c Hl) as [Hw _].
  pose proof (next_recv_pkt c pkt now Hw) as Hn. rewrite Hr in Hn.
  set (f := fun conn => let '(r, conn, pkt) := recv_pkt conn pkt now in
      Ret ((r, negb (has_pending_rx conn), pkt), conn)).
  destruct (apply_ok m key now f c (r, negb (has_pending_rx c'), p') c' Hi Hl) as
    (m1 & Ha & Hi1 & Hcid & Hports & Hcase); [unfold f; by rewrite Hr|done|].
  rewrite (recv_no_ack c pkt now r c' p' key Hw Hr) in Hcase.
  rewrite (recv_no_sched (m_rxq m) c pkt now r c' p' key Hw Hr) in Hcase.
  unfold recv_from_conn. fold f. rewrite Ha. cbn [obind default]. simpl.
  destruct (has_pending_rx c') eqn:Ep; cbn [negb].
  - exists m1. split; [done|]. split; [done|]. split_and!; [done..|]. rewrite Ep.
    destruct Hcase as [[E1 E2]|(E1 & E2 & _)]; [exists false|exists true]; by rewrite E2, Hq.
  - destruct Hcase as [[E1 E2]|(E1 & E2 & _)].
    + rewrite <- E2, <- (app_nil_r rest) in Hq. rewrite (pop_front m1 _ _ Hq). cbn [obind].
      eexists. split; [done|]. split.
      * eapply inv_pop; [exact Hi1|exact Hq|done|by rewrite E1, lookup_insert_eq|]. intros ? [= <-]. congruence.
      * split_and!; [by destruct m1..|]. exists false. rewrite Ep. destruct m1; simpl in *. by rewrite app_nil_r.
    + destruct (push_behind _ key _ _ Hq) as (t & Hq1 & Ht). rewrite <- E2 in Hq1, Ht.
      rewrite (pop_front m1 _ _ Hq1). cbn [obind].
      eexists. split; [done|]. split.
      * eapply inv_pop; [exact Hi1|exact Hq1|done|by rewrite E1, lookup_insert_eq|].
        intros ? _ _ Hs. rewrite Ht, Hs. apply elem_of_app. right. by left.
      * split_and!; [by destruct m1..|]. exists true. rewrite Ep, Ht. destruct m1; simpl in *.
        destruct (rxq_synced _); [done|by rewrite app_nil_r].
Qed.

(** ** The loop ends *)

(** A connection that surely yields a packet. *)
Definition conn_ready c : Prop :=
  prx_contains (c_pending_rx c) Rst = true \/ c_pending_rx c = into_mask CreditUpdate.

(** Items that may fail to yield one: their connection has no RST to yield. *)
Definition bad (conns : gmap ConnMapKey (VsockConnection S)) (x : MuxerRx) : bool :=
  match x with
  | RstPkt _ _ => false
  | ConnRx k => match conns !! k with
                | None => true
                | Some c => negb (prx_contains (c_pending_rx c) Rst)
                end
  end.

Definition bads (conns : gmap ConnMapKey (VsockConnection S)) (q : list MuxerRx) : nat :=
  length (filter (fun x => bad conns x = true) q).

Lemma bads_app conns x y : bads conns (x ++ y) = (bads conns x + bads conns y)%nat.
Proof. unfold bads. by rewrite filter_app, length_app. Qed.

Lemma bads_length conns q : (bads conns q <= length q)%nat.
Proof. apply length_filter. Qed.

Lemma bads_cons conns x q : bads conns (x :: q) = ((if bad conns x then 1 else 0) + bads conns q)%nat.
Proof. unfold bads. rewrite filter_cons. by destruct (bad conns x). Qed.

(** Another connection under a key whose items were bad. *)
Lemma bads_insert conns key c q :
  bad conns (ConnRx key) = true -> (bads (<[key := c]> conns) q <= bads conns q)%nat.
Proof.
  intros Hb. induction q as [|x q IH]; [done|]. rewrite !bads_cons.
  assert (bad (<[key := c]> conns) x = true -> bad conns x = true).
  { destruct x as [k|]; [|done]. destruct (decide (k = key)) as [->|Hne]; [done|].
    simpl. by rewrite lookup_insert_ne. }
  destruct (bad (<[key := c]> conns) x), (bad conns x); lia.
Qed.

Lemma kill_rst c : conn_wf c -> prx_contains (c_pending_rx (kill c)) Rst = true.
Proof.
  intros (_ & Hp & _). replace (c_pending_rx (kill c)) with (prx_insert (c_pending_rx c) Rst)
    by (by destruct c).
  by rewrite pending_contains_insert, bool_decide_eq_true_2.
Qed.

(** ** Removing a connection *)

Lemma inv_remove m key :
  mux_inv m ->
  let m' := remove_connection m key in
  mux_inv m' /\ m_conn_map m' = delete key (m_conn_map m) /\ m_rxq m' = m_rxq m /\ m_cid m' = m_cid m /\
  m_local_port_set m' = m_local_port_set m ∖ {[k_local_port key]}.
Proof.
  intros Hi. unfold remove_connection.
  set (m1 := match m_conn_map m !! key with None => m | Some conn => _ end).
  assert (Hs : with_conns m (delete key (m_conn_map m)) (m_rxq m) m1).
  { subst m1. destruct (m_conn_map m !! key) as [c|] eqn:E.
    - eapply with_same; [|apply same_remove_listener]. by destruct m.
    - rewrite delete_id by done. by destruct m. }
  assert (Hi1 : mux_inv m1).
  { eapply inv_with_conns; [exact Hi|exact Hs|apply Hi| |apply covers_delete, Hi|by apply map_Forall_delete, Hi].
    pose proof (mi_size _ Hi). rewrite map_size_delete. destruct (m_conn_map m !! key); unfold id; lia. }
  clearbody m1. destruct Hs as (E1 & E2 & E3 & E4 & E5 & E6).
  split; [|destruct m1; simpl in *; by rewrite ?E2, ?E6].
  destruct Hi1. destruct m1; split; simpl in *; done.
Qed.

(** ** Work left *)

Definition count (b : bool) : nat := if b then 1 else 0.

(** The packets a connection may still yield, plus one for the RST by which it
    may be killed; a connection with an RST to yield is removed with it. *)
Definition weight c : nat :=
  let p := prx_contains (c_pending_rx c) in
  if p Rst then 1 else 2 + count (p Response) + count (p Request) + count (p Rw) + count (p CreditUpdate).

Lemma weight_pos c : (1 <= weight c)%nat.
Proof. unfold weight. destruct (prx_contains _ Rst); lia. Qed.

Lemma weight_kill c : conn_wf c -> weight (kill c) = 1%nat.
Proof. intros Hw. unfold weight. by rewrite kill_rst. Qed.

(** Taking off something that was pending. *)
Lemma weight_without c it c' :
  conn_wf c -> prx_contains (c_pending_rx c) Rst = false -> prx_contains (c_pending_rx c) it = true ->
  c_pending_rx c' = (prx_remove (c_pending_rx c) it).2 -> (weight c' < weight c)%nat.
Proof.
  intros (_ & Hp & _) Hr Hit E. unfold weight. rewrite E, !pending_contains_remove, Hr by done.
  rewrite andb_false_r.
  destruct it; [..|congruence|idtac|idtac]; rewrite ?Hit; simpl; lia.
Qed.

Lemma recv_credit_weight c p r c' p' :
  conn_wf c -> prx_contains (c_pending_rx c) Rst = false -> recv_credit_update c p = (r, c', p') ->
  (weight c' <= weight c)%nat.
Proof.
  intros Hw Hr Hc.
  assert (E : c_pending_rx c' = (prx_remove (c_pending_rx c) CreditUpdate).2).
  { unfold recv_credit_update in Hc. simpl in Hc. destruct (_ && _); injection Hc as _ <- _; by destruct c. }
  destruct (prx_contains (c_pending_rx c) CreditUpdate) eqn:Ec.
  - apply Nat.lt_le_incl. by eapply weight_without.
  - unfold weight. rewrite E, pending_remove_absent; [done|apply Hw|done].
Qed.

(** A receive yields an RST, leaves less to yield, or found nothing pending. *)
Lemma recv_weight c p now r c' p' :
  conn_wf c -> recv_pkt c p now = (r, c', p') ->
  (r = Ok tt /\ op p' = VSOCK_OP_RST) \/
  (prx_contains (c_pending_rx c) Rst = false /\ (weight c' < weight c)%nat) \/
  (has_pending_rx c = false /\ r = Err NoData /\ c' = c).
Proof.
  intros Hw Hr. destruct (has_pending_rx c) eqn:Hpd.
  2:{ right; right. destruct (recv_yields c p now r c' p' ltac:(apply Hw) Hr) as [Hy _]. split; [done|by apply Hy]. }
  pose proof Hr as Hr0. rewrite recv_pkt_cases in Hr by apply Hw. cbv zeta in Hr.
  destruct (prx_contains (c_pending_rx c) Rst) eqn:E1.
  { left. injection Hr as <- <- <-. by rewrite op_set_op. }
  assert (Hlt : forall it c2, prx_contains (c_pending_rx c) it = true ->
    c_pending_rx c2 = c_pending_rx (without c it) -> (weight c2 < weight c)%nat).
  { intros it c2 Hit E. rewrite without_pending in E. by eapply weight_without. }
  destruct (prx_contains (c_pending_rx c) Response) eqn:E2.
  { right; left. injection Hr as <- <- <-. split; [done|]. apply (Hlt Response); [done|by destruct c]. }
  destruct (prx_contains (c_pending_rx c) Request) eqn:E3.
  { right; left. injection Hr as <- <- <-. split; [done|]. apply (Hlt Request); [done|by destruct c]. }
  destruct (prx_contains (c_pending_rx c) Rw) eqn:E4.
  - pose proof (Hlt Rw (without c Rw) E4 eq_refl) as Hrw.
    pose proof (next_without c Rw Hw) as [Hw1 _].
    assert (Hr1 : prx_contains (c_pending_rx (without c Rw)) Rst = false)
      by (rewrite without_pending, pending_contains_remove by apply Hw; by rewrite E1, andb_false_r).
    set (c1 := without c Rw) in *. clearbody c1. unfold recv_rw in Hr.
    destruct (c_state c1) as [| | | |[] ?|]; try (left; injection Hr as <- <- <-; by rewrite op_set_op).
    all: unfold recv_read in Hr; destruct (need_credit_update_from_peer c1).
    1,3: right; left; injection Hr as <- <- <-; (split; [done|]); by destruct c1.
    all: destruct (buf (init_pkt c p)) as [b|]; [|right; left; injection Hr as <- <- <-; done].
    all: destruct (stream_read (c_stream c1) _) as [[bs|[]] s];
      [| |left; injection Hr as <- <- <-; by rewrite op_set_op].
    1,3: right; left; (split; [done|]); destruct (zlen bs =? 0); injection Hr as <- <- <-; by destruct c1.
    all: right; left; (split; [done|]);
      apply recv_credit_weight in Hr as Hle; [|by destruct c1|by destruct c1];
      eapply Nat.le_lt_trans; [exact Hle|]; by destruct c1.
  - right; left. split; [done|]. destruct (prx_contains (c_pending_rx c) CreditUpdate) eqn:E5.
    + unfold recv_credit_update in Hr. simpl in Hr. rewrite E5 in Hr.
      destruct (_ && _); injection Hr as <- <- <-; apply (Hlt CreditUpdate); try done; by destruct c.
    + exfalso. unfold has_pending_rx in Hpd.
      rewrite (pending_credit_only (c_pending_rx c)), E5 in Hpd; [done|apply Hw|done..].
Qed.

End Recv.

Section Loop.
Context {S W : Type} `{Hstream : VsockStream S} `{!PortStream S} `{!MuxerEnv S W} `{!StreamLaws S}.
Implicit Types m : VsockMuxer S W.
Implicit Types c : VsockConnection S.

(** ** The work left in a muxer *)

Definition pool_weight (conns : gmap ConnMapKey (VsockConnection S)) : nat :=
  map_fold (fun _ c n => (weight c + n)%nat) 0%nat conns.

Lemma pool_delete conns k c :
  conns !! k = Some c -> pool_weight conns = (weight c + pool_weight (delete k conns))%nat.
Proof.
  intros Hl. unfold pool_weight. apply (map_fold_delete_L (fun _ c n => (weight c + n)%nat)); [|done].
  intros. lia.
Qed.

Lemma pool_insert conns k c c' :
  conns !! k = Some c ->
  (pool_weight (<[k := c']> conns) + weight c = pool_weight conns + weight c')%nat.
Proof.
  intros Hl. rewrite (pool_delete conns k c Hl), (pool_delete (<[k := c']> conns) k c').
  - rewrite delete_insert_eq. lia.
  - by rewrite lookup_insert_eq.
Qed.

Definition nrst (q : list MuxerRx) : nat := length (filter (fun x => is_conn_rx x = false) q).

Lemma nrst_conns q : (forall x, x ∈ q -> is_conn_rx x = true) -> nrst q = 0%nat.
Proof.
  induction q as [|x q IH]; intros Hq; [done|]. unfold nrst. rewrite filter_cons, (Hq x) by (by left). simpl.
  apply IH. intros y Hy. apply Hq. by right.
Qed.

Definition total m : nat := (pool_weight (m_conn_map m) + nrst (rxq_q (m_rxq m)))%nat.

Lemma nrst_turn key rest (p : bool) s :
  nrst (if p then ConnRx key :: rest else if (s : bool) then rest ++ [ConnRx key] else rest) = nrst rest.
Proof.
  unfold nrst. destruct p; [by rewrite filter_cons|]. destruct s; [|done].
  rewrite filter_app, length_app. simpl. lia.
Qed.

(** [m'] after a turn that yielded nothing: no connection and no RST has come
    in, and no work. *)
Record calmer m m' : Prop := {
  ca_cid : m_cid m' = m_cid m;
  ca_ports : m_local_port_set m' ⊆ m_local_port_set m;
  ca_conns : forall k, is_Some (m_conn_map m' !! k) -> is_Some (m_conn_map m !! k);
  ca_rsts : forall lp pp, RstPkt lp pp ∈ rxq_q (m_rxq m') -> RstPkt lp pp ∈ rxq_q (m_rxq m);
  ca_total : (total m' <= total m)%nat;
}.

(** What a turn on the front item leaves. *)
Lemma turn_calmer m pkt key now rest c r c' p' m' :
  mux_inv m -> rxq_q (m_rxq m) = ConnRx key :: rest -> m_conn_map m !! key = Some c ->
  recv_pkt c pkt now = (r, c', p') -> turn_done m key c' rest m' ->
  (r = Ok tt -> op p' <> VSOCK_OP_RST) ->
  calmer m m' /\ (has_pending_rx c = true -> (total m' < total m)%nat).
Proof.
  intros Hi Hq Hl Hr (E1 & E2 & killed & Hm & Hq') Hop.
  destruct (mi_conns _ Hi key c Hl) as [Hw _].
  assert (Hw' : conn_wf c') by (pose proof (next_recv_pkt c pkt now Hw) as Hn; rewrite Hr in Hn; apply Hn).
  set (x := if killed then kill c' else c') in *.
  assert (Hx : (weight x <= weight c)%nat /\ (has_pending_rx c = true -> (weight x < weight c)%nat)).
  { pose proof (weight_pos c') as Hpos.
    assert (Hk : killed = true -> weight x = 1%nat) by (intros ->; by apply weight_kill).
    assert (Hnk : killed = false -> x = c') by (by intros ->). pose proof (weight_pos c).
    destruct (recv_weight c pkt now r c' p' Hw Hr) as [[Hok Ho]|[[_ Hlt]|(Hp & _ & ->)]].
    - by destruct (Hop Hok).
    - destruct killed; [rewrite Hk by done; lia|rewrite Hnk by done; lia].
    - rewrite Hp. split; [|done]. destruct killed; [rewrite Hk by done; lia|by rewrite Hnk]. }
  pose proof (pool_insert (m_conn_map m) key c x Hl) as Hpool.
  assert (Hn : nrst (rxq_q (m_rxq m')) = nrst rest) by (rewrite Hq'; apply nrst_turn).
  assert (Ht : (total m' + weight c = total m + weight x)%nat).
  { unfold total. rewrite Hm, Hn, Hq. change (nrst (ConnRx key :: rest)) with (nrst rest). lia. }
  split; [|intros Hp; apply Hx in Hp; lia]. split; [done|by rewrite E2| | |lia].
  - intros k. rewrite Hm. destruct (decide (k = key)) as [->|Hne]; [by rewrite Hl|by rewrite lookup_insert_ne].
  - intros lp pp. rewrite Hq', Hq. destruct (has_pending_rx c'); [done|].
    destruct (_ && _); [rewrite elem_of_app|]; intros Hin; right; [|done].
    destruct Hin as [?|Hin]; [done|]. by apply list_elem_of_singleton in Hin.
Qed.

Lemma calmer_refl m : calmer m m.
Proof. by split. Qed.

Lemma calmer_trans m1 m2 m3 : calmer m1 m2 -> calmer m2 m3 -> calmer m1 m3.
Proof. intros [] []. split; [congruence|set_solver|auto..|lia]. Qed.

(** ** A packet of the muxer *)

Definition pkt_key (p : VsockPacket) : ConnMapKey := mkKey (src_port p) (dst_port p).

(** A packet that [m] yields when it becomes [m']: addressed from the host to
    the guest, with the ports of a queued RST or of a connection, which is gone
    after an RST. *)
Definition from_mux m m' (p : VsockPacket) : Prop :=
  src_cid p = VSOCK_HOST_CID /\ dst_cid p = m_cid m /\
  ((op p = VSOCK_OP_RST /\ RstPkt (src_port p) (dst_port p) ∈ rxq_q (m_rxq m)) \/
   (is_Some (m_conn_map m !! pkt_key p) /\
    (op p = VSOCK_OP_RST -> m_conn_map m' !! pkt_key p = None))).

(** What a call of [recv_pkt] promises. *)
Definition recv_done m m' (res : result unit VsockError) (p : VsockPacket) : Prop :=
  mux_inv m' /\ calmer m m' /\
  ((res = Ok tt /\ from_mux m m' p /\ (total m' < total m)%nat) \/
   (res = Err NoData /\ rxq_q (m_rxq m') = [])).

Lemma done_calmer m1 m2 m3 res p : calmer m1 m2 -> recv_done m2 m3 res p -> recv_done m1 m3 res p.
Proof.
  intros Hc (Hi & Hc' & Hr). split; [done|]. split; [by eapply calmer_trans|].
  destruct Hr as [(Hr & (F1 & F2 & F3) & Ht)|Hr]; [left|by right].
  pose proof (ca_total _ _ Hc). split; [done|]. split; [|lia].
  split; [done|]. split; [by rewrite <- (ca_cid _ _ Hc)|].
  destruct F3 as [[Ho Hq]|[Hk Ho]]; [left; split; [done|by apply (ca_rsts _ _ Hc)]|right].
  split; [by apply (ca_conns _ _ Hc)|done].
Qed.

(** ** The loop *)

(** A turn that yields an RST is followed by the removal of its connection. *)
Lemma remove_calmer m key rest c c' m1 :
  mux_inv m1 -> rxq_q (m_rxq m) = ConnRx key :: rest -> m_conn_map m !! key = Some c ->
  turn_done m key c' rest m1 ->
  calmer m (remove_connection m1 key) /\ (total (remove_connection m1 key) < total m)%nat.
Proof.
  intros Hi1 Hq Hl (E1 & E2 & killed & Hm & Hq').
  destruct (inv_remove m1 key Hi1) as (_ & F1 & F2 & F3 & F4).
  assert (Hconns : m_conn_map (remove_connection m1 key) = delete key (m_conn_map m)).
  { rewrite F1, Hm. by rewrite delete_insert_eq. }
  assert (Ht : (total (remove_connection m1 key) < total m)%nat).
  { unfold total. rewrite Hconns, F2, Hq', nrst_turn, Hq, (pool_delete (m_conn_map m) key c Hl).
    pose proof (weight_pos c). change (nrst (ConnRx key :: rest)) with (nrst rest). lia. }
  split; [|done]. split; [congruence|rewrite F4, E2; set_solver| | |lia].
  - intros k. rewrite Hconns. intros [y Hy]. apply lookup_delete_Some in Hy as [_ Hy]. eauto.
  - intros lp pp. rewrite F2, Hq', Hq. destruct (has_pending_rx c'); [done|].
    destruct (_ && _); [rewrite elem_of_app|]; intros Hin; right; [|done].
    destruct Hin as [?|Hin]; [done|]. by apply list_elem_of_singleton in Hin.
Qed.

(** A turn that yields a packet ends the loop. *)
Lemma loop_yields fuel m pkt now key rest c c' p' :
  mux_inv m -> rxq_q (m_rxq m) = ConnRx key :: rest -> m_conn_map m !! key = Some c ->
  recv_pkt c pkt now = (Ok tt, c', p') ->
  exists m', recv_loop (Datatypes.S fuel) m pkt now = Ret (Ok tt, p', m') /\ recv_done m m' (Ok tt) p'.
Proof.
  intros Hi Hq Hl Hr. destruct (turn_present m pkt key now rest c _ _ _ Hi Hq Hl Hr) as (m1 & Ht & Hi1 & Htd).
  destruct (mi_conns _ Hi key c Hl) as [Hw Hids]. injection Hids as Id1 Id2 Id3 Id4.
  pose proof (recv_pkt_ok c pkt now ltac:(apply Hw) ltac:(apply Hw)) as Hok. rewrite Hr in Hok.
  destruct Hok as ((H1 & H2 & H3 & H4 & _) & _).
  assert (Hkey : pkt_key p' = key) by (unfold pkt_key; rewrite H3, H4, Id3, Id4; by destruct key).
  simpl. unfold RxQ_peek. rewrite Hq. cbn [head]. rewrite Ht. cbn [obind]. fold (pkt_key p'). rewrite Hkey.
  assert (Hfrom : forall m', (op p' = VSOCK_OP_RST -> m_conn_map m' !! key = None) -> from_mux m m' p').
  { intros m' Hm. split; [congruence|]. split; [congruence|]. right. rewrite Hkey. split; [by rewrite Hl|done]. }
  destruct (Z.eqb_spec (op p') VSOCK_OP_RST) as [Eo|Eo]; eexists; (split; [done|]).
  - destruct (inv_remove m1 key Hi1) as (Hi2 & F1 & _).
    destruct (remove_calmer m key rest c c' m1 Hi1 Hq Hl Htd) as [Hc Hlt].
    split; [done|]. split; [done|]. left. split; [done|]. split; [|done].
    apply Hfrom. intros _. by rewrite F1, lookup_delete_eq.
  - destruct (turn_calmer m pkt key now rest c _ c' p' m1 Hi Hq Hl Hr Htd) as [Hc Hlt]; [done|].
    split; [done|]. split; [done|]. left. split; [done|]. split; [by apply Hfrom|].
    apply Hlt. destruct (has_pending_rx c) eqn:Hp; [done|].
    destruct (recv_yields c pkt now _ _ _ ltac:(apply Hw) Hr) as [Hy _]. by destruct (Hy Hp).
Qed.

Lemma loop_ready fuel m pkt now key rest c :
  mux_inv m -> rxq_q (m_rxq m) = ConnRx key :: rest -> m_conn_map m !! key = Some c -> conn_ready c ->
  exists p' m', recv_loop (Datatypes.S fuel) m pkt now = Ret (Ok tt, p', m') /\ recv_done m m' (Ok tt) p'.
Proof.
  intros Hi Hq Hl Hrd. destruct (mi_conns _ Hi key c Hl) as [Hw _].
  destruct (recv_rst c pkt now Hw Hrd) as (c' & p' & Hr).
  destruct (loop_yields fuel m pkt now key rest c c' p' Hi Hq Hl Hr) as (m' & Hm). by exists p', m'.
Qed.

(** A turn without a packet: the item is gone, or its connection is ready. *)
Lemma turn_fails m pkt key now rest c e c' p' m' :
  mux_inv m -> m_conn_map m !! key = Some c -> recv_pkt c pkt now = (Err e, c', p') ->
  turn_done m key c' rest m' ->
  (exists c2, rxq_q (m_rxq m') = ConnRx key :: rest /\ m_conn_map m' !! key = Some c2 /\ conn_ready c2) \/
  (bads (m_conn_map m') (rxq_q (m_rxq m')) < bads (m_conn_map m) (ConnRx key :: rest))%nat.
Proof.
  intros Hi Hl Hr (_ & _ & killed & Hm & Hq). destruct (mi_conns _ Hi key c Hl) as [Hw _].
  destruct (recv_err_pending c pkt now e c' p' Hw Hr) as (Hrst & Hco & _).
  pose proof (next_recv_pkt c pkt now Hw) as Hn. rewrite Hr in Hn. destruct Hn as [Hw' _].
  assert (Hbad : bad (m_conn_map m) (ConnRx key) = true) by (simpl; by rewrite Hl, Hrst).
  destruct (has_pending_rx c') eqn:Ep.
  - left. eexists. split; [done|]. rewrite Hm, lookup_insert_eq. split; [done|].
    destruct killed; [left; by apply kill_rst|]. right. destruct Hco as [H0|]; [|done].
    unfold has_pending_rx in Ep. by rewrite H0 in Ep.
  - right. rewrite bads_cons, Hbad, Hm, Hq.
    pose proof (bads_insert (m_conn_map m) key (if killed then kill c' else c') rest Hbad) as Hle.
    destruct (killed && rxq_synced (m_rxq m')) eqn:Ek; [|lia].
    apply andb_true_iff in Ek as [-> _]. rewrite bads_app, bads_cons. simpl bad.
    rewrite lookup_insert_eq, kill_rst by done. unfold bads at 2. simpl. lia.
Qed.

(** A queued RST. *)
Lemma loop_rst fuel m pkt now lp pp rest :
  mux_inv m -> rxq_q (m_rxq m) = RstPkt lp pp :: rest ->
  exists p' m', recv_loop (Datatypes.S fuel) m pkt now = Ret (Ok tt, p', m') /\ recv_done m m' (Ok tt) p'.
Proof.
  intros Hi Hq. exists (rst_pkt m pkt lp pp), (upd_rxq m (mkRxQ rest (rxq_synced (m_rxq m)))).
  simpl. unfold RxQ_peek. rewrite (pop_front m _ _ Hq), Hq. cbn [head]. split; [done|].
  assert (Ht : (total (upd_rxq m (mkRxQ rest (rxq_synced (m_rxq m)))) < total m)%nat).
  { unfold total. rewrite Hq. destruct m; simpl. unfold nrst. rewrite filter_cons. simpl. lia. }
  split; [|split].
  - apply (inv_with_conns m _ (m_conn_map m) (mkRxQ rest (rxq_synced (m_rxq m))));
      [exact Hi|by destruct m| |apply Hi| |apply Hi].
    + pose proof (mi_rxq _ Hi) as Hb. unfold RxQ_len in *. rewrite Hq in Hb. cbn [rxq_q].
      unfold zlen in *. cbn [length] in Hb. lia.
    + intros Hs k c Hlk Hp. cbn [rxq_q rxq_synced] in *.
      pose proof (mi_covers _ Hi Hs k c Hlk Hp) as Hin. rewrite Hq in Hin.
      by apply elem_of_cons in Hin as [[=]|Hin].
  - split; [by destruct m|by destruct m|by destruct m| |lia]. rewrite Hq. destruct m; simpl. intros. by right.
  - left. split; [done|]. split; [|done]. unfold from_mux, rst_pkt. destruct pkt as [[] ?]. simpl.
    split_and!; [done..|]. left. split; [done|]. rewrite Hq. by left.
Qed.

Lemma turn_missing_calmer m rest key m1 :
  rxq_q (m_rxq m) = ConnRx key :: rest ->
  m_conn_map m1 = m_conn_map m -> rxq_q (m_rxq m1) = rest -> m_cid m1 = m_cid m ->
  m_local_port_set m1 = m_local_port_set m -> calmer m m1.
Proof.
  intros Hq E1 E2 E3 E4. split; [done|by rewrite E4|by rewrite E1| |].
  - rewrite E2, Hq. intros. by right.
  - unfold total. by rewrite E1, E2, Hq.
Qed.

Lemma loop_ok fuel : forall m pkt now,
  mux_inv m -> (bads (m_conn_map m) (rxq_q (m_rxq m)) + 2 <= fuel)%nat ->
  exists res p' m', recv_loop fuel m pkt now = Ret (res, p', m') /\ recv_done m m' res p' /\
    (forall key rest c, rxq_q (m_rxq m) = ConnRx key :: rest -> m_conn_map m !! key = Some c ->
       has_pending_rx c = true -> (total m' < total m)%nat).
Proof.
  induction fuel as [|fuel IH]; intros m pkt now Hi Hf; [lia|].
  assert (Hok : (exists p' m', recv_loop (Datatypes.S fuel) m pkt now = Ret (Ok tt, p', m') /\ recv_done m m' (Ok tt) p') ->
    exists res p' m', recv_loop (Datatypes.S fuel) m pkt now = Ret (res, p', m') /\ recv_done m m' res p' /\
    (forall key rest c, rxq_q (m_rxq m) = ConnRx key :: rest -> m_conn_map m !! key = Some c ->
       has_pending_rx c = true -> (total m' < total m)%nat)).
  { intros (p' & m' & E & Hd). exists (Ok tt), p', m'. split; [done|]. split; [exact Hd|].
    intros. destruct Hd as (_ & _ & [(_ & _ & ?)|[[=] _]]). done. }
  destruct (rxq_q (m_rxq m)) as [|[key|lp pp] rest] eqn:Hq.
  - exists (Err NoData), pkt, m. simpl. unfold RxQ_peek. rewrite Hq. split; [done|].
    split; [|done]. split; [done|]. split; [apply calmer_refl|by right].
  - destruct (m_conn_map m !! key) as [c|] eqn:Hl.
    + destruct (recv_pkt c pkt now) as [[[[]|e] c'] p'] eqn:Hr.
      { apply Hok. destruct (loop_yields fuel m pkt now key rest c c' p' Hi Hq Hl Hr) as (m' & Hm). by exists p', m'. }
      destruct (turn_present m pkt key now rest c _ _ _ Hi Hq Hl Hr) as (m1 & Ht & Hi1 & Htd).
      destruct (turn_calmer m pkt key now rest c _ c' p' m1 Hi Hq Hl Hr Htd) as [Hc Hlt]; [done|].
      simpl recv_loop. unfold RxQ_peek. rewrite Hq. cbn [head]. rewrite Ht. cbn [obind].
      assert (Hrec : exists res p2 m2, recv_loop fuel m1 p' now = Ret (res, p2, m2) /\ recv_done m1 m2 res p2).
      { destruct (turn_fails m pkt key now rest c e c' p' m1 Hi Hl Hr Htd) as [(c2 & Hq1 & Hl1 & Hrd)|Hbd].
        - destruct fuel as [|fuel]; [lia|].
          destruct (loop_ready fuel m1 p' now key rest c2 Hi1 Hq1 Hl1 Hrd) as (p2 & m2 & -> & Hd). eauto.
        - destruct (IH m1 p' now Hi1) as (res & p2 & m2 & -> & Hd & _); [lia|]. eauto. }
      destruct Hrec as (res & p2 & m2 & -> & Hd). exists res, p2, m2. split; [done|].
      split; [by eapply done_calmer|]. intros k r c0 [= <- <-] Hl0 Hp.
      assert (c0 = c) as -> by congruence. specialize (Hlt Hp). pose proof (ca_total _ _ (proj1 (proj2 Hd))). lia.
    + destruct (turn_missing m pkt key now rest Hi Hq Hl) as (m1 & Ht & Hi1 & E1 & E2 & E3 & E4).
      simpl recv_loop. unfold RxQ_peek. rewrite Hq. cbn [head]. rewrite Ht. cbn [obind].
      destruct (IH m1 pkt now Hi1) as (res & p2 & m2 & -> & Hd & _).
      { rewrite E1, E2. rewrite bads_cons in Hf. simpl bad in Hf. rewrite Hl in Hf. lia. }
      exists res, p2, m2. split; [done|]. split; [|congruence].
      eapply done_calmer; [|exact Hd]. by eapply turn_missing_calmer.
  - apply Hok. by eapply loop_rst.
Qed.

(** ** [recv_pkt], with the resynchronisation of the RX queue *)

Definition resynced m : VsockMuxer S W := upd_rxq m (RxQ_from_conn_map (conn_iter (m_conn_map m))).

(** A rebuilt queue holds connections with something pending; an empty one is in
    sync. *)
Lemma resynced_queue m :
  iter_law -> let r := m_rxq (resynced m) in
  RxQ_len r <= MUXER_RXQ_SIZE /\ covers (m_conn_map m) r /\
  (forall x, x ∈ rxq_q r -> exists k c, x = ConnRx k /\ m_conn_map m !! k = Some c /\ has_pending_rx c = true) /\
  (rxq_q r = [] -> rxq_synced r = true).
Proof.
  intros Hit. replace (m_rxq (resynced m)) with (RxQ_from_conn_map (conn_iter (m_conn_map m)))
    by (by destruct m).
  destruct (rxq_walk_ok (conn_iter (m_conn_map m)) [] ltac:(done)) as [Hb Hc].
  fold (RxQ_from_conn_map (conn_iter (m_conn_map m))) in *. cbv zeta.
  set (r := RxQ_from_conn_map (conn_iter (m_conn_map m))) in *. clearbody r.
  assert (Hin : forall x, x ∈ pending_keys (conn_iter (m_conn_map m)) <->
    exists k c, x = ConnRx k /\ m_conn_map m !! k = Some c /\ has_pending_rx c = true).
  { intros x. unfold pending_keys. rewrite list_elem_of_fmap. split.
    - intros (k & -> & Hk). apply list_elem_of_fmap in Hk as ([k' c] & -> & Hkc).
      apply list_elem_of_filter in Hkc as [Hp Hkc]. rewrite (Hit (m_conn_map m)) in Hkc.
      exists k', c. split; [done|]. split; [by apply elem_of_map_to_list|done].
    - intros (k & c & -> & Hl & Hp). exists k. split; [done|]. apply list_elem_of_fmap. exists (k, c).
      split; [done|]. apply list_elem_of_filter. split; [done|].
      rewrite (Hit (m_conn_map m)). by apply elem_of_map_to_list. }
  split; [done|]. split_and!.
  - intros Hs k c Hl Hp. rewrite Hs in Hc. rewrite Hc. apply Hin. eauto.
  - intros x Hx. apply Hin. destruct (rxq_synced r); [by rewrite Hc in Hx|].
    destruct Hc as [_ [t Ht]]. simpl in Ht. rewrite Ht. apply elem_of_app. by left.
  - intros E. destruct (rxq_synced r); [done|]. destruct Hc as [Hc _]. unfold RxQ_len in Hc. by rewrite E in Hc.
Qed.

Lemma inv_resync m : iter_law -> mux_inv m -> mux_inv (resynced m).
Proof.
  intros Hit Hi. destruct (resynced_queue m Hit) as (Hb & Hc & _). cbv zeta in *.
  apply (inv_with_conns m _ (m_conn_map m) (m_rxq (resynced m)));
    [exact Hi|by destruct m|done|apply Hi|done|apply Hi].
Qed.

Lemma resync_calmer m : iter_law -> calmer m (resynced m) /\ total (resynced m) = pool_weight (m_conn_map m).
Proof.
  intros Hit. destruct (resynced_queue m Hit) as (_ & _ & Hin & _). cbv zeta in *.
  assert (Hn : nrst (rxq_q (m_rxq (resynced m))) = 0%nat).
  { apply nrst_conns. intros x Hx. by destruct (Hin x Hx) as (? & ? & -> & _). }
  assert (Ht : total (resynced m) = pool_weight (m_conn_map m)).
  { unfold total. rewrite Hn. unfold resynced. destruct m; simpl. lia. }
  split; [|done]. split; [by destruct m|by destruct m|by destruct m| |rewrite Ht; unfold total; lia].
  intros lp pp Hx. destruct (Hin _ Hx) as (? & ? & [=] & _).
Qed.

(** The work left, with what the next call has to settle about the queue. *)
Definition potential m : nat :=
  (3 * total m + if RxQ_is_empty (m_rxq m) then count (negb (rxq_synced (m_rxq m))) else 2)%nat.

Lemma potential_near m : (3 * total m <= potential m <= 3 * total m + 2)%nat.
Proof. unfold potential, count. destruct (RxQ_is_empty _); [destruct (negb _)|]; lia. Qed.

Lemma rxq_empty (r : MuxerRxQ) : RxQ_is_empty r = true <-> rxq_q r = [].
Proof.
  unfold RxQ_is_empty, RxQ_len, zlen. rewrite Z.eqb_eq. destruct (rxq_q r); simpl; [done|]. split; [lia|done].
Qed.

Lemma recv_potential m pkt now :
  iter_law -> mux_inv m ->
  exists res p' m', mux_recv_pkt m pkt now = Ret (res, p', m') /\ recv_done m m' res p' /\
    (mux_has_pending_rx m = true -> (potential m' < potential m)%nat).
Proof.
  intros Hit Hi. unfold mux_recv_pkt. fold (resynced m).
  destruct (RxQ_is_empty (m_rxq m)) eqn:Ee; destruct (rxq_synced (m_rxq m)) eqn:Es; cbn [andb negb].
  2:{ destruct (resync_calmer m Hit) as [Hc Ht]. pose proof (inv_resync m Hit Hi) as Hi1.
      destruct (resynced_queue m Hit) as (_ & _ & Hin & Hsy). cbv zeta in *.
      set (m1 := resynced m) in *. assert (Hcm : m_conn_map m1 = m_conn_map m) by (by destruct m).
      clearbody m1.
      destruct (loop_ok (length (rxq_q (m_rxq m1)) + 3) m1 pkt now Hi1) as (res & p' & m' & E & Hd & Hlt).
      { pose proof (bads_length (m_conn_map m1) (rxq_q (m_rxq m1))). lia. }
      rewrite E. exists res, p', m'. split; [done|]. split; [by eapply done_calmer|]. intros _.
      pose proof (ca_total _ _ Hc) as Hc1. unfold potential at 2. rewrite Ee, Es. cbn [negb count].
      destruct (rxq_q (m_rxq m1)) as [|x rest] eqn:Hq.
      - simpl in E. unfold RxQ_peek in E. rewrite Hq in E. injection E as <- <- <-. unfold potential.
        rewrite (proj2 (rxq_empty _) Hq), Hsy by done. simpl. lia.
      - destruct (Hin x ltac:(by left)) as (k & c & -> & Hl & Hp). rewrite <- Hcm in Hl.
        specialize (Hlt k rest c eq_refl Hl Hp). pose proof (potential_near m'). lia. }
  all: destruct (loop_ok (length (rxq_q (m_rxq m)) + 3) m pkt now Hi) as (res & p' & m' & E & Hd & _);
    [pose proof (bads_length (m_conn_map m) (rxq_q (m_rxq m))); lia|].
  all: rewrite E; exists res, p', m'; (split; [done|]); (split; [exact Hd|]).
  1: unfold mux_has_pending_rx; by rewrite Ee, Es.
  all: intros _; unfold potential at 2; rewrite Ee; destruct Hd as (_ & Hc & [(_ & _ & Hlt)|[_ Hq]]);
    [pose proof (potential_near m'); lia|].
  all: unfold potential, count; rewrite (proj2 (rxq_empty _) Hq); pose proof (ca_total _ _ Hc);
    destruct (negb _); lia.
Qed.

(** ** Properties *)

(** The muxer's [recv_pkt] returns.  A packet it yields is addressed from the host
    to the guest; it is a queued RST or carries the ports of a connection in the
    pool, which is removed with its RST.  [NoData] means that the RX queue is
    empty and, when the queue is in sync, that no connection has anything to
    say.  No connection appears and the muxer's invariant is kept. *)
Theorem muxer_recv_correct m pkt now :
  iter_law -> mux_inv m ->
  exists res p' m', mux_recv_pkt m pkt now = Ret (res, p', m') /\ mux_inv m' /\
    dom (m_conn_map m') ⊆ dom (m_conn_map m) /\ m_local_port_set m' ⊆ m_local_port_set m /\
    match res with
    | Ok _ => from_mux m m' p'
    | Err e => e = NoData /\ rxq_q (m_rxq m') = [] /\
        (rxq_synced (m_rxq m') = true ->
         forall k c, m_conn_map m' !! k = Some c -> has_pending_rx c = false)
    end.
Proof.
  intros Hit Hi. destruct (recv_potential m pkt now Hit Hi) as (res & p' & m' & E & (Hi' & Hc & Hr) & _).
  exists res, p', m'. split; [done|]. split; [done|]. split_and!.
  - intros k Hk. apply elem_of_dom. apply (ca_conns _ _ Hc). by apply elem_of_dom.
  - apply (ca_ports _ _ Hc).
  - destruct Hr as [(-> & Hf & _)|[-> Hq]]; [done|]. split_and!; [done|done|].
    intros Hs k c Hl. destruct (has_pending_rx c) eqn:Hp; [|done].
    pose proof (mi_covers _ Hi' Hs k c Hl Hp) as Hin. rewrite Hq in Hin. by apply elem_of_nil in Hin.
Qed.

(** Calls of [recv_pkt], one after the other. *)
Fixpoint recv_n (n : nat) m (pkts : nat -> VsockPacket) (times : nat -> Z) : outcome (VsockMuxer S W) :=
  match n with
  | O => Ret m
  | Datatypes.S n =>
      let! (_, _, m) := mux_recv_pkt m (pkts 0%nat) (times 0%nat) in
      recv_n n m (fun i => pkts (Datatypes.S i)) (fun i => times (Datatypes.S i))
  end.

Lemma weight_le c : (weight c <= 6)%nat.
Proof. unfold weight, count. repeat case_match; lia. Qed.

Lemma pool_bound conns : (pool_weight conns <= 6 * size conns)%nat.
Proof.
  induction conns as [|k c conns Hn IH] using map_ind; [done|].
  unfold pool_weight. rewrite map_fold_insert_L by (done || (intros; lia)). fold (pool_weight conns).
  rewrite map_size_insert_None by done. pose proof (weight_le c). lia.
Qed.

Lemma potential_bound m : mux_inv m -> Z.of_nat (potential m) <= 19184.
Proof.
  intros Hi. pose proof (pool_bound (m_conn_map m)). pose proof (mi_size _ Hi). pose proof (mi_rxq _ Hi) as Hq.
  assert (Hn : (nrst (rxq_q (m_rxq m)) <= length (rxq_q (m_rxq m)))%nat) by apply length_filter.
  pose proof (potential_near m). unfold RxQ_len, zlen, MUXER_RXQ_SIZE, MAX_CONNECTIONS, total in *. lia.
Qed.

(** C13. Draining.  As long as no packet or event comes in, calling [recv_pkt] again and
    again leaves a muxer with nothing pending after at most 19,184 calls,
    whatever the streams yield and epoll answers: every packet uses up something
    a connection had to say, and a queue that lost sync is rebuilt. *)
Theorem muxer_drains m pkts times :
  iter_law -> mux_inv m ->
  exists n m', Z.of_nat n <= 19184 /\ recv_n n m pkts times = Ret m' /\ mux_has_pending_rx m' = false /\
    forall k c, m_conn_map m' !! k = Some c -> has_pending_rx c = false.
Proof.
  intros Hit Hi. pose proof (potential_bound m Hi) as Hb.
  enough (exists n m', (n <= potential m)%nat /\ recv_n n m pkts times = Ret m' /\ mux_inv m' /\
    mux_has_pending_rx m' = false) as (n & m' & Hn & E & Hi' & Hp).
  { exists n, m'. split; [lia|]. split; [done|]. split; [done|]. intros k c Hl.
    unfold mux_has_pending_rx in Hp. apply orb_false_iff in Hp as [H1 H2].
    apply negb_false_iff in H1, H2. apply rxq_empty in H1.
    destruct (has_pending_rx c) eqn:Hc; [|done].
    pose proof (mi_covers _ Hi' H2 k c Hl Hc) as Hin. rewrite H1 in Hin. by apply elem_of_nil in Hin. }
  clear Hb. revert pkts times. remember (potential m) as d eqn:Ed. revert m Hi Ed.
  induction d as [d IH] using lt_wf_ind; intros m Hi -> pkts times.
  destruct (mux_has_pending_rx m) eqn:Hp; [|exists 0%nat, m; split_and!; [lia|done|apply Hi..|done]].
  destruct (recv_potential m (pkts 0%nat) (times 0%nat) Hit Hi) as (res & p' & m1 & E & (Hi1 & _ & _) & Hlt).
  destruct (IH (potential m1) (Hlt Hp) m1 Hi1 eq_refl (fun i => pkts (Datatypes.S i))
    (fun i => times (Datatypes.S i))) as (n & m' & Hn & E' & Hi' & Hp').
  exists (Datatypes.S n), m'. split; [specialize (Hlt Hp); lia|]. split; [|done].
  simpl. rewrite E. exact E'.
Qed.
End Loop.
