(* ===== verification/VsockMuxerOps.v ===== *)
(** The muxer's kill-queue sweep, local ports and creation of connections: what
    they do and that they keep the muxer's invariant. *)

From stdpp Require Import sorting.
From S2P Require Import Prelude VsockStream TxBuf VsockPacket VsockConnection.
From S2P Require Import VsockConnectionSpec VsockConnectionProps VsockQueues VsockPort.
From S2P Require Import VsockMuxer VsockMuxerSpec VsockMuxerRecv.

(** ** Local ports *)

(** The port [i] steps after [last]. *)
Definition port_after (last i : Z) : Z := 2 ^ 30 + (last + 1 + i) mod 2 ^ 30.

Lemma set_bit_30 x : 2 ^ 30 <= x < 2 ^ 31 -> Z.lor x (2 ^ 30) = x.
Proof.
  intros Hx. apply Z.bits_inj'. intros n Hn. rewrite Z.lor_spec, Z.pow2_bits_eqb by lia.
  destruct (Z.eqb_spec 30 n) as [<-|]; [|by rewrite orb_false_r]. rewrite orb_true_r. symmetry.
  apply Z.testbit_true; [lia|]. replace (x / 2 ^ 30) with 1; [done|].
  apply (Z.div_unique x (2 ^ 30) 1 (x - 2 ^ 30)); lia.
Qed.

Lemma next_local_port_ok last :
  2 ^ 30 - 1 <= last < 2 ^ 31 -> next_local_port last = Ret (port_after last 0).
Proof.
  intros Hl. unfold next_local_port. rewrite add_u_ret by ulia. cbn [obind]. f_equal.
  change (Z.lxor (Z.shiftl 1 31) u32_max) with (Z.ones 31). rewrite Z.land_ones by lia.
  change (Z.shiftl 1 30) with (2 ^ 30). unfold port_after. rewrite Z.add_0_r.
  destruct (Z.eq_dec (last + 1) (2 ^ 31)) as [->|Hne]; [done|].
  rewrite (Z.mod_small _ (2 ^ 31)) by lia. rewrite set_bit_30 by lia.
  rewrite <- (Z.mod_unique (last + 1) (2 ^ 30) 1 (last + 1 - 2 ^ 30)) by lia. lia.
Qed.

Lemma port_after_range last i : 2 ^ 30 <= port_after last i < 2 ^ 31.
Proof. unfold port_after. pose proof (Z.mod_pos_bound (last + 1 + i) (2 ^ 30)). lia. Qed.

Lemma port_after_step last i : port_after (port_after last 0) i = port_after last (i + 1).
Proof.
  unfold port_after. f_equal. rewrite Z.add_0_r.
  replace (2 ^ 30 + (last + 1) mod 2 ^ 30 + 1 + i) with ((last + 1) mod 2 ^ 30 + (1 + i) + 1 * 2 ^ 30) by lia.
  rewrite Z.mod_add by lia. rewrite Zplus_mod_idemp_l. f_equal. lia.
Qed.

Lemma port_after_inj last i j :
  0 <= i < 2 ^ 30 -> 0 <= j < 2 ^ 30 -> port_after last i = port_after last j -> i = j.
Proof.
  unfold port_after. intros Hi Hj E.
  assert (Hd : (i - j) mod 2 ^ 30 = 0).
  { replace (i - j) with ((last + 1 + i) - (last + 1 + j)) by lia.
    rewrite Zminus_mod. replace ((last + 1 + i) mod 2 ^ 30) with ((last + 1 + j) mod 2 ^ 30) by lia.
    by rewrite Z.sub_diag. }
  apply Z.mod_divide in Hd as [q Hq]; [|lia]. nia.
Qed.

(** The loop yields the first port after [last] that is not in the set, if its
    fuel reaches it. *)
Lemma port_loop_ok fuel (set : gset Z) : forall last,
  2 ^ 30 - 1 <= last < 2 ^ 31 ->
  (exists n : nat, (n < fuel)%nat /\ allocate_port_loop fuel set last = Ret (port_after last (Z.of_nat n)) /\
     (port_after last (Z.of_nat n) ∉ set) /\ forall j : nat, (j < n)%nat -> (port_after last (Z.of_nat j) ∈ set)) \/
  (forall j : nat, (j < fuel)%nat -> (port_after last (Z.of_nat j) ∈ set)).
Proof.
  induction fuel as [|fuel IH]; intros last Hl; [right; lia|]. simpl.
  rewrite next_local_port_ok by done. cbn [obind]. case_bool_decide as Hin.
  - pose proof (port_after_range last 0).
    assert (Hall : forall n : nat, (forall j : nat, (j < n)%nat -> port_after (port_after last 0) (Z.of_nat j) ∈ set) ->
      forall j : nat, (j < Datatypes.S n)%nat -> (port_after last (Z.of_nat j) ∈ set)).
    { intros n Hn [|j] Hj; [done|]. replace (Z.of_nat (Datatypes.S j)) with (Z.of_nat j + 1) by lia.
      rewrite <- port_after_step. apply Hn. lia. }
    destruct (IH (port_after last 0)) as [(n & Hn & E & Hnin & Hlt)|Hno]; [lia| |right; by apply Hall].
    left. exists (Datatypes.S n). rewrite port_after_step in E, Hnin.
    replace (Z.of_nat (Datatypes.S n)) with (Z.of_nat n + 1) by lia. split_and!; [lia|done|done|by apply Hall].
  - left. exists 0%nat. split_and!; [lia|done|done|lia].
Qed.

Lemma ports_exhausted (set : gset Z) last (n : nat) :
  Z.of_nat n <= 2 ^ 30 -> (forall j : nat, (j < n)%nat -> (port_after last (Z.of_nat j) ∈ set)) -> (n <= size set)%nat.
Proof.
  intros Hn Hin. set (l := (fun j : nat => port_after last (Z.of_nat j)) <$> seq 0 n).
  assert (Hnd : NoDup l).
  { apply NoDup_fmap_2_strong; [|apply NoDup_seq]. intros i j Hi Hj E.
    apply elem_of_seq in Hi, Hj. apply port_after_inj in E; lia. }
  assert (Hsub : list_to_set l ⊆ set).
  { intros x Hx. apply elem_of_list_to_set, list_elem_of_fmap in Hx as (j & -> & Hj).
    apply elem_of_seq in Hj. apply Hin. lia. }
  apply subseteq_size in Hsub. rewrite size_list_to_set in Hsub by done.
  subst l. by rewrite length_fmap, length_seq in Hsub.
Qed.

Section Ops.
Context {S W : Type} `{Hstream : VsockStream S} `{!PortStream S} `{!MuxerEnv S W} `{!StreamLaws S}.
Implicit Types m : VsockMuxer S W.
Implicit Types c : VsockConnection S.

Lemma inv_ports m set last :
  mux_inv m -> 2 ^ 30 - 1 <= last < 2 ^ 31 -> mux_inv (upd_ports m set last).
Proof. intros [] ?. destruct m; split; simpl in *; done. Qed.

Lemma allocate_ok m :
  mux_inv m -> Z.of_nat (size (m_local_port_set m)) < 2 ^ 30 ->
  exists n : nat, let p := port_after (m_local_port_last m) (Z.of_nat n) in
    allocate_local_port m = Ret (p, upd_ports m ({[p]} ∪ m_local_port_set m) p) /\
    (p ∉ m_local_port_set m) /\
    (forall j : nat, (j < n)%nat -> (port_after (m_local_port_last m) (Z.of_nat j) ∈ m_local_port_set m)).
Proof.
  intros Hi Hsz. unfold allocate_local_port.
  destruct (port_loop_ok (Datatypes.S (size (m_local_port_set m))) (m_local_port_set m)
    (m_local_port_last m) (mi_port _ Hi)) as [(n & _ & E & Hnin & Hlt)|Hno].
  - exists n. rewrite E. by split_and!.
  - apply ports_exhausted in Hno; lia.
Qed.

(** ** Sweeping the kill queue *)

(** The keys of the items at the front whose time has passed. *)
Fixpoint due (now : Z) (q : list MuxerKillQItem) : list ConnMapKey :=
  match q with
  | i :: q => if ki_kill_time i <? now then ki_key i :: due now q else []
  | [] => []
  end.

(** The pool once the connections under [keys] that have expired are killed. *)
Definition kill_expired (now : Z) (keys : list ConnMapKey) (k : ConnMapKey) c : VsockConnection S :=
  if bool_decide (k ∈ keys) && has_expired c now then kill c else c.

Definition swept (now : Z) (keys : list ConnMapKey) (conns conns' : gmap ConnMapKey (VsockConnection S)) : Prop :=
  forall k, conns' !! k = kill_expired now keys k <$> conns !! k.

Lemma kill_idemp c : conn_wf c -> kill (kill c) = kill c.
Proof.
  intros (_ & Hp & _). destruct c. simpl in *. unfold kill, pend. simpl. f_equal.
  unfold prx_insert. by rewrite <- Z.lor_assoc, Z.lor_diag.
Qed.

Lemma has_expired_kill c now : has_expired (kill c) now = has_expired c now.
Proof. by destruct c. Qed.

Lemma swept_nil now conns : swept now [] conns conns.
Proof. intros k. by destruct (conns !! k). Qed.

(** One item popped. *)
Definition pop_conns (now : Z) key (conns : gmap ConnMapKey (VsockConnection S)) :=
  match conns !! key with
  | Some c => if has_expired c now then <[key := kill c]> conns else conns
  | None => conns
  end.

Lemma swept_cons now key keys conns conns' :
  (forall k c, conns !! k = Some c -> conn_wf c) ->
  swept now keys (pop_conns now key conns) conns' -> swept now (key :: keys) conns conns'.
Proof.
  intros Hw Hs k. rewrite Hs. unfold pop_conns.
  assert (Hbd : bool_decide (k ∈ key :: keys) = bool_decide (k = key) || bool_decide (k ∈ keys)).
  { rewrite <- bool_decide_or. apply bool_decide_ext. apply elem_of_cons. }
  unfold kill_expired. rewrite Hbd. destruct (conns !! key) as [c|] eqn:El.
  - destruct (decide (k = key)) as [->|Hne].
    + rewrite (bool_decide_eq_true_2 (key = key)) by done. cbn [orb andb]. rewrite El.
      destruct (has_expired c now) eqn:Ex; [rewrite lookup_insert_eq|rewrite El];
        cbn [fmap option_fmap option_map]; f_equal.
      * rewrite has_expired_kill, Ex. destruct (bool_decide (key ∈ keys)); [|done]. by apply kill_idemp, (Hw key).
      * by rewrite Ex, andb_false_r.
    + rewrite (bool_decide_eq_false_2 (k = key)) by done. cbn [orb].
      by destruct (has_expired c now); rewrite ?lookup_insert_ne by done.
  - destruct (decide (k = key)) as [->|Hne]; [by rewrite El|].
    by rewrite (bool_decide_eq_false_2 (k = key)).
Qed.

(** Everything but the pool and the queues is as before. *)
Definition same_rest m m' : Prop :=
  m_cid m' = m_cid m /\ m_local_port_last m' = m_local_port_last m /\
  m_local_port_set m' = m_local_port_set m /\ m_peer_backend m' = m_peer_backend m /\
  m_backend_map m' = m_backend_map m /\ m_world m' = m_world m /\ m_listener_map m' = m_listener_map m.

Lemma same_rest_trans m1 m2 m3 : same_rest m1 m2 -> same_rest m2 m3 -> same_rest m1 m3.
Proof. unfold same_rest. intros. destruct_and!. split_and!; congruence. Qed.

Lemma pop_step m key q now :
  mux_inv m -> zlen (kq_q q) <= MUXER_KILLQ_SIZE ->
  let m1 := upd_killq m q in
  let m2 := if match m_conn_map m1 !! key with Some c => has_expired c now | None => false end
            then kill_connection m1 key else m1 in
  mux_inv m2 /\ same_rest m m2 /\ m_killq m2 = q /\ m_conn_map m2 = pop_conns now key (m_conn_map m).
Proof.
  intros Hi Hq m1 m2. pose proof (inv_killq m q Hi Hq) as Hi1. fold m1 in Hi1.
  assert (Hc : m_conn_map m1 = m_conn_map m) by (by destruct m).
  subst m2. rewrite Hc. unfold pop_conns. destruct (m_conn_map m !! key) as [c|] eqn:El; [|by destruct m].
  destruct (has_expired c now); [|by destruct m]. destruct (kill_connection_ok m1 key Hi1) as [Hi2 Hw].
  unfold killed_conns in Hw. rewrite Hc, El in Hw. destruct Hw as (E1 & E2 & E3 & E4 & E5 & E6).
  split; [done|]. split; [|split; [by rewrite E4; destruct m|by rewrite E2]].
  unfold kill_connection. rewrite Hc, El. destruct (has_pending_rx c); by destruct m.
Qed.

Lemma sweep_loop_ok fuel : forall m now,
  mux_inv m -> (length (kq_q (m_killq m)) <= fuel)%nat ->
  let m' := sweep_loop fuel m now in
  mux_inv m' /\ same_rest m m' /\ kq_synced (m_killq m') = kq_synced (m_killq m) /\
  swept now (due now (kq_q (m_killq m))) (m_conn_map m) (m_conn_map m') /\
  due now (kq_q (m_killq m')) = [].
Proof.
  induction fuel as [|fuel IH]; intros m now Hi Hf; simpl.
  - destruct (kq_q (m_killq m)) eqn:Eq; [|simpl in Hf; lia]. split_and!; [apply Hi..|by destruct m|done|apply swept_nil|done].
  - unfold KillQ_pop. destruct (kq_q (m_killq m)) as [|i q] eqn:Eq.
    { rewrite Eq. split; [done|]. by split_and!; [..|apply swept_nil|]. }
    simpl due. rewrite Z.gtb_ltb. destruct (ki_kill_time i <? now) eqn:Et.
    2:{ split; [done|]. split_and!; [done..|apply swept_nil|]. rewrite Eq. simpl. by rewrite Et. }
    destruct (pop_step m (ki_key i) (mkKillQ q (kq_synced (m_killq m))) now Hi) as (Hi2 & Hr2 & Hq2 & Hc2).
    { pose proof (mi_killq _ Hi) as Hk. rewrite Eq in Hk. unfold zlen in *. cbn [kq_q length] in *. lia. }
    cbv zeta in *. match goal with |- context [sweep_loop fuel ?x now] => set (m2 := x) in * end. clearbody m2.
    destruct (IH m2 now Hi2) as (Hi' & Hr' & Hs' & Hsw & Hd); [rewrite Hq2; simpl in *; lia|].
    split; [done|]. split; [by eapply same_rest_trans|]. split; [by rewrite Hs', Hq2|]. split; [|done].
    rewrite Hq2, Hc2 in Hsw. apply swept_cons; [|done]. intros k c Hl. apply (mi_conns _ Hi k c Hl).
Qed.

(** A kill queue none of whose items is due is left alone. *)
Lemma sweep_not_due fuel m now : due now (kq_q (m_killq m)) = [] -> sweep_loop fuel m now = m.
Proof.
  intros Hd. destruct fuel; [done|]. simpl. unfold KillQ_pop.
  destruct (kq_q (m_killq m)) as [|i q]; [done|]. simpl in Hd. rewrite Z.gtb_ltb. by destruct (_ <? now).
Qed.

(** The rebuilt queue. *)
Lemma rebuilt_not_due now (conns : list (ConnMapKey * VsockConnection S)) k :
  KillQ_from_conn_map now conns = Ret k ->
  due now (kq_q k) = [] /\ zlen (kq_q k) <= MUXER_KILLQ_SIZE /\ (KillQ_is_empty k = true -> kq_synced k = true).
Proof.
  destruct (KillQ_from_conn_map_ok now conns) as (k' & E & Hl & _ & Hc). rewrite E. intros [= <-].
  assert (Hin : forall i, i ∈ kq_q k' -> now < ki_kill_time i).
  { intros i Hi. assert (Hx : i ∈ expiring conns now).
    { destruct (kq_synced k'); [by rewrite <- Hc|]. destruct Hc as [_ Hc]. by eapply elem_of_submseteq. }
    apply list_elem_of_fmap in Hx as ([key c] & -> & Hx). apply list_elem_of_filter in Hx as [Hx _].
    unfold will_expire in Hx. simpl in *. destruct (c_expiry c); [|done]. simpl. lia. }
  split_and!; [|done|].
  - destruct (kq_q k') as [|i q]; [done|]. simpl.
    rewrite (proj2 (Z.ltb_ge _ _)); [done|]. specialize (Hin i ltac:(by left)). lia.
  - unfold KillQ_is_empty. destruct (kq_synced k'); [done|]. destruct Hc as [-> _]. done.
Qed.

Lemma sweep_killq_ok m now :
  mux_inv m ->
  exists m', sweep_killq m now = Ret m' /\ mux_inv m' /\ same_rest m m' /\
    swept now (due now (kq_q (m_killq m))) (m_conn_map m) (m_conn_map m') /\
    due now (kq_q (m_killq m')) = [] /\
    (KillQ_is_empty (m_killq m') = true -> kq_synced (m_killq m') = true).
Proof.
  intros Hi. unfold sweep_killq. simpl.
  destruct (sweep_loop_ok (length (kq_q (m_killq m))) m now Hi ltac:(done)) as (Hi1 & Hr1 & Hs1 & Hsw & Hd1).
  set (m1 := sweep_loop _ _ _) in *. clearbody m1.
  destruct (KillQ_is_empty (m_killq m1) && negb (kq_synced (m_killq m1))) eqn:E.
  - destruct (KillQ_from_conn_map_ok now (conn_iter (m_conn_map m1))) as (q & Eq & _).
    rewrite Eq. cbn [obind]. destruct (rebuilt_not_due now _ q Eq) as (Hd & Hl & Hsy).
    assert (Hd2 : due now (kq_q (m_killq (upd_killq m1 q))) = []) by (by destruct m1).
    rewrite sweep_not_due by done.
    replace (m_killq (upd_killq m1 q)) with q by (by destruct m1).
    rewrite (proj2 (andb_false_iff _ _)).
    2:{ destruct (KillQ_is_empty q) eqn:Ee; [|by left]. right. by rewrite Hsy. }
    exists (upd_killq m1 q). split; [done|]. split; [by apply inv_killq|].
    split; [eapply same_rest_trans; [exact Hr1|by destruct m1]|].
    replace (m_killq (upd_killq m1 q)) with q by (by destruct m1).
    replace (m_conn_map (upd_killq m1 q)) with (m_conn_map m1) by (by destruct m1). done.
  - exists m1. split; [done|]. split; [done|]. split; [done|]. split; [done|]. split; [done|].
    intros Ee. rewrite Ee in E. simpl in E. by destruct (kq_synced (m_killq m1)).
Qed.

(** What a sweep queues: the keys of connections that have expired. *)
Definition announce (r : MuxerRxQ) (ks : list ConnMapKey) : MuxerRxQ :=
  foldl (fun r k => (RxQ_push r (ConnRx k)).2) r ks.

Definition expired_in (now : Z) (conns : gmap ConnMapKey (VsockConnection S)) (k : ConnMapKey) : Prop :=
  exists c, conns !! k = Some c /\ has_expired c now = true.

Definition announced (now : Z) m m' : Prop :=
  (exists ks, Forall (expired_in now (m_conn_map m)) ks /\ m_rxq m' = announce (m_rxq m) ks) /\
  forall k, expired_in now (m_conn_map m') k -> expired_in now (m_conn_map m) k.

Lemma announced_none now m m' : m_conn_map m' = m_conn_map m -> m_rxq m' = m_rxq m -> announced now m m'.
Proof. intros E1 E2. split; [exists []; by split|]. by rewrite E1. Qed.

Lemma announced_trans now m1 m2 m3 : announced now m1 m2 -> announced now m2 m3 -> announced now m1 m3.
Proof.
  intros [(ks & Hks & E) H] [(ks' & Hks' & E') H']. split; [|auto]. exists (ks ++ ks').
  split; [apply Forall_app; split; [done|by eapply Forall_impl]|]. unfold announce in *. by rewrite foldl_app, <- E.
Qed.

Lemma announced_kill now m key c :
  m_conn_map m !! key = Some c -> has_expired c now = true -> announced now m (kill_connection m key).
Proof.
  intros Hl Hx. unfold kill_connection. rewrite Hl. split.
  - destruct (has_pending_rx c); [exists []; split; [done|by destruct m]|exists [key]].
    split; [constructor; [by exists c|done]|by destruct m].
  - intros k (c' & Hk & Hx'). assert (Hk' : <[key := kill c]> (m_conn_map m) !! k = Some c')
      by (rewrite <- Hk; destruct (has_pending_rx c); by destruct m).
    destruct (decide (k = key)) as [->|Hne]; [by exists c|]. rewrite lookup_insert_ne in Hk' by done. by exists c'.
Qed.

Lemma announced_sweep_loop fuel : forall m now, announced now m (sweep_loop fuel m now).
Proof.
  induction fuel as [|fuel IH]; intros m now; simpl; [by apply announced_none|].
  destruct (KillQ_pop (m_killq m) now) as [[key|] q]; [|by apply announced_none].
  eapply announced_trans; [|apply IH]. assert (Hu : announced now m (upd_killq m q)) by (apply announced_none; by destruct m).
  destruct (m_conn_map (upd_killq m q) !! key) as [c|] eqn:El; [|done]. destruct (has_expired c now) eqn:Ex; [|done].
  eapply announced_trans; [exact Hu|]. by eapply announced_kill.
Qed.

Lemma announced_sweep fuel : forall m now m', sweep_killq_fuel fuel m now = Ret m' -> announced now m m'.
Proof.
  induction fuel as [|fuel IH]; intros m now m' E; simpl in E; [done|].
  pose proof (announced_sweep_loop (length (kq_q (m_killq m))) m now) as Hl. set (m1 := sweep_loop _ _ _) in *. clearbody m1.
  destruct (_ && _); [|by injection E as <-]. destruct (KillQ_from_conn_map _ _) as [q|]; [|done]. cbn [obind] in E.
  eapply announced_trans; [exact Hl|]. eapply announced_trans; [|by apply IH]. apply announced_none; by destruct m1.
Qed.

(** Connections a sweep leaves, with what it may have done to them. *)
Lemma swept_lookup now keys conns conns' k :
  swept now keys conns conns' ->
  conns' !! k = conns !! k \/
  exists c, conns !! k = Some c /\ has_expired c now = true /\ conns' !! k = Some (kill c).
Proof.
  intros Hs. rewrite Hs. destruct (conns !! k) as [c|]; [|by left]. cbn [fmap option_fmap option_map].
  unfold kill_expired. destruct (_ && _) eqn:E; [right|by left]. apply andb_true_iff in E as [_ E]. eauto.
Qed.

(** ** Adding a connection *)

Lemma keyed_peer m (s : S) lp pp ba :
  keyed (m_cid m) (mkKey lp pp) (new_peer_init s VSOCK_HOST_CID (m_cid m) lp pp ba).
Proof.
  split; [|done]. split_and!; simpl; [apply txbuf_wf_default|by vm_compute|done..].
Qed.

Lemma keyed_local m (s : S) lp pp :
  keyed (m_cid m) (mkKey lp pp) (new_local_init s VSOCK_HOST_CID (m_cid m) lp pp).
Proof.
  split; [|done]. split_and!; simpl; [apply txbuf_wf_default|by vm_compute|done..].
Qed.

Lemma inv_add m key c :
  mux_inv m -> keyed (m_cid m) key c -> Z.of_nat (size (m_conn_map m)) < MAX_CONNECTIONS ->
  let m1 := if has_pending_rx c then rxq_push m (ConnRx key) else m in
  let m2 := upd_conns m1 (<[key := c]> (m_conn_map m1)) in
  mux_inv m2 /\ m_cid m2 = m_cid m /\ m_local_port_set m2 = m_local_port_set m /\
  m_conn_map m2 = <[key := c]> (m_conn_map m).
Proof.
  intros Hi Hk Hsz m1 m2. set (r := if has_pending_rx c then (RxQ_push (m_rxq m) (ConnRx key)).2 else m_rxq m).
  assert (Hw : with_conns m (<[key := c]> (m_conn_map m)) r m2)
    by (subst m2 m1 r; destruct (has_pending_rx c); by destruct m).
  split; [|by destruct Hw as (? & ? & ? & ? & ? & ?)].
  eapply (inv_with_conns m _ _ r); [exact Hi|exact Hw|..].
  - subst r. destruct (has_pending_rx c); [apply push_bound|]; apply Hi.
  - rewrite map_size_insert. destruct (m_conn_map m !! key); unfold id; lia.
  - subst r. destruct (has_pending_rx c) eqn:Ep; (eapply covers_insert; [apply Hi|..]).
    + apply push_extends.
    + intros Hs _. by apply push_conn.
    + apply rxq_extends_refl.
    + congruence.
  - apply map_Forall_insert_2; [done|apply Hi].
Qed.

(** The pool has room for [c], and its stream can be watched. *)
Definition admits m c : bool :=
  (Z.of_nat (size (m_conn_map m)) <? MAX_CONNECTIONS) &&
  match epoll_ctl (m_world m) EPOLL_CTL_ADD (stream_fd (c_stream c)) (get_polled_evset c) with (Ok _, _) => true | (Err _, _) => false end.

Lemma add_connection_ok m key c now :
  mux_inv m -> keyed (m_cid m) key c ->
  exists r m' conns1 r1, add_connection m key c now = Ret (r, m') /\ mux_inv m' /\ m_cid m' = m_cid m /\
    m_local_port_set m' = m_local_port_set m /\
    swept now (due now (kq_q (m_killq m))) (m_conn_map m) conns1 /\
    (exists ks, Forall (expired_in now (m_conn_map m)) ks /\ r1 = announce (m_rxq m) ks) /\
    if admits m c
    then r = Ok tt /\ m_conn_map m' = <[key := c]> conns1 /\ m_rxq m' = if has_pending_rx c then (RxQ_push r1 (ConnRx key)).2 else r1
    else (exists e, r = Err e) /\ m_conn_map m' = conns1 /\ m_rxq m' = r1.
Proof.
  intros Hi Hk. unfold add_connection, admits. destruct (sweep_killq_ok m now Hi) as (m1 & E & Hi1 & Hr & Hsw & _).
  destruct (announced_sweep _ _ _ _ E) as [Han _]. rewrite E. destruct Hr as (R1 & R2 & R3 & _ & _ & R6 & _). cbn [obind].
  assert (Hsz : size (m_conn_map m1) = size (m_conn_map m)).
  { rewrite <- !size_dom. f_equal. apply set_eq. intros k. rewrite !elem_of_dom, Hsw, fmap_is_Some. done. }
  rewrite Z.geb_leb, Z.ltb_antisym, <- Hsz. destruct (Z.leb_spec MAX_CONNECTIONS (Z.of_nat (size (m_conn_map m1)))) as [Hge|Hlt]; cbn [negb andb].
  { exists (Err TooManyConnections), m1, (m_conn_map m1), (m_rxq m1). by split_and!; eauto. }
  set (l := Connection _ _ _). pose proof (same_add_listener m1 (stream_fd (c_stream c)) l) as Hs.
  unfold add_listener in *. rewrite R6 in *. cbn [listener_evset l] in *.
  destruct (epoll_ctl _ _ _ _) as [[[]|e] w]; cbn [snd] in Hs;
    match type of Hs with same_core _ ?x => set (m2 := x) in * end; clearbody m2;
    pose proof (inv_same _ _ Hi1 Hs) as Hi2; destruct Hs as (E1 & E2 & E3 & E4 & E5 & E6).
  - destruct (inv_add m2 key c Hi2) as (Hi3 & F1 & F2 & F3); [by rewrite E1, R1|by rewrite E2|].
    exists (Ok tt), (upd_conns (if has_pending_rx c then rxq_push m2 (ConnRx key) else m2)
      (<[key := c]> (m_conn_map (if has_pending_rx c then rxq_push m2 (ConnRx key) else m2)))), (m_conn_map m1), (m_rxq m1).
    split; [done|]. split; [done|]. rewrite F1, F2, F3, E1, E2, E6. split_and!; try done.
    rewrite <- E3. destruct (has_pending_rx c); by destruct m2.
  - exists (Err EpollAdd), m2, (m_conn_map m1), (m_rxq m1). split; [done|]. split; [done|]. rewrite E1, E2, E6. by split_and!; eauto.
Qed.
End Ops.
