(* ===== verification/VsockMuxerProps.v ===== *)
(** What the vsock muxer promises: routing of packets from the guest, fresh local
    ports, termination of expired connections, and an invariant of every run. *)

From stdpp Require Import sorting.
From S2P Require Import Prelude VsockStream TxBuf VsockPacket VsockConnection.
From S2P Require Import VsockConnectionSpec VsockConnectionProps VsockQueues VsockPort.
From S2P Require Import VsockMuxer VsockMuxerSpec VsockMuxerRecv VsockMuxerOps.

Section Props.
Context {S W : Type} `{Hstream : VsockStream S} `{!PortStream S} `{!MuxerEnv S W} `{!StreamLaws S}.
Implicit Types m : VsockMuxer S W.
Implicit Types c : VsockConnection S.

(** ** Packets from the guest *)

Lemma inv_enq_rst m lp pp :
  mux_inv m -> mux_inv (enq_rst m lp pp) /\ m_cid (enq_rst m lp pp) = m_cid m /\
  m_local_port_set (enq_rst m lp pp) = m_local_port_set m /\
  m_conn_map (enq_rst m lp pp) = m_conn_map m.
Proof.
  intros Hi. unfold enq_rst, rxq_push. set (r := (RxQ_push _ _).2).
  assert (Hw : with_conns m (m_conn_map m) r (upd_rxq m r)) by (by destruct m).
  split; [|by destruct Hw as (? & ? & ? & ? & ? & ?)].
  apply (inv_with_conns m _ (m_conn_map m) r); [exact Hi|done| |apply Hi| |apply Hi].
  - apply push_bound, Hi.
  - apply covers_push, Hi.
Qed.

(** Other connections than [key]'s, after [m] became [m']: untouched, or killed
    because they had expired. *)
Definition others_kept (now : Z) (key : ConnMapKey) m m' : Prop :=
  forall k, k <> key -> m_conn_map m' !! k = m_conn_map m !! k \/
    exists c, m_conn_map m !! k = Some c /\ has_expired c now = true /\ m_conn_map m' !! k = Some (kill c).

(** How an RST is queued: behind what is queued while the queue is in sync and has
    room; else in the place of the last connection in the queue, which is then to
    be rebuilt; and if it holds only RSTs, the new one is dropped. *)
Definition rst_queued (r : MuxerRxQ) (rst : MuxerRx) (r' : MuxerRxQ) : Prop :=
  if rxq_synced r && negb (RxQ_is_full r) then r' = mkRxQ (rxq_q r ++ [rst]) true else
  (exists a k b, rxq_q r = a ++ ConnRx k :: b /\ Forall (fun x => is_conn_rx x = false) b /\ r' = mkRxQ (a ++ rst :: b) false) \/
  Forall (fun x => is_conn_rx x = false) (rxq_q r) /\ r' = r.

Lemma rst_queued_push r lp pp : rst_queued r (RstPkt lp pp) (RxQ_push r (RstPkt lp pp)).2.
Proof.
  unfold rst_queued, RxQ_push. destruct (rxq_synced r) eqn:Es, (RxQ_is_full r); cbn [andb negb]; [|done|..].
  all: destruct (replace_last_conn _ _) as [q|] eqn:E; [left|right; by apply replace_last_none in E].
  all: apply replace_last_some in E as (a & k & b & E1 & -> & Hf); by exists a, k, b.
Qed.

(** The RST that answers [pkt]. *)
Definition rst_for (pkt : VsockPacket) : MuxerRx := RstPkt (dst_port pkt) (src_port pkt).

(** [m'] is [m] with an RST queued, and nothing else. *)
Definition refused m (pkt : VsockPacket) m' : Prop :=
  exists r, rst_queued (m_rxq m) (rst_for pkt) r /\ m' = upd_rxq m r.

Lemma refused_enq m pkt : refused m pkt (enq_rst m (dst_port pkt) (src_port pkt)).
Proof. eexists. split; [apply rst_queued_push|done]. Qed.

(** The connection for a request of the guest, and what becomes of the request: it
    is accepted exactly if there is a backend for it that can be connected to,
    the pool has room, and epoll takes the stream.  The keys of the connections
    killed on the way are queued first. *)
Definition peer_conn m (pkt : VsockPacket) (stream : S) : VsockConnection S :=
  new_peer_init stream VSOCK_HOST_CID (m_cid m) (dst_port pkt) (src_port pkt) (buf_alloc pkt).

Definition peer_stream m (pkt : VsockPacket) : option S * W :=
  match m_peer_backend m with
  | Some t =>
      if bool_decide (t ∈ m_backend_map m) then
        match backend_connect (m_world m) t (dst_port pkt) with (Ok stream, w) => (Some stream, w) | (Err _, w) => (None, w) end
      else (None, m_world m)
  | None => (None, m_world m)
  end.

Definition request_done m (pkt : VsockPacket) (now : Z) m' : Prop :=
  let key := mkKey (dst_port pkt) (src_port pkt) in
  match peer_stream m pkt with
  | (None, w) => refused (upd_world m w) pkt m'
  | (Some stream, w) =>
      let c := peer_conn m pkt stream in
      exists ks, Forall (expired_in now (m_conn_map m)) ks /\
        let r := announce (m_rxq m) ks in
        if admits (upd_world m w) c
        then m_conn_map m' !! key = Some c /\ m_rxq m' = (RxQ_push r (ConnRx key)).2
        else m_conn_map m' !! key = None /\ rst_queued r (rst_for pkt) (m_rxq m')
  end.

Lemma handle_peer_request_ok m pkt now :
  mux_inv m -> let key := mkKey (dst_port pkt) (src_port pkt) in
  m_conn_map m !! key = None ->
  exists m', handle_peer_request_pkt m pkt now = Ret m' /\ mux_inv m' /\ m_cid m' = m_cid m /\
    m_local_port_set m' = m_local_port_set m /\ others_kept now key m m' /\ request_done m pkt now m'.
Proof.
  intros Hi key Hn. unfold handle_peer_request_pkt, request_done, peer_stream.
  assert (Hrefuse : forall w, exists m', Ret (enq_rst (upd_world m w) (dst_port pkt) (src_port pkt)) = Ret m' /\ mux_inv m' /\
    m_cid m' = m_cid m /\ m_local_port_set m' = m_local_port_set m /\ others_kept now key m m' /\ refused (upd_world m w) pkt m').
  { intros w. destruct (inv_enq_rst (upd_world m w) (dst_port pkt) (src_port pkt)) as (? & F1 & F2 & F3);
      [eapply inv_same; [exact Hi|apply same_world]|].
    eexists. split; [done|]. split; [done|]. rewrite F1, F2. unfold others_kept. rewrite F3.
    split_and!; [by destruct m..|intros; left; by destruct m|apply refused_enq]. }
  assert (Hsame : upd_world m (m_world m) = m) by (by destruct m).
  pose proof (Hrefuse (m_world m)) as Hrefuse0. rewrite Hsame in Hrefuse0.
  destruct (m_peer_backend m) as [t|] eqn:Et; [|by rewrite Hsame].
  destruct (bool_decide _); [|by rewrite Hsame]. clear Hrefuse0.
  destruct (backend_connect (m_world m) t (dst_port pkt)) as [[stream|e] w] eqn:Ec; [|apply Hrefuse].
  pose proof (inv_same _ _ Hi (same_world m w)) as Hi1. fold key (peer_conn m pkt stream). set (c := peer_conn m pkt stream).
  destruct (add_connection_ok (upd_world m w) key c now Hi1) as (r & m2 & cs & r1 & -> & Hi2 & E1 & E2 & Hsw & (ks & Hks & ->) & Hr);
    [replace (m_cid (upd_world m w)) with (m_cid m) by (by destruct m); apply keyed_peer|].
  replace (m_conn_map (upd_world m w)) with (m_conn_map m) in * by (by destruct m).
  replace (m_local_port_set (upd_world m w)) with (m_local_port_set m) in * by (by destruct m).
  replace (m_rxq (upd_world m w)) with (m_rxq m) in * by (by destruct m).
  replace (m_cid (upd_world m w)) with (m_cid m) in * by (by destruct m).
  cbn [obind]. destruct (admits (upd_world m w) c).
  - destruct Hr as (-> & Hr & Hq). exists m2. split_and!; try done.
    + intros k Hk. rewrite Hr, lookup_insert_ne by congruence. by eapply swept_lookup.
    + exists ks. by rewrite Hr, lookup_insert_eq.
  - destruct Hr as ([e ->] & Hr & Hq).
    destruct (inv_enq_rst m2 (dst_port pkt) (src_port pkt) Hi2) as (? & F1 & F2 & F3).
    eexists. split; [done|]. split; [done|]. rewrite F1, F2. unfold others_kept. rewrite F3, Hr. split_and!; try done.
    + intros k _. by eapply swept_lookup.
    + exists ks. split; [done|]. split; [by rewrite Hsw, Hn|]. rewrite <- Hq.
      replace (m_rxq (enq_rst m2 _ _)) with (RxQ_push (m_rxq m2) (rst_for pkt)).2 by (by destruct m2). apply rst_queued_push.
Qed.

(** What becomes of a packet from the guest.  A connection is killed after it took
    the packet only if epoll refuses to watch its stream. *)
Definition routed m (pkt : VsockPacket) (now : Z) m' : Prop :=
  let key := mkKey (dst_port pkt) (src_port pkt) in
  others_kept now key m m' /\
  (type_ pkt <> VSOCK_TYPE_STREAM -> refused m pkt m') /\
  (type_ pkt = VSOCK_TYPE_STREAM -> dst_cid pkt <> VSOCK_HOST_CID -> m' = m) /\
  (type_ pkt = VSOCK_TYPE_STREAM -> dst_cid pkt = VSOCK_HOST_CID ->
   match m_conn_map m !! key with
   | Some c =>
       if op pkt =? VSOCK_OP_RST
       then m_conn_map m' = delete key (m_conn_map m) /\ m_local_port_set m' = m_local_port_set m ∖ {[dst_port pkt]}
       else exists c', send_pkt c pkt now = Ret (Ok tt, c') /\
         let c2 := ack_established (c_state c) key c' in
         let r := sched_rxq (m_rxq m) key c c2 in
         (m_conn_map m' = <[key := c2]> (m_conn_map m) /\ m_rxq m' = r \/
          m_conn_map m' = <[key := kill c2]> (m_conn_map m) /\
            m_rxq m' = (if has_pending_rx c2 then r else (RxQ_push r (ConnRx key)).2) /\
            watch_fails (m_world m) (stream_fd (c_stream c2)) (get_polled_evset c2))
   | None => if op pkt =? VSOCK_OP_REQUEST then request_done m pkt now m' else refused m pkt m'
   end).

Lemma mux_send_ok m pkt now :
  mux_inv m -> pkt_valid pkt ->
  exists m', mux_send_pkt m pkt now = Ret (Ok tt, m') /\ mux_inv m' /\
    m_cid m' = m_cid m /\ m_local_port_set m' ⊆ m_local_port_set m /\ routed m pkt now m'.
Proof.
  intros Hi Hv. unfold routed. set (key := mkKey (dst_port pkt) (src_port pkt)).
  pose proof (refused_enq m pkt) as Hrf. set (rst := enq_rst m (dst_port pkt) (src_port pkt)) in *. cbv zeta.
  destruct (inv_enq_rst m (dst_port pkt) (src_port pkt) Hi) as (Hir & R1 & R2 & R3).
  fold rst in Hir, R1, R2, R3. unfold mux_send_pkt. fold key rst.
  assert (Hkr : others_kept now key m rst) by (intros k _; left; by rewrite R3).
  destruct (Z.eqb_spec (type_ pkt) VSOCK_TYPE_STREAM) as [Et|Et]; cbn [negb].
  2:{ exists rst. split; [done|]. split; [done|]. by rewrite R1, R2. }
  destruct (Z.eqb_spec (dst_cid pkt) VSOCK_HOST_CID) as [Ed|Ed]; cbn [negb].
  2:{ exists m. split; [done|]. split; [done|]. split_and!; try done. by left. }
  destruct (m_conn_map m !! key) as [c|] eqn:El.
  - rewrite bool_decide_eq_true_2 by eauto.
    destruct (op pkt =? VSOCK_OP_RST).
    { destruct (inv_remove m key Hi) as (Hi' & E1 & E2 & E3 & E4). eexists. split; [done|]. split; [done|].
      rewrite E3, E4. split_and!; try done; [set_solver|].
      intros k Hk. left. by rewrite E1, lookup_delete_ne. }
    destruct (mi_conns _ Hi key c El) as [Hw _]. destruct (next_send_pkt c pkt now Hw Hv) as (c' & Es & Hn).
    destruct (apply_ok m key now (fun conn => send_pkt conn pkt now) c (Ok tt) c' Hi El Es Hn)
      as (m' & -> & Hi' & E1 & E2 & Hc). cbn [obind]. exists m'. split; [done|]. split; [done|].
    rewrite E1, E2. assert (Hc' : exists x, m_conn_map m' = <[key := x]> (m_conn_map m))
      by (destruct Hc as [[-> _]|[-> _]]; eauto).
    split_and!; try done.
    + destruct Hc' as [x Hx]. intros k Hk. left. by rewrite Hx, lookup_insert_ne.
    + intros _ _. by exists c'.
  - rewrite bool_decide_eq_false_2 by (by intros []). destruct (op pkt =? VSOCK_OP_REQUEST).
    + destruct (handle_peer_request_ok m pkt now Hi El) as (m' & -> & Hi' & E1 & E2 & Ho & Hk).
      cbn [obind]. exists m'. split; [done|]. split; [done|]. rewrite E1, E2. by split_and!.
    + exists rst. split; [done|]. split; [done|]. by rewrite R1, R2.
Qed.

(** C15. Routing.  [send_pkt] takes every valid packet of the guest.  A stream packet for
    another CID than the host's is dropped.  For a connection in the pool the
    packet goes to this connection, which is killed afterwards if epoll refuses
    to watch its stream; an RST removes the connection and frees its port.  A
    request without a connection is accepted exactly if the peer backend can be
    connected to, the pool has room and epoll takes the stream: the connection is
    then in the pool, and its key queued for the answer.  For every refused
    request, every other packet without a connection and every packet that is not
    of the stream type an RST is queued: at the end of a queue that has room and
    is in sync, else in the place of the last connection in the queue, and it is
    lost only when such a queue holds nothing but RSTs.  No other connection changes, except that a request first
    kills those whose time has come, and the invariant is kept. *)
Theorem muxer_send_correct m pkt now :
  mux_inv m -> pkt_valid pkt ->
  exists m', mux_send_pkt m pkt now = Ret (Ok tt, m') /\ mux_inv m' /\
    m_cid m' = m_cid m /\ m_local_port_set m' ⊆ m_local_port_set m /\ routed m pkt now m'.
Proof.
  intros Hi Hv. destruct (mux_send_ok m pkt now Hi Hv) as (m' & E & Hi' & Hr). by exists m'.
Qed.

(** ** Local ports and expired connections *)

(** Local ports.  With fewer than 2^30 ports in use, allocation returns a port that
    was not in use, in [2^30 .. 2^31), and records it; it is the first free one
    after the last one given out, in cyclic order. *)
Theorem allocate_local_port_fresh m :
  mux_inv m -> Z.of_nat (size (m_local_port_set m)) < 2 ^ 30 ->
  exists p m', allocate_local_port m = Ret (p, m') /\ mux_inv m' /\
    2 ^ 30 <= p < 2 ^ 31 /\ (p ∉ m_local_port_set m) /\
    m_local_port_set m' = {[p]} ∪ m_local_port_set m /\ m_local_port_last m' = p /\
    exists n : nat, p = port_after (m_local_port_last m) (Z.of_nat n) /\
      forall j : nat, (j < n)%nat -> (port_after (m_local_port_last m) (Z.of_nat j) ∈ m_local_port_set m).
Proof.
  intros Hi Hsz. destruct (allocate_ok m Hi Hsz) as (n & E & Hnin & Hlt). cbv zeta in *.
  pose proof (port_after_range (m_local_port_last m) (Z.of_nat n)) as Hr.
  do 2 eexists. split; [exact E|]. split; [apply inv_ports; [done|lia]|].
  split; [done|]. split; [done|]. split; [by destruct m|]. split; [by destruct m|]. eauto.
Qed.

(** The kill queue.  A sweep always ends.  It kills exactly the connections whose
    item at the front of the kill queue is due and whose time has come, touches
    no other connection, leaves no due item at the front, and leaves an empty
    queue only in sync. *)
Theorem sweep_killq_terminates m now :
  mux_inv m ->
  exists m', sweep_killq m now = Ret m' /\ mux_inv m' /\ m_local_port_set m' = m_local_port_set m /\
    (forall k, m_conn_map m' !! k =
       kill_expired now (due now (kq_q (m_killq m))) k <$> m_conn_map m !! k) /\
    due now (kq_q (m_killq m')) = [] /\
    (KillQ_is_empty (m_killq m') = true -> kq_synced (m_killq m') = true).
Proof.
  intros Hi. destruct (sweep_killq_ok m now Hi) as (m' & E & Hi' & (_ & _ & R & _) & Hs & Hd & He).
  exists m'. split; [done|]. split; [done|]. by split_and!.
Qed.

(** ** Events *)

(** [m'] after one event: at most one more local port in use. *)
Definition event_done m m' : Prop :=
  mux_inv m' /\ m_cid m' = m_cid m /\ (size (m_local_port_set m') <= Datatypes.S (size (m_local_port_set m)))%nat.

Lemma done_same m m' : mux_inv m -> same_core m m' -> event_done m m'.
Proof.
  intros Hi Hs. split; [by eapply inv_same|]. destruct Hs as (E1 & _ & _ & _ & _ & E6). rewrite E6. split; [done|lia].
Qed.

Lemma connect_local_ok m (s : S) lp pp now :
  mux_inv m ->
  exists m', connect_local m s lp pp now = Ret m' /\ mux_inv m' /\ m_cid m' = m_cid m /\
    m_local_port_set m' = m_local_port_set m.
Proof.
  intros Hi. unfold connect_local.
  destruct (add_connection_ok m (mkKey lp pp) (new_local_init s VSOCK_HOST_CID (m_cid m) lp pp) now Hi)
    as (r & m' & cs & r1 & -> & Hi' & E1 & E2 & _); [apply keyed_local|]. cbn [obind]. eauto.
Qed.

(** A local port and what comes after it. *)
Lemma allocated_ok m m0 (f : Z -> VsockMuxer S W -> outcome (VsockMuxer S W)) :
  mux_inv m -> same_core m0 m -> Z.of_nat (size (m_local_port_set m0)) < 2 ^ 30 ->
  (forall p m1, mux_inv m1 -> exists m', f p m1 = Ret m' /\ mux_inv m' /\ m_cid m' = m_cid m1 /\
     m_local_port_set m' = m_local_port_set m1) ->
  exists m', (let! (p, m1) := allocate_local_port m in f p m1) = Ret m' /\ event_done m0 m'.
Proof.
  intros Hi (E1 & _ & _ & _ & _ & E6) Hsz Hf. rewrite <- E6 in Hsz.
  destruct (allocate_ok m Hi Hsz) as (n & E & _). cbv zeta in *. set (p := port_after _ _) in *.
  rewrite E. cbn [obind]. pose proof (port_after_range (m_local_port_last m) (Z.of_nat n)) as Hr. fold p in Hr.
  destruct (Hf p (upd_ports m ({[p]} ∪ m_local_port_set m) p)) as (m' & -> & Hi' & F1 & F2);
    [by apply inv_ports; [|lia]|].
  exists m'. split; [done|]. split; [done|].
  replace (m_cid (upd_ports m ({[p]} ∪ m_local_port_set m) p)) with (m_cid m) in F1 by (by destruct m).
  replace (m_local_port_set (upd_ports m ({[p]} ∪ m_local_port_set m) p)) with ({[p]} ∪ m_local_port_set m) in F2
    by (by destruct m).
  split; [congruence|]. rewrite F2, E6. pose proof (size_union_alt {[p]} (m_local_port_set m0)) as Hu.
  rewrite union_comm_L, size_union_alt.
  assert ((size ({[p]} ∖ m_local_port_set m0) <= size ({[p]} : gset Z))%nat) by (apply subseteq_size; set_solver).
  rewrite size_singleton in *. lia.
Qed.

Lemma handle_event_ok m fd ev now :
  mux_inv m -> Z.of_nat (size (m_local_port_set m)) < 2 ^ 30 ->
  exists m', handle_event m fd ev now = Ret m' /\ event_done m m'.
Proof.
  intros Hi Hsz. unfold handle_event.
  pose proof (same_remove_listener m fd) as Hrl. pose proof (inv_same _ _ Hi Hrl) as Hirl.
  assert (Hrefl : event_done m m) by (by apply done_same).
  destruct (m_listener_map m !! fd) as [[key evs b|t|s|s]|]; [| | | |by exists m].
  - destruct (m_conn_map m !! key) as [c|] eqn:El.
    + destruct (mi_conns _ Hi key c El) as [Hw _]. destruct (next_notify c ev Hw) as (c1 & En & Hn).
      destruct (apply_ok m key now (fun conn => let! conn := notify conn ev in Ret (tt, conn)) c tt c1 Hi El)
        as (m' & -> & Hi' & E1 & E2 & _); [by rewrite En|done|]. exists m'. split; [done|].
      split; [done|]. rewrite E2. split; [done|lia].
    + unfold apply_conn_mutation. rewrite El. by exists m.
  - destruct (bool_decide _); [|by exists m].
    destruct (backend_accept (m_world m) t) as [r w]. pose proof (same_world m w) as Hsw.
    destruct (_ =? _); [eexists; split; [done|]; by apply done_same|].
    destruct r as [stream|e]; eexists; (split; [done|]); apply done_same; try done.
    eapply same_trans; [exact Hsw|apply same_add_listener].
  - destruct (read_local_stream_port s) as [[[|pp]|e] s']; cbv zeta.
    + eexists. split; [done|]. apply done_same; [done|]. eapply same_trans; [exact Hrl|apply same_add_listener].
    + apply (allocated_ok _ m (fun p m1 => connect_local m1 s' p pp now)); [done..|].
      intros p m1 Hi1. by apply connect_local_ok.
    + eexists. split; [done|]. by apply done_same.
  - cbv zeta. destruct (passfd_read_port_and_fd s) as [[nfd pp]|e]; [|eexists; split; [done|]; by apply done_same].
    apply (allocated_ok _ m (fun p m1 => match set_nonblocking (hybrid_stream nfd s) with
      | Err _ => Ret m1 | Ok h => connect_local m1 h p pp now end)); [done..|].
    intros p m1 Hi1. destruct (set_nonblocking _); [by apply connect_local_ok|]. by exists m1.
Qed.

Lemma handle_events_ok evs : forall m now,
  mux_inv m -> Z.of_nat (size (m_local_port_set m) + length evs) <= 2 ^ 30 ->
  exists m', handle_events m evs now = Ret m' /\ mux_inv m' /\ m_cid m' = m_cid m /\
    (size (m_local_port_set m') <= size (m_local_port_set m) + length evs)%nat.
Proof.
  induction evs as [|[fd ev] evs IH]; intros m now Hi Hsz; cbn [handle_events length] in *.
  - exists m. split; [done|]. split; [done|]. split; [done|lia].
  - destruct (handle_event_ok m fd ev now Hi) as (m1 & -> & Hi1 & E1 & E2); [lia|]. cbn [obind].
    destruct (IH m1 now Hi1) as (m' & -> & Hi' & F1 & F2); [lia|].
    exists m'. split; [done|]. split; [done|]. split; [congruence|lia].
Qed.

(** ** Runs *)

(** The muxers that a device can reach, with the number of events epoll has
    reported on the way. *)
Inductive mux_reach : nat -> VsockMuxer S W -> Prop :=
| reach_new w cid m w' : VsockMuxer_new w cid = (Ok m, w') -> mux_reach 0 m
| reach_backend n m t peer r m' :
    mux_reach n m -> add_backend m t peer = (r, m') -> mux_reach n m'
| reach_send n m pkt now r m' :
    mux_reach n m -> pkt_valid pkt -> mux_send_pkt m pkt now = Ret (r, m') -> mux_reach n m'
| reach_recv n m pkt now r p m' :
    mux_reach n m -> mux_recv_pkt m pkt now = Ret (r, p, m') -> mux_reach n m'
| reach_notify n m now m' evs w :
    mux_reach n m -> epoll_wait (m_world m) = (Ok evs, w) -> mux_notify m now = Ret m' ->
    mux_reach (n + length evs) m'
| reach_notify_err n m now m' e w :
    mux_reach n m -> epoll_wait (m_world m) = (Err e, w) -> mux_notify m now = Ret m' -> mux_reach n m'.

Lemma inv_new w cid m w' : VsockMuxer_new w cid = (Ok m, w') -> mux_inv m /\ m_local_port_set m = ∅.
Proof.
  unfold VsockMuxer_new. destruct (epoll_create w) as [[fd|] w1]; intros [= <- _]. split; [|done].
  by split.
Qed.

Lemma same_add_backend m t peer : same_core m (add_backend m t peer).2.
Proof.
  unfold add_backend. case_bool_decide; [done|].
  pose proof (same_add_listener m (backend_fd t) (Backend t)) as Hs.
  destruct (add_listener m (backend_fd t) (Backend t)) as [[[]|] m1]; simpl in *; [|done].
  eapply same_trans; [exact Hs|]. by destruct m1.
Qed.

Lemma mux_notify_ok n m now :
  mux_inv m -> (size (m_local_port_set m) <= n)%nat ->
  (forall evs w, epoll_wait (m_world m) = (Ok evs, w) -> Z.of_nat (n + length evs) <= 2 ^ 30) ->
  exists m', mux_notify m now = Ret m' /\ mux_inv m' /\
    match epoll_wait (m_world m) with
    | (Ok evs, _) => (size (m_local_port_set m') <= n + length evs)%nat
    | (Err _, _) => (size (m_local_port_set m') <= n)%nat
    end.
Proof.
  intros Hi Hsz Hw. unfold mux_notify. destruct (epoll_wait (m_world m)) as [[evs|e] w].
  - specialize (Hw evs w eq_refl). pose proof (inv_same _ _ Hi (same_world m w)) as Hi1.
    assert (Hp : m_local_port_set (upd_world m w) = m_local_port_set m) by (by destruct m).
    destruct (handle_events_ok evs (upd_world m w) now Hi1) as (m' & -> & Hi' & _ & Hs); [rewrite Hp; lia|].
    exists m'. split; [done|]. split; [done|]. rewrite Hp in Hs. lia.
  - eexists. split; [done|]. split; [eapply inv_same; [exact Hi|apply same_world]|]. by destruct m.
Qed.

Lemma mux_reach_inv n m :
  iter_law -> mux_reach n m -> Z.of_nat n <= 2 ^ 30 -> mux_inv m /\ (size (m_local_port_set m) <= n)%nat.
Proof.
  intros Hit Hr. induction Hr as [w cid m w' E|n m t peer r m' Hr IH E|n m pkt now r m' Hr IH Hv E
    |n m pkt now r p m' Hr IH E|n m now m' evs w Hr IH Ew E|n m now m' e w Hr IH Ew E]; intros Hn.
  - destruct (inv_new _ _ _ _ E) as [Hi ->]. by split.
  - destruct (IH Hn) as [Hi Hs]. pose proof (same_add_backend m t peer) as Hc. rewrite E in Hc. simpl in Hc.
    split; [by eapply inv_same|]. by destruct Hc as (_ & _ & _ & _ & _ & ->).
  - destruct (IH Hn) as [Hi Hs]. destruct (mux_send_ok m pkt now Hi Hv) as (m1 & E' & Hi' & _ & Hp & _).
    rewrite E in E'. injection E' as -> ->. split; [done|]. apply subseteq_size in Hp. lia.
  - destruct (IH Hn) as [Hi Hs]. destruct (recv_potential m pkt now Hit Hi) as (res & p' & m1 & E' & (Hi' & Hc & _) & _).
    rewrite E in E'. injection E' as -> -> ->. split; [done|]. pose proof (subseteq_size _ _ (ca_ports _ _ Hc)). lia.
  - destruct (IH ltac:(lia)) as [Hi Hs]. destruct (mux_notify_ok n m now Hi Hs) as (m1 & E' & Hi' & Hp).
    { intros ? ? E'. rewrite Ew in E'. injection E' as -> _. done. }
    rewrite E in E'. injection E' as ->. rewrite Ew in Hp. done.
  - destruct (IH Hn) as [Hi Hs]. destruct (mux_notify_ok n m now Hi Hs) as (m1 & E' & Hi' & Hp).
    { intros ? ? E'. by rewrite Ew in E'. }
    rewrite E in E'. injection E' as ->. rewrite Ew in Hp. done.
Qed.

(** C4. Every run of the muxer.  Whatever the guest sends, the streams and backends do
    and epoll reports, up to 2^30 events: the pool holds at most 1023
    connections, each well-formed and under the key of its ports; the RX queue
    holds at most 256 items and, while in sync, knows every connection with
    something to say; the kill queue holds at most 128 items; at most as many
    local ports are in use as events were seen.  And the next operation returns,
    none panics or loops. *)
Theorem muxer_run_invariant n m :
  iter_law -> mux_reach n m -> Z.of_nat n < 2 ^ 30 ->
  mux_inv m /\ (size (m_local_port_set m) <= n)%nat /\
  (forall pkt now, pkt_valid pkt -> exists m', mux_send_pkt m pkt now = Ret (Ok tt, m')) /\
  (forall pkt now, exists r p m', mux_recv_pkt m pkt now = Ret (r, p, m')) /\
  (forall now, (forall evs w, epoll_wait (m_world m) = (Ok evs, w) -> Z.of_nat (n + length evs) <= 2 ^ 30) ->
     exists m', mux_notify m now = Ret m').
Proof.
  intros Hit Hr Hn. destruct (mux_reach_inv n m Hit Hr ltac:(lia)) as [Hi Hs]. split; [done|]. split_and!; [done|..].
  - intros pkt now Hv. destruct (mux_send_ok m pkt now Hi Hv) as (m' & E & _). eauto.
  - intros pkt now. destruct (recv_potential m pkt now Hit Hi) as (r & p & m' & E & _). eauto.
  - intros now Hw. destruct (mux_notify_ok n m now Hi Hs Hw) as (m' & E & _). eauto.
Qed.
End Props.

(** ** Witnesses

    Scripted streams over a world without sockets: every backend connection gets
    the same stream, and epoll reports one event of the first backend. *)

#[local] Instance script_port : PortStream Script := {|
  stream_read_exact s n := script_read s n;
  recv_data_fd s := Err WouldBlock;
|}.

#[local] Instance script_env : MuxerEnv Script unit := {|
  stream_fd s := 7;
  stream_backend s := UnixStream;
  hybrid_stream fd s := s;
  set_nonblocking s := Ok s;
  epoll_create w := (Ok 3, w);
  epoll_ctl w op fd ev := (Ok tt, w);
  epoll_wait w := (Ok [(4, mkEvents true false)], w);
  backend_fd t := 4;
  backend_accept w t := (Ok ex_stream, w);
  backend_connect w t port := (Ok ex_stream, w);
  conn_iter conns := map_to_list conns;
|}.

Lemma script_iter : iter_law (S := Script) (W := unit).
Proof. by intros conns. Qed.

Definition ex_mux0 : VsockMuxer Script unit :=
  mkMuxer 3 ∅ ∅ RxQ_default KillQ_default 3 ∅ (2 ^ 30 - 1) [] None tt.
Definition ex_mux1 : VsockMuxer Script unit := (add_backend ex_mux0 UnixStream true).2.
Definition ex_request : VsockPacket := ex_pkt VSOCK_OP_REQUEST 0 64 None.

Lemma ex_reach1 : mux_reach 0 ex_mux1.
Proof.
  apply (reach_backend 0 ex_mux0 UnixStream true (Ok tt)); [|by vm_compute].
  by apply (reach_new tt 3 ex_mux0 tt).
Qed.

Lemma ex_request_valid : pkt_valid ex_request.
Proof. by vm_compute. Qed.

(** The muxer once it has accepted a connection of the guest. *)
Definition ex_mux2 : VsockMuxer Script unit :=
  match mux_send_pkt ex_mux1 ex_request 0 with Ret (_, m) => m | Panic => ex_mux1 end.

Lemma ex_reach2 : mux_reach 0 ex_mux2.
Proof.
  eapply (reach_send 0 ex_mux1 ex_request 0 (Ok tt)); [apply ex_reach1|apply ex_request_valid|].
  by vm_compute.
Qed.

Lemma ex_inv2 : mux_inv ex_mux2.
Proof. by apply (mux_reach_inv 0 ex_mux2 script_iter ex_reach2). Qed.

(** A request to a connection there is, and one that no backend takes. *)
Lemma muxer_send_correct_witness :
  pkt_valid ex_request /\ (exists m', mux_send_pkt ex_mux2 ex_request 0 = Ret (Ok tt, m') /\ mux_inv m') /\
  exists m', mux_send_pkt ex_mux0 ex_request 0 = Ret (Ok tt, m') /\ refused ex_mux0 ex_request m'.
Proof.
  split; [apply ex_request_valid|]. split.
  - destruct (muxer_send_correct ex_mux2 ex_request 0 ex_inv2 ex_request_valid) as (m' & E & Hi & _). by exists m'.
  - destruct (muxer_send_correct ex_mux0 ex_request 0) as (m' & E & _ & _ & _ & _ & _ & _ & Hr);
      [by eapply (inv_new tt 3 ex_mux0 tt)|apply ex_request_valid|].
    exists m'. split; [exact E|]. exact (Hr eq_refl eq_refl).
Defined.

Lemma allocate_local_port_fresh_witness :
  exists p m', allocate_local_port ex_mux2 = Ret (p, m') /\ 2 ^ 30 <= p < 2 ^ 31.
Proof.
  destruct (allocate_local_port_fresh ex_mux2 ex_inv2) as (p & m' & E & _ & Hp & _); [by vm_compute|].
  by exists p, m'.
Defined.

Lemma sweep_killq_terminates_witness : exists m', sweep_killq ex_mux2 5 = Ret m' /\ mux_inv m'.
Proof.
  destruct (sweep_killq_terminates ex_mux2 5 ex_inv2) as (m' & E & Hi & _). by exists m'.
Defined.

Lemma muxer_run_invariant_witness :
  size (m_conn_map ex_mux2) = 1%nat /\ mux_inv ex_mux2 /\
  forall pkt now, exists r p m', mux_recv_pkt ex_mux2 pkt now = Ret (r, p, m').
Proof.
  split; [by vm_compute|].
  destruct (muxer_run_invariant 0 ex_mux2 script_iter ex_reach2) as (Hi & _ & _ & Hr & _); [done|]. by split.
Defined.

Lemma muxer_recv_correct_witness :
  exists p m', mux_recv_pkt ex_mux2 ex_rx 0 = Ret (Ok tt, p, m') /\ from_mux ex_mux2 m' p.
Proof.
  destruct (muxer_recv_correct ex_mux2 ex_rx 0 script_iter ex_inv2) as (r & p & m' & E & _ & _ & _ & Hr).
  assert (Hok : match mux_recv_pkt ex_mux2 ex_rx 0 with Ret (Ok _, _, _) => true | _ => false end = true)
    by (by vm_compute).
  rewrite E in Hok. destruct r as [[]|]; [|done]. by exists p, m'.
Defined.

Lemma muxer_drains_witness :
  mux_has_pending_rx ex_mux2 = true /\
  exists n m', recv_n n ex_mux2 (fun _ => ex_rx) (fun _ => 0) = Ret m' /\ mux_has_pending_rx m' = false.
Proof.
  split; [by vm_compute|].
  destruct (muxer_drains ex_mux2 (fun _ => ex_rx) (fun _ => 0) script_iter ex_inv2) as (n & m' & _ & E & Hp & _).
  by exists n, m'.
Defined.

(** ** Where the code differs from what it means to do *)

Section Findings.
Context {S W : Type} `{Hstream : VsockStream S} `{!PortStream S} `{!MuxerEnv S W} `{!StreamLaws S}.
Implicit Types m : VsockMuxer S W.

(** The limit on accepted host connections compares the length of the RX queue,
    at most 256, with the limit of 1023 connections: it never applies. *)
Lemma accept_limit_never_applies m : mux_inv m -> (RxQ_len (m_rxq m) =? MAX_CONNECTIONS) = false.
Proof. intros Hi. pose proof (mi_rxq _ Hi) as Hq. unfold MUXER_RXQ_SIZE, MAX_CONNECTIONS in *. lia. Qed.

(** When the passed file descriptor cannot be used, the port allocated for it
    stays in use although there is no connection. *)
Lemma port_leaked_by_passfd m fd ev now s nfd pp e p m1 :
  m_listener_map m !! fd = Some (PassFdStream s) -> passfd_read_port_and_fd s = Ok (nfd, pp) ->
  set_nonblocking (hybrid_stream nfd s) = Err e ->
  allocate_local_port (remove_listener m fd).2 = Ret (p, m1) ->
  handle_event m fd ev now = Ret m1 /\ p ∈ m_local_port_set m1.
Proof.
  intros Hl Hp Hn Ha. unfold handle_event. rewrite Hl. cbv zeta. rewrite Hp, Ha. cbn [obind]. rewrite Hn.
  split; [done|]. unfold allocate_local_port in Ha. destruct (allocate_port_loop _ _ _); [|done].
  injection Ha as <- <-. destruct (remove_listener m fd).2; simpl. set_solver.
Qed.

(** Removing a connection frees its local port even when another connection uses
    the port. *)
Lemma port_freed_in_use m p q q' c :
  mux_inv m -> q <> q' -> m_conn_map m !! mkKey p q' = Some c ->
  let m' := remove_connection m (mkKey p q) in
  m_conn_map m' !! mkKey p q' = Some c /\ p ∉ m_local_port_set m'.
Proof.
  intros Hi Hne Hl. destruct (inv_remove m (mkKey p q) Hi) as (_ & E1 & _ & _ & E2). cbv zeta.
  rewrite E1, E2, lookup_delete_ne by congruence. split; [done|]. simpl. set_solver.
Qed.
End Findings.
