(* ===== verification/Path.v ===== *)
(** [std::path] on Unix, as far as the safe-path library uses it: paths as bytes,
    the [Components] iterator, [join], [pop] and [as_path], and what they do to
    the names of a path. *)

From S2P Require Import Prelude.

(** ** Paths *)

Abbreviation Path := (list Z).

Definition SEP : Z := 47.
Definition DOT : Z := 46.

Inductive Component : Type :=
| Prefix (p : Path)
| RootDir
| CurDir
| ParentDir
| Normal (name : Path).

#[export] Instance Component_eq_dec : EqDecision Component.
Proof. solve_decision. Defined.

Definition is_absolute (p : Path) : bool := bool_decide (head p = Some SEP).

(** [PathBuf::push]. *)
Definition join (p q : Path) : Path :=
  if is_absolute q then q else
  match last p with
  | Some b => if b =? SEP then p ++ q else p ++ SEP :: q
  | None => q
  end.

(** ** The iterator [Components] *)

(** [parse_single_component]. *)
Definition parse_single (c : Path) : option Component :=
  if bool_decide (c = []) then None else
  if bool_decide (c = [DOT]) then None else
  if bool_decide (c = [DOT; DOT]) then Some ParentDir else Some (Normal c).

Record Components := mkComps {
  it_path : Path;
  it_start : bool;
  it_root : bool;
}.

Definition components (p : Path) : Components := mkComps p true (is_absolute p).

(** The next component of the body of a path that starts with [rev acc]. *)
Fixpoint body_next (acc p : Path) : option (Component * Path) :=
  match p with
  | [] => match parse_single (rev acc) with Some c => Some (c, []) | None => None end
  | b :: p =>
      if b =? SEP then
        match parse_single (rev acc) with Some c => Some (c, p) | None => body_next [] p end
      else body_next (b :: acc) p
  end.

(** [include_cur_dir]. *)
Definition include_cur_dir (p : Path) : bool :=
  match p with
  | [b] => b =? DOT
  | b :: b' :: _ => (b =? DOT) && (b' =? SEP)
  | [] => false
  end.

Definition comps_next (it : Components) : option (Component * Components) :=
  if it_start it && it_root it then Some (RootDir, mkComps (tail (it_path it)) false (it_root it)) else
  if it_start it && include_cur_dir (it_path it) then
    Some (CurDir, mkComps (tail (it_path it)) false (it_root it)) else
  match body_next [] (it_path it) with
  | Some (c, p) => Some (c, mkComps p false (it_root it))
  | None => None
  end.

(** [trim_left] and [trim_right] of an iterator in the body of its path. *)
Fixpoint trim_left (p : Path) : Path :=
  match p with
  | [] => []
  | b :: p' =>
      if b =? SEP then trim_left p' else
      if b =? DOT then
        match p' with
        | [] => []
        | b' :: p'' => if b' =? SEP then trim_left p'' else p
        end
      else p
  end.

Definition trim_right (p : Path) : Path := rev (trim_left (rev p)).

(** [len_before_body], of an iterator that has not started. *)
Definition before_body (p : Path) : nat := if is_absolute p || include_cur_dir p then 1 else 0.

(** [Components::as_path]. *)
Definition as_path (it : Components) : Path :=
  if it_start it then
    let n := before_body (it_path it) in take n (it_path it) ++ trim_right (drop n (it_path it))
  else trim_right (trim_left (it_path it)).

(** ** [parent] and [pop] *)

(** The bytes of the last component and its separator dropped. *)
Fixpoint drop_last_rev (r : Path) : Path :=
  match r with
  | [] => []
  | b :: r => if b =? SEP then r else drop_last_rev r
  end.

Definition parent (p : Path) : option Path :=
  let pre := take (before_body p) p in
  let body := trim_right (drop (before_body p) p) in
  if bool_decide (body = []) then
    if bool_decide (pre = [DOT]) then Some [] else None
  else Some (pre ++ trim_right (rev (drop_last_rev (rev body)))).

Definition pop (p : Path) : Path := default p (parent p).

(** ** Lists of components *)

(** The components an iterator yields, and the path's. *)
Fixpoint comps_list (fuel : nat) (it : Components) : list Component :=
  match fuel with
  | O => []
  | S fuel => match comps_next it with Some (c, it) => c :: comps_list fuel it | None => [] end
  end.

Definition path_comps (p : Path) : list Component := comps_list (S (S (length p))) (components p).

(** Paths are equal when their components are. *)
Definition path_eq (p q : Path) : bool := bool_decide (path_comps p = path_comps q).

(** [Path::file_name]. *)
Definition file_name (p : Path) : option Path :=
  match last (path_comps p) with Some (Normal n) => Some n | _ => None end.

(** [Path::iter]: the components as strings. *)
Definition comp_str (c : Component) : Path :=
  match c with
  | Prefix p => p
  | RootDir => [SEP]
  | CurDir => [DOT]
  | ParentDir => [DOT; DOT]
  | Normal n => n
  end.
Definition path_iter (p : Path) : list Path := comp_str <$> path_comps p.

(** [Path::strip_prefix]: [iter_after], then [as_path]. *)
Fixpoint iter_after (fuel : nat) (it prefix : Components) : option Components :=
  match fuel with
  | O => None
  | S fuel =>
      match comps_next prefix with
      | None => Some it
      | Some (y, prefix) =>
          match comps_next it with
          | Some (x, it) => if bool_decide (x = y) then iter_after fuel it prefix else None
          | None => None
          end
      end
  end.

Definition strip_prefix (p base : Path) : option Path :=
  as_path <$> iter_after (S (S (length base))) (components p) (components base).

(** ** The names of a path

    The components of a path without [RootDir] and [CurDir]. *)

Definition opt_list {A} (o : option A) : list A := match o with Some a => [a] | None => [] end.

Fixpoint scan (acc p : Path) : list Component :=
  match p with
  | [] => opt_list (parse_single (rev acc))
  | b :: p => if b =? SEP then opt_list (parse_single (rev acc)) ++ scan [] p else scan (b :: acc) p
  end.

Definition steps (p : Path) : list Component := scan [] p.

(** A name as [parse_single] yields it. *)
Definition valid_name (n : Path) : Prop := n <> [] /\ n <> [DOT] /\ n <> [DOT; DOT] /\ (SEP ∉ n).

#[export] Instance valid_name_dec n : Decision (valid_name n).
Proof. unfold valid_name. apply _. Defined.

Lemma scan_sep a : forall acc b, scan acc (a ++ SEP :: b) = scan acc a ++ steps b.
Proof.
  induction a as [|x a IH]; intros acc b; simpl.
  - done.
  - destruct (x =? SEP); rewrite IH; [by rewrite app_assoc|done].
Qed.

Lemma steps_sep a b : steps (a ++ SEP :: b) = steps a ++ steps b.
Proof. apply scan_sep. Qed.

Lemma steps_cons_sep b : steps (SEP :: b) = steps b.
Proof. done. Qed.

Lemma steps_join p q : steps (join p q) = if is_absolute q then steps q else steps p ++ steps q.
Proof.
  unfold join. destruct (is_absolute q); [done|].
  destruct (last p) as [b|] eqn:El; [|by apply last_None in El as ->].
  destruct (Z.eqb_spec b SEP) as [->|Hb]; [|apply steps_sep].
  apply last_Some in El as (p' & ->). rewrite <- app_assoc. simpl.
  rewrite !steps_sep. by rewrite app_nil_r.
Qed.

(** ** The iterator and the names *)

Lemma body_next_scan p : forall acc,
  match body_next acc p with
  | Some (c, p') => scan acc p = c :: steps p' /\ (p = [] \/ (length p' < length p)%nat)
  | None => scan acc p = []
  end.
Proof.
  induction p as [|b p IH]; intros acc; simpl.
  - destruct (parse_single (rev acc)); [|done]. by split; [|left].
  - destruct (b =? SEP).
    + destruct (parse_single (rev acc)) as [c|]; simpl; [split; [done|right; lia]|].
      specialize (IH []). destruct (body_next [] p) as [[c p']|] eqn:E; [|done].
      destruct IH as [? [->|]]; [done|]. split; [done|right; lia].
    + specialize (IH (b :: acc)). destruct (body_next (b :: acc) p) as [[c p']|] eqn:E; [|done].
      destruct IH as [? [->|]]; [|split; [done|right; lia]]. split; [done|]. right.
      simpl in E. destruct (parse_single _); [|done]. injection E as _ <-. simpl. lia.
Qed.

(** Components that are steps. *)
Definition is_step (c : Component) : bool :=
  match c with ParentDir | Normal _ => true | _ => false end.

Lemma parse_single_valid c x :
  (SEP ∉ c) -> parse_single c = Some x -> x = ParentDir \/ exists n, x = Normal n /\ valid_name n.
Proof.
  intros Hs. unfold parse_single. repeat case_bool_decide; try done; intros [= <-]; [by left|].
  right. exists c. by split.
Qed.

(** Every step is [..] or a name. *)
Definition step_ok (x : Component) : Prop := x = ParentDir \/ exists n, x = Normal n /\ valid_name n.

Lemma scan_ok p : forall acc, (SEP ∉ acc) -> Forall step_ok (scan acc p).
Proof.
  assert (Ho : forall acc, (SEP ∉ acc) -> Forall step_ok (opt_list (parse_single (rev acc)))).
  { intros acc Ha. destruct (parse_single (rev acc)) as [x|] eqn:E; [|constructor].
    constructor; [|constructor]. eapply parse_single_valid; [|exact E]. by rewrite list_elem_of_In, <- in_rev, <- list_elem_of_In. }
  induction p as [|b p IH]; intros acc Ha; simpl; [by apply Ho|].
  destruct (Z.eqb_spec b SEP) as [->|Hb].
  - apply Forall_app. split; [by apply Ho|]. apply IH. apply not_elem_of_nil.
  - apply IH. apply not_elem_of_cons. split; [congruence|done].
Qed.

(** An iterator that [components] made, after some calls of [next]. *)
Definition it_ok (it : Components) : Prop := it_start it = true -> it_root it = is_absolute (it_path it).

Definition it_left (it : Components) : nat :=
  (length (it_path it) + if it_start it then 1 else 0)%nat.

Lemma is_absolute_inv p : is_absolute p = true -> exists q, p = SEP :: q.
Proof. unfold is_absolute. case_bool_decide; [|done]. destruct p; [done|]. simplify_eq/=. eauto. Qed.

Lemma include_cur_dir_inv p : include_cur_dir p = true -> p = [DOT] \/ exists q, p = DOT :: SEP :: q.
Proof.
  destruct p as [|b [|b' p]]; simpl; [done| |]; intros Hb; bools; subst; [by left|right; eauto].
Qed.

Lemma comps_next_ok it :
  it_ok it ->
  match comps_next it with
  | Some (c, it') =>
      it_ok it' /\ it_start it' = false /\ (it_left it' < it_left it)%nat /\
      match c with
      | ParentDir | Normal _ => steps (it_path it) = c :: steps (it_path it')
      | RootDir | CurDir => steps (it_path it) = steps (it_path it')
      | Prefix _ => False
      end
  | None => steps (it_path it) = []
  end.
Proof.
  intros Hok. unfold comps_next. destruct (it_start it && it_root it) eqn:E1.
  { bools. rewrite Hok in * by done. destruct (is_absolute_inv (it_path it)) as (q & Hq); [done|].
    unfold it_ok, it_left. simpl. rewrite Hq, H. simpl. split_and!; [done|done|lia|apply steps_cons_sep]. }
  destruct (it_start it && include_cur_dir (it_path it)) eqn:E2.
  { bools. unfold it_ok, it_left. simpl. rewrite H.
    destruct (include_cur_dir_inv _ H0) as [->|(q & ->)]; simpl; split_and!; done || lia. }
  pose proof (body_next_scan (it_path it) []) as Hb. fold (steps (it_path it)) in Hb.
  destruct (body_next [] (it_path it)) as [[c p']|] eqn:E; [|done]. destruct Hb as [Hs Hl].
  assert (Hlt : (length p' < length (it_path it))%nat) by (destruct Hl as [Hl|]; [by rewrite Hl in E|done]).
  pose proof (scan_ok (it_path it) [] ltac:(apply not_elem_of_nil)) as Hf.
  fold (steps (it_path it)) in Hf. rewrite Hs in Hf. inversion Hf as [|? ? Hc]; subst.
  unfold it_ok, it_left. simpl. split_and!; [done|done|destruct (it_start it); lia|].
  destruct Hc as [->|(n & -> & _)]; done.
Qed.

(** ** [as_path] *)

Lemma steps_trim_left p : steps (trim_left p) = steps p.
Proof.
  induction p as [[|b p'] IH] using (induction_ltof1 _ length); [done|]. simpl.
  destruct (Z.eqb_spec b SEP) as [->|]; [rewrite IH by (unfold ltof; simpl; lia); done|].
  destruct (Z.eqb_spec b DOT) as [->|]; [|done]. destruct p' as [|b' p'']; [done|].
  destruct (Z.eqb_spec b' SEP) as [->|]; [|done]. rewrite IH by (unfold ltof; simpl; lia). done.
Qed.

Lemma trim_left_not_abs p : is_absolute (trim_left p) = false.
Proof.
  induction p as [[|b p'] IH] using (induction_ltof1 _ length); [done|]. simpl.
  destruct (Z.eqb_spec b SEP) as [->|Hs]; [apply IH; unfold ltof; simpl; lia|].
  assert (Hn : is_absolute (b :: p') = false) by (apply bool_decide_eq_false_2; simpl; congruence).
  destruct (b =? DOT); [|done]. destruct p' as [|b' p'']; [done|].
  destruct (Z.eqb_spec b' SEP) as [->|]; [|done]. apply IH. unfold ltof; simpl; lia.
Qed.

Lemma steps_trim_right p : steps (trim_right p) = steps p.
Proof.
  unfold trim_right. rewrite <- (rev_involutive p) at 2. generalize (rev p). clear p.
  intros r. induction r as [[|b r'] IH] using (induction_ltof1 _ length); [done|]. simpl.
  destruct (Z.eqb_spec b SEP) as [->|Hs].
  { rewrite IH by (unfold ltof; simpl; lia). rewrite steps_sep. by rewrite app_nil_r. }
  destruct (Z.eqb_spec b DOT) as [->|]; [|done]. destruct r' as [|b' r'']; [done|].
  destruct (Z.eqb_spec b' SEP) as [->|]; [|done]. rewrite IH by (unfold ltof; simpl; lia).
  simpl. rewrite <- app_assoc. simpl. rewrite steps_sep. by rewrite app_nil_r.
Qed.

Lemma trim_left_suffix p : exists q, p = q ++ trim_left p.
Proof.
  induction p as [[|b p'] IH] using (induction_ltof1 _ length); [by exists []|]. simpl.
  destruct (b =? SEP).
  { destruct (IH p') as [q Hq]; [unfold ltof; simpl; lia|]. exists (b :: q). simpl. by rewrite <- Hq. }
  destruct (b =? DOT); [|by exists []]. destruct p' as [|b' p'']; [by exists [b]|].
  destruct (b' =? SEP); [|by exists []].
  destruct (IH p'') as [q Hq]; [unfold ltof; simpl; lia|]. exists (b :: b' :: q). simpl. by rewrite <- Hq.
Qed.

Lemma as_path_ok it :
  it_start it = false -> steps (as_path it) = steps (it_path it) /\ is_absolute (as_path it) = false.
Proof.
  intros Hb. unfold as_path. rewrite Hb.
  rewrite steps_trim_right, steps_trim_left. split; [done|].
  pose proof (trim_left_not_abs (it_path it)) as Ha. unfold trim_right.
  destruct (trim_left_suffix (rev (trim_left (it_path it)))) as [q Hq].
  apply (f_equal (@rev Z)) in Hq. rewrite rev_involutive, rev_app_distr in Hq.
  destruct (rev (trim_left (rev (trim_left (it_path it))))) as [|b p]; [done|].
  rewrite Hq in Ha. exact Ha.
Qed.

(** ** Paths made of names *)

Fixpoint render (l : list Path) : Path :=
  match l with
  | [] => []
  | [n] => n
  | n :: l => n ++ SEP :: render l
  end.

Definition names_ok (l : list Path) : Prop := Forall valid_name l.

Lemma render_snoc l n : render (l ++ [n]) = if bool_decide (l = []) then n else render l ++ SEP :: n.
Proof.
  induction l as [|x l IH]; [done|]. rewrite bool_decide_eq_false_2 by done. simpl.
  destruct l as [|y l]; [done|]. simpl in *. rewrite IH.
  by rewrite <- app_assoc.
Qed.

Lemma valid_head n : valid_name n -> exists b n', n = b :: n' /\ b <> SEP.
Proof.
  intros (Hn & _ & _ & Hs). destruct n as [|b n']; [done|]. exists b, n'. split; [done|].
  apply not_elem_of_cons in Hs as [Hs _]. congruence.
Qed.

Lemma valid_rev n : valid_name n -> valid_name (rev n).
Proof.
  intros (H1 & H2 & H3 & H4). assert (Hr : forall x, rev n = x -> n = rev x) by (intros x <-; by rewrite rev_involutive).
  split_and!; try (intros E; by apply Hr in E). by rewrite list_elem_of_In, <- in_rev, <- list_elem_of_In.
Qed.

(** Trimming stops at a name. *)
Lemma trim_left_name n x : valid_name n -> x = [] \/ head x = Some SEP -> trim_left (n ++ x) = n ++ x.
Proof.
  intros Hv Hx. destruct (valid_head n Hv) as (b & n' & -> & Hb). simpl.
  destruct (Z.eqb_spec b SEP); [done|]. destruct (Z.eqb_spec b DOT) as [->|]; [|done].
  destruct n' as [|b' n'']; [by destruct Hv as (_ & Hd & _)|]. simpl.
  destruct Hv as (_ & _ & _ & Hs). destruct (Z.eqb_spec b' SEP) as [->|]; [|done].
  exfalso. apply Hs. right. by left.
Qed.

Lemma steps_name n : valid_name n -> steps n = [Normal n].
Proof.
  intros (H1 & H2 & H3 & Hs).
  assert (Hg : forall p acc, (SEP ∉ p) -> scan acc p = opt_list (parse_single (rev acc ++ p))).
  { induction p as [|b p IH]; intros acc Hp; simpl; [by rewrite app_nil_r|].
    apply not_elem_of_cons in Hp as [Hb Hp]. destruct (Z.eqb_spec b SEP); [congruence|].
    rewrite IH by done. simpl. by rewrite <- app_assoc. }
  unfold steps. rewrite Hg by done. simpl. unfold parse_single.
  by rewrite !bool_decide_eq_false_2.
Qed.

Lemma steps_render l : names_ok l -> steps (render l) = Normal <$> l.
Proof.
  induction l as [|n l IH] using rev_ind; intros Hl; [done|].
  apply Forall_app in Hl as [Hl Hn]. rewrite Forall_singleton in Hn.
  rewrite render_snoc. case_bool_decide as E; [rewrite E, steps_name by exact Hn; done|].
  rewrite steps_sep, IH, steps_name by done. by rewrite fmap_app.
Qed.

Lemma render_not_abs l : names_ok l -> is_absolute (render l) = false.
Proof.
  intros Hl. destruct l as [|n l]; [done|]. inversion Hl as [|? ? Hn]; subst.
  destruct (valid_head n Hn) as (b & n' & -> & Hb). unfold is_absolute.
  apply bool_decide_eq_false_2. destruct l; simpl; congruence.
Qed.

Lemma name_not_abs n : valid_name n -> is_absolute n = false.
Proof.
  intros Hn. destruct (valid_head n Hn) as (b & n' & -> & Hb). apply bool_decide_eq_false_2. simpl. congruence.
Qed.

Lemma render_last l n b : names_ok (l ++ [n]) -> last (render (l ++ [n])) = Some b -> b <> SEP.
Proof.
  intros Hl. apply Forall_app in Hl as [_ Hn]. rewrite Forall_singleton in Hn.
  assert (Hb : last n = Some b -> b <> SEP).
  { intros Hb ->. apply last_Some in Hb as (n' & ->). destruct Hn as (_ & _ & _ & Hs). apply Hs.
    apply elem_of_app. right. by left. }
  rewrite render_snoc. case_bool_decide; [done|]. rewrite last_app_cons.
  destruct n as [|x n]; [by destruct Hn|]. rewrite last_cons_cons. exact Hb.
Qed.

Lemma join_render l n : names_ok l -> valid_name n -> join (render l) n = render (l ++ [n]).
Proof.
  intros Hl Hn. unfold join. rewrite name_not_abs by done. rewrite render_snoc.
  destruct l as [|m l _] using rev_ind; [done|]. rewrite bool_decide_eq_false_2 by (by destruct l).
  destruct (last (render (l ++ [m]))) as [b|] eqn:El.
  - pose proof (render_last l m b Hl El). by destruct (Z.eqb_spec b SEP).
  - apply last_None in El. pose proof (steps_render _ Hl) as Hs. rewrite El in Hs. by destruct l.
Qed.

Lemma trim_right_render l : names_ok l -> trim_right (render l) = render l.
Proof.
  destruct l as [|n l _] using rev_ind; [done|]. intros Hl. apply Forall_app in Hl as [_ Hn].
  rewrite Forall_singleton in Hn. apply valid_rev in Hn. unfold trim_right. rewrite render_snoc. case_bool_decide.
  - rewrite <- (app_nil_r (rev n)), trim_left_name by auto. by rewrite app_nil_r, rev_involutive.
  - rewrite rev_app_distr. simpl. rewrite <- app_assoc. simpl. rewrite trim_left_name by auto.
    rewrite rev_app_distr. simpl. by rewrite !rev_involutive, <- app_assoc.
Qed.

Lemma drop_last_name n x : valid_name n -> drop_last_rev (n ++ SEP :: x) = x /\ drop_last_rev n = [].
Proof.
  intros (_ & _ & _ & Hs). induction n as [|b n IH]; simpl; [done|].
  apply not_elem_of_cons in Hs as [Hb Hs]. destruct (Z.eqb_spec b SEP); [congruence|]. by apply IH.
Qed.

Lemma before_body_render l : names_ok l -> before_body (render l) = 0%nat.
Proof.
  intros Hl. unfold before_body. rewrite render_not_abs by done. simpl.
  destruct (include_cur_dir (render l)) eqn:E; [|done]. exfalso.
  apply include_cur_dir_inv in E. pose proof (steps_render l Hl) as Hs.
  destruct l as [|n l]; [by destruct E as [|[? ?]]|]. inversion Hl as [|? ? Hn]; subst.
  destruct Hn as (Hn & Hd & _ & Hsep). destruct n as [|b [|b' n]]; [done| |].
  - destruct E as [E|(q & E)]; destruct l; simpl in E; simplify_eq; done.
  - assert (b' = SEP) as ->; [|apply Hsep; right; by left].
    destruct E as [E|(q & E)]; destruct l; simpl in E; simplify_eq; done.
Qed.

Lemma pop_nil : pop [] = [].
Proof. done. Qed.

Lemma pop_render l n : names_ok l -> valid_name n -> pop (render (l ++ [n])) = render l.
Proof.
  intros Hl Hn. assert (Hln : names_ok (l ++ [n])) by (apply Forall_app; by rewrite Forall_singleton).
  unfold pop, parent. rewrite before_body_render by done. simpl take. rewrite drop_0, trim_right_render by done.
  rewrite bool_decide_eq_false_2.
  2:{ intros E. pose proof (steps_render _ Hln) as Hs. rewrite E in Hs. by destruct l. }
  cbn [default app]. rewrite render_snoc. pose proof (valid_rev n Hn) as Hr. case_bool_decide as E.
  - destruct (drop_last_name (rev n) [] Hr) as [_ ->]. by subst.
  - rewrite rev_app_distr. simpl. rewrite <- app_assoc. simpl.
    destruct (drop_last_name (rev n) (rev (render l)) Hr) as [-> _].
    rewrite rev_involutive. by apply trim_right_render.
Qed.

(** ** Lists of components *)

(** Everything an iterator has left. *)
Definition comps (it : Components) : list Component := comps_list (S (it_left it)) it.

Lemma comps_list_fuel n : forall it, it_ok it -> (it_left it < n)%nat -> comps_list n it = comps it.
Proof.
  assert (Hg : forall n n' it, it_ok it -> (it_left it < n)%nat -> (it_left it < n')%nat ->
    comps_list n it = comps_list n' it).
  { clear n. induction n as [|n IH]; intros n' it Hok Hn Hn'; [lia|]. destruct n' as [|n']; [lia|]. simpl.
    pose proof (comps_next_ok it Hok) as Hc. destruct (comps_next it) as [[c it']|]; [|done].
    destruct Hc as (Hok' & _ & Hlt & _). f_equal. apply IH; [done|lia..]. }
  intros it Hok Hn. apply Hg; [done|done|lia].
Qed.

Lemma comps_step it :
  it_ok it -> comps it = match comps_next it with Some (c, it') => c :: comps it' | None => [] end.
Proof.
  intros Hok. unfold comps at 1. cbn [comps_list]. pose proof (comps_next_ok it Hok) as Hc.
  destruct (comps_next it) as [[c it']|]; [|done]. destruct Hc as (Hok' & _ & Hlt & _).
  by rewrite comps_list_fuel.
Qed.

(** In the body the components are the steps. *)
Lemma comps_body it : it_start it = false -> comps it = steps (it_path it).
Proof.
  intros Hst. assert (Hok : it_ok it) by (intros E; congruence).
  remember (it_left it) as k eqn:Ek. revert it Hst Hok Ek.
  induction k as [k IH] using lt_wf_ind; intros it Hst Hok ->. rewrite comps_step by done.
  pose proof (comps_next_ok it Hok) as Hc. unfold comps_next in *. rewrite Hst in *. cbn [andb] in *.
  destruct (body_next [] (it_path it)) as [[c p]|] eqn:E; [|by rewrite Hc].
  destruct Hc as (Hok' & _ & Hlt & Hc). rewrite (IH _ Hlt) by done.
  pose proof (body_next_scan (it_path it) []) as Hb. rewrite E in Hb. destruct Hb as [Hb _]. done.
Qed.

(** What precedes the body. *)
Definition pre_comps (p : Path) : list Component :=
  if is_absolute p then [RootDir] else if include_cur_dir p then [CurDir] else [].

Lemma path_comps_eq p : path_comps p = pre_comps p ++ steps p.
Proof.
  unfold path_comps. rewrite comps_list_fuel; [|by intros _|unfold it_left; simpl; lia].
  rewrite comps_step by (by intros _). unfold comps_next, pre_comps. simpl.
  destruct (is_absolute p) eqn:Ea.
  - destruct (is_absolute_inv p Ea) as (q & ->). simpl. by rewrite comps_body.
  - destruct (include_cur_dir p) eqn:Ec.
    + destruct (include_cur_dir_inv p Ec) as [->|(q & ->)]; simpl; by rewrite comps_body.
    + simpl. pose proof (body_next_scan p []) as Hb. fold (steps p) in Hb.
      destruct (body_next [] p) as [[c p']|]; [|by rewrite Hb]. destruct Hb as [-> _]. by rewrite comps_body.
Qed.

Lemma valid_not_cur n x : valid_name n -> include_cur_dir (n ++ x) = true -> False.
Proof.
  intros (H1 & H2 & _ & Hs) E. apply include_cur_dir_inv in E. destruct n as [|b [|b' n]]; [done| |].
  - destruct E as [E|(q & E)]; simplify_eq/=; done.
  - destruct E as [E|(q & E)]; simplify_eq/=. apply Hs. right. by left.
Qed.

Lemma path_comps_names p l :
  is_absolute p = false -> include_cur_dir p = false -> steps p = Normal <$> l ->
  path_comps p = Normal <$> l.
Proof. intros E1 E2 E3. rewrite path_comps_eq. unfold pre_comps. by rewrite E1, E2, E3. Qed.

Lemma path_comps_render l : names_ok l -> path_comps (render l) = Normal <$> l.
Proof.
  intros Hl. apply path_comps_names; [by apply render_not_abs| |by apply steps_render].
  pose proof (before_body_render l Hl) as Hb. unfold before_body in Hb.
  destruct (include_cur_dir (render l)); [|done]. rewrite orb_true_r in Hb. done.
Qed.

Lemma pre_comps_join p n : valid_name n -> pre_comps (join p n) = pre_comps p.
Proof.
  intros Hn. unfold join. rewrite name_not_abs by done.
  destruct (last p) as [b|] eqn:El.
  2:{ apply last_None in El as ->. unfold pre_comps. rewrite name_not_abs by done. simpl.
      destruct (include_cur_dir n) eqn:E; [|done]. rewrite <- (app_nil_r n) in E. by apply valid_not_cur in E. }
  destruct p as [|a [|a' p]]; [done| |].
  - simpl in El. injection El as ->. destruct (Z.eqb_spec b SEP) as [->|]; [done|].
    unfold pre_comps, is_absolute. simpl. rewrite andb_true_r. done.
  - by destruct (b =? SEP).
Qed.

Lemma path_comps_join p n : valid_name n -> path_comps (join p n) = path_comps p ++ [Normal n].
Proof.
  intros Hn. rewrite !path_comps_eq, pre_comps_join, steps_join, name_not_abs, (steps_name n) by done.
  by rewrite app_assoc.
Qed.

(** Whether a path is absolute shows in its components. *)
Lemma path_comps_abs p : is_absolute p = true <-> head (path_comps p) = Some RootDir.
Proof.
  rewrite path_comps_eq. unfold pre_comps. destruct (is_absolute p); [done|]. split; [done|].
  destruct (include_cur_dir p); [done|]. pose proof (scan_ok p [] ltac:(apply not_elem_of_nil)) as Hs.
  fold (steps p) in Hs. simpl. destruct (steps p) as [|c cs]; [done|]. inversion Hs as [|? ? Hc]; subst.
  destruct Hc as [->|(? & -> & _)]; done.
Qed.

(** ** [strip_prefix] *)

Lemma iter_after_ok fuel : forall it pre it',
  it_ok it -> it_ok pre -> iter_after fuel it pre = Some it' ->
  comps it = comps pre ++ comps it' /\ (it' = it /\ comps pre = [] \/ it_start it' = false).
Proof.
  induction fuel as [|fuel IH]; intros it pre it' Hok Hpre Ei; [done|]. cbn [iter_after] in Ei.
  rewrite (comps_step pre) by done. pose proof (comps_next_ok pre Hpre) as Hp.
  destruct (comps_next pre) as [[y pre']|]; [|injection Ei as ->; by split; [|left]].
  destruct Hp as (Hpre' & _). rewrite (comps_step it) by done.
  pose proof (comps_next_ok it Hok) as Hc. destruct (comps_next it) as [[x it1]|]; [|done].
  destruct Hc as (Hok1 & Hst & _). case_bool_decide; [|done]. subst y.
  destruct (IH it1 pre' it' Hok1 Hpre' Ei) as [-> Hs]. split; [done|]. right.
  destruct Hs as [[-> _]|]; done.
Qed.

Lemma trim_left_not_cur p : include_cur_dir (trim_left p) = false.
Proof.
  induction p as [[|b p'] IH] using (induction_ltof1 _ length); [done|]. cbn [trim_left].
  destruct (Z.eqb_spec b SEP) as [->|Hs]; [apply IH; unfold ltof; simpl; lia|].
  destruct (Z.eqb_spec b DOT) as [->|Hd].
  - destruct p' as [|b' p'']; [done|]. destruct (Z.eqb_spec b' SEP) as [->|Hs'];
      [apply IH; unfold ltof; simpl; lia|]. simpl. by destruct (Z.eqb_spec b' SEP).
  - destruct p' as [|b' p'']; simpl; by destruct (Z.eqb_spec b DOT).
Qed.

Lemma as_path_comps it : it_start it = false -> path_comps (as_path it) = steps (it_path it).
Proof.
  intros Hst. destruct (as_path_ok it Hst) as [Hs Ha]. rewrite path_comps_eq, Hs. unfold pre_comps. rewrite Ha.
  destruct (include_cur_dir (as_path it)) eqn:E; [|done]. exfalso. unfold as_path in E. rewrite Hst in E.
  pose proof (trim_left_not_cur (it_path it)) as Hc. set (q := trim_left (it_path it)) in *. clearbody q.
  unfold trim_right in E. destruct (trim_left_suffix (rev q)) as [s Hq].
  apply (f_equal (@rev Z)) in Hq. rewrite rev_involutive, rev_app_distr in Hq.
  apply include_cur_dir_inv in E as [E|(x & E)].
  - apply (f_equal (@rev Z)) in E. rewrite rev_involutive in E. simpl in E.
    pose proof (trim_left_not_cur (rev q)) as Hn. by rewrite E in Hn.
  - rewrite E in Hq. by rewrite Hq in Hc.
Qed.

(** A stripped path holds the components behind the prefix. *)
Lemma strip_prefix_ok p base q :
  is_absolute base = true -> strip_prefix p base = Some q ->
  path_comps p = path_comps base ++ path_comps q /\ is_absolute q = false.
Proof.
  unfold strip_prefix. intros Hb E.
  destruct (iter_after _ _ _) as [it'|] eqn:Ei; [|done]. injection E as <-.
  apply iter_after_ok in Ei as [Hc Hs]; [|by intros _..].
  assert (Hpc : forall x, comps (components x) = path_comps x).
  { intros x. unfold path_comps. rewrite comps_list_fuel; [done|by intros _|unfold it_left; simpl; lia]. }
  rewrite !Hpc in Hc. rewrite Hpc in Hs. apply path_comps_abs in Hb. destruct Hs as [[_ Hs]|Hs]; [by rewrite Hs in Hb|].
  rewrite comps_body in Hc by done. rewrite Hc, as_path_comps by done. split; [done|]. by apply as_path_ok.
Qed.
