(* ===== verification/SafePath.v ===== *)
(** The safe-path library (libs/safe-path/src/): resolution of untrusted paths
    under a root, paths pinned to a file handle, and a directory builder.

    The operating system is a parameter: every system call takes the state of
    the world and yields a new one, so nothing is assumed about what other
    processes do to the file system between two calls.  Functions that may
    create directories also yield the [mkdirat] calls they made. *)

From S2P Require Import Prelude Text Path.

(** ** Errors *)

Inductive SafePathError : Type :=
| OsError (errno : Z)
| InvalidPrefix
| TooManySymlinks
| PathChanged
| InvalidComponent
| InvalidRoot
| NotAbsolute
| NotUnderRoot
| AlreadyExists
| NotADirectory
| ParentNotFound.

(** ** System calls *)

Class Os (W : Type) := {
  os_canonicalize : W -> Path -> result Path Z * W;
  os_read_link : W -> Path -> result Path Z * W;
  os_open_path : W -> Path -> result Z Z * W;
  os_openat_path : W -> Z -> Path -> result Z Z * W;
  os_mkdirat : W -> Z -> Path -> Z -> result unit Z * W;
  os_dup : W -> Z -> result Z Z * W;
  os_is_dir : W -> Z -> result bool Z * W;
}.

Section SafePath.
Context {W : Type} `{Os W}.

(** ** scoped_path_resolver.rs *)

Definition MAX_SYMLINK_DEPTH : Z := 255.

(** How a pass over the components of the current path ends. *)
Inductive pass_end : Type :=
| PassDone (subpath : Path)
| PassLink (curr_path : Path).

(** The loop ['next_comp]. *)
Fixpoint next_comp (fuel : nat) (w : W) (root : Path) (it : Components) (subpath : Path) (nlinks : Z) :
  outcome (result pass_end SafePathError * Z * W) :=
  match fuel with
  | O => Panic
  | S fuel =>
      match comps_next it with
      | None => Ret (Ok (PassDone subpath), nlinks, w)
      | Some (Prefix _, _) => Ret (Err InvalidPrefix, nlinks, w)
      | Some (RootDir, it) | Some (CurDir, it) => next_comp fuel w root it subpath nlinks
      | Some (ParentDir, it) => next_comp fuel w root it (pop subpath) nlinks
      | Some (Normal n, it) =>
          let path := join (join root subpath) n in
          match os_read_link w path with
          | (Ok v, w) =>
              let! nlinks := add_u u32_max nlinks 1 in
              if nlinks >? MAX_SYMLINK_DEPTH then Ret (Err TooManySymlinks, nlinks, w) else
              Ret (Ok (PassLink (if is_absolute v then join v (as_path it)
                                 else join (join subpath v) (as_path it))), nlinks, w)
          | (Err _, w) => next_comp fuel w root it (join subpath n) nlinks
          end
      end
  end.

(** The loop ['restart]: each pass but the last follows a link. *)
Fixpoint restart (fuel : nat) (w : W) (root curr_path : Path) (nlinks : Z) :
  outcome (result (Path * Path) SafePathError * W) :=
  match fuel with
  | O => Panic
  | S fuel =>
      let it := components curr_path in
      let! (r, nlinks, w) := next_comp (S (it_left it)) w root it [] nlinks in
      match r with
      | Err e => Ret (Err e, w)
      | Ok (PassDone subpath) => Ret (Ok (root, subpath), w)
      | Ok (PassLink curr_path) => restart fuel w root curr_path nlinks
      end
  end.

Definition do_scoped_resolve (w : W) (root unsafe_path : Path) :
  outcome (result (Path * Path) SafePathError * W) :=
  match os_canonicalize w root with
  | (Err e, w) => Ret (Err (OsError e), w)
  | (Ok root, w) => restart (Z.to_nat (MAX_SYMLINK_DEPTH + 1)) w root unsafe_path 0
  end.

Definition scoped_resolve (w : W) (root unsafe_path : Path) : outcome (result Path SafePathError * W) :=
  let! (r, w) := do_scoped_resolve w root unsafe_path in
  Ret (match r with Ok (_, path) => Ok path | Err e => Err e end, w).

Definition scoped_join (w : W) (root unsafe_path : Path) : outcome (result Path SafePathError * W) :=
  let! (r, w) := do_scoped_resolve w root unsafe_path in
  Ret (match r with Ok (root, path) => Ok (join root path) | Err e => Err e end, w).

(** ** pinned_path_buf.rs *)

Record PinnedPathBuf := mkPinned {
  pp_handle : Z;
  pp_path : Path;
  pp_target : Path;
}.

(** [b"/proc/self/fd/"]. *)
Definition proc_self_fd : Path := [47; 112; 114; 111; 99; 47; 115; 101; 108; 102; 47; 102; 100; 47].

Definition get_proc_path (fd : Z) : Path := proc_self_fd ++ dec fd.

Definition new_from_file (w : W) (handle : Z) (orig_path : Path) :
  result PinnedPathBuf SafePathError * W :=
  let path := get_proc_path handle in
  match os_read_link w path with
  | (Err e, w) => (Err (OsError e), w)
  | (Ok link_path, w) =>
      if negb (path_eq link_path orig_path) then (Err PathChanged, w)
      else (Ok (mkPinned handle path link_path), w)
  end.

Definition from_path (w : W) (orig_path : Path) : result PinnedPathBuf SafePathError * W :=
  match os_open_path w orig_path with
  | (Err e, w) => (Err (OsError e), w)
  | (Ok handle, w) => new_from_file w handle orig_path
  end.

Definition PinnedPathBuf_new (w : W) (root path : Path) :
  outcome (result PinnedPathBuf SafePathError * W) :=
  let! (r, w) := scoped_join w root path in
  Ret (match r with Ok path => from_path w path | Err e => (Err e, w) end).

Definition try_clone (w : W) (p : PinnedPathBuf) : result PinnedPathBuf SafePathError * W :=
  match os_dup w (pp_handle p) with
  | (Err e, w) => (Err (OsError e), w)
  | (Ok fd, w) => (Ok (mkPinned fd (get_proc_path fd) (pp_target p)), w)
  end.

(** [CString::new] refuses a zero byte. *)
Definition prepare_path_component (path_comp : Path) : result Path SafePathError :=
  match comps_next (components path_comp) with
  | Some (Normal name, it) =>
      match comps_next it with
      | Some _ => Err InvalidComponent
      | None =>
          if negb (bool_decide (name = path_comp)) then Err InvalidComponent else
          if bool_decide (0 ∈ path_comp) then Err InvalidComponent else Ok path_comp
      end
  | _ => Err InvalidComponent
  end.

Definition open_child (w : W) (p : PinnedPathBuf) (path_comp : Path) :
  result PinnedPathBuf SafePathError * W :=
  match prepare_path_component path_comp with
  | Err e => (Err e, w)
  | Ok name =>
      match os_openat_path w (pp_handle p) name with
      | (Err e, w) => (Err (OsError e), w)
      | (Ok handle, w) => new_from_file w handle (join (pp_target p) path_comp)
      end
  end.

(** A call of [mkdirat]: the handle it goes through, the name and the mode. *)
Definition MkdirCall : Type := PinnedPathBuf * Path * Z.

Definition PinnedPathBuf_mkdir (w : W) (p : PinnedPathBuf) (path_comp : Path) (mode : Z) :
  result PinnedPathBuf SafePathError * W * list MkdirCall :=
  match prepare_path_component path_comp with
  | Err e => (Err e, w, [])
  | Ok path_name =>
      let call := (p, path_name, mode) in
      match os_mkdirat w (pp_handle p) path_name mode with
      | (Err e, w) => (Err (OsError e), w, [call])
      | (Ok _, w) => (open_child w p path_comp, [call])
      end
  end.

(** ** scoped_dir_builder.rs *)

Definition DIRECTORY_MODE_DEFAULT : Z := 511.
Definition DIRECTORY_MODE_MASK : Z := 511.

Record ScopedDirBuilder := mkBuilder {
  b_root : PinnedPathBuf;
  b_mode : Z;
  b_recursive : bool;
}.

Definition ScopedDirBuilder_new (w : W) (root : Path) : result ScopedDirBuilder SafePathError * W :=
  match os_canonicalize w root with
  | (Err e, w) => (Err (OsError e), w)
  | (Ok root, w) =>
      match from_path w root with
      | (Err e, w) => (Err e, w)
      | (Ok root, w) =>
          match os_is_dir w (pp_handle root) with
          | (Err e, w) => (Err (OsError e), w)
          | (Ok false, w) => (Err InvalidRoot, w)
          | (Ok true, w) => (Ok (mkBuilder root DIRECTORY_MODE_DEFAULT false), w)
          end
      end
  end.

Definition builder_recursive (b : ScopedDirBuilder) (recursive : bool) : ScopedDirBuilder :=
  mkBuilder (b_root b) (b_mode b) recursive.

Definition builder_mode (b : ScopedDirBuilder) (mode : Z) : ScopedDirBuilder :=
  mkBuilder (b_root b) (Z.land mode DIRECTORY_MODE_MASK) (b_recursive b).

(** The loop of [do_mkdir], at component number [idx]. *)
Fixpoint mkdir_loop (w : W) (b : ScopedDirBuilder) (levels idx : Z) (comps : list Path)
  (dir : PinnedPathBuf) : result PinnedPathBuf SafePathError * W * list MkdirCall :=
  match comps with
  | [] => (Ok dir, w, [])
  | comp :: comps =>
      match open_child w dir comp with
      | (Ok v, w) =>
          match os_is_dir w (pp_handle v) with
          | (Err e, w) => (Err (OsError e), w, [])
          | (Ok is_dir, w) =>
              if negb is_dir then (Err NotADirectory, w, []) else
              if negb (b_recursive b) && (idx =? levels) then (Err AlreadyExists, w, []) else
              mkdir_loop w b levels (idx + 1) comps v
          end
      | (Err _, w) =>
          if negb (b_recursive b) && negb (idx =? levels) then (Err ParentNotFound, w, []) else
          let '(r, w, calls) := PinnedPathBuf_mkdir w dir comp (b_mode b) in
          match r with
          | Err e => (Err e, w, calls)
          | Ok dir =>
              let '(r, w, calls') := mkdir_loop w b levels (idx + 1) comps dir in
              (r, w, calls ++ calls')
          end
      end
  end.

Definition do_mkdir (w : W) (b : ScopedDirBuilder) (path : Path) :
  outcome (result PinnedPathBuf SafePathError * W * list MkdirCall) :=
  if is_absolute path then Panic else
  match file_name path with
  | None =>
      if negb (b_recursive b) then Ret (Err AlreadyExists, w, [])
      else Ret (try_clone w (b_root b), [])
  | Some _ =>
      let levels := Z.of_nat (length (path_iter path)) - 1 in
      match try_clone w (b_root b) with
      | (Err e, w) => Ret (Err e, w, [])
      | (Ok dir, w) => Ret (mkdir_loop w b levels 0 (path_iter path) dir)
      end
  end.

Definition builder_create (w : W) (b : ScopedDirBuilder) (path : Path) :
  outcome (result PinnedPathBuf SafePathError * W * list MkdirCall) :=
  let! (r, w) := scoped_resolve w (pp_path (b_root b)) path in
  match r with
  | Err e => Ret (Err e, w, [])
  | Ok path => do_mkdir w b path
  end.

Definition create_with_unscoped_path (w : W) (b : ScopedDirBuilder) (path : Path) :
  outcome (result PinnedPathBuf SafePathError * W * list MkdirCall) :=
  if negb (is_absolute path) then Ret (Err NotAbsolute, w, []) else
  let! (r, w) := scoped_join w [SEP] path in
  match r with
  | Err e => Ret (Err e, w, [])
  | Ok scoped_path =>
      match strip_prefix scoped_path (pp_target (b_root b)) with
      | None => Ret (Err NotUnderRoot, w, [])
      | Some stripped_path => do_mkdir w b stripped_path
      end
  end.
End SafePath.
