(* ===== verification/SafePathSpec.v ===== *)
(** Correctness of the safe-path library: resolution ends, stays under the root
    in every world, and agrees with a chroot in a world that does not change;
    the directory builder creates directories only under its root, whatever
    other processes do. *)

From S2P Require Import Prelude Path SafePath.

(** ** Resolution in any world *)

Section AnyWorld.
Context {W : Type} `{Os W}.

(** A pass ends; it yields a path of names, or follows one more link. *)
Lemma next_comp_ok fuel : forall (w : W) root it l nlinks,
  it_ok it -> names_ok l -> (it_left it < fuel)%nat -> 0 <= nlinks <= MAX_SYMLINK_DEPTH ->
  exists r nl w', next_comp fuel w root it (render l) nlinks = Ret (r, nl, w') /\
    match r with
    | Ok (PassDone s) => exists l', s = render l' /\ names_ok l'
    | Ok (PassLink _) => nl = nlinks + 1 /\ nl <= MAX_SYMLINK_DEPTH
    | Err e => e = TooManySymlinks
    end.
Proof.
  induction fuel as [|fuel IH]; intros w root it l nlinks Hit Hl Hf Hn; [lia|].
  cbn [next_comp]. pose proof (comps_next_ok it Hit) as Hc.
  destruct (comps_next it) as [[c it']|]; [|do 3 eexists; split; [done|simpl; eauto]].
  destruct Hc as (Hit' & Hst & Hlt & Hc). destruct c as [| | | |n]; [done| | | |].
  - apply IH; [done|done|lia|done].
  - apply IH; [done|done|lia|done].
  - destruct l as [|x l _] using rev_ind; [change (pop (render [])) with (render []); apply IH; [done|done|lia|done]|].
    apply Forall_app in Hl as [Hl Hx]. rewrite Forall_singleton in Hx.
    rewrite pop_render by done. apply IH; [done|done|lia|done].
  - pose proof (scan_ok (it_path it) [] ltac:(apply not_elem_of_nil)) as Hs.
    fold (steps (it_path it)) in Hs. rewrite Hc in Hs. inversion Hs as [|? ? Hv]; subst.
    destruct Hv as [|(n' & [= <-] & Hv)]; [done|].
    destruct (os_read_link w _) as [[v|e] w'].
    + rewrite add_u_ret by (unfold MAX_SYMLINK_DEPTH in *; ulia). cbn [obind].
      destruct (nlinks + 1 >? MAX_SYMLINK_DEPTH) eqn:E; [do 3 eexists; by split|].
      bools. do 3 eexists. split; [done|]. split; [done|lia].
    + rewrite join_render by done. apply IH; [done| |lia|done]. apply Forall_app. by rewrite Forall_singleton.
Qed.

Lemma restart_ok fuel : forall (w : W) root curr nlinks,
  0 <= nlinks <= MAX_SYMLINK_DEPTH -> MAX_SYMLINK_DEPTH - nlinks < Z.of_nat fuel ->
  exists r w', restart fuel w root curr nlinks = Ret (r, w') /\
    match r with
    | Ok (root', p) => root' = root /\ exists l, p = render l /\ names_ok l
    | Err e => e = TooManySymlinks
    end.
Proof.
  induction fuel as [|fuel IH]; intros w root curr nlinks Hn Hf; [lia|]. cbn [restart].
  destruct (next_comp_ok (S (it_left (components curr))) w root (components curr) [] nlinks)
    as (r & nl & w' & E & Hr); [by intros _|constructor|lia|done|].
  simpl render in E. rewrite E. cbn [obind]. destruct r as [[s|curr']|e].
  - eexists _, _. split; [done|]. simpl. auto.
  - destruct Hr as [-> Hr]. apply IH; lia.
  - eexists _, _. split; [done|]. exact Hr.
Qed.

Lemma do_scoped_resolve_ok (w : W) root unsafe :
  exists r w', do_scoped_resolve w root unsafe = Ret (r, w') /\
    match r with
    | Ok (root', p) => (os_canonicalize w root).1 = Ok root' /\ exists l, p = render l /\ names_ok l
    | Err e => e = TooManySymlinks \/ exists errno, (os_canonicalize w root).1 = Err errno /\ e = OsError errno
    end.
Proof.
  unfold do_scoped_resolve. destruct (os_canonicalize w root) as [[root'|e] w1]; [|do 2 eexists; split; [done|simpl; eauto]].
  destruct (restart_ok (Z.to_nat (MAX_SYMLINK_DEPTH + 1)) w1 root' unsafe 0) as (r & w' & E & Hr);
    [done|done|].
  exists r, w'. split; [done|]. destruct r as [[root2 p]|e]; [|auto]. by destruct Hr as [-> ?].
Qed.
End AnyWorld.

(** ** The reference: walking a path in a chroot

    [lk l] is the target of the symbolic link at the path of names [l] under the
    root, if there is one.  [chroot lk n cwd todo r]: walking [todo] from [cwd]
    ends at [r] after following [n] links; [..] does not leave the root and an
    absolute target starts again at the root. *)

Inductive chroot (lk : list Path -> option Path) : nat -> list Path -> list Component -> list Path -> Prop :=
| ch_done cwd : chroot lk 0 cwd [] cwd
| ch_parent n cwd todo r :
    chroot lk n (removelast cwd) todo r -> chroot lk n cwd (ParentDir :: todo) r
| ch_name n cwd x todo r :
    lk (cwd ++ [x]) = None -> chroot lk n (cwd ++ [x]) todo r -> chroot lk n cwd (Normal x :: todo) r
| ch_link n cwd x v todo r :
    lk (cwd ++ [x]) = Some v ->
    chroot lk n (if is_absolute v then [] else cwd) (steps v ++ todo) r ->
    chroot lk (S n) cwd (Normal x :: todo) r.

(** No component of the path is a link. *)
Definition link_free (lk : list Path -> option Path) (l : list Path) : Prop :=
  forall a x b, l = a ++ x :: b -> lk (a ++ [x]) = None.

Section Chroot.
Variable lk : list Path -> option Path.

Lemma link_free_snoc l x : link_free lk l -> lk (l ++ [x]) = None -> link_free lk (l ++ [x]).
Proof.
  intros Hl Hx a y b E. destruct b as [|z b _] using rev_ind.
  - apply app_inj_tail in E as [-> ->]. done.
  - rewrite app_comm_cons, app_assoc in E. apply app_inj_tail in E as [E _]. by eapply Hl.
Qed.

Lemma link_free_removelast l : link_free lk l -> link_free lk (removelast l).
Proof.
  intros Hl. destruct l as [|x l _] using rev_ind; [done|]. rewrite removelast_last.
  intros a y b ->. apply (Hl a y (b ++ [x])). by rewrite <- app_assoc.
Qed.

Lemma chroot_link_free n cwd todo r : chroot lk n cwd todo r -> link_free lk cwd -> link_free lk r.
Proof.
  induction 1 as [|n cwd todo r _ IH|n cwd x todo r E _ IH|n cwd x v todo r E _ IH]; intros Hl; [done|..].
  - by apply IH, link_free_removelast.
  - apply IH. by apply link_free_snoc.
  - apply IH. destruct (is_absolute v); [|done]. intros a y b Hn. by destruct a.
Qed.

Lemma chroot_det n cwd todo r : chroot lk n cwd todo r ->
  forall n' r', chroot lk n' cwd todo r' -> n' = n /\ r' = r.
Proof.
  induction 1 as [|n cwd todo r _ IH|n cwd x todo r E _ IH|n cwd x v todo r E _ IH]; intros n' r' Hc;
    inversion Hc; subst; try congruence; auto.
  - match goal with H : chroot _ _ _ (steps ?v' ++ _) _ |- _ => assert (v' = v) as -> by congruence end.
    match goal with H : chroot _ _ _ (steps _ ++ _) _ |- _ => by apply IH in H as [-> ->] end.
Qed.

(** Walking again over names that are no links leads back. *)
Lemma chroot_rewalk b : forall n a todo r,
  link_free lk (a ++ b) -> chroot lk n a ((Normal <$> b) ++ todo) r <-> chroot lk n (a ++ b) todo r.
Proof.
  induction b as [|x b IH]; intros n a todo r Hl; [by rewrite app_nil_r|].
  assert (Hx : lk (a ++ [x]) = None) by (by eapply Hl).
  specialize (IH n (a ++ [x]) todo r). rewrite <- app_assoc in IH. cbn [app] in IH.
  rewrite <- (IH Hl). simpl. split; [|by apply ch_name].
  intros Hc. inversion Hc; subst; [done|congruence].
Qed.
(** One step of a walk. *)
Lemma chroot_parent_iff n cwd todo r :
  chroot lk n cwd (ParentDir :: todo) r <-> chroot lk n (removelast cwd) todo r.
Proof. split; [intros Hc; by inversion Hc|by constructor]. Qed.

Lemma chroot_name_iff n cwd x todo r :
  lk (cwd ++ [x]) = None -> chroot lk n cwd (Normal x :: todo) r <-> chroot lk n (cwd ++ [x]) todo r.
Proof. intros E. split; [intros Hc; inversion Hc; subst; [done|congruence]|by constructor]. Qed.

Lemma chroot_link_iff n cwd x v todo r :
  lk (cwd ++ [x]) = Some v ->
  chroot lk n cwd (Normal x :: todo) r <->
  exists n', n = S n' /\ chroot lk n' (if is_absolute v then [] else cwd) (steps v ++ todo) r.
Proof.
  intros E. split; [|intros (n' & -> & Hc); by econstructor].
  intros Hc. inversion Hc as [| | |? ? ? v' ? ? Ev]; subst; [congruence|]. eexists. split; [done|].
  assert (v' = v) as -> by congruence. done.
Qed.
End Chroot.

(** ** Resolution in a world that does not change *)

(** [read_link] answers from [fs] and leaves the world alone. *)
Definition quiet {W} `{Os W} (fs : Path -> option Path) : Prop :=
  forall (w : W) p, exists e, os_read_link w p = (match fs p with Some v => Ok v | None => Err e end, w).

(** The links under a root. *)
Definition links_under (fs : Path -> option Path) (root : Path) (l : list Path) : option Path :=
  fs (join root (render l)).

Lemma join_root root l n :
  names_ok l -> valid_name n -> join (join root (render l)) n = join root (render (l ++ [n])).
Proof.
  intros Hl Hn. assert (Hln : names_ok (l ++ [n])) by (apply Forall_app; by rewrite Forall_singleton).
  pose proof (render_not_abs l Hl) as A1. pose proof (render_not_abs _ Hln) as A2.
  pose proof (name_not_abs n Hn) as A3.
  unfold join at 2 3. rewrite A1, A2. destruct (last root) as [b|] eqn:El; [|by apply join_render].
  rewrite render_snoc. destruct l as [|m l _] using rev_ind.
  - rewrite bool_decide_eq_true_2 by done. simpl render. rewrite app_nil_r. unfold join. rewrite A3.
    destruct (Z.eqb_spec b SEP) as [->|Hb]; [by rewrite El|].
    rewrite last_snoc, Z.eqb_refl, <- app_assoc. done.
  - rewrite bool_decide_eq_false_2 by (by destruct l). unfold join. rewrite A3.
    assert (Hlast : forall p, last (p ++ render (l ++ [m])) = last (render (l ++ [m]))).
    { intros p. rewrite last_app. destruct (last (render (l ++ [m]))) eqn:E; [done|].
      apply last_None in E. pose proof (steps_render _ Hl) as Hs. rewrite E in Hs. by destruct l. }
    assert (Hsep : forall p, match last (p ++ render (l ++ [m])) with
        | Some b0 => if b0 =? SEP then (p ++ render (l ++ [m])) ++ n else (p ++ render (l ++ [m])) ++ SEP :: n
        | None => n end = p ++ render (l ++ [m]) ++ SEP :: n).
    { intros p. rewrite Hlast. destruct (last (render (l ++ [m]))) as [b0|] eqn:E.
      - pose proof (render_last l m b0 Hl E). destruct (Z.eqb_spec b0 SEP); [done|]. by rewrite <- app_assoc.
      - apply last_None in E. pose proof (steps_render _ Hl) as Hs. rewrite E in Hs. by destruct l. }
    destruct (b =? SEP); [apply Hsep|].
    specialize (Hsep (root ++ [SEP])). rewrite <- !app_assoc in Hsep. cbn [app] in Hsep.
    rewrite <- !app_assoc. exact Hsep.
Qed.

(** What a pass over [todo] from [l] says about the walk. *)
Definition pass_ok (lk : list Path -> option Path) (l : list Path) (todo : list Component) (nlinks : Z)
  (r : result pass_end SafePathError) (nl : Z) : Prop :=
  match r with
  | Ok (PassDone s) => exists l', s = render l' /\ names_ok l' /\ chroot lk 0 l todo l'
  | Ok (PassLink curr) => nl = nlinks + 1 /\ nl <= MAX_SYMLINK_DEPTH /\
      forall n r', chroot lk n l todo r' <-> exists n', n = S n' /\ chroot lk n' [] (steps curr) r'
  | Err e => e = TooManySymlinks /\ nlinks = MAX_SYMLINK_DEPTH /\ forall r', ~ chroot lk 0 l todo r'
  end.

Lemma pass_ok_iff lk l todo l2 todo2 nlinks r nl :
  (forall k r', chroot lk k l todo r' <-> chroot lk k l2 todo2 r') ->
  pass_ok lk l2 todo2 nlinks r nl -> pass_ok lk l todo nlinks r nl.
Proof.
  intros Hiff. destruct r as [[s|curr]|e]; simpl; setoid_rewrite Hiff; done.
Qed.

Section Quiet.
Context {W : Type} `{Os W} (fs : Path -> option Path).
Hypothesis Hquiet : quiet (W := W) fs.

(** A pass that meets a link. *)
Lemma pass_link_ok root l n v it' nlinks :
  names_ok l -> link_free (links_under fs root) l -> links_under fs root (l ++ [n]) = Some v ->
  it_start it' = false -> nlinks + 1 <= MAX_SYMLINK_DEPTH ->
  pass_ok (links_under fs root) l (Normal n :: steps (it_path it')) nlinks
    (Ok (PassLink (if is_absolute v then join v (as_path it') else join (join (render l) v) (as_path it'))))
    (nlinks + 1).
Proof.
  intros Hl Hlf Elk Hst Hn. destruct (as_path_ok it' Hst) as [Hap Habs]. split_and!; [done|done|].
  intros k r'. rewrite (chroot_link_iff _ _ _ _ v) by done.
  destruct (is_absolute v) eqn:Ev; rewrite !steps_join, Habs, Hap, ?Ev; [done|].
  rewrite steps_render, <- app_assoc by done. by setoid_rewrite chroot_rewalk.
Qed.

Lemma next_comp_chroot fuel : forall (w : W) root it l nlinks,
  it_ok it -> names_ok l -> link_free (links_under fs root) l ->
  (it_left it < fuel)%nat -> 0 <= nlinks <= MAX_SYMLINK_DEPTH ->
  exists r nl, next_comp fuel w root it (render l) nlinks = Ret (r, nl, w) /\
    pass_ok (links_under fs root) l (steps (it_path it)) nlinks r nl.
Proof.
  induction fuel as [|fuel IH]; intros w root it l nlinks Hit Hl Hlf Hf Hn; [lia|].
  cbn [next_comp]. pose proof (comps_next_ok it Hit) as Hc.
  destruct (comps_next it) as [[c it']|].
  2:{ do 2 eexists. split; [done|]. exists l. rewrite Hc. split; [done|]. split; [done|constructor]. }
  destruct Hc as (Hit' & Hst & Hlt & Hc). destruct c as [| | | |n]; [done| | | |]; rewrite Hc.
  - apply IH; done || lia.
  - apply IH; done || lia.
  - assert (Hpop : pop (render l) = render (removelast l) /\ names_ok (removelast l)).
    { destruct l as [|x l _] using rev_ind; [done|]. apply Forall_app in Hl as [Hl Hx].
      rewrite Forall_singleton in Hx. rewrite removelast_last. by rewrite pop_render. }
    destruct Hpop as [-> Hl'].
    destruct (IH w root it' (removelast l) nlinks Hit' Hl' (link_free_removelast _ _ Hlf)) as (r & nl & E & Hr);
      [lia|done|].
    exists r, nl. split; [done|]. eapply pass_ok_iff; [|exact Hr]. intros. apply chroot_parent_iff.
  - pose proof (scan_ok (it_path it) [] ltac:(apply not_elem_of_nil)) as Hs.
    fold (steps (it_path it)) in Hs. rewrite Hc in Hs. inversion Hs as [|? ? Hv]; subst.
    destruct Hv as [|(n' & [= <-] & Hv)]; [done|].
    rewrite join_root by done. destruct (Hquiet w (join root (render (l ++ [n])))) as [e ->].
    fold (links_under fs root (l ++ [n])). destruct (links_under fs root (l ++ [n])) as [v|] eqn:Elk.
    + rewrite add_u_ret by (unfold MAX_SYMLINK_DEPTH in *; ulia). cbn [obind].
      destruct (nlinks + 1 >? MAX_SYMLINK_DEPTH) eqn:E; bools; do 2 eexists; (split; [done|]).
      * split_and!; [done|lia|]. intros r'. rewrite chroot_link_iff by done. by intros (? & ? & _).
      * apply pass_link_ok; done || lia.
    + rewrite join_render by done.
      destruct (IH w root it' (l ++ [n]) nlinks Hit') as (r & nl & E & Hr); [..|lia|done|].
      { apply Forall_app. by rewrite Forall_singleton. }
      { by apply link_free_snoc. }
      exists r, nl. split; [done|]. eapply pass_ok_iff; [|exact Hr]. intros. by apply chroot_name_iff.
Qed.

Lemma restart_chroot fuel : forall (w : W) root curr nlinks,
  0 <= nlinks <= MAX_SYMLINK_DEPTH -> MAX_SYMLINK_DEPTH - nlinks < Z.of_nat fuel ->
  let lk := links_under fs root in
  exists r, restart fuel w root curr nlinks = Ret (r, w) /\
    match r with
    | Ok (root', p) => exists n l, root' = root /\ p = render l /\ names_ok l /\
        chroot lk n [] (steps curr) l /\ nlinks + Z.of_nat n <= MAX_SYMLINK_DEPTH
    | Err e => e = TooManySymlinks /\
        forall n l, chroot lk n [] (steps curr) l -> MAX_SYMLINK_DEPTH < nlinks + Z.of_nat n
    end.
Proof.
  induction fuel as [|fuel IH]; intros w root curr nlinks Hn Hf lk; [lia|]. cbn [restart].
  destruct (next_comp_chroot (S (it_left (components curr))) w root (components curr) [] nlinks)
    as (r & nl & E & Hr); [by intros _|constructor|by intros [] ? ?|lia|done|].
  simpl render in E. rewrite E. cbn [obind]. simpl it_path in Hr. fold lk in Hr.
  destruct r as [[s|curr']|e]; simpl in Hr.
  - destruct Hr as (l & -> & Hl & Hc). eexists. split; [done|]. exists 0%nat, l. split_and!; [done..|lia].
  - destruct Hr as (-> & Hle & Hiff). destruct (IH w root curr' (nlinks + 1)) as (r & E' & Hr); [lia|lia|].
    exists r. split; [done|]. fold lk in Hr. destruct r as [[root' p]|e].
    + destruct Hr as (n & l & -> & -> & Hl & Hc & Hb). exists (S n), l. split_and!; [done..| |lia].
      apply Hiff. eauto.
    + destruct Hr as [-> Hr]. split; [done|]. intros n l Hc. apply Hiff in Hc as (n' & -> & Hc).
      apply Hr in Hc. lia.
  - destruct Hr as (-> & -> & Hno). eexists. split; [done|]. split; [done|]. intros [|n] l Hc; [by apply Hno in Hc|lia].
Qed.
End Quiet.

#[local] Instance Normal_inj : Inj (=) (=) Normal.
Proof. by intros ? ? [=]. Qed.

(** Paths of names are equal when their names are. *)
Lemma render_inj l l' : names_ok l -> names_ok l' -> render l = render l' -> l = l'.
Proof.
  intros Hl Hl' E. apply (f_equal steps) in E. rewrite !steps_render in E by done. by apply (inj (fmap Normal)) in E.
Qed.

(** ** Properties of the resolver *)

(** C8. Scope.  In every world, also one that changes under it, resolution returns
    after at most 255 links, and a success is a relative path of proper names,
    none of them [..] or [.]: joined to the canonical root it lies under it.  The
    only errors are a root that cannot be resolved and too many links. *)
Theorem scoped_resolve_scoped {W} `{Os W} (w : W) (root unsafe : Path) :
  exists r w', scoped_resolve w root unsafe = Ret (r, w') /\
    match r with
    | Ok p => exists root' l, (os_canonicalize w root).1 = Ok root' /\ p = render l /\ names_ok l /\
        is_absolute p = false /\ steps p = Normal <$> l /\
        scoped_join w root unsafe = Ret (Ok (join root' p), w') /\
        steps (join root' p) = steps root' ++ (Normal <$> l)
    | Err e =>
        (e = TooManySymlinks \/ exists errno, (os_canonicalize w root).1 = Err errno /\ e = OsError errno) /\
        scoped_join w root unsafe = Ret (Err e, w')
    end.
Proof.
  destruct (do_scoped_resolve_ok w root unsafe) as (r & w' & E & Hr).
  unfold scoped_resolve, scoped_join. rewrite E. cbn [obind]. do 2 eexists. split; [done|].
  destruct r as [[root' p]|e]; [|done]. destruct Hr as (Hc & l & -> & Hl). exists root', l.
  split_and!; try done; [by apply render_not_abs|by apply steps_render|].
  by rewrite steps_join, render_not_abs, steps_render.
Qed.

(** C20. Resolution refines a chroot.  In a world whose links do not change, resolving a
    path gives exactly the path that walking it inside a chroot at the canonical
    root gives, [..] staying inside and absolute links starting at the root, if
    the walk follows at most 255 links; otherwise it fails.  No component of the
    result is a link. *)
Theorem scoped_resolve_refines_chroot {W} `{Os W} (fs : Path -> option Path) (w w1 : W) (root root' unsafe : Path) :
  quiet (W := W) fs -> os_canonicalize w root = (Ok root', w1) ->
  let lk := links_under fs root' in
  (forall l, names_ok l ->
     (scoped_resolve w root unsafe = Ret (Ok (render l), w1) <->
      exists n, chroot lk n [] (steps unsafe) l /\ Z.of_nat n <= MAX_SYMLINK_DEPTH) /\
     (scoped_resolve w root unsafe = Ret (Ok (render l), w1) -> link_free lk l)) /\
  (scoped_resolve w root unsafe = Ret (Err TooManySymlinks, w1) <->
     forall n l, chroot lk n [] (steps unsafe) l -> MAX_SYMLINK_DEPTH < Z.of_nat n).
Proof.
  intros Hq Hc lk. unfold scoped_resolve, do_scoped_resolve. rewrite Hc.
  destruct (restart_chroot fs Hq (Z.to_nat (MAX_SYMLINK_DEPTH + 1)) w1 root' unsafe 0) as (r & E & Hr);
    [done|done|]. fold lk in Hr. rewrite E. cbn [obind]. destruct r as [[root2 p]|e].
  - destruct Hr as (n & l0 & -> & -> & Hl0 & Hch & Hn). split.
    + intros l Hl. split; [split|].
      * intros [= He]. apply render_inj in He as <-; [|done..]. exists n. split; [done|lia].
      * intros (n' & Hch' & _). by destruct (chroot_det lk _ _ _ _ Hch _ _ Hch') as [_ ->].
      * intros [= He]. apply render_inj in He as <-; [|done..].
        eapply chroot_link_free; [exact Hch|]. by intros [] ? ?.
    + split; [done|]. intros Hno. apply Hno in Hch. lia.
  - destruct Hr as [-> Hno]. split.
    + intros l Hl. split; [|done]. split; [done|]. intros (n & Hch & Hn). apply Hno in Hch. lia.
    + split; [|done]. intros _ n l Hch. apply Hno in Hch. lia.
Qed.
