(* ===== verification/SafePathBuilder.v ===== *)
(** Pinned paths and the directory builder of the safe-path library: single
    names only, and every directory is created through a handle that the kernel
    has located under the root, whatever happens to the file system meanwhile. *)

From S2P Require Import Prelude Path SafePath SafePathSpec.

(** ** Names *)

Lemma prepare_ok p : prepare_path_component p = Ok p <-> valid_name p /\ (0 ∉ p).
Proof.
  unfold prepare_path_component. pose proof (comps_next_ok (components p) ltac:(by intros _)) as Hc.
  simpl in Hc. split.
  - destruct (comps_next (components p)) as [[[] it]|]; try done.
    destruct Hc as (Hit & _ & _ & Hc). destruct (comps_next it); [done|].
    case_bool_decide as E; [|done]. subst. simpl. case_bool_decide; [done|]. intros _. split; [|done].
    pose proof (scan_ok p [] ltac:(apply not_elem_of_nil)) as Hs. fold (steps p) in Hs. rewrite Hc in Hs.
    inversion Hs as [|? ? Hv]; subst. destruct Hv as [|(n & [= <-] & Hv)]; done.
  - intros [Hv Hz]. rewrite steps_name in Hc by done.
    assert (Hcur : include_cur_dir p = false).
    { destruct (include_cur_dir p) eqn:E; [|done]. rewrite <- (app_nil_r p) in E. by apply valid_not_cur in E. }
    assert (Hn : comps_next (components p) = Some (Normal p, mkComps [] false (is_absolute p))).
    { unfold comps_next. simpl. rewrite name_not_abs, Hcur by done. simpl.
      pose proof (body_next_scan p []) as Hb. fold (steps p) in Hb. rewrite steps_name in Hb by done.
      destruct (body_next [] p) as [[c q]|] eqn:E; [|done]. destruct Hb as [[= <- Hq] _].
      assert (q = []) as ->; [|done].
      assert (Hg : forall p acc c q, (SEP ∉ p) -> body_next acc p = Some (c, q) -> q = []).
      { clear. induction p as [|b p IH]; intros acc c q Hp; simpl.
        - destruct (parse_single _); [by intros [= _ <-]|done].
        - apply not_elem_of_cons in Hp as [Hb Hp]. destruct (Z.eqb_spec b SEP); [congruence|]. by apply IH. }
      eapply Hg; [|exact E]. apply Hv. }
    rewrite Hn. simpl. rewrite !bool_decide_eq_true_2, bool_decide_eq_false_2 by done. done.
Qed.

Lemma prepare_inv p n : prepare_path_component p = Ok n -> n = p.
Proof.
  unfold prepare_path_component. destruct (comps_next _) as [[[] it]|]; try done.
  destruct (comps_next it); [done|]. case_bool_decide; [|done]. simpl. case_bool_decide; [done|]. by intros [= <-].
Qed.

Lemma path_comps_join_names root l :
  is_absolute root = true -> names_ok l -> path_comps (join root (render l)) = path_comps root ++ (Normal <$> l).
Proof.
  intros Ha. induction l as [|n l IH] using rev_ind; intros Hl.
  - destruct (is_absolute_inv root Ha) as (r & ->). rewrite !path_comps_eq, steps_join. simpl.
    rewrite !app_nil_r. f_equal. unfold pre_comps, join. simpl. destruct (last (SEP :: r)) as [x|] eqn:El; [|by apply last_None in El].
    by destruct (x =? SEP).
  - apply Forall_app in Hl as [Hl Hn]. rewrite Forall_singleton in Hn.
    rewrite <- join_root, path_comps_join, IH, fmap_app by done. by rewrite <- app_assoc.
Qed.

(** [strip_prefix] fails only for a path that does not start with the prefix. *)
Lemma iter_after_none fuel : forall it pre,
  it_ok it -> it_ok pre -> (it_left pre < fuel)%nat -> iter_after fuel it pre = None -> ~ comps pre `prefix_of` comps it.
Proof.
  induction fuel as [|fuel IH]; intros it pre Hok Hpre Hf Ei; [lia|]. cbn [iter_after] in Ei.
  rewrite (comps_step pre), (comps_step it) by done. pose proof (comps_next_ok pre Hpre) as Hp.
  destruct (comps_next pre) as [[y pre']|]; [|done]. destruct Hp as (Hpre' & _ & Hlt & _).
  pose proof (comps_next_ok it Hok) as Hc. destruct (comps_next it) as [[x it1]|]; [|by intros [? ?]].
  destruct Hc as (Hok1 & _). case_bool_decide as E.
  - intros Hx. eapply (IH it1 pre' Hok1 Hpre'); [lia|done|]. subst y. by eapply prefix_cons_inv_2.
  - intros Hx. by apply prefix_cons_inv_1 in Hx.
Qed.

Lemma strip_prefix_none p base : strip_prefix p base = None -> ~ path_comps base `prefix_of` path_comps p.
Proof.
  unfold strip_prefix. destruct (iter_after _ _ _) eqn:Ei; [done|]. intros _.
  assert (Hpc : forall x, comps (components x) = path_comps x).
  { intros x. unfold path_comps. rewrite comps_list_fuel; [done|by intros _|unfold it_left; simpl; lia]. }
  rewrite <- !Hpc. apply iter_after_none in Ei; [done|by intros _..|unfold it_left; simpl; lia].
Qed.

Section Builder.
Context {W : Type} `{Os W}.

(** ** Pinned paths *)

(** A handle that the kernel has located at the components [cs]. *)
Definition pinned_at (d : PinnedPathBuf) (cs : list Component) : Prop := path_comps (pp_target d) = cs.

Lemma new_from_file_ok (w : W) fd p d w' :
  new_from_file w fd p = (Ok d, w') ->
  pp_handle d = fd /\ pinned_at d (path_comps p) /\ (os_read_link w (get_proc_path fd)).1 = Ok (pp_target d).
Proof.
  unfold new_from_file. destruct (os_read_link w _) as [[t|] w1]; [|done].
  unfold path_eq. case_bool_decide as E; simpl; [|done]. by intros [= <- <-].
Qed.

Lemma open_child_ok (w : W) d n v w' cs :
  open_child w d n = (Ok v, w') -> pinned_at d cs -> pinned_at v (cs ++ [Normal n]) /\ valid_name n.
Proof.
  unfold open_child. intros E Hd. destruct (prepare_path_component n) as [n'|] eqn:Ep; [|done].
  pose proof (prepare_inv _ _ Ep) as ->. apply prepare_ok in Ep as [Hv _].
  destruct (os_openat_path w _ _) as [[fd|] w1]; [|done]. apply new_from_file_ok in E as (_ & Hp & _).
  split; [|done]. unfold pinned_at in *. by rewrite Hp, path_comps_join, Hd.
Qed.

(** ** The loop of [do_mkdir] *)

(** A [mkdirat] for a name of [l], through a handle located at the names before
    it under the root, with the builder's mode. *)
Definition mkdir_under (b : ScopedDirBuilder) (l : list Path) (call : MkdirCall) : Prop :=
  let '(d, n, mode) := call in
  mode = b_mode b /\ valid_name n /\
  exists k, l !! k = Some n /\
    pinned_at d (path_comps (pp_target (b_root b)) ++ (Normal <$> take k l)) /\
    (b_recursive b = false -> S k = length l).

Lemma mkdir_ok (w : W) b d n r w' calls pre post :
  PinnedPathBuf_mkdir w d n (b_mode b) = (r, w', calls) ->
  pinned_at d (path_comps (pp_target (b_root b)) ++ (Normal <$> pre)) ->
  (b_recursive b = false -> post = []) ->
  Forall (mkdir_under b (pre ++ n :: post)) calls /\ (length calls <= 1)%nat /\
  (forall v, r = Ok v -> calls <> [] /\ valid_name n /\
     pinned_at v (path_comps (pp_target (b_root b)) ++ (Normal <$> pre ++ [n]))).
Proof.
  unfold PinnedPathBuf_mkdir. intros E Hd Hpost.
  destruct (prepare_path_component n) as [n'|] eqn:Ep; [|injection E as <- <- <-; by split_and!; [|simpl; lia|]].
  pose proof (prepare_inv _ _ Ep) as ->. apply prepare_ok in Ep as [Hv _].
  assert (Hcall : mkdir_under b (pre ++ n :: post) (d, n, b_mode b)).
  { split_and!; [done|done|]. exists (length pre). rewrite list_lookup_middle, take_app_length by done.
    split_and!; [done|done|]. intros Hr. rewrite (Hpost Hr), length_app. simpl. lia. }
  destruct (os_mkdirat w _ _ _) as [[[]|e] w1].
  - destruct (open_child w1 d n) as [r1 w2] eqn:Eo. injection E as <- <- <-.
    split_and!; [by constructor|simpl; lia|]. intros v ->. apply (open_child_ok _ _ _ _ _ _ Eo) in Hd as [Hp _].
    split_and!; [done|done|]. by rewrite fmap_app, app_assoc.
  - injection E as <- <- <-. by split_and!; [by constructor|simpl; lia|].
Qed.

Lemma mkdir_loop_ok b post : forall (w : W) pre d r w' calls,
  mkdir_loop w b (Z.of_nat (length (pre ++ post)) - 1) (Z.of_nat (length pre)) post d = (r, w', calls) ->
  pinned_at d (path_comps (pp_target (b_root b)) ++ (Normal <$> pre)) ->
  Forall (mkdir_under b (pre ++ post)) calls /\
  (b_recursive b = false -> (length calls <= 1)%nat) /\
  (forall v, r = Ok v -> pinned_at v (path_comps (pp_target (b_root b)) ++ (Normal <$> pre ++ post)) /\
     (b_recursive b = false -> post <> [] -> length calls = 1%nat)).
Proof.
  induction post as [|n post IH]; intros w pre d r w' calls E Hd; cbn [mkdir_loop] in E.
  { injection E as <- <- <-. split_and!; [done|simpl; lia|]. intros v [= <-]. rewrite app_nil_r. by split. }
  assert (Hmid : pre ++ n :: post = (pre ++ [n]) ++ post) by (by rewrite <- app_assoc).
  assert (Hidx : Z.of_nat (length pre) + 1 = Z.of_nat (length (pre ++ [n]))) by (rewrite length_app; simpl; lia).
  assert (Hlast : (Z.of_nat (length pre) =? Z.of_nat (length (pre ++ n :: post)) - 1) = bool_decide (post = [])).
  { rewrite length_app. destruct post; simpl; [apply Z.eqb_eq; lia|apply Z.eqb_neq; lia]. }
  rewrite Hlast in E.
  destruct (open_child w d n) as [[v|e] w1] eqn:Eo.
  - apply (open_child_ok _ _ _ _ _ _ Eo) in Hd as [Hp _].
    rewrite <- app_assoc in Hp. change [Normal n] with (Normal <$> [n]) in Hp. rewrite <- fmap_app in Hp.
    destruct (os_is_dir w1 (pp_handle v)) as [[[]|e] w2]; cbn [negb] in E;
      try (injection E as <- <- <-; split_and!; [done|simpl; lia|done]).
    destruct (negb (b_recursive b) && bool_decide (post = [])) eqn:Er;
      [injection E as <- <- <-; split_and!; [done|simpl; lia|done]|].
    rewrite Hidx, Hmid in E. destruct (IH _ _ _ _ _ _ E Hp) as (H1 & H2 & H3). rewrite Hmid.
    split_and!; [done|done|]. intros u Hu. destruct (H3 u Hu) as [H4 H5]. split; [done|]. intros Hr _.
    apply H5; [done|]. intros ->. by rewrite Hr in Er.
  - destruct (negb (b_recursive b) && negb (bool_decide (post = []))) eqn:Er;
      [injection E as <- <- <-; split_and!; [done|simpl; lia|done]|].
    assert (Hpost : b_recursive b = false -> post = []).
    { intros Hr. rewrite Hr in Er. by case_bool_decide. }
    destruct (PinnedPathBuf_mkdir w1 d n (b_mode b)) as [[r1 w2] c1] eqn:Em.
    destruct (mkdir_ok _ _ _ _ _ _ _ pre post Em Hd Hpost) as (H1 & H2 & H3).
    destruct r1 as [v|e1]; [|injection E as <- <- <-; by split_and!].
    destruct (H3 v eq_refl) as (Hne & Hv & Hp).
    destruct (mkdir_loop w2 b _ _ post v) as [[r2 w3] c2] eqn:El. injection E as <- <- <-.
    rewrite Hidx, Hmid in El. destruct (IH _ _ _ _ _ _ El Hp) as (K1 & K2 & K3).
    rewrite Hmid in *. split; [by apply Forall_app|].
    assert (Hc2 : b_recursive b = false -> c2 = []).
    { intros Hr. rewrite (Hpost Hr) in El. simpl in El. by injection El as <- <- <-. }
    split; [intros Hr; rewrite (Hc2 Hr), app_nil_r; done|]. intros u Hu. destruct (K3 u Hu) as [K4 _].
    split; [done|]. intros Hr _. rewrite (Hc2 Hr), app_nil_r. destruct c1; [done|]. simpl in *. lia.
Qed.

(** ** The builder *)

(** What creating the directory [l] under the root of [b] may do: only calls for
    the names of [l] below the root; without [recursive] at most one, for the
    last name; a success is a handle located at [l] under the root. *)
Definition mkdir_spec (b : ScopedDirBuilder) (l : list Path) (r : result PinnedPathBuf SafePathError)
  (calls : list MkdirCall) : Prop :=
  Forall (mkdir_under b l) calls /\
  (b_recursive b = false -> (length calls <= 1)%nat) /\
  (forall v, r = Ok v -> pinned_at v (path_comps (pp_target (b_root b)) ++ (Normal <$> l)) /\
     (b_recursive b = false -> length calls = 1%nat)).

Lemma path_iter_names l p : path_comps p = Normal <$> l -> path_iter p = l.
Proof.
  unfold path_iter. intros ->. rewrite <- list_fmap_compose. rewrite <- (list_fmap_id l) at 2.
  by apply list_fmap_ext.
Qed.

Lemma try_clone_ok (w : W) p d w' cs : try_clone w p = (Ok d, w') -> pinned_at p cs -> pinned_at d cs.
Proof. unfold try_clone. destruct (os_dup w _) as [[fd|] w1]; [|done]. by intros [= <- <-]. Qed.

Lemma do_mkdir_ok (w : W) b p l :
  is_absolute p = false -> path_comps p = Normal <$> l ->
  exists r w' calls, do_mkdir w b p = Ret (r, w', calls) /\ mkdir_spec b l r calls.
Proof.
  intros Ha Hp. unfold do_mkdir. rewrite Ha. unfold file_name. rewrite Hp, (path_iter_names l p Hp), fmap_last.
  set (R := path_comps (pp_target (b_root b))).
  assert (Herr : forall e, mkdir_spec b l (Err e) []) by (intros e; split_and!; [done|simpl; lia|done]).
  destruct (last l) as [n|] eqn:El; cbn [fmap option_fmap option_map].
  - destruct (try_clone w (b_root b)) as [[d|e] w1] eqn:Et; [|do 3 eexists; split; [done|apply Herr]].
    apply (try_clone_ok _ _ _ _ R) in Et; [|done].
    destruct (mkdir_loop w1 b _ 0 l d) as [[r w'] calls] eqn:Em. do 3 eexists. split; [done|].
    destruct (mkdir_loop_ok b l w1 [] d r w' calls Em) as (H1 & H2 & H3); [by rewrite app_nil_r|].
    split_and!; [done|done|]. intros v Hv. destruct (H3 v Hv) as [H4 H5]. split; [done|].
    intros Hr. apply H5; [done|]. by destruct l.
  - apply last_None in El as ->. destruct (b_recursive b) eqn:Er; cbn [negb].
    2:{ do 3 eexists. split; [done|apply Herr]. }
    destruct (try_clone w (b_root b)) as [r w1] eqn:Et. do 3 eexists. split; [done|].
    split_and!; [done|simpl; lia|]. intros v ->. apply (try_clone_ok _ _ _ _ R) in Et; [|done].
    split; [by rewrite app_nil_r|congruence].
Qed.

(** [canonicalize] yields absolute paths of names. *)
Definition canonical_law : Prop := forall (w : W) p q w',
  os_canonicalize w p = (Ok q, w') -> exists l, names_ok l /\ path_comps q = RootDir :: (Normal <$> l).

Lemma builder_new_ok (w : W) root b w' :
  canonical_law -> ScopedDirBuilder_new w root = (Ok b, w') ->
  is_absolute (pp_target (b_root b)) = true /\ b_mode b = DIRECTORY_MODE_DEFAULT /\ b_recursive b = false.
Proof.
  intros Hlaw. unfold ScopedDirBuilder_new. destruct (os_canonicalize w root) as [[q|] w1] eqn:Ec; [|done].
  unfold from_path. destruct (os_open_path w1 q) as [[fd|] w2]; [|done].
  destruct (new_from_file w2 fd q) as [[d|] w3] eqn:En; [|done].
  destruct (os_is_dir w3 _) as [[[]|] w4]; try done. intros [= <- <-]. split; [|done]. simpl.
  apply new_from_file_ok in En as (_ & Hp & _). apply path_comps_abs. rewrite Hp.
  by destruct (Hlaw _ _ _ _ Ec) as (l & _ & ->).
Qed.

(** Components that end in names. *)
Lemma names_suffix (cs ds : list Component) l :
  names_ok l -> RootDir :: (Normal <$> l) = cs ++ ds -> head cs = Some RootDir ->
  exists l', names_ok l' /\ ds = Normal <$> l'.
Proof.
  intros Hl E Hc. destruct cs as [|c cs]; [done|]. simpl in E. injection E as _ E.
  apply fmap_app_inv in E as (l1 & l2 & -> & -> & ->). apply Forall_app in Hl as [_ Hl]. eauto.
Qed.

(** What [create] and [create_with_unscoped_path] come to once the path is
    resolved: an error of the resolution is returned and nothing is created; else
    the names are those of the resolved path, in the second case those behind the
    root of the builder. *)
Definition create_spec (b : ScopedDirBuilder) (resolved : result Path SafePathError)
  (r : result PinnedPathBuf SafePathError) (calls : list MkdirCall) : Prop :=
  match resolved with
  | Err e => r = Err e /\ calls = []
  | Ok p => exists l, names_ok l /\ path_comps p = Normal <$> l /\ mkdir_spec b l r calls
  end.

Definition unscoped_spec (b : ScopedDirBuilder) (resolved : result Path SafePathError)
  (r : result PinnedPathBuf SafePathError) (calls : list MkdirCall) : Prop :=
  let root := path_comps (pp_target (b_root b)) in
  match resolved with
  | Err e => r = Err e /\ calls = []
  | Ok p => (exists l, names_ok l /\ path_comps p = root ++ (Normal <$> l) /\ mkdir_spec b l r calls) \/
            ((~ root `prefix_of` path_comps p) /\ r = Err NotUnderRoot /\ calls = [])
  end.

Lemma create_ok (w : W) b path :
  exists resolved w1 r w' calls, scoped_resolve w (pp_path (b_root b)) path = Ret (resolved, w1) /\
    builder_create w b path = Ret (r, w', calls) /\ create_spec b resolved r calls.
Proof.
  unfold builder_create, scoped_resolve.
  destruct (do_scoped_resolve_ok w (pp_path (b_root b)) path) as (r & w1 & -> & Hr). cbn [obind].
  destruct r as [[root' p]|e]; [|do 5 eexists; split; [done|]; split; [done|by split]].
  destruct Hr as (_ & l & -> & Hl).
  destruct (do_mkdir_ok w1 b (render l) l) as (r & w' & calls & -> & Hs);
    [by apply render_not_abs|by apply path_comps_render|]. do 5 eexists. split; [done|]. split; [done|].
  exists l. split; [done|]. split; [by apply path_comps_render|done].
Qed.

Lemma create_unscoped_ok (w : W) b path :
  canonical_law -> is_absolute (pp_target (b_root b)) = true ->
  if is_absolute path
  then exists resolved w1 r w' calls, scoped_join w [SEP] path = Ret (resolved, w1) /\
    create_with_unscoped_path w b path = Ret (r, w', calls) /\ unscoped_spec b resolved r calls
  else create_with_unscoped_path w b path = Ret (Err NotAbsolute, w, []).
Proof.
  intros Hlaw Hb. unfold create_with_unscoped_path, scoped_join. destruct (is_absolute path); cbn [negb]; [|done].
  destruct (do_scoped_resolve_ok w [SEP] path) as (r & w1 & -> & Hr). cbn [obind].
  destruct r as [[root' p]|e]; [|do 5 eexists; split; [done|]; split; [done|by split]]. destruct Hr as (Hc & l & -> & Hl).
  destruct (os_canonicalize w [SEP]) as [q w2] eqn:Ec. simpl in Hc. subst q.
  destruct (Hlaw _ _ _ _ Ec) as (l0 & Hl0 & Hroot).
  destruct (strip_prefix _ _) as [q|] eqn:Es.
  2:{ do 5 eexists. split; [done|]. split; [done|]. right. split; [by apply strip_prefix_none|done]. }
  apply strip_prefix_ok in Es as [Hpc Hq]; [|done].
  assert (Hpc' := Hpc). rewrite path_comps_join_names, Hroot in Hpc by (done || (apply path_comps_abs; by rewrite Hroot)).
  cbn [app] in Hpc. rewrite <- fmap_app in Hpc.
  destruct (names_suffix _ _ (l0 ++ l) ltac:(by apply Forall_app) Hpc) as (l' & Hl' & Hq').
  { by apply path_comps_abs. }
  destruct (do_mkdir_ok w1 b q l' Hq Hq') as (r & w' & calls & -> & Hs). do 5 eexists. split; [done|]. split; [done|].
  left. exists l'. split; [done|]. by rewrite Hpc', Hq'.
Qed.

(** C19. The directory builder, in every world, also one where links and directories
    change between its system calls.  Creating a directory returns.  An error in
    resolving the path is returned, and nothing is created; else the names are
    exactly those of the path that the resolution returned under the root of the
    builder, for an unscoped path those behind the root's own, and a path that is
    not under the root is refused.  Every [mkdirat] is for one of these names, a
    single proper one, with at most the permission bits 0o777, through a handle
    that the kernel located, when it was opened, at the names before it under the
    root; without the recursive option there is at most one, for the last name,
    and a success made exactly one.  The handle returned is located at these
    names under the root. *)
Theorem scoped_dir_builder_safe (w0 w1 : W) root b0 (rec : bool) (mode : Z) :
  canonical_law -> ScopedDirBuilder_new w0 root = (Ok b0, w1) -> 0 <= mode ->
  let b := builder_mode (builder_recursive b0 rec) mode in
  0 <= b_mode b <= 511 /\
  forall (w : W) path,
    (exists resolved w1 r w' calls, scoped_resolve w (pp_path (b_root b)) path = Ret (resolved, w1) /\
       builder_create w b path = Ret (r, w', calls) /\ create_spec b resolved r calls) /\
    (if is_absolute path
     then exists resolved w1 r w' calls, scoped_join w [SEP] path = Ret (resolved, w1) /\
       create_with_unscoped_path w b path = Ret (r, w', calls) /\ unscoped_spec b resolved r calls
     else create_with_unscoped_path w b path = Ret (Err NotAbsolute, w, [])).
Proof.
  intros Hlaw Hb Hm b. destruct (builder_new_ok _ _ _ _ Hlaw Hb) as (Habs & _).
  split.
  - subst b. simpl. change DIRECTORY_MODE_MASK with (Z.ones 9). rewrite Z.land_ones by lia.
    pose proof (Z.mod_pos_bound mode (2 ^ 9)). lia.
  - intros w path. split; [apply create_ok|by apply create_unscoped_ok].
Qed.
End Builder.

(** ** Witnesses

    A world with the directory [/r], in which [/r/a] exists once it is made. *)

Definition path_r : Path := [SEP; 114].
Definition path_ra : Path := [SEP; 114; SEP; 97].

#[local] Instance toy_os : Os Z := {|
  os_canonicalize w p := (Ok path_r, w);
  os_read_link w p :=
    (if bool_decide (p = get_proc_path 3) then Ok path_r
     else if bool_decide (p = get_proc_path 4) then Ok path_ra else Err 22, w);
  os_open_path w p := (Ok 3, w);
  os_openat_path w fd n := (if w =? 0 then Err 2 else Ok 4, w);
  os_mkdirat w fd n mode := (Ok tt, w + 1);
  os_dup w fd := (Ok fd, w);
  os_is_dir w fd := (Ok true, w);
|}.

Lemma toy_name b : bool_decide (valid_name [b]) = true -> names_ok [[b]].
Proof. intros Hb. apply Forall_singleton. by apply bool_decide_eq_true_1 in Hb. Qed.

Lemma toy_canonical : canonical_law (W := Z).
Proof. intros w p q w' [= <- <-]. exists [[114]]. split; [by apply toy_name|by vm_compute]. Qed.

Definition toy_builder : ScopedDirBuilder := mkBuilder (mkPinned 3 (get_proc_path 3) path_r) 511 false.

Lemma scoped_dir_builder_safe_witness :
  ScopedDirBuilder_new 0 path_r = (Ok toy_builder, 0) /\
  match builder_create 0 (builder_mode (builder_recursive toy_builder false) 448) [97] with
  | Ret (Ok v, w', [(_, n, mode)]) => pp_target v = path_ra /\ n = [97] /\ mode = 448 /\ w' = 1
  | _ => False
  end /\
  exists r w' calls,
    builder_create 0 (builder_mode (builder_recursive toy_builder false) 448) [97] = Ret (r, w', calls) /\
    mkdir_spec (builder_mode (builder_recursive toy_builder false) 448) [[97]] r calls.
Proof.
  split; [by vm_compute|]. split; [by vm_compute|].
  destruct (scoped_dir_builder_safe 0 0 path_r toy_builder false 448 toy_canonical) as [_ Hs]; [by vm_compute|lia|].
  destruct (proj1 (Hs 0 [97])) as (resolved & w2 & r & w' & calls & Er & E & Hc).
  assert (Er' : scoped_resolve 0 (pp_path (b_root toy_builder)) [97] = Ret (Ok [97], 0)) by (by vm_compute).
  cbn [builder_mode builder_recursive b_root] in Er. rewrite Er' in Er. injection Er as <- <-.
  destruct Hc as (l & _ & Hl & Hm). replace l with [[97]] in Hm; [by exists r, w', calls|].
  apply path_iter_names in Hl. rewrite <- Hl. by vm_compute.
Defined.

(** A quiet file system under [/r]: [x -> a/../b] and [y -> y]. *)
Definition toy_fs (p : Path) : option Path :=
  if bool_decide (p = path_r ++ [SEP; 120]) then Some [97; SEP; 46; 46; SEP; 98]
  else if bool_decide (p = path_r ++ [SEP; 121]) then Some [121] else None.

#[local] Instance quiet_os : Os unit := {|
  os_canonicalize w p := (Ok path_r, w);
  os_read_link w p := (match toy_fs p with Some v => Ok v | None => Err 22 end, w);
  os_open_path w p := (Err 2, w);
  os_openat_path w fd n := (Err 2, w);
  os_mkdirat w fd n mode := (Err 2, w);
  os_dup w fd := (Err 2, w);
  os_is_dir w fd := (Err 2, w);
|}.

Lemma toy_quiet : quiet (W := unit) toy_fs.
Proof. intros w p. by exists 22. Qed.

Lemma scoped_resolve_refines_chroot_witness :
  scoped_resolve tt path_r [46; 46; SEP; 120] = Ret (Ok [98], tt) /\
  scoped_resolve tt path_r [121] = Ret (Err TooManySymlinks, tt) /\
  exists n, chroot (links_under toy_fs path_r) n [] (steps [46; 46; SEP; 120]) [[98]].
Proof.
  split; [by vm_compute|]. split; [by vm_compute|].
  destruct (scoped_resolve_refines_chroot toy_fs tt tt path_r path_r [46; 46; SEP; 120] toy_quiet eq_refl) as [Hr _].
  destruct (Hr [[98]]) as [Hiff _]; [by apply toy_name|].
  destruct (proj1 Hiff) as (n & Hn & _); [by vm_compute|]. by exists n.
Defined.
