(* ===== verification/VirtioMem.v ===== *)
(** The virtio-mem device (dbs_virtio_devices/src/mem.rs): the blocks of hot
    plugged memory, the requests of the guest, and the mapping of the region in
    pieces of 2 GiB.

    The device and its queue handler share the configuration and the map of
    regions ([Arc<Mutex<..>>]); here one record holds both.  Outside are the
    region factory, [fallocate] and [madvise] (a world [W]), guest memory [G],
    and the virtqueue, whose available chains are given as a list.  Functions
    that may give memory back to the host also yield the calls they made.  Log
    messages are left out. *)

From S2P Require Import Prelude VsockStream VsockPacket.

(** ** Constants *)

Definition VIRTIO_MEM_DEFAULT_BLOCK_SIZE : Z := Z.shiftl 4 20.
Definition VIRTIO_MEM_DEFAULT_BLOCK_ALIGNMENT : Z := 128 * 1024 * 1024.
Definition VIRTIO_MEM_MAP_REGION_SHIFT : Z := 31.
Definition VIRTIO_MEM_MAP_REGION_SIZE : Z := Z.shiftl 1 VIRTIO_MEM_MAP_REGION_SHIFT.
(** [!(u64::MAX << SHIFT)]. *)
Definition VIRTIO_MEM_MAP_REGION_MASK : Z :=
  u64_not (as_u64 (Z.shiftl u64_max VIRTIO_MEM_MAP_REGION_SHIFT)).
Definition MAX_MEMORY_BLOCK_SIZE : Z := Z.shiftl 2 30.
Definition BOOT_MEM_SIZE_FOR_LARGE_BLOCK : Z := Z.shiftl 64 30.

Definition VIRTIO_MEM_RESP_ACK : Z := 0.
Definition VIRTIO_MEM_RESP_NACK : Z := 1.
Definition VIRTIO_MEM_RESP_ERROR : Z := 3.
Definition VIRTIO_MEM_STATE_PLUGGED : Z := 0.
Definition VIRTIO_MEM_STATE_UNPLUGGED : Z := 1.
Definition VIRTIO_MEM_STATE_MIXED : Z := 2.
Definition VIRTIO_MEM_REQ_PLUG : Z := 0.
Definition VIRTIO_MEM_REQ_UNPLUG : Z := 1.
Definition VIRTIO_MEM_REQ_UNPLUG_ALL : Z := 2.
Definition VIRTIO_MEM_REQ_STATE : Z := 3.

(** ** Data *)

Inductive MemError : Type :=
| MemGuestMemory
| UnexpectedWriteOnlyDescriptor
| UnexpectedReadOnlyDescriptor
| DescriptorChainTooShort
| DescriptorLengthTooSmall
| InvalidRequest.

(** The errors of [Mem]'s own functions. *)
Inductive DevError : Type :=
| InvalidInput
| InvalidResource
| RegionError (e : Z)
| NotifyError (e : Z)
| ActivateInternalError.

Record VirtioMemReq := mkReq {
  rq_type : Z;
  rq_addr : Z;
  rq_nb_blocks : Z;
}.

Record VirtioMemConfig := mkConfig {
  block_size : Z;
  node_id : Z;
  cfg_addr : Z;
  region_size : Z;
  usable_region_size : Z;
  plugged_size : Z;
  requested_size : Z;
}.

Definition upd_usable (c : VirtioMemConfig) (x : Z) : VirtioMemConfig :=
  let '(mkConfig a b c d _ f g) := c in mkConfig a b c d x f g.
Definition upd_plugged (c : VirtioMemConfig) (x : Z) : VirtioMemConfig :=
  let '(mkConfig a b c d e _ g) := c in mkConfig a b c d e x g.
Definition upd_requested (c : VirtioMemConfig) (x : Z) : VirtioMemConfig :=
  let '(mkConfig a b c d e f _) := c in mkConfig a b c d e f x.
Definition upd_addr (c : VirtioMemConfig) (x : Z) : VirtioMemConfig :=
  let '(mkConfig a b _ d e f g) := c in mkConfig a b x d e f g.

(** [Vec<(u32, Option<(u64, u64)>)>]: the slot, and the host and guest address
    once the piece is mapped. *)
Definition MapRegions : Type := list (Z * option (Z * Z)).

(** [Mem] with the state of its [MemEpollHandler] once it is activated. *)
Record Mem := mkMem {
  m_config : VirtioMemConfig;
  m_capacity : Z;
  m_alignment : Z;
  m_multi_region : bool;
  m_map_regions : MapRegions;
  m_host_fd : option Z;
  m_mem_state_map : option (list bool);
  m_mem_state : option (list bool);
}.

Definition set_config (m : Mem) (x : VirtioMemConfig) : Mem :=
  let '(mkMem _ b c d e f g h) := m in mkMem x b c d e f g h.
Definition set_map_regions (m : Mem) (x : MapRegions) : Mem :=
  let '(mkMem a b c d _ f g h) := m in mkMem a b c d x f g h.
Definition set_mem_state (m : Mem) (x : list bool) : Mem :=
  let '(mkMem a b c d e f g _) := m in mkMem a b c d e f g (Some x).

(** ** Outside *)

(** The factory's [create_region] with [get_host_address] of the new region, an error of
    either of them being one of the call (a new region has an address),
    [fallocate64] with [PUNCH_HOLE], [madvise] with [MADV_REMOVE], and the
    notifier. *)
Class MemHost (W : Type) := {
  create_region : W -> Z -> Z -> Z -> result Z Z * W;
  punch_hole : W -> Z -> Z -> Z -> bool * W;
  madvise_remove : W -> Z -> Z -> bool * W;
  notify_change : W -> result unit Z * W;
}.

(** [read_obj] and [write_obj] of the crate vm-memory, by the bytes. *)
Class MemGuest (G : Type) := {
  read_slice : G -> Z -> Z -> option bytes;
  write_slice : G -> Z -> bytes -> option G;
}.

(** What the host is asked to do. *)
Inductive HostCall : Type :=
| PunchHole (fd offset size : Z)
| MadviseRemove (host_addr size : Z).

(** ** Requests *)

(** The layouts of [#[repr(C)]] structs: a request has 24 bytes, a response 10. *)
Definition REQ_SIZE : Z := 24.
Definition RESP_SIZE : Z := 10.

Definition req_of_bytes (bs : bytes) : VirtioMemReq :=
  mkReq (of_le_bytes (ztake 2 bs)) (of_le_bytes (ztake 8 (zdrop 8 bs))) (of_le_bytes (ztake 2 (zdrop 16 bs))).

Definition resp_bytes (resp_type state : Z) : bytes :=
  le_bytes 2 resp_type ++ replicate 6 0 ++ le_bytes 2 state.

Section Requests.
Context {G : Type} `{MemGuest G}.

Definition Request_parse (chain : list Descriptor) (mem : G) : result (VirtioMemReq * Z) MemError :=
  match chain with
  | [] => Err DescriptorChainTooShort
  | avail_desc :: rest =>
      if d_write_only avail_desc then Err UnexpectedWriteOnlyDescriptor else
      if negb (d_len avail_desc =? REQ_SIZE) then Err InvalidRequest else
      match read_slice mem (d_addr avail_desc) REQ_SIZE with
      | None => Err MemGuestMemory
      | Some bs =>
          match rest with
          | [] => Err DescriptorChainTooShort
          | status_desc :: _ =>
              if negb (d_write_only status_desc) then Err UnexpectedReadOnlyDescriptor else
              if d_len status_desc <? RESP_SIZE then Err DescriptorLengthTooSmall else
              Ok (req_of_bytes bs, d_addr status_desc)
          end
      end
  end.

Definition send_response (mem : G) (status_addr resp_type state : Z) : Z * G :=
  match write_slice mem status_addr (resp_bytes resp_type state) with
  | Some mem => (RESP_SIZE, mem)
  | None => (0, mem)
  end.
End Requests.

(** ** MemTool *)

(** [a % b] panics for [b = 0]. *)
Definition rem_u (a b : Z) : outcome Z := if b =? 0 then Panic else Ret (a mod b).
Definition div_u (a b : Z) : outcome Z := if b =? 0 then Panic else Ret (a / b).

Definition virtio_mem_valid_range (c : VirtioMemConfig) (addr size : Z) : outcome bool :=
  let! r1 := rem_u addr (block_size c) in
  let! r2 := if negb (r1 =? 0) then Ret 0 else rem_u size (block_size c) in
  if negb (r1 =? 0) || negb (r2 =? 0) then Ret false else
  match checked_add u64_max addr size with
  | None => Ret false
  | Some _ =>
      if size =? 0 then Ret false else
      if addr <? cfg_addr c then Ret false else
      let! limit := add_u u64_max (cfg_addr c) (usable_region_size c) in
      if addr >=? limit then Ret false else
      let! last := add_u u64_max addr size in
      Ret (negb (last >? limit))
  end.

Definition virtio_mem_check_bitmap (bit_index nb_blocks : Z) (mem_state : list bool) (plug : bool) : bool :=
  forallb (fun s => Bool.eqb s plug) (ztake nb_blocks (zdrop bit_index mem_state)).

Definition virtio_mem_set_bitmap (bit_index nb_blocks : Z) (mem_state : list bool) (plug : bool) : list bool :=
  ztake bit_index mem_state ++
  ((fun _ => plug) <$> ztake nb_blocks (zdrop bit_index mem_state)) ++
  zdrop nb_blocks (zdrop bit_index mem_state).

(** The host address of [offset .. offset + size), if it is mapped. *)
Definition host_addr_of (multi_region : bool) (map_regions : MapRegions) (offset size : Z) :
  outcome (option Z) :=
  if multi_region then
    let map_region_index := Z.shiftr offset VIRTIO_MEM_MAP_REGION_SHIFT in
    let! x := add_u u64_max offset size in
    let! x := sub_u x 1 in
    if negb (Z.shiftr x VIRTIO_MEM_MAP_REGION_SHIFT =? map_region_index) then Ret None else
    match map_regions !! Z.to_nat map_region_index with
    | None => Ret None
    | Some (_, None) => Ret None
    | Some (_, Some (region_host_addr, _)) =>
        let! h := add_u u64_max (Z.land offset VIRTIO_MEM_MAP_REGION_MASK) region_host_addr in Ret (Some h)
    end
  else
    match map_regions !! 0%nat with
    | None => Panic
    | Some (_, None) => Ret None
    | Some (_, Some (host_addr, _)) => let! h := add_u u64_max host_addr offset in Ret (Some h)
    end.

Section Device.
Context {W : Type} `{MemHost W}.

(** Giving the memory of unplugged blocks back. *)
Definition discard (w : W) (host_fd : option Z) (offset host_addr size : Z) : bool * W * list HostCall :=
  let '(ok, w, calls) :=
    match host_fd with
    | Some fd => let '(ok, w) := punch_hole w fd offset size in (ok, w, [PunchHole fd offset size])
    | None => (true, w, [])
    end in
  if negb ok then (false, w, calls) else
  let '(ok, w) := madvise_remove w host_addr size in
  (ok, w, calls ++ [MadviseRemove host_addr size]).

(** [virtio_mem_state_change_request]: the response, the new bitmap, the world
    and the calls. *)
Definition state_change (w : W) (m : Mem) (mem_state : list bool) (addr size nb_blocks : Z) (plug : bool) :
  outcome (Z * list bool * W * list HostCall) :=
  let c := m_config m in
  let! total := if plug then add_u u64_max (plugged_size c) size else Ret 0 in
  if plug && (total >? requested_size c) then Ret (VIRTIO_MEM_RESP_NACK, mem_state, w, []) else
  let! valid := virtio_mem_valid_range c addr size in
  if negb valid then Ret (VIRTIO_MEM_RESP_ERROR, mem_state, w, []) else
  let! offset := sub_u addr (cfg_addr c) in
  let! bit_index := div_u offset (block_size c) in
  if negb (virtio_mem_check_bitmap bit_index nb_blocks mem_state (negb plug)) then
    Ret (VIRTIO_MEM_RESP_ERROR, mem_state, w, []) else
  let! host_addr := host_addr_of (m_multi_region m) (m_map_regions m) offset size in
  match host_addr with
  | None => Ret (VIRTIO_MEM_RESP_ERROR, mem_state, w, [])
  | Some host_addr =>
      let '(ok, w, calls) :=
        if plug then (true, w, []) else discard w (m_host_fd m) offset host_addr size in
      if negb ok then Ret (VIRTIO_MEM_RESP_ERROR, mem_state, w, calls) else
      Ret (VIRTIO_MEM_RESP_ACK, virtio_mem_set_bitmap bit_index nb_blocks mem_state plug, w, calls)
  end.

(** The loop of [virtio_mem_unplug_all], with [n] blocks from [x] on to go. *)
Fixpoint unplug_all_loop (n : nat) (x : Z) (w : W) (m : Mem) (mem_state : list bool) :
  outcome (Z * list bool * W * list HostCall) :=
  match n with
  | O => Ret (VIRTIO_MEM_RESP_ACK, mem_state, w, [])
  | S n =>
      match mem_state !! Z.to_nat x with
      | None => Panic
      | Some false => unplug_all_loop n (x + 1) w m mem_state
      | Some true =>
          let c := m_config m in
          let! off := mul_u u64_max x (block_size c) in
          let! addr := add_u u64_max (cfg_addr c) off in
          let! (resp_type, mem_state, w, calls) :=
            state_change w m mem_state addr (block_size c) 1 false in
          if negb (resp_type =? VIRTIO_MEM_RESP_ACK) then Ret (resp_type, mem_state, w, calls) else
          let mem_state := <[Z.to_nat x := false]> mem_state in
          let! (resp_type, mem_state, w, calls') := unplug_all_loop n (x + 1) w m mem_state in
          Ret (resp_type, mem_state, w, calls ++ calls')
      end
  end.

Definition virtio_mem_unplug_all (w : W) (m : Mem) (mem_state : list bool) :
  outcome (Z * list bool * W * list HostCall) :=
  let! n := div_u (region_size (m_config m)) (block_size (m_config m)) in
  unplug_all_loop (Z.to_nat n) 0 w m mem_state.

Definition virtio_mem_state_request (c : VirtioMemConfig) (addr nb_blocks : Z) (mem_state : list bool) :
  outcome (Z * Z) :=
  let! size := mul_u u64_max nb_blocks (block_size c) in
  let! valid := virtio_mem_valid_range c addr size in
  let resp_type := if (valid : bool) then VIRTIO_MEM_RESP_ACK else VIRTIO_MEM_RESP_ERROR in
  let! offset := sub_u addr (cfg_addr c) in
  let! bit_index := div_u offset (block_size c) in
  Ret (resp_type,
       if virtio_mem_check_bitmap bit_index nb_blocks mem_state true then VIRTIO_MEM_STATE_PLUGGED
       else if virtio_mem_check_bitmap bit_index nb_blocks mem_state false then VIRTIO_MEM_STATE_UNPLUGGED
       else VIRTIO_MEM_STATE_MIXED).

(** *** [virtio_mem_resize_usable_region] *)

(** The first piece from [index] on, of [n], that is not mapped. *)
Fixpoint find_unmapped (n : nat) (index : Z) (map_regions : MapRegions) : outcome (option Z) :=
  match n with
  | O => Ret None
  | S n =>
      match map_regions !! Z.to_nat index with
      | None => Panic
      | Some (_, None) => Ret (Some index)
      | Some (_, Some _) => find_unmapped n (index + 1) map_regions
      end
  end.

(** Enter the new mapping for [n] pieces from [index] on. *)
Fixpoint enter_mapping (n : nat) (index host_addr guest_addr : Z) (map_regions : MapRegions) :
  outcome MapRegions :=
  match n with
  | O => Ret map_regions
  | S n =>
      match map_regions !! Z.to_nat index with
      | None => Panic
      | Some (slot, _) =>
          let! h := add_u u64_max host_addr VIRTIO_MEM_MAP_REGION_SIZE in
          let! g := add_u u64_max guest_addr VIRTIO_MEM_MAP_REGION_SIZE in
          enter_mapping n (index + 1) h g
            (<[Z.to_nat index := (slot, Some (host_addr, guest_addr))]> map_regions)
      end
  end.

(** The pieces of a usable region that grows to [newsize]. *)
Definition map_new_regions (w : W) (c : VirtioMemConfig) (newsize : Z) (map_regions : MapRegions) :
  outcome (result MapRegions DevError * W) :=
  let n := Z.of_nat (length map_regions) in
  let first_index := Z.shiftr (usable_region_size c) VIRTIO_MEM_MAP_REGION_SHIFT in
  let last_index := Z.shiftr newsize VIRTIO_MEM_MAP_REGION_SHIFT in
  let! first_index := if first_index >=? n then sub_u n 1 else Ret first_index in
  let! last_index := if last_index >=? n then sub_u n 1 else Ret last_index in
  let! first_unmap := find_unmapped (Z.to_nat (last_index + 1 - first_index)) first_index map_regions in
  match first_unmap with
  | None => Ret (Ok map_regions, w)
  | Some first_index =>
      let regions_num := last_index - first_index + 1 in
      let! guest_addr := add_u u64_max (cfg_addr c) (Z.shiftl first_index VIRTIO_MEM_MAP_REGION_SHIFT) in
      let! tail_len :=
        if last_index + 1 =? n
        then sub_u (region_size c) (Z.shiftl last_index VIRTIO_MEM_MAP_REGION_SHIFT)
        else Ret VIRTIO_MEM_MAP_REGION_SIZE in
      let! region_len := add_u u64_max (Z.shiftl (regions_num - 1) VIRTIO_MEM_MAP_REGION_SHIFT) tail_len in
      match map_regions !! Z.to_nat first_index with
      | None => Panic
      | Some (slot, _) =>
          match create_region w guest_addr region_len slot with
          | (Err e, w) => Ret (Err (RegionError e), w)
          | (Ok host_addr, w) =>
              let! map_regions :=
                enter_mapping (Z.to_nat regions_num) first_index host_addr guest_addr map_regions in
              Ret (Ok map_regions, w)
          end
      end
  end.

Definition virtio_mem_resize_usable_region (w : W) (c : VirtioMemConfig) (can_shrink : bool) (alignment : Z)
  (multi_regions : option MapRegions) :
  outcome (result (VirtioMemConfig * option MapRegions) DevError * W) :=
  let! twice := mul_u u64_max 2 alignment in
  let! wanted := add_u u64_max (requested_size c) twice in
  let! mask := sub_u (block_size c) 1 in
  let newsize := Z.land (Z.min (region_size c) wanted) (u64_not mask) in
  let newsize := if requested_size c =? 0 then 0 else newsize in
  let! (r, w) :=
    match multi_regions with
    | Some map_regions =>
        if newsize >? usable_region_size c then
          let! (r, w) := map_new_regions w c newsize map_regions in
          Ret (match r with Ok mr => Ok (Some mr) | Err e => Err e end, w)
        else Ret (Ok (Some map_regions), w)
    | None => Ret (Ok None, w)
    end in
  match r with
  | Err e => Ret (Err e, w)
  | Ok mr =>
      if (newsize <? usable_region_size c) && negb can_shrink then Ret (Ok (c, mr), w)
      else Ret (Ok (upd_usable c newsize, mr), w)
  end.

(** The call of [virtio_mem_resize_usable_region] in [set_requested_size] and
    [set_resource]. *)
Definition resize (w : W) (m : Mem) : outcome (result unit DevError * Mem * W) :=
  let! (r, w) :=
    virtio_mem_resize_usable_region w (m_config m) false (m_alignment m)
      (if m_multi_region m then Some (m_map_regions m) else None) in
  match r with
  | Err e => Ret (Err e, m, w)
  | Ok (c, mr) =>
      let m := set_config m c in
      Ret (Ok tt, match mr with Some mr => set_map_regions m mr | None => m end, w)
  end.

(** ** Mem *)

Definition get_map_regions_num (size : Z) : Z :=
  Z.shiftr size VIRTIO_MEM_MAP_REGION_SHIFT +
  (if Z.land size VIRTIO_MEM_MAP_REGION_MASK >? 0 then 1 else 0).

Definition slot_num (m : Mem) : Z :=
  if m_multi_region m then get_map_regions_num (region_size (m_config m)) else 1.

(** [while bz > VIRTIO_MEM_DEFAULT_BLOCK_ALIGNMENT]: from 2 GiB down to 128 MiB,
    four turns at most. *)
Fixpoint block_align_loop (fuel : nat) (boot_mem_byte bz : Z) : outcome Z :=
  match fuel with
  | O => Panic
  | S fuel =>
      if bz >? VIRTIO_MEM_DEFAULT_BLOCK_ALIGNMENT then
        if Z.land boot_mem_byte (bz - 1) =? 0 then Ret bz
        else block_align_loop fuel boot_mem_byte (Z.shiftr bz 1)
      else Ret bz
  end.

Definition Mem_new (capacity requested_size_mib : Z) (multi_region : bool) (numa_node_id : option Z)
  (boot_mem_byte : Z) : outcome (result Mem DevError) :=
  let! alignment :=
    if boot_mem_byte <? BOOT_MEM_SIZE_FOR_LARGE_BLOCK then Ret VIRTIO_MEM_DEFAULT_BLOCK_ALIGNMENT
    else block_align_loop 5 boot_mem_byte MAX_MEMORY_BLOCK_SIZE in
  let! kib := mul_u u64_max capacity 1024 in
  let! capacity := mul_u u64_max kib 1024 in
  let! usable_extent := mul_u u64_max 2 alignment in
  let! x := add_u u64_max capacity usable_extent in
  let capacity := Z.land (x - 1) (u64_not (usable_extent - 1)) in
  let! kib := mul_u u64_max requested_size_mib 1024 in
  let! requested := mul_u u64_max kib 1024 in
  if (capacity =? 0) || (requested >? capacity) ||
     negb (requested mod VIRTIO_MEM_DEFAULT_BLOCK_SIZE =? 0)
  then Ret (Err InvalidInput) else
  let config := mkConfig VIRTIO_MEM_DEFAULT_BLOCK_SIZE (default 0 numa_node_id) 0 capacity 0 0 requested in
  let multi_region := if region_size config <=? VIRTIO_MEM_MAP_REGION_SIZE then false else multi_region in
  Ret (Ok (mkMem config capacity alignment multi_region [] None None None)).

Definition set_requested_size (w : W) (m : Mem) (requested_size_mb : Z) :
  outcome (result unit DevError * Mem * W) :=
  let! kib := mul_u u64_max requested_size_mb 1024 in
  let! requested := mul_u u64_max kib 1024 in
  if (requested >? m_capacity m) || negb (requested mod VIRTIO_MEM_DEFAULT_BLOCK_SIZE =? 0)
  then Ret (Err InvalidInput, m, w) else
  let m := set_config m (upd_requested (m_config m) requested) in
  let! (r, m, w) := resize w m in
  match r with
  | Err e => Ret (Err e, m, w)
  | Ok _ =>
      match notify_change w with
      | (Err e, w) => Ret (Err (NotifyError e), m, w)
      | (Ok _, w) => Ret (Ok tt, m, w)
      end
  end.

(** [set_resource], with the address ranges and memory slots of the resources. *)
Definition set_resource (w : W) (m : Mem) (mem_res : list (Z * Z)) (slot_res : list Z) :
  outcome (result unit DevError * Mem * W) :=
  match mem_res with
  | [] => Ret (Err InvalidResource, m, w)
  | (base, size) :: others =>
      if negb (Z.of_nat (length slot_res) =? slot_num m) || negb (bool_decide (others = [])) ||
         negb (size =? region_size (m_config m))
      then Ret (Err InvalidResource, m, w) else
      let m := set_config m (upd_addr (m_config m) base) in
      let! (r, m, w) :=
        if bool_decide (m_map_regions m = []) then
          if m_multi_region m then
            Ret (Ok tt, set_map_regions m ((fun slot => (slot, None)) <$> slot_res), w)
          else
            match slot_res with
            | [] => Panic
            | slot :: _ =>
                match create_region w base (region_size (m_config m)) slot with
                | (Err e, w) => Ret (Err (RegionError e), m, w)
                | (Ok host, w) => Ret (Ok tt, set_map_regions m [(slot, Some (host, base))], w)
                end
            end
        else Ret (Ok tt, m, w) in
      match r with
      | Err e => Ret (Err e, m, w)
      | Ok _ => resize w m
      end
  end.

(** [activate], as far as the blocks are concerned. *)
Definition Mem_activate (m : Mem) : outcome (result unit DevError * Mem) :=
  if negb (Z.of_nat (length (m_map_regions m)) =? slot_num m) then Ret (Err ActivateInternalError, m) else
  let! n := div_u (region_size (m_config m)) (block_size (m_config m)) in
  let '(mkMem a b c d e f g _) := m in
  Ret (Ok tt, mkMem a b c d e f None (Some (default (replicate (Z.to_nat n) false) g))).

(** ** The queue *)

Context {G : Type} `{MemGuest G}.

(** A request that has been parsed: the number of bytes written. *)
Definition handle_request (w : W) (mem : G) (m : Mem) (mem_state : list bool) (r : VirtioMemReq)
  (status_addr : Z) : outcome (Z * Mem * W * G * list HostCall) :=
  let c := m_config m in
  if (rq_type r =? VIRTIO_MEM_REQ_PLUG) || (rq_type r =? VIRTIO_MEM_REQ_UNPLUG) then
    let plug := rq_type r =? VIRTIO_MEM_REQ_PLUG in
    let! size := mul_u u64_max (rq_nb_blocks r) (block_size c) in
    let! (resp_type, mem_state, w, calls) := state_change w m mem_state (rq_addr r) size (rq_nb_blocks r) plug in
    let m := set_mem_state m mem_state in
    let! m :=
      if resp_type =? VIRTIO_MEM_RESP_ACK then
        let! plugged := if plug then add_u u64_max (plugged_size c) size else sub_u (plugged_size c) size in
        Ret (set_config m (upd_plugged c plugged))
      else Ret m in
    let '(len, mem) := send_response mem status_addr resp_type 0 in
    Ret (len, m, w, mem, calls)
  else if rq_type r =? VIRTIO_MEM_REQ_UNPLUG_ALL then
    let! (resp_type, mem_state, w, calls) := virtio_mem_unplug_all w m mem_state in
    let m := set_mem_state m mem_state in
    let m := if resp_type =? VIRTIO_MEM_RESP_ACK then set_config m (upd_plugged c 0) else m in
    let '(len, mem) := send_response mem status_addr resp_type 0 in
    Ret (len, m, w, mem, calls)
  else if rq_type r =? VIRTIO_MEM_REQ_STATE then
    let! (resp_type, resp_state) := virtio_mem_state_request c (rq_addr r) (rq_nb_blocks r) mem_state in
    let '(len, mem) := send_response mem status_addr resp_type resp_state in
    Ret (len, m, w, mem, [])
  else Ret (0, m, w, mem, []).

(** [process_queue] over the available chains: the used elements, in order. *)
Fixpoint process_queue (w : W) (mem : G) (m : Mem) (chains : list (Z * list Descriptor)) :
  outcome (list (Z * Z) * Mem * W * G * list HostCall) :=
  match chains with
  | [] => Ret ([], m, w, mem, [])
  | (head_index, chain) :: chains =>
      let! (len, m, w, mem, calls) :=
        match m_mem_state m, Request_parse chain mem with
        | Some mem_state, Ok (r, status_addr) => handle_request w mem m mem_state r status_addr
        | _, _ => Ret (0, m, w, mem, [])
        end in
      let! (used, m, w, mem, calls') := process_queue w mem m chains in
      Ret ((head_index, len) :: used, m, w, mem, calls ++ calls')
  end.
End Device.
