(* ===== verification/VirtioMemSpec.v ===== *)
(** Correctness of the virtio-mem device: the accounting of plugged blocks, the
    responses to the guest, and that only memory backing the guest's blocks is
    given back to the host. *)

From S2P Require Import Prelude VsockStream VsockPacket VirtioMem.

(** Arithmetic with division by constants. *)
Ltac dlia := Z.div_mod_to_equations; lia.

(** ** Bitmaps *)

Definition plugged_blocks (st : list bool) : Z := zlen (filter (fun b => b = true) st).

Lemma plugged_app x y : plugged_blocks (x ++ y) = plugged_blocks x + plugged_blocks y.
Proof. unfold plugged_blocks, zlen. rewrite filter_app, length_app. lia. Qed.

Lemma plugged_nonneg st : 0 <= plugged_blocks st.
Proof. unfold plugged_blocks, zlen. lia. Qed.

Lemma plugged_all st b : Forall (fun x => x = b) st -> plugged_blocks st = if b then zlen st else 0.
Proof.
  unfold plugged_blocks, zlen. induction 1 as [|x st -> _ IH]; [by destruct b|]. rewrite filter_cons.
  destruct b; simpl; [|done]. simpl in IH. lia.
Qed.

Lemma check_bitmap_ok i n st b :
  virtio_mem_check_bitmap i n st b = true <-> Forall (fun x => x = b) (ztake n (zdrop i st)).
Proof.
  unfold virtio_mem_check_bitmap. rewrite forallb_forall, Forall_forall. setoid_rewrite list_elem_of_In.
  split; intros Hf x Hx; [apply Bool.eqb_prop, Hf, Hx|apply Bool.eqb_true_iff, Hf, Hx].
Qed.

(** A list in three parts. *)
Lemma bitmap_split i n (st : list bool) :
  0 <= i -> 0 <= n -> i + n <= zlen st ->
  exists a b c, st = a ++ b ++ c /\ zlen a = i /\ zlen b = n /\
    ztake i st = a /\ ztake n (zdrop i st) = b /\ zdrop n (zdrop i st) = c.
Proof.
  unfold zlen, ztake, zdrop. intros Hi Hn Hl.
  exists (take (Z.to_nat i) st), (take (Z.to_nat n) (drop (Z.to_nat i) st)), (drop (Z.to_nat n) (drop (Z.to_nat i) st)).
  rewrite !take_drop, !length_take, length_drop. split_and!; [done|lia|lia|done..].
Qed.

(** What setting a range of the bitmap does. *)
Lemma set_bitmap_ok i n st b :
  0 <= i -> 0 <= n -> i + n <= zlen st ->
  virtio_mem_check_bitmap i n st (negb b) = true ->
  let st' := virtio_mem_set_bitmap i n st b in
  zlen st' = zlen st /\
  plugged_blocks st' = plugged_blocks st + (if b then n else - n) /\
  (forall k : nat, i <= Z.of_nat k < i + n -> st' !! k = Some b) /\
  (forall k : nat, ~ (i <= Z.of_nat k < i + n) -> st' !! k = st !! k).
Proof.
  intros Hi Hn Hl Hc. apply check_bitmap_ok in Hc.
  destruct (bitmap_split i n st Hi Hn Hl) as (x & y & z & Hst & Hx & Hy & Ex & Ey & Ez).
  unfold virtio_mem_set_bitmap. rewrite Ex, Ey, Ez. rewrite Ey in Hc. clear Ex Ey Ez. cbv zeta.
  assert (Hy' : zlen ((fun _ => b) <$> y) = n) by (unfold zlen in *; by rewrite length_fmap).
  assert (Hfb : Forall (fun q => q = b) ((fun _ => b) <$> y)) by (apply Forall_fmap, Forall_true; intros; reflexivity).
  rewrite Hst, !plugged_app, (plugged_all y (negb b) Hc), (plugged_all _ b Hfb).
  split_and!.
  - unfold zlen in *. rewrite !length_app, length_fmap. done.
  - rewrite Hy', Hy. destruct b; simpl; lia.
  - intros k Hk. unfold zlen in *. rewrite lookup_app_r by lia. rewrite lookup_app_l by (rewrite length_fmap; lia).
    destruct (lookup_lt_is_Some_2 y (k - length x)) as [q Hq]; [lia|]. by rewrite list_lookup_fmap, Hq.
  - intros k Hk. unfold zlen in *. destruct (decide (k < length x)%nat).
    + by rewrite !lookup_app_l by lia.
    + rewrite !(lookup_app_r x) by lia. rewrite !lookup_app_r by (rewrite ?length_fmap; lia). by rewrite length_fmap.
Qed.

(** ** What the host promises *)

Class MemHostLaws (W : Type) `{MemHost W} := {
  (** The host address that backs a guest address. *)
  backed : W -> Z -> option Z;
  (** A new region backs its guest addresses in order, at user addresses, and
      leaves the rest alone. *)
  create_region_ok w g len slot h w' : create_region w g len slot = (Ok h, w') ->
    (forall o, 0 <= o < len -> backed w' (g + o) = Some (h + o)) /\
    (forall a b, a < g \/ g + len <= a -> backed w a = Some b -> backed w' a = Some b) /\
    0 <= h /\ h + len <= 2 ^ 56;
  create_region_err w g len slot e w' : create_region w g len slot = (Err e, w') -> backed w' = backed w;
  (** Giving memory back and notifying keep the mapping. *)
  punch_hole_backed w fd off size : backed (punch_hole w fd off size).2 = backed w;
  madvise_backed w h size : backed (madvise_remove w h size).2 = backed w;
  notify_backed w : backed (notify_change w).2 = backed w;
}.

(** ** The invariant *)

Notation BLOCK := VIRTIO_MEM_DEFAULT_BLOCK_SIZE.
Notation PIECE := VIRTIO_MEM_MAP_REGION_SIZE.

Lemma BLOCK_val : BLOCK = 4194304.
Proof. done. Qed.
Lemma u64_max_val : u64_max = 18446744073709551615.
Proof. done. Qed.
Lemma PIECE_val : PIECE = 2147483648.
Proof. done. Qed.

Lemma shiftr_piece x : Z.shiftr x VIRTIO_MEM_MAP_REGION_SHIFT = x / PIECE.
Proof. by apply Z.shiftr_div_pow2. Qed.
Lemma shiftl_piece x : Z.shiftl x VIRTIO_MEM_MAP_REGION_SHIFT = x * PIECE.
Proof. by apply Z.shiftl_mul_pow2. Qed.
Lemma land_piece x : Z.land x VIRTIO_MEM_MAP_REGION_MASK = x mod PIECE.
Proof. change VIRTIO_MEM_MAP_REGION_MASK with (Z.ones 31). by apply Z.land_ones. Qed.

(** The fields of the configuration, within guest physical memory. *)
Record cfg_ok (m : Mem) : Prop := {
  c_block : block_size (m_config m) = BLOCK;
  c_cap : m_capacity m = region_size (m_config m);
  c_align : 0 <= m_alignment m <= PIECE;
  c_fd : m_host_fd m = None;
  c_saved : m_mem_state_map m = None;
  c_region : 0 < region_size (m_config m) /\ (BLOCK | region_size (m_config m));
  c_multi : m_multi_region m = true -> PIECE < region_size (m_config m);
  c_addr : 0 <= cfg_addr (m_config m) /\ (BLOCK | cfg_addr (m_config m));
  c_top : cfg_addr (m_config m) + region_size (m_config m) <= 2 ^ 52;
  c_usable : 0 <= usable_region_size (m_config m) <= region_size (m_config m) /\
             (BLOCK | usable_region_size (m_config m));
  c_requested : 0 <= requested_size (m_config m) <= region_size (m_config m);
  c_plugged : 0 <= plugged_size (m_config m) <= region_size (m_config m);
}.

(** The bitmap has a bit per block; the plugged blocks are within the usable
    region, and are counted. *)
Record state_ok (c : VirtioMemConfig) (st : list bool) : Prop := {
  s_len : zlen st * BLOCK = region_size c;
  s_count : plugged_blocks st * BLOCK <= plugged_size c;
  s_usable : forall k : nat, st !! k = Some true -> (Z.of_nat k + 1) * BLOCK <= usable_region_size c;
}.

(** [nb] blocks from [addr] on, all in the usable region. *)
Definition in_usable (c : VirtioMemConfig) (addr nb : Z) : bool :=
  (addr mod BLOCK =? 0) && (0 <? nb) && (cfg_addr c <=? addr) &&
  (addr + nb * BLOCK <=? cfg_addr c + usable_region_size c).

(** The blocks [i .. i + n) are all [b]. *)
Definition blocks_are (st : list bool) (i n : Z) (b : bool) : Prop :=
  forall k : nat, i <= Z.of_nat k < i + n -> st !! k = Some b.

(** [st'] is [st] with the blocks [i .. i + n) set to [b]. *)
Definition blocks_set (st : list bool) (i n : Z) (b : bool) (st' : list bool) : Prop :=
  zlen st' = zlen st /\ blocks_are st' i n b /\
  forall k : nat, ~ (i <= Z.of_nat k < i + n) -> st' !! k = st !! k.

Definition block_index (c : VirtioMemConfig) (addr : Z) : Z := (addr - cfg_addr c) / BLOCK.

Lemma check_bitmap_blocks i n st b :
  0 <= i -> 0 <= n -> i + n <= zlen st -> virtio_mem_check_bitmap i n st b = true <-> blocks_are st i n b.
Proof.
  intros Hi Hn Hl. rewrite check_bitmap_ok, Forall_lookup. unfold zlen, ztake, zdrop, blocks_are in *. split.
  - intros Hf k Hk. destruct (lookup_lt_is_Some_2 st k) as [x Hx]; [lia|]. rewrite Hx. f_equal.
    apply (Hf (k - Z.to_nat i)%nat). rewrite lookup_take_lt, lookup_drop by lia. rewrite <- Hx. f_equal. lia.
  - intros Hb k x Hx. apply lookup_take_Some in Hx as [Hx Hk]. rewrite lookup_drop, Hb in Hx by lia. by inversion Hx.
Qed.

Lemma valid_range_ok m addr nb :
  cfg_ok m -> 0 <= addr <= u64_max -> 0 <= nb < 2 ^ 16 ->
  virtio_mem_valid_range (m_config m) addr (nb * BLOCK) = Ret (in_usable (m_config m) addr nb).
Proof.
  intros Hc Ha Hn. destruct (c_addr _ Hc) as [? _]. destruct (c_usable _ Hc) as [? _]. pose proof (c_top _ Hc).
  unfold virtio_mem_valid_range, in_usable, rem_u. rewrite (c_block _ Hc), BLOCK_val, u64_max_val in *.
  change (4194304 =? 0) with false. cbn [obind]. rewrite Z_mod_mult. change (0 =? 0) with true.
  destruct (Z.eqb_spec (addr mod 4194304) 0); cbn [negb obind orb andb]; [|done].
  unfold checked_add.
  rewrite (add_u_ret _ (cfg_addr _)) by lia. cbn [obind].
  destruct (addr + _ <=? 18446744073709551615) eqn:?; [|f_equal; lia].
  destruct (nb * _ =? 0) eqn:?; [f_equal; lia|]. destruct (addr <? _) eqn:?; [f_equal; lia|].
  destruct (addr >=? _) eqn:?; [f_equal; lia|].
  rewrite add_u_ret by lia. cbn [obind]. f_equal. lia.
Qed.

Section Host.
Context {W : Type} `{MemHostLaws W}.

(** [size] bytes from guest address [a] on are backed from [h] on. *)
Definition range_backed (w : W) (a size h : Z) : Prop :=
  0 <= h /\ h + size <= 2 ^ 56 /\ forall o, 0 <= o < size -> backed w (a + o) = Some (h + o).

Definition piece_ok (w : W) (c : VirtioMemConfig) (i : Z) (p : option (Z * Z)) : Prop :=
  exists h, p = Some (h, cfg_addr c + i * PIECE) /\
    range_backed w (cfg_addr c + i * PIECE) (Z.min PIECE (region_size c - i * PIECE)) h.

(** The first [M] pieces are mapped, and the usable region lies in them. *)
Definition pieces_ok (w : W) (c : VirtioMemConfig) (mr : MapRegions) (M : nat) : Prop :=
  Z.of_nat (length mr) = get_map_regions_num (region_size c) /\ (M <= length mr)%nat /\
  forall i p, mr !! i = Some p -> if decide (i < M)%nat then piece_ok w c (Z.of_nat i) p.2 else p.2 = None.

Definition map_ok (w : W) (m : Mem) : Prop :=
  if m_multi_region m
  then exists M, pieces_ok w (m_config m) (m_map_regions m) M /\
         usable_region_size (m_config m) <= Z.of_nat M * PIECE
  else exists slot h, m_map_regions m = [(slot, Some (h, cfg_addr (m_config m)))] /\
         range_backed w (cfg_addr (m_config m)) (region_size (m_config m)) h.

Record mem_ok (w : W) (m : Mem) : Prop := {
  i_cfg : cfg_ok m;
  i_map : map_ok w m;
  i_state : forall st, m_mem_state m = Some st -> state_ok (m_config m) st;
}.

Lemma range_backed_sub w a size h o n :
  range_backed w a size h -> 0 <= o -> o + n <= size -> range_backed w (a + o) n (h + o).
Proof.
  intros (? & ? & Hb) ? ?. split; [lia|]. split; [lia|]. intros x Hx.
  rewrite <- !Z.add_assoc. apply Hb. lia.
Qed.

(** The translation of a range of the usable region: it is right, and fails only
    for a range over the border of a piece. *)
Definition crosses_piece (m : Mem) (off size : Z) : bool :=
  m_multi_region m && negb (off / PIECE =? (off + size - 1) / PIECE).

Lemma host_addr_of_ok w m off size :
  cfg_ok m -> map_ok w m -> 0 <= off -> 0 < size -> off + size <= usable_region_size (m_config m) ->
  if crosses_piece m off size then host_addr_of (m_multi_region m) (m_map_regions m) off size = Ret None
  else exists h, host_addr_of (m_multi_region m) (m_map_regions m) off size = Ret (Some h) /\
         range_backed w (cfg_addr (m_config m) + off) size h.
Proof.
  intros Hc Hm Hoff Hsize Hu. destruct (c_usable _ Hc) as [Hur _]. pose proof (c_top _ Hc). destruct (c_addr _ Hc) as [? _].
  unfold crosses_piece, host_addr_of, map_ok, pieces_ok, MapRegions in *. cbv zeta. rewrite !shiftr_piece. destruct (m_multi_region m); cbn [andb].
  - destruct Hm as (M & (Hlen & HM & Hp) & HuM).
    rewrite add_u_ret by (rewrite u64_max_val; lia). cbn [obind]. rewrite sub_u_ret by lia. cbn [obind].
    rewrite shiftr_piece, (Z.eqb_sym (off / PIECE)). destruct (Z.eqb_spec ((off + size - 1) / PIECE) (off / PIECE)) as [He|]; [|done].
    cbn [negb]. rewrite PIECE_val in *. set (i := off / 2147483648) in *.
    assert (Hi : 0 <= i < Z.of_nat M) by (subst i; dlia).
    destruct (lookup_lt_is_Some_2 (m_map_regions m) (Z.to_nat i)) as [[slot p] Hl]; [lia|]. rewrite Hl.
    specialize (Hp _ _ Hl). rewrite decide_True in Hp by lia. destruct Hp as (h & Hp & Hb). cbn [snd] in Hp. subst p.
    rewrite Z2Nat.id in Hb by lia. rewrite PIECE_val in Hb. pose proof (proj1 Hb). pose proof (proj1 (proj2 Hb)).
    rewrite land_piece, PIECE_val.
    rewrite add_u_ret by (rewrite u64_max_val; dlia). eexists. split; [reflexivity|].
    replace (cfg_addr (m_config m) + off) with (cfg_addr (m_config m) + i * 2147483648 + off mod 2147483648) by (subst i; dlia).
    rewrite (Z.add_comm _ h). eapply range_backed_sub; [exact Hb| |]; subst i; dlia.
  - destruct Hm as (slot & h & -> & Hb). cbn [lookup list_lookup]. pose proof (proj1 Hb). pose proof (proj1 (proj2 Hb)).
    rewrite add_u_ret by (rewrite u64_max_val; lia). eexists. split; [reflexivity|].
    eapply range_backed_sub; [exact Hb| |]; lia.
Qed.

(** ** Changing the state of blocks *)

(** The answer to a request for [nb] blocks from [addr] on: refused for the
    requested size, or for the range or the state of its blocks; else done, unless
    the host fails to take the memory back.  The host is asked only for memory
    that backs these blocks. *)
Definition change_refused (m : Mem) (st : list bool) (addr nb : Z) (plug : bool) : Prop :=
  in_usable (m_config m) addr nb = false \/
  ~ blocks_are st (block_index (m_config m) addr) nb (negb plug) \/
  crosses_piece m (addr - cfg_addr (m_config m)) (nb * BLOCK) = true.

Definition change_spec (w : W) (m : Mem) (st : list bool) (addr nb : Z) (plug : bool)
  (resp : Z) (st' : list bool) (w' : W) (calls : list HostCall) : Prop :=
  let c := m_config m in
  let over := plug && (requested_size c <? plugged_size c + nb * BLOCK) in
  (over = true /\ resp = VIRTIO_MEM_RESP_NACK /\ st' = st /\ w' = w /\ calls = []) \/
  (over = false /\ change_refused m st addr nb plug /\
     resp = VIRTIO_MEM_RESP_ERROR /\ st' = st /\ w' = w /\ calls = []) \/
  (over = false /\ ~ change_refused m st addr nb plug /\
   if plug
   then resp = VIRTIO_MEM_RESP_ACK /\ blocks_set st (block_index c addr) nb true st' /\ w' = w /\ calls = []
   else exists h, range_backed w addr (nb * BLOCK) h /\ calls = [MadviseRemove h (nb * BLOCK)] /\
          exists ok, madvise_remove w h (nb * BLOCK) = (ok, w') /\
          if ok : bool then resp = VIRTIO_MEM_RESP_ACK /\ blocks_set st (block_index c addr) nb false st'
          else resp = VIRTIO_MEM_RESP_ERROR /\ st' = st).

(** The blocks of a range of the usable region are in the bitmap. *)
Lemma in_usable_blocks m st addr nb :
  cfg_ok m -> state_ok (m_config m) st -> in_usable (m_config m) addr nb = true ->
  let off := addr - cfg_addr (m_config m) in
  let i := block_index (m_config m) addr in
  0 <= off /\ off = i * BLOCK /\ 0 <= i /\ 0 < nb /\ off + nb * BLOCK <= usable_region_size (m_config m) /\
  i + nb <= zlen st.
Proof.
  intros Hc Hs Hu. unfold in_usable in Hu. bools. destruct (c_addr _ Hc) as [? [q Hq]]. destruct (c_usable _ Hc) as [? _].
  pose proof (s_len _ _ Hs). unfold block_index. cbv zeta. rewrite BLOCK_val in *.
  dlia.
Qed.

(** The comparison with the requested size does not overflow. *)
Lemma over_requested_ok {A} m nb plug (k : Z -> outcome A) (a b : outcome A) :
  cfg_ok m -> 0 <= nb < 2 ^ 16 ->
  (forall t, k t = if plug && (t >? requested_size (m_config m)) then a else b) ->
  (let! t := if plug : bool then add_u u64_max (plugged_size (m_config m)) (nb * BLOCK) else Ret 0 in k t) =
  if plug && (requested_size (m_config m) <? plugged_size (m_config m) + nb * BLOCK) then a else b.
Proof.
  intros Hc Hn Hk. pose proof (c_plugged _ Hc). pose proof (c_top _ Hc). destruct (c_addr _ Hc) as [? _].
  destruct plug; [rewrite add_u_ret by (rewrite u64_max_val, BLOCK_val; lia)|]; cbn [obind]; rewrite Hk; [|done].
  by rewrite Z.gtb_ltb.
Qed.

(** The last step, once the host address is known. *)
Lemma change_effect w m st addr nb plug h :
  cfg_ok m -> state_ok (m_config m) st -> 0 <= nb -> 
  plug && (requested_size (m_config m) <? plugged_size (m_config m) + nb * BLOCK) = false ->
  ~ change_refused m st addr nb plug -> range_backed w addr (nb * BLOCK) h ->
  exists resp st' w' calls,
    (let '(ok, w, calls) :=
       if plug then (true, w, []) else discard w (m_host_fd m) (addr - cfg_addr (m_config m)) h (nb * BLOCK) in
     if negb ok then Ret (VIRTIO_MEM_RESP_ERROR, st, w, calls) else
     Ret (VIRTIO_MEM_RESP_ACK, virtio_mem_set_bitmap (block_index (m_config m) addr) nb st plug, w, calls)) =
    Ret (resp, st', w', calls) /\
    change_spec w m st addr nb plug resp st' w' calls.
Proof.
  intros Hc Hs Hn Hover Hr Hb. unfold change_spec. rewrite Hover. cbv zeta.
  assert (Hu : in_usable (m_config m) addr nb = true).
  { destruct (in_usable _ _ _) eqn:Hu; [done|]. destruct Hr. by left. }
  destruct (in_usable_blocks m st addr nb Hc Hs Hu) as (? & Hoff & ? & ? & ? & ?).
  assert (Hset : blocks_set st (block_index (m_config m) addr) nb plug
                   (virtio_mem_set_bitmap (block_index (m_config m) addr) nb st plug)).
  { destruct (virtio_mem_check_bitmap (block_index (m_config m) addr) nb st (negb plug)) eqn:Hk.
    - destruct (set_bitmap_ok _ _ _ _ ltac:(eassumption) Hn ltac:(eassumption) Hk) as (? & _ & ? & ?). by split_and!.
    - destruct Hr. right. left. rewrite <- check_bitmap_blocks, Hk by lia. done. }
  destruct plug.
  { do 4 eexists. split; [reflexivity|]. right. right. by split_and!. }
  unfold discard. rewrite (c_fd _ Hc). cbn [negb app].
  destruct (madvise_remove w h (nb * BLOCK)) as [ok w'] eqn:Hmad.
  destruct ok; cbn [negb]; do 4 eexists; (split; [reflexivity|]); right; right; (split; [done|]); (split; [done|]);
    exists h; (split; [done|]); (split; [done|]); eexists; (split; [exact Hmad|done]).
Qed.

Lemma state_change_ok w m st addr nb plug :
  cfg_ok m -> map_ok w m -> state_ok (m_config m) st -> 0 <= addr <= u64_max -> 0 <= nb < 2 ^ 16 ->
  exists resp st' w' calls,
    state_change w m st addr (nb * BLOCK) nb plug = Ret (resp, st', w', calls) /\
    change_spec w m st addr nb plug resp st' w' calls.
Proof.
  intros Hc Hm Hs Ha Hn. unfold state_change. cbv zeta.
  erewrite over_requested_ok by (done || intros t; reflexivity).
  set (over := plug && (_ <? _)). destruct over eqn:Hover; subst over.
  { do 4 eexists. split; [reflexivity|]. left. by rewrite Hover. }
  assert (Hrefuse : change_refused m st addr nb plug ->
    change_spec w m st addr nb plug VIRTIO_MEM_RESP_ERROR st w []) by (intros; right; left; by rewrite Hover).
  rewrite (valid_range_ok m) by done. cbn [obind].
  destruct (in_usable (m_config m) addr nb) eqn:Hu; cbn [negb].
  2:{ do 4 eexists. split; [reflexivity|]. apply Hrefuse. by left. }
  destruct (in_usable_blocks m st addr nb Hc Hs Hu) as (? & Hoff & ? & ? & ? & ?).
  rewrite sub_u_ret by lia. cbn [obind]. rewrite (c_block _ Hc). unfold div_u. change (BLOCK =? 0) with false. cbn [obind].
  fold (block_index (m_config m) addr).
  destruct (virtio_mem_check_bitmap _ _ _ _) eqn:Hb; cbn [negb].
  2:{ do 4 eexists. split; [reflexivity|]. apply Hrefuse. right. left. rewrite <- check_bitmap_blocks, Hb by lia. done. }
  pose proof (host_addr_of_ok w m (addr - cfg_addr (m_config m)) (nb * BLOCK) Hc Hm) as Hh.
  specialize (Hh ltac:(lia) ltac:(rewrite BLOCK_val; lia) ltac:(lia)).
  destruct (crosses_piece _ _ _) eqn:Hx.
  { rewrite Hh. cbn [obind]. do 4 eexists. split; [reflexivity|]. apply Hrefuse. by right; right. }
  destruct Hh as (h & -> & Hrb). cbn [obind].
  apply change_effect; [done..|lia|done| |].
  - intros [?|[Hnb|?]]; [congruence| |congruence]. by rewrite <- check_bitmap_blocks in Hnb by lia.
  - by replace addr with (cfg_addr (m_config m) + (addr - cfg_addr (m_config m))) by lia.
Qed.
End Host.
