(* ===== verification/VirtioMemRequests.v ===== *)
(** The requests of the guest to the virtio-mem device: unplugging everything,
    asking for the state, and what each request does to the device.

    The size of the virtio-mem device: creating it, giving it its resources, and
    growing the usable region with the pieces that back it. *)

From S2P Require Import Prelude VsockStream VsockPacket VirtioMem VirtioMemSpec.

(** ** The accounting of plugged blocks *)

Lemma blocks_set_bitmap st i n b st' :
  0 <= i -> 0 <= n -> i + n <= zlen st -> blocks_are st i n (negb b) -> blocks_set st i n b st' ->
  st' = virtio_mem_set_bitmap i n st b.
Proof.
  intros Hi Hn Hl Hb (_ & Hin & Hout). rewrite <- check_bitmap_blocks in Hb by done.
  destruct (set_bitmap_ok i n st b Hi Hn Hl Hb) as (_ & _ & Hin' & Hout').
  apply list_eq. intros k. destruct (decide (i <= Z.of_nat k < i + n)); [by rewrite Hin, Hin'|by rewrite Hout, Hout'].
Qed.

Lemma blocks_set_count st i n b st' :
  0 <= i -> 0 <= n -> i + n <= zlen st -> blocks_are st i n (negb b) -> blocks_set st i n b st' ->
  plugged_blocks st' = plugged_blocks st + (if b then n else - n).
Proof.
  intros Hi Hn Hl Hb Hs. rewrite (blocks_set_bitmap st i n b st') by done.
  apply set_bitmap_ok; [done..|]. by rewrite check_bitmap_blocks.
Qed.

(** The size after an acknowledged request. *)
Definition plugged_after (c : VirtioMemConfig) (nb : Z) (plug : bool) : Z :=
  if plug then plugged_size c + nb * BLOCK else plugged_size c - nb * BLOCK.

Lemma upd_plugged_ok m p : cfg_ok m -> 0 <= p <= region_size (m_config m) -> cfg_ok (set_config m (upd_plugged (m_config m) p)).
Proof. intros [] ?. by destruct m as [[]]. Qed.

Lemma upd_plugged_fields c p :
  cfg_addr (upd_plugged c p) = cfg_addr c /\ region_size (upd_plugged c p) = region_size c /\
  usable_region_size (upd_plugged c p) = usable_region_size c /\ plugged_size (upd_plugged c p) = p /\
  requested_size (upd_plugged c p) = requested_size c.
Proof. by destruct c. Qed.

(** Changing the state of free blocks keeps the bitmap in order, and the size in
    step with it. *)
Lemma change_state_ok m st addr nb plug st' :
  cfg_ok m -> state_ok (m_config m) st -> 0 <= nb ->
  plug && (requested_size (m_config m) <? plugged_size (m_config m) + nb * BLOCK) = false ->
  ~ change_refused m st addr nb plug -> blocks_set st (block_index (m_config m) addr) nb plug st' ->
  0 <= plugged_after (m_config m) nb plug <= region_size (m_config m) /\
  plugged_after (m_config m) nb plug - plugged_blocks st' * BLOCK = plugged_size (m_config m) - plugged_blocks st * BLOCK /\
  state_ok (upd_plugged (m_config m) (plugged_after (m_config m) nb plug)) st'.
Proof.
  intros Hc Hs Hn Hover Hr Hset. destruct (in_usable (m_config m) addr nb) eqn:Hu; [|destruct Hr; by left].
  destruct (in_usable_blocks m st addr nb Hc Hs Hu) as (? & Hoff & ? & ? & ? & ?).
  destruct (decide (virtio_mem_check_bitmap (block_index (m_config m) addr) nb st (negb plug) = true)) as [Hb|Hb];
    rewrite check_bitmap_blocks in Hb by lia; [|destruct Hr; by right; left].
  pose proof (blocks_set_count _ _ _ _ _ ltac:(eassumption) Hn ltac:(eassumption) Hb Hset) as Hcount.
  pose proof (s_count _ _ Hs). pose proof (plugged_nonneg st'). pose proof (c_plugged _ Hc). pose proof (c_requested _ Hc).
  unfold plugged_after. destruct (upd_plugged_fields (m_config m)
    (if plug then plugged_size (m_config m) + nb * BLOCK else plugged_size (m_config m) - nb * BLOCK)) as (E1 & E2 & E3 & E4 & _).
  rewrite BLOCK_val in *. destruct Hset as (Hlen & Hin & Hout).
  split; [destruct plug; bools; lia|]. split; [destruct plug; lia|]. constructor; rewrite ?E1, ?E2, ?E3, ?E4.
  - rewrite Hlen. apply Hs.
  - rewrite Hcount. destruct plug; rewrite BLOCK_val; lia.
  - intros k Hk. destruct (decide (block_index (m_config m) addr <= Z.of_nat k < block_index (m_config m) addr + nb)).
    + rewrite BLOCK_val. lia.
    + rewrite Hout in Hk by done. by apply (s_usable _ _ Hs).
Qed.

Section Requests.
Context {W : Type} `{MemHostLaws W}.

(** What the map of regions says depends on the mapping only. *)
Lemma map_ok_backed (w w' : W) m : backed w' = backed w -> map_ok w m -> map_ok w' m.
Proof. unfold map_ok, pieces_ok, piece_ok, range_backed. by intros ->. Qed.

Lemma map_ok_plugged (w : W) m p : map_ok w m -> map_ok w (set_config m (upd_plugged (m_config m) p)).
Proof. by destruct m as [[]]. Qed.

Lemma map_ok_state (w : W) m st : map_ok w m -> map_ok w (set_mem_state m st).
Proof. by destruct m as [[]]. Qed.

Lemma change_spec_backed (w : W) m st addr nb plug resp st' w' calls :
  change_spec w m st addr nb plug resp st' w' calls -> backed w' = backed w.
Proof.
  intros [(_ & _ & _ & -> & _)|[(_ & _ & _ & _ & -> & _)|(_ & _ & Hs)]]; [done..|].
  destruct plug; [by destruct Hs as (_ & _ & -> & _)|].
  destruct Hs as (h & _ & _ & ok & Hm & _). change w' with (ok, w').2. rewrite <- Hm. apply madvise_backed.
Qed.

(** ** Unplugging everything *)

(** A call gives back the memory of a block that was plugged. *)
Definition block_call (w : W) (m : Mem) (st : list bool) (call : HostCall) : Prop :=
  exists (k : nat) h, st !! k = Some true /\
    range_backed w (cfg_addr (m_config m) + Z.of_nat k * BLOCK) BLOCK h /\ call = MadviseRemove h BLOCK.

Definition unplug_all_spec (w : W) (m : Mem) (x : nat) (st : list bool) (resp : Z) (st' : list bool) (w' : W)
  (calls : list HostCall) : Prop :=
  backed w' = backed w /\ state_ok (m_config m) st' /\ Forall (block_call w m st) calls /\
  (forall k, st' !! k = Some true -> st !! k = Some true) /\
  (resp = VIRTIO_MEM_RESP_ACK /\ (forall k, (x <= k)%nat -> st' !! k <> Some true) \/
   resp = VIRTIO_MEM_RESP_ERROR /\
   exists w0 h calls0, calls = calls0 ++ [MadviseRemove h BLOCK] /\ (madvise_remove w0 h BLOCK).1 = false).

(** A plugged block is always in the usable region and within one piece. *)
Lemma block_in_usable m st (k : nat) :
  cfg_ok m -> state_ok (m_config m) st -> st !! k = Some true ->
  let addr := cfg_addr (m_config m) + Z.of_nat k * BLOCK in
  in_usable (m_config m) addr 1 = true /\ block_index (m_config m) addr = Z.of_nat k /\
  crosses_piece m (addr - cfg_addr (m_config m)) (1 * BLOCK) = false /\ addr <= u64_max.
Proof.
  intros Hc Hs Hk. pose proof (s_usable _ _ Hs _ Hk). pose proof (c_top _ Hc). destruct (c_addr _ Hc) as [? [q Hq]].
  destruct (c_usable _ Hc) as [? _]. unfold in_usable, block_index, crosses_piece. cbv zeta.
  rewrite BLOCK_val, PIECE_val, u64_max_val in *. split_and!.
  - rewrite Hq, <- Z.mul_add_distr_r, Z_mod_mult. lia.
  - dlia.
  - destruct (m_multi_region m); cbn [andb]; [|done]. dlia.
  - lia.
Qed.

(** One turn of the loop on a plugged block. *)
Lemma unplug_block w m st (k : nat) :
  cfg_ok m -> map_ok w m -> state_ok (m_config m) st -> st !! k = Some true ->
  exists resp st' w' h,
    state_change w m st (cfg_addr (m_config m) + Z.of_nat k * BLOCK) BLOCK 1 false =
      Ret (resp, st', w', [MadviseRemove h BLOCK]) /\
    range_backed w (cfg_addr (m_config m) + Z.of_nat k * BLOCK) BLOCK h /\ backed w' = backed w /\
    (resp = VIRTIO_MEM_RESP_ACK /\ state_ok (m_config m) st' /\ blocks_set st (Z.of_nat k) 1 false st' \/
     resp = VIRTIO_MEM_RESP_ERROR /\ st' = st /\ (madvise_remove w h BLOCK).1 = false).
Proof.
  intros Hc Hm Hs Hk. destruct (block_in_usable m st k Hc Hs Hk) as (Hu & Hi & Hx & Ha). destruct (c_addr _ Hc) as [? _].
  destruct (state_change_ok w m st (cfg_addr (m_config m) + Z.of_nat k * BLOCK) 1 false) as (resp & st' & w' & calls & Hsc & Hspec);
    [done..| |done|]; [rewrite BLOCK_val in *; lia|].
  pose proof (change_spec_backed _ _ _ _ _ _ _ _ _ _ Hspec) as Hbk.
  change (1 * BLOCK) with BLOCK in Hsc. rewrite Hsc.
  assert (Hnr : ~ change_refused m st (cfg_addr (m_config m) + Z.of_nat k * BLOCK) 1 false).
  { intros [?|[Hnb|?]]; [congruence| |congruence]. apply Hnb. rewrite Hi. intros j Hj.
    by replace j with k by lia. }
  destruct Hspec as [(? & _)|[(_ & ? & _)|(_ & _ & h & Hrb & -> & ok & Hmad & Hok)]]; [done..|].
  exists resp, st', w', h. split; [done|]. split; [done|]. split; [done|]. destruct ok; [left|right].
  - destruct Hok as [-> Hset]. split; [done|].
    destruct (change_state_ok m st _ 1 false st' Hc Hs ltac:(lia) eq_refl Hnr Hset) as (_ & Hd & Hs').
    rewrite Hi in Hset. split; [|done]. destruct Hs' as [E1 E2 E3]. unfold plugged_after in *. rewrite BLOCK_val in *.
    destruct (m_config m). constructor; [exact E1| |exact E3]. simpl in *. rewrite BLOCK_val in *. lia.
  - destruct Hok as [-> ->]. by change BLOCK with (1 * BLOCK) at 1; rewrite Hmad.
Qed.

Lemma block_addr_ok m st (k : nat) :
  cfg_ok m -> state_ok (m_config m) st -> st !! k = Some true ->
  (let! off := mul_u u64_max (Z.of_nat k) (block_size (m_config m)) in add_u u64_max (cfg_addr (m_config m)) off) =
  Ret (cfg_addr (m_config m) + Z.of_nat k * BLOCK).
Proof.
  intros Hc Hs Hk. destruct (block_in_usable m st k Hc Hs Hk) as (_ & _ & _ & Ha). destruct (c_addr _ Hc) as [? _].
  rewrite (c_block _ Hc). unfold mul_u. rewrite (proj2 (Z.leb_le _ _)) by lia. cbn [obind]. by apply add_u_ret.
Qed.

Lemma unplug_all_loop_ok n (x : nat) w m st :
  cfg_ok m -> map_ok w m -> state_ok (m_config m) st -> (x + n = length st)%nat ->
  exists resp st' w' calls,
    unplug_all_loop n (Z.of_nat x) w m st = Ret (resp, st', w', calls) /\
    unplug_all_spec w m x st resp st' w' calls.
Proof.
  intros Hc. revert x w st. induction n as [|n IH]; intros x w st Hm Hs Hl; cbn [unplug_all_loop].
  { do 4 eexists. split; [reflexivity|]. split; [done|]. split; [done|]. split; [done|]. split; [done|]. left. split; [done|].
    intros k Hk. by rewrite lookup_ge_None_2 by lia. }
  rewrite Nat2Z.id. destruct (lookup_lt_is_Some_2 st x) as [b Hb]; [lia|]. rewrite Hb.
  replace (Z.of_nat x + 1) with (Z.of_nat (S x)) by lia. destruct b.
  2:{ destruct (IH (S x) w st Hm Hs) as (resp & st' & w' & calls & -> & ? & ? & ? & Hsub & Hr); [lia|].
      do 4 eexists. split; [reflexivity|]. do 4 (split; [done|]). destruct Hr as [[-> Hr]|Hr]; [left|by right].
      split; [done|]. intros k Hk. destruct (decide (k = x)) as [->|]; [|apply Hr; lia].
      intros Ht. apply Hsub in Ht. congruence. }
  pose proof (block_addr_ok m st x Hc Hs Hb) as Ha. apply obind_ret in Ha as (off & -> & Ha). cbn [obind]. rewrite Ha. cbn [obind].
  rewrite (c_block _ Hc).
  destruct (unplug_block w m st x Hc Hm Hs Hb) as (resp & st1 & w1 & h & -> & Hrb & Hbk & Hr). cbn [obind].
  assert (Hcall : block_call w m st (MadviseRemove h BLOCK)) by (by exists x, h).
  destruct Hr as [(-> & Hs1 & Hl1 & Hin & Hout)|(-> & -> & Hmad)].
  2:{ cbn. do 4 eexists. split; [reflexivity|]. split; [done|]. split; [done|]. split; [by apply Forall_singleton|].
      split; [done|]. right. split; [done|]. by exists w, h, []. }
  change (VIRTIO_MEM_RESP_ACK =? VIRTIO_MEM_RESP_ACK) with true. cbn [negb].
  rewrite list_insert_id by (apply Hin; lia). unfold zlen in Hl1.
  assert (Hsub1 : forall k, st1 !! k = Some true -> st !! k = Some true).
  { intros k Hk. destruct (decide (k = x)) as [->|]; [by rewrite Hin in Hk by lia|]. by rewrite <- Hout by lia. }
  destruct (IH (S x) w1 st1) as (resp & st' & w' & calls & -> & Hbk' & Hs' & Hcs & Hsub & Hr); [by eapply map_ok_backed|done|lia|].
  cbn [obind]. do 4 eexists. split; [reflexivity|]. split; [congruence|]. split; [done|]. split.
  { apply Forall_app. split; [by apply Forall_singleton|]. eapply Forall_impl; [exact Hcs|].
    intros call (k & h' & Hk & Hrb' & ->). exists k, h'. split; [by apply Hsub1|]. split; [|done].
    unfold range_backed in *. by rewrite <- Hbk. }
  split; [by auto|]. destruct Hr as [[-> Hr]|(-> & w0 & h0 & calls0 & -> & Hmad)]; [left|right].
  - split; [done|]. intros k Hk. destruct (decide (k = x)) as [->|]; [|apply Hr; lia].
    intros Ht. apply Hsub in Ht. by rewrite Hin in Ht by lia.
  - split; [done|]. exists w0, h0, (MadviseRemove h BLOCK :: calls0). done.
Qed.

Lemma unplug_all_ok w m st :
  cfg_ok m -> map_ok w m -> state_ok (m_config m) st ->
  exists resp st' w' calls,
    virtio_mem_unplug_all w m st = Ret (resp, st', w', calls) /\
    unplug_all_spec w m 0 st resp st' w' calls.
Proof.
  intros Hc Hm Hs. unfold virtio_mem_unplug_all, div_u. rewrite (c_block _ Hc).
  change (BLOCK =? 0) with false. cbn [obind]. apply (unplug_all_loop_ok _ 0); [done..|].
  pose proof (s_len _ _ Hs) as Hl. rewrite <- Hl, Z.div_mul by done. unfold zlen. lia.
Qed.

(** ** The state of blocks *)

Definition state_spec (m : Mem) (st : list bool) (addr nb resp state : Z) : Prop :=
  let i := block_index (m_config m) addr in
  if in_usable (m_config m) addr nb
  then resp = VIRTIO_MEM_RESP_ACK /\
       (state = VIRTIO_MEM_STATE_PLUGGED /\ blocks_are st i nb true \/
        state = VIRTIO_MEM_STATE_UNPLUGGED /\ blocks_are st i nb false \/
        state = VIRTIO_MEM_STATE_MIXED /\ ~ blocks_are st i nb true /\ ~ blocks_are st i nb false)
  else resp = VIRTIO_MEM_RESP_ERROR.

Lemma state_request_ok m st addr nb :
  cfg_ok m -> state_ok (m_config m) st -> cfg_addr (m_config m) <= addr <= u64_max -> 0 <= nb < 2 ^ 16 ->
  exists resp state,
    virtio_mem_state_request (m_config m) addr nb st = Ret (resp, state) /\ state_spec m st addr nb resp state.
Proof.
  intros Hc Hs Ha Hn. destruct (c_addr _ Hc) as [? _]. unfold virtio_mem_state_request, mul_u. rewrite (c_block _ Hc).
  rewrite (proj2 (Z.leb_le (nb * BLOCK) _)) by (rewrite BLOCK_val, u64_max_val; lia). cbn [obind].
  rewrite (valid_range_ok m) by (done || lia). cbn [obind]. rewrite sub_u_ret by lia. unfold div_u.
  change (BLOCK =? 0) with false. cbn [obind]. fold (block_index (m_config m) addr).
  do 2 eexists. split; [reflexivity|]. unfold state_spec. destruct (in_usable (m_config m) addr nb) eqn:Hu; [|done].
  split; [done|]. destruct (in_usable_blocks m st addr nb Hc Hs Hu) as (? & ? & ? & ? & ? & ?).
  destruct (virtio_mem_check_bitmap _ _ _ true) eqn:Ht.
  { left. split; [done|]. by apply check_bitmap_blocks in Ht; [|lia..]. }
  destruct (virtio_mem_check_bitmap _ _ _ false) eqn:Hf.
  { right; left. split; [done|]. by apply check_bitmap_blocks in Hf; [|lia..]. }
  right; right. split; [done|]. rewrite <- !check_bitmap_blocks, Ht, Hf by lia. done.
Qed.

(** ** Requests *)

Context {G : Type} `{MemGuest G}.

Definition req_ok (r : VirtioMemReq) : Prop := 0 <= rq_addr r <= u64_max /\ 0 <= rq_nb_blocks r < 2 ^ 16.

Definition known_request (r : VirtioMemReq) : bool := (0 <=? rq_type r) && (rq_type r <=? VIRTIO_MEM_REQ_STATE).

(** The size in the configuration is that of the blocks, but for what a failed
    [UNPLUG_ALL] left behind. *)
Definition slack (m : Mem) (st : list bool) : Z := plugged_size (m_config m) - plugged_blocks st * BLOCK.

(** The device after a request: the new bitmap and the new plugged size. *)
Definition with_blocks (m : Mem) (st : list bool) (plugged : Z) : Mem :=
  set_config (set_mem_state m st) (upd_plugged (m_config m) plugged).

Definition request_spec (w : W) (m : Mem) (st : list bool) (r : VirtioMemReq)
  (resp state : Z) (m' : Mem) (w' : W) (calls : list HostCall) : Prop :=
  let c := m_config m in
  let acked (x : Z) := if resp =? VIRTIO_MEM_RESP_ACK then x else plugged_size c in
  if rq_type r =? VIRTIO_MEM_REQ_STATE
  then state_spec m st (rq_addr r) (rq_nb_blocks r) resp state /\ m' = m /\ w' = w /\ calls = []
  else state = 0 /\ exists st',
    if rq_type r =? VIRTIO_MEM_REQ_UNPLUG_ALL
    then unplug_all_spec w m 0 st resp st' w' calls /\ m' = with_blocks m st' (acked 0)
    else let plug := rq_type r =? VIRTIO_MEM_REQ_PLUG in
      change_spec w m st (rq_addr r) (rq_nb_blocks r) plug resp st' w' calls /\
      m' = with_blocks m st' (acked (plugged_after c (rq_nb_blocks r) plug)) /\ slack m' st' = slack m st.

Lemma with_blocks_ok w w' m st p :
  mem_ok w m -> backed w' = backed w -> 0 <= p <= region_size (m_config m) -> state_ok (upd_plugged (m_config m) p) st ->
  mem_ok w' (with_blocks m st p).
Proof.
  intros [Hc Hm _] Hb Hp Hs. unfold with_blocks. constructor.
  - pose proof (upd_plugged_ok m p Hc Hp) as Hk. destruct m as [[]]. by destruct Hk.
  - apply (map_ok_backed w); [done|]. by destruct m as [[]].
  - intros st0. destruct m as [[]]. simpl. by intros [= ->].
Qed.

Lemma with_blocks_same m st : with_blocks m st (plugged_size (m_config m)) = set_mem_state m st.
Proof. by destruct m as [[]]. Qed.

Lemma upd_plugged_same c : upd_plugged c (plugged_size c) = c.
Proof. by destruct c. Qed.

Lemma set_config_blocks m st p : set_config (set_mem_state m st) (upd_plugged (m_config m) p) = with_blocks m st p.
Proof. done. Qed.

(** After a change of blocks, acknowledged or not. *)
Lemma change_spec_after w m st addr nb plug resp st' w' calls :
  mem_ok w m -> state_ok (m_config m) st -> 0 <= nb -> change_spec w m st addr nb plug resp st' w' calls ->
  let p := if resp =? VIRTIO_MEM_RESP_ACK then plugged_after (m_config m) nb plug else plugged_size (m_config m) in
  (0 <= p <= region_size (m_config m)) /\ mem_ok w' (with_blocks m st' p) /\ slack (with_blocks m st' p) st' = slack m st.
Proof.
  intros Hok Hs Hn Hspec. pose proof (change_spec_backed _ _ _ _ _ _ _ _ _ _ Hspec) as Hbk. pose proof (c_plugged _ (i_cfg _ _ Hok)).
  assert (Hsame : forall p, p = plugged_size (m_config m) ->
    (0 <= p <= region_size (m_config m)) /\ mem_ok w' (with_blocks m st p) /\ slack (with_blocks m st p) st = slack m st).
  { intros p ->. split; [done|]. split; [apply (with_blocks_ok w); [done..|by rewrite upd_plugged_same]|by destruct m as [[]]]. }
  destruct Hspec as [(_ & -> & -> & _)|[(_ & _ & -> & -> & _)|(Hover & Hnr & Hdone)]]; cbv zeta; [by apply Hsame..|].
  assert (Hset : blocks_set st (block_index (m_config m) addr) nb plug st' ->
    (0 <= plugged_after (m_config m) nb plug <= region_size (m_config m)) /\
    mem_ok w' (with_blocks m st' (plugged_after (m_config m) nb plug)) /\
    slack (with_blocks m st' (plugged_after (m_config m) nb plug)) st' = slack m st).
  { intros Hset. destruct (change_state_ok m st addr nb plug st' (i_cfg _ _ Hok) Hs Hn Hover Hnr Hset) as (Hp & Hd & Hs').
    split; [done|]. split; [by apply (with_blocks_ok w)|]. unfold slack. rewrite <- Hd. by destruct m as [[]]. }
  destruct plug; [destruct Hdone as (-> & Hb & _); by apply Hset|].
  destruct Hdone as (h & _ & _ & [|] & _ & Hdone); [destruct Hdone as [-> Hb]; by apply Hset|].
  destruct Hdone as [-> ->]. by apply Hsame.
Qed.

Lemma state_ok_zero c st st' :
  state_ok c st -> (forall k, st' !! k <> Some true) -> zlen st' * BLOCK = region_size c -> state_ok (upd_plugged c 0) st'.
Proof.
  intros Hs Hz Hl. destruct (upd_plugged_fields c 0) as (_ & E2 & E3 & E4 & _). constructor; rewrite ?E2, ?E3, ?E4.
  - done.
  - rewrite (plugged_all st' false); [done|]. apply Forall_lookup. intros i [|] Hi; [by apply Hz in Hi|done].
  - intros k Hk. by apply Hz in Hk.
Qed.

Lemma unplug_all_after w m st resp st' w' calls :
  mem_ok w m -> state_ok (m_config m) st -> unplug_all_spec w m 0 st resp st' w' calls ->
  mem_ok w' (with_blocks m st' (if resp =? VIRTIO_MEM_RESP_ACK then 0 else plugged_size (m_config m))).
Proof.
  intros Hok Hs (Hb & Hs' & _ & _ & Hr). pose proof (c_plugged _ (i_cfg _ _ Hok)).
  destruct Hr as [[-> Hz]|[-> _]].
  - cbn. apply (with_blocks_ok w); [done..|lia|]. apply (state_ok_zero _ st); [done| |apply Hs']. intros k. apply Hz. lia.
  - change (_ =? _) with false. apply (with_blocks_ok w); [done..|]. by rewrite upd_plugged_same.
Qed.

Lemma plugged_after_ok m nb plug :
  cfg_ok m -> 0 <= plugged_after (m_config m) nb plug <= region_size (m_config m) ->
  (if plug then add_u u64_max (plugged_size (m_config m)) (nb * BLOCK)
   else sub_u (plugged_size (m_config m)) (nb * BLOCK)) = Ret (plugged_after (m_config m) nb plug).
Proof.
  intros Hc Hp. pose proof (c_top _ Hc). destruct (c_addr _ Hc) as [? _]. unfold plugged_after in *.
  destruct plug; [apply add_u_ret; rewrite u64_max_val; lia|apply sub_u_ret; lia].
Qed.

(** The four requests, in the order of the code. *)
Lemma change_request_ok w (g : G) m st r status :
  mem_ok w m -> state_ok (m_config m) st -> req_ok r ->
  rq_type r = VIRTIO_MEM_REQ_PLUG \/ rq_type r = VIRTIO_MEM_REQ_UNPLUG ->
  exists len m' w' g' calls resp state,
    handle_request w g m st r status = Ret (len, m', w', g', calls) /\ mem_ok w' m' /\
    request_spec w m st r resp state m' w' calls /\ send_response g status resp state = (len, g').
Proof.
  intros Hok Hs [Ha Hn] Ht. pose proof (i_cfg _ _ Hok) as Hc. pose proof (i_map _ _ Hok) as Hm.
  unfold handle_request, request_spec. cbv zeta.
  assert ((rq_type r =? VIRTIO_MEM_REQ_PLUG) || (rq_type r =? VIRTIO_MEM_REQ_UNPLUG) = true /\
          (rq_type r =? VIRTIO_MEM_REQ_STATE) = false /\ (rq_type r =? VIRTIO_MEM_REQ_UNPLUG_ALL) = false) as (-> & -> & ->)
    by (by destruct Ht as [-> | ->]).
  set (plug := rq_type r =? VIRTIO_MEM_REQ_PLUG). unfold mul_u. rewrite (c_block _ Hc).
  rewrite (proj2 (Z.leb_le (rq_nb_blocks r * BLOCK) _)) by (rewrite BLOCK_val, u64_max_val; lia). cbn [obind].
  destruct (state_change_ok w m st (rq_addr r) (rq_nb_blocks r) plug) as (resp & st' & w' & calls & -> & Hspec); [done..|].
  cbn [obind]. destruct (change_spec_after _ _ _ _ _ _ _ _ _ _ Hok Hs (proj1 Hn) Hspec) as (Hp & Hok' & Hsl).
  destruct (resp =? VIRTIO_MEM_RESP_ACK) eqn:Hack; cbv zeta in Hok', Hsl.
  - rewrite plugged_after_ok by done. cbn [obind]. rewrite set_config_blocks. destruct (send_response g status resp 0) eqn:Hr.
    do 7 eexists. split; [reflexivity|]. split; [done|]. rewrite Hack. split; [|exact Hr]. by eauto.
  - cbn [obind]. destruct (send_response g status resp 0) eqn:Hr. rewrite <- with_blocks_same.
    do 7 eexists. split; [reflexivity|]. split; [done|]. rewrite Hack. split; [|exact Hr]. by eauto.
Qed.

Lemma unplug_all_request_ok w (g : G) m st r status :
  mem_ok w m -> state_ok (m_config m) st -> rq_type r = VIRTIO_MEM_REQ_UNPLUG_ALL ->
  exists len m' w' g' calls resp state,
    handle_request w g m st r status = Ret (len, m', w', g', calls) /\ mem_ok w' m' /\
    request_spec w m st r resp state m' w' calls /\ send_response g status resp state = (len, g').
Proof.
  intros Hok Hs Ht. unfold handle_request, request_spec. cbv zeta.
  assert ((rq_type r =? VIRTIO_MEM_REQ_PLUG) || (rq_type r =? VIRTIO_MEM_REQ_UNPLUG) = false /\
          (rq_type r =? VIRTIO_MEM_REQ_STATE) = false /\ (rq_type r =? VIRTIO_MEM_REQ_UNPLUG_ALL) = true) as (-> & -> & ->)
    by (by rewrite Ht).
  destruct (unplug_all_ok w m st (i_cfg _ _ Hok) (i_map _ _ Hok) Hs) as (resp & st' & w' & calls & -> & Hspec).
  pose proof (unplug_all_after _ _ _ _ _ _ _ Hok Hs Hspec) as Hok'. cbn [obind].
  destruct (send_response g status resp 0) as [len g'] eqn:Hr.
  exists len, (with_blocks m st' (if resp =? VIRTIO_MEM_RESP_ACK then 0 else plugged_size (m_config m))), w', g', calls, resp, 0.
  split; [|by eauto 10]. rewrite set_config_blocks. destruct (resp =? _); [done|]. by rewrite with_blocks_same.
Qed.

Lemma state_query_ok w (g : G) m st r status :
  mem_ok w m -> state_ok (m_config m) st -> req_ok r -> rq_type r = VIRTIO_MEM_REQ_STATE ->
  cfg_addr (m_config m) <= rq_addr r ->
  exists len m' w' g' calls resp state,
    handle_request w g m st r status = Ret (len, m', w', g', calls) /\ mem_ok w' m' /\
    request_spec w m st r resp state m' w' calls /\ send_response g status resp state = (len, g').
Proof.
  intros Hok Hs [Ha Hn] Ht Hlo. unfold handle_request, request_spec. cbv zeta.
  assert ((rq_type r =? VIRTIO_MEM_REQ_PLUG) || (rq_type r =? VIRTIO_MEM_REQ_UNPLUG) = false /\
          (rq_type r =? VIRTIO_MEM_REQ_STATE) = true /\ (rq_type r =? VIRTIO_MEM_REQ_UNPLUG_ALL) = false) as (-> & -> & ->)
    by (by rewrite Ht).
  destruct (state_request_ok m st (rq_addr r) (rq_nb_blocks r) (i_cfg _ _ Hok) Hs ltac:(lia) Hn) as (resp & state & -> & Hspec).
  cbn [obind]. destruct (send_response g status resp state) as [len g'] eqn:Hr.
  exists len, m, w, g', [], resp, state. by split_and!.
Qed.

(** A request in full. *)
Definition handled (w : W) (g : G) (m : Mem) (st : list bool) (r : VirtioMemReq) (status len : Z) (m' : Mem) (w' : W) (g' : G)
  (calls : list HostCall) : Prop :=
  if known_request r
  then exists resp state, request_spec w m st r resp state m' w' calls /\ send_response g status resp state = (len, g')
  else len = 0 /\ m' = m /\ w' = w /\ g' = g /\ calls = [].

(** A query below the region takes the difference of the addresses all the same. *)
Definition query_below (m : Mem) (r : VirtioMemReq) : Prop :=
  rq_type r = VIRTIO_MEM_REQ_STATE /\ rq_addr r < cfg_addr (m_config m).

Lemma handle_request_ok w (g : G) m st r status :
  mem_ok w m -> m_mem_state m = Some st -> req_ok r -> ~ query_below m r ->
  exists len m' w' g' calls,
    handle_request w g m st r status = Ret (len, m', w', g', calls) /\ mem_ok w' m' /\
    handled w g m st r status len m' w' g' calls.
Proof.
  intros Hok Hst Hr Hq. pose proof (i_state _ _ Hok _ Hst) as Hs. unfold handled.
  destruct (known_request r) eqn:Hk.
  - assert (Hany : exists len m' w' g' calls resp state,
      handle_request w g m st r status = Ret (len, m', w', g', calls) /\ mem_ok w' m' /\
      request_spec w m st r resp state m' w' calls /\ send_response g status resp state = (len, g')).
    { unfold known_request, query_below, VIRTIO_MEM_REQ_STATE in *. bools.
      assert (rq_type r = 0 \/ rq_type r = 1 \/ rq_type r = 2 \/ rq_type r = 3) as [|[|[|]]] by lia;
        [apply change_request_ok; auto..|by apply unplug_all_request_ok|apply state_query_ok; [done..|lia]]. }
    destruct Hany as (len & m' & w' & g' & calls & resp & state & ? & ? & ? & ?).
    exists len, m', w', g', calls. split; [done|]. split; [done|]. by exists resp, state.
  - exists 0, m, w, g, []. split; [|done]. unfold handle_request, known_request in *.
    assert (Hne : forall t, 0 <= t <= 3 -> (rq_type r =? t) = false) by (unfold VIRTIO_MEM_REQ_STATE in *; intros; bools; lia).
    by rewrite !Hne by done.
Qed.

Lemma query_below_panics w (g : G) m st r status :
  cfg_ok m -> req_ok r -> query_below m r -> handle_request w g m st r status = Panic.
Proof.
  intros Hc [Ha Hn] [Ht Hlo]. unfold handle_request. rewrite Ht. cbv zeta.
  change (VIRTIO_MEM_REQ_STATE =? VIRTIO_MEM_REQ_PLUG) with false.
  change (VIRTIO_MEM_REQ_STATE =? VIRTIO_MEM_REQ_UNPLUG) with false.
  change (VIRTIO_MEM_REQ_STATE =? VIRTIO_MEM_REQ_UNPLUG_ALL) with false.
  change (VIRTIO_MEM_REQ_STATE =? VIRTIO_MEM_REQ_STATE) with true. cbn [orb].
  unfold virtio_mem_state_request, mul_u. rewrite (c_block _ Hc).
  rewrite (proj2 (Z.leb_le (rq_nb_blocks r * BLOCK) _)) by (rewrite BLOCK_val, u64_max_val; lia). cbn [obind].
  rewrite (valid_range_ok m) by done. cbn [obind]. unfold sub_u, checked_sub. by rewrite (proj2 (Z.leb_gt _ _)) by lia.
Qed.

(** ** The queue *)

(** Reading guest memory yields bytes. *)
Class MemGuestLaws : Prop :=
  read_slice_bytes g a n bs : read_slice (G := G) g a n = Some bs -> Forall in_u8 bs.
Context `{!MemGuestLaws}.

Lemma Request_parse_typed chain (g : G) r status : Request_parse chain g = Ok (r, status) -> req_ok r.
Proof.
  unfold Request_parse. intros Hp. repeat (case_hyp Hp; try discriminate Hp).
  injection Hp as <- <-. match goal with Hb : read_slice _ _ _ = Some ?bs |- _ => apply read_slice_bytes in Hb; revert Hb; generalize bs end.
  clear. intros bs Hb. unfold req_ok, req_of_bytes. cbn [rq_addr rq_nb_blocks].
  pose proof (field_range bs 8 8 Hb ltac:(lia)). pose proof (field_range bs 16 2 Hb ltac:(lia)).
  unfold field in *. rewrite u64_max_val. lia.
Qed.

(** A run over the available chains: each is answered in turn. *)
Inductive queue_run : W -> G -> Mem -> list (Z * list Descriptor) -> list (Z * Z) -> Mem -> W -> G -> list HostCall -> Prop :=
| run_nil w g m : queue_run w g m [] [] m w g []
| run_malformed w g m head chain e chains used m' w' g' calls :
    Request_parse chain g = Err e ->
    queue_run w g m chains used m' w' g' calls ->
    queue_run w g m ((head, chain) :: chains) ((head, 0) :: used) m' w' g' calls
| run_request w g m st head chain r status len m1 w1 g1 calls1 chains used m' w' g' calls :
    m_mem_state m = Some st -> Request_parse chain g = Ok (r, status) ->
    handled w g m st r status len m1 w1 g1 calls1 ->
    queue_run w1 g1 m1 chains used m' w' g' calls ->
    queue_run w g m ((head, chain) :: chains) ((head, len) :: used) m' w' g' (calls1 ++ calls).

Lemma handled_activated w (g : G) m st r status len m' w' g' calls :
  m_mem_state m = Some st -> handled w g m st r status len m' w' g' calls -> is_Some (m_mem_state m').
Proof.
  intros Hst. unfold handled, request_spec. destruct (known_request r); [|intros (_ & -> & _); by rewrite Hst].
  intros (resp & state & Hs & _). case_hyp Hs; [destruct Hs as (_ & -> & _); by rewrite Hst|].
  destruct Hs as (_ & st' & Hs). case_hyp Hs; [destruct Hs as [_ ->]|destruct Hs as (_ & -> & _)]; by destruct m as [[]].
Qed.

(** A run that returns keeps the device in order. *)
Lemma process_queue_keeps w (g : G) m chains used m' w' g' calls :
  mem_ok w m -> is_Some (m_mem_state m) -> process_queue w g m chains = Ret (used, m', w', g', calls) ->
  mem_ok w' m' /\ is_Some (m_mem_state m').
Proof.
  revert w g m used calls. induction chains as [|[head chain] chains IH]; intros w g m used calls Hok [st Hst]; cbn [process_queue].
  { intros [= <- <- <- <- <-]. by rewrite Hst. }
  rewrite Hst. intros Hq. bind_inv Hq. destruct a as [[[[len m1] w1] g1] calls1]. bind_inv Hq.
  destruct a as [[[[used2 m2] w2] g2] calls2]. injection Hq as <- -> -> -> <-.
  eapply IH; [..|exact Ha0]; (destruct (Request_parse chain g) as [[r status]|e] eqn:Hp; [|by injection Ha as <- <- <- <- <-; rewrite ?Hst]);
    pose proof (Request_parse_typed _ _ _ _ Hp) as Hr;
    (destruct (decide (rq_type r = VIRTIO_MEM_REQ_STATE /\ rq_addr r < cfg_addr (m_config m))) as [Hb|Hb];
      [by rewrite (query_below_panics _ _ _ _ _ _ (i_cfg _ _ Hok) Hr Hb) in Ha|]);
    destruct (handle_request_ok w g m st r status Hok Hst Hr Hb) as (? & ? & ? & ? & ? & E & Hok1 & Hh); rewrite E in Ha;
    injection Ha as <- <- <- <- <-; [done|by eapply handled_activated].
Qed.

(** C6. The queue handler answers every chain, in order: a malformed one and an
    unknown request with length 0, any other as the protocol says, where blocks
    change only when they all can and the host takes back only memory of blocks
    plugged until then.  It panics exactly when it comes to a state query for an
    address below the region. *)
Theorem process_queue_correct w (g : G) m chains :
  mem_ok w m -> is_Some (m_mem_state m) ->
  (exists used m' w' g' calls,
     process_queue w g m chains = Ret (used, m', w', g', calls) /\
     queue_run w g m chains used m' w' g' calls /\ mem_ok w' m') \/
  (process_queue w g m chains = Panic /\
   exists done head chain rest used m' w' g' calls r status,
     chains = done ++ (head, chain) :: rest /\ queue_run w g m done used m' w' g' calls /\
     Request_parse chain g' = Ok (r, status) /\ query_below m' r).
Proof.
  revert w g m. induction chains as [|[head chain] chains IH]; intros w g m Hok [st Hst]; cbn [process_queue].
  { left. do 5 eexists. split; [reflexivity|]. split; [constructor|done]. }
  rewrite Hst. destruct (Request_parse chain g) as [[r status]|e] eqn:Hp; cbn [obind].
  2:{ destruct (IH w g m Hok) as [(used & m' & w' & g' & calls & -> & Hrun & Hok')|(-> & Hpanic)]; [by eexists|left|right]; cbn [obind].
      - do 5 eexists. split; [reflexivity|]. split; [|done]. by eapply run_malformed.
      - split; [done|]. destruct Hpanic as (done & h & c & rest & used & m' & w' & g' & calls & r & s & -> & Hrun & Hq).
        exists ((head, chain) :: done), h, c, rest. do 7 eexists. split; [done|]. split; [by eapply run_malformed|exact Hq]. }
  pose proof (Request_parse_typed _ _ _ _ Hp) as Hr.
  destruct (decide (rq_type r = VIRTIO_MEM_REQ_STATE /\ rq_addr r < cfg_addr (m_config m))) as [Hq|Hq].
  { right. rewrite (query_below_panics _ _ _ _ _ _ (i_cfg _ _ Hok) Hr Hq). split; [done|].
    exists [], head, chain, chains. do 7 eexists. split; [done|]. split; [constructor|]. by split. }
  destruct (handle_request_ok w g m st r status Hok Hst Hr Hq) as (len & m1 & w1 & g1 & calls1 & -> & Hok1 & Hh). cbn [obind].
  destruct (IH w1 g1 m1 Hok1 (handled_activated _ _ _ _ _ _ _ _ _ _ _ Hst Hh))
    as [(used & m' & w' & g' & calls & -> & Hrun & Hok')|(-> & Hpanic)]; [left|right]; cbn [obind].
  - do 5 eexists. split; [reflexivity|]. split; [|done]. by eapply run_request.
  - split; [done|]. destruct Hpanic as (done & h & c & rest & used & m' & w' & g' & calls & r' & s & -> & Hrun & Hq').
    exists ((head, chain) :: done), h, c, rest. do 7 eexists. split; [done|]. split; [by eapply run_request|exact Hq'].
Qed.
End Requests.

(** ** Pieces *)

(** The number of pieces covers the region. *)
Lemma regions_num_ok size : 0 < size ->
  let n := get_map_regions_num size in 0 < n /\ (n - 1) * PIECE < size <= n * PIECE.
Proof.
  intros Hs. unfold get_map_regions_num. rewrite shiftr_piece, land_piece, PIECE_val. cbv zeta.
  destruct (_ >? 0) eqn:?; bools; dlia.
Qed.

(** The first [M] pieces are mapped. *)
Definition mapped_prefix (mr : MapRegions) (M : nat) : Prop :=
  forall i p, mr !! i = Some p -> (p.2 = None <-> (M <= i)%nat).

Lemma find_unmapped_ok n (i : nat) mr M :
  mapped_prefix mr M -> (i <= M)%nat -> (i + n <= length mr)%nat ->
  find_unmapped n (Z.of_nat i) mr = Ret (if decide (M < i + n)%nat then Some (Z.of_nat M) else None).
Proof.
  intros Hp. revert i. induction n as [|n IH]; intros i Hi Hl; cbn [find_unmapped].
  { by rewrite decide_False by lia. }
  rewrite Nat2Z.id. unfold MapRegions in *. destruct (lookup_lt_is_Some_2 mr i) as [[slot p] Hs]; [lia|]. rewrite Hs.
  specialize (Hp _ _ Hs). cbn [snd] in Hp. destruct p as [hg|].
  - assert (~ (M <= i)%nat) by (intros HM; apply Hp in HM; discriminate).
    replace (Z.of_nat i + 1) with (Z.of_nat (S i)) by lia. rewrite IH by lia.
    f_equal. by rewrite Nat.add_succ_l, Nat.add_succ_r.
  - assert (M <= i)%nat by (by apply Hp). rewrite decide_True by lia. do 2 f_equal. lia.
Qed.

(** The pieces entered for a new mapping. *)
Lemma enter_mapping_ok n (i : nat) h g mr :
  (i + n <= length mr)%nat -> 0 <= h -> 0 <= g ->
  h + Z.of_nat n * PIECE <= u64_max -> g + Z.of_nat n * PIECE <= u64_max ->
  exists mr', enter_mapping n (Z.of_nat i) h g mr = Ret mr' /\ length mr' = length mr /\
    (forall k, ~ (i <= k < i + n)%nat -> mr' !! k = mr !! k) /\
    (forall k p, (i <= k < i + n)%nat -> mr' !! k = Some p ->
       p.2 = Some (h + (Z.of_nat k - Z.of_nat i) * PIECE, g + (Z.of_nat k - Z.of_nat i) * PIECE)).
Proof.
  revert i h g mr. induction n as [|n IH]; intros i h g mr Hl Hh Hg Hhm Hgm; cbn [enter_mapping].
  { exists mr. split; [done|]. split; [done|]. split; [done|]. intros k p Hk. lia. }
  rewrite PIECE_val in *. rewrite Nat2Z.id. unfold MapRegions in *.
  destruct (lookup_lt_is_Some_2 mr i) as [[slot p] Hs]; [lia|]. rewrite Hs.
  rewrite !add_u_ret by lia. cbn [obind]. replace (Z.of_nat i + 1) with (Z.of_nat (S i)) by lia.
  destruct (IH (S i) (h + 2147483648) (g + 2147483648) (<[i:=(slot, Some (h, g))]> mr))
    as (mr' & -> & Hlen & Hout & Hin); rewrite ?length_insert; [lia..|].
  exists mr'. rewrite length_insert in Hlen. split; [done|]. split; [done|]. split.
  - intros k Hk. rewrite Hout by lia. by rewrite list_lookup_insert_ne by lia.
  - intros k q Hk Hq. destruct (decide (k = i)) as [->|].
    + rewrite Hout in Hq by lia. rewrite list_lookup_insert_eq in Hq by lia. injection Hq as <-. cbn [snd].
      by rewrite Z.sub_diag, Z.mul_0_l, !Z.add_0_r.
    + rewrite (Hin k q) by (lia || done). do 2 f_equal; lia.
Qed.

Lemma capped_ok x n : 0 < n -> (if x >=? n then sub_u n 1 else Ret x) = Ret (Z.min x (n - 1)).
Proof. intros Hn. destruct (x >=? n) eqn:?; bools; [rewrite sub_u_ret by lia|]; f_equal; lia. Qed.

Section Resize.
Context {W : Type} `{MemHostLaws W}.

Lemma pieces_mapped w c mr M : pieces_ok w c mr M -> mapped_prefix mr M.
Proof.
  intros (_ & _ & Hp) i p Hi. specialize (Hp i p Hi). destruct (decide (i < M)%nat).
  - destruct Hp as (h & -> & _). split; [done|lia].
  - split; [lia|done].
Qed.

(** The memory of pieces [M .. last] in one new region. *)
Definition new_len (c : VirtioMemConfig) (M last : Z) : Z := Z.min ((last + 1) * PIECE) (region_size c) - M * PIECE.

Lemma pieces_extend w w' c mr mr' (M last : nat) slot h :
  pieces_ok w c mr M -> (M <= last < length mr)%nat ->
  create_region w (cfg_addr c + Z.of_nat M * PIECE) (new_len c (Z.of_nat M) (Z.of_nat last)) slot = (Ok h, w') ->
  length mr' = length mr ->
  (forall k, ~ (M <= k < S last)%nat -> mr' !! k = mr !! k) ->
  (forall k p, (M <= k < S last)%nat -> mr' !! k = Some p ->
     p.2 = Some (h + (Z.of_nat k - Z.of_nat M) * PIECE, cfg_addr c + Z.of_nat M * PIECE + (Z.of_nat k - Z.of_nat M) * PIECE)) ->
  pieces_ok w' c mr' (S last).
Proof.
  intros (Hlen & HM & Hp) Hlast Hcr Hl Hout Hin. destruct (create_region_ok _ _ _ _ _ _ Hcr) as (Hnew & Hold & Hh0 & Hh).
  split; [congruence|]. split; [lia|]. intros i p Hi. unfold new_len in *. rewrite PIECE_val in *. destruct (decide (i < S last)%nat) as [Hlt|].
  2:{ rewrite Hout in Hi by lia. specialize (Hp _ _ Hi). by rewrite decide_False in Hp by lia. }
  destruct (decide (i < M)%nat) as [HiM|HiM].
  - rewrite Hout in Hi by lia. specialize (Hp _ _ Hi). rewrite decide_True in Hp by done.
    destruct Hp as (h0 & -> & Hb0 & Hb1 & Hb). rewrite PIECE_val in *. exists h0. split; [done|]. split; [done|]. split; [done|].
    intros o Ho. rewrite PIECE_val in Ho. apply Hold; [left; rewrite PIECE_val; lia|]. apply Hb. lia.
  - rewrite (Hin i p) by (lia || done). eexists. split; [do 2 f_equal; rewrite PIECE_val; lia|]. rewrite PIECE_val.
    replace (cfg_addr c + Z.of_nat i * 2147483648)
      with (cfg_addr c + Z.of_nat M * 2147483648 + (Z.of_nat i - Z.of_nat M) * 2147483648) by lia.
    eapply range_backed_sub; [split; [|split]; [exact Hh0|exact Hh|exact Hnew]|lia|lia].
Qed.

Lemma map_new_regions_ok w c newsize mr M :
  pieces_ok w c mr M -> 0 <= cfg_addr c -> cfg_addr c + region_size c <= 2 ^ 52 ->
  0 <= usable_region_size c <= Z.of_nat M * PIECE -> usable_region_size c < newsize <= region_size c ->
  exists r w', map_new_regions w c newsize mr = Ret (r, w') /\
    match r with
    | Ok mr' => exists M', pieces_ok w' c mr' M' /\ newsize <= Z.of_nat M' * PIECE
    | Err e => backed w' = backed w /\ exists x, e = RegionError x
    end.
Proof.
  intros Hp Ha Htop HM Hn. pose proof (proj1 Hp) as Hlen. pose proof (proj1 (proj2 Hp)) as HMl.
  destruct (regions_num_ok (region_size c)) as (HN & Hlo & Hhi); [lia|]. rewrite <- Hlen in *. clear Hlen.
  unfold map_new_regions. cbv zeta. rewrite !shiftr_piece, !capped_ok by done. cbn [obind].
  set (N := length mr) in *. set (first := Z.min (usable_region_size c / PIECE) _). set (lst := Z.min (newsize / PIECE) _).
  assert (Hfl : 0 <= first <= lst /\ first <= Z.of_nat M /\ lst < Z.of_nat N) by (subst first lst; rewrite PIECE_val in *; dlia).
  assert (Hcover : newsize <= (lst + 1) * PIECE) by (subst lst; rewrite PIECE_val in *; dlia).
  clearbody first lst. rewrite <- (Z2Nat.id first) by lia. rewrite (find_unmapped_ok _ _ _ M) by (lia || (eapply pieces_mapped; exact Hp)).
  cbn [obind]. destruct (decide _) as [Hd|Hd].
  2:{ do 2 eexists. split; [reflexivity|]. exists M. split; [done|]. rewrite PIECE_val in *. lia. }
  rewrite !shiftl_piece, (add_u_ret _ (cfg_addr c)) by (rewrite u64_max_val, PIECE_val in *; lia). cbn [obind].
  assert (Ht : exists t,
    (if lst + 1 =? Z.of_nat N then sub_u (region_size c) (lst * PIECE) else Ret PIECE) = Ret t /\
    0 <= t /\ (lst - Z.of_nat M + 1 - 1) * PIECE + t = new_len c (Z.of_nat M) lst).
  { unfold new_len. rewrite PIECE_val in *. destruct (lst + 1 =? Z.of_nat N) eqn:?; bools; [|eexists; split; [done|lia]].
    rewrite sub_u_ret by lia. eexists. split; [done|lia]. }
  destruct Ht as (t & -> & Ht0 & Ht). cbn [obind].
  rewrite add_u_ret, Ht by (rewrite Ht; unfold new_len; rewrite u64_max_val, PIECE_val in *; lia). cbn [obind].
  rewrite Nat2Z.id. unfold MapRegions in *. destruct (lookup_lt_is_Some_2 mr M) as [[slot q] Hq]; [lia|]. rewrite Hq.
  destruct (create_region w _ _ _) as [[h|e] w'] eqn:Hcr.
  2:{ do 2 eexists. split; [reflexivity|]. split; [by eapply create_region_err|by eexists]. }
  destruct (create_region_ok _ _ _ _ _ _ Hcr) as (_ & _ & Hh0 & Hh).
  replace lst with (Z.of_nat (Z.to_nat lst)) in Hcr by lia.
  destruct (enter_mapping_ok (Z.to_nat (lst - Z.of_nat M + 1)) M h (cfg_addr c + Z.of_nat M * PIECE) mr)
    as (mr' & -> & Hl & Hout & Hin); [lia|done|rewrite PIECE_val; lia|unfold new_len in *; rewrite u64_max_val, PIECE_val in *; lia..|].
  cbn [obind]. do 2 eexists. split; [reflexivity|]. exists (S (Z.to_nat lst)).
  split; [|rewrite PIECE_val in *; lia].
  eapply pieces_extend; [exact Hp|lia|exact Hcr|done|intros k Hk; apply Hout; lia|intros k p Hk; apply Hin; lia].
Qed.

(** ** The usable region *)

(** What the usable region grows to: the requested size with room for alignment,
    in whole blocks, within the region. *)
Definition target_usable (m : Mem) : Z :=
  if requested_size (m_config m) =? 0 then 0
  else Z.min (region_size (m_config m)) (requested_size (m_config m) + 2 * m_alignment m) / BLOCK * BLOCK.

Lemma target_usable_ok m : cfg_ok m -> 0 <= target_usable m <= region_size (m_config m) /\ (BLOCK | target_usable m).
Proof.
  intros Hc. destruct (c_region _ Hc) as [? _]. pose proof (c_requested _ Hc). pose proof (c_align _ Hc).
  unfold target_usable. destruct (_ =? 0).
  - split; [lia|apply Z.divide_0_r].
  - split; [rewrite BLOCK_val; dlia|apply Z.divide_factor_r].
Qed.

Lemma newsize_ok m : cfg_ok m ->
  (let! twice := mul_u u64_max 2 (m_alignment m) in
   let! wanted := add_u u64_max (requested_size (m_config m)) twice in
   let! mask := sub_u (block_size (m_config m)) 1 in
   Ret (if requested_size (m_config m) =? 0 then 0
        else Z.land (Z.min (region_size (m_config m)) wanted) (u64_not mask))) = Ret (target_usable m).
Proof.
  intros Hc. destruct (c_region _ Hc) as [? _]. pose proof (c_requested _ Hc). pose proof (c_align _ Hc). pose proof (c_top _ Hc).
  destruct (c_addr _ Hc) as [? _]. unfold mul_u, target_usable. rewrite PIECE_val, (c_block _ Hc) in *.
  rewrite (proj2 (Z.leb_le _ _)) by (rewrite u64_max_val; lia). cbn [obind].
  rewrite add_u_ret by (rewrite u64_max_val; lia). cbn [obind]. rewrite sub_u_ret by done. cbn [obind].
  change (BLOCK - 1) with (2 ^ 22 - 1). rewrite land_not_low by ulia. done.
Qed.

Definition grown (m : Mem) : VirtioMemConfig :=
  upd_usable (m_config m) (Z.max (usable_region_size (m_config m)) (target_usable m)).

Lemma upd_usable_fields c x :
  cfg_addr (upd_usable c x) = cfg_addr c /\ region_size (upd_usable c x) = region_size c /\
  usable_region_size (upd_usable c x) = x /\ plugged_size (upd_usable c x) = plugged_size c.
Proof. by destruct c. Qed.

Lemma upd_usable_same c : upd_usable c (usable_region_size c) = c.
Proof. by destruct c. Qed.

Lemma grown_ok m : cfg_ok m -> cfg_ok (set_config m (grown m)).
Proof.
  intros Hc. pose proof (target_usable_ok m Hc) as [? [a Ht]]. pose proof (c_usable _ Hc) as [? [b Hu]].
  assert (Hx : 0 <= Z.max (usable_region_size (m_config m)) (target_usable m) <= region_size (m_config m)) by lia.
  assert (Hd : (BLOCK | Z.max (usable_region_size (m_config m)) (target_usable m))).
  { destruct (Z.max_spec (usable_region_size (m_config m)) (target_usable m)) as [[_ ->]|[_ ->]]; [by exists a|by exists b]. }
  unfold grown. revert Hx Hd. generalize (Z.max (usable_region_size (m_config m)) (target_usable m)). intros x Hx Hd.
  destruct Hc. by destruct m as [[]].
Qed.

(** The map of a device whose usable region has grown within the mapped pieces. *)
Lemma map_ok_pieces (w : W) m mr M x :
  m_multi_region m = true -> pieces_ok w (m_config m) mr M -> x <= Z.of_nat M * PIECE ->
  map_ok w (set_map_regions (set_config m (upd_usable (m_config m) x)) mr).
Proof. destruct m as [[] ? ? multi]. intros Hmu Hp HM. unfold map_ok. simpl in Hmu |- *. rewrite Hmu. by exists M. Qed.

Lemma map_ok_single (w : W) m x :
  m_multi_region m = false -> map_ok w m -> map_ok w (set_config m (upd_usable (m_config m) x)).
Proof. destruct m as [[] ? ? multi]. unfold map_ok. simpl. by intros ->. Qed.

Lemma set_map_regions_cfg m mr :
  (cfg_ok m -> cfg_ok (set_map_regions m mr)) /\ m_config (set_map_regions m mr) = m_config m /\
  m_mem_state (set_map_regions m mr) = m_mem_state m.
Proof. split; [intros []|]; by destruct m as [[]]. Qed.

Lemma set_config_fields m c :
  m_config (set_config m c) = c /\ m_mem_state (set_config m c) = m_mem_state m /\
  m_multi_region (set_config m c) = m_multi_region m /\ m_map_regions (set_config m c) = m_map_regions m.
Proof. by destruct m. Qed.

(** The configuration at the end, with or without a change. *)
Lemma resize_end m :
  (if (target_usable m <? usable_region_size (m_config m)) && negb false then m_config m
   else upd_usable (m_config m) (target_usable m)) = grown m.
Proof.
  unfold grown. destruct (_ <? _) eqn:?; bools; cbn [andb negb].
  - by rewrite Z.max_l, upd_usable_same by lia.
  - by rewrite Z.max_r by lia.
Qed.

(** Growing the usable region: it never shrinks, and all of it is backed. *)
Definition resized (m : Mem) (r : result unit DevError) (m' : Mem) (w' : W) : Prop :=
  cfg_ok m' /\ map_ok w' m' /\ m_mem_state m' = m_mem_state m /\
  match r with Ok _ => m_config m' = grown m | Err e => m' = m /\ exists x, e = RegionError x end.

Lemma resize_ok w m :
  cfg_ok m -> map_ok w m -> exists r m' w', resize w m = Ret (r, m', w') /\ resized m r m' w'.
Proof.
  intros Hc Hm. pose proof (newsize_ok m Hc) as Hnew. unfold resize, virtio_mem_resize_usable_region.
  do 3 (bind_inv Hnew; match goal with Hb : _ = Ret _ |- _ => rewrite Hb; cbn [obind] end). cbv zeta. injection Hnew as ->.
  clear Ha Ha0 Ha1. pose proof (resize_end m) as Hend. pose proof (target_usable_ok m Hc) as [Ht _].
  destruct (c_usable _ Hc) as [Hu _]. destruct (set_config_fields m (grown m)) as (E1 & E2 & _).
  destruct (m_multi_region m) eqn:Hmu.
  - pose proof Hm as Hm'. unfold map_ok in Hm'. rewrite Hmu in Hm'. destruct Hm' as (M & Hp & HM).
    assert (Hdone : forall mr M' w', pieces_ok w' (m_config m) mr M' ->
      Z.max (usable_region_size (m_config m)) (target_usable m) <= Z.of_nat M' * PIECE ->
      exists r m' w'', Ret (Ok tt, set_map_regions (set_config m (grown m)) mr, w') = Ret (r, m', w'') /\
        resized m r m' w'').
    { intros mr M' w' Hp' HM'. destruct (set_map_regions_cfg (set_config m (grown m)) mr) as (F1 & F2 & F3).
      do 3 eexists. split; [reflexivity|]. split; [apply F1; by apply grown_ok|]. split; [by apply (map_ok_pieces _ _ _ M')|].
      by rewrite F2, F3. }
    destruct (target_usable m >? usable_region_size (m_config m)) eqn:Hg; bools.
    + destruct (map_new_regions_ok w (m_config m) (target_usable m) (m_map_regions m) M Hp) as (r & w' & -> & Hr);
        [apply Hc|apply Hc|lia|lia|]. cbn [obind]. destruct r as [mr|e]; cbn [obind].
      * destruct Hr as (M' & Hp' & HM'). specialize (Hdone mr M' w' Hp' ltac:(lia)). rewrite <- Hend in Hdone. by destruct (_ && _).
      * destruct Hr as [Hbk Hr]. do 3 eexists. split; [reflexivity|]. split; [done|]. split; [by eapply map_ok_backed|done].
    + cbn [obind]. specialize (Hdone (m_map_regions m) M w Hp ltac:(lia)). rewrite <- Hend in Hdone. by destruct (_ && _).
  - cbn [obind]. assert (Hdone : exists r m' w'', Ret (Ok tt, set_config m (grown m), w) = Ret (r, m', w'') /\
      resized m r m' w'').
    { do 3 eexists. split; [reflexivity|]. split; [by apply grown_ok|]. split; [by apply map_ok_single|done]. }
    rewrite <- Hend in Hdone. by destruct (_ && _).
Qed.
End Resize.
