(* ===== verification/VirtioMemProps.v ===== *)
(** Properties of the virtio-mem device as a whole: what it is created with, and
    what holds after any sequence of its operations. *)

From S2P Require Import Prelude VsockStream VsockPacket VirtioMem VirtioMemSpec VirtioMemRequests.

(** ** Creation *)

(** The alignment: 128 MiB, or for 64 GiB of boot memory and more the largest
    power of two up to 2 GiB that divides it. *)
Definition alignment_spec (boot a : Z) : Prop :=
  exists k, 27 <= k <= 31 /\ a = 2 ^ k /\
    if boot <? 2 ^ 36 then k = 27
    else (k = 27 \/ (2 ^ k | boot)) /\ forall j, k < j <= 31 -> ~ (2 ^ j | boot).

Lemma land_low_zero v k : 0 <= k -> Z.land v (2 ^ k - 1) = 0 <-> (2 ^ k | v).
Proof.
  intros Hk. replace (2 ^ k - 1) with (Z.ones k) by (rewrite Z.ones_equiv; lia). rewrite Z.land_ones by done.
  apply Z.mod_divide. lia.
Qed.

Lemma block_align_loop_ok fuel boot k :
  27 <= k <= 31 -> (k - 27 < Z.of_nat fuel) -> (forall j, k < j <= 31 -> ~ (2 ^ j | boot)) ->
  exists k', 27 <= k' <= 31 /\ block_align_loop fuel boot (2 ^ k) = Ret (2 ^ k') /\
    (k' = 27 \/ (2 ^ k' | boot)) /\ forall j, k' < j <= 31 -> ~ (2 ^ j | boot).
Proof.
  revert k. induction fuel as [|fuel IH]; intros k Hk Hf Hj; [lia|]. cbn [block_align_loop].
  change VIRTIO_MEM_DEFAULT_BLOCK_ALIGNMENT with (2 ^ 27). rewrite Z.gtb_ltb.
  destruct (Z.ltb_spec (2 ^ 27) (2 ^ k)) as [Hlt|Hge].
  - apply Z.pow_lt_mono_r_iff in Hlt; [|lia..]. destruct (Z.eqb_spec (Z.land boot (2 ^ k - 1)) 0) as [Hz|Hz].
    + exists k. rewrite land_low_zero in Hz by lia. by auto.
    + rewrite land_low_zero in Hz by lia. rewrite Z.shiftr_div_pow2 by lia.
      replace (2 ^ k / 2 ^ 1) with (2 ^ (k - 1)) by (rewrite Z.pow_sub_r by lia; done).
      apply IH; [lia..|]. intros j Hjk. destruct (decide (j = k)) as [->|]; [done|apply Hj; lia].
  - apply Z.pow_le_mono_r_iff in Hge; [|lia..]. exists k. split; [done|]. split; [done|]. split; [left; lia|done].
Qed.

(** A device as [Mem::new] makes it. *)
Record new_device (m : Mem) (cap_mib req_mib : Z) (multi : bool) (boot : Z) : Prop := {
  n_align : alignment_spec boot (m_alignment m);
  n_block : block_size (m_config m) = BLOCK;
  n_cap : m_capacity m = region_size (m_config m);
  n_region : cap_mib * 2 ^ 20 <= region_size (m_config m) < cap_mib * 2 ^ 20 + 2 * m_alignment m /\
             (2 * m_alignment m | region_size (m_config m)) /\ 0 < region_size (m_config m);
  n_requested : requested_size (m_config m) = req_mib * 2 ^ 20 /\ requested_size (m_config m) <= region_size (m_config m);
  n_multi : m_multi_region m = multi && (PIECE <? region_size (m_config m));
  n_rest : usable_region_size (m_config m) = 0 /\ plugged_size (m_config m) = 0 /\
           m_map_regions m = [] /\ m_host_fd m = None /\ m_mem_state_map m = None /\ m_mem_state m = None;
}.

(** The capacity in multiples of twice the alignment. *)
Definition rounded (cap a : Z) : Z := (cap + 2 * a - 1) / (2 * a) * (2 * a).

(** What [Mem::new] accepts. *)
Definition new_accepts (cap_mib req_mib a : Z) : Prop :=
  0 < cap_mib /\ (4 | req_mib) /\ req_mib * 2 ^ 20 <= rounded (cap_mib * 2 ^ 20) a.

Lemma alignment_ok boot : 0 <= boot ->
  exists a, (if boot <? BOOT_MEM_SIZE_FOR_LARGE_BLOCK then Ret VIRTIO_MEM_DEFAULT_BLOCK_ALIGNMENT
             else block_align_loop 5 boot MAX_MEMORY_BLOCK_SIZE) = Ret a /\ alignment_spec boot a.
Proof.
  intros Hb. unfold alignment_spec. change BOOT_MEM_SIZE_FOR_LARGE_BLOCK with (2 ^ 36). destruct (boot <? 2 ^ 36).
  { exists VIRTIO_MEM_DEFAULT_BLOCK_ALIGNMENT. split; [done|]. by exists 27. }
  change MAX_MEMORY_BLOCK_SIZE with (2 ^ 31).
  destruct (block_align_loop_ok 5 boot 31) as (k & Hk & -> & Hd & Hmax); [lia..|]. exists (2 ^ k). split; [done|]. by exists k.
Qed.

Lemma rounded_ok cap k :
  27 <= k <= 31 -> 0 <= cap <= 2 ^ 60 ->
  Z.land (cap + 2 * 2 ^ k - 1) (u64_not (2 * 2 ^ k - 1)) = rounded cap (2 ^ k) /\
  (cap <= rounded cap (2 ^ k) < cap + 2 * 2 ^ k) /\ (2 * 2 ^ k | rounded cap (2 ^ k)) /\
  (rounded cap (2 ^ k) = 0 <-> cap = 0).
Proof.
  intros Hk Hc. unfold rounded. assert (0 < 2 ^ k <= 2 ^ 31) by (split; [apply Z.pow_pos_nonneg; lia|apply Z.pow_le_mono_r; lia]).
  split. { replace (2 * 2 ^ k) with (2 ^ (k + 1)) by (rewrite Z.pow_add_r by lia; lia).
    apply land_not_low; [|lia]. assert (2 ^ (k + 1) <= 2 ^ 32) by (apply Z.pow_le_mono_r; lia). ulia. }
  set (b := 2 * 2 ^ k) in *. assert (Hb : 0 < b) by lia. clearbody b.
  pose proof (Z.div_mod (cap + b - 1) b ltac:(lia)). pose proof (Z.mod_pos_bound (cap + b - 1) b Hb).
  split; [nia|]. split; [apply Z.divide_factor_r|].
  split; [nia|]. intros ->. rewrite Z.div_small by lia. lia.
Qed.

Lemma mib_ok x : 0 <= x <= 2 ^ 40 ->
  (let! kib := mul_u u64_max x 1024 in mul_u u64_max kib 1024) = Ret (x * 2 ^ 20).
Proof.
  intros Hx. unfold mul_u. rewrite (proj2 (Z.leb_le (x * 1024) _)) by ulia. cbn [obind].
  rewrite (proj2 (Z.leb_le (x * 1024 * 1024) _)) by ulia. f_equal. lia.
Qed.

Lemma mib_bind {A} x (f : Z -> outcome A) : 0 <= x <= 2 ^ 40 ->
  (let! kib := mul_u u64_max x 1024 in let! y := mul_u u64_max kib 1024 in f y) = f (x * 2 ^ 20).
Proof.
  intros Hx. pose proof (mib_ok x Hx) as Hm. bind_inv Hm. rewrite Ha. cbn [obind]. by rewrite Hm.
Qed.

Lemma mib_blocks x : (x * 2 ^ 20) mod BLOCK = 0 <-> (4 | x).
Proof.
  change BLOCK with (4 * 2 ^ 20). rewrite Z.mul_mod_distr_r by done. rewrite <- Z.mod_divide by done. lia.
Qed.

Lemma Mem_new_ok cap_mib req_mib multi numa boot :
  0 <= cap_mib <= 2 ^ 40 -> 0 <= req_mib <= 2 ^ 40 -> 0 <= boot ->
  exists a r, alignment_spec boot a /\ Mem_new cap_mib req_mib multi numa boot = Ret r /\
    match r with
    | Ok m => new_accepts cap_mib req_mib a /\ new_device m cap_mib req_mib multi boot /\ m_alignment m = a
    | Err e => e = InvalidInput /\ ~ new_accepts cap_mib req_mib a
    end.
Proof.
  intros Hcap Hreq Hboot. unfold Mem_new. destruct (alignment_ok boot Hboot) as (a & -> & Ha). cbn [obind].
  exists a. pose proof Ha as (k & Hk & -> & _). rewrite mib_bind by done. 
  assert (0 < 2 ^ k <= 2 ^ 31) by (split; [apply Z.pow_pos_nonneg; lia|apply Z.pow_le_mono_r; lia]).
  unfold mul_u at 1. rewrite (proj2 (Z.leb_le (2 * 2 ^ k) _)) by ulia. cbn [obind].
  rewrite add_u_ret by ulia. cbn [obind]. cbv zeta. rewrite mib_bind by done.
  destruct (rounded_ok (cap_mib * 2 ^ 20) k Hk ltac:(lia)) as (-> & Hr1 & Hr2 & Hr0).
  set (cap := rounded _ _) in *.
  assert (Hacc : (cap =? 0) || (req_mib * 2 ^ 20 >? cap) || negb ((req_mib * 2 ^ 20) mod BLOCK =? 0) = false <->
                 new_accepts cap_mib req_mib (2 ^ k)).
  { unfold new_accepts. fold cap. rewrite !orb_false_iff, negb_false_iff, Z.eqb_eq, Z.eqb_neq, mib_blocks, Z.gtb_ltb, Z.ltb_ge. intuition lia. }
  destruct (_ || _ || _) eqn:Hb; eexists; (split; [done|]); (split; [reflexivity|]).
  - split; [done|]. intros Hn. apply Hacc in Hn. congruence.
  - split; [by apply Hacc|]. bools. split; [|done]. constructor; cbn [m_alignment m_config block_size region_size m_capacity requested_size
      m_multi_region usable_region_size plugged_size m_map_regions m_host_fd m_mem_state_map m_mem_state]; try done.
    + split; [done|]. split; [done|]. lia.
    + rewrite Z.leb_antisym. destruct (_ <? cap); cbn; by rewrite ?andb_true_r, ?andb_false_r.
Qed.

(** ** Resources *)

(** An address range for the device, in guest physical memory. *)
Definition resource_ok (base size : Z) : Prop := 0 <= base /\ (BLOCK | base) /\ base + size <= 2 ^ 52.

Lemma new_device_cfg m cap req multi boot base :
  0 <= req ->
  new_device m cap req multi boot -> resource_ok base (region_size (m_config m)) ->
  cfg_ok (set_config m (upd_addr (m_config m) base)).
Proof.
  intros Hr0 [(k & Hk & Ha & _) Hb Hcap (_ & [q Hq] & Hpos) [Hreq Hr] Hmu Hrest] (Hb0 & Hb1 & Htop).
  assert (0 < 2 ^ k <= 2 ^ 31) by (split; [apply Z.pow_pos_nonneg; lia|apply Z.pow_le_mono_r; lia]).
  assert (Hdiv : (BLOCK | region_size (m_config m))).
  { rewrite Hq, Ha. apply Z.divide_mul_r, Z.divide_mul_r. exists (2 ^ (k - 22)). change BLOCK with (2 ^ 22).
    rewrite <- Z.pow_add_r by lia. f_equal. lia. }
  destruct m as [[]]. cbn in *. destruct Hrest as (-> & -> & _ & -> & -> & _). subst. constructor; cbn; try done; try lia.
  - change PIECE with (2 ^ 31). lia.
  - split; [lia|apply Z.divide_0_r].
Qed.

Section Device.
Context {W : Type} `{MemHostLaws W}.

(** Memory slots for a device that is not mapped yet. *)
Lemma unmapped_pieces (w : W) c slots :
  Z.of_nat (length slots) = get_map_regions_num (region_size c) ->
  pieces_ok w c ((fun slot => (slot, None)) <$> slots) 0.
Proof.
  intros Hl. split; [by rewrite length_fmap|]. split; [lia|]. intros i p Hi. rewrite decide_False by lia.
  unfold MapRegions in Hi. rewrite list_lookup_fmap in Hi. apply fmap_Some in Hi as (slot & _ & ->). done.
Qed.

(** The resources are taken when they fit; then the usable region is set up. *)
Definition resource_fits (m : Mem) (size : Z) (slots : list Z) : bool :=
  (Z.of_nat (length slots) =? slot_num m) && (size =? region_size (m_config m)).

(** The device between [set_resource]'s two steps. *)
Lemma set_resource_end w m1 base :
  cfg_ok m1 -> map_ok w m1 -> m_mem_state m1 = None -> usable_region_size (m_config m1) = 0 -> cfg_addr (m_config m1) = base ->
  exists r m' w', resize w m1 = Ret (r, m', w') /\
    (r = Ok tt /\ mem_ok w' m' /\ cfg_addr (m_config m') = base /\ usable_region_size (m_config m') = target_usable m1 \/
     exists e, r = Err (RegionError e)).
Proof.
  intros Hc Hm Hs Hu Hb. destruct (resize_ok w m1 Hc Hm) as (r & m' & w' & -> & Hc' & Hm' & Hs' & Hr).
  do 3 eexists. split; [reflexivity|]. destruct r as [[]|e]; [left|destruct Hr as (_ & x & ->); right; by eexists].
  split; [done|]. split; [constructor; [done..|]; rewrite Hs', Hs; done|].
  pose proof (target_usable_ok m1 Hc) as [? _]. rewrite Hr. unfold grown. rewrite Hu.
  destruct (upd_usable_fields (m_config m1) (Z.max 0 (target_usable m1))) as (-> & _ & -> & _). split; [done|lia].
Qed.

Lemma new_device_addr m base :
  let m1 := set_config m (upd_addr (m_config m) base) in
  target_usable m1 = target_usable m /\ region_size (m_config m1) = region_size (m_config m) /\
  m_multi_region m1 = m_multi_region m /\ m_map_regions m1 = m_map_regions m /\ m_mem_state m1 = m_mem_state m /\
  usable_region_size (m_config m1) = usable_region_size (m_config m) /\ cfg_addr (m_config m1) = base.
Proof. by destruct m as [[]]. Qed.

Lemma target_set_map m mr : target_usable (set_map_regions m mr) = target_usable m.
Proof. by destruct m as [[]]. Qed.

Lemma map_ok_map_regions (w : W) m mr :
  m_multi_region m = true -> usable_region_size (m_config m) = 0 -> (exists M, pieces_ok w (m_config m) mr M) ->
  map_ok w (set_map_regions m mr).
Proof.
  destruct m as [[]]. unfold map_ok. simpl. intros -> -> (M & Hp). exists M. split; [exact Hp|rewrite PIECE_val; lia].
Qed.

Lemma map_ok_one (w : W) m slot h base :
  m_multi_region m = false -> cfg_addr (m_config m) = base ->
  range_backed w (cfg_addr (m_config m)) (region_size (m_config m)) h ->
  map_ok w (set_map_regions m [(slot, Some (h, base))]).
Proof. destruct m as [[]]. unfold map_ok. simpl. intros -> -> Hb. by exists slot, h. Qed.

Lemma set_resource_ok w m cap req multi boot base size slots :
  0 <= req ->
  new_device m cap req multi boot -> resource_ok base size ->
  exists r m' w', set_resource w m [(base, size)] slots = Ret (r, m', w') /\
    if resource_fits m size slots
    then (r = Ok tt /\ mem_ok w' m' /\ cfg_addr (m_config m') = base /\
            usable_region_size (m_config m') = target_usable m) \/ (exists e, r = Err (RegionError e))
    else r = Err InvalidResource /\ m' = m /\ w' = w.
Proof.
  intros Hr0 Hnew Hres. unfold set_resource, resource_fits.
  rewrite (bool_decide_eq_true_2 ([] = [])) by done. cbn [negb]. rewrite orb_false_r.
  destruct (Z.of_nat (length slots) =? slot_num m) eqn:Hs; cbn [negb orb andb]; [|do 3 eexists; split; [reflexivity|done]].
  destruct (size =? region_size (m_config m)) eqn:Hz; cbn [negb orb andb]; [|do 3 eexists; split; [reflexivity|done]].
  bools. subst size. pose proof (new_device_cfg m cap req multi boot base Hr0 Hnew Hres) as Hc.
  destruct (n_rest _ _ _ _ _ Hnew) as (Hu & _ & Hmr & _ & _ & Hst). unfold slot_num in Hs.
  destruct (new_device_addr m base) as (E1 & E2 & E3 & E4 & E5 & E6 & E7). cbv zeta in *.
  rewrite <- E1. set (m1 := set_config m _) in *. rewrite E4, Hmr, bool_decide_eq_true_2, E3 by done.
  destruct (m_multi_region m) eqn:Hmu.
  - cbn [obind]. destruct (set_map_regions_cfg m1 ((fun slot => (slot, None)) <$> slots)) as (F1 & F2 & F3).
    rewrite <- E2 in Hs. pose proof (unmapped_pieces w (m_config m1) slots Hs) as Hp.
    rewrite <- (target_set_map m1 ((fun slot => (slot, None)) <$> slots)).
    apply set_resource_end; [by apply F1| |congruence..]. apply (map_ok_map_regions w m1 _); rewrite ?E3, ?E6, ?Hu; by eauto.
  - destruct slots as [|slot slots]; [cbn in Hs; lia|]. destruct (create_region w base _ slot) as [[h|e] w1] eqn:Hcr.
    2:{ cbn [obind]. do 3 eexists. split; [reflexivity|]. right. by eexists. }
    cbn [obind]. destruct (set_map_regions_cfg m1 [(slot, Some (h, base))]) as (F1 & F2 & F3).
    rewrite <- (target_set_map m1 [(slot, Some (h, base))]).
    apply set_resource_end; [by apply F1| |congruence..]. destruct (create_region_ok _ _ _ _ _ _ Hcr) as (Hb & _ & ? & ?).
    apply map_ok_one; [done..|]. split; [done|]. split; [done|]. by rewrite E7.
Qed.

(** ** The requested size *)

Definition size_accepted (m : Mem) (mib : Z) : bool := (mib * 2 ^ 20 <=? region_size (m_config m)) && (mib mod 4 =? 0).

Definition with_requested (m : Mem) (mib : Z) : Mem := set_config m (upd_requested (m_config m) (mib * 2 ^ 20)).

Lemma with_requested_ok (w : W) m mib :
  mem_ok w m -> 0 <= mib * 2 ^ 20 <= region_size (m_config m) -> mem_ok w (with_requested m mib).
Proof.
  intros [Hc Hm Hs] Hr. constructor.
  - destruct Hc. by destruct m as [[]].
  - by destruct m as [[]].
  - intros st Hst. assert (Hst' : m_mem_state m = Some st) by (by destruct m). specialize (Hs st Hst').
    destruct Hs. by destruct m as [[]].
Qed.

Lemma state_ok_grown m st : cfg_ok m -> state_ok (m_config m) st -> state_ok (grown m) st.
Proof.
  intros Hc Hs. unfold grown. destruct (upd_usable_fields (m_config m) (Z.max (usable_region_size (m_config m)) (target_usable m)))
    as (_ & E2 & E3 & E4). constructor; rewrite ?E2, ?E3, ?E4; [apply Hs..|]. intros k Hk. pose proof (s_usable _ _ Hs k Hk). lia.
Qed.

(** A new requested size: refused when it is too large or not in whole blocks;
    else it is in force, and unless the host fails the usable region grows for it. *)
Definition requested_spec (m : Mem) (mib : Z) (r : result unit DevError) (m' : Mem) : Prop :=
  if size_accepted m mib
  then m_config m' = grown (with_requested m mib) /\ (r = Ok tt \/ exists e, r = Err (NotifyError e)) \/
       m' = with_requested m mib /\ exists e, r = Err (RegionError e)
  else r = Err InvalidInput /\ m' = m.

Lemma set_requested_size_ok w m mib :
  mem_ok w m -> 0 <= mib <= 2 ^ 40 ->
  exists r m' w', set_requested_size w m mib = Ret (r, m', w') /\ mem_ok w' m' /\ requested_spec m mib r m' /\
    (is_Some (m_mem_state m) -> is_Some (m_mem_state m')).
Proof.
  intros Hok Hmib. unfold set_requested_size, requested_spec. rewrite mib_bind by done. rewrite (c_cap _ (i_cfg _ _ Hok)).
  assert (Hacc : (mib * 2 ^ 20 >? region_size (m_config m)) || negb ((mib * 2 ^ 20) mod BLOCK =? 0) = negb (size_accepted m mib)).
  { unfold size_accepted. rewrite Z.gtb_ltb, Z.ltb_antisym, <- negb_andb. do 2 f_equal. apply Bool.eq_iff_eq_true.
    rewrite !Z.eqb_eq, mib_blocks. symmetry. by apply Z.mod_divide. }
  rewrite Hacc. destruct (size_accepted m mib) eqn:Hs; cbn [negb]; [|do 3 eexists; by split].
  unfold size_accepted in Hs. bools. fold (with_requested m mib). pose proof (with_requested_ok w m mib Hok ltac:(lia)) as Hok1.
  destruct (resize_ok w _ (i_cfg _ _ Hok1) (i_map _ _ Hok1)) as (r & m' & w' & -> & Hc' & Hm' & Hst' & Hr). cbn [obind].
  assert (Hst1 : m_mem_state m' = m_mem_state m) by (rewrite Hst'; by destruct m).
  assert (Hact : is_Some (m_mem_state m) -> is_Some (m_mem_state m')) by (by rewrite Hst1).
  assert (Hok' : mem_ok w' m').
  { constructor; [done..|]. intros st Hst. rewrite Hst' in Hst. pose proof (i_state _ _ Hok1 st Hst) as Hs.
    destruct r; [rewrite Hr; apply state_ok_grown; [apply Hok1|done]|destruct Hr as [-> _]; done]. }
  destruct r as [[]|e].
  2:{ do 3 eexists. split; [reflexivity|]. split; [done|]. split; [|done]. right. destruct Hr as (-> & x & ->). by eauto. }
  destruct (notify_change w') as [rn w2] eqn:Hn. pose proof (notify_backed w') as Hnb. rewrite Hn in Hnb. cbn [snd] in Hnb.
  assert (Hok2 : mem_ok w2 m') by (destruct Hok'; constructor; [done|by apply (map_ok_backed w')|done]).
  destruct rn as [[]|e]; do 3 eexists; (split; [reflexivity|]); (split; [done|]); (split; [left; split; [done|]; eauto|done]).
Qed.

Lemma activate_ok (w : W) m :
  mem_ok w m -> exists m', Mem_activate m = Ret (Ok tt, m') /\ mem_ok w m' /\ is_Some (m_mem_state m') /\
    m_config m' = m_config m.
Proof.
  intros Hok. pose proof (i_cfg _ _ Hok) as Hc. pose proof (i_map _ _ Hok) as Hm. unfold Mem_activate, slot_num.
  assert (Hl : Z.of_nat (length (m_map_regions m)) = if m_multi_region m then get_map_regions_num (region_size (m_config m)) else 1).
  { unfold map_ok in Hm. destruct (m_multi_region m).
    - destruct Hm as (M & (Hl & _) & _). done.
    - by destruct Hm as (slot & h & -> & _). }
  rewrite Hl, Z.eqb_refl, (c_block _ Hc). cbn [negb]. unfold div_u. change (BLOCK =? 0) with false. cbn [obind].
  destruct (c_region _ Hc) as [Hpos [q Hq]]. pose proof (c_saved _ Hc) as Hsv. pose proof (c_plugged _ Hc).
  set (st := replicate (Z.to_nat (region_size (m_config m) / BLOCK)) false).
  assert (Hst : state_ok (m_config m) st).
  { subst st. constructor.
    - unfold zlen. rewrite length_replicate, Hq, Z.div_mul by done. rewrite BLOCK_val in *. lia.
    - rewrite (plugged_all _ false); [lia|]. by apply Forall_replicate.
    - intros k Hk. by apply lookup_replicate in Hk as [? _]. }
  destruct m as [c ? ? ? ? ? saved ?]. cbn in Hsv. subst saved. eexists. split; [reflexivity|]. split; [|by split].
  constructor; [by destruct Hc|exact Hm|]. intros st' [= <-]. exact Hst.
Qed.

(** Every address of the usable region is backed. *)
Lemma usable_backed (w : W) m o :
  mem_ok w m -> 0 <= o < usable_region_size (m_config m) -> is_Some (backed w (cfg_addr (m_config m) + o)).
Proof.
  intros [Hc Hm _] Ho. pose proof (host_addr_of_ok w m o 1 Hc Hm ltac:(lia) ltac:(lia) ltac:(lia)) as Hh.
  assert (Hx : crosses_piece m o 1 = false).
  { unfold crosses_piece. rewrite Z.add_simpl_r, Z.eqb_refl. by destruct (m_multi_region m). }
  rewrite Hx in Hh. destruct Hh as (h & _ & _ & _ & Hb). specialize (Hb 0 ltac:(lia)). rewrite Z.add_0_r in Hb. by rewrite Hb.
Qed.

(** A device is set up as asked: [Mem::new] does not overflow for sizes up to
    2^40 MiB and accepts exactly a positive capacity with a requested size in whole
    blocks within it; then [set_resource] accepts exactly a range of the size of the
    region with the right number of memory slots, and, unless the host fails, the
    usable region is the requested size with room for alignment, all of it backed. *)
Theorem virtio_mem_setup (w : W) cap_mib req_mib multi numa boot base size slots :
  0 <= cap_mib <= 2 ^ 40 -> 0 <= req_mib <= 2 ^ 40 -> 0 <= boot -> resource_ok base size ->
  exists a r, alignment_spec boot a /\ Mem_new cap_mib req_mib multi numa boot = Ret r /\
    match r with
    | Err e => e = InvalidInput /\ ~ new_accepts cap_mib req_mib a
    | Ok m => new_accepts cap_mib req_mib a /\ new_device m cap_mib req_mib multi boot /\ m_alignment m = a /\
        exists r m' w', set_resource w m [(base, size)] slots = Ret (r, m', w') /\
          if resource_fits m size slots
          then (r = Ok tt /\ mem_ok w' m' /\ cfg_addr (m_config m') = base /\
                  usable_region_size (m_config m') = target_usable m) \/ (exists e, r = Err (RegionError e))
          else r = Err InvalidResource /\ m' = m /\ w' = w
    end.
Proof.
  intros Hcap Hreq Hboot Hres. destruct (Mem_new_ok cap_mib req_mib multi numa boot Hcap Hreq Hboot) as (a & r & Ha & Hnew & Hr).
  exists a, r. split; [done|]. split; [done|]. destruct r as [m|e]; [|done]. destruct Hr as (Hacc & Hdev & Halign).
  split; [done|]. split; [done|]. split; [done|]. apply (set_resource_ok w m cap_mib req_mib multi boot); [lia|done..].
Qed.

(** ** Runs *)

Context {G : Type} `{MemGuest G} `{!MemGuestLaws (G := G)}.

(** Every sequence of operations on a device. *)
Inductive device_reach : W -> Mem -> Prop :=
| dr_setup cap_mib req_mib multi numa boot m0 w base size slots m w' :
    0 <= cap_mib <= 2 ^ 40 -> 0 <= req_mib <= 2 ^ 40 -> 0 <= boot -> resource_ok base size ->
    Mem_new cap_mib req_mib multi numa boot = Ret (Ok m0) ->
    set_resource w m0 [(base, size)] slots = Ret (Ok tt, m, w') -> device_reach w' m
| dr_activate w m r m' : device_reach w m -> Mem_activate m = Ret (r, m') -> device_reach w m'
| dr_request w m mib r m' w' :
    device_reach w m -> 0 <= mib <= 2 ^ 40 -> set_requested_size w m mib = Ret (r, m', w') -> device_reach w' m'
| dr_queue w (g : G) m chains used m' w' g' calls :
    device_reach w m -> is_Some (m_mem_state m) -> process_queue w g m chains = Ret (used, m', w', g', calls) ->
    device_reach w' m'.

Lemma device_reach_ok w m : device_reach w m -> mem_ok w m.
Proof.
  induction 1 as [cap req multi numa boot m0 w base size slots m w' Hcap Hreq Hboot Hres Hnew Hset
    |w m r m' _ IH Ha|w m mib r m' w' _ IH Hmib Hs|w g m chains used m' w' g' calls _ IH Hst Hq].
  - destruct (Mem_new_ok cap req multi numa boot Hcap Hreq Hboot) as (a & r & _ & E & Hr). rewrite Hnew in E. injection E as <-.
    destruct Hr as (Hacc & Hdev & Ha).
    destruct (set_resource_ok w m0 cap req multi boot base size slots (proj1 Hreq) Hdev Hres)
      as (r & m' & w'' & E & Hr). rewrite Hset in E. injection E as <- <- <-.
    destruct (resource_fits _ _ _); [|by destruct Hr]. destruct Hr as [(_ & Hok & _)|[e ?]]; [done|discriminate].
  - destruct (activate_ok w m IH) as (m1 & E & Hok & _). rewrite Ha in E. by injection E as _ <-.
  - destruct (set_requested_size_ok w m mib IH Hmib) as (r1 & m1 & w1 & E & Hok & _). rewrite Hs in E. by injection E as _ <- <-.
  - by eapply process_queue_keeps.
Qed.

(** C17. Whatever the guest sends and the VMM asks for, the device stays in order:
    its sizes are within the region, all of the usable region is backed, plugged
    blocks lie in it and are covered by the plugged size; activation succeeds; and a
    new requested size is taken exactly when it is in whole blocks within the
    region, never shrinking what is usable. *)
Theorem virtio_mem_invariant w m :
  device_reach w m ->
  mem_ok w m /\
  (forall o, 0 <= o < usable_region_size (m_config m) -> is_Some (backed w (cfg_addr (m_config m) + o))) /\
  (exists m', Mem_activate m = Ret (Ok tt, m') /\ m_config m' = m_config m) /\
  (forall mib, 0 <= mib <= 2 ^ 40 ->
     exists r m' w', set_requested_size w m mib = Ret (r, m', w') /\ requested_spec m mib r m').
Proof.
  intros Hr. pose proof (device_reach_ok w m Hr) as Hok. split; [done|]. split; [intros; by apply usable_backed|]. split.
  - destruct (activate_ok w m Hok) as (m' & ? & _ & _ & ?). by exists m'.
  - intros mib Hmib. destruct (set_requested_size_ok w m mib Hok Hmib) as (r & m' & w' & ? & _ & ? & _). by exists r, m', w'.
Qed.
End Device.

(** ** A device at work *)

(** A host that maps guest memory at the same addresses, and takes memory back
    while [w] is positive. *)
#[local] Instance toy_host : MemHost Z := {|
  create_region w g len slot := if (0 <=? g) && (g + len <=? 2 ^ 56) then (Ok g, w) else (Err 12, w);
  punch_hole w fd off size := (true, w);
  madvise_remove w h size := (0 <? w, w - 1);
  notify_change w := (Ok tt, w);
|}.

#[local] Program Instance toy_host_laws : MemHostLaws Z := {| backed w a := Some a |}.
Next Obligation. intros w g len slot h w'. simpl. destruct (_ && _) eqn:Hb; [|done]. intros [= <- <-]. bools. by split_and!. Qed.
Next Obligation. done. Qed.
Next Obligation. done. Qed.
Next Obligation. done. Qed.
Next Obligation. done. Qed.

(** Guest memory as a list of bytes. *)
#[local] Instance toy_guest : MemGuest bytes := {|
  read_slice g a n :=
    let bs := ztake n (zdrop a g) in
    if bool_decide (Forall in_u8 bs) && (0 <=? a) && (zlen bs =? n) then Some bs else None;
  write_slice g a bs := if (0 <=? a) && (a + zlen bs <=? zlen g) then Some (ztake a g ++ bs ++ zdrop (a + zlen bs) g) else None;
|}.

#[local] Instance toy_guest_laws : MemGuestLaws (G := bytes).
Proof. intros g a n bs. simpl. destruct (bool_decide _) eqn:Hb; [|done]. intros Hr. case_hyp Hr; [|done]. injection Hr as <-. by apply bool_decide_eq_true in Hb. Qed.

Definition toy_base : Z := 2 ^ 32.

(** 4 GiB in two pieces, 2560 MiB of it requested, with room for alignment. *)
Definition toy_new : Mem :=
  mkMem (mkConfig BLOCK 0 0 (2 ^ 32) 0 0 (2560 * 2 ^ 20)) (2 ^ 32) (2 ^ 27) true [] None None None.
Definition toy_ready (state : option (list bool)) : Mem :=
  mkMem (mkConfig BLOCK 0 toy_base (2 ^ 32) (2816 * 2 ^ 20) 0 (2560 * 2 ^ 20)) (2 ^ 32) (2 ^ 27) true
    [(5, Some (toy_base, toy_base)); (6, Some (toy_base + PIECE, toy_base + PIECE))] None None state.
Definition toy_active : Mem := toy_ready (Some (replicate 1024 false)).

Lemma toy_new_ok : Mem_new 4096 2560 true None 0 = Ret (Ok toy_new).
Proof. by vm_compute. Qed.
Lemma toy_ready_ok w : set_resource w toy_new [(toy_base, 2 ^ 32)] [5; 6] = Ret (Ok tt, toy_ready None, w).
Proof. by vm_compute. Qed.
Lemma toy_active_ok : Mem_activate (toy_ready None) = Ret (Ok tt, toy_active).
Proof. by vm_compute. Qed.
Lemma toy_resource : resource_ok toy_base (2 ^ 32).
Proof. split; [done|]. split; [by exists 1024|done]. Qed.

Lemma toy_reach w : device_reach (G := bytes) w toy_active.
Proof.
  eapply dr_activate; [|exact toy_active_ok].
  eapply (dr_setup 4096 2560 true None 0); [lia..|apply toy_resource|exact toy_new_ok|apply toy_ready_ok].
Qed.

(** A request in guest memory: its type, address and number of blocks. *)
Definition toy_request (t addr nb : Z) : bytes :=
  le_bytes 2 t ++ replicate 6 0 ++ le_bytes 8 addr ++ le_bytes 2 nb ++ replicate 6 0.

Definition toy_chain (req resp : Z) : list Descriptor :=
  [mkDescriptor req 24 false; mkDescriptor resp 10 true].

(** Plug two blocks, ask for their state, then unplug everything. *)
Definition toy_memory : bytes :=
  toy_request 0 toy_base 2 ++ toy_request 3 toy_base 2 ++ toy_request 2 0 0 ++ replicate 48 255.
Definition toy_queue : list (Z * list Descriptor) := [(0, toy_chain 0 72); (1, toy_chain 24 82); (2, toy_chain 48 92)].

Lemma toy_run :
  match process_queue 2 toy_memory toy_active toy_queue with
  | Ret (used, m', _, _, calls) =>
      used = [(0, 10); (1, 10); (2, 10)] /\ plugged_size (m_config m') = 0 /\
      calls = [MadviseRemove toy_base BLOCK; MadviseRemove (toy_base + BLOCK) BLOCK]
  | Panic => False
  end.
Proof. vm_compute. done. Qed.

Lemma process_queue_correct_witness :
  exists m' w' g',
    process_queue 2 toy_memory toy_active toy_queue =
      Ret ([(0, 10); (1, 10); (2, 10)], m', w', g',
           [MadviseRemove toy_base BLOCK; MadviseRemove (toy_base + BLOCK) BLOCK]) /\
    queue_run 2 toy_memory toy_active toy_queue [(0, 10); (1, 10); (2, 10)] m' w' g'
      [MadviseRemove toy_base BLOCK; MadviseRemove (toy_base + BLOCK) BLOCK] /\
    mem_ok w' m' /\ plugged_size (m_config m') = 0.
Proof.
  destruct (process_queue_correct 2 toy_memory toy_active toy_queue (device_reach_ok _ _ (toy_reach 2)))
    as [(used & m' & w' & g' & calls & E & Hrun & Hok)|[E _]].
  - by eexists.
  - exists m', w', g'.
    pose proof toy_run as Hv. rewrite E in Hv. destruct Hv as (-> & Hp & ->). by split_and!.
  - exfalso. pose proof toy_run as Hv. by rewrite E in Hv.
Defined.

Lemma virtio_mem_invariant_witness :
  mem_ok 1 toy_active /\
  match set_requested_size 1 toy_active 4096 with
  | Ret (Ok _, m', _) => usable_region_size (m_config m') = 2 ^ 32
  | _ => False
  end.
Proof.
  destruct (virtio_mem_invariant 1 toy_active (toy_reach 1)) as (Hok & _). split; [done|]. by vm_compute.
Defined.

Lemma virtio_mem_setup_witness :
  new_accepts 4096 2560 (2 ^ 27) /\ usable_region_size (m_config (toy_ready None)) = target_usable toy_new.
Proof.
  destruct (virtio_mem_setup 1 4096 2560 true None 0 toy_base (2 ^ 32) [5; 6]) as (a & r & _ & E & Hr);
    [lia..|apply toy_resource|]. rewrite toy_new_ok in E. injection E as <-. destruct Hr as (Hacc & _ & <- & r & m' & w' & E & Hf).
  rewrite toy_ready_ok in E. injection E as <- <- <-. split; [exact Hacc|].
  destruct Hf as [(_ & _ & _ & Hu)|[e He]]; [exact Hu|discriminate].
Defined.

(** When the host takes back the first block but not the second, [UNPLUG_ALL] fails
    and the plugged size still counts both. *)
Lemma unplug_all_leaves_size :
  match process_queue 1 toy_memory toy_active toy_queue with
  | Ret (_, m', _, _, _) =>
      plugged_size (m_config m') = 2 * BLOCK /\ plugged_blocks (default [] (m_mem_state m')) = 1
  | Panic => False
  end.
Proof. by vm_compute. Qed.
