(* ===== verification/VirtioMemResources.v ===== *)
(** The virtio-mem device and the resource manager together: what the device asks
    for, and that what it is given fits. *)

From S2P Require Import Prelude VsockStream VsockPacket VirtioMem VirtioMemSpec VirtioMemRequests VirtioMemProps.
From S2P Require Import Range IntervalTree IntervalTreeInv Allocator PoolClient Resources ResourceManager ResourceManagerSpec.

Definition NUM_QUEUES : Z := 1.

(** [get_resource_requirements], appended to [requests]. *)
Definition get_resource_requirements (m : Mem) (requests : list ResourceConstraint) (use_generic_irq : bool) :
  list ResourceConstraint :=
  requests ++ [RC_LegacyIrq None] ++
  (if use_generic_irq then [RC_GenericIrq (NUM_QUEUES + 1)] else []) ++
  [RC_MemAddress None (m_alignment m) (region_size (m_config m))] ++
  replicate (Z.to_nat (slot_num m)) (RC_KvmMemSlot None 1).

(** [VirtioDevice::set_resource] on the resources of the device. *)
Definition Mem_set_resource {W} `{MemHost W} (w : W) (m : Mem) (resource : DeviceResources) :
  outcome (result unit DevError * Mem * W) :=
  set_resource w m (get_mem_address_ranges resource) (get_kvm_mem_slots resource).

(** The kinds of resource an answer has. *)
Lemma answered_slots shared n l :
  Forall2 (answers shared) (replicate n (RC_KvmMemSlot None 1)) l ->
  get_mem_address_ranges (mkDeviceResources l) = [] /\ length (get_kvm_mem_slots (mkDeviceResources l)) = n.
Proof.
  revert l. induction n as [|n IH]; intros l Hl; inversion Hl as [|req res reqs ress Ha Hr]; subst; [done|].
  destruct res; try done. destruct (IH ress Hr) as [? ?]. split; [done|]. cbn. by f_equal.
Qed.

Lemma answered_mem shared align size reqs l :
  Forall2 (answers shared) (RC_MemAddress None align size :: reqs) l ->
  exists b l', l = MemAddressRange b size :: l' /\ (eff_align align | b) /\ Forall2 (answers shared) reqs l'.
Proof.
  intros Hl. inversion Hl as [|req res ? ress Ha Hr]; subst. destruct res; try done.
  destruct Ha as (-> & _ & Hd & _). by exists base, ress.
Qed.

(** The answer to the requests of the device: one range, and the memory slots. *)
Lemma answered_requirements m generic shared l :
  Forall2 (answers shared) (get_resource_requirements m [] generic) l ->
  exists b, get_mem_address_ranges (mkDeviceResources l) = [(b, region_size (m_config m))] /\
    (eff_align (m_alignment m) | b) /\ MemAddressRange b (region_size (m_config m)) ∈ l /\
    length (get_kvm_mem_slots (mkDeviceResources l)) = Z.to_nat (slot_num m).
Proof.
  intros Hl. unfold get_resource_requirements in Hl. cbn [app] in Hl.
  inversion Hl as [|req res ? ress Ha Hr]; subst. destruct res; try done. clear Hl Ha.
  assert (Hrest : forall l', Forall2 (answers shared)
      (RC_MemAddress None (m_alignment m) (region_size (m_config m)) :: replicate (Z.to_nat (slot_num m)) (RC_KvmMemSlot None 1)) l' ->
    exists b, get_mem_address_ranges (mkDeviceResources l') = [(b, region_size (m_config m))] /\
    (eff_align (m_alignment m) | b) /\ MemAddressRange b (region_size (m_config m)) ∈ l' /\
    length (get_kvm_mem_slots (mkDeviceResources l')) = Z.to_nat (slot_num m)).
  { intros l' Hl'. destruct (answered_mem _ _ _ _ _ Hl') as (b & l2 & -> & Hd & Hs). destruct (answered_slots _ _ _ Hs) as [E1 E2].
    exists b. unfold get_mem_address_ranges, get_kvm_mem_slots in *. cbn [dr_vec collect] in *. rewrite E1. split_and!; [done..|left|done]. }
  destruct generic; cbn [app] in Hr.
  - inversion Hr as [|req res ? ress' Ha Hr']; subst. destruct res as [| | | |[]| |]; try done.
    destruct (Hrest _ Hr') as (b & ? & ? & ? & ?). exists b. split_and!; [done..| |done]. by do 2 right.
  - destruct (Hrest _ Hr) as (b & ? & ? & ? & ?). exists b. split_and!; [done..| |done]. by right.
Qed.

Section Together.
Context {W : Type} `{MemHostLaws W}.

(** The requests of a new device are well formed. *)
Lemma requirements_ok m cap req multi boot generic :
  new_device m cap req multi boot -> region_size (m_config m) <= u64_max ->
  Forall req_typed (get_resource_requirements m [] generic).
Proof.
  intros Hn Hr. destruct (n_align _ _ _ _ _ Hn) as (k & Hk & Ha & _). destruct (n_region _ _ _ _ _ Hn) as (_ & _ & Hpos).
  assert (0 < 2 ^ k <= 2 ^ 31) by (split; [apply Z.pow_pos_nonneg; lia|apply Z.pow_le_mono_r; lia]).
  assert (Hmem : req_typed (RC_MemAddress None (m_alignment m) (region_size (m_config m)))).
  { rewrite Ha. cbn. split; [ulia|]. split; [ulia|]. done. }
  unfold get_resource_requirements. cbn [app]. constructor; [done|]. apply Forall_app. split.
  - destruct generic; constructor; [|constructor]. cbn. unfold NUM_QUEUES. ulia.
  - constructor; [done|]. apply Forall_replicate. split; [ulia|done].
Qed.

Lemma new_align_block m cap req multi boot b :
  new_device m cap req multi boot -> (eff_align (m_alignment m) | b) -> (BLOCK | b) /\ (2 ^ 27 | b).
Proof.
  intros Hn Hd. destruct (n_align _ _ _ _ _ Hn) as (k & Hk & Ha & _). rewrite Ha in Hd. unfold eff_align in Hd.
  assert (0 < 2 ^ k) by (apply Z.pow_pos_nonneg; lia). rewrite Z.max_r in Hd by lia.
  assert (Hp : forall j, 0 <= j <= 27 -> (2 ^ j | b)).
  { intros j Hj. etrans; [|exact Hd]. exists (2 ^ (k - j)). rewrite <- Z.pow_add_r by lia. f_equal. lia. }
  split; [apply (Hp 22)|apply (Hp 27)]; lia.
Qed.

Lemma slot_num_pos m : 0 < region_size (m_config m) -> 0 <= slot_num m.
Proof. intros Hp. unfold slot_num. destruct (m_multi_region m); [|lia]. destruct (regions_num_ok _ Hp). lia. Qed.

Lemma elem_claims res l p e : res ∈ l -> claim res = Some (p, e) -> e ∈ claims p l.
Proof.
  intros Hin Hc. induction l as [|x l IH]; [by apply not_elem_of_nil in Hin|]. rewrite claims_cons, elem_of_app.
  apply elem_of_cons in Hin as [->|Hin]; [left|right; by apply IH].
  unfold taken_in. rewrite Hc. rewrite decide_True by done. by left.
Qed.

(** Where a memory range from the pool lies. *)
Lemma mem_range_bounds bits pe rm rm' l b size :
  GUEST_PHYS_END bits = Ret pe -> bits <= 52 -> rm_inv pe rm -> rm_holds rm rm' l -> MemAddressRange b size ∈ l ->
  0 <= b /\ b + size <= 2 ^ 52 /\ forall a, b <= a < b + size -> free_addr (entries (mem_pool rm)) a.
Proof.
  intros Hpe Hbits Hrm Hh Hin.
  assert (Hc : (mkRange b (b + size - 1), Allocated) ∈ claims MemPool l) by (by eapply elem_claims).
  destruct (claim_bounds _ _ _ _ _ _ _ Hrm Hh Hc) as (Hlo & _ & Hhi & _). cbn in Hlo, Hhi.
  split; [done|]. split.
  - destruct (GUEST_PHYS_END_range _ _ Hpe) as [_ Hm]. unfold GUEST_PHYS_END in Hpe. case_hyp Hpe; [|done]. bools.
    injection Hpe as Hpe. rewrite Z.shiftl_1_l in Hpe. assert (2 ^ bits <= 2 ^ 52) by (apply Z.pow_le_mono_r; lia). lia.
  - intros a Ha. apply (holds_from _ _ _ (Hh MemPool) _ _ a Hc). unfold in_range. cbn. lia.
Qed.

(** The answers to the requests of the device claim one slot for each slot named. *)
Lemma requirements_claims m generic G rest :
  get_resource_requirements m [] generic = G.*1 ++ rest -> grant_claim <$> G = claim <$> G.*2.
Proof.
  intros E. assert (Hone : Forall (fun req => forall slot n, req = RC_KvmMemSlot slot n -> n = 1) (G.*1 ++ rest)).
  { rewrite <- E. unfold get_resource_requirements. rewrite !Forall_app. split_and!; [by constructor|by repeat constructor|destruct generic; by repeat constructor|by repeat constructor|].
    apply Forall_replicate. by intros slot n [= _ <-]. }
  apply Forall_app in Hone as [Hone _]. clear E. induction G as [|[req res] G IH]; [done|]. rewrite !fmap_cons in *.
  apply Forall_cons in Hone as [H1 Hone]. cbn [snd fst] in *. rewrite (IH Hone). f_equal. destruct req; try done. rewrite (H1 _ _ eq_refl).
  destruct res; try done. cbn. by replace (slot0 + 1 - 1) with slot0 by lia.
Qed.

(** Giving the answers back fails only at a region that ends at the last guest address. *)
Lemma requirements_back pe m generic shared G rest :
  get_resource_requirements m [] generic = G.*1 ++ rest -> Forall (answered shared) G ->
  match given_back pe G with
  | AllBack => True
  | Refused what kept => what = "MEM Address"%string /\ exists b kept', GUEST_MEM_END pe < b + region_size (m_config m) /\
      kept = (RC_MemAddress None (m_alignment m) (region_size (m_config m)), MemAddressRange b (region_size (m_config m))) :: kept'
  | Dies => False
  end.
Proof.
  intros E Ha.
  assert (Hshape : Forall (fun req => match req with RC_KvmMemSlot _ n => n = 1 | RC_PioAddress _ _ _ => False
      | RC_MemAddress range al sz => range = None /\ al = m_alignment m /\ sz = region_size (m_config m) | _ => True end) (G.*1 ++ rest)).
  { rewrite <- E. unfold get_resource_requirements. rewrite !Forall_app. split_and!; [by constructor|by repeat constructor|destruct generic; by repeat constructor|by repeat constructor|].
    by apply Forall_replicate. }
  apply Forall_app in Hshape as [Hs _]. clear E. induction G as [|[req res] G IH]; [done|]. rewrite fmap_cons in Hs.
  apply Forall_cons in Hs as [H1 Hs], Ha as [Ha HG]. specialize (IH HG Hs). cbn [fst snd] in H1. unfold answered in Ha. cbn [fst snd] in Ha.
  destruct req, res; try done; cbn [given_back]; try exact IH.
  - destruct H1 as (-> & -> & ->), Ha as (-> & _). destruct (Z.leb_spec (base + region_size (m_config m)) (GUEST_MEM_END pe)); [exact IH|].
    split; [done|]. by exists base, G.
  - subst. exact IH.
Qed.

(** C29. A new virtio-mem device and any resource manager that keeps its invariant fit together.  The
    manager answers the device's requests, or reports [NoAvailResource] with its
    pools unchanged, or, if the region it had found ends at the last guest address and a later request
    cannot be met, fails to give the region back and leaves it taken.  What it hands out is accepted by [set_resource],
    which fails only when the host does; and then the region starts on the alignment the guest
    needs, at addresses that were free in the memory pool, and is ready for use. *)
Theorem virtio_mem_gets_its_resources w bits pe rm cap_mib req_mib multi numa boot m generic shared :
  GUEST_PHYS_END bits = Ret pe -> bits <= 52 -> rm_inv pe rm ->
  0 <= cap_mib <= 2 ^ 40 -> 0 <= req_mib <= 2 ^ 40 -> 0 <= boot ->
  Mem_new cap_mib req_mib multi numa boot = Ret (Ok m) ->
  exists r rm', allocate_device_resources pe rm (get_resource_requirements m [] generic) shared = Ret (r, rm') /\
    match r with
    | Err e => (e = NoAvailResource /\ rm_same rm rm') \/
        (e = InvalidResourceRange "MEM Address" /\ exists b, b + region_size (m_config m) = GUEST_MEM_END pe + 1 /\
           (mkRange b (GUEST_MEM_END pe), Allocated) ∈ entries (mem_pool rm'))
    | Ok res => rm_inv pe rm' /\
        exists r m' w', Mem_set_resource w m res = Ret (r, m', w') /\
          ((exists e, r = Err (RegionError e)) \/
           r = Ok tt /\ mem_ok w' m' /\ usable_region_size (m_config m') = target_usable m /\
           (2 ^ 27 | cfg_addr (m_config m')) /\
           forall a, cfg_addr (m_config m') <= a < cfg_addr (m_config m') + region_size (m_config m) ->
             free_addr (entries (mem_pool rm)) a)
    end.
Proof.
  intros Hpe Hbits Hrm Hcap Hreq Hboot Hnew.
  destruct (Mem_new_ok cap_mib req_mib multi numa boot Hcap Hreq Hboot) as (a & r & Hal & E & Hr).
  rewrite Hnew in E. injection E as <-. destruct Hr as (_ & Hdev & _).
  destruct (n_align _ _ _ _ _ Hdev) as (k & Hk & Ha & _). destruct (n_region _ _ _ _ _ Hdev) as (Hrg & _ & Hpos).
  assert (0 < 2 ^ k <= 2 ^ 31) by (split; [apply Z.pow_pos_nonneg; lia|apply Z.pow_le_mono_r; lia]).
  assert (Hmax : region_size (m_config m) <= u64_max) by (rewrite Ha in Hrg; ulia).
  pose proof (requirements_ok m _ _ _ _ generic Hdev Hmax) as Hok.
  destruct (allocate_resource_list_ok pe rm shared (get_resource_requirements m [] generic) rm [] Hrm)
    as (G & rest & rm1 & Ereq & Hans & Hh & Hout); [by eapply rm_ledger_refl|done..|]. cbn [app] in *.
  pose proof (requirements_claims _ _ _ _ Ereq) as Hcl. unfold requests_ok in Hout. destruct rest as [|req0 rest].
  2: { destruct Hout as [_ Hout]. pose proof (requirements_back pe _ _ _ _ _ Ereq Hans) as Hb.
    destruct (given_back pe G) as [|what kept|]; [|destruct Hb as (-> & b & kept' & Hb & ->)|done]; destruct Hout as (rm2 & Eout & Hs).
    - exists (Err NoAvailResource), rm2. split; [exact Eout|]. by left.
    - eexists _, rm2. split; [exact Eout|]. right. split; [done|]. exists b. cbn [fmap list_fmap] in Hs.
      destruct (free_head_pool _ _ _ _ _ _ _ Hrm Hs) as (_ & _ & Hhi & _). cbn in Hhi.
      assert (Eb : b + region_size (m_config m) = GUEST_MEM_END pe + 1) by lia. split; [exact Eb|].
      assert (Hbusy : busy (entries (mem_pool rm2)) (mkRange b (GUEST_MEM_END pe)) Allocated); [|apply Hbusy].
      apply (holds_busy _ _ _ (Hs MemPool)). right. unfold taken. cbn. replace (b + region_size (m_config m) - 1) with (GUEST_MEM_END pe) by lia. set_solver. }
  eexists _, rm1. split; [exact Hout|]. cbv iota. split; [by eapply rm_ledger_inv|].
  rewrite app_nil_r in Ereq. rewrite Hcl in Hh. fold (rm_holds rm rm1 G.*2) in Hh.
  assert (Hans' : Forall2 (answers shared) (get_resource_requirements m [] generic) G.*2).
  { rewrite Ereq. clear -Hans. induction Hans; constructor; auto. }
  clear Hans. rename Hans' into Hans. set (l := G.*2) in *. clearbody l.
  destruct (answered_requirements _ _ _ _ Hans) as (b & Hmem & Hd & Hin & Hsl).
  destruct (new_align_block _ _ _ _ _ _ Hdev Hd) as [Hb22 Hb27].
  destruct (mem_range_bounds _ _ _ _ _ _ _ Hpe Hbits Hrm Hh Hin) as (Hb0 & Hbt & Hfree).
  unfold Mem_set_resource. rewrite Hmem.
  destruct (set_resource_ok w m cap_mib req_mib multi boot b (region_size (m_config m)) (get_kvm_mem_slots (mkDeviceResources l)))
    as (r & m' & w' & -> & Hr); [lia|done|done|].
  exists r, m', w'. split; [done|]. unfold resource_fits in Hr. rewrite Hsl, Z2Nat.id, !Z.eqb_refl in Hr by (by apply slot_num_pos).
  destruct Hr as [(-> & Hok' & <- & Hu)|Hr]; [right|by left]. by split_and!.
Qed.
End Together.

(** ** At work *)

#[local] Existing Instance toy_host.
#[local] Existing Instance toy_host_laws.

Lemma ex_rm_inv : rm_inv ex_phys_end ex_rm.
Proof. apply (ResourceManager_new_inv 46 ex_phys_end None); [done..|]. by vm_compute. Qed.

Lemma virtio_mem_gets_its_resources_witness :
  exists r rm', allocate_device_resources ex_phys_end ex_rm (get_resource_requirements toy_new [] true) false = Ret (r, rm') /\
    match r with
    | Ok res => exists m' w', Mem_set_resource 1 toy_new res = Ret (Ok tt, m', w') /\ mem_ok w' m'
    | Err _ => False
    end.
Proof.
  destruct (virtio_mem_gets_its_resources 1 46 ex_phys_end ex_rm 4096 2560 true None 0 toy_new true false)
    as (r & rm' & E & Hr); [done|lia|apply ex_rm_inv|lia..|exact toy_new_ok|].
  exists r, rm'. split; [exact E|].
  assert (Hv : match allocate_device_resources ex_phys_end ex_rm (get_resource_requirements toy_new [] true) false with
               | Ret (Ok res, _) => match Mem_set_resource 1 toy_new res with Ret (Ok _, _, _) => True | _ => False end
               | _ => False
               end) by (vm_compute; exact I).
  rewrite E in Hv. destruct r as [res|]; [|done]. destruct Hr as (_ & r & m' & w' & Es & Hr). rewrite Es in Hv.
  destruct Hr as [[e ->]|(-> & Hok & _)]; [done|]. by exists m', w'.
Defined.
