(* ===== verification/Interrupt.v ===== *)
(** Device interrupts (dbs_interrupt/src): the traits of lib.rs as an interface,
    and the manager of a device's interrupt modes and MSI messages of manager.rs,
    for the x86_64 build with legacy and MSI interrupts.

    An interrupt group is an object behind an [Arc]; here it is a handle into the
    world [W] that also holds the state of the hypervisor.  An error of
    [std::io::Error] is its [errno]. *)

From S2P Require Import Prelude Resources.

Definition EINVAL : Z := 22.
Definition EEXIST : Z := 17.
Definition ENOENT : Z := 2.
Definition usize_max : Z := u64_max.

(** ** lib.rs *)

Inductive InterruptSourceType : Type := LegacyIrqSource | MsiIrqSource.

#[global] Instance InterruptSourceType_eq_dec : EqDecision InterruptSourceType.
Proof. solve_decision. Defined.

Record MsiIrqSourceConfig := mkMsiIrqSourceConfig {
  high_addr : Z;
  low_addr : Z;
  msi_data : Z;
  msg_ctl : Z;
  device_id : option Z;
}.

Definition MsiIrqSourceConfig_default : MsiIrqSourceConfig := mkMsiIrqSourceConfig 0 0 0 0 None.

Inductive InterruptSourceConfig : Type :=
| LegacyIrqConfig
| MsiIrqConfig (c : MsiIrqSourceConfig).

(** [InterruptManager] and [InterruptSourceGroup]. *)
Class InterruptManager (W : Type) := {
  create_group : W -> InterruptSourceType -> Z -> Z -> outcome (result Z Z * W);
  group_type : W -> Z -> InterruptSourceType;
  group_len : W -> Z -> Z;
  group_enable : W -> Z -> list InterruptSourceConfig -> result unit Z * W;
  group_disable : W -> Z -> result unit Z * W;
  group_update : W -> Z -> Z -> InterruptSourceConfig -> result unit Z * W;
  group_mask : W -> Z -> Z -> result unit Z * W;
  group_unmask : W -> Z -> Z -> result unit Z * W;
}.

(** ** manager.rs *)

Definition MSI_INT_MASK : Z := 1.
Definition LEGACY_CONFIGS : list InterruptSourceConfig := [LegacyIrqConfig].

Inductive DeviceInterruptMode : Type :=
| Disabled | LegacyIrqMode | GenericMsiIrqMode | PciMsiIrqMode | PciMsixIrqMode.

#[global] Instance DeviceInterruptMode_eq_dec : EqDecision DeviceInterruptMode.
Proof. solve_decision. Defined.

(** [mode as usize]. *)
Definition mode_index (m : DeviceInterruptMode) : nat :=
  match m with
  | Disabled => 0 | LegacyIrqMode => 1 | GenericMsiIrqMode => 2 | PciMsiIrqMode => 3 | PciMsixIrqMode => 4
  end.

Record DeviceInterruptManager := mkDIM {
  im_mode : DeviceInterruptMode;
  im_activated : bool;
  im_current_idx : Z;
  im_mode2idx : list Z;
  im_groups : list Z;
  im_msi_config : list InterruptSourceConfig;
  im_device_id : option Z;
}.

Definition set_im_mode (d : DeviceInterruptManager) (x : DeviceInterruptMode) : DeviceInterruptManager :=
  let '(mkDIM _ b c e f g h) := d in mkDIM x b c e f g h.
Definition set_im_activated (d : DeviceInterruptManager) (x : bool) : DeviceInterruptManager :=
  let '(mkDIM a _ c e f g h) := d in mkDIM a x c e f g h.
Definition set_im_current_idx (d : DeviceInterruptManager) (x : Z) : DeviceInterruptManager :=
  let '(mkDIM a b _ e f g h) := d in mkDIM a b x e f g h.
Definition set_im_msi_config (d : DeviceInterruptManager) (x : list InterruptSourceConfig) : DeviceInterruptManager :=
  let '(mkDIM a b c e f _ h) := d in mkDIM a b c e f x h.

(** [mode2idx[mode as usize]]; the array has five entries. *)
Definition mode2idx (d : DeviceInterruptManager) (mode : DeviceInterruptMode) : outcome Z :=
  match im_mode2idx d !! mode_index mode with Some i => Ret i | None => Panic end.

(** [intr_groups[idx]]. *)
Definition group_at (d : DeviceInterruptManager) (idx : Z) : outcome Z :=
  if idx <? Z.of_nat (length (im_groups d)) then unwrap (im_groups d !! Z.to_nat idx) else Panic.

Definition resize_msi_config_space (d : DeviceInterruptManager) (size : Z) : DeviceInterruptManager :=
  if Z.of_nat (length (im_msi_config d)) <? size
  then set_im_msi_config d (replicate (Z.to_nat size) (MsiIrqConfig MsiIrqSourceConfig_default))
  else d.

(** A new group for a mode. *)
Definition add_group (d : DeviceInterruptManager) (mode : DeviceInterruptMode) (g : Z) : DeviceInterruptManager :=
  let '(mkDIM a b c e f m h) := d in
  mkDIM a b c (<[mode_index mode := Z.of_nat (length f)]> e) (f ++ [g]) m h.

Definition set_device_id (d : DeviceInterruptManager) (x : option Z) : DeviceInterruptManager :=
  let '(mkDIM a b c e f g _) := d in mkDIM a b c e f g x.

Definition is_enabled (d : DeviceInterruptManager) : bool := im_activated d.

Definition get_working_mode (d : DeviceInterruptManager) : DeviceInterruptMode := im_mode d.

Definition reset_configs (d : DeviceInterruptManager) (mode : DeviceInterruptMode) : DeviceInterruptManager :=
  match mode with
  | GenericMsiIrqMode | PciMsiIrqMode | PciMsixIrqMode =>
      set_im_msi_config d (replicate (length (im_msi_config d)) (MsiIrqConfig MsiIrqSourceConfig_default))
  | _ => d
  end.

Definition set_working_mode (d : DeviceInterruptManager) (mode : DeviceInterruptMode) :
  outcome (result unit Z * DeviceInterruptManager) :=
  if im_activated d then Ret (Err EINVAL, d) else
  if decide (mode = im_mode d) then Ret (Ok tt, d) else
  if bool_decide (im_mode d <> Disabled) && bool_decide (im_mode d <> LegacyIrqMode) &&
     bool_decide (mode <> LegacyIrqMode) && bool_decide (mode <> Disabled)
  then Ret (Err EINVAL, d) else
  let! d := if decide (mode = Disabled) then Ret (reset_configs d mode)
            else let! i := mode2idx d mode in Ret (set_im_current_idx d i) in
  Ret (Ok tt, set_im_mode d mode).

(** The MSI entry at [index], changed by [f]. *)
Definition update_msi (d : DeviceInterruptManager) (index : Z) (f : MsiIrqSourceConfig -> MsiIrqSourceConfig) :
  result unit Z * DeviceInterruptManager :=
  match im_msi_config d !! Z.to_nat index with
  | Some (MsiIrqConfig c) => (Ok tt, set_im_msi_config d (<[Z.to_nat index := MsiIrqConfig (f c)]> (im_msi_config d)))
  | _ => (Err EINVAL, d)
  end.

Definition set_msi_high_address (d : DeviceInterruptManager) (index x : Z) : result unit Z * DeviceInterruptManager :=
  update_msi d index (fun c => let '(mkMsiIrqSourceConfig _ b e f g) := c in mkMsiIrqSourceConfig x b e f g).
Definition set_msi_low_address (d : DeviceInterruptManager) (index x : Z) : result unit Z * DeviceInterruptManager :=
  update_msi d index (fun c => let '(mkMsiIrqSourceConfig a _ e f g) := c in mkMsiIrqSourceConfig a x e f g).
Definition set_msi_data (d : DeviceInterruptManager) (index x : Z) : result unit Z * DeviceInterruptManager :=
  update_msi d index (fun c => let '(mkMsiIrqSourceConfig a b _ f g) := c in mkMsiIrqSourceConfig a b x f g).
Definition set_msi_mask (d : DeviceInterruptManager) (index : Z) (mask : bool) : result unit Z * DeviceInterruptManager :=
  update_msi d index (fun c =>
    let '(mkMsiIrqSourceConfig a b e f g) := c in
    let msg_ctl := Z.land f (Z.lxor u32_max MSI_INT_MASK) in
    mkMsiIrqSourceConfig a b e (if mask then Z.lor msg_ctl MSI_INT_MASK else msg_ctl) g).

Definition get_msi_mask (d : DeviceInterruptManager) (index : Z) : result bool Z :=
  match im_msi_config d !! Z.to_nat index with
  | Some (MsiIrqConfig c) => Ok (Z.land (msg_ctl c) MSI_INT_MASK =? MSI_INT_MASK)
  | _ => Err EINVAL
  end.

Section Manager.
Context {W : Type} `{InterruptManager W}.

(** One of the blocks of [new]: the group of a mode, if its resource is there. *)
Definition new_msi_group (w : W) (d : DeviceInterruptManager) (mode : DeviceInterruptMode) (res : option (Z * Z)) :
  outcome (result DeviceInterruptManager Z * W) :=
  match res with
  | None => Ret (Ok d, w)
  | Some (base, size) =>
      let! (r, w) := create_group w MsiIrqSource base size in
      match r with
      | Err e => Ret (Err e, w)
      | Ok g => Ret (Ok (add_group (resize_msi_config_space d (group_len w g)) mode g), w)
      end
  end.

Definition DIM_empty : DeviceInterruptManager := mkDIM Disabled false usize_max (replicate 5 usize_max) [] [] None.

Definition DeviceInterruptManager_new (w : W) (resources : DeviceResources) :
  outcome (result DeviceInterruptManager Z * W) :=
  let! (r, w) :=
    match get_legacy_irq resources with
    | None => Ret (Ok DIM_empty, w)
    | Some irq =>
        let! (r, w) := create_group w LegacyIrqSource irq 1 in
        match r with
        | Err e => Ret (Err e, w)
        | Ok g => Ret (Ok (add_group DIM_empty LegacyIrqMode g), w)
        end
    end in
  match r with
  | Err e => Ret (Err e, w)
  | Ok mgr =>
      let! (r, w) := new_msi_group w mgr GenericMsiIrqMode (get_generic_msi_irqs resources) in
      match r with
      | Err e => Ret (Err e, w)
      | Ok mgr =>
          let! (r, w) := new_msi_group w mgr PciMsiIrqMode (get_pci_msi_irqs resources) in
          match r with
          | Err e => Ret (Err e, w)
          | Ok mgr => new_msi_group w mgr PciMsixIrqMode (get_pci_msix_irqs resources)
          end
      end
  end.

Definition get_configs (w : W) (d : DeviceInterruptManager) (mode : DeviceInterruptMode) :
  outcome (list InterruptSourceConfig) :=
  match mode with
  | LegacyIrqMode => Ret LEGACY_CONFIGS
  | GenericMsiIrqMode | PciMsiIrqMode | PciMsixIrqMode =>
      let! idx := mode2idx d mode in
      let! g := group_at d idx in
      if Z.of_nat (length (im_msi_config d)) <? group_len w g then Panic
      else Ret (take (Z.to_nat (group_len w g)) (im_msi_config d))
  | Disabled => Panic
  end.

(** The rest of [enable], once the mode is chosen. *)
Definition enable_current (w : W) (d : DeviceInterruptManager) :
  outcome (result unit Z * DeviceInterruptManager * W) :=
  if decide (im_mode d = Disabled) then Ret (Err EINVAL, d, w) else
  let! g := group_at d (im_current_idx d) in
  let! configs := get_configs w d (im_mode d) in
  match group_enable w g configs with
  | (Err e, w) => Ret (Err e, d, w)
  | (Ok _, w) => Ret (Ok tt, set_im_activated d true, w)
  end.

(** [DeviceInterruptManager::enable]. *)
Definition DIM_enable (w : W) (d : DeviceInterruptManager) :
  outcome (result unit Z * DeviceInterruptManager * W) :=
  if im_activated d then Ret (Ok tt, d, w) else
  let! legacy := mode2idx d LegacyIrqMode in
  let! (r, d) :=
    if bool_decide (im_mode d = Disabled) && negb (legacy =? usize_max)
    then set_working_mode d LegacyIrqMode else Ret (Ok tt, d) in
  match r with
  | Err e => Ret (Err e, d, w)
  | Ok _ => enable_current w d
  end.

(** [DeviceInterruptManager::reset]. *)
Definition DIM_reset (w : W) (d : DeviceInterruptManager) :
  outcome (result unit Z * DeviceInterruptManager * W) :=
  let! (r, d, w) :=
    if im_activated d then
      let d := set_im_activated d false in
      let! g := group_at d (im_current_idx d) in
      let '(r, w) := group_disable w g in Ret (r, d, w)
    else Ret (Ok tt, d, w) in
  match r with
  | Err e => Ret (Err e, d, w)
  | Ok _ => let! (r, d) := set_working_mode d Disabled in Ret (r, d, w)
  end.

Definition get_group (d : DeviceInterruptManager) : outcome (option Z) :=
  if negb (im_activated d) || bool_decide (im_mode d = Disabled) then Ret None
  else let! g := group_at d (im_current_idx d) in Ret (Some g).

(** [DeviceInterruptManager::update]. *)
Definition DIM_update (w : W) (d : DeviceInterruptManager) (index : Z) : outcome (result unit Z * W) :=
  if negb (im_activated d) then Ret (Err EINVAL, w) else
  match im_mode d with
  | GenericMsiIrqMode | PciMsiIrqMode | PciMsixIrqMode =>
      let! g := group_at d (im_current_idx d) in
      if (index >=? group_len w g) || (index >=? as_u32 (Z.of_nat (length (im_msi_config d))))
      then Ret (Err EINVAL, w) else
      match im_msi_config d !! Z.to_nat index with
      | None => Panic
      | Some c => Ret (group_update w g index c)
      end
  | _ => Ret (Err EINVAL, w)
  end.
End Manager.

(** ** InterruptStatusRegister32 *)

Definition status_set_bits (s v : Z) : Z := Z.lor s v.
Definition status_clear_bits (s v : Z) : Z := Z.land s (Z.lxor u32_max v).
Definition status_write (s v : Z) : Z := v.
Definition status_read_and_clear (s : Z) : Z * Z := (s, 0).
