(* ===== verification/KvmIrq.v ===== *)
(** Interrupts through KVM (dbs_interrupt/src/kvm): the table of interrupt routes
    of the virtual machine, the groups of legacy and MSI interrupts, and the
    manager that creates them, as an implementation of the interface of
    Interrupt.v.

    The calls to the kernel are a parameter.  Groups live on a heap; a handle is
    an index into it. *)

From S2P Require Import Prelude Resources Interrupt.

Definition MAX_IRQS : Z := 1024.
Definition DEFAULT_MAX_MSI_IRQS_PER_DEVICE : Z := 256.
Definition MAX_LEGACY_IRQS : Z := 24.

(** From linux/kvm.h, through the crate kvm-bindings. *)
Definition KVM_IRQ_ROUTING_IRQCHIP : Z := 1.
Definition KVM_IRQ_ROUTING_MSI : Z := 2.
Definition KVM_IRQCHIP_PIC_MASTER : Z := 0.
Definition KVM_IRQCHIP_PIC_SLAVE : Z := 1.
Definition KVM_IRQCHIP_IOAPIC : Z := 2.
Definition KVM_MSI_VALID_DEVID : Z := 1.

(** [kvm_irq_routing_entry] with its union. *)
Inductive RouteTarget : Type :=
| RouteIrqchip (irqchip pin : Z)
| RouteMsi (address_hi address_lo data devid : Z).

Record RoutingEntry := mkEntry {
  re_gsi : Z;
  re_flags : Z;
  re_u : RouteTarget;
}.

Definition re_type (e : RoutingEntry) : Z :=
  match re_u e with RouteIrqchip _ _ => KVM_IRQ_ROUTING_IRQCHIP | RouteMsi _ _ _ _ => KVM_IRQ_ROUTING_MSI end.

Definition hash_key (e : RoutingEntry) : Z :=
  let type1 := match re_u e with RouteIrqchip chip _ => chip | _ => 0 end in
  Z.lor (Z.lor (as_u64 (Z.shiftl type1 48)) (Z.shiftl (re_type e) 32)) (re_gsi e).

Class Kvm (V : Type) := {
  eventfd_new : V -> result Z Z * V;
  register_irqfd : V -> Z -> Z -> result unit Z * V;
  unregister_irqfd : V -> Z -> Z -> result unit Z * V;
  set_gsi_routing : V -> gmap Z RoutingEntry -> result unit Z * V;
}.

(** [LegacyIrq] and [MsiIrq]; an MSI group has its [MsiConfig]s. *)
Inductive IrqGroup : Type :=
| LegacyGroup (base irqfd : Z)
| MsiGroup (base count : Z) (msi_configs : list (Z * MsiIrqSourceConfig)).

(** [KvmIrqManagerObj] with the routes it shares with its groups. *)
Record KvmIrqManager (V : Type) := mkKvmIrqManager {
  k_vm : V;
  k_routes : gmap Z RoutingEntry;
  k_groups : gmap Z Z;
  k_heap : list IrqGroup;
  k_max_msi_irqs : Z;
}.
Arguments mkKvmIrqManager {V}.
Arguments k_vm {V}.
Arguments k_routes {V}.
Arguments k_groups {V}.
Arguments k_heap {V}.
Arguments k_max_msi_irqs {V}.

Definition KvmIrqManager_new {V} (vm : V) : KvmIrqManager V :=
  mkKvmIrqManager vm ∅ ∅ [] DEFAULT_MAX_MSI_IRQS_PER_DEVICE.

Definition set_max_msi_irqs {V} (k : KvmIrqManager V) (x : Z) : KvmIrqManager V :=
  let '(mkKvmIrqManager a b c d _) := k in mkKvmIrqManager a b c d x.
Definition set_k_vm {V} (k : KvmIrqManager V) (x : V) : KvmIrqManager V :=
  let '(mkKvmIrqManager _ b c d e) := k in mkKvmIrqManager x b c d e.
Definition set_k_routes {V} (k : KvmIrqManager V) (x : gmap Z RoutingEntry) : KvmIrqManager V :=
  let '(mkKvmIrqManager a _ c d e) := k in mkKvmIrqManager a x c d e.
Definition set_k_heap {V} (k : KvmIrqManager V) (x : list IrqGroup) : KvmIrqManager V :=
  let '(mkKvmIrqManager a b c _ e) := k in mkKvmIrqManager a b c x e.

(** ** msi_generic.rs *)

Definition new_msi_routing_entry (gsi : Z) (c : MsiIrqSourceConfig) : RoutingEntry :=
  mkEntry gsi (match device_id c with Some _ => KVM_MSI_VALID_DEVID | None => 0 end)
    (RouteMsi (high_addr c) (low_addr c) (msi_data c) (default 0 (device_id c))).

Fixpoint msi_entries (gsi : Z) (configs : list InterruptSourceConfig) : result (list RoutingEntry) Z :=
  match configs with
  | [] => Ok []
  | MsiIrqConfig c :: configs =>
      match msi_entries (gsi + 1) configs with
      | Ok es => Ok (new_msi_routing_entry gsi c :: es)
      | Err e => Err e
      end
  | LegacyIrqConfig :: _ => Err EINVAL
  end.

Definition create_msi_routing_entries (base : Z) (configs : list InterruptSourceConfig) :
  result (list RoutingEntry) Z :=
  match checked_add u32_max base (as_u32 (Z.of_nat (length configs))) with
  | None => Err EINVAL
  | Some _ => msi_entries base configs
  end.

(** ** legacy_irq.rs: the routes of the interrupt controllers *)

Definition add_legacy_entry (gsi chip pin : Z) (routes : gmap Z RoutingEntry) : gmap Z RoutingEntry :=
  let entry := mkEntry gsi 0 (RouteIrqchip chip pin) in <[hash_key entry := entry]> routes.

Definition initialize_legacy (routes : gmap Z RoutingEntry) : gmap Z RoutingEntry :=
  let routes := foldl (fun r i => if negb (i =? 2) then add_legacy_entry i KVM_IRQCHIP_PIC_MASTER i r else r)
                  routes (seqZ 0 8) in
  let routes := foldl (fun r i => add_legacy_entry i KVM_IRQCHIP_PIC_SLAVE (i - 8) r) routes (seqZ 8 8) in
  foldl (fun r i => if i =? 0 then add_legacy_entry i KVM_IRQCHIP_IOAPIC 2 r
                    else if negb (i =? 2) then add_legacy_entry i KVM_IRQCHIP_IOAPIC i r else r)
    routes (seqZ 0 MAX_LEGACY_IRQS).

Section Kvm.
Context {V : Type} `{Kvm V}.
Notation K := (KvmIrqManager V).

(** ** KvmIrqRouting *)

Definition set_routing (k : K) : result unit Z * K :=
  let '(r, v) := set_gsi_routing (k_vm k) (k_routes k) in (r, set_k_vm k v).

(** [KvmIrqManager::initialize]. *)
Definition KvmIrqManager_initialize (k : K) : result unit Z * K :=
  set_routing (set_k_routes k (initialize_legacy (k_routes k))).

(** The checks of [add]. *)
Fixpoint add_check (routes : gmap Z RoutingEntry) (entries : list RoutingEntry) : result unit Z :=
  match entries with
  | [] => Ok tt
  | e :: entries =>
      if re_gsi e >=? MAX_IRQS then Err EINVAL
      else if bool_decide (is_Some (routes !! hash_key e)) then Err EEXIST
      else add_check routes entries
  end.

Definition routing_add (k : K) (entries : list RoutingEntry) : result unit Z * K :=
  match add_check (k_routes k) entries with
  | Err e => (Err e, k)
  | Ok _ => set_routing (set_k_routes k (foldl (fun r e => <[hash_key e := e]> r) (k_routes k) entries))
  end.

Definition routing_remove (k : K) (entries : list RoutingEntry) : result unit Z * K :=
  set_routing (set_k_routes k (foldl (fun r e => delete (hash_key e) r) (k_routes k) entries)).

Definition routing_modify (k : K) (entry : RoutingEntry) : result unit Z * K :=
  if bool_decide (is_Some (k_routes k !! hash_key entry))
  then set_routing (set_k_routes k (<[hash_key entry := entry]> (k_routes k)))
  else (Err ENOENT, k).

(** ** Creating groups *)

(** [count] new [MsiConfig]s; [EventFd::new(..).unwrap()]. *)
Fixpoint new_msi_configs (n : nat) (v : V) : outcome (list (Z * MsiIrqSourceConfig) * V) :=
  match n with
  | O => Ret ([], v)
  | S n =>
      match eventfd_new v with
      | (Err _, _) => Panic
      | (Ok fd, v) => let! (l, v) := new_msi_configs n v in Ret ((fd, MsiIrqSourceConfig_default) :: l, v)
      end
  end.

(** [LegacyIrq::new] and [MsiIrq::new]. *)
Definition new_group (k : K) (ty : InterruptSourceType) (base count : Z) : outcome (result IrqGroup Z * K) :=
  match ty with
  | LegacyIrqSource =>
      if negb (count =? 1) then Ret (Err EINVAL, k) else
      if base >=? MAX_LEGACY_IRQS then Ret (Err EINVAL, k) else
      match eventfd_new (k_vm k) with
      | (Err e, v) => Ret (Err e, set_k_vm k v)
      | (Ok fd, v) => Ret (Ok (LegacyGroup base fd), set_k_vm k v)
      end
  | MsiIrqSource =>
      let! too_far := if (count >? k_max_msi_irqs k) || (base >=? MAX_IRQS) then Ret true
                      else let! e := add_u u32_max base count in Ret (e >? MAX_IRQS) in
      if (too_far : bool) then Ret (Err EINVAL, k) else
      let! (configs, v) := new_msi_configs (Z.to_nat count) (k_vm k) in
      Ret (Ok (MsiGroup base count configs), set_k_vm k v)
  end.

Definition kvm_create_group (k : K) (ty : InterruptSourceType) (base count : Z) : outcome (result Z Z * K) :=
  let! (r, k) := new_group k ty base count in
  match r with
  | Err e => Ret (Err e, k)
  | Ok g =>
      let '(mkKvmIrqManager a b c d e) := k in
      let h := Z.of_nat (length d) in
      Ret (Ok h, mkKvmIrqManager a b (<[base := h]> c) (d ++ [g]) e)
  end.

Definition group_base (g : IrqGroup) : Z :=
  match g with LegacyGroup base _ => base | MsiGroup base _ _ => base end.

Definition destroy_group (k : K) (handle : Z) : K :=
  match k_heap k !! Z.to_nat handle with
  | None => k
  | Some g => let '(mkKvmIrqManager a b c d e) := k in mkKvmIrqManager a b (delete (group_base g) c) d e
  end.

(** ** Operations of a group *)

Definition kvm_group_type (k : K) (handle : Z) : InterruptSourceType :=
  match k_heap k !! Z.to_nat handle with Some (MsiGroup _ _ _) => MsiIrqSource | _ => LegacyIrqSource end.

Definition kvm_group_len (k : K) (handle : Z) : Z :=
  match k_heap k !! Z.to_nat handle with
  | Some (MsiGroup _ count _) => count
  | Some (LegacyGroup _ _) => 1
  | None => 0
  end.

(** A call on the irqfd of each interrupt, in order, until one fails. *)
Fixpoint each_irqfd (f : V -> Z -> Z -> result unit Z * V) (v : V) (gsi : Z) (l : list (Z * MsiIrqSourceConfig)) :
  result unit Z * V :=
  match l with
  | [] => (Ok tt, v)
  | (fd, _) :: l =>
      match f v fd gsi with
      | (Err e, v) => (Err e, v)
      | (Ok _, v) => each_irqfd f v (gsi + 1) l
      end
  end.

Definition with_irqfds (f : V -> Z -> Z -> result unit Z * V) (k : K) (gsi : Z) (l : list (Z * MsiIrqSourceConfig)) :
  result unit Z * K :=
  let '(r, v) := each_irqfd f (k_vm k) gsi l in (r, set_k_vm k v).

Definition irqfd_call (f : V -> Z -> Z -> result unit Z * V) (k : K) (fd gsi : Z) : result unit Z * K :=
  let '(r, v) := f (k_vm k) fd gsi in (r, set_k_vm k v).

Definition kvm_group_enable (k : K) (handle : Z) (configs : list InterruptSourceConfig) : result unit Z * K :=
  match k_heap k !! Z.to_nat handle with
  | Some (LegacyGroup base irqfd) =>
      if negb (length configs =? 1)%nat then (Err EINVAL, k) else irqfd_call register_irqfd k irqfd base
  | Some (MsiGroup base count msi_configs) =>
      if negb (Z.of_nat (length configs) =? count) then (Err EINVAL, k) else
      match create_msi_routing_entries base configs with
      | Err e => (Err e, k)
      | Ok entries =>
          match routing_add k entries with
          | (Err e, k) => if e =? EEXIST then with_irqfds register_irqfd k base msi_configs else (Err e, k)
          | (Ok _, k) => with_irqfds register_irqfd k base msi_configs
          end
      end
  | None => (Err EINVAL, k)
  end.

(** The entries that [disable] removes. *)
Fixpoint own_entries (gsi : Z) (l : list (Z * MsiIrqSourceConfig)) : list RoutingEntry :=
  match l with
  | [] => []
  | (_, c) :: l => new_msi_routing_entry gsi c :: own_entries (gsi + 1) l
  end.

Definition kvm_group_disable (k : K) (handle : Z) : result unit Z * K :=
  match k_heap k !! Z.to_nat handle with
  | Some (LegacyGroup base irqfd) => irqfd_call unregister_irqfd k irqfd base
  | Some (MsiGroup base count msi_configs) =>
      match with_irqfds unregister_irqfd k base msi_configs with
      | (Err e, k) => (Err e, k)
      | (Ok _, k) => routing_remove k (own_entries base msi_configs)
      end
  | None => (Err EINVAL, k)
  end.

Definition kvm_group_update (k : K) (handle index : Z) (config : InterruptSourceConfig) : result unit Z * K :=
  match k_heap k !! Z.to_nat handle with
  | Some (LegacyGroup _ _) => if negb (index =? 0) then (Err EINVAL, k) else (Ok tt, k)
  | Some (MsiGroup base count msi_configs) =>
      if index >=? count then (Err EINVAL, k) else
      match config, msi_configs !! Z.to_nat index with
      | MsiIrqConfig cfg, Some (fd, msicfg) =>
          let msicfg := mkMsiIrqSourceConfig (high_addr cfg) (low_addr cfg) (msi_data cfg) (msg_ctl msicfg) (device_id cfg) in
          let g := MsiGroup base count (<[Z.to_nat index := (fd, msicfg)]> msi_configs) in
          routing_modify (set_k_heap k (<[Z.to_nat handle := g]> (k_heap k))) (new_msi_routing_entry (base + index) msicfg)
      | _, _ => (Err EINVAL, k)
      end
  | None => (Err EINVAL, k)
  end.

(** [mask] and [unmask] are the two calls on one irqfd. *)
Definition kvm_group_mask_with (f : V -> Z -> Z -> result unit Z * V) (k : K) (handle index : Z) : result unit Z * K :=
  match k_heap k !! Z.to_nat handle with
  | Some (LegacyGroup base irqfd) =>
      if index >? 1 then (Err EINVAL, k) else irqfd_call f k irqfd (base + index)
  | Some (MsiGroup base count msi_configs) =>
      if index >=? count then (Err EINVAL, k) else
      match msi_configs !! Z.to_nat index with
      | Some (fd, _) => irqfd_call f k fd (base + index)
      | None => (Err EINVAL, k)
      end
  | None => (Err EINVAL, k)
  end.
Definition kvm_group_mask : K -> Z -> Z -> result unit Z * K := kvm_group_mask_with unregister_irqfd.
Definition kvm_group_unmask : K -> Z -> Z -> result unit Z * K := kvm_group_mask_with register_irqfd.
End Kvm.

#[global] Instance KvmInterruptManager {V} `{Kvm V} : InterruptManager (KvmIrqManager V) := {|
  create_group := kvm_create_group;
  group_type := kvm_group_type;
  group_len := kvm_group_len;
  group_enable := kvm_group_enable;
  group_disable := kvm_group_disable;
  group_update := kvm_group_update;
  group_mask := kvm_group_mask;
  group_unmask := kvm_group_unmask;
|}.
