(* ===== verification/InterruptSpec.v ===== *)
(** Correctness of the device interrupt manager, against what an interrupt
    manager promises about its groups. *)

From S2P Require Import Prelude Resources Interrupt.

(** ** What groups promise *)

(** Groups keep their number of interrupts, whatever is done to any group. *)
Class InterruptManagerLaws (W : Type) `{InterruptManager W} := {
  group_valid : W -> Z -> Prop;
  groups_kept : W -> W -> Prop := fun w w' =>
    forall g, group_valid w g -> group_valid w' g /\ group_len w' g = group_len w g;
  create_group_ok w ty base count r w' : create_group w ty base count = Ret (r, w') ->
    groups_kept w w' /\ match r with Ok g => group_valid w' g /\ group_len w' g = count | Err _ => True end;
  enable_kept w g cs : groups_kept w (group_enable w g cs).2;
  disable_kept w g : groups_kept w (group_disable w g).2;
  update_kept w g i c : groups_kept w (group_update w g i c).2;
  mask_kept w g i : groups_kept w (group_mask w g i).2;
  unmask_kept w g i : groups_kept w (group_unmask w g i).2;
}.

Definition is_msi (mode : DeviceInterruptMode) : bool :=
  match mode with GenericMsiIrqMode | PciMsiIrqMode | PciMsixIrqMode => true | _ => false end.

(** The index of the group of a mode, when the device has one. *)
Definition mode_group (d : DeviceInterruptManager) (mode : DeviceInterruptMode) : option Z :=
  match im_mode2idx d !! mode_index mode with
  | Some i => if i =? usize_max then None else im_groups d !! Z.to_nat i
  | None => None
  end.

Section Manager.
Context {W : Type} `{InterruptManagerLaws W}.

(** The group [g] of mode [mode], in the world [w]. *)
Definition mode_ok (w : W) (d : DeviceInterruptManager) (mode : DeviceInterruptMode) : Prop :=
  exists i, im_mode2idx d !! mode_index mode = Some i /\
    (i = usize_max \/
     0 <= i < usize_max /\ mode <> Disabled /\ exists g, im_groups d !! Z.to_nat i = Some g /\ group_valid w g /\
       (is_msi mode = true -> 0 <= group_len w g <= Z.of_nat (length (im_msi_config d)))).

Record dim_ok (w : W) (d : DeviceInterruptManager) : Prop := {
  d_len : length (im_mode2idx d) = 5%nat;
  d_groups : Z.of_nat (length (im_groups d)) < usize_max;
  d_modes : forall mode, mode_ok w d mode;
  d_small : Z.of_nat (length (im_msi_config d)) <= u32_max;
  d_msi : Forall (fun c => exists m, c = MsiIrqConfig m) (im_msi_config d);
  d_current : im_mode d <> Disabled -> im_mode2idx d !! mode_index (im_mode d) = Some (im_current_idx d);
  d_active : im_activated d = true -> is_Some (mode_group d (im_mode d));
}.

(** The operations that keep groups keep the invariant. *)
Lemma dim_ok_kept w w' d : groups_kept w w' -> dim_ok w d -> dim_ok w' d.
Proof.
  intros Hk [? ? Hm ? ? ? ?]. constructor; try done. intros mode. destruct (Hm mode) as (i & Hi & Hg). exists i. split; [done|].
  destruct Hg as [|(? & ? & g & ? & Hv & Hl)]; [by left|right]. destruct (Hk g Hv) as [Hv' Hl'].
  split; [done|]. split; [done|]. exists g. by rewrite Hl'.
Qed.

Lemma mode2idx_ok w d mode :
  dim_ok w d -> exists i, mode2idx d mode = Ret i /\ im_mode2idx d !! mode_index mode = Some i /\
    (mode_group d mode = None <-> i = usize_max) /\ (i <> usize_max -> 0 <= i < usize_max).
Proof.
  intros Hd. destruct (d_modes _ _ Hd mode) as (i & Hi & Hg). exists i. unfold mode2idx, mode_group. rewrite Hi.
  split; [done|]. split; [done|]. destruct Hg as [->|(Hr & _ & g & Hg & _)].
  - by rewrite Z.eqb_refl.
  - rewrite (proj2 (Z.eqb_neq i usize_max)) by lia. rewrite Hg. split; [|lia]. split; [done|lia].
Qed.

Lemma group_at_eq d idx : group_at d idx = unwrap (im_groups d !! Z.to_nat idx).
Proof.
  unfold group_at. destruct (Z.ltb_spec idx (Z.of_nat (length (im_groups d)))) as [|Hge]; [done|].
  rewrite lookup_ge_None_2 by lia. done.
Qed.

(** The group of the current mode. *)
Lemma current_group w d :
  dim_ok w d -> im_mode d <> Disabled ->
  match mode_group d (im_mode d) with
  | Some g => group_at d (im_current_idx d) = Ret g
  | None => im_current_idx d = usize_max /\ group_at d (im_current_idx d) = Panic
  end.
Proof.
  intros Hd Hm. pose proof (d_current _ _ Hd Hm) as Hc. destruct (mode2idx_ok w d (im_mode d) Hd) as (i & _ & Hi & Hn & Hr).
  rewrite Hc in Hi. injection Hi as <-. rewrite !group_at_eq. unfold mode_group in *. rewrite Hc in *.
  destruct (Z.eqb_spec (im_current_idx d) usize_max) as [E|E].
  - split; [done|]. rewrite E. rewrite lookup_ge_None_2; [done|]. pose proof (d_groups _ _ Hd). lia.
  - destruct (im_groups d !! Z.to_nat (im_current_idx d)) eqn:Hg; [done|]. destruct Hn as [Hn _]. by specialize (Hn eq_refl).
Qed.

(** ** Modes *)

(** What [set_working_mode] does: refused at runtime and between two MSI modes;
    else the mode is taken, whether the device has a group for it or not. *)
Definition mode_change_allowed (d : DeviceInterruptManager) (mode : DeviceInterruptMode) : bool :=
  negb (im_activated d) &&
  (bool_decide (mode = im_mode d) || negb (is_msi (im_mode d)) || negb (is_msi mode)).

Definition with_mode (d : DeviceInterruptManager) (mode : DeviceInterruptMode) : DeviceInterruptManager :=
  if decide (mode = im_mode d) then d else
  if decide (mode = Disabled) then set_im_mode d Disabled
  else set_im_mode (set_im_current_idx d (default usize_max (im_mode2idx d !! mode_index mode))) mode.

Lemma set_working_mode_ok w d mode :
  dim_ok w d ->
  set_working_mode d mode =
    Ret (if mode_change_allowed d mode then (Ok tt, with_mode d mode) else (Err EINVAL, d)).
Proof.
  intros Hd. unfold set_working_mode, mode_change_allowed, with_mode. destruct (im_activated d); [done|]. cbn [negb andb].
  destruct (decide (mode = im_mode d)) as [->|Hne]; [by rewrite bool_decide_eq_true_2|].
  rewrite (bool_decide_eq_false_2 (mode = im_mode d)) by done. cbn [orb].
  destruct (mode2idx_ok w d mode Hd) as (i & Hi & Hl & _). rewrite Hi, Hl. cbn [obind default].
  destruct (im_mode d), mode; done.
Qed.

Lemma with_mode_ok w d mode : dim_ok w d -> im_activated d = false -> dim_ok w (with_mode d mode).
Proof.
  intros Hd Ha. unfold with_mode. destruct (decide (mode = im_mode d)); [done|].
  destruct (mode2idx_ok w d mode Hd) as (i & _ & Hl & _). rewrite Hl.
  destruct Hd. destruct d. cbn in *. destruct (decide (mode = Disabled)) as [->|]; constructor; cbn; try done; congruence.
Qed.

(** ** Enabling *)

(** The mode interrupts are enabled in: legacy by default. *)
Definition start_mode (d : DeviceInterruptManager) : DeviceInterruptMode :=
  match im_mode d with
  | Disabled => match mode_group d LegacyIrqMode with Some _ => LegacyIrqMode | None => Disabled end
  | mode => mode
  end.

(** The configurations a group is enabled with. *)
Definition mode_configs (w : W) (d : DeviceInterruptManager) (mode : DeviceInterruptMode) (g : Z) :
  list InterruptSourceConfig :=
  if is_msi mode then take (Z.to_nat (group_len w g)) (im_msi_config d) else LEGACY_CONFIGS.

(** [enable] at the configuration stage. *)
Definition enabled (w : W) (d : DeviceInterruptManager) : outcome (result unit Z * DeviceInterruptManager * W) :=
  let mode := start_mode d in
  match mode, mode_group d mode with
  | Disabled, _ => Ret (Err EINVAL, d, w)
  | _, None => Panic
  | _, Some g =>
      match group_enable w g (mode_configs w d mode g) with
      | (Err e, w) => Ret (Err e, with_mode d mode, w)
      | (Ok _, w) => Ret (Ok tt, set_im_activated (with_mode d mode) true, w)
      end
  end.

Lemma with_mode_fields d mode :
  im_mode (with_mode d mode) = mode /\ im_msi_config (with_mode d mode) = im_msi_config d /\
  im_groups (with_mode d mode) = im_groups d /\ im_mode2idx (with_mode d mode) = im_mode2idx d /\
  im_activated (with_mode d mode) = im_activated d.
Proof. unfold with_mode. destruct (decide (mode = im_mode d)) as [->|]; [done|]. destruct d, (decide (mode = Disabled)) as [->|]; done. Qed.

Lemma get_configs_ok w d mode g :
  dim_ok w d -> mode <> Disabled -> mode_group d mode = Some g -> get_configs w d mode = Ret (mode_configs w d mode g).
Proof.
  intros Hd Hm Hg. assert (Hgo : is_msi mode = true ->
    (let! idx := mode2idx d mode in let! g := group_at d idx in
     if Z.of_nat (length (im_msi_config d)) <? group_len w g then Panic
     else Ret (take (Z.to_nat (group_len w g)) (im_msi_config d))) =
    Ret (take (Z.to_nat (group_len w g)) (im_msi_config d))).
  { intros Hmsi. destruct (mode2idx_ok w d mode Hd) as (i & -> & Hi & Hn & _). cbn [obind].
    destruct (d_modes _ _ Hd mode) as (i' & Hi' & Hcase). rewrite Hi in Hi'. injection Hi' as <-.
    assert (i <> usize_max) by (intros E; apply Hn in E; congruence).
    destruct Hcase as [|(_ & _ & g' & Hg' & _ & Hl)]; [done|]. rewrite group_at_eq. unfold mode_group in *. rewrite Hi in Hg.
    rewrite (proj2 (Z.eqb_neq i usize_max)) in Hg by done. rewrite Hg in Hg'. injection Hg' as <-. rewrite Hg. cbn [unwrap obind].
    rewrite (proj2 (Z.ltb_ge _ _)) by (apply Hl; done). done. }
  destruct mode; try done; by apply Hgo.
Qed.

Lemma mode_group_same d d' mode :
  im_mode2idx d' = im_mode2idx d -> im_groups d' = im_groups d -> mode_group d' mode = mode_group d mode.
Proof. unfold mode_group. by intros -> ->. Qed.

Lemma enable_current_ok w d mode :
  dim_ok w d -> im_activated d = false -> mode <> Disabled ->
  enable_current w (with_mode d mode) =
    match mode_group d mode with
    | None => Panic
    | Some g => match group_enable w g (mode_configs w d mode g) with
      | (Err e, w) => Ret (Err e, with_mode d mode, w)
      | (Ok _, w) => Ret (Ok tt, set_im_activated (with_mode d mode) true, w)
      end
    end.
Proof.
  intros Hd Ha Hm. pose proof (with_mode_ok w d mode Hd Ha) as Hd'. destruct (with_mode_fields d mode) as (E1 & E2 & E3 & E4 & _).
  unfold enable_current. rewrite E1, decide_False by done. pose proof (current_group w _ Hd') as Hcur. rewrite E1 in Hcur.
  specialize (Hcur Hm). rewrite (mode_group_same d) in Hcur by done. destruct (mode_group d mode) as [g|] eqn:Hg.
  - rewrite Hcur. cbn [obind]. rewrite (get_configs_ok w _ mode g) by (done || by rewrite (mode_group_same d)). cbn [obind].
    unfold mode_configs. by rewrite E2.
  - destruct Hcur as [_ ->]. done.
Qed.

Lemma with_mode_same d : with_mode d (im_mode d) = d.
Proof. unfold with_mode. by rewrite decide_True. Qed.

Lemma DIM_enable_ok w d : dim_ok w d -> im_activated d = false -> DIM_enable w d = enabled w d.
Proof.
  intros Hd Ha. unfold DIM_enable, enabled, start_mode. rewrite Ha.
  destruct (mode2idx_ok w d LegacyIrqMode Hd) as (i & -> & _ & Hn & _). cbn [obind].
  destruct (decide (im_mode d = Disabled)) as [Hmode|Hmode].
  - rewrite bool_decide_eq_true_2, Hmode by done. cbn [andb]. destruct (mode_group d LegacyIrqMode) as [g|] eqn:Hg.
    + assert (i <> usize_max) by (intros E; apply Hn in E; done). rewrite (proj2 (Z.eqb_neq _ _)) by done. cbn [negb].
      assert (Hal : mode_change_allowed d LegacyIrqMode = true) by (unfold mode_change_allowed; by rewrite Ha, Hmode).
      rewrite (set_working_mode_ok w), Hal by done. cbn [obind].
      rewrite enable_current_ok by done. by rewrite Hg.
    + rewrite (proj2 (Z.eqb_eq _ _)) by (by apply Hn). cbn [negb andb obind]. unfold enable_current. by rewrite decide_True by done.
  - rewrite (bool_decide_eq_false_2 (im_mode d = Disabled)) by done. cbn [andb obind].
    pose proof (enable_current_ok w d (im_mode d) Hd Ha Hmode) as He. rewrite with_mode_same in *. rewrite He.
    destruct (im_mode d) eqn:E; [done|..]; rewrite <- E, with_mode_same; done.
Qed.

Lemma set_activated_fields d b :
  im_mode (set_im_activated d b) = im_mode d /\ im_activated (set_im_activated d b) = b /\
  im_current_idx (set_im_activated d b) = im_current_idx d /\ im_groups (set_im_activated d b) = im_groups d /\
  im_mode2idx (set_im_activated d b) = im_mode2idx d /\ im_msi_config (set_im_activated d b) = im_msi_config d.
Proof. by destruct d. Qed.

Lemma set_activated_ok w d b :
  dim_ok w d -> (b = true -> is_Some (mode_group d (im_mode d))) -> dim_ok w (set_im_activated d b).
Proof. intros [] Hb. destruct d. by constructor. Qed.

Lemma enabled_keeps w d r d' w' : dim_ok w d -> im_activated d = false -> enabled w d = Ret (r, d', w') -> dim_ok w' d'.
Proof.
  intros Hd Ha. unfold enabled. pose proof (with_mode_ok w d (start_mode d) Hd Ha) as Hd1.
  assert (Hgo : forall g, mode_group d (start_mode d) = Some g ->
    match group_enable w g (mode_configs w d (start_mode d) g) with
    | (Err e, w) => Ret (Err e, with_mode d (start_mode d), w)
    | (Ok _, w) => Ret (Ok tt, set_im_activated (with_mode d (start_mode d)) true, w)
    end = Ret (r, d', w') -> dim_ok w' d').
  { intros g Hg. pose proof (enable_kept w g (mode_configs w d (start_mode d) g)) as Hk. destruct (group_enable w g _) as [[[]|e] w1].
    - intros [= <- <- <-]. eapply dim_ok_kept; [exact Hk|]. apply set_activated_ok; [done|]. intros _.
      destruct (with_mode_fields d (start_mode d)) as (-> & _ & E3 & E4 & _). by rewrite (mode_group_same d), Hg.
    - intros [= <- <- <-]. by eapply dim_ok_kept. }
  cbv zeta. destruct (start_mode d) eqn:Hm; [by intros [= <- <- <-]|..];
    (destruct (mode_group d _) as [g|] eqn:Hg; [by apply (Hgo g)|done]).
Qed.

Lemma enabled_active w d r d' w' :
  im_activated d = false -> enabled w d = Ret (r, d', w') ->
  im_activated d' = match r with Ok _ => true | Err _ => false end.
Proof.
  intros Ha. unfold enabled. destruct (with_mode_fields d (start_mode d)) as (_ & _ & _ & _ & Ea).
  destruct (set_activated_fields (with_mode d (start_mode d)) true) as (_ & Eb & _).
  cbv zeta. destruct (start_mode d) eqn:Hm; [by intros [= <- <- <-]|..];
    (destruct (mode_group d _) as [g|]; [|done]); destruct (group_enable w g _) as [[[]|e] w1]; intros [= <- <- <-]; congruence.
Qed.

(** ** Reset *)

(** [reset]: interrupts are off and the mode is [Disabled]; the MSI messages stay. *)
Definition reset_done (w : W) (d : DeviceInterruptManager) : outcome (result unit Z * DeviceInterruptManager * W) :=
  match mode_group d (im_mode d) with
  | Some g =>
      if im_activated d then
        match group_disable w g with
        | (Err e, w) => Ret (Err e, set_im_activated d false, w)
        | (Ok _, w) => Ret (Ok tt, with_mode (set_im_activated d false) Disabled, w)
        end
      else Ret (Ok tt, with_mode d Disabled, w)
  | None => Ret (Ok tt, with_mode d Disabled, w)
  end.

Lemma disable_allowed d : im_activated d = false -> mode_change_allowed d Disabled = true.
Proof. intros Ha. unfold mode_change_allowed. rewrite Ha. by destruct (im_mode d). Qed.

Lemma DIM_reset_ok w d : dim_ok w d -> DIM_reset w d = reset_done w d.
Proof.
  intros Hd. unfold DIM_reset, reset_done. destruct (im_activated d) eqn:Ha.
  - destruct (d_active _ _ Hd Ha) as [g Hg]. rewrite Hg.
    assert (Hm : im_mode d <> Disabled).
    { intros E. destruct (d_modes _ _ Hd Disabled) as (i & Hi & Hc). rewrite E in Hg. unfold mode_group in Hg. rewrite Hi in Hg.
      destruct Hc as [->|(_ & ? & _)]; [by rewrite Z.eqb_refl in Hg|done]. }
    pose proof (current_group w d Hd Hm) as Hcur. rewrite Hg in Hcur.
    destruct (set_activated_fields d false) as (_ & E2 & E3 & E4 & _). unfold group_at in *. rewrite E3, E4, Hcur. cbn [obind].
    destruct (group_disable w g) as [[[]|e] w1] eqn:Hdis; cbn [obind]; [|done].
    assert (Hd1 : dim_ok w (set_im_activated d false)) by (by apply set_activated_ok).
    rewrite (set_working_mode_ok w), disable_allowed by done. done.
  - cbn [obind]. rewrite (set_working_mode_ok w), disable_allowed by done. by destruct (mode_group d (im_mode d)).
Qed.

Lemma reset_keeps w d r d' w' : dim_ok w d -> reset_done w d = Ret (r, d', w') -> dim_ok w' d'.
Proof.
  intros Hd. unfold reset_done.
  assert (Hd1 : dim_ok w (set_im_activated d false)) by (by apply set_activated_ok).
  destruct (set_activated_fields d false) as (_ & E2 & _). pose proof (with_mode_ok w _ Disabled Hd1 E2) as Hd2.
  destruct (mode_group d (im_mode d)) as [g|] eqn:Hg; [destruct (im_activated d) eqn:Ha|].
  - pose proof (disable_kept w g) as Hk. destruct (group_disable w g) as [[[]|e] w1]; intros [= <- <- <-]; by eapply dim_ok_kept.
  - intros [= <- <- <-]. by apply with_mode_ok.
  - intros [= <- <- <-]. destruct (im_activated d) eqn:Ha; [|by apply with_mode_ok].
    destruct (d_active _ _ Hd Ha) as [g Hg']. congruence.
Qed.

Lemma reset_inactive w d r d' w' : dim_ok w d -> reset_done w d = Ret (r, d', w') -> im_activated d' = false.
Proof.
  intros Hd. unfold reset_done. destruct (set_activated_fields d false) as (_ & Ea & _).
  destruct (with_mode_fields d Disabled) as (_ & _ & _ & _ & Eb). destruct (with_mode_fields (set_im_activated d false) Disabled) as (_ & _ & _ & _ & Ec).
  destruct (im_activated d) eqn:Hac.
  - destruct (d_active _ _ Hd Hac) as [g Hg]. rewrite Hg. destruct (group_disable w g) as [[[]|e] w1]; intros [= <- <- <-]; congruence.
  - destruct (mode_group d (im_mode d)); intros [= <- <- <-]; congruence.
Qed.

(** ** MSI messages *)

Lemma update_msi_ok w d index f :
  dim_ok w d -> 0 <= index ->
  match (update_msi d index f).1 with
  | Ok _ => exists c, im_msi_config d !! Z.to_nat index = Some (MsiIrqConfig c) /\
      im_msi_config (update_msi d index f).2 = <[Z.to_nat index := MsiIrqConfig (f c)]> (im_msi_config d)
  | Err e => e = EINVAL /\ Z.of_nat (length (im_msi_config d)) <= index /\ (update_msi d index f).2 = d
  end /\ dim_ok w (update_msi d index f).2.
Proof.
  intros Hd Hi. unfold update_msi. destruct (im_msi_config d !! Z.to_nat index) as [[|c]|] eqn:Hl; cbn [fst snd].
  - destruct (proj1 (Forall_lookup _ _) (d_msi _ _ Hd) _ _ Hl) as [m ?]. done.
  - split; [exists c; split; [done|by destruct d]|]. destruct Hd as [? ? Hm ? Hf ? ?]. destruct d. constructor; try done.
    + intros mode. destruct (Hm mode) as (i & Hx & Hg). exists i. split; [done|]. destruct Hg as [|(? & ? & g & ? & ? & ?)]; [by left|right].
      split; [done|]. split; [done|]. exists g. cbn in *. by rewrite length_insert.
    + cbn in *. by rewrite length_insert.
    + cbn in *. apply Forall_insert; [done|by eexists].
  - apply lookup_ge_None_1 in Hl. split; [|done]. split; [done|]. split; [lia|done].
Qed.

(** [update]: the message of one interrupt is handed to the group in force. *)
Definition update_done (w : W) (d : DeviceInterruptManager) (index : Z) : result unit Z * W :=
  if im_activated d && is_msi (im_mode d) then
    match mode_group d (im_mode d), im_msi_config d !! Z.to_nat index with
    | Some g, Some c => if index <? group_len w g then group_update w g index c else (Err EINVAL, w)
    | _, _ => (Err EINVAL, w)
    end
  else (Err EINVAL, w).

Lemma DIM_update_ok w d index :
  dim_ok w d -> 0 <= index -> DIM_update w d index = Ret (update_done w d index).
Proof.
  intros Hd Hi. pose proof (d_small _ _ Hd) as Hmax. unfold DIM_update, update_done. destruct (im_activated d) eqn:Ha; cbn [negb andb]; [|done].
  destruct (d_active _ _ Hd Ha) as [g Hg].
  assert (Hgo : is_msi (im_mode d) = true ->
    (let! g := group_at d (im_current_idx d) in
     if (index >=? group_len w g) || (index >=? as_u32 (Z.of_nat (length (im_msi_config d)))) then Ret (Err EINVAL, w) else
     match im_msi_config d !! Z.to_nat index with None => Panic | Some c => Ret (group_update w g index c) end) =
    Ret match im_msi_config d !! Z.to_nat index with
        | Some c => if index <? group_len w g then group_update w g index c else (Err EINVAL, w)
        | None => (Err EINVAL, w)
        end).
  { intros Hmsi. pose proof (current_group w d Hd ltac:(by destruct (im_mode d))) as Hcur. rewrite Hg in Hcur. rewrite Hcur. cbn [obind].
    unfold as_u32. rewrite Z.mod_small by ulia. rewrite !Z.geb_leb.
    destruct (im_msi_config d !! Z.to_nat index) eqn:Hl.
    - apply lookup_lt_Some in Hl. rewrite (proj2 (Z.leb_gt (Z.of_nat (length (im_msi_config d))) index)) by lia. rewrite orb_false_r, Z.ltb_antisym. by destruct (_ <=? _).
    - apply lookup_ge_None_1 in Hl. rewrite (proj2 (Z.leb_le (Z.of_nat (length (im_msi_config d))) index)) by lia. by rewrite orb_true_r. }
  destruct (im_mode d) eqn:Hm; cbn [is_msi] in *; [done|done|..]; rewrite Hg; by apply Hgo.
Qed.

(** ** Creation *)

Lemma u32_max_pos : 0 < u32_max.
Proof. done. Qed.

(** A manager under construction. *)
Definition fresh (d : DeviceInterruptManager) : Prop := im_mode d = Disabled /\ im_activated d = false.

Lemma resize_msi_ok w d n :
  dim_ok w d -> n <= u32_max -> let d' := resize_msi_config_space d n in
  dim_ok w d' /\ n <= Z.of_nat (length (im_msi_config d')) /\ im_groups d' = im_groups d /\ im_mode2idx d' = im_mode2idx d /\
  (fresh d -> fresh d').
Proof.
  intros Hd Hmax. unfold resize_msi_config_space. destruct (Z.ltb_spec (Z.of_nat (length (im_msi_config d))) n) as [Hlt|Hge]; cbv zeta.
  2:{ split; [done|]. by split_and!. }
  destruct Hd as [? ? Hm ? ? ? ?]. destruct d. cbn in *. rewrite length_replicate. split; [|by split_and!; [lia|..]].
  constructor; try done; cbn.
  - intros mode. destruct (Hm mode) as (i & Hi & Hg). exists i. split; [done|]. destruct Hg as [|(? & ? & g & ? & ? & Hl)]; [by left|right].
    split; [done|]. split; [done|]. exists g. split; [done|]. split; [done|]. intros Hmsi. cbn in *. rewrite length_replicate. specialize (Hl Hmsi). lia.
  - rewrite length_replicate. pose proof u32_max_pos. lia.
  - apply Forall_replicate. by eexists.
Qed.

Lemma mode_index_inj m1 m2 : mode_index m1 = mode_index m2 -> m1 = m2.
Proof. by destruct m1, m2. Qed.

Lemma add_group_ok w d mode g :
  dim_ok w d -> fresh d -> group_valid w g -> mode <> Disabled -> Z.of_nat (length (im_groups d)) < 5 ->
  (is_msi mode = true -> 0 <= group_len w g <= Z.of_nat (length (im_msi_config d))) ->
  dim_ok w (add_group d mode g) /\ fresh (add_group d mode g) /\ im_msi_config (add_group d mode g) = im_msi_config d /\
  length (im_groups (add_group d mode g)) = S (length (im_groups d)) /\
  (forall m', mode_group (add_group d mode g) m' = if decide (m' = mode) then Some g else mode_group d m').
Proof.
  intros [Hlen Hg Hm Hsm Hf Hcur Hact] [Hfm Hfa] Hv Hmode H5 Hl. destruct d as [dm da dc di dg dmsi did]. cbn in *. subst dm da.
  assert (Hidx : (mode_index mode < length di)%nat) by (rewrite Hlen; destruct mode; cbn; lia).
  assert (Hmax : Z.of_nat (length dg) <> usize_max) by (unfold usize_max; ulia).
  assert (Hlook : forall m', m' <> mode -> <[mode_index mode := Z.of_nat (length dg)]> di !! mode_index m' = di !! mode_index m').
  { intros m' Hne. apply list_lookup_insert_ne. intros E. by apply mode_index_inj in E. }
  split; [|split; [done|split; [done|split; [rewrite length_app; cbn; lia|]]]].
  - constructor; cbn; try done.
    + by rewrite length_insert.
    + rewrite length_app. cbn. unfold usize_max. ulia.
    + intros m'. unfold mode_ok. cbn. destruct (decide (m' = mode)) as [->|Hne].
      * exists (Z.of_nat (length dg)). split; [by apply list_lookup_insert_eq|]. right. split; [unfold usize_max in *; ulia|].
        split; [done|]. exists g. rewrite Nat2Z.id. split; [by rewrite lookup_app_r, Nat.sub_diag by lia|]. by split.
      * destruct (Hm m') as (i & Hi & Hc). cbn in Hi. exists i. rewrite Hlook by done. split; [done|].
        destruct Hc as [|(Hr & ? & g' & Hg' & Hrest)]; [by left|right]. split; [done|]. split; [done|]. exists g'. cbn in Hg'.
        split; [by apply lookup_app_l_Some|done].
  - intros m'. unfold mode_group. cbn. destruct (decide (m' = mode)) as [->|Hne].
    + rewrite list_lookup_insert_eq by done. rewrite (proj2 (Z.eqb_neq _ _)) by done. rewrite Nat2Z.id, lookup_app_r, Nat.sub_diag by lia. done.
    + rewrite Hlook by done. destruct (di !! mode_index m') as [i|] eqn:Hi; [|done]. destruct (i =? usize_max) eqn:E; [done|].
      destruct (Hm m') as (i' & Hi' & Hc). cbn in Hi'. rewrite Hi in Hi'. injection Hi' as <-. bools.
      destruct Hc as [|(Hr & _ & g' & Hg' & _)]; [done|]. cbn in Hg'. rewrite Hg'. by apply lookup_app_l_Some.
Qed.

(** The resources of a mode. *)
Definition mode_resource (res : DeviceResources) (mode : DeviceInterruptMode) : option (Z * Z) :=
  match mode with
  | Disabled => None
  | LegacyIrqMode => (fun irq => (irq, 1)) <$> get_legacy_irq res
  | GenericMsiIrqMode => get_generic_msi_irqs res
  | PciMsiIrqMode => get_pci_msi_irqs res
  | PciMsixIrqMode => get_pci_msix_irqs res
  end.

Lemma new_msi_group_ok w d mode res r w' :
  dim_ok w d -> fresh d -> is_msi mode = true -> Z.of_nat (length (im_groups d)) < 5 ->
  (forall b s, res = Some (b, s) -> in_u32 s) ->
  new_msi_group w d mode res = Ret (Ok r, w') ->
  dim_ok w' r /\ fresh r /\ (length (im_groups r) <= S (length (im_groups d)))%nat /\ groups_kept w w' /\
  forall m', is_Some (mode_group r m') <-> if decide (m' = mode) then is_Some res \/ is_Some (mode_group d m') else is_Some (mode_group d m').
Proof.
  intros Hd Hf Hmsi H5 Hs. unfold new_msi_group. destruct res as [[b s]|].
  2:{ intros [= <- <-]. split; [done|]. split; [done|]. split; [lia|]. split; [by intros g|]. intros m'.
      destruct (decide (m' = mode)); [|done]. split; [by right|intros [[? ?]|?]; done]. }
  intros Hc. bind_inv Hc. destruct a as [[g|e] w1]; [|discriminate]. injection Hc as <- <-.
  destruct (create_group_ok _ _ _ _ _ _ Ha) as (Hk & Hv & Hl). pose proof (dim_ok_kept _ _ _ Hk Hd) as Hd1.
  pose proof (Hs b s eq_refl) as Hs1. destruct (resize_msi_ok w1 d (group_len w1 g) Hd1 ltac:(rewrite Hl; apply Hs1)) as (Hd2 & Hn & Eg & Em & Hf2). cbv zeta in *.
  destruct (add_group_ok w1 _ mode g Hd2 (Hf2 Hf) Hv) as (Hd3 & Hf3 & _ & Hlen & Hmg); [by destruct mode|by rewrite Eg| |].
  { intros _. split; [rewrite Hl; apply Hs1|done]. }
  split; [done|]. split; [done|]. split; [rewrite Hlen, Eg; lia|]. split; [done|]. intros m'. rewrite Hmg.
  destruct (decide (m' = mode)); [split; [by left|by eauto]|]. by rewrite (mode_group_same d).
Qed.

Lemma DIM_empty_ok (w : W) : dim_ok w DIM_empty /\ fresh DIM_empty.
Proof.
  split; [|done]. constructor; cbn; try done. intros mode.
  exists usize_max. split; [by destruct mode|by left].
Qed.

(** The legacy group comes first. *)
Lemma legacy_group_ok w irq r w' :
  (let! (r, w) := create_group w LegacyIrqSource irq 1 in
   match r with Err e => Ret (Err e, w) | Ok g => Ret (Ok (add_group DIM_empty LegacyIrqMode g), w) end) = Ret (Ok r, w') ->
  dim_ok w' r /\ fresh r /\ (length (im_groups r) <= 1)%nat /\
  forall m', is_Some (mode_group r m') <-> m' = LegacyIrqMode.
Proof.
  intros Hc. bind_inv Hc. destruct a as [[g|e] w1]; [|discriminate]. injection Hc as <- <-.
  destruct (create_group_ok _ _ _ _ _ _ Ha) as (_ & Hv & _). destruct (DIM_empty_ok w1) as [He Hf].
  destruct (add_group_ok w1 _ LegacyIrqMode g He Hf Hv) as (Hd & Hf' & _ & Hlen & Hmg); [done|cbn; lia|done|].
  split; [done|]. split; [done|]. split; [cbn; lia|]. intros m'. rewrite Hmg. destruct (decide (m' = LegacyIrqMode)); [done|].
  split; [|done]. by destruct m'; intros [? [=]].
Qed.

Lemma DIM_new_ok w res d w' :
  (forall ty b s, get_msi_irqs res ty = Some (b, s) -> in_u32 s) ->
  DeviceInterruptManager_new w res = Ret (Ok d, w') ->
  dim_ok w' d /\ fresh d /\ forall mode, is_Some (mode_group d mode) <-> is_Some (mode_resource res mode).
Proof.
  intros Hs Hn. unfold DeviceInterruptManager_new in Hn. bind_inv Hn. destruct a as [[d0|e] w0]; [|discriminate].
  assert (Hstart : dim_ok w0 d0 /\ fresh d0 /\ (length (im_groups d0) <= 1)%nat /\
    forall m', is_Some (mode_group d0 m') <-> m' = LegacyIrqMode /\ is_Some (get_legacy_irq res)).
  { destruct (get_legacy_irq res) as [irq|].
    - destruct (legacy_group_ok _ _ _ _ Ha) as (? & ? & ? & Hm). split; [done|]. split; [done|]. split; [done|]. intros m'. rewrite Hm. naive_solver.
    - injection Ha as <- <-. destruct (DIM_empty_ok w) as [? ?]. split; [done|]. split; [done|]. split; [cbn; lia|]. intros m'. split; [by destruct m'; intros [? [=]]|].
      by intros [_ [? [=]]]. }
  destruct Hstart as (Hd0 & Hf0 & Hl0 & Hm0). clear Ha.
  bind_inv Hn. destruct a as [[d1|e] w1]; [|discriminate].
  destruct (new_msi_group_ok _ _ GenericMsiIrqMode _ _ _ Hd0 Hf0 eq_refl ltac:(lia) (Hs GenericMsi) Ha) as (Hd1 & Hf1 & Hl1 & _ & Hm1).
  bind_inv Hn. destruct a as [[d2|e] w2]; [|discriminate].
  destruct (new_msi_group_ok _ _ PciMsiIrqMode _ _ _ Hd1 Hf1 eq_refl ltac:(lia) (Hs PciMsi) Ha0) as (Hd2 & Hf2 & Hl2 & _ & Hm2).
  destruct (new_msi_group_ok _ _ PciMsixIrqMode _ _ _ Hd2 Hf2 eq_refl ltac:(lia) (Hs PciMsix) Hn) as (Hd3 & Hf3 & _ & _ & Hm3).
  split; [done|]. split; [done|]. intros mode.
  specialize (Hm3 mode). specialize (Hm2 mode). specialize (Hm1 mode). specialize (Hm0 mode).
  destruct mode; cbn in *; rewrite ?fmap_is_Some; naive_solver.
Qed.

(** ** Runs *)

(** Every sequence of operations on a manager; [dr_world] is what other devices
    do to the world meanwhile. *)
Inductive dim_reach : W -> DeviceInterruptManager -> Prop :=
| dim_new w res d w' :
    (forall ty b s, get_msi_irqs res ty = Some (b, s) -> in_u32 s) ->
    DeviceInterruptManager_new w res = Ret (Ok d, w') -> dim_reach w' d
| dim_mode w d mode r d' : dim_reach w d -> set_working_mode d mode = Ret (r, d') -> dim_reach w d'
| dim_enable w d r d' w' : dim_reach w d -> DIM_enable w d = Ret (r, d', w') -> dim_reach w' d'
| dim_reset w d r d' w' : dim_reach w d -> DIM_reset w d = Ret (r, d', w') -> dim_reach w' d'
| dim_update w d index r w' : dim_reach w d -> 0 <= index -> DIM_update w d index = Ret (r, w') -> dim_reach w' d
| dim_message w d index f : dim_reach w d -> 0 <= index -> dim_reach w (update_msi d index f).2
| dim_id w d x : dim_reach w d -> dim_reach w (set_device_id d x)
| dim_world w w' d : dim_reach w d -> groups_kept w w' -> dim_reach w' d.

Lemma dim_reach_ok w d : dim_reach w d -> dim_ok w d.
Proof.
  induction 1 as [w res d w' Hs Hn|w d mode r d' _ IH Hm|w d r d' w' _ IH He|w d r d' w' _ IH Hr|w d index r w' _ IH Hi Hu
    |w d index f _ IH Hi|w d x _ IH|w w' d _ IH Hk].
  - by destruct (DIM_new_ok _ _ _ _ Hs Hn).
  - rewrite (set_working_mode_ok w) in Hm by done. destruct (mode_change_allowed d mode) eqn:Ha; injection Hm as <- <-; [|done].
    apply with_mode_ok; [done|]. unfold mode_change_allowed in Ha. by destruct (im_activated d).
  - destruct (im_activated d) eqn:Ha.
    + unfold DIM_enable in He. rewrite Ha in He. by injection He as <- <- <-.
    + rewrite DIM_enable_ok in He by done. by eapply enabled_keeps.
  - rewrite DIM_reset_ok in Hr by done. by eapply reset_keeps.
  - rewrite DIM_update_ok in Hu by done. injection Hu as Hu. eapply dim_ok_kept; [|exact IH].
    assert (Hsame : groups_kept w w) by (by intros g).
    unfold update_done in Hu. repeat (case_hyp Hu; try (injection Hu as <- <-; done)).
    match type of Hu with group_update w ?g index ?c = _ => pose proof (update_kept w g index c) as Hk end. by rewrite Hu in Hk.
  - by apply update_msi_ok.
  - destruct IH. by destruct d.
  - by eapply dim_ok_kept.
Qed.

(** The interrupt manager of a device, on every branch and after any
    operations: the mode changes exactly at the configuration stage and not from
    one MSI mode to another; [enable] falls back to legacy interrupts, hands the
    group of the mode its messages, and starts the runtime stage exactly when the
    group accepts them; [reset] ends it; [update] hands a message to the group in
    force.  None of them panics, except [enable] in a mode that was selected
    although the device has no interrupts for it. *)
Theorem interrupt_manager_correct w d :
  dim_reach w d ->
  (forall mode, set_working_mode d mode =
     Ret (if mode_change_allowed d mode then (Ok tt, with_mode d mode) else (Err EINVAL, d))) /\
  DIM_enable w d = (if im_activated d then Ret (Ok tt, d, w) else enabled w d) /\
  (DIM_enable w d = Panic <-> im_activated d = false /\ im_mode d <> Disabled /\ mode_group d (im_mode d) = None) /\
  DIM_reset w d = reset_done w d /\
  (forall index, 0 <= index -> DIM_update w d index = Ret (update_done w d index)) /\
  (im_activated d = true -> exists g, mode_group d (im_mode d) = Some g /\ get_group d = Ret (Some g)).
Proof.
  intros Hr. pose proof (dim_reach_ok w d Hr) as Hd.
  split; [intros mode; by apply (set_working_mode_ok w)|].
  assert (He : DIM_enable w d = if im_activated d then Ret (Ok tt, d, w) else enabled w d).
  { destruct (im_activated d) eqn:Ha; [unfold DIM_enable; by rewrite Ha|by apply DIM_enable_ok]. }
  split; [done|]. split.
  { rewrite He. destruct (im_activated d); [naive_solver|]. unfold enabled, start_mode.
    cbv zeta. destruct (im_mode d) eqn:Hm; (destruct (mode_group d _) as [g|] eqn:Hg; rewrite ?Hg); try (destruct (group_enable w g _) as [[[]|] ?]); naive_solver. }
  split; [by apply DIM_reset_ok|]. split; [intros; by apply DIM_update_ok|].
  intros Ha. destruct (d_active _ _ Hd Ha) as [g Hg]. exists g. split; [done|].
  assert (Hm : im_mode d <> Disabled).
  { intros E. rewrite E in Hg. destruct (d_modes _ _ Hd Disabled) as (i & Hi & Hc). unfold mode_group in Hg. rewrite Hi in Hg.
    destruct Hc as [->|(_ & ? & _)]; [by rewrite Z.eqb_refl in Hg|done]. }
  pose proof (current_group w d Hd Hm) as Hcur. rewrite Hg in Hcur. unfold get_group. rewrite Ha, Hcur.
  by rewrite bool_decide_eq_false_2.
Qed.
End Manager.
