(* ===== verification/KvmIrqSpec.v ===== *)
(** Correctness of interrupts through KVM: the table of routes, the groups as an
    implementation of the interrupt manager's interface, and that a device's MSI
    messages are the ones in force.

    A device's MSI messages in force in KVM: the interrupt manager of a device
    over the interrupt manager of the virtual machine. *)

From S2P Require Import Prelude Resources Interrupt InterruptSpec KvmIrq.

(** ** Keys *)

Definition msi_key (gsi : Z) : Z := 2 ^ 33 + gsi.

Lemma lor_disjoint a b k : 0 <= k -> 0 <= b < 2 ^ k -> Z.lor (a * 2 ^ k) b = a * 2 ^ k + b.
Proof.
  intros Hk Hb. rewrite <- Z.shiftl_mul_pow2 by done.
  assert (Hand : Z.land (Z.shiftl a k) b = 0).
  { apply Z.bits_inj'. intros n Hn. rewrite Z.land_spec, Z.bits_0.
    destruct (Z.lt_ge_cases n k); [by rewrite Z.shiftl_spec_low by lia|].
    apply andb_false_intro2. destruct (decide (b = 0)) as [->|]; [apply Z.bits_0|].
    apply Z.bits_above_log2; [lia|]. apply Z.log2_lt_pow2; [lia|].
    pose proof (Z.pow_le_mono_r 2 k n). lia. }
  rewrite <- Z.lxor_lor by done. symmetry. by apply Z.add_nocarry_lxor.
Qed.

(** The key of an entry, for the controllers and interrupt numbers there are. *)
Lemma hash_key_val e :
  in_u32 (re_gsi e) -> (forall chip pin, re_u e = RouteIrqchip chip pin -> 0 <= chip < 2 ^ 16) ->
  hash_key e = match re_u e with RouteIrqchip chip _ => chip * 2 ^ 48 + 2 ^ 32 | RouteMsi _ _ _ _ => 2 ^ 33 end + re_gsi e.
Proof.
  intros Hg Hc. unfold hash_key, re_type, as_u64. destruct (re_u e) as [chip pin|]; cbn -[Z.shiftl Z.pow Z.lor].
  - specialize (Hc chip pin eq_refl). rewrite !Z.shiftl_mul_pow2 by lia. rewrite Z.mod_small by lia.
    change (KVM_IRQ_ROUTING_IRQCHIP * 2 ^ 32) with (2 ^ 32). rewrite (lor_disjoint chip (2 ^ 32) 48) by lia.
    replace (chip * 2 ^ 48 + 2 ^ 32) with ((chip * 2 ^ 16 + 1) * 2 ^ 32) by lia. apply lor_disjoint; ulia.
  - change (Z.lor _ (re_gsi e)) with (Z.lor (2 * 2 ^ 32) (re_gsi e)). rewrite (lor_disjoint 2 (re_gsi e) 32) by ulia. lia.
Qed.

Lemma msi_entry_key gsi c : in_u32 gsi -> hash_key (new_msi_routing_entry gsi c) = msi_key gsi.
Proof. intros Hg. rewrite hash_key_val; [done|done|]. by intros ? ? [=]. Qed.

(** The keys of [n] interrupts from [base]. *)
Definition in_keys (base n key : Z) : Prop := msi_key base <= key < msi_key base + n.

#[global] Instance in_keys_dec base n key : Decision (in_keys base n key).
Proof. unfold in_keys. apply _. Defined.

(** ** What KVM promises *)

(** The last table that was accepted is in force, and an irqfd is bound to the
    interrupt it was registered for until it is taken off it.  [EEXIST] is not
    among the errors of KVM_SET_GSI_ROUTING. *)
Class KvmLaws (V : Type) `{Kvm V} := {
  routing : V -> gmap Z RoutingEntry;
  irqfds : V -> gset (Z * Z);
  eventfd_new_law v r v' : eventfd_new v = (r, v') -> routing v' = routing v /\ irqfds v' = irqfds v;
  register_law v fd gsi r v' : register_irqfd v fd gsi = (r, v') -> routing v' = routing v /\
    irqfds v' = match r with Ok _ => {[ (fd, gsi) ]} ∪ irqfds v | Err _ => irqfds v end;
  unregister_law v fd gsi r v' : unregister_irqfd v fd gsi = (r, v') -> routing v' = routing v /\
    irqfds v' = match r with Ok _ => irqfds v ∖ {[ (fd, gsi) ]} | Err _ => irqfds v end;
  routing_law v table r v' : set_gsi_routing v table = (r, v') -> irqfds v' = irqfds v /\
    routing v' = match r with Ok _ => table | Err _ => routing v end;
  routing_errno v table e v' : set_gsi_routing v table = (Err e, v') -> e <> EEXIST;
}.

(** ** The table of routes *)

Definition insert_entries (r : gmap Z RoutingEntry) (es : list RoutingEntry) : gmap Z RoutingEntry :=
  foldl (fun r e => <[hash_key e := e]> r) r es.
Definition delete_entries (r : gmap Z RoutingEntry) (es : list RoutingEntry) : gmap Z RoutingEntry :=
  foldl (fun r e => delete (hash_key e) r) r es.

Definition all_msi (configs : list InterruptSourceConfig) : Prop :=
  Forall (fun c => exists m, c = MsiIrqConfig m) configs.

Lemma msi_entries_ok base configs :
  all_msi configs -> exists es, msi_entries base configs = Ok es /\ length es = length configs /\
    forall i c, configs !! i = Some (MsiIrqConfig c) -> es !! i = Some (new_msi_routing_entry (base + Z.of_nat i) c).
Proof.
  intros Hall. revert base. induction Hall as [|c cs [m ->] _ IH]; intros base; cbn [msi_entries].
  { exists []. by split_and!. }
  destruct (IH (base + 1)) as (es & -> & Hl & He). exists (new_msi_routing_entry base m :: es).
  split; [done|]. split; [cbn; congruence|]. intros [|i] c'; cbn.
  - intros [= ->]. by rewrite Z.add_0_r.
  - intros Hc. etransitivity; [exact (He i c' Hc)|]. f_equal. f_equal. lia.
Qed.

Lemma create_entries_ok base configs :
  all_msi configs -> in_u32 base -> base + Z.of_nat (length configs) <= MAX_IRQS ->
  exists es, create_msi_routing_entries base configs = Ok es /\ length es = length configs /\
    forall i c, configs !! i = Some (MsiIrqConfig c) -> es !! i = Some (new_msi_routing_entry (base + Z.of_nat i) c).
Proof.
  intros Hall Hb Hm. unfold MAX_IRQS in Hm. unfold create_msi_routing_entries, checked_add, as_u32. rewrite Z.mod_small by ulia.
  destruct (msi_entries_ok base configs Hall) as (es & Hes). exists es. by case_goal; bools; try ulia.
Qed.

(** Entries whose keys are those of consecutive MSI interrupts. *)
Definition keyed (base : Z) (es : list RoutingEntry) : Prop :=
  forall i e, es !! i = Some e -> hash_key e = msi_key (base + Z.of_nat i) /\ re_gsi e = base + Z.of_nat i.

Lemma keyed_cons base e es : keyed base (e :: es) -> hash_key e = msi_key base /\ re_gsi e = base /\ keyed (base + 1) es.
Proof.
  intros Hk. destruct (Hk O e eq_refl) as [Hh Hg]. rewrite Z.add_0_r in *. split; [done|]. split; [done|].
  intros i e' He. destruct (Hk (S i) e' He) as [-> ->]. split; [f_equal|]; lia.
Qed.

Lemma insert_entries_lookup es base r key :
  keyed base es ->
  insert_entries r es !! key =
    if decide (in_keys base (Z.of_nat (length es)) key) then es !! Z.to_nat (key - msi_key base) else r !! key.
Proof.
  revert base r. induction es as [|e es IH]; intros base r Hk; cbn [length].
  { rewrite decide_False by (unfold in_keys; lia). done. }
  apply keyed_cons in Hk as (Hh & _ & Hk). change (insert_entries r (e :: es)) with (insert_entries (<[hash_key e:=e]> r) es).
  rewrite (IH _ _ Hk), Hh. unfold in_keys, msi_key. do 2 case_decide; try lia.
  - replace (Z.to_nat (key - (2 ^ 33 + base))) with (S (Z.to_nat (key - (2 ^ 33 + (base + 1))))) by lia. done.
  - assert (key = 2 ^ 33 + base) as -> by lia. rewrite lookup_insert_eq, Z.sub_diag. done.
  - by rewrite lookup_insert_ne by lia.
Qed.

Lemma delete_entries_lookup es base r key :
  keyed base es ->
  delete_entries r es !! key = if decide (in_keys base (Z.of_nat (length es)) key) then None else r !! key.
Proof.
  revert base r. induction es as [|e es IH]; intros base r Hk; cbn [length].
  { rewrite decide_False by (unfold in_keys; lia). done. }
  apply keyed_cons in Hk as (Hh & _ & Hk). change (delete_entries r (e :: es)) with (delete_entries (delete (hash_key e) r) es).
  rewrite (IH _ _ Hk), Hh. unfold in_keys, msi_key. do 2 case_decide; try lia; try done.
  - assert (key = 2 ^ 33 + base) as -> by lia. by rewrite lookup_delete_eq.
  - by rewrite lookup_delete_ne by lia.
Qed.

Lemma add_check_fresh r es base :
  keyed base es -> base + Z.of_nat (length es) <= MAX_IRQS ->
  (forall key, in_keys base (Z.of_nat (length es)) key -> r !! key = None) -> add_check r es = Ok tt.
Proof.
  revert base. induction es as [|e es IH]; intros base Hk Hm Hf; cbn [add_check]; [done|].
  apply keyed_cons in Hk as (Hh & Hg & Hk). cbn [length] in *. rewrite Hg, Hh.
  rewrite Z.geb_leb, (proj2 (Z.leb_gt _ _)) by lia.
  rewrite (Hf (msi_key base)) by (unfold in_keys; lia). rewrite bool_decide_eq_false_2 by (by intros [? ?]).
  apply (IH (base + 1)); [done|lia|]. intros key Hkey. apply Hf. unfold in_keys, msi_key in *. lia.
Qed.

Lemma keyed_own base l : in_u32 base -> base + Z.of_nat (length l) <= MAX_IRQS -> keyed base (own_entries base l).
Proof.
  unfold MAX_IRQS. revert base. induction l as [|[fd c] l IH]; intros base Hb Hm [|i] e He; cbn [own_entries] in He; try done.
  - injection He as <-. rewrite Z.add_0_r. split; [by apply msi_entry_key|done].
  - cbn [length] in Hm. destruct (IH (base + 1) ltac:(ulia) ltac:(lia) i e He) as [-> ->]. split; [f_equal|]; lia.
Qed.

Lemma own_entries_length base l : length (own_entries base l) = length l.
Proof. revert base. induction l as [|[fd c] l IH]; intros base; cbn; [done|]. by rewrite IH. Qed.

Lemma keyed_created base configs es :
  all_msi configs -> in_u32 base -> base + Z.of_nat (length configs) <= MAX_IRQS -> length es = length configs ->
  (forall i c, configs !! i = Some (MsiIrqConfig c) -> es !! i = Some (new_msi_routing_entry (base + Z.of_nat i) c)) ->
  keyed base es.
Proof.
  intros Hall Hb Hm Hl He i e Hi. unfold MAX_IRQS in Hm. assert (Hlt := lookup_lt_Some _ _ _ Hi).
  destruct (lookup_lt_is_Some_2 configs i) as [c Hc]; [lia|]. destruct (proj1 (Forall_lookup _ _) Hall _ _ Hc) as [m ->].
  rewrite (He _ _ Hc) in Hi. injection Hi as <-. split; [apply msi_entry_key; ulia|done].
Qed.

Section Kvm.
Context {V : Type} `{KvmLaws V}.
Notation K := (KvmIrqManager V).

(** Everything but the machine and the routes is the same. *)
Definition same_groups (k k' : K) : Prop :=
  k_heap k' = k_heap k /\ k_groups k' = k_groups k /\ k_max_msi_irqs k' = k_max_msi_irqs k.

Lemma same_groups_trans k1 k2 k3 : same_groups k1 k2 -> same_groups k2 k3 -> same_groups k1 k3.
Proof. unfold same_groups. intuition congruence. Qed.

Lemma set_k_vm_fields (k : K) v :
  same_groups k (set_k_vm k v) /\ k_routes (set_k_vm k v) = k_routes k /\ k_vm (set_k_vm k v) = v.
Proof. by destruct k. Qed.

Lemma set_k_routes_fields (k : K) r :
  same_groups k (set_k_routes k r) /\ k_routes (set_k_routes k r) = r /\ k_vm (set_k_routes k r) = k_vm k.
Proof. by destruct k. Qed.

(** A table of routes handed to KVM. *)
Lemma set_routing_ok (k : K) table r k' :
  set_routing (set_k_routes k table) = (r, k') ->
  same_groups k k' /\ k_routes k' = table /\ irqfds (k_vm k') = irqfds (k_vm k) /\
  routing (k_vm k') = (match r with Ok _ => table | Err _ => routing (k_vm k) end) /\ r <> Err EEXIST.
Proof.
  unfold set_routing. destruct (set_k_routes_fields k table) as (Hs & -> & ->).
  destruct (set_gsi_routing (k_vm k) table) as [r1 v] eqn:E. intros [= <- <-].
  destruct (set_k_vm_fields (set_k_routes k table) v) as (Hs2 & -> & ->). destruct (routing_law _ _ _ _ E) as [-> ->].
  destruct (set_k_routes_fields k table) as (_ & -> & _).
  split; [by eapply same_groups_trans|]. split; [done|]. split; [done|]. split; [done|].
  intros ->. by eapply routing_errno.
Qed.

(** The irqfds of a group, with the interrupts they raise. *)
Fixpoint irqfd_pairs (gsi : Z) (l : list (Z * MsiIrqSourceConfig)) : gset (Z * Z) :=
  match l with [] => ∅ | (fd, _) :: l => {[ (fd, gsi) ]} ∪ irqfd_pairs (gsi + 1) l end.

Lemma register_all_ok v gsi l v' :
  each_irqfd register_irqfd v gsi l = (Ok tt, v') ->
  routing v' = routing v /\ irqfds v' = irqfd_pairs gsi l ∪ irqfds v.
Proof.
  revert v gsi. induction l as [|[fd c] l IH]; intros v gsi; cbn [each_irqfd irqfd_pairs].
  { intros [= <-]. split; [done|]. set_solver. }
  destruct (register_irqfd v fd gsi) as [[[]|e] v1] eqn:E; [|discriminate]. destruct (register_law _ _ _ _ _ E) as [Hr Hi].
  intros Hx. destruct (IH _ _ Hx) as [-> ->]. rewrite Hr, Hi. split; [done|]. set_solver.
Qed.

Lemma unregister_all_ok v gsi l v' :
  each_irqfd unregister_irqfd v gsi l = (Ok tt, v') ->
  routing v' = routing v /\ irqfds v' = irqfds v ∖ irqfd_pairs gsi l.
Proof.
  revert v gsi. induction l as [|[fd c] l IH]; intros v gsi; cbn [each_irqfd irqfd_pairs].
  { intros [= <-]. split; [done|]. set_solver. }
  destruct (unregister_irqfd v fd gsi) as [[[]|e] v1] eqn:E; [|discriminate]. destruct (unregister_law _ _ _ _ _ E) as [Hr Hi].
  intros Hx. destruct (IH _ _ Hx) as [-> ->]. rewrite Hr, Hi. split; [done|]. set_solver.
Qed.

Lemma with_irqfds_fields f (k : K) gsi l r k' :
  with_irqfds f k gsi l = (r, k') ->
  same_groups k k' /\ k_routes k' = k_routes k /\ each_irqfd f (k_vm k) gsi l = (r, k_vm k').
Proof.
  unfold with_irqfds. destruct (each_irqfd f (k_vm k) gsi l) as [r1 v]. intros [= <- <-].
  by destruct (set_k_vm_fields k v) as (? & -> & ->).
Qed.

(** ** Groups *)

(** The group of [count] MSI interrupts from [base], within the interrupts of KVM. *)
Definition msi_group_ok (base count : Z) (l : list (Z * MsiIrqSourceConfig)) : Prop :=
  in_u32 base /\ 0 <= count /\ base + count <= MAX_IRQS /\ Z.of_nat (length l) = count.

Definition group_ok (g : IrqGroup) : Prop :=
  match g with LegacyGroup base _ => 0 <= base < MAX_LEGACY_IRQS | MsiGroup base count l => msi_group_ok base count l end.

(** No route of the [count] interrupts from [base]. *)
Definition no_routes (k : K) (base count : Z) : Prop := forall key, in_keys base count key -> k_routes k !! key = None.

(** The routes in force for them are those of [configs]. *)
Definition routed (k : K) (base : Z) (configs : list InterruptSourceConfig) : Prop :=
  routing (k_vm k) = k_routes k /\
  forall i c, configs !! i = Some (MsiIrqConfig c) ->
    k_routes k !! msi_key (base + Z.of_nat i) = Some (new_msi_routing_entry (base + Z.of_nat i) c).

(** The routes of all other interrupts are the same. *)
Definition others_kept (k k' : K) (base count : Z) : Prop :=
  forall key, ~ in_keys base count key -> k_routes k' !! key = k_routes k !! key.

Lemma routing_add_ok (k : K) base configs es r k' :
  all_msi configs -> in_u32 base -> base + Z.of_nat (length configs) <= MAX_IRQS ->
  no_routes k base (Z.of_nat (length configs)) ->
  create_msi_routing_entries base configs = Ok es -> routing_add k es = (r, k') ->
  same_groups k k' /\ irqfds (k_vm k') = irqfds (k_vm k) /\ others_kept k k' base (Z.of_nat (length configs)) /\
  (r = Ok tt -> routed k' base configs) /\ r <> Err EEXIST.
Proof.
  intros Hall Hb Hm Hno Hc. destruct (create_entries_ok base configs Hall Hb Hm) as (es' & Hc' & Hl & He).
  rewrite Hc in Hc'. injection Hc' as <-. pose proof (keyed_created _ _ _ Hall Hb Hm Hl He) as Hk.
  unfold routing_add. rewrite <- Hl in *. rewrite (add_check_fresh _ _ base Hk Hm Hno). intros Hs.
  destruct (set_routing_ok _ _ _ _ Hs) as (Hsame & Hr & Hi & Hrt & Hne). fold (insert_entries (k_routes k) es) in Hr, Hrt.
  split; [done|]. split; [done|]. split.
  - intros key Hkey. rewrite Hr, (insert_entries_lookup _ base) by done. by rewrite decide_False.
  - split; [|done]. intros ->. split; [by rewrite Hrt, Hr|]. intros i c Hi'. rewrite Hr, (insert_entries_lookup _ base) by done.
    assert (Hlt := lookup_lt_Some _ _ _ Hi'). rewrite decide_True by (unfold in_keys, msi_key; lia).
    replace (Z.to_nat (msi_key (base + Z.of_nat i) - msi_key base)) with i by (unfold msi_key; lia). by apply He.
Qed.

(** Enabling a group of MSI interrupts without routes. *)
Lemma msi_enable_ok (k : K) g base count l configs r k' :
  k_heap k !! Z.to_nat g = Some (MsiGroup base count l) -> msi_group_ok base count l ->
  all_msi configs -> Z.of_nat (length configs) = count -> no_routes k base count ->
  group_enable k g configs = (r, k') ->
  same_groups k k' /\ others_kept k k' base count /\
  (r = Ok tt -> routed k' base configs /\ irqfds (k_vm k') = irqfd_pairs base l ∪ irqfds (k_vm k)).
Proof.
  intros Hg (Hb & Hc0 & Hm & Hll) Hall <- Hno. cbn [group_enable KvmInterruptManager]. unfold kvm_group_enable. rewrite Hg, Z.eqb_refl. cbn [negb].
  destruct (create_entries_ok base configs Hall Hb Hm) as (es & Hc & Hl & He). rewrite Hc.
  destruct (routing_add k es) as [r1 k1] eqn:Ha.
  destruct (routing_add_ok _ _ _ _ _ _ Hall Hb Hm Hno Hc Ha) as (Hs1 & Hi1 & Ho1 & Hr1 & Hne).
  assert (Hgo : forall r k', with_irqfds register_irqfd k1 base l = (r, k') ->
    same_groups k k' /\ others_kept k k' base (Z.of_nat (length configs)) /\
    (r1 = Ok tt -> r = Ok tt -> routed k' base configs /\ irqfds (k_vm k') = irqfd_pairs base l ∪ irqfds (k_vm k))).
  { intros r0 k0 Hw. destruct (with_irqfds_fields _ _ _ _ _ _ Hw) as (Hs & Hr & Hv).
    split; [by eapply same_groups_trans|]. split; [intros key Hkey; rewrite Hr; by apply Ho1|]. intros -> ->.
    destruct (register_all_ok _ _ _ _ Hv) as [Hrt Hi]. destruct (Hr1 eq_refl) as [Hsync Hrts].
    split; [split; [by rewrite Hrt, Hr|intros i c Hic; rewrite Hr; by apply Hrts]|]. by rewrite Hi, Hi1. }
  destruct r1 as [[]|e]; [intros Hw; destruct (Hgo _ _ Hw) as (? & ? & ?); auto|].
  rewrite (proj2 (Z.eqb_neq e EEXIST)) by congruence. by intros [= <- <-].
Qed.

(** Disabling it takes its irqfds off and its routes away. *)
Lemma msi_disable_ok (k : K) g base count l r k' :
  k_heap k !! Z.to_nat g = Some (MsiGroup base count l) -> msi_group_ok base count l ->
  group_disable k g = (r, k') ->
  same_groups k k' /\ others_kept k k' base count /\
  (r = Ok tt -> no_routes k' base count /\ routing (k_vm k') = k_routes k' /\
     irqfds (k_vm k') = irqfds (k_vm k) ∖ irqfd_pairs base l).
Proof.
  intros Hg (Hb & Hc0 & Hm & Hl). cbn [group_disable KvmInterruptManager]. unfold kvm_group_disable. rewrite Hg.
  destruct (with_irqfds unregister_irqfd k base l) as [r1 k1] eqn:Hw.
  destruct (with_irqfds_fields _ _ _ _ _ _ Hw) as (Hs & Hr & Hv). destruct r1 as [[]|e].
  2:{ intros [= <- <-]. split; [done|]. split; [intros key _; by rewrite Hr|done]. }
  destruct (unregister_all_ok _ _ _ _ Hv) as [Hrt Hi]. unfold routing_remove. intros Hx.
  destruct (set_routing_ok _ _ _ _ Hx) as (Hs2 & Hr2 & Hi2 & Hrt2 & _). fold (delete_entries (k_routes k1) (own_entries base l)) in Hr2, Hrt2.
  assert (Hk : keyed base (own_entries base l)) by (apply keyed_own; [done|lia]).
  split; [by eapply same_groups_trans|]. split.
  - intros key Hkey. rewrite Hr2, (delete_entries_lookup _ base), own_entries_length, Hl by done. by rewrite decide_False, Hr.
  - intros ->. split; [|by rewrite Hrt2, Hr2, Hi2, Hi]. intros key Hkey.
    rewrite Hr2, (delete_entries_lookup _ base), own_entries_length, Hl by done. by rewrite decide_True.
Qed.

(** The group with a new message at [index]. *)
Definition update_entry (l : list (Z * MsiIrqSourceConfig)) (index : nat) (c : MsiIrqSourceConfig) : list (Z * MsiIrqSourceConfig) :=
  match l !! index with
  | Some (fd, old) => <[index := (fd, mkMsiIrqSourceConfig (high_addr c) (low_addr c) (msi_data c) (msg_ctl old) (device_id c))]> l
  | None => l
  end.

Lemma irqfd_pairs_update gsi l index c : irqfd_pairs gsi (update_entry l index c) = irqfd_pairs gsi l.
Proof.
  unfold update_entry. destruct (l !! index) as [[fd old]|] eqn:Hi; [|done].
  revert gsi index Hi. induction l as [|[fd' c'] l IH]; intros gsi [|index] Hi; try done; cbn.
  - by injection Hi as -> ->.
  - by rewrite (IH _ _ Hi).
Qed.

(** Updating a message of an enabled group. *)
Lemma msi_update_ok (k : K) g base count l index c r k' :
  k_heap k !! Z.to_nat g = Some (MsiGroup base count l) -> msi_group_ok base count l -> 0 <= index < count ->
  is_Some (k_routes k !! msi_key (base + index)) ->
  group_update k g index (MsiIrqConfig c) = (r, k') ->
  k_heap k' = <[Z.to_nat g := MsiGroup base count (update_entry l (Z.to_nat index) c)]> (k_heap k) /\
  k_routes k' = <[msi_key (base + index) := new_msi_routing_entry (base + index) c]> (k_routes k) /\
  irqfds (k_vm k') = irqfds (k_vm k) /\
  routing (k_vm k') = match r with Ok _ => k_routes k' | Err _ => routing (k_vm k) end.
Proof.
  intros Hg (Hb & Hc0 & Hm & Hl) Hi Hsome. unfold MAX_IRQS in Hm. cbn [group_update KvmInterruptManager]. unfold kvm_group_update. rewrite Hg.
  rewrite Z.geb_leb, (proj2 (Z.leb_gt _ _)) by lia.
  destruct (lookup_lt_is_Some_2 l (Z.to_nat index)) as [[fd old] Ho]; [lia|]. rewrite Ho. cbv zeta.
  unfold update_entry. rewrite Ho. unfold routing_modify. rewrite msi_entry_key by ulia.
  set (k1 := set_k_heap k _).
  assert (Hk1 : k_heap k1 = <[Z.to_nat g := MsiGroup base count (<[Z.to_nat index := (fd, mkMsiIrqSourceConfig (high_addr c) (low_addr c) (msi_data c) (msg_ctl old) (device_id c))]> l)]> (k_heap k)
    /\ k_routes k1 = k_routes k /\ k_vm k1 = k_vm k) by (by destruct k).
  destruct Hk1 as (Hh & Hr & Hv). rewrite Hr, bool_decide_eq_true_2 by done. intros Hx.
  destruct (set_routing_ok _ _ _ _ Hx) as ((Hs & _) & Hr2 & Hi2 & Hrt & _). rewrite Hs, Hr2, Hi2, Hrt, Hh, Hv. done.
Qed.
End Kvm.

(** ** The groups of KVM keep the promises of the interface *)

Section Laws.
Context {V : Type} `{Kvm V}.
Notation K := (KvmIrqManager V).

Lemma set_routing_heap (k : K) : k_heap (set_routing k).2 = k_heap k.
Proof. unfold set_routing. destruct (set_gsi_routing _ _). by destruct k. Qed.

Lemma with_irqfds_heap f (k : K) gsi l : k_heap (with_irqfds f k gsi l).2 = k_heap k.
Proof. unfold with_irqfds. destruct (each_irqfd _ _ _ _). by destruct k. Qed.

Lemma irqfd_call_heap f (k : K) fd gsi : k_heap (irqfd_call f k fd gsi).2 = k_heap k.
Proof. unfold irqfd_call. destruct (f _ _ _). by destruct k. Qed.

Lemma set_k_routes_heap (k : K) r : k_heap (set_k_routes k r) = k_heap k.
Proof. by destruct k. Qed.

Lemma routing_add_heap (k : K) es : k_heap (routing_add k es).2 = k_heap k.
Proof. unfold routing_add. destruct (add_check _ _); [|done]. by rewrite set_routing_heap, set_k_routes_heap. Qed.

Lemma enable_heap (k : K) g cs : k_heap (kvm_group_enable k g cs).2 = k_heap k.
Proof.
  unfold kvm_group_enable. destruct (_ !! _) as [[base fd|base count l]|]; [..|done].
  { case_match; [done|]. apply irqfd_call_heap. }
  case_match; [done|]. destruct (create_msi_routing_entries base cs) as [es|e]; [|done].
  pose proof (routing_add_heap k es) as Ha. destruct (routing_add k es) as [[[]|e] k1]; cbn [snd] in Ha.
  { by rewrite with_irqfds_heap. }
  case_match; [by rewrite with_irqfds_heap|done].
Qed.

Lemma disable_heap (k : K) g : k_heap (kvm_group_disable k g).2 = k_heap k.
Proof.
  unfold kvm_group_disable. destruct (_ !! _) as [[base fd|base count l]|]; [apply irqfd_call_heap| |done].
  pose proof (with_irqfds_heap unregister_irqfd k base l) as Ha. destruct (with_irqfds _ _ _ _) as [[[]|e] k1]; cbn [snd] in Ha; [|done].
  unfold routing_remove. by rewrite set_routing_heap, set_k_routes_heap.
Qed.

Lemma mask_heap f (k : K) g i : k_heap (kvm_group_mask_with f k g i).2 = k_heap k.
Proof.
  unfold kvm_group_mask_with. destruct (_ !! _) as [[base fd|base count l]|]; [..|done]; case_match; try done;
    [apply irqfd_call_heap|]. destruct (l !! _) as [[fd ?]|]; [apply irqfd_call_heap|done].
Qed.

(** [update] changes the messages of one MSI group, if anything. *)
Lemma update_heap (k : K) g i c :
  k_heap (kvm_group_update k g i c).2 = k_heap k \/
  exists base count l l', k_heap k !! Z.to_nat g = Some (MsiGroup base count l) /\ length l' = length l /\
    k_heap (kvm_group_update k g i c).2 = <[Z.to_nat g := MsiGroup base count l']> (k_heap k).
Proof.
  unfold kvm_group_update. destruct (k_heap k !! Z.to_nat g) as [[base fd|base count l]|] eqn:Hg; [left; by case_match| |by left].
  case_match; [by left|]. destruct c as [|cfg]; [by left|]. destruct (l !! Z.to_nat i) as [[fd old]|] eqn:Hi; [|by left].
  right. exists base, count, l. cbv zeta. eexists. split; [done|]. split; [|unfold routing_modify; case_match].
  2:{ rewrite set_routing_heap, set_k_routes_heap. by destruct k. }
  2:{ by destruct k. }
  by rewrite length_insert.
Qed.

Lemma new_msi_configs_length n (v : V) l v' : new_msi_configs n v = Ret (l, v') -> length l = n.
Proof.
  revert v l v'. induction n as [|n IH]; intros v l v'; cbn [new_msi_configs]; [by intros [= <- <-]|].
  destruct (eventfd_new v) as [[fd|e] v1]; [|discriminate]. intros Hn. bind_inv Hn. destruct a as [l1 v2].
  injection Hn as <- <-. cbn. f_equal. by eapply IH.
Qed.

(** A new group. *)
Definition created (base count : Z) (g : IrqGroup) : Prop :=
  match g with
  | LegacyGroup b _ => b = base /\ count = 1 /\ base < MAX_LEGACY_IRQS
  | MsiGroup b n l => b = base /\ n = count /\ base + count <= MAX_IRQS /\ length l = Z.to_nat count
  end.

Lemma new_group_ok (k : K) ty base count r k' :
  new_group k ty base count = Ret (r, k') ->
  k_heap k' = k_heap k /\ match r with Ok g => created base count g | Err _ => True end.
Proof.
  unfold new_group. destruct ty; intros Hn.
  - destruct (Z.eqb_spec count 1) as [->|]; cbn [negb] in Hn; [|by injection Hn as <- <-].
    case_hyp Hn; [by injection Hn as <- <-|]. bools.
    destruct (eventfd_new (k_vm k)) as [[fd|e] v]; injection Hn as <- <-; destruct k; by (split; [|cbn; try lia]).
  - bind_inv Hn. destruct a; [by injection Hn as <- <-|]. bind_inv Hn. destruct a as [l v]. injection Hn as <- <-.
    destruct k. split; [done|]. cbn. apply new_msi_configs_length in Ha0. split; [done|]. split; [done|]. split; [|done].
    case_hyp Ha; [discriminate|]. bind_inv Ha. injection Ha as Ha. bools. apply add_u_inv in Ha1. lia.
Qed.

Lemma create_heap (k : K) ty base count r k' :
  kvm_create_group k ty base count = Ret (r, k') ->
  match r with
  | Err _ => k_heap k' = k_heap k
  | Ok h => h = Z.of_nat (length (k_heap k)) /\ exists g, k_heap k' = k_heap k ++ [g] /\ created base count g
  end.
Proof.
  unfold kvm_create_group. intros Hc. bind_inv Hc. destruct a as [r1 k1]. destruct (new_group_ok _ _ _ _ _ _ Ha) as [Hh Hg].
  destruct r1 as [g|e]; [|by injection Hc as <- <-]. destruct k1. injection Hc as <- <-. cbn in *. subst. split; [done|]. by exists g.
Qed.

Definition kvm_group_valid (k : K) (g : Z) : Prop := is_Some (k_heap k !! Z.to_nat g).

Lemma same_heap_kept (k k' : K) g :
  k_heap k' = k_heap k -> kvm_group_valid k g -> kvm_group_valid k' g /\ kvm_group_len k' g = kvm_group_len k g.
Proof. unfold kvm_group_valid, kvm_group_len. by intros ->. Qed.

#[refine, global] Instance KvmInterruptManagerLaws : InterruptManagerLaws K := {| group_valid := kvm_group_valid |}.
Proof.
  - intros k ty base count r k' Hc. apply create_heap in Hc. destruct r as [h|e].
    2:{ split; [|done]. intros g. by apply same_heap_kept. }
    destruct Hc as (-> & g & Hh & Hg). cbn. unfold kvm_group_valid, kvm_group_len. rewrite Hh. split.
    + intros h [g' Hv]. rewrite (lookup_app_l_Some _ _ _ _ Hv), Hv. by split.
    + rewrite Nat2Z.id, lookup_app_r, Nat.sub_diag by lia. cbn. split; [done|]. destruct g; cbn in Hg; intuition lia.
  - intros k g cs h. apply same_heap_kept, enable_heap.
  - intros k g h. apply same_heap_kept, disable_heap.
  - intros k g i c h Hv. cbn. destruct (update_heap k g i c) as [E|(base & count & l & l' & Hg & _ & E)]; [by apply same_heap_kept|].
    unfold kvm_group_valid, kvm_group_len in *. rewrite E. destruct (decide (Z.to_nat g = Z.to_nat h)) as [Eh|Hne].
    + rewrite <- Eh, Hg. rewrite list_lookup_insert_eq by (by eapply lookup_lt_Some). done.
    + by rewrite list_lookup_insert_ne by done.
  - intros k g i h. apply same_heap_kept, mask_heap.
  - intros k g i h. apply same_heap_kept, mask_heap.
Defined.

Lemma same_heap_groups (k k' : K) : k_heap k' = k_heap k -> groups_kept k k'.
Proof. intros E g Hg. exact (same_heap_kept k k' g E Hg). Qed.

(** ** Every manager has well-formed groups *)

(** Every sequence of operations; [kr_machine] is what else happens to the machine. *)
Inductive kvm_reach : K -> Prop :=
| kr_new vm : kvm_reach (KvmIrqManager_new vm)
| kr_machine k vm : kvm_reach k -> kvm_reach (set_k_vm k vm)
| kr_initialize k : kvm_reach k -> kvm_reach (KvmIrqManager_initialize k).2
| kr_max k n : kvm_reach k -> kvm_reach (set_max_msi_irqs k n)
| kr_create k ty base count r k' : kvm_reach k -> in_u32 base -> in_u32 count ->
    create_group k ty base count = Ret (r, k') -> kvm_reach k'
| kr_destroy k g : kvm_reach k -> kvm_reach (destroy_group k g)
| kr_enable k g cs : kvm_reach k -> kvm_reach (group_enable k g cs).2
| kr_disable k g : kvm_reach k -> kvm_reach (group_disable k g).2
| kr_update k g i c : kvm_reach k -> kvm_reach (group_update k g i c).2
| kr_mask k g i : kvm_reach k -> kvm_reach (group_mask k g i).2
| kr_unmask k g i : kvm_reach k -> kvm_reach (group_unmask k g i).2.

Lemma kvm_reach_ok k : kvm_reach k -> Forall group_ok (k_heap k).
Proof.
  induction 1 as [vm|k vm _ IH|k _ IH|k n _ IH|k ty base count r k' _ IH Hb Hc Hn|k g _ IH|k g cs _ IH|k g _ IH|k g i c _ IH|k g i _ IH|k g i _ IH].
  - done.
  - by destruct k.
  - unfold KvmIrqManager_initialize. by rewrite set_routing_heap, set_k_routes_heap.
  - by destruct k.
  - apply create_heap in Hn. destruct r as [h|e]; [|by rewrite Hn]. destruct Hn as (_ & g & -> & Hg). apply Forall_app_2; [done|].
    constructor; [|done]. destruct g; cbn in *; unfold msi_group_ok; intuition (subst; try done; ulia).
  - unfold destroy_group. case_match; [by destruct k|done].
  - cbn. by rewrite enable_heap.
  - cbn. by rewrite disable_heap.
  - cbn. destruct (update_heap k g i c) as [->|(base & count & l & l' & Hg & Hl & ->)]; [done|]. apply Forall_insert; [done|].
    pose proof (proj1 (Forall_lookup _ _) IH _ _ Hg) as Hok. cbn in *. unfold msi_group_ok in *. by rewrite Hl.
  - cbn. unfold kvm_group_mask. by rewrite mask_heap.
  - cbn. unfold kvm_group_unmask. by rewrite mask_heap.
Qed.
End Laws.

Section Delivery.
Context {V : Type} `{KvmLaws V}.
Notation K := (KvmIrqManager V).

(** A device in an MSI mode, with the group of the mode. *)
Record msi_device (k : K) (d : DeviceInterruptManager) (g base count : Z) (l : list (Z * MsiIrqSourceConfig)) : Prop := {
  md_ok : dim_ok k d;
  md_mode : is_msi (im_mode d) = true;
  md_group : mode_group d (im_mode d) = Some g;
  md_heap : k_heap k !! Z.to_nat g = Some (MsiGroup base count l);
  md_gok : msi_group_ok base count l;
}.

Lemma msi_device_intro (k : K) d g base count l :
  dim_reach k d -> kvm_reach k -> is_msi (im_mode d) = true -> mode_group d (im_mode d) = Some g ->
  k_heap k !! Z.to_nat g = Some (MsiGroup base count l) -> msi_device k d g base count l.
Proof.
  intros Hd Hk Hm Hg Hh. constructor; try done; [by apply dim_reach_ok|].
  exact (proj1 (Forall_lookup _ _) (kvm_reach_ok k Hk) _ _ Hh).
Qed.

(** The messages the group is given are MSI messages, one for each interrupt. *)
Lemma msi_device_configs k d g base count l :
  msi_device k d g base count l ->
  group_len k g = count /\ count <= Z.of_nat (length (im_msi_config d)) /\ all_msi (im_msi_config d).
Proof.
  intros [Hd Hm Hg Hh Hok]. assert (Hl : group_len k g = count) by (cbn; unfold kvm_group_len; by rewrite Hh).
  split; [done|]. split; [|apply Hd]. destruct (d_modes _ _ Hd (im_mode d)) as (i & Hi & Hc). unfold mode_group in Hg. rewrite Hi in Hg.
  destruct Hc as [->|(_ & _ & g' & Hg' & _ & Hle)]; [by rewrite Z.eqb_refl in Hg|]. case_hyp Hg; [done|].
  assert (g' = g) as -> by congruence. specialize (Hle Hm). lia.
Qed.

Lemma device_enable_msi k d g base count l r d' k' :
  msi_device k d g base count l -> im_activated d = false -> no_routes k base count ->
  DIM_enable k d = Ret (r, d', k') ->
  others_kept k k' base count /\ im_msi_config d' = im_msi_config d /\
  match r with
  | Ok _ => im_activated d' = true /\ routed k' base (take (Z.to_nat count) (im_msi_config d)) /\
      irqfds (k_vm k') = irqfd_pairs base l ∪ irqfds (k_vm k)
  | Err _ => im_activated d' = false
  end.
Proof.
  intros Hmd Ha Hno. pose proof (msi_device_configs _ _ _ _ _ _ Hmd) as (Hlen & Hle & Hall). destruct Hmd as [Hd Hm Hg Hh Hok].
  rewrite DIM_enable_ok by done.
  assert (He : enabled k d = match group_enable k g (take (Z.to_nat count) (im_msi_config d)) with
    | (Err e, k) => Ret (Err e, d, k) | (Ok _, k) => Ret (Ok tt, set_im_activated d true, k) end).
  { unfold enabled, start_mode, mode_configs. rewrite <- Hlen. pose proof (with_mode_same d) as Hs.
    destruct (im_mode d); cbn [is_msi] in *; try done; by rewrite Hg, Hs. }
  rewrite He. clear He. destruct (group_enable k g _) as [r1 k1] eqn:He.
  assert (Htl : Z.of_nat (length (take (Z.to_nat count) (im_msi_config d))) = count).
  { rewrite length_take. destruct Hok as (_ & ? & _). lia. }
  destruct (msi_enable_ok _ _ _ _ _ _ _ _ Hh Hok (Forall_take _ _ _ Hall) Htl Hno He) as (_ & Ho & Hr).
  destruct (set_activated_fields d true) as (_ & Ea & _ & _ & _ & Em).
  destruct r1 as [[]|e]; intros [= <- <- <-]; [rewrite Em, Ea|]; by auto.
Qed.

Lemma routed_insert k k' base (configs : list InterruptSourceConfig) index c :
  routed k base configs -> (index < length configs)%nat ->
  k_routes k' = <[msi_key (base + Z.of_nat index) := new_msi_routing_entry (base + Z.of_nat index) c]> (k_routes k) ->
  routing (k_vm k') = k_routes k' -> routed k' base (<[index := MsiIrqConfig c]> configs).
Proof.
  intros [_ Hr] Hi Hk Hs. split; [done|]. intros j c' Hj. rewrite Hk. destruct (decide (index = j)) as [->|Hne].
  - rewrite list_lookup_insert_eq in Hj by done. injection Hj as ->. by rewrite lookup_insert_eq.
  - rewrite list_lookup_insert_ne in Hj by done. rewrite lookup_insert_ne by (unfold msi_key; lia). by apply Hr.
Qed.

Lemma device_update_msi k d g base count l index configs r k' :
  msi_device k d g base count l -> im_activated d = true -> 0 <= index < count -> Z.of_nat (length configs) = count ->
  all_msi configs -> routed k base configs -> DIM_update k d index = Ret (r, k') ->
  others_kept k k' (base + index) 1 /\ irqfds (k_vm k') = irqfds (k_vm k) /\
  (r = Ok tt -> exists c, im_msi_config d !! Z.to_nat index = Some c /\ routed k' base (<[Z.to_nat index := c]> configs)).
Proof.
  intros Hmd Ha Hi Hl Hall Hr. pose proof (msi_device_configs _ _ _ _ _ _ Hmd) as (Hlen & Hle & Hmsi). destruct Hmd as [Hd Hm Hg Hh Hok].
  rewrite DIM_update_ok by (done || lia). unfold update_done. rewrite Ha, Hm, Hg, Hlen, (proj2 (Z.ltb_lt _ _)) by lia. cbn [andb].
  destruct (lookup_lt_is_Some_2 (im_msi_config d) (Z.to_nat index)) as [c Hc]; [lia|]. rewrite Hc.
  destruct (proj1 (Forall_lookup _ _) Hmsi _ _ Hc) as [m ->].
  destruct (lookup_lt_is_Some_2 configs (Z.to_nat index)) as [c' Hc']; [lia|]. destruct (proj1 (Forall_lookup _ _) Hall _ _ Hc') as [m' ->].
  pose proof (proj2 Hr _ _ Hc') as Hold. rewrite Z2Nat.id in Hold by lia.
  intros [= Hu]. destruct (msi_update_ok _ _ _ _ _ _ _ _ _ Hh Hok Hi (ex_intro _ _ Hold) Hu) as (_ & Hk & Hf & Hs).
  split. { intros key Hkey. rewrite Hk, lookup_insert_ne by (unfold in_keys, msi_key in *; lia). done. }
  split; [done|]. intros ->. exists (MsiIrqConfig m). split; [done|].
  apply (routed_insert k); [done|lia|by rewrite Z2Nat.id by lia|done].
Qed.

Lemma device_reset_msi k d g base count l r d' k' :
  msi_device k d g base count l -> im_activated d = true -> DIM_reset k d = Ret (r, d', k') ->
  others_kept k k' base count /\ im_activated d' = false /\
  (r = Ok tt -> no_routes k' base count /\ routing (k_vm k') = k_routes k' /\
     irqfds (k_vm k') = irqfds (k_vm k) ∖ irqfd_pairs base l).
Proof.
  intros [Hd Hm Hg Hh Hok] Ha. rewrite DIM_reset_ok by done. unfold reset_done. rewrite Hg, Ha.
  destruct (group_disable k g) as [r1 k1] eqn:He. destruct (msi_disable_ok _ _ _ _ _ _ _ Hh Hok He) as (_ & Ho & Hr).
  destruct (set_activated_fields d false) as (_ & Ea & _). destruct (with_mode_fields (set_im_activated d false) Disabled) as (_ & _ & _ & _ & Eb).
  destruct r1 as [[]|e]; intros [= <- <- <-]; [rewrite Eb, Ea|]; auto.
Qed.

(** C21. A device's MSI messages are the ones in force in KVM.  Once [enable]
    succeeds, the route of the [i]-th interrupt of the group is the [i]-th message
    and its irqfd raises it; [update] puts one new message in force and leaves
    every other route as it is; after [reset] the interrupts have no routes and no
    irqfds.  The routes of other devices never change. *)
Theorem device_msi_delivered (k : K) d g base count l :
  dim_reach k d -> kvm_reach k -> is_msi (im_mode d) = true -> mode_group d (im_mode d) = Some g ->
  k_heap k !! Z.to_nat g = Some (MsiGroup base count l) ->
  (forall r d' k', im_activated d = false -> no_routes k base count -> DIM_enable k d = Ret (r, d', k') ->
     others_kept k k' base count /\ im_msi_config d' = im_msi_config d /\
     match r with
     | Ok _ => im_activated d' = true /\ routed k' base (take (Z.to_nat count) (im_msi_config d)) /\
         irqfds (k_vm k') = irqfd_pairs base l ∪ irqfds (k_vm k)
     | Err _ => im_activated d' = false
     end) /\
  (forall index configs r k', im_activated d = true -> 0 <= index < count -> Z.of_nat (length configs) = count ->
     all_msi configs -> routed k base configs -> DIM_update k d index = Ret (r, k') ->
     others_kept k k' (base + index) 1 /\ irqfds (k_vm k') = irqfds (k_vm k) /\
     (r = Ok tt -> exists c, im_msi_config d !! Z.to_nat index = Some c /\ routed k' base (<[Z.to_nat index := c]> configs))) /\
  (forall r d' k', im_activated d = true -> DIM_reset k d = Ret (r, d', k') ->
     others_kept k k' base count /\ im_activated d' = false /\
     (r = Ok tt -> no_routes k' base count /\ routing (k_vm k') = k_routes k' /\
        irqfds (k_vm k') = irqfds (k_vm k) ∖ irqfd_pairs base l)).
Proof.
  intros Hd Hk Hm Hg Hh. pose proof (msi_device_intro _ _ _ _ _ _ Hd Hk Hm Hg Hh) as Hmd.
  split; [intros; by eapply device_enable_msi|]. split; [intros; by eapply device_update_msi|intros; by eapply device_reset_msi].
Qed.
End Delivery.

(** ** A machine *)

(** A kernel that accepts everything. *)
Record DemoVm := mkDemoVm { demo_routing : gmap Z RoutingEntry; demo_irqfds : gset (Z * Z); demo_next : Z }.

#[local] Instance demo_kvm : Kvm DemoVm := {|
  eventfd_new v := (Ok (demo_next v), mkDemoVm (demo_routing v) (demo_irqfds v) (demo_next v + 1));
  register_irqfd v fd gsi := (Ok tt, mkDemoVm (demo_routing v) ({[ (fd, gsi) ]} ∪ demo_irqfds v) (demo_next v));
  unregister_irqfd v fd gsi := (Ok tt, mkDemoVm (demo_routing v) (demo_irqfds v ∖ {[ (fd, gsi) ]}) (demo_next v));
  set_gsi_routing v table := (Ok tt, mkDemoVm table (demo_irqfds v) (demo_next v));
|}.

#[refine, local] Instance demo_kvm_laws : KvmLaws DemoVm := {| routing := demo_routing; irqfds := demo_irqfds |}.
Proof.
  - by intros v r v' [= <- <-].
  - by intros v fd gsi r v' [= <- <-].
  - by intros v fd gsi r v' [= <- <-].
  - by intros v table r v' [= <- <-].
  - by intros v table e v' [=].
Defined.

(** A device with a legacy interrupt and two MSI interrupts, 32 and 33. *)
Definition demo_resources : DeviceResources := mkDeviceResources [LegacyIrq 5; MsiIrq GenericMsi 32 2].
Definition demo_start : KvmIrqManager DemoVm := KvmIrqManager_new (mkDemoVm ∅ ∅ 3).
Definition demo_groups : KvmIrqManager DemoVm :=
  mkKvmIrqManager (mkDemoVm ∅ ∅ 6) ∅ {[5 := 0; 32 := 1]}
    [LegacyGroup 5 3; MsiGroup 32 2 [(4, MsiIrqSourceConfig_default); (5, MsiIrqSourceConfig_default)]] 256.
Definition demo_device (mode : DeviceInterruptMode) (current : Z) (configs : list InterruptSourceConfig) : DeviceInterruptManager :=
  mkDIM mode false current [usize_max; 0; 1; usize_max; usize_max] [0; 1] configs None.
Definition demo_message (data : Z) : InterruptSourceConfig := MsiIrqConfig (mkMsiIrqSourceConfig 0 0xfee00000 data 0 None).
Definition no_message : InterruptSourceConfig := MsiIrqConfig MsiIrqSourceConfig_default.

Lemma demo_reach : dim_reach demo_groups (demo_device Disabled usize_max [no_message; no_message]).
Proof.
  eapply (dim_new demo_start demo_resources); [|vm_compute; reflexivity].
  intros ty b s E. cbn in E. destruct (decide (ty = GenericMsi)); [|discriminate]. injection E as <- <-. ulia.
Qed.

Lemma demo_groups_reach : kvm_reach demo_groups.
Proof.
  assert (Hl : kvm_reach (mkKvmIrqManager (mkDemoVm ∅ ∅ 4) ∅ {[5 := 0]} [LegacyGroup 5 3] 256)).
  { apply (kr_create demo_start LegacyIrqSource 5 1 (Ok 0)); [constructor|ulia|ulia|vm_compute; reflexivity]. }
  apply (kr_create _ MsiIrqSource 32 2 (Ok 1) _ Hl); [ulia|ulia|vm_compute; reflexivity].
Qed.

(** The driver selects MSI interrupts and writes the low address and the data of the first message. *)
Lemma demo_msi_reach : dim_reach demo_groups (demo_device GenericMsiIrqMode 1 [demo_message 0x41; no_message]).
Proof.
  pose proof (dim_mode _ _ GenericMsiIrqMode (Ok tt) (demo_device GenericMsiIrqMode 1 [no_message; no_message]) demo_reach ltac:(vm_compute; reflexivity)) as H1.
  pose proof (dim_message _ _ 0 (fun _ => mkMsiIrqSourceConfig 0 0xfee00000 0x41 0 None) H1 ltac:(lia)) as H2. exact H2.
Qed.

Lemma interrupt_manager_correct_witness :
  DIM_enable demo_groups (demo_device Disabled usize_max [no_message; no_message]) =
    enabled demo_groups (demo_device Disabled usize_max [no_message; no_message]) /\
  start_mode (demo_device Disabled usize_max [no_message; no_message]) = LegacyIrqMode.
Proof.
  split; [|reflexivity].
  exact (proj1 (proj2 (interrupt_manager_correct demo_groups (demo_device Disabled usize_max [no_message; no_message]) demo_reach))).
Defined.

Lemma demo_no_routes : no_routes demo_groups 32 2.
Proof. by intros key _. Qed.

Lemma device_msi_delivered_witness :
  exists d' k', DIM_enable demo_groups (demo_device GenericMsiIrqMode 1 [demo_message 0x41; no_message]) = Ret (Ok tt, d', k') /\
    im_activated d' = true /\ routed k' 32 [demo_message 0x41; no_message].
Proof.
  eexists _, _. split; [vm_compute; reflexivity|].
  destruct (proj1 (device_msi_delivered demo_groups (demo_device GenericMsiIrqMode 1 [demo_message 0x41; no_message]) 1 32 2
    [(4, MsiIrqSourceConfig_default); (5, MsiIrqSourceConfig_default)] demo_msi_reach demo_groups_reach eq_refl eq_refl eq_refl)
    (Ok tt) _ _ eq_refl demo_no_routes ltac:(vm_compute; reflexivity)) as (_ & _ & Ha & Hr & _).
  split; [exact Ha|exact Hr].
Defined.
