(* ===== verification/VirtioDevice.v ===== *)
(** The virtio device model (dbs_virtio_devices/src/device.rs): the interface of a
    device, what it is handed on activation, and the helper with the features and
    the configuration space that devices are built on.

    The queue is the one of the crate virtio-queue and a parameter; so are the
    eventfds.

    Correctness of the helper devices are built on: acknowledged features, and the
    configuration space. *)

From S2P Require Import Prelude Resources Interrupt VsockStream VsockPacket.

(** The trait [QueueT] of virtio-queue, as far as the transport uses it. *)
Class Queue (W Q : Type) := {
  q_new : Z -> result Q Z;
  q_max_size : Q -> Z;
  q_ready : Q -> bool;
  q_is_valid : W -> Q -> bool;
  q_set_size : Q -> Z -> Q;
  q_set_ready : Q -> bool -> Q;
  q_set_desc_table_address : Q -> option Z -> option Z -> Q;
  q_set_avail_ring_address : Q -> option Z -> option Z -> Q;
  q_set_used_ring_address : Q -> option Z -> option Z -> Q;
}.

(** dbs_interrupt/src/notifier.rs. *)
Inductive Notifier : Type :=
| NoopNotifier
| LegacyNotifier (group status_bits : Z)
| MsiNotifier (group index : Z).

Record VirtioQueueConfig (Q : Type) := mkVirtioQueueConfig {
  vq_queue : Q;
  vq_eventfd : Z;
  vq_notifier : Notifier;
  vq_index : Z;
}.
Arguments mkVirtioQueueConfig {Q}.
Arguments vq_queue {Q}.
Arguments vq_eventfd {Q}.
Arguments vq_notifier {Q}.
Arguments vq_index {Q}.

Definition set_vq_queue {Q} (c : VirtioQueueConfig Q) (q : Q) : VirtioQueueConfig Q :=
  let '(mkVirtioQueueConfig _ b c d) := c in mkVirtioQueueConfig q b c d.

(** [VirtioSharedMemory]: offset and length; and the list of them. *)
Record VirtioSharedMemoryList := mkVirtioSharedMemoryList {
  shm_host_addr : Z;
  shm_guest_addr : Z;
  shm_len : Z;
  shm_region_list : list (Z * Z);
}.

Record VirtioDeviceConfig (Q : Type) := mkVirtioDeviceConfig {
  dc_resources : DeviceResources;
  dc_queues : list (VirtioQueueConfig Q);
  dc_ctrl_queue : option (VirtioQueueConfig Q);
  dc_device_change_notifier : Notifier;
  dc_shm_regions : option VirtioSharedMemoryList;
}.
Arguments mkVirtioDeviceConfig {Q}.
Arguments dc_resources {Q}.
Arguments dc_queues {Q}.
Arguments dc_ctrl_queue {Q}.
Arguments dc_device_change_notifier {Q}.
Arguments dc_shm_regions {Q}.

(** The trait [VirtioDevice]; an error is a code of the device's own. *)
Class VirtioDevice (W Q D : Type) := {
  device_type : D -> Z;
  queue_max_sizes : D -> list Z;
  ctrl_queue_max_sizes : D -> Z;
  get_avail_features : D -> Z -> Z;
  set_acked_features : D -> Z -> Z -> D;
  read_config : D -> Z -> bytes -> result unit Z * bytes * D;
  write_config : D -> Z -> bytes -> result unit Z * D;
  device_activate : W -> D -> VirtioDeviceConfig Q -> outcome (result unit Z * D * W);
  device_reset : W -> D -> outcome (result unit Z * D * W);
  device_set_resource : W -> D -> DeviceResources -> outcome (result (option VirtioSharedMemoryList) Z * D * W);
}.

(** ** VirtioDeviceInfo *)

Record VirtioDeviceInfo := mkVirtioDeviceInfo {
  avail_features : Z;
  acked_features : Z;
  queue_sizes : list Z;
  config_space : bytes;
}.

Inductive ConfigError : Type :=
| InvalidOffset (offset : Z)
| PlusOverflow (offset len : Z)
| InvalidOffsetPlusDataLen (x : Z).

(** The errors of activation that occur here. *)
Inductive ActivateError : Type :=
| InvalidParam
| ActInternalError
| ActIOError (e : Z).

Definition VirtioDeviceInfo_new (features : Z) (sizes : list Z) (space : bytes) : VirtioDeviceInfo :=
  mkVirtioDeviceInfo features 0 sizes space.

Definition info_get_avail_features (i : VirtioDeviceInfo) (page : Z) : Z :=
  if page =? 0 then as_u32 (avail_features i)
  else if page =? 1 then as_u32 (Z.shiftr (avail_features i) 32)
  else 0.

Definition info_set_acked_features (i : VirtioDeviceInfo) (page value : Z) : VirtioDeviceInfo :=
  let v := if page =? 0 then value else if page =? 1 then as_u64 (Z.shiftl value 32) else 0 in
  let unrequested_features := Z.land v (u64_not (avail_features i)) in
  let v := if negb (unrequested_features =? 0) then Z.land v (u64_not unrequested_features) else v in
  let '(mkVirtioDeviceInfo a b c d) := i in mkVirtioDeviceInfo a (Z.lor b v) c d.

Definition info_read_config (i : VirtioDeviceInfo) (offset : Z) (data : bytes) : result unit ConfigError * bytes :=
  let config_len := zlen (config_space i) in
  if offset >=? config_len then (Err (InvalidOffset offset), data) else
  match checked_add u64_max offset (zlen data) with
  | Some e =>
      let src := ztake (Z.min e config_len - offset) (zdrop offset (config_space i)) in
      (Ok tt, src ++ zdrop (zlen src) data)
  | None => (Ok tt, data)
  end.

Definition info_write_config (i : VirtioDeviceInfo) (offset : Z) (data : bytes) :
  result unit ConfigError * VirtioDeviceInfo :=
  let data_len := zlen data in
  let config_len := zlen (config_space i) in
  if offset >=? config_len then (Err (InvalidOffset offset), i) else
  match checked_add u64_max offset data_len with
  | None => (Err (PlusOverflow offset data_len), i)
  | Some e =>
      if e >? config_len then (Err (InvalidOffsetPlusDataLen e), i) else
      let '(mkVirtioDeviceInfo a b c d) := i in
      (Ok tt, mkVirtioDeviceInfo a b c (ztake offset d ++ data ++ zdrop e d))
  end.

Definition check_queue_sizes {Q} (i : VirtioDeviceInfo) (queues : list (VirtioQueueConfig Q)) : result unit ActivateError :=
  if (length queues =? 0)%nat || negb (length queues =? length (queue_sizes i))%nat then Err InvalidParam else Ok tt.

(** ** Features *)

(** The features of a page, as the 64-bit set. *)
Definition feature_page (page value : Z) : Z :=
  if page =? 0 then value else if page =? 1 then Z.shiftl value 32 else 0.

Lemma land_unrequested v a :
  0 <= v < 2 ^ 64 -> 0 <= a < 2 ^ 64 ->
  (let u := Z.land v (u64_not a) in if negb (u =? 0) then Z.land v (u64_not u) else v) = Z.land v a.
Proof.
  intros Hv Ha. assert (Hbits : forall x n, 0 <= x < 2 ^ 64 -> 64 <= n -> Z.testbit x n = false).
  { intros x n Hx Hn. destruct (decide (x = 0)) as [->|]; [apply Z.bits_0|]. apply Z.bits_above_log2; [lia|].
    apply Z.log2_lt_pow2; [lia|]. pose proof (Z.pow_le_mono_r 2 64 n). lia. }
  assert (Hmax : forall n, 0 <= n -> Z.testbit u64_max n = (n <? 64)) by (intros n Hn; change u64_max with (Z.ones 64); by rewrite Z.testbit_ones_nonneg).
  cbv zeta. assert (Hu : forall n, 0 <= n -> Z.testbit (Z.land v (u64_not a)) n = Z.testbit v n && xorb (Z.testbit a n) (n <? 64)).
  { intros n Hn. unfold u64_not. by rewrite Z.land_spec, Z.lxor_spec, Hmax. }
  destruct (Z.eqb_spec (Z.land v (u64_not a)) 0) as [E|Hne]; cbn [negb]; apply Z.bits_inj'; intros n Hn; rewrite !Z.land_spec.
  - specialize (Hu n Hn). rewrite E, Z.bits_0 in Hu. destruct (Z.ltb_spec n 64); [|by rewrite (Hbits v)].
    destruct (Z.testbit v n), (Z.testbit a n); done.
  - unfold u64_not at 1. rewrite Z.lxor_spec, Hu, Hmax by done.
    destruct (Z.ltb_spec n 64); [|by rewrite (Hbits v)]. by destruct (Z.testbit v n), (Z.testbit a n).
Qed.

Lemma set_acked_ok i page value :
  in_u64 (avail_features i) -> in_u32 value ->
  info_set_acked_features i page value =
    mkVirtioDeviceInfo (avail_features i) (Z.lor (acked_features i) (Z.land (feature_page page value) (avail_features i)))
      (queue_sizes i) (config_space i).
Proof.
  intros Ha Hv. unfold info_set_acked_features, feature_page.
  assert (Hp : (if page =? 0 then value else if page =? 1 then as_u64 (Z.shiftl value 32) else 0) =
    (if page =? 0 then value else if page =? 1 then Z.shiftl value 32 else 0)).
  { destruct (page =? 0), (page =? 1); try done. unfold as_u64. rewrite Z.shiftl_mul_pow2 by lia. rewrite Z.mod_small; [done|ulia]. }
  rewrite Hp. set (v := if page =? 0 then value else _).
  assert (Hr : 0 <= v < 2 ^ 64) by (unfold v; destruct (page =? 0), (page =? 1); rewrite ?Z.shiftl_mul_pow2 by lia; ulia).
  pose proof (land_unrequested v (avail_features i) Hr ltac:(ulia)) as E. cbv zeta in *. rewrite E. by destruct i.
Qed.

(** The acknowledged features: after any acknowledgements of a driver, of any
    page, they are exactly those features it acknowledged that the device has. *)
Theorem acked_features_correct features sizes space acks :
  in_u64 features -> Forall (fun '(_, value) => in_u32 value) acks ->
  let i := foldl (fun i '(page, value) => info_set_acked_features i page value) (VirtioDeviceInfo_new features sizes space) acks in
  acked_features i = Z.land (foldl (fun acc '(page, value) => Z.lor acc (feature_page page value)) 0 acks) features /\
  Z.land (acked_features i) features = acked_features i /\ avail_features i = features.
Proof.
  intros Hf Hacks. cbv zeta.
  assert (Hgo : forall acc i, avail_features i = features -> acked_features i = Z.land acc features ->
    acked_features (foldl (fun i '(page, value) => info_set_acked_features i page value) i acks) =
      Z.land (foldl (fun acc '(page, value) => Z.lor acc (feature_page page value)) acc acks) features /\
    avail_features (foldl (fun i '(page, value) => info_set_acked_features i page value) i acks) = features).
  { induction Hacks as [|[page value] acks Hv _ IH]; intros acc i Ha Hk; [done|]. cbn [foldl]. apply IH; rewrite set_acked_ok by (by rewrite ?Ha); cbn.
    - done.
    - by rewrite Hk, Ha, Z.land_lor_distr_l. }
  destruct (Hgo 0 (VirtioDeviceInfo_new features sizes space) eq_refl eq_refl) as [E1 E2]. rewrite E1, E2.
  split; [done|]. split; [|done]. by rewrite <- Z.land_assoc, Z.land_diag.
Qed.

Lemma acked_features_correct_witness :
  acked_features (foldl (fun i '(page, value) => info_set_acked_features i page value) (VirtioDeviceInfo_new 0x100000005 [16] []) [(0, 7); (1, 3)])
    = 0x100000005.
Proof.
  exact (proj1 (acked_features_correct 0x100000005 [16] [] [(0, 7); (1, 3)] ltac:(ulia) ltac:(repeat constructor; ulia))).
Defined.

(** ** The configuration space *)

Lemma take_min_drop (l : bytes) offset n :
  0 <= offset -> 0 <= n -> ztake (Z.min (offset + n) (zlen l) - offset) (zdrop offset l) = ztake n (zdrop offset l).
Proof.
  intros Ho Hn. unfold ztake, zdrop, zlen. destruct (Z.le_ge_cases (offset + n) (Z.of_nat (length l))).
  - f_equal. lia.
  - rewrite !take_ge; [done|..]; rewrite length_drop; lia.
Qed.

Lemma read_config_ok i offset buf :
  0 <= offset ->
  (info_read_config i offset buf).2 =
    (if offset + zlen buf <=? u64_max then ztake (zlen buf) (zdrop offset (config_space i)) else []) ++
    zdrop (if offset + zlen buf <=? u64_max then Z.max 0 (zlen (config_space i) - offset) else 0) buf.
Proof.
  intros Ho. unfold info_read_config, checked_add. destruct (Z.geb_spec offset (zlen (config_space i))) as [Hge|Hlt]; cbn [snd].
  { assert (Hd : zdrop offset (config_space i) = []) by (unfold zdrop, zlen in *; apply drop_ge; lia).
    destruct (_ <=? u64_max); [|done]. rewrite Hd, Z.max_l by lia. unfold ztake. by rewrite take_nil. }
  destruct (offset + zlen buf <=? u64_max); [|done]. cbn [snd]. rewrite take_min_drop by (lia || apply zlen_nonneg). f_equal.
  rewrite Z.max_r by lia. unfold zlen, ztake, zdrop. rewrite Nat2Z.id, length_take, length_drop.
  destruct (Z.le_ge_cases (Z.of_nat (length buf)) (Z.of_nat (length (config_space i)) - offset)).
  - rewrite Nat.min_l by lia. rewrite !drop_ge by lia. done.
  - rewrite Nat.min_r by lia. f_equal. lia.
Qed.

Lemma write_config_in i offset data :
  0 <= offset < zlen (config_space i) -> offset + zlen data <= zlen (config_space i) <= u64_max ->
  info_write_config i offset data = (Ok tt, mkVirtioDeviceInfo (avail_features i) (acked_features i) (queue_sizes i)
    (ztake offset (config_space i) ++ data ++ zdrop (offset + zlen data) (config_space i))).
Proof.
  intros Ho Hl. unfold info_write_config, checked_add. rewrite Z.geb_leb, (proj2 (Z.leb_gt _ _)), (proj2 (Z.leb_le _ _)) by lia.
  rewrite Z.gtb_ltb, (proj2 (Z.ltb_ge _ _)) by lia. by destruct i.
Qed.

Lemma write_config_out i offset data :
  ~ (offset < zlen (config_space i) /\ offset + zlen data <= zlen (config_space i)) ->
  exists e, info_write_config i offset data = (Err e, i).
Proof.
  intros Hn. unfold info_write_config, checked_add. destruct (Z.geb_spec offset (zlen (config_space i))); [by eexists|].
  destruct (offset + zlen data <=? u64_max); [|by eexists]. destruct (Z.gtb_spec (offset + zlen data) (zlen (config_space i))); [by eexists|]. lia.
Qed.

(** The configuration space: a write inside it succeeds, replaces exactly its
    bytes, and a read of them gives them back; a write that does not fit fails and
    changes nothing; a read copies the bytes there are and leaves the rest of the
    buffer alone; the length never changes. *)
Theorem config_space_correct i offset data :
  0 <= offset -> zlen (config_space i) <= u64_max ->
  let '(r, i') := info_write_config i offset data in
  (r = Ok tt <-> offset < zlen (config_space i) /\ offset + zlen data <= zlen (config_space i)) /\
  zlen (config_space i') = zlen (config_space i) /\
  match r with
  | Ok _ => info_read_config i' offset (replicate (length data) 0) = (Ok tt, data) /\
      ztake offset (config_space i') = ztake offset (config_space i) /\
      zdrop (offset + zlen data) (config_space i') = zdrop (offset + zlen data) (config_space i)
  | Err _ => i' = i
  end /\
  (forall buf, (info_read_config i offset buf).2 =
     (if offset + zlen buf <=? u64_max then ztake (zlen buf) (zdrop offset (config_space i)) else []) ++
     zdrop (if offset + zlen buf <=? u64_max then Z.max 0 (zlen (config_space i) - offset) else 0) buf).
Proof.
  intros Ho Hmax.
  destruct (decide (offset < zlen (config_space i) /\ offset + zlen data <= zlen (config_space i))) as [[Hlt Hle]|Hn].
  2:{ destruct (write_config_out i offset data Hn) as [e ->]. split; [by split|]. split; [done|]. split; [done|]. intros buf. by apply read_config_ok. }
  rewrite write_config_in by lia. pose proof (zlen_nonneg data) as Hd. set (l := config_space i) in *. cbn [config_space].
  assert (Ht : zlen (ztake offset l) = offset) by (apply zlen_ztake; lia).
  assert (Hzl : zlen (ztake offset l ++ data ++ zdrop (offset + zlen data) l) = zlen l) by (rewrite !zlen_app, Ht, zlen_zdrop by lia; lia).
  split; [done|]. split; [done|]. split; [|intros buf; by apply read_config_ok].
  assert (Hdrop : zdrop offset (ztake offset l ++ data ++ zdrop (offset + zlen data) l) = data ++ zdrop (offset + zlen data) l) by (by apply zdrop_app).
  split; [|split].
  - unfold info_read_config, checked_add. cbn [config_space]. rewrite Hzl, Hdrop.
    assert (Hrep : zlen (replicate (length data) 0) = zlen data) by (unfold zlen; by rewrite length_replicate). rewrite Hrep.
    rewrite Z.geb_leb, (proj2 (Z.leb_gt _ _)), (proj2 (Z.leb_le _ _)) by lia. rewrite Z.min_l by lia.
    replace (offset + zlen data - offset) with (zlen data) by lia. rewrite ztake_app by done. f_equal.
    unfold zdrop. rewrite drop_ge, app_nil_r; [done|]. rewrite length_replicate. unfold zlen. lia.
  - by apply ztake_app.
  - rewrite app_assoc. apply zdrop_app. rewrite zlen_app, Ht. done.
Qed.

Lemma config_space_correct_witness :
  info_read_config (info_write_config (VirtioDeviceInfo_new 0 [] [1; 2; 3; 4]) 1 [7; 8]).2 1 [0; 0] = (Ok tt, [7; 8]).
Proof.
  exact (proj1 (proj1 (proj2 (proj2 (config_space_correct (VirtioDeviceInfo_new 0 [] [1; 2; 3; 4]) 1 [7; 8] ltac:(lia) ltac:(by vm_compute)))))).
Defined.
