(* ===== verification/Mmio.v ===== *)
(** The virtio MMIO transport (dbs_virtio_devices/src/mmio): the registers a guest
    driver uses, the driver status, the queues, activation and reset of the device,
    the events of queue notifications, and the switch to MSI interrupts.

    The device is any implementation of the interface of VirtioDevice.v; the
    interrupts are those of Interrupt.v; the calls to the kernel are parameters. *)

From S2P Require Import Prelude Resources Interrupt VsockStream VsockPacket VirtioDevice.

(** ** Registers and constants (mod.rs, dragonball.rs, lib.rs) *)

Definition MMIO_MAGIC_VALUE : Z := 0x74726976.
Definition MMIO_VERSION_2 : Z := 2.
Definition MMIO_NOTIFY_REG_OFFSET : Z := 0x50.
Definition MMIO_DEFAULT_CFG_SIZE : Z := 0x1000.

Definition REG_MMIO_MAGIC_VALUE : Z := 0x000.
Definition REG_MMIO_VERSION : Z := 0x004.
Definition REG_MMIO_DEVICE_ID : Z := 0x008.
Definition REG_MMIO_VENDOR_ID : Z := 0x00c.
Definition REG_MMIO_DEVICE_FEATURE : Z := 0x010.
Definition REG_MMIO_DEVICE_FEATURES_S : Z := 0x014.
Definition REG_MMIO_DRIVER_FEATURE : Z := 0x020.
Definition REG_MMIO_DRIVER_FEATURES_S : Z := 0x024.
Definition REG_MMIO_QUEUE_SEL : Z := 0x030.
Definition REG_MMIO_QUEUE_NUM_MA : Z := 0x034.
Definition REG_MMIO_QUEUE_NUM : Z := 0x038.
Definition REG_MMIO_QUEUE_READY : Z := 0x044.
Definition REG_MMIO_QUEUE_NOTIF : Z := 0x050.
Definition REG_MMIO_INTERRUPT_STAT : Z := 0x060.
Definition REG_MMIO_INTERRUPT_AC : Z := 0x064.
Definition REG_MMIO_STATUS : Z := 0x070.
Definition REG_MMIO_QUEUE_DESC_LOW : Z := 0x080.
Definition REG_MMIO_QUEUE_DESC_HIGH : Z := 0x084.
Definition REG_MMIO_QUEUE_AVAIL_LOW : Z := 0x090.
Definition REG_MMIO_QUEUE_AVAIL_HIGH : Z := 0x094.
Definition REG_MMIO_QUEUE_USED_LOW : Z := 0x0a0.
Definition REG_MMIO_QUEUE_USED_HIGH : Z := 0x0a4.
Definition REG_MMIO_SHM_SEL : Z := 0x0ac.
Definition REG_MMIO_SHM_LEN_LOW : Z := 0x0b0.
Definition REG_MMIO_SHM_LEN_HIGH : Z := 0x0b4.
Definition REG_MMIO_SHM_BASE_LOW : Z := 0x0b8.
Definition REG_MMIO_SHM_BASE_HIGH : Z := 0x0bc.
Definition REG_MMIO_MSI_CSR : Z := 0x0c0.
Definition REG_MMIO_MSI_COMMAND : Z := 0x0c2.
Definition REG_MMIO_MSI_ADDRESS_L : Z := 0x0c4.
Definition REG_MMIO_MSI_ADDRESS_H : Z := 0x0c8.
Definition REG_MMIO_MSI_DATA : Z := 0x0cc.
Definition REG_MMIO_CONFIG_GENERATI : Z := 0x0fc.
Definition MMIO_CFG_SPACE_OFF : Z := 0x100.

Definition MMIO_VENDOR_ID_DRAGONBALL : Z := 0xdbfcdb00.
Definition DRAGONBALL_FEATURE_MASK : Z := 0xff.
Definition DRAGONBALL_FEATURE_INTR_USED : Z := 0x1.
Definition DRAGONBALL_FEATURE_MSI_INTR : Z := 0x2.
Definition DRAGONBALL_FEATURE_PER_QUEUE_NOTIFY : Z := 0x4.
Definition DRAGONBALL_MMIO_DOORBELL_SIZE : Z := 0x1000.
Definition DRAGONBALL_MMIO_DOORBELL_OFFSET : Z := 0x1000.
Definition DRAGONBALL_MMIO_DOORBELL_SCALE : Z := 0x04.
Definition MMIO_MSI_CSR_SUPPORTED : Z := 0x8000.
Definition MMIO_MSI_CSR_ENABLED : Z := 0x8000.
Definition MMIO_MSI_CMD_CODE_MASK : Z := 0xf000.
Definition MMIO_MSI_CMD_ARG_MASK : Z := 0x0fff.
Definition MMIO_MSI_CMD_CODE_UPDATE : Z := 0x1000.
Definition MMIO_MSI_CMD_CODE_INT_MASK : Z := 0x2000.
Definition MMIO_MSI_CMD_CODE_INT_UNMASK : Z := 0x3000.

Definition DEVICE_INIT : Z := 0x0.
Definition DEVICE_ACKNOWLEDGE : Z := 0x01.
Definition DEVICE_DRIVER : Z := 0x02.
Definition DEVICE_DRIVER_OK : Z := 0x04.
Definition DEVICE_FEATURES_OK : Z := 0x08.
Definition DEVICE_FAILED : Z := 0x80.
Definition VIRTIO_INTR_VRING : Z := 0x01.
Definition VIRTIO_INTR_CONFIG : Z := 0x02.

Definition DEVICE_STATUS_INIT : Z := DEVICE_INIT.
Definition DEVICE_STATUS_ACKNOWLEDE : Z := Z.lor DEVICE_STATUS_INIT DEVICE_ACKNOWLEDGE.
Definition DEVICE_STATUS_DRIVER : Z := Z.lor DEVICE_STATUS_ACKNOWLEDE DEVICE_DRIVER.
Definition DEVICE_STATUS_FEATURE_OK : Z := Z.lor DEVICE_STATUS_DRIVER DEVICE_FEATURES_OK.
Definition DEVICE_STATUS_DRIVER_OK : Z := Z.lor DEVICE_STATUS_FEATURE_OK DEVICE_DRIVER_OK.

(** ** dragonball.rs *)

Record DoorBell := mkDoorBell { db_offset : Z; db_scale : Z }.

Definition queue_offset (d : DoorBell) (queue_index : Z) : Z := db_offset d + db_scale d * queue_index.
Definition register_data (d : DoorBell) : Z := Z.lor (db_offset d) (as_u32 (Z.shiftl (db_scale d) 16)).

Record Msi := mkMsi { index_select : Z; address_low : Z; address_high : Z; m_data : Z }.

Definition Msi_default : Msi := mkMsi 0 0 0 0.

(** ** The environment *)

(** The last argument of the ioevent calls; its size counts. *)
Inductive Datamatch : Type := NoDatamatch | DataU32 (x : Z) | DataU64 (x : Z).

Class MmioEnv (W : Type) := {
  register_ioevent : W -> Z -> Z -> Datamatch -> result unit Z * W;
  unregister_ioevent : W -> Z -> Z -> Datamatch -> result unit Z * W;
  ioeventfd_no_length : W -> bool;
  queue_eventfd_new : W -> result Z Z * W;
}.

Inductive MmioError : Type :=
| InvalidQueueConfig
| DeviceActivateError (e : Z)
| IOError (e : Z)
| VirtioQueueError (e : Z)
| InterruptError (e : Z)
| DeviceError (e : Z)
| InvalidInput.

(** ** MmioV2DeviceState *)

Record MmioState (Q D : Type) := mkMmioState {
  ms_device : D;
  ms_intr_mgr : DeviceInterruptManager;
  ms_resources : DeviceResources;
  ms_queues : list (VirtioQueueConfig Q);
  ms_mmio_base : Z;
  ms_has_ctrl_queue : bool;
  ms_device_activated : bool;
  ms_ioevent_registered : bool;
  ms_features_select : Z;
  ms_acked_features_select : Z;
  ms_queue_select : Z;
  ms_msi : option Msi;
  ms_doorbell : option DoorBell;
  ms_shm_region_id : Z;
  ms_shm_regions : option VirtioSharedMemoryList;
}.
Arguments mkMmioState {Q D}.
Arguments ms_device {Q D}.
Arguments ms_intr_mgr {Q D}.
Arguments ms_resources {Q D}.
Arguments ms_queues {Q D}.
Arguments ms_mmio_base {Q D}.
Arguments ms_has_ctrl_queue {Q D}.
Arguments ms_device_activated {Q D}.
Arguments ms_ioevent_registered {Q D}.
Arguments ms_features_select {Q D}.
Arguments ms_acked_features_select {Q D}.
Arguments ms_queue_select {Q D}.
Arguments ms_msi {Q D}.
Arguments ms_doorbell {Q D}.
Arguments ms_shm_region_id {Q D}.
Arguments ms_shm_regions {Q D}.

Definition set_ms_device {Q D} (s : MmioState Q D) (x : D) : MmioState Q D :=
  let '(mkMmioState _ b c e f g h i j k l m n o p) := s in mkMmioState x b c e f g h i j k l m n o p.
Definition set_ms_intr_mgr {Q D} (s : MmioState Q D) (x : DeviceInterruptManager) : MmioState Q D :=
  let '(mkMmioState a _ c e f g h i j k l m n o p) := s in mkMmioState a x c e f g h i j k l m n o p.
Definition set_ms_queues {Q D} (s : MmioState Q D) (x : list (VirtioQueueConfig Q)) : MmioState Q D :=
  let '(mkMmioState a b c _ f g h i j k l m n o p) := s in mkMmioState a b c x f g h i j k l m n o p.
Definition set_ms_device_activated {Q D} (s : MmioState Q D) (x : bool) : MmioState Q D :=
  let '(mkMmioState a b c e f g _ i j k l m n o p) := s in mkMmioState a b c e f g x i j k l m n o p.
Definition set_ms_ioevent_registered {Q D} (s : MmioState Q D) (x : bool) : MmioState Q D :=
  let '(mkMmioState a b c e f g h _ j k l m n o p) := s in mkMmioState a b c e f g h x j k l m n o p.
Definition set_ms_features_select {Q D} (s : MmioState Q D) (x : Z) : MmioState Q D :=
  let '(mkMmioState a b c e f g h i _ k l m n o p) := s in mkMmioState a b c e f g h i x k l m n o p.
Definition set_ms_acked_features_select {Q D} (s : MmioState Q D) (x : Z) : MmioState Q D :=
  let '(mkMmioState a b c e f g h i j _ l m n o p) := s in mkMmioState a b c e f g h i j x l m n o p.
Definition set_ms_queue_select {Q D} (s : MmioState Q D) (x : Z) : MmioState Q D :=
  let '(mkMmioState a b c e f g h i j k _ m n o p) := s in mkMmioState a b c e f g h i j k x m n o p.
Definition set_ms_msi {Q D} (s : MmioState Q D) (x : option Msi) : MmioState Q D :=
  let '(mkMmioState a b c e f g h i j k l _ n o p) := s in mkMmioState a b c e f g h i j k l x n o p.
Definition set_ms_doorbell {Q D} (s : MmioState Q D) (x : option DoorBell) : MmioState Q D :=
  let '(mkMmioState a b c e f g h i j k l m _ o p) := s in mkMmioState a b c e f g h i j k l m x o p.
Definition set_ms_shm_region_id {Q D} (s : MmioState Q D) (x : Z) : MmioState Q D :=
  let '(mkMmioState a b c e f g h i j k l m n _ p) := s in mkMmioState a b c e f g h i j k l m n x p.

Section Transport.
Context {W Q D : Type} `{MmioEnv W} `{InterruptManager W} `{Queue W Q} `{VirtioDevice W Q D}.
Notation S := (MmioState Q D).

(** [VirtioQueueConfig::create]. *)
Definition queue_config_create (w : W) (queue_size index : Z) : result (VirtioQueueConfig Q) MmioError * W :=
  match queue_eventfd_new w with
  | (Err e, w) => (Err (IOError e), w)
  | (Ok fd, w) =>
      match q_new (W := W) queue_size with
      | Err e => (Err (VirtioQueueError e), w)
      | Ok q => (Ok (mkVirtioQueueConfig q fd NoopNotifier index), w)
      end
  end.

Fixpoint create_each (w : W) (idx : Z) (sizes : list Z) : result (list (VirtioQueueConfig Q)) MmioError * W :=
  match sizes with
  | [] => (Ok [], w)
  | size :: sizes =>
      match queue_config_create w size (as_u16 idx) with
      | (Err e, w) => (Err e, w)
      | (Ok c, w) =>
          match create_each w (idx + 1) sizes with
          | (Err e, w) => (Err e, w)
          | (Ok cs, w) => (Ok (c :: cs), w)
          end
      end
  end.

Definition create_queues (w : W) (device : D) : result (list (VirtioQueueConfig Q) * bool) MmioError * W :=
  match create_each w 0 (queue_max_sizes device) with
  | (Err e, w) => (Err e, w)
  | (Ok queues, w) =>
      let has_ctrl_queue := ctrl_queue_max_sizes device >? 0 in
      if has_ctrl_queue then
        match queue_config_create w (ctrl_queue_max_sizes device) (as_u16 (Z.of_nat (length queues))) with
        | (Err e, w) => (Err e, w)
        | (Ok c, w) => (Ok (queues ++ [c], has_ctrl_queue), w)
        end
      else (Ok (queues, has_ctrl_queue), w)
  end.

(** [MmioV2DeviceState::new]. *)
Definition MmioState_new (w : W) (device : D) (resources : DeviceResources) (mmio_base : Z) (doorbell_enabled : bool) :
  outcome (result S MmioError * W) :=
  let! (r, w) := DeviceInterruptManager_new w resources in
  match r with
  | Err e => Ret (Err (IOError e), w)
  | Ok intr_mgr =>
      match create_queues w device with
      | (Err e, w) => Ret (Err e, w)
      | (Ok (queues, has_ctrl_queue), w) =>
          let! (r, device, w) := device_set_resource w device resources in
          match r with
          | Err e => Ret (Err (DeviceError e), w)
          | Ok shm_regions =>
              let doorbell :=
                if doorbell_enabled
                then Some (mkDoorBell (as_u32 DRAGONBALL_MMIO_DOORBELL_OFFSET) (as_u32 DRAGONBALL_MMIO_DOORBELL_SCALE))
                else None in
              Ret (Ok (mkMmioState device intr_mgr resources queues mmio_base has_ctrl_queue false false 0 0 0 None
                         doorbell 0 shm_regions), w)
          end
      end
  end.

(** *** Activation *)

Definition check_queues_valid (w : W) (s : S) : bool := forallb (fun c => q_is_valid w (vq_queue c)) (ms_queues s).

(** The loop of [revert_ioevent], with [idx] queues left. *)
Fixpoint revert_loop (w : W) (queues : list (VirtioQueueConfig Q)) (idx : nat) (io_addr : Z) (wildcard : bool) : outcome W :=
  match idx with
  | O => Ret w
  | Datatypes.S j =>
      let datamatch := if wildcard then DataU64 0 else DataU64 (Z.of_nat idx) in
      let! c := unwrap (queues !! j) in
      let '(_, w) := unregister_ioevent w (vq_eventfd c) io_addr datamatch in
      revert_loop w queues j io_addr wildcard
  end.

Definition revert_ioevent (w : W) (s : S) (num : nat) (io_addr : Z) (wildcard : bool) : outcome W :=
  if (num <? length (ms_queues s))%nat then revert_loop w (ms_queues s) num io_addr wildcard else Panic.

(** [unregister_ioevent_doorbell]. *)
Fixpoint unregister_doorbells (w : W) (base : Z) (doorbell : DoorBell) (i : Z) (queues : list (VirtioQueueConfig Q)) : outcome W :=
  match queues with
  | [] => Ret w
  | c :: queues =>
      let! io_addr := add_u u64_max base (queue_offset doorbell i) in
      let '(_, w) := unregister_ioevent w (vq_eventfd c) io_addr NoDatamatch in
      unregister_doorbells w base doorbell (i + 1) queues
  end.

Definition unregister_ioevent_doorbell (w : W) (s : S) : outcome W :=
  match ms_doorbell s with
  | Some doorbell => unregister_doorbells w (ms_mmio_base s) doorbell 0 (ms_queues s)
  | None => Ret w
  end.

(** The doorbell of the [i]-th queue. *)
Definition register_doorbell (w : W) (s : S) (i : nat) (c : VirtioQueueConfig Q) : outcome (result unit MmioError * W) :=
  match ms_doorbell s with
  | None => Ret (Ok tt, w)
  | Some doorbell =>
      let! io_addr := add_u u64_max (ms_mmio_base s) (queue_offset doorbell (Z.of_nat i)) in
      match register_ioevent w (vq_eventfd c) io_addr NoDatamatch with
      | (Err e, w) => let! w := revert_ioevent w s i io_addr true in Ret (Err (IOError e), w)
      | (Ok _, w) => Ret (Ok tt, w)
      end
  end.

(** Its notification register. *)
Definition register_notify (w : W) (s : S) (i : nat) (c : VirtioQueueConfig Q) : outcome (result unit MmioError * W) :=
  let! io_addr := add_u u64_max (ms_mmio_base s) MMIO_NOTIFY_REG_OFFSET in
  match register_ioevent w (vq_eventfd c) io_addr (DataU32 (as_u32 (Z.of_nat i))) with
  | (Err e, w) =>
      let! w := unregister_ioevent_doorbell w s in
      let! w := revert_ioevent w s i io_addr false in
      Ret (Err (IOError e), w)
  | (Ok _, w) => Ret (Ok tt, w)
  end.

Fixpoint register_each (w : W) (s : S) (i : nat) (queues : list (VirtioQueueConfig Q)) : outcome (result unit MmioError * W) :=
  match queues with
  | [] => Ret (Ok tt, w)
  | c :: queues =>
      let! (r, w) := register_doorbell w s i c in
      match r with
      | Err e => Ret (Err e, w)
      | Ok _ =>
          let! (r, w) := register_notify w s i c in
          match r with
          | Err e => Ret (Err e, w)
          | Ok _ => register_each w s (Datatypes.S i) queues
          end
      end
  end.

(** [register_ioevent] of the state. *)
Definition register_ioevents (w : W) (s : S) : outcome (result unit MmioError * S * W) :=
  let! (r, w) := register_each w s 0 (ms_queues s) in
  match r with
  | Err e => Ret (Err e, s, w)
  | Ok _ => Ret (Ok tt, set_ms_ioevent_registered s true, w)
  end.

(** notifier.rs. *)
Definition create_device_notifier (w : W) (group intr_index : Z) : Notifier :=
  match group_type w group with
  | LegacyIrqSource => LegacyNotifier group VIRTIO_INTR_CONFIG
  | MsiIrqSource => MsiNotifier group intr_index
  end.
Definition create_queue_notifier (w : W) (group intr_index : Z) : Notifier :=
  match group_type w group with
  | LegacyIrqSource => LegacyNotifier group VIRTIO_INTR_VRING
  | MsiIrqSource => MsiNotifier group intr_index
  end.

(** [self.intr_mgr.get_group().unwrap()]. *)
Definition intr_group (s : S) : outcome Z := let! g := get_group (ms_intr_mgr s) in unwrap g.

Definition create_queue_config (w : W) (s : S) : outcome (list (VirtioQueueConfig Q)) :=
  let! group := intr_group s in
  Ret (map (fun c => mkVirtioQueueConfig (vq_queue c) (vq_eventfd c)
                       (create_queue_notifier w group (vq_index c + 1)) (vq_index c)) (ms_queues s)).

Definition create_device_config (w : W) (s : S) : outcome (VirtioDeviceConfig Q) :=
  let! queues := create_queue_config w s in
  let '(queues, ctrl_queue) := if ms_has_ctrl_queue s then (removelast queues, last queues) else (queues, None) in
  let! group := intr_group s in
  Ret (mkVirtioDeviceConfig (ms_resources s) queues ctrl_queue (create_device_notifier w group 0) (ms_shm_regions s)).

(** [activate]. *)
Definition mmio_activate (w : W) (s : S) : outcome (result unit MmioError * S * W) :=
  if ms_device_activated s then Ret (Ok tt, s, w) else
  if negb (check_queues_valid w s) then Ret (Err InvalidQueueConfig, s, w) else
  let! (r, s, w) := register_ioevents w s in
  match r with
  | Err e => Ret (Err e, s, w)
  | Ok _ =>
      let! (r, intr, w) := DIM_enable w (ms_intr_mgr s) in
      let s := set_ms_intr_mgr s intr in
      match r with
      | Err e => Ret (Err (IOError e), s, w)
      | Ok _ =>
          let! config := create_device_config w s in
          let! (r, device, w) := device_activate w (ms_device s) config in
          let s := set_ms_device s device in
          match r with
          | Err e => Ret (Err (DeviceActivateError e), s, w)
          | Ok _ => Ret (Ok tt, set_ms_device_activated s true, w)
          end
      end
  end.

(** *** Reset *)

Definition deactivate (s : S) : S :=
  if ms_device_activated s then set_ms_device_activated s false else s.

(** New queues in place of the old ones, up to the first that fails. *)
Fixpoint reset_queues (queues : list (VirtioQueueConfig Q)) : option Z * list (VirtioQueueConfig Q) :=
  match queues with
  | [] => (None, [])
  | c :: queues =>
      match q_new (W := W) (q_max_size (W := W) (vq_queue c)) with
      | Err e => (Some e, c :: queues)
      | Ok q => let '(r, queues) := reset_queues queues in (r, set_vq_queue c q :: queues)
      end
  end.

Fixpoint unregister_each (w : W) (io_addr : Z) (i : Z) (queues : list (VirtioQueueConfig Q)) : W :=
  match queues with
  | [] => w
  | c :: queues =>
      let '(_, w) := unregister_ioevent w (vq_eventfd c) io_addr (DataU32 (as_u32 i)) in
      unregister_each w io_addr (i + 1) queues
  end.

(** [unregister_ioevent] of the state; the flag is cleared in the loop. *)
Definition unregister_ioevents (w : W) (s : S) : outcome (S * W) :=
  if ms_ioevent_registered s then
    let! io_addr := add_u u64_max (ms_mmio_base s) MMIO_NOTIFY_REG_OFFSET in
    let w := unregister_each w io_addr 0 (ms_queues s) in
    Ret (if (length (ms_queues s) =? 0)%nat then s else set_ms_ioevent_registered s false, w)
  else Ret (s, w).

(** [reset]. *)
Definition mmio_reset (w : W) (s : S) : outcome (result unit MmioError * S * W) :=
  if ms_device_activated s then Ret (Ok tt, s, w) else
  let '(r, queues) := reset_queues (ms_queues s) in
  let s := set_ms_queues s queues in
  match r with
  | Some e => Ret (Err (VirtioQueueError e), s, w)
  | None =>
      let! (_, intr, w) := DIM_reset w (ms_intr_mgr s) in
      let s := set_ms_intr_mgr s intr in
      let! (s, w) := unregister_ioevents w s in
      let s := set_ms_features_select s 0 in
      let s := set_ms_acked_features_select s 0 in
      let s := set_ms_queue_select s 0 in
      let s := set_ms_msi s None in
      let s := set_ms_doorbell s None in
      Ret (Ok tt, s, w)
  end.

(** *** Fields *)

Definition with_queue {U} (s : S) (d : U) (f : Q -> U) : U :=
  match ms_queues s !! Z.to_nat (ms_queue_select s) with Some c => f (vq_queue c) | None => d end.

Definition with_queue_mut (s : S) (f : Q -> Q) : S :=
  match ms_queues s !! Z.to_nat (ms_queue_select s) with
  | Some c => set_ms_queues s (<[Z.to_nat (ms_queue_select s) := set_vq_queue c (f (vq_queue c))]> (ms_queues s))
  | None => s
  end.

Definition get_shm_field (s : S) (d : Z) (f : Z * Z -> outcome Z) : outcome Z :=
  match ms_shm_regions s with
  | Some regions =>
      match shm_region_list regions !! Z.to_nat (ms_shm_region_id s) with Some region => f region | None => Ret d end
  | None => Ret d
  end.

Definition update_msi_field (s : S) (f : Msi -> Msi) : S :=
  match ms_msi s with Some m => set_ms_msi s (Some (f m)) | None => s end.
Definition set_msi_address_low (s : S) (v : Z) : S :=
  update_msi_field s (fun m => mkMsi (index_select m) v (address_high m) (m_data m)).
Definition set_msi_address_high (s : S) (v : Z) : S :=
  update_msi_field s (fun m => mkMsi (index_select m) (address_low m) v (m_data m)).
Definition set_msi_data_reg (s : S) (v : Z) : S :=
  update_msi_field s (fun m => mkMsi (index_select m) (address_low m) (address_high m) v).

(** *** MSI commands *)

(** A step of [update_msi_cfg] that sets one part of a message. *)
Definition set_message (s : S) (f : DeviceInterruptManager -> result unit Z * DeviceInterruptManager) :
  result unit MmioError * S :=
  match f (ms_intr_mgr s) with
  | (Err e, intr) => (Err (InterruptError e), set_ms_intr_mgr s intr)
  | (Ok _, intr) => (Ok tt, set_ms_intr_mgr s intr)
  end.

Definition update_msi_cfg (w : W) (s : S) (v : Z) : outcome (result unit MmioError * S * W) :=
  match ms_msi s with
  | None => Ret (Ok tt, s, w)
  | Some msi =>
      let msi := mkMsi v (address_low msi) (address_high msi) (m_data msi) in
      let s := set_ms_msi s (Some msi) in
      match set_message s (fun i => set_msi_low_address i (index_select msi) (address_low msi)) with
      | (Err e, s) => Ret (Err e, s, w)
      | (Ok _, s) =>
          match set_message s (fun i => set_msi_high_address i (index_select msi) (address_high msi)) with
          | (Err e, s) => Ret (Err e, s, w)
          | (Ok _, s) =>
              match set_message s (fun i => set_msi_data i (index_select msi) (m_data msi)) with
              | (Err e, s) => Ret (Err e, s, w)
              | (Ok _, s) =>
                  if is_enabled (ms_intr_mgr s) then
                    let! (r, w) := DIM_update w (ms_intr_mgr s) (index_select msi) in
                    Ret (match r with Err e => Err (InterruptError e) | Ok _ => Ok tt end, s, w)
                  else Ret (Ok tt, s, w)
              end
          end
      end
  end.

(** The body of the two branches of [mask_msi_int]. *)
Definition change_mask (w : W) (s : S) (call : result unit Z * W) (index : Z) (mask : bool) : result unit MmioError * S * W :=
  match call with
  | (Err e, w) => (Err (IOError e), s, w)
  | (Ok _, w) => let '(r, s) := set_message s (fun i => set_msi_mask i index mask) in (r, s, w)
  end.

Definition mask_msi_int (w : W) (s : S) (index : Z) (mask : bool) : outcome (result unit MmioError * S * W) :=
  if negb (is_enabled (ms_intr_mgr s)) then Ret (Ok tt, s, w) else
  let! group := get_group (ms_intr_mgr s) in
  match group with
  | None => Ret (Ok tt, s, w)
  | Some group =>
      match get_msi_mask (ms_intr_mgr s) index with
      | Err e => Ret (Err (InterruptError e), s, w)
      | Ok old_mask =>
          if negb old_mask && mask then Ret (change_mask w s (group_mask w group index) index true)
          else if old_mask && negb mask then Ret (change_mask w s (group_unmask w group index) index false)
          else Ret (Ok tt, s, w)
      end
  end.

(** ** MmioV2Device *)

Record MmioDevice := mkMmioDevice {
  md_state : S;
  md_assigned_resources : DeviceResources;
  md_mmio_cfg_res : Resource;
  md_device_vendor : Z;
  md_driver_status : Z;
  md_config_generation : Z;
  md_interrupt_status : Z;
}.

Definition set_md_state (d : MmioDevice) (x : S) : MmioDevice :=
  let '(mkMmioDevice _ b c e f g h) := d in mkMmioDevice x b c e f g h.
Definition set_md_driver_status (d : MmioDevice) (x : Z) : MmioDevice :=
  let '(mkMmioDevice a b c e _ g h) := d in mkMmioDevice a b c e x g h.
Definition set_md_interrupt_status (d : MmioDevice) (x : Z) : MmioDevice :=
  let '(mkMmioDevice a b c e f g _) := d in mkMmioDevice a b c e f g x.

(** The loop of [new]: the window of the registers, and the other resources. *)
Fixpoint split_resources (cfg : option (Resource * Z)) (rest : DeviceResources) (l : list Resource) :
  option (Resource * Z) * DeviceResources :=
  match l with
  | [] => (cfg, rest)
  | res :: l =>
      match res, cfg with
      | MmioAddressRange base size, None =>
          if size =? MMIO_DEFAULT_CFG_SIZE + DRAGONBALL_MMIO_DOORBELL_SIZE
          then split_resources (Some (res, base)) rest l
          else split_resources cfg (DeviceResources_append rest res) l
      | _, _ => split_resources cfg (DeviceResources_append rest res) l
      end
  end.

(** [MmioV2Device::new]. *)
Definition MmioDevice_new (w : W) (device : D) (resources : DeviceResources) (features : option Z) :
  outcome (result MmioDevice MmioError * W) :=
  match split_resources None DeviceResources_new (dr_vec resources) with
  | (None, _) => Ret (Err InvalidInput, w)
  | (Some (mmio_cfg_res, mmio_base), device_resources) =>
      let msi_feature := match get_generic_msi_irqs resources with Some _ => DRAGONBALL_FEATURE_MSI_INTR | None => 0 end in
      let '(doorbell_enabled, features) :=
        match features with
        | None => (false, None)
        | Some ft =>
            if negb (Z.land ft DRAGONBALL_FEATURE_PER_QUEUE_NOTIFY =? 0) && ioeventfd_no_length w then (true, Some ft)
            else (false, Some (Z.land ft (Z.lxor u32_max DRAGONBALL_FEATURE_PER_QUEUE_NOTIFY)))
        end in
      let! (r, w) := MmioState_new w device device_resources mmio_base doorbell_enabled in
      match r with
      | Err e => Ret (Err e, w)
      | Ok state =>
          let device_vendor := Z.lor MMIO_VENDOR_ID_DRAGONBALL msi_feature in
          let device_vendor :=
            match features with
            | Some ft => Z.lor device_vendor (Z.land ft DRAGONBALL_FEATURE_MASK)
            | None => device_vendor
            end in
          Ret (Ok (mkMmioDevice state resources mmio_cfg_res device_vendor DEVICE_INIT 0 0), w)
      end
  end.

Definition set_driver_failed (d : MmioDevice) : MmioDevice :=
  set_md_driver_status d (Z.lor (md_driver_status d) DEVICE_FAILED).

Definition check_driver_status (d : MmioDevice) (set clr : Z) : bool :=
  Z.land (md_driver_status d) (Z.lor set clr) =? set.

(** [compare_exchange]; the state is behind a lock, and no one else writes the status. *)
Definition exchange_driver_status (d : MmioDevice) (old new : Z) : bool * MmioDevice :=
  if md_driver_status d =? old then (true, set_md_driver_status d new) else (false, d).

(** The [DRIVER_OK] branch of [update_driver_status]. *)
Definition driver_ok (w : W) (d : MmioDevice) : outcome (bool * MmioDevice * W) :=
  let '(ok, d) := exchange_driver_status d DEVICE_STATUS_FEATURE_OK DEVICE_STATUS_DRIVER_OK in
  if ok : bool then
    let! (r, s, w) := mmio_activate w (md_state d) in
    match r with
    | Ok _ => Ret (true, set_md_state d s, w)
    | Err _ => let! (_, s, w) := mmio_reset w s in Ret (false, set_md_state d s, w)
    end
  else Ret (false, d, w).

(** Its reset branch. *)
Definition driver_reset (w : W) (d : MmioDevice) : outcome (bool * MmioDevice * W) :=
  if md_driver_status d =? DEVICE_INIT then Ret (true, d, w) else
  if ms_device_activated (md_state d) then
    let! (r, device, w) := device_reset w (ms_device (md_state d)) in
    let s := set_ms_device (md_state d) device in
    match r with
    | Err _ => Ret (false, set_md_state d s, w)
    | Ok _ =>
        let! (r, s, w) := mmio_reset w (deactivate s) in
        let d := set_md_state d s in
        match r with
        | Err _ => Ret (false, d, w)
        | Ok _ =>
            let '(ok, d) := exchange_driver_status d DEVICE_STATUS_DRIVER_OK DEVICE_STATUS_INIT in
            Ret (ok, d, w)
        end
    end
  else Ret (false, d, w).

Definition update_driver_status (w : W) (d : MmioDevice) (v : Z) : outcome (MmioDevice * W) :=
  let! (ok, d, w) :=
    if v =? DEVICE_STATUS_ACKNOWLEDE then
      let '(ok, d) := exchange_driver_status d DEVICE_STATUS_INIT DEVICE_STATUS_ACKNOWLEDE in Ret (ok, d, w)
    else if v =? DEVICE_STATUS_DRIVER then
      let '(ok, d) := exchange_driver_status d DEVICE_STATUS_ACKNOWLEDE DEVICE_STATUS_DRIVER in Ret (ok, d, w)
    else if v =? DEVICE_STATUS_FEATURE_OK then
      let '(ok, d) := exchange_driver_status d DEVICE_STATUS_DRIVER DEVICE_STATUS_FEATURE_OK in Ret (ok, d, w)
    else if v =? DEVICE_STATUS_DRIVER_OK then driver_ok w d
    else if v =? 0 then driver_reset w d
    else if v =? md_driver_status d then Ret (true, d, w)
    else if negb (Z.land v DEVICE_FAILED =? 0) then Ret (true, set_driver_failed d, w)
    else Ret (false, d, w) in
  Ret (if ok : bool then d else set_driver_failed d, w).

Definition update_queue_field (d : MmioDevice) (f : Q -> Q) : MmioDevice :=
  if check_driver_status d DEVICE_FEATURES_OK (Z.lor DEVICE_DRIVER_OK DEVICE_FAILED)
  then set_md_state d (with_queue_mut (md_state d) f) else d.

Definition tweak_intr_flags (d : MmioDevice) (flags : Z) : Z :=
  if negb (Z.land (md_device_vendor d) DRAGONBALL_FEATURE_INTR_USED =? 0) then Z.lor flags VIRTIO_INTR_VRING else flags.

Definition device_features (d : MmioDevice) : Z :=
  let features := get_avail_features (ms_device (md_state d)) (ms_features_select (md_state d)) in
  if ms_features_select (md_state d) =? 1 then Z.lor features 0x1 else features.

(** [MmioV2Device::set_acked_features]. *)
Definition ack_features (d : MmioDevice) (v : Z) : MmioDevice :=
  if check_driver_status d DEVICE_DRIVER (Z.lor DEVICE_FEATURES_OK DEVICE_FAILED)
  then set_md_state d (set_ms_device (md_state d)
         (set_acked_features (ms_device (md_state d)) (ms_acked_features_select (md_state d)) v))
  else d.

Definition get_device_config (d : MmioDevice) (offset : Z) (data : bytes) : bytes * MmioDevice :=
  if check_driver_status d DEVICE_DRIVER DEVICE_FAILED
  then let '(_, data, device) := read_config (ms_device (md_state d)) offset data in
       (data, set_md_state d (set_ms_device (md_state d) device))
  else (data, d).

Definition set_device_config (d : MmioDevice) (offset : Z) (data : bytes) : MmioDevice :=
  if check_driver_status d DEVICE_DRIVER DEVICE_FAILED
  then set_md_state d (set_ms_device (md_state d) (write_config (ms_device (md_state d)) offset data).2)
  else d.

Definition shm_guest_base (s : S) : Z :=
  match ms_shm_regions s with Some regions => shm_guest_addr regions | None => 0 end.
Definition get_shm_base_low (s : S) : outcome Z :=
  get_shm_field s 0xffffffff (fun r => let! a := add_u u64_max r.1 (shm_guest_base s) in Ret (as_u32 a)).
Definition get_shm_base_high (s : S) : outcome Z :=
  get_shm_field s 0xffffffff (fun r => let! a := add_u u64_max r.1 (shm_guest_base s) in Ret (as_u32 (Z.shiftr a 32))).

Definition update_msi_enable (d : MmioDevice) (v : Z) : outcome MmioDevice :=
  if negb (Z.land (md_driver_status d) DEVICE_DRIVER_OK =? 0) then
    Ret (if Z.land (md_driver_status d) DEVICE_FAILED =? 0 then set_driver_failed d else d)
  else
    let switch mode msi :=
      let! (r, intr) := set_working_mode (ms_intr_mgr (md_state d)) mode in
      match r with
      | Ok _ => Ret (set_md_state d (set_ms_msi (set_ms_intr_mgr (md_state d) intr) msi))
      | Err _ => Ret (set_driver_failed (set_md_state d (set_ms_intr_mgr (md_state d) intr)))
      end in
    match negb (Z.land v MMIO_MSI_CSR_ENABLED =? 0), ms_msi (md_state d) with
    | true, None => switch GenericMsiIrqMode (Some Msi_default)
    | false, Some _ => switch LegacyIrqMode None
    | _, _ => Ret d
    end.

Definition handle_msi_cmd (w : W) (d : MmioDevice) (v : Z) : outcome (MmioDevice * W) :=
  let arg := Z.land v MMIO_MSI_CMD_ARG_MASK in
  let code := Z.land v MMIO_MSI_CMD_CODE_MASK in
  if code =? MMIO_MSI_CMD_CODE_UPDATE then
    if arg >? as_u16 (Z.of_nat (length (queue_max_sizes (ms_device (md_state d))))) then Ret (d, w)
    else let! (_, s, w) := update_msi_cfg w (md_state d) arg in Ret (set_md_state d s, w)
  else if code =? MMIO_MSI_CMD_CODE_INT_MASK then
    let! (_, s, w) := mask_msi_int w (md_state d) arg true in Ret (set_md_state d s, w)
  else if code =? MMIO_MSI_CMD_CODE_INT_UNMASK then
    let! (_, s, w) := mask_msi_int w (md_state d) arg false in Ret (set_md_state d s, w)
  else Ret (set_driver_failed d, w).

(** ** Access by the guest *)

(** The 32-bit registers of [read]. *)
Definition read_register (d : MmioDevice) (offset : Z) : outcome (option Z) :=
  let s := md_state d in
  if offset =? REG_MMIO_MAGIC_VALUE then Ret (Some MMIO_MAGIC_VALUE)
  else if offset =? REG_MMIO_VERSION then Ret (Some MMIO_VERSION_2)
  else if offset =? REG_MMIO_DEVICE_ID then Ret (Some (device_type (ms_device s)))
  else if offset =? REG_MMIO_VENDOR_ID then Ret (Some (md_device_vendor d))
  else if offset =? REG_MMIO_DEVICE_FEATURE then Ret (Some (device_features d))
  else if offset =? REG_MMIO_QUEUE_NUM_MA then Ret (Some (with_queue s 0 (q_max_size (W := W))))
  else if offset =? REG_MMIO_QUEUE_READY then Ret (Some (with_queue s 0 (fun q => Z.b2z (q_ready (W := W) q))))
  else if (offset =? REG_MMIO_QUEUE_NOTIF) && bool_decide (is_Some (ms_doorbell s))
  then let! doorbell := unwrap (ms_doorbell s) in Ret (Some (register_data doorbell))
  else if offset =? REG_MMIO_INTERRUPT_STAT then Ret (Some (tweak_intr_flags d (md_interrupt_status d)))
  else if offset =? REG_MMIO_STATUS then Ret (Some (md_driver_status d))
  else if offset =? REG_MMIO_SHM_LEN_LOW then
    let! v := get_shm_field s 0xffffffff (fun r => Ret (as_u32 r.2)) in Ret (Some v)
  else if offset =? REG_MMIO_SHM_LEN_HIGH then
    let! v := get_shm_field s 0xffffffff (fun r => Ret (as_u32 (Z.shiftr r.2 32))) in Ret (Some v)
  else if offset =? REG_MMIO_SHM_BASE_LOW then let! v := get_shm_base_low s in Ret (Some v)
  else if offset =? REG_MMIO_SHM_BASE_HIGH then let! v := get_shm_base_high s in Ret (Some v)
  else if offset =? REG_MMIO_CONFIG_GENERATI then Ret (Some (md_config_generation d))
  else Ret None.

Definition transport_read (d : MmioDevice) (offset : Z) (data : bytes) : outcome (bytes * MmioDevice) :=
  if offset >=? MMIO_CFG_SPACE_OFF then Ret (get_device_config d (offset - MMIO_CFG_SPACE_OFF) data)
  else if zlen data =? 4 then
    let! v := read_register d offset in
    Ret (match v with Some v => le_bytes 4 v | None => data end, d)
  else if zlen data =? 2 then
    Ret (if offset =? REG_MMIO_MSI_CSR then
           le_bytes 2 (if negb (Z.land (md_device_vendor d) DRAGONBALL_FEATURE_MSI_INTR =? 0)
                       then MMIO_MSI_CSR_SUPPORTED else 0)
         else data, d)
  else Ret (data, d).

(** The 32-bit registers of [write]. *)
Definition write_register (w : W) (d : MmioDevice) (offset v : Z) : outcome (MmioDevice * W) :=
  let s := md_state d in
  let state s := Ret (set_md_state d s, w) in
  let queue f := Ret (update_queue_field d f, w) in
  if offset =? REG_MMIO_DEVICE_FEATURES_S then state (set_ms_features_select s v)
  else if offset =? REG_MMIO_DRIVER_FEATURE then Ret (ack_features d v, w)
  else if offset =? REG_MMIO_DRIVER_FEATURES_S then state (set_ms_acked_features_select s v)
  else if offset =? REG_MMIO_QUEUE_SEL then state (set_ms_queue_select s v)
  else if offset =? REG_MMIO_QUEUE_NUM then queue (fun q => q_set_size (W := W) q (as_u16 v))
  else if offset =? REG_MMIO_QUEUE_READY then queue (fun q => q_set_ready (W := W) q (v =? 1))
  else if offset =? REG_MMIO_INTERRUPT_AC then
    Ret (set_md_interrupt_status d (status_clear_bits (md_interrupt_status d) v), w)
  else if offset =? REG_MMIO_STATUS then update_driver_status w d v
  else if offset =? REG_MMIO_QUEUE_DESC_LOW then queue (fun q => q_set_desc_table_address (W := W) q (Some v) None)
  else if offset =? REG_MMIO_QUEUE_DESC_HIGH then queue (fun q => q_set_desc_table_address (W := W) q None (Some v))
  else if offset =? REG_MMIO_QUEUE_AVAIL_LOW then queue (fun q => q_set_avail_ring_address (W := W) q (Some v) None)
  else if offset =? REG_MMIO_QUEUE_AVAIL_HIGH then queue (fun q => q_set_avail_ring_address (W := W) q None (Some v))
  else if offset =? REG_MMIO_QUEUE_USED_LOW then queue (fun q => q_set_used_ring_address (W := W) q (Some v) None)
  else if offset =? REG_MMIO_QUEUE_USED_HIGH then queue (fun q => q_set_used_ring_address (W := W) q None (Some v))
  else if offset =? REG_MMIO_SHM_SEL then state (set_ms_shm_region_id s v)
  else if offset =? REG_MMIO_MSI_ADDRESS_L then state (set_msi_address_low s v)
  else if offset =? REG_MMIO_MSI_ADDRESS_H then state (set_msi_address_high s v)
  else if offset =? REG_MMIO_MSI_DATA then state (set_msi_data_reg s v)
  else Ret (d, w).

Definition transport_write (w : W) (d : MmioDevice) (offset : Z) (data : bytes) : outcome (MmioDevice * W) :=
  if (MMIO_CFG_SPACE_OFF <=? offset) && (offset <? DRAGONBALL_MMIO_DOORBELL_OFFSET)
  then Ret (set_device_config d (offset - MMIO_CFG_SPACE_OFF) data, w)
  else if zlen data =? 4 then write_register w d offset (of_le_bytes data)
  else if zlen data =? 2 then
    let v := of_le_bytes data in
    if offset =? REG_MMIO_MSI_CSR then let! d := update_msi_enable d v in Ret (d, w)
    else if offset =? REG_MMIO_MSI_COMMAND then handle_msi_cmd w d v
    else Ret (d, w)
  else Ret (d, w).

(** [LegacyNotifier::notify] sets bits of the status the transport shares with it. *)
Definition raise_interrupt_status (d : MmioDevice) (bits : Z) : MmioDevice :=
  set_md_interrupt_status d (status_set_bits (md_interrupt_status d) bits).

Definition get_trapped_io_resources (d : MmioDevice) : DeviceResources :=
  DeviceResources_append DeviceResources_new (md_mmio_cfg_res d).
End Transport.
