(* ===== verification/MmioSpec.v ===== *)
(** Invariants of the MMIO transport: the driver status, and what it says of the
    device, its interrupts and its events.

    The events of queue notifications: which ioevents activation registers, which
    reset takes back, and which are left behind. *)

From S2P Require Import Prelude Resources Interrupt InterruptSpec VsockStream VsockPacket VirtioDevice Mmio.

(** ** What the environment promises *)

#[global] Instance Datamatch_eq_dec : EqDecision Datamatch.
Proof. solve_decision. Defined.
#[global] Instance Datamatch_countable : Countable Datamatch.
Proof.
  apply (inj_countable' (fun d => match d with NoDatamatch => None | DataU32 x => Some (true, x) | DataU64 x => Some (false, x) end)
    (fun c => match c with None => NoDatamatch | Some (true, x) => DataU32 x | Some (false, x) => DataU64 x end)).
  by intros [].
Defined.

(** The ioevents of the machine: eventfd, address and datamatch.  An ioevent is
    unregistered with the arguments it was registered with, and only with them;
    interrupts do not touch them. *)
Class MmioLaws (W : Type) `{MmioEnv W} `{InterruptManagerLaws W} := {
  ioevents : W -> gset (Z * Z * Datamatch);
  register_ioevent_law w fd addr m r w' : register_ioevent w fd addr m = (r, w') ->
    groups_kept w w' /\ ioevents w' = match r with Ok _ => {[ (fd, addr, m) ]} ∪ ioevents w | Err _ => ioevents w end;
  unregister_ioevent_law w fd addr m r w' : unregister_ioevent w fd addr m = (r, w') ->
    groups_kept w w' /\ ioevents w' = match r with Ok _ => ioevents w ∖ {[ (fd, addr, m) ]} | Err _ => ioevents w end;
  unregister_present w fd addr m : (fd, addr, m) ∈ ioevents w -> exists w', unregister_ioevent w fd addr m = (Ok tt, w');
  enable_events w g cs : ioevents (group_enable w g cs).2 = ioevents w;
  disable_events w g : ioevents (group_disable w g).2 = ioevents w;
  queue_eventfd_law w r w' : queue_eventfd_new w = (r, w') -> groups_kept w w' /\ ioevents w' = ioevents w;
}.

(** A device leaves the interrupt groups and the ioevents of the machine alone. *)
Class VirtioDeviceLaws (W Q D : Type) `{VirtioDevice W Q D} `{MmioLaws W} := {
  activate_groups w d c r d' w' : device_activate w d c = Ret (r, d', w') -> groups_kept w w';
  activate_events w d c r d' w' : device_activate w d c = Ret (r, d', w') -> ioevents w ⊆ ioevents w';
  reset_groups w d r d' w' : device_reset w d = Ret (r, d', w') -> groups_kept w w';
  reset_events w d r d' w' : device_reset w d = Ret (r, d', w') -> ioevents w ⊆ ioevents w';
  set_resource_groups w d res r d' w' : device_set_resource w d res = Ret (r, d', w') -> groups_kept w w';
}.

(** ** The driver status *)

Definition status_stages : list Z :=
  [DEVICE_STATUS_INIT; DEVICE_STATUS_ACKNOWLEDE; DEVICE_STATUS_DRIVER; DEVICE_STATUS_FEATURE_OK; DEVICE_STATUS_DRIVER_OK].

Definition has_bit (st bit : Z) : bool := negb (Z.land st bit =? 0).

(** A stage of the initialization, or one with FAILED. *)
Definition status_ok (st : Z) : Prop := exists x, x ∈ status_stages /\ (st = x \/ st = Z.lor x DEVICE_FAILED).

(** The steps of the status: forward by one stage, to FAILED, and back from
    DRIVER_OK to the beginning. *)
Inductive status_step : Z -> Z -> Prop :=
| st_same st : status_step st st
| st_acknowledge : status_step DEVICE_STATUS_INIT DEVICE_STATUS_ACKNOWLEDE
| st_driver : status_step DEVICE_STATUS_ACKNOWLEDE DEVICE_STATUS_DRIVER
| st_features : status_step DEVICE_STATUS_DRIVER DEVICE_STATUS_FEATURE_OK
| st_driver_ok : status_step DEVICE_STATUS_FEATURE_OK DEVICE_STATUS_DRIVER_OK
| st_refused : status_step DEVICE_STATUS_FEATURE_OK (Z.lor DEVICE_STATUS_DRIVER_OK DEVICE_FAILED)
| st_reset : status_step DEVICE_STATUS_DRIVER_OK DEVICE_STATUS_INIT
| st_failed st : status_step st (Z.lor st DEVICE_FAILED).

Ltac status_cases H :=
  let x := fresh "x" in let Hx := fresh "Hx" in
  destruct H as (x & Hx & H); unfold status_stages in Hx; rewrite !elem_of_cons, elem_of_nil in Hx;
  destruct Hx as [->|[->|[->|[->|[->|[]]]]]]; destruct H as [H|H].

Lemma status_step_ok st st' : status_ok st -> status_step st st' -> status_ok st'.
Proof.
  intros Hok Hs. unfold status_ok, status_stages. destruct Hs; try done;
    try (eexists; split; [|by left]; rewrite !elem_of_cons; tauto).
  - exists DEVICE_STATUS_DRIVER_OK. split; [rewrite !elem_of_cons; tauto|by right].
  - destruct Hok as (x & Hx & [->| ->]); (exists x; split; [done|right]); [done|].
    rewrite <- Z.lor_assoc. done.
Qed.

(** FAILED is for ever. *)
Lemma status_step_failed st st' : status_ok st -> has_bit st DEVICE_FAILED = true -> status_step st st' -> st' = st.
Proof. intros Hok Hf Hs. status_cases Hok; subst st; try done; inversion Hs; subst; done. Qed.

Section Invariant.
Context {W Q D : Type} `{MmioLaws W} `{Queue W Q} `{VirtioDevice W Q D} `{!VirtioDeviceLaws W Q D}.
Notation S := (MmioState Q D).
Notation M := (MmioDevice (Q := Q) (D := D)).

Lemma groups_kept_refl (w : W) : groups_kept w w.
Proof. by intros g. Qed.

Lemma groups_kept_trans (w1 w2 w3 : W) : groups_kept w1 w2 -> groups_kept w2 w3 -> groups_kept w1 w3.
Proof. intros Ha Hb g Hg. destruct (Ha g Hg) as [Hg2 E2]. destruct (Hb g Hg2) as [? E3]. split; [done|congruence]. Qed.

(** ** Events *)

Lemma revert_loop_groups (w : W) (queues : list (VirtioQueueConfig Q)) idx io_addr wild w' :
  revert_loop w queues idx io_addr wild = Ret w' -> groups_kept w w'.
Proof.
  revert w. induction idx as [|j IH]; intros w Hr; cbn [revert_loop] in Hr; [injection Hr as <-; apply groups_kept_refl|].
  bind_inv Hr. destruct (unregister_ioevent w _ _ _) as [r w1] eqn:Hu.
  destruct (unregister_ioevent_law _ _ _ _ _ _ Hu) as [Hk _]. eapply groups_kept_trans; [exact Hk|]. by apply IH.
Qed.

Lemma revert_groups (w : W) (s : S) num io_addr wild w' : revert_ioevent w s num io_addr wild = Ret w' -> groups_kept w w'.
Proof. unfold revert_ioevent. intros Hr. case_hyp Hr; [by eapply revert_loop_groups|done]. Qed.

Lemma unregister_doorbells_groups (w : W) base db i (queues : list (VirtioQueueConfig Q)) w' :
  unregister_doorbells w base db i queues = Ret w' -> groups_kept w w'.
Proof.
  revert w i. induction queues as [|c queues IH]; intros w i Hr; cbn [unregister_doorbells] in Hr; [injection Hr as <-; apply groups_kept_refl|].
  bind_inv Hr. destruct (unregister_ioevent w _ _ _) as [r w1] eqn:Hu.
  destruct (unregister_ioevent_law _ _ _ _ _ _ Hu) as [Hk _]. eapply groups_kept_trans; [exact Hk|]. by eapply IH.
Qed.

Lemma register_doorbell_groups (w : W) (s : S) i c r w' : register_doorbell w s i c = Ret (r, w') -> groups_kept w w'.
Proof.
  unfold register_doorbell. destruct (ms_doorbell s) as [db|]; intros Hr; [|injection Hr as <- <-; apply groups_kept_refl].
  bind_inv Hr. destruct (register_ioevent w _ _ _) as [[[]|e] w1] eqn:Hu; destruct (register_ioevent_law _ _ _ _ _ _ Hu) as [Hk _].
  - by injection Hr as <- <-.
  - bind_inv Hr. injection Hr as <- <-. eapply groups_kept_trans; [exact Hk|]. by eapply revert_groups.
Qed.

Lemma register_notify_groups (w : W) (s : S) i c r w' : register_notify w s i c = Ret (r, w') -> groups_kept w w'.
Proof.
  unfold register_notify. intros Hr. bind_inv Hr.
  destruct (register_ioevent w _ _ _) as [[[]|e] w1] eqn:Hu; destruct (register_ioevent_law _ _ _ _ _ _ Hu) as [Hk _].
  - by injection Hr as <- <-.
  - bind_inv Hr. bind_inv Hr. injection Hr as <- <-. eapply groups_kept_trans; [exact Hk|].
    eapply groups_kept_trans; [|by eapply revert_groups]. unfold unregister_ioevent_doorbell in *.
    destruct (ms_doorbell s); [by eapply unregister_doorbells_groups|]. injection Ha0 as <-. apply groups_kept_refl.
Qed.

Lemma register_each_groups (w : W) (s : S) i queues r w' : register_each w s i queues = Ret (r, w') -> groups_kept w w'.
Proof.
  revert w i. induction queues as [|c queues IH]; intros w i Hr; cbn [register_each] in Hr; [injection Hr as <- <-; apply groups_kept_refl|].
  bind_inv Hr. destruct a as [r1 w1]. apply register_doorbell_groups in Ha. destruct r1; [|by injection Hr as <- <-].
  bind_inv Hr. destruct a0 as [r2 w2]. apply register_notify_groups in Ha0.
  assert (Hk : groups_kept w w2) by (by eapply groups_kept_trans).
  destruct r2; [|by injection Hr as <- <-]. eapply groups_kept_trans; [exact Hk|]. by eapply IH.
Qed.

Lemma unregister_each_groups (w : W) io_addr i (queues : list (VirtioQueueConfig Q)) : groups_kept w (unregister_each w io_addr i queues).
Proof.
  revert w i. induction queues as [|c queues IH]; intros w i; cbn [unregister_each]; [apply groups_kept_refl|].
  destruct (unregister_ioevent w _ _ _) as [r w1] eqn:Hu. destruct (unregister_ioevent_law _ _ _ _ _ _ Hu) as [Hk _].
  eapply groups_kept_trans; [exact Hk|]. apply IH.
Qed.

(** ** Activation and reset *)

(** What no operation changes: the queues there are, with their events, and the
    resources; the doorbell is at most given up. *)
Definition shape (s s' : S) : Prop :=
  ms_mmio_base s' = ms_mmio_base s /\ ms_resources s' = ms_resources s /\ ms_has_ctrl_queue s' = ms_has_ctrl_queue s /\
  ms_shm_regions s' = ms_shm_regions s /\ map vq_eventfd (ms_queues s') = map vq_eventfd (ms_queues s) /\
  map vq_index (ms_queues s') = map vq_index (ms_queues s) /\ (ms_doorbell s' = ms_doorbell s \/ ms_doorbell s' = None).

Lemma shape_refl s : shape s s.
Proof. unfold shape. tauto. Qed.

Lemma shape_trans s1 s2 s3 : shape s1 s2 -> shape s2 s3 -> shape s1 s3.
Proof. unfold shape. intros (? & ? & ? & ? & ? & ? & [?|?]) (? & ? & ? & ? & ? & ? & [?|?]); split_and!; try congruence; intuition congruence. Qed.

Lemma mmio_activate_ok (w : W) (s : S) r s' w' :
  dim_ok w (ms_intr_mgr s) -> ms_device_activated s = false -> im_activated (ms_intr_mgr s) = false ->
  mmio_activate w s = Ret (r, s', w') ->
  dim_ok w' (ms_intr_mgr s') /\ shape s s' /\
  match r with
  | Ok _ => ms_device_activated s' = true /\ im_activated (ms_intr_mgr s') = true /\ ms_ioevent_registered s' = true
  | Err _ => ms_device_activated s' = false
  end.
Proof.
  intros Hd Hna Hni. unfold mmio_activate. rewrite Hna. intros Ha. case_hyp Ha; [injection Ha as <- <- <-; (split; [done|split; [unfold shape; cbn; tauto|done]])|].
  bind_inv Ha. destruct a as [[r1 s1] w1]. unfold register_ioevents in *. bind_inv Ha0. destruct a as [r0 w0].
  apply register_each_groups in Ha1. pose proof (dim_ok_kept _ _ _ Ha1 Hd) as Hd0.
  destruct r0 as [[]|e]; injection Ha0 as <- <- <-; [|injection Ha as <- <- <-; (split; [done|split; [unfold shape; cbn; tauto|done]])].
  assert (Hfs : ms_intr_mgr (set_ms_ioevent_registered s true) = ms_intr_mgr s) by (by destruct s). rewrite Hfs in Ha.
  bind_inv Ha. destruct a as [[r2 intr] w2]. rewrite DIM_enable_ok in Ha0 by done.
  pose proof (enabled_keeps _ _ _ _ _ Hd0 Hni Ha0) as Hd2. pose proof (enabled_active _ _ _ _ _ Hni Ha0) as Hac.
  destruct r2 as [[]|e]; [|destruct s; injection Ha as <- <- <-; (split; [done|split; [unfold shape; cbn; tauto|done]])].
  bind_inv Ha. bind_inv Ha. destruct a0 as [[r3 device] w3]. apply activate_groups in Ha3. pose proof (dim_ok_kept _ _ _ Ha3 Hd2) as Hd3.
  destruct s. destruct r3 as [[]|e]; injection Ha as <- <- <-; (split; [done|split; [unfold shape; cbn; tauto|done]]).
Qed.

Lemma reset_queues_shape (queues queues' : list (VirtioQueueConfig Q)) r :
  reset_queues (W := W) queues = (r, queues') -> map vq_index queues' = map vq_index queues /\ map vq_eventfd queues' = map vq_eventfd queues.
Proof.
  revert r queues'. induction queues as [|c queues IH]; intros r queues' Hr; cbn [reset_queues] in Hr; [by injection Hr as <- <-|].
  destruct (q_new _) as [q|e]; [|by injection Hr as <- <-]. destruct (reset_queues queues) as [r1 q1]. injection Hr as <- <-.
  destruct (IH _ _ eq_refl) as [Hl He]. cbn. rewrite Hl, He. by destruct c.
Qed.

Lemma unregister_ioevents_ok (w : W) (s s' : S) w' :
  unregister_ioevents w s = Ret (s', w') ->
  ms_intr_mgr s' = ms_intr_mgr s /\ ms_device_activated s' = ms_device_activated s /\ ms_queues s' = ms_queues s /\
  groups_kept w w' /\ shape s s'.
Proof.
  unfold unregister_ioevents. intros Hu. case_hyp Hu.
  2:{ injection Hu as <- <-. do 3 (split; [done|]). split; [apply groups_kept_refl|apply shape_refl]. }
  bind_inv Hu. injection Hu as <- <-. destruct s. split; [by case_match|]. split; [by case_match|]. split; [by case_match|].
  split; [apply unregister_each_groups|]. unfold shape. case_match; cbn; tauto.
Qed.

Lemma mmio_reset_ok (w : W) (s : S) r s' w' :
  dim_ok w (ms_intr_mgr s) -> ms_device_activated s = false -> mmio_reset w s = Ret (r, s', w') ->
  dim_ok w' (ms_intr_mgr s') /\ shape s s' /\ ms_device_activated s' = false /\
  match r with Ok _ => im_activated (ms_intr_mgr s') = false | Err _ => True end.
Proof.
  intros Hd Hna. unfold mmio_reset. rewrite Hna. destruct (reset_queues (ms_queues s)) as [r1 q1] eqn:Hq.
  assert (Hf : ms_intr_mgr (set_ms_queues s q1) = ms_intr_mgr s /\ ms_device_activated (set_ms_queues s q1) = ms_device_activated s /\
    shape s (set_ms_queues s q1)).
  { destruct (reset_queues_shape _ _ _ Hq). destruct s. unfold shape. cbn in *. tauto. }
  cbv zeta. generalize dependent (set_ms_queues s q1). intros s1 (E1 & E2 & Hsh). rewrite <- E1 in Hd. rewrite Hna in E2. clear E1 Hna Hq q1.
  destruct r1 as [e|]; [by intros [= <- <- <-]|]. intros Ha. bind_inv Ha. destruct a as [[r2 intr] w2].
  rewrite DIM_reset_ok in Ha0 by done. pose proof (reset_keeps _ _ _ _ _ Hd Ha0) as Hd2. pose proof (reset_inactive _ _ _ _ _ Hd Ha0) as Hi.
  assert (Hf : ms_intr_mgr (set_ms_intr_mgr s1 intr) = intr /\ ms_device_activated (set_ms_intr_mgr s1 intr) = false /\
    shape s1 (set_ms_intr_mgr s1 intr)) by (destruct s1; unfold shape; cbn in *; tauto).
  generalize dependent (set_ms_intr_mgr s1 intr). intros s2 Ha (<- & Hn2 & Hsh2).
  bind_inv Ha. destruct a as [s3 w3]. destruct (unregister_ioevents_ok _ _ _ _ Ha1) as (E3 & Hn & _ & Hk & Hsh3). rewrite Hn2 in Hn.
  pose proof (shape_trans _ _ _ Hsh (shape_trans _ _ _ Hsh2 Hsh3)) as Hshape.
  destruct s3. injection Ha as <- <- <-. cbn in E3, Hn. rewrite <- E3 in *. split; [by eapply dim_ok_kept|]. split; [|by split].
  unfold shape in *. cbn in *. tauto.
Qed.

(** ** The invariant *)

Record mmio_ok (w : W) (d : M) : Prop := {
  mo_dim : dim_ok w (ms_intr_mgr (md_state d));
  mo_status : status_ok (md_driver_status d);
  mo_active : ms_device_activated (md_state d) = true ->
    has_bit (md_driver_status d) DEVICE_DRIVER_OK = true /\ im_activated (ms_intr_mgr (md_state d)) = true /\
    ms_ioevent_registered (md_state d) = true;
  mo_idle : has_bit (md_driver_status d) DEVICE_DRIVER_OK = false -> im_activated (ms_intr_mgr (md_state d)) = false;
  mo_running : md_driver_status d = DEVICE_STATUS_DRIVER_OK -> ms_device_activated (md_state d) = true;
}.

Lemma mmio_ok_kept w w' d : groups_kept w w' -> mmio_ok w d -> mmio_ok w' d.
Proof. intros Hk []. constructor; try done. by eapply dim_ok_kept. Qed.

(** The parts of the state the invariant is about. *)
Definition same_core (s s' : S) : Prop :=
  ms_intr_mgr s' = ms_intr_mgr s /\ ms_device_activated s' = ms_device_activated s /\
  ms_ioevent_registered s' = ms_ioevent_registered s /\ shape s s'.

Lemma set_md_state_fields (d : M) s : md_state (set_md_state d s) = s /\ md_driver_status (set_md_state d s) = md_driver_status d.
Proof. by destruct d. Qed.

Lemma set_status_fields (d : M) st :
  md_state (set_md_driver_status d st) = md_state d /\ md_driver_status (set_md_driver_status d st) = st.
Proof. by destruct d. Qed.

Lemma mmio_ok_frame w (d : M) s : same_core (md_state d) s -> mmio_ok w d -> mmio_ok w (set_md_state d s).
Proof.
  intros (E1 & E2 & E3 & _) []. destruct (set_md_state_fields d s) as [Es Et]. constructor; rewrite ?Es, ?Et, ?E1, ?E2, ?E3; done.
Qed.

(** A change of the interrupt manager that keeps its stage. *)
Lemma mmio_ok_intr w w' (d : M) s :
  dim_ok w' (ms_intr_mgr s) -> im_activated (ms_intr_mgr s) = im_activated (ms_intr_mgr (md_state d)) ->
  ms_device_activated s = ms_device_activated (md_state d) -> ms_ioevent_registered s = ms_ioevent_registered (md_state d) ->
  mmio_ok w d -> mmio_ok w' (set_md_state d s).
Proof.
  intros Hd E1 E2 E3 []. destruct (set_md_state_fields d s) as [Es Et]. constructor; rewrite ?Es, ?Et, ?E1, ?E2, ?E3; done.
Qed.

Lemma mmio_ok_failed w (d : M) : mmio_ok w d -> mmio_ok w (set_driver_failed d).
Proof.
  intros [Hd Hs Ha Hi Hr]. unfold set_driver_failed. destruct (set_status_fields d (Z.lor (md_driver_status d) DEVICE_FAILED)) as [Es Et].
  constructor; rewrite ?Es, ?Et; try done.
  - eapply status_step_ok; [done|constructor].
  - intros Hact. destruct (Ha Hact) as (Hb & ? & ?). split; [|done]. status_cases Hs; rewrite Hs in *; done.
  - intros Hb. apply Hi. status_cases Hs; rewrite Hs in *; done.
  - intros E. status_cases Hs; rewrite Hs in E; done.
Qed.

(** A device at a stage before DRIVER_OK. *)
Lemma mmio_ok_stage w (d : M) st :
  mmio_ok w d -> has_bit (md_driver_status d) DEVICE_DRIVER_OK = false -> st ∈ status_stages ->
  st <> DEVICE_STATUS_DRIVER_OK -> mmio_ok w (set_md_driver_status d st).
Proof.
  intros [Hd Hs Ha Hi Hr] Hb Hst Hne. destruct (set_status_fields d st) as [Es Et]. constructor; rewrite ?Es, ?Et; try done.
  - by exists st; auto.
  - intros Hact. destruct (Ha Hact) as (? & _). congruence.
  - intros _. by apply Hi.
Qed.

(** A step of the transport. *)
Definition mmio_step (w : W) (d : M) (w' : W) (d' : M) : Prop :=
  mmio_ok w' d' /\ status_step (md_driver_status d) (md_driver_status d') /\ shape (md_state d) (md_state d').

Lemma failed_fields (d : M) :
  md_state (set_driver_failed d) = md_state d /\ md_driver_status (set_driver_failed d) = Z.lor (md_driver_status d) DEVICE_FAILED.
Proof. unfold set_driver_failed. apply set_status_fields. Qed.

Lemma step_failed w (d : M) : mmio_ok w d -> mmio_step w d w (set_driver_failed d).
Proof. split; [by apply mmio_ok_failed|]. destruct (failed_fields d) as [-> ->]. split; [constructor|apply shape_refl]. Qed.

Definition settle (ok : bool) (d : M) : M := if ok then d else set_driver_failed d.

Lemma exchange_ok w (d : M) old new :
  mmio_ok w d -> has_bit old DEVICE_DRIVER_OK = false -> new ∈ status_stages -> new <> DEVICE_STATUS_DRIVER_OK ->
  status_step old new ->
  mmio_step w d w (settle (exchange_driver_status d old new).1 (exchange_driver_status d old new).2).
Proof.
  intros Hok Hb Hn Hne Hst. unfold exchange_driver_status. destruct (Z.eqb_spec (md_driver_status d) old) as [E|Hx]; cbn [fst snd settle].
  - split; [apply mmio_ok_stage; by try rewrite E|]. destruct (set_status_fields d new) as [-> ->]. rewrite E. split; [done|apply shape_refl].
  - by apply step_failed.
Qed.

(** The invariant from the parts, for a status at DRIVER_OK or beyond. *)
Lemma mmio_ok_at w (d : M) st :
  dim_ok w (ms_intr_mgr (md_state d)) -> md_driver_status d = st ->
  st = DEVICE_STATUS_DRIVER_OK /\ ms_device_activated (md_state d) = true /\ im_activated (ms_intr_mgr (md_state d)) = true /\
    ms_ioevent_registered (md_state d) = true \/
  st = Z.lor DEVICE_STATUS_DRIVER_OK DEVICE_FAILED /\ ms_device_activated (md_state d) = false \/
  st = DEVICE_STATUS_INIT /\ ms_device_activated (md_state d) = false /\ im_activated (ms_intr_mgr (md_state d)) = false ->
  mmio_ok w d.
Proof.
  intros Hd E Hst.
  assert (Hin : forall x, x ∈ status_stages -> status_ok x) by (intros x Hx; exists x; auto).
  constructor; try done; rewrite E; destruct Hst as [(-> & ? & ? & ?)|[[-> ?]|(-> & ? & ?)]]; try done; try congruence.
  - apply Hin. unfold status_stages. rewrite !elem_of_cons. tauto.
  - exists DEVICE_STATUS_DRIVER_OK. split; [unfold status_stages; rewrite !elem_of_cons; tauto|by right].
  - apply Hin. unfold status_stages. rewrite !elem_of_cons. tauto.
Qed.

Lemma not_active w (d : M) : mmio_ok w d -> has_bit (md_driver_status d) DEVICE_DRIVER_OK = false -> ms_device_activated (md_state d) = false.
Proof. intros [? ? Ha ? ?] Hb. destruct (ms_device_activated (md_state d)); [|done]. destruct (Ha eq_refl) as [? _]. congruence. Qed.

Lemma driver_ok_ok w (d : M) ok d1 w1 :
  mmio_ok w d -> driver_ok w d = Ret (ok, d1, w1) -> mmio_step w d w1 (settle ok d1).
Proof.
  intros Hok. unfold driver_ok, exchange_driver_status. destruct (Z.eqb_spec (md_driver_status d) DEVICE_STATUS_FEATURE_OK) as [E|Hne].
  2:{ intros [= <- <- <-]. by apply step_failed. }
  pose proof (not_active w d Hok ltac:(by rewrite E)) as Hna. pose proof (mo_idle _ _ Hok ltac:(by rewrite E)) as Hni.
  destruct (set_status_fields d DEVICE_STATUS_DRIVER_OK) as [Es Et]. generalize dependent (set_md_driver_status d DEVICE_STATUS_DRIVER_OK).
  intros d0 Es Et Hd. bind_inv Hd. destruct a as [[r s] w2]. rewrite Es in Ha.
  destruct (mmio_activate_ok _ _ _ _ _ (mo_dim _ _ Hok) Hna Hni Ha) as (Hdim & Hsh & Hr). destruct r as [[]|e].
  - injection Hd as <- <- <-. cbn [settle]. destruct (set_md_state_fields d0 s) as [E1 E2]. unfold mmio_step. rewrite E1, E2, Et, E. split; [|split; [constructor|done]].
    apply (mmio_ok_at _ _ DEVICE_STATUS_DRIVER_OK); rewrite ?E1, ?E2; try done. by left.
  - bind_inv Hd. destruct a as [[r2 s2] w3]. injection Hd as <- <- <-. cbn [settle].
    destruct (mmio_reset_ok _ _ _ _ _ Hdim Hr Ha0) as (Hdim2 & Hsh2 & Hna2 & _).
    destruct (failed_fields (set_md_state d0 s2)) as [E3 E4]. destruct (set_md_state_fields d0 s2) as [E1 E2]. rewrite E2, Et in E4. rewrite E1 in E3.
    unfold mmio_step. rewrite E3, E4, E. split; [|split; [constructor|by eapply shape_trans]].
    apply (mmio_ok_at _ _ (Z.lor DEVICE_STATUS_DRIVER_OK DEVICE_FAILED)); rewrite ?E3; try done. right. by left.
Qed.

Lemma driver_reset_ok w (d : M) ok d1 w1 :
  mmio_ok w d -> driver_reset w d = Ret (ok, d1, w1) -> mmio_step w d w1 (settle ok d1).
Proof.
  intros Hok. unfold driver_reset. destruct (Z.eqb_spec (md_driver_status d) DEVICE_INIT) as [E|Hne].
  { intros [= <- <- <-]. split; [done|]. split; [constructor|apply shape_refl]. }
  pose proof (step_failed w d Hok) as Hfail.
  destruct (ms_device_activated (md_state d)) eqn:Hact; [|by intros [= <- <- <-]].
  intros Hd. bind_inv Hd. destruct a as [[r device] w2]. apply reset_groups in Ha. pose proof (mmio_ok_kept _ _ _ Ha Hok) as Hok2.
  assert (Hcore : same_core (md_state d) (set_ms_device (md_state d) device)) by (destruct (md_state d); unfold same_core, shape; cbn; tauto).
  destruct r as [[]|e].
  2:{ injection Hd as <- <- <-. cbn [settle]. split; [by apply mmio_ok_failed, mmio_ok_frame|].
      destruct (failed_fields (set_md_state d (set_ms_device (md_state d) device))) as [-> ->].
      destruct (set_md_state_fields d (set_ms_device (md_state d) device)) as [-> ->]. split; [constructor|apply Hcore]. }
  bind_inv Hd. destruct a as [[r s] w3].
  assert (Hs0 : ms_intr_mgr (deactivate (set_ms_device (md_state d) device)) = ms_intr_mgr (md_state d) /\
    ms_device_activated (deactivate (set_ms_device (md_state d) device)) = false /\
    shape (md_state d) (deactivate (set_ms_device (md_state d) device))).
  { unfold deactivate, shape. destruct (md_state d). cbn in *. rewrite Hact. cbn. tauto. }
  destruct Hs0 as (E1 & E2 & Hsh0). destruct (mmio_reset_ok w2 _ r s w3 ltac:(rewrite E1; apply Hok2) E2 Ha0) as (Hdim & Hsh & Hna & Hr).
  pose proof (shape_trans _ _ _ Hsh0 Hsh) as Hshape. destruct (set_md_state_fields d s) as [Es Et]. destruct (mo_active _ _ Hok Hact) as (Hb & _).
  assert (Hst : md_driver_status d = DEVICE_STATUS_DRIVER_OK \/ md_driver_status d = Z.lor DEVICE_STATUS_DRIVER_OK DEVICE_FAILED).
  { pose proof (mo_status _ _ Hok) as Hs. status_cases Hs; rewrite Hs in *; auto; done. }
  assert (Hfs : mmio_step w d w3 (set_driver_failed (set_md_state d s))).
  { destruct (failed_fields (set_md_state d s)) as [E3 E4]. rewrite Es in E3. rewrite Et in E4. unfold mmio_step. rewrite E3, E4. split; [|split; [constructor|done]].
    apply (mmio_ok_at _ _ (Z.lor DEVICE_STATUS_DRIVER_OK DEVICE_FAILED)); rewrite ?E3; try done; [rewrite E4; by destruct Hst as [-> | ->]|].
    right. by left. }
  destruct r as [[]|e]; [|by injection Hd as <- <- <-].
  unfold exchange_driver_status in Hd. rewrite Et in Hd. destruct (Z.eqb_spec (md_driver_status d) DEVICE_STATUS_DRIVER_OK) as [E|Hx]; [|by injection Hd as <- <- <-].
  injection Hd as <- <- <-. cbn [settle]. destruct (set_status_fields (set_md_state d s) DEVICE_STATUS_INIT) as [E3 E4]. rewrite Es in E3. unfold mmio_step. rewrite E3, E4, E.
  split; [|split; [constructor|done]]. apply (mmio_ok_at _ _ DEVICE_STATUS_INIT); rewrite ?E3; try done. right. right. done.
Qed.

Lemma update_driver_status_ok w (d : M) v d' w' :
  mmio_ok w d -> update_driver_status w d v = Ret (d', w') -> mmio_step w d w' d'.
Proof.
  intros Hok Hu. unfold update_driver_status in Hu. bind_inv Hu. destruct a as [[ok d1] w1]. injection Hu as <- <-. fold (settle ok d1).
  pose proof (exchange_ok w d) as Hex.
  assert (Hin : forall x, x ∈ status_stages <-> x = DEVICE_STATUS_INIT \/ x = DEVICE_STATUS_ACKNOWLEDE \/ x = DEVICE_STATUS_DRIVER \/
    x = DEVICE_STATUS_FEATURE_OK \/ x = DEVICE_STATUS_DRIVER_OK) by (intros x; unfold status_stages; rewrite !elem_of_cons, elem_of_nil; tauto).
  assert (Hgo : forall old new, (let '(ok0, d0) := exchange_driver_status d old new in Ret (ok0, d0, w)) = Ret (ok, d1, w1) ->
    has_bit old DEVICE_DRIVER_OK = false -> new ∈ status_stages -> new <> DEVICE_STATUS_DRIVER_OK -> status_step old new ->
    mmio_step w d w1 (settle ok d1)).
  { intros old new E ? ? ? ?. pose proof (Hex old new) as Hx. destruct (exchange_driver_status d old new). injection E as <- <- <-. by apply Hx. }
  case_hyp Ha; [eapply Hgo; [exact Ha|done|apply Hin; tauto|done|constructor]|].
  case_hyp Ha; [eapply Hgo; [exact Ha|done|apply Hin; tauto|done|constructor]|].
  case_hyp Ha; [eapply Hgo; [exact Ha|done|apply Hin; tauto|done|constructor]|].
  case_hyp Ha; [by eapply driver_ok_ok|]. case_hyp Ha; [by eapply driver_reset_ok|].
  case_hyp Ha; [injection Ha as <- <- <-; split; [done|]; split; [constructor|apply shape_refl]|].
  case_hyp Ha; injection Ha as <- <- <-; by apply step_failed.
Qed.

(** ** Every access *)

Lemma step_frame w (d : M) s : mmio_ok w d -> same_core (md_state d) s -> mmio_step w d w (set_md_state d s).
Proof. intros Hok Hc. split; [by apply mmio_ok_frame|]. destruct (set_md_state_fields d s) as [-> ->]. split; [constructor|apply Hc]. Qed.

Lemma step_same w (d : M) : mmio_ok w d -> mmio_step w d w d.
Proof. split; [done|]. split; [constructor|apply shape_refl]. Qed.

Lemma with_queue_mut_core (s : S) f : same_core s (with_queue_mut s f).
Proof.
  unfold with_queue_mut. destruct (ms_queues s !! Z.to_nat (ms_queue_select s)) as [c|] eqn:Hc; [|unfold same_core, shape; tauto].
  assert (Hm : forall {A} (g : VirtioQueueConfig Q -> A), g (set_vq_queue c (f (vq_queue c))) = g c ->
    map g (<[Z.to_nat (ms_queue_select s) := set_vq_queue c (f (vq_queue c))]> (ms_queues s)) = map g (ms_queues s)).
  { intros A g Hg. change (map g) with (fmap (M := list) g). rewrite list_fmap_insert, Hg. apply list_insert_id. by rewrite list_lookup_fmap, Hc. }
  pose proof (Hm _ vq_eventfd ltac:(by destruct c)) as E1. pose proof (Hm _ vq_index ltac:(by destruct c)) as E2. clear Hm.
  unfold same_core, shape. destruct s. cbn in *. tauto.
Qed.

Lemma update_msi_field_core (s : S) f : same_core s (update_msi_field s f).
Proof. unfold update_msi_field. destruct (ms_msi s); destruct s; unfold same_core, shape; cbn; tauto. Qed.

(** *** MSI *)

Lemma update_msi_activated d index f : im_activated (update_msi d index f).2 = im_activated d.
Proof. unfold update_msi. destruct (_ !! _) as [[|c]|]; by destruct d. Qed.

(** A change of the interrupts at the same stage, in a state with the same flags. *)
Definition intr_change (w : W) (s : S) (w' : W) (s' : S) : Prop :=
  dim_ok w' (ms_intr_mgr s') /\ im_activated (ms_intr_mgr s') = im_activated (ms_intr_mgr s) /\
  ms_device_activated s' = ms_device_activated s /\ ms_ioevent_registered s' = ms_ioevent_registered s /\ shape s s'.

Lemma intr_change_trans w1 s1 w2 s2 w3 s3 : intr_change w1 s1 w2 s2 -> intr_change w2 s2 w3 s3 -> intr_change w1 s1 w3 s3.
Proof.
  intros (_ & A1 & A2 & A3 & A4) (B0 & B1 & B2 & B3 & B4). unfold intr_change. split; [done|]. do 3 (split; [congruence|]). by eapply shape_trans.
Qed.

Lemma intr_change_world w s w' : dim_ok w (ms_intr_mgr s) -> groups_kept w w' -> intr_change w s w' s.
Proof. intros Hd Hk. split; [by eapply dim_ok_kept|]. unfold shape. tauto. Qed.

Lemma step_intr w (d : M) w' s' : mmio_ok w d -> intr_change w (md_state d) w' s' -> mmio_step w d w' (set_md_state d s').
Proof.
  intros Hok (Hd & Ea & Eb & Ec & Hsh). split; [by eapply mmio_ok_intr|]. destruct (set_md_state_fields d s') as [-> ->]. by split; [constructor|].
Qed.

Lemma set_message_ok w (s : S) index f :
  dim_ok w (ms_intr_mgr s) -> 0 <= index -> intr_change w s w (set_message s (fun i => update_msi i index f)).2.
Proof.
  intros Hd Hi. unfold set_message. destruct (update_msi_ok w (ms_intr_mgr s) index f Hd Hi) as [_ Hd'].
  pose proof (update_msi_activated (ms_intr_mgr s) index f) as Hact. destruct (update_msi _ _ _) as [[[]|e] i1]; destruct s; unfold intr_change, shape; cbn in *; tauto.
Qed.

Lemma update_kept_world w d index r w' : dim_ok w d -> 0 <= index -> DIM_update w d index = Ret (r, w') -> groups_kept w w'.
Proof.
  intros Hd Hi. rewrite DIM_update_ok by done. intros [= Hu]. unfold update_done in Hu.
  repeat (case_hyp Hu; try (injection Hu as <- <-; apply groups_kept_refl)).
  match type of Hu with group_update w ?g index ?c = _ => pose proof (update_kept w g index c) as Hk end. by rewrite Hu in Hk.
Qed.

Lemma update_msi_cfg_ok w (s : S) v r s' w' :
  dim_ok w (ms_intr_mgr s) -> 0 <= v -> update_msi_cfg w s v = Ret (r, s', w') -> intr_change w s w' s'.
Proof.
  intros Hd Hv. unfold update_msi_cfg.
  assert (Hrefl : forall s, dim_ok w (ms_intr_mgr s) -> intr_change w s w s) by (unfold intr_change, shape; tauto).
  destruct (ms_msi s) as [msi|]; [|intros [= <- <- <-]; by apply Hrefl]. cbv zeta. cbn [index_select address_low address_high m_data].
  set (s0 := set_ms_msi s _). assert (K0 : intr_change w s w s0) by (destruct s; unfold intr_change, shape; cbn in *; tauto). clearbody s0.
  pose proof (set_message_ok w s0 v (fun c => let '(mkMsiIrqSourceConfig a _ e f g) := c in mkMsiIrqSourceConfig a (address_low msi) e f g)) as K1.
  specialize (K1 ltac:(apply K0) Hv).
  unfold set_msi_low_address. destruct (set_message s0 _) as [[[]|e] s1]; cbn [snd] in K1;
    [|intros [= <- <- <-]; by eapply intr_change_trans].
  pose proof (set_message_ok w s1 v (fun c => let '(mkMsiIrqSourceConfig _ b e f g) := c in mkMsiIrqSourceConfig (address_high msi) b e f g) ltac:(apply K1) Hv) as K2.
  unfold set_msi_high_address. destruct (set_message s1 _) as [[[]|e] s2]; cbn [snd] in K2;
    [|intros [= <- <- <-]; by eauto using intr_change_trans].
  pose proof (set_message_ok w s2 v (fun c => let '(mkMsiIrqSourceConfig a b _ f g) := c in mkMsiIrqSourceConfig a b (m_data msi) f g) ltac:(apply K2) Hv) as K3.
  unfold set_msi_data. destruct (set_message s2 _) as [[[]|e] s3]; cbn [snd] in K3;
    [|intros [= <- <- <-]; by eauto using intr_change_trans].
  assert (K : intr_change w s w s3) by eauto using intr_change_trans.
  destruct (is_enabled _); intros Hu; [|by injection Hu as <- <- <-].
  bind_inv Hu. destruct a as [r1 w1]. injection Hu as <- <- <-. eapply intr_change_trans; [exact K|].
  apply intr_change_world; [apply K3|]. eapply update_kept_world; [apply K3|done|exact Ha].
Qed.

Lemma change_mask_ok w w1 (s : S) r1 index mask r s' w' :
  dim_ok w (ms_intr_mgr s) -> 0 <= index -> groups_kept w w1 -> change_mask w s (r1, w1) index mask = (r, s', w') -> intr_change w s w' s'.
Proof.
  intros Hd Hi Hk. unfold change_mask. destruct r1 as [[]|e]; [|intros [= <- <- <-]; by apply intr_change_world].
  pose proof (set_message_ok w1 s index (fun c => let '(mkMsiIrqSourceConfig a b e f g) := c in
    mkMsiIrqSourceConfig a b e (if mask then Z.lor (Z.land f (Z.lxor u32_max MSI_INT_MASK)) MSI_INT_MASK else Z.land f (Z.lxor u32_max MSI_INT_MASK)) g)
    ltac:(by eapply dim_ok_kept) Hi) as K.
  unfold set_msi_mask. destruct (set_message s _) as [r2 s2]. intros [= <- <- <-]. exact K.
Qed.

Lemma mask_msi_int_ok w (s : S) index mask r s' w' :
  dim_ok w (ms_intr_mgr s) -> 0 <= index -> mask_msi_int w s index mask = Ret (r, s', w') -> intr_change w s w' s'.
Proof.
  intros Hd Hi Hm. unfold mask_msi_int in Hm. assert (Hrefl : intr_change w s w s) by (unfold intr_change, shape; tauto).
  case_hyp Hm; [by injection Hm as <- <- <-|]. bind_inv Hm. destruct a as [g|]; [|by injection Hm as <- <- <-].
  destruct (get_msi_mask _ _); [|by injection Hm as <- <- <-].
  case_hyp Hm; [|case_hyp Hm; [|by injection Hm as <- <- <-]]; injection Hm as Hm.
  - pose proof (mask_kept w g index) as Hk. destruct (group_mask w g index) as [r1 w1]. by eapply change_mask_ok.
  - pose proof (unmask_kept w g index) as Hk. destruct (group_unmask w g index) as [r1 w1]. by eapply change_mask_ok.
Qed.

Lemma update_msi_enable_ok w (d : M) v d' : mmio_ok w d -> update_msi_enable d v = Ret d' -> mmio_step w d w d'.
Proof.
  intros Hok. unfold update_msi_enable. fold (has_bit (md_driver_status d) DEVICE_DRIVER_OK).
  destruct (has_bit (md_driver_status d) DEVICE_DRIVER_OK) eqn:Hb.
  { intros [= <-]. case_match; [by apply step_failed|by apply step_same]. }
  pose proof (mo_idle _ _ Hok Hb) as Hni. pose proof (mo_dim _ _ Hok) as Hd.
  assert (Hgo : forall mode msi, (let! (r, intr) := set_working_mode (ms_intr_mgr (md_state d)) mode in
      match r with
      | Ok _ => Ret (set_md_state d (set_ms_msi (set_ms_intr_mgr (md_state d) intr) msi))
      | Err _ => Ret (set_driver_failed (set_md_state d (set_ms_intr_mgr (md_state d) intr)))
      end) = Ret d' -> mmio_step w d w d').
  { intros mode msi. rewrite (set_working_mode_ok w) by done. cbn [obind].
    destruct (mode_change_allowed _ _); intros [= <-].
    - apply step_intr; [done|]. destruct (with_mode_fields (ms_intr_mgr (md_state d)) mode) as (_ & _ & _ & _ & Ea).
      pose proof (with_mode_ok _ _ mode Hd Hni). destruct (md_state d). unfold intr_change, shape. cbn in *. tauto.
    - assert (Hc : same_core (md_state d) (set_ms_intr_mgr (md_state d) (ms_intr_mgr (md_state d)))) by (destruct (md_state d); unfold same_core, shape; cbn; tauto).
      destruct (step_frame w d _ Hok Hc) as [Hok1 _]. split; [by apply mmio_ok_failed|].
      destruct (failed_fields (set_md_state d (set_ms_intr_mgr (md_state d) (ms_intr_mgr (md_state d))))) as [-> ->].
      destruct (set_md_state_fields d (set_ms_intr_mgr (md_state d) (ms_intr_mgr (md_state d)))) as [-> ->]. split; [constructor|apply Hc]. }
  cbv zeta. destruct (negb _), (ms_msi (md_state d)); try (intros [= <-]; by apply step_same); by apply Hgo.
Qed.

Lemma handle_msi_cmd_ok w (d : M) v d' w' : mmio_ok w d -> handle_msi_cmd w d v = Ret (d', w') -> mmio_step w d w' d'.
Proof.
  intros Hok Hh. unfold handle_msi_cmd in Hh. pose proof (mo_dim _ _ Hok) as Hd.
  assert (Hv : 0 <= Z.land v MMIO_MSI_CMD_ARG_MASK) by (apply Z.land_nonneg; by right).
  case_hyp Hh; [case_hyp Hh; [injection Hh as <- <-; by apply step_same|]|case_hyp Hh; [|case_hyp Hh; [|injection Hh as <- <-; by apply step_failed]]];
    bind_inv Hh; destruct a as [[r s] w1]; injection Hh as <- <-; apply step_intr; try done;
    first [by eapply update_msi_cfg_ok|by eapply mask_msi_int_ok].
Qed.

Lemma update_queue_field_ok w (d : M) f : mmio_ok w d -> mmio_step w d w (update_queue_field d f).
Proof. intros Hok. unfold update_queue_field. case_match; [apply step_frame; [done|apply with_queue_mut_core]|by apply step_same]. Qed.

Lemma set_ms_device_core (s : S) dev : same_core s (set_ms_device s dev).
Proof. destruct s. unfold same_core, shape. cbn. tauto. Qed.

Lemma ack_features_ok w (d : M) v : mmio_ok w d -> mmio_step w d w (ack_features d v).
Proof. intros Hok. unfold ack_features. case_match; [apply step_frame; [done|apply set_ms_device_core]|by apply step_same]. Qed.

Lemma set_device_config_ok w (d : M) offset data : mmio_ok w d -> mmio_step w d w (set_device_config d offset data).
Proof. intros Hok. unfold set_device_config. case_match; [apply step_frame; [done|apply set_ms_device_core]|by apply step_same]. Qed.

Lemma get_device_config_ok w (d : M) offset data : mmio_ok w d -> mmio_step w d w (get_device_config d offset data).2.
Proof.
  intros Hok. unfold get_device_config. case_match; [|by apply step_same]. destruct (read_config _ _ _) as [[r data'] dev].
  apply step_frame; [done|apply set_ms_device_core].
Qed.

Lemma step_interrupt_status w (d : M) x : mmio_ok w d -> mmio_step w d w (set_md_interrupt_status d x).
Proof. intros Hok. split; [|destruct d; split; [constructor|apply shape_refl]]. destruct Hok. destruct d. by constructor. Qed.

Lemma write_register_ok w (d : M) offset v d' w' : mmio_ok w d -> write_register w d offset v = Ret (d', w') -> mmio_step w d w' d'.
Proof.
  intros Hok Hw. unfold write_register in Hw.
  repeat (case_hyp Hw; [try (injection Hw as <- <-)|]); [..|injection Hw as <- <-; by apply step_same];
    first [ by apply update_queue_field_ok | by apply ack_features_ok | by apply step_interrupt_status
          | by eapply update_driver_status_ok
          | apply step_frame; [done|]; unfold set_msi_address_low, set_msi_address_high, set_msi_data_reg;
            first [apply update_msi_field_core|destruct (md_state d); unfold same_core, shape; cbn; tauto] ].
Qed.

Lemma transport_write_ok w (d : M) offset data d' w' : mmio_ok w d -> transport_write w d offset data = Ret (d', w') -> mmio_step w d w' d'.
Proof.
  intros Hok Hw. unfold transport_write in Hw. case_hyp Hw; [injection Hw as <- <-; by apply set_device_config_ok|].
  case_hyp Hw; [by eapply write_register_ok|]. case_hyp Hw; [|injection Hw as <- <-; by apply step_same].
  case_hyp Hw; [bind_inv Hw; injection Hw as <- <-; by eapply update_msi_enable_ok|].
  case_hyp Hw; [by eapply handle_msi_cmd_ok|injection Hw as <- <-; by apply step_same].
Qed.

Lemma transport_read_ok w (d : M) offset data data' d' : mmio_ok w d -> transport_read d offset data = Ret (data', d') -> mmio_step w d w d'.
Proof.
  intros Hok Hr. unfold transport_read in Hr. case_hyp Hr.
  { pose proof (get_device_config_ok w d (offset - MMIO_CFG_SPACE_OFF) data Hok) as Hs. injection Hr as Hr. by rewrite Hr in Hs. }
  case_hyp Hr; [bind_inv Hr; injection Hr as <- <-; by apply step_same|].
  case_hyp Hr; injection Hr as <- <-; by apply step_same.
Qed.
End Invariant.

Section Events.
Context {W Q D : Type} `{MmioLaws W} `{Queue W Q} `{VirtioDevice W Q D} `{!VirtioDeviceLaws W Q D}.
Notation S := (MmioState Q D).

Definition notify_event (s : S) (i : nat) (c : VirtioQueueConfig Q) : Z * Z * Datamatch :=
  (vq_eventfd c, ms_mmio_base s + MMIO_NOTIFY_REG_OFFSET, DataU32 (as_u32 (Z.of_nat i))).

Definition doorbell_event (s : S) (doorbell : DoorBell) (i : nat) (c : VirtioQueueConfig Q) : Z * Z * Datamatch :=
  (vq_eventfd c, ms_mmio_base s + queue_offset doorbell (Z.of_nat i), NoDatamatch).

(** The events of the queues from the [i]-th on. *)
Fixpoint notify_events (s : S) (i : nat) (queues : list (VirtioQueueConfig Q)) : gset (Z * Z * Datamatch) :=
  match queues with [] => ∅ | c :: queues => {[ notify_event s i c ]} ∪ notify_events s (Datatypes.S i) queues end.
Fixpoint doorbell_events (s : S) (doorbell : DoorBell) (i : nat) (queues : list (VirtioQueueConfig Q)) : gset (Z * Z * Datamatch) :=
  match queues with [] => ∅ | c :: queues => {[ doorbell_event s doorbell i c ]} ∪ doorbell_events s doorbell (Datatypes.S i) queues end.

Definition all_doorbells (s : S) (i : nat) (queues : list (VirtioQueueConfig Q)) : gset (Z * Z * Datamatch) :=
  match ms_doorbell s with Some db => doorbell_events s db i queues | None => ∅ end.

(** ** Registration *)

Lemma add_u_Ret m x y z : add_u m x y = Ret z -> z = x + y.
Proof. intros E. by apply add_u_inv in E as [-> _]. Qed.

Lemma register_doorbell_events w (s : S) i c w' :
  register_doorbell w s i c = Ret (Ok tt, w') -> ioevents w' = all_doorbells s i [c] ∪ ioevents w.
Proof.
  unfold register_doorbell, all_doorbells. destruct (ms_doorbell s) as [db|]; [|intros [= <-]; set_solver].
  intros Hr. bind_inv Hr. apply add_u_Ret in Ha. subst. destruct (register_ioevent w _ _ _) as [[[]|e] w1] eqn:Hu.
  - injection Hr as <-. destruct (register_ioevent_law _ _ _ _ _ _ Hu) as [_ ->]. cbn. unfold doorbell_event. set_solver.
  - by bind_inv Hr.
Qed.

Lemma register_notify_events w (s : S) i c w' :
  register_notify w s i c = Ret (Ok tt, w') -> ioevents w' = {[ notify_event s i c ]} ∪ ioevents w.
Proof.
  unfold register_notify. intros Hr. bind_inv Hr. apply add_u_Ret in Ha. subst. destruct (register_ioevent w _ _ _) as [[[]|e] w1] eqn:Hu.
  - injection Hr as <-. by destruct (register_ioevent_law _ _ _ _ _ _ Hu) as [_ ->].
  - bind_inv Hr. by bind_inv Hr.
Qed.

Lemma all_doorbells_cons (s : S) i c queues : all_doorbells s i (c :: queues) = all_doorbells s i [c] ∪ all_doorbells s (Datatypes.S i) queues.
Proof. unfold all_doorbells. destruct (ms_doorbell s); cbn; set_solver. Qed.

(** All queues have their events. *)
Lemma register_each_events w (s : S) i queues w' :
  register_each w s i queues = Ret (Ok tt, w') ->
  ioevents w' = notify_events s i queues ∪ all_doorbells s i queues ∪ ioevents w.
Proof.
  revert w i. induction queues as [|c queues IH]; intros w i Hr; cbn [register_each] in Hr.
  { injection Hr as <-. unfold all_doorbells. destruct (ms_doorbell s); cbn; set_solver. }
  bind_inv Hr. destruct a as [[[]|e] w1]; [|done]. apply register_doorbell_events in Ha.
  bind_inv Hr. destruct a as [[[]|e] w2]; [|done]. apply register_notify_events in Ha0.
  rewrite (IH _ _ Hr), Ha0, Ha, (all_doorbells_cons s i c queues). cbn [notify_events]. set_solver.
Qed.

(** ** A registration that fails *)

(** [revert_ioevent] asks for 64-bit matches, and the events have 32-bit ones. *)
Lemma revert_loop_keeps w (queues : list (VirtioQueueConfig Q)) idx io_addr wild w' fd addr x :
  revert_loop w queues idx io_addr wild = Ret w' -> (fd, addr, DataU32 x) ∈ ioevents w -> (fd, addr, DataU32 x) ∈ ioevents w'.
Proof.
  revert w. induction idx as [|j IH]; intros w Hr Hin; cbn [revert_loop] in Hr; [by injection Hr as <-|].
  bind_inv Hr. destruct (unregister_ioevent w _ _ _) as [r w1] eqn:Hu. apply (IH _ Hr).
  destruct (unregister_ioevent_law _ _ _ _ _ _ Hu) as [_ ->]. destruct r; [|done].
  apply elem_of_difference. split; [done|]. rewrite elem_of_singleton. intros [= ? ? E]. by destruct wild.
Qed.

Lemma unregister_doorbells_keeps w base db i (queues : list (VirtioQueueConfig Q)) w' fd addr x :
  unregister_doorbells w base db i queues = Ret w' -> (fd, addr, DataU32 x) ∈ ioevents w -> (fd, addr, DataU32 x) ∈ ioevents w'.
Proof.
  revert w i. induction queues as [|c queues IH]; intros w i Hr Hin; cbn [unregister_doorbells] in Hr; [by injection Hr as <-|].
  bind_inv Hr. destruct (unregister_ioevent w _ _ _) as [r w1] eqn:Hu. apply (IH _ _ Hr).
  destruct (unregister_ioevent_law _ _ _ _ _ _ Hu) as [_ ->]. destruct r; [|done].
  apply elem_of_difference. split; [done|]. by rewrite elem_of_singleton.
Qed.

(** Whatever happens, the events of the notification register stay. *)
Lemma register_doorbell_keeps w (s : S) i c r w' fd addr x :
  register_doorbell w s i c = Ret (r, w') -> (fd, addr, DataU32 x) ∈ ioevents w -> (fd, addr, DataU32 x) ∈ ioevents w'.
Proof.
  unfold register_doorbell, revert_ioevent. destruct (ms_doorbell s) as [db|]; intros Hr Hin; [|by injection Hr as <- <-].
  bind_inv Hr. destruct (register_ioevent w _ _ _) as [[[]|e] w1] eqn:Hu; destruct (register_ioevent_law _ _ _ _ _ _ Hu) as [_ Hev].
  - injection Hr as <- <-. set_solver.
  - bind_inv Hr. injection Hr as <- <-. case_hyp Ha0; [|done]. eapply revert_loop_keeps; [exact Ha0|]. by rewrite Hev.
Qed.

Lemma register_notify_keeps w (s : S) i c r w' fd addr x :
  register_notify w s i c = Ret (r, w') -> (fd, addr, DataU32 x) ∈ ioevents w -> (fd, addr, DataU32 x) ∈ ioevents w'.
Proof.
  unfold register_notify, revert_ioevent, unregister_ioevent_doorbell. intros Hr Hin.
  bind_inv Hr. destruct (register_ioevent w _ _ _) as [[[]|e] w1] eqn:Hu; destruct (register_ioevent_law _ _ _ _ _ _ Hu) as [_ Hev].
  - injection Hr as <- <-. set_solver.
  - bind_inv Hr. bind_inv Hr. injection Hr as <- <-. case_hyp Ha1; [|done]. eapply revert_loop_keeps; [exact Ha1|].
    destruct (ms_doorbell s); [eapply unregister_doorbells_keeps; [exact Ha0|]|injection Ha0 as <-]; by rewrite Hev.
Qed.

Lemma register_each_keeps w (s : S) i queues r w' fd addr x :
  register_each w s i queues = Ret (r, w') -> (fd, addr, DataU32 x) ∈ ioevents w -> (fd, addr, DataU32 x) ∈ ioevents w'.
Proof.
  revert w i. induction queues as [|c queues IH]; intros w i Hr Hin; cbn [register_each] in Hr; [by injection Hr as <- <-|].
  bind_inv Hr. destruct a as [r1 w1]. apply (register_doorbell_keeps _ _ _ _ _ _ _ _ _ Ha) in Hin.
  destruct r1; [|by injection Hr as <- <-]. bind_inv Hr. destruct a0 as [r2 w2]. apply (register_notify_keeps _ _ _ _ _ _ _ _ _ Ha0) in Hin.
  destruct r2; [|by injection Hr as <- <-]. by eapply IH.
Qed.

(** When the registration fails at some queue, the events of the notification
    register stay registered for all queues before it. *)
Lemma register_each_leaks w (s : S) i queues e w' :
  register_each w s i queues = Ret (Err e, w') ->
  exists n, (n < length queues)%nat /\ forall j c, (j < n)%nat -> queues !! j = Some c -> notify_event s (i + j) c ∈ ioevents w'.
Proof.
  revert w i. induction queues as [|c queues IH]; intros w i Hr; cbn [register_each] in Hr; [done|].
  bind_inv Hr. destruct a as [r1 w1]. destruct r1 as [[]|e1].
  2:{ exists O. split; [cbn; lia|]. intros; lia. }
  bind_inv Hr. destruct a as [r2 w2]. destruct r2 as [[]|e2].
  2:{ exists O. split; [cbn; lia|]. intros; lia. }
  destruct (IH _ _ Hr) as (n & Hn & Hall). exists (Datatypes.S n). split; [cbn; lia|]. intros [|j] c' Hj Hc.
  - injection Hc as <-. rewrite Nat.add_0_r. eapply register_each_keeps; [exact Hr|]. apply register_notify_events in Ha0.
    rewrite Ha0. set_solver.
  - replace (i + Datatypes.S j)%nat with (Datatypes.S i + j)%nat by lia. apply Hall; [lia|done].
Qed.

(** ** Reset *)

Lemma unregister_each_events w (s : S) i (queues : list (VirtioQueueConfig Q)) :
  ioevents (unregister_each w (ms_mmio_base s + MMIO_NOTIFY_REG_OFFSET) (Z.of_nat i) queues) = ioevents w ∖ notify_events s i queues.
Proof.
  revert w i. induction queues as [|c queues IH]; intros w i; cbn [unregister_each notify_events]; [set_solver|].
  destruct (unregister_ioevent w _ _ _) as [r w1] eqn:Hu. replace (Z.of_nat i + 1) with (Z.of_nat (Datatypes.S i)) by lia.
  rewrite IH. destruct (unregister_ioevent_law _ _ _ _ _ _ Hu) as [_ Hev]. destruct r as [[]|e]; rewrite Hev; unfold notify_event in *; [set_solver|].
  assert (Hnot : notify_event s i c ∉ ioevents w).
  { intros Hin. destruct (unregister_present _ _ _ _ Hin) as [w2 Hw2]. unfold notify_event in Hw2. congruence. }
  unfold notify_event in *. set_solver.
Qed.
End Events.
