(* ===== verification/MmioProps.v ===== *)
(** Correctness of the MMIO transport: the driver status through every run, what
    the driver may configure when, activation and reset, panics, and the commands
    that set up MSI interrupts.  A device is activated with the queues, interrupts
    and events of its driver; only one access can make the transport panic. *)

From S2P Require Import Prelude Resources Interrupt InterruptSpec VsockStream VsockPacket VirtioDevice Mmio MmioSpec.

(** The resources of a device: sizes of MSI ranges in 32 bits, windows in the
    64-bit address space. *)
Definition resources_ok (r : DeviceResources) : Prop :=
  Forall (fun e => match e with
                   | MsiIrq _ _ size => in_u32 size
                   | MmioAddressRange base size => 0 <= base /\ base + size <= 2 ^ 64
                   | _ => True
                   end) (dr_vec r).

Definition MAX_QUEUES : Z := 1024.

Section Props.
Context {W Q D : Type} `{MmioLaws W} `{Queue W Q} `{VirtioDevice W Q D} `{!VirtioDeviceLaws W Q D}.
Notation S := (MmioState Q D).
Notation M := (MmioDevice (Q := Q) (D := D)).

(** ** Creation *)

Definition window_found (cfg : option (Resource * Z)) : Prop :=
  match cfg with
  | Some (res, base) => res = MmioAddressRange base (MMIO_DEFAULT_CFG_SIZE + DRAGONBALL_MMIO_DOORBELL_SIZE) /\
      0 <= base /\ base + (MMIO_DEFAULT_CFG_SIZE + DRAGONBALL_MMIO_DOORBELL_SIZE) <= 2 ^ 64
  | None => True
  end.

Lemma resources_ok_append r e : resources_ok r -> resources_ok (mkDeviceResources [e]) -> resources_ok (DeviceResources_append r e).
Proof. intros Hr He. unfold resources_ok in *. cbn in *. apply Forall_app. done. Qed.

Lemma split_resources_ok cfg rest l cfg' rest' :
  split_resources cfg rest l = (cfg', rest') -> window_found cfg -> resources_ok rest -> resources_ok (mkDeviceResources l) ->
  window_found cfg' /\ resources_ok rest'.
Proof.
  revert cfg rest. induction l as [|e l IH]; intros cfg rest Hs Hw Hr Hl; cbn [split_resources] in Hs; [by injection Hs as <- <-|].
  unfold resources_ok in Hl. cbn [dr_vec] in Hl. apply Forall_cons in Hl as [He Hl].
  assert (Ha : resources_ok (DeviceResources_append rest e)) by (apply resources_ok_append; [done|unfold resources_ok; cbn [dr_vec]; by constructor]).
  destruct e; try (by eapply IH). destruct cfg as [[res b]|]; [by eapply IH|].
  destruct (Z.eqb_spec size (MMIO_DEFAULT_CFG_SIZE + DRAGONBALL_MMIO_DOORBELL_SIZE)) as [->|]; [|by eapply IH].
  eapply IH; [exact Hs| |done|done]. by split.
Qed.

Lemma resources_msi r ty b s : resources_ok r -> get_msi_irqs r ty = Some (b, s) -> in_u32 s.
Proof.
  unfold resources_ok, get_msi_irqs. induction (dr_vec r) as [|e l IH]; intros Hr Hg; [done|]. apply Forall_cons in Hr as [He Hl].
  cbn in Hg. destruct e; try (by apply IH). destruct (decide (ty = ty0)); [by injection Hg as -> ->|by apply IH].
Qed.

Lemma queue_config_create_groups w size i r w' : queue_config_create w size i = (r, w') -> groups_kept w w'.
Proof.
  intros Hq. unfold queue_config_create in Hq. destruct (queue_eventfd_new w) as [[fd|e] w1] eqn:He;
    destruct (queue_eventfd_law _ _ _ He) as [Hk _]; [destruct (q_new size)|]; by injection Hq as <- <-.
Qed.

Lemma create_each_ok w idx sizes r w' :
  create_each w idx sizes = (r, w') -> groups_kept w w' /\
  match r with Ok queues => length queues = length sizes | Err _ => True end.
Proof.
  revert w idx r w'. induction sizes as [|size sizes IH]; intros w idx r w' Hc; cbn [create_each] in Hc.
  { injection Hc as <- <-. split; [apply groups_kept_refl|done]. }
  destruct (queue_config_create w size _) as [[c|e] w1] eqn:Hq; apply queue_config_create_groups in Hq; [|by injection Hc as <- <-].
  destruct (create_each w1 (idx + 1) sizes) as [r2 w2] eqn:Hr. destruct (IH _ _ _ _ Hr) as [Hk Hl].
  assert (Hk2 : groups_kept w w2) by (by eapply groups_kept_trans).
  destruct r2 as [cs|e]; injection Hc as <- <-; [|done]. split; [done|]. cbn. by rewrite Hl.
Qed.

Lemma create_queues_ok w (device : D) r w' :
  create_queues w device = (r, w') -> groups_kept w w' /\
  match r with Ok (queues, _) => (length queues <= Datatypes.S (length (queue_max_sizes device)))%nat | Err _ => True end.
Proof.
  unfold create_queues. destruct (create_each w 0 _) as [r1 w1] eqn:Hc. destruct (create_each_ok _ _ _ _ _ Hc) as [Hk Hl].
  destruct r1 as [queues|e]; [|by intros [= <- <-]]. destruct (_ >? 0); [|intros [= <- <-]; split; [done|lia]].
  destruct (queue_config_create w1 _ _) as [r2 w2] eqn:Hq. apply queue_config_create_groups in Hq.
  assert (Hk2 : groups_kept w w2) by (by eapply groups_kept_trans).
  destruct r2; intros [= <- <-]; [|done]. split; [done|]. rewrite length_app. cbn. lia.
Qed.

(** The doorbell of a new device. *)
Definition doorbell_default : DoorBell := mkDoorBell DRAGONBALL_MMIO_DOORBELL_OFFSET DRAGONBALL_MMIO_DOORBELL_SCALE.

(** The addresses of the registers and doorbells do not overflow. *)
Definition layout_ok (s : S) : Prop :=
  0 <= ms_mmio_base s /\ ms_mmio_base s + (MMIO_DEFAULT_CFG_SIZE + DRAGONBALL_MMIO_DOORBELL_SIZE) <= 2 ^ 64 /\
  Z.of_nat (length (ms_queues s)) <= MAX_QUEUES /\ (ms_doorbell s = Some doorbell_default \/ ms_doorbell s = None).

Lemma layout_shape s s' : shape s s' -> layout_ok s -> layout_ok s'.
Proof.
  intros (E1 & _ & _ & _ & E2 & _ & Hdb) (Hb & Hm & Hl & Hd). unfold layout_ok. rewrite E1.
  apply (f_equal length) in E2. rewrite !length_map in E2. rewrite E2. do 3 (split; [done|]).
  destruct Hdb as [-> | ->]; [done|by right].
Qed.

Lemma MmioDevice_new_ok w (device : D) resources features (d : M) w' :
  resources_ok resources -> Z.of_nat (length (queue_max_sizes device)) < MAX_QUEUES ->
  MmioDevice_new w device resources features = Ret (Ok d, w') -> mmio_ok w' d /\ layout_ok (md_state d) /\ md_driver_status d = DEVICE_INIT.
Proof.
  intros Hres Hq Hn. unfold MmioDevice_new in Hn. destruct (split_resources None DeviceResources_new (dr_vec resources)) as [cfg rest] eqn:Hs.
  destruct (split_resources_ok _ _ _ _ _ Hs) as [Hw Hr]; [done|by constructor|by destruct resources|].
  destruct cfg as [[res base]|]; [|done]. destruct Hw as (_ & Hb & Hbm). destruct (match features with Some _ => _ | None => _ end) as [en ft].
  bind_inv Hn. destruct a as [[state|e] w1]; [|done]. injection Hn as <- <-. unfold MmioState_new in Ha.
  bind_inv Ha. destruct a as [[intr|e] w2]; [|done].
  destruct (DIM_new_ok _ _ _ _ (fun ty b s => resources_msi rest ty b s Hr) Ha0) as (Hd & [Hfm Hfa] & _).
  destruct (create_queues w2 device) as [r3 w3] eqn:Hc. destruct (create_queues_ok _ _ _ _ Hc) as [Hk Hl]. destruct r3 as [[queues has]|e]; [|done].
  bind_inv Ha. destruct a as [[r4 dev] w4]. apply set_resource_groups in Ha1. destruct r4 as [shm|e]; [|done]. injection Ha as <- <-.
  split; [|split; [|done]].
  - constructor; cbn; try done.
    + eapply dim_ok_kept; [exact Ha1|]. by eapply dim_ok_kept.
    + exists DEVICE_STATUS_INIT. split; [unfold status_stages; rewrite elem_of_cons; by left|by left].
  - split; [done|]. split; [done|]. split; [cbn; lia|]. cbn. destruct en; [by left|by right].
Qed.

(** ** Runs *)

(** Every run of accesses by the guest and of interrupts; [mr_world] is what else
    happens to the machine. *)
Inductive mmio_reach : W -> M -> Prop :=
| mr_new w device resources features d w' :
    resources_ok resources -> Z.of_nat (length (queue_max_sizes device)) < MAX_QUEUES ->
    MmioDevice_new w device resources features = Ret (Ok d, w') -> mmio_reach w' d
| mr_write w d offset data d' w' : mmio_reach w d -> transport_write w d offset data = Ret (d', w') -> mmio_reach w' d'
| mr_read w d offset data data' d' : mmio_reach w d -> transport_read d offset data = Ret (data', d') -> mmio_reach w d'
| mr_interrupt w d bits : mmio_reach w d -> mmio_reach w (raise_interrupt_status d bits)
| mr_world w d w' : mmio_reach w d -> groups_kept w w' -> mmio_reach w' d.

Lemma mmio_reach_ok w (d : M) : mmio_reach w d -> mmio_ok w d /\ layout_ok (md_state d).
Proof.
  induction 1 as [w device resources features d w' Hr Hq Hn|w d offset data d' w' _ [IH IL] Hw|w d offset data data' d' _ [IH IL] Hr
    |w d bits _ [IH IL]|w d w' _ [IH IL] Hk].
  - by destruct (MmioDevice_new_ok _ _ _ _ _ _ Hr Hq Hn) as (? & ? & _).
  - destruct (transport_write_ok _ _ _ _ _ _ IH Hw) as (? & _ & Hsh). split; [done|by eapply layout_shape].
  - destruct (transport_read_ok _ _ _ _ _ _ IH Hr) as (? & _ & Hsh). split; [done|by eapply layout_shape].
  - destruct (step_interrupt_status w d (status_set_bits (md_interrupt_status d) bits) IH) as (? & _ & Hsh). split; [done|by eapply layout_shape].
  - split; [by eapply mmio_ok_kept|done].
Qed.

(** C5. The driver status of a device, in every run: it is a stage of the
    initialization of the virtio specification, possibly with FAILED.  The device
    is active only at DRIVER_OK, with interrupts enabled and the queue events
    registered; at DRIVER_OK without FAILED it is active, and before DRIVER_OK it
    and its interrupts are off.  A write of the guest moves the status one stage
    on, to FAILED, or from DRIVER_OK back to the beginning; once it has FAILED it
    never changes again. *)
Theorem driver_status_machine w (d : M) :
  mmio_reach w d ->
  status_ok (md_driver_status d) /\
  (ms_device_activated (md_state d) = true ->
     has_bit (md_driver_status d) DEVICE_DRIVER_OK = true /\ im_activated (ms_intr_mgr (md_state d)) = true /\
     ms_ioevent_registered (md_state d) = true) /\
  (md_driver_status d = DEVICE_STATUS_DRIVER_OK -> ms_device_activated (md_state d) = true) /\
  (has_bit (md_driver_status d) DEVICE_DRIVER_OK = false ->
     ms_device_activated (md_state d) = false /\ im_activated (ms_intr_mgr (md_state d)) = false) /\
  forall offset data d' w', transport_write w d offset data = Ret (d', w') ->
    status_step (md_driver_status d) (md_driver_status d') /\
    (has_bit (md_driver_status d) DEVICE_FAILED = true -> md_driver_status d' = md_driver_status d).
Proof.
  intros Hr. destruct (mmio_reach_ok w d Hr) as [Hok _].
  split; [apply Hok|]. split; [apply Hok|]. split; [apply Hok|].
  split; [intros Hb; split; [by eapply not_active|by apply Hok]|].
  intros offset data d' w' Hw. destruct (transport_write_ok _ _ _ _ _ _ Hok Hw) as (_ & Hs & _). split; [done|].
  intros Hf. eapply status_step_failed; [apply Hok|done|done].
Qed.

(** ** What the driver may configure *)

(** The registers of the selected queue. *)
Definition queue_register (offset v : Z) : option (Q -> Q) :=
  if offset =? REG_MMIO_QUEUE_NUM then Some (fun q => q_set_size (W := W) q (as_u16 v))
  else if offset =? REG_MMIO_QUEUE_READY then Some (fun q => q_set_ready (W := W) q (v =? 1))
  else if offset =? REG_MMIO_QUEUE_DESC_LOW then Some (fun q => q_set_desc_table_address (W := W) q (Some v) None)
  else if offset =? REG_MMIO_QUEUE_DESC_HIGH then Some (fun q => q_set_desc_table_address (W := W) q None (Some v))
  else if offset =? REG_MMIO_QUEUE_AVAIL_LOW then Some (fun q => q_set_avail_ring_address (W := W) q (Some v) None)
  else if offset =? REG_MMIO_QUEUE_AVAIL_HIGH then Some (fun q => q_set_avail_ring_address (W := W) q None (Some v))
  else if offset =? REG_MMIO_QUEUE_USED_LOW then Some (fun q => q_set_used_ring_address (W := W) q (Some v) None)
  else if offset =? REG_MMIO_QUEUE_USED_HIGH then Some (fun q => q_set_used_ring_address (W := W) q None (Some v))
  else None.

(** The state with one queue changed. *)
Definition configured (d : M) (f : Q -> Q) : M :=
  set_md_state d (set_ms_queues (md_state d)
    (alter (fun c => set_vq_queue c (f (vq_queue c))) (Z.to_nat (ms_queue_select (md_state d))) (ms_queues (md_state d)))).

Lemma with_queue_mut_alter (s : S) f :
  with_queue_mut s f = set_ms_queues s (alter (fun c => set_vq_queue c (f (vq_queue c))) (Z.to_nat (ms_queue_select s)) (ms_queues s)).
Proof.
  unfold with_queue_mut. destruct (ms_queues s !! Z.to_nat (ms_queue_select s)) as [c|] eqn:Hc.
  - f_equal. apply list_eq. intros i. destruct (decide (i = Z.to_nat (ms_queue_select s))) as [->|Hne].
    + rewrite list_lookup_insert_eq by (by eapply lookup_lt_Some). by rewrite list_lookup_alter_eq, Hc.
    + by rewrite list_lookup_insert_ne, list_lookup_alter_ne by done.
  - assert (E : alter (fun c => set_vq_queue c (f (vq_queue c))) (Z.to_nat (ms_queue_select s)) (ms_queues s) = ms_queues s).
    { apply list_eq. intros i. destruct (decide (i = Z.to_nat (ms_queue_select s))) as [->|Hne];
        [by rewrite list_lookup_alter_eq, Hc|by rewrite list_lookup_alter_ne by done]. }
    rewrite E. by destruct s.
Qed.

(** The guards, at the stages there are. *)
Lemma guard_queues w (d : M) : mmio_ok w d ->
  check_driver_status d DEVICE_FEATURES_OK (Z.lor DEVICE_DRIVER_OK DEVICE_FAILED) = (md_driver_status d =? DEVICE_STATUS_FEATURE_OK).
Proof. intros [_ Hs _ _ _]. unfold check_driver_status. status_cases Hs; by rewrite Hs. Qed.

Lemma guard_features w (d : M) : mmio_ok w d ->
  check_driver_status d DEVICE_DRIVER (Z.lor DEVICE_FEATURES_OK DEVICE_FAILED) = (md_driver_status d =? DEVICE_STATUS_DRIVER).
Proof. intros [_ Hs _ _ _]. unfold check_driver_status. status_cases Hs; by rewrite Hs. Qed.

(** The stages at which the configuration space of the device is open. *)
Definition config_open (d : M) : bool :=
  bool_decide (md_driver_status d ∈ [DEVICE_STATUS_DRIVER; DEVICE_STATUS_FEATURE_OK; DEVICE_STATUS_DRIVER_OK]).

Lemma guard_config w (d : M) : mmio_ok w d -> check_driver_status d DEVICE_DRIVER DEVICE_FAILED = config_open d.
Proof. intros [_ Hs _ _ _]. unfold check_driver_status, config_open. status_cases Hs; by rewrite Hs. Qed.

Lemma write_queue_register w (d : M) offset v f :
  mmio_ok w d -> queue_register offset v = Some f ->
  write_register w d offset v = Ret (if md_driver_status d =? DEVICE_STATUS_FEATURE_OK then configured d f else d, w) /\
  (MMIO_CFG_SPACE_OFF <=? offset) = false.
Proof.
  intros Hok Hq.
  assert (Hf : forall g, update_queue_field d g = if md_driver_status d =? DEVICE_STATUS_FEATURE_OK then configured d g else d).
  { intros g. unfold update_queue_field, configured. rewrite (guard_queues w) by done. by rewrite with_queue_mut_alter. }
  unfold queue_register in Hq. repeat (case_hyp Hq; [bools; subst offset; injection Hq as <-; rewrite <- Hf; by split|]). done.
Qed.

(** C26. The stages of the configuration: a register of a queue changes exactly the
    selected queue, and only between FEATURES_OK and DRIVER_OK; features are
    acknowledged only between DRIVER and FEATURES_OK; the configuration space of the
    device is read and written only from DRIVER on; all of them only while the
    device has not FAILED.  At any other stage the access changes nothing. *)
Theorem configuration_stages w (d : M) :
  mmio_reach w d ->
  (forall offset data f, zlen data = 4 -> queue_register offset (of_le_bytes data) = Some f ->
     transport_write w d offset data = Ret (if md_driver_status d =? DEVICE_STATUS_FEATURE_OK then configured d f else d, w)) /\
  (forall data, zlen data = 4 ->
     transport_write w d REG_MMIO_DRIVER_FEATURE data =
       Ret (if md_driver_status d =? DEVICE_STATUS_DRIVER
            then set_md_state d (set_ms_device (md_state d) (set_acked_features (ms_device (md_state d))
                   (ms_acked_features_select (md_state d)) (of_le_bytes data)))
            else d, w)) /\
  (forall offset data, MMIO_CFG_SPACE_OFF <= offset < DRAGONBALL_MMIO_DOORBELL_OFFSET ->
     transport_write w d offset data =
       Ret (if config_open d
            then set_md_state d (set_ms_device (md_state d)
                   (write_config (ms_device (md_state d)) (offset - MMIO_CFG_SPACE_OFF) data).2)
            else d, w)) /\
  (forall offset data, MMIO_CFG_SPACE_OFF <= offset ->
     (transport_read d offset data) =
       Ret (if config_open d
            then let '(_, data, device) := read_config (ms_device (md_state d)) (offset - MMIO_CFG_SPACE_OFF) data in
                 (data, set_md_state d (set_ms_device (md_state d) device))
            else (data, d))).
Proof.
  intros Hr. destruct (mmio_reach_ok w d Hr) as [Hok _].
  split; [|split; [|split]].
  - intros offset data f Hl Hq. destruct (write_queue_register w d _ _ _ Hok Hq) as [Hw Ho]. unfold transport_write. by rewrite Ho, Hl, Hw.
  - intros data Hl. unfold transport_write, write_register, ack_features. rewrite Hl, <- (guard_features w) by done. done.
  - intros offset data Ho. unfold transport_write, set_device_config.
    rewrite (proj2 (Z.leb_le _ _)), (proj2 (Z.ltb_lt _ _)), (guard_config w) by (done || lia). done.
  - intros offset data Ho. unfold transport_read, get_device_config. rewrite Z.geb_leb, (proj2 (Z.leb_le _ _)), (guard_config w) by done. done.
Qed.
End Props.

Section Activation.
Context {W Q D : Type} `{MmioLaws W} `{Queue W Q} `{VirtioDevice W Q D} `{!VirtioDeviceLaws W Q D}.
Notation S := (MmioState Q D).
Notation M := (MmioDevice (Q := Q) (D := D)).

(** ** What the device is handed *)

(** All queues in order, the control queue last, each with the notifier of its own
    interrupt; interrupt 0 is for changes of the device. *)
Record handed_over (w : W) (g : Z) (s : S) (config : VirtioDeviceConfig Q) : Prop := {
  ho_queues : dc_queues config ++ option_list (dc_ctrl_queue config) =
    map (fun c => mkVirtioQueueConfig (vq_queue c) (vq_eventfd c) (create_queue_notifier w g (vq_index c + 1)) (vq_index c)) (ms_queues s);
  ho_ctrl : is_Some (dc_ctrl_queue config) <-> ms_has_ctrl_queue s = true /\ ms_queues s <> [];
  ho_notifier : dc_device_change_notifier config = create_device_notifier w g 0;
  ho_resources : dc_resources config = ms_resources s /\ dc_shm_regions config = ms_shm_regions s;
}.

Lemma removelast_last {A} (l : list A) : removelast l ++ option_list (last l) = l.
Proof.
  induction l as [|x l IH]; [done|]. destruct l as [|y l]; [done|].
  change (removelast (x :: y :: l)) with (x :: removelast (y :: l)). change (last (x :: y :: l)) with (last (y :: l)). cbn [app]. by rewrite IH.
Qed.

Lemma create_device_config_ok w (s : S) g :
  get_group (ms_intr_mgr s) = Ret (Some g) -> exists config, create_device_config w s = Ret config /\ handed_over w g s config.
Proof.
  intros Hg. unfold create_device_config, create_queue_config, intr_group. rewrite Hg. cbn [obind unwrap].
  destruct (ms_has_ctrl_queue s) eqn:Hc; eexists; (split; [reflexivity|]); constructor; cbn; try done.
  - apply removelast_last.
  - rewrite Hc. split; [intros Hs; split; [done|]|intros [_ Hne]]; [by intros E; rewrite E in Hs; destruct Hs|].
    apply last_is_Some. by destruct (ms_queues s).
  - apply app_nil_r.
  - rewrite Hc. split; [by intros [? ?]|by intros [? _]].
Qed.

(** The events of all queues. *)
Definition queue_events (s : S) : gset (Z * Z * Datamatch) := notify_events s 0 (ms_queues s) ∪ all_doorbells s 0 (ms_queues s).

Lemma enabled_events w d r d' w' : enabled w d = Ret (r, d', w') -> ioevents w' = ioevents w.
Proof.
  unfold enabled. cbv zeta. intros He.
  destruct (start_mode d); [by injection He as <- <- <-|..]; (destruct (mode_group d _) as [g|]; [|done]);
    match type of He with context [group_enable w g ?c] => pose proof (enable_events w g c) as Hev end;
    destruct (group_enable w g _) as [[[]|e] w1]; by injection He as <- <- <-.
Qed.

(** A device that was activated: what happened. *)
Record activated_from (w : W) (s : S) (w' : W) (s' : S) : Prop := {
  af_valid : check_queues_valid w s = true;
  af_device : exists g w1 config device,
    get_group (ms_intr_mgr s') = Ret (Some g) /\ handed_over w1 g s config /\
    device_activate w1 (ms_device s) config = Ret (Ok tt, device, w') /\ ms_device s' = device /\
    queue_events s ⊆ ioevents w1;
  af_events : queue_events s ⊆ ioevents w';
  af_queues : ms_queues s' = ms_queues s;
}.

Lemma active_group w d : dim_ok w d -> im_activated d = true -> exists g, get_group d = Ret (Some g).
Proof.
  intros Hd Ha. destruct (d_active _ _ Hd Ha) as [g Hg]. exists g.
  assert (Hm : im_mode d <> Disabled).
  { intros E. rewrite E in Hg. destruct (d_modes _ _ Hd Disabled) as (i & Hi & Hc). unfold mode_group in Hg. rewrite Hi in Hg.
    destruct Hc as [->|(_ & ? & _)]; [by rewrite Z.eqb_refl in Hg|done]. }
  pose proof (current_group w d Hd Hm) as Hcur. rewrite Hg in Hcur. unfold get_group. rewrite Ha, Hcur.
  by rewrite bool_decide_eq_false_2.
Qed.

Lemma mmio_activate_success w (s : S) s' w' :
  dim_ok w (ms_intr_mgr s) -> ms_device_activated s = false -> im_activated (ms_intr_mgr s) = false ->
  mmio_activate w s = Ret (Ok tt, s', w') -> activated_from w s w' s'.
Proof.
  intros Hd Hna Hni. unfold mmio_activate. rewrite Hna. destruct (check_queues_valid w s) eqn:Hv; [|done]. cbn [negb]. intros Ha.
  bind_inv Ha. destruct a as [[r1 s1] w1]. unfold register_ioevents in *. bind_inv Ha0. destruct a as [r0 w0].
  destruct r0 as [[]|e]; injection Ha0 as <- <- <-; [|done].
  pose proof (dim_ok_kept _ _ _ (register_each_groups _ _ _ _ _ _ Ha1) Hd) as Hd0. apply register_each_events in Ha1.
  assert (Hfs : ms_intr_mgr (set_ms_ioevent_registered s true) = ms_intr_mgr s) by (by destruct s). rewrite Hfs in Ha.
  bind_inv Ha. destruct a as [[r2 intr] w2]. rewrite DIM_enable_ok in Ha0 by done.
  pose proof (enabled_keeps _ _ _ _ _ Hd0 Hni Ha0) as Hd2. pose proof (enabled_active _ _ _ _ _ Hni Ha0) as Hac. apply enabled_events in Ha0.
  destruct r2 as [[]|e]; [|done]. destruct (active_group _ _ Hd2 Hac) as [g Hg].
  set (s2 := set_ms_intr_mgr (set_ms_ioevent_registered s true) intr) in *.
  assert (Hs2 : ms_intr_mgr s2 = intr /\ ms_device s2 = ms_device s) by (by destruct s). destruct Hs2 as [E2 E3].
  destruct (create_device_config_ok w2 s2 g ltac:(by rewrite E2)) as (config & Hc & Hh). rewrite Hc in Ha. cbn [obind] in Ha.
  bind_inv Ha. destruct a as [[r3 device] w3]. destruct r3 as [[]|e]; [|done]. injection Ha as <- <-. rewrite E3 in *.
  assert (Hev : queue_events s ⊆ ioevents w2) by (rewrite Ha0, Ha1; unfold queue_events; set_solver).
  pose proof (activate_events _ _ _ _ _ _ Ha2) as Hev2.
  constructor; [done| |by etrans|by destruct s].
  exists g, w2, config, device. split; [by destruct s|]. split; [by destruct s, Hh; constructor|]. split; [done|]. split; [by destruct s|done].
Qed.

Lemma write_status w (d : M) data : zlen data = 4 -> transport_write w d REG_MMIO_STATUS data = update_driver_status w d (of_le_bytes data).
Proof. intros Hl. unfold transport_write. by rewrite Hl. Qed.

Lemma update_driver_ok w (d : M) :
  update_driver_status w d DEVICE_STATUS_DRIVER_OK = (let! (ok, d, w) := driver_ok w d in Ret (settle ok d, w)).
Proof. done. Qed.

Lemma update_reset w (d : M) : update_driver_status w d 0 = (let! (ok, d, w) := driver_reset w d in Ret (settle ok d, w)).
Proof. done. Qed.

(** ** Reset *)

(** A queue as it was created. *)
Definition fresh_queue (c c' : VirtioQueueConfig Q) : Prop :=
  q_new (W := W) (q_max_size (W := W) (vq_queue c)) = Ok (vq_queue c') /\ vq_eventfd c' = vq_eventfd c /\ vq_index c' = vq_index c.

Lemma reset_queues_fresh (queues queues' : list (VirtioQueueConfig Q)) :
  reset_queues (W := W) queues = (None, queues') -> Forall2 fresh_queue queues queues'.
Proof.
  revert queues'. induction queues as [|c queues IH]; intros queues' Hr; cbn [reset_queues] in Hr; [injection Hr as <-; constructor|].
  destruct (q_new _) as [q|e] eqn:Hq; [|done]. destruct (reset_queues queues) as [r1 q1]. injection Hr as -> <-.
  constructor; [|by apply IH]. unfold fresh_queue. rewrite Hq. by destruct c.
Qed.

(** The state after a reset, from the state before it. *)
Record reset_from (s s' : S) : Prop := {
  rf_active : ms_device_activated s' = false /\ im_activated (ms_intr_mgr s') = false;
  rf_queues : Forall2 fresh_queue (ms_queues s) (ms_queues s');
  rf_selects : ms_features_select s' = 0 /\ ms_acked_features_select s' = 0 /\ ms_queue_select s' = 0;
  rf_rest : ms_msi s' = None /\ ms_doorbell s' = None;
}.

Lemma reset_done_events w d r d' w' : dim_ok w d -> reset_done w d = Ret (r, d', w') -> ioevents w' = ioevents w.
Proof.
  intros Hd. unfold reset_done. destruct (mode_group d (im_mode d)) as [g|]; [destruct (im_activated d)|]; try (by intros [= <- <- <-]).
  pose proof (disable_events w g) as Hev. destruct (group_disable w g) as [[[]|e] w1]; by intros [= <- <- <-].
Qed.

Lemma mmio_reset_success w (s : S) s' w' :
  dim_ok w (ms_intr_mgr s) -> ms_device_activated s = false -> ms_ioevent_registered s = true ->
  mmio_reset w s = Ret (Ok tt, s', w') -> reset_from s s' /\ ioevents w' = ioevents w ∖ notify_events s 0 (ms_queues s').
Proof.
  intros Hd Hna Hreg Hm. destruct (mmio_reset_ok _ _ _ _ _ Hd Hna Hm) as (_ & _ & Hna2 & Hni2). unfold mmio_reset in Hm. rewrite Hna in Hm.
  destruct (reset_queues (ms_queues s)) as [r1 q1] eqn:Hq. destruct r1; [done|]. cbv zeta in Hm. apply reset_queues_fresh in Hq.
  bind_inv Hm. destruct a as [[r2 intr] w2].
  assert (Hf : ms_intr_mgr (set_ms_queues s q1) = ms_intr_mgr s) by (by destruct s). rewrite Hf, DIM_reset_ok in Ha by done.
  apply reset_done_events in Ha; [|done]. bind_inv Hm. destruct a as [s3 w3]. unfold unregister_ioevents in Ha0. destruct s. cbn in Hreg, Ha0. rewrite Hreg in Ha0.
  bind_inv Ha0. apply add_u_Ret in Ha1. subst a. injection Ha0 as <- <-.
  match goal with |- reset_from ?s0 _ /\ _ => set (s := s0) end.
  assert (Hev := unregister_each_events w2 s 0 q1). change (Z.of_nat 0) with 0 in Hev.
  injection Hm as <- <-. split.
  - constructor; try done; by case_match.
  - case_match; cbn in *; by rewrite Hev, Ha.
Qed.

Lemma notify_events_same (s s' : S) i queues queues' :
  ms_mmio_base s' = ms_mmio_base s -> Forall2 fresh_queue queues queues' -> notify_events s' i queues' = notify_events s i queues.
Proof.
  intros Hb Hq. revert i. induction Hq as [|c c' queues queues' (_ & Hfd & _) _ IH]; intros i; cbn [notify_events]; [done|].
  by rewrite IH; unfold notify_event; rewrite Hb, Hfd.
Qed.

(** Reset: when the driver of an active device writes 0 to the status, either
    the device is back at the first stage, as it was created - not active, interrupts
    off, all queues fresh, no selectors, no MSI - and the events of the notification
    register are gone; or the status is FAILED.  All other ioevents stay, the
    doorbells of the device among them. *)
Theorem device_reset_correct w (d : M) data d' w' :
  mmio_reach w d -> md_driver_status d = DEVICE_STATUS_DRIVER_OK ->
  zlen data = 4 -> of_le_bytes data = 0 -> transport_write w d REG_MMIO_STATUS data = Ret (d', w') ->
  md_driver_status d' = DEVICE_STATUS_INIT /\ reset_from (md_state d) (md_state d') /\
    ioevents w' ## notify_events (md_state d) 0 (ms_queues (md_state d)) /\
    ioevents w ∖ notify_events (md_state d) 0 (ms_queues (md_state d)) ⊆ ioevents w' \/
  md_driver_status d' = Z.lor DEVICE_STATUS_DRIVER_OK DEVICE_FAILED.
Proof.
  intros Hr Hst Hl Hv. destruct (mmio_reach_ok w d Hr) as [Hok _]. rewrite write_status, Hv, update_reset by done. intros Hw.
  bind_inv Hw. destruct a as [[ok d1] w1]. injection Hw as <- <-. pose proof (mo_running _ _ Hok Hst) as Hact.
  destruct (mo_active _ _ Hok Hact) as (_ & _ & Hreg). unfold driver_reset in Ha. rewrite Hst, Hact in Ha.
  change (DEVICE_STATUS_DRIVER_OK =? DEVICE_INIT) with false in Ha. cbn [obind] in Ha.
  bind_inv Ha. destruct a as [[r device] w2]. pose proof (reset_events _ _ _ _ _ Ha0) as Hev0. apply reset_groups in Ha0. pose proof (mmio_ok_kept _ _ _ Ha0 Hok) as Hok2.
  destruct r as [[]|e].
  2:{ injection Ha as <- <- <-. right. cbn [settle]. destruct (failed_fields (set_md_state d (set_ms_device (md_state d) device))) as [_ ->].
      destruct (set_md_state_fields d (set_ms_device (md_state d) device)) as [_ ->]. by rewrite Hst. }
  set (s0 := deactivate (set_ms_device (md_state d) device)) in *.
  assert (Hs0 : ms_intr_mgr s0 = ms_intr_mgr (md_state d) /\ ms_device_activated s0 = false /\ ms_ioevent_registered s0 = true /\
    ms_queues s0 = ms_queues (md_state d) /\ ms_mmio_base s0 = ms_mmio_base (md_state d)).
  { unfold s0, deactivate. destruct (md_state d). cbn in *. by rewrite Hact. }
  clearbody s0. destruct Hs0 as (E1 & E2 & E3 & E4 & E5). bind_inv Ha. destruct a as [[r s] w3].
  destruct (set_md_state_fields d s) as [Es Et]. destruct r as [[]|e].
  2:{ injection Ha as <- <- <-. right. cbn [settle]. destruct (failed_fields (set_md_state d s)) as [_ ->]. by rewrite Et, Hst. }
  destruct (mmio_reset_success _ _ _ _ ltac:(rewrite E1; apply Hok2) E2 E3 Ha1) as (Hrf & Hev).
  unfold exchange_driver_status in Ha. rewrite Et, Hst, Z.eqb_refl in Ha. injection Ha as <- <- <-. left. cbn [settle].
  destruct (set_status_fields (set_md_state d s) DEVICE_STATUS_INIT) as [-> ->]. rewrite Es. split; [done|].
  assert (Hn : notify_events s0 0 (ms_queues s) = notify_events (md_state d) 0 (ms_queues (md_state d))).
  { apply notify_events_same; [done|]. rewrite <- E4. apply Hrf. }
  rewrite Hn in Hev. split; [destruct Hrf; constructor; rewrite ?E4 in *; done|]. rewrite Hev. set_solver.
Qed.
End Activation.

(** A device whose own operations do not panic. *)
Class VirtioDeviceTotal (W Q D : Type) `{VirtioDevice W Q D} : Prop := {
  activate_total w d c : device_activate w d c <> Panic;
  reset_total w d : device_reset w d <> Panic;
}.

Lemma obind_panic {A B} (m : outcome A) (f : A -> outcome B) : obind m f = Panic -> m = Panic \/ exists a, m = Ret a /\ f a = Panic.
Proof. destruct m as [a|]; [by right; exists a|by left]. Qed.

Section Panics.
Context {W Q D : Type} `{MmioLaws W} `{Queue W Q} `{VirtioDevice W Q D} `{!VirtioDeviceLaws W Q D} `{!VirtioDeviceTotal W Q D}.
Notation S := (MmioState Q D).
Notation M := (MmioDevice (Q := Q) (D := D)).

(** ** Addresses *)

Lemma notify_addr (s : S) : layout_ok s -> add_u u64_max (ms_mmio_base s) MMIO_NOTIFY_REG_OFFSET = Ret (ms_mmio_base s + MMIO_NOTIFY_REG_OFFSET).
Proof.
  intros (Hb & Hm & _). unfold MMIO_DEFAULT_CFG_SIZE, DRAGONBALL_MMIO_DOORBELL_SIZE, MMIO_NOTIFY_REG_OFFSET in *. apply add_u_ret. ulia.
Qed.

Lemma doorbell_addr (s : S) db i :
  layout_ok s -> ms_doorbell s = Some db -> 0 <= i < Z.of_nat (length (ms_queues s)) ->
  add_u u64_max (ms_mmio_base s) (queue_offset db i) = Ret (ms_mmio_base s + queue_offset db i).
Proof.
  intros (Hb & Hm & Hl & Hdb) E Hi. rewrite E in Hdb. destruct Hdb as [[= ->]|]; [|done].
  unfold MMIO_DEFAULT_CFG_SIZE, DRAGONBALL_MMIO_DOORBELL_SIZE, MAX_QUEUES, queue_offset, doorbell_default in *. cbn [db_offset db_scale].
  unfold DRAGONBALL_MMIO_DOORBELL_OFFSET, DRAGONBALL_MMIO_DOORBELL_SCALE. apply add_u_ret. ulia.
Qed.

(** ** Events *)

Lemma revert_loop_total w (queues : list (VirtioQueueConfig Q)) idx io_addr wild :
  (idx <= length queues)%nat -> revert_loop w queues idx io_addr wild <> Panic.
Proof.
  revert w. induction idx as [|j IH]; intros w Hi; cbn [revert_loop]; [done|].
  destruct (lookup_lt_is_Some_2 queues j) as [c ->]; [lia|]. cbn [unwrap obind]. destruct (unregister_ioevent w _ _ _). apply IH. lia.
Qed.

Lemma revert_total w (s : S) i io_addr wild : (i < length (ms_queues s))%nat -> revert_ioevent w s i io_addr wild <> Panic.
Proof. intros Hi. unfold revert_ioevent. rewrite (proj2 (Nat.ltb_lt _ _)) by done. apply revert_loop_total. lia. Qed.

Lemma unregister_doorbells_total w (s : S) db i (queues : list (VirtioQueueConfig Q)) :
  layout_ok s -> ms_doorbell s = Some db -> 0 <= i -> i + Z.of_nat (length queues) <= Z.of_nat (length (ms_queues s)) ->
  unregister_doorbells w (ms_mmio_base s) db i queues <> Panic.
Proof.
  intros Hly Hdb. revert w i. induction queues as [|c queues IH]; intros w i Hi Hl; cbn [unregister_doorbells length] in *; [done|].
  rewrite (doorbell_addr s) by (done || lia). cbn [obind]. destruct (unregister_ioevent w _ _ _). apply IH; lia.
Qed.

Lemma register_doorbell_total w (s : S) i c : layout_ok s -> (i < length (ms_queues s))%nat -> register_doorbell w s i c <> Panic.
Proof.
  intros Hly Hi. unfold register_doorbell. destruct (ms_doorbell s) as [db|] eqn:Hdb; [|done].
  rewrite (doorbell_addr s) by (done || lia). cbn [obind]. destruct (register_ioevent w _ _ _) as [[[]|e] w1]; [done|].
  intros Hp. apply obind_panic in Hp as [Hp|(w2 & _ & Hp)]; [by eapply revert_total|done].
Qed.

Lemma register_notify_total w (s : S) i c : layout_ok s -> (i < length (ms_queues s))%nat -> register_notify w s i c <> Panic.
Proof.
  intros Hly Hi. unfold register_notify. rewrite notify_addr by done. cbn [obind]. destruct (register_ioevent w _ _ _) as [[[]|e] w1]; [done|].
  intros Hp. apply obind_panic in Hp as [Hp|(w2 & _ & Hp)].
  - unfold unregister_ioevent_doorbell in Hp. destruct (ms_doorbell s) as [db|] eqn:Hdb; [|done].
    eapply unregister_doorbells_total; [exact Hly|exact Hdb| | |exact Hp]; lia.
  - apply obind_panic in Hp as [Hp|(w3 & _ & Hp)]; [by eapply revert_total|done].
Qed.

Lemma register_each_total w (s : S) i queues :
  layout_ok s -> (i + length queues <= length (ms_queues s))%nat -> register_each w s i queues <> Panic.
Proof.
  intros Hly. revert w i. induction queues as [|c queues IH]; intros w i Hl Hp; cbn [register_each length] in *; [done|].
  apply obind_panic in Hp as [Hp|([r w1] & _ & Hp)]; [eapply register_doorbell_total; [exact Hly| |exact Hp]; lia|].
  destruct r; [|done]. apply obind_panic in Hp as [Hp|([r2 w2] & _ & Hp)]; [eapply register_notify_total; [exact Hly| |exact Hp]; lia|].
  destruct r2; [|done]. eapply IH; [|exact Hp]. lia.
Qed.

(** ** Activation and reset *)

Lemma mmio_reset_total w (s : S) : dim_ok w (ms_intr_mgr s) -> layout_ok s -> mmio_reset w s <> Panic.
Proof.
  intros Hd Hly. unfold mmio_reset. destruct (ms_device_activated s); [done|]. destruct (reset_queues (ms_queues s)) as [[e|] q1]; [done|]. cbv zeta.
  assert (Hf : ms_intr_mgr (set_ms_queues s q1) = ms_intr_mgr s) by (by destruct s). rewrite Hf, DIM_reset_ok by done.
  intros Hp. apply obind_panic in Hp as [Hp|([[r intr] w2] & _ & Hp)].
  { unfold reset_done in Hp. destruct (mode_group _ _) as [g|]; [|done]. case_hyp Hp; [|done]. by destruct (group_disable w g) as [[[]|] ?]. }
  apply obind_panic in Hp as [Hp|([s3 w3] & _ & Hp)]; [|done]. unfold unregister_ioevents in Hp. case_hyp Hp; [|done].
  assert (Hb : ms_mmio_base (set_ms_intr_mgr (set_ms_queues s q1) intr) = ms_mmio_base s) by (by destruct s).
  by rewrite Hb, notify_addr in Hp.
Qed.

(** A mode that was selected although the device has no interrupts for it. *)
Definition no_interrupts (d : DeviceInterruptManager) : Prop := im_mode d <> Disabled /\ mode_group d (im_mode d) = None.

Lemma enabled_total w d : enabled w d = Panic -> no_interrupts d.
Proof.
  unfold enabled, no_interrupts, start_mode. cbv zeta. intros He. split; [intros E|]; destruct (im_mode d); try done;
    repeat (match type of He with context [mode_group d ?m] => destruct (mode_group d m) as [g|] eqn:? end; try done);
    by destruct (group_enable w g _) as [[[]|] ?].
Qed.

(** The attempt came to where the interrupts are enabled, and to where the device
    itself is called. *)
Definition events_ready (w : W) (s : S) (s1 : S) (w1 : W) : Prop :=
  check_queues_valid w s = true /\ register_ioevents w s = Ret (Ok tt, s1, w1).

Definition device_called (w : W) (s : S) (config : VirtioDeviceConfig Q) (w2 : W) : Prop :=
  exists s1 w1 intr g, events_ready w s s1 w1 /\ enabled w1 (ms_intr_mgr s) = Ret (Ok tt, intr, w2) /\
    create_device_config w2 (set_ms_intr_mgr s1 intr) = Ret config /\
    get_group intr = Ret (Some g) /\ handed_over w2 g s config.

(** The attempt panics: a mode was selected that the device has no interrupts for,
    or the device itself panics. *)
Definition activation_panics (w : W) (s : S) : Prop :=
  (exists s1 w1, events_ready w s s1 w1 /\ no_interrupts (ms_intr_mgr s)) \/
  (exists config w2, device_called w s config w2 /\ device_activate w2 (ms_device s) config = Panic).

(** The attempt fails: a queue is not valid, an event cannot be registered, interrupts cannot be
    enabled, or the device itself fails. *)
Definition activation_fails (w : W) (s : S) : Prop :=
  check_queues_valid w s = false \/
  (exists e s1 w1, register_ioevents w s = Ret (Err e, s1, w1)) \/
  (exists s1 w1 e intr w2, events_ready w s s1 w1 /\ enabled w1 (ms_intr_mgr s) = Ret (Err e, intr, w2)) \/
  (exists config w2 e device w3, device_called w s config w2 /\ device_activate w2 (ms_device s) config = Ret (Err e, device, w3)).

Lemma register_ioevents_success w (s : S) s1 w1 :
  dim_ok w (ms_intr_mgr s) -> register_ioevents w s = Ret (Ok tt, s1, w1) ->
  s1 = set_ms_ioevent_registered s true /\ dim_ok w1 (ms_intr_mgr s).
Proof.
  intros Hd Hr. unfold register_ioevents in Hr. bind_inv Hr. destruct a as [[[]|e] w0]; [|done]. injection Hr as <- <-.
  split; [done|]. eapply dim_ok_kept; [by eapply register_each_groups|done].
Qed.

Lemma mmio_activate_cases w (s : S) :
  dim_ok w (ms_intr_mgr s) -> ms_device_activated s = false -> im_activated (ms_intr_mgr s) = false -> layout_ok s ->
  match mmio_activate w s with
  | Panic => activation_panics w s
  | Ret (Ok _, s', w') => activated_from w s w' s'
  | Ret (Err _, _, _) => activation_fails w s
  end.
Proof.
  intros Hd Hna Hni Hly. destruct (mmio_activate w s) as [[[[[]|e0] s'] w']|] eqn:Ha; [by apply mmio_activate_success|..].
  all: unfold mmio_activate in Ha; rewrite Hna in Ha; destruct (check_queues_valid w s) eqn:Hv; cbn [negb] in Ha; [|try done; by left].
  all: destruct (register_ioevents w s) as [[[r1 s1] w1]|] eqn:Hr; cbn [obind] in Ha; try done.
  3:{ exfalso. unfold register_ioevents in Hr. apply obind_panic in Hr as [Hp|([r w1] & _ & Hp)]; [|by destruct r].
      eapply register_each_total; [exact Hly| |exact Hp]. lia. }
  all: destruct r1 as [[]|e1]; [|try done; right; left; by eauto].
  all: assert (Hs1 : s1 = set_ms_ioevent_registered s true /\ dim_ok w1 (ms_intr_mgr s))
    by (by eapply register_ioevents_success).
  all: destruct Hs1 as [-> Hd1]; assert (Hfs : ms_intr_mgr (set_ms_ioevent_registered s true) = ms_intr_mgr s) by (by destruct s).
  all: rewrite Hfs, DIM_enable_ok in Ha by done.
  all: destruct (enabled w1 (ms_intr_mgr s)) as [[[r2 intr] w2]|] eqn:He; cbn [obind] in Ha; try done.
  3:{ left. do 2 eexists. split; [by split|]. by eapply enabled_total. }
  all: pose proof (enabled_keeps _ _ _ _ _ Hd1 Hni He) as Hd2; pose proof (enabled_active _ _ _ _ _ Hni He) as Hac.
  all: destruct r2 as [[]|e2]; [|try done; right; right; left; do 5 eexists; by split].
  all: destruct (active_group _ _ Hd2 Hac) as [g Hg]; set (s2 := set_ms_intr_mgr (set_ms_ioevent_registered s true) intr) in *.
  all: assert (Hs2 : ms_intr_mgr s2 = intr /\ ms_device s2 = ms_device s) by (by destruct s); destruct Hs2 as [E2 E3].
  all: destruct (create_device_config_ok w2 s2 g ltac:(by rewrite E2)) as (config & Hc & Hh); rewrite Hc, E3 in Ha; cbn [obind] in Ha.
  all: assert (Hcall : device_called w s config w2)
    by (do 4 eexists; split; [by split|]; split; [done|]; split; [done|]; split; [done|]; by destruct s, Hh; constructor).
  all: destruct (device_activate w2 (ms_device s) config) as [[[r3 device] w3]|] eqn:Hda; cbn [obind] in Ha; try done.
  - destruct r3 as [[]|e3]; [done|]. do 3 right. by do 5 eexists.
  - by destruct r3.
  - right. by do 2 eexists.
Qed.

(** Conversely. *)
Lemma enabled_no_interrupts w d : no_interrupts d -> enabled w d = Panic.
Proof. intros [Hm Hg]. unfold enabled, start_mode. cbv zeta. destruct (im_mode d); [done|..]; by rewrite Hg. Qed.

Lemma mmio_activate_panics w (s : S) :
  dim_ok w (ms_intr_mgr s) -> ms_device_activated s = false -> im_activated (ms_intr_mgr s) = false ->
  activation_panics w s -> mmio_activate w s = Panic.
Proof.
  intros Hd Hna Hni Hp.
  assert (Hev : forall s1 w1, events_ready w s s1 w1 -> mmio_activate w s =
    (let! (r, intr, w2) := enabled w1 (ms_intr_mgr s) in
     let s2 := set_ms_intr_mgr s1 intr in
     match r with
     | Err e => Ret (Err (IOError e), s2, w2)
     | Ok _ =>
         let! config := create_device_config w2 s2 in
         let! (r, device, w3) := device_activate w2 (ms_device s2) config in
         match r with
         | Err e => Ret (Err (DeviceActivateError e), set_ms_device s2 device, w3)
         | Ok _ => Ret (Ok tt, set_ms_device_activated (set_ms_device s2 device) true, w3)
         end
     end) /\ ms_device s1 = ms_device s).
  { intros s1 w1 [Hv Hr]. unfold mmio_activate. rewrite Hna, Hv, Hr. cbn [negb obind].
    destruct (register_ioevents_success _ _ _ _ Hd Hr) as [-> Hd1].
    assert (Hfs : ms_intr_mgr (set_ms_ioevent_registered s true) = ms_intr_mgr s) by (by destruct s).
    rewrite Hfs, DIM_enable_ok by done. split; [done|by destruct s]. }
  destruct Hp as [(s1 & w1 & He & Hn)|(config & w2 & (s1 & w1 & intr & g & He & Hen & Hc & _) & Ha)].
  - destruct (Hev _ _ He) as [-> _]. by rewrite enabled_no_interrupts.
  - destruct (Hev _ _ He) as [-> Hdv]. rewrite Hen. cbn [obind]. rewrite Hc. cbn [obind].
    replace (ms_device (set_ms_intr_mgr s1 intr)) with (ms_device s1) by (by destruct s1). by rewrite Hdv, Ha.
Qed.

Lemma mmio_activate_total w (s : S) :
  dim_ok w (ms_intr_mgr s) -> ms_device_activated s = false -> im_activated (ms_intr_mgr s) = false -> layout_ok s ->
  mmio_activate w s = Panic -> no_interrupts (ms_intr_mgr s).
Proof.
  intros Hd Hna Hni Hly Hp. pose proof (mmio_activate_cases w s Hd Hna Hni Hly) as Hc. rewrite Hp in Hc.
  destruct Hc as [(_ & _ & _ & Hn)|(config & w2 & _ & Ha)]; [done|]. by destruct (activate_total w2 (ms_device s) config).
Qed.

Lemma driver_ok_total w (d : M) :
  mmio_ok w d -> layout_ok (md_state d) -> driver_ok w d = Panic ->
  md_driver_status d = DEVICE_STATUS_FEATURE_OK /\ no_interrupts (ms_intr_mgr (md_state d)).
Proof.
  intros Hok Hly. unfold driver_ok, exchange_driver_status. destruct (Z.eqb_spec (md_driver_status d) DEVICE_STATUS_FEATURE_OK) as [E|]; [|done].
  destruct (set_status_fields d DEVICE_STATUS_DRIVER_OK) as [-> _]. intros Hp. split; [done|].
  pose proof (not_active w d Hok ltac:(by rewrite E)) as Hna. pose proof (mo_idle _ _ Hok ltac:(by rewrite E)) as Hni.
  apply obind_panic in Hp as [Hp|([[r s] w2] & Ha & Hp)]; [eapply mmio_activate_total; [apply Hok|done|done|done|exact Hp]|].
  destruct (mmio_activate_ok _ _ _ _ _ (mo_dim _ _ Hok) Hna Hni Ha) as (Hdim & Hsh & _). destruct r as [[]|e]; [done|].
  apply obind_panic in Hp as [Hp|([[r2 s2] w3] & _ & Hp)]; [|done]. exfalso. by eapply (mmio_reset_total w2 s Hdim (layout_shape _ _ Hsh Hly)).
Qed.

(** C14. Activation: when the driver sets DRIVER_OK after FEATURES_OK, one of three things
    happens.  The device is active: all queues were valid, it was handed every
    queue in order with the notifier of its own interrupt, interrupts are enabled
    and the queue events are registered.  Or the status is FAILED and the device is
    not active: a queue was not valid, an event could not be registered, the
    interrupts could not be enabled, or the device refused.  Or the write panics:
    exactly when, with valid queues and all events registered, the driver has selected an
    interrupt mode that the device has no interrupts for, or the device's own
    activation panics. *)
Theorem device_activation w (d : M) data :
  mmio_reach w d -> md_driver_status d = DEVICE_STATUS_FEATURE_OK ->
  zlen data = 4 -> of_le_bytes data = DEVICE_STATUS_DRIVER_OK ->
  (transport_write w d REG_MMIO_STATUS data = Panic <-> activation_panics w (md_state d)) /\
  forall d' w', transport_write w d REG_MMIO_STATUS data = Ret (d', w') ->
    md_driver_status d' = DEVICE_STATUS_DRIVER_OK /\ ms_device_activated (md_state d') = true /\
      activated_from w (md_state d) w' (md_state d') \/
    md_driver_status d' = Z.lor DEVICE_STATUS_DRIVER_OK DEVICE_FAILED /\ ms_device_activated (md_state d') = false /\
      activation_fails w (md_state d).
Proof.
  intros Hr Hst Hl Hv. destruct (mmio_reach_ok w d Hr) as [Hok Hly]. rewrite write_status, Hv, update_driver_ok by done.
  pose proof (not_active w d Hok ltac:(by rewrite Hst)) as Hna. pose proof (mo_idle _ _ Hok ltac:(by rewrite Hst)) as Hni.
  unfold driver_ok, exchange_driver_status. rewrite Hst, Z.eqb_refl.
  destruct (set_status_fields d DEVICE_STATUS_DRIVER_OK) as [Es Et]. generalize dependent (set_md_driver_status d DEVICE_STATUS_DRIVER_OK).
  intros d0 Es Et. rewrite Es. pose proof (mmio_activate_cases w (md_state d) (mo_dim _ _ Hok) Hna Hni Hly) as Hc.
  pose proof (mmio_activate_panics w (md_state d) (mo_dim _ _ Hok) Hna Hni) as Hp.
  destruct (mmio_activate w (md_state d)) as [[[r s] w2]|] eqn:Ha; cbn [obind]; [|by split].
  destruct (mmio_activate_ok _ _ _ _ _ (mo_dim _ _ Hok) Hna Hni Ha) as (Hdim & Hsh & Hr1). destruct r as [[]|e]; cbn [obind].
  - split; [split; [done|intros Hx; by specialize (Hp Hx)]|]. intros d' w' [= <- <-]. left. cbn [settle].
    destruct (set_md_state_fields d0 s) as [-> ->]. split; [done|]. split; [apply Hr1|done].
  - destruct (mmio_reset w2 s) as [[[r2 s2] w3]|] eqn:Hre; cbn [obind]; [|by destruct (mmio_reset_total w2 s Hdim (layout_shape _ _ Hsh Hly))].
    split; [split; [done|intros Hx; by specialize (Hp Hx)]|]. intros d' w' [= <- <-]. right. cbn [settle].
    destruct (mmio_reset_ok _ _ _ _ _ Hdim Hr1 Hre) as (_ & _ & Hna2 & _).
    destruct (failed_fields (set_md_state d0 s2)) as [-> ->]. destruct (set_md_state_fields d0 s2) as [-> ->]. by rewrite Et.
Qed.

Lemma driver_reset_total w (d : M) : mmio_ok w d -> layout_ok (md_state d) -> driver_reset w d <> Panic.
Proof.
  intros Hok Hly. unfold driver_reset. case_match; [done|]. destruct (ms_device_activated (md_state d)) eqn:Hact; [|done].
  intros Hp. apply obind_panic in Hp as [Hp|([[r device] w2] & Ha & Hp)]; [by eapply reset_total|]. apply reset_groups in Ha.
  destruct r as [[]|e]; [|done]. apply obind_panic in Hp as [Hp|([[r s] w3] & _ & Hp)]; [|destruct r; [by destruct (exchange_driver_status (set_md_state d s) _ _)|done]].
  assert (Hs0 : ms_intr_mgr (deactivate (set_ms_device (md_state d) device)) = ms_intr_mgr (md_state d) /\
    shape (md_state d) (deactivate (set_ms_device (md_state d) device))).
  { unfold deactivate, shape. destruct (md_state d). cbn in *. rewrite Hact. cbn. tauto. }
  destruct Hs0 as (E1 & Hsh). eapply mmio_reset_total; [| |exact Hp]; [rewrite E1; eapply dim_ok_kept; [exact Ha|apply Hok]|by eapply layout_shape].
Qed.

Lemma update_driver_status_total w (d : M) v :
  mmio_ok w d -> layout_ok (md_state d) -> update_driver_status w d v = Panic ->
  v = DEVICE_STATUS_DRIVER_OK /\ md_driver_status d = DEVICE_STATUS_FEATURE_OK /\ no_interrupts (ms_intr_mgr (md_state d)).
Proof.
  intros Hok Hly Hp. unfold update_driver_status in Hp. apply obind_panic in Hp as [Hp|([[ok d1] w1] & _ & Hp)]; [|done].
  unfold exchange_driver_status in Hp. do 3 (case_hyp Hp; [by case_hyp Hp|]).
  case_hyp Hp; [bools; split; [done|]; by eapply driver_ok_total|].
  case_hyp Hp; [exfalso; by eapply driver_reset_total|]. case_hyp Hp; [done|]. by case_hyp Hp.
Qed.

(** ** MSI *)

Lemma update_msi_enable_total w (d : M) v : mmio_ok w d -> update_msi_enable d v <> Panic.
Proof.
  intros Hok. pose proof (mo_dim _ _ Hok) as Hd. unfold update_msi_enable. case_match; [done|]. cbv zeta.
  destruct (negb (Z.land v MMIO_MSI_CSR_ENABLED =? 0)), (ms_msi (md_state d)); try done;
    rewrite (set_working_mode_ok w) by done; cbn [obind]; by destruct (mode_change_allowed _ _).
Qed.

Lemma set_message_dim w (s : S) index f : dim_ok w (ms_intr_mgr s) -> 0 <= index -> dim_ok w (ms_intr_mgr (set_message s (fun i => update_msi i index f)).2).
Proof. intros Hd Hi. apply (set_message_ok w s index f Hd Hi). Qed.

Lemma update_msi_cfg_total w (s : S) v : dim_ok w (ms_intr_mgr s) -> 0 <= v -> update_msi_cfg w s v <> Panic.
Proof.
  intros Hd Hv. unfold update_msi_cfg. destruct (ms_msi s) as [msi|]; [|done]. cbv zeta. cbn [index_select address_low address_high m_data].
  set (s0 := set_ms_msi s _). assert (Hd0 : dim_ok w (ms_intr_mgr s0)) by (by destruct s). clearbody s0.
  unfold set_msi_low_address, set_msi_high_address, set_msi_data.
  match goal with |- context [set_message s0 (fun i => update_msi i v ?f)] => pose proof (set_message_dim w s0 v f Hd0 Hv) as Hd1 end.
  destruct (set_message s0 _) as [[[]|e] s1]; [|done]. cbn [snd] in Hd1.
  match goal with |- context [set_message s1 (fun i => update_msi i v ?f)] => pose proof (set_message_dim w s1 v f Hd1 Hv) as Hd2 end.
  destruct (set_message s1 _) as [[[]|e] s2]; [|done]. cbn [snd] in Hd2.
  match goal with |- context [set_message s2 (fun i => update_msi i v ?f)] => pose proof (set_message_dim w s2 v f Hd2 Hv) as Hd3 end.
  destruct (set_message s2 _) as [[[]|e] s3]; [|done]. cbn [snd] in Hd3.
  destruct (is_enabled _); [|done]. rewrite DIM_update_ok by done. cbn [obind]. by destruct (update_done _ _ _).
Qed.

Lemma mask_msi_int_total w (s : S) index mask : dim_ok w (ms_intr_mgr s) -> mask_msi_int w s index mask <> Panic.
Proof.
  intros Hd. unfold mask_msi_int, is_enabled. destruct (im_activated (ms_intr_mgr s)) eqn:Ha; [|done]. cbn [negb].
  destruct (active_group w _ Hd Ha) as [g ->]. cbn [obind]. destruct (get_msi_mask _ _); [|done]. by repeat case_match.
Qed.

Lemma handle_msi_cmd_total w (d : M) v : mmio_ok w d -> handle_msi_cmd w d v <> Panic.
Proof.
  intros Hok Hp. pose proof (mo_dim _ _ Hok) as Hd. unfold handle_msi_cmd in Hp.
  assert (Hv : 0 <= Z.land v MMIO_MSI_CMD_ARG_MASK) by (apply Z.land_nonneg; by right).
  case_hyp Hp; [case_hyp Hp; [done|]|case_hyp Hp; [|case_hyp Hp; [|done]]];
    (apply obind_panic in Hp as [Hp|([[r s] w1] & _ & Hp)]; [|done]);
    first [by eapply update_msi_cfg_total|by eapply mask_msi_int_total].
Qed.

(** No write of the guest makes the transport panic, but one: setting DRIVER_OK
    after FEATURES_OK, when an interrupt mode was selected for which the device has
    no interrupts. *)
Theorem transport_write_panics w (d : M) offset data :
  mmio_reach w d -> transport_write w d offset data = Panic ->
  offset = REG_MMIO_STATUS /\ zlen data = 4 /\ of_le_bytes data = DEVICE_STATUS_DRIVER_OK /\
  md_driver_status d = DEVICE_STATUS_FEATURE_OK /\ no_interrupts (ms_intr_mgr (md_state d)).
Proof.
  intros Hr Hp. destruct (mmio_reach_ok w d Hr) as [Hok Hly]. unfold transport_write in Hp.
  case_hyp Hp; [done|]. case_hyp Hp.
  - bools. unfold write_register in Hp. do 7 (case_hyp Hp; [done|]). case_hyp Hp; [|by repeat (case_hyp Hp; [done|])].
    bools. split; [done|]. split; [done|]. by apply update_driver_status_total with w.
  - case_hyp Hp; [|done]. case_hyp Hp.
    + apply obind_panic in Hp as [Hp|(d1 & _ & Hp)]; [|done]. exfalso. by eapply update_msi_enable_total.
    + case_hyp Hp; [|done]. exfalso. by eapply handle_msi_cmd_total.
Qed.
End Panics.
