(* ===== verification/MmioMsi.v ===== *)
(** MSI interrupts set up by the guest through the registers of the transport, down
    to the routes of KVM. *)

From S2P Require Import Prelude Resources Interrupt InterruptSpec KvmIrq KvmIrqSpec VsockStream VsockPacket VirtioDevice Mmio MmioSpec MmioProps.

(** ** The command *)

Definition command_ok (i : Z) : bool :=
  (Z.land (MMIO_MSI_CMD_CODE_UPDATE + i) MMIO_MSI_CMD_ARG_MASK =? i) &&
  (Z.land (MMIO_MSI_CMD_CODE_UPDATE + i) MMIO_MSI_CMD_CODE_MASK =? MMIO_MSI_CMD_CODE_UPDATE).

Lemma command_all : forallb command_ok (seqZ 0 4096) = true.
Proof. by vm_compute. Qed.

Lemma command_fields i : 0 <= i < 4096 ->
  Z.land (MMIO_MSI_CMD_CODE_UPDATE + i) MMIO_MSI_CMD_ARG_MASK = i /\
  Z.land (MMIO_MSI_CMD_CODE_UPDATE + i) MMIO_MSI_CMD_CODE_MASK = MMIO_MSI_CMD_CODE_UPDATE.
Proof.
  intros Hi. pose proof command_all as Ha. rewrite forallb_forall in Ha. specialize (Ha i).
  rewrite <- list_elem_of_In, elem_of_seqZ in Ha. specialize (Ha ltac:(lia)). unfold command_ok in Ha. bools. done.
Qed.

(** The message of the three registers, with the mask and the device as they were. *)
Definition new_message (c : MsiIrqSourceConfig) (lo hi x : Z) : MsiIrqSourceConfig :=
  mkMsiIrqSourceConfig hi lo x (msg_ctl c) (device_id c).

Lemma update_msi_at d index c f :
  im_msi_config d !! Z.to_nat index = Some (MsiIrqConfig c) ->
  update_msi d index f = (Ok tt, set_im_msi_config d (<[Z.to_nat index := MsiIrqConfig (f c)]> (im_msi_config d))).
Proof. intros E. unfold update_msi. by rewrite E. Qed.

(** The three steps of [update_msi_cfg], one after the other. *)
Lemma update_msi_three d index c lo hi x :
  im_msi_config d !! Z.to_nat index = Some (MsiIrqConfig c) ->
  let d1 := (set_msi_low_address d index lo).2 in
  let d2 := (set_msi_high_address d1 index hi).2 in
  set_msi_low_address d index lo = (Ok tt, d1) /\ set_msi_high_address d1 index hi = (Ok tt, d2) /\
  set_msi_data d2 index x = (Ok tt, set_im_msi_config d (<[Z.to_nat index := MsiIrqConfig (new_message c lo hi x)]> (im_msi_config d))).
Proof.
  intros E. assert (Hlt := lookup_lt_Some _ _ _ E). destruct d as [a b cc e f cfg h]. cbn [im_msi_config] in *. destruct c as [ch cl cd cm ci].
  unfold set_msi_low_address, set_msi_high_address, set_msi_data.
  rewrite (update_msi_at (mkDIM a b cc e f cfg h) index (mkMsiIrqSourceConfig ch cl cd cm ci)) by exact E. cbn [fst snd set_im_msi_config im_msi_config].
  rewrite (update_msi_at (mkDIM a b cc e f _ h) index (mkMsiIrqSourceConfig ch lo cd cm ci)) by (cbn [im_msi_config]; by rewrite list_lookup_insert_eq).
  cbn [fst snd set_im_msi_config im_msi_config]. rewrite list_insert_insert_eq.
  rewrite (update_msi_at (mkDIM a b cc e f _ h) index (mkMsiIrqSourceConfig hi lo cd cm ci)) by (cbn [im_msi_config]; by rewrite list_lookup_insert_eq).
  cbn [fst snd set_im_msi_config im_msi_config]. by rewrite list_insert_insert_eq.
Qed.

Section Msi.
Context {W Q D : Type} `{MmioLaws W} `{Queue W Q} `{VirtioDevice W Q D} `{!VirtioDeviceLaws W Q D}.
Notation S := (MmioState Q D).
Notation M := (MmioDevice (Q := Q) (D := D)).

(** A list of writes by the guest. *)
Fixpoint mmio_writes (w : W) (d : M) (l : list (Z * bytes)) : outcome (M * W) :=
  match l with
  | [] => Ret (d, w)
  | (offset, data) :: l => let! (d, w) := transport_write w d offset data in mmio_writes w d l
  end.

(** What a driver writes to set up the [i]-th message. *)
Definition msi_setup (i lo hi x : Z) : list (Z * bytes) :=
  [(REG_MMIO_MSI_ADDRESS_L, le_bytes 4 lo); (REG_MMIO_MSI_ADDRESS_H, le_bytes 4 hi); (REG_MMIO_MSI_DATA, le_bytes 4 x);
   (REG_MMIO_MSI_COMMAND, le_bytes 2 (MMIO_MSI_CMD_CODE_UPDATE + i))].

(** The device with the new message. *)
Definition with_message (d : M) (i lo hi x : Z) (c : MsiIrqSourceConfig) : M :=
  set_md_state d (set_ms_intr_mgr (set_ms_msi (md_state d) (Some (mkMsi i lo hi x)))
    (set_im_msi_config (ms_intr_mgr (md_state d))
       (<[Z.to_nat i := MsiIrqConfig (new_message c lo hi x)]> (im_msi_config (ms_intr_mgr (md_state d)))))).

Lemma of_le_u32 v : in_u32 v -> of_le_bytes (le_bytes 4 v) = v.
Proof. intros Hv. apply of_le_le_bytes. change (256 ^ Z.of_nat 4) with (2 ^ 32). ulia. Qed.

Lemma write_register4 w (d : M) offset v :
  in_u32 v -> (MMIO_CFG_SPACE_OFF <=? offset) = false -> transport_write w d offset (le_bytes 4 v) = write_register w d offset v.
Proof. intros Hv Ho. unfold transport_write. rewrite Ho, le_bytes_len, of_le_u32 by done. done. Qed.

(** The command, on a device that uses MSI. *)
Lemma handle_update w (d : M) msi i c :
  mmio_ok w d -> ms_msi (md_state d) = Some msi -> 0 <= i < 4096 ->
  i <= as_u16 (Z.of_nat (length (queue_max_sizes (ms_device (md_state d))))) ->
  im_msi_config (ms_intr_mgr (md_state d)) !! Z.to_nat i = Some (MsiIrqConfig c) ->
  let d' := with_message d i (address_low msi) (address_high msi) (m_data msi) c in
  handle_msi_cmd w d (MMIO_MSI_CMD_CODE_UPDATE + i) =
    Ret (d', if im_activated (ms_intr_mgr (md_state d)) then (update_done w (ms_intr_mgr (md_state d')) i).2 else w).
Proof.
  intros Hok Hmsi Hi Hq Hc. destruct (command_fields i Hi) as [Earg Ecode]. unfold handle_msi_cmd. rewrite Earg, Ecode, Z.eqb_refl.
  rewrite Z.gtb_ltb, (proj2 (Z.ltb_ge _ _)) by done. unfold update_msi_cfg. rewrite Hmsi. cbn [index_select address_low address_high m_data].
  destruct (update_msi_three _ _ _ (address_low msi) (address_high msi) (m_data msi) Hc) as (E1 & E2 & E3). cbv zeta in *.
  set (s0 := set_ms_msi (md_state d) _). assert (Es : ms_intr_mgr s0 = ms_intr_mgr (md_state d)) by (by unfold s0; destruct (md_state d)).
  assert (Hset : forall (s : S) a b, set_ms_intr_mgr (set_ms_intr_mgr s a) b = set_ms_intr_mgr s b) by (by intros []).
  assert (Hget : forall (s : S) a, ms_intr_mgr (set_ms_intr_mgr s a) = a) by (by intros []).
  unfold set_message. rewrite Es, E1, !Hget, E2, !Hget, E3, !Hset, Hget. unfold with_message. fold s0.
  destruct (set_md_state_fields d (set_ms_intr_mgr s0 (set_im_msi_config (ms_intr_mgr (md_state d))
    (<[Z.to_nat i := MsiIrqConfig (new_message c (address_low msi) (address_high msi) (m_data msi))]> (im_msi_config (ms_intr_mgr (md_state d))))))) as [-> _].
  rewrite Hget. unfold is_enabled.
  set (intr := set_im_msi_config _ _). assert (Ea : im_activated intr = im_activated (ms_intr_mgr (md_state d))) by (by unfold intr; destruct (ms_intr_mgr (md_state d))).
  rewrite Ea. destruct (im_activated (ms_intr_mgr (md_state d))); [|done].
  assert (Hd : dim_ok w intr).
  { pose proof (proj2 (update_msi_ok w _ i (fun _ => new_message c (address_low msi) (address_high msi) (m_data msi)) (mo_dim _ _ Hok) ltac:(lia))) as Hd.
    rewrite (update_msi_at _ _ _ _ Hc) in Hd. exact Hd. }
  rewrite DIM_update_ok by (done || lia). cbn [obind]. by destruct (update_done w intr i).
Qed.

(** The registers before the command. *)
Lemma write_message w (d : M) msi lo hi x l :
  ms_msi (md_state d) = Some msi -> in_u32 lo -> in_u32 hi -> in_u32 x ->
  mmio_writes w d ((REG_MMIO_MSI_ADDRESS_L, le_bytes 4 lo) :: (REG_MMIO_MSI_ADDRESS_H, le_bytes 4 hi) :: (REG_MMIO_MSI_DATA, le_bytes 4 x) :: l) =
    mmio_writes w (set_md_state d (set_ms_msi (md_state d) (Some (mkMsi (index_select msi) lo hi x)))) l.
Proof.
  intros Hm Hlo Hhi Hx. cbn [mmio_writes]. rewrite (write_register4 w d) by done.
  change (write_register w d REG_MMIO_MSI_ADDRESS_L lo) with (Ret (set_md_state d (set_msi_address_low (md_state d) lo), w)). cbn [obind].
  rewrite write_register4 by done. set (d1 := set_md_state d _).
  change (write_register w d1 REG_MMIO_MSI_ADDRESS_H hi) with (Ret (set_md_state d1 (set_msi_address_high (md_state d1) hi), w)). cbn [obind].
  rewrite write_register4 by done. set (d2 := set_md_state d1 _).
  change (write_register w d2 REG_MMIO_MSI_DATA x) with (Ret (set_md_state d2 (set_msi_data_reg (md_state d2) x), w)). cbn [obind].
  f_equal. unfold d2, d1. destruct d as [s ? ? ? ? ? ?]. cbn [set_md_state md_state] in *. destruct s. cbn in Hm. subst. reflexivity.
Qed.

(** The writes of a driver that fill the address and data registers and give the
    command for the [i]-th message set exactly this message of the device, keep its
    mask, and hand it to the interrupts in force. *)
Lemma msi_setup_writes w (d : M) msi i lo hi x c :
  mmio_ok w d -> ms_msi (md_state d) = Some msi -> in_u32 lo -> in_u32 hi -> in_u32 x -> 0 <= i < 4096 ->
  i <= as_u16 (Z.of_nat (length (queue_max_sizes (ms_device (md_state d))))) ->
  im_msi_config (ms_intr_mgr (md_state d)) !! Z.to_nat i = Some (MsiIrqConfig c) ->
  mmio_writes w d (msi_setup i lo hi x) =
    Ret (with_message d i lo hi x c,
         if im_activated (ms_intr_mgr (md_state d))
         then (update_done w (ms_intr_mgr (md_state (with_message d i lo hi x c))) i).2 else w).
Proof.
  intros Hok Hm Hlo Hhi Hx Hi Hq Hc. unfold msi_setup. rewrite (write_message w d msi) by done.
  set (d3 := set_md_state d _). set (s3 := set_ms_msi (md_state d) _) in *.
  assert (Hs3 : same_core (md_state d) s3 /\ ms_msi s3 = Some (mkMsi (index_select msi) lo hi x) /\ ms_device s3 = ms_device (md_state d)).
  { unfold s3, same_core, shape. destruct (md_state d). cbn. tauto. }
  destruct Hs3 as (Hcore & Hm3 & Hdev). pose proof (mmio_ok_frame w d s3 Hcore Hok) as Hok3. destruct (set_md_state_fields d s3) as [E3 _].
  cbn [mmio_writes]. unfold transport_write. rewrite le_bytes_len. cbn [Z.eqb Z.of_nat]. change (REG_MMIO_MSI_COMMAND =? REG_MMIO_MSI_CSR) with false.
  assert (Hle : of_le_bytes (le_bytes 2 (MMIO_MSI_CMD_CODE_UPDATE + i)) = MMIO_MSI_CMD_CODE_UPDATE + i).
  { apply of_le_le_bytes. change (256 ^ Z.of_nat 2) with 65536. unfold MMIO_MSI_CMD_CODE_UPDATE. lia. }
  change ((MMIO_CFG_SPACE_OFF <=? REG_MMIO_MSI_COMMAND) && (REG_MMIO_MSI_COMMAND <? DRAGONBALL_MMIO_DOORBELL_OFFSET)) with false.
  cbv iota. rewrite Z.eqb_refl, Hle.
  pose proof (handle_update w d3 (mkMsi (index_select msi) lo hi x) i c Hok3) as Hh. unfold d3 in Hh. rewrite E3, Hdev in Hh.
  destruct Hcore as (Ei & _). rewrite Ei in Hh. cbn [address_low address_high m_data] in Hh. unfold d3. rewrite Hh by done. cbn [obind].
  assert (Ew : with_message (set_md_state d s3) i lo hi x c = with_message d i lo hi x c).
  { unfold with_message. rewrite E3, Ei. unfold s3. destruct d as [s ? ? ? ? ? ?]. by destruct s. }
  by rewrite Ew.
Qed.

End Msi.

(** ** Down to KVM *)

Section Routes.
Context {V Q D : Type} `{KvmLaws V}.
Notation K := (KvmIrqManager V).
Context `{!MmioEnv K} `{!MmioLaws K} `{!Queue K Q} `{!VirtioDevice K Q D} `{!VirtioDeviceLaws K Q D}.
Notation M := (MmioDevice (Q := Q) (D := D)).

Lemma update_done_at (k : K) d g i c :
  im_activated d = true -> is_msi (im_mode d) = true -> mode_group d (im_mode d) = Some g -> i < group_len k g ->
  im_msi_config d !! Z.to_nat i = Some c -> update_done k d i = group_update k g i c.
Proof. intros Ha Hm Hg Hi Hc. unfold update_done. rewrite Ha, Hm, Hg, Hc, (proj2 (Z.ltb_lt _ _)) by done. done. Qed.

(** C22. The MSI registers of an active device reach KVM: after the writes that set
    up the [i]-th message, the route of the [i]-th interrupt in the table for KVM is
    that message, and no other route and no irqfd has changed; when KVM took the
    table, the messages in force are the old ones with this one in place. *)
Theorem guest_msi_reaches_kvm (k : K) (d : M) msi g base count l configs i lo hi x d' k' :
  mmio_reach k d -> kvm_reach k -> im_activated (ms_intr_mgr (md_state d)) = true ->
  is_msi (im_mode (ms_intr_mgr (md_state d))) = true ->
  mode_group (ms_intr_mgr (md_state d)) (im_mode (ms_intr_mgr (md_state d))) = Some g ->
  k_heap k !! Z.to_nat g = Some (MsiGroup base count l) -> ms_msi (md_state d) = Some msi ->
  Z.of_nat (length configs) = count -> all_msi configs -> routed k base configs ->
  in_u32 lo -> in_u32 hi -> in_u32 x -> 0 <= i < count ->
  i <= as_u16 (Z.of_nat (length (queue_max_sizes (ms_device (md_state d))))) ->
  mmio_writes k d (msi_setup i lo hi x) = Ret (d', k') ->
  exists c, im_msi_config (ms_intr_mgr (md_state d)) !! Z.to_nat i = Some (MsiIrqConfig c) /\
    im_msi_config (ms_intr_mgr (md_state d')) =
      <[Z.to_nat i := MsiIrqConfig (new_message c lo hi x)]> (im_msi_config (ms_intr_mgr (md_state d))) /\
    k_routes k' = <[msi_key (base + i) := new_msi_routing_entry (base + i) (new_message c lo hi x)]> (k_routes k) /\
    irqfds (k_vm k') = irqfds (k_vm k) /\
    (routing (k_vm k') = k_routes k' -> routed k' base (<[Z.to_nat i := MsiIrqConfig (new_message c lo hi x)]> configs)).
Proof.
  intros Hr Hk Hact Hmode Hg Hh Hmsi Hlen Hall Hrt Hlo Hhi Hx Hi Hq Hw. destruct (mmio_reach_ok k d Hr) as [Hok _].
  pose proof (mo_dim _ _ Hok) as Hd. pose proof (proj1 (Forall_lookup _ _) (kvm_reach_ok k Hk) _ _ Hh) as Hgok. cbn in Hgok.
  assert (Hmd : msi_device k (ms_intr_mgr (md_state d)) g base count l) by (by constructor).
  destruct (msi_device_configs _ _ _ _ _ _ Hmd) as (Hgl & Hle & Hallm).
  destruct (lookup_lt_is_Some_2 (im_msi_config (ms_intr_mgr (md_state d))) (Z.to_nat i)) as [c0 Hc]; [lia|].
  destruct (proj1 (Forall_lookup _ _) Hallm _ _ Hc) as [c ->].
  destruct (lookup_lt_is_Some_2 configs (Z.to_nat i)) as [o Ho]; [lia|]. destruct (proj1 (Forall_lookup _ _) Hall _ _ Ho) as [old ->].
  pose proof (proj2 Hrt _ _ Ho) as Hold. rewrite Z2Nat.id in Hold by lia.
  assert (Hi4 : 0 <= i < 4096) by (destruct Hgok as (? & ? & ? & ?); unfold MAX_IRQS in *; ulia).
  exists c. split; [done|].
  assert (Hcase : mmio_writes k d (msi_setup i lo hi x) = Ret (with_message d i lo hi x c,
    (update_done k (ms_intr_mgr (md_state (with_message d i lo hi x c))) i).2)).
  { clear Hw. pose proof (msi_setup_writes k d msi i lo hi x c Hok Hmsi Hlo Hhi Hx Hi4 Hq Hc) as Hs. rewrite Hact in Hs. exact Hs. }
  rewrite Hcase in Hw. injection Hw as <- <-.
  set (intr := ms_intr_mgr (md_state d)) in *. set (intr' := ms_intr_mgr (md_state (with_message d i lo hi x c))).
  assert (Hf : im_activated intr' = im_activated intr /\ im_mode intr' = im_mode intr /\ mode_group intr' (im_mode intr) = mode_group intr (im_mode intr) /\
    im_msi_config intr' = <[Z.to_nat i := MsiIrqConfig (new_message c lo hi x)]> (im_msi_config intr)).
  { unfold intr', intr, with_message, mode_group. destruct d as [s ? ? ? ? ? ?]. destruct s as [? in0 ? ? ? ? ? ? ? ? ? ? ? ? ?]. by destruct in0. }
  destruct Hf as (Ea & Em & Eg & Ec). split; [exact Ec|].
  rewrite (update_done_at k intr' g i (MsiIrqConfig (new_message c lo hi x))); try congruence.
  2:{ rewrite Hgl. lia. }
  2:{ rewrite Ec, list_lookup_insert_eq by lia. done. }
  destruct (group_update k g i _) as [r k'] eqn:Hu. cbn [snd].
  destruct (msi_update_ok _ _ _ _ _ _ _ _ _ Hh Hgok Hi (ex_intro _ _ Hold) Hu) as (_ & Hkr & Hfd & _).
  split; [done|]. split; [done|]. intros Hsync. apply (routed_insert k); [done|lia| |done]. by rewrite Z2Nat.id by lia.
Qed.
End Routes.
