(* ===== verification/MmioDemo.v ===== *)
(** A machine, a device and a driver: the theorems of the transport applied to the
    run of a driver, from creation through activation to reset. *)

From S2P Require Import Prelude Resources Interrupt InterruptSpec KvmIrq KvmIrqSpec VsockStream VsockPacket VirtioDevice.
From S2P Require Import Mmio MmioSpec MmioProps MmioMsi.

(** ** The machine *)

Record Machine := mkMachine {
  mc_routing : gmap Z RoutingEntry;
  mc_irqfds : gset (Z * Z);
  mc_ioevents : gset (Z * Z * Datamatch);
  mc_next : Z;
}.

#[export] Instance machine_kvm : Kvm Machine := {|
  eventfd_new v := (Ok (mc_next v), mkMachine (mc_routing v) (mc_irqfds v) (mc_ioevents v) (mc_next v + 1));
  register_irqfd v fd gsi := (Ok tt, mkMachine (mc_routing v) ({[ (fd, gsi) ]} ∪ mc_irqfds v) (mc_ioevents v) (mc_next v));
  unregister_irqfd v fd gsi := (Ok tt, mkMachine (mc_routing v) (mc_irqfds v ∖ {[ (fd, gsi) ]}) (mc_ioevents v) (mc_next v));
  set_gsi_routing v table := (Ok tt, mkMachine table (mc_irqfds v) (mc_ioevents v) (mc_next v));
|}.

#[refine, export] Instance machine_kvm_laws : KvmLaws Machine := {| routing := mc_routing; irqfds := mc_irqfds |}.
Proof.
  - by intros v r v' [= <- <-].
  - by intros v fd gsi r v' [= <- <-].
  - by intros v fd gsi r v' [= <- <-].
  - by intros v table r v' [= <- <-].
  - by intros v table e v' [=].
Defined.

Notation World := (KvmIrqManager Machine).

Definition set_events (k : World) (f : gset (Z * Z * Datamatch) -> gset (Z * Z * Datamatch)) : World :=
  set_k_vm k (mkMachine (mc_routing (k_vm k)) (mc_irqfds (k_vm k)) (f (mc_ioevents (k_vm k))) (mc_next (k_vm k))).

#[export] Instance machine_mmio : MmioEnv World := {|
  register_ioevent k fd addr m := (Ok tt, set_events k (union {[ (fd, addr, m) ]}));
  unregister_ioevent k fd addr m :=
    if decide ((fd, addr, m) ∈ mc_ioevents (k_vm k)) then (Ok tt, set_events k (fun s => s ∖ {[ (fd, addr, m) ]})) else (Err ENOENT, k);
  ioeventfd_no_length k := true;
  queue_eventfd_new k := let '(r, v) := eventfd_new (k_vm k) in (r, set_k_vm k v);
|}.

Definition machine_events (k : World) : gset (Z * Z * Datamatch) := mc_ioevents (k_vm k).

Lemma set_events_ok k f : groups_kept k (set_events k f) /\ machine_events (set_events k f) = f (machine_events k).
Proof. split; [apply same_heap_groups|]; by destruct k. Qed.

Lemma each_irqfd_events f (v : Machine) gsi l :
  (forall v fd gsi, mc_ioevents (f v fd gsi).2 = mc_ioevents v) -> mc_ioevents (each_irqfd f v gsi l).2 = mc_ioevents v.
Proof.
  intros Hf. revert v gsi. induction l as [|[fd c] l IH]; intros v gsi; cbn [each_irqfd]; [done|].
  pose proof (Hf v fd gsi) as Hv. destruct (f v fd gsi) as [[[]|e] v1]; cbn [snd] in *; [by rewrite IH|done].
Qed.

Lemma with_irqfds_events f (k : World) gsi l :
  (forall v fd gsi, mc_ioevents (f v fd gsi).2 = mc_ioevents v) -> machine_events (with_irqfds f k gsi l).2 = machine_events k.
Proof.
  intros Hf. unfold with_irqfds, machine_events. pose proof (each_irqfd_events f (k_vm k) gsi l Hf) as Hv.
  destruct (each_irqfd _ _ _ _) as [r v]. by destruct k.
Qed.

Lemma irqfd_call_events f (k : World) fd gsi :
  (forall v fd gsi, mc_ioevents (f v fd gsi).2 = mc_ioevents v) -> machine_events (irqfd_call f k fd gsi).2 = machine_events k.
Proof. intros Hf. unfold irqfd_call, machine_events. pose proof (Hf (k_vm k) fd gsi) as Hv. destruct (f _ _ _). by destruct k. Qed.

Lemma set_routing_events (k : World) : machine_events (set_routing k).2 = machine_events k.
Proof. by destruct k. Qed.

Lemma routing_add_events (k : World) es : machine_events (routing_add k es).2 = machine_events k.
Proof. unfold routing_add. destruct (add_check _ _); [|done]. rewrite set_routing_events. by destruct k. Qed.

Lemma kvm_enable_events (k : World) g cs : machine_events (kvm_group_enable k g cs).2 = machine_events k.
Proof.
  unfold kvm_group_enable. destruct (_ !! _) as [[base fd|base count l]|]; [..|done]; case_match; try done; [by apply irqfd_call_events|].
  destruct (create_msi_routing_entries base cs) as [es|e]; [|done]. pose proof (routing_add_events k es) as Ha.
  destruct (routing_add k es) as [[[]|e] k1]; cbn [snd] in Ha; [by rewrite with_irqfds_events|]. case_match; [by rewrite with_irqfds_events|done].
Qed.

Lemma kvm_disable_events (k : World) g : machine_events (kvm_group_disable k g).2 = machine_events k.
Proof.
  unfold kvm_group_disable. destruct (_ !! _) as [[base fd|base count l]|]; [by apply irqfd_call_events| |done].
  pose proof (with_irqfds_events unregister_irqfd k base l ltac:(done)) as Ha. destruct (with_irqfds _ _ _ _) as [[[]|e] k1]; cbn [snd] in Ha; [|done].
  unfold routing_remove. rewrite set_routing_events, <- Ha. by destruct k1.
Qed.

#[refine, export] Instance machine_mmio_laws : MmioLaws World := {| ioevents := machine_events |}.
Proof.
  - intros k fd addr m r k' [= <- <-]. apply set_events_ok.
  - intros k fd addr m r k'. cbn. destruct (decide _); intros [= <- <-]; [apply set_events_ok|]. split; [by apply same_heap_groups|done].
  - intros k fd addr m Hin. eexists. cbn. by rewrite decide_True.
  - intros k g cs. apply kvm_enable_events.
  - intros k g. apply kvm_disable_events.
  - intros k r k' [= <- <-]. split; [apply same_heap_groups|]; by destruct k.
Defined.

(** ** The device *)

Record DemoQueue := mkDemoQueue { dq_max : Z; dq_size : Z; dq_ready : bool; dq_desc : Z; dq_avail : Z; dq_used : Z }.

(** The low and high half of an address. *)
Definition set_half (old : Z) (low high : option Z) : Z :=
  Z.lor (default (Z.land old u32_max) low) (Z.shiftl (default (Z.shiftr old 32) high) 32).

#[export] Instance demo_queue : Queue World DemoQueue := {|
  q_new max := Ok (mkDemoQueue max max false 0 0 0);
  q_max_size := dq_max;
  q_ready := dq_ready;
  q_is_valid w q := dq_ready q && (0 <? dq_size q);
  q_set_size q x := mkDemoQueue (dq_max q) x (dq_ready q) (dq_desc q) (dq_avail q) (dq_used q);
  q_set_ready q x := mkDemoQueue (dq_max q) (dq_size q) x (dq_desc q) (dq_avail q) (dq_used q);
  q_set_desc_table_address q l h := mkDemoQueue (dq_max q) (dq_size q) (dq_ready q) (set_half (dq_desc q) l h) (dq_avail q) (dq_used q);
  q_set_avail_ring_address q l h := mkDemoQueue (dq_max q) (dq_size q) (dq_ready q) (dq_desc q) (set_half (dq_avail q) l h) (dq_used q);
  q_set_used_ring_address q l h := mkDemoQueue (dq_max q) (dq_size q) (dq_ready q) (dq_desc q) (dq_avail q) (set_half (dq_used q) l h);
|}.

(** A device with one queue that takes what it is handed. *)
Record DemoDevice := mkDemoDevice { dd_info : VirtioDeviceInfo; dd_config : option (VirtioDeviceConfig DemoQueue) }.

#[local] Instance demo_virtio_device : VirtioDevice World DemoQueue DemoDevice := {|
  device_type d := 1;
  queue_max_sizes d := queue_sizes (dd_info d);
  ctrl_queue_max_sizes d := 0;
  get_avail_features d page := info_get_avail_features (dd_info d) page;
  set_acked_features d page v := mkDemoDevice (info_set_acked_features (dd_info d) page v) (dd_config d);
  read_config d offset data := (Ok tt, (info_read_config (dd_info d) offset data).2, d);
  write_config d offset data := (Ok tt, mkDemoDevice (info_write_config (dd_info d) offset data).2 (dd_config d));
  device_activate w d c := Ret (Ok tt, mkDemoDevice (dd_info d) (Some c), w);
  device_reset w d := Ret (Ok tt, mkDemoDevice (dd_info d) None, w);
  device_set_resource w d r := Ret (Ok None, d, w);
|}.

#[local] Instance demo_device_laws : VirtioDeviceLaws World DemoQueue DemoDevice.
Proof.
  split.
  - intros w d c r d' w' [= <- <- <-]. apply groups_kept_refl.
  - by intros w d c r d' w' [= <- <- <-].
  - intros w d r d' w' [= <- <- <-]. apply groups_kept_refl.
  - by intros w d r d' w' [= <- <- <-].
  - intros w d res r d' w' [= <- <- <-]. apply groups_kept_refl.
Qed.

#[local] Instance demo_device_total : VirtioDeviceTotal World DemoQueue DemoDevice.
Proof. by split. Qed.

(** ** The driver *)

Notation Demo := (MmioDevice (Q := DemoQueue) (D := DemoDevice)).

Definition created_of {A E B : Type} (o : outcome (result A E * B)) : match o return Type with Ret (Ok _, _) => A * B | _ => unit end :=
  match o with Ret (Ok a, b) => (a, b) | _ => tt end.
Definition returned {A : Type} (a : A) (o : outcome A) : A := match o with Ret a => a | Panic => a end.

Definition demo_resources (msi : bool) : DeviceResources :=
  mkDeviceResources ([MmioAddressRange 0xd0000000 0x2000; LegacyIrq 5] ++ if msi then [MsiIrq GenericMsi 32 2] else []).
Definition demo_dev : DemoDevice := mkDemoDevice (VirtioDeviceInfo_new 0x100000001 [16] [1; 2; 3; 4]) None.
Definition demo_world : World := KvmIrqManager_new (mkMachine ∅ ∅ ∅ 3).

Lemma writes_reach (w : World) (d : Demo) l d' w' : mmio_reach w d -> mmio_writes w d l = Ret (d', w') -> mmio_reach w' d'.
Proof.
  revert w d. induction l as [|[offset data] l IH]; intros w d Hr Hw; cbn [mmio_writes] in Hw; [by injection Hw as <- <-|].
  bind_inv Hw. destruct a as [d1 w1]. apply (IH w1 d1); [|done]. by eapply mr_write.
Qed.

Definition write_status_to (v : Z) : Z * bytes := (REG_MMIO_STATUS, le_bytes 4 v).

(** The driver selects MSI, goes through the stages and sets up its queue. *)
Definition setup_writes (msi : bool) : list (Z * bytes) :=
  (if msi then [(REG_MMIO_MSI_CSR, le_bytes 2 MMIO_MSI_CSR_ENABLED)] else []) ++
  [write_status_to DEVICE_STATUS_ACKNOWLEDE; write_status_to DEVICE_STATUS_DRIVER; (REG_MMIO_DRIVER_FEATURE, le_bytes 4 1);
   write_status_to DEVICE_STATUS_FEATURE_OK; (REG_MMIO_QUEUE_SEL, le_bytes 4 0); (REG_MMIO_QUEUE_NUM, le_bytes 4 8);
   (REG_MMIO_QUEUE_READY, le_bytes 4 1)].

Definition demo_new : Demo * World :=
  Eval vm_compute in created_of (MmioDevice_new demo_world demo_dev (demo_resources true) (Some DRAGONBALL_FEATURE_PER_QUEUE_NOTIFY)).
Definition demo_ready : Demo * World := Eval vm_compute in returned demo_new (mmio_writes demo_new.2 demo_new.1 (setup_writes true)).
Definition demo_active : Demo * World :=
  Eval vm_compute in returned demo_new (mmio_writes demo_ready.2 demo_ready.1 [write_status_to DEVICE_STATUS_DRIVER_OK]).
Definition demo_reset : Demo * World := Eval vm_compute in returned demo_new (mmio_writes demo_active.2 demo_active.1 [write_status_to 0]).

Lemma demo_resources_ok msi : resources_ok (demo_resources msi).
Proof. unfold resources_ok, demo_resources. destruct msi; cbn [dr_vec app]; repeat constructor; ulia. Qed.

Lemma demo_new_reach : mmio_reach demo_new.2 demo_new.1.
Proof.
  apply (mr_new demo_world demo_dev (demo_resources true) (Some DRAGONBALL_FEATURE_PER_QUEUE_NOTIFY)); [apply demo_resources_ok|done|].
  vm_compute. reflexivity.
Qed.

Lemma demo_ready_reach : mmio_reach demo_ready.2 demo_ready.1.
Proof. apply (writes_reach _ _ (setup_writes true) _ _ demo_new_reach). vm_compute. reflexivity. Qed.

Lemma demo_active_write : transport_write demo_ready.2 demo_ready.1 REG_MMIO_STATUS (le_bytes 4 DEVICE_STATUS_DRIVER_OK) = Ret demo_active.
Proof. vm_compute. reflexivity. Qed.

Lemma demo_active_reach : mmio_reach demo_active.2 demo_active.1.
Proof. eapply mr_write; [apply demo_ready_reach|]. rewrite demo_active_write. by destruct demo_active. Qed.

Lemma demo_reset_write : transport_write demo_active.2 demo_active.1 REG_MMIO_STATUS (le_bytes 4 0) = Ret demo_reset.
Proof. vm_compute. reflexivity. Qed.

Lemma driver_status_machine_witness :
  md_driver_status demo_active.1 = DEVICE_STATUS_DRIVER_OK /\ ms_device_activated (md_state demo_active.1) = true.
Proof.
  split; [reflexivity|].
  exact (proj1 (proj2 (proj2 (driver_status_machine demo_active.2 demo_active.1 demo_active_reach))) eq_refl).
Defined.

(** The size of the queue was set when it was allowed, and is refused now. *)
Lemma configuration_stages_witness :
  transport_write demo_active.2 demo_active.1 REG_MMIO_QUEUE_NUM (le_bytes 4 4) = Ret (demo_active.1, demo_active.2).
Proof.
  exact (proj1 (configuration_stages demo_active.2 demo_active.1 demo_active_reach) REG_MMIO_QUEUE_NUM (le_bytes 4 4)
    (fun q => q_set_size (W := World) q 4) eq_refl eq_refl).
Defined.


Lemma device_reset_correct_witness : reset_from (md_state demo_active.1) (md_state demo_reset.1).
Proof.
  destruct (device_reset_correct demo_active.2 demo_active.1 (le_bytes 4 0) demo_reset.1 demo_reset.2
    demo_active_reach eq_refl eq_refl eq_refl demo_reset_write) as [(_ & Hf & _)|Hst]; [exact Hf|discriminate Hst].
Defined.

(** ** A device without MSI interrupts *)

(** Its driver selects MSI all the same. *)
Definition plain_new : Demo * World := Eval vm_compute in created_of (MmioDevice_new demo_world demo_dev (demo_resources false) None).
Definition plain_ready : Demo * World := Eval vm_compute in returned plain_new (mmio_writes plain_new.2 plain_new.1 (setup_writes true)).

Lemma plain_ready_reach : mmio_reach plain_ready.2 plain_ready.1.
Proof.
  apply (writes_reach plain_new.2 plain_new.1 (setup_writes true)); [|vm_compute; reflexivity].
  apply (mr_new demo_world demo_dev (demo_resources false) None); [apply demo_resources_ok|done|vm_compute; reflexivity].
Qed.

Lemma transport_write_panics_witness :
  transport_write plain_ready.2 plain_ready.1 REG_MMIO_STATUS (le_bytes 4 DEVICE_STATUS_DRIVER_OK) = Panic /\
  no_interrupts (ms_intr_mgr (md_state plain_ready.1)).
Proof.
  assert (Hp : transport_write plain_ready.2 plain_ready.1 REG_MMIO_STATUS (le_bytes 4 DEVICE_STATUS_DRIVER_OK) = Panic) by (vm_compute; reflexivity).
  split; [exact Hp|].
  exact (proj2 (proj2 (proj2 (proj2 (transport_write_panics plain_ready.2 plain_ready.1 REG_MMIO_STATUS (le_bytes 4 DEVICE_STATUS_DRIVER_OK) plain_ready_reach Hp))))).
Defined.

(** Activation of a device that has the interrupts of its mode, and of one that has
    not. *)
Lemma device_activation_witness :
  activated_from demo_ready.2 (md_state demo_ready.1) demo_active.2 (md_state demo_active.1) /\
  activation_panics plain_ready.2 (md_state plain_ready.1).
Proof.
  split.
  - destruct (proj2 (device_activation demo_ready.2 demo_ready.1 (le_bytes 4 DEVICE_STATUS_DRIVER_OK)
      demo_ready_reach eq_refl eq_refl eq_refl) demo_active.1 demo_active.2 demo_active_write) as [(_ & _ & Hf)|[Hst _]]; [exact Hf|discriminate Hst].
  - apply (proj1 (device_activation plain_ready.2 plain_ready.1 (le_bytes 4 DEVICE_STATUS_DRIVER_OK) plain_ready_reach eq_refl eq_refl eq_refl)).
    vm_compute. reflexivity.
Defined.

(** ** MSI of the active device *)

Definition group_world (o : outcome (result Z Z * World)) : World := (returned (Ok 0, demo_world) o).2.
Definition demo_k1 : World := Eval vm_compute in group_world (create_group demo_world LegacyIrqSource 5 1).
Definition demo_k2 : World := Eval vm_compute in group_world (create_group demo_k1 MsiIrqSource 32 2).
Definition demo_messages : list InterruptSourceConfig := replicate 2 (MsiIrqConfig MsiIrqSourceConfig_default).

Lemma demo_kvm_reach : kvm_reach demo_active.2.
Proof.
  assert (R1 : kvm_reach demo_k1).
  { apply (kr_create demo_world LegacyIrqSource 5 1 (Ok 0)); [constructor|ulia|ulia|vm_compute; reflexivity]. }
  assert (R2 : kvm_reach demo_k2).
  { apply (kr_create demo_k1 MsiIrqSource 32 2 (Ok 1)); [exact R1|ulia|ulia|vm_compute; reflexivity]. }
  apply (kr_enable _ 1 demo_messages) in R2. apply (kr_machine _ (k_vm demo_active.2)) in R2.
  assert (E : set_k_vm (group_enable demo_k2 1 demo_messages).2 (k_vm demo_active.2) = demo_active.2) by (vm_compute; reflexivity).
  by rewrite E in R2.
Qed.

Definition demo_update : Demo * World :=
  Eval vm_compute in returned demo_new (mmio_writes demo_active.2 demo_active.1 (msi_setup 1 0xfee00000 0 0x41)).

Lemma demo_update_writes : mmio_writes demo_active.2 demo_active.1 (msi_setup 1 0xfee00000 0 0x41) = Ret demo_update.
Proof. vm_compute. reflexivity. Qed.

Lemma demo_routed : routed demo_active.2 32 demo_messages.
Proof.
  split; [vm_compute; reflexivity|]. intros i c Hc. destruct i as [|[|i]]; [..|done]; injection Hc as <-; vm_compute; reflexivity.
Qed.

Lemma guest_msi_reaches_kvm_witness :
  exists c, routed demo_update.2 32 [MsiIrqConfig MsiIrqSourceConfig_default; MsiIrqConfig (new_message c 0xfee00000 0 0x41)].
Proof.
  destruct (guest_msi_reaches_kvm demo_active.2 demo_active.1 Msi_default 1 32 2
    [(4, MsiIrqSourceConfig_default); (5, MsiIrqSourceConfig_default)] demo_messages 1 0xfee00000 0 0x41 demo_update.1 demo_update.2
    demo_active_reach demo_kvm_reach eq_refl eq_refl eq_refl eq_refl eq_refl eq_refl ltac:(repeat constructor; by eexists) demo_routed
    ltac:(ulia) ltac:(ulia) ltac:(ulia) ltac:(lia) ltac:(by vm_compute) demo_update_writes) as (c & _ & _ & _ & _ & Hr).
  exists c. exact (Hr ltac:(vm_compute; reflexivity)).
Defined.
