(* ===== verification/Block.v ===== *)
(** The virtio-blk device (dbs_virtio_devices/src/block/): requests
    ([request.rs]), the handler of one queue ([handler.rs]) and the local file
    behind it ([ufile/localfile.rs]).

    Outside are guest memory [G] (the crate vm-memory, with the used ring that
    virtio-queue writes), the file of the standard library [F] and the engine
    [E] that submits to the kernel (AIO or io_uring).  A descriptor chain is the
    list of descriptors its iterator yields, each with its NEXT flag; the chains
    an iteration of the queue finds come with the clock readings the rate limiter
    takes for them.  Log messages are left out. *)

From S2P Require Import Prelude RateLimiter VsockStream VsockPacket VirtioMem.

(** ** Constants *)

Definition SECTOR_SHIFT : Z := 9.
Definition SECTOR_SIZE : Z := Z.shiftl 1 SECTOR_SHIFT.

(** Of the virtio specification, by the crate virtio-bindings. *)
Definition VIRTIO_BLK_T_IN : Z := 0.
Definition VIRTIO_BLK_T_OUT : Z := 1.
Definition VIRTIO_BLK_T_FLUSH : Z := 4.
Definition VIRTIO_BLK_T_GET_ID : Z := 8.
Definition VIRTIO_BLK_S_OK : Z := 0.
Definition VIRTIO_BLK_S_IOERR : Z := 1.
Definition VIRTIO_BLK_S_UNSUPP : Z := 2.
Definition VIRTIO_BLK_ID_BYTES : Z := 20.

(** ** Data *)

(** The errors of [Error] (lib.rs) that occur here. *)
Inductive BlkError : Type :=
| DescriptorChainTooShort
| DescriptorLengthTooSmall
| DescriptorLengthTooBig
| UnexpectedWriteOnlyDescriptor
| UnexpectedReadOnlyDescriptor
| InvalidGuestAddress (addr : Z)
| GuestMemory
| InvalidInput
| InvalidOffset
| InternalError
| IOError (e : Z).

Inductive ExecuteError : Type :=
| BadRequest (e : BlkError)
| EFlush (e : Z)
| ERead (e : Z)
| ESeek (e : Z)
| EWrite (e : Z)
| EGetDeviceID
| EUnsupported (t : Z).

Inductive RequestType : Type :=
| T_In
| T_Out
| T_Flush
| T_GetDeviceID
| T_Unsupported (t : Z).

#[export] Instance RequestType_eq_dec : EqDecision RequestType.
Proof. solve_decision. Defined.

Definition RequestType_from (value : Z) : RequestType :=
  if value =? VIRTIO_BLK_T_IN then T_In
  else if value =? VIRTIO_BLK_T_OUT then T_Out
  else if value =? VIRTIO_BLK_T_FLUSH then T_Flush
  else if value =? VIRTIO_BLK_T_GET_ID then T_GetDeviceID
  else T_Unsupported value.

Record RequestHeader := mkRequestHeader {
  rh_request_type : Z;
  rh_sector : Z;
}.

(** The layout of the [#[repr(C)]] struct: 16 bytes. *)
Definition HEADER_SIZE : Z := 16.
Definition header_of_bytes (bs : bytes) : RequestHeader := mkRequestHeader (field bs 0 4) (field bs 8 8).

Record IoDataDesc := mkIoDataDesc {
  data_addr : Z;
  data_len : Z;
}.

Record BlkRequest := mkBlkRequest {
  br_type : RequestType;
  br_sector : Z;
  br_status_addr : Z;
  br_index : Z;
}.

Record ChainDesc := mkChainDesc {
  cd_desc : Descriptor;
  cd_has_next : bool;
}.

(** ** Outside *)

Class BlkGuest (G : Type) := {
  address_in_range : G -> Z -> bool;
  (** [QueueT::add_used]. *)
  queue_add_used : G -> Z -> Z -> option G;
}.

(** The trait [Ufile] with the parts of [Read], [Write] and [Seek] in use. *)
Class Ufile (D : Type) := {
  get_capacity : D -> Z;
  get_max_size : D -> Z;
  get_device_id : D -> result bytes Z;
  seek_start : D -> Z -> result Z Z * D;
  seek_end : D -> result Z Z * D;
  ufile_read : D -> Z -> result bytes Z * D;
  ufile_write : D -> bytes -> result Z Z * D;
  ufile_flush : D -> result unit Z * D;
  io_read_submit : D -> Z -> list IoDataDesc -> Z -> result Z Z * D;
  io_write_submit : D -> Z -> list IoDataDesc -> Z -> result Z Z * D;
  ufile_io_complete : D -> result (list (Z * Z)) Z * D;
}.

(** [Bytes::read_from] and [write_to] of vm-memory: between guest memory and a
    reader or writer at its position. *)
Class Transfer (G D : Type) := {
  mem_read_from : G -> Z -> D -> Z -> result Z Z * G * D;
  mem_write_to : G -> Z -> D -> Z -> result Z Z * D;
}.

(** ** Requests *)

Section Request.
Context {G : Type} `{MemGuest G} `{BlkGuest G}.

Definition RequestHeader_read_from (mem : G) (addr : Z) : result RequestHeader BlkError :=
  match read_slice mem addr HEADER_SIZE with
  | Some bs => Ok (header_of_bytes bs)
  | None => Err GuestMemory
  end.

Definition check_request (req : BlkRequest) (desc : Descriptor) (max_size : Z) : result unit BlkError :=
  match br_type req with
  | T_Out =>
      if d_write_only desc then Err UnexpectedWriteOnlyDescriptor
      else if d_len desc >? max_size then Err DescriptorLengthTooBig else Ok tt
  | T_In =>
      if negb (d_write_only desc) then Err UnexpectedReadOnlyDescriptor
      else if d_len desc >? max_size then Err DescriptorLengthTooBig else Ok tt
  | T_GetDeviceID => if negb (d_write_only desc) then Err UnexpectedReadOnlyDescriptor else Ok tt
  | _ => Ok tt
  end.

(** The loop [while desc.has_next()]. *)
Fixpoint parse_data (req : BlkRequest) (max_size : Z) (desc : ChainDesc) (chain : list ChainDesc)
  (data_descs : list IoDataDesc) : result ChainDesc BlkError * list IoDataDesc :=
  if negb (cd_has_next desc) then (Ok desc, data_descs) else
  match check_request req (cd_desc desc) max_size with
  | Err e => (Err e, data_descs)
  | Ok _ =>
      let data_descs := data_descs ++ [mkIoDataDesc (d_addr (cd_desc desc)) (d_len (cd_desc desc))] in
      match chain with
      | [] => (Err DescriptorChainTooShort, data_descs)
      | desc :: chain => parse_data req max_size desc chain data_descs
      end
  end.

Definition parse_status (mem : G) (req : BlkRequest) (status_desc : Descriptor) : result BlkRequest BlkError :=
  if negb (d_write_only status_desc) then Err UnexpectedReadOnlyDescriptor else
  if d_len status_desc <? 1 then Err DescriptorLengthTooSmall else
  if negb (address_in_range mem (d_addr status_desc)) then Err (InvalidGuestAddress (d_addr status_desc)) else
  Ok (mkBlkRequest (br_type req) (br_sector req) (d_addr status_desc) (br_index req)).

(** [Request::parse]; the segments it finds are added to [data_descs]. *)
Definition blk_parse (mem : G) (head_index : Z) (chain : list ChainDesc) (data_descs : list IoDataDesc) (max_size : Z) :
  result BlkRequest BlkError * list IoDataDesc :=
  match chain with
  | [] => (Err DescriptorChainTooShort, data_descs)
  | desc :: chain =>
      if d_write_only (cd_desc desc) then (Err UnexpectedWriteOnlyDescriptor, data_descs) else
      match RequestHeader_read_from mem (d_addr (cd_desc desc)) with
      | Err e => (Err e, data_descs)
      | Ok h =>
          let req := mkBlkRequest (RequestType_from (rh_request_type h)) (rh_sector h) 0 head_index in
          match chain with
          | [] => (Err DescriptorChainTooShort, data_descs)
          | desc :: chain =>
              let '(r, data_descs) :=
                if negb (cd_has_next desc) then
                  (if negb (bool_decide (br_type req = T_Flush)) then Err DescriptorChainTooShort else Ok desc, data_descs)
                else parse_data req max_size desc chain data_descs in
              (match r with Err e => Err e | Ok status_desc => parse_status mem req (cd_desc status_desc) end, data_descs)
          end
      end
  end.

Definition update_status (mem : G) (req : BlkRequest) (status : Z) : outcome G :=
  unwrap (write_slice mem (br_status_addr req) [status mod 2 ^ 8]).

(** [data_len]: the sum of the segments, as a [u32]. *)
Fixpoint sum_len (len : Z) (data_descs : list IoDataDesc) : outcome Z :=
  match data_descs with
  | [] => Ret len
  | d :: data_descs => let! len := add_u u64_max len (data_len d) in sum_len len data_descs
  end.
Definition request_data_len (data_descs : list IoDataDesc) : outcome Z :=
  let! len := sum_len 0 data_descs in Ret (as_u32 len).

Context {D : Type} `{Ufile D} `{Transfer G D}.

(** [sector << SECTOR_SHIFT] on a [u64] drops the high bits. *)
Definition sector_offset (req : BlkRequest) : Z := as_u64 (Z.shiftl (br_sector req) SECTOR_SHIFT).

Fixpoint check_capacity (req : BlkRequest) (disk : D) (data_descs : list IoDataDesc) :
  outcome (result unit ExecuteError) :=
  match data_descs with
  | [] => Ret (Ok tt)
  | d :: data_descs =>
      let! top := add_u u64_max (data_len d) SECTOR_SIZE in
      let! top := sub_u top 1 in
      let top := Z.land top (u64_not (SECTOR_SIZE - 1)) in
      match checked_add u64_max top (sector_offset req) with
      | None => Ret (Err (BadRequest InvalidOffset))
      | Some top =>
          if top >? get_capacity disk then Ret (Err (BadRequest InvalidOffset)) else
          check_capacity req disk data_descs
      end
  end.

(** The loop of [execute]. *)
Fixpoint execute_loop (req : BlkRequest) (disk_id : bytes) (data_descs : list IoDataDesc) (mem : G) (disk : D) (len : Z) :
  outcome (result Z ExecuteError * G * D) :=
  match data_descs with
  | [] => Ret (Ok (as_u32 len), mem, disk)
  | io :: data_descs =>
      match br_type req with
      | T_In =>
          match mem_read_from mem (data_addr io) disk (data_len io) with
          | (Err e, mem, disk) => Ret (Err (ERead e), mem, disk)
          | (Ok _, mem, disk) =>
              let! len := add_u u64_max len (data_len io) in
              execute_loop req disk_id data_descs mem disk len
          end
      | T_Out =>
          match mem_write_to mem (data_addr io) disk (data_len io) with
          | (Err e, disk) => Ret (Err (EWrite e), mem, disk)
          | (Ok _, disk) => execute_loop req disk_id data_descs mem disk len
          end
      | T_Flush =>
          match ufile_flush disk with
          | (Err e, disk) => Ret (Err (EFlush e), mem, disk)
          | (Ok _, disk) => execute_loop req disk_id data_descs mem disk len
          end
      | T_GetDeviceID =>
          if data_len io <? zlen disk_id then Ret (Err (BadRequest InvalidOffset), mem, disk) else
          match write_slice mem (data_addr io) disk_id with
          | None => Ret (Err EGetDeviceID, mem, disk)
          | Some mem => Ret (Ok (as_u32 (zlen disk_id)), mem, disk)
          end
      | T_Unsupported t => Ret (Err (EUnsupported t), mem, disk)
      end
  end.

Definition execute (req : BlkRequest) (disk : D) (mem : G) (data_descs : list IoDataDesc) (disk_id : bytes) :
  outcome (result Z ExecuteError * G * D) :=
  let! r := check_capacity req disk data_descs in
  match r with
  | Err e => Ret (Err e, mem, disk)
  | Ok _ =>
      match seek_start disk (sector_offset req) with
      | (Err e, disk) => Ret (Err (ESeek e), mem, disk)
      | (Ok _, disk) => execute_loop req disk_id data_descs mem disk 0
      end
  end.
End Request.
