(* ===== verification/BlockSpec.v ===== *)
(** Correctness of virtio-blk requests: which descriptor chains are requests,
    which segments pass the check of the capacity, and what executing a request
    does to the disk and to guest memory. *)

From S2P Require Import Prelude VsockStream VsockPacket VirtioMem Block.

(** ** Chains *)

(** The direction and size a segment must have. *)
Definition segment_ok (t : RequestType) (max_size : Z) (d : Descriptor) : Prop :=
  match t with
  | T_Out => d_write_only d = false /\ d_len d <= max_size
  | T_In => d_write_only d = true /\ d_len d <= max_size
  | T_GetDeviceID => d_write_only d = true
  | _ => True
  end.

Definition io_of (c : ChainDesc) : IoDataDesc := mkIoDataDesc (d_addr (cd_desc c)) (d_len (cd_desc c)).

Lemma check_request_ok req d max_size : check_request req d max_size = Ok tt <-> segment_ok (br_type req) max_size d.
Proof.
  unfold check_request, segment_ok. destruct (br_type req), (d_write_only d); cbn [negb]; rewrite ?Z.gtb_ltb;
    try (destruct (Z.ltb_spec max_size (d_len d))); split; try done; intros [? ?]; lia.
Qed.

Lemma parse_data_ok req max_size desc chain acc st data_descs :
  parse_data req max_size desc chain acc = (Ok st, data_descs) <->
  exists mid rest, desc :: chain = mid ++ st :: rest /\ cd_has_next st = false /\ data_descs = acc ++ (io_of <$> mid) /\
    Forall (fun c => cd_has_next c = true /\ segment_ok (br_type req) max_size (cd_desc c)) mid.
Proof.
  revert desc acc. induction chain as [|d' chain IH]; intros desc acc; cbn [parse_data]; destruct (cd_has_next desc) eqn:En; cbn [negb].
  - destruct (check_request _ _ _) as [[]|e] eqn:Ec; (split; [done|]); intros ([|c mid] & rest & E & Es & _ & Hm).
    all: injection E as <- E; try congruence; by destruct mid.
  - split.
    + intros [= <- <-]. exists [], []. by rewrite app_nil_r.
    + intros ([|c mid] & rest & E & Es & -> & Hm); injection E as <- E; [by rewrite app_nil_r|by destruct mid].
  - destruct (check_request req (cd_desc desc) max_size) as [[]|e] eqn:Ec.
    + rewrite IH. apply check_request_ok in Ec. split.
      * intros (mid & rest & E & Es & -> & Hm). exists (desc :: mid), rest. rewrite E. split_and!; [done..| |by constructor].
        by rewrite <- app_assoc.
      * intros ([|c mid] & rest & E & Es & -> & Hm); injection E as <- E; [congruence|]. inversion Hm; subst.
        exists mid, rest. split_and!; try done. by rewrite <- app_assoc.
    + split; [done|]. intros ([|c mid] & rest & E & Es & _ & Hm); injection E as <- E; [congruence|].
      inversion Hm as [|? ? [_ Hs] _]; subst. apply check_request_ok in Hs. congruence.
  - split.
    + intros [= <- <-]. exists [], (d' :: chain). by rewrite app_nil_r.
    + intros ([|c mid] & rest & E & Es & -> & Hm); injection E as <- E; [by rewrite app_nil_r|].
      inversion Hm as [|? ? [? _] _]; subst. congruence.
Qed.

Section Parse.
Context {G : Type} `{MemGuest G} `{BlkGuest G}.

(** A chain of the virtio specification: a readable header, segments of the
    right direction (at least one, but for a flush), and a writable status byte
    in guest memory, which is the first descriptor after the header without the
    NEXT flag. *)
Definition request_chain (mem : G) (head max_size : Z) (chain : list ChainDesc) (req : BlkRequest) (data_descs : list IoDataDesc) : Prop :=
  exists hd segments st rest bs,
    chain = hd :: segments ++ st :: rest /\
    d_write_only (cd_desc hd) = false /\
    read_slice mem (d_addr (cd_desc hd)) HEADER_SIZE = Some bs /\
    req = mkBlkRequest (RequestType_from (field bs 0 4)) (field bs 8 8) (d_addr (cd_desc st)) head /\
    Forall (fun c => cd_has_next c = true /\ segment_ok (br_type req) max_size (cd_desc c)) segments /\
    (segments = [] -> br_type req = T_Flush) /\
    data_descs = io_of <$> segments /\
    cd_has_next st = false /\ d_write_only (cd_desc st) = true /\ 1 <= d_len (cd_desc st) /\
    address_in_range mem (d_addr (cd_desc st)) = true.

Lemma parse_status_ok (mem : G) req d req' :
  parse_status mem req d = Ok req' <->
  d_write_only d = true /\ 1 <= d_len d /\ address_in_range mem (d_addr d) = true /\
  req' = mkBlkRequest (br_type req) (br_sector req) (d_addr d) (br_index req).
Proof.
  unfold parse_status. destruct (d_write_only d); cbn [negb]; [|naive_solver].
  destruct (Z.ltb_spec (d_len d) 1); [naive_solver lia|]. destruct (address_in_range mem (d_addr d)); cbn [negb]; naive_solver.
Qed.

Lemma blk_parse_sound (mem : G) head chain max_size req data_descs :
  blk_parse mem head chain [] max_size = (Ok req, data_descs) -> request_chain mem head max_size chain req data_descs.
Proof.
  unfold blk_parse, RequestHeader_read_from. destruct chain as [|hd chain]; [done|].
  destruct (d_write_only (cd_desc hd)) eqn:Ew; [done|]. destruct (read_slice _ _ _) as [bs|] eqn:Er; [|done].
  destruct chain as [|d chain]; [done|]. cbn [br_type rh_request_type rh_sector header_of_bytes].
  set (rq := mkBlkRequest _ _ 0 head). destruct (cd_has_next d) eqn:En; cbn [negb].
  - destruct (parse_data rq max_size d chain []) as [[st|e] dd] eqn:Ed; [|done]. intros [= Hs <-].
    apply parse_data_ok in Ed as (mid & rest & E & Es & -> & Hm). apply parse_status_ok in Hs as (Hw & Hl & Ha & ->).
    exists hd, mid, st, rest, bs. rewrite E. split_and!; try done.
    intros ->. cbn in E. injection E as -> _. congruence.
  - destruct (bool_decide_reflect (RequestType_from (field bs 0 4) = T_Flush)) as [Hf|]; cbn [negb]; [|done]. intros [= Hs <-].
    apply parse_status_ok in Hs as (Hw & Hl & Ha & ->). exists hd, [], d, chain, bs. by split_and!.
Qed.

Lemma blk_parse_complete (mem : G) head chain max_size req data_descs :
  request_chain mem head max_size chain req data_descs -> blk_parse mem head chain [] max_size = (Ok req, data_descs).
Proof.
  intros (hd & mid & st & rest & bs & -> & Ew & Er & Hreq & Hm & Hfl & -> & Es & Hw & Hl & Ha).
  assert (Hst : forall rq, parse_status mem rq (cd_desc st) = Ok (mkBlkRequest (br_type rq) (br_sector rq) (d_addr (cd_desc st)) (br_index rq)))
    by (intros rq; by apply parse_status_ok).
  unfold blk_parse, RequestHeader_read_from. rewrite Ew, Er. cbn [br_type rh_request_type rh_sector header_of_bytes].
  set (rq := mkBlkRequest _ _ 0 head). assert (Ht : br_type rq = br_type req) by by rewrite Hreq.
  destruct mid as [|d mid]; cbn [app].
  - rewrite Es. cbn [negb]. rewrite bool_decide_true by (by rewrite <- Hfl, <- Ht). cbn [negb]. by rewrite Hst, Hreq.
  - rewrite (proj1 (proj1 (proj1 (Forall_cons _ _ _) Hm))). cbn [negb].
    assert (Ed : parse_data rq max_size d (mid ++ st :: rest) [] = (Ok st, [] ++ (io_of <$> d :: mid))).
    { apply parse_data_ok. exists (d :: mid), rest. split_and!; try done. by rewrite Ht. }
    rewrite Ed. by rewrite Hst, Hreq.
Qed.

(** Parsing.  A chain is accepted exactly if it is a request of the virtio
    specification: a readable header, segments that all have the direction of the
    request and at most the size the device announced (none is allowed for a flush
    only), and a writable status byte inside guest memory.  The request has the
    type and the sector of the header, and its segments are those of the chain, in
    order; of every other chain nothing but an error is kept. *)
Theorem blk_parse_correct (mem : G) head chain max_size :
  (forall req data_descs,
    blk_parse mem head chain [] max_size = (Ok req, data_descs) <-> request_chain mem head max_size chain req data_descs) /\
  ((~ exists req data_descs, request_chain mem head max_size chain req data_descs) <->
    exists e data_descs, blk_parse mem head chain [] max_size = (Err e, data_descs)).
Proof.
  split.
  - intros req data_descs. split; [apply blk_parse_sound|apply blk_parse_complete].
  - destruct (blk_parse mem head chain [] max_size) as [[req|e] dd] eqn:E; split.
    + intros Hn. exfalso. apply Hn. exists req, dd. by apply blk_parse_sound.
    + by intros (e & dd' & [=]).
    + intros _. by exists e, dd.
    + intros _ (req & dd' & Hr). apply blk_parse_complete in Hr. congruence.
Qed.
End Parse.

(** ** Capacity *)

(** The size of a segment in whole sectors. *)
Definition sectors_len (n : Z) : Z := (n + 511) / 512 * 512.

Lemma sectors_len_bounds n : n <= sectors_len n < n + 512.
Proof. unfold sectors_len. pose proof (Z.div_mod (n + 511) 512). pose proof (Z.mod_pos_bound (n + 511) 512). lia. Qed.

Section Capacity.
Context {D : Type} `{Ufile D}.

Definition segment_fits (req : BlkRequest) (disk : D) (io : IoDataDesc) : Prop :=
  sector_offset req + sectors_len (data_len io) <= get_capacity disk.

#[global] Instance segment_fits_dec req disk io : Decision (segment_fits req disk io).
Proof. unfold segment_fits. apply _. Defined.

Definition typed_descs (data_descs : list IoDataDesc) : Prop := Forall (fun io => in_u32 (data_len io)) data_descs.

Lemma check_capacity_ok req (disk : D) data_descs :
  get_capacity disk <= u64_max -> typed_descs data_descs ->
  check_capacity req disk data_descs =
    Ret (if decide (Forall (segment_fits req disk) data_descs) then Ok tt else Err (BadRequest InvalidOffset)).
Proof.
  intros Hcap. induction 1 as [|io data_descs Hio _ IH]; cbn [check_capacity]; [by rewrite decide_True|].
  unfold SECTOR_SIZE, SECTOR_SHIFT. change (Z.shiftl 1 9) with 512. rewrite add_u_ret by ulia. cbn [obind].
  rewrite sub_u_ret by ulia. cbn [obind]. change (512 - 1) with (2 ^ 9 - 1). rewrite land_not_low by ulia. change (2 ^ 9) with 512.
  replace ((data_len io + 512 - 1) / 512 * 512) with (sectors_len (data_len io)) by (unfold sectors_len; do 2 f_equal; lia).
  unfold checked_add. rewrite IH. unfold segment_fits at 2.
  destruct (Z.leb_spec (sectors_len (data_len io) + sector_offset req) u64_max) as [Hle|Hgt].
  - rewrite Z.gtb_ltb. destruct (Z.ltb_spec (get_capacity disk) (sectors_len (data_len io) + sector_offset req)) as [Hlt|Hge].
    + rewrite decide_False; [done|]. rewrite Forall_cons. unfold segment_fits at 1. lia.
    + f_equal. destruct (decide (Forall (segment_fits req disk) data_descs)) as [Hf|Hf].
      * rewrite decide_True; [done|]. constructor; [unfold segment_fits; lia|done].
      * rewrite decide_False; [done|]. by rewrite Forall_cons; intros [_ ?].
  - rewrite decide_False; [done|]. rewrite Forall_cons. unfold segment_fits at 1. lia.
Qed.

(** The bytes of all segments. *)
Fixpoint total_len (data_descs : list IoDataDesc) : Z :=
  match data_descs with [] => 0 | io :: data_descs => data_len io + total_len data_descs end.

Lemma sector_offset_small req : 0 <= br_sector req < 2 ^ 55 -> sector_offset req = 512 * br_sector req.
Proof.
  intros Hs. unfold sector_offset, SECTOR_SHIFT, as_u64. rewrite Z.shiftl_mul_pow2 by lia. change (2 ^ 55) with 36028797018963968 in Hs.
  rewrite Z.mod_small; ulia.
Qed.

(** The check of the capacity.  It passes exactly if each segment by itself,
    rounded up to sectors and placed at the start of the request, ends within the
    disk, and fails with [InvalidOffset] otherwise.  So a request of one segment
    below sector 2^55 stays on the disk.  With more segments it need not: for every
    disk of whole sectors there is a request that passes and ends behind the disk;
    and the sectors from 2^55 on are taken for those at the start. *)
Theorem capacity_check_correct req (disk : D) data_descs :
  get_capacity disk <= u64_max -> typed_descs data_descs ->
  (check_capacity req disk data_descs = Ret (Ok tt) <-> Forall (segment_fits req disk) data_descs) /\
  (check_capacity req disk data_descs = Ret (Ok tt) \/ check_capacity req disk data_descs = Ret (Err (BadRequest InvalidOffset))) /\
  (check_capacity req disk data_descs = Ret (Ok tt) -> 0 <= br_sector req < 2 ^ 55 -> length data_descs = 1%nat ->
    512 * br_sector req + total_len data_descs <= get_capacity disk) /\
  (forall n, get_capacity disk = 512 * n -> 1 <= n < 2 ^ 55 ->
    exists req data_descs, check_capacity req disk data_descs = Ret (Ok tt) /\ br_sector req = n - 1 /\
      get_capacity disk < 512 * br_sector req + total_len data_descs) /\
  sector_offset (mkBlkRequest (br_type req) (br_sector req + 2 ^ 55) (br_status_addr req) (br_index req)) = sector_offset req.
Proof.
  intros Hcap Hty. rewrite check_capacity_ok by done. split_and!.
  - destruct (decide _); naive_solver.
  - destruct (decide _); auto.
  - destruct (decide _) as [Hf|]; [|done]. intros _ Hs Hl. destruct data_descs as [|io [|? ?]]; try done.
    inversion Hf as [|? ? Hio]; subst. unfold segment_fits in Hio. rewrite sector_offset_small in Hio by done. cbn [total_len].
    pose proof (sectors_len_bounds (data_len io)). lia.
  - intros n Hn Hr. exists (mkBlkRequest T_Out (n - 1) 0 0), [mkIoDataDesc 0 512; mkIoDataDesc 0 512]. cbn [br_sector total_len data_len].
    split_and!; [|done|lia]. rewrite check_capacity_ok; [|done|repeat constructor; cbn; ulia]. rewrite decide_True; [done|].
    assert (Hs : segment_fits (mkBlkRequest T_Out (n - 1) 0 0) disk (mkIoDataDesc 0 512)); [|by repeat constructor].
    unfold segment_fits. rewrite sector_offset_small by (cbn; lia). cbn [br_sector data_len]. change (sectors_len 512) with 512. lia.
  - unfold sector_offset, as_u64, SECTOR_SHIFT. cbn [br_sector]. rewrite !Z.shiftl_mul_pow2 by lia.
    replace ((br_sector req + 2 ^ 55) * 2 ^ 9) with (br_sector req * 2 ^ 9 + 1 * 2 ^ 64) by lia. apply Z_mod_plus_full.
Qed.
End Capacity.

(** ** Execution *)

(** The disk holds bytes and has a position; requests are in flight at its engine.
    What changes the one leaves the other, and the announced sizes, alone. *)
Class UfileLaws (D : Type) `{Ufile D} := {
  content : D -> bytes;
  position : D -> Z;
  inflight : D -> list Z;
  seek_start_ok d p r d' : seek_start d p = (r, d') ->
    content d' = content d /\ (forall n, r = Ok n -> position d' = p) /\
    inflight d' = inflight d /\ get_capacity d' = get_capacity d /\ get_max_size d' = get_max_size d;
  flush_ok d r d' : ufile_flush d = (r, d') ->
    content d' = content d /\ position d' = position d /\
    inflight d' = inflight d /\ get_capacity d' = get_capacity d /\ get_max_size d' = get_max_size d;
  read_submit_ok d offset iovecs u r d' : in_u16 u -> io_read_submit d offset iovecs u = (r, d') ->
    inflight d' = (match r with Ok _ => [u] | Err _ => [] end) ++ inflight d /\
    get_capacity d' = get_capacity d /\ get_max_size d' = get_max_size d;
  write_submit_ok d offset iovecs u r d' : in_u16 u -> io_write_submit d offset iovecs u = (r, d') ->
    inflight d' = (match r with Ok _ => [u] | Err _ => [] end) ++ inflight d /\
    get_capacity d' = get_capacity d /\ get_max_size d' = get_max_size d;
  (** Each completion is one of the requests in flight. *)
  io_complete_ok d iovs d' : ufile_io_complete d = (Ok iovs, d') ->
    inflight d ≡ₚ (iovs.*1) ++ inflight d' /\
    get_capacity d' = get_capacity d /\ get_max_size d' = get_max_size d;
}.

(** [bs] in place of the bytes of [l] at [p]. *)
Definition splice (l : bytes) (p : Z) (bs : bytes) : bytes := ztake p l ++ bs ++ zdrop (p + zlen bs) l.

(** A transfer moves the first bytes of the buffer, and says how many; it may be
    fewer than asked for. *)
Class TransferLaws (G D : Type) `{MemGuest G} `{UfileLaws D} `{!Transfer G D} := {
  write_to_ok g a d n r d' : mem_write_to g a d n = (r, d') ->
    inflight d' = inflight d /\ get_capacity d' = get_capacity d /\ get_max_size d' = get_max_size d /\
    forall k, r = Ok k -> exists bs, 0 <= k <= n /\ read_slice g a k = Some bs /\ zlen bs = k /\ position d' = position d + k /\
      (position d + k <= zlen (content d) -> content d' = splice (content d) (position d) bs);
  read_from_ok g a d n r g' d' : mem_read_from g a d n = (r, g', d') ->
    inflight d' = inflight d /\ get_capacity d' = get_capacity d /\ get_max_size d' = get_max_size d /\ content d' = content d /\
    forall k, r = Ok k -> 0 <= k <= n /\ position d' = position d + k /\ zlen (ztake k (zdrop (position d) (content d))) = k /\
      write_slice g a (ztake k (zdrop (position d) (content d))) = Some g';
}.

(** A regular file takes and gives all that lies within it. *)
Class CompleteTransfer (G D : Type) `{MemGuest G} `{UfileLaws D} `{!Transfer G D} : Prop := {
  write_to_all g a d n k d' : mem_write_to g a d n = (Ok k, d') -> 0 <= position d -> position d + n <= zlen (content d) -> k = n;
  read_from_all g a d n k g' d' : mem_read_from g a d n = (Ok k, g', d') -> 0 <= position d -> position d + n <= zlen (content d) -> k = n;
}.

Lemma zlen_splice l p bs : 0 <= p -> p + zlen bs <= zlen l -> zlen (splice l p bs) = zlen l.
Proof. intros Hp Hl. pose proof (zlen_nonneg bs). unfold splice. rewrite !zlen_app, zlen_ztake, zlen_zdrop by lia. lia. Qed.

Lemma splice_splice l p a b :
  0 <= p -> p + zlen a + zlen b <= zlen l -> splice (splice l p a) (p + zlen a) b = splice l p (a ++ b).
Proof.
  intros Hp Hl. pose proof (zlen_nonneg a). pose proof (zlen_nonneg b). unfold splice at 1.
  assert (E : splice l p a = (ztake p l ++ a) ++ zdrop (p + zlen a) l) by (unfold splice; by rewrite app_assoc).
  assert (Hx : zlen (ztake p l ++ a) = p + zlen a) by (rewrite zlen_app, zlen_ztake by lia; lia).
  rewrite E, (ztake_app _ (ztake p l ++ a)) by lia. unfold splice. rewrite <- !app_assoc. do 3 f_equal.
  rewrite zlen_app. unfold zdrop, ztake, zlen in *. rewrite app_assoc, drop_app_ge by lia. rewrite drop_drop. f_equal. lia.
Qed.

Section Execute.
Context {G D : Type} `{TransferLaws G D} `{!BlkGuest G}.

(** The segments hold the bytes. *)
Definition segment_bytes (g : G) : list IoDataDesc -> list bytes -> Prop :=
  Forall2 (fun io bs => read_slice g (data_addr io) (data_len io) = Some bs /\ zlen bs = data_len io).

(** The bytes written to the segments, one after the other. *)
Fixpoint write_segments (g : G) (data_descs : list IoDataDesc) (bs : bytes) : option G :=
  match data_descs with
  | [] => Some g
  | io :: data_descs =>
      match write_slice g (data_addr io) (ztake (data_len io) bs) with
      | Some g => write_segments g data_descs (zdrop (data_len io) bs)
      | None => None
      end
  end.

Lemma total_len_nonneg data_descs : typed_descs data_descs -> 0 <= total_len data_descs.
Proof. induction 1 as [|io l Hio _ IH]; cbn [total_len]; ulia. Qed.

Lemma execute_loop_returns req id data_descs (g : G) (d : D) len :
  typed_descs data_descs -> len + total_len data_descs <= u64_max ->
  exists r g' d', execute_loop req id data_descs g d len = Ret (r, g', d').
Proof.
  intros Hty. revert g d len. induction Hty as [|io l Hio Hl IH]; intros g d len Hs; cbn [execute_loop total_len] in *; [by do 3 eexists|].
  pose proof (total_len_nonneg l Hl). destruct (br_type req).
  - destruct (mem_read_from _ _ _ _) as [[[k|e] g1] d1]; [|by do 3 eexists]. rewrite add_u_ret by lia. apply IH. lia.
  - destruct (mem_write_to _ _ _ _) as [[k|e] d1]; [|by do 3 eexists]. apply IH. ulia.
  - destruct (ufile_flush d) as [[k|e] d1]; [|by do 3 eexists]. apply IH. ulia.
  - destruct (_ <? _); [by do 3 eexists|]. destruct (write_slice _ _ _); by do 3 eexists.
  - by do 3 eexists.
Qed.

Lemma execute_loop_kept req id data_descs (g : G) (d : D) len r g' d' :
  execute_loop req id data_descs g d len = Ret (r, g', d') ->
  inflight d' = inflight d /\ get_capacity d' = get_capacity d /\ get_max_size d' = get_max_size d.
Proof.
  revert g d len. induction data_descs as [|io l IH]; intros g d len; cbn [execute_loop]; [by intros [= _ _ <-]|].
  destruct (br_type req).
  - destruct (mem_read_from _ _ _ _) as [[[k|e] g1] d1] eqn:E; apply read_from_ok in E as (E1 & E2 & E3 & _); [|by intros [= _ _ <-]].
    intros Hx. bind_inv Hx. apply IH in Hx as (-> & -> & ->). done.
  - destruct (mem_write_to _ _ _ _) as [[k|e] d1] eqn:E; apply write_to_ok in E as (E1 & E2 & E3 & _); [|by intros [= _ _ <-]].
    intros (-> & -> & ->)%IH. done.
  - destruct (ufile_flush d) as [[k|e] d1] eqn:E; apply flush_ok in E as (_ & _ & E1 & E2 & E3); [|by intros [= _ _ <-]].
    intros (-> & -> & ->)%IH. done.
  - destruct (_ <? _); [by intros [= _ _ <-]|]. destruct (write_slice _ _ _); by intros [= _ _ <-].
  - by intros [= _ _ <-].
Qed.

Lemma segment_bytes_len (g : G) data_descs bss : segment_bytes g data_descs bss -> zlen (concat bss) = total_len data_descs.
Proof. induction 1 as [|io bs l bss [_ Hz] _ IH]; [done|]. cbn [concat total_len]. rewrite zlen_app. lia. Qed.

Lemma execute_returns req id data_descs (g : G) (d : D) :
  get_capacity d <= u64_max -> typed_descs data_descs -> total_len data_descs <= u64_max ->
  exists r g' d', execute req d g data_descs id = Ret (r, g', d').
Proof.
  intros Hcap Hty Hs. unfold execute. rewrite check_capacity_ok by done. cbn [obind].
  destruct (decide _); [|by do 3 eexists]. destruct (seek_start _ _) as [[p|e] d1]; [|by do 3 eexists]. by apply execute_loop_returns.
Qed.

(** A request that succeeds has passed the check, and runs at its offset. *)
Lemma execute_ok req id data_descs (g : G) (d : D) n g' d' :
  get_capacity d <= u64_max -> typed_descs data_descs ->
  execute req d g data_descs id = Ret (Ok n, g', d') ->
  Forall (segment_fits req d) data_descs /\
  exists d1, content d1 = content d /\ position d1 = sector_offset req /\ get_capacity d1 = get_capacity d /\
    execute_loop req id data_descs g d1 0 = Ret (Ok n, g', d').
Proof.
  intros Hcap Hty. unfold execute. rewrite check_capacity_ok by done. cbn [obind]. destruct (decide _) as [Hf|]; [|done].
  destruct (seek_start _ _) as [[p|e] d1] eqn:E; [|done]. apply seek_start_ok in E as (Hc & Hp & _ & Hcap1 & _).
  intros Hx. split; [done|]. exists d1. split_and!; [done|by eapply Hp|done..].
Qed.

Lemma execute_kept req id data_descs (g : G) (d : D) r g' d' :
  execute req d g data_descs id = Ret (r, g', d') ->
  inflight d' = inflight d /\ get_capacity d' = get_capacity d /\ get_max_size d' = get_max_size d.
Proof.
  unfold execute. intros Hx. bind_inv Hx. destruct a as [[]|e]; [|by injection Hx as <- <- <-].
  destruct (seek_start _ _) as [[p|e] d1] eqn:E; apply seek_start_ok in E as (_ & _ & E1 & E2 & E3); [|by injection Hx as <- <- <-].
  apply execute_loop_kept in Hx as (-> & -> & ->). done.
Qed.

(** A flush without segments, as the specification has it, only seeks: the disk is
    not flushed, and the request succeeds. *)
Lemma flush_without_data req id (g : G) (d : D) :
  execute req d g [] id =
    match seek_start d (sector_offset req) with (Err e, d) => Ret (Err (ESeek e), g, d) | (Ok _, d) => Ret (Ok 0, g, d) end.
Proof. unfold execute. cbn. destruct (seek_start _ _) as [[n|e] d1]; done. Qed.

Context `{!CompleteTransfer G D}.

Lemma execute_loop_out req id data_descs (g : G) (d : D) len n g' d' :
  br_type req = T_Out -> typed_descs data_descs -> 0 <= position d -> position d + total_len data_descs <= zlen (content d) ->
  execute_loop req id data_descs g d len = Ret (Ok n, g', d') ->
  n = as_u32 len /\ g' = g /\
  exists bss, segment_bytes g data_descs bss /\ content d' = splice (content d) (position d) (concat bss).
Proof.
  intros Ht Hty. revert d. induction Hty as [|io l Hio Hl IH]; intros d Hp Hs Hx; cbn [execute_loop total_len] in *.
  - injection Hx as <- <- <-. split_and!; [done..|]. exists []. split; [constructor|]. unfold splice. cbn.
    by rewrite Z.add_0_r, ztake_zdrop.
  - rewrite Ht in Hx. pose proof (total_len_nonneg l Hl). destruct (mem_write_to _ _ _ _) as [[k|e] d1] eqn:E; [|done].
    assert (k = data_len io) as -> by (apply (write_to_all _ _ _ _ _ _ E); lia). apply write_to_ok in E as (_ & _ & _ & Hw).
    destruct (Hw _ eq_refl) as (bs & Hk & Hr & Hb & Hp' & Hc). clear Hw.
    assert (Hc1 : content d1 = splice (content d) (position d) bs) by (apply Hc; lia).
    assert (Hlen : zlen (content d1) = zlen (content d)) by (rewrite Hc1; apply zlen_splice; lia).
    apply IH in Hx as (-> & -> & bss & Hbss & Hc2); [|lia..]. split_and!; [done..|]. exists (bs :: bss). split; [by constructor|].
    rewrite Hc2, Hc1, Hp'. cbn [concat]. rewrite <- Hb. apply splice_splice; [done|].
    rewrite (segment_bytes_len _ _ _ Hbss). lia.
Qed.

(** The bytes read from the disk go to the segments. *)
Lemma write_segments_take (g : G) data_descs bs :
  typed_descs data_descs -> write_segments g data_descs (ztake (total_len data_descs) bs) = write_segments g data_descs bs.
Proof.
  intros Hty. revert g bs. induction Hty as [|io l Hio Hl IH]; intros g bs; cbn [write_segments total_len]; [done|].
  pose proof (total_len_nonneg l Hl). unfold ztake, zdrop in *. rewrite take_take, Nat.min_l by ulia.
  destruct (write_slice _ _ _) as [g1|]; [|done]. rewrite skipn_firstn_comm. rewrite <- (IH g1 (drop _ bs)). do 2 f_equal. ulia.
Qed.

Lemma execute_loop_in req id data_descs (g : G) (d : D) len n g' d' :
  br_type req = T_In -> typed_descs data_descs -> 0 <= position d -> position d + total_len data_descs <= zlen (content d) ->
  execute_loop req id data_descs g d len = Ret (Ok n, g', d') ->
  n = as_u32 (len + total_len data_descs) /\ content d' = content d /\
  write_segments g data_descs (zdrop (position d) (content d)) = Some g'.
Proof.
  intros Ht Hty. revert d g len. induction Hty as [|io l Hio Hl IH]; intros d g len Hp Hs Hx; cbn [execute_loop total_len write_segments] in *.
  - injection Hx as <- <- <-. by rewrite Z.add_0_r.
  - rewrite Ht in Hx. pose proof (total_len_nonneg l Hl). destruct (mem_read_from _ _ _ _) as [[[k|e] g1] d1] eqn:E; [|done].
    assert (k = data_len io) as -> by (apply (read_from_all _ _ _ _ _ _ _ E); lia). apply read_from_ok in E as (_ & _ & _ & Hc & Hw).
    destruct (Hw _ eq_refl) as (Hk & Hp' & _ & Hg). rewrite Hg. bind_inv Hx. apply add_u_inv in Ha as [-> _].
    apply IH in Hx as (-> & -> & Hw2); [|rewrite ?Hc; lia..]. split_and!; [f_equal; lia|done|].
    rewrite <- Hw2, Hp', Hc. f_equal. unfold zdrop. rewrite drop_drop. f_equal. lia.
Qed.

(** C18. Data.  Executing a write and then a read of the same sector and length
    returns, and if both succeed the disk holds the bytes of the segments of the
    write, in order, from that sector on and is otherwise as before; the write
    leaves guest memory alone and the read the disk; and the read puts exactly
    these bytes into its own segments, in whatever pieces, and reports their
    number. *)
Theorem block_write_read (g g1 : G) (d : D) out_req in_req out_descs in_descs id :
  br_type out_req = T_Out -> br_type in_req = T_In -> br_sector in_req = br_sector out_req ->
  typed_descs out_descs -> typed_descs in_descs -> total_len in_descs = total_len out_descs ->
  sector_offset out_req + total_len out_descs <= zlen (content d) <= u64_max -> get_capacity d <= u64_max ->
  exists r g' d1, execute out_req d g out_descs id = Ret (r, g', d1) /\
    forall n, r = Ok n -> n = 0 /\ g' = g /\
      exists bss, segment_bytes g out_descs bss /\ content d1 = splice (content d) (sector_offset out_req) (concat bss) /\
      exists r g2 d2, execute in_req d1 g1 in_descs id = Ret (r, g2, d2) /\
        forall n, r = Ok n -> n = as_u32 (total_len out_descs) /\ content d2 = content d1 /\
          write_segments g1 in_descs (concat bss) = Some g2.
Proof.
  intros Ht1 Ht2 Hsec Hty1 Hty2 Htot [Hfit Hmax] Hcap. set (off := sector_offset out_req) in *.
  assert (Hoff : 0 <= off) by (unfold off, sector_offset, as_u64; apply Z.mod_pos_bound; lia).
  assert (Hoff2 : sector_offset in_req = off) by (unfold off, sector_offset; by rewrite Hsec).
  destruct (execute_returns out_req id out_descs g d) as (r & g' & d1 & E); [done..|lia|]. exists r, g', d1. split; [done|].
  intros n ->. apply execute_ok in E as (_ & d0 & Hc0 & Hp0 & Hcap0 & E); [|done..]. rewrite <- Hc0 in *.
  pose proof (execute_loop_kept _ _ _ _ _ _ _ _ _ E) as (_ & Hcap1 & _).
  apply execute_loop_out in E as (-> & -> & bss & Hbss & Hc1); [|rewrite ?Hp0; done..]. rewrite Hp0 in Hc1.
  pose proof (segment_bytes_len _ _ _ Hbss) as Hlen. split_and!; [done..|]. exists bss. split_and!; [done..|].
  destruct (execute_returns in_req id in_descs g1 d1) as (r2 & g2 & d2 & E2); [lia|done|lia|]. exists r2, g2, d2. split; [done|].
  intros n ->. apply execute_ok in E2 as (_ & d3 & Hc3 & Hp3 & _ & E2); [|lia|done].
  assert (Hz : zlen (content d1) = zlen (content d0)) by (rewrite Hc1; apply zlen_splice; [done|fold off; lia]).
  apply execute_loop_in in E2 as (-> & Hc2 & Hw); [|rewrite ?Hp3, ?Hc3, ?Hoff2; fold off; lia || done..].
  rewrite Htot. split_and!; [done|congruence|]. rewrite <- Hw, <- (write_segments_take g1 in_descs (zdrop _ _)), Hc3, Hp3, Hoff2, Hc1 by done.
  pose proof (total_len_nonneg out_descs Hty1).
  f_equal. unfold splice. fold off. rewrite zdrop_app by (rewrite zlen_ztake; lia). rewrite ztake_app; [done|lia].
Qed.
End Execute.
