(* ===== verification/BlockHandler.v ===== *)
(** The handler of one virtio-blk queue (dbs_virtio_devices/src/block/handler.rs):
    requests are executed at once or submitted to the engine, kept until they
    complete, and returned to the guest; the rate limiter may stop the queue.

    The events of the epoll loop carry what the calls outside return: the reading
    of the eventfd, the chains an iteration of the queue finds, the expirations of
    the timer and the result of the notification. *)

From S2P Require Import Prelude RateLimiter VsockStream VsockPacket VirtioMem Block.

(** [x as i64] for a [u64]. *)
Definition as_i64 (x : Z) : Z := if x <? 2 ^ 63 then x else x - 2 ^ 64.

Inductive KillEvent : Type :=
| Kill
| KillBucketUpdate (bytes_ ops_ : BucketUpdate).

(** [InnerBlockEpollHandler]; the queue and guest memory are passed along. *)
Record BlkHandler (D : Type) := mkBlkHandler {
  bh_disk_image : D;
  bh_disk_image_id : bytes;
  bh_rate_limiter : RateLimiter;
  bh_pending_req_map : gmap Z BlkRequest;
  bh_data_desc_vec : list (list IoDataDesc);
  bh_iovecs_vec : list (list IoDataDesc);
  bh_evt_receiver : list KillEvent;
}.
Arguments mkBlkHandler {D}.
Arguments bh_disk_image {D}.
Arguments bh_disk_image_id {D}.
Arguments bh_rate_limiter {D}.
Arguments bh_pending_req_map {D}.
Arguments bh_data_desc_vec {D}.
Arguments bh_iovecs_vec {D}.
Arguments bh_evt_receiver {D}.

Section Setters.
Context {D : Type}.
Definition set_bh_disk (h : BlkHandler D) (x : D) : BlkHandler D :=
  mkBlkHandler x (bh_disk_image_id h) (bh_rate_limiter h) (bh_pending_req_map h) (bh_data_desc_vec h) (bh_iovecs_vec h) (bh_evt_receiver h).
Definition set_bh_limiter (h : BlkHandler D) (x : RateLimiter) : BlkHandler D :=
  mkBlkHandler (bh_disk_image h) (bh_disk_image_id h) x (bh_pending_req_map h) (bh_data_desc_vec h) (bh_iovecs_vec h) (bh_evt_receiver h).
Definition set_bh_pending (h : BlkHandler D) (x : gmap Z BlkRequest) : BlkHandler D :=
  mkBlkHandler (bh_disk_image h) (bh_disk_image_id h) (bh_rate_limiter h) x (bh_data_desc_vec h) (bh_iovecs_vec h) (bh_evt_receiver h).
Definition set_bh_descs (h : BlkHandler D) (x : list (list IoDataDesc)) : BlkHandler D :=
  mkBlkHandler (bh_disk_image h) (bh_disk_image_id h) (bh_rate_limiter h) (bh_pending_req_map h) x (bh_iovecs_vec h) (bh_evt_receiver h).
Definition set_bh_iovecs (h : BlkHandler D) (x : list (list IoDataDesc)) : BlkHandler D :=
  mkBlkHandler (bh_disk_image h) (bh_disk_image_id h) (bh_rate_limiter h) (bh_pending_req_map h) (bh_data_desc_vec h) x (bh_evt_receiver h).
Definition set_bh_events (h : BlkHandler D) (x : list KillEvent) : BlkHandler D :=
  mkBlkHandler (bh_disk_image h) (bh_disk_image_id h) (bh_rate_limiter h) (bh_pending_req_map h) (bh_data_desc_vec h) (bh_iovecs_vec h) x.
End Setters.

(** An available chain: the index of its head, its descriptors and the clock
    readings of the two buckets of the limiter. *)
Record AvailChain := mkAvailChain {
  ac_head : Z;
  ac_descs : list ChainDesc;
  ac_clk_ops : Z * Z;
  ac_clk_bytes : Z * Z;
}.

Definition trigger_rate_limit (rate_limiter : RateLimiter) (req : BlkRequest) (data_descs : list IoDataDesc)
  (clk_ops clk_bytes : Z * Z) : outcome (bool * RateLimiter) :=
  let! (ok, rate_limiter) := consume rate_limiter 1 Ops clk_ops in
  if negb ok then Ret (true, rate_limiter) else
  if bool_decide (br_type req = T_In) || bool_decide (br_type req = T_Out) then
    let! len := request_data_len data_descs in
    let! (ok, rate_limiter) := consume rate_limiter len Bytes clk_bytes in
    if negb ok then
      let! rate_limiter := manual_replenish rate_limiter 1 Ops in
      Ret (true, rate_limiter)
    else Ret (false, rate_limiter)
  else Ret (false, rate_limiter).

(** What an event of the loop brings. *)
Inductive BlkEvent : Type :=
| QueueAvailEvent (consumed : result unit Z) (avail : result (list AvailChain) Z) (notified : result unit Z)
| EndIoEvent (notified : result unit Z)
| RateLimiterEvent (expirations : Z) (avail : result (list AvailChain) Z) (notified : result unit Z)
| KillEvt
| OtherSlot (slot : Z).

Section Handler.
Context {G D : Type} `{MemGuest G} `{GuestMem G} `{BlkGuest G} `{Ufile D} `{Transfer G D}.
Notation Hd := (BlkHandler D).

Definition status_of_error (e : ExecuteError) : Z :=
  match e with
  | BadRequest _ | EFlush _ | ERead _ | EWrite _ | ESeek _ | EGetDeviceID => VIRTIO_BLK_S_IOERR
  | EUnsupported _ => VIRTIO_BLK_S_UNSUPP
  end.

Definition process_request (req : BlkRequest) (data_descs : list IoDataDesc) (disk_image : D) (disk_image_id : bytes) (mem : G) :
  outcome (result Z ExecuteError * G * D) :=
  let! (r, mem, disk_image) := execute req disk_image mem data_descs disk_image_id in
  match r with
  | Ok l => let! mem := update_status mem req VIRTIO_BLK_S_OK in Ret (Ok l, mem, disk_image)
  | Err e => let! mem := update_status mem req (status_of_error e) in Ret (Err e, mem, disk_image)
  end.

(** The host addresses of the segments, up to the first that has none. *)
Fixpoint host_iovecs (mem : G) (data_descs iovecs : list IoDataDesc) : result unit ExecuteError * list IoDataDesc :=
  match data_descs with
  | [] => (Ok tt, iovecs)
  | io :: data_descs =>
      match get_host_address mem (data_addr io) with
      | None => (Err (BadRequest GuestMemory), iovecs)
      | Some host_addr => host_iovecs mem data_descs (iovecs ++ [mkIoDataDesc host_addr (data_len io)])
      end
  end.

Definition process_aio_request (req : BlkRequest) (data_descs iovecs : list IoDataDesc) (disk_image : D) (mem : G) :
  outcome (result bool ExecuteError * list IoDataDesc * D) :=
  if bool_decide (br_type req <> T_In) && bool_decide (br_type req <> T_Out) then Ret (Ok false, iovecs, disk_image) else
  let! r := check_capacity req disk_image data_descs in
  match r with
  | Err e => Ret (Err e, iovecs, disk_image)
  | Ok _ =>
      let '(r, iovecs) := host_iovecs mem data_descs iovecs in
      match r with
      | Err e => Ret (Err e, iovecs, disk_image)
      | Ok _ =>
          let! submiter :=
            match br_type req with
            | T_In => Ret io_read_submit
            | T_Out => Ret io_write_submit
            | _ => Panic
            end in
          match submiter disk_image (as_i64 (sector_offset req)) iovecs (br_index req) with
          | (Ok _, disk_image) => Ret (Ok true, iovecs, disk_image)
          | (Err _, disk_image) => Ret (Ok false, iovecs, disk_image)
          end
      end
  end.

(** What became of a chain. *)
Inductive ChainEnd : Type :=
| Limited
| Submitted
| Used (len : Z).

(** A parsed request that passed the limiter. *)
Definition serve_request (h : Hd) (mem : G) (index : Z) (req : BlkRequest) (data_descs : list IoDataDesc) :
  outcome (ChainEnd * Hd * G) :=
  let! (r, iovecs, disk) := process_aio_request req data_descs [] (bh_disk_image h) mem in
  let h := set_bh_disk (set_bh_iovecs h (<[Z.to_nat index := iovecs]> (bh_iovecs_vec h))) disk in
  match r with
  | Ok true => Ret (Submitted, set_bh_pending h (<[br_index req := req]> (bh_pending_req_map h)), mem)
  | Err _ =>
      let! mem := update_status mem req VIRTIO_BLK_S_IOERR in
      Ret (Used 0, h, mem)
  | Ok false =>
      let! data_descs := unwrap (bh_data_desc_vec h !! Z.to_nat (br_index req)) in
      let! (r, mem, disk) := process_request req data_descs (bh_disk_image h) (bh_disk_image_id h) mem in
      Ret (Used (match r with Ok num_bytes_to_mem => num_bytes_to_mem | Err _ => 0 end), set_bh_disk h disk, mem)
  end.

(** One round of the loop ['next_desc]. *)
Definition process_chain (h : Hd) (mem : G) (c : AvailChain) : outcome (ChainEnd * Hd * G) :=
  let index := ac_head c in
  let! _ := unwrap (bh_data_desc_vec h !! Z.to_nat index) in
  let! _ := unwrap (bh_iovecs_vec h !! Z.to_nat index) in
  let '(r, data_descs) := blk_parse mem index (ac_descs c) [] (get_max_size (bh_disk_image h)) in
  let h := set_bh_iovecs (set_bh_descs h (<[Z.to_nat index := data_descs]> (bh_data_desc_vec h)))
             (<[Z.to_nat index := []]> (bh_iovecs_vec h)) in
  match r with
  | Err _ => Ret (Used 0, h, mem)
  | Ok req =>
      let! (limited, rate_limiter) :=
        trigger_rate_limit (bh_rate_limiter h) req data_descs (ac_clk_ops c) (ac_clk_bytes c) in
      let h := set_bh_limiter h rate_limiter in
      if limited then Ret (Limited, h, mem) else serve_request h mem index req data_descs
  end.

(** The loop: the used chains, and those still available afterwards; the one that
    was limited is put back. *)
Fixpoint process_chains (h : Hd) (mem : G) (avail : list AvailChain) :
  outcome (list (Z * Z) * list AvailChain * Hd * G) :=
  match avail with
  | [] => Ret ([], [], h, mem)
  | c :: avail' =>
      let! (e, h, mem) := process_chain h mem c in
      match e with
      | Limited => Ret ([], avail, h, mem)
      | Submitted => process_chains h mem avail'
      | Used len =>
          let! (used, left_, h, mem) := process_chains h mem avail' in
          Ret ((ac_head c, len) :: used, left_, h, mem)
      end
  end.

(** [VirtioQueueConfig::add_used], which panics when it fails. *)
Definition vq_add_used (mem : G) (desc_index len : Z) : outcome G := unwrap (queue_add_used mem desc_index len).

Fixpoint add_used_all (mem : G) (used : list (Z * Z)) : outcome G :=
  match used with
  | [] => Ret mem
  | (index, len) :: used => let! mem := vq_add_used mem index len in add_used_all mem used
  end.

(** [process_queue]: whether the guest is to be notified, the chains returned to
    it and those left. *)
Definition blk_process_queue (h : Hd) (mem : G) (avail : result (list AvailChain) Z) :
  outcome (bool * list (Z * Z) * list AvailChain * Hd * G) :=
  match avail with
  | Err _ => Ret (false, [], [], h, mem)
  | Ok avail =>
      let! (used, left_, h, mem) := process_chains h mem avail in
      let! mem := add_used_all mem used in
      Ret (negb (length used =? 0)%nat, used, left_, h, mem)
  end.

(** The loop of [io_complete]. *)
Fixpoint complete_all (h : Hd) (mem : G) (iovs : list (Z * Z)) : outcome (result unit BlkError * list (Z * Z) * Hd * G) :=
  match iovs with
  | [] => Ret (Ok tt, [], h, mem)
  | (index, res2) :: iovs =>
      match bh_pending_req_map h !! index with
      | None => Ret (Err InternalError, [], h, mem)
      | Some req =>
          let h := set_bh_pending h (delete index (bh_pending_req_map h)) in
          let mem := default mem (write_slice mem (br_status_addr req) [res2 mod 2 ^ 8]) in
          let! data_descs := unwrap (bh_data_desc_vec h !! Z.to_nat (br_index req)) in
          let! len := match br_type req with T_In => request_data_len data_descs | T_Out => Ret 0 | _ => Panic end in
          let! mem := vq_add_used mem (br_index req) len in
          let! (r, used, h, mem) := complete_all h mem iovs in
          Ret (r, (br_index req, len) :: used, h, mem)
      end
  end.

Definition blk_io_complete (h : Hd) (mem : G) (notified : result unit Z) :
  outcome (result unit BlkError * list (Z * Z) * Hd * G) :=
  match ufile_io_complete (bh_disk_image h) with
  | (Err e, disk) => Ret (Err (IOError e), [], set_bh_disk h disk, mem)
  | (Ok iovs, disk) =>
      let h := set_bh_disk h disk in
      if (length iovs =? 0)%nat then Ret (Ok tt, [], h, mem) else
      let! (r, used, h, mem) := complete_all h mem iovs in
      match r with
      | Err e => Ret (Err e, used, h, mem)
      | Ok _ => Ret (match notified with Ok _ => Ok tt | Err e => Err (IOError e) end, used, h, mem)
      end
  end.

Definition get_patch_rate_limiters (h : Hd) (bytes_ ops_ : BucketUpdate) : Hd :=
  set_bh_limiter h (update_buckets (bh_rate_limiter h) bytes_ ops_).

(** The loop over the pending kill events: whether to stop. *)
Fixpoint receive_events (h : Hd) (evts : list KillEvent) : bool * Hd :=
  match evts with
  | [] => (false, set_bh_events h [])
  | Kill :: evts => (true, set_bh_events h evts)
  | KillBucketUpdate bytes_ ops_ :: evts => receive_events (get_patch_rate_limiters h bytes_ ops_) evts
  end.

(** [process_queue] and the notification of the guest, which must not fail. *)
Definition process_and_notify (h : Hd) (mem : G) (avail : result (list AvailChain) Z) (notified : result unit Z) :
  outcome (list (Z * Z) * list AvailChain * Hd * G) :=
  let! (notify, used, left_, h, mem) := blk_process_queue h mem avail in
  if notify then
    match notified with
    | Ok _ => Ret (used, left_, h, mem)
    | Err _ => Panic
    end
  else Ret (used, left_, h, mem).

Definition avail_chains (avail : result (list AvailChain) Z) : list AvailChain :=
  match avail with Ok l => l | Err _ => [] end.

(** [handle_event]: whether the loop ends, the chains returned to the guest and
    those left. *)
Definition blk_handle_event (h : Hd) (mem : G) (ev : BlkEvent) :
  outcome (bool * list (Z * Z) * list AvailChain * Hd * G) :=
  match ev with
  | QueueAvailEvent consumed avail notified =>
      match consumed with
      | Err _ => Ret (true, [], avail_chains avail, h, mem)
      | Ok _ =>
          if is_blocked (bh_rate_limiter h) then Ret (false, [], avail_chains avail, h, mem) else
          let! (used, left_, h, mem) := process_and_notify h mem avail notified in
          Ret (false, used, left_, h, mem)
      end
  | EndIoEvent notified =>
      let! (r, used, h, mem) := blk_io_complete h mem notified in
      match r with
      | Ok _ => Ret (false, used, [], h, mem)
      | Err _ => Panic
      end
  | RateLimiterEvent expirations avail notified =>
      let '(r, rate_limiter) := event_handler (bh_rate_limiter h) expirations in
      let h := set_bh_limiter h rate_limiter in
      match r with
      | Err _ => Ret (false, [], avail_chains avail, h, mem)
      | Ok _ =>
          let! (used, left_, h, mem) := process_and_notify h mem avail notified in
          Ret (false, used, left_, h, mem)
      end
  | KillEvt =>
      let '(stop, h) := receive_events h (bh_evt_receiver h) in
      Ret (stop, [], [], h, mem)
  | OtherSlot _ => Panic
  end.
End Handler.
