(* ===== verification/BlockProps.v ===== *)
(** Correctness of the virtio-blk handler: no chain of the guest is lost or
    returned twice, and exactly when the handler panics. *)

From S2P Require Import Prelude RateLimiter VsockStream VsockPacket VirtioMem Block BlockSpec BlockHandler.

(** ** The invariant *)

(** A chain has at most 2^16 descriptors with a length of 32 bits. *)
Definition chain_typed (c : AvailChain) : Prop :=
  Forall (fun d => in_u32 (d_len (cd_desc d))) (ac_descs c) /\ zlen (ac_descs c) <= 2 ^ 16.

Definition descs_typed (data_descs : list IoDataDesc) : Prop := typed_descs data_descs /\ zlen data_descs <= 2 ^ 16.

Definition keys (m : gmap Z BlkRequest) : list Z := (map_to_list m).*1.

(** The chains taken from the queue that are in flight: a read or a write, under
    the index of its head, and one of the requests of the engine each. *)
Record blk_inv {D} `{UfileLaws D} (n : nat) (h : BlkHandler D) : Prop := {
  bi_size : Z.of_nat n <= 2 ^ 16;
  bi_descs : length (bh_data_desc_vec h) = n;
  bi_iovecs : length (bh_iovecs_vec h) = n;
  bi_typed : Forall descs_typed (bh_data_desc_vec h);
  bi_capacity : get_capacity (bh_disk_image h) <= u64_max;
  bi_inflight : inflight (bh_disk_image h) ≡ₚ keys (bh_pending_req_map h);
  bi_pending : map_Forall (fun i req => br_index req = i /\ 0 <= i < Z.of_nat n /\ (br_type req = T_In \/ br_type req = T_Out))
    (bh_pending_req_map h);
}.

Lemma keys_elem m i : i ∈ keys m <-> is_Some (m !! i).
Proof.
  unfold keys. rewrite list_elem_of_fmap. split.
  - intros ([j r] & -> & Hi). apply elem_of_map_to_list in Hi. by exists r.
  - intros [r Hr]. exists (i, r). split; [done|]. by apply elem_of_map_to_list.
Qed.

Lemma keys_nodup m : NoDup (keys m).
Proof. apply NoDup_fst_map_to_list. Qed.

Lemma keys_insert m i r : m !! i = None -> keys (<[i := r]> m) ≡ₚ i :: keys m.
Proof. intros Hn. unfold keys. by rewrite map_to_list_insert. Qed.

Lemma keys_delete m i r : m !! i = Some r -> keys m ≡ₚ i :: keys (delete i m).
Proof. intros Hs. unfold keys. by rewrite <- (map_to_list_delete m i r Hs). Qed.

Lemma total_len_bound data_descs : descs_typed data_descs -> total_len data_descs <= u64_max.
Proof.
  intros [Hty Hl]. enough (total_len data_descs <= zlen data_descs * u32_max) by ulia. clear Hl.
  induction Hty as [|io l Hio _ IH]; [unfold zlen; cbn; ulia|]. cbn [total_len]. replace (zlen (io :: l)) with (1 + zlen l) by (unfold zlen; cbn [length]; lia). ulia.
Qed.

Lemma request_data_len_ok data_descs : descs_typed data_descs -> request_data_len data_descs = Ret (as_u32 (total_len data_descs)).
Proof.
  intros Hd. pose proof (total_len_bound _ Hd) as Hb. destruct Hd as [Hty _]. unfold request_data_len.
  enough (Hgo : forall len, 0 <= len -> len + total_len data_descs <= u64_max -> sum_len len data_descs = Ret (len + total_len data_descs)).
  { rewrite Hgo by lia. cbn [obind]. done. }
  clear Hb. induction Hty as [|io l Hio Hl IH]; intros len Hn Hs; cbn [sum_len total_len] in *; [by rewrite Z.add_0_r|].
  pose proof (total_len_nonneg l Hl). rewrite add_u_ret by lia. cbn [obind]. rewrite IH by ulia. f_equal. lia.
Qed.

(** The segments a chain leaves behind. *)
Lemma parse_data_typed req max_size desc chain acc r data_descs :
  Forall (fun d => in_u32 (d_len (cd_desc d))) (desc :: chain) -> typed_descs acc ->
  parse_data req max_size desc chain acc = (r, data_descs) -> typed_descs data_descs /\ zlen data_descs <= zlen acc + zlen (desc :: chain).
Proof.
  revert desc acc. induction chain as [|d chain IH]; intros desc acc Hc Ha; cbn [parse_data].
  all: destruct (negb _); [intros [= _ <-]; split; [done|pose proof (zlen_nonneg (A := ChainDesc))]|].
  all: try (unfold zlen; cbn [length]; lia).
  all: destruct (check_request _ _ _) as [[]|e]; [|intros [= _ <-]; split; [done|unfold zlen; cbn [length]; lia]].
  all: inversion Hc as [|? ? Hd Hc']; subst.
  all: assert (Ha' : typed_descs (acc ++ [mkIoDataDesc (d_addr (cd_desc desc)) (d_len (cd_desc desc))])) by (apply Forall_app; split; [done|by constructor]).
  - intros [= _ <-]. split; [done|]. rewrite zlen_app. unfold zlen. cbn [length]. lia.
  - intros Hp. apply IH in Hp as [Ht Hl]; [|done..]. split; [done|]. rewrite zlen_app in Hl. unfold zlen in *. cbn [length] in *. lia.
Qed.

Section Parse.
Context {G : Type} `{MemGuest G} `{BlkGuest G}.

Lemma blk_parse_typed (mem : G) c max_size r data_descs :
  chain_typed c -> blk_parse mem (ac_head c) (ac_descs c) [] max_size = (r, data_descs) -> descs_typed data_descs.
Proof.
  intros [Hc Hl]. assert (Hnil : descs_typed []) by (split; [constructor|done]). unfold blk_parse.
  destruct (ac_descs c) as [|d chain]; [by intros [= _ <-]|]. destruct (d_write_only _); [by intros [= _ <-]|].
  destruct (RequestHeader_read_from _ _) as [hd|e]; [|by intros [= _ <-]]. destruct chain as [|d2 chain]; [by intros [= _ <-]|].
  destruct (negb (cd_has_next d2)); [by intros [= _ <-]|]. destruct (parse_data _ _ _ _ _) as [r2 dd] eqn:E. intros [= _ <-].
  inversion Hc; subst. apply parse_data_typed in E as [Ht Hz]; [|done|constructor]. split; [done|]. unfold zlen in *. cbn [length] in *. lia.
Qed.
End Parse.

(** ** One chain *)

(** The map of guest memory does not change while it is held. *)
Class BlkGuestLaws (G D : Type) `{MemGuest G} `{BlkGuest G} `{Transfer G D} : Prop := {
  in_range_write g a b : address_in_range g a = true -> is_Some (write_slice g a [b]);
  write_slice_range g a bs g' x : write_slice g a bs = Some g' -> address_in_range g' x = address_in_range g x;
  read_from_range g a (d : D) n r g' d' x : mem_read_from g a d n = (r, g', d') -> address_in_range g' x = address_in_range g x;
}.

Section Handler.
Context {G D : Type} `{TransferLaws G D} `{!GuestMem G} `{!BlkGuest G} `{!BlkGuestLaws G D}.
Implicit Types (h : BlkHandler D) (g : G).

Lemma execute_loop_range req id data_descs g (d : D) len r g' d' x :
  execute_loop req id data_descs g d len = Ret (r, g', d') -> address_in_range g' x = address_in_range g x.
Proof.
  revert g d len. induction data_descs as [|io l IH]; intros g d len; cbn [execute_loop]; [by intros [= _ <- _]|].
  destruct (br_type req).
  - destruct (mem_read_from _ _ _ _) as [[[k|e] g1] d1] eqn:E; apply (read_from_range _ _ _ _ _ _ _ x) in E; [|by intros [= _ <- _]].
    intros Hx. bind_inv Hx. apply IH in Hx. congruence.
  - destruct (mem_write_to _ _ _ _) as [[k|e] d1]; [apply IH|by intros [= _ <- _]].
  - destruct (ufile_flush d) as [[k|e] d1]; [apply IH|by intros [= _ <- _]].
  - destruct (_ <? _); [by intros [= _ <- _]|]. destruct (write_slice _ _ _) eqn:E; intros [= _ <- _]; [by apply (write_slice_range _ _ _ _ x) in E|done].
  - by intros [= _ <- _].
Qed.

Lemma execute_range req id data_descs g (d : D) r g' d' x :
  execute req d g data_descs id = Ret (r, g', d') -> address_in_range g' x = address_in_range g x.
Proof.
  unfold execute. intros Hx. bind_inv Hx. destruct a as [[]|e]; [|by injection Hx as <- <- <-].
  destruct (seek_start _ _) as [[p|e] d1]; [by apply (execute_loop_range _ _ _ _ _ _ _ _ _ x) in Hx|by injection Hx as <- <- <-].
Qed.

Lemma update_status_ok g req status : address_in_range g (br_status_addr req) = true -> exists g', update_status g req status = Ret g'.
Proof. intros Hr. unfold update_status. destruct (in_range_write g _ (status mod 2 ^ 8) Hr) as [g' ->]. by exists g'. Qed.

Lemma process_request_ok req data_descs (d : D) id g :
  get_capacity d <= u64_max -> descs_typed data_descs -> address_in_range g (br_status_addr req) = true ->
  exists r g' d', process_request req data_descs d id g = Ret (r, g', d') /\
    inflight d' = inflight d /\ get_capacity d' = get_capacity d /\ get_max_size d' = get_max_size d.
Proof.
  intros Hcap Hd Hr. pose proof (total_len_bound _ Hd) as Hb. destruct Hd as [Hty _].
  destruct (execute_returns req id data_descs g d Hcap Hty Hb) as (r & g1 & d1 & E). unfold process_request. rewrite E. cbn [obind].
  pose proof (execute_kept _ _ _ _ _ _ _ _ E) as Hk. apply (execute_range _ _ _ _ _ _ _ _ (br_status_addr req)) in E. rewrite Hr in E.
  destruct r as [l|e]; [destruct (update_status_ok g1 req VIRTIO_BLK_S_OK E) as [g2 ->]|destruct (update_status_ok g1 req (status_of_error e) E) as [g2 ->]];
    by do 3 eexists.
Qed.

Lemma process_aio_ok req data_descs (d : D) g :
  get_capacity d <= u64_max -> descs_typed data_descs -> in_u16 (br_index req) ->
  exists r iovecs d', process_aio_request req data_descs [] d g = Ret (r, iovecs, d') /\
    inflight d' = (match r with Ok true => [br_index req] | _ => [] end) ++ inflight d /\
    get_capacity d' = get_capacity d /\ get_max_size d' = get_max_size d /\
    (r = Ok true -> br_type req = T_In \/ br_type req = T_Out).
Proof.
  intros Hcap [Hty _] Hu. unfold process_aio_request. destruct (_ && _) eqn:Et; [by do 3 eexists|]. rewrite check_capacity_ok by done. cbn [obind].
  destruct (decide _); [|by do 3 eexists]. destruct (host_iovecs _ _ _) as [[[]|e] iov]; [|by do 3 eexists].
  destruct (br_type req) eqn:Ety; try done; cbn [obind].
  - destruct (io_read_submit _ _ _ _) as [[k|e] d1] eqn:E; apply (read_submit_ok _ _ _ _ _ _ Hu) in E as (E1 & E2 & E3); do 3 eexists; split_and!; auto.
  - destruct (io_write_submit _ _ _ _) as [[k|e] d1] eqn:E; apply (write_submit_ok _ _ _ _ _ _ Hu) in E as (E1 & E2 & E3); do 3 eexists; split_and!; auto.
Qed.

(** The buffers handed to the engine: the host address of the start of each
    segment, with its length; the other bytes of the segment are not looked at. *)
Lemma host_iovecs_ok g data_descs acc iovecs :
  host_iovecs g data_descs acc = (Ok tt, iovecs) <->
  exists hs, Forall2 (fun io host => get_host_address g (data_addr io) = Some host) data_descs hs /\
    iovecs = acc ++ zip_with mkIoDataDesc hs (data_len <$> data_descs).
Proof.
  revert acc. induction data_descs as [|io l IH]; intros acc; cbn [host_iovecs].
  - split; [intros [= <-]; exists []; by rewrite app_nil_r|]. intros (hs & Hf & ->). inversion Hf. by rewrite app_nil_r.
  - destruct (get_host_address g (data_addr io)) as [host|] eqn:E.
    + rewrite IH. split.
      * intros (hs & Hf & ->). exists (host :: hs). split; [by constructor|]. by rewrite <- app_assoc.
      * intros (hs & Hf & ->). inversion Hf as [|? h' ? hs' Hh Hf']; subst. exists hs'. split; [done|]. rewrite E in Hh. injection Hh as <-. by rewrite <- app_assoc.
    + split; [done|]. intros (hs & Hf & _). inversion Hf; subst. congruence.
Qed.

(** What the handling of a chain does to the requests in flight. *)
Definition chain_post (n : nat) h (index : Z) (e : ChainEnd) h' : Prop :=
  blk_inv n h' /\
  match e with
  | Submitted => keys (bh_pending_req_map h') ≡ₚ index :: keys (bh_pending_req_map h)
  | _ => bh_pending_req_map h' = bh_pending_req_map h
  end.

Lemma inv_set n h vec iov d lim :
  blk_inv n h -> length vec = n -> length iov = n -> Forall descs_typed vec ->
  inflight d = inflight (bh_disk_image h) -> get_capacity d = get_capacity (bh_disk_image h) ->
  blk_inv n (mkBlkHandler d (bh_disk_image_id h) lim (bh_pending_req_map h) vec iov (bh_evt_receiver h)).
Proof. intros [? ? ? ? ? ? ?] ? ? ? E1 E2. split; cbn; try done; [by rewrite E2|by rewrite E1]. Qed.

Lemma serve_request_ok n h g index req data_descs :
  blk_inv n h -> br_index req = index -> 0 <= index < Z.of_nat n -> index ∉ keys (bh_pending_req_map h) ->
  bh_data_desc_vec h !! Z.to_nat index = Some data_descs -> descs_typed data_descs -> address_in_range g (br_status_addr req) = true ->
  exists e h' g', serve_request h g index req data_descs = Ret (e, h', g') /\ e <> Limited /\ chain_post n h index e h'.
Proof.
  intros Hi <- Hidx Hnot Hvec Hd Hr. pose proof Hi as [I0 I1 I2 I3 I4 I5 I6]. unfold serve_request.
  destruct (process_aio_ok req data_descs (bh_disk_image h) g I4 Hd ltac:(ulia)) as (r & iov & d1 & -> & E1 & E2 & E3 & Ht). cbn [obind].
  assert (Hbase : forall d, inflight d = inflight (bh_disk_image h) -> get_capacity d = get_capacity (bh_disk_image h) ->
    blk_inv n (set_bh_disk (set_bh_iovecs h (<[Z.to_nat (br_index req) := iov]> (bh_iovecs_vec h))) d)).
  { intros d Hf Hc. apply (inv_set n h); try done. cbn. by rewrite length_insert. }
  destruct r as [[]|e].
  - do 3 eexists. split; [done|]. split; [done|]. assert (Hn : bh_pending_req_map h !! br_index req = None).
    { apply eq_None_not_Some. by rewrite <- keys_elem. }
    split; [|by apply keys_insert]. split; cbn; try done; [by rewrite length_insert|by rewrite E2|by rewrite E1, keys_insert, I5|].
    apply map_Forall_insert; [done|]. split; [|done]. split_and!; [done|lia..|by apply Ht].
  - cbn [bh_data_desc_vec set_bh_disk set_bh_iovecs]. rewrite Hvec. cbn [obind unwrap].
    destruct (process_request_ok req data_descs d1 (bh_disk_image_id h) g) as (r & g' & d' & Ep & F1 & F2 & F3); [by rewrite E2|done..|].
    cbn [bh_disk_image bh_disk_image_id set_bh_disk set_bh_iovecs]. rewrite Ep. cbn [obind]. do 3 eexists. split; [done|]. split; [done|].
    split; [|done]. apply Hbase; [by rewrite F1|by rewrite F2].
  - destruct (update_status_ok g req VIRTIO_BLK_S_IOERR Hr) as [g' ->]. cbn [obind]. do 3 eexists. split; [done|]. split; [done|].
    split; [|done]. by apply Hbase.
Qed.

(** The limiter of the handler overflows on the request of [c]. *)
Definition limiter_panics h g (c : AvailChain) : Prop :=
  exists req data_descs, blk_parse g (ac_head c) (ac_descs c) [] (get_max_size (bh_disk_image h)) = (Ok req, data_descs) /\
    trigger_rate_limit (bh_rate_limiter h) req data_descs (ac_clk_ops c) (ac_clk_bytes c) = Panic.

Lemma process_chain_ok n h g c :
  blk_inv n h -> chain_typed c -> 0 <= ac_head c < Z.of_nat n -> ac_head c ∉ keys (bh_pending_req_map h) ->
  (process_chain h g c = Panic /\ limiter_panics h g c) \/
  exists e h' g', process_chain h g c = Ret (e, h', g') /\ chain_post n h (ac_head c) e h'.
Proof.
  intros Hi Hc Hidx Hnot. pose proof Hi as [I0 I1 I2 I3 I4 I5 I6]. unfold process_chain.
  destruct (lookup_lt_is_Some_2 (bh_data_desc_vec h) (Z.to_nat (ac_head c))) as [dd0 ->]; [lia|].
  destruct (lookup_lt_is_Some_2 (bh_iovecs_vec h) (Z.to_nat (ac_head c))) as [iov0 ->]; [lia|]. cbn [obind unwrap].
  destruct (blk_parse _ _ _ _ _) as [r dd] eqn:Ep. pose proof (blk_parse_typed _ _ _ _ _ Hc Ep) as Hd.
  set (vec := <[Z.to_nat (ac_head c) := dd]> (bh_data_desc_vec h)). set (iov := <[Z.to_nat (ac_head c) := []]> (bh_iovecs_vec h)).
  assert (Hset : forall lim, blk_inv n (set_bh_limiter (set_bh_iovecs (set_bh_descs h vec) iov) lim)).
  { intros lim. apply (inv_set n h); try done; cbn; unfold vec, iov; rewrite ?length_insert; try done. by apply Forall_insert. }
  destruct r as [req|e]; [|right; do 3 eexists; split; [done|]; split; [apply (Hset (bh_rate_limiter h))|done]].
  destruct (trigger_rate_limit _ _ _ _ _) as [[[] lim]|] eqn:El; cbn [obind].
  - right. do 3 eexists. split; [done|]. split; [apply Hset|done].
  - right. apply blk_parse_sound in Ep as (hd & seg & st & rest & bs & _ & _ & _ & Hreq & _ & _ & _ & _ & _ & _ & Hr).
    destruct (serve_request_ok n (set_bh_limiter (set_bh_iovecs (set_bh_descs h vec) iov) lim) g (ac_head c) req dd) as (e & h' & g' & E & _ & Hpost);
      [apply Hset|by rewrite Hreq|done|done| |done|by rewrite Hreq|by do 3 eexists].
    cbn. unfold vec. apply list_lookup_insert_eq. lia.
  - left. split; [done|]. by exists req, dd.
Qed.

Lemma process_chain_panics h g c : limiter_panics h g c -> process_chain h g c = Panic.
Proof.
  intros (req & dd & Ep & El). unfold process_chain. destruct (unwrap _); [|done]. destruct (unwrap _); [|done]. cbn [obind].
  rewrite Ep. cbn [bh_rate_limiter set_bh_iovecs set_bh_descs]. by rewrite El.
Qed.

(** ** The queue *)

Definition heads (l : list AvailChain) : list Z := ac_head <$> l.

(** The chains of a driver that follows the specification: none has the head of
    another one or of one in flight. *)
Definition compliant (n : nat) h (avail : list AvailChain) : Prop :=
  NoDup (heads avail ++ keys (bh_pending_req_map h)) /\
  Forall (fun c => chain_typed c /\ 0 <= ac_head c < Z.of_nat n) avail.

Definition in_queue (n : nat) (used : list (Z * Z)) : Prop := Forall (fun u => 0 <= u.1 < Z.of_nat n) used.

(** The limiter overflows on a chain of the queue, once those before it have been taken. *)
Definition chains_panic h g (avail : list AvailChain) : Prop :=
  exists pre c post used h1 g1, avail = pre ++ c :: post /\ process_chains h g pre = Ret (used, [], h1, g1) /\ limiter_panics h1 g1 c.

Lemma chains_panic_cons h g c avail e h1 g1 :
  process_chain h g c = Ret (e, h1, g1) -> e <> Limited -> chains_panic h1 g1 avail -> chains_panic h g (c :: avail).
Proof.
  intros E Hne (pre & c' & post & used & h2 & g2 & -> & Ep & Hp). destruct e as [| |len]; [done|..].
  - exists (c :: pre), c', post, used, h2, g2. cbn [process_chains]. by rewrite E.
  - exists (c :: pre), c', post, ((ac_head c, len) :: used), h2, g2. cbn [process_chains]. rewrite E. cbn [obind]. by rewrite Ep.
Qed.

Lemma chains_panic_panics h g avail : chains_panic h g avail -> process_chains h g avail = Panic.
Proof.
  intros (pre & c & post & used & h1 & g1 & -> & Ep & Hp). revert h g used Ep. induction pre as [|c' pre IH]; intros h g used Ep; cbn [process_chains app] in *.
  - injection Ep as <- <- <-. by rewrite process_chain_panics.
  - destruct (process_chain h g c') as [[[e h2] g2]|]; cbn [obind] in *; [|done]. destruct e as [| |len]; [done|by eapply IH|].
    destruct (process_chains h2 g2 pre) as [[[[used2 left2] h3] g3]|] eqn:E2; [|done]. injection Ep as <- -> -> ->. by rewrite (IH _ _ _ E2).
Qed.

Lemma compliant_next n h c avail e h' :
  compliant n h (c :: avail) -> chain_post n h (ac_head c) e h' -> e <> Limited -> compliant n h' avail.
Proof.
  intros [Hnd Hf] [_ Hpost] Hne. inversion Hf; subst. split; [|done]. destruct e; [done|by rewrite Hpost, <- Permutation_middle|].
  rewrite Hpost. by apply NoDup_cons in Hnd as [_ ?].
Qed.

Lemma process_chains_ok n h g avail :
  blk_inv n h -> compliant n h avail ->
  (process_chains h g avail = Panic /\ chains_panic h g avail) \/
  exists used left_ h' g', process_chains h g avail = Ret (used, left_, h', g') /\ blk_inv n h' /\ in_queue n used /\
    exists taken, avail = taken ++ left_ /\ heads taken ++ keys (bh_pending_req_map h) ≡ₚ used.*1 ++ keys (bh_pending_req_map h').
Proof.
  revert h g. induction avail as [|c avail IH]; intros h g Hi Hcp; cbn [process_chains].
  { right. exists [], [], h, g. split_and!; [done..|by constructor|]. by exists []. }
  pose proof Hcp as [Hnd [[Hty Hidx] _]%Forall_cons]. cbn in Hnd. apply NoDup_cons in Hnd as [Hnot _].
  destruct (process_chain_ok n h g c Hi Hty Hidx) as [[-> Hp]|(e & h1 & g1 & E & Hpost)]; [set_solver| |rewrite E]; cbn [obind].
  { left. split; [done|]. by exists [], c, avail, [], h, g. }
  destruct e as [| |len].
  - right. exists [], (c :: avail), h1, g1. destruct Hpost as [Hi1 ->]. split_and!; [done..|by constructor|]. by exists [].
  - destruct (IH h1 g1 (proj1 Hpost)) as [[-> Hp]|(used & left_ & h2 & g2 & -> & Hi2 & Hq & taken & -> & Hperm)]; [by eapply compliant_next|..].
    { left. split; [done|]. by eapply chains_panic_cons. }
    right. exists used, left_, h2, g2. split_and!; [done..|]. exists (c :: taken). split; [done|]. destruct Hpost as [_ Hk].
    cbn. rewrite <- Hperm, Hk. by rewrite <- Permutation_middle.
  - destruct (IH h1 g1 (proj1 Hpost)) as [[-> Hp]|(used & left_ & h2 & g2 & -> & Hi2 & Hq & taken & -> & Hperm)]; [by eapply compliant_next|..]; cbn [obind].
    { left. split; [done|]. by eapply chains_panic_cons. }
    right. exists ((ac_head c, len) :: used), left_, h2, g2. split_and!; [done..|by constructor|]. exists (c :: taken). split; [done|].
    destruct Hpost as [_ Hk]. cbn. by rewrite <- Hperm, Hk.
Qed.

(** The used ring refuses one of the chains, after those before it. *)
Definition ring_fails g (used : list (Z * Z)) : Prop :=
  exists pre i len post g1, used = pre ++ (i, len) :: post /\ add_used_all g pre = Ret g1 /\ queue_add_used g1 i len = None.

Lemma ring_fails_iff g used : add_used_all g used = Panic <-> ring_fails g used.
Proof.
  split.
  - revert g. induction used as [|[i len] used IH]; intros g; cbn [add_used_all]; [done|].
    destruct (vq_add_used g i len) as [g1|] eqn:E; cbn [obind].
    + intros (pre & j & l & post & g2 & -> & Ea & Hq)%IH. exists ((i, len) :: pre), j, l, post, g2.
      split; [done|]. cbn [add_used_all]. by rewrite E.
    + intros _. exists [], i, len, used, g. split_and!; [done..|]. unfold vq_add_used in E. by destruct (queue_add_used g i len).
  - intros (pre & i & len & post & g1 & -> & Ea & Hq). revert g Ea. induction pre as [|[j l] pre IH]; intros g Ea; cbn [add_used_all app] in *.
    + injection Ea as <-. unfold vq_add_used. by rewrite Hq.
    + destruct (vq_add_used g j l) as [g2|]; cbn [obind] in *; [by apply IH|done].
Qed.

(** ** Completions *)

Definition pending_ok (n : nat) (p : gmap Z BlkRequest) : Prop :=
  map_Forall (fun i req => br_index req = i /\ 0 <= i < Z.of_nat n /\ (br_type req = T_In \/ br_type req = T_Out)) p.

(** The used ring refuses the chain of a completed request, after those completed
    before it. *)
Definition completion_fails h g (iovs : list (Z * Z)) : Prop :=
  exists pre i res post used h1 g1 req data_descs len, iovs = pre ++ (i, res) :: post /\
    complete_all h g pre = Ret (Ok tt, used, h1, g1) /\ bh_pending_req_map h1 !! i = Some req /\
    bh_data_desc_vec h1 !! Z.to_nat (br_index req) = Some data_descs /\
    match br_type req with T_In => request_data_len data_descs | T_Out => Ret 0 | _ => Panic end = Ret len /\
    queue_add_used (default g1 (write_slice g1 (br_status_addr req) [res mod 2 ^ 8])) (br_index req) len = None.

Lemma completion_fails_panics h g iovs : completion_fails h g iovs -> complete_all h g iovs = Panic.
Proof.
  intros (pre & i & res & post & used & h1 & g1 & req & dd & len & -> & Ep & Hi & Hd & Hl & Hq). revert h g used Ep.
  induction pre as [|[j r] pre IH]; intros h g used Ep; cbn [complete_all app] in *.
  - injection Ep as <- <- <-. rewrite Hi. cbn [bh_data_desc_vec set_bh_pending]. rewrite Hd. cbn [unwrap obind]. rewrite Hl. cbn [obind].
    unfold vq_add_used. by rewrite Hq.
  - destruct (bh_pending_req_map h !! j) as [req'|]; [|done]. destruct (unwrap _); cbn [obind] in *; [|done].
    destruct (match br_type req' with T_In => _ | _ => _ end); cbn [obind] in *; [|done]. destruct (vq_add_used _ _ _); cbn [obind] in *; [|done].
    destruct (complete_all _ _ pre) as [[[[r1 u1] h2] g2]|] eqn:E; cbn [obind] in *; [|done]. injection Ep as -> <- -> ->. by rewrite (IH _ _ _ E).
Qed.

Lemma completion_fails_cons h g i res iovs req data_descs len g2 :
  bh_pending_req_map h !! i = Some req -> bh_data_desc_vec h !! Z.to_nat (br_index req) = Some data_descs ->
  match br_type req with T_In => request_data_len data_descs | T_Out => Ret 0 | _ => Panic end = Ret len ->
  vq_add_used (default g (write_slice g (br_status_addr req) [res mod 2 ^ 8])) (br_index req) len = Ret g2 ->
  completion_fails (set_bh_pending h (delete i (bh_pending_req_map h))) g2 iovs -> completion_fails h g ((i, res) :: iovs).
Proof.
  intros Hi Hd Hl Hq (pre & j & r & post & used & h1 & g1 & req' & dd & l & -> & Ep & Hrest).
  exists ((i, res) :: pre), j, r, post, ((br_index req, len) :: used), h1, g1, req', dd, l. split; [done|]. split; [|done].
  cbn [complete_all]. rewrite Hi. cbn [bh_data_desc_vec set_bh_pending]. rewrite Hd. cbn [unwrap obind]. rewrite Hl. cbn [obind]. rewrite Hq. cbn [obind]. by rewrite Ep.
Qed.

Lemma complete_all_ok n h g iovs rest :
  length (bh_data_desc_vec h) = n -> Forall descs_typed (bh_data_desc_vec h) -> pending_ok n (bh_pending_req_map h) ->
  keys (bh_pending_req_map h) ≡ₚ iovs.*1 ++ rest ->
  (complete_all h g iovs = Panic /\ completion_fails h g iovs) \/
  exists used p g', complete_all h g iovs = Ret (Ok tt, used, set_bh_pending h p, g') /\
    used.*1 = iovs.*1 /\ keys p ≡ₚ rest /\ pending_ok n p.
Proof.
  revert h g. induction iovs as [|[i res] iovs IH]; intros h g Hn Hty Hp Hk; cbn [complete_all].
  { right. exists [], (bh_pending_req_map h), g. by destruct h. }
  assert (Hin : i ∈ keys (bh_pending_req_map h)) by (rewrite Hk; constructor). apply keys_elem in Hin as [req Hreq]. rewrite Hreq.
  destruct (Hp _ _ Hreq) as (Ei & Hi & Ht). rewrite (keys_delete _ _ _ Hreq) in Hk. cbn in Hk. apply Permutation_cons_inv in Hk.
  cbn [bh_data_desc_vec set_bh_pending bh_pending_req_map]. destruct (lookup_lt_is_Some_2 (bh_data_desc_vec h) (Z.to_nat (br_index req))) as [dd Hdd]; [lia|].
  rewrite Hdd. cbn [obind unwrap]. pose proof (proj1 (Forall_lookup _ _) Hty _ _ Hdd) as Hd.
  assert (Hl : exists len, match br_type req with T_In => request_data_len dd | T_Out => Ret 0 | _ => Panic end = Ret len).
  { destruct Ht as [-> | ->]; [rewrite request_data_len_ok by done|]; by eexists. }
  destruct Hl as [len Hl]. rewrite Hl. cbn [obind].
  destruct (vq_add_used (default g (write_slice g (br_status_addr req) [res mod 2 ^ 8])) (br_index req) len) as [g2|] eqn:E; cbn [obind].
  2:{ left. split; [done|]. exists [], i, res, iovs, [], h, g, req, dd, len. split_and!; try done.
      unfold vq_add_used in E. by destruct (queue_add_used _ _ _). }
  destruct (IH (set_bh_pending h (delete i (bh_pending_req_map h))) g2 Hn Hty) as [[-> ?]|(used & p & g' & -> & Hu & Hkp & Hpp)];
    [by apply map_Forall_delete|done|left; split; [done|by eapply completion_fails_cons]|]. right. do 3 eexists. split; [done|]. cbn. rewrite Ei. by rewrite Hu.
Qed.

(** A completion of a request that is not in flight is an error. *)
Lemma complete_all_unknown h g iovs :
  ~ (NoDup iovs.*1 /\ Forall (fun i => i ∈ keys (bh_pending_req_map h)) iovs.*1) ->
  complete_all h g iovs = Panic \/ exists used h' g', complete_all h g iovs = Ret (Err InternalError, used, h', g').
Proof.
  revert h g. induction iovs as [|[i res] iovs IH]; intros h g Hn; cbn [complete_all].
  { exfalso. apply Hn. split; constructor. }
  destruct (bh_pending_req_map h !! i) as [req|] eqn:Hreq; [|right; by do 3 eexists].
  set (h1 := set_bh_pending h _). set (g1 := default g _).
  assert (Hn1 : ~ (NoDup iovs.*1 /\ Forall (fun i => i ∈ keys (bh_pending_req_map h1)) iovs.*1)).
  { intros [Hd Hf]. apply Hn. pose proof (keys_delete _ _ _ Hreq) as Hk. pose proof (keys_nodup (bh_pending_req_map h)) as Hnd.
    rewrite Hk in Hnd. apply NoDup_cons in Hnd as [Hnot _]. cbn [fmap list_fmap fst]. split.
    - constructor; [|done]. intros Hin. rewrite Forall_forall in Hf. by apply Hf in Hin.
    - constructor; [rewrite keys_elem; by eexists|]. eapply Forall_impl; [done|]. intros j Hj. rewrite Hk. by constructor. }
  destruct (unwrap _) as [dd|]; cbn [obind]; [|by left]. destruct (match br_type req with T_In => request_data_len dd | T_Out => Ret 0 | _ => Panic end) as [len|]; cbn [obind]; [|by left].
  destruct (vq_add_used _ _ _) as [g2|]; cbn [obind]; [|by left].
  destruct (IH h1 g2 Hn1) as [-> |(used & h2 & g3 & ->)]; [by left|]. right. by do 3 eexists.
Qed.

(** What makes a round of completions panic: an error of the engine, a used ring
    that refuses a chain, or an interrupt that fails after a completion. *)
Definition completions_panic h g (notified : result unit Z) : Prop :=
  match ufile_io_complete (bh_disk_image h) with
  | (Err _, _) => True
  | (Ok iovs, d) => completion_fails (set_bh_disk h d) g iovs \/ (iovs <> [] /\ exists e, notified = Err e)
  end.

Lemma blk_io_complete_ok n h g notified :
  blk_inv n h ->
  ((blk_io_complete h g notified = Panic \/ exists e used h' g', blk_io_complete h g notified = Ret (Err e, used, h', g')) /\
    completions_panic h g notified) \/
  exists used h' g', blk_io_complete h g notified = Ret (Ok tt, used, h', g') /\
    blk_inv n h' /\ keys (bh_pending_req_map h) ≡ₚ used.*1 ++ keys (bh_pending_req_map h').
Proof.
  intros [I0 I1 I2 I3 I4 I5 I6]. unfold blk_io_complete, completions_panic. destruct (ufile_io_complete _) as [[iovs|e] d] eqn:E.
  2: { left. split; [right; by do 4 eexists|done]. }
  apply io_complete_ok in E as (Hin & Hc & Hm). destruct (length iovs =? 0)%nat eqn:El.
  - apply Nat.eqb_eq, nil_length_inv in El as ->. right. do 3 eexists. split; [done|]. cbn. split; [|done].
    split; cbn; try done; [by rewrite Hc|]. by rewrite <- Hin.
  - destruct (complete_all_ok n (set_bh_disk h d) g iovs (inflight d)) as [[-> ?]|(used & p & g' & -> & Hu & Hk & Hp)]; [done..|by cbn; rewrite <- I5| |]; cbn [obind].
    { left. split; [by left|by left]. }
    destruct notified as [[]|e]; [right|left].
    + do 3 eexists. split; [done|]. split; [split; cbn; try done; by rewrite ?Hc|]. cbn. by rewrite Hu, Hk, <- Hin, I5.
    + split; [right; by do 4 eexists|]. right. split; [by intros ->|by eexists].
Qed.

(** Conversely, in any state. *)
Lemma completions_panic_panics h g notified :
  completions_panic h g notified -> blk_handle_event h g (EndIoEvent notified) = Panic.
Proof.
  unfold completions_panic. cbn [blk_handle_event]. unfold blk_io_complete. destruct (ufile_io_complete _) as [[iovs|e] d]; [|done].
  intros [Hf|[Hne [e ->]]].
  - destruct iovs as [|iov iovs]; [by destruct Hf as ([|] & ? & ? & ? & ? & ? & ? & ? & ? & ? & ? & _)|]. cbn [length Nat.eqb].
    by rewrite (completion_fails_panics _ _ _ Hf).
  - destruct iovs as [|iov iovs]; [done|]. cbn [length Nat.eqb]. destruct (complete_all _ _ _) as [[[[[|] ?] ?] ?]|]; done.
Qed.

(** ** Events *)

Definition event_chains (ev : BlkEvent) : list AvailChain :=
  match ev with QueueAvailEvent _ avail _ | RateLimiterEvent _ avail _ => avail_chains avail | _ => [] end.

(** What makes a round over the queue panic: the limiter overflows on a chain, the
    used ring refuses one, or the interrupt fails after a chain was returned. *)
Definition queue_panics h g (avail : list AvailChain) (notified : result unit Z) : Prop :=
  chains_panic h g avail \/
  exists used left_ h1 g1, process_chains h g avail = Ret (used, left_, h1, g1) /\
    (ring_fails g1 used \/ (used <> [] /\ exists e, notified = Err e)).

(** What makes the handler panic. *)
Inductive blk_panic h g : BlkEvent -> Prop :=
| bp_slot slot : blk_panic h g (OtherSlot slot)
| bp_queue avail notified :
    is_blocked (bh_rate_limiter h) = false -> queue_panics h g avail notified ->
    blk_panic h g (QueueAvailEvent (Ok tt) (Ok avail) notified)
| bp_limiter expirations avail notified :
    expirations <> 0 -> queue_panics (set_bh_limiter h (event_handler (bh_rate_limiter h) expirations).2) g avail notified ->
    blk_panic h g (RateLimiterEvent expirations (Ok avail) notified)
| bp_completions notified : completions_panic h g notified -> blk_panic h g (EndIoEvent notified).

(** The chains taken are returned or in flight afterwards. *)
Definition conserves h (chains : list AvailChain) (used : list (Z * Z)) (left_ : list AvailChain) h' : Prop :=
  exists taken, chains = taken ++ left_ /\ heads taken ++ keys (bh_pending_req_map h) ≡ₚ used.*1 ++ keys (bh_pending_req_map h').

Lemma conserves_none h l h' : bh_pending_req_map h' = bh_pending_req_map h -> conserves h l [] l h'.
Proof. intros E. exists []. by rewrite E. Qed.

Lemma process_and_notify_ok n h g avail notified :
  blk_inv n h -> compliant n h (avail_chains avail) ->
  (process_and_notify h g avail notified = Panic /\ exists l, avail = Ok l /\ queue_panics h g l notified) \/
  exists used left_ h' g', process_and_notify h g avail notified = Ret (used, left_, h', g') /\ blk_inv n h' /\
    conserves h (avail_chains avail) used left_ h'.
Proof.
  intros Hi Hcp. unfold process_and_notify, blk_process_queue. destruct avail as [l|e]; cbn [obind avail_chains] in *.
  2: { right. exists [], [], h, g. split_and!; [done..|]. by apply conserves_none. }
  destruct (process_chains_ok n h g l Hi Hcp) as [[-> Hp]|(used & left_ & h1 & g1 & E & Hi1 & Hq & Hc)]; [|rewrite E]; cbn [obind].
  { left. split; [done|]. exists l. split; [done|by left]. }
  destruct (add_used_all g1 used) as [g2|] eqn:Eu; cbn [obind].
  2:{ left. split; [done|]. exists l. split; [done|]. right. do 4 eexists. split; [exact E|]. left. by apply ring_fails_iff. }
  destruct used as [|u used]; cbn [length Nat.eqb negb]; [right; by do 4 eexists|].
  destruct notified as [[]|e]; [right; by do 4 eexists|left]. split; [done|]. exists l. split; [done|]. right.
  do 4 eexists. split; [exact E|]. right. split; [done|by eexists].
Qed.

(** Conversely, in any state. *)
Lemma queue_panics_panics h g avail notified : queue_panics h g avail notified -> process_and_notify h g (Ok avail) notified = Panic.
Proof.
  unfold process_and_notify, blk_process_queue. intros [Hc|(used & left_ & h1 & g1 & E & Hu)]; [by rewrite chains_panic_panics|].
  rewrite E. cbn [obind]. destruct Hu as [Hf|[Hne [e ->]]]; [by rewrite (proj2 (ring_fails_iff _ _) Hf)|].
  destruct (add_used_all g1 used); cbn [obind]; [|done]. by destruct used.
Qed.

Lemma blk_panic_panics h g ev : blk_panic h g ev -> blk_handle_event h g ev = Panic.
Proof.
  intros [slot|avail notified Hb Hq|n avail notified Hn Hq|notified Hc]; [done| | |by apply completions_panic_panics].
  - cbn [blk_handle_event]. rewrite Hb. by rewrite queue_panics_panics.
  - cbn [blk_handle_event]. unfold event_handler in *. rewrite (proj2 (Z.eqb_neq _ _) Hn) in *. cbn [snd] in Hq. by rewrite queue_panics_panics.
Qed.

Lemma receive_events_ok n h evts : blk_inv n h ->
  blk_inv n (receive_events h evts).2 /\ bh_pending_req_map (receive_events h evts).2 = bh_pending_req_map h.
Proof.
  revert h. induction evts as [|[|b o] evts IH]; intros h Hi; cbn [receive_events snd].
  - split; [by destruct Hi|done].
  - split; [by destruct Hi|done].
  - destruct (IH (get_patch_rate_limiters h b o)) as [? ->]; [by destruct Hi|]. done.
Qed.

Lemma blk_event_ok n h g ev :
  blk_inv n h -> compliant n h (event_chains ev) ->
  (blk_handle_event h g ev = Panic /\ blk_panic h g ev) \/
  exists stop used left_ h' g', blk_handle_event h g ev = Ret (stop, used, left_, h', g') /\ blk_inv n h' /\
    conserves h (event_chains ev) used left_ h'.
Proof.
  intros Hi Hcp. destruct ev as [consumed avail notified|notified|expirations avail notified| |slot]; cbn [blk_handle_event event_chains] in *.
  - destruct consumed as [[]|e]; [|right; do 5 eexists; split; [done|]; split; [done|by apply conserves_none]].
    destruct (is_blocked _) eqn:Eb; [right; do 5 eexists; split; [done|]; split; [done|by apply conserves_none]|].
    destruct (process_and_notify_ok n h g avail notified Hi Hcp) as [[-> (l & -> & Hp)]|(used & left_ & h1 & g1 & -> & Hi1 & Hc)]; cbn [obind].
    + left. split; [done|by apply bp_queue].
    + right. by do 5 eexists.
  - destruct (blk_io_complete_ok n h g notified Hi) as [[Hr Hp]|(used & h1 & g1 & -> & Hi1 & Hk)]; cbn [obind].
    { left. split; [by destruct Hr as [-> |(e & used & h' & g' & ->)]|by apply bp_completions]. }
    right. do 5 eexists. split; [done|]. split; [done|]. by exists [].
  - unfold event_handler. destruct (Z.eqb_spec expirations 0) as [->|Hn].
    { right. do 5 eexists. split; [done|]. split; [by destruct Hi|by apply conserves_none]. }
    set (lim := mkRateLimiter _ _ _ _). assert (Hi1 : blk_inv n (set_bh_limiter h lim)) by by destruct Hi.
    destruct (process_and_notify_ok n (set_bh_limiter h lim) g avail notified Hi1 Hcp) as [[-> (l & -> & Hp)]|(used & left_ & h1 & g1 & -> & Hi2 & Hc)]; cbn [obind].
    + left. split; [done|]. apply bp_limiter; [done|]. unfold event_handler. by rewrite (proj2 (Z.eqb_neq _ _) Hn).
    + right. by do 5 eexists.
  - pose proof (receive_events_ok n h (bh_evt_receiver h) Hi) as [Hi1 Hp]. destruct (receive_events _ _) as [stop h1].
    right. do 5 eexists. split; [done|]. split; [done|by apply conserves_none].
  - left. split; [done|constructor].
Qed.

(** ** Runs *)

(** A handler as [activate] makes it for a queue of [n] entries. *)
Definition blk_fresh (n : nat) h : Prop :=
  bh_pending_req_map h = ∅ /\ bh_data_desc_vec h = replicate n [] /\ bh_iovecs_vec h = replicate n [] /\
  inflight (bh_disk_image h) = [] /\ get_capacity (bh_disk_image h) <= u64_max /\ Z.of_nat n <= 2 ^ 16.

Definition brings_chains (ev : BlkEvent) : bool :=
  match ev with QueueAvailEvent _ (Ok _) _ | RateLimiterEvent _ (Ok _) _ => true | _ => false end.

(** An iteration of the queue finds the chains that are available. *)
Definition event_ok (avail : list Z) (ev : BlkEvent) : Prop :=
  brings_chains ev = true -> heads (event_chains ev) = avail /\ Forall chain_typed (event_chains ev).

(** A driver posts chains, by their heads, with heads that are not in use, and may
    do to its memory what it likes; events arrive in any order; the device sends
    messages.  A run records the heads available, all posted and all returned. *)
Inductive blk_run (n : nat) : BlkHandler D -> list Z -> list Z -> list Z -> Prop :=
| run_start h : blk_fresh n h -> blk_run n h [] [] []
| run_post h avail posted returned i :
    blk_run n h avail posted returned -> 0 <= i < Z.of_nat n -> i ∉ avail -> i ∉ keys (bh_pending_req_map h) ->
    blk_run n h (avail ++ [i]) (posted ++ [i]) returned
| run_message h avail posted returned evts :
    blk_run n h avail posted returned -> blk_run n (set_bh_events h evts) avail posted returned
| run_event h avail posted returned g ev stop used left_ h' g' :
    blk_run n h avail posted returned -> event_ok avail ev ->
    blk_handle_event h g ev = Ret (stop, used, left_, h', g') ->
    blk_run n h' (if brings_chains ev then heads left_ else avail) posted (returned ++ used.*1).

Lemma blk_fresh_inv n h : blk_fresh n h -> blk_inv n h.
Proof.
  intros (Hp & Hd & Hv & Hf & Hc & Hn). split; rewrite ?Hp, ?Hd, ?Hv, ?Hf; rewrite ?length_replicate; try done.
  apply Forall_replicate. split; [constructor|done].
Qed.

(** The state along a run. *)
Definition run_inv (n : nat) h (avail posted returned : list Z) : Prop :=
  blk_inv n h /\ NoDup (avail ++ keys (bh_pending_req_map h)) /\ Forall (fun i => 0 <= i < Z.of_nat n) avail /\
  posted ≡ₚ returned ++ avail ++ keys (bh_pending_req_map h).

Lemma event_compliant n h avail posted returned ev :
  run_inv n h avail posted returned -> event_ok avail ev -> compliant n h (event_chains ev).
Proof.
  intros (_ & Hnd & Hr & _) Hev. destruct (brings_chains ev) eqn:Eb.
  - destruct (Hev Eb) as [Hh Hty]. split; [by rewrite Hh|]. rewrite <- Hh in Hr. unfold heads in Hr. rewrite Forall_fmap in Hr.
    by apply Forall_and.
  - replace (event_chains ev) with (@nil AvailChain); [|by destruct ev as [? [?|?] ?|?|? [?|?] ?| |?]].
    split; [apply keys_nodup|constructor].
Qed.

Lemma event_run_inv n h avail posted returned ev used left_ h' :
  run_inv n h avail posted returned -> event_ok avail ev -> blk_inv n h' -> conserves h (event_chains ev) used left_ h' ->
  run_inv n h' (if brings_chains ev then heads left_ else avail) posted (returned ++ used.*1).
Proof.
  intros (_ & Hnd & Hr & Hp) Hev Hi (taken & Ht & Hk).
  assert (Ha : exists rest, avail = heads taken ++ rest /\ (if brings_chains ev then heads left_ else avail) = rest).
  { destruct (brings_chains ev) eqn:Eb.
    - destruct (Hev Eb) as [Hh _]. rewrite Ht in Hh. unfold heads in *. rewrite fmap_app in Hh. by eexists.
    - exists avail. split; [|done]. replace (event_chains ev) with (@nil AvailChain) in Ht by (by destruct ev as [? [?|?] ?|?|? [?|?] ?| |?]).
      symmetry in Ht. by apply app_eq_nil in Ht as [-> _]. }
  destruct Ha as (rest & -> & ->).
  assert (Hperm : (heads taken ++ rest) ++ keys (bh_pending_req_map h) ≡ₚ used.*1 ++ rest ++ keys (bh_pending_req_map h')).
  { rewrite (Permutation_app_comm (heads taken) rest), <- app_assoc, Hk. rewrite !app_assoc. f_equiv. apply Permutation_app_comm. }
  split_and!; [done| | |].
  - rewrite Hperm in Hnd. by apply NoDup_app in Hnd as (_ & _ & ?).
  - by apply Forall_app in Hr as [_ ?].
  - by rewrite Hp, Hperm, <- app_assoc.
Qed.

Lemma blk_run_inv n h avail posted returned : blk_run n h avail posted returned -> run_inv n h avail posted returned.
Proof.
  induction 1 as [h Hf|h avail posted returned i _ (Hi & Hnd & Hr & Hp) Hidx Hna Hnk|h avail posted returned evts _ (Hi & Hnd & Hr & Hp)|
    h avail posted returned g ev stop used left_ h' g' _ IH Hev E].
  - split_and!; [by apply blk_fresh_inv|apply keys_nodup|constructor|]. by rewrite (proj1 Hf).
  - split_and!; [done| | |].
    + rewrite <- app_assoc. cbn [app]. rewrite <- Permutation_middle. constructor; [|done]. rewrite elem_of_app. tauto.
    + apply Forall_app. split; [done|by constructor].
    + rewrite Hp. rewrite <- !app_assoc. f_equiv. f_equiv. apply Permutation_app_comm.
  - split_and!; try done. by destruct Hi.
  - destruct (blk_event_ok n h g ev (proj1 IH)) as [[E' _]|(stop' & used' & left' & h1 & g1 & E' & Hi1 & Hc)];
      [by eapply event_compliant|congruence|].
    rewrite E in E'. injection E' as <- <- <- <- <-. by eapply event_run_inv.
Qed.

(** C7. Conservation.  Along every run with a driver that does not reuse the head
    of a chain before it is returned, whatever its chains hold, however events are
    interleaved and requests complete: the chains posted are exactly those
    returned, those still available and those in flight, so none is lost and none
    returned twice; no head is both available and in flight, or twice either; and
    the requests kept are the ones in flight at the engine. *)
Theorem block_chains_conserved n h avail posted returned :
  blk_run n h avail posted returned ->
  posted ≡ₚ returned ++ avail ++ keys (bh_pending_req_map h) /\
  NoDup (avail ++ keys (bh_pending_req_map h)) /\
  inflight (bh_disk_image h) ≡ₚ keys (bh_pending_req_map h) /\
  (inflight (bh_disk_image h) = [] -> avail = [] -> posted ≡ₚ returned).
Proof.
  intros (Hi & Hnd & _ & Hp)%blk_run_inv. split_and!; [done..|apply Hi|].
  intros Hf ->. pose proof (bi_inflight _ _ Hi) as Hk. rewrite Hf in Hk. apply Permutation_nil in Hk. rewrite Hk in Hp.
  by rewrite app_nil_r in Hp.
Qed.

(** C25. Panics of the handler.  For such a driver an event makes the handler panic
    exactly if one of these happens: on a chain of the event, when it is its turn,
    the handler's rate limiter overflows; the used ring in the guest's memory
    refuses a chain that is returned; the interrupt fails although a chain was
    returned or a request completed; the engine reports an error; or the event is
    unknown.  In particular writing the status byte never does, and no completion
    is unknown.  In any other state a completion that does not belong to a request
    kept, which a driver causes by using a head twice, always makes it panic. *)
Theorem block_handler_panics n h avail posted returned g ev :
  blk_run n h avail posted returned ->
  (event_ok avail ev -> (blk_handle_event h g ev = Panic <-> blk_panic h g ev)) /\
  (forall h2 iovs d notified, ufile_io_complete (bh_disk_image h2) = (Ok iovs, d) ->
    ~ (NoDup iovs.*1 /\ Forall (fun i => i ∈ keys (bh_pending_req_map h2)) iovs.*1) ->
    blk_handle_event h2 g (EndIoEvent notified) = Panic).
Proof.
  intros Hrun. split.
  - intros Hev. split; [|apply blk_panic_panics]. intros Hpan. pose proof (blk_run_inv _ _ _ _ _ Hrun) as Hi.
    destruct (blk_event_ok n h g ev (proj1 Hi)) as [[_ Hc]|(stop & used & left_ & h1 & g1 & E & _)];
      [by eapply event_compliant|done|congruence].
  - intros h2 iovs d notified E Hn. cbn [blk_handle_event]. unfold blk_io_complete. rewrite E.
    destruct iovs as [|iov iovs]; [exfalso; apply Hn; split; constructor|]. cbn [length Nat.eqb].
    destruct (complete_all_unknown (set_bh_disk h2 d) g (iov :: iovs) Hn) as [-> |(used & h1 & g1 & ->)]; done.
Qed.
End Handler.
