(* ===== verification/LocalFile.v ===== *)
(** The local file behind a virtio-blk queue
    (dbs_virtio_devices/src/block/ufile/localfile.rs), as an instance of the trait
    [Ufile] over a file of the standard library and an engine for asynchronous
    requests; and that it keeps what the handler of a queue relies on: the laws of a disk follow from
    those of a file and of an engine. *)

From S2P Require Import Prelude Text VsockStream VsockPacket Block BlockSpec.

(** [std::fs::File]; [metadata] gives device, device of a special file and inode. *)
Class StdFile (F : Type) := {
  file_seek_start : F -> Z -> result Z Z * F;
  file_seek_end : F -> result Z Z * F;
  file_read : F -> Z -> result bytes Z * F;
  file_write : F -> bytes -> result Z Z * F;
  file_flush : F -> result unit Z * F;
  file_metadata : F -> result (Z * Z * Z) Z;
}.

(** The trait [IoEngine]. *)
Class IoEngine (E : Type) := {
  readv : E -> Z -> list IoDataDesc -> Z -> result Z Z * E;
  writev : E -> Z -> list IoDataDesc -> Z -> result Z Z * E;
  engine_complete : E -> result (list (Z * Z)) Z * E;
}.

Record LocalFile (F E : Type) := mkLocalFile {
  lf_file : F;
  lf_no_drop : bool;
  lf_capacity : Z;
  lf_io_engine : E;
}.
Arguments mkLocalFile {F E}.
Arguments lf_file {F E}.
Arguments lf_no_drop {F E}.
Arguments lf_capacity {F E}.
Arguments lf_io_engine {F E}.

Section LocalFile.
Context {F E : Type} `{StdFile F} `{IoEngine E}.
Notation L := (LocalFile F E).

Definition with_file {A} (l : L) (p : A * F) : A * L :=
  (p.1, mkLocalFile p.2 (lf_no_drop l) (lf_capacity l) (lf_io_engine l)).
Definition with_engine {A} (l : L) (p : A * E) : A * L :=
  (p.1, mkLocalFile (lf_file l) (lf_no_drop l) (lf_capacity l) p.2).

Definition LocalFile_new (file : F) (no_drop : bool) (io_engine : E) : result L Z * F :=
  match file_seek_end file with
  | (Err e, file) => (Err e, file)
  | (Ok capacity, file) => (Ok (mkLocalFile file no_drop capacity io_engine), file)
  end.

Definition LocalFile_get_device_id (l : L) : result bytes Z :=
  match file_metadata (lf_file l) with
  | Err e => Err e
  | Ok (st_dev, st_rdev, st_ino) => Ok (dec st_dev ++ dec st_rdev ++ dec st_ino)
  end.

(** The closure of [io_complete]: [user_data as u16] and the status. *)
Definition completion_status (p : Z * Z) : Z * Z :=
  (as_u16 p.1, if p.2 >=? 0 then VIRTIO_BLK_S_OK else VIRTIO_BLK_S_IOERR).

Definition LocalFile_io_complete (l : L) : result (list (Z * Z)) Z * L :=
  let '(r, l) := with_engine l (engine_complete (lf_io_engine l)) in
  (match r with Ok v => Ok (completion_status <$> v) | Err e => Err e end, l).

#[export] Instance LocalFile_ufile : Ufile L := {|
  get_capacity := lf_capacity;
  get_max_size _ := 0x100000;
  get_device_id := LocalFile_get_device_id;
  seek_start l pos := with_file l (file_seek_start (lf_file l) pos);
  seek_end l := with_file l (file_seek_end (lf_file l));
  ufile_read l n := with_file l (file_read (lf_file l) n);
  ufile_write l bs := with_file l (file_write (lf_file l) bs);
  ufile_flush l := with_file l (file_flush (lf_file l));
  io_read_submit l offset iovecs user_data := with_engine l (readv (lf_io_engine l) offset iovecs user_data);
  io_write_submit l offset iovecs user_data := with_engine l (writev (lf_io_engine l) offset iovecs user_data);
  ufile_io_complete := LocalFile_io_complete;
|}.
End LocalFile.

(** ** The laws of a disk *)

(** A file holds bytes and has a position. *)
Class StdFileLaws (F : Type) `{StdFile F} := {
  file_content : F -> bytes;
  file_position : F -> Z;
  file_seek_law f p r f' : file_seek_start f p = (r, f') ->
    file_content f' = file_content f /\ forall n, r = Ok n -> file_position f' = p;
  file_flush_law f r f' : file_flush f = (r, f') -> file_content f' = file_content f /\ file_position f' = file_position f;
}.

(** The contract of an engine: it completes each request it has accepted once, and a refused one never.  The engines
    of io_uring.rs and aio.rs are not modelled; the former ignores the result of pushing to its submission queue and
    leaves an entry there when submitting fails, so it keeps the contract only as long as neither happens. *)
Class IoEngineLaws (E : Type) `{IoEngine E} := {
  engine_inflight : E -> list Z;
  readv_law e offset iovecs u r e' : readv e offset iovecs u = (r, e') ->
    engine_inflight e' = (match r with Ok _ => [u] | Err _ => [] end) ++ engine_inflight e;
  writev_law e offset iovecs u r e' : writev e offset iovecs u = (r, e') ->
    engine_inflight e' = (match r with Ok _ => [u] | Err _ => [] end) ++ engine_inflight e;
  complete_law e v e' : engine_complete e = (Ok v, e') -> engine_inflight e ≡ₚ v.*1 ++ engine_inflight e';
}.

Section Laws.
Context {F E : Type} `{StdFileLaws F} `{IoEngineLaws E}.

Lemma completion_fst v : (completion_status <$> v).*1 = as_u16 <$> v.*1.
Proof. induction v as [|[u r] v IH]; [done|]. cbn. by f_equal. Qed.

(** The requests in flight are known by the 16 bits of their index. *)
#[refine, export] Instance LocalFile_laws : UfileLaws (LocalFile F E) := {|
  content l := file_content (lf_file l);
  position l := file_position (lf_file l);
  inflight l := as_u16 <$> engine_inflight (lf_io_engine l);
|}.
Proof.
  - intros l p r l'. cbn. unfold with_file. destruct (file_seek_start _ _) as [r1 f] eqn:E1. intros [= <- <-]. apply file_seek_law in E1 as [? ?]. done.
  - intros l r l'. cbn. unfold with_file. destruct (file_flush _) as [r1 f] eqn:E1. intros [= <- <-]. apply file_flush_law in E1 as [? ?]. done.
  - intros l offset iovecs u r l' Hu. cbn. unfold with_engine. destruct (readv _ _ _ _) as [r1 e] eqn:E1. intros [= <- <-]. apply readv_law in E1.
    cbn. rewrite E1, fmap_app. split; [|done]. destruct r1; cbn; [|done]. unfold as_u16. rewrite Z.mod_small by ulia. done.
  - intros l offset iovecs u r l' Hu. cbn. unfold with_engine. destruct (writev _ _ _ _) as [r1 e] eqn:E1. intros [= <- <-]. apply writev_law in E1.
    cbn. rewrite E1, fmap_app. split; [|done]. destruct r1; cbn; [|done]. unfold as_u16. rewrite Z.mod_small by ulia. done.
  - intros l iovs l'. cbn. unfold LocalFile_io_complete, with_engine. destruct (engine_complete _) as [[v|err] e] eqn:E1; [|done].
    intros [= <- <-]. apply complete_law in E1. cbn. split; [|done]. by rewrite completion_fst, <- fmap_app, E1.
Defined.
End Laws.
