(* ===== verification/BlockDevice.v ===== *)
(** The virtio-blk device itself (dbs_virtio_devices/src/block/device.rs): its
    features and configuration space, the threads it starts on activation, one per
    queue, and the messages it sends them.  It is an instance of the interface the
    transport works with.

    Outside are eventfds, channels, threads, the event manager and the timer of a
    default rate limiter (a world [W]). *)

From S2P Require Import Prelude Resources RateLimiter VsockStream VsockPacket VirtioMem VirtioDevice Block BlockHandler.

(** ** Constants *)

Definition CONFIG_MAX_SEG : Z := 16.
Definition TYPE_BLOCK : Z := 2.
Definition VIRTIO_BLK_F_SIZE_MAX : Z := 1.
Definition VIRTIO_BLK_F_SEG_MAX : Z := 2.
Definition VIRTIO_BLK_F_RO : Z := 5.
Definition VIRTIO_BLK_F_MQ : Z := 12.
Definition VIRTIO_F_VERSION_1 : Z := 32.

(** [Vec::pop]. *)
Definition vec_pop {A} (l : list A) : option (A * list A) :=
  match reverse l with [] => None | x :: r => Some (x, reverse r) end.

(** ** Threads and the outside *)

(** What a thread is started with. *)
Record BlkThread (Q D : Type) := mkBlkThread {
  bt_handler : BlkHandler D;
  bt_queue : VirtioQueueConfig Q;
  bt_receiver : Z;
  bt_kill_evt : Z;
}.
Arguments mkBlkThread {Q D}.
Arguments bt_handler {Q D}.
Arguments bt_queue {Q D}.
Arguments bt_receiver {Q D}.
Arguments bt_kill_evt {Q D}.

Class BlkHost (W Q D : Type) := {
  kill_eventfd_new : W -> result Z Z * W;
  kill_eventfd_clone : W -> Z -> result Z Z * W;
  kill_eventfd_write : W -> Z -> result unit Z * W;
  timer_new : W -> result unit Z * W;
  (** [mpsc::channel], [Sender::send]: a channel is known by a number. *)
  channel_new : W -> Z * W;
  channel_send : W -> Z -> KillEvent -> result unit Z * W;
  thread_spawn : W -> BlkThread Q D -> result Z Z * W;
  thread_join : W -> Z -> result unit Z * W;
  register_event_handler : W -> Z * W;
  remove_event_handler : W -> Z -> result unit Z * W;
}.

(** ** The device *)

Record BlockDev (D : Type) := mkBlockDev {
  bd_device_info : VirtioDeviceInfo;
  bd_disk_images : list D;
  bd_rate_limiters : list RateLimiter;
  bd_queue_sizes : list Z;
  bd_subscriber_id : option Z;
  bd_kill_evts : list Z;
  bd_evt_senders : list Z;
  bd_epoll_threads : list Z;
}.
Arguments mkBlockDev {D}.
Arguments bd_device_info {D}.
Arguments bd_disk_images {D}.
Arguments bd_rate_limiters {D}.
Arguments bd_queue_sizes {D}.
Arguments bd_subscriber_id {D}.
Arguments bd_kill_evts {D}.
Arguments bd_evt_senders {D}.
Arguments bd_epoll_threads {D}.

(** The configuration space, little endian: sectors, [size_max], [seg_max], 18
    bytes that are not in use and the number of queues. *)
Definition build_config_space (disk_size max_size num_queues : Z) : bytes :=
  le_bytes 8 (Z.shiftr disk_size SECTOR_SHIFT) ++ le_bytes 4 max_size ++ le_bytes 4 CONFIG_MAX_SEG ++
  replicate 18 0 ++ le_bytes 2 num_queues.

Section Device.
Context {W Q D : Type} `{Ufile D} `{BlkHost W Q D}.
Notation B := (BlockDev D).

Definition build_device_id (disk_image : D) : bytes :=
  let default_disk_image_id := replicate (Z.to_nat VIRTIO_BLK_ID_BYTES) 0 in
  match get_device_id disk_image with
  | Err _ => default_disk_image_id
  | Ok disk_id =>
      let bytes_to_copy := Z.min (zlen disk_id) VIRTIO_BLK_ID_BYTES in
      ztake bytes_to_copy disk_id ++ zdrop bytes_to_copy default_disk_image_id
  end.

Definition block_features (is_disk_read_only : bool) (num_queues : nat) : Z :=
  let f := Z.shiftl 1 VIRTIO_F_VERSION_1 in
  let f := Z.lor f (Z.shiftl 1 VIRTIO_BLK_F_SIZE_MAX) in
  let f := Z.lor f (Z.shiftl 1 VIRTIO_BLK_F_SEG_MAX) in
  let f := if is_disk_read_only then Z.lor f (Z.shiftl 1 VIRTIO_BLK_F_RO) else f in
  if (1 <? num_queues)%nat then Z.lor f (Z.shiftl 1 VIRTIO_BLK_F_MQ) else f.

Definition Block_new (disk_images : list D) (is_disk_read_only : bool) (queue_sizes : list Z)
  (rate_limiters : list RateLimiter) : result B BlkError :=
  match disk_images with
  | [] => Err InvalidInput
  | disk_image :: others =>
      match seek_end disk_image with
      | (Err e, _) => Err (IOError e)
      | (Ok disk_size, disk_image) =>
          let num_queues := S (length others) in
          let config_space :=
            build_config_space disk_size (get_max_size disk_image) (as_u16 (Z.of_nat num_queues)) in
          Ok (mkBlockDev (VirtioDeviceInfo_new (block_features is_disk_read_only num_queues) queue_sizes config_space)
                (disk_image :: others) rate_limiters queue_sizes None [] [] [])
      end
  end.

(** *** Activation *)

Definition default_limiter (w : W) : outcome (RateLimiter * W) :=
  let '(timer, w) := timer_new (Q := Q) (D := D) w in
  let! r := RateLimiter_new 0 0 0 0 0 0 (0, 0) timer in
  match r with Ok l => Ret (l, w) | Err _ => Panic end.

Definition pop_limiter (w : W) (limiters : list RateLimiter) : outcome (RateLimiter * list RateLimiter * W) :=
  match vec_pop limiters with
  | Some (l, limiters) => Ret (l, limiters, w)
  | None => let! (l, w) := default_limiter w in Ret (l, [], w)
  end.

(** [try_clone().unwrap()]. *)
Definition clone_evt (w : W) (fd : Z) : outcome (Z * W) :=
  match kill_eventfd_clone (Q := Q) (D := D) w fd with (Ok x, w) => Ret (x, w) | (Err _, _) => Panic end.

(** One round of the loop over the queues. *)
Definition activate_queue (w : W) (b : B) (queue : VirtioQueueConfig Q) : outcome (result unit ActivateError * B * W) :=
  let '(mkBlockDev info images limiters sizes sub kills senders threads) := b in
  let! (disk_image, images) := unwrap (vec_pop images) in
  let disk_image_id := build_device_id disk_image in
  let! queue_size := unwrap (head sizes) in
  let vec := replicate (Z.to_nat queue_size) [] in
  let! (rate_limiter, limiters, w) := pop_limiter w limiters in
  let '(channel, w) := channel_new (Q := Q) (D := D) w in
  let senders := senders ++ [channel] in
  match kill_eventfd_new (Q := Q) (D := D) w with
  | (Err e, w) => Ret (Err (ActIOError e), mkBlockDev info images limiters sizes sub kills senders threads, w)
  | (Ok kill_evt, w) =>
      let! (handler_evt, w) := clone_evt w kill_evt in
      let handler := mkBlkHandler disk_image disk_image_id rate_limiter ∅ vec vec [] in
      let! (_, w) := clone_evt w kill_evt in
      let kills := kills ++ [kill_evt] in
      match thread_spawn w (mkBlkThread handler queue channel handler_evt) with
      | (Err e, w) => Ret (Err ActInternalError, mkBlockDev info images limiters sizes sub kills senders threads, w)
      | (Ok thread, w) => Ret (Ok tt, mkBlockDev info images limiters sizes sub kills senders (threads ++ [thread]), w)
      end
  end.

(** The loop: the queues are reversed and popped, that is, taken in order. *)
Fixpoint activate_queues (w : W) (b : B) (queues : list (VirtioQueueConfig Q)) : outcome (result unit ActivateError * B * W) :=
  match queues with
  | [] => Ret (Ok tt, b, w)
  | queue :: queues =>
      let! (r, b, w) := activate_queue w b queue in
      match r with
      | Err e => Ret (Err e, b, w)
      | Ok _ => activate_queues w b queues
      end
  end.

Definition Block_activate (w : W) (b : B) (config : VirtioDeviceConfig Q) : outcome (result unit ActivateError * B * W) :=
  match check_queue_sizes (bd_device_info b) (dc_queues config) with
  | Err e => Ret (Err e, b, w)
  | Ok _ =>
      if negb (length (bd_disk_images b) =? length (dc_queues config))%nat then Ret (Err ActInternalError, b, w) else
      let! (r, b, w) := activate_queues w b (dc_queues config) in
      match r with
      | Err e => Ret (Err e, b, w)
      | Ok _ =>
          let '(id, w) := register_event_handler (Q := Q) (D := D) w in
          let '(mkBlockDev info images limiters sizes _ kills senders threads) := b in
          Ret (Ok tt, mkBlockDev info images limiters sizes (Some id) kills senders threads, w)
      end
  end.

(** *** Messages *)

(** Sends to every channel, up to the first that fails. *)
Fixpoint send_each (w : W) (senders : list Z) (evt : KillEvent) : bool * W :=
  match senders with
  | [] => (true, w)
  | sender :: senders =>
      match channel_send (Q := Q) (D := D) w sender evt with
      | (Err _, w) => (false, w)
      | (Ok _, w) => send_each w senders evt
      end
  end.

Fixpoint write_each (w : W) (evts : list Z) : bool * W :=
  match evts with
  | [] => (true, w)
  | fd :: evts =>
      match kill_eventfd_write (Q := Q) (D := D) w fd with
      | (Err _, w) => (false, w)
      | (Ok _, w) => write_each w evts
      end
  end.

Definition set_patch_rate_limiters (w : W) (b : B) (bytes_ ops_ : BucketUpdate) : result unit BlkError * W :=
  if (length (bd_evt_senders b) =? 0)%nat || (length (bd_kill_evts b) =? 0)%nat ||
     negb (length (bd_evt_senders b) =? length (bd_kill_evts b))%nat then (Err InternalError, w) else
  let '(sent, w) := send_each w (bd_evt_senders b) (KillBucketUpdate bytes_ ops_) in
  if negb sent then (Err InternalError, w) else
  let '(written, w) := write_each w (bd_kill_evts b) in
  if negb written then (Err InternalError, w) else (Ok tt, w).

(** *** Removal: failures are only logged. *)

Fixpoint join_each (w : W) (threads : list Z) : W :=
  match threads with [] => w | t :: threads => join_each (thread_join (Q := Q) (D := D) w t).2 threads end.

Definition Block_remove (w : W) (b : B) : B * W :=
  let w := match bd_subscriber_id b with Some id => (remove_event_handler (Q := Q) (D := D) w id).2 | None => w end in
  let w := foldl (fun w sender => (channel_send (Q := Q) (D := D) w sender Kill).2) w (bd_evt_senders b) in
  let w := foldl (fun w fd => (kill_eventfd_write (Q := Q) (D := D) w fd).2) w (bd_kill_evts b) in
  let w := join_each w (reverse (bd_epoll_threads b)) in
  let '(mkBlockDev info images limiters sizes _ kills senders _) := b in
  (mkBlockDev info images limiters sizes None kills senders [], w).

Definition block_resource_requirements (b : B) (use_generic_irq : bool) : list ResourceConstraint :=
  [RC_LegacyIrq None] ++
  (if use_generic_irq then [RC_GenericIrq (as_u32 (Z.of_nat (length (bd_queue_sizes b)) + 1))] else []).

(** ** The interface *)

Definition set_bd_info (b : B) (i : VirtioDeviceInfo) : B :=
  mkBlockDev i (bd_disk_images b) (bd_rate_limiters b) (bd_queue_sizes b) (bd_subscriber_id b) (bd_kill_evts b)
    (bd_evt_senders b) (bd_epoll_threads b).

(** The transport only tells errors from successes. *)
Definition activate_code (e : ActivateError) : Z :=
  match e with InvalidParam => 0 | ActInternalError => 1 | ActIOError e => 2 + e end.

Definition unit_code {E} (r : result unit E) : result unit Z := match r with Ok _ => Ok tt | Err _ => Err 0 end.

#[export] Instance Block_virtio_device : VirtioDevice W Q B := {|
  device_type _ := TYPE_BLOCK;
  queue_max_sizes := bd_queue_sizes;
  ctrl_queue_max_sizes _ := 0;
  get_avail_features b page := info_get_avail_features (bd_device_info b) page;
  set_acked_features b page value := set_bd_info b (info_set_acked_features (bd_device_info b) page value);
  read_config b offset data :=
    let '(r, data) := info_read_config (bd_device_info b) offset data in (unit_code r, data, b);
  write_config b offset data :=
    let '(r, i) := info_write_config (bd_device_info b) offset data in (unit_code r, set_bd_info b i);
  device_activate w b config :=
    let! (r, b, w) := Block_activate w b config in
    Ret (match r with Ok _ => Ok tt | Err e => Err (activate_code e) end, b, w);
  device_reset w b := Ret (Ok tt, b, w);
  device_set_resource w b _ := Ret (Ok None, b, w);
|}.
End Device.
