(* ===== verification/BlockDeviceSpec.v ===== *)
(** Correctness of the virtio-blk device: what it announces, the threads an
    activation starts, and that it is activated at most once, also behind the
    transport. *)

From S2P Require Import Prelude Resources RateLimiter Interrupt InterruptSpec VsockStream VsockPacket VirtioMem VirtioDevice.
From S2P Require Import Mmio MmioSpec Block BlockSpec BlockHandler BlockProps BlockDevice.

Lemma vec_pop_snoc {A} (l : list A) x : vec_pop (l ++ [x]) = Some (x, l).
Proof. unfold vec_pop. rewrite reverse_app. change (reverse [x]) with [x]. cbn [app]. by rewrite reverse_involutive. Qed.

Lemma vec_pop_inv {A} (l : list A) x l' : vec_pop l = Some (x, l') -> l = l' ++ [x].
Proof.
  unfold vec_pop. intros E. destruct (reverse l) as [|y r] eqn:Er; [done|]. injection E as -> <-.
  rewrite <- (reverse_involutive l), Er. apply reverse_cons.
Qed.

(** ** The configuration space *)

Section New.
Context {D : Type} `{Ufile D}.

(** What a new device announces: the whole sectors of the disk, the size of a
    segment, the number of segments and the number of queues; read-only disks and
    several queues by their features. *)
Theorem Block_new_correct (images : list D) ro sizes limiters (b : BlockDev D) :
  (forall d n d', d ∈ images -> seek_end d = (Ok n, d') -> in_u64 n /\ in_u32 (get_max_size d')) ->
  Z.of_nat (length images) <= u16_max ->
  Block_new images ro sizes limiters = Ok b ->
  exists d n d', head images = Some d /\ seek_end d = (Ok n, d') /\
    bd_disk_images b = d' :: tail images /\ bd_rate_limiters b = limiters /\ bd_queue_sizes b = sizes /\
    queue_sizes (bd_device_info b) = sizes /\
    let space := config_space (bd_device_info b) in
    zlen space = 36 /\ field space 0 8 = n / 512 /\ field space 8 4 = get_max_size d' /\ field space 12 4 = CONFIG_MAX_SEG /\
    field space 34 2 = Z.of_nat (length images) /\
    Z.testbit (avail_features (bd_device_info b)) VIRTIO_BLK_F_RO = ro /\
    Z.testbit (avail_features (bd_device_info b)) VIRTIO_BLK_F_MQ = (1 <? length images)%nat.
Proof.
  intros Hty Hlen. unfold Block_new. destruct images as [|d images]; [done|]. destruct (seek_end d) as [[n|e] d'] eqn:E; [|done].
  intros [= <-]. destruct (Hty _ _ _ ltac:(constructor) E) as [Hn Hm]. exists d, n, d'. cbv zeta.
  cbn [bd_device_info VirtioDeviceInfo_new config_space avail_features length]. split_and!; try done.
  - unfold build_config_space, SECTOR_SHIFT. rewrite Z.shiftr_div_pow2 by lia.
    change (2 ^ 9) with 512. apply (field_at []); [done..|]. change (256 ^ 8) with (2 ^ 64).
    split; [apply Z.div_pos; ulia|]. apply Z.div_lt_upper_bound; ulia.
  - unfold build_config_space. apply field_at; [by rewrite le_bytes_len|done|].
    change (256 ^ 4) with (2 ^ 32). ulia.
  - unfold build_config_space. rewrite !app_assoc.
    rewrite <- (app_nil_r (le_bytes 2 _)). unfold as_u16. rewrite Z.mod_small by (cbn [length] in Hlen; ulia).
    apply field_at; [by rewrite !zlen_app, !le_bytes_len|done|]. cbn [length] in *. change (256 ^ 2) with (2 ^ 16). ulia.
  - unfold block_features. by destruct ro, (1 <? S (length images))%nat.
  - unfold block_features. by destruct ro, (1 <? S (length images))%nat.
Qed.
End New.

(** ** Activation *)

(** The threads started so far. *)
Class BlkHostLaws (W Q D : Type) `{BlkHost W Q D} := {
  spawned : W -> list (BlkThread Q D);
  spawn_law w t r w' : thread_spawn w t = (r, w') -> spawned w' = spawned w ++ match r with Ok _ => [t] | Err _ => [] end;
  eventfd_new_law w r w' : kill_eventfd_new (Q := Q) (D := D) w = (r, w') -> spawned w' = spawned w;
  eventfd_clone_law w fd r w' : kill_eventfd_clone (Q := Q) (D := D) w fd = (r, w') -> spawned w' = spawned w;
  timer_law w r w' : timer_new (Q := Q) (D := D) w = (r, w') -> spawned w' = spawned w;
  channel_law w c w' : channel_new (Q := Q) (D := D) w = (c, w') -> spawned w' = spawned w;
  register_law w i w' : register_event_handler (Q := Q) (D := D) w = (i, w') -> spawned w' = spawned w;
}.

Section Activation.
Context {W Q D : Type} `{Ufile D} `{BlkHostLaws W Q D}.
Notation B := (BlockDev D).

(** A thread for a queue, with a disk image and empty tables. *)
Definition serves (n : nat) (queue : VirtioQueueConfig Q) (image : D) (t : BlkThread Q D) : Prop :=
  let h := bt_handler t in
  bt_queue t = queue /\ bh_disk_image h = image /\ bh_disk_image_id h = build_device_id image /\
  bh_pending_req_map h = ∅ /\ bh_data_desc_vec h = replicate n [] /\ bh_iovecs_vec h = replicate n [] /\ bh_evt_receiver h = [].

(** What rounds of the loop leave alone. *)
Definition same_sizes (b b' : B) : Prop :=
  queue_sizes (bd_device_info b') = queue_sizes (bd_device_info b) /\ bd_queue_sizes b' = bd_queue_sizes b.

Lemma pop_limiter_spawned w ls l ls' w' : pop_limiter w ls = Ret (l, ls', w') -> spawned w' = spawned w.
Proof.
  unfold pop_limiter, default_limiter. destruct (vec_pop ls) as [[? ?]|]; [by intros [= _ _ <-]|].
  destruct (timer_new w) as [timer w1] eqn:E. apply timer_law in E. intros Hx. bind_inv Hx. destruct a as [l1 w2]. injection Hx as <- <- <-.
  bind_inv Ha. destruct a as [l2|e]; [|done]. by injection Ha as <- <-.
Qed.

Lemma clone_evt_spawned w fd x w' : clone_evt (Q := Q) (D := D) w fd = Ret (x, w') -> spawned w' = spawned w.
Proof. unfold clone_evt. destruct (kill_eventfd_clone w fd) as [[y|e] w1] eqn:E; [|done]. intros [= <- <-]. by eapply eventfd_clone_law. Qed.

Lemma activate_queue_ok w (b : B) queue r b' w' :
  activate_queue w b queue = Ret (r, b', w') ->
  exists n images image, head (bd_queue_sizes b) = Some n /\ bd_disk_images b = images ++ [image] /\ bd_disk_images b' = images /\ same_sizes b b' /\
    (r = Ok tt -> exists t, spawned w' = spawned w ++ [t] /\ serves (Z.to_nat n) queue image t).
Proof.
  destruct b as [info images limiters sizes sub kills senders threads]. cbn [activate_queue]. intros Hx. bind_inv Hx. destruct a as [image images'].
  destruct (vec_pop images) as [[? ?]|] eqn:Ep; [|done]. injection Ha as -> ->. apply vec_pop_inv in Ep as ->.
  bind_inv Hx. destruct (head sizes) as [n|] eqn:En; [|done]. injection Ha as <-.
  bind_inv Hx. destruct a as [[lim limiters'] w1]. apply pop_limiter_spawned in Ha as E1.
  destruct (channel_new w1) as [ch w2] eqn:E2. apply channel_law in E2. destruct (kill_eventfd_new w2) as [[evt|e] w3] eqn:E3; apply eventfd_new_law in E3.
  2: { injection Hx as <- <- <-. by exists n, images', image. }
  bind_inv Hx. destruct a as [evt2 w4]. apply clone_evt_spawned in Ha0 as E4. bind_inv Hx. destruct a as [evt3 w5]. apply clone_evt_spawned in Ha1 as E5.
  destruct (thread_spawn _ _) as [[th|e] w6] eqn:E6; apply spawn_law in E6; injection Hx as <- <- <-; exists n, images', image; split_and!; try done.
  intros _. eexists. split; [rewrite E6; f_equal; congruence|]. by split_and!.
Qed.

Lemma activate_queues_ok w (b : B) queues r b' w' :
  activate_queues w b queues = Ret (r, b', w') -> (length queues <= length (bd_disk_images b))%nat ->
  same_sizes b b' /\
  match r with
  | Ok _ => exists images rest ts n, bd_disk_images b = rest ++ images /\ bd_disk_images b' = rest /\ length images = length queues /\
      (queues <> [] -> head (bd_queue_sizes b) = Some n) /\
      spawned w' = spawned w ++ ts /\ Forall2 (fun '(queue, image) t => serves (Z.to_nat n) queue image t) (zip queues (reverse images)) ts
  | Err _ => (length (bd_disk_images b') < length (bd_disk_images b))%nat
  end.
Proof.
  revert w b. induction queues as [|queue queues IH]; intros w b; cbn [activate_queues].
  { intros [= <- <- <-] _. split; [done|]. exists [], (bd_disk_images b), [], 0. split_and!; try done; by rewrite app_nil_r. }
  intros Hx Hlen. bind_inv Hx. destruct a as [[r1 b1] w1]. apply activate_queue_ok in Ha as (n & images & image & Hn & Ei & Ei1 & Hs & Ht).
  rewrite Ei, length_app in Hlen. cbn [length] in Hlen. destruct r1 as [[]|e].
  2: { injection Hx as <- <- <-. split; [done|]. rewrite Ei1, Ei, length_app. cbn. lia. }
  apply IH in Hx as [Hs2 Hr]; [|rewrite Ei1; lia]. destruct Hs as [Hs Hs'], Hs2 as [Hs2 Hs2']. split; [split; congruence|].
  destruct (Ht eq_refl) as (t & Esp & Hser). destruct r as [[]|e].
  - destruct Hr as (imgs & rest & ts & n2 & Ei2 & Er & Hl & Hn2 & Esp2 & Hf). exists (imgs ++ [image]), rest, (t :: ts), n. split_and!.
    + by rewrite Ei, <- Ei1, Ei2, app_assoc.
    + done.
    + rewrite length_app. cbn. lia.
    + done.
    + by rewrite Esp2, Esp, <- app_assoc.
    + rewrite reverse_app. cbn. constructor; [done|]. destruct queues as [|q queues]; [inversion Hf; constructor|].
      rewrite Hs' in Hn2. assert (n2 = n) as -> by (specialize (Hn2 ltac:(done)); congruence). done.
  - rewrite Ei, length_app. rewrite Ei1 in Hr. cbn. lia.
Qed.

(** A device that has lost images has fewer than queues. *)
Definition spent (b : B) : Prop := length (bd_disk_images b) <> length (queue_sizes (bd_device_info b)).

Lemma spent_refuses w (b : B) config : spent b -> exists e, Block_activate w b config = Ret (Err e, b, w).
Proof.
  intros Hs. unfold Block_activate, check_queue_sizes. destruct (_ || _) eqn:E; [by eexists|]. bools. apply Nat.eqb_eq in H3.
  rewrite (proj2 (Nat.eqb_neq _ _)); [by eexists|]. unfold spent in Hs. congruence.
Qed.

(** Activation.  A successful activation starts one thread for each queue, in
    order, that serves the queue with an image of its own, the images taken from
    the end, and with empty tables of the size of the first queue; it uses up all
    images.  One that is refused changes nothing, and one that fails later has
    lost images.  So after a success or such a failure every further activation is
    refused, also after a reset, which succeeds and changes nothing. *)
Theorem block_activation w (b : B) config r b' w' :
  length (bd_disk_images b) = length (queue_sizes (bd_device_info b)) ->
  Block_activate w b config = Ret (r, b', w') ->
  match r with
  | Ok _ => exists n ts, head (bd_queue_sizes b) = Some n /\ spawned w' = spawned w ++ ts /\
      Forall2 (fun '(queue, image) t => serves (Z.to_nat n) queue image t) (zip (dc_queues config) (reverse (bd_disk_images b))) ts /\
      length ts = length (dc_queues config) /\ bd_disk_images b' = [] /\ spent b'
  | Err _ => (b' = b /\ w' = w) \/ spent b'
  end /\
  (spent b' -> forall w2 b2 w3, device_reset w2 b' = Ret (Ok tt, b2, w3) ->
    forall w4 config2, exists e, device_activate w4 b2 config2 = Ret (Err e, b2, w4)).
Proof.
  intros Hlen Hx. split.
  - unfold Block_activate in Hx. destruct (check_queue_sizes _ _) as [[]|e] eqn:Ec; [|injection Hx as <- <- <-; by left].
    destruct (Nat.eqb_spec (length (bd_disk_images b)) (length (dc_queues config))) as [El|]; cbn [negb] in Hx; [|injection Hx as <- <- <-; by left].
    assert (Hne : dc_queues config <> []) by (intros E; unfold check_queue_sizes in Ec; by rewrite E in Ec).
    bind_inv Hx. destruct a as [[r1 b1] w1]. apply activate_queues_ok in Ha as [[Hs Hs'] Hr]; [|lia]. destruct r1 as [[]|e].
    + destruct Hr as (images & rest & ts & n & Ei & Er & Hl & Hn & Esp & Hf). destruct (register_event_handler w1) as [id w2] eqn:E2.
      apply register_law in E2. destruct b1 as [info imgs lims sizes sub kills senders threads]. injection Hx as <- <- <-. cbn in *.
      assert (rest = []) as -> by (apply nil_length_inv; rewrite Ei, length_app in El; lia). cbn in Ei. subst images imgs.
      exists n, ts. split_and!; [by apply Hn|congruence|done| |done|].
      * apply Forall2_length in Hf. rewrite <- Hf, length_zip, length_reverse. lia.
      * unfold spent. cbn. rewrite Hs, <- Hlen, El. by destruct (dc_queues config).
    + injection Hx as <- <- <-. right. unfold spent. rewrite Hs. lia.
  - intros Hs w2 b2 w3 [= <- <-] w4 config2. cbn. destruct (spent_refuses w4 b' config2 Hs) as [e ->]. cbn. by eexists.
Qed.
End Activation.

(** ** Behind the transport *)

(** What the device asks of the host does not touch interrupts or ioevents. *)
Definition quiet {W} `{MmioLaws W} (w w' : W) : Prop := groups_kept w w' /\ ioevents w' = ioevents w.

Class BlkHostQuiet (W Q D : Type) `{BlkHost W Q D} `{MmioLaws W} : Prop := {
  spawn_quiet w (t : BlkThread Q D) : quiet w (thread_spawn w t).2;
  eventfd_new_quiet w : quiet w (kill_eventfd_new (Q := Q) (D := D) w).2;
  eventfd_clone_quiet w fd : quiet w (kill_eventfd_clone (Q := Q) (D := D) w fd).2;
  timer_quiet w : quiet w (timer_new (Q := Q) (D := D) w).2;
  channel_quiet w : quiet w (channel_new (Q := Q) (D := D) w).2;
  register_quiet w : quiet w (register_event_handler (Q := Q) (D := D) w).2;
}.

Section Interface.
Context {W Q D : Type} `{MmioLaws W} `{!Ufile D} `{!BlkHost W Q D} `{!BlkHostQuiet W Q D}.
Notation B := (BlockDev D).

Lemma quiet_refl (w : W) : quiet w w.
Proof. split; [apply groups_kept_refl|done]. Qed.

Lemma quiet_trans (w w1 w2 : W) : quiet w w1 -> quiet w1 w2 -> quiet w w2.
Proof. intros [? E1] [? E2]. split; [by eapply groups_kept_trans|congruence]. Qed.

Lemma pop_limiter_quiet w ls l ls' w' : pop_limiter (Q := Q) (D := D) w ls = Ret (l, ls', w') -> quiet w w'.
Proof.
  unfold pop_limiter, default_limiter. destruct (vec_pop ls) as [[? ?]|]; [intros [= _ _ <-]; apply quiet_refl|].
  pose proof (timer_quiet (Q := Q) (D := D) w) as Hq. destruct (timer_new w) as [timer w1]. intros Hx. bind_inv Hx. destruct a as [l1 w2].
  injection Hx as <- <- <-. bind_inv Ha. destruct a as [l2|e]; [|done]. by injection Ha as <- <-.
Qed.

Lemma clone_evt_quiet w fd x w' : clone_evt (Q := Q) (D := D) w fd = Ret (x, w') -> quiet w w'.
Proof.
  unfold clone_evt. pose proof (eventfd_clone_quiet (Q := Q) (D := D) w fd) as Hq. destruct (kill_eventfd_clone w fd) as [[y|e] w1]; [|done].
  by intros [= <- <-].
Qed.

Lemma activate_queue_quiet w (b : B) queue r b' w' : activate_queue w b queue = Ret (r, b', w') -> quiet w w'.
Proof.
  destruct b as [info images limiters sizes sub kills senders threads]. cbn [activate_queue]. intros Hx. bind_inv Hx. destruct a as [image images'].
  bind_inv Hx. bind_inv Hx. destruct a0 as [[lim limiters'] w1]. apply pop_limiter_quiet in Ha1.
  pose proof (channel_quiet (Q := Q) (D := D) w1) as E2. destruct (channel_new w1) as [ch w2]. cbn [snd] in E2.
  pose proof (eventfd_new_quiet (Q := Q) (D := D) w2) as E3. destruct (kill_eventfd_new w2) as [[evt|e] w3]; cbn [snd] in E3.
  2: { injection Hx as <- <- <-. eauto using quiet_trans. }
  bind_inv Hx. destruct a0 as [evt2 w4]. apply clone_evt_quiet in Ha2. bind_inv Hx. destruct a0 as [evt3 w5]. apply clone_evt_quiet in Ha3.
  match type of Hx with context [thread_spawn ?w ?t] => pose proof (spawn_quiet w t) as E6; destruct (thread_spawn w t) as [[th|e] w6] end;
    injection Hx as <- <- <-; eauto 10 using quiet_trans.
Qed.

Lemma activate_queues_quiet w (b : B) queues r b' w' : activate_queues w b queues = Ret (r, b', w') -> quiet w w'.
Proof.
  revert w b. induction queues as [|queue queues IH]; intros w b; cbn [activate_queues]; [intros [= _ _ <-]; apply quiet_refl|].
  intros Hx. bind_inv Hx. destruct a as [[[[]|e] b1] w1]; apply activate_queue_quiet in Ha; [|by injection Hx as _ _ <-].
  eapply quiet_trans; [done|by eapply IH].
Qed.

Lemma Block_activate_quiet w (b : B) config r b' w' : Block_activate w b config = Ret (r, b', w') -> quiet w w'.
Proof.
  unfold Block_activate. destruct (check_queue_sizes _ _) as [[]|e]; [|intros [= _ _ <-]; apply quiet_refl].
  destruct (negb _); [intros [= _ _ <-]; apply quiet_refl|]. intros Hx. bind_inv Hx. destruct a as [[[[]|e] b1] w1]; apply activate_queues_quiet in Ha;
    [|by injection Hx as _ _ <-].
  pose proof (register_quiet (Q := Q) (D := D) w1) as Hq. destruct (register_event_handler w1) as [id w2]. destruct b1. injection Hx as _ _ <-.
  by eapply quiet_trans.
Qed.

(** So virtio-blk is a device the theorems of the transport hold for. *)
#[export] Instance Block_device_laws : VirtioDeviceLaws W Q B.
Proof.
  split.
  - intros w d c r d' w' Hx. cbn in Hx. bind_inv Hx. destruct a as [[r1 b1] w1]. injection Hx as _ _ <-. by apply Block_activate_quiet in Ha as [? _].
  - intros w d c r d' w' Hx. cbn in Hx. bind_inv Hx. destruct a as [[r1 b1] w1]. injection Hx as _ _ <-. by apply Block_activate_quiet in Ha as [_ ->].
  - intros w d r d' w' [= _ _ <-]. apply groups_kept_refl.
  - by intros w d r d' w' [= _ _ <-].
  - intros w d res r d' w' [= _ _ <-]. apply groups_kept_refl.
Qed.
End Interface.

Section Transport.
Context {W Q D : Type} `{!MmioEnv W} `{!InterruptManager W} `{!Queue W Q} `{!Ufile D} `{!BlkHost W Q D}.
Notation S := (MmioState Q (BlockDev D)).
Notation M := (MmioDevice (Q := Q) (D := BlockDev D)).

Lemma spent_activate (w : W) (s : S) r s' w' :
  spent (ms_device s) -> ms_device_activated s = false -> mmio_activate w s = Ret (r, s', w') ->
  exists e, r = Err e /\ ms_device s' = ms_device s /\ ms_device_activated s' = false.
Proof.
  intros Hs Hna. unfold mmio_activate. rewrite Hna. destruct (negb (check_queues_valid w s)); [intros [= <- <- <-]; by eexists|].
  intros Hx. bind_inv Hx. destruct a as [[r1 s1] w1].
  assert (Hs1 : ms_device s1 = ms_device s /\ ms_device_activated s1 = false).
  { unfold register_ioevents in Ha. bind_inv Ha. destruct a as [[[]|e] w2]; injection Ha as <- <- <-; destruct s; done. }
  destruct Hs1 as [Hd1 Ha1]. destruct r1 as [[]|e]; [|injection Hx as <- <- <-; by eexists].
  bind_inv Hx. destruct a as [[r2 intr] w2]. assert (Hs2 : ms_device (set_ms_intr_mgr s1 intr) = ms_device s /\ ms_device_activated (set_ms_intr_mgr s1 intr) = false).
  { destruct s1. done. }
  destruct Hs2 as [Hd2 Ha2]. destruct r2 as [[]|e]; [|injection Hx as <- <- <-; by eexists].
  bind_inv Hx. rewrite Hd2 in Hx. cbn [device_activate Block_virtio_device] in Hx. destruct (spent_refuses w2 (ms_device s) a Hs) as [e He]. rewrite He in Hx.
  cbn [obind] in Hx. injection Hx as <- <- <-. eexists. split; [done|]. by destruct (set_ms_intr_mgr s1 intr).
Qed.

Lemma mmio_reset_inactive (w : W) (s : S) r s' w' : ms_device_activated s = false -> mmio_reset w s = Ret (r, s', w') -> ms_device_activated s' = false.
Proof.
  intros Hna. unfold mmio_reset. rewrite Hna. destruct (reset_queues _) as [[e|] queues]; [intros [= _ <- _]; by destruct s|].
  intros Hx. bind_inv Hx. destruct a as [[r1 intr] w1]. bind_inv Hx. destruct a as [s2 w2]. injection Hx as _ <- _.
  assert (Hs2 : ms_device_activated s2 = false); [|by destruct s2].
  unfold unregister_ioevents in Ha0. destruct s. cbn in Ha0. repeat case_hyp Ha0; try bind_inv Ha0; by injection Ha0 as <- _.
Qed.

(** No second life.  Once its images are used up a virtio-blk device behind the
    transport does not come up again: whatever the machine does, the driver that
    has negotiated the features and writes DRIVER_OK, as after a reset, finds the
    status failed and the device not activated. *)
Theorem block_fails_after_reset (w : W) (d : M) d' w' :
  spent (ms_device (md_state d)) -> ms_device_activated (md_state d) = false -> md_driver_status d = DEVICE_STATUS_FEATURE_OK ->
  update_driver_status w d DEVICE_STATUS_DRIVER_OK = Ret (d', w') ->
  md_driver_status d' = Z.lor DEVICE_STATUS_DRIVER_OK DEVICE_FAILED /\ ms_device_activated (md_state d') = false.
Proof.
  intros Hs Hna Hst Hx. change (update_driver_status w d DEVICE_STATUS_DRIVER_OK) with (let! (ok, d, w) := driver_ok w d in Ret (settle ok d, w)) in Hx.
  bind_inv Hx. destruct a as [[ok d1] w1]. injection Hx as <- <-. unfold driver_ok, exchange_driver_status in Ha. rewrite Hst, Z.eqb_refl in Ha.
  destruct (set_status_fields d DEVICE_STATUS_DRIVER_OK) as [Es Et]. generalize dependent (set_md_driver_status d DEVICE_STATUS_DRIVER_OK).
  intros d0 Ha Es Et. bind_inv Ha. destruct a as [[r s] w2]. rewrite Es in Ha0.
  destruct (spent_activate _ _ _ _ _ Hs Hna Ha0) as (e & -> & _ & Hna1). bind_inv Ha. destruct a as [[r2 s2] w3]. injection Ha as <- <- <-. cbn [settle].
  apply mmio_reset_inactive in Ha1; [|done]. destruct (failed_fields (set_md_state d0 s2)) as [-> ->].
  destruct (set_md_state_fields d0 s2) as [-> ->]. by rewrite Et.
Qed.
End Transport.
