(* ===== verification/BlockDemo.v ===== *)
(** A guest, a file and an engine: the theorems of virtio-blk applied to a small
    machine, and the runs that show what a driver can do to the handler. *)

From S2P Require Import Prelude Resources RateLimiter Interrupt InterruptSpec VsockStream VsockPacket VirtioMem VirtioDevice.
From S2P Require Import KvmIrq Mmio MmioSpec MmioProps MmioMsi MmioDemo Block BlockSpec BlockHandler BlockProps LocalFile BlockDevice BlockDeviceSpec.

(** ** The machine *)

(** Guest memory from address 0 on, mapped at a host address, and the used ring. *)
Record DemoGuest := mkDemoGuest { dg_bytes : bytes; dg_used : list (Z * Z) }.

Definition HOST_BASE : Z := 0x7f0000000000.

Definition in_guest (g : DemoGuest) (a n : Z) : bool := (0 <=? a) && (0 <=? n) && (a + n <=? zlen (dg_bytes g)).

#[local] Instance demo_mem_guest : MemGuest DemoGuest := {|
  read_slice g a n := if in_guest g a n then Some (ztake n (zdrop a (dg_bytes g))) else None;
  write_slice g a bs :=
    if in_guest g a (zlen bs) then Some (mkDemoGuest (splice (dg_bytes g) a bs) (dg_used g)) else None;
|}.

#[local] Instance demo_guest_mem : GuestMem DemoGuest := {|
  checked_offset g a n := if in_guest g a n then Some (a + n) else None;
  get_host_address g a := if in_guest g a 1 then Some (HOST_BASE + a) else None;
  host_byte g h := default 0 (dg_bytes g !! Z.to_nat (h - HOST_BASE));
|}.

#[local] Instance demo_blk_guest : BlkGuest DemoGuest := {|
  address_in_range g a := in_guest g a 1;
  queue_add_used g i len := Some (mkDemoGuest (dg_bytes g) (dg_used g ++ [(i, len)]));
|}.

(** A file, and an engine that accepts everything and completes it on the next call. *)
Record DemoFile := mkDemoFile { df_bytes : bytes; df_pos : Z }.

#[local] Instance demo_std_file : StdFile DemoFile := {|
  file_seek_start f p := (Ok p, mkDemoFile (df_bytes f) p);
  file_seek_end f := (Ok (zlen (df_bytes f)), mkDemoFile (df_bytes f) (zlen (df_bytes f)));
  file_read f n := (Ok (ztake n (zdrop (df_pos f) (df_bytes f))), mkDemoFile (df_bytes f) (df_pos f + n));
  file_write f bs := (Ok (zlen bs), mkDemoFile (splice (df_bytes f) (df_pos f) bs) (df_pos f + zlen bs));
  file_flush f := (Ok tt, f);
  file_metadata f := Ok (1, 0, 42);
|}.

Record DemoEngine := mkDemoEngine { de_inflight : list Z; de_buffers : list IoDataDesc }.

#[local] Instance demo_engine : IoEngine DemoEngine := {|
  readv e offset iovecs u := (Ok 1, mkDemoEngine (u :: de_inflight e) (de_buffers e ++ iovecs));
  writev e offset iovecs u := (Ok 1, mkDemoEngine (u :: de_inflight e) (de_buffers e ++ iovecs));
  engine_complete e := (Ok ((fun u => (u, 0)) <$> de_inflight e), mkDemoEngine [] (de_buffers e));
|}.

#[refine, local] Instance demo_file_laws : StdFileLaws DemoFile := {| file_content := df_bytes; file_position := df_pos |}.
Proof.
  - intros f p r f' [= <- <-]. split; [done|]. by intros n [= <-].
  - by intros f r f' [= <- <-].
Defined.

#[refine, local] Instance demo_engine_laws : IoEngineLaws DemoEngine := {| engine_inflight := de_inflight |}.
Proof.
  - by intros e offset iovecs u r e' [= <- <-].
  - by intros e offset iovecs u r e' [= <- <-].
  - intros e v e' [= <- <-]. cbn. rewrite app_nil_r, <- list_fmap_compose. by rewrite list_fmap_id.
Defined.

Notation Disk := (LocalFile DemoFile DemoEngine).

(** A transfer needs the whole buffer in guest memory and, from the file, gives
    what there is. *)
#[local] Instance demo_transfer : Transfer DemoGuest Disk := {|
  mem_write_to g a d n :=
    match read_slice g a n with
    | Some bs => with_file d (file_write (lf_file d) bs)
    | None => (Err 14, d)
    end;
  mem_read_from g a d n :=
    let f := lf_file d in
    let bs := ztake n (zdrop (df_pos f) (df_bytes f)) in
    match (if 0 <=? n then write_slice g a bs else None) with
    | Some g => (Ok (zlen bs), g, mkLocalFile (mkDemoFile (df_bytes f) (df_pos f + zlen bs)) (lf_no_drop d) (lf_capacity d) (lf_io_engine d))
    | None => (Err 14, g, d)
    end;
|}.

Lemma in_guest_spec g a n : in_guest g a n = true <-> 0 <= a /\ 0 <= n /\ a + n <= zlen (dg_bytes g).
Proof. unfold in_guest. rewrite !andb_true_iff, !Z.leb_le. tauto. Qed.

Lemma ztake_zlen_le (n : Z) (l : bytes) : 0 <= n -> zlen (ztake n l) <= n.
Proof. intros. unfold zlen, ztake. rewrite length_take. lia. Qed.

Lemma ztake_zlen_self (n : Z) (l : bytes) : ztake (zlen (ztake n l)) l = ztake n l.
Proof. unfold zlen, ztake. rewrite Nat2Z.id, length_take. destruct (Nat.le_ge_cases (Z.to_nat n) (length l)); [by rewrite Nat.min_l|]. by rewrite Nat.min_r, !take_ge. Qed.

#[local] Instance demo_transfer_laws : TransferLaws DemoGuest Disk.
Proof.
  split.
  - intros g a d n r d'. cbn [mem_write_to demo_transfer read_slice demo_mem_guest]. destruct (in_guest g a n) eqn:Eg.
    2: { intros [= <- <-]. split_and!; try done; by intros k [=]. }
    intros [= <- <-]. split_and!; try done. intros k [= <-]. apply in_guest_spec in Eg as Hg.
    assert (Hz : zlen (ztake n (zdrop a (dg_bytes g))) = n) by (apply zlen_ztake; rewrite zlen_zdrop; lia).
    exists (ztake n (zdrop a (dg_bytes g))). rewrite Hz. cbn. rewrite Eg. split_and!; try done; lia.
  - intros g a d n r g' d'. cbn [mem_read_from demo_transfer]. destruct (Z.leb_spec 0 n) as [Hn|]; cbn [write_slice demo_mem_guest].
    2: { intros [= <- <- <-]. split_and!; try done; by intros k [=]. }
    destruct (in_guest g a _) eqn:Eg; intros [= <- <- <-]; (split_and!; try done); intros k [= <-].
    cbn. rewrite ztake_zlen_self, Eg. split_and!; try done; [apply zlen_nonneg|by apply ztake_zlen_le].
Qed.

#[local] Instance demo_complete_transfer : CompleteTransfer DemoGuest Disk.
Proof.
  split.
  - intros g a d n k d'. cbn [mem_write_to demo_transfer read_slice demo_mem_guest]. destruct (in_guest g a n) eqn:Eg; [|done].
    intros [= <- <-] _ _. apply in_guest_spec in Eg. apply zlen_ztake. rewrite zlen_zdrop; lia.
  - intros g a d n k g' d'. cbn [mem_read_from demo_transfer]. destruct (Z.leb_spec 0 n) as [Hn|]; [|done].
    destruct (write_slice _ _ _); [|done]. intros [= <- _ _]. cbn. intros Hp Hl. apply zlen_ztake.
    unfold zlen, zdrop in *. rewrite length_drop. lia.
Qed.

Lemma write_slice_len (g : DemoGuest) a bs g' : write_slice g a bs = Some g' -> zlen (dg_bytes g') = zlen (dg_bytes g).
Proof.
  cbn. destruct (in_guest g a (zlen bs)) eqn:E; [|done]. intros [= <-]. apply in_guest_spec in E. apply zlen_splice; lia.
Qed.

#[local] Instance demo_guest_laws : BlkGuestLaws DemoGuest Disk.
Proof.
  split.
  - intros g a b Hr. cbn in *. change (zlen [b]) with 1. rewrite Hr. by eexists.
  - intros g a bs g' x Hw. apply write_slice_len in Hw. cbn. unfold in_guest. by rewrite Hw.
  - intros g a d n r g' d' x. cbn [mem_read_from demo_transfer]. destruct (0 <=? n); [|by intros [= _ <- _]].
    destruct (write_slice g a _) as [g1|] eqn:E; intros [= _ <- _]; [|done]. apply write_slice_len in E. cbn. unfold in_guest. by rewrite E.
Qed.

(** ** Requests *)

Definition demo_disk : Disk := mkLocalFile (mkDemoFile (replicate 1024 0) 0) false 1024 (mkDemoEngine [] []).

(** A write of four bytes to sector 1, from address 16 on, with its status at 40;
    and room to read them back in two pieces. *)
Definition demo_guest : DemoGuest :=
  mkDemoGuest (le_bytes 4 VIRTIO_BLK_T_OUT ++ le_bytes 4 0 ++ le_bytes 8 1 ++ [11; 12; 13; 14] ++ replicate 44 255) [].

Definition out_chain : list ChainDesc :=
  [mkChainDesc (mkDescriptor 0 16 false) true; mkChainDesc (mkDescriptor 16 4 false) true; mkChainDesc (mkDescriptor 40 1 true) false].

Definition out_req : BlkRequest := mkBlkRequest T_Out 1 40 0.
Definition out_descs : list IoDataDesc := [mkIoDataDesc 16 4].
Definition in_req : BlkRequest := mkBlkRequest T_In 1 40 0.
Definition in_descs : list IoDataDesc := [mkIoDataDesc 48 1; mkIoDataDesc 52 3].

Example demo_parse : blk_parse demo_guest 0 out_chain [] 0x100000 = (Ok out_req, out_descs).
Proof. vm_compute. reflexivity. Qed.

Lemma demo_typed l : forallb (fun io => (0 <=? data_len io) && (data_len io <=? u32_max)) l = true -> typed_descs l.
Proof. intros Hl. apply Forall_forall. intros io Hio. rewrite forallb_forall in Hl. apply list_elem_of_In, Hl in Hio. bools. split; lia. Qed.

Lemma out_typed : typed_descs out_descs.
Proof. apply demo_typed. reflexivity. Qed.

Lemma in_typed : typed_descs in_descs.
Proof. apply demo_typed. reflexivity. Qed.

Lemma demo_capacity : get_capacity demo_disk <= u64_max.
Proof. vm_compute. discriminate. Qed.

Lemma demo_fits : sector_offset out_req + total_len out_descs <= zlen (content demo_disk) <= u64_max.
Proof. vm_compute. split; discriminate. Qed.

(** The second sector of a disk of two, twice. *)
Lemma capacity_check_correct_witness :
  exists req data_descs, check_capacity req demo_disk data_descs = Ret (Ok tt) /\ br_sector req = 1 /\ 1024 < 512 * 1 + total_len data_descs.
Proof.
  destruct (capacity_check_correct out_req demo_disk out_descs demo_capacity out_typed) as (_ & _ & _ & Hx & _).
  destruct (Hx 2 eq_refl ltac:(lia)) as (req & dd & Hc & Hs & Ht). exists req, dd. rewrite Hs in Ht. exact (conj Hc (conj Hs Ht)).
Defined.

Lemma block_write_read_witness :
  exists g2, write_segments demo_guest in_descs [11; 12; 13; 14] = Some g2 /\ ztake 8 (zdrop 48 (dg_bytes g2)) = [11; 255; 255; 255; 12; 13; 14; 255].
Proof.
  destruct (block_write_read demo_guest demo_guest demo_disk out_req in_req out_descs in_descs [] eq_refl eq_refl eq_refl
    out_typed in_typed eq_refl demo_fits demo_capacity)
    as (r & g' & d1 & E & Hr).
  vm_compute in E. injection E as <- <- <-. destruct (Hr _ eq_refl) as (_ & _ & bss & Hb & Hc & r2 & g2 & d2 & E2 & Hr2).
  vm_compute in E2. injection E2 as <- <- <-. destruct (Hr2 _ eq_refl) as (_ & _ & Hw).
  inversion Hb as [|io bs l bss' [Hbs _] Hb']; subst. inversion Hb'; subst. vm_compute in Hbs. injection Hbs as <-. eexists. split; [exact Hw|reflexivity].
Defined.

(** ** A run *)

Definition unlimited : RateLimiter := mkRateLimiter None None Disarmed false.

Definition demo_handler : BlkHandler Disk := mkBlkHandler demo_disk [] unlimited ∅ (replicate 4 []) (replicate 4 []) [].

Definition demo_chain (i : Z) : AvailChain := mkAvailChain i out_chain (0, 0) (0, 0).

Lemma demo_chain_typed i : chain_typed (demo_chain i).
Proof. split; [repeat constructor; cbn; ulia|vm_compute; discriminate]. Qed.

Definition queue_event (l : list AvailChain) : BlkEvent := QueueAvailEvent (Ok tt) (Ok l) (Ok tt).

Definition state_after (o : outcome (bool * list (Z * Z) * list AvailChain * BlkHandler Disk * DemoGuest)) : BlkHandler Disk * DemoGuest :=
  match o with Ret (_, h, g) => (h, g) | Panic => (demo_handler, demo_guest) end.

(** The chain is taken, and its request is in flight. *)
Definition demo_submitted : BlkHandler Disk * DemoGuest :=
  Eval vm_compute in state_after (blk_handle_event demo_handler demo_guest (queue_event [demo_chain 2])).

(** It completes. *)
Definition demo_completed : BlkHandler Disk * DemoGuest :=
  Eval vm_compute in state_after (blk_handle_event demo_submitted.1 demo_submitted.2 (EndIoEvent (Ok tt))).

Lemma demo_run_submitted : blk_run (G := DemoGuest) 4 demo_submitted.1 [] [2] [].
Proof.
  assert (R0 : blk_run (G := DemoGuest) 4 demo_handler [] [] []) by (apply run_start; by split_and!).
  apply (run_post 4 _ _ _ _ 2) in R0; [|lia|apply not_elem_of_nil|vm_compute; apply not_elem_of_nil].
  apply (run_event 4 _ _ _ _ demo_guest (queue_event [demo_chain 2]) false [] [] demo_submitted.1 demo_submitted.2) in R0; [exact R0|..].
  - intros _. split; [done|]. constructor; [apply demo_chain_typed|constructor].
  - vm_compute. reflexivity.
Qed.

Lemma demo_run_completed : blk_run (G := DemoGuest) 4 demo_completed.1 [] [2] [2].
Proof.
  apply (run_event 4 _ _ _ _ demo_submitted.2 (EndIoEvent (Ok tt)) false [(2, 0)] [] demo_completed.1 demo_completed.2 demo_run_submitted); [done|].
  vm_compute. reflexivity.
Qed.

Lemma block_chains_conserved_witness :
  inflight (bh_disk_image demo_submitted.1) ≡ₚ [2] /\ [2] ≡ₚ [2] ++ keys (bh_pending_req_map demo_completed.1).
Proof.
  split.
  - exact (proj1 (proj2 (proj2 (block_chains_conserved 4 demo_submitted.1 [] [2] [] demo_run_submitted)))).
  - exact (proj1 (block_chains_conserved 4 demo_completed.1 [] [2] [2] demo_run_completed)).
Defined.

(** A driver that posts the same head twice: two requests are in flight, one is
    kept, and the completion of the other makes the handler panic. *)
Definition demo_reused : BlkHandler Disk * DemoGuest :=
  Eval vm_compute in state_after (blk_handle_event demo_handler demo_guest (queue_event [demo_chain 2; demo_chain 2])).

(** A limiter that was idle for so long that its refill overflows. *)
Definition idle_handler : BlkHandler Disk :=
  set_bh_limiter demo_handler (mkRateLimiter None (Some (mkTokenBucket 1000003 0 1000 0 0 0 1000003 1000000000)) Disarmed false).
Definition late_event : BlkEvent :=
  queue_event [mkAvailChain 2 (ac_descs (demo_chain 2)) (20000000000000, 20000000000000) (0, 0)].

Lemma idle_run : blk_run (G := DemoGuest) 4 idle_handler [2] [2] [].
Proof.
  assert (R0 : blk_run (G := DemoGuest) 4 idle_handler [] [] []) by (apply run_start; by split_and!).
  apply (run_post 4 _ _ _ _ 2) in R0; [exact R0|lia|apply not_elem_of_nil|vm_compute; apply not_elem_of_nil].
Qed.

(** A head used twice, a limiter that overflows, and the same chain with a limiter
    that does not. *)
Lemma block_handler_panics_witness :
  blk_handle_event demo_reused.1 demo_reused.2 (EndIoEvent (Ok tt)) = Panic /\
  blk_panic (G := DemoGuest) idle_handler demo_guest late_event /\
  ~ blk_panic (G := DemoGuest) idle_handler demo_guest (queue_event [demo_chain 2]).
Proof.
  split; [|split].
  - apply (proj2 (block_handler_panics 4 demo_submitted.1 [] [2] [] demo_reused.2 KillEvt demo_run_submitted) demo_reused.1 [(2, 0); (2, 0)]
      (mkLocalFile (lf_file demo_disk) false 1024 (mkDemoEngine [] (de_buffers (lf_io_engine (bh_disk_image demo_reused.1)))))); [reflexivity|].
    intros [Hd _]. apply NoDup_cons in Hd as [Hn _]. apply Hn. constructor.
  - apply (proj1 (block_handler_panics 4 idle_handler [2] [2] [] demo_guest late_event idle_run));
      [intros _; split; [done|]; constructor; [exact (demo_chain_typed 2)|constructor]|vm_compute; reflexivity].
  - intros Hp. apply (proj1 (block_handler_panics 4 idle_handler [2] [2] [] demo_guest (queue_event [demo_chain 2]) idle_run)) in Hp;
      [vm_compute in Hp; discriminate Hp|intros _; split; [done|]; constructor; [apply demo_chain_typed|constructor]].
Defined.

(** A segment that starts on the last byte of guest memory: the engine is handed a
    buffer of 512 bytes all the same, most of it behind the memory of the guest. *)
Definition long_chain : list ChainDesc :=
  [mkChainDesc (mkDescriptor 0 16 false) true; mkChainDesc (mkDescriptor 63 512 false) true; mkChainDesc (mkDescriptor 40 1 true) false].

Example aio_buffer_past_memory :
  zlen (dg_bytes demo_guest) = 64 /\
  de_buffers (lf_io_engine (bh_disk_image
    (state_after (blk_handle_event demo_handler demo_guest (queue_event [mkAvailChain 2 long_chain (0, 0) (0, 0)]))).1)) =
    [mkIoDataDesc (HOST_BASE + 63) 512].
Proof. vm_compute. done. Qed.

(** ** The device *)

Record DemoHost := mkDemoHost { dh_threads : list (BlkThread DemoQueue Disk); dh_next : Z }.

Definition next_id (w : DemoHost) : Z * DemoHost := (dh_next w, mkDemoHost (dh_threads w) (dh_next w + 1)).

#[local] Instance demo_host : BlkHost DemoHost DemoQueue Disk := {|
  kill_eventfd_new w := let '(i, w) := next_id w in (Ok i, w);
  kill_eventfd_clone w fd := let '(i, w) := next_id w in (Ok i, w);
  kill_eventfd_write w fd := (Ok tt, w);
  timer_new w := (Ok tt, w);
  channel_new := next_id;
  channel_send w ch evt := (Ok tt, w);
  thread_spawn w t := (Ok (dh_next w), mkDemoHost (dh_threads w ++ [t]) (dh_next w + 1));
  thread_join w t := (Ok tt, w);
  register_event_handler := next_id;
  remove_event_handler w i := (Ok tt, w);
|}.

#[refine, local] Instance demo_host_laws : BlkHostLaws DemoHost DemoQueue Disk := {| spawned := dh_threads |}.
Proof.
  - by intros w t r w' [= <- <-].
  - by intros w r w' [= <- <-].
  - by intros w fd r w' [= <- <-].
  - by intros w r w' [= <- <-].
  - by intros w c w' [= <- <-].
  - by intros w i w' [= <- <-].
Defined.

Definition demo_block : BlockDev Disk :=
  match Block_new [demo_disk] false [4] [] with Ok b => b | Err _ => mkBlockDev (VirtioDeviceInfo_new 0 [] []) [] [] [] None [] [] [] end.
Definition demo_queue_config : VirtioQueueConfig DemoQueue := mkVirtioQueueConfig (mkDemoQueue 4 4 true 0 0 0) 3 NoopNotifier 0.
Definition demo_config : VirtioDeviceConfig DemoQueue := mkVirtioDeviceConfig (mkDeviceResources []) [demo_queue_config] None NoopNotifier None.

Definition activated_block : BlockDev Disk * DemoHost :=
  match Block_activate (mkDemoHost [] 10) demo_block demo_config with Ret (_, b, w) => (b, w) | Panic => (demo_block, mkDemoHost [] 10) end.

Lemma demo_activates : Block_activate (mkDemoHost [] 10) demo_block demo_config = Ret (Ok tt, activated_block.1, activated_block.2).
Proof. vm_compute. reflexivity. Qed.

Lemma block_activation_witness :
  (exists t, dh_threads activated_block.2 = [t] /\ bt_queue t = demo_queue_config) /\
  exists e, device_activate (mkDemoHost [] 10) activated_block.1 demo_config = Ret (Err e, activated_block.1, mkDemoHost [] 10).
Proof.
  destruct (block_activation (mkDemoHost [] 10) demo_block demo_config (Ok tt) activated_block.1 activated_block.2 eq_refl
    demo_activates) as [(n & ts & _ & Hs & Hf & _ & _ & Hsp) Hno]. split.
  - clear Hno Hsp. destruct ts as [|t [|? ?]]; [inversion Hf| |by inversion Hf as [|? ? ? ? _ Hf']; inversion Hf'].
    exists t. split; [exact Hs|]. inversion Hf as [|? ? ? ? Ht _]. apply Ht.
  - exact (Hno Hsp (mkDemoHost [] 10) activated_block.1 (mkDemoHost [] 10) eq_refl (mkDemoHost [] 10) demo_config).
Defined.

(** ** Behind the transport *)

#[local] Instance machine_host : BlkHost World DemoQueue Disk := {|
  kill_eventfd_new w := (Ok 20, w);
  kill_eventfd_clone w fd := (Ok 21, w);
  kill_eventfd_write w fd := (Ok tt, w);
  timer_new w := (Ok tt, w);
  channel_new w := (22, w);
  channel_send w ch evt := (Ok tt, w);
  thread_spawn w t := (Ok 23, w);
  thread_join w t := (Ok tt, w);
  register_event_handler w := (24, w);
  remove_event_handler w i := (Ok tt, w);
|}.

#[local] Instance machine_host_quiet : BlkHostQuiet World DemoQueue Disk.
Proof. split; intros; apply quiet_refl. Qed.

Notation DemoBlk := (MmioDevice (Q := DemoQueue) (D := BlockDev Disk)).

Definition blk_new : DemoBlk * World := Eval vm_compute in created_of (MmioDevice_new demo_world demo_block (demo_resources true) None).
Definition blk_active : DemoBlk * World :=
  Eval vm_compute in returned blk_new (mmio_writes blk_new.2 blk_new.1 (setup_writes false ++ [write_status_to DEVICE_STATUS_DRIVER_OK])).
(** The driver resets the device and sets it up again. *)
Definition blk_again : DemoBlk * World :=
  Eval vm_compute in returned blk_new (mmio_writes blk_active.2 blk_active.1 (write_status_to 0 :: setup_writes false)).

Definition blk_failed : DemoBlk * World :=
  Eval vm_compute in returned blk_new (update_driver_status blk_again.2 blk_again.1 DEVICE_STATUS_DRIVER_OK).

Lemma blk_failed_update : update_driver_status blk_again.2 blk_again.1 DEVICE_STATUS_DRIVER_OK = Ret (blk_failed.1, blk_failed.2).
Proof. vm_compute. reflexivity. Qed.

Lemma block_fails_after_reset_witness :
  md_driver_status blk_active.1 = DEVICE_STATUS_DRIVER_OK /\ md_driver_status blk_again.1 = DEVICE_STATUS_FEATURE_OK /\
  md_driver_status blk_failed.1 = Z.lor DEVICE_STATUS_DRIVER_OK DEVICE_FAILED.
Proof.
  split; [reflexivity|]. split; [reflexivity|].
  refine (proj1 (block_fails_after_reset blk_again.2 blk_again.1 blk_failed.1 blk_failed.2 _ eq_refl eq_refl blk_failed_update)).
  vm_compute. discriminate.
Defined.
