(* ===== verification/VsockDevice.v ===== *)
(** The virtio-vsock device: the event loop that moves packets between the
    virtqueues and the muxer (dbs_virtio_devices/src/vsock/epoll_handler.rs), and
    the device that starts it (vsock/device.rs).

    What the rounds of a loop over a queue find is a list: a chain, with the time
    of the call to the muxer, or an error of the iterator; at its end the queue is
    empty.  A packet is a view of guest memory, and what the muxer puts into it is
    written there.  Log messages are left out. *)

From S2P Require Import Prelude Resources VsockStream TxBuf VsockPacket VsockConnection VsockQueues VsockPort VsockMuxer VirtioDevice.

(** Writing through a pointer into guest memory. *)
Class HostWrite (G : Type) := {
  host_write : G -> Z -> bytes -> G;
}.

Inductive QueueItem : Type :=
| IterError (e : Z)
| AvailChain (head : Z) (descs : list Descriptor) (now : Z).

Definition RXQ_EVENT : Z := 0.
Definition TXQ_EVENT : Z := 1.
Definition EVQ_EVENT : Z := 2.
Definition BACKEND_EVENT : Z := 3.

Section Handler.
Context {S W G : Type} `{MuxerEnv S W} `{GuestMem G} `{HostWrite G}.
Notation M := (VsockMuxer S W).

(** The packet [p] in place of the one [r] points to. *)
Definition store_packet (mem : G) (r : RawPacket) (p : VsockPacket) : G :=
  let mem := host_write mem (raw_hdr r) (hdr_bytes (hdr p)) in
  match raw_buf r, buf p with
  | Some (ptr, _), Some bs => host_write mem ptr bs
  | _, _ => mem
  end.

(** The loop of [process_rx]: the buffers returned, what is left, and whether the
    guest is to be interrupted; an error of the iterator leaves at once. *)
Fixpoint process_rx_loop (m : M) (mem : G) (items : list QueueItem) (raise_irq : bool) :
  outcome (list (Z * Z) * list QueueItem * bool * M * G) :=
  match items with
  | [] => Ret ([], [], raise_irq, m, mem)
  | IterError _ :: items' => Ret ([], items', false, m, mem)
  | AvailChain head descs now :: items' =>
      match from_rx_virtq_head mem descs with
      | Err _ =>
          let! (used, left_, irq, m, mem) := process_rx_loop m mem items' true in
          Ret ((head, 0) :: used, left_, irq, m, mem)
      | Ok raw =>
          let! (r, pkt, m) := mux_recv_pkt m (view mem raw) now in
          let mem := store_packet mem raw pkt in
          match r with
          | Err _ => Ret ([], items, raise_irq, m, mem)
          | Ok _ =>
              let! used_len := add_u u32_max VSOCK_PKT_HDR_SIZE (pkt_len pkt) in
              let! (used, left_, irq, m, mem) := process_rx_loop m mem items' true in
              Ret ((head, used_len) :: used, left_, irq, m, mem)
          end
      end
  end.
Definition process_rx (m : M) (mem : G) (items : list QueueItem) := process_rx_loop m mem items false.

(** The loop of [process_tx]. *)
Fixpoint process_tx_loop (m : M) (mem : G) (items : list QueueItem) (have_used : bool) :
  outcome (list (Z * Z) * list QueueItem * bool * M) :=
  match items with
  | [] => Ret ([], [], have_used, m)
  | IterError _ :: items' => Ret ([], items', false, m)
  | AvailChain head descs now :: items' =>
      match from_tx_virtq_head mem descs with
      | Err _ =>
          let! (used, left_, irq, m) := process_tx_loop m mem items' true in
          Ret ((head, 0) :: used, left_, irq, m)
      | Ok raw =>
          let! (r, m) := mux_send_pkt m (view mem raw) now in
          match r with
          | Err _ => Ret ([], items, have_used, m)
          | Ok _ =>
              let! (used, left_, irq, m) := process_tx_loop m mem items' true in
              Ret ((head, 0) :: used, left_, irq, m)
          end
      end
  end.
Definition process_tx (m : M) (mem : G) (items : list QueueItem) := process_tx_loop m mem items false.

(** What an event did: the buffers of each queue that were returned and those
    left, and the interrupts. *)
Record Served := mkServed {
  sv_rx_used : list (Z * Z);
  sv_rx_left : list QueueItem;
  sv_rx_irq : bool;
  sv_tx_used : list (Z * Z);
  sv_tx_left : list QueueItem;
  sv_tx_irq : bool;
}.

Definition idle (rx tx : list QueueItem) : Served := mkServed [] rx false [] tx false.

(** [if self.muxer.has_pending_rx() { self.process_rx(mem) }], with what was sent before. *)
Definition serve_rx (m : M) (mem : G) (rx : list QueueItem) (tx_used : list (Z * Z)) (tx_left : list QueueItem)
  (tx_irq : bool) : outcome (Served * M * G) :=
  if mux_has_pending_rx m then
    let! (used, left_, irq, m, mem) := process_rx m mem rx in
    Ret (mkServed used left_ irq tx_used tx_left tx_irq, m, mem)
  else Ret (mkServed [] rx false tx_used tx_left tx_irq, m, mem).

Definition handle_rxq_event (m : M) (mem : G) (consumed : result unit Z) (rx tx : list QueueItem) : outcome (Served * M * G) :=
  match consumed with
  | Err _ => Ret (idle rx tx, m, mem)
  | Ok _ => serve_rx m mem rx [] tx false
  end.

Definition tx_then_rx (m : M) (mem : G) (rx tx : list QueueItem) : outcome (Served * M * G) :=
  let! (used, left_, irq, m) := process_tx m mem tx in
  serve_rx m mem rx used left_ irq.

Definition handle_txq_event (m : M) (mem : G) (consumed : result unit Z) (rx tx : list QueueItem) : outcome (Served * M * G) :=
  match consumed with
  | Err _ => Ret (idle rx tx, m, mem)
  | Ok _ => tx_then_rx m mem rx tx
  end.

(** [events] is what [Events::from_bits] makes of the event set: none when a bit is unknown. *)
Definition notify_backend_event (m : M) (mem : G) (events : option Z) (now : Z) (rx tx : list QueueItem) :
  outcome (Served * M * G) :=
  let! _ := unwrap events in
  let! m := mux_notify m now in
  tx_then_rx m mem rx tx.

(** [process]: [consumed] is what [consume_event] returns and [now] the time. *)
Definition vsock_process (m : M) (mem : G) (event : Z) (events : option Z) (consumed : result unit Z) (now : Z) (rx tx : list QueueItem) :
  outcome (Served * M * G) :=
  if event =? RXQ_EVENT then handle_rxq_event m mem consumed rx tx
  else if event =? TXQ_EVENT then handle_txq_event m mem consumed rx tx
  else if event =? EVQ_EVENT then Ret (idle rx tx, m, mem)
  else if event =? BACKEND_EVENT then notify_backend_event m mem events now rx tx
  else Ret (idle rx tx, m, mem).
End Handler.

(** ** The device *)

Definition VIRTIO_ID_VSOCK : Z := 19.
Definition VSOCK_AVAIL_FEATURES : Z := Z.lor (Z.shiftl 1 32) (Z.shiftl 1 35).

Section Device.
Context {S W : Type} `{MuxerEnv S W}.
Notation M := (VsockMuxer S W).

Record Vsock := mkVsock {
  vs_cid : Z;
  vs_queue_sizes : list Z;
  vs_device_info : VirtioDeviceInfo;
  vs_subscriber_id : option Z;
  vs_muxer : option M;
}.

(** [new_with_muxer]: the configuration space is the CID. *)
Definition new_with_muxer (cid : Z) (queue_sizes : list Z) (muxer : M) : Vsock :=
  mkVsock cid queue_sizes (VirtioDeviceInfo_new VSOCK_AVAIL_FEATURES queue_sizes (le_bytes 8 cid)) None (Some muxer).

Definition Vsock_new (w : W) (cid : Z) (queue_sizes : list Z) : result Vsock MuxerError * W :=
  match VsockMuxer_new w cid with
  | (Ok muxer, w) => (Ok (new_with_muxer cid queue_sizes muxer), w)
  | (Err e, w) => (Err e, w)
  end.

(** Without a muxer, that is once activated, backends are refused. *)
Definition Vsock_add_backend (d : Vsock) (backend : VsockBackendType) (is_default : bool) :
  result unit MuxerError * Vsock :=
  let '(mkVsock cid sizes info sub muxer) := d in
  match muxer with
  | Some m => let '(r, m) := add_backend m backend is_default in (r, mkVsock cid sizes info sub (Some m))
  | None => (Err BackendAddAfterActivated, d)
  end.

(** [activate]: the muxer moves into the handler, which is what is registered as
    subscriber [id]; [take().unwrap()] panics without one. *)
Definition Vsock_activate {Q} (d : Vsock) (config : VirtioDeviceConfig Q) (id : Z) :
  outcome (result M ActivateError * Vsock) :=
  let '(mkVsock cid sizes info sub muxer) := d in
  match check_queue_sizes info (dc_queues config) with
  | Err e => Ret (Err e, d)
  | Ok _ =>
      let! m := unwrap muxer in
      Ret (Ok m, mkVsock cid sizes info (Some id) None)
  end.

(** [remove]: a device that was never activated drops its muxer. *)
Definition Vsock_remove (d : Vsock) : Vsock :=
  let '(mkVsock cid sizes info sub muxer) := d in
  match sub with
  | Some _ => mkVsock cid sizes info None muxer
  | None => mkVsock cid sizes info None None
  end.

Definition vsock_resource_requirements (d : Vsock) (use_generic_irq : bool) : list ResourceConstraint :=
  [RC_LegacyIrq None] ++
  (if use_generic_irq then [RC_GenericIrq (as_u32 (Z.of_nat (length (vs_queue_sizes d)) + 1))] else []).
End Device.
Arguments Vsock S W : clear implicits.
