(* ===== verification/VsockDeviceSpec.v ===== *)
(** What the event loop of the virtio-vsock device guarantees: every event is
    served without a panic, buffers are returned in the order the guest offered
    them, and an event leaves nothing undone that could have been done. *)

From S2P Require Import Prelude Resources VsockStream TxBuf VsockPacket VsockConnection VsockConnectionSpec VsockConnectionProps VsockQueues VsockPort VsockMuxer VsockMuxerSpec VsockMuxerOps VsockMuxerRecv VsockMuxerProps VirtioDevice VsockDevice.

(** ** Received packets fit their buffers *)

Definition buf_len (p : VsockPacket) : Z := from_option zlen 0 (buf p).

(** [p'], made of [p], has a buffer of the same size and fits it. *)
Definition refilled (p p' : VsockPacket) : Prop := buf_len p' = buf_len p /\ 0 <= pkt_len p' <= buf_len p.

Lemma buf_len_nonneg p : 0 <= buf_len p.
Proof. unfold buf_len. destruct (buf p); simpl; [apply zlen_nonneg|done]. Qed.

Lemma refilled_empty p p' : buf p' = buf p -> pkt_len p' = 0 -> refilled p p'.
Proof. intros Hb Hl. unfold refilled, buf_len. rewrite Hb, Hl. pose proof (buf_len_nonneg p). unfold buf_len in *. lia. Qed.

Section Fits.
Context {S : Type} `{StreamLaws S}.
Implicit Types c : VsockConnection S.

(** The header [init_pkt] leaves, with another operation, announces no data. *)
Lemma fits_op c pkt p v : buf p = buf pkt -> pkt_len p = 0 -> refilled pkt (set_op p v).
Proof. intros. apply refilled_empty; by destruct p as [[] ?]. Qed.

Lemma fits_credit c pkt p : buf p = buf pkt -> pkt_len p = 0 -> refilled pkt (recv_credit_update c p).2.
Proof.
  intros Hb Hl. unfold recv_credit_update. destruct (prx_remove _ _) as [had q]. destruct (had && _); simpl.
  - by apply (fits_op c).
  - by apply refilled_empty.
Qed.

Lemma fits_read c pkt p now : buf p = buf pkt -> pkt_len p = 0 -> refilled pkt (recv_read c p now).2.
Proof.
  intros Hb Hl. unfold recv_read. destruct (need_credit_update_from_peer c); [by apply (fits_op c)|].
  destruct (buf p) as [b|] eqn:Eb; [|by apply refilled_empty; simpl; congruence].
  pose proof (zlen_nonneg b). assert (Hcr : 0 <= peer_avail_credit c < 2 ^ 32) by (apply Z.mod_pos_bound; done).
  destruct (stream_read (c_stream c) _) as [[bs|[]] s] eqn:Er.
  - apply read_ok in Er as (Hn & _); [|lia]. pose proof (zlen_nonneg bs).
    assert (Hsz : zlen (bs ++ zdrop (zlen bs) b) = zlen b) by (rewrite zlen_app, zlen_zdrop; lia).
    assert (Hk : buf_len pkt = zlen b) by (unfold buf_len; by rewrite <- Hb).
    destruct (Z.eqb_spec (zlen bs) 0) as [E0|E0]; simpl; unfold refilled; rewrite Hk.
    + destruct p as [[] ?]; unfold buf_len, pkt_len in *; simpl in *; lia.
    + replace (pkt_len _) with (as_u32 (zlen bs)) by (by destruct p as [[] ?]).
      replace (buf_len _) with (zlen (bs ++ zdrop (zlen bs) b)) by (by destruct p as [[] ?]).
      split; [done|]. pose proof (Z.mod_le (zlen bs) (2 ^ 32)). pose proof (Z.mod_pos_bound (zlen bs) (2 ^ 32)). unfold as_u32. lia.
  - by apply fits_credit; rewrite ?Eb.
  - apply (fits_op c); by rewrite ?Eb.
Qed.

Lemma recv_pkt_fits c pkt now : refilled pkt (recv_pkt c pkt now).2.
Proof.
  unfold recv_pkt. cbv zeta. assert (Hi : buf (init_pkt c pkt) = buf pkt /\ pkt_len (init_pkt c pkt) = 0) by done.
  destruct Hi as [Hb Hl]. generalize dependent (init_pkt c pkt). intros p Hb Hl.
  do 3 (destruct (prx_remove _ _) as [[] ?]; [by apply (fits_op c)|]).
  destruct (prx_remove _ _) as [[] ?]; [|by apply fits_credit].
  unfold recv_rw. destruct (c_state _) as [| | | |[] ?|]; first [by apply (fits_op c)|by apply fits_read].
Qed.
End Fits.

(** ** The muxer's packets *)

Section Mux.
Context {S W : Type} `{Hstream : VsockStream S} `{!PortStream S} `{!MuxerEnv S W} `{!StreamLaws S}.
Notation M := (VsockMuxer S W).
Implicit Types m : M.

Lemma apply_conn_result {X} m key now (f : VsockConnection S -> outcome (X * VsockConnection S)) x m' :
  apply_conn_mutation m key now f = Ret (Some x, m') -> exists c c', f c = Ret (x, c').
Proof.
  unfold apply_conn_mutation. destruct (m_conn_map m !! key) as [c|]; [|done]. intros Hx. bind_inv Hx.
  destruct a as [y c']. bind_inv Hx. injection Hx as <- _. by exists c, c'.
Qed.

Lemma recv_from_conn_fits m pkt key now r p m' :
  recv_from_conn m pkt key now = Ret (r, p, m') -> refilled pkt p \/ (p = pkt /\ r = Err NoData).
Proof.
  unfold recv_from_conn. intros Hx. bind_inv Hx. destruct a as [[[[r1 b1] p1]|] m1].
  - apply apply_conn_result in Ha as (c & c' & Ha). pose proof (recv_pkt_fits c pkt now) as Hf.
    destruct (recv_pkt c pkt now) as [[r2 c2] p2]. injection Ha as <- _ <- _. cbn [default] in Hx. bind_inv Hx. injection Hx as _ <- _. by left.
  - cbn [default] in Hx. bind_inv Hx. injection Hx as <- <- _. by right.
Qed.

Lemma refilled_trans p1 p2 p3 : refilled p1 p2 -> refilled p2 p3 -> refilled p1 p3.
Proof. unfold refilled. intros [-> _] [-> ?]. done. Qed.

Lemma recv_loop_fits fuel m pkt now p m' : recv_loop fuel m pkt now = Ret (Ok tt, p, m') -> refilled pkt p.
Proof.
  revert m pkt. induction fuel as [|fuel IH]; intros m pkt; [done|]. cbn [recv_loop].
  destruct (RxQ_peek (m_rxq m)) as [[key|l q]|]; [..|done].
  - intros Hx. bind_inv Hx. destruct a as [[[[]|e] p1] m1]; apply recv_from_conn_fits in Ha.
    + injection Hx as <- _. by destruct Ha as [|[_ ?]].
    + apply IH in Hx. destruct Ha as [Ha|[-> _]]; [by eapply refilled_trans|done].
  - destruct (RxQ_pop (m_rxq m)) as [[x|] rq]; [|done]. intros [= <- _]. apply refilled_empty; by destruct pkt as [[] ?].
Qed.

Lemma mux_recv_fits m pkt now p m' : mux_recv_pkt m pkt now = Ret (Ok tt, p, m') -> refilled pkt p.
Proof. apply recv_loop_fits. Qed.
End Mux.

(** ** The queues *)

Definition chain_size (descs : list Descriptor) : Z := foldr (fun d n => d_len d + n) 0 descs.

(** The buffer [u] returns the chain [it], having written at most its size. *)
Definition rx_returned (it : QueueItem) (u : Z * Z) : Prop :=
  match it with AvailChain head descs _ => u.1 = head /\ 0 <= u.2 <= chain_size descs | IterError _ => False end.
Definition tx_returned (it : QueueItem) (u : Z * Z) : Prop :=
  match it with AvailChain head _ _ => u = (head, 0) | IterError _ => False end.

(** A queue of [items] whose first chains were returned in order as [used]: the
    guest is interrupted exactly if there is one ([irq], unless [before] says so
    already), or the iterator failed. *)
Definition queue_served (returned : QueueItem -> Z * Z -> Prop) (before : bool) (items : list QueueItem)
  (used : list (Z * Z)) (left_ : list QueueItem) (irq : bool) : Prop :=
  exists pre, Forall2 returned pre used /\
    ((items = pre ++ left_ /\ irq = before || negb (bool_decide (used = []))) \/
     (exists e, items = pre ++ IterError e :: left_ /\ irq = false)).

Lemma served_none returned before items : queue_served returned before items [] items before.
Proof. exists []. split; [constructor|]. left. by rewrite orb_false_r. Qed.

Lemma served_error returned before e items : queue_served returned before (IterError e :: items) [] items false.
Proof. exists []. split; [constructor|]. right. by exists e. Qed.

Lemma served_one (returned : QueueItem -> Z * Z -> Prop) before it u items used left_ irq :
  returned it u -> queue_served returned true items used left_ irq ->
  queue_served returned before (it :: items) (u :: used) left_ irq.
Proof.
  intros Hu (pre & Hp & Hcase). exists (it :: pre). split; [by constructor|].
  destruct Hcase as [[-> ->]|(e & -> & ->)]; [left|right; by exists e].
  by rewrite (bool_decide_eq_false_2 (u :: used = [])), orb_true_r.
Qed.

Definition item_ok (limit : Z) (it : QueueItem) : Prop :=
  match it with AvailChain _ descs _ => Forall (fun d => 0 <= d_len d <= limit) descs | IterError _ => True end.

Definition clean (items : list QueueItem) : Prop := forall e, IterError e ∉ items.

Lemma chain_size_nonneg limit descs : Forall (fun d => 0 <= d_len d <= limit) descs -> 0 <= chain_size descs.
Proof. unfold chain_size. induction 1; simpl; lia. Qed.

Section Queues.
Context {S W : Type} `{Hstream : VsockStream S} `{!PortStream S} `{!MuxerEnv S W} `{!StreamLaws S}.
Context {G : Type} `{!GuestMem G} `{!HostWrite G}.
Notation M := (VsockMuxer S W).
Implicit Types (m : M) (mem : G).

(** Nothing is left to deliver. *)
Definition delivered m : Prop :=
  mux_has_pending_rx m = false /\ forall k c, m_conn_map m !! k = Some c -> has_pending_rx c = false.

(** The muxer has nothing queued; either nothing is left to deliver, or its queue was too short for all that is pending and
    is marked for being rebuilt. *)
Definition emptied m : Prop := rxq_q (m_rxq m) = [] /\ (delivered m \/ rxq_synced (m_rxq m) = false).

Lemma delivered_intro m : mux_inv m -> mux_has_pending_rx m = false -> delivered m.
Proof.
  intros Hi Hp. split; [done|]. intros k c Hl. unfold mux_has_pending_rx in Hp. apply orb_false_iff in Hp as [H1 H2].
  apply negb_false_iff in H1, H2. apply rxq_empty in H1. destruct (has_pending_rx c) eqn:Hc; [|done].
  pose proof (mi_covers _ Hi H2 k c Hl Hc) as Hin. rewrite H1 in Hin. by apply elem_of_nil in Hin.
Qed.

Lemma emptied_queue m : mux_inv m -> rxq_q (m_rxq m) = [] -> emptied m.
Proof.
  intros Hi Hq. split; [done|]. destruct (rxq_synced (m_rxq m)) eqn:Hs; [left|by right].
  apply delivered_intro; [done|]. unfold mux_has_pending_rx. by rewrite (proj2 (rxq_empty _) Hq), Hs.
Qed.

Lemma emptied_pending m : mux_inv m -> mux_has_pending_rx m = false -> emptied m.
Proof.
  intros Hi Hp. apply emptied_queue; [done|]. unfold mux_has_pending_rx in Hp. apply orb_false_iff in Hp as [H1 _].
  apply negb_false_iff in H1. by apply rxq_empty.
Qed.

(** A call of [recv_pkt] never adds to what is owed. *)
Lemma recv_owed m pkt now :
  iter_law -> mux_inv m ->
  exists res p' m', mux_recv_pkt m pkt now = Ret (res, p', m') /\ recv_done m m' res p' /\ (potential m' <= potential m)%nat /\
    (mux_has_pending_rx m = true -> (potential m' < potential m)%nat).
Proof.
  intros Hit Hi. destruct (recv_potential m pkt now Hit Hi) as (res & p' & m' & E & Hd & Hlt). exists res, p', m'. split_and!; [done..| |done].
  destruct (mux_has_pending_rx m) eqn:Hp; [specialize (Hlt eq_refl); lia|]. apply orb_false_iff in Hp as [H1 H2]. apply negb_false_iff in H1, H2.
  unfold mux_recv_pkt in E. rewrite H1, H2 in E. cbn [andb negb] in E. apply rxq_empty in H1.
  rewrite H1 in E. cbn in E. unfold RxQ_peek in E. rewrite H1 in E. cbn in E. by injection E as _ _ <-.
Qed.

(** An accepted receive chain has room for the header and for its buffer. *)
Lemma from_rx_room mem descs raw limit :
  Forall (fun d => 0 <= d_len d <= limit) descs -> from_rx_virtq_head mem descs = Ok raw ->
  VSOCK_PKT_HDR_SIZE + buf_len (view mem raw) <= chain_size descs /\ buf_len (view mem raw) <= limit.
Proof.
  intros Hd. destruct descs as [|d rest]; [done|]. cbn [from_rx_virtq_head]. destruct (negb (d_write_only d)); [done|].
  destruct (HdrWrapper_from_virtq_desc d mem) as [h|] eqn:Hh; [|done]. apply hdr_from_ok in Hh as (Hl & _).
  destruct rest as [|bd tl]; [done|]. destruct (negb (d_write_only bd)); [done|].
  destruct (BufWrapper_from_virtq_desc bd mem) as [[ptr k]|] eqn:Hb; [|done]. apply buf_from_ok in Hb as (Hk & _).
  simpl in Hk. subst k. intros [= <-]. inversion_clear Hd as [|? ? ? Hd1]. inversion_clear Hd1 as [|? ? ? Hd2].
  apply chain_size_nonneg in Hd2. unfold buf_len, view. simpl. rewrite host_bytes_len by lia. unfold chain_size in *. lia.
Qed.

Definition RX_LIMIT : Z := u32_max - VSOCK_PKT_HDR_SIZE.

(** The first buffer the driver offers is fit for a packet. *)
Definition usable mem (items : list QueueItem) : Prop :=
  match items with AvailChain _ descs _ :: _ => exists raw, from_rx_virtq_head mem descs = Ok raw | _ => False end.

Lemma rx_loop_ok m mem items before :
  iter_law -> mux_inv m -> Forall (item_ok RX_LIMIT) items ->
  exists used left_ irq m' mem', process_rx_loop m mem items before = Ret (used, left_, irq, m', mem') /\
    mux_inv m' /\ m_local_port_set m' ⊆ m_local_port_set m /\
    queue_served rx_returned before items used left_ irq /\ (clean items -> left_ = [] \/ emptied m') /\
    (potential m' <= potential m)%nat /\ (usable mem items -> mux_has_pending_rx m = true -> (potential m' < potential m)%nat).
Proof.
  intros Hit. revert m mem before. induction items as [|it items IH]; intros m mem before Hi Hok.
  { do 5 eexists. split; [done|]. split_and!; [done..|apply served_none|by left|done|done]. }
  inversion_clear Hok as [|? ? Hok1 Hok2]. destruct it as [e|head descs now].
  { do 5 eexists. split; [done|]. split_and!; [done..|apply served_error| |done|done]. intros Hc. destruct (Hc e). left. }
  assert (Hcl : clean (AvailChain head descs now :: items) -> clean items).
  { intros Hc e He. apply (Hc e). by right. }
  cbn [process_rx_loop]. simpl in Hok1. destruct (from_rx_virtq_head mem descs) as [raw|e] eqn:Hf.
  - destruct (from_rx_room _ _ _ _ Hok1 Hf) as [Hroom Hlim].
    destruct (recv_owed m (view mem raw) now Hit Hi) as (r & p & m1 & E & (Hi1 & Hca & Hr) & Hle & Hlt).
    rewrite E. cbn [obind]. pose proof (ca_ports _ _ Hca) as Hports.
    destruct Hr as [(-> & _ & _)|(-> & Hq)].
    + apply mux_recv_fits in E as [_ Hfit]. rewrite add_u_ret by (unfold RX_LIMIT in *; lia). cbn [obind].
      destruct (IH m1 (store_packet mem raw p) true Hi1 Hok2) as (used & left_ & irq & m' & mem' & -> & Hi' & Hp' & Hs & Hd & Hle' & _).
      do 5 eexists. split; [done|]. split_and!; [done|set_solver| |auto|lia|intros _ Hpend; specialize (Hlt Hpend); lia].
      apply served_one; [|done]. split; [done|]. simpl. unfold VSOCK_PKT_HDR_SIZE in *. lia.
    + do 5 eexists. split; [done|]. split_and!; [done|done|apply served_none| |done|done]. intros _. right. by apply emptied_queue.
  - destruct (IH m mem true Hi Hok2) as (used & left_ & irq & m' & mem' & -> & Hi' & Hp' & Hs & Hd & Hle' & _).
    do 5 eexists. split; [done|]. split_and!; [done|done| |auto|done|intros (raw & E) _; by rewrite Hf in E].
    apply served_one; [|done]. split; [done|]. apply chain_size_nonneg in Hok1. simpl. lia.
Qed.

Lemma tx_loop_ok m mem items before :
  mux_inv m -> (forall a, in_u8 (host_byte mem a)) -> Forall (item_ok u32_max) items ->
  exists used left_ irq m', process_tx_loop m mem items before = Ret (used, left_, irq, m') /\
    mux_inv m' /\ m_local_port_set m' ⊆ m_local_port_set m /\
    queue_served tx_returned before items used left_ irq /\ (clean items -> left_ = []).
Proof.
  intros Hi Hb. revert m before Hi. induction items as [|it items IH]; intros m before Hi Hok.
  { do 4 eexists. split; [done|]. split_and!; [done..|apply served_none|done]. }
  inversion_clear Hok as [|? ? Hok1 Hok2]. destruct it as [e|head descs now].
  { do 4 eexists. split; [done|]. split_and!; [done..|apply served_error|]. intros Hc. destruct (Hc e). left. }
  assert (Hcl : clean (AvailChain head descs now :: items) -> clean items).
  { intros Hc e He. apply (Hc e). by right. }
  cbn [process_tx_loop]. simpl in Hok1. destruct (from_tx_virtq_head mem descs) as [raw|e] eqn:Hf.
  - apply from_tx_valid in Hf; [|done|]. 2:{ eapply Forall_impl; [exact Hok1|]. simpl. lia. }
    destruct (mux_send_ok m (view mem raw) now Hi Hf) as (m1 & -> & Hi1 & _ & Hports & _). cbn [obind].
    destruct (IH m1 true Hi1 Hok2) as (used & left_ & irq & m' & -> & Hi' & Hp' & Hs & Hd).
    do 4 eexists. split; [done|]. split_and!; [done|set_solver|by apply served_one|auto].
  - destruct (IH m true Hi Hok2) as (used & left_ & irq & m' & -> & Hi' & Hp' & Hs & Hd).
    do 4 eexists. split; [done|]. split_and!; [done|done|by apply served_one|auto].
Qed.

(** ** Events *)

(** The events that serve the transmit queue, and the receive queue. *)
Definition serves_tx (event : Z) (consumed : result unit Z) : bool :=
  (event =? BACKEND_EVENT) || (event =? TXQ_EVENT) && (match consumed with Ok _ => true | Err _ => false end).
Definition serves_rx (event : Z) (consumed : result unit Z) : bool :=
  serves_tx event consumed || (event =? RXQ_EVENT) && (match consumed with Ok _ => true | Err _ => false end).

(** What an event leaves behind. *)
Definition event_done (event : Z) (consumed : result unit Z) (rx tx : list QueueItem) (sv : Served) m' : Prop :=
  mux_inv m' /\
  queue_served rx_returned false rx (sv_rx_used sv) (sv_rx_left sv) (sv_rx_irq sv) /\
  queue_served tx_returned false tx (sv_tx_used sv) (sv_tx_left sv) (sv_tx_irq sv) /\
  (serves_tx event consumed = true -> clean tx -> sv_tx_left sv = []) /\
  (serves_rx event consumed = true -> clean rx -> sv_rx_left sv = [] \/ emptied m').

Lemma serve_rx_ok m mem rx used left_ irq :
  iter_law -> mux_inv m -> Forall (item_ok RX_LIMIT) rx ->
  exists sv m' mem', serve_rx m mem rx used left_ irq = Ret (sv, m', mem') /\ mux_inv m' /\
    m_local_port_set m' ⊆ m_local_port_set m /\
    sv_tx_used sv = used /\ sv_tx_left sv = left_ /\ sv_tx_irq sv = irq /\
    queue_served rx_returned false rx (sv_rx_used sv) (sv_rx_left sv) (sv_rx_irq sv) /\
    (clean rx -> sv_rx_left sv = [] \/ emptied m') /\ (usable mem rx -> mux_has_pending_rx m = true -> (potential m' < potential m)%nat).
Proof.
  intros Hit Hi Hok. unfold serve_rx. destruct (mux_has_pending_rx m) eqn:Hp.
  - destruct (rx_loop_ok m mem rx false Hit Hi Hok) as (u & l & i & m' & mem' & E & Hi' & Hsub & Hs & Hd & _ & Hlt).
    unfold process_rx. rewrite E. do 3 eexists. split; [done|]. split_and!; auto.
  - do 3 eexists. split; [done|]. split_and!; try done; [apply served_none|]. intros _. right. by apply emptied_pending.
Qed.

Lemma tx_then_rx_ok m mem rx tx :
  iter_law -> mux_inv m -> (forall a, in_u8 (host_byte mem a)) -> Forall (item_ok RX_LIMIT) rx -> Forall (item_ok u32_max) tx ->
  exists sv m' mem', tx_then_rx m mem rx tx = Ret (sv, m', mem') /\ m_local_port_set m' ⊆ m_local_port_set m /\
    forall event consumed, event_done event consumed rx tx sv m'.
Proof.
  intros Hit Hi Hb Hrx Htx. unfold tx_then_rx, process_tx.
  destruct (tx_loop_ok m mem tx false Hi Hb Htx) as (u & l & i & m1 & -> & Hi1 & Hsub1 & Hs1 & Hd1). cbn [obind].
  destruct (serve_rx_ok m1 mem rx u l i Hit Hi1 Hrx) as (sv & m' & mem' & E & Hi' & Hsub & <- & <- & <- & Hs & Hd & _).
  exists sv, m', mem'. split; [done|]. split; [set_solver|]. intros event consumed. split_and!; auto.
Qed.

Lemma idle_done m event consumed rx tx :
  mux_inv m -> serves_rx event consumed = false -> event_done event consumed rx tx (idle rx tx) m.
Proof.
  intros Hi Hr. split; [done|]. split; [apply served_none|]. split; [apply served_none|]. rewrite Hr. split; [|done].
  unfold serves_rx in Hr. apply orb_false_iff in Hr as [-> _]. done.
Qed.

(** The events epoll reports to the muxer, each of which may take a local port. *)
Definition polled m (event : Z) : nat :=
  if event =? BACKEND_EVENT then
    match epoll_wait (m_world m) with (Ok evs, _) => length evs | (Err _, _) => 0%nat end
  else 0%nat.

Lemma event_served n m mem event events consumed now rx tx :
  iter_law -> mux_inv m -> (size (m_local_port_set m) <= n)%nat -> Z.of_nat (n + polled m event) <= 2 ^ 30 ->
  is_Some events -> (forall a, in_u8 (host_byte mem a)) ->
  Forall (item_ok RX_LIMIT) rx -> Forall (item_ok u32_max) tx ->
  exists sv m' mem', vsock_process m mem event events consumed now rx tx = Ret (sv, m', mem') /\
    (size (m_local_port_set m') <= n + polled m event)%nat /\ event_done event consumed rx tx sv m'.
Proof.
  intros Hit Hi Hn Hw [ev ->] Hb Hrx Htx. unfold vsock_process, handle_rxq_event, handle_txq_event, notify_backend_event.
  destruct (Z.eqb_spec event RXQ_EVENT) as [->|N1].
  { destruct consumed as [[]|e].
    - destruct (serve_rx_ok m mem rx [] tx false Hit Hi Hrx) as (sv & m' & mem' & E & Hi' & Hsub%subseteq_size & E1 & E2 & E3 & Hs & Hd & _).
      exists sv, m', mem'. split; [done|]. split; [lia|]. split; [done|]. rewrite E1, E2, E3. split; [done|]. split; [apply served_none|]. by split.
    - do 3 eexists. split; [done|]. split; [lia|]. by apply idle_done. }
  destruct (Z.eqb_spec event TXQ_EVENT) as [->|N2].
  { destruct consumed as [[]|e].
    - destruct (tx_then_rx_ok m mem rx tx Hit Hi Hb Hrx Htx) as (sv & m' & mem' & E & Hsub%subseteq_size & Hd).
      exists sv, m', mem'. split; [done|]. split; [lia|done].
    - do 3 eexists. split; [done|]. split; [lia|]. by apply idle_done. }
  assert (Hno : event <> BACKEND_EVENT -> serves_rx event consumed = false).
  { intros N3. unfold serves_rx, serves_tx. by rewrite !(proj2 (Z.eqb_neq _ _)). }
  destruct (Z.eqb_spec event EVQ_EVENT) as [->|N3].
  { do 3 eexists. split; [done|]. split; [lia|]. by apply idle_done, Hno. }
  unfold polled in *. destruct (Z.eqb_spec event BACKEND_EVENT) as [->|N4].
  - cbn [unwrap obind]. destruct (mux_notify_ok n m now Hi Hn) as (m1 & -> & Hi1 & Hp).
    { intros evs w E. by rewrite E in Hw. }
    cbn [obind]. destruct (tx_then_rx_ok m1 mem rx tx Hit Hi1 Hb Hrx Htx) as (sv & m' & mem' & E & Hsub%subseteq_size & Hd).
    exists sv, m', mem'. split; [done|]. split; [|done]. destruct (epoll_wait (m_world m)) as [[evs|e] w]; lia.
  - do 3 eexists. split; [done|]. split; [lia|]. by apply idle_done, Hno.
Qed.

(** ** Runs *)

Definition add_backends (d : Vsock S W) (bs : list (VsockBackendType * bool)) : Vsock S W :=
  foldl (fun d b => (Vsock_add_backend d b.1 b.2).2) d bs.

(** The muxer of a running device, after at most [n] events of epoll: a new device
    is given its backends and activated, and its handler serves events. *)
Inductive vsock_run {Q : Type} : nat -> M -> Prop :=
| run_activated w cid sizes d w' bs (config : VirtioDeviceConfig Q) id m d' :
    Vsock_new w cid sizes = (Ok d, w') -> Vsock_activate (add_backends d bs) config id = Ret (Ok m, d') ->
    vsock_run 0 m
| run_event n m mem event events consumed now rx tx sv m' mem' :
    vsock_run n m -> is_Some events -> (forall a, in_u8 (host_byte mem a)) ->
    Forall (item_ok RX_LIMIT) rx -> Forall (item_ok u32_max) tx ->
    vsock_process m mem event events consumed now rx tx = Ret (sv, m', mem') ->
    vsock_run (n + polled m event) m'.

Lemma activated_muxer {Q} w cid sizes d w' bs (config : VirtioDeviceConfig Q) id m d' :
  Vsock_new w cid sizes = (Ok d, w') -> Vsock_activate (add_backends d bs) config id = Ret (Ok m, d') ->
  mux_inv m /\ m_local_port_set m = ∅ /\ vs_muxer d' = None.
Proof.
  unfold Vsock_new. destruct (VsockMuxer_new w cid) as [[m0|e] w0] eqn:Em; [|done]. intros [= <- _].
  apply inv_new in Em as [Hi Hp]. set (d0 := new_with_muxer cid sizes m0).
  assert (Hd : forall m1, vs_muxer d0 = Some m1 -> mux_inv m1 /\ m_local_port_set m1 = ∅) by (by intros m1 [= <-]).
  clearbody d0. clear Hi Hp. revert d0 Hd. induction bs as [|[t b] bs IH]; intros d0 Hd Ha.
  - simpl in Ha. unfold Vsock_activate in Ha. destruct d0 as [c0 q0 i0 s0 mx]. destruct (check_queue_sizes _ _) as [[]|e]; [|done].
    bind_inv Ha. injection Ha as <- <-. destruct mx as [m1|]; [|done]. injection Ha0 as ->. destruct (Hd _ eq_refl). done.
  - apply IH in Ha; [done|]. destruct d0 as [c0 q0 i0 s0 [m1|]]; simpl; [|done].
    destruct (Hd m1 eq_refl) as [Hi Hp]. destruct (add_backend m1 t b) as [r m2] eqn:E. intros m3 [= <-].
    pose proof (same_add_backend m1 t b) as Hc. rewrite E in Hc. simpl in Hc. split; [by eapply inv_same|].
    destruct Hc as (_ & _ & _ & _ & _ & ->). done.
Qed.

Lemma vsock_run_inv {Q} n m :
  iter_law -> vsock_run (Q := Q) n m -> Z.of_nat n <= 2 ^ 30 -> mux_inv m /\ (size (m_local_port_set m) <= n)%nat.
Proof.
  intros Hit Hr. induction Hr as [w cid sizes d w' bs config id m d' En Ea|n m mem event events consumed now rx tx sv m' mem' Hr IH He Hb Hrx Htx E]; intros Hn.
  - destruct (activated_muxer _ _ _ _ _ _ _ _ _ _ En Ea) as (Hi & -> & _). by split.
  - destruct (IH ltac:(lia)) as [Hi Hs].
    destruct (event_served n m mem event events consumed now rx tx Hit Hi Hs Hn He Hb Hrx Htx) as (sv1 & m1 & mem1 & E1 & Hp & Hd).
    rewrite E in E1. injection E1 as <- <- <-. split; [apply Hd|done].
Qed.

(** Events for the receive queue, one after the other, each with its memory, its buffers and its time. *)
Fixpoint rx_events (n : nat) m (feed : nat -> G * list QueueItem * list QueueItem * Z) : outcome M :=
  match n with
  | O => Ret m
  | Datatypes.S n =>
      let '(mem, rx, tx, now) := feed O in
      let! (_, m, _) := vsock_process m mem RXQ_EVENT (Some 1) (Ok tt) now rx tx in
      rx_events n m (fun i => feed (Datatypes.S i))
  end.

Definition feeds (feed : nat -> G * list QueueItem * list QueueItem * Z) : Prop :=
  forall i, let '(mem, rx, _, _) := feed i in Forall (item_ok RX_LIMIT) rx /\ usable mem rx.

Lemma rx_events_deliver m feed :
  iter_law -> mux_inv m -> feeds feed -> exists n m', (n <= potential m)%nat /\ rx_events n m feed = Ret m' /\ delivered m'.
Proof.
  intros Hit Hi Hf. revert feed Hf. remember (potential m) as d eqn:Ed. revert m Hi Ed.
  induction d as [d IH] using lt_wf_ind; intros m Hi -> feed Hf.
  destruct (mux_has_pending_rx m) eqn:Hp; [|exists 0%nat, m; split_and!; [lia|done|by apply delivered_intro]].
  pose proof (Hf 0%nat) as H0. destruct (feed 0%nat) as [[[mem rx] tx] now] eqn:E0. destruct H0 as [Hok Hu].
  destruct (serve_rx_ok m mem rx [] tx false Hit Hi Hok) as (sv & m1 & mem1 & E & Hi1 & _ & _ & _ & _ & _ & _ & Hlt).
  destruct (IH (potential m1) (Hlt Hu Hp) m1 Hi1 eq_refl (fun i => feed (Datatypes.S i))) as (n & m' & Hn & E' & Hd); [intros i; apply Hf|].
  exists (Datatypes.S n), m'. split; [specialize (Hlt Hu Hp); lia|]. split; [|done].
  cbn [rx_events]. rewrite E0. unfold vsock_process. cbn. by rewrite E.
Qed.

(** C9. The vsock event loop.  From the activation of the device on, and for up
    to 2^30 events of epoll, whatever the streams and backends do and whatever
    the driver puts into the queues (receive descriptors of at most u32::MAX - 44
    bytes), every event is served without a panic and leaves the muxer
    well-formed.  Each queue's chains are returned in the order in which they
    were offered, as VIRTIO_F_IN_ORDER promises: transmit buffers with length 0,
    receive buffers with no more than they hold.  If the queue's iterator does
    not fail, the driver is interrupted exactly when a buffer was returned,
    every transmit chain is returned, and receive chains are left only when
    nothing more is to be delivered, or when the muxer's queue is empty and
    marked for being rebuilt; if the iterator fails, the driver is not
    interrupted, not even for buffers returned before.  And nothing stays
    behind: after at most 19,184 further events for the receive queue that offer
    a usable buffer each, whatever the streams do, no connection and no queue has
    anything left to deliver. *)
Theorem vsock_events_served {Q} n m mem event events consumed now rx tx :
  iter_law -> vsock_run (Q := Q) n m -> Z.of_nat (n + polled m event) <= 2 ^ 30 ->
  is_Some events -> (forall a, in_u8 (host_byte mem a)) ->
  Forall (item_ok RX_LIMIT) rx -> Forall (item_ok u32_max) tx ->
  exists sv m' mem', vsock_process m mem event events consumed now rx tx = Ret (sv, m', mem') /\
    event_done event consumed rx tx sv m' /\
    forall feed, feeds feed -> exists k m'', Z.of_nat k <= 19184 /\ rx_events k m' feed = Ret m'' /\ delivered m''.
Proof.
  intros Hit Hr Hn He Hb Hrx Htx. destruct (vsock_run_inv n m Hit Hr ltac:(lia)) as [Hi Hs].
  destruct (event_served n m mem event events consumed now rx tx Hit Hi Hs Hn He Hb Hrx Htx) as (sv & m' & mem' & E & _ & Hd).
  exists sv, m', mem'. split; [done|]. split; [done|]. intros feed Hf. destruct Hd as [Hi' _].
  destruct (rx_events_deliver m' feed Hit Hi' Hf) as (k & m'' & Hk & E' & Hd). exists k, m''. pose proof (potential_bound m' Hi'). split; [lia|done].
Qed.
End Queues.

(** ** The device *)

Section Device.
Context {S W : Type} `{Hstream : VsockStream S} `{!PortStream S} `{!MuxerEnv S W}.
Implicit Types d : Vsock S W.

(** Once activated, a device takes no backend, and is not to be activated again: the
    muxer is gone, and [activate] panics. *)
Lemma activated_once {Q} d (config : VirtioDeviceConfig Q) id m d' :
  Vsock_activate d config id = Ret (Ok m, d') ->
  vs_muxer d = Some m /\ vs_subscriber_id d' = Some id /\
  (forall t b, Vsock_add_backend d' t b = (Err BackendAddAfterActivated, d')) /\
  (forall id', Vsock_activate d' config id' = Panic).
Proof.
  destruct d as [c q i s mx]. simpl. destruct (check_queue_sizes i (dc_queues config)) as [[]|e] eqn:E; [|done].
  destruct mx as [m1|]; [|done]. intros [= <- <-]. simpl. by rewrite E.
Qed.

(** The driver reads the CID from the configuration space. *)
Lemma vsock_config_cid w cid sizes d w' :
  in_u64 cid -> Vsock_new w cid sizes = (Ok d, w') -> of_le_bytes (config_space (vs_device_info d)) = cid.
Proof.
  intros Hc. unfold Vsock_new. destruct (VsockMuxer_new w cid) as [[m|e] w1]; [|done]. intros [= <- _].
  apply of_le_le_bytes. ulia.
Qed.
End Device.

(** ** Witnesses *)

#[local] Existing Instances VsockMuxerProps.script_port VsockMuxerProps.script_env VsockPacket.flat_mem.

#[local] Instance flat_write : HostWrite bytes := {|
  host_write m a bs := take (Z.to_nat a) m ++ bs ++ drop (Z.to_nat a + length bs) m;
|}.

(** A connection request at address 0, and room for a packet with 4 bytes behind it. *)
Definition ex_guest : bytes := hdr_bytes (hdr ex_request) ++ replicate 48 0.
Definition ex_tx_chain : QueueItem := AvailChain 5 [mkDescriptor 0 44 false] 1.
Definition ex_rx_chain : QueueItem := AvailChain 1 [mkDescriptor 44 44 true; mkDescriptor 88 4 true] 2.

Definition ex_vsock_config : VirtioDeviceConfig unit :=
  let q := mkVirtioQueueConfig tt 0 NoopNotifier 0 in mkVirtioDeviceConfig (mkDeviceResources []) [q; q; q] None NoopNotifier None.

Lemma ex_vsock_run : vsock_run (G := bytes) (Q := unit) 0 ex_mux1.
Proof. by eapply (run_activated tt 3 [256; 256; 256] _ tt [(UnixStream, true)] ex_vsock_config 9). Qed.

Lemma ex_guest_bytes a : in_u8 (host_byte ex_guest a).
Proof. simpl. pose proof (Z.mod_pos_bound (default 0 (ex_guest !! Z.to_nat a)) 256). ulia. Qed.

(** The request is taken, and the response delivered with the same event. *)
Lemma vsock_events_served_witness :
  exists sv m' mem', vsock_process ex_mux1 ex_guest TXQ_EVENT (Some 1) (Ok tt) 3 [ex_rx_chain; ex_rx_chain] [ex_tx_chain] = Ret (sv, m', mem') /\
    event_done TXQ_EVENT (Ok tt) [ex_rx_chain; ex_rx_chain] [ex_tx_chain] sv m' /\
    sv_tx_used sv = [(5, 0)] /\ sv_rx_used sv = [(1, 44)] /\ sv_rx_left sv = [ex_rx_chain] /\
    exists k m'', Z.of_nat k <= 19184 /\ rx_events k m' (fun _ => (ex_guest, [ex_rx_chain], [], 3)) = Ret m'' /\ delivered m''.
Proof.
  destruct (vsock_events_served (Q := unit) 0 ex_mux1 ex_guest TXQ_EVENT (Some 1) (Ok tt) 3 [ex_rx_chain; ex_rx_chain] [ex_tx_chain]
    script_iter ex_vsock_run) as (sv & m' & mem' & E & Hd & Hf); [done|by eexists|apply ex_guest_bytes|by repeat constructor..|].
  exists sv, m', mem'. split; [exact E|]. split; [exact Hd|]. vm_compute in E. injection E as <- _ _. do 3 (split; [reflexivity|]).
  apply Hf. intros i. split; [by repeat constructor|]. by eexists.
Defined.

(** An iterator that fails after the first chain: the request was taken and its
    chain returned, and the driver is not told. *)
Example iterator_error_no_interrupt :
  (fun '(used, left_, irq, _) => (used, left_, irq)) <$> match process_tx ex_mux1 ex_guest [ex_tx_chain; IterError 0] with Ret x => Some x | Panic => None end
  = Some ([(5, 0)], [], false).
Proof. vm_compute. reflexivity. Qed.
