(* ===== verification/Balloon.v ===== *)
(** The virtio-balloon device (dbs_virtio_devices/src/balloon.rs): giving the pages
    a guest lists, or the free memory it reports, back to the host, and the device
    with its configuration.

    Guest memory is the interface of vm-memory; what the host is asked to do is the
    list of calls, whose results are only logged.  Metrics and log messages are left
    out. *)

From S2P Require Import Prelude Resources Interrupt VsockStream VsockPacket VirtioMem VirtioDevice Block BlockHandler.

Definition BALLOON_QUEUE_SIZE : Z := 128.
Definition BALLOON_QUEUE_SIZES : list Z := [BALLOON_QUEUE_SIZE; BALLOON_QUEUE_SIZE].
Definition INFLATE_QUEUE_AVAIL_EVENT : Z := 0.
Definition DEFLATE_QUEUE_AVAIL_EVENT : Z := 1.
Definition REPORTING_QUEUE_AVAIL_EVENT : Z := 2.
Definition PAGE_SHIFT : Z := 12.
Definition VIRTIO_BALLOON_PFN_SHIFT : Z := 12.
Definition VIRTIO_BALLOON_F_DEFLATE_ON_OOM : Z := 2.
Definition VIRTIO_BALLOON_F_REPORTING : Z := 5.
Definition PAGE_REPORTING_CAPACITY : Z := 128.
Definition TYPE_BALLOON : Z := 5.

(** Linux. *)
Definition MADV_WILLNEED : Z := 3.
Definition MADV_DONTNEED : Z := 4.
Definition MADV_REMOVE : Z := 9.

(** A region of guest memory: where it lies, the host address of its start, and the
    file behind it with the offset of the start. *)
Record MemRegion := mkMemRegion {
  rg_start : Z;
  rg_len : Z;
  rg_host : option Z;
  rg_file : option (Z * Z);
}.

(** [GuestMemory::find_region]. *)
Class RegionMem (G : Type) := {
  find_region : G -> Z -> option MemRegion;
}.

(** [libc::madvise] and [libc::fallocate] with PUNCH_HOLE and KEEP_SIZE. *)
Inductive BalloonCall : Type :=
| Madvise (addr size advice : Z)
| Fallocate (fd offset len : Z).

(** A chain the iterator of a queue yields. *)
Record BalloonChain := mkBalloonChain {
  bc_head : Z;
  bc_descs : list Descriptor;
}.

(** Arithmetic on [i64]. *)
Definition i64 (x : Z) : outcome Z := if (- 2 ^ 63 <=? x) && (x <? 2 ^ 63) then Ret x else Panic.

Section Handler.
Context {G : Type} `{MemGuest G} `{GuestMem G} `{RegionMem G} `{BlkGuest G}.

(** ** Inflating and deflating *)

(** One page frame: the call for it, and the advice from now on. *)
Definition process_pfn (mem : G) (pfn advice : Z) : outcome (list BalloonCall * Z) :=
  let pfn_len := Z.shiftl 1 PAGE_SHIFT in
  let guest_addr := as_u64 (Z.shiftl pfn VIRTIO_BALLOON_PFN_SHIFT) in
  match find_region mem guest_addr with
  | Some region =>
      let! host_addr := unwrap (get_host_address mem guest_addr) in
      let advice := if (advice =? MADV_DONTNEED) && bool_decide (is_Some (rg_file region)) then MADV_REMOVE else advice in
      Ret ([Madvise host_addr pfn_len advice], advice)
  | None => Ret ([], advice)
  end.

(** The loop over the page frame numbers of a descriptor. *)
Fixpoint process_pfns (fuel : nat) (mem : G) (addr len offset advice : Z) : outcome (list BalloonCall * Z) :=
  match fuel with
  | O => Panic
  | S fuel =>
      if offset <? len then
        let! a := add_u u64_max addr offset in
        match read_slice mem a 4 with
        | None => Ret ([], advice)
        | Some bs =>
            let! offset := add_u u64_max offset 4 in
            let! (calls, advice) := process_pfn mem (of_le_bytes bs) advice in
            let! (calls', advice) := process_pfns fuel mem addr len offset advice in
            Ret (calls ++ calls', advice)
        end
      else Ret ([], advice)
  end.

Definition pfn_fuel (len : Z) : nat := S (Z.to_nat (len / 4)).

(** The loop over the chains, with the number of those used so far, for which there
    is a table of 128 entries: the heads used, or none if it returns early. *)
Fixpoint process_balloon_chains (mem : G) (chains : list BalloonChain) (advice used_count : Z) :
  outcome (option (list Z) * list BalloonCall) :=
  match chains with
  | [] => Ret (Some [], [])
  | c :: chains =>
      match bc_descs c with
      | [] => Ret (None, [])
      | avail_desc :: _ =>
          if d_write_only avail_desc then process_balloon_chains mem chains advice used_count else
          if negb (d_len avail_desc mod 4 =? 0) then process_balloon_chains mem chains advice used_count else
          let! (calls, advice) := process_pfns (pfn_fuel (d_len avail_desc)) mem (d_addr avail_desc) (d_len avail_desc) 0 advice in
          if BALLOON_QUEUE_SIZE <=? used_count then Panic else
          let! (used, calls') := process_balloon_chains mem chains advice (used_count + 1) in
          Ret (cons (bc_head c) <$> used, calls ++ calls')
      end
  end.

(** The end of both handlers: [add_used] for each, and [notify]. *)
Definition return_used (mem : G) (used : list (Z * Z)) (notified : result unit Z) : outcome (bool * G) :=
  let! mem := add_used_all mem used in
  if (length used =? 0)%nat then Ret (true, mem)
  else Ret (match notified with Ok _ => true | Err _ => false end, mem).

Definition initial_advice (idx : Z) : option Z :=
  if idx =? INFLATE_QUEUE_AVAIL_EVENT then Some MADV_DONTNEED
  else if idx =? DEFLATE_QUEUE_AVAIL_EVENT then Some MADV_WILLNEED
  else None.

(** [process_queue]: whether the event was handled, the buffers returned, the calls
    and the memory.  [consumed], [iter] and [notified] are what the queue answers. *)
Definition balloon_process_queue (mem : G) (idx : Z) (consumed : result unit Z) (iter : result (list BalloonChain) Z)
  (notified : result unit Z) : outcome (bool * list (Z * Z) * list BalloonCall * G) :=
  match initial_advice idx, consumed, iter with
  | Some advice, Ok _, Ok chains =>
      let! (used, calls) := process_balloon_chains mem chains advice 0 in
      match used with
      | None => Ret (false, [], calls, mem)
      | Some heads =>
          let used := (fun head => (head, 0)) <$> heads in
          let! (r, mem) := return_used mem used notified in
          Ret (r, used, calls, mem)
      end
  | _, _, _ => Ret (false, [], [], mem)
  end.

(** ** Reporting of free memory *)

(** The call for a descriptor in a region. *)
Definition report_call (region : MemRegion) (host_addr size : Z) : outcome BalloonCall :=
  match rg_file region with
  | Some (file_fd, file_start) =>
      let! start_addr := unwrap (rg_host region) in
      let! sum := i64 (as_i64 file_start + as_i64 host_addr) in
      let! offset := i64 (sum - as_i64 start_addr) in
      Ret (Fallocate file_fd offset size)
  | None => Ret (Madvise host_addr size MADV_DONTNEED)
  end.

(** The descriptors of a chain: their length, and the calls. *)
Fixpoint report_descs (mem : G) (descs : list Descriptor) (len : Z) : outcome (Z * list BalloonCall) :=
  match descs with
  | [] => Ret (len, [])
  | avail_desc :: descs =>
      if negb (d_len avail_desc mod 4 =? 0) then Ret (len, []) else
      let size := d_len avail_desc in
      let! len := add_u u32_max len size in
      match find_region mem (d_addr avail_desc) with
      | Some region =>
          match get_host_address mem (d_addr avail_desc) with
          | None => Ret (len, [])
          | Some host_addr =>
              let! call := report_call region host_addr size in
              let! (len, calls) := report_descs mem descs len in
              Ret (len, call :: calls)
          end
      | None => report_descs mem descs len
      end
  end.

Fixpoint report_chains (mem : G) (chains : list BalloonChain) (used_count : Z) : outcome (list (Z * Z) * list BalloonCall) :=
  match chains with
  | [] => Ret ([], [])
  | c :: chains =>
      let! (len, calls) := report_descs mem (bc_descs c) 0 in
      if BALLOON_QUEUE_SIZE <=? used_count then Panic else
      let! (used, calls') := report_chains mem chains (used_count + 1) in
      Ret ((bc_head c, len) :: used, calls ++ calls')
  end.

(** [process_reporting_queue]; [configured] says whether there is such a queue. *)
Definition process_reporting_queue (mem : G) (configured : bool) (consumed : result unit Z)
  (iter : result (list BalloonChain) Z) (notified : result unit Z) : outcome (bool * list (Z * Z) * list BalloonCall * G) :=
  match configured, consumed, iter with
  | true, Ok _, Ok chains =>
      let! (used, calls) := report_chains mem chains 0 in
      let! (r, mem) := return_used mem used notified in
      Ret (r, used, calls, mem)
  | _, _, _ => Ret (false, [], [], mem)
  end.

(** [process]: other events do nothing. *)
Definition balloon_process (mem : G) (idx : Z) (configured : bool) (consumed : result unit Z)
  (iter : result (list BalloonChain) Z) (notified : result unit Z) : outcome (list (Z * Z) * list BalloonCall * G) :=
  if (idx =? INFLATE_QUEUE_AVAIL_EVENT) || (idx =? DEFLATE_QUEUE_AVAIL_EVENT) then
    let! (_, used, calls, mem) := balloon_process_queue mem idx consumed iter notified in Ret (used, calls, mem)
  else if idx =? REPORTING_QUEUE_AVAIL_EVENT then
    let! (_, used, calls, mem) := process_reporting_queue mem configured consumed iter notified in Ret (used, calls, mem)
  else Ret ([], [], mem).
End Handler.

(** ** The device *)

Definition page_number_to_mib (number : Z) : Z := Z.shiftr (Z.shiftr (as_u64 (Z.shiftl number PAGE_SHIFT)) 10) 10.
Definition mib_to_page_number (mib : Z) : Z := Z.shiftr (as_u64 (Z.shiftl (as_u64 (Z.shiftl mib 10)) 10)) PAGE_SHIFT.

Record VirtioBalloonConfig := mkVirtioBalloonConfig {
  num_pages : Z;
  actual : Z;
}.

(** The bytes of the packed structure, and back. *)
Definition balloon_config_bytes (c : VirtioBalloonConfig) : bytes := le_bytes 4 (num_pages c) ++ le_bytes 4 (actual c).
Definition balloon_config_of (bs : bytes) : VirtioBalloonConfig := mkVirtioBalloonConfig (field bs 0 4) (field bs 4 4).

Record BalloonConfig := mkBalloonConfig {
  f_deflate_on_oom : bool;
  f_reporting : bool;
}.

Record Balloon := mkBalloon {
  ba_device_info : VirtioDeviceInfo;
  ba_config : VirtioBalloonConfig;
  ba_device_change_notifier : Notifier;
  ba_subscriber_id : option Z;
}.

Definition Balloon_new (cfg : BalloonConfig) : Balloon :=
  let avail_features := Z.shiftl 1 32 in
  let avail_features := if f_deflate_on_oom cfg then Z.lor avail_features (Z.shiftl 1 VIRTIO_BALLOON_F_DEFLATE_ON_OOM) else avail_features in
  let '(avail_features, queue_sizes) :=
    if f_reporting cfg then (Z.lor avail_features (Z.shiftl 1 VIRTIO_BALLOON_F_REPORTING), BALLOON_QUEUE_SIZES ++ [PAGE_REPORTING_CAPACITY])
    else (avail_features, BALLOON_QUEUE_SIZES) in
  let config := mkVirtioBalloonConfig 0 0 in
  mkBalloon (VirtioDeviceInfo_new avail_features queue_sizes (balloon_config_bytes config)) config NoopNotifier None.

(** [set_size]; [notified] is what the notifier answers. *)
Definition balloon_set_size (b : Balloon) (size_mb : Z) (notified : result unit Z) : result unit Z * Balloon :=
  let '(mkBalloon i c n s) := b in
  (notified, mkBalloon i (mkVirtioBalloonConfig (as_u32 (mib_to_page_number size_mb)) (actual c)) n s).

Definition balloon_set_acked_features (b : Balloon) (page value : Z) : Balloon :=
  let '(mkBalloon i c n s) := b in mkBalloon (info_set_acked_features i page value) c n s.

Definition balloon_read_config (b : Balloon) (offset : Z) (data : bytes) : outcome (result unit ConfigError * bytes) :=
  let config_space := balloon_config_bytes (ba_config b) in
  let config_len := zlen config_space in
  if offset >=? config_len then Ret (Err (VirtioDevice.InvalidOffset offset), data) else
  match checked_add u64_max offset (zlen data) with
  | Some e =>
      let src := ztake (Z.min e config_len - offset) (zdrop offset config_space) in
      if zlen src <=? zlen data then Ret (Ok tt, src ++ zdrop (zlen src) data) else Panic
  | None => Ret (Ok tt, data)
  end.

Definition balloon_write_config (b : Balloon) (offset : Z) (data : bytes) : outcome (result unit ConfigError * Balloon) :=
  let config_slice := balloon_config_bytes (ba_config b) in
  match checked_add u64_max offset (zlen data) with
  | Some e =>
      if e <=? zlen config_slice then
        let '(mkBalloon i _ n s) := b in
        Ret (Ok tt, mkBalloon i (balloon_config_of (ztake offset config_slice ++ data ++ zdrop e config_slice)) n s)
      else
        let! x := add_u u64_max offset (zlen data) in Ret (Err (InvalidOffsetPlusDataLen x), b)
  | None => let! x := add_u u64_max offset (zlen data) in Ret (Err (InvalidOffsetPlusDataLen x), b)
  end.

(** The queues of the handler that [activate] registers. *)
Record BalloonHandler (Q : Type) := mkBalloonHandler {
  bl_inflate : VirtioQueueConfig Q;
  bl_deflate : VirtioQueueConfig Q;
  bl_reporting : option (VirtioQueueConfig Q);
}.
Arguments mkBalloonHandler {Q}.
Arguments bl_inflate {Q}.
Arguments bl_deflate {Q}.
Arguments bl_reporting {Q}.

(** [Vec::remove(0)]. *)
Definition remove_first {A} (l : list A) : outcome (A * list A) :=
  match l with [] => Panic | x :: l => Ret (x, l) end.

(** [activate]: the handler is registered as subscriber [id]. *)
Definition Balloon_activate {Q} (b : Balloon) (config : VirtioDeviceConfig Q) (id : Z) :
  outcome (result (BalloonHandler Q) ActivateError * Balloon) :=
  let '(mkBalloon i c _ _) := b in
  match check_queue_sizes i (dc_queues config) with
  | Err e => Ret (Err e, b)
  | Ok _ =>
      let! (inflate, queues) := remove_first (dc_queues config) in
      let! (deflate, queues) := remove_first queues in
      let! reporting :=
        if negb (Z.land (acked_features i) (Z.shiftl 1 VIRTIO_BALLOON_F_REPORTING) =? 0)
        then let! (reporting, _) := remove_first queues in Ret (Some reporting)
        else Ret None in
      Ret (Ok (mkBalloonHandler inflate deflate reporting), mkBalloon i c (dc_device_change_notifier config) (Some id))
  end.

Definition balloon_resource_requirements (b : Balloon) (use_generic_irq : bool) : list ResourceConstraint :=
  [RC_LegacyIrq None] ++
  (if use_generic_irq then [RC_GenericIrq (as_u32 (Z.of_nat (length (queue_sizes (ba_device_info b))) + 1))] else []).
