(* ===== verification/BalloonSpec.v ===== *)
(** Correctness of the virtio-balloon device: which pages the host is told about,
    which buffers are returned, and that activation finds its queues. *)

From S2P Require Import Prelude Resources Interrupt VsockStream VsockPacket VirtioMem VirtioDevice Block BlockHandler Balloon.

(** What vm-memory documents: a region found holds the address, and host addresses
    are counted from its start; reads stay in memory.  Regions are mapped, so they
    consist of whole pages below 2^63. *)
Class RegionLaws (G : Type) `{MemGuest G} `{GuestMem G} `{RegionMem G} : Prop := {
  region_holds g a r : find_region g a = Some r -> rg_start r <= a < rg_start r + rg_len r;
  region_host g a r : find_region g a = Some r ->
    exists h, rg_host r = Some h /\ get_host_address g a = Some (h + (a - rg_start r));
  region_paged g a r : find_region g a = Some r -> rg_start r mod 4096 = 0 /\ rg_len r mod 4096 = 0;
  region_low g a r h : find_region g a = Some r -> rg_host r = Some h ->
    0 <= h /\ h + rg_len r < 2 ^ 63 /\ forall fd st, rg_file r = Some (fd, st) -> 0 <= st /\ st + h + rg_len r < 2 ^ 63;
  read_word g a bs : read_slice g a 4 = Some bs -> zlen bs = 4 /\ Forall in_u8 bs /\ a + 4 <= u64_max;
}.

Section Pages.
Context {G : Type} `{RegionLaws G} `{!BlkGuest G}.
Implicit Types (g : G) (c : BalloonChain).

(** ** The pages a guest lists *)

(** A page of guest memory: its region and its host address. *)
Notation page := (MemRegion * Z)%type.

Definition page_of g (pfn : Z) : option page :=
  match find_region g (4096 * pfn) with
  | Some r => Some (r, default 0 (rg_host r) + (4096 * pfn - rg_start r))
  | None => None
  end.

Definition backed (p : page) : Prop := is_Some (rg_file p.1).
Definition advise (advice : Z) (p : page) : BalloonCall := Madvise p.2 4096 advice.

(** The calls for the pages, with the advice the code carries along. *)
Fixpoint advised (advice : Z) (ps : list page) : list BalloonCall * Z :=
  match ps with
  | [] => ([], advice)
  | p :: ps =>
      let advice := if (advice =? MADV_DONTNEED) && bool_decide (is_Some (rg_file p.1)) then MADV_REMOVE else advice in
      let '(calls, advice') := advised advice ps in (advise advice p :: calls, advice')
  end.

Lemma advised_app advice ps ps' :
  advised advice (ps ++ ps') =
  let '(calls, advice) := advised advice ps in let '(calls', advice) := advised advice ps' in (calls ++ calls', advice).
Proof.
  revert advice. induction ps as [|p ps IH]; intros advice; cbn [advised app]; [by destruct (advised advice ps')|].
  rewrite IH. destruct (advised _ ps) as [cs a]. by destruct (advised a ps') as [cs' a'].
Qed.

(** An advice other than DONTNEED stays. *)
Lemma advised_same advice ps : advice <> MADV_DONTNEED -> advised advice ps = (advise advice <$> ps, advice).
Proof.
  intros Hne. induction ps as [|p ps IH]; cbn [advised fmap list_fmap]; [done|].
  rewrite (proj2 (Z.eqb_neq _ _) Hne). cbn [andb]. by rewrite IH.
Qed.

(** DONTNEED lasts until the first page with a file behind it. *)
Lemma advised_inflate ps : exists pre post, ps = pre ++ post /\ Forall (fun p => ~ backed p) pre /\
  (forall p, head post = Some p -> backed p) /\
  (advised MADV_DONTNEED ps).1 = (advise MADV_DONTNEED <$> pre) ++ (advise MADV_REMOVE <$> post).
Proof.
  induction ps as [|p ps (pre & post & -> & Hpre & Hpost & E)]; [by exists [], []|].
  cbn [advised]. rewrite Z.eqb_refl. cbn [andb]. case_bool_decide as Hb.
  - exists [], (p :: pre ++ post). split; [done|]. split; [done|]. split; [by intros ? [= <-]|]. rewrite advised_same by done. done.
  - exists (p :: pre), post. split; [done|]. split; [by constructor|]. split; [done|].
    destruct (advised MADV_DONTNEED (pre ++ post)) as [cs a]. cbn in *. by rewrite E.
Qed.

(** The page frame numbers at [addr], as far as they can be read. *)
Fixpoint words g (addr : Z) (n : nat) : list Z :=
  match n with
  | O => []
  | S n => match read_slice g addr 4 with Some bs => of_le_bytes bs :: words g (addr + 4) n | None => [] end
  end.

Lemma process_pfn_ok g pfn advice : in_u32 pfn ->
  process_pfn g pfn advice = Ret (advised advice (option_list (page_of g pfn))).
Proof.
  intros Hp. unfold process_pfn, page_of.
  assert (Ea : as_u64 (Z.shiftl pfn VIRTIO_BALLOON_PFN_SHIFT) = 4096 * pfn).
  { rewrite Z.shiftl_mul_pow2 by done. change (2 ^ VIRTIO_BALLOON_PFN_SHIFT) with 4096. unfold as_u64. rewrite Z.mod_small by ulia. lia. }
  rewrite Ea. destruct (find_region g (4096 * pfn)) as [r|] eqn:Hr; [|done].
  destruct (region_host _ _ _ Hr) as (h & Hh & ->). by rewrite Hh.
Qed.

Lemma process_pfns_ok fuel g addr len offset advice n :
  in_u64 (addr + offset) -> 0 <= offset -> offset + 4 * Z.of_nat n = len -> len <= u32_max -> (n < fuel)%nat ->
  process_pfns fuel g addr len offset advice = Ret (advised advice (omap (page_of g) (words g (addr + offset) n))).
Proof.
  revert fuel offset advice. induction n as [|n IH]; intros fuel offset advice Ha Ho Hl Hn Hf; (destruct fuel as [|fuel]; [lia|]); cbn [process_pfns words].
  - by rewrite (proj2 (Z.ltb_ge offset len)) by lia.
  - rewrite (proj2 (Z.ltb_lt offset len)) by lia. rewrite add_u_ret by ulia. cbn [obind].
    destruct (read_slice g (addr + offset) 4) as [bs|] eqn:Er; [|done]. apply read_word in Er as (Hz & Hb & Hr).
    rewrite add_u_ret by ulia. cbn [obind]. rewrite process_pfn_ok.
    2:{ pose proof (of_le_bytes_range bs Hb) as R. unfold zlen in Hz. rewrite Hz in R. change (256 ^ 4) with (2 ^ 32) in R. ulia. }
    cbn [obind]. replace (omap (page_of g) (of_le_bytes bs :: words g (addr + offset + 4) n)) with
      (option_list (page_of g (of_le_bytes bs)) ++ omap (page_of g) (words g (addr + offset + 4) n)) by (cbn; by destruct (page_of g _)).
    rewrite advised_app. destruct (advised advice _) as [cs a]. replace (addr + offset + 4) with (addr + (offset + 4)) by lia.
    rewrite IH by (ulia || lia). cbn [obind]. by destruct (advised a _).
Qed.

(** ** Chains *)

(** A chain that is served: its first descriptor is readable and holds whole words. *)
Definition serveable c : bool :=
  match bc_descs c with d :: _ => negb (d_write_only d) && (d_len d mod 4 =? 0) | [] => false end.

Definition pages_of_chain g c : list page :=
  match bc_descs c with d :: _ => omap (page_of g) (words g (d_addr d) (Z.to_nat (d_len d / 4))) | [] => [] end.

Definition served (chains : list BalloonChain) : list BalloonChain := filter (fun c => serveable c = true) chains.
Definition pages_of g (chains : list BalloonChain) : list page := concat (pages_of_chain g <$> served chains).

Definition desc_typed (d : Descriptor) : Prop := in_u64 (d_addr d) /\ in_u32 (d_len d).
Definition chain_ok c : Prop := Forall desc_typed (bc_descs c) /\ bc_descs c <> [].

Lemma served_yes c chains : serveable c = true -> served (c :: chains) = c :: served chains.
Proof. intros Hs. unfold served. by rewrite filter_cons_True. Qed.

Lemma served_no c chains : serveable c = false -> served (c :: chains) = served chains.
Proof. intros Hs. unfold served. rewrite filter_cons_False; [done|congruence]. Qed.

Lemma balloon_chains_ok g chains rest advice count :
  Forall chain_ok chains -> count + Z.of_nat (length chains) <= BALLOON_QUEUE_SIZE ->
  process_balloon_chains g (chains ++ rest) advice count =
    let '(calls, advice) := advised advice (pages_of g chains) in
    let! (used, calls') := process_balloon_chains g rest advice (count + Z.of_nat (length (served chains))) in
    Ret ((fun used => (bc_head <$> served chains) ++ used) <$> used, calls ++ calls').
Proof.
  intros Hok. revert advice count. induction Hok as [|c chains [Ht Hne] _ IH]; intros advice count Hn.
  { cbn. rewrite Z.add_0_r. destruct (process_balloon_chains g rest advice count) as [[[used|] calls]|]; done. }
  cbn [app process_balloon_chains length] in *. unfold pages_of in *.
  destruct (bc_descs c) as [|d ds] eqn:Ed; [done|]. apply Forall_inv in Ht as [Ha Hl].
  assert (Es : serveable c = negb (d_write_only d) && (d_len d mod 4 =? 0)) by (unfold serveable; by rewrite Ed).
  destruct (d_write_only d); cbn [negb andb] in Es; [rewrite served_no by done; apply IH; lia|].
  destruct (Z.eqb_spec (d_len d mod 4) 0) as [Hm|]; cbn [negb]; [|rewrite served_no by done; apply IH; lia].
  rewrite served_yes by done. assert (Hd : d_len d = 4 * (d_len d / 4)) by (apply Z_div_exact_full_2; lia).
  assert (Hp : 0 <= d_len d / 4) by (apply Z.div_pos; ulia).
  rewrite (process_pfns_ok _ g _ _ 0 advice (Z.to_nat (d_len d / 4))) by (unfold pfn_fuel; ulia || lia). rewrite Z.add_0_r. cbn [obind].
  cbn [fmap list_fmap concat length]. rewrite advised_app.
  assert (Ep : pages_of_chain g c = omap (page_of g) (words g (d_addr d) (Z.to_nat (d_len d / 4)))) by (unfold pages_of_chain; by rewrite Ed).
  rewrite Ep. destruct (advised advice (omap _ _)) as [cs a]. rewrite (proj2 (Z.leb_gt BALLOON_QUEUE_SIZE count)) by lia.
  rewrite IH by lia. destruct (advised a _) as [cs' a'].
  replace (count + 1 + Z.of_nat (length (served chains))) with (count + Z.of_nat (S (length (served chains)))) by lia.
  destruct (process_balloon_chains g rest a' _) as [[[used|] calls]|]; cbn; [by rewrite app_assoc..|done].
Qed.

(** ** Calls stay inside guest memory *)

(** A call for bytes of the region [r], and of some region of guest memory. *)
Definition within (r : MemRegion) (call : BalloonCall) : Prop :=
  match call with
  | Madvise addr size _ => exists h, rg_host r = Some h /\ h <= addr /\ addr + size <= h + rg_len r
  | Fallocate fd offset len => exists st, rg_file r = Some (fd, st) /\ st <= offset /\ offset + len <= st + rg_len r
  end.
Definition confined g (call : BalloonCall) : Prop := exists a r, find_region g a = Some r /\ within r call.

Lemma page_confined g pfn p advice : page_of g pfn = Some p -> confined g (advise advice p).
Proof.
  unfold page_of. destruct (find_region g (4096 * pfn)) as [r|] eqn:Hr; [|done]. intros [= <-].
  destruct (region_host _ _ _ Hr) as (h & Hh & _). exists (4096 * pfn), r. split; [done|]. exists h. split; [done|]. cbn. rewrite Hh. cbn.
  pose proof (region_holds _ _ _ Hr). destruct (region_paged _ _ _ Hr) as [M1 M2].
  apply Z.mod_divide in M1 as [x Hx]; [|done]. apply Z.mod_divide in M2 as [y Hy]; [|done]. lia.
Qed.

Lemma pages_confined g chains advice : Forall (confined g) (advised advice (pages_of g chains)).1.
Proof.
  assert (Hp : Forall (fun p => exists pfn, page_of g pfn = Some p) (pages_of g chains)).
  { unfold pages_of. apply Forall_concat, Forall_fmap, Forall_true. intros c. cbn. unfold pages_of_chain. destruct (bc_descs c) as [|d ds]; [constructor|].
    apply Forall_forall. intros p Hp. apply list_elem_of_omap in Hp as (pfn & _ & Hp). by exists pfn. }
  revert advice. induction Hp as [|p ps [pfn Hp] _ IH]; intros advice; cbn [advised]; [constructor|].
  specialize (IH (if (advice =? MADV_DONTNEED) && bool_decide (is_Some (rg_file p.1)) then MADV_REMOVE else advice)).
  destruct (advised _ ps) as [cs a]. constructor; [by eapply page_confined|done].
Qed.

(** C39. Inflating and deflating the balloon.  The host is told, in order, about
    exactly the pages the driver lists in readable chains of whole page frame
    numbers, as far as these can be read and lie in guest memory, and never about
    a byte outside of it.  For deflation the advice is WILLNEED; for inflation it
    is DONTNEED, and from the first page with a file behind it on REMOVE, also for
    pages without one.  These chains are returned, in order and with length 0; the
    other ones are not.  After a chain without a descriptor none is, although the
    pages of those before it are gone. *)
Theorem balloon_pages_correct g idx advice chains notified :
  initial_advice idx = Some advice -> Forall chain_ok chains -> Z.of_nat (length chains) <= BALLOON_QUEUE_SIZE ->
  exists calls,
    balloon_process_queue g idx (Ok tt) (Ok chains) notified =
      (let used := (fun c => (bc_head c, 0)) <$> served chains in
       let! (r, g') := return_used g used notified in Ret (r, used, calls, g')) /\
    (idx = DEFLATE_QUEUE_AVAIL_EVENT -> calls = advise MADV_WILLNEED <$> pages_of g chains) /\
    (idx = INFLATE_QUEUE_AVAIL_EVENT -> exists pre post, pages_of g chains = pre ++ post /\
      Forall (fun p => ~ backed p) pre /\ (forall p, head post = Some p -> backed p) /\
      calls = (advise MADV_DONTNEED <$> pre) ++ (advise MADV_REMOVE <$> post)) /\
    Forall (confined g) calls /\
    (forall c rest, bc_descs c = [] ->
      balloon_process_queue g idx (Ok tt) (Ok (chains ++ c :: rest)) notified = Ret (false, [], calls, g)).
Proof.
  intros Hi Hok Hn. exists (advised advice (pages_of g chains)).1. unfold balloon_process_queue. rewrite Hi. split_and!.
  - rewrite <- (app_nil_r chains) at 1. rewrite balloon_chains_ok by (done || lia). destruct (advised advice _) as [calls a]. cbn.
    rewrite !app_nil_r. by rewrite <- list_fmap_compose.
  - intros ->. injection Hi as <-. by rewrite advised_same.
  - intros ->. injection Hi as <-. apply advised_inflate.
  - apply pages_confined.
  - intros c rest Hc. rewrite balloon_chains_ok by (done || lia). destruct (advised advice _) as [calls a]. cbn. rewrite Hc. cbn. by rewrite app_nil_r.
Qed.

(** ** Reporting *)

(** The descriptors before the first one that is not of whole words. *)
Fixpoint whole_words (descs : list Descriptor) : list Descriptor :=
  match descs with
  | [] => []
  | d :: descs => if d_len d mod 4 =? 0 then d :: whole_words descs else []
  end.

Definition descs_len (descs : list Descriptor) : Z := foldr (fun d n => d_len d + n) 0 descs.

(** The call for a descriptor whose start lies in guest memory. *)
Definition reported g (d : Descriptor) : option BalloonCall :=
  match find_region g (d_addr d) with
  | Some r =>
      let ofs := d_addr d - rg_start r in
      Some (match rg_file r with
            | Some (fd, st) => Fallocate fd (st + ofs) (d_len d)
            | None => Madvise (default 0 (rg_host r) + ofs) (d_len d) MADV_DONTNEED
            end)
  | None => None
  end.

Lemma as_i64_small x : x < 2 ^ 63 -> as_i64 x = x.
Proof. intros. unfold as_i64. by rewrite (proj2 (Z.ltb_lt x (2 ^ 63))). Qed.

Lemma i64_ret x : - 2 ^ 63 <= x < 2 ^ 63 -> i64 x = Ret x.
Proof. intros [? ?]. unfold i64. by rewrite (proj2 (Z.leb_le _ _)), (proj2 (Z.ltb_lt _ _)). Qed.

Lemma report_call_ok g d r h :
  find_region g (d_addr d) = Some r -> rg_host r = Some h ->
  report_call r (h + (d_addr d - rg_start r)) (d_len d) = Ret (default (Fallocate 0 0 0) (reported g d)).
Proof.
  intros Hr Hh. unfold report_call, reported. rewrite Hr, Hh. cbn. destruct (region_low _ _ _ _ Hr Hh) as (Hz & Hlt & Hf).
  pose proof (region_holds _ _ _ Hr). destruct (rg_file r) as [[fd st]|]; [|done]. destruct (Hf fd st eq_refl) as [Hs Hsum].
  rewrite !as_i64_small by lia. cbn [unwrap obind default]. rewrite i64_ret by lia. cbn [obind]. rewrite i64_ret by lia. cbn. do 2 f_equal. lia.
Qed.

Lemma descs_len_nonneg descs : Forall desc_typed descs -> 0 <= descs_len descs.
Proof. unfold descs_len. induction 1 as [|d ds [_ ?] _ IH]; cbn; [done|]. ulia. Qed.

Lemma whole_typed descs : Forall desc_typed descs -> Forall desc_typed (whole_words descs).
Proof. induction 1; cbn; [constructor|]. case_match; by constructor. Qed.

Lemma report_descs_ok g descs len :
  Forall desc_typed descs -> 0 <= len <= u32_max ->
  report_descs g descs len =
    if len + descs_len (whole_words descs) <=? u32_max
    then Ret (len + descs_len (whole_words descs), omap (reported g) (whole_words descs)) else Panic.
Proof.
  intros Ht. revert len. induction Ht as [|d descs [Ha Hl] Ht IH]; intros len Hlen; cbn [report_descs whole_words].
  { unfold descs_len. cbn. rewrite Z.add_0_r. by rewrite (proj2 (Z.leb_le len u32_max)) by lia. }
  destruct (d_len d mod 4 =? 0) eqn:Em; cbn [negb].
  2:{ unfold descs_len. cbn. rewrite Z.add_0_r. by rewrite (proj2 (Z.leb_le len u32_max)) by lia. }
  pose proof (descs_len_nonneg _ (whole_typed _ Ht)) as Hp. unfold descs_len in *. cbn [foldr].
  destruct (decide (len + d_len d <= u32_max)) as [Hle|Hgt].
  2:{ unfold add_u, checked_add. rewrite (proj2 (Z.leb_gt (len + d_len d) u32_max)) by lia. cbn.
      by rewrite (proj2 (Z.leb_gt _ u32_max)) by lia. }
  rewrite add_u_ret by done. cbn [obind]. rewrite !Z.add_assoc.
  change (omap (reported g) (d :: whole_words descs)) with
    (match reported g d with Some y => y :: omap (reported g) (whole_words descs) | None => omap (reported g) (whole_words descs) end).
  destruct (find_region g (d_addr d)) as [r|] eqn:Hr.
  - destruct (region_host _ _ _ Hr) as (h & Hh & ->). rewrite (report_call_ok g d r h Hr Hh). cbn [obind].
    assert (Es : exists call, reported g d = Some call) by (unfold reported; rewrite Hr; by eexists).
    destruct Es as [call ->]. rewrite IH by ulia. by destruct (_ <=? u32_max).
  - assert (En : reported g d = None) by (unfold reported; by rewrite Hr). rewrite En. rewrite IH by ulia. done.
Qed.

Definition chain_len c : Z := descs_len (whole_words (bc_descs c)).

Lemma report_chains_ok g chains count :
  Forall (fun c => Forall desc_typed (bc_descs c)) chains -> count + Z.of_nat (length chains) <= BALLOON_QUEUE_SIZE ->
  report_chains g chains count =
    if forallb (fun c => chain_len c <=? u32_max) chains
    then Ret ((fun c => (bc_head c, chain_len c)) <$> chains, concat ((fun c => omap (reported g) (whole_words (bc_descs c))) <$> chains))
    else Panic.
Proof.
  intros Ht. revert count. induction Ht as [|c chains Hc _ IH]; intros count Hn; cbn [report_chains forallb fmap list_fmap concat length] in *; [done|].
  rewrite report_descs_ok by (done || ulia). rewrite Z.add_0_l. fold (chain_len c). destruct (chain_len c <=? u32_max); [|done]. cbn [obind andb].
  rewrite (proj2 (Z.leb_gt BALLOON_QUEUE_SIZE count)) by lia. rewrite IH by lia. by destruct (forallb _ chains).
Qed.

Lemma reported_within g d call : reported g d = Some call ->
  exists r, find_region g (d_addr d) = Some r /\ (within r call <-> d_addr d + d_len d <= rg_start r + rg_len r).
Proof.
  unfold reported. destruct (find_region g (d_addr d)) as [r|] eqn:Hr; [|done]. intros [= <-]. exists r. split; [done|].
  destruct (region_host _ _ _ Hr) as (h & Hh & _). pose proof (region_holds _ _ _ Hr). rewrite Hh. cbn.
  destruct (rg_file r) as [[fd st]|] eqn:Hf; cbn; split.
  - intros (st' & E & ? & ?). rewrite Hf in E. injection E as <-. lia.
  - intros ?. exists st. split; [done|]. lia.
  - intros (h' & E & ? & ?). rewrite Hh in E. injection E as <-. lia.
  - intros ?. exists h. split; [done|]. lia.
Qed.

(** Reporting free memory.  Of each chain the descriptors before the first one
    that is not of whole words count.  The host is told, in order, to drop the
    memory of those that start in guest memory, by a hole in the file behind it if
    there is one.  All chains are returned in order with the length of these
    descriptors, unless for one of them it exceeds 32 bits, which makes the handler
    panic.  The length is not compared with the region: what is dropped lies in the
    region exactly if the descriptor does, so a guest can name a descriptor that
    ends behind it. *)
Theorem balloon_reporting_correct g chains notified :
  Forall (fun c => Forall desc_typed (bc_descs c)) chains -> Z.of_nat (length chains) <= BALLOON_QUEUE_SIZE ->
  (Forall (fun c => chain_len c <= u32_max) chains ->
    process_reporting_queue g true (Ok tt) (Ok chains) notified =
      (let used := (fun c => (bc_head c, chain_len c)) <$> chains in
       let! (r, g') := return_used g used notified in
       Ret (r, used, concat ((fun c => omap (reported g) (whole_words (bc_descs c))) <$> chains), g'))) /\
  (~ Forall (fun c => chain_len c <= u32_max) chains ->
    process_reporting_queue g true (Ok tt) (Ok chains) notified = Panic) /\
  (forall d call, reported g d = Some call ->
    exists r, find_region g (d_addr d) = Some r /\ (within r call <-> d_addr d + d_len d <= rg_start r + rg_len r)).
Proof.
  intros Ht Hn. unfold process_reporting_queue. rewrite report_chains_ok by (done || lia).
  assert (Hb : forallb (fun c => chain_len c <=? u32_max) chains = true <-> Forall (fun c => chain_len c <= u32_max) chains).
  { rewrite <- Is_true_true, forallb_True, !Forall_forall. split; intros Hx c Hc; specialize (Hx c Hc); [by apply Is_true_true, Z.leb_le in Hx|by apply Is_true_true, Z.leb_le]. }
  split_and!.
  - intros Hf. by rewrite (proj2 Hb Hf).
  - intros Hf. destruct (forallb _ chains); [by destruct Hf; apply Hb|done].
  - apply reported_within.
Qed.
End Pages.

(** ** The device *)

(** The size of the balloon.  Below 16 TiB the size in MiB the host asks for is what
    the driver reads, in pages, and converts back; larger sizes are cut off, so 16
    TiB more is the same size.  What the driver wrote stays. *)
Theorem balloon_size_correct b size notified :
  0 <= size < 2 ^ 24 ->
  let '(r, b') := balloon_set_size b size notified in
  r = notified /\ num_pages (ba_config b') = 256 * size /\ page_number_to_mib (num_pages (ba_config b')) = size /\
  actual (ba_config b') = actual (ba_config b) /\
  balloon_read_config b' 0 [0; 0; 0; 0] = Ret (Ok tt, le_bytes 4 (256 * size)) /\
  (forall k, 0 <= k -> size + k * 2 ^ 24 < 2 ^ 44 -> balloon_set_size b (size + k * 2 ^ 24) notified = (r, b')).
Proof.
  intros Hs. assert (Hp : forall x, 0 <= x < 2 ^ 44 -> mib_to_page_number x = 256 * x).
  { intros x Hx. unfold mib_to_page_number, as_u64, PAGE_SHIFT. rewrite !Z.shiftl_mul_pow2, Z.shiftr_div_pow2 by lia.
    rewrite (Z.mod_small (x * 2 ^ 10)), Z.mod_small by lia. replace (x * 2 ^ 10 * 2 ^ 10) with (256 * x * 2 ^ 12) by lia. by apply Z.div_mul. }
  assert (Hw : forall k, 0 <= k -> size + k * 2 ^ 24 < 2 ^ 44 -> as_u32 (mib_to_page_number (size + k * 2 ^ 24)) = 256 * size).
  { intros k Hk Hlt. rewrite Hp by lia. unfold as_u32. replace (256 * (size + k * 2 ^ 24)) with (256 * size + k * 2 ^ 32) by lia.
    rewrite Z.mod_add by done. apply Z.mod_small. lia. }
  pose proof (Hw 0 ltac:(lia) ltac:(lia)) as H0. replace (size + 0 * 2 ^ 24) with size in H0 by lia.
  destruct b as [i c n s]. cbn -[mib_to_page_number page_number_to_mib Z.mul Z.pow]. rewrite H0. split_and!; try done.
  - unfold page_number_to_mib, as_u64, PAGE_SHIFT. rewrite Z.shiftl_mul_pow2, !Z.shiftr_div_pow2, Z.div_div by lia.
    rewrite Z.mod_small by lia. replace (256 * size * 2 ^ 12) with (size * (2 ^ 10 * 2 ^ 10)) by lia. by apply Z.div_mul.
  - intros k Hk Hlt. by rewrite Hw.
Qed.

(** Everything that happens to a device before its activation. *)
Inductive balloon_reach (cfg : BalloonConfig) : Balloon -> Prop :=
| br_new : balloon_reach cfg (Balloon_new cfg)
| br_size b size notified : balloon_reach cfg b -> balloon_reach cfg (balloon_set_size b size notified).2
| br_ack b page value : balloon_reach cfg b -> in_u32 value -> balloon_reach cfg (balloon_set_acked_features b page value)
| br_write b offset data r b' :
    balloon_reach cfg b -> balloon_write_config b offset data = Ret (r, b') -> balloon_reach cfg b'.

Definition info_ok (cfg : BalloonConfig) (i : VirtioDeviceInfo) : Prop :=
  avail_features i = avail_features (ba_device_info (Balloon_new cfg)) /\
  queue_sizes i = queue_sizes (ba_device_info (Balloon_new cfg)) /\
  Z.land (acked_features i) (avail_features i) = acked_features i.

Lemma balloon_reach_info cfg b : balloon_reach cfg b -> info_ok cfg (ba_device_info b).
Proof.
  induction 1 as [|b size notified _ IH|b page value _ IH Hv|b offset data r b' _ IH Hw].
  - unfold info_ok. by destruct cfg as [[] []].
  - by destruct b.
  - destruct b as [i c n s]. destruct IH as (Ea & Eq & El). unfold info_ok in *. cbn in *.
    assert (Hu : in_u64 (avail_features i)) by (rewrite Ea; destruct cfg as [[] []]; by vm_compute).
    rewrite set_acked_ok by done. cbn. split; [done|]. split; [done|]. rewrite Z.land_lor_distr_l, El. by rewrite <- Z.land_assoc, Z.land_diag.
  - unfold balloon_write_config in Hw. destruct (checked_add _ _ _); [case_hyp Hw; [destruct b; by injection Hw as _ <-|]|];
      bind_inv Hw; by injection Hw as _ <-.
Qed.

(** Without free page reporting its bit is never acknowledged. *)
Lemma reporting_bit cfg i :
  info_ok cfg i -> Z.land (acked_features i) (Z.shiftl 1 VIRTIO_BALLOON_F_REPORTING) <> 0 -> f_reporting cfg = true.
Proof.
  intros (Ea & _ & El) Hn. destruct (f_reporting cfg) eqn:Er; [done|]. destruct Hn. rewrite <- El, <- Z.land_assoc, Ea.
  replace (Z.land (avail_features (ba_device_info (Balloon_new cfg))) _) with 0; [apply Z.land_0_r|].
  destruct cfg as [[] []]; by vm_compute.
Qed.

(** Activation of the balloon.  It never panics: a device that is given another
    number of queues than it announced refuses, and otherwise the first two serve
    inflation and deflation, and a third one reporting exactly if the driver
    acknowledged it. *)
Theorem balloon_activation {Q} cfg b (config : VirtioDeviceConfig Q) id :
  balloon_reach cfg b ->
  exists r b', Balloon_activate b config id = Ret (r, b') /\
    match r with
    | Err e => e = InvalidParam /\ b' = b /\ length (dc_queues config) <> (if f_reporting cfg then 3 else 2)%nat
    | Ok h => ba_subscriber_id b' = Some id /\ ba_device_change_notifier b' = dc_device_change_notifier config /\
        Some (bl_inflate h) = dc_queues config !! 0%nat /\ Some (bl_deflate h) = dc_queues config !! 1%nat /\
        bl_reporting h = if Z.land (acked_features (ba_device_info b)) (Z.shiftl 1 VIRTIO_BALLOON_F_REPORTING) =? 0
          then None else dc_queues config !! 2%nat
    end.
Proof.
  intros Hr. pose proof (balloon_reach_info _ _ Hr) as Hi. destruct b as [i c n s]. cbn [ba_device_info] in *.
  pose proof (reporting_bit cfg i Hi) as Hb. destruct Hi as (_ & Hq & _). unfold Balloon_activate, check_queue_sizes.
  assert (Hlen : length (queue_sizes i) = (if f_reporting cfg then 3 else 2)%nat) by (rewrite Hq; by destruct cfg as [[] []]).
  rewrite Hlen. destruct (_ || _) eqn:Eo.
  - do 2 eexists. split; [done|]. split; [done|]. split; [done|]. intros E. rewrite E in Eo. by destruct (f_reporting cfg).
  - apply orb_false_iff in Eo as [_ Eo]. apply negb_false_iff, Nat.eqb_eq in Eo.
    destruct (dc_queues config) as [|q1 [|q2 qs]]; [by destruct (f_reporting cfg)..|]. cbn [remove_first obind].
    destruct (Z.eqb_spec (Z.land (acked_features i) (Z.shiftl 1 VIRTIO_BALLOON_F_REPORTING)) 0) as [E|E]; cbn [negb obind].
    + do 2 eexists. split; [done|]. by split_and!.
    + rewrite (Hb E) in Eo. destruct qs as [|q3 qs]; [done|]. cbn. do 2 eexists. split; [done|]. by split_and!.
Qed.

(** ** Witnesses

    A guest with two regions of two pages: anonymous memory, and memory with the
    file 7 behind it. *)

Definition anon_region : MemRegion := mkMemRegion 0 8192 (Some 0x100000) None.
Definition file_region : MemRegion := mkMemRegion 8192 8192 (Some 0x200000) (Some (7, 4096)).

#[local] Instance demo_mem : MemGuest bytes := {|
  read_slice m a n := if (0 <=? a) && (0 <=? n) && (a + n <=? Z.min (zlen m) (2 ^ 40)) then Some ((fun b => b mod 256) <$> ztake n (zdrop a m)) else None;
  write_slice m a bs := None;
|}.
#[local] Instance demo_regions : RegionMem bytes := {|
  find_region m a := if (0 <=? a) && (a <? 8192) then Some anon_region else if (8192 <=? a) && (a <? 16384) then Some file_region else None;
|}.
#[local] Instance demo_host : GuestMem bytes := {|
  checked_offset m a n := None;
  get_host_address m a := match find_region m a with Some r => Some (default 0 (rg_host r) + (a - rg_start r)) | None => None end;
  host_byte m a := 0;
|}.
#[local] Instance demo_used : BlkGuest bytes := {|
  address_in_range m a := true;
  queue_add_used m index len := Some m;
|}.

#[local] Instance demo_region_laws : RegionLaws bytes.
Proof.
  assert (Hr : forall (g : bytes) a r, find_region g a = Some r ->
    (r = anon_region /\ 0 <= a < 8192) \/ (r = file_region /\ 8192 <= a < 16384)).
  { intros g a r. cbn. destruct (Z.leb_spec 0 a), (Z.ltb_spec a 8192), (Z.leb_spec 8192 a), (Z.ltb_spec a 16384); cbn; intros [= <-]; auto. }
  split.
  - intros g a r Hf. destruct (Hr _ _ _ Hf) as [[-> ?]|[-> ?]]; cbn; lia.
  - intros g a r Hf. destruct (Hr _ _ _ Hf) as [[-> ?]|[-> ?]]; cbn [get_host_address demo_host]; rewrite Hf; by eexists.
  - intros g a r Hf. by destruct (Hr _ _ _ Hf) as [[-> ?]|[-> ?]].
  - intros g a r h Hf. destruct (Hr _ _ _ Hf) as [[-> ?]|[-> ?]]; intros [= <-]; (split; [done|]); (split; [done|]); [done|].
    by intros fd st [= <- <-].
  - intros g a bs. cbn [read_slice demo_mem]. destruct (_ && _) eqn:E; [|done]. intros [= <-]. bools.
    split_and!; [|apply Forall_fmap, Forall_true; intros b; cbn; pose proof (Z.mod_pos_bound b 256); ulia|ulia].
    unfold zlen. rewrite length_fmap. fold (zlen (ztake 4 (zdrop a g))). pose proof (zlen_zdrop a g). rewrite zlen_ztake by lia. lia.
Qed.

(** Four page frame numbers: pages of the first, of the second, again of the first
    region, and one outside of memory. *)
Definition balloon_list : bytes := le_bytes 4 1 ++ le_bytes 4 2 ++ le_bytes 4 0 ++ le_bytes 4 9.
Definition list_chain : BalloonChain := mkBalloonChain 3 [mkDescriptor 0 16 false].

Lemma list_chain_ok (c : BalloonChain) : c ∈ [list_chain] -> chain_ok c.
Proof. intros Hc. apply list_elem_of_singleton in Hc as ->. split; [|done]. repeat constructor; cbn; ulia. Qed.

Lemma balloon_pages_correct_witness :
  balloon_process_queue balloon_list INFLATE_QUEUE_AVAIL_EVENT (Ok tt) (Ok [list_chain]) (Ok tt) =
    Ret (true, [(3, 0)], [Madvise 0x101000 4096 MADV_DONTNEED; Madvise 0x200000 4096 MADV_REMOVE; Madvise 0x100000 4096 MADV_REMOVE], balloon_list) /\
  exists calls, Forall (confined balloon_list) calls /\
    balloon_process_queue balloon_list INFLATE_QUEUE_AVAIL_EVENT (Ok tt) (Ok [list_chain]) (Ok tt) = Ret (true, [(3, 0)], calls, balloon_list).
Proof.
  split; [by vm_compute|].
  destruct (balloon_pages_correct balloon_list INFLATE_QUEUE_AVAIL_EVENT MADV_DONTNEED [list_chain] (Ok tt) eq_refl) as (calls & E & _ & _ & Hc & _).
  - apply Forall_forall. apply list_chain_ok.
  - done.
  - exists calls. split; [exact Hc|]. rewrite E. reflexivity.
Defined.

(** A report of 8 KiB from the last page of the first region on. *)
Definition report_chain : BalloonChain := mkBalloonChain 5 [mkDescriptor 4096 8192 true].

Lemma balloon_reporting_correct_witness :
  process_reporting_queue balloon_list true (Ok tt) (Ok [report_chain]) (Ok tt) =
    Ret (true, [(5, 8192)], [Madvise 0x101000 8192 MADV_DONTNEED], balloon_list) /\
  ~ within anon_region (Madvise 0x101000 8192 MADV_DONTNEED).
Proof.
  destruct (balloon_reporting_correct balloon_list [report_chain] (Ok tt)) as (E & _ & Hw).
  - repeat constructor; cbn; ulia.
  - done.
  - split; [rewrite E; [reflexivity|repeat constructor; by vm_compute]|].
    destruct (Hw (mkDescriptor 4096 8192 true) (Madvise 0x101000 8192 MADV_DONTNEED) eq_refl) as (r & Hr & Hiff).
    injection Hr as <-. rewrite Hiff. cbn. lia.
Defined.
