(* ===== verification/MpTable.v ===== *)
(** The MP table a guest finds its processors and interrupts with
    (dbs_boot/src/x86_64/mptable.rs, with the structures of mpspec.rs).

    A structure is a record and its bytes; guest memory is the interface of
    vm-memory.  Filling memory from an endless reader of zeros writes zeros.
    A failed write may leave a part of its bytes behind; no theorem says anything
    of memory after it. *)

From S2P Require Import Prelude VsockStream VsockPacket VirtioMem Block.

Definition MPTABLE_START : Z := 0x9fc00.
Definition MAX_SUPPORTED_CPUS : Z := 254.
Definition SMP_MAGIC_IDENT : bytes := [95; 77; 80; 95].
Definition MPC_SIGNATURE : bytes := [80; 67; 77; 80].
Definition MPC_SPEC : Z := 4.
Definition MPC_OEM : bytes := [65; 76; 73; 67; 76; 79; 85; 68].
Definition MPC_PRODUCT_ID : bytes := [68; 82; 65; 71; 79; 78; 66; 65; 76; 76; 49; 48].
Definition BUS_TYPE_ISA : bytes := [73; 83; 65; 32; 32; 32].
Definition BUS_TYPE_PCI : bytes := [80; 67; 73; 32; 32; 32].
Definition IO_APIC_DEFAULT_PHYS_BASE : Z := 0xfec00000.
Definition APIC_DEFAULT_PHYS_BASE : Z := 0xfee00000.
Definition APIC_VERSION : Z := 0x14.
Definition CPU_STEPPING : Z := 0x600.
Definition CPU_FEATURE_APIC : Z := 0x200.
Definition CPU_FEATURE_FPU : Z := 0x001.
Definition BUS_ID_ISA : Z := 0.
Definition BUS_ID_PCI : Z := 1.

Definition MP_PROCESSOR : Z := 0.
Definition MP_BUS : Z := 1.
Definition MP_IOAPIC : Z := 2.
Definition MP_INTSRC : Z := 3.
Definition MP_LINTSRC : Z := 4.
Definition CPU_ENABLED : Z := 1.
Definition CPU_BOOTPROCESSOR : Z := 2.
Definition MPC_APIC_USABLE : Z := 1.
Definition MP_IRQDIR_DEFAULT : Z := 0.
Definition mp_INT : Z := 0.
Definition mp_NMI : Z := 1.
Definition mp_ExtINT : Z := 3.

Inductive MpError : Type :=
| NotEnoughMemory
| AddressOverflow
| MpClear
| TooManyCpus
| TooManyBootCpus
| WriteMpfIntel
| WriteMpcCpu
| WriteMpcIoapic
| WriteMpcBus
| WriteMpcIntsrc
| WriteMpcLintsrc
| WriteMpcTable.

(** ** The structures of mpspec.rs *)

Record mpf_intel := mkMpfIntel {
  mpf_signature : bytes;
  mpf_physptr : Z;
  mpf_length : Z;
  mpf_specification : Z;
  mpf_checksum : Z;
}.
(** The five feature bytes are never set. *)
Definition mpf_bytes (m : mpf_intel) : bytes :=
  mpf_signature m ++ le_bytes 4 (mpf_physptr m) ++ [mpf_length m; mpf_specification m; mpf_checksum m] ++ [0; 0; 0; 0; 0].

Record mpc_table := mkMpcTable {
  mpc_signature : bytes;
  mpc_length : Z;
  mpc_spec : Z;
  mpc_checksum : Z;
  mpc_oem : bytes;
  mpc_productid : bytes;
  mpc_oemptr : Z;
  mpc_oemsize : Z;
  mpc_oemcount : Z;
  mpc_lapic : Z;
}.
Definition table_bytes (t : mpc_table) : bytes :=
  mpc_signature t ++ le_bytes 2 (mpc_length t) ++ [mpc_spec t; mpc_checksum t] ++ mpc_oem t ++ mpc_productid t ++
  le_bytes 4 (mpc_oemptr t) ++ le_bytes 2 (mpc_oemsize t) ++ le_bytes 2 (mpc_oemcount t) ++ le_bytes 4 (mpc_lapic t) ++ le_bytes 4 0.

Record mpc_cpu := mkMpcCpu {
  cpu_type : Z;
  cpu_apicid : Z;
  cpu_apicver : Z;
  cpu_cpuflag : Z;
  cpu_cpufeature : Z;
  cpu_featureflag : Z;
}.
Definition cpu_bytes (c : mpc_cpu) : bytes :=
  [cpu_type c; cpu_apicid c; cpu_apicver c; cpu_cpuflag c] ++ le_bytes 4 (cpu_cpufeature c) ++ le_bytes 4 (cpu_featureflag c) ++
  le_bytes 4 0 ++ le_bytes 4 0.

Record mpc_bus := mkMpcBus {
  bus_type : Z;
  bus_busid : Z;
  bus_bustype : bytes;
}.
Definition bus_bytes (b : mpc_bus) : bytes := [bus_type b; bus_busid b] ++ bus_bustype b.

Record mpc_ioapic := mkMpcIoapic {
  ioapic_type : Z;
  ioapic_apicid : Z;
  ioapic_apicver : Z;
  ioapic_flags : Z;
  ioapic_apicaddr : Z;
}.
Definition ioapic_bytes (i : mpc_ioapic) : bytes :=
  [ioapic_type i; ioapic_apicid i; ioapic_apicver i; ioapic_flags i] ++ le_bytes 4 (ioapic_apicaddr i).

(** [mpc_intsrc], and [mpc_lintsrc], whose destination fields have other names. *)
Record mpc_intsrc := mkMpcIntsrc {
  int_type : Z;
  int_irqtype : Z;
  int_irqflag : Z;
  int_srcbus : Z;
  int_srcbusirq : Z;
  int_dstapic : Z;
  int_dstirq : Z;
}.
Definition intsrc_bytes (i : mpc_intsrc) : bytes :=
  [int_type i; int_irqtype i] ++ le_bytes 2 (int_irqflag i) ++ [int_srcbus i; int_srcbusirq i; int_dstapic i; int_dstirq i].

(** ** Checksums *)

Definition compute_checksum (v_slice : bytes) : Z := foldl (fun checksum i => (checksum + i) mod 2 ^ 8) 0 v_slice.

(** [(!checksum).wrapping_add(1)]. *)
Definition negate_checksum (checksum : Z) : Z := (255 - checksum + 1) mod 2 ^ 8.

Definition mpf_intel_compute_checksum (v : mpf_intel) : Z :=
  negate_checksum ((compute_checksum (mpf_bytes v) - mpf_checksum v) mod 2 ^ 8).

Definition MPF_SIZE : Z := 16.
Definition TABLE_SIZE : Z := 44.
Definition compute_mp_size (num_cpus : Z) : Z := MPF_SIZE + TABLE_SIZE + 20 * num_cpus + 8 + 8 * 2 + 8 * 16 + 8 * 2.

(** ** The table *)

Definition cpu_entry (boot_cpus cpu_id : Z) : mpc_cpu :=
  let cpuflag := 0 in
  let cpuflag := if cpu_id <? boot_cpus then Z.lor cpuflag CPU_ENABLED else cpuflag in
  let cpuflag := if cpu_id =? 0 then Z.lor cpuflag CPU_BOOTPROCESSOR else cpuflag in
  mkMpcCpu MP_PROCESSOR cpu_id APIC_VERSION cpuflag CPU_STEPPING (Z.lor CPU_FEATURE_APIC CPU_FEATURE_FPU).

(** The interrupt [i]; number 2 has none. *)
Definition intsrc_entry (ioapicid : Z) (pci_legacy_irqs : option (gmap Z Z)) (i : Z) : option mpc_intsrc :=
  let e := mkMpcIntsrc MP_INTSRC mp_INT MP_IRQDIR_DEFAULT BUS_ID_ISA i ioapicid i in
  let e :=
    match pci_legacy_irqs with
    | Some irq_device =>
        match irq_device !! i with
        | Some device_id => mkMpcIntsrc MP_INTSRC mp_INT MP_IRQDIR_DEFAULT BUS_ID_PCI (Z.shiftl device_id 2 mod 2 ^ 8) ioapicid i
        | None => e
        end
    | None => e
    end in
  if i =? 0 then Some (mkMpcIntsrc (int_type e) (int_irqtype e) (int_irqflag e) (int_srcbus e) (int_srcbusirq e) (int_dstapic e) 2)
  else if i =? 2 then None
  else Some e.

Section Setup.
Context {G : Type} `{MemGuest G} `{BlkGuest G}.

(** Memory, the next address, and the sum of the entries so far. *)
Notation St := (G * Z * Z)%type.

(** Writing entries one after the other. *)
Fixpoint put_entries (e : MpError) (entries : list bytes) (st : St) : result unit MpError * St :=
  match entries with
  | [] => (Ok tt, st)
  | bs :: entries =>
      let '(mem, base_mp, checksum) := st in
      match write_slice mem base_mp bs with
      | None => (Err e, st)
      | Some mem => put_entries e entries (mem, base_mp + zlen bs, (checksum + compute_checksum bs) mod 2 ^ 8)
      end
  end.

Definition and_then (m : result unit MpError * St) (k : St -> result unit MpError * St) : result unit MpError * St :=
  match m with (Ok _, st) => k st | (Err e, st) => (Err e, st) end.

(** The entries behind the header of the table, in their order. *)
Definition put_table (boot_cpus max_cpus ioapicid : Z) (pci_legacy_irqs : option (gmap Z Z)) (st : St) : result unit MpError * St :=
  and_then (put_entries WriteMpcCpu ((fun id => cpu_bytes (cpu_entry boot_cpus id)) <$> seqZ 0 max_cpus) st) (fun st =>
  and_then (put_entries WriteMpcBus [bus_bytes (mkMpcBus MP_BUS BUS_ID_ISA BUS_TYPE_ISA)] st) (fun st =>
  and_then (put_entries WriteMpcBus [bus_bytes (mkMpcBus MP_BUS BUS_ID_PCI BUS_TYPE_PCI)] st) (fun st =>
  and_then (put_entries WriteMpcIoapic
    [ioapic_bytes (mkMpcIoapic MP_IOAPIC ioapicid APIC_VERSION MPC_APIC_USABLE IO_APIC_DEFAULT_PHYS_BASE)] st) (fun st =>
  and_then (put_entries WriteMpcIntsrc (intsrc_bytes <$> omap (intsrc_entry ioapicid pci_legacy_irqs) (seqZ 0 16)) st) (fun st =>
  and_then (put_entries WriteMpcLintsrc [intsrc_bytes (mkMpcIntsrc MP_LINTSRC mp_ExtINT MP_IRQDIR_DEFAULT 0 0 0 0)] st) (fun st =>
  put_entries WriteMpcLintsrc [intsrc_bytes (mkMpcIntsrc MP_LINTSRC mp_NMI MP_IRQDIR_DEFAULT 0 0 0xFF 1)] st)))))).

(** The floating pointer at [base_mp]. *)
Definition floating_pointer (base_mp : Z) : mpf_intel :=
  let m := mkMpfIntel SMP_MAGIC_IDENT (as_u32 (base_mp + MPF_SIZE)) 1 4 0 in
  mkMpfIntel (mpf_signature m) (mpf_physptr m) (mpf_length m) (mpf_specification m) (mpf_intel_compute_checksum m).

(** The header for entries that end at [table_end] and have the sum [checksum]. *)
Definition table_header (table_base table_end checksum : Z) : mpc_table :=
  let t := mkMpcTable MPC_SIGNATURE ((table_end - table_base) mod 2 ^ 16) MPC_SPEC 0 MPC_OEM MPC_PRODUCT_ID
    (as_u32 (table_end + TABLE_SIZE)) 0 0 APIC_DEFAULT_PHYS_BASE in
  mkMpcTable (mpc_signature t) (mpc_length t) (mpc_spec t) (negate_checksum ((checksum + compute_checksum (table_bytes t)) mod 2 ^ 8))
    (mpc_oem t) (mpc_productid t) (mpc_oemptr t) (mpc_oemsize t) (mpc_oemcount t) (mpc_lapic t).

Definition setup_mptable (mem : G) (boot_cpus max_cpus : Z) (pci_legacy_irqs : option (gmap Z Z)) :
  outcome (result unit MpError * G) :=
  if boot_cpus >? max_cpus then Ret (Err TooManyBootCpus, mem) else
  if max_cpus >? MAX_SUPPORTED_CPUS then Ret (Err TooManyCpus, mem) else
  let base_mp := MPTABLE_START in
  let mp_size := compute_mp_size max_cpus in
  let! ioapicid := add_u u8_max max_cpus 1 in
  match checked_add u64_max base_mp (mp_size - 1) with
  | None => Ret (Err AddressOverflow, mem)
  | Some end_mp =>
      if negb (address_in_range mem end_mp) then Ret (Err NotEnoughMemory, mem) else
      match write_slice mem base_mp (replicate (Z.to_nat mp_size) 0) with
      | None => Ret (Err MpClear, mem)
      | Some mem =>
          match write_slice mem base_mp (mpf_bytes (floating_pointer base_mp)) with
          | None => Ret (Err WriteMpfIntel, mem)
          | Some mem =>
              let table_base := base_mp + MPF_SIZE in
              match put_table boot_cpus max_cpus ioapicid pci_legacy_irqs (mem, table_base + TABLE_SIZE, 0) with
              | (Err e, (mem, _, _)) => Ret (Err e, mem)
              | (Ok _, (mem, table_end, checksum)) =>
                  match write_slice mem table_base (table_bytes (table_header table_base table_end checksum)) with
                  | None => Ret (Err WriteMpcTable, mem)
                  | Some mem => Ret (Ok tt, mem)
                  end
              end
          end
      end
  end.
End Setup.
