(* ===== verification/MpTableSpec.v ===== *)
(** Correctness of the MP table: what a guest finds in memory, and that its
    checksums hold. *)

From S2P Require Import Prelude VsockStream VsockPacket VirtioMem Block MpTable.

(** What vm-memory documents of guest memory: it maps some addresses to bytes;
    reads and writes succeed where all addresses are mapped, and writes change the
    bytes written and no other. *)
Class MemBytes (G : Type) `{MemGuest G} `{BlkGuest G} := {
  byte_at : G -> Z -> option Z;
  read_bytes g a n : 0 <= n -> read_slice g a n = mapM (byte_at g) (seqZ a n);
  write_mapped g a bs : (forall x, a <= x < a + zlen bs -> is_Some (byte_at g x)) -> is_Some (write_slice g a bs);
  write_unmapped g a bs x : byte_at g x = None -> a <= x < a + zlen bs -> write_slice g a bs = None;
  write_bytes g a bs g' x : write_slice g a bs = Some g' ->
    byte_at g' x = if decide (a <= x < a + zlen bs) then bs !! Z.to_nat (x - a) else byte_at g x;
  in_range_mapped g x : address_in_range g x = true <-> is_Some (byte_at g x);
}.

(** ** Sums *)

Definition byte_sum (bs : bytes) : Z := foldr Z.add 0 bs.

Lemma byte_sum_app bs bs' : byte_sum (bs ++ bs') = byte_sum bs + byte_sum bs'.
Proof. unfold byte_sum. induction bs as [|b bs IH]; simpl; lia. Qed.

Lemma checksum_sum bs : compute_checksum bs = byte_sum bs mod 2 ^ 8.
Proof.
  unfold compute_checksum. enough (E : forall c, foldl (fun checksum i => (checksum + i) mod 2 ^ 8) (c mod 2 ^ 8) bs = (c + byte_sum bs) mod 2 ^ 8).
  { exact (E 0). }
  induction bs as [|b bs IH]; intros c; unfold byte_sum in *; cbn [foldl foldr]; [by rewrite Z.add_0_r|].
  rewrite Zplus_mod_idemp_l, IH. f_equal. lia.
Qed.

Lemma negate_sum c : (c + negate_checksum (c mod 2 ^ 8)) mod 2 ^ 8 = 0.
Proof.
  unfold negate_checksum. rewrite Zplus_mod_idemp_r. pose proof (Z.div_mod c (2 ^ 8) ltac:(done)) as E.
  replace (c + (255 - c mod 2 ^ 8 + 1)) with ((c / 2 ^ 8 + 1) * 2 ^ 8) by lia. by apply Z.mod_mul.
Qed.

(** The checksum byte counts once. *)
Lemma mpf_sum s p l sp c : byte_sum (mpf_bytes (mkMpfIntel s p l sp c)) = byte_sum (mpf_bytes (mkMpfIntel s p l sp 0)) + c.
Proof.
  unfold mpf_bytes. cbn [mpf_signature mpf_physptr mpf_length mpf_specification mpf_checksum].
  rewrite !byte_sum_app. unfold byte_sum at 3 7. cbn [foldr]. lia.
Qed.

Lemma table_sum s l sp c o pr op os oc la :
  byte_sum (table_bytes (mkMpcTable s l sp c o pr op os oc la)) = byte_sum (table_bytes (mkMpcTable s l sp 0 o pr op os oc la)) + c.
Proof.
  unfold table_bytes. cbn [mpc_signature mpc_length mpc_spec mpc_checksum mpc_oem mpc_productid mpc_oemptr mpc_oemsize mpc_oemcount mpc_lapic].
  rewrite !byte_sum_app. unfold byte_sum at 3 13. cbn [foldr]. lia.
Qed.

Lemma floating_pointer_sum base : byte_sum (mpf_bytes (floating_pointer base)) mod 2 ^ 8 = 0.
Proof.
  unfold floating_pointer, mpf_intel_compute_checksum. cbn [mpf_signature mpf_physptr mpf_length mpf_specification mpf_checksum].
  rewrite mpf_sum, Z.sub_0_r, checksum_sum, Zmod_mod. apply negate_sum.
Qed.

Lemma table_header_sum base end_ c : (c + byte_sum (table_bytes (table_header base end_ (c mod 2 ^ 8)))) mod 2 ^ 8 = 0.
Proof.
  unfold table_header. cbn [mpc_signature mpc_length mpc_spec mpc_checksum mpc_oem mpc_productid mpc_oemptr mpc_oemsize mpc_oemcount mpc_lapic].
  rewrite table_sum, checksum_sum, <- Zplus_mod, Z.add_assoc. apply negate_sum.
Qed.

(** ** Memory *)

(** [f] with the bytes [bs] from [a] on. *)
Definition overlay (f : Z -> option Z) (a : Z) (bs : bytes) (x : Z) : option Z :=
  if decide (a <= x < a + zlen bs) then bs !! Z.to_nat (x - a) else f x.

Lemma overlay_in f a bs x : a <= x < a + zlen bs -> overlay f a bs x = bs !! Z.to_nat (x - a).
Proof. intros. unfold overlay. by rewrite decide_True. Qed.

Lemma overlay_out f a bs x : ~ (a <= x < a + zlen bs) -> overlay f a bs x = f x.
Proof. intros. unfold overlay. by rewrite decide_False. Qed.

Lemma overlay_ext f f' a bs x : f x = f' x -> overlay f a bs x = overlay f' a bs x.
Proof. intros E. unfold overlay. by rewrite E. Qed.

Lemma overlay_nil f a x : overlay f a [] x = f x.
Proof. apply overlay_out. unfold zlen. simpl. lia. Qed.

Lemma overlay_app f a bs bs' x : overlay (overlay f a bs) (a + zlen bs) bs' x = overlay f a (bs ++ bs') x.
Proof.
  pose proof (zlen_nonneg bs). pose proof (zlen_nonneg bs'). unfold overlay. rewrite zlen_app. unfold zlen in *.
  destruct (decide (a + Z.of_nat (length bs) <= x < _)) as [H1|H1].
  - rewrite decide_True by lia. rewrite lookup_app_r by lia. f_equal. lia.
  - destruct (decide (a <= x < a + Z.of_nat (length bs))) as [H2|H2].
    + rewrite decide_True by lia. rewrite lookup_app_l by lia. done.
    + rewrite decide_False by lia. done.
Qed.

(** A later write before the last one. *)
Lemma overlay_before f a bs bs' b x : b = a + zlen bs -> overlay (overlay f b bs') a bs x = overlay f a (bs ++ bs') x.
Proof.
  intros ->. rewrite <- overlay_app. pose proof (zlen_nonneg bs). unfold overlay.
  repeat destruct (decide _); try done; lia.
Qed.

(** Writing over zeros. *)
Lemma overlay_zeros f a n k bs x :
  Z.of_nat n = zlen bs + Z.of_nat k -> overlay (overlay f a (replicate n 0)) a bs x = overlay f a (bs ++ replicate k 0) x.
Proof.
  intros Hn. pose proof (zlen_nonneg bs). assert (Lz : forall j, zlen (replicate j 0) = Z.of_nat j) by (intros j; unfold zlen; by rewrite length_replicate).
  unfold overlay. rewrite zlen_app, !Lz. destruct (decide (a <= x < a + zlen bs)) as [H1|H1].
  - rewrite decide_True by lia. rewrite lookup_app_l by (unfold zlen in *; lia). done.
  - destruct (decide (a <= x < a + Z.of_nat n)) as [H2|H2]; [|by rewrite decide_False by lia].
    rewrite decide_True by lia. unfold zlen in *. rewrite lookup_app_r by lia. rewrite !lookup_replicate_2 by lia. done.
Qed.

Section Memory.
Context {G : Type} `{MemBytes G}.
Implicit Types g : G.

Definition mapped g a n : Prop := forall x, a <= x < a + n -> is_Some (byte_at g x).

Lemma write_overlay g a bs : mapped g a (zlen bs) ->
  exists g', write_slice g a bs = Some g' /\ (forall x, byte_at g' x = overlay (byte_at g) a bs x) /\
    (forall x, is_Some (byte_at g x) -> is_Some (byte_at g' x)).
Proof.
  intros Hm. destruct (write_mapped g a bs Hm) as [g' E]. exists g'. split; [done|].
  assert (Ho : forall x, byte_at g' x = overlay (byte_at g) a bs x) by (intros x; by rewrite (write_bytes _ _ _ _ _ E)).
  split; [done|]. intros x Hx. rewrite Ho. unfold overlay. destruct (decide _); [|done]. apply lookup_lt_is_Some. unfold zlen in *. lia.
Qed.

Lemma overlay_mapped g a bs x : is_Some (byte_at g x) -> is_Some (overlay (byte_at g) a bs x).
Proof. intros Hx. unfold overlay. destruct (decide _); [|done]. apply lookup_lt_is_Some. unfold zlen in *. lia. Qed.

(** What was written is read. *)
Lemma read_overlay g f a bs : (forall x, byte_at g x = overlay f a bs x) -> read_slice g a (zlen bs) = Some bs.
Proof.
  intros Ho. rewrite read_bytes by apply zlen_nonneg. apply mapM_Some. apply Forall2_same_length_lookup_2.
  - rewrite length_seqZ. unfold zlen. lia.
  - intros i x b Hx Hb. apply lookup_seqZ in Hx as [-> Hi]. rewrite Ho, overlay_in by lia. rewrite <- Hb. f_equal. lia.
Qed.

(** ** Entries *)

(** [r] has put the entries [es] behind [a] and added them to the sum [c]. *)
Definition wrote g a c (es : list bytes) (r : result unit MpError * (G * Z * Z)) : Prop :=
  exists g', r = (Ok tt, (g', a + zlen (concat es), (c + byte_sum (concat es)) mod 2 ^ 8)) /\
    forall x, byte_at g' x = overlay (byte_at g) a (concat es) x.

Lemma put_entries_ok e es g a c : mapped g a (zlen (concat es)) -> wrote g a c es (put_entries e es (g, a, c mod 2 ^ 8)).
Proof.
  revert g a c. induction es as [|bs es IH]; intros g a c Hm; cbn [put_entries concat] in *.
  { exists g. split; [by rewrite !Z.add_0_r|]. intros x. by rewrite overlay_nil. }
  rewrite zlen_app in Hm. pose proof (zlen_nonneg (concat es)). pose proof (zlen_nonneg bs).
  destruct (write_overlay g a bs) as (g1 & -> & Ho & Hk); [intros x Hx; apply Hm; lia|].
  rewrite checksum_sum, <- Zplus_mod.
  destruct (IH g1 (a + zlen bs) (c + byte_sum bs)) as (g' & -> & Ho'); [intros x Hx; apply Hk, Hm; lia|].
  exists g'. cbn [concat]. split; [rewrite zlen_app, byte_sum_app; by rewrite !Z.add_assoc|]. intros x. rewrite Ho'.
  rewrite (overlay_ext _ (overlay (byte_at g) a bs)) by apply Ho. apply overlay_app.
Qed.

Lemma wrote_then g a c es es' m k :
  mapped g a (zlen (concat (es ++ es'))) -> wrote g a c es m ->
  (forall g1, mapped g1 (a + zlen (concat es)) (zlen (concat es')) ->
    wrote g1 (a + zlen (concat es)) (c + byte_sum (concat es)) es' (k (g1, a + zlen (concat es), (c + byte_sum (concat es)) mod 2 ^ 8))) ->
  wrote g a c (es ++ es') (and_then m k).
Proof.
  intros Hm (g1 & -> & Ho) Hk. rewrite concat_app, zlen_app in Hm. pose proof (zlen_nonneg (concat es)).
  destruct (Hk g1) as (g' & E & Ho').
  { intros x Hx. rewrite Ho. apply overlay_mapped, Hm. lia. }
  exists g'. cbn [and_then]. rewrite E, concat_app, zlen_app, byte_sum_app, !Z.add_assoc. split; [done|].
  intros x. rewrite Ho', (overlay_ext _ (overlay (byte_at g) a (concat es))) by apply Ho. apply overlay_app.
Qed.

Lemma put_then e es es' g a c k :
  mapped g a (zlen (concat (es ++ es'))) ->
  (forall g1, mapped g1 (a + zlen (concat es)) (zlen (concat es')) ->
    wrote g1 (a + zlen (concat es)) (c + byte_sum (concat es)) es' (k (g1, a + zlen (concat es), (c + byte_sum (concat es)) mod 2 ^ 8))) ->
  wrote g a c (es ++ es') (and_then (put_entries e es (g, a, c mod 2 ^ 8)) k).
Proof.
  intros Hm Hk. apply wrote_then; [done| |done]. apply put_entries_ok. intros x Hx. apply Hm.
  rewrite concat_app, zlen_app. pose proof (zlen_nonneg (concat es')). lia.
Qed.

(** The entries of the table: processors, buses, the IO-APIC, the interrupts and
    the local ones. *)
Definition mp_entries (boot_cpus max_cpus ioapicid : Z) (pci : option (gmap Z Z)) : list bytes :=
  ((fun id => cpu_bytes (cpu_entry boot_cpus id)) <$> seqZ 0 max_cpus) ++
  [bus_bytes (mkMpcBus MP_BUS BUS_ID_ISA BUS_TYPE_ISA)] ++ [bus_bytes (mkMpcBus MP_BUS BUS_ID_PCI BUS_TYPE_PCI)] ++
  [ioapic_bytes (mkMpcIoapic MP_IOAPIC ioapicid APIC_VERSION MPC_APIC_USABLE IO_APIC_DEFAULT_PHYS_BASE)] ++
  (intsrc_bytes <$> omap (intsrc_entry ioapicid pci) (seqZ 0 16)) ++
  [intsrc_bytes (mkMpcIntsrc MP_LINTSRC mp_ExtINT MP_IRQDIR_DEFAULT 0 0 0 0)] ++
  [intsrc_bytes (mkMpcIntsrc MP_LINTSRC mp_NMI MP_IRQDIR_DEFAULT 0 0 0xFF 1)].

Lemma put_table_ok boot_cpus max_cpus ioapicid pci g a c :
  mapped g a (zlen (concat (mp_entries boot_cpus max_cpus ioapicid pci))) ->
  wrote g a c (mp_entries boot_cpus max_cpus ioapicid pci) (put_table boot_cpus max_cpus ioapicid pci (g, a, c mod 2 ^ 8)).
Proof.
  unfold put_table, mp_entries. intros Hm.
  do 6 (apply put_then; [done|clear Hm; clear g; intros g Hm]). by apply put_entries_ok.
Qed.

(** ** The whole table *)

Lemma uniform_len {A} (f : A -> bytes) n (l : list A) : (forall x, zlen (f x) = n) -> zlen (concat (f <$> l)) = n * Z.of_nat (length l).
Proof.
  intros Hf. induction l as [|x l IH]; [unfold zlen; simpl; lia|]. rewrite fmap_cons. cbn [concat length].
  rewrite zlen_app, Hf, IH. lia.
Qed.

Lemma entries_len boot_cpus max_cpus ioapicid pci : 0 <= max_cpus ->
  zlen (concat (mp_entries boot_cpus max_cpus ioapicid pci)) = 20 * max_cpus + 160.
Proof.
  intros Hm. unfold mp_entries. rewrite !concat_app, !zlen_app. rewrite (uniform_len _ 20) by done. rewrite (uniform_len _ 8) by done.
  rewrite length_seqZ. change (length (omap (intsrc_entry ioapicid pci) (seqZ 0 16))) with 15%nat. unfold zlen. cbn [concat app length bus_bytes]. simpl. lia.
Qed.

(** The header for the entries [body], and everything in memory. *)
Definition header_of (body : bytes) : mpc_table :=
  table_header (MPTABLE_START + MPF_SIZE) (MPTABLE_START + MPF_SIZE + TABLE_SIZE + zlen body) (byte_sum body mod 2 ^ 8).
Definition mp_image (body : bytes) : bytes :=
  mpf_bytes (floating_pointer MPTABLE_START) ++ table_bytes (header_of body) ++ body.

Lemma image_written g body :
  mapped g MPTABLE_START (MPF_SIZE + TABLE_SIZE + zlen body) ->
  exists g1, write_slice g MPTABLE_START (mpf_bytes (floating_pointer MPTABLE_START)) = Some g1 /\
  (forall x, is_Some (byte_at g x) -> is_Some (byte_at g1 x)) /\
  forall g2, (forall x, byte_at g2 x = overlay (byte_at g1) (MPTABLE_START + MPF_SIZE + TABLE_SIZE) body x) ->
  exists g3, write_slice g2 (MPTABLE_START + MPF_SIZE) (table_bytes (header_of body)) = Some g3 /\
    forall x, byte_at g3 x = overlay (byte_at g) MPTABLE_START (mp_image body) x.
Proof.
  intros Hm. pose proof (zlen_nonneg body). assert (L1 : zlen (mpf_bytes (floating_pointer MPTABLE_START)) = MPF_SIZE) by done.
  assert (L2 : zlen (table_bytes (header_of body)) = TABLE_SIZE) by done. unfold MPF_SIZE, TABLE_SIZE in *.
  destruct (write_overlay g MPTABLE_START (mpf_bytes (floating_pointer MPTABLE_START))) as (g1 & E1 & O1 & K1); [intros x Hx; apply Hm; lia|].
  exists g1. split; [done|]. split; [done|]. intros g2 O2.
  destruct (write_overlay g2 (MPTABLE_START + 16) (table_bytes (header_of body))) as (g3 & E3 & O3 & _).
  { intros x Hx. rewrite O2. apply overlay_mapped, K1, Hm. lia. }
  exists g3. split; [done|]. intros x. rewrite O3, (overlay_ext _ _ _ _ _ (O2 x)), overlay_before by lia.
  rewrite (overlay_ext _ _ _ _ _ (O1 x)). rewrite <- L1 at 1. apply overlay_app.
Qed.

Lemma setup_ok g boot_cpus max_cpus pci :
  0 <= max_cpus -> boot_cpus <= max_cpus <= 254 -> mapped g MPTABLE_START (compute_mp_size max_cpus) ->
  exists g', setup_mptable g boot_cpus max_cpus pci = Ret (Ok tt, g') /\
    forall x, byte_at g' x = overlay (byte_at g) MPTABLE_START (mp_image (concat (mp_entries boot_cpus max_cpus (max_cpus + 1) pci)) ++ replicate 8 0) x.
Proof.
  intros Hm0 Hb Hm. set (body := concat _). assert (Lb : zlen body = 20 * max_cpus + 160) by (by apply entries_len).
  unfold setup_mptable. rewrite Z.gtb_ltb, (proj2 (Z.ltb_ge _ _)) by lia. rewrite Z.gtb_ltb, (proj2 (Z.ltb_ge _ _)) by (unfold MAX_SUPPORTED_CPUS; lia).
  rewrite add_u_ret by (unfold u8_max; lia). cbn [obind]. assert (Ls : compute_mp_size max_cpus = 228 + 20 * max_cpus) by (unfold compute_mp_size, MPF_SIZE, TABLE_SIZE; lia).
  rewrite Ls in *. unfold checked_add. rewrite (proj2 (Z.leb_le _ _)) by (unfold MPTABLE_START; ulia).
  rewrite (proj2 (in_range_mapped g _)) by (apply Hm; unfold MPTABLE_START; lia). cbn [negb].
  set (zs := replicate (Z.to_nat (228 + 20 * max_cpus)) 0). assert (Lz : zlen zs = 228 + 20 * max_cpus) by (unfold zlen, zs; rewrite length_replicate; lia).
  destruct (write_overlay g MPTABLE_START zs) as (g0 & -> & O0 & K0); [by rewrite Lz|].
  destruct (image_written g0 body) as (g1 & -> & K1 & Hg1); [intros x Hx; apply K0, Hm; unfold MPF_SIZE, TABLE_SIZE in *; lia|].
  destruct (put_table_ok boot_cpus max_cpus (max_cpus + 1) pci g1 (MPTABLE_START + MPF_SIZE + TABLE_SIZE) 0) as (g2 & E2 & O2).
  { fold body. intros x Hx. apply K1, K0, Hm. unfold MPF_SIZE, TABLE_SIZE in *. lia. }
  change (0 mod 2 ^ 8) with 0 in E2. rewrite E2, Z.add_0_l. fold body. fold (header_of body). destruct (Hg1 g2 O2) as (g3 & -> & O3).
  exists g3. split; [done|]. intros x. rewrite O3, (overlay_ext _ _ _ _ _ (O0 x)). apply overlay_zeros.
  assert (Li : zlen (mp_image body) = 60 + zlen body) by (unfold mp_image; rewrite !zlen_app; change (zlen (mpf_bytes _)) with 16; change (zlen (table_bytes _)) with 44; lia).
  rewrite Li. lia.
Qed.

Lemma setup_fails g boot_cpus max_cpus pci :
  0 <= max_cpus ->
  ~ (boot_cpus <= max_cpus <= 254 /\ mapped g MPTABLE_START (compute_mp_size max_cpus)) ->
  exists e g', setup_mptable g boot_cpus max_cpus pci = Ret (Err e, g').
Proof.
  intros Hm0 Hn. unfold setup_mptable. rewrite Z.gtb_ltb. destruct (Z.ltb_spec max_cpus boot_cpus); [by do 2 eexists|].
  rewrite Z.gtb_ltb. unfold MAX_SUPPORTED_CPUS. destruct (Z.ltb_spec 254 max_cpus); [by do 2 eexists|].
  rewrite add_u_ret by (unfold u8_max; lia). cbn [obind]. assert (Ls : compute_mp_size max_cpus = 228 + 20 * max_cpus) by (unfold compute_mp_size, MPF_SIZE, TABLE_SIZE; lia).
  rewrite Ls in *. unfold checked_add. rewrite (proj2 (Z.leb_le _ _)) by (unfold MPTABLE_START; ulia).
  destruct (address_in_range g _); cbn [negb]; [|by do 2 eexists].
  assert (Hex : exists x, MPTABLE_START <= x < MPTABLE_START + (228 + 20 * max_cpus) /\ byte_at g x = None).
  { destruct (decide (Forall (fun x => is_Some (byte_at g x)) (seqZ MPTABLE_START (228 + 20 * max_cpus)))) as [Hf|Hf].
    - destruct Hn. split; [done|]. intros x Hx. rewrite Forall_forall in Hf. apply Hf, elem_of_seqZ. lia.
    - apply not_Forall_Exists, Exists_exists in Hf as (x & Hx%elem_of_seqZ & Hs); [|apply _]. exists x. split; [lia|]. by apply eq_None_not_Some. }
  destruct Hex as (x & Hx & Hnone). rewrite (write_unmapped g MPTABLE_START _ x Hnone); [by do 2 eexists|].
  unfold zlen. rewrite length_replicate. lia.
Qed.

(** C34. The MP table.  For at most 254 processors, of which at most all start, and
    guest memory behind the whole table, the guest finds at 0x9fc00 a floating
    pointer to a table behind it, with an entry for every processor, the buses, the
    IO-APIC and 15 interrupts; the bytes of the pointer and those of the table sum up
    to 0, as its length says where it ends; the rest of the space is zero and no
    other byte of memory changes.  Processors are enabled exactly if they start at
    boot.  Otherwise there is an error. *)
Theorem mptable_correct g boot_cpus max_cpus pci :
  0 <= boot_cpus -> in_u8 max_cpus ->
  let body := concat (mp_entries boot_cpus max_cpus (max_cpus + 1) pci) in
  (boot_cpus <= max_cpus <= 254 -> mapped g MPTABLE_START (compute_mp_size max_cpus) ->
    exists g', setup_mptable g boot_cpus max_cpus pci = Ret (Ok tt, g') /\
      read_slice g' MPTABLE_START (compute_mp_size max_cpus) = Some (mp_image body ++ replicate 8 0) /\
      forall x, ~ (MPTABLE_START <= x < MPTABLE_START + compute_mp_size max_cpus) -> byte_at g' x = byte_at g x) /\
  (~ (boot_cpus <= max_cpus <= 254 /\ mapped g MPTABLE_START (compute_mp_size max_cpus)) ->
    exists e g', setup_mptable g boot_cpus max_cpus pci = Ret (Err e, g')) /\
  byte_sum (mpf_bytes (floating_pointer MPTABLE_START)) mod 2 ^ 8 = 0 /\
  byte_sum (table_bytes (header_of body) ++ body) mod 2 ^ 8 = 0 /\
  mpf_physptr (floating_pointer MPTABLE_START) = MPTABLE_START + MPF_SIZE /\
  mpc_length (header_of body) = zlen (table_bytes (header_of body) ++ body) /\
  (forall id, 0 <= id < max_cpus ->
    cpu_cpuflag (cpu_entry boot_cpus id) = (if id <? boot_cpus then CPU_ENABLED else 0) + (if id =? 0 then CPU_BOOTPROCESSOR else 0)).
Proof.
  intros Hb0 Hmax. cbv zeta. assert (Hm0 : 0 <= max_cpus) by ulia. set (body := concat _).
  assert (Lb : zlen body = 20 * max_cpus + 160) by (by apply entries_len). split_and!.
  - intros Hb Hm. destruct (setup_ok g boot_cpus max_cpus pci Hm0 Hb Hm) as (g' & E & O). fold body in O. exists g'. split; [done|].
    assert (Li : zlen (mp_image body ++ replicate 8 0) = compute_mp_size max_cpus).
    { unfold mp_image, compute_mp_size, MPF_SIZE, TABLE_SIZE. rewrite !zlen_app. change (zlen (mpf_bytes _)) with 16. change (zlen (table_bytes _)) with 44.
      change (zlen (replicate 8 0)) with 8. lia. }
    rewrite <- Li. split; [by eapply read_overlay|]. intros x Hx. by rewrite O, overlay_out.
  - by apply setup_fails.
  - apply floating_pointer_sum.
  - rewrite byte_sum_app, Z.add_comm. apply table_header_sum.
  - done.
  - rewrite zlen_app. change (zlen (table_bytes (header_of body))) with 44. unfold header_of, table_header. cbn [mpc_length].
    unfold MPF_SIZE, TABLE_SIZE. rewrite Z.mod_small; [lia|]. rewrite Lb. ulia.
  - intros id Hid. unfold cpu_entry. cbn [cpu_cpuflag]. by destruct (id <? boot_cpus), (id =? 0).
Qed.
End Memory.

(** ** Witness: memory as a function *)

Notation flat := (Z -> option Z).

#[export] Instance flat_guest : MemGuest flat := {|
  read_slice g a n := mapM g (seqZ a n);
  write_slice g a bs := if decide (Forall (fun x => is_Some (g x)) (seqZ a (zlen bs))) then Some (overlay g a bs) else None;
|}.
#[export] Instance flat_range : BlkGuest flat := {|
  address_in_range g x := bool_decide (is_Some (g x));
  queue_add_used g index len := Some g;
|}.
#[export, refine] Instance flat_bytes : MemBytes flat := {| byte_at g := g |}.
Proof.
  - done.
  - intros g a bs Hm. simpl. rewrite decide_True; [by eexists|]. apply Forall_forall. intros x Hx%elem_of_seqZ. by apply Hm.
  - intros g a bs x Hn Hx. simpl. rewrite decide_False; [done|]. rewrite Forall_forall. intros Hf.
    destruct (Hf x) as [b Hb]; [apply elem_of_seqZ; lia|congruence].
  - intros g a bs g' x. simpl. destruct (decide _); [|done]. by intros [= <-].
  - intros g x. simpl. by rewrite bool_decide_eq_true.
Defined.

(** One megabyte. *)
Definition small_guest : flat := fun x => if decide (0 <= x < 2 ^ 20) then Some 0 else None.

Lemma small_guest_mapped a n : 0 <= a -> a + n <= 2 ^ 20 -> mapped small_guest a n.
Proof. intros Ha Hn x Hx. simpl. unfold small_guest. rewrite decide_True by lia. by eexists. Qed.

Lemma mptable_correct_witness :
  exists g', setup_mptable small_guest 1 2 None = Ret (Ok tt, g') /\
    read_slice g' MPTABLE_START 268 = Some (mp_image (concat (mp_entries 1 2 3 None)) ++ replicate 8 0).
Proof.
  destruct (mptable_correct small_guest 1 2 None ltac:(done) ltac:(ulia)) as (Hs & _).
  destruct Hs as (g' & E & Hr & _); [done|apply small_guest_mapped; by vm_compute|]. exists g'. split; [exact E|exact Hr].
Defined.
