(* ===== verification/Boot.v ===== *)
(** What a virtual machine finds at its start: segments, page tables, local
    interrupts and the memory map (dbs_arch/src/x86_64/gdt.rs, regs.rs and
    interrupts.rs, dbs_boot/src/x86_64/mod.rs, configure_system of vm/x86_64.rs
    and configure of vcpu/x86_64.rs).

    Guest memory is the interface of vm-memory.  Writing the zero page is a call of
    the crate linux-loader, a parameter.  What KVM answers to a call on the file of a vCPU
    is a function of the calls before it, a parameter. *)

From S2P Require Import Prelude Resources AddressSpace ResourceManager VsockStream VsockPacket VirtioMem Block Balloon MpTable.

(** ** Segments (gdt.rs) *)

Definition gdt_entry (flags base limit : Z) : Z :=
  Z.lor (Z.lor (Z.lor (Z.lor
    (Z.shiftl (Z.land base 0xff000000) (56 - 24))
    (Z.shiftl (Z.land flags 0x0000f0ff) 40))
    (Z.shiftl (Z.land limit 0x000f0000) (48 - 16)))
    (Z.shiftl (Z.land base 0x00ffffff) 16))
    (Z.land limit 0x0000ffff).

Definition get_base (entry : Z) : Z :=
  Z.lor (Z.lor
    (Z.shiftr (Z.land entry 0xFF00000000000000) 32)
    (Z.shiftr (Z.land entry 0x000000FF00000000) 16))
    (Z.shiftr (Z.land entry 0x00000000FFFF0000) 16).

Definition get_limit (entry : Z) : Z :=
  as_u32 (Z.lor (Z.shiftr (Z.land entry 0x000F000000000000) 32) (Z.land entry 0x000000000000FFFF)).

Definition get_g (entry : Z) : Z := Z.shiftr (Z.land entry 0x0080000000000000) 55 mod 2 ^ 8.
Definition get_db (entry : Z) : Z := Z.shiftr (Z.land entry 0x0040000000000000) 54 mod 2 ^ 8.
Definition get_l (entry : Z) : Z := Z.shiftr (Z.land entry 0x0020000000000000) 53 mod 2 ^ 8.
Definition get_avl (entry : Z) : Z := Z.shiftr (Z.land entry 0x0010000000000000) 52 mod 2 ^ 8.
Definition get_p (entry : Z) : Z := Z.shiftr (Z.land entry 0x0000800000000000) 47 mod 2 ^ 8.
Definition get_dpl (entry : Z) : Z := Z.shiftr (Z.land entry 0x0000600000000000) 45 mod 2 ^ 8.
Definition get_s (entry : Z) : Z := Z.shiftr (Z.land entry 0x0000100000000000) 44 mod 2 ^ 8.
Definition get_type (entry : Z) : Z := Z.shiftr (Z.land entry 0x00000F0000000000) 40 mod 2 ^ 8.

Record kvm_segment := mkSegment {
  sg_base : Z;
  sg_limit : Z;
  sg_selector : Z;
  sg_type : Z;
  sg_present : Z;
  sg_dpl : Z;
  sg_db : Z;
  sg_s : Z;
  sg_l : Z;
  sg_g : Z;
  sg_avl : Z;
  sg_unusable : Z;
}.

Definition kvm_segment_from_gdt (entry table_index : Z) : outcome kvm_segment :=
  let! selector := mul_u u8_max table_index 8 in
  Ret (mkSegment (get_base entry) (get_limit entry) selector (get_type entry) (get_p entry) (get_dpl entry) (get_db entry)
    (get_s entry) (get_l entry) (get_g entry) (get_avl entry) (if get_p entry =? 0 then 1 else 0)).

(** ** Registers (regs.rs) *)

Definition EFER_LMA : Z := 0x400.
Definition EFER_LME : Z := 0x100.
Definition X86_CR0_PE : Z := 0x1.
Definition X86_CR0_PG : Z := 0x80000000.
Definition X86_CR4_PAE : Z := 0x20.

Inductive RegsError : Type :=
| GetStatusRegisters (e : Z)
| SetBaseRegisters (e : Z)
| SetFPURegisters (e : Z)
| SetModelSpecificRegisters (e : Z)
| SetModelSpecificRegistersCount
| SetStatusRegisters (e : Z)
| WriteGDT
| WriteIDT.

(** The part of [kvm_sregs] that is set. *)
Record kvm_sregs := mkSregs {
  sr_cs : kvm_segment;
  sr_ds : kvm_segment;
  sr_es : kvm_segment;
  sr_fs : kvm_segment;
  sr_gs : kvm_segment;
  sr_ss : kvm_segment;
  sr_tr : kvm_segment;
  sr_gdt_base : Z;
  sr_gdt_limit : Z;
  sr_idt_base : Z;
  sr_idt_limit : Z;
  sr_cr0 : Z;
  sr_cr3 : Z;
  sr_cr4 : Z;
  sr_efer : Z;
}.

Section Regs.
Context {G : Type} `{MemGuest G} `{GuestMem G}.

Fixpoint write_gdt_table (gdt_table : list Z) (gdt_addr : Z) (index : Z) (guest_mem : G) : result unit RegsError * G :=
  match gdt_table with
  | [] => (Ok tt, guest_mem)
  | entry :: gdt_table =>
      match checked_offset guest_mem gdt_addr (index * 8) with
      | None => (Err WriteGDT, guest_mem)
      | Some addr =>
          match write_slice guest_mem addr (le_bytes 8 entry) with
          | None => (Err WriteGDT, guest_mem)
          | Some guest_mem => write_gdt_table gdt_table gdt_addr (index + 1) guest_mem
          end
      end
  end.

Definition write_idt_value (idt_table idt_addr : Z) (guest_mem : G) : result G RegsError :=
  match write_slice guest_mem idt_addr (le_bytes 8 idt_table) with None => Err WriteIDT | Some guest_mem => Ok guest_mem end.

Definition configure_segments_and_sregs (mem : G) (sregs : kvm_sregs) (pgtable_addr : Z) (gdt_table : list Z) (gdt_addr idt_addr : Z) :
  outcome (result unit RegsError * kvm_sregs * G) :=
  match gdt_table with
  | _ :: e1 :: e2 :: e3 :: _ =>
      let! code_seg := kvm_segment_from_gdt e1 1 in
      let! data_seg := kvm_segment_from_gdt e2 2 in
      let! tss_seg := kvm_segment_from_gdt e3 3 in
      let '(mkSregs cs ds es fs gs ss tr gb gl ib il cr0 cr3 cr4 efer) := sregs in
      match write_gdt_table gdt_table gdt_addr 0 mem with
      | (Err e, mem) => Ret (Err e, sregs, mem)
      | (Ok _, mem) =>
          let! limit := sub_u ((8 * Z.of_nat (length gdt_table)) mod 2 ^ 16) 1 in
          let sregs := mkSregs cs ds es fs gs ss tr gdt_addr limit ib il cr0 cr3 cr4 efer in
          match write_idt_value 0 idt_addr mem with
          | Err e => Ret (Err e, sregs, mem)
          | Ok mem =>
              let cr0 := Z.lor (Z.lor cr0 X86_CR0_PE) X86_CR0_PG in
              Ret (Ok tt, mkSregs code_seg data_seg data_seg data_seg data_seg data_seg tss_seg gdt_addr limit idt_addr (8 - 1)
                cr0 pgtable_addr (Z.lor cr4 X86_CR4_PAE) (Z.lor efer (Z.lor EFER_LME EFER_LMA)), mem)
          end
      end
  | _ => Panic
  end.
End Regs.

(** ** Local interrupts (interrupts.rs) *)

Definition APIC_LVT0 : Z := 0x350.
Definition APIC_LVT1 : Z := 0x360.
Definition APIC_MODE_NMI : Z := 0x4.
Definition APIC_MODE_EXTINT : Z := 0x7.

(** The registers are a slice of bytes; a range outside of it panics. *)
Definition get_klapic_reg (klapic : bytes) (reg_offset : Z) : outcome Z :=
  if reg_offset + 4 <=? zlen klapic then Ret (field klapic reg_offset 4) else Panic.

Definition set_klapic_reg (klapic : bytes) (reg_offset value : Z) : outcome bytes :=
  if reg_offset + 4 <=? zlen klapic then Ret (ztake reg_offset klapic ++ le_bytes 4 value ++ zdrop (reg_offset + 4) klapic) else Panic.

Definition set_apic_delivery_mode (reg mode : Z) : Z := Z.lor (Z.land reg (Z.lxor u32_max 0x700)) (as_u32 (Z.shiftl mode 8)).

(** The new state of [set_lint]. *)
Definition lint_state (klapic : bytes) : outcome bytes :=
  let! lvt_lint0 := get_klapic_reg klapic APIC_LVT0 in
  let! klapic := set_klapic_reg klapic APIC_LVT0 (set_apic_delivery_mode lvt_lint0 APIC_MODE_EXTINT) in
  let! lvt_lint1 := get_klapic_reg klapic APIC_LVT1 in
  set_klapic_reg klapic APIC_LVT1 (set_apic_delivery_mode lvt_lint1 APIC_MODE_NMI).

(** ** The start of memory (dbs_boot/src/x86_64) *)

Definition BOOT_GDT_ADDRESS : Z := 0x500.
Definition BOOT_IDT_ADDRESS : Z := 0x520.
Definition ZERO_PAGE_START : Z := 0x7000.
Definition PML4_START : Z := 0x9000.
Definition PDPTE_START : Z := 0xa000.
Definition PDE_START : Z := 0xb000.
Definition HIMEM_START : Z := 0x00100000.
Definition EBDA_START : Z := 0x9fc00.
Definition E820_RAM : Z := 1.
Definition E820_MAX : nat := 128.

(** The errors of dbs_boot; the prefix is for those with a namesake in [SystemError]. *)
Inductive BootError : Type :=
| E820Configuration
| BootMpTableSetup (e : MpError)
| ZeroPagePastRamEnd
| BootZeroPageSetup
| InitrdAddress
| BootParamSetup
| BootAddressSpace
| WritePDPTEAddress
| WritePDEAddress
| WritePML4Address.

(** The errors of [configure_system]. *)
Inductive SystemError : Type :=
| MpTableSetup (e : MpError)
| BootSystem (e : BootError)
| NoAddressSpace
| ZeroPageSetup.

Definition boot_gdt_table : list Z :=
  [gdt_entry 0 0 0; gdt_entry 0xa09b 0 0xfffff; gdt_entry 0xc093 0 0xfffff; gdt_entry 0x808b 0 0xfffff].

(** [get_descriptor_config_info]. *)
Definition get_descriptor_config_info : list Z * Z * Z := (boot_gdt_table, BOOT_GDT_ADDRESS, BOOT_IDT_ADDRESS).

Section Boot.
Context {G : Type} `{MemGuest G}.

(** The loop over the entries of the page directory. *)
Fixpoint write_pdes (mem : G) (is_ : list Z) : option G :=
  match is_ with
  | [] => Some mem
  | i :: is_ =>
      match write_slice mem (PDE_START + i * 8) (le_bytes 8 (as_u64 (Z.shiftl i 21) + 0x83)) with
      | None => None
      | Some mem => write_pdes mem is_
      end
  end.

Definition setup_identity_mapping (mem : G) : result (Z * G) BootError :=
  match write_slice mem PML4_START (le_bytes 8 (Z.lor PDPTE_START 0x03)) with
  | None => Err WritePML4Address
  | Some mem =>
      match write_slice mem PDPTE_START (le_bytes 8 (Z.lor PDE_START 0x03)) with
      | None => Err WritePDPTEAddress
      | Some mem =>
          match write_pdes mem (seqZ 0 512) with
          | None => Err WritePDEAddress
          | Some mem => Ok (PML4_START, mem)
          end
      end
  end.

Definition initrd_load_addr `{RegionMem G} (guest_mem : G) (initrd_size : Z) : outcome (result Z BootError) :=
  match Balloon.find_region guest_mem 0 with
  | None => Ret (Err InitrdAddress)
  | Some r =>
      let lowmem_size := rg_len r in
      let! need := add_u u64_max initrd_size (Z.shiftl 32 20) in
      if lowmem_size <? need then Ret (Err InitrdAddress)
      else
        let! a := sub_u lowmem_size initrd_size in
        Ret (Ok (Z.land a (u64_not (4096 - 1))))
  end.

(** ** The memory map *)

Definition KERNEL_BOOT_FLAG_MAGIC : Z := 0xaa55.
Definition KERNEL_HDR_MAGIC : Z := 0x53726448.
Definition KERNEL_LOADER_OTHER : Z := 0xff.
Definition KERNEL_MIN_ALIGNMENT_BYTES : Z := 0x01000000.

(** The part of [setup_header] that is set. *)
Record setup_header := mkSetupHeader {
  hd_type_of_loader : Z;
  hd_boot_flag : Z;
  hd_header : Z;
  hd_cmd_line_ptr : Z;
  hd_cmdline_size : Z;
  hd_kernel_alignment : Z;
  hd_ramdisk_image : Z;
  hd_ramdisk_size : Z;
}.

(** Of [boot_params]; the table is the list of its used entries: address, size and
    type. *)
Record boot_params := mkBootParams {
  bp_hdr : setup_header;
  bp_e820_table : list (Z * Z * Z);
}.

Definition add_e820_entry (params : boot_params) (addr size mem_type : Z) : result boot_params BootError :=
  let '(mkBootParams h t) := params in
  if (E820_MAX <=? length t)%nat then Err E820Configuration
  else Ok (mkBootParams h (t ++ [(addr, size, mem_type)])).

(** The entries above the first megabyte, for memory that ends at [mem_end]. *)
Definition add_himem_entries (params : boot_params) (mem_end : Z) : outcome (result boot_params BootError) :=
  if mem_end <? MMIO_LOW_START then
    let! size := sub_u mem_end HIMEM_START in
    let! size := add_u u64_max size 1 in
    Ret (add_e820_entry params HIMEM_START size E820_RAM)
  else
    let! size := sub_u MMIO_LOW_START HIMEM_START in
    match add_e820_entry params HIMEM_START size E820_RAM with
    | Err e => Ret (Err e)
    | Ok params =>
        if mem_end >? MMIO_LOW_END then
          let! addr := add_u u64_max MMIO_LOW_END 1 in
          let! size := sub_u mem_end MMIO_LOW_END in
          Ret (add_e820_entry params addr size E820_RAM)
        else Ret (Ok params)
    end.

(** [configure_system]; [write_bootparams] puts the parameters at an address. *)
Definition configure_system `{BlkGuest G} {File} (write_bootparams : G -> boot_params -> Z -> option G) (guest_mem : G)
  (address_space : option (@AddressSpaceBase File)) (cmdline_addr cmdline_size : Z) (initrd : option (Z * Z)) (boot_cpus max_cpus : Z) :
  outcome (result unit SystemError * G) :=
  let! (r, guest_mem) := setup_mptable guest_mem boot_cpus max_cpus None in
  match r with
  | Err e => Ret (Err (MpTableSetup e), guest_mem)
  | Ok _ =>
      let '(ramdisk_image, ramdisk_size) := match initrd with Some (address, size) => (as_u32 address, as_u32 size) | None => (0, 0) end in
      let hdr := mkSetupHeader KERNEL_LOADER_OTHER KERNEL_BOOT_FLAG_MAGIC KERNEL_HDR_MAGIC (as_u32 cmdline_addr) (as_u32 cmdline_size)
        KERNEL_MIN_ALIGNMENT_BYTES ramdisk_image ramdisk_size in
      match add_e820_entry (mkBootParams hdr []) 0 EBDA_START E820_RAM with
      | Err e => Ret (Err (BootSystem e), guest_mem)
      | Ok params =>
          match address_space with
          | None => Ret (Err NoAddressSpace, guest_mem)
          | Some s =>
              let! mem_end := Base_last_addr s in
              let! r := add_himem_entries params mem_end in
              match r with
              | Err e => Ret (Err (BootSystem e), guest_mem)
              | Ok params =>
                  match write_bootparams guest_mem params ZERO_PAGE_START with
                  | None => Ret (Err ZeroPageSetup, guest_mem)
                  | Some guest_mem => Ret (Ok tt, guest_mem)
                  end
              end
          end
      end
  end.
End Boot.

(** ** Configuring a vCPU (vcpu/x86_64.rs) *)

Definition MSR_STAR : Z := 3221225601.
Definition MSR_LSTAR : Z := 3221225602.
Definition MSR_CSTAR : Z := 3221225603.
Definition MSR_SYSCALL_MASK : Z := 3221225604.
Definition MSR_KERNEL_GS_BASE : Z := 3221225730.
Definition MSR_IA32_SYSENTER_CS : Z := 372.
Definition MSR_IA32_SYSENTER_ESP : Z := 373.
Definition MSR_IA32_SYSENTER_EIP : Z := 374.
Definition MSR_IA32_TSC : Z := 16.
Definition MSR_IA32_MISC_ENABLE : Z := 416.
Definition MSR_IA32_MISC_ENABLE_FAST_STRING : Z := 1.

(** Index and data. *)
Definition create_msr_entries : list (Z * Z) :=
  [(MSR_IA32_SYSENTER_CS, 0); (MSR_IA32_SYSENTER_ESP, 0); (MSR_IA32_SYSENTER_EIP, 0); (MSR_STAR, 0); (MSR_CSTAR, 0);
   (MSR_KERNEL_GS_BASE, 0); (MSR_SYSCALL_MASK, 0); (MSR_LSTAR, 0); (MSR_IA32_TSC, 0);
   (MSR_IA32_MISC_ENABLE, MSR_IA32_MISC_ENABLE_FAST_STRING)].

(** The registers that are not zero. *)
Record kvm_regs := mkRegs {
  kr_rflags : Z;
  kr_rip : Z;
  kr_rsp : Z;
  kr_rbp : Z;
  kr_rsi : Z;
}.

(** The calls on the file of a vCPU that change it. *)
Inductive VcpuCall : Type :=
| SetMsrs (entries : list (Z * Z))
| SetRegs (regs : kvm_regs)
| SetFpu (fcw mxcsr : Z)
| SetSregs (sregs : kvm_sregs)
| SetLapic (klapic : bytes).

(** The answers, after the calls so far: a number or an error. *)
Record VcpuKvm := mkVcpuKvm {
  kvm_call : list VcpuCall -> VcpuCall -> result Z Z;
  get_sregs : list VcpuCall -> result kvm_sregs Z;
  get_lapic : list VcpuCall -> result bytes Z;
}.

Inductive LapicError : Type := GetLapic (e : Z) | SetLapicFailed (e : Z).

(** The errors of [configure] after CPUID. *)
Inductive VcpuError : Type :=
| MSRSConfiguration (e : RegsError)
| REGSConfiguration (e : RegsError)
| FPUConfiguration (e : RegsError)
| PageTable (e : BootError)
| SREGSConfiguration (e : RegsError)
| LocalIntConfiguration (e : LapicError).

Definition BOOT_STACK_POINTER : Z := 0x8ff0.

Section Configure.
Context {G : Type} `{MemGuest G} `{GuestMem G} (kvm : VcpuKvm).
Implicit Types h : list VcpuCall.

(** Makes a call whose answer is only success or an error. *)
Definition vcpu_set {E} (err : Z -> E) h (c : VcpuCall) : result unit E * list VcpuCall :=
  (match kvm_call kvm h c with Ok _ => Ok tt | Err e => Err (err e) end, h ++ [c]).

Definition setup_fpu h : result unit RegsError * list VcpuCall := vcpu_set SetFPURegisters h (SetFpu 0x37f 0x1f80).

(** Ten entries fit into [Msrs]. *)
Definition setup_msrs h : result unit RegsError * list VcpuCall :=
  let entry_vec := create_msr_entries in
  (match kvm_call kvm h (SetMsrs entry_vec) with
   | Err e => Err (SetModelSpecificRegisters e)
   | Ok msrs_written => if negb (as_u32 msrs_written =? Z.of_nat (length entry_vec)) then Err SetModelSpecificRegistersCount else Ok tt
   end, h ++ [SetMsrs entry_vec]).

Definition setup_regs h (boot_ip rsp rbp rsi : Z) : result unit RegsError * list VcpuCall :=
  vcpu_set SetBaseRegisters h (SetRegs (mkRegs 2 boot_ip rsp rbp rsi)).

Definition setup_sregs (mem : G) h (pgtable_addr : Z) (gdt_table : list Z) (gdt_addr idt_addr : Z) :
  outcome (result unit RegsError * G * list VcpuCall) :=
  match get_sregs kvm h with
  | Err e => Ret (Err (GetStatusRegisters e), mem, h)
  | Ok sregs =>
      let! (r, sregs, mem) := configure_segments_and_sregs mem sregs pgtable_addr gdt_table gdt_addr idt_addr in
      match r with
      | Err e => Ret (Err e, mem, h)
      | Ok _ => let '(r, h) := vcpu_set SetStatusRegisters h (SetSregs sregs) in Ret (r, mem, h)
      end
  end.

Definition set_lint h : outcome (result unit LapicError * list VcpuCall) :=
  match get_lapic kvm h with
  | Err e => Ret (Err (GetLapic e), h)
  | Ok klapic =>
      let! klapic := lint_state klapic in
      Ret (vcpu_set SetLapicFailed h (SetLapic klapic))
  end.

(** The part for a vCPU that starts the kernel at [start_addr]. *)
Definition configure_boot (mem : G) h (start_addr : Z) : outcome (result unit VcpuError * G * list VcpuCall) :=
  let '(r, h) := setup_regs h start_addr BOOT_STACK_POINTER BOOT_STACK_POINTER ZERO_PAGE_START in
  match r with
  | Err e => Ret (Err (REGSConfiguration e), mem, h)
  | Ok _ =>
      let '(r, h) := setup_fpu h in
      match r with
      | Err e => Ret (Err (FPUConfiguration e), mem, h)
      | Ok _ =>
          match setup_identity_mapping mem with
          | Err e => Ret (Err (PageTable e), mem, h)
          | Ok (pgtable_addr, mem) =>
              let! (r, mem, h) := setup_sregs mem h pgtable_addr boot_gdt_table BOOT_GDT_ADDRESS BOOT_IDT_ADDRESS in
              Ret (match r with Ok _ => Ok tt | Err e => Err (SREGSConfiguration e) end, mem, h)
          end
      end
  end.

(** [Vcpu::configure] after [set_cpuid]. *)
Definition configure (mem : G) h (kernel_start_addr : option Z) : outcome (result unit VcpuError * G * list VcpuCall) :=
  let '(r, h) := setup_msrs h in
  match r with
  | Err e => Ret (Err (MSRSConfiguration e), mem, h)
  | Ok _ =>
      let! (r, mem, h) := match kernel_start_addr with Some start_addr => configure_boot mem h start_addr | None => Ret (Ok tt, mem, h) end in
      match r with
      | Err e => Ret (Err e, mem, h)
      | Ok _ =>
          let! (r, h) := set_lint h in
          Ret (match r with Ok _ => Ok tt | Err e => Err (LocalIntConfiguration e) end, mem, h)
      end
  end.
End Configure.
