(* ===== verification/BootSpec.v ===== *)
(** Correctness of what a virtual machine starts with: segments, page tables, local
    interrupts and the place of the initial ramdisk. *)

From S2P Require Import Prelude Resources VsockStream VsockPacket VirtioMem Block Balloon AddressSpace ResourceManager MpTable MpTableSpec Boot.

(** Cases on the comparisons in the goal. *)
Ltac cmp_cases :=
  repeat match goal with
  | |- context [?x <? ?y] => destruct (Z.ltb_spec x y); try lia
  | |- context [?x <=? ?y] => destruct (Z.leb_spec x y); try lia
  end.

(** ... and what remains of a bit. *)
Ltac same_bit := rewrite ?andb_true_r, ?andb_false_r, ?orb_false_r, ?orb_false_l; try reflexivity; f_equal; lia.

(** ** Segment descriptors *)

(** [k] bits of [x] from bit [l] on. *)
Definition bits (x l k : Z) : Z := (x / 2 ^ l) mod 2 ^ k.

Lemma bits_spec x l k n : 0 <= l -> 0 <= k -> 0 <= n -> Z.testbit (bits x l k) n = (n <? k) && Z.testbit x (n + l).
Proof.
  intros Hl Hk Hn. unfold bits. destruct (Z.ltb_spec n k).
  - rewrite Z.mod_pow2_bits_low by lia. by rewrite Z.div_pow2_bits by lia.
  - by rewrite Z.mod_pow2_bits_high by lia.
Qed.

Lemma mask_spec x k l n : 0 <= k -> 0 <= l -> 0 <= n ->
  Z.testbit (Z.land x (Z.shiftl (Z.ones k) l)) n = Z.testbit x n && ((l <=? n) && (n <? l + k)).
Proof.
  intros Hk Hl Hn. rewrite Z.land_spec, Z.shiftl_spec by lia. f_equal. destruct (Z.leb_spec l n); cbn [andb].
  - rewrite Z.testbit_ones_nonneg by lia. destruct (Z.ltb_spec (n - l) k), (Z.ltb_spec n (l + k)); lia || done.
  - apply Z.testbit_neg_r. lia.
Qed.

(** The fields of an entry. *)
Lemma entry_bit f b lim n : 0 <= n ->
  Z.testbit (gdt_entry f b lim) n =
    if n <? 16 then Z.testbit lim n else if n <? 40 then Z.testbit b (n - 16) else if n <? 48 then Z.testbit f (n - 40)
    else if n <? 52 then Z.testbit lim (n - 32) else if n <? 56 then Z.testbit f (n - 40) else if n <? 64 then Z.testbit b (n - 32) else false.
Proof.
  intros Hn. unfold gdt_entry. rewrite !Z.lor_spec, !Z.shiftl_spec by lia.
  change 0xff000000 with (Z.shiftl (Z.ones 8) 24). change 0x000f0000 with (Z.shiftl (Z.ones 4) 16).
  change 0x00ffffff with (Z.shiftl (Z.ones 24) 0). change 0x0000ffff with (Z.shiftl (Z.ones 16) 0).
  change 0x0000f0ff with (Z.lor (Z.shiftl (Z.ones 8) 0) (Z.shiftl (Z.ones 4) 12)). rewrite Z.land_lor_distr_r, Z.lor_spec.
  assert (M : forall x k l i, 0 <= k -> 0 <= l -> Z.testbit (Z.land x (Z.shiftl (Z.ones k) l)) i = (if i <? 0 then false else Z.testbit x i && ((l <=? i) && (i <? l + k)))).
  { intros x k l i Hk Hl. destruct (Z.ltb_spec i 0); [by apply Z.testbit_neg_r|by apply mask_spec]. }
  rewrite !M by lia. clear M.
  cmp_cases.
  all: same_bit.
Qed.

Lemma field_bits e l k : 0 <= l -> 0 <= k <= 8 -> Z.shiftr (Z.land e (Z.shiftl (Z.ones k) l)) l mod 2 ^ 8 = bits e l k.
Proof.
  intros Hl Hk. apply Z.bits_inj'. intros n Hn. rewrite bits_spec by lia. destruct (Z.ltb_spec n 8).
  - rewrite Z.mod_pow2_bits_low, Z.shiftr_spec, mask_spec by lia. rewrite (proj2 (Z.leb_le _ _)) by lia.
    destruct (Z.ltb_spec n k), (Z.ltb_spec (n + l) (l + k)); try lia; by rewrite ?andb_true_r, ?andb_false_r.
  - rewrite Z.mod_pow2_bits_high by lia. by rewrite (proj2 (Z.ltb_ge _ _)) by lia.
Qed.

(** The flags of an entry. *)
Lemma entry_flags f b lim l k : 0 <= k -> 40 <= l /\ l + k <= 48 \/ 52 <= l /\ l + k <= 56 ->
  bits (gdt_entry f b lim) l k = bits f (l - 40) k.
Proof.
  intros Hk Hl. apply Z.bits_inj'. intros n Hn. rewrite !bits_spec by lia. destruct (Z.ltb_spec n k); [|done]. cbn [andb].
  rewrite entry_bit by lia. cmp_cases; f_equal; lia.
Qed.

Lemma small_bits x k n : 0 <= x < 2 ^ k -> k <= n -> Z.testbit x n = false.
Proof.
  intros Hx Hn. destruct (decide (0 <= k)); [|rewrite Z.pow_neg_r in Hx; lia].
  rewrite <- (Z.mod_small x (2 ^ k)) by lia. by apply Z.mod_pow2_bits_high.
Qed.

Lemma entry_base f b lim : 0 <= b < 2 ^ 32 -> get_base (gdt_entry f b lim) = b.
Proof.
  intros Hb. apply Z.bits_inj'. intros n Hn. unfold get_base. rewrite !Z.lor_spec, !Z.shiftr_spec by lia.
  change 0xFF00000000000000 with (Z.shiftl (Z.ones 8) 56). change 0x000000FF00000000 with (Z.shiftl (Z.ones 8) 32).
  change 0x00000000FFFF0000 with (Z.shiftl (Z.ones 16) 16). rewrite !mask_spec, !entry_bit by lia.
  destruct (Z.ltb_spec n 32); [|rewrite (small_bits b 32 n) by done].
  all: cmp_cases.
  all: same_bit.
Qed.

Lemma entry_limit f b lim : get_limit (gdt_entry f b lim) = lim mod 2 ^ 20.
Proof.
  apply Z.bits_inj'. intros n Hn. unfold get_limit, as_u32.
  change 0x000F000000000000 with (Z.shiftl (Z.ones 4) 48). change 0x000000000000FFFF with (Z.shiftl (Z.ones 16) 0).
  destruct (Z.ltb_spec n 20); [rewrite (Z.mod_pow2_bits_low _ 20) by lia|rewrite (Z.mod_pow2_bits_high _ 20) by lia].
  - rewrite Z.mod_pow2_bits_low by lia. rewrite Z.lor_spec, Z.shiftr_spec, !mask_spec, !entry_bit by lia.
    cmp_cases.
    all: same_bit.
  - destruct (Z.ltb_spec n 32); [|by rewrite Z.mod_pow2_bits_high by lia]. rewrite Z.mod_pow2_bits_low by lia.
    rewrite Z.lor_spec, Z.shiftr_spec, !mask_spec by lia.
    cmp_cases.
    all: by rewrite ?andb_false_r.
Qed.

(** The segment of an entry has the base, the limit and the flags the entry was made of;
    of the limit 20 bits count. *)
Lemma gdt_roundtrip f b lim i : 0 <= b < 2 ^ 32 -> 0 <= i <= 31 ->
  kvm_segment_from_gdt (gdt_entry f b lim) i =
    Ret (mkSegment b (lim mod 2 ^ 20) (i * 8) (bits f 0 4) (bits f 7 1) (bits f 5 2) (bits f 14 1) (bits f 4 1) (bits f 13 1)
      (bits f 15 1) (bits f 12 1) (if bits f 7 1 =? 0 then 1 else 0)).
Proof.
  intros Hb Hi. unfold kvm_segment_from_gdt, mul_u. rewrite (proj2 (Z.leb_le _ _)) by (unfold u8_max; lia). cbn [obind].
  unfold get_type, get_p, get_dpl, get_db, get_s, get_l, get_g, get_avl.
  change 0x0080000000000000 with (Z.shiftl (Z.ones 1) 55). change 0x0040000000000000 with (Z.shiftl (Z.ones 1) 54).
  change 0x0020000000000000 with (Z.shiftl (Z.ones 1) 53). change 0x0010000000000000 with (Z.shiftl (Z.ones 1) 52).
  change 0x0000800000000000 with (Z.shiftl (Z.ones 1) 47). change 0x0000600000000000 with (Z.shiftl (Z.ones 2) 45).
  change 0x0000100000000000 with (Z.shiftl (Z.ones 1) 44). change 0x00000F0000000000 with (Z.shiftl (Z.ones 4) 40).
  rewrite entry_base, entry_limit, !field_bits, !entry_flags by lia. done.
Qed.

(** ** Memory *)

(** [checked_offset] as vm-memory documents it: the sum, if it is an address of the guest. *)
Class OffsetLaws (G : Type) `{GuestMem G} `{BlkGuest G} : Prop :=
  checked_offset_spec (g : G) a n : checked_offset g a n = if (a + n <=? u64_max) && address_in_range g (a + n) then Some (a + n) else None.

Lemma mapM_same {A B} (f f' : A -> option B) l : (forall x, x ∈ l -> f x = f' x) -> mapM f l = mapM f' l.
Proof.
  intros Hf. induction l as [|x l IH]; [done|]. change (mapM f (x :: l)) with (y ← f x; ys ← mapM f l; mret (y :: ys)).
  change (mapM f' (x :: l)) with (y ← f' x; ys ← mapM f' l; mret (y :: ys)). rewrite Hf, IH by set_solver. done.
Qed.

Section Memory.
Context {G : Type} `{MemBytes G}.
Implicit Types g : G.

Definition read_u64 g a : option Z := of_le_bytes <$> read_slice g a 8.

Lemma read_same g g' a n : 0 <= n -> (forall x, a <= x < a + n -> byte_at g' x = byte_at g x) -> read_slice g' a n = read_slice g a n.
Proof.
  intros Hn Hx. rewrite !read_bytes by done. apply mapM_same. intros x Hin%elem_of_seqZ. by apply Hx.
Qed.

Lemma put_u64 g a v : in_u64 v -> mapped g a 8 ->
  exists g', write_slice g a (le_bytes 8 v) = Some g' /\ read_u64 g' a = Some v /\
    (forall x, ~ (a <= x < a + 8) -> byte_at g' x = byte_at g x) /\ (forall x, is_Some (byte_at g x) -> is_Some (byte_at g' x)).
Proof.
  intros Hv Hm. destruct (write_overlay g a (le_bytes 8 v)) as (g' & E & O & K); [done|]. exists g'. split; [done|]. split; [|split].
  - unfold read_u64. change 8 with (zlen (le_bytes 8 v)). rewrite (read_overlay g' _ _ _ O). cbn [fmap option_fmap option_map]. f_equal. apply of_le_le_bytes. ulia.
  - intros x Hx. rewrite O, overlay_out; done.
  - done.
Qed.

Lemma read_u64_same g g' a : (forall x, a <= x < a + 8 -> byte_at g' x = byte_at g x) -> read_u64 g' a = read_u64 g a.
Proof. intros Hx. unfold read_u64. by rewrite (read_same g g'). Qed.

(** ** The page tables *)

Definition pde (i : Z) : Z := i * 2 ^ 21 + 0x83.

Lemma write_pdes_ok l g :
  Forall (fun i => 0 <= i < 512) l -> NoDup l -> mapped g PDE_START 4096 ->
  exists g', write_pdes g l = Some g' /\ (forall i, i ∈ l -> read_u64 g' (PDE_START + 8 * i) = Some (pde i)) /\
    (forall x, (forall i, i ∈ l -> ~ (PDE_START + 8 * i <= x < PDE_START + 8 * i + 8)) -> byte_at g' x = byte_at g x) /\
    (forall x, is_Some (byte_at g x) -> is_Some (byte_at g' x)).
Proof.
  revert g. induction l as [|i l IH]; intros g Hl Hd Hm.
  { exists g. split_and!; try done. by intros i ?%elem_of_nil. }
  apply Forall_cons in Hl as [Hi Hl]. apply NoDup_cons in Hd as [Hni Hd]. cbn [write_pdes].
  replace (as_u64 (Z.shiftl i 21) + 0x83) with (pde i) by (unfold pde, as_u64; rewrite Z.shiftl_mul_pow2, Z.mod_small by lia; done).
  destruct (put_u64 g (PDE_START + i * 8) (pde i)) as (g1 & -> & R1 & S1 & K1); [unfold pde; ulia|intros x Hx; apply Hm; lia|].
  destruct (IH g1 Hl Hd) as (g' & -> & R' & S' & K'); [intros x Hx; by apply K1, Hm|]. exists g'. split; [done|]. split; [|split; [|by auto]].
  - intros j [->|Hj]%elem_of_cons; [|by apply R']. rewrite <- R1. replace (PDE_START + i * 8) with (PDE_START + 8 * i) by lia.
    apply read_u64_same. intros x Hx. apply S'. intros j Hj. assert (j <> i) by set_solver. lia.
  - intros x Hx. rewrite S' by (intros j Hj; apply Hx; set_solver). apply S1. specialize (Hx i ltac:(set_solver)). lia.
Qed.

(** The tables in memory: one entry in each of the upper ones, 512 in the last. *)
Definition identity_tables g : Prop :=
  read_u64 g PML4_START = Some 0xa003 /\ read_u64 g PDPTE_START = Some 0xb003 /\
  forall i, 0 <= i < 512 -> read_u64 g (PDE_START + 8 * i) = Some (pde i).

Lemma identity_mapping_ok g : mapped g PML4_START 0x3000 ->
  exists g', setup_identity_mapping g = Ok (PML4_START, g') /\ identity_tables g' /\
    (forall x, ~ (PML4_START <= x < PML4_START + 0x3000) -> byte_at g' x = byte_at g x) /\
    (forall x, is_Some (byte_at g x) -> is_Some (byte_at g' x)).
Proof.
  unfold setup_identity_mapping, identity_tables. intros Hm.
  destruct (put_u64 g PML4_START 0xa003) as (g1 & E1 & R1 & S1 & K1); [done|intros x Hx; apply Hm; lia|].
  destruct (put_u64 g1 PDPTE_START 0xb003) as (g2 & E2 & R2 & S2 & K2); [done|intros x Hx; apply K1, Hm; unfold PDPTE_START, PML4_START in *; lia|].
  destruct (write_pdes_ok (seqZ 0 512) g2) as (g3 & E3 & R3 & S3 & K3).
  { apply Forall_forall. intros i Hi%elem_of_seqZ. lia. } { apply NoDup_seqZ. }
  { intros x Hx. apply K2, K1, Hm. unfold PDE_START, PML4_START in *. lia. }
  change (Z.lor PDPTE_START 0x03) with 0xa003. change (Z.lor PDE_START 0x03) with 0xb003. rewrite E1, E2, E3. exists g3. split; [done|].
  assert (S3' : forall x, ~ (PDE_START <= x < PDE_START + 4096) -> byte_at g3 x = byte_at g2 x) by (intros x Hx; apply S3; intros i Hi%elem_of_seqZ; lia).
  unfold PML4_START, PDPTE_START, PDE_START in *. split_and!.
  - rewrite <- R1, (read_u64_same g2 g3), (read_u64_same g1 g2); [done| |]; intros x Hx; [apply S2|apply S3']; lia.
  - rewrite <- R2. apply read_u64_same. intros x Hx. apply S3'. lia.
  - intros i Hi. apply R3, elem_of_seqZ. lia.
  - intros x Hx. rewrite S3', S2, S1 by lia. done.
  - auto.
Qed.

(** How a processor translates a virtual address in long mode with 4 levels of tables: an
    entry has a present bit 0, a writable bit 1, and a bit 7 that makes it a page. *)
Definition entry_base_of (e : Z) : Z := bits e 12 40 * 2 ^ 12.
Definition usable (e : Z) : bool := Z.testbit e 0 && Z.testbit e 1.
Definition table_entry g (table i : Z) : option Z := e ← read_u64 g (table + 8 * i); if usable e then Some e else None.

Definition walk g (cr3 va : Z) : option Z :=
  pml4e ← table_entry g (entry_base_of cr3) (bits va 39 9);
  pdpte ← table_entry g (entry_base_of pml4e) (bits va 30 9);
  if Z.testbit pdpte 7 then Some (bits pdpte 30 22 * 2 ^ 30 + bits va 0 30)
  else
    pde ← table_entry g (entry_base_of pdpte) (bits va 21 9);
    if Z.testbit pde 7 then Some (bits pde 21 31 * 2 ^ 21 + bits va 0 21)
    else pte ← table_entry g (entry_base_of pde) (bits va 12 9); Some (entry_base_of pte + bits va 0 12).

Lemma pde_facts i : 0 <= i < 512 -> usable (pde i) = true /\ Z.testbit (pde i) 7 = true /\ bits (pde i) 21 31 = i.
Proof.
  intros Hi. assert (Hall : forallb (fun i => usable (pde i) && Z.testbit (pde i) 7 && (bits (pde i) 21 31 =? i)) (seqZ 0 512) = true) by (by vm_compute).
  rewrite forallb_forall in Hall. specialize (Hall i ltac:(apply list_elem_of_In, elem_of_seqZ; lia)). bools. by split_and!.
Qed.

Lemma walk_identity g va : identity_tables g -> 0 <= va < 2 ^ 30 -> walk g PML4_START va = Some va.
Proof.
  intros (R4 & R3 & R2) Hva. unfold walk, table_entry.
  assert (E39 : bits va 39 9 = 0) by (unfold bits; rewrite Z.div_small by lia; done).
  assert (E30 : bits va 30 9 = 0) by (unfold bits; rewrite Z.div_small by lia; done).
  assert (E21 : bits va 21 9 = va / 2 ^ 21) by (unfold bits; apply Z.mod_small; split; [apply Z.div_pos; lia|apply Z.div_lt_upper_bound; lia]).
  rewrite E39, E30, E21. change (entry_base_of PML4_START + 8 * 0) with PML4_START. rewrite R4. cbn [mbind option_bind].
  change (usable 0xa003) with true. cbn [mbind option_bind]. change (entry_base_of 0xa003 + 8 * 0) with PDPTE_START. rewrite R3. cbn [mbind option_bind].
  change (usable 0xb003) with true. cbn [mbind option_bind]. change (Z.testbit 0xb003 7) with false. cbv iota.
  change (entry_base_of 0xb003) with PDE_START. set (i := va / 2 ^ 21). assert (Hi : 0 <= i < 512) by (unfold i; split; [apply Z.div_pos; lia|apply Z.div_lt_upper_bound; lia]).
  rewrite R2 by done. cbn [mbind option_bind]. destruct (pde_facts i Hi) as (-> & E7 & Eb). cbn [mbind option_bind]. rewrite E7, Eb. f_equal.
  unfold bits, i. rewrite Z.div_1_r. rewrite Z.mul_comm. symmetry. by apply Z.div_mod.
Qed.

(** ** The descriptor tables *)

Context `{GuestMem G} `{!OffsetLaws G}.

Lemma write_gdt_ok t a k g :
  0 <= a -> 0 <= k -> Forall in_u64 t -> a + (k + Z.of_nat (length t)) * 8 <= u64_max -> mapped g (a + k * 8) (Z.of_nat (length t) * 8) ->
  exists g', write_gdt_table t a k g = (Ok tt, g') /\
    (forall j e, t !! j = Some e -> read_u64 g' (a + (k + Z.of_nat j) * 8) = Some e) /\
    (forall x, ~ (a + k * 8 <= x < a + (k + Z.of_nat (length t)) * 8) -> byte_at g' x = byte_at g x) /\
    (forall x, is_Some (byte_at g x) -> is_Some (byte_at g' x)).
Proof.
  intros Ha. revert k g. induction t as [|e t IH]; intros k g Hk Ht Hmax Hm; cbn [write_gdt_table]; cbn [length] in *.
  { exists g. by split_and!. }
  apply Forall_cons in Ht as [He Ht]. rewrite checked_offset_spec, (proj2 (Z.leb_le _ _)) by lia.
  rewrite (proj2 (in_range_mapped g _)) by (apply Hm; lia). cbn [andb].
  destruct (put_u64 g (a + k * 8) e) as (g1 & -> & R1 & S1 & K1); [done|intros x Hx; apply Hm; lia|].
  destruct (IH (k + 1) g1) as (g' & -> & R' & S' & K'); [lia|done|lia|intros x Hx; apply K1, Hm; lia|].
  exists g'. split; [done|]. split; [|split; [|by auto]].
  - intros [|j] e' Hj; cbn in Hj.
    + injection Hj as <-. rewrite <- R1. replace (a + (k + Z.of_nat 0) * 8) with (a + k * 8) by lia. apply read_u64_same. intros x Hx. apply S'. lia.
    + rewrite <- (R' j e' Hj). f_equal. lia.
  - intros x Hx. rewrite S', S1 by lia. done.
Qed.

Definition code64 : kvm_segment := mkSegment 0 0xfffff 8 0xb 1 0 0 1 1 1 0 0.
Definition data_flat : kvm_segment := mkSegment 0 0xfffff 16 0x3 1 0 1 1 0 1 0 0.
Definition tss_flat : kvm_segment := mkSegment 0 0xfffff 24 0xb 1 0 0 0 0 1 0 0.

(** Long mode with paging by the tables at [pgtable]: 64-bit code, and flat data. *)
Definition long_mode (s : kvm_sregs) (pgtable : Z) : Prop :=
  Z.testbit (sr_cr0 s) 0 = true /\ Z.testbit (sr_cr0 s) 31 = true /\ Z.testbit (sr_cr4 s) 5 = true /\
  Z.testbit (sr_efer s) 8 = true /\ Z.testbit (sr_efer s) 10 = true /\ sr_cr3 s = pgtable /\
  sr_cs s = code64 /\ Forall (eq data_flat) [sr_ds s; sr_es s; sr_fs s; sr_gs s; sr_ss s] /\ sr_tr s = tss_flat.

(** The descriptor table in memory gives the segments their values. *)
Definition descriptors g (s : kvm_sregs) : Prop :=
  sr_gdt_limit s = 31 /\
  Forall (fun sg => exists e, read_u64 g (sr_gdt_base s + sg_selector sg) = Some e /\ kvm_segment_from_gdt e (sg_selector sg / 8) = Ret sg)
    [sr_cs s; sr_ds s; sr_es s; sr_fs s; sr_gs s; sr_ss s; sr_tr s] /\
  sr_idt_limit s = 7 /\ read_u64 g (sr_idt_base s) = Some 0.

Lemma segments_ok g s pgtable : mapped g BOOT_GDT_ADDRESS 0x28 ->
  exists s' g', configure_segments_and_sregs g s pgtable boot_gdt_table BOOT_GDT_ADDRESS BOOT_IDT_ADDRESS = Ret (Ok tt, s', g') /\
    long_mode s' pgtable /\ descriptors g' s' /\
    (forall x, ~ (BOOT_GDT_ADDRESS <= x < BOOT_GDT_ADDRESS + 0x28) -> byte_at g' x = byte_at g x) /\
    (forall x, is_Some (byte_at g x) -> is_Some (byte_at g' x)).
Proof.
  intros Hm. unfold BOOT_GDT_ADDRESS, BOOT_IDT_ADDRESS in *.
  destruct (write_gdt_ok boot_gdt_table 0x500 0 g) as (g1 & E1 & R1 & S1 & K1); [done|done|by repeat constructor|done|intros x Hx; apply Hm; cbn in Hx; lia|].
  destruct (put_u64 g1 0x520 0) as (g2 & E2 & R2 & S2 & K2); [done|intros x Hx; apply K1, Hm; lia|].
  destruct s as [cs ds es fs gs ss tr gb gl ib il cr0 cr3 cr4 efer].
  assert (E : forall e1 e2 e3 rest c d t, boot_gdt_table = rest :: e1 :: e2 :: e3 :: [] ->
    kvm_segment_from_gdt e1 1 = Ret c -> kvm_segment_from_gdt e2 2 = Ret d -> kvm_segment_from_gdt e3 3 = Ret t ->
    configure_segments_and_sregs g (mkSregs cs ds es fs gs ss tr gb gl ib il cr0 cr3 cr4 efer) pgtable boot_gdt_table 0x500 0x520 =
    Ret (Ok tt, mkSregs c d d d d d t 0x500 31 0x520 7 (Z.lor (Z.lor cr0 X86_CR0_PE) X86_CR0_PG) pgtable (Z.lor cr4 X86_CR4_PAE) (Z.lor efer (Z.lor EFER_LME EFER_LMA)), g2)).
  { intros e1 e2 e3 rest c d t Et Ec Ed Ett. unfold configure_segments_and_sregs. rewrite Et in *. rewrite Ec, Ed, Ett. cbn [obind]. rewrite E1.
    change (sub_u _ 1) with (Ret 31). cbn [obind]. unfold write_idt_value. by rewrite E2. }
  do 2 eexists. split; [by apply (E (gdt_entry 0xa09b 0 0xfffff) (gdt_entry 0xc093 0 0xfffff) (gdt_entry 0x808b 0 0xfffff) (gdt_entry 0 0 0) code64 data_flat tss_flat)|].
  split_and!.
  - unfold long_mode. cbn [sr_cr0 sr_cr4 sr_efer sr_cr3 sr_cs sr_ds sr_es sr_fs sr_gs sr_ss sr_tr]. rewrite !Z.lor_spec, ?orb_true_r. split_and!; try done. by repeat constructor.
  - unfold descriptors. cbn [sr_gdt_limit sr_gdt_base sr_cs sr_ds sr_es sr_fs sr_gs sr_ss sr_tr sr_idt_limit sr_idt_base].
    assert (R : forall j e, boot_gdt_table !! j = Some e -> read_u64 g2 (0x500 + Z.of_nat j * 8) = Some e).
    { intros j e Hj. rewrite <- (R1 j e Hj). rewrite Z.add_0_l. apply read_u64_same. apply lookup_lt_Some in Hj. cbn in Hj. intros x Hx. apply S2. lia. }
    assert (Rc : read_u64 g2 (0x500 + 8) = Some (gdt_entry 0xa09b 0 0xfffff)) by (by apply (R 1%nat)).
    assert (Rd : read_u64 g2 (0x500 + 16) = Some (gdt_entry 0xc093 0 0xfffff)) by (by apply (R 2%nat)).
    assert (Rt : read_u64 g2 (0x500 + 24) = Some (gdt_entry 0x808b 0 0xfffff)) by (by apply (R 3%nat)).
    split; [done|]. split; [|done]. repeat constructor; eexists; (split; [eassumption|reflexivity]).
  - intros x Hx. rewrite S2, S1; [done|cbn|]; lia.
  - auto.
Qed.
End Memory.

(** ** Local interrupts *)

(** A local interrupt with the delivery mode [mode] and all else of [reg]. *)
Definition lint_mode (reg mode reg' : Z) : Prop :=
  bits reg' 8 3 = mode /\ forall n, 0 <= n -> ~ (8 <= n < 11) -> Z.testbit reg' n = Z.testbit reg n.

Lemma delivery_mode_ok reg mode : in_u32 reg -> 0 <= mode < 8 ->
  in_u32 (set_apic_delivery_mode reg mode) /\ lint_mode reg mode (set_apic_delivery_mode reg mode).
Proof.
  intros Hr Hm. assert (Hb : forall n, 0 <= n -> Z.testbit (set_apic_delivery_mode reg mode) n = if (8 <=? n) && (n <? 11) then Z.testbit mode (n - 8) else Z.testbit reg n).
  { intros n Hn. unfold set_apic_delivery_mode, as_u32. rewrite Z.lor_spec, Z.land_spec, Z.mod_small by (rewrite Z.shiftl_mul_pow2 by lia; lia).
    rewrite Z.lxor_spec. change u32_max with (Z.ones 32). rewrite Z.testbit_ones_nonneg, Z.shiftl_spec by lia.
    change 0x700 with (Z.shiftl (Z.ones 3) 8). rewrite <- (Z.land_m1_l (Z.shiftl _ 8)), mask_spec, Z.bits_m1 by lia.
    destruct (Z.leb_spec 8 n); cbn [andb].
    - destruct (Z.ltb_spec n 11), (Z.ltb_spec n (8 + 3)), (Z.ltb_spec n 32); try lia; cbn; rewrite ?andb_false_r, ?andb_true_r; try done.
      + by rewrite (small_bits mode 3) by lia; rewrite orb_false_r.
      + rewrite (small_bits mode 3), (small_bits reg 32) by ulia. done.
    - rewrite (proj2 (Z.ltb_lt n 32)) by lia. cbn. rewrite andb_true_r, (Z.testbit_neg_r mode) by lia. apply orb_false_r. }
  split; [|split].
  - set (x := set_apic_delivery_mode reg mode) in *. assert (E : x = x mod 2 ^ 32); [|rewrite E; pose proof (Z.mod_pos_bound x (2 ^ 32)); ulia].
    apply Z.bits_inj'. intros n Hn. destruct (Z.ltb_spec n 32); [by rewrite Z.mod_pow2_bits_low by lia|].
    rewrite Z.mod_pow2_bits_high, Hb by lia. rewrite (proj2 (Z.ltb_ge n 11)), andb_false_r by lia. apply (small_bits reg 32); ulia.
  - apply Z.bits_inj'. intros n Hn. rewrite bits_spec, Hb by lia. destruct (Z.ltb_spec n 3).
    + rewrite (proj2 (Z.leb_le _ _)), (proj2 (Z.ltb_lt _ _)) by lia. cbn [andb]. f_equal. lia.
    + symmetry. apply (small_bits mode 3); lia.
  - intros n Hn Ho. rewrite Hb by done. destruct (Z.leb_spec 8 n), (Z.ltb_spec n 11); cbn [andb]; try done; lia.
Qed.

Lemma set_reg_ok k off v : 0 <= off -> off + 4 <= zlen k -> in_u32 v ->
  exists k', set_klapic_reg k off v = Ret k' /\ zlen k' = zlen k /\ field k' off 4 = v /\
    forall i, ~ (off <= Z.of_nat i < off + 4) -> k' !! i = k !! i.
Proof.
  intros Ho Hk Hv. unfold set_klapic_reg. rewrite (proj2 (Z.leb_le _ _)) by lia. eexists. split; [done|].
  assert (L1 : zlen (ztake off k) = off) by (apply zlen_ztake; lia). split; [|split].
  - rewrite !zlen_app, L1, le_bytes_len, zlen_zdrop by lia. lia.
  - apply (field_at (ztake off k) 4 v); [done|done|ulia].
  - intros i Hi. unfold ztake, zdrop, zlen in *. destruct (decide (Z.of_nat i < off)).
    + rewrite lookup_app_l, lookup_take_lt by lia. done.
    + rewrite lookup_app_r by lia. pose proof (le_bytes_len 4 v) as L4. unfold zlen in L4. rewrite lookup_app_r by lia. rewrite lookup_drop. f_equal. lia.
Qed.

Lemma field_same (k k' : bytes) off n : 0 <= off -> 0 <= n -> (forall i, off <= Z.of_nat i < off + n -> k' !! i = k !! i) -> field k' off n = field k off n.
Proof.
  intros Ho Hn Hi. unfold field, ztake, zdrop. f_equal. apply list_eq. intros i. destruct (decide (i < Z.to_nat n)%nat).
  - rewrite !lookup_take_lt, !lookup_drop by lia. apply Hi. lia.
  - rewrite !lookup_take_ge by lia. done.
Qed.

(** The state of a local APIC after [set_lint]. *)
Definition lints_set (k k' : bytes) : Prop :=
  zlen k' = zlen k /\ lint_mode (field k APIC_LVT0 4) APIC_MODE_EXTINT (field k' APIC_LVT0 4) /\
  lint_mode (field k APIC_LVT1 4) APIC_MODE_NMI (field k' APIC_LVT1 4) /\
  forall i, ~ (APIC_LVT0 <= Z.of_nat i < APIC_LVT0 + 4) -> ~ (APIC_LVT1 <= Z.of_nat i < APIC_LVT1 + 4) -> k' !! i = k !! i.

Lemma lint_ok k : zlen k = 1024 -> Forall in_u8 k -> exists k', lint_state k = Ret k' /\ lints_set k k'.
Proof.
  intros Hk Hu. unfold lint_state, lints_set, APIC_LVT0, APIC_LVT1, get_klapic_reg. rewrite (proj2 (Z.leb_le _ _)) by lia. cbn [obind].
  pose proof (field_range k 0x350 4 Hu ltac:(lia)) as F0. pose proof (field_range k 0x360 4 Hu ltac:(lia)) as F1.
  destruct (delivery_mode_ok (field k 0x350 4) APIC_MODE_EXTINT) as [U0 M0]; [ulia|done|].
  destruct (set_reg_ok k 0x350 _ ltac:(lia) ltac:(lia) U0) as (k1 & -> & L1 & E1 & S1). cbn [obind].
  rewrite (proj2 (Z.leb_le _ _)) by lia. cbn [obind]. rewrite (field_same k k1 0x360) by (try lia; intros i Hi; apply S1; lia).
  destruct (delivery_mode_ok (field k 0x360 4) APIC_MODE_NMI) as [U1 M1]; [ulia|done|].
  destruct (set_reg_ok k1 0x360 _ ltac:(lia) ltac:(lia) U1) as (k2 & -> & L2 & E2 & S2). exists k2. split; [done|].
  rewrite (field_same k1 k2 0x350), E1, E2 by (try lia; intros i Hi; apply S2; lia). split_and!; try done; [lia|].
  intros i H0 H1. rewrite S2, S1 by lia. done.
Qed.

(** ** The initial ramdisk *)

(** The ramdisk is put on a page boundary, above the first 32 MiB, and within the first region;
    there is no place exactly if the region is less than 32 MiB larger. *)
Lemma initrd_placed {G} `{RegionMem G} (g : G) r n : Balloon.find_region g 0 = Some r -> in_u64 (rg_len r) -> 0 <= n -> n + 2 ^ 25 <= u64_max ->
  exists res, initrd_load_addr g n = Ret res /\
    match res with
    | Ok a => (2 ^ 12 | a) /\ 2 ^ 25 <= a /\ a + n <= rg_len r < a + n + 2 ^ 12
    | Err e => e = InitrdAddress /\ rg_len r < n + 2 ^ 25
    end.
Proof.
  intros Hr Hu Hn Hmax. unfold initrd_load_addr. rewrite Hr. change (Z.shiftl 32 20) with (2 ^ 25). rewrite add_u_ret by lia. cbn [obind].
  destruct (Z.ltb_spec (rg_len r) (n + 2 ^ 25)); [by eexists|]. rewrite sub_u_ret by lia. cbn [obind]. eexists. split; [done|]. cbv iota.
  change 4096 with (2 ^ 12). rewrite land_not_low by ulia. set (d := rg_len r - n). pose proof (Z.div_mod d (2 ^ 12) ltac:(done)) as Hd.
  pose proof (Z.mod_pos_bound d (2 ^ 12) ltac:(done)) as Hb. split; [apply Z.divide_factor_r|].
  assert (2 ^ 13 <= d / 2 ^ 12) by (apply Z.div_le_lower_bound; unfold d; lia). unfold d in *. lia.
Qed.

(** ** A vCPU *)

Section Vcpu.
Context {G : Type} `{MemBytes G} `{GuestMem G} `{!OffsetLaws G} (kvm : VcpuKvm).

(** The registers of a local APIC are an array of 1024 bytes. *)
Hypothesis lapic_typed : forall h k, get_lapic kvm h = Ok k -> zlen k = 1024 /\ Forall in_u8 k.

(** KVM refuses a call, or sets fewer registers than asked to. *)
Definition kvm_refuses : Prop :=
  (exists h c e, kvm_call kvm h c = Err e) \/ (exists h e, get_sregs kvm h = Err e) \/ (exists h e, get_lapic kvm h = Err e) \/
  (exists h n, kvm_call kvm h (SetMsrs create_msr_entries) = Ok n /\ as_u32 n <> 10).

Lemma call_refused h c e : kvm_call kvm h c = Err e -> kvm_refuses.
Proof. left. by eexists _, _, _. Qed.

Lemma set_lint_ok h : exists r h', set_lint kvm h = Ret (r, h') /\
  match r with Ok _ => exists k k', get_lapic kvm h = Ok k /\ h' = h ++ [SetLapic k'] /\ lints_set k k' | Err _ => kvm_refuses end.
Proof.
  unfold set_lint. destruct (get_lapic kvm h) as [k|e] eqn:E; [|do 2 eexists; split; [done|]; right; right; left; by do 2 eexists].
  destruct (lapic_typed h k E) as [Hk Hu]. destruct (lint_ok k Hk Hu) as (k' & -> & Hs). cbn [obind]. unfold vcpu_set. do 2 eexists. split; [done|].
  destruct (kvm_call kvm h _) eqn:Ec; [|by eapply call_refused]. by exists k, k'.
Qed.

(** The calls for the boot processor before its local interrupts are set. *)
Definition boot_calls (start_addr : Z) (s : kvm_sregs) : list VcpuCall :=
  [SetRegs (mkRegs 2 start_addr BOOT_STACK_POINTER BOOT_STACK_POINTER ZERO_PAGE_START); SetFpu 0x37f 0x1f80; SetSregs s].

(** Nothing else in memory changes. *)
Definition boot_frame (g g' : G) : Prop :=
  forall x, ~ (BOOT_GDT_ADDRESS <= x < BOOT_GDT_ADDRESS + 0x28) -> ~ (PML4_START <= x < PML4_START + 0x3000) -> byte_at g' x = byte_at g x.

Lemma identity_tables_frame g g' : (forall x, PML4_START <= x < PML4_START + 0x3000 -> byte_at g' x = byte_at g x) -> identity_tables g -> identity_tables g'.
Proof.
  unfold identity_tables, PML4_START, PDPTE_START, PDE_START. intros Hx (R4 & R3 & R2). split_and!; [..|intros i Hi; specialize (R2 i Hi)].
  all: rewrite <- ?R4, <- ?R3, <- ?R2; apply read_u64_same; intros x ?; apply Hx; lia.
Qed.

Lemma configure_boot_ok g h start_addr : mapped g BOOT_GDT_ADDRESS 0x28 -> mapped g PML4_START 0x3000 ->
  exists r g' h', configure_boot kvm g h start_addr = Ret (r, g', h') /\ boot_frame g g' /\
    match r with
    | Ok _ => exists s, h' = h ++ boot_calls start_addr s /\ long_mode s PML4_START /\ descriptors g' s /\ identity_tables g'
    | Err _ => kvm_refuses
    end.
Proof.
  intros Hm1 Hm2. unfold configure_boot, setup_regs, setup_fpu, vcpu_set.
  destruct (kvm_call kvm h _) eqn:Ec1; [|do 3 eexists; split; [reflexivity|]; split; [done|by eapply call_refused]].
  destruct (kvm_call kvm _ (SetFpu _ _)) eqn:Ec2; [|do 3 eexists; split; [reflexivity|]; split; [done|by eapply call_refused]].
  destruct (identity_mapping_ok g Hm2) as (g1 & -> & T1 & S1 & K1). unfold setup_sregs.
  destruct (get_sregs kvm _) as [s0|e] eqn:Es.
  2: { cbn [obind]. do 3 eexists. split; [reflexivity|]. split; [intros x _ Hx; by apply S1|]. right. left. by do 2 eexists. }
  destruct (segments_ok g1 s0 PML4_START) as (s & g2 & -> & Hl & Hd & S2 & _); [intros x Hx; by apply K1, Hm1|]. cbn [obind]. unfold vcpu_set.
  assert (Hf : boot_frame g g2) by (intros x Hx1 Hx2; rewrite S2, S1 by done; done). cbn [obind].
  do 3 eexists. split; [reflexivity|]. split; [done|]. destruct (kvm_call kvm _ (SetSregs _)) eqn:Ec3; [|by eapply call_refused].
  exists s. unfold boot_calls. rewrite <- !app_assoc. split_and!; try done. revert T1. apply identity_tables_frame.
  intros x Hx. apply S2. unfold PML4_START, BOOT_GDT_ADDRESS in *. lia.
Qed.

(** C30. The boot processor.  With guest memory behind its tables, [configure] only fails if KVM
    does.  When it succeeds the processor has been given the kernel's entry point with the
    zero page in rsi, and a state in long mode with flat 64-bit segments; these are the
    segments that the descriptor table in guest memory encodes; the page tables that cr3
    points to translate every address below 1 GiB to itself; the local interrupts of its APIC are ExtINT
    and NMI with all other bits kept.  Outside of the tables memory is unchanged. *)
Theorem vcpu_boot_ready g h start_addr : mapped g BOOT_GDT_ADDRESS 0x28 -> mapped g PML4_START 0x3000 ->
  exists r g' h', configure kvm g h (Some start_addr) = Ret (r, g', h') /\ boot_frame g g' /\
    match r with
    | Ok _ => exists s k k', h' = h ++ SetMsrs create_msr_entries :: boot_calls start_addr s ++ [SetLapic k'] /\
        long_mode s PML4_START /\ descriptors g' s /\ (forall va, 0 <= va < 2 ^ 30 -> walk g' (sr_cr3 s) va = Some va) /\
        get_lapic kvm (h ++ SetMsrs create_msr_entries :: boot_calls start_addr s) = Ok k /\ lints_set k k'
    | Err _ => kvm_refuses
    end.
Proof.
  intros Hm1 Hm2. unfold configure, setup_msrs. destruct (kvm_call kvm h _) as [n|e] eqn:Ec; [|do 3 eexists; split; [reflexivity|]; split; [done|by eapply call_refused]].
  destruct (Z.eqb_spec (as_u32 n) (Z.of_nat (length create_msr_entries))) as [En|En]; cbn [negb].
  2: { do 3 eexists. split; [reflexivity|]. split; [done|]. do 3 right. by do 2 eexists. }
  destruct (configure_boot_ok g (h ++ [SetMsrs create_msr_entries]) start_addr Hm1 Hm2) as (r & g' & h' & -> & Hf & Hr). cbn [obind].
  destruct r as [[]|e]; [|by exists (Err e), g', h']. destruct Hr as (s & -> & Hl & Hd & Ht).
  destruct (set_lint_ok ((h ++ [SetMsrs create_msr_entries]) ++ boot_calls start_addr s)) as (r & h' & -> & Hr). cbn [obind].
  do 3 eexists. split; [reflexivity|]. split; [done|]. destruct r as [[]|e]; [|done]. destruct Hr as (k & k' & Ek & -> & Hk).
  exists s, k, k'. rewrite <- !app_assoc in *. cbn [app] in *. split_and!; try done. intros va Hva.
  destruct Hl as (_ & _ & _ & _ & _ & -> & _). by apply walk_identity.
Qed.

(** Another processor only gets its registers and local interrupts; memory is not touched. *)
Lemma vcpu_ap_ready g h : exists r h', configure kvm g h None = Ret (r, g, h') /\
  match r with Ok _ => exists k k', h' = h ++ [SetMsrs create_msr_entries; SetLapic k'] /\ lints_set k k' | Err _ => kvm_refuses end.
Proof.
  unfold configure, setup_msrs. destruct (kvm_call kvm h _) as [n|e] eqn:Ec; [|do 2 eexists; split; [done|by eapply call_refused]].
  destruct (Z.eqb_spec (as_u32 n) (Z.of_nat (length create_msr_entries))) as [En|En]; cbn [negb obind].
  2: { do 2 eexists. split; [done|]. do 3 right. by do 2 eexists. }
  destruct (set_lint_ok (h ++ [SetMsrs create_msr_entries])) as (r & h' & -> & Hr). cbn [obind]. do 2 eexists. split; [reflexivity|].
  destruct r as [[]|e]; [|done]. destruct Hr as (k & k' & _ & -> & Hk). exists k, k'. by rewrite <- app_assoc.
Qed.
End Vcpu.

(** ** Witness *)

#[export] Instance flat_guest_mem : GuestMem (Z -> option Z) := {|
  checked_offset g a n := if (a + n <=? u64_max) && address_in_range g (a + n) then Some (a + n) else None;
  get_host_address g a := if address_in_range g a then Some a else None;
  host_byte g a := default 0 (g a);
|}.
#[export] Instance flat_offset : OffsetLaws (Z -> option Z).
Proof. done. Qed.

(** KVM that answers every call: ten registers are set, and the APIC is zero. *)
Definition zero_apic : bytes := replicate 1024 0.
Definition no_segment : kvm_segment := mkSegment 0 0 0 0 0 0 0 0 0 0 0 0.
Definition willing : VcpuKvm := mkVcpuKvm (fun _ _ => Ok 10)
  (fun _ => Ok (mkSregs no_segment no_segment no_segment no_segment no_segment no_segment no_segment 0 0 0 0 0x60000010 0 0 0))
  (fun _ => Ok zero_apic).

Lemma willing_typed h k : get_lapic willing h = Ok k -> zlen k = 1024 /\ Forall in_u8 k.
Proof.
  intros E. assert (k = zero_apic) as -> by (change (@Ok bytes Z zero_apic = Ok k) in E; congruence).
  split; [by vm_compute|]. unfold zero_apic. by apply Forall_replicate.
Qed.

Lemma willing_never_refuses : ~ kvm_refuses willing.
Proof. intros [(h & c & e & [=])|[(h & e & [=])|[(h & e & [=])|(h & n & E & Hn)]]]. injection E as <-. by apply Hn. Qed.

Lemma vcpu_boot_ready_witness :
  exists g' h', configure willing small_guest [] (Some 0x1000000) = Ret (Ok tt, g', h') /\
    exists s, long_mode s PML4_START /\ forall va, 0 <= va < 2 ^ 30 -> walk g' (sr_cr3 s) va = Some va.
Proof.
  destruct (vcpu_boot_ready willing willing_typed small_guest [] 0x1000000) as (r & g' & h' & E & _ & Hr); [by apply small_guest_mapped..|].
  destruct r as [[]|e]; [|by destruct (willing_never_refuses Hr)]. exists g', h'. split; [exact E|].
  destruct Hr as (s & k & k' & _ & Hl & _ & Hw & _). exists s. split; [exact Hl|exact Hw].
Defined.
