(* ===== verification/BootMap.v ===== *)
(** The memory map of configure_system lists the memory that the address space
    manager made: composition with [create_address_space]. *)

From stdpp Require Import sorting.
From S2P Require Import Prelude Resources VsockStream VsockPacket VirtioMem Block AddressSpace AddressSpaceSpec ResourceManager ResourceManagerSpec AddressSpaceMgr AddressSpaceMgrSpec MpTable MpTableSpec Boot.

(** ** The entries *)

Definition ram_at (table : list (Z * Z * Z)) (a : Z) : Prop :=
  exists addr size, (addr, size, E820_RAM) ∈ table /\ addr <= a < addr + size.

Definition in_hole (a : Z) : Prop := MMIO_LOW_START <= a <= MMIO_LOW_END.

(** Memory up to [top], without the hole below 4 GiB and without the 385 KiB below 1 MiB. *)
Definition listed (top a : Z) : Prop := 0 <= a <= top /\ ~ in_hole a /\ ~ (EBDA_START <= a < HIMEM_START).

Lemma ram_at_nil a : ram_at [] a <-> False.
Proof. unfold ram_at. setoid_rewrite elem_of_nil. naive_solver. Qed.

Lemma ram_at_cons addr size t a : ram_at ((addr, size, E820_RAM) :: t) a <-> addr <= a < addr + size \/ ram_at t a.
Proof. unfold ram_at. setoid_rewrite elem_of_cons. naive_solver. Qed.

(** Entries in ascending order that do not overlap. *)
Fixpoint e820_sorted (b : Z) (table : list (Z * Z * Z)) : Prop :=
  match table with
  | [] => True
  | (addr, size, _) :: table => b <= addr /\ 0 < size /\ e820_sorted (addr + size) table
  end.

Lemma himem_entries_ok h top : HIMEM_START <= top <= u64_max ->
  exists t, add_himem_entries (mkBootParams h [(0, EBDA_START, E820_RAM)]) top = Ret (Ok (mkBootParams h t)) /\
    e820_sorted 0 t /\ forall a, ram_at t a <-> listed top a.
Proof.
  intros Htop. pose proof mmio_low_window as (EL & EH & _). unfold add_himem_entries, listed, in_hole, HIMEM_START, EBDA_START in *.
  destruct (Z.ltb_spec top MMIO_LOW_START).
  - rewrite sub_u_ret by lia. cbn [obind]. rewrite add_u_ret by lia. cbn [obind]. eexists. split; [reflexivity|].
    split; [cbn; lia|]. intros a. cbn [app]. rewrite !ram_at_cons, ram_at_nil. lia.
  - rewrite sub_u_ret by lia. cbn [obind]. rewrite Z.gtb_ltb. cbn [add_e820_entry app length E820_MAX Nat.leb].
    destruct (Z.ltb_spec MMIO_LOW_END top).
    + rewrite add_u_ret by ulia. cbn [obind]. rewrite sub_u_ret by lia. cbn [obind]. eexists. split; [reflexivity|].
      split; [cbn; lia|]. intros a. cbn [app]. rewrite !ram_at_cons, ram_at_nil. lia.
    + eexists. split; [reflexivity|]. split; [cbn; lia|]. intros a. cbn [app]. rewrite !ram_at_cons, ram_at_nil. lia.
Qed.

(** Memory that ends below 1 MiB. *)
Lemma himem_entries_small h top : top < HIMEM_START ->
  add_himem_entries (mkBootParams h [(0, EBDA_START, E820_RAM)]) top = Panic.
Proof.
  intros Htop. pose proof mmio_low_window as (EL & EH & _). unfold add_himem_entries, HIMEM_START in *.
  rewrite (proj2 (Z.ltb_lt _ _)) by lia. unfold sub_u, checked_sub. by rewrite (proj2 (Z.leb_gt _ _)) by lia.
Qed.

(** ** The regions of one NUMA node *)

Section Map.
Context {File Errno Mmap GuestRegion VmMemory W : Type}.
Context (host : FileOps File Errno W) (ops : @MapOps File Errno Mmap GuestRegion VmMemory W).

(** The guest has memory at [a]. *)
Definition has_ram (s : AddressSpaceBase File) (a : Z) : Prop := exists r, r ∈ regions s /\ ty r <> DAXMemory /\ in_region a r.

Lemma create_region_result (m : @AddressSpaceMgr File VmMemory) start sz info param w r m' param' w' :
  create_region (Errno := Errno) host m start sz info param w = Ret (Ok r, m', param', w') ->
  base r = start /\ size r = sz /\ ty r = DefaultMemory.
Proof.
  unfold create_region. intros H. bind_inv H. destruct a as [path p1].
  destruct (create_default_memory_region _ _ _ _ _ _ _ _ _) as [[r1|e] w1] eqn:E; [|done]. injection H as <- <- <- <-.
  by apply default_region_ok in E.
Qed.

(** One node gets one region, or one on each side of the hole. *)
Lemma one_node_regions info (m : @AddressSpaceMgr File VmMemory) param w rs m' param' w' :
  info_ok info -> create_regions (Errno := Errno) host [info] GUEST_MEM_START [] m param w = Ret (Ok rs, m', param', w') ->
  Forall (fun r => ty r = DefaultMemory) rs /\
  (fun r => (base r, size r)) <$> rs =
    if bytes_of info <=? MMIO_LOW_START then [(0, bytes_of info)]
    else [(0, MMIO_LOW_START); (MMIO_LOW_END + 1, bytes_of info - MMIO_LOW_START)].
Proof.
  intros Hi H. pose proof mmio_low_window as (EL & EH & _). unfold GUEST_MEM_START in H. cbn [create_regions] in H.
  rewrite checked_shl_mib in H by done. rewrite Z.gtb_ltb, (proj2 (Z.ltb_ge _ _)) in H by lia. bind_inv H. bind_inv Ha.
  apply add_u_inv in Ha0 as [-> _]. injection Ha as <-. rewrite Z.add_0_l in H. destruct (Z.leb_spec (bytes_of info) MMIO_LOW_START).
  - bind_inv H. destruct a as [[[[r|e] m1] p1] w1]; [|done]. apply create_region_result in Ha as (Hb & Hs & Ht).
    case_hyp H; [|done]. injection H as <- <- <- <-. cbn. rewrite Hb, Hs. split; [by constructor|done].
  - unfold checked_sub at 1 in H. rewrite (proj2 (Z.leb_le _ _)), Z.sub_0_r in H by lia.
    assert (Hsp : (MMIO_LOW_START <? MINIMAL_SPLIT_SPACE) = false) by done. rewrite Hsp in H.
    bind_inv H. bind_inv Ha. destruct a0 as [[[[r1|e] m1] p1] w1]; injection Ha as <-; [|done].
    apply create_region_result in Ha0 as (Hb1 & Hs1 & Ht1). unfold checked_sub in H. rewrite (proj2 (Z.leb_le _ _)) in H by lia.
    bind_inv H. destruct a as [[[[r2|e] m2] p2] w2]; [|done]. apply create_region_result in Ha as (Hb2 & Hs2 & Ht2).
    case_hyp H; [|done]. injection H as <- <- <- <-. cbn. rewrite Hb1, Hs1, Hb2, Hs2. split; [by repeat constructor|done].
Qed.

(** The last address of one node's memory. *)
Definition node_top (info : NumaRegionInfo) : Z :=
  if bytes_of info <=? MMIO_LOW_START then bytes_of info - 1 else bytes_of info + (MMIO_LOW_END - MMIO_LOW_START).

(** What those regions hold. *)
Lemma node_regions_ram info rs :
  info_ok info -> Forall (fun r : AddressSpaceRegion File => ty r = DefaultMemory) rs ->
  (fun r => (base r, size r)) <$> rs =
    (if bytes_of info <=? MMIO_LOW_START then [(0, bytes_of info)]
     else [(0, MMIO_LOW_START); (MMIO_LOW_END + 1, bytes_of info - MMIO_LOW_START)]) ->
  Forall region_typed rs /\ 0 <= node_top info /\ Forall (fun r => region_end r - 1 <= node_top info) rs /\
  Exists (fun r => region_end r - 1 = node_top info) rs /\
  forall a, Exists (in_region a) rs <-> 0 <= a <= node_top info /\ ~ in_hole a.
Proof.
  intros [Hi1 Hi2] Hty Hrs. pose proof mmio_low_window as (EL & EH & _). unfold node_top, in_hole.
  assert (Hb : 0 < bytes_of info < 2 ^ 64) by (unfold bytes_of; change (2 ^ 64) with (2 ^ 44 * 2 ^ 20); nia).
  destruct (Z.leb_spec (bytes_of info) MMIO_LOW_START).
  - destruct rs as [|r1 [|? ?]]; [done| |done]. rewrite fmap_cons in Hrs. injection Hrs as Hb1 Hs1.
    unfold region_typed, region_end, in_region. setoid_rewrite Exists_cons. setoid_rewrite Exists_nil. rewrite !Forall_cons, !Forall_nil.
    unfold region_end. split_and!; ulia.
  - destruct rs as [|r1 [|r2 [|? ?]]]; [done|done| |done]. rewrite !fmap_cons in Hrs. injection Hrs as Hb1 Hs1 Hb2 Hs2.
    unfold region_typed, region_end, in_region. setoid_rewrite Exists_cons. setoid_rewrite Exists_cons. setoid_rewrite Exists_nil.
    rewrite !Forall_cons, !Forall_nil. unfold region_end. split_and!; ulia.
Qed.

Lemma one_node_space usable pe info m rm param w m' rm' w' :
  info_ok info -> create_address_space host ops usable pe m rm [info] param w = Ret (Ok tt, m', rm', w') ->
  exists s, m_address_space m' = Some s /\ Base_last_addr s = Ret (node_top info) /\ 0 <= node_top info <= u64_max /\
    forall a, has_ram s a <-> 0 <= a <= node_top info /\ ~ in_hole a.
Proof.
  intros Hi H. unfold create_address_space in H. bind_inv H. destruct a as [[[[rs|e] m1] p1] w1]; [|done].
  apply one_node_regions in Ha as [Hty Hrs]; [|done]. bind_inv H. destruct a as [[[[vm|e] m2] rm2] w2]; [|done]. bind_inv H.
  injection H as <- <- <-. cbn [m_address_space]. exists a. split; [done|].
  destruct (node_regions_ram info rs Hi Hty Hrs) as (Ht & Hn & Hub & Hex & Hram).
  apply from_regions_inv in Ha0 as (-> & Had & _); [|done]. rewrite <- (merge_sort_perm rs) in Ht, Had, Hub, Hex, Hty.
  setoid_rewrite <- (merge_sort_perm rs) in Hram. unfold Base_last_addr, has_ram. cbn [regions layout].
  assert (He : Forall (fun r => region_end r <= u64_max) (merge_sort base_le rs)) by (eapply Forall_impl; [exact Had|]; by intros r []).
  rewrite Forall_forall in Hub, Hty. apply Exists_exists in Hex as (r & Hr & Her).
  split; [|split].
  - destruct (last_addr_from_ok _ (mem_start (Layout_new usable pe GUEST_MEM_START (GUEST_MEM_END pe))) Ht He) as (x & -> & Hx0 & Hx & Hin).
    specialize (Hx r Hr ltac:(by rewrite (Hty r Hr))). destruct Hin as [Hin|(r' & Hr' & _ & Hin)].
    + cbn in Hin, Hx0. unfold GUEST_MEM_START in *. f_equal. lia.
    + specialize (Hub r' Hr'). f_equal. lia.
  - rewrite Forall_forall in He. specialize (He r Hr). lia.
  - intros a. rewrite <- Hram, Exists_exists. split; intros (r' & Hr' & Hin); exists r'; [tauto|by rewrite (Hty r' Hr')].
Qed.

(** ** The whole of configure_system *)

Context {G : Type} `{MemBytes G} (write_bootparams : G -> boot_params -> Z -> option G).

(** The fields of the header that describe the command line and the ramdisk. *)
Definition header_for (h : setup_header) (cmdline_addr cmdline_size : Z) (initrd : option (Z * Z)) : Prop :=
  hd_boot_flag h = KERNEL_BOOT_FLAG_MAGIC /\ hd_header h = KERNEL_HDR_MAGIC /\
  hd_cmd_line_ptr h = as_u32 cmdline_addr /\ hd_cmdline_size h = as_u32 cmdline_size /\
  (hd_ramdisk_image h, hd_ramdisk_size h) = match initrd with Some (a, n) => (as_u32 a, as_u32 n) | None => (0, 0) end.

Lemma configure_system_ok (g : G) (s : AddressSpaceBase File) top cmdline_addr cmdline_size initrd boot_cpus max_cpus :
  0 <= max_cpus -> boot_cpus <= max_cpus <= 254 -> mapped g MPTABLE_START (compute_mp_size max_cpus) ->
  Base_last_addr s = Ret top -> HIMEM_START <= top <= u64_max ->
  exists g1 h t, setup_mptable g boot_cpus max_cpus None = Ret (Ok tt, g1) /\
    configure_system write_bootparams g (Some s) cmdline_addr cmdline_size initrd boot_cpus max_cpus =
      Ret match write_bootparams g1 (mkBootParams h t) ZERO_PAGE_START with None => (Err ZeroPageSetup, g1) | Some g2 => (Ok tt, g2) end /\
    header_for h cmdline_addr cmdline_size initrd /\ e820_sorted 0 t /\ forall a, ram_at t a <-> listed top a.
Proof.
  intros Hm0 Hb Hm Hlast Htop. destruct (setup_ok g boot_cpus max_cpus None Hm0 Hb Hm) as (g1 & E & _).
  unfold configure_system. rewrite E. cbn [obind].
  destruct (match initrd with Some (address, size) => (as_u32 address, as_u32 size) | None => (0, 0) end) as [ri rsz] eqn:Er.
  cbn [add_e820_entry length app Nat.leb E820_MAX]. rewrite Hlast. cbn [obind]. set (h := mkSetupHeader _ _ _ _ _ _ _ _).
  destruct (himem_entries_ok h top Htop) as (t & -> & Hs & Hr). exists g1, h, t. split; [done|]. cbn [obind]. split.
  { by destruct (write_bootparams _ _ _). }
  split; [|done]. unfold header_for. by rewrite Er.
Qed.

(** C33. The memory map.  The address space that the manager creates for a node of at
    least 2 MiB and the map that [configure_system] hands to the guest agree: the
    guest is told of RAM at an address exactly if there is a region of memory there,
    the 385 KiB from 0x9fc00 to 1 MiB apart, which hold the MP table.  The entries are in
    ascending order and do not overlap.  The boot parameters with this map are written to the
    zero page after the MP table. *)
Theorem memory_map_correct usable pe info m rm param w m' rm' w' (g : G) cmdline_addr cmdline_size initrd boot_cpus max_cpus :
  info_ok info -> 2 <= nr_size info ->
  create_address_space host ops usable pe m rm [info] param w = Ret (Ok tt, m', rm', w') ->
  0 <= max_cpus -> boot_cpus <= max_cpus <= 254 -> mapped g MPTABLE_START (compute_mp_size max_cpus) ->
  exists s g1 h t, m_address_space m' = Some s /\ setup_mptable g boot_cpus max_cpus None = Ret (Ok tt, g1) /\
    configure_system write_bootparams g (m_address_space m') cmdline_addr cmdline_size initrd boot_cpus max_cpus =
      Ret match write_bootparams g1 (mkBootParams h t) ZERO_PAGE_START with None => (Err ZeroPageSetup, g1) | Some g2 => (Ok tt, g2) end /\
    header_for h cmdline_addr cmdline_size initrd /\ e820_sorted 0 t /\
    forall a, ram_at t a <-> has_ram s a /\ ~ (EBDA_START <= a < HIMEM_START).
Proof.
  intros Hi Hsz Hc Hm0 Hb Hm. destruct (one_node_space _ _ _ _ _ _ _ _ _ _ Hi Hc) as (s & Es & Hlast & Hn & Hram).
  assert (Htop : HIMEM_START <= node_top info <= u64_max).
  { pose proof mmio_low_window as (EL & EH & _). unfold node_top, bytes_of, HIMEM_START in *. destruct (Z.leb_spec (nr_size info * 2 ^ 20) MMIO_LOW_START); lia. }
  destruct (configure_system_ok g s _ cmdline_addr cmdline_size initrd boot_cpus max_cpus Hm0 Hb Hm Hlast Htop) as (g1 & h & t & E1 & E2 & Hh & Hs & Hr).
  exists s, g1, h, t. rewrite Es. split_and!; try done. intros a. rewrite Hr, Hram. unfold listed. tauto.
Qed.
End Map.

Definition one_node : NumaRegionInfo := mkNumaRegion 4096 None (Some 0) [0].
Definition one_node_mgr := match create_address_space ok_host ok_ops 0 ex_phys_end Mgr_default ex_rm [one_node] ex_builder tt with
  | Ret (Ok _, m, rm, _) => (m, rm)
  | _ => (Mgr_default, ex_rm)
  end.

Lemma memory_map_correct_witness :
  exists (s : AddressSpaceBase unit) (g1 : flat) h t, m_address_space (fst one_node_mgr) = Some s /\
    configure_system (fun g _ _ => Some g) small_guest (Some s) 0x20000 10 None 1 2 = Ret (Ok tt, g1) /\
    header_for h 0x20000 10 None /\ forall a, ram_at t a <-> has_ram s a /\ ~ (EBDA_START <= a < HIMEM_START).
Proof.
  destruct (memory_map_correct ok_host ok_ops (fun (g : flat) _ _ => Some g) 0 ex_phys_end one_node Mgr_default ex_rm ex_builder tt (fst one_node_mgr) (snd one_node_mgr) tt small_guest 0x20000 10 None 1 2)
    as (s & g1 & h & t & Es & _ & E & Hh & _ & Hr); [by vm_compute..|by apply small_guest_mapped|].
  exists s, g1, h, t. rewrite Es in E. done.
Defined.

(** ** At the edges *)

(** A guest with 1 MiB of memory: the difference underflows. *)
Lemma one_mib_panics h : add_himem_entries (mkBootParams h [(0, EBDA_START, E820_RAM)]) (2 ^ 20 - 1) = Panic.
Proof. by apply himem_entries_small. Qed.

(** Two nodes: the second does not fit below the hole and is moved above it, as only
    72 MiB are left there.  The map has RAM in them all the same. *)
Lemma moved_node_unbacked :
  match create_address_space ok_host ok_ops 0 ex_phys_end Mgr_default ex_rm
          [mkNumaRegion 3000 None (Some 0) [0]; mkNumaRegion 1024 None (Some 1) [1]] ex_builder tt with
  | Ret (Ok _, m, _, _) =>
      match m_address_space m with
      | Some s =>
          (fun r => (base r, region_end r)) <$> regions s = [(0, 3000 * 2 ^ 20); (2 ^ 32, 2 ^ 32 + 2 ^ 30)] /\
          Base_last_addr s = Ret (2 ^ 32 + 2 ^ 30 - 1) /\ listed (2 ^ 32 + 2 ^ 30 - 1) (3000 * 2 ^ 20)
      | None => False
      end
  | _ => False
  end.
Proof. vm_compute. intuition congruence. Qed.
