(* ===== verification/Vcpu.v ===== *)
(** The thread of a vCPU: running the guest, its events and its responses
    (dragonball/src/vcpu/vcpu_impl.rs, with the state machine of sm.rs and the cached
    IO manager of io_manager.rs).

    The guest under KVM is a parameter.  The channels between the manager and the thread are
    queues in the record of the vCPU; both ends of the manager are in the
    [VcpuHandle], so they are open or closed together. *)

From S2P Require Import Prelude Resources BTreeMap IoManager.

Inductive VcpuEvent : Type := Exit | Pause | Resume | Gettid | RevalidateCache.

#[global] Instance VcpuEvent_eq_dec : EqDecision VcpuEvent.
Proof. solve_decision. Defined.

(** Why the guest was left; [OtherExit] is any reason without an arm of its own. *)
Inductive VcpuExit : Type :=
| IoIn (addr : Z) (data : list Z)
| IoOut (addr : Z) (data : list Z)
| MmioRead (addr : Z) (data : list Z)
| MmioWrite (addr : Z) (data : list Z)
| Hlt
| Shutdown
| FailEntry (reason cpu : Z)
| InternalError
| SystemEvent (event_type event_flags : Z)
| OtherExit.

Inductive VcpuEmulation : Type := Handled | Interrupted | Stopped.
Inductive RunError : Type := VcpuUnhandledKvmExit.

Inductive VcpuResponse : Type :=
| Paused
| Resumed
| Tid (index tid : Z)
| NotAllowed
| RespError (e : RunError)
| CacheRevalidated.

Definition EAGAIN : Z := 11.
Definition EINTR : Z := 4.
Definition KVM_SYSTEM_EVENT_SHUTDOWN : Z := 1.
Definition KVM_SYSTEM_EVENT_RESET : Z := 2.
Definition MAGIC_IOPORT_DEBUG_INFO : Z := 0xdbdb.

(** The guest: KVM_RUN with the flag immediate_exit ends with a reason or an error number, or does
    not end ([None]); [kvm_data] puts what a read found into the shared buffer. *)
Class KvmRun (K : Type) := {
  kvm_run : K -> bool -> option (result VcpuExit Z * K);
  kvm_data : K -> list Z -> K;
}.

Record Vcpu := mkVcpu {
  v_id : Z;
  v_tid : Z;
  v_events : list VcpuEvent;
  v_responses : list VcpuResponse;
  v_connected : bool;
  v_exit_evt : Z;
  v_immediate_exit : bool;
  v_support_immediate_exit : bool;
}.

Definition set_v_events (v : Vcpu) (es : list VcpuEvent) : Vcpu :=
  mkVcpu (v_id v) (v_tid v) es (v_responses v) (v_connected v) (v_exit_evt v) (v_immediate_exit v) (v_support_immediate_exit v).
Definition set_v_responses (v : Vcpu) (rs : list VcpuResponse) : Vcpu :=
  mkVcpu (v_id v) (v_tid v) (v_events v) rs (v_connected v) (v_exit_evt v) (v_immediate_exit v) (v_support_immediate_exit v).
Definition set_v_exit_evt (v : Vcpu) (n : Z) : Vcpu :=
  mkVcpu (v_id v) (v_tid v) (v_events v) (v_responses v) (v_connected v) n (v_immediate_exit v) (v_support_immediate_exit v).
Definition set_v_immediate_exit (v : Vcpu) (b : bool) : Vcpu :=
  mkVcpu (v_id v) (v_tid v) (v_events v) (v_responses v) (v_connected v) (v_exit_evt v) b (v_support_immediate_exit v).

(** ** Events from the manager *)

(** [send_event]: the channel, then the signal, whose handler sets the flag. *)
Definition post (v : Vcpu) (e : VcpuEvent) : Vcpu := set_v_events v (v_events v ++ [e]).
Definition kick (v : Vcpu) : Vcpu := set_v_immediate_exit v true.

(** ** The state machine (sm.rs) *)

(** The handlers; [waiting_recv] is [waiting_exit] after it has signalled the VMM. *)
Inductive StateFn : Type := running | paused | waiting_exit | waiting_recv | exited.

#[global] Instance StateFn_eq_dec : EqDecision StateFn.
Proof. solve_decision. Defined.

Record StateMachine := mkSM { sm_function : StateFn; sm_end_state : bool }.
Definition next (f : StateFn) : StateMachine := mkSM f false.
Definition finish (f : StateFn) : StateMachine := mkSM f true.

Section Thread.
Context {D W K : Type} `{DeviceIo D W} `{KvmRun K}.

(** The devices, and the manager that the cached one loads. *)
Record Machine := mkMachine { mc_io : IoManager D; mc_devices : W; mc_guest : K }.
Implicit Types (v : Vcpu) (mc : Machine).

Definition check_io_port_info (addr : Z) (data : list Z) : bool :=
  (addr =? MAGIC_IOPORT_DEBUG_INFO) && (length data =? 4)%nat.

(** The exits that are handled by a device; its error is dropped. *)
Definition do_read (read : IoManager D -> Z -> list Z -> W -> outcome (result unit IoError * list Z * W)) mc (k : K) (addr : Z) (data : list Z) :
  outcome Machine :=
  let! (_, data, w) := read (mc_io mc) addr data (mc_devices mc) in
  Ret (mkMachine (mc_io mc) w (kvm_data k data)).
Definition do_write (write : IoManager D -> Z -> list Z -> W -> outcome (result unit IoError * W)) mc (k : K) (addr : Z) (data : list Z) :
  outcome Machine :=
  let! (_, w) := write (mc_io mc) addr data (mc_devices mc) in
  Ret (mkMachine (mc_io mc) w k).

(** [run_emulation]; [None] while the guest runs. *)
Definition run_emulation v mc : outcome (option (result VcpuEmulation RunError * Vcpu * Machine)) :=
  match kvm_run (mc_guest mc) (v_immediate_exit v) with
  | None => Ret None
  | Some (Ok run, k) =>
      let mc' := mkMachine (mc_io mc) (mc_devices mc) k in
      match run with
      | IoIn addr data => let! mc' := do_read pio_read mc k addr data in Ret (Some (Ok Handled, v, mc'))
      | IoOut addr data =>
          if negb (check_io_port_info addr data) then
            let! mc' := do_write pio_write mc k addr data in Ret (Some (Ok Handled, v, mc'))
          else Ret (Some (Ok Handled, v, mc'))
      | MmioRead addr data => let! mc' := do_read mmio_read mc k addr data in Ret (Some (Ok Handled, v, mc'))
      | MmioWrite addr data => let! mc' := do_write mmio_write mc k addr data in Ret (Some (Ok Handled, v, mc'))
      | Hlt => Ret (Some (Err VcpuUnhandledKvmExit, v, mc'))
      | Shutdown => Ret (Some (Err VcpuUnhandledKvmExit, v, mc'))
      | FailEntry _ _ => Ret (Some (Err VcpuUnhandledKvmExit, v, mc'))
      | InternalError => Ret (Some (Err VcpuUnhandledKvmExit, v, mc'))
      | SystemEvent event_type _ =>
          if (event_type =? KVM_SYSTEM_EVENT_RESET) || (event_type =? KVM_SYSTEM_EVENT_SHUTDOWN) then Ret (Some (Ok Stopped, v, mc'))
          else Ret (Some (Err VcpuUnhandledKvmExit, v, mc'))
      | OtherExit => Ret (Some (Err VcpuUnhandledKvmExit, v, mc'))
      end
  | Some (Err e, k) =>
      let mc' := mkMachine (mc_io mc) (mc_devices mc) k in
      if e =? EAGAIN then Ret (Some (Ok Handled, v, mc'))
      else if e =? EINTR then Ret (Some (Ok Interrupted, set_v_immediate_exit v false, mc'))
      else Ret (Some (Err VcpuUnhandledKvmExit, v, mc'))
  end.

(** [response_sender.send(..).expect(..)]. *)
Definition send_response v (r : VcpuResponse) : outcome Vcpu :=
  if v_connected v then Ret (set_v_responses v (v_responses v ++ [r])) else Panic.

(** The events that a running and a paused vCPU answer in the same way. *)
Definition answer v (e : VcpuEvent) : outcome Vcpu :=
  match e with
  | Exit => Ret v
  | Pause => send_response v Paused
  | Resume => send_response v Resumed
  | Gettid => send_response v (Tid (v_id v) (v_tid v))
  | RevalidateCache => send_response v CacheRevalidated
  end.

(** [running] after the loop: one event, if there is one. *)
Definition running_events v : outcome (StateMachine * Vcpu) :=
  match v_events v with
  | [] => Ret (next (if v_connected v then running else exited), v)
  | e :: es =>
      let! v := answer (set_v_events v es) e in
      Ret (next (match e with Exit => exited | Pause => paused | _ => running end), v)
  end.

(** One round of the loop in [running]; staying in the loop is entering it again. *)
Definition running_round v mc : outcome (option (StateMachine * Vcpu * Machine)) :=
  let! r := run_emulation v mc in
  match r with
  | None => Ret None
  | Some (Ok Handled, v, mc) =>
      if negb (v_support_immediate_exit v) then let! (sf, v) := running_events v in Ret (Some (sf, v, mc))
      else Ret (Some (next running, v, mc))
  | Some (Ok Interrupted, v, mc) => let! (sf, v) := running_events v in Ret (Some (sf, v, mc))
  | Some (Ok Stopped, v, mc) => Ret (Some (next waiting_exit, v, mc))
  | Some (Err _, v, mc) => Ret (Some (next waiting_exit, v, mc))
  end.

(** [paused] blocks on an open channel without an event ([None]). *)
Definition paused_fn v : outcome (option (StateMachine * Vcpu)) :=
  match v_events v with
  | [] => Ret (if v_connected v then None else Some (next exited, v))
  | e :: es =>
      let! v := answer (set_v_events v es) e in
      Ret (Some (next (match e with Exit => exited | Resume => running | _ => paused end), v))
  end.

(** [waiting_exit]: the VMM is told to stop (writing to the eventfd may fail, which is only logged), then
    any event but an exit starts over. *)
Definition waiting_exit_fn v : StateMachine * Vcpu := (next waiting_recv, set_v_exit_evt v (v_exit_evt v + 1)).
Definition waiting_recv_fn v : option (StateMachine * Vcpu) :=
  match v_events v with
  | [] => if v_connected v then None else Some (next exited, v)
  | e :: es => Some (next (match e with Exit => exited | _ => waiting_exit end), set_v_events v es)
  end.

Definition exited_fn v : StateMachine * Vcpu := (finish exited, v).

(** One round of [StateMachine::run]; [None] if the thread waits, or has ended. *)
Definition sm_step (sf : StateMachine) v mc : outcome (option (StateMachine * Vcpu * Machine)) :=
  if sm_end_state sf then Ret None
  else
    match sm_function sf with
    | running => running_round v mc
    | paused =>
        let! r := paused_fn v in
        Ret (match r with Some (sf, v) => Some (sf, v, mc) | None => None end)
    | waiting_exit => let '(sf, v) := waiting_exit_fn v in Ret (Some (sf, v, mc))
    | waiting_recv => Ret (match waiting_recv_fn v with Some (sf, v) => Some (sf, v, mc) | None => None end)
    | exited => let '(sf, v) := exited_fn v in Ret (Some (sf, v, mc))
    end.

(** [StateMachine::run] for at most [n] rounds. *)
Fixpoint sm_run (n : nat) (sf : StateMachine) v mc : outcome (StateMachine * Vcpu * Machine) :=
  match n with
  | O => Ret (sf, v, mc)
  | S n =>
      let! r := sm_step sf v mc in
      match r with
      | None => Ret (sf, v, mc)
      | Some (sf, v, mc) => sm_run n sf v mc
      end
  end.

(** [Vcpu::run] starts paused. *)
Definition vcpu_start : StateMachine := next paused.
End Thread.
