(* ===== verification/VcpuSpec.v ===== *)
(** The protocol of a vCPU thread: in every interleaving with its manager, what it
    answers and in which state it is follow from the events it has taken. *)

From S2P Require Import Prelude Resources BTreeMap IoManager Vcpu.

(** ** Runs *)

Section Protocol.
Context {D W K : Type} `{DeviceIo D W} `{KvmRun K}.
Implicit Types (v : Vcpu) (mc : @Machine D W K).

(** The manager has sent the events [sent], [due] of its signals are still on their way, and the thread has taken
    [taken].  [may_send] restricts when the manager sends.  Devices and the IO manager are shared with other
    threads and may change at any time. *)
Inductive vrun (may_send : Vcpu -> Prop) : list VcpuEvent -> list VcpuEvent -> nat -> StateMachine -> Vcpu -> @Machine D W K -> Prop :=
| vrun_start id tid support mc : vrun may_send [] [] 0 vcpu_start (mkVcpu id tid [] [] true 0 false support) mc
| vrun_send sent taken due sf v mc e : vrun may_send sent taken due sf v mc -> may_send v -> vrun may_send (sent ++ [e]) taken (S due) sf (post v e) mc
| vrun_kick sent taken due sf v mc : vrun may_send sent taken (S due) sf v mc -> vrun may_send sent taken due sf (kick v) mc
| vrun_shared sent taken due sf v mc io w : vrun may_send sent taken due sf v mc -> vrun may_send sent taken due sf v (mkMachine io w (mc_guest mc))
| vrun_thread sent taken due sf v mc sf' v' mc' es :
    vrun may_send sent taken due sf v mc -> sm_step sf v mc = Ret (Some (sf', v', mc')) -> v_events v = es ++ v_events v' ->
    vrun may_send sent (taken ++ es) due sf' v' mc'.

(** ** The protocol *)

(** The answer to an event. *)
Definition response v (e : VcpuEvent) : option VcpuResponse :=
  match e with
  | Exit => None
  | Pause => Some Paused
  | Resume => Some Resumed
  | Gettid => Some (Tid (v_id v) (v_tid v))
  | RevalidateCache => Some CacheRevalidated
  end.

(** The state after an event, and after several; a vCPU starts paused. *)
Definition after (f : StateFn) (e : VcpuEvent) : StateFn :=
  match e with Exit => exited | Pause => paused | Resume => running | _ => f end.
Definition mode (es : list VcpuEvent) : StateFn := foldl after paused es.

(** Of the events taken the first were answered; after the guest has stopped they are dropped. *)
Record protocol (sent taken : list VcpuEvent) (sf : StateMachine) v (answered dropped : list VcpuEvent) : Prop := mk_protocol {
  pr_queue : sent = taken ++ v_events v;
  pr_taken : taken = answered ++ dropped;
  pr_responses : v_responses v = omap (response v) answered;
  pr_connected : v_connected v = true;
  pr_state :
    match sm_function sf with
    | running => mode answered = running /\ Exit ∉ answered /\ dropped = []
    | paused => mode answered = paused /\ Exit ∉ answered /\ dropped = []
    | waiting_exit | waiting_recv => mode answered = running /\ Exit ∉ answered /\ Exit ∉ dropped
    | exited => exists es, Exit ∉ es /\ taken = es ++ [Exit]
    end;
  pr_end : sm_end_state sf = true -> sm_function sf = exited;
  pr_stopped : sm_function sf = waiting_recv \/ dropped <> [] -> 0 < v_exit_evt v;
  pr_evt : 0 <= v_exit_evt v;
}.

Definition in_protocol sent taken sf v : Prop := exists answered dropped, protocol sent taken sf v answered dropped.

Lemma mode_snoc es e : mode (es ++ [e]) = after (mode es) e.
Proof. unfold mode. by rewrite foldl_app. Qed.

(** The guest does not change the channels, and only an interruption clears the flag. *)
Lemma run_emulation_flag v mc r v' mc' : run_emulation v mc = Ret (Some (r, v', mc')) ->
  v' = match r with Ok Interrupted => set_v_immediate_exit v false | _ => v end.
Proof.
  unfold run_emulation, do_read, do_write. intros Hr.
  repeat (case_hyp Hr; simplify_eq; auto); try (bind_inv Hr; bind_inv Ha; repeat (case_hyp Ha; simplify_eq); simplify_eq; auto).
Qed.

Lemma run_emulation_channels v mc r v' mc' : run_emulation v mc = Ret (Some (r, v', mc')) ->
  v' = v \/ v' = set_v_immediate_exit v false.
Proof. intros Hr. apply run_emulation_flag in Hr as ->. destruct r as [[]|]; auto. Qed.

Lemma answer_ok v e : v_connected v = true -> answer v e = Ret (set_v_responses v (v_responses v ++ option_list (response v e))).
Proof. intros Hc. unfold answer, send_response. rewrite Hc. destruct e; try done. destruct v. by rewrite app_nil_r. Qed.

(** A vCPU that takes one event and answers it. *)
Definition served v (e : VcpuEvent) (es : list VcpuEvent) : Vcpu :=
  set_v_responses (set_v_events v es) (v_responses v ++ option_list (response v e)).

Lemma answer_served v e es : v_connected v = true -> answer (set_v_events v es) e = Ret (served v e es).
Proof. intros Hc. by rewrite answer_ok by done. Qed.

(** In the states running and paused all events have been answered. *)
Lemma protocol_serve sent taken f v e es f' :
  (f = running \/ f = paused) -> in_protocol sent taken (next f) v -> v_events v = e :: es ->
  f' = after f e -> in_protocol sent (taken ++ [e]) (next f') (served v e es).
Proof.
  intros Hf (an & dr & [Hq Ht Hr Hc Hs He Hx Hx0]) Hev ->. cbn [next sm_function] in Hs.
  assert (Hall : mode an = f /\ Exit ∉ an /\ dr = []) by (by destruct Hf; subst f). destruct Hall as (Hm & Hne & ->). rewrite app_nil_r in Ht. subst taken.
  exists (an ++ [e]), []. split; cbn [served v_events v_responses v_connected v_exit_evt set_v_responses set_v_events next sm_function sm_end_state] in *; try done.
  - by rewrite Hq, Hev, <- app_assoc.
  - by rewrite app_nil_r.
  - rewrite omap_app, Hr. f_equal.
  - unfold after. rewrite mode_snoc, Hm. destruct e; cbn [after]; try (split_and!; [done|set_solver|done]).
    1: by exists an. all: destruct Hf; subst f; split_and!; (done || set_solver).
  - intros [Hw|Hw]; [|done]. destruct e, Hf; subst f; done.
Qed.

(** What does not matter to the protocol. *)
Lemma protocol_flag sent taken sf v b : in_protocol sent taken sf v -> in_protocol sent taken sf (set_v_immediate_exit v b).
Proof. intros (an & dr & []). by exists an, dr. Qed.

Lemma protocol_post sent taken sf v e : in_protocol sent taken sf v -> in_protocol (sent ++ [e]) taken sf (post v e).
Proof. intros (an & dr & []). exists an, dr. split; try done. cbn. subst. by rewrite app_assoc. Qed.

(** After the loop of a running vCPU. *)
Lemma running_events_ok sent taken v : in_protocol sent taken (next running) v ->
  exists sf v' es, running_events v = Ret (sf, v') /\ v_events v = es ++ v_events v' /\ in_protocol sent (taken ++ es) sf v' /\ length es = min 1 (length (v_events v)).
Proof.
  intros Hp. unfold running_events. assert (Hc : v_connected v = true) by (by destruct Hp as (an & dr & [])).
  destruct (v_events v) as [|e es] eqn:Hev; rewrite ?Hc.
  - eexists _, _, []. rewrite app_nil_r. done.
  - rewrite answer_served by done. cbn [obind]. eexists _, _, [e]. split; [done|]. split; [done|]. split; [|done].
    eapply protocol_serve; [by left|done|done|]. by destruct e.
Qed.

Lemma paused_ok sent taken v : in_protocol sent taken (next paused) v ->
  match v_events v with
  | [] => paused_fn v = Ret None
  | e :: es => exists f', paused_fn v = Ret (Some (next f', served v e es)) /\ in_protocol sent (taken ++ [e]) (next f') (served v e es)
  end.
Proof.
  intros Hp. unfold paused_fn. assert (Hc : v_connected v = true) by (by destruct Hp as (an & dr & [])).
  destruct (v_events v) as [|e es] eqn:Hev; rewrite ?Hc; [done|]. rewrite answer_served by done. cbn [obind]. eexists. split; [done|].
  eapply protocol_serve; [by right|done|done|]. by destruct e.
Qed.

(** The guest has stopped. *)
Lemma protocol_stop sent taken v : in_protocol sent taken (next running) v -> in_protocol sent taken (next waiting_exit) v.
Proof.
  intros (an & dr & [Hq Ht Hr Hc (Hm & Hne & ->) He Hx Hx0]). exists an, []. split; try done.
  - cbn. split_and!; [done|done|]. apply not_elem_of_nil.
  - intros [?|?]; done.
Qed.

Lemma waiting_ok sent taken v : in_protocol sent taken (next waiting_exit) v ->
  in_protocol sent taken (next waiting_recv) (set_v_exit_evt v (v_exit_evt v + 1)).
Proof. intros (an & dr & [Hq Ht Hr Hc Hs He Hx Hx0]). exists an, dr. split; try done; cbn; lia. Qed.

Lemma waiting_recv_ok sent taken v : in_protocol sent taken (next waiting_recv) v ->
  match v_events v with
  | [] => waiting_recv_fn v = None
  | e :: es => exists f', waiting_recv_fn v = Some (next f', set_v_events v es) /\ in_protocol sent (taken ++ [e]) (next f') (set_v_events v es)
  end.
Proof.
  intros (an & dr & [Hq Ht Hr Hc (Hm & Hne & Hnd) He Hx Hx0]). unfold waiting_recv_fn. destruct (v_events v) as [|e es] eqn:Hev; rewrite ?Hc; [done|].
  assert (Hpos : 0 < v_exit_evt v) by (apply Hx; by left). eexists. split; [done|]. exists an, (dr ++ [e]).
  split; cbn [set_v_events v_events v_responses v_connected v_exit_evt next sm_function sm_end_state]; try done.
  - by rewrite Hq, <- app_assoc.
  - by rewrite Ht, app_assoc.
  - destruct e; cbn; try (split_and!; [done|done|set_solver]). exists (an ++ dr). split; [set_solver|]. by rewrite Ht.
Qed.

(** ** One step *)

(** The dispatch to devices does not panic. *)
Definition bus_ok mc : Prop :=
  forall addr data w,
    (exists x, pio_read (mc_io mc) addr data w = Ret x) /\ (exists x, pio_write (mc_io mc) addr data w = Ret x) /\
    (exists x, mmio_read (mc_io mc) addr data w = Ret x) /\ (exists x, mmio_write (mc_io mc) addr data w = Ret x).

Lemma run_emulation_ok v mc : bus_ok mc -> exists r, run_emulation v mc = Ret r.
Proof.
  intros Hb. unfold run_emulation, do_read, do_write. destruct (kvm_run _ _) as [[[run|e] k]|]; [|by repeat case_match; eexists|by eexists].
  destruct run as [addr data|addr data|addr data|addr data| | |? ?| |? ?|]; try (by repeat case_match; eexists).
  all: destruct (Hb addr data (mc_devices mc)) as (([[? ?] ?] & E1) & ([? ?] & E2) & ([[? ?] ?] & E3) & ([? ?] & E4)).
  all: rewrite ?E1, ?E2, ?E3, ?E4; cbn [obind]; try case_match; by eexists.
Qed.

(** Nothing to do: the thread has ended, the guest runs, or there is no event. *)
Definition waits (sf : StateMachine) v mc : Prop :=
  sm_end_state sf = true \/ (sm_function sf = running /\ kvm_run (mc_guest mc) (v_immediate_exit v) = None) \/
  ((sm_function sf = paused \/ sm_function sf = waiting_recv) /\ v_events v = []).

(** What a step leads to. *)
Definition stepped sent taken sf v mc (r : option (StateMachine * Vcpu * @Machine D W K)) : Prop :=
  match r with
  | None => waits sf v mc
  | Some (sf', v', _) => exists es, v_events v = es ++ v_events v' /\ in_protocol sent (taken ++ es) sf' v'
  end.

Lemma same_queue sent taken sf v : in_protocol sent taken sf v -> exists es, v_events v = es ++ v_events v /\ in_protocol sent (taken ++ es) sf v.
Proof. intros Hp. exists []. by rewrite app_nil_r. Qed.

Lemma running_round_ok sent taken v mc r : in_protocol sent taken (next running) v -> running_round v mc = Ret r ->
  stepped sent taken (next running) v mc r.
Proof.
  intros Hp Hr. unfold running_round in Hr. bind_inv Hr. destruct a as [[[r1 v1] mc1]|].
  2: { injection Hr as <-. right. left. split; [done|]. unfold run_emulation, do_read, do_write in Ha.
       repeat (case_hyp Ha; try discriminate Ha; try done); by bind_inv Ha. }
  assert (Hp1 : in_protocol sent taken (next running) v1 /\ v_events v1 = v_events v)
    by (apply run_emulation_channels in Ha as [->| ->]; [done|split; [by apply protocol_flag|done]]).
  destruct Hp1 as [Hp1 Hev]. destruct (running_events_ok sent taken v1 Hp1) as (sf & v2 & es & E & Hes & Hp2 & _). rewrite E in Hr. cbn [obind] in Hr.
  assert (Hstop : stepped sent taken (next running) v mc (Some (next waiting_exit, v1, mc1))).
  { cbn. rewrite <- Hev. by apply same_queue, protocol_stop. }
  destruct r1 as [[]|e]; try case_match; injection Hr as <-; try done; cbn; rewrite <- Hev; try (by eexists); by apply same_queue.
Qed.

Lemma sm_step_ok sent taken sf v mc : in_protocol sent taken sf v ->
  (bus_ok mc -> exists r, sm_step sf v mc = Ret r) /\ forall r, sm_step sf v mc = Ret r -> stepped sent taken sf v mc r.
Proof.
  intros Hp. unfold sm_step. destruct sf as [f en]. cbn [sm_function sm_end_state]. destruct en.
  { split; [by eexists|]. intros r [= <-]. by left. }
  change (mkSM f false) with (next f) in *. destruct f.
  - split; [|by intros r; apply running_round_ok]. intros Hb. unfold running_round. destruct (run_emulation_ok v mc Hb) as (r & E). rewrite E. cbn [obind].
    destruct r as [[[r1 v1] mc1]|]; [|by eexists]. assert (Hp1 : in_protocol sent taken (next running) v1)
      by (apply run_emulation_channels in E as [->| ->]; [done|by apply protocol_flag]).
    destruct (running_events_ok sent taken v1 Hp1) as (sf & v2 & es & -> & _). cbn [obind]. repeat case_match; by eexists.
  - pose proof (paused_ok sent taken v Hp) as Hs. destruct (v_events v) as [|e es] eqn:Hev.
    + rewrite Hs. cbn [obind]. split; [by eexists|]. intros r [= <-]. right. right. split; [by left|done].
    + destruct Hs as (f' & -> & Hp'). cbn [obind]. split; [by eexists|]. intros r [= <-]. exists [e]. by rewrite Hev.
  - split; [by eexists|]. intros r [= <-]. cbn. exists []. rewrite app_nil_r. split; [done|]. by apply waiting_ok.
  - pose proof (waiting_recv_ok sent taken v Hp) as Hs. destruct (v_events v) as [|e es] eqn:Hev.
    + rewrite Hs. split; [by eexists|]. intros r [= <-]. right. right. split; [by right|done].
    + destruct Hs as (f' & -> & Hp'). split; [by eexists|]. intros r [= <-]. exists [e]. by rewrite Hev.
  - split; [by eexists|]. intros r [= <-]. cbn. exists []. rewrite app_nil_r. split; [done|].
    destruct Hp as (an & dr & []). by exists an, dr.
Qed.

(** ** Every run *)

Lemma vrun_protocol may_send sent taken due sf v mc : vrun may_send sent taken due sf v mc -> in_protocol sent taken sf v.
Proof.
  induction 1 as [id tid support mc|sent taken due sf v mc e Hr IH Hs|sent taken due sf v mc Hr IH|sent taken due sf v mc io w Hr IH|sent taken due sf v mc sf' v' mc' es Hr IH Hs He].
  - exists [], []. split; try done; cbn; [split_and!; [done|apply not_elem_of_nil|done]|intros [?|?]; done].
  - by apply protocol_post.
  - by apply protocol_flag.
  - done.
  - destruct (sm_step_ok _ _ _ _ mc IH) as [_ Hst]. destruct (Hst _ Hs) as (es' & He' & Hp). rewrite He in He'. by apply app_inv_tail in He' as ->.
Qed.

(** C31. The protocol of a vCPU thread.  In every interleaving of the thread with events of its manager, signals and
    other threads: the events sent are those taken and those in the channel, in order; every event taken while the vCPU runs or is
    paused has been answered, in order, and those taken after the guest stopped are dropped; the vCPU runs or is paused
    as the last event says, ends exactly with the exit event, and has told the VMM to stop before it drops an event.
    A thread does not panic unless the dispatch to a device does, and it waits only for the guest or
    for an event. *)
Theorem vcpu_thread_protocol may_send sent taken due sf v mc : vrun may_send sent taken due sf v mc ->
  in_protocol sent taken sf v /\
  (bus_ok mc -> exists r, sm_step sf v mc = Ret r /\ (r = None -> waits sf v mc)).
Proof.
  intros Hr. pose proof (vrun_protocol _ _ _ _ _ _ _ Hr) as Hp. split; [done|]. intros Hb.
  destruct (sm_step_ok _ _ _ _ mc Hp) as [Hret Hst]. destruct (Hret Hb) as (r & E). exists r. split; [done|]. intros ->. by apply (Hst None).
Qed.

(** ** Events are served *)

(** A manager that sends when the last event has been taken. *)
Definition patient v : Prop := v_events v = [].

(** A step that leaves the events of a non-empty channel leaves the flag. *)
Lemma step_keeps_flag sent taken sf v mc sf' v' mc' : in_protocol sent taken sf v ->
  sm_step sf v mc = Ret (Some (sf', v', mc')) -> v_events v' = v_events v -> v_events v <> [] -> v_immediate_exit v' = v_immediate_exit v.
Proof.
  intros Hp Hs Hq Hne. assert (Hc : v_connected v = true) by (by destruct Hp as (an & dr & [])).
  destruct (v_events v) as [|e es] eqn:Hev; [done|]. assert (Hno : forall A, es = e :: es -> A) by (intros A E; apply (f_equal length) in E; cbn in E; lia).
  unfold sm_step in Hs. destruct (sm_end_state sf); [done|]. destruct (sm_function sf).
  - unfold running_round in Hs. bind_inv Hs. destruct a as [[[r1 v1] mc1]|]; [|done]. apply run_emulation_flag in Ha as ->.
    assert (Hserve : forall v0, v_events v0 = e :: es -> v_connected v0 = true -> exists f, running_events v0 = Ret (next f, served v0 e es)).
    { intros v0 E0 C0. unfold running_events. rewrite E0, answer_served by done. cbn [obind]. by eexists. }
    destruct r1 as [[]|er]; try case_match.
    1, 3: match type of Hs with context [running_events ?v0] => destruct (Hserve v0 Hev Hc) as [f E] end; rewrite E in Hs; cbn [obind] in Hs; injection Hs as <- <- <-; by apply Hno.
    all: by injection Hs as <- <- <-.
  - unfold paused_fn in Hs. rewrite Hev, answer_served in Hs by done. cbn [obind] in Hs. injection Hs as <- <- <-. by apply Hno.
  - by injection Hs as <- <- <-.
  - unfold waiting_recv_fn in Hs. rewrite Hev in Hs. injection Hs as <- <- <-. by apply Hno.
  - by injection Hs as <- <- <-.
Qed.

(** A signal belongs to each event that waits: it is on its way, or its handler has set the flag. *)
Lemma patient_signalled sent taken due sf v mc : vrun patient sent taken due sf v mc ->
  (length (v_events v) <= 1)%nat /\ (v_events v <> [] -> due <> 0%nat \/ v_immediate_exit v = true).
Proof.
  induction 1 as [id tid support mc|sent taken due sf v mc e Hr IH Hs|sent taken due sf v mc Hr IH|sent taken due sf v mc io w Hr IH|sent taken due sf v mc sf' v' mc' es Hr IH Hs He]; cbn.
  - split; [lia|done].
  - unfold patient in Hs. rewrite Hs. cbn. split; [lia|]. by left.
  - destruct IH as [IH _]. split; [done|]. by right.
  - done.
  - destruct IH as [Hl Hf]. rewrite He, length_app in Hl. split; [lia|]. intros Hne.
    destruct es as [|e es]; [|destruct (v_events v'); [done|cbn in Hl; lia]]. cbn in He. rewrite He in Hf. specialize (Hf Hne) as [?|Hf]; [by left|]. right.
    rewrite <- Hf. eapply step_keeps_flag; [by eapply vrun_protocol|done|done|by rewrite He].
Qed.

(** KVM_RUN returns at once when immediate_exit is set. *)
Class KvmInterrupts : Prop := immediate_exit_law (k : K) : exists k', kvm_run k true = Some (Err EINTR, k').

(** C32. No event is left behind.  If the manager sends an event only when the last one has been taken, the thread takes each event
    within two rounds after its signal has arrived, whatever the guest does, and answers it
    unless the guest has stopped; an exit event ends the thread. *)
Theorem vcpu_serves_events `{!KvmInterrupts} sent taken sf v mc e :
  vrun patient sent taken 0 sf v mc -> v_events v = [e] -> sm_function sf <> exited ->
  exists n sf' v' mc', (n <= 2)%nat /\ sm_run n sf v mc = Ret (sf', v', mc') /\ v_events v' = [] /\
    sm_function sf' = (match sm_function sf, e with waiting_exit, Exit | waiting_recv, Exit => exited
                       | waiting_exit, _ | waiting_recv, _ => waiting_exit | f, _ => after f e end) /\
    v_responses v' = v_responses v ++ (match sm_function sf with running | paused => option_list (response v e) | _ => [] end).
Proof.
  intros Hr Hev Hx. pose proof (vrun_protocol _ _ _ _ _ _ _ Hr) as Hp. destruct (patient_signalled _ _ _ _ _ _ Hr) as [_ Hf].
  rewrite Hev in Hf. specialize (Hf ltac:(done)) as [?|Hf]; [done|]. destruct Hp as (an & dr & [_ _ _ Hc _ Hend _ _]).
  assert (Hne : sm_end_state sf = false) by (destruct (sm_end_state sf); [by destruct Hx; apply Hend|done]).
  destruct sf as [f en]. cbn [sm_function sm_end_state] in *. subst en. destruct f; [| | | |done].
  - destruct (immediate_exit_law (mc_guest mc)) as [k' Ek]. exists 1%nat. do 3 eexists. split; [lia|]. cbn [sm_run sm_step sm_end_state sm_function].
    unfold running_round, run_emulation. rewrite Hf, Ek. cbn [obind]. change (EINTR =? EAGAIN) with false. change (EINTR =? EINTR) with true. cbv iota. cbn [obind].
    unfold running_events. cbn [set_v_immediate_exit v_events v_connected]. rewrite Hev, answer_served by done. cbn [obind]. split; [reflexivity|]. by destruct e.
  - exists 1%nat. do 3 eexists. split; [lia|]. cbn [sm_run sm_step sm_end_state sm_function]. unfold paused_fn. rewrite Hev, answer_served by done. cbn [obind].
    split; [reflexivity|]. by destruct e.
  - exists 2%nat. do 3 eexists. split; [lia|]. cbn [sm_run sm_step sm_end_state sm_function obind waiting_exit_fn next]. unfold waiting_recv_fn. cbn [set_v_exit_evt v_events].
    rewrite Hev. cbn [obind]. split; [reflexivity|]. cbn. rewrite app_nil_r. by destruct e.
  - exists 1%nat. do 3 eexists. split; [lia|]. cbn [sm_run sm_step sm_end_state sm_function obind next]. unfold waiting_recv_fn. rewrite Hev. cbn [obind].
    split; [reflexivity|]. cbn. rewrite app_nil_r. by destruct e.
Qed.
End Protocol.

(** ** A guest that only leaves on a signal *)

#[export] Instance no_devices : DeviceIo unit unit :=
  {| dev_read _ _ _ data w := (data, w); dev_write _ _ _ _ w := w; dev_pio_read _ _ _ data w := (data, w);
     dev_pio_write _ _ _ _ w := w; get_trapped_io_resources _ _ := DeviceResources_new |}.
#[export] Instance quiet_guest : KvmRun unit :=
  {| kvm_run k immediate_exit := if immediate_exit then Some (Err EINTR, k) else None; kvm_data k _ := k |}.
#[export] Instance quiet_interrupts : KvmInterrupts (K := unit).
Proof. intros k. by exists k. Qed.

Definition quiet_machine : @Machine unit unit unit := mkMachine IoManager_new tt tt.
Definition fresh_vcpu : Vcpu := mkVcpu 0 100 [] [] true 0 false true.

(** Resumed with its signal delivered. *)
Lemma resumed_run may_send : may_send fresh_vcpu ->
  vrun may_send [Resume] [Resume] 0 (next running) (mkVcpu 0 100 [] [Resumed] true 0 true true) quiet_machine.
Proof.
  intros Hm. apply (vrun_thread may_send [Resume] [] 0 vcpu_start (kick (post fresh_vcpu Resume)) quiet_machine _ _ _ [Resume]); [|done|done].
  apply vrun_kick. apply (vrun_send may_send [] [] 0 vcpu_start fresh_vcpu quiet_machine Resume); [constructor|done].
Qed.

Lemma vcpu_thread_protocol_witness :
  in_protocol [Resume] [Resume] (next running) (mkVcpu 0 100 [] [Resumed] true 0 true true) /\
  (bus_ok quiet_machine -> exists r, sm_step (next running) (mkVcpu 0 100 [] [Resumed] true 0 true true) quiet_machine = Ret r /\
    (r = None -> waits (next running) (mkVcpu 0 100 [] [Resumed] true 0 true true) quiet_machine)).
Proof. apply (vcpu_thread_protocol (fun _ => True) [Resume] [Resume] 0). by apply resumed_run. Defined.

Lemma vcpu_serves_events_witness :
  exists n sf' v' mc', (n <= 2)%nat /\
    sm_run n (next running) (mkVcpu 0 100 [Pause] [Resumed] true 0 true true) quiet_machine = Ret (sf', v', mc') /\
    v_events v' = [] /\ sm_function sf' = paused /\ v_responses v' = [Resumed; Paused].
Proof.
  apply (vcpu_serves_events [Resume; Pause] [Resume] (next running) (mkVcpu 0 100 [Pause] [Resumed] true 0 true true) quiet_machine Pause); [|done|done].
  apply (vrun_kick patient _ _ 0 _ (mkVcpu 0 100 [Pause] [Resumed] true 0 true true)).
  apply (vrun_send patient [Resume] [Resume] 0 (next running) (mkVcpu 0 100 [] [Resumed] true 0 true true)); [by apply resumed_run|done].
Defined.

(** Two events whose signals arrive before the guest is left: the flag is cleared once, one event is taken, and the
    exit event waits for a signal that does not come. *)
Lemma exit_event_stuck :
  let v := mkVcpu 0 100 [Exit] [Resumed; CacheRevalidated] true 0 false true in
  vrun (fun _ => True) [Resume; RevalidateCache; Exit] [Resume; RevalidateCache] 0 (next running) v quiet_machine /\
  sm_step (next running) v quiet_machine = Ret None.
Proof.
  split; [|done]. set (P := fun _ : Vcpu => True).
  assert (H0 : vrun P [Resume] [Resume] 0 (next running) (mkVcpu 0 100 [] [Resumed] true 0 false true) quiet_machine).
  { apply (vrun_thread P [Resume] [Resume] 0 (next running) (mkVcpu 0 100 [] [Resumed] true 0 true true) quiet_machine _ _ _ []); [by apply resumed_run|done|done]. }
  apply (vrun_send P _ _ _ _ _ _ RevalidateCache) in H0; [|done]. apply (vrun_send P _ _ _ _ _ _ Exit) in H0; [|done].
  apply vrun_kick, vrun_kick in H0.
  apply (vrun_thread P _ [Resume] 0 (next running) _ quiet_machine _ _ _ [RevalidateCache] H0); done.
Qed.
