(* ===== verification/VcpuManager.v ===== *)
(** The manager of vCPUs: creating, starting, stopping and resizing
    (dragonball/src/vcpu/vcpu_manager.rs, and resize_vcpu of vm/mod.rs).

    The threads, KVM and the upcall channel to the guest are a world of operations.  A join
    that never returns is [None]. *)

From S2P Require Import Prelude Resources BTreeMap IoManager Vcpu.

(** ** The world *)

(** [CpuDevRequest]: the number of vCPUs and their APIC identifiers. *)
Inductive DevMgrRequest : Type :=
| AddVcpu (count : Z) (apic_ids : list Z)
| DelVcpu (count : Z) (apic_ids : list Z).

Class VcpuWorld (W H : Type) := {
  kvm_create_vcpu : W -> Z -> result unit Z * W;
  vcpu_configure : W -> Z -> option Z -> result unit Z * W;
  start_threaded : W -> Z -> result H Z * W;
  barrier_wait : W -> W;
  send_event : W -> H -> VcpuEvent -> outcome (result unit Z * W);
  recv_timeout : W -> H -> option VcpuResponse * W;
  join_vcpu_thread : W -> H -> option W;
  upcall_send_request : W -> DevMgrRequest -> result unit Z * W;
}.

Inductive VcpuManagerError : Type :=
| ExpectedVcpuExceedMax
| VcpuNotFound (cpu : Z)
| VcpuGettid
| VcpuNotCreate
| VcpuEventFailed (e : Z)
| VcpuFailed (e : Z).

Inductive VcpuResizeError : Type :=
| VcpuIsHotplugging
| UpdateNotAllowedPostBoot
| ResizeExceedMax
| Vcpu0CanNotBeRemoved
| LackRemovableVcpus (removable to_remove present : Z)
| Upcall (e : Z)
| UpcallClientMissing
| UpcallServerNotReady
| ResizeVcpuError (e : VcpuManagerError).

Inductive VcpuAction : Type := NoAction | Hotplug | Hotunplug.

#[global] Instance VcpuAction_eq_dec : EqDecision VcpuAction.
Proof. solve_decision. Defined.

(** What the guest reports. *)
Inductive VcpuResizeResult : Type := Success | Failed.

Section Manager.
Context {W H : Type} `{VcpuWorld W H}.

Record VcpuInfo := mkVcpuInfo {
  vi_vcpu : bool;
  vi_fd : bool;
  vi_handle : option H;
  vi_tid : Z;
}.

Definition VcpuInfo_default : VcpuInfo := mkVcpuInfo false false None 0.

(** [vm_tids] is in the shared information; [vm_synced] is what was sent to the senders of [action_sycn_tx]. *)
Record VcpuManager := mkVcpuManager {
  vm_infos : list VcpuInfo;
  vm_max : Z;
  vm_boot : Z;
  vm_io_manager : bool;
  vm_reset_event : bool;
  vm_upcall : bool;
  vm_tids : list (Z * Z);
  vm_sync_tx : option Z;
  vm_synced : list (Z * bool);
  vm_action : VcpuAction * list Z;
}.
Implicit Types (m : VcpuManager) (w : W).

Definition VcpuManager_new (max boot kvm_max : Z) : result VcpuManager (Z * Z) :=
  if max >? kvm_max then Err (max, kvm_max)
  else Ok (mkVcpuManager (replicate (Z.to_nat max) VcpuInfo_default) max boot true false false [] None [] (NoAction, [])).

Definition set_vm_infos m (l : list VcpuInfo) : VcpuManager :=
  mkVcpuManager l (vm_max m) (vm_boot m) (vm_io_manager m) (vm_reset_event m) (vm_upcall m) (vm_tids m) (vm_sync_tx m) (vm_synced m) (vm_action m).
Definition set_vm_tids m (l : list (Z * Z)) : VcpuManager :=
  mkVcpuManager (vm_infos m) (vm_max m) (vm_boot m) (vm_io_manager m) (vm_reset_event m) (vm_upcall m) l (vm_sync_tx m) (vm_synced m) (vm_action m).
Definition set_vm_sync m (tx : option Z) (l : list (Z * bool)) : VcpuManager :=
  mkVcpuManager (vm_infos m) (vm_max m) (vm_boot m) (vm_io_manager m) (vm_reset_event m) (vm_upcall m) (vm_tids m) tx l (vm_action m).
Definition set_vcpus_action m (a : VcpuAction) (vcpus : list Z) : VcpuManager :=
  mkVcpuManager (vm_infos m) (vm_max m) (vm_boot m) (vm_io_manager m) (vm_reset_event m) (vm_upcall m) (vm_tids m) (vm_sync_tx m) (vm_synced m) (a, vcpus).
Definition set_reset_event_fd m : result VcpuManager unit :=
  if vm_reset_event m then Err tt
  else Ok (mkVcpuManager (vm_infos m) (vm_max m) (vm_boot m) (vm_io_manager m) true (vm_upcall m) (vm_tids m) (vm_sync_tx m) (vm_synced m) (vm_action m)).
Definition set_upcall_channel m (up : bool) : VcpuManager :=
  mkVcpuManager (vm_infos m) (vm_max m) (vm_boot m) (vm_io_manager m) (vm_reset_event m) up (vm_tids m) (vm_sync_tx m) (vm_synced m) (vm_action m).
Definition get_vcpus_action m : VcpuAction := fst (vm_action m).

(** [self.vcpu_infos.get(i)] and [self.vcpu_infos[i] = ..]. *)
Definition info_at m (cpu : Z) : option VcpuInfo := vm_infos m !! Z.to_nat cpu.
Definition put_info m (cpu : Z) (i : VcpuInfo) : VcpuManager := set_vm_infos m (<[Z.to_nat cpu := i]> (vm_infos m)).

Definition has_handle (i : VcpuInfo) : bool := match vi_handle i with Some _ => true | None => false end.

(** ** Counting *)

Definition present_vcpus m : list Z :=
  omap (fun '(i, info) => if has_handle info then Some (Z.of_nat i) else None) (imap pair (vm_infos m)).

Definition present_vcpus_count m : outcome Z :=
  foldl (fun acc info => let! sum := acc in add_u u8_max sum (if has_handle info then 1 else 0)) (Ret 0) (vm_infos m).

(** The loop of [calculate_available_vcpus] with [size] vCPUs to find. *)
Fixpoint find_available (cpus : list Z) m (size : Z) : outcome (list Z) :=
  match cpus with
  | [] => Ret []
  | cpu_id :: cpus =>
      let! info := unwrap (info_at m cpu_id) in
      if has_handle info then find_available cpus m size
      else
        let! size := sub_u size 1 in
        if size =? 0 then Ret [cpu_id]
        else let! rest := find_available cpus m size in Ret (cpu_id :: rest)
  end.

Definition calculate_available_vcpus m (vcpu_count : Z) : outcome (list Z) :=
  let! present := present_vcpus_count m in
  if present <? vcpu_count then find_available (seqZ 0 (vm_max m)) m (vcpu_count - present) else Ret [].

(** ** Creating *)

Definition create_vcpu m w (cpu_index : Z) (entry_addr : option Z) : outcome (result unit VcpuManagerError * VcpuManager * W) :=
  match info_at m cpu_index with
  | None => Ret (Err (VcpuNotFound cpu_index), m, w)
  | Some info =>
      let '(r, m, w) :=
        if vi_fd info then (Ok tt, m, w)
        else
          match kvm_create_vcpu w cpu_index with
          | (Err e, w) => (Err (VcpuFailed e), m, w)
          | (Ok _, w) => (Ok tt, put_info m cpu_index (mkVcpuInfo (vi_vcpu info) true (vi_handle info) (vi_tid info)), w)
          end in
      match r with
      | Err e => Ret (Err e, m, w)
      | Ok _ =>
          if negb (vm_io_manager m && vm_reset_event m) then Panic
          else
            match vcpu_configure w cpu_index entry_addr with
            | (Err e, w) => Ret (Err (VcpuFailed e), m, w)
            | (Ok _, w) => Ret (Ok tt, put_info m cpu_index (mkVcpuInfo true true (vi_handle info) (vi_tid info)), w)
            end
      end
  end.

Fixpoint create_each (cpus : list Z) m w (entry_addr : option Z) : outcome (result unit VcpuManagerError * VcpuManager * W) :=
  match cpus with
  | [] => Ret (Ok tt, m, w)
  | cpu_id :: cpus =>
      let! (r, m, w) := create_vcpu m w cpu_id entry_addr in
      match r with
      | Err e => Ret (Err e, m, w)
      | Ok _ => create_each cpus m w entry_addr
      end
  end.

Definition create_vcpus m w (vcpu_count : Z) (entry_addr : option Z) : outcome (result (list Z) VcpuManagerError * VcpuManager * W) :=
  if vcpu_count >? vm_max m then Ret (Err ExpectedVcpuExceedMax, m, w)
  else
    let! available := calculate_available_vcpus m vcpu_count in
    let! (r, m, w) := create_each available m w entry_addr in
    Ret (match r with Ok _ => Ok available | Err e => Err e end, m, w).

Definition create_boot_vcpus m w (entry_addr : Z) : outcome (result unit VcpuManagerError * VcpuManager * W) :=
  let! (r, m, w) := create_vcpus m w (vm_boot m) (Some entry_addr) in
  Ret (match r with Ok _ => Ok tt | Err e => Err e end, m, w).

(** ** Events to vCPUs *)

(** The loop that sends one event to each of [cpus]. *)
Fixpoint send_each (cpus : list Z) m w (e : VcpuEvent) : outcome (result unit VcpuManagerError * W) :=
  match cpus with
  | [] => Ret (Ok tt, w)
  | cpu_id :: cpus =>
      match info_at m cpu_id with
      | None => Ret (Err (VcpuNotFound cpu_id), w)
      | Some info =>
          match vi_handle info with
          | None => Ret (Err (VcpuNotFound cpu_id), w)
          | Some handle =>
              let! (r, w) := send_event w handle e in
              match r with
              | Err e => Ret (Err (VcpuEventFailed e), w)
              | Ok _ => send_each cpus m w e
              end
          end
      end
  end.

Definition pause_vcpus m w (cpus : list Z) := send_each cpus m w Pause.
Definition resume_vcpus m w (cpus : list Z) := send_each cpus m w Resume.
Definition revalidate_vcpus_cache m w (cpus : list Z) := send_each cpus m w RevalidateCache.

Definition pause_all_vcpus m w := pause_vcpus m w (present_vcpus m).
Definition resume_all_vcpus m w := resume_vcpus m w (present_vcpus m).
Definition revalidate_all_vcpus_cache m w := revalidate_vcpus_cache m w (present_vcpus m).

(** ** Starting *)

Definition start_vcpu m w (cpu_index : Z) : outcome (result unit VcpuManagerError * VcpuManager * W) :=
  match info_at m cpu_index with
  | None => Ret (Err (VcpuNotFound cpu_index), m, w)
  | Some info =>
      if vi_vcpu info then
        let m := put_info m cpu_index (mkVcpuInfo false (vi_fd info) (vi_handle info) (vi_tid info)) in
        match start_threaded w cpu_index with
        | (Err e, w) => Ret (Err (VcpuFailed e), m, w)
        | (Ok handle, w) => Ret (Ok tt, put_info m cpu_index (mkVcpuInfo false (vi_fd info) (Some handle) (vi_tid info)), w)
        end
      else Ret (Err VcpuNotCreate, m, w)
  end.

Fixpoint start_each (cpus : list Z) m w : outcome (result unit VcpuManagerError * VcpuManager * W) :=
  match cpus with
  | [] => Ret (Ok tt, m, w)
  | cpu_id :: cpus =>
      let! (r, m, w) := start_vcpu m w cpu_id in
      match r with
      | Err e => Ret (Err e, m, w)
      | Ok _ => start_each cpus m w
      end
  end.

(** The second loop of [get_vcpus_tid]. *)
Fixpoint recv_tids (cpus : list Z) m w : outcome (result unit VcpuManagerError * VcpuManager * W) :=
  match cpus with
  | [] => Ret (Ok tt, m, w)
  | cpu_id :: cpus =>
      let! info := unwrap (info_at m cpu_id) in
      match vi_handle info with
      | None => Ret (Err (VcpuNotFound cpu_id), m, w)
      | Some handle =>
          match recv_timeout w handle with
          | (Some (Tid _ id), w) => recv_tids cpus (put_info m cpu_id (mkVcpuInfo (vi_vcpu info) (vi_fd info) (vi_handle info) id)) w
          | (_, w) => Ret (Err VcpuGettid, m, w)
          end
      end
  end.

Definition get_vcpus_tid m w (cpus : list Z) : outcome (result unit VcpuManagerError * VcpuManager * W) :=
  let! (r, w) := send_each cpus m w Gettid in
  match r with
  | Err e => Ret (Err e, m, w)
  | Ok _ =>
      let! (r, m, w) := recv_tids cpus m w in
      match r with
      | Err e => Ret (Err e, m, w)
      | Ok _ =>
          let! tids := foldr (fun cpu_id acc => let! tids := acc in let! info := unwrap (info_at m cpu_id) in Ret ((cpu_id, vi_tid info) :: tids)) (Ret []) cpus in
          Ret (Ok tt, set_vm_tids m (vm_tids m ++ tids), w)
      end
  end.

Definition activate_vcpus m w (vcpu_count : Z) (need_resume : bool) : outcome (result (list Z) VcpuManagerError * VcpuManager * W) :=
  let! present := present_vcpus_count m in
  if vcpu_count >? vm_max m then Ret (Err ExpectedVcpuExceedMax, m, w)
  else if vcpu_count <? present then Ret (Ok [], m, w)
  else
    let! available := calculate_available_vcpus m vcpu_count in
    let! (r, m, w) := start_each available m w in
    match r with
    | Err e => Ret (Err e, m, w)
    | Ok _ =>
        let w := barrier_wait w in
        let! (r, m, w) := get_vcpus_tid m w available in
        match r with
        | Err e => Ret (Err e, m, w)
        | Ok _ =>
            if need_resume then
              let! (r, w) := resume_vcpus m w available in
              Ret (match r with Ok _ => Ok available | Err e => Err e end, m, w)
            else Ret (Ok available, m, w)
        end
    end.

(** [start_boot_vcpus] and [start_vcpus], the seccomp filter apart. *)
Definition start_boot_vcpus m w : outcome (result unit VcpuManagerError * VcpuManager * W) :=
  let! (r, m, w) := activate_vcpus m w (vm_boot m) true in
  Ret (match r with Ok _ => Ok tt | Err e => Err e end, m, w).

(** ** Stopping *)

(** The second loop of [exit_vcpus]; an error of a thread is only logged. *)
Fixpoint join_each (cpus : list Z) m w : outcome (option (VcpuManager * W)) :=
  match cpus with
  | [] => Ret (Some (m, w))
  | cpu_id :: cpus =>
      let! info := unwrap (info_at m cpu_id) in
      let! handle := unwrap (vi_handle info) in
      let m := put_info m cpu_id (mkVcpuInfo (vi_vcpu info) (vi_fd info) None (vi_tid info)) in
      match join_vcpu_thread w handle with
      | None => Ret None
      | Some w => join_each cpus m w
      end
  end.

Definition exit_vcpus m w (cpus : list Z) : outcome (option (result unit VcpuManagerError * VcpuManager * W)) :=
  let! (r, w) := send_each cpus m w Exit in
  match r with
  | Err e => Ret (Some (Err e, m, w))
  | Ok _ =>
      let! o := join_each cpus m w in
      match o with
      | None => Ret None
      | Some (m, w) =>
          let! n := sub_u (Z.of_nat (length (vm_tids m))) (Z.of_nat (length cpus)) in
          Ret (Some (Ok tt, set_vm_tids m (take (Z.to_nat n) (vm_tids m)), w))
      end
  end.

Definition exit_all_vcpus m w : outcome (option (result unit VcpuManagerError * VcpuManager * W)) :=
  let! o := exit_vcpus m w (present_vcpus m) in
  match o with
  | Some (Ok _, m, w) =>
      Ret (Some (Ok tt, mkVcpuManager [] (vm_max m) (vm_boot m) false (vm_reset_event m) (vm_upcall m) (vm_tids m) (vm_sync_tx m) (vm_synced m) (vm_action m), w))
  | o => Ret o
  end.

Definition stop_vcpus_in_action m w := exit_vcpus m w (snd (vm_action m)).

(** ** Resizing *)

Definition sync_action_finish m (got_error : bool) : VcpuManager :=
  match vm_sync_tx m with
  | Some tx => set_vm_sync m None (vm_synced m ++ [(tx, got_error)])
  | None => m
  end.

(** The vCPUs that [do_add_vcpu] rolls back. *)
Definition activated m (created : list Z) : outcome (list Z) :=
  foldr (fun cpu_id acc => let! l := acc in let! info := unwrap (info_at m cpu_id) in Ret (if has_handle info then cpu_id :: l else l)) (Ret []) created.

(** The array of 256 identifiers. *)
Definition id_array (cpus : list Z) : list Z := cpus ++ replicate (256 - length cpus) 0.

Definition do_add_vcpu m w (vcpu_count : Z) : outcome (option (result unit VcpuResizeError * VcpuManager * W)) :=
  if vcpu_count >? vm_max m then Ret (Some (Err ResizeExceedMax, m, w))
  else
    let! (r, m, w) := create_vcpus m w vcpu_count None in
    match r with
    | Err e => Ret (Some (Err (ResizeVcpuError e), m, w))
    | Ok created =>
        let! (r, m, w) := activate_vcpus m w vcpu_count true in
        match r with
        | Err e =>
            let! cpus := activated m created in
            let! o := exit_vcpus m w cpus in
            Ret (match o with None => None | Some (_, m, w) => Some (Err (ResizeVcpuError e), m, w) end)
        | Ok cpu_ids =>
            match upcall_send_request w (AddVcpu (Z.of_nat (length cpu_ids)) (id_array cpu_ids)) with
            | (Err e, w) => Ret (Some (Err (Upcall e), m, w))
            | (Ok _, w) => Ret (Some (Ok tt, set_vcpus_action m Hotplug cpu_ids, w))
            end
        end
    end.

Definition calculate_removable_vcpus m : list Z := present_vcpus m.

Definition do_del_vcpu m w (vcpu_count : Z) : outcome (result unit VcpuResizeError * VcpuManager * W) :=
  if vcpu_count =? 0 then Ret (Err Vcpu0CanNotBeRemoved, m, w)
  else
    let cpu_ids := calculate_removable_vcpus m in
    let! present := present_vcpus_count m in
    let! n := sub_u present vcpu_count in
    if n >=? Z.of_nat (length cpu_ids) then Ret (Err (LackRemovableVcpus (Z.of_nat (length cpu_ids)) n present), m, w)
    else
      let cpu_ids := take (Z.to_nat n) (reverse cpu_ids) in
      match upcall_send_request w (DelVcpu n (id_array cpu_ids)) with
      | (Err e, w) => Ret (Err (Upcall e), m, w)
      | (Ok _, w) => Ret (Ok tt, set_vcpus_action m Hotunplug cpu_ids, w)
      end.

Definition resize_vcpu m w (vcpu_count : Z) (sync_tx : option Z) : outcome (option (result unit VcpuResizeError * VcpuManager * W)) :=
  if negb (bool_decide (get_vcpus_action m = NoAction)) then Ret (Some (Err VcpuIsHotplugging, m, w))
  else
    let m := set_vm_sync m sync_tx (vm_synced m) in
    if vm_upcall m then
      let! now_vcpu := present_vcpus_count m in
      match vcpu_count ?= now_vcpu with
      | Eq => Ret (Some (Ok tt, sync_action_finish m false, w))
      | Gt => do_add_vcpu m w vcpu_count
      | Lt => let! r := do_del_vcpu m w vcpu_count in Ret (Some r)
      end
    else Ret (Some (Err UpdateNotAllowedPostBoot, m, w)).

(** ** The answer of the guest *)

(** What the callback of [send_upcall_action] makes of a response: the result of a CPU request is 0 for success,
    a reset of the channel counts as success, other responses are dropped. *)
Inductive UpcallClientResponse : Type :=
| CpuDevResponse (res apic_id_index : Z)
| OtherDevResponse
| UpcallReset.

Definition upcall_event (r : UpcallClientResponse) : option (VcpuResizeResult * Z) :=
  match r with
  | CpuDevResponse res apic_id_index => Some (if res =? 0 then Success else Failed, apic_id_index)
  | OtherDevResponse => None
  | UpcallReset => Some (Success, 0)
  end.

Definition process_cpu_action m w (r : VcpuResizeResult) : outcome (option (VcpuManager * W)) :=
  match r with
  | Failed => Ret (Some (m, w))
  | Success =>
      let! o :=
        match get_vcpus_action m with
        | Hotplug => Ret (Some (sync_action_finish m false, w))
        | Hotunplug =>
            let! o := stop_vcpus_in_action m w in
            Ret (match o with None => None | Some (_, m, w) => Some (sync_action_finish m false, w) end)
        | NoAction => Ret (Some (m, w))
        end in
      Ret (match o with
           | None => None
           | Some (m, w) => Some (sync_action_finish (set_vcpus_action m NoAction []) true, w)
           end)
  end.

(** [process_cpu_state_event] on the events in the channel. *)
Fixpoint process_cpu_state_event (events : list (VcpuResizeResult * Z)) m w : outcome (option (VcpuManager * W)) :=
  match events with
  | [] => Ret (Some (m, w))
  | (success, _) :: events =>
      let! o := process_cpu_action m w success in
      match o with
      | None => Ret None
      | Some (m, w) => process_cpu_state_event events m w
      end
  end.

(** [Vm::resize_vcpu]; the number of vCPUs of the configuration is [count]. *)
Definition Vm_resize_vcpu (client ready : bool) (count : Z) m w (config : option Z) (sync_tx : option Z) :
  outcome (option (result unit VcpuResizeError * Z * VcpuManager * W)) :=
  if negb client then Ret (Some (Err UpcallClientMissing, count, m, w))
  else if ready then
    match config with
    | None => Ret (Some (Ok tt, count, m, w))
    | Some vcpu_count =>
        let! o := resize_vcpu m w vcpu_count sync_tx in
        Ret (match o with
             | None => None
             | Some (Ok _, m, w) => Some (Ok tt, vcpu_count, m, w)
             | Some (Err e, m, w) => Some (Err e, count, m, w)
             end)
    end
  else Ret (Some (Err UpcallServerNotReady, count, m, w)).
End Manager.
Arguments VcpuInfo : clear implicits.
Arguments VcpuManager : clear implicits.
