(* ===== verification/VcpuManagerSpec.v ===== *)
(** Correctness of the vCPU manager: the vCPUs present are always the first ones, resizing adds and removes at the
    end, and what goes wrong when threads or the guest do. *)

From stdpp Require Import sorting.
From S2P Require Import Prelude Resources BTreeMap IoManager Vcpu VcpuSpec VcpuManager.

(** ** What is known of threads *)

(** Threads may fail to start, may have ended when an event is sent, may not answer, and may never end.  What is known:
    which threads there are and whether they have passed the barrier they are started with; that the calls to KVM and
    the guest leave them alone; and that a thread at the barrier takes events into its channel and does not end. *)
Class ThreadLaws (W H : Type) `{VcpuWorld W H} `{Countable H} := {
  threads : W -> gmap H bool;
  create_law w i r w' : kvm_create_vcpu w i = (r, w') -> threads w' = threads w;
  configure_law w i a r w' : vcpu_configure w i a = (r, w') -> threads w' = threads w;
  upcall_law w q r w' : upcall_send_request w q = (r, w') -> threads w' = threads w;
  start_law w i h w' : start_threaded w i = (Ok h, w') -> threads w !! h = None /\ threads w' = <[h := false]> (threads w);
  start_fail_law w i e w' : start_threaded w i = (Err e, w') -> threads w' = threads w;
  barrier_law w : threads (barrier_wait w) = (fun _ => true) <$> threads w;
  send_law w h e r w' : send_event w h e = Ret (r, w') -> threads w' = threads w;
  send_waiting_law w h e : threads w !! h = Some false -> exists w', send_event w h e = Ret (Ok tt, w');
  recv_law w h r w' : recv_timeout w h = (r, w') -> threads w' = threads w;
  join_law w h w' : join_vcpu_thread w h = Some w' -> threads w' = delete h (threads w);
  join_waiting_law w h : threads w !! h = Some false -> join_vcpu_thread w h = None;
}.

(** ** What the manager does to a list of threads *)

Section Threads.
Context {W H : Type} `{VcpuWorld W H}.

(** Threads for the vCPUs [cpus], up to the first that cannot be started. *)
Fixpoint start_all (cpus : list Z) (w : W) : list H * option Z * W :=
  match cpus with
  | [] => ([], None, w)
  | cpu :: cpus =>
      match start_threaded w cpu with
      | (Err e, w) => ([], Some e, w)
      | (Ok h, w) => let '(new, failed, w) := start_all cpus w in (h :: new, failed, w)
      end
  end.

(** An event to each thread, up to the first that cannot be signalled. *)
Fixpoint tell (hl : list H) (w : W) (e : VcpuEvent) : outcome (result unit Z * W) :=
  match hl with
  | [] => Ret (Ok tt, w)
  | h :: hl =>
      let! (r, w) := send_event w h e in
      match r with
      | Err x => Ret (Err x, w)
      | Ok _ => tell hl w e
      end
  end.

(** The ids that the threads answer with. *)
Fixpoint recv_all (hl : list H) (w : W) : option (list Z) * W :=
  match hl with
  | [] => (Some [], w)
  | h :: hl =>
      match recv_timeout w h with
      | (Some (Tid _ id), w) => let '(ids, w) := recv_all hl w in (cons id <$> ids, w)
      | (_, w) => (None, w)
      end
  end.

(** Asking all threads for their ids. *)
Definition ask_ids (hl : list H) (w : W) : outcome (result (list Z) VcpuManagerError * W) :=
  let! (r, w) := tell hl w Gettid in
  match r with
  | Err x => Ret (Err (VcpuEventFailed x), w)
  | Ok _ => let '(ids, w) := recv_all hl w in Ret (match ids with Some ids => Ok ids | None => Err VcpuGettid end, w)
  end.

(** Waiting for the end of each thread. *)
Fixpoint join_all (hl : list H) (w : W) : option W :=
  match hl with
  | [] => Some w
  | h :: hl => match join_vcpu_thread w h with Some w => join_all hl w | None => None end
  end.
End Threads.

Section Spec.
Context {W H : Type} `{ThreadLaws W H}.
Implicit Types (m : VcpuManager H) (w : W) (hs : list H).

(** ** The vCPUs present *)

(** The handles are those of the first vCPUs. *)
Definition shape m hs : Prop :=
  (length hs <= length (vm_infos m))%nat /\ forall i info, vm_infos m !! i = Some info -> vi_handle info = hs !! i.

Lemma present_from (l : list (VcpuInfo H)) hs k :
  (length hs <= length l)%nat -> (forall i info, l !! i = Some info -> vi_handle info = hs !! i) ->
  omap (fun '(i, info) => if has_handle info then Some (Z.of_nat i) else None) (imap (fun i x => ((k + i)%nat, x)) l) = Z.of_nat <$> seq k (length hs).
Proof.
  revert hs k. induction l as [|x l IH]; intros hs k Hl Hs; [by destruct hs; [|cbn in Hl; lia]|].
  rewrite imap_cons. specialize (Hs 0%nat x eq_refl) as Hx. assert (E : imap ((fun i x => ((k + i)%nat, x)) ∘ S) l = imap (fun i x => ((S k + i)%nat, x)) l)
    by (apply imap_ext; intros i y _; cbn; f_equal; lia). rewrite E, Nat.add_0_r. clear E.
  destruct hs as [|h hs]; cbn in Hx |- *; unfold has_handle; rewrite Hx.
  - apply (IH [] (S k)); [cbn; lia|]. intros i info Hi. rewrite lookup_nil. specialize (Hs (S i) info Hi). by rewrite lookup_nil in Hs.
  - f_equal. apply (IH hs (S k)); [cbn in Hl; lia|]. intros i info Hi. apply (Hs (S i) info Hi).
Qed.

Lemma present_ok m hs : shape m hs -> present_vcpus m = seqZ 0 (Z.of_nat (length hs)).
Proof.
  intros [Hl Hs]. unfold present_vcpus.
  etransitivity; [apply (present_from _ hs 0 Hl Hs)|]. unfold seqZ. rewrite Nat2Z.id. apply list_fmap_ext. intros i x _. lia.
Qed.

Lemma count_from (l : list (VcpuInfo H)) hs k :
  (length hs <= length l)%nat -> (forall i info, l !! i = Some info -> vi_handle info = hs !! i) -> 0 <= k -> k + Z.of_nat (length hs) <= u8_max ->
  foldl (fun acc info => let! sum := acc in add_u u8_max sum (if has_handle info then 1 else 0)) (Ret k) l = Ret (k + Z.of_nat (length hs)).
Proof.
  revert hs k. induction l as [|x l IH]; intros hs k Hl Hs Hk Hm; [destruct hs; [cbn; by rewrite Z.add_0_r|cbn in Hl; lia]|].
  specialize (Hs 0%nat x eq_refl) as Hx. cbn [foldl obind].
  assert (Eh : has_handle x = match hs with [] => false | _ => true end) by (unfold has_handle; rewrite Hx; by destruct hs). rewrite Eh. destruct hs as [|h hs]; cbn [lookup list_lookup length] in *.
  - rewrite add_u_ret by lia. rewrite Z.add_0_r. rewrite (IH [] k); [done|cbn; lia| |lia|cbn; lia].
    intros i info Hi. rewrite lookup_nil. specialize (Hs (S i) info Hi). by rewrite lookup_nil in Hs.
  - rewrite add_u_ret by lia. rewrite (IH hs (k + 1)); [f_equal; lia|lia| |lia|lia]. intros i info Hi. apply (Hs (S i) info Hi).
Qed.

Lemma count_ok m hs : shape m hs -> Z.of_nat (length hs) <= u8_max -> present_vcpus_count m = Ret (Z.of_nat (length hs)).
Proof. intros [Hl Hs] Hm. unfold present_vcpus_count. by rewrite (count_from _ hs 0 Hl Hs). Qed.

Lemma shape_info m hs i : shape m hs -> 0 <= i < Z.of_nat (length (vm_infos m)) ->
  exists info, info_at m i = Some info /\ vi_handle info = hs !! Z.to_nat i.
Proof.
  intros [Hl Hs] Hi. unfold info_at. destruct (vm_infos m !! Z.to_nat i) as [info|] eqn:E; [|apply lookup_ge_None in E; lia].
  exists info. split; [done|]. by apply Hs.
Qed.

(** ** Which vCPUs are free *)

Lemma find_free m hs size k : shape m hs -> 0 < size -> Z.of_nat (length hs) <= k -> k + size <= Z.of_nat (length (vm_infos m)) ->
  forall rest, find_available (seqZ k size ++ rest) m size = Ret (seqZ k size).
Proof.
  intros Hs Hpos. remember (Z.to_nat size) as n eqn:Hn. revert size k Hn Hpos. induction n as [|n IH]; intros size k Hn Hpos Hk Hm rest; [lia|].
  rewrite (seqZ_cons k size) by lia. cbn [app find_available]. destruct (shape_info m hs k Hs) as (info & -> & Hi); [lia|]. cbn [unwrap obind].
  unfold has_handle. rewrite Hi, (proj2 (lookup_ge_None hs (Z.to_nat k))) by lia. rewrite sub_u_ret by lia. cbn [obind].
  destruct (Z.eqb_spec (size - 1) 0) as [E|E].
  - replace (Z.pred size) with 0 by lia. done.
  - replace (Z.pred size) with (size - 1) by lia. rewrite <- Z.add_1_r, (IH (size - 1) (k + 1)) by lia. done.
Qed.

Lemma find_skip m hs size k rest : shape m hs -> 0 <= k <= Z.of_nat (length hs) ->
  find_available (seqZ k (Z.of_nat (length hs) - k) ++ rest) m size = find_available rest m size.
Proof.
  intros Hs. remember (Z.to_nat (Z.of_nat (length hs) - k)) as n eqn:Hn. revert k Hn. induction n as [|n IH]; intros k Hn Hk.
  - by replace (Z.of_nat (length hs) - k) with 0 by lia.
  - rewrite seqZ_cons by lia. cbn [app find_available]. destruct Hs as [Hl Hs']. destruct (shape_info m hs k (conj Hl Hs')) as (info & -> & Hi); [lia|].
    cbn [unwrap obind]. unfold has_handle. destruct (hs !! Z.to_nat k) as [h|] eqn:Eh; [|apply lookup_ge_None in Eh; lia]. rewrite Hi.
    replace (Z.pred (Z.of_nat (length hs) - k)) with (Z.of_nat (length hs) - (k + 1)) by lia. rewrite <- Z.add_1_r. apply IH; lia.
Qed.

Lemma available_ok m hs c : shape m hs -> length (vm_infos m) = Z.to_nat (vm_max m) -> 0 <= vm_max m <= u8_max -> c <= vm_max m ->
  calculate_available_vcpus m c = Ret (seqZ (Z.of_nat (length hs)) (c - Z.of_nat (length hs))).
Proof.
  intros Hs Hlen Hmax Hc. pose proof (proj1 Hs) as Hl. unfold calculate_available_vcpus. rewrite (count_ok m hs Hs) by lia. cbn [obind].
  destruct (Z.ltb_spec (Z.of_nat (length hs)) c) as [Hlt|Hge]; [|by rewrite (seqZ_nil _ (c - _)) by lia].
  replace (seqZ 0 (vm_max m)) with (seqZ 0 (Z.of_nat (length hs) - 0) ++ seqZ (Z.of_nat (length hs)) (c - Z.of_nat (length hs)) ++ seqZ c (vm_max m - c)).
  - rewrite (find_skip m hs) by (done || lia). apply (find_free m hs); (done || lia).
  - replace (vm_max m) with ((Z.of_nat (length hs) - 0) + ((c - Z.of_nat (length hs)) + (vm_max m - c))) by lia.
    rewrite (seqZ_app 0) by lia. f_equal. rewrite (seqZ_app _ (c - _)) by lia. f_equal; [f_equal; lia|]. f_equal; lia.
Qed.

(** ** Changes to the table *)

(** All but the table. *)
Definition rest m := (vm_max m, vm_boot m, vm_io_manager m, vm_reset_event m, vm_upcall m, vm_tids m, (vm_sync_tx m, vm_synced m, vm_action m)).

Lemma rest_fields m m' : rest m' = rest m ->
  vm_max m' = vm_max m /\ vm_boot m' = vm_boot m /\ vm_io_manager m' = vm_io_manager m /\ vm_reset_event m' = vm_reset_event m /\ vm_upcall m' = vm_upcall m /\
  vm_tids m' = vm_tids m /\ vm_action m' = vm_action m.
Proof. unfold rest. by intros [= -> -> -> -> -> -> _ _ ->]. Qed.

Definition keeps_handles m m' : Prop :=
  length (vm_infos m') = length (vm_infos m) /\ forall i, vi_handle <$> vm_infos m' !! i = vi_handle <$> vm_infos m !! i.

#[local] Instance keeps_handles_trans : Transitive keeps_handles.
Proof. intros m1 m2 m3 [Ha Ha'] [Hb Hb']. split; [congruence|]. intros i. by rewrite Hb', Ha'. Qed.

#[local] Instance keeps_handles_refl : Reflexive keeps_handles.
Proof. done. Qed.

Lemma keeps_shape m m' hs : keeps_handles m m' -> shape m hs -> shape m' hs.
Proof.
  intros [Hl Hk] [Hls Hs]. split; [lia|]. intros i info Hi. specialize (Hk i). rewrite Hi in Hk. cbn in Hk.
  destruct (vm_infos m !! i) as [info0|] eqn:E; [|done]. injection Hk as ->. by apply Hs.
Qed.

Lemma put_info_at m c info j : 0 <= c -> 0 <= j -> c <> j -> info_at (put_info m c info) j = info_at m j.
Proof. intros. unfold info_at, put_info, set_vm_infos. cbn. apply list_lookup_insert_ne. lia. Qed.

Lemma put_info_same m c info : is_Some (info_at m c) -> info_at (put_info m c info) c = Some info.
Proof. unfold info_at, put_info, set_vm_infos. cbn. intros Hs%lookup_lt_is_Some. by apply list_lookup_insert_eq. Qed.

Lemma put_info_keeps m c info info' : info_at m c = Some info -> vi_handle info' = vi_handle info -> keeps_handles m (put_info m c info').
Proof.
  intros Hi Hh. unfold info_at, put_info, set_vm_infos, keeps_handles in *. cbn. split; [apply length_insert|]. intros i.
  destruct (decide (i = Z.to_nat c)) as [->|Hne]; [|by rewrite list_lookup_insert_ne by done].
  rewrite list_lookup_insert_eq by (by eapply lookup_lt_Some). rewrite Hi. cbn. by rewrite Hh.
Qed.

(** ** Creating *)

Definition created_ok m (cpu : Z) : Prop := exists info, info_at m cpu = Some info /\ vi_vcpu info = true.

Lemma create_vcpu_ok m w cpu a : vm_io_manager m = true -> vm_reset_event m = true -> 0 <= cpu < Z.of_nat (length (vm_infos m)) ->
  exists r m' w', create_vcpu m w cpu a = Ret (r, m', w') /\ rest m' = rest m /\ keeps_handles m m' /\ threads w' = threads w /\
    (r = Ok tt -> created_ok m' cpu) /\ forall j, 0 <= j -> j <> cpu -> info_at m' j = info_at m j.
Proof.
  intros Hio Hre Hc. unfold create_vcpu. destruct (info_at m cpu) as [info|] eqn:Hi; [|unfold info_at in Hi; apply lookup_ge_None in Hi; lia].
  assert (Hcfg : forall m1 w1 info1, info_at m1 cpu = Some info1 -> vi_handle info1 = vi_handle info -> rest m1 = rest m -> keeps_handles m m1 -> threads w1 = threads w ->
    (forall j, 0 <= j -> j <> cpu -> info_at m1 j = info_at m j) ->
    exists r m' w', (if negb (vm_io_manager m1 && vm_reset_event m1) then Panic else
      match vcpu_configure w1 cpu a with
      | (Err e, w) => Ret (Err (VcpuFailed e), m1, w)
      | (Ok _, w) => Ret (Ok tt, put_info m1 cpu (mkVcpuInfo true true (vi_handle info) (vi_tid info)), w)
      end) = Ret (r, m', w') /\ rest m' = rest m /\ keeps_handles m m' /\ threads w' = threads w /\
      (r = Ok tt -> created_ok m' cpu) /\ forall j, 0 <= j -> j <> cpu -> info_at m' j = info_at m j).
  { intros m1 w1 info1 Hi1 Hh1 Hr1 Hk1 Ht1 Hj1. destruct (rest_fields _ _ Hr1) as (_ & _ & -> & -> & _). rewrite Hio, Hre.
    cbn [andb negb]. destruct (vcpu_configure w1 cpu a) as [[u|e] w2] eqn:Ec; apply configure_law in Ec; eexists _, _, _; (split; [reflexivity|]).
    - split; [by rewrite <- Hr1|]. split; [etransitivity; [exact Hk1|by eapply put_info_keeps]|]. split; [congruence|]. split.
      + intros _. eexists. split; [by apply put_info_same|done].
      + intros j Hj Hne. rewrite put_info_at by (done || lia). by apply Hj1.
    - split_and!; try done. congruence. }
  destruct (vi_fd info).
  - by apply (Hcfg m w info).
  - destruct (kvm_create_vcpu w cpu) as [[u|e] w1] eqn:Ek; apply create_law in Ek.
    + apply (Hcfg _ _ (mkVcpuInfo (vi_vcpu info) true (vi_handle info) (vi_tid info))); try done.
      * by apply put_info_same.
      * by eapply put_info_keeps.
      * intros j Hj Hne. apply put_info_at; lia.
    + eexists _, _, _. by split_and!.
Qed.

Lemma create_vcpus_ok cpus m w a : vm_io_manager m = true -> vm_reset_event m = true ->
  Forall (fun cpu => 0 <= cpu < Z.of_nat (length (vm_infos m))) cpus -> NoDup cpus ->
  exists r m' w', create_each cpus m w a = Ret (r, m', w') /\ rest m' = rest m /\ keeps_handles m m' /\ threads w' = threads w /\
    (r = Ok tt -> Forall (created_ok m') cpus) /\ forall j, 0 <= j -> j ∉ cpus -> info_at m' j = info_at m j.
Proof.
  revert m w. induction cpus as [|cpu cpus IH]; intros m w Hio Hre Hc Hd; cbn [create_each]; [by exists (Ok tt), m, w|].
  apply Forall_cons in Hc as [Hc Hcs]. apply NoDup_cons in Hd as [Hni Hd].
  destruct (create_vcpu_ok m w cpu a Hio Hre Hc) as (r & m1 & w1 & -> & Hr1 & Hk1 & Ht1 & Hok1 & Hj1). cbn [obind]. destruct r as [[]|e].
  - destruct (rest_fields _ _ Hr1) as (_ & _ & Eio & Ere & _).
    destruct (IH m1 w1) as (r & m2 & w2 & -> & Hr2 & Hk2 & Ht2 & Hok2 & Hj2); [congruence|congruence|by rewrite (proj1 Hk1)|done|].
    exists r, m2, w2. split; [done|]. split; [congruence|]. split; [by etransitivity|]. split; [congruence|]. split.
    + intros ->. constructor; [|by apply Hok2]. destruct (Hok1 eq_refl) as (info & Hi & Hv). exists info. split; [|done]. rewrite Hj2; [done|lia|done].
    + intros j Hj Hn. rewrite Hj2, Hj1; [done|done|set_solver|done|set_solver].
  - exists (Err e), m1, w1. split_and!; try done. intros j Hj Hn. apply Hj1; [done|set_solver].
Qed.

(** ** Starting *)

Lemma shape_put m hs info h : shape m hs -> (length hs < length (vm_infos m))%nat -> vi_handle info = Some h ->
  shape (put_info m (Z.of_nat (length hs)) info) (hs ++ [h]).
Proof.
  intros [Hl Hs] Hlt Hh. unfold shape, put_info, set_vm_infos. cbn [vm_infos]. rewrite Nat2Z.id, length_insert, length_app. cbn [length]. split; [lia|].
  intros i info' Hi. destruct (decide (i = length hs)) as [->|Hne].
  - rewrite list_lookup_insert_eq in Hi by done. injection Hi as <-. rewrite lookup_app_r, Nat.sub_diag by lia. done.
  - rewrite list_lookup_insert_ne in Hi by done. rewrite (Hs i info' Hi). destruct (decide (i < length hs)%nat).
    + by rewrite lookup_app_l by done.
    + rewrite (proj2 (lookup_ge_None hs i)) by lia. symmetry. apply lookup_ge_None. rewrite length_app. cbn. lia.
Qed.

Lemma created_put m c info cpus : 0 <= c -> c ∉ cpus -> Forall (Z.le 0) cpus -> Forall (created_ok m) cpus -> Forall (created_ok (put_info m c info)) cpus.
Proof.
  intros Hc Hni Hpos Hok. rewrite Forall_forall in *. intros j Hj. destruct (Hok j Hj) as (i & Hi & Hv). exists i. split; [|done].
  rewrite put_info_at; [done|done|by apply Hpos|set_solver].
Qed.

(** The threads started are those of the next vCPUs, and wait at the barrier. *)
Lemma start_each_ok cpus m w hs :
  shape m hs -> cpus = seqZ (Z.of_nat (length hs)) (Z.of_nat (length cpus)) -> (length hs + length cpus <= length (vm_infos m))%nat -> Forall (created_ok m) cpus ->
  NoDup hs -> (forall h, h ∈ hs -> is_Some (threads w !! h)) ->
  let '(new, failed, w') := start_all cpus w in
  exists m', start_each cpus m w = Ret (match failed with Some x => Err (VcpuFailed x) | None => Ok tt end, m', w') /\
    (length new <= length cpus)%nat /\ (failed = None -> length new = length cpus) /\
    shape m' (hs ++ new) /\ NoDup (hs ++ new) /\ rest m' = rest m /\ length (vm_infos m') = length (vm_infos m) /\
    (forall h, h ∈ new -> threads w' !! h = Some false) /\ (forall h, is_Some (threads w !! h) -> threads w' !! h = threads w !! h).
Proof.
  revert m w hs. induction cpus as [|cpu cpus IH]; intros m w hs Hs Hseq Hl Hc Hd Hth; cbn [start_all start_each].
  { exists m. rewrite app_nil_r. split_and!; try done. by intros h ?%elem_of_nil. }
  cbn [length] in *. rewrite seqZ_cons in Hseq by lia. replace (Z.pred (Z.of_nat (S (length cpus)))) with (Z.of_nat (length cpus)) in Hseq by lia. injection Hseq as Hcpu Hseq.
  apply Forall_cons in Hc as [(info & Hi & Hv) Hc]. unfold start_vcpu. rewrite Hi, Hv. destruct (start_threaded w cpu) as [[h|e] w1] eqn:Es.
  2:{ cbn [obind]. eexists. rewrite app_nil_r. split; [reflexivity|]. pose proof (start_fail_law _ _ _ _ Es) as ->.
      assert (Hk : keeps_handles m (put_info m cpu (mkVcpuInfo false (vi_fd info) (vi_handle info) (vi_tid info)))) by (by eapply put_info_keeps).
      split_and!; try done; [cbn; lia|by eapply keeps_shape|apply Hk|by intros h ?%elem_of_nil]. }
  cbn [obind]. set (m1 := put_info m _ _). set (m2 := put_info m1 _ _). destruct (start_law _ _ _ _ Es) as [Hfresh Ht1].
  assert (Hk1 : keeps_handles m m1) by (by eapply put_info_keeps). assert (Hs2 : shape m2 (hs ++ [h])).
  { unfold m2. rewrite Hcpu. apply shape_put; [by eapply keeps_shape|rewrite (proj1 Hk1); lia|done]. }
  assert (Hl2 : length (vm_infos m2) = length (vm_infos m)) by (unfold m2, put_info, set_vm_infos; cbn; rewrite length_insert; apply Hk1).
  assert (Hnh : h ∉ hs) by (intros Hin; destruct (Hth h Hin) as [x Hx]; congruence).
  assert (Hcpos : Forall (Z.le 0) cpus /\ cpu ∉ cpus).
  { rewrite Hseq. split; [apply Forall_forall; intros j Hj%elem_of_seqZ; lia|rewrite elem_of_seqZ; lia]. }
  specialize (IH m2 w1 (hs ++ [h])). destruct (start_all cpus w1) as [[new failed] w']. destruct IH as (m' & E & Hn & Hok & Hs' & Hd' & Hr' & Hl' & Hnew & Hold).
  - done.
  - rewrite Hseq at 1. rewrite length_app. cbn [length]. f_equal. lia.
  - rewrite length_app, Hl2. cbn. lia.
  - apply created_put; [lia|by apply Hcpos..|]. apply created_put; [lia|by apply Hcpos..|done].
  - apply NoDup_app. split_and!; [done|set_solver|apply NoDup_singleton].
  - intros h' [Hin|Hin]%elem_of_app; rewrite Ht1.
    + rewrite lookup_insert_ne by set_solver. by apply Hth.
    + apply list_elem_of_singleton in Hin as ->. rewrite lookup_insert_eq. by eexists.
  - exists m'. split; [exact E|]. rewrite <- app_assoc in Hs', Hd'. cbn [app length] in *. split_and!; try done; try lia.
    + intros Hf. by rewrite Hok.
    + intros h' [->|Hin]%elem_of_cons; [|by apply Hnew]. rewrite Hold; rewrite Ht1, lookup_insert_eq; [done|by eexists].
    + intros h' [x Hx]. assert (h' <> h) by congruence. rewrite Hold; rewrite Ht1, lookup_insert_ne by done; [done|by eexists].
Qed.

(** ** Sending *)

(** The handles of [cpus]. *)
Definition handles m (cpus : list Z) (hl : list H) : Prop :=
  Forall2 (fun cpu h => exists info, info_at m cpu = Some info /\ vi_handle info = Some h) cpus hl.

Lemma shape_handles m hs k l : shape m hs -> (k + l = length hs)%nat -> handles m (seqZ (Z.of_nat k) (Z.of_nat l)) (drop k hs).
Proof.
  intros Hs Hkl. unfold handles. apply Forall2_same_length_lookup_2.
  - rewrite length_seqZ, length_drop. lia.
  - intros i c h Hc Hh. apply lookup_seqZ in Hc as [-> Hi]. rewrite lookup_drop in Hh. pose proof (lookup_lt_Some _ _ _ Hh). destruct Hs as [Hl Hs].
    destruct (shape_info m hs (Z.of_nat k + Z.of_nat i) (conj Hl Hs)) as (info & Hi' & Hh'); [lia|]. exists info. split; [done|].
    rewrite Hh', <- Hh. f_equal. lia.
Qed.

Lemma send_each_tell cpus hl m w e : handles m cpus hl ->
  send_each cpus m w e = (let! (r, w) := tell hl w e in Ret (match r with Ok _ => Ok tt | Err x => Err (VcpuEventFailed x) end, w)).
Proof.
  intros Hh. revert w. induction Hh as [|cpu h cpus hl (info & Hi & Hih) Hh IH]; intros w; cbn [send_each tell obind]; [done|].
  rewrite Hi, Hih. destruct (send_event w h e) as [[[[]|x] w1]|]; cbn [obind]; [apply IH|done|done].
Qed.

Lemma tell_threads hl w e r w' : tell hl w e = Ret (r, w') -> threads w' = threads w.
Proof.
  revert w. induction hl as [|h hl IH]; intros w; cbn [tell]; [by intros [= _ <-]|]. destruct (send_event w h e) as [[r1 w1]|] eqn:E; cbn [obind]; [|done].
  apply send_law in E. destruct r1; [intros ->%IH; done|intros [= _ <-]; done].
Qed.

Lemma tell_waiting hl w e : (forall h, h ∈ hl -> threads w !! h = Some false) -> exists w', tell hl w e = Ret (Ok tt, w') /\ threads w' = threads w.
Proof.
  revert w. induction hl as [|h hl IH]; intros w Hw; cbn [tell]; [by exists w|]. destruct (send_waiting_law w h e) as [w1 E]; [apply Hw; set_solver|].
  rewrite E. cbn [obind]. apply send_law in E. destruct (IH w1) as (w' & -> & Ht); [intros h' Hh'; rewrite E; apply Hw; set_solver|]. exists w'. split; [done|congruence].
Qed.

(** ** Thread ids *)

Lemma handles_keeps m m' cpus hl : keeps_handles m m' -> handles m cpus hl -> handles m' cpus hl.
Proof.
  intros [_ Hk] Hf. eapply Forall2_impl; [exact Hf|]. intros cpu h (info & Hi & Hh). specialize (Hk (Z.to_nat cpu)). unfold info_at in *. rewrite Hi in Hk.
  destruct (vm_infos m' !! Z.to_nat cpu) as [info'|]; [|done]. cbn in Hk. injection Hk as Hk. exists info'. split; [done|]. congruence.
Qed.

Lemma recv_all_threads hl w ids w' : recv_all hl w = (ids, w') -> threads w' = threads w.
Proof.
  revert w ids w'. induction hl as [|h hl IH]; intros w ids w'; cbn [recv_all]; [by intros [= _ <-]|]. destruct (recv_timeout w h) as [r w1] eqn:E. apply recv_law in E.
  destruct r as [[]|]; try (by intros [= _ <-]). destruct (recv_all hl w1) as [ids1 w2] eqn:E2. apply IH in E2. intros [= _ <-]. congruence.
Qed.

Lemma recv_tids_ok cpus hl m w : handles m cpus hl -> NoDup cpus -> Forall (Z.le 0) cpus ->
  let '(ids, w') := recv_all hl w in
  exists m', recv_tids cpus m w = Ret (match ids with Some _ => Ok tt | None => Err VcpuGettid end, m', w') /\ rest m' = rest m /\ keeps_handles m m' /\
    (forall j, 0 <= j -> j ∉ cpus -> info_at m' j = info_at m j) /\
    forall l, ids = Some l -> Forall2 (fun cpu id => exists info, info_at m' cpu = Some info /\ vi_tid info = id) cpus l.
Proof.
  revert hl m w. induction cpus as [|cpu cpus IH]; intros hl m w Hh Hd Hpos; inversion Hh as [|? h ? hl' (info & Hi & Hih) Hh']; subst; cbn [recv_tids recv_all].
  { exists m. split_and!; try done. by intros l [= <-]. }
  apply NoDup_cons in Hd as [Hni Hd]. apply Forall_cons in Hpos as [Hp Hpos].
  rewrite Hi. cbn [unwrap obind]. rewrite Hih. destruct (recv_timeout w h) as [r w1]. destruct r as [[| |i id| | |]|]; try (exists m; by split_and!).
  set (m1 := put_info m _ _). assert (Hk1 : keeps_handles m m1) by (by eapply put_info_keeps).
  specialize (IH hl' m1 w1 (handles_keeps _ _ _ _ Hk1 Hh') Hd Hpos). destruct (recv_all hl' w1) as [ids w']. destruct IH as (m' & E & Hr & Hk & Hj & Hids).
  exists m'. split; [destruct ids; exact E|]. split; [done|]. split; [by etransitivity|]. split.
  - intros j Hj0 Hn. rewrite Hj by set_solver. apply put_info_at; [done|done|set_solver].
  - intros l Hl. destruct ids as [ids|]; [|done]. injection Hl as <-. constructor; [|by apply Hids].
    eexists. split; [rewrite Hj by done; by apply put_info_same|done].
Qed.

Lemma collect_tids m cpus l : Forall2 (fun cpu id => exists info, info_at m cpu = Some info /\ vi_tid info = id) cpus l ->
  foldr (fun cpu_id acc => let! tids := acc in let! info := unwrap (info_at m cpu_id) in Ret ((cpu_id, vi_tid info) :: tids)) (Ret []) cpus = Ret (zip cpus l).
Proof. induction 1 as [|cpu id cpus l (info & Hi & <-) _ IH]; [done|]. cbn [foldr]. by rewrite IH, Hi. Qed.

Lemma recv_all_length hl w l w' : recv_all hl w = (Some l, w') -> length l = length hl.
Proof.
  revert w l w'. induction hl as [|h hl IH]; intros w l w'; cbn [recv_all]; [by intros [= <- _]|]. destruct (recv_timeout w h) as [[[]|] w1]; try done.
  destruct (recv_all hl w1) as [[ids|] w2] eqn:E; [|done]. intros [= <- <-]. cbn. f_equal. by eapply IH.
Qed.

(** Asking the threads of [cpus]: their ids are appended to the list, or the list is left alone. *)
Lemma get_tids_ok cpus hl m w : handles m cpus hl -> NoDup cpus -> Forall (Z.le 0) cpus ->
  match ask_ids hl w with
  | Panic => get_vcpus_tid m w cpus = Panic
  | Ret (r, w') => threads w' = threads w /\ exists m', rest m' = rest m /\ keeps_handles m m' /\
      match r with
      | Err e => get_vcpus_tid m w cpus = Ret (Err e, m', w') /\ (e = VcpuGettid \/ exists x, e = VcpuEventFailed x)
      | Ok ids => get_vcpus_tid m w cpus = Ret (Ok tt, set_vm_tids m' (vm_tids m ++ zip cpus ids), w') /\ length ids = length cpus
      end
  end.
Proof.
  intros Hh Hd Hpos. unfold ask_ids, get_vcpus_tid. rewrite (send_each_tell cpus hl) by done. destruct (tell hl w Gettid) as [[r w1]|] eqn:Et; cbn [obind]; [|done].
  apply tell_threads in Et. destruct r as [[]|x]; cbn [obind]; [|split; [done|]; exists m; split_and!; eauto; done].
  pose proof (recv_tids_ok cpus hl m w1 Hh Hd Hpos) as Hr. destruct (recv_all hl w1) as [ids w2] eqn:Er. pose proof (recv_all_threads _ _ _ _ Er) as Ht2.
  destruct Hr as (m' & -> & Hrest & Hk & _ & Hids). split; [congruence|]. exists m'. split; [done|]. split; [done|]. destruct ids as [l|]; cbn [obind]; [|by split; [|left]].
  rewrite (collect_tids _ _ l) by (by apply Hids). cbn [obind]. destruct (rest_fields _ _ Hrest) as (_ & _ & _ & _ & _ & -> & _).
  split; [done|]. rewrite (recv_all_length _ _ _ _ Er). symmetry. by eapply Forall2_length.
Qed.

(** ** The list of thread ids *)

(** The ids are listed in the order of the vCPUs, each of one that is there; [ex] if there is one for each. *)
Definition books (ex : bool) (n : nat) (tids : list (Z * Z)) : Prop :=
  StronglySorted Z.lt tids.*1 /\ Forall (fun i => 0 <= i < Z.of_nat n) tids.*1 /\ (ex = true -> tids.*1 = seqZ 0 (Z.of_nat n)).

Lemma increasing_length (l : list Z) a b : StronglySorted Z.lt l -> Forall (fun i => a <= i < b) l -> Z.of_nat (length l) <= Z.max 0 (b - a).
Proof.
  revert a. induction l as [|x l IH]; intros a Hs Hb; [cbn; lia|]. apply StronglySorted_cons in Hs as [Hx Hs]. apply Forall_cons in Hb as [Hxb Hb].
  specialize (IH (x + 1) Hs). cbn [length]. enough (Z.of_nat (length l) <= Z.max 0 (b - (x + 1))) by lia. apply IH.
  apply Forall_forall. intros y Hy. rewrite Forall_forall in Hx, Hb. specialize (Hx y Hy). specialize (Hb y Hy). lia.
Qed.

Lemma seqZ_increasing a k : StronglySorted Z.lt (seqZ a k).
Proof.
  remember (Z.to_nat k) as n eqn:Hn. revert a k Hn. induction n as [|n IH]; intros a k Hn; [rewrite seqZ_nil by lia; constructor|].
  rewrite seqZ_cons by lia. constructor; [apply IH; lia|]. apply Forall_forall. intros x Hx%elem_of_seqZ. lia.
Qed.

Lemma books_length ex n tids : books ex n tids -> (length tids <= n)%nat /\ (ex = true -> length tids = n).
Proof.
  intros (Hs & Hb & He). split.
  - pose proof (increasing_length _ _ _ Hs Hb) as Hl. rewrite length_fmap in Hl. lia.
  - intros Hex%He. apply (f_equal length) in Hex. rewrite length_fmap, length_seqZ in Hex. lia.
Qed.

Lemma books_take ex n tids j : books ex n tids -> (j <= length tids)%nat -> books ex (n - j) (take (length tids - j) tids).
Proof.
  intros Hbk Hj. destruct (books_length _ _ _ Hbk) as [Hn Hex]. destruct Hbk as (Hs & Hb & He). set (k := (length tids - j)%nat).
  assert (Hsplit : tids.*1 = (take k tids).*1 ++ (drop k tids).*1) by (by rewrite <- fmap_app, take_drop). rewrite Hsplit in Hs. apply StronglySorted_app in Hs as (Hlt & Hs1 & Hs2).
  split; [done|]. split.
  - rewrite Hsplit in Hb. apply Forall_app in Hb as [Hb1 Hb2]. apply Forall_forall. intros x Hx. pose proof (proj1 (Forall_forall _ _) Hb1 x Hx) as Hx1. cbn in Hx1.
    pose proof (increasing_length (drop k tids).*1 (x + 1) (Z.of_nat n) Hs2) as Hl. rewrite length_fmap, length_drop in Hl.
    assert (Hl' : Z.of_nat (length tids - k) <= Z.max 0 (Z.of_nat n - (x + 1))); [|lia]. apply Hl. apply Forall_forall. intros y Hy. specialize (Hlt x y Hx Hy).
    pose proof (proj1 (Forall_forall _ _) Hb2 y Hy) as Hy2. cbn in Hy2. lia.
  - intros E. rewrite fmap_take, (He E). specialize (Hex E). unfold seqZ. rewrite <- fmap_take, take_seq. do 2 f_equal. lia.
Qed.

Lemma books_app ex n k tids ids : books ex n tids -> length ids = k -> books ex (n + k) (tids ++ zip (seqZ (Z.of_nat n) (Z.of_nat k)) ids).
Proof.
  intros (Hs & Hb & He) Hk. unfold books. rewrite fmap_app, fst_zip by (rewrite length_seqZ; lia). split_and!.
  - apply StronglySorted_app. split_and!; [|done|apply seqZ_increasing]. intros x y Hx Hy%elem_of_seqZ. rewrite Forall_forall in Hb. specialize (Hb x Hx). cbn in Hb. lia.
  - apply Forall_app. split; [eapply Forall_impl; [exact Hb|]; cbn; lia|]. apply Forall_forall. intros x Hx%elem_of_seqZ. lia.
  - intros E. rewrite (He E), Nat2Z.inj_add, seqZ_app by lia. done.
Qed.

Lemma books_weaken ex n n' tids : books ex n tids -> (n <= n')%nat -> books false n' tids.
Proof. intros (Hs & Hb & _) Hn. split_and!; [done| |done]. eapply Forall_impl; [exact Hb|]. cbn. lia. Qed.

(** ** The invariant *)

(** The vCPUs to remove are the last ones, in descending order. *)
Definition action_ok (n : nat) (a : VcpuAction * list Z) : Prop :=
  match a with
  | (NoAction, l) => l = []
  | (Hotplug, _) => True
  | (Hotunplug, l) => exists c, 0 < c < Z.of_nat n /\ l = reverse (seqZ c (Z.of_nat n - c))
  end.

(** The first [length hs] vCPUs are present, and their threads are past the barrier. *)
Record table_inv m w hs : Prop := mk_table_inv {
  ti_shape : shape m hs;
  ti_nodup : NoDup hs;
  ti_ready : forall h, h ∈ hs -> threads w !! h = Some true;
  ti_len : length (vm_infos m) = Z.to_nat (vm_max m);
  ti_max : 0 <= vm_max m <= u8_max;
  ti_boot : 0 <= vm_boot m <= vm_max m;
  ti_io : vm_io_manager m = true;
  ti_reset : vm_reset_event m = true;
}.

Record mgr_inv (ex : bool) m w hs : Prop := mk_mgr_inv {
  mi_table : table_inv m w hs;
  mi_books : books ex (length hs) (vm_tids m);
  mi_action : action_ok (length hs) (vm_action m);
}.

Lemma table_count m w hs : table_inv m w hs -> (length hs <= Z.to_nat (vm_max m))%nat /\ present_vcpus_count m = Ret (Z.of_nat (length hs)).
Proof. intros [Hs _ _ Hl Hm _ _ _]. pose proof (proj1 Hs). split; [lia|]. apply count_ok; [done|lia]. Qed.

Lemma table_threads m w w' hs : threads w' = threads w -> table_inv m w hs -> table_inv m w' hs.
Proof. intros E []. split; try done. by rewrite E. Qed.

Lemma table_keeps m m' w hs : rest m' = rest m -> keeps_handles m m' -> table_inv m w hs -> table_inv m' w hs.
Proof.
  intros Hr Hk []. destruct (rest_fields _ _ Hr) as (E1 & E2 & E3 & E4 & _).
  split; rewrite ?E1, ?E2, ?E3, ?E4; try done; [by eapply keeps_shape|]. by rewrite (proj1 Hk).
Qed.

Lemma table_tids m w hs l : table_inv m w hs -> table_inv (set_vm_tids m l) w hs.
Proof. by intros []. Qed.

(** Only some of the fields matter to the books and the action. *)
Lemma inv_rest ex m m' w hs : rest m' = rest m -> table_inv m' w hs -> books ex (length hs) (vm_tids m) -> action_ok (length hs) (vm_action m) -> mgr_inv ex m' w hs.
Proof. intros Hr Ht Hb Ha. destruct (rest_fields _ _ Hr) as (_ & _ & _ & _ & _ & E6 & E7). split; [done|by rewrite E6|by rewrite E7]. Qed.

(** ** Activation of what has been created *)

Lemma activate_vcpus_ok m w hs c : table_inv m w hs -> Z.of_nat (length hs) <= c <= vm_max m ->
  let cpus := seqZ (Z.of_nat (length hs)) (c - Z.of_nat (length hs)) in
  Forall (created_ok m) cpus ->
  let '(new, failed, w1) := start_all cpus w in
  exists m1, rest m1 = rest m /\ shape m1 (hs ++ new) /\ length (vm_infos m1) = length (vm_infos m) /\ (length new <= length cpus)%nat /\
    (forall h, h ∈ new -> threads w1 !! h = Some false) /\ (forall h, h ∈ hs -> threads w1 !! h = Some true) /\
    match failed with
    | Some x => activate_vcpus m w c true = Ret (Err (VcpuFailed x), m1, w1)
    | None => length new = length cpus /\
        match ask_ids new (barrier_wait w1) with
        | Panic => activate_vcpus m w c true = Panic
        | Ret (r, w2) => exists m2, table_inv m2 w2 (hs ++ new) /\
            match r with
            | Err e => rest m2 = rest m /\ activate_vcpus m w c true = Ret (Err e, m2, w2)
            | Ok ids => rest m2 = rest (set_vm_tids m (vm_tids m ++ zip cpus ids)) /\ length ids = length cpus /\
                activate_vcpus m w c true =
                  (let! (r, w) := tell new w2 Resume in Ret (match r with Ok _ => Ok cpus | Err x => Err (VcpuEventFailed x) end, m2, w))
            end
        end
    end.
Proof.
  intros Hinv Hc cpus Hcr. destruct (table_count m w hs Hinv) as [Hle Hcnt]. destruct Hinv as [Hs Hd Ha Hl Hm Hb Hio Hre].
  unfold activate_vcpus. rewrite Hcnt. cbn [obind]. rewrite Z.gtb_ltb, (proj2 (Z.ltb_ge _ _)) by lia. rewrite (proj2 (Z.ltb_ge _ _)) by lia.
  rewrite (available_ok m hs) by (done || lia). cbn [obind]. fold cpus. assert (Hlc : Z.of_nat (length cpus) = c - Z.of_nat (length hs)) by (unfold cpus; rewrite length_seqZ; lia).
  pose proof (start_each_ok cpus m w hs Hs) as Hst. destruct (start_all cpus w) as [[new failed] w1].
  destruct Hst as (m1 & -> & Hn & Hall & Hs1 & Hd1 & Hr1 & Hl1 & Hnew & Hold); [by rewrite Hlc|lia|done|done|intros h Hh; by rewrite (Ha h Hh)|].
  assert (Hrd : forall h, h ∈ hs -> threads w1 !! h = Some true) by (intros h Hh; rewrite Hold; rewrite (Ha h Hh); [done|by eexists]).
  exists m1. do 6 (split; [done|]). destruct failed as [x|]; cbn [obind]; [done|]. specialize (Hall eq_refl). split; [done|].
  assert (Hh1 : handles m1 cpus new).
  { rewrite <- (drop_app_length hs new). unfold cpus. rewrite <- Hlc, <- Hall. apply shape_handles; [done|by rewrite length_app]. }
  assert (Hdc : NoDup cpus /\ Forall (Z.le 0) cpus) by (split; [apply NoDup_seqZ|apply Forall_forall; intros j Hj%elem_of_seqZ; lia]).
  pose proof (get_tids_ok cpus new m1 (barrier_wait w1) Hh1 (proj1 Hdc) (proj2 Hdc)) as Hg.
  destruct (ask_ids new (barrier_wait w1)) as [[r w2]|]; [|by rewrite Hg]. destruct Hg as (Ht2 & m2 & Hr2 & Hk2 & Hg).
  assert (Htab : table_inv m2 w2 (hs ++ new)).
  { destruct (rest_fields _ _ Hr1) as (E1 & E2 & E3 & E4 & _). destruct (rest_fields _ _ Hr2) as (F1 & F2 & F3 & F4 & _).
    split; rewrite ?F1, ?F2, ?F3, ?F4, ?E1, ?E2, ?E3, ?E4; try done; [by eapply keeps_shape| |by rewrite (proj1 Hk2), Hl1].
    intros h [Hh|Hh]%elem_of_app; rewrite Ht2, barrier_law, lookup_fmap; [by rewrite (Hrd h Hh)|by rewrite (Hnew h Hh)]. }
  destruct r as [ids|e]; destruct Hg as [-> Hg]; cbn [obind].
  - exists (set_vm_tids m2 (vm_tids m1 ++ zip cpus ids)). split; [by apply table_tids|]. destruct (rest_fields _ _ Hr1) as (_ & _ & _ & _ & _ & -> & _). split.
    { unfold rest in *. cbn. congruence. }
    split; [done|]. unfold resume_vcpus. rewrite (send_each_tell cpus new) by (by eapply handles_keeps).
    destruct (tell new w2 Resume) as [[[[]|x] w3]|]; done.
  - exists m2. split; [done|]. split; [congruence|done].
Qed.

(** ** Stopping *)

Lemma handles_frame m m' cpus hl : (forall j, j ∈ cpus -> info_at m' j = info_at m j) -> handles m cpus hl -> handles m' cpus hl.
Proof.
  intros Hj Hf. induction Hf as [|cpu h cpus hl (info & Hi & Hh) Hf IH]; constructor.
  - exists info. split; [|done]. rewrite Hj; [done|set_solver].
  - apply IH. set_solver.
Qed.

Lemma join_each_ok cpus hl m w : handles m cpus hl -> NoDup cpus -> Forall (Z.le 0) cpus ->
  match join_all hl w with
  | None => join_each cpus m w = Ret None
  | Some w' => exists m', join_each cpus m w = Ret (Some (m', w')) /\ rest m' = rest m /\ length (vm_infos m') = length (vm_infos m) /\
      (forall j, 0 <= j -> j ∉ cpus -> info_at m' j = info_at m j) /\ (forall j info, j ∈ cpus -> info_at m' j = Some info -> vi_handle info = None)
  end.
Proof.
  revert hl m w. induction cpus as [|cpu cpus IH]; intros hl m w Hh Hdc Hpos; inversion Hh as [|? h ? hl' (info & Hi & Hih) Hh']; subst; cbn [join_each join_all].
  { exists m. split; [done|]. split_and!; try done. by intros j info ?%elem_of_nil. }
  apply NoDup_cons in Hdc as [Hnc Hdc]. apply Forall_cons in Hpos as [Hp Hpos].
  rewrite Hi. cbn [unwrap obind]. rewrite Hih. cbn [unwrap obind]. destruct (join_vcpu_thread w h) as [w1|]; [|done].
  set (m1 := put_info m _ _). assert (Hj1 : forall j, 0 <= j -> j <> cpu -> info_at m1 j = info_at m j) by (intros; apply put_info_at; lia).
  specialize (IH hl' m1 w1). destruct (join_all hl' w1) as [w'|].
  - destruct IH as (m' & -> & Hr & Hl & Hsame & Hnone); [|done|done|].
    { eapply handles_frame; [|exact Hh']. intros j Hj. apply Hj1; [by rewrite Forall_forall in Hpos; apply Hpos|set_solver]. }
    exists m'. split; [done|]. split; [done|]. split; [rewrite Hl; unfold m1, put_info, set_vm_infos; cbn; apply length_insert|]. split.
    + intros j Hj Hn. rewrite Hsame, Hj1; [done|done|set_solver|done|set_solver].
    + intros j info' [->|Hin]%elem_of_cons Hi'; [|by eapply Hnone]. rewrite Hsame in Hi' by done. unfold m1 in Hi'. rewrite put_info_same in Hi' by (by eexists). by injection Hi' as <-.
  - apply IH; [|done|done]. eapply handles_frame; [|exact Hh']. intros j Hj. apply Hj1; [by rewrite Forall_forall in Hpos; apply Hpos|set_solver].
Qed.

Lemma join_all_threads hl w w' : join_all hl w = Some w' -> (forall h, h ∉ hl -> threads w' !! h = threads w !! h) /\ (forall h, h ∈ hl -> threads w' !! h = None).
Proof.
  revert w. induction hl as [|h hl IH]; intros w; cbn [join_all]; [intros [= <-]; split; [done|by intros h ?%elem_of_nil]|].
  destruct (join_vcpu_thread w h) as [w1|] eqn:E; [|done]. apply join_law in E. intros [Hout Hin]%IH. split.
  - intros h' Hn. rewrite Hout, E, lookup_delete_ne; [done|set_solver|set_solver].
  - intros h' Hh. destruct (decide (h' ∈ hl)); [by apply Hin|]. apply elem_of_cons in Hh as [->|Hh]; [|done]. by rewrite Hout, E, lookup_delete_eq.
Qed.

(** Stopping the threads [hl] of all but the first [c] of the vCPUs [hs]: they are told, up to the first that cannot be; if all were told they are
    waited for, which may not end; and as many ids are cut off the list. *)
Definition stopped m w hs (c : nat) (hl : list H) (o : outcome (option (result unit VcpuManagerError * VcpuManager H * W))) : Prop :=
  match tell hl w Exit with
  | Panic => o = Panic
  | Ret (Err x, w1) => o = Ret (Some (Err (VcpuEventFailed x), m, w1))
  | Ret (Ok _, w1) =>
      match join_all hl w1 with
      | None => o = Ret None
      | Some w2 =>
          if (length (vm_tids m) <? length hl)%nat then o = Panic
          else exists m', o = Ret (Some (Ok tt, m', w2)) /\ table_inv m' w2 (take c hs) /\
                 rest m' = rest (set_vm_tids m (take (length (vm_tids m) - length hl) (vm_tids m))) /\ forall h, h ∈ hl -> threads w2 !! h = None
      end
  end.

Lemma exit_last_ok m w hs c cpus hl : table_inv m w hs -> (c <= length hs)%nat ->
  handles m cpus hl -> Permutation cpus (seqZ (Z.of_nat c) (Z.of_nat (length hs) - Z.of_nat c)) -> Permutation hl (drop c hs) ->
  stopped m w hs c hl (exit_vcpus m w cpus).
Proof.
  intros [Hs Hd Ha Hl Hm Hb Hio Hre] Hc Hh Hpc Hph. unfold stopped, exit_vcpus.
  assert (Hsplit : NoDup (take c hs) /\ (forall h, h ∈ take c hs -> h ∉ drop c hs) /\ NoDup (drop c hs)) by (apply NoDup_app; by rewrite take_drop).
  destruct Hsplit as (Hdt & Hdis & _). assert (Hdc : NoDup cpus) by (rewrite Hpc; apply NoDup_seqZ).
  assert (Hcpu : forall j, j ∈ cpus <-> Z.of_nat c <= j < Z.of_nat (length hs)) by (intros j; rewrite Hpc, elem_of_seqZ; lia).
  rewrite (send_each_tell cpus hl) by done. destruct (tell hl w Exit) as [[[[]|x] w1]|] eqn:Et; cbn [obind]; [|done..]. apply tell_threads in Et.
  pose proof (join_each_ok cpus hl m w1 Hh Hdc) as Hj. destruct (join_all hl w1) as [w2|] eqn:Ej; [|by rewrite Hj by (apply Forall_forall; intros j Hj'%Hcpu; lia)].
  destruct Hj as (m1 & -> & Hr & Hl' & Hsame & Hnone); [apply Forall_forall; intros j Hj'%Hcpu; lia|]. destruct (join_all_threads _ _ _ Ej) as [Hout Hin].
  cbn [obind]. destruct (rest_fields _ _ Hr) as (E1 & E2 & E3 & E4 & E5 & E6 & E7). rewrite E6. rewrite (Forall2_length _ _ _ Hh).
  destruct (Nat.ltb_spec (length (vm_tids m)) (length hl)) as [Hlt|Hge]; [unfold sub_u, checked_sub; by rewrite (proj2 (Z.leb_gt _ _)) by lia|].
  rewrite sub_u_ret by lia. cbn [obind]. replace (Z.to_nat (Z.of_nat (length (vm_tids m)) - Z.of_nat (length hl))) with (length (vm_tids m) - length hl)%nat by lia.
  eexists. split; [reflexivity|]. split; [|split; [unfold rest in *; cbn; congruence|done]].
  apply table_tids. split; rewrite ?E1, ?E2, ?E3, ?E4; try done; [| |congruence].
  - split; [rewrite length_take, Hl'; destruct Hs; lia|]. destruct Hs as [_ Hs]. intros i info Hi. specialize (Hsame (Z.of_nat i)). unfold info_at in Hsame. rewrite Nat2Z.id in Hsame.
    destruct (decide (c <= i < length hs)%nat) as [Hr'|Hr'].
    + rewrite lookup_take_ge by lia. apply (Hnone (Z.of_nat i)); [rewrite Hcpu; lia|]. unfold info_at. by rewrite Nat2Z.id.
    + rewrite Hsame in Hi by (rewrite ?Hcpu; lia). rewrite (Hs i info Hi). destruct (decide (i < c)%nat); [by rewrite lookup_take_lt by lia|].
      rewrite lookup_take_ge by lia. apply lookup_ge_None. lia.
  - intros h Hx. rewrite Hout, Et; [|rewrite Hph; by apply Hdis]. apply Ha. rewrite <- (take_drop c hs). set_solver.
Qed.

(** Threads at the barrier never end. *)
Lemma exit_waiting_hangs m w cpus hl : handles m cpus hl -> hl <> [] -> (forall h, h ∈ hl -> threads w !! h = Some false) -> NoDup cpus -> Forall (Z.le 0) cpus ->
  exit_vcpus m w cpus = Ret None.
Proof.
  intros Hh Hn Hw Hd Hp. unfold exit_vcpus. rewrite (send_each_tell cpus hl) by done. destruct (tell_waiting hl w Exit Hw) as (w1 & -> & Ht). cbn [obind].
  pose proof (join_each_ok cpus hl m w1 Hh Hd Hp) as Hj. destruct hl as [|h hl]; [done|]. cbn [join_all] in Hj.
  rewrite join_waiting_law in Hj by (rewrite Ht; apply Hw; set_solver). by rewrite Hj.
Qed.

Lemma stopped_inv ex m w hs c hl o r m' w' : mgr_inv ex m w hs -> (length hl = length hs - c)%nat -> (c <= length hs)%nat -> stopped m w hs c hl o -> o = Ret (Some (r, m', w')) ->
  exists hs', table_inv m' w' hs' /\ books ex (length hs') (vm_tids m') /\ vm_action m' = vm_action m /\ hs' `prefix_of` hs.
Proof.
  intros [Ht Hb Ha] Hl Hc. unfold stopped. destruct (tell hl w Exit) as [[[[]|x] w1]|] eqn:Et; [|intros -> [= <- <- <-]|by intros ->].
  - destruct (join_all hl w1) as [w2|]; [|by intros ->]. destruct (Nat.ltb_spec (length (vm_tids m)) (length hl)) as [Hlt|Hge]; [by intros ->|].
    intros (m1 & -> & Ht1 & Hr & _) [= <- <- <-]. destruct (rest_fields _ _ Hr) as (_ & _ & _ & _ & _ & E6 & E7). cbn in E6, E7. exists (take c hs). rewrite E6, E7.
    split_and!; [done| |done|apply prefix_take]. rewrite length_take, Nat.min_l by lia. replace c with (length hs - length hl)%nat by lia. by apply books_take.
  - exists hs. split_and!; try done. by eapply table_threads; [eapply tell_threads|].
Qed.

(** ** Resizing *)

Lemma inv_sync ex m w hs tx l : mgr_inv ex m w hs -> mgr_inv ex (set_vm_sync m tx l) w hs.
Proof. by intros [[]]. Qed.

Lemma inv_synced ex m w hs b : mgr_inv ex m w hs -> mgr_inv ex (sync_action_finish m b) w hs.
Proof. unfold sync_action_finish. destruct (vm_sync_tx m); [apply inv_sync|done]. Qed.

Lemma synced_action m b : vm_action (sync_action_finish m b) = vm_action m.
Proof. unfold sync_action_finish. by destruct (vm_sync_tx m). Qed.

Lemma synced_fields m b : vm_max (sync_action_finish m b) = vm_max m /\ vm_upcall (sync_action_finish m b) = vm_upcall m.
Proof. unfold sync_action_finish. by destruct (vm_sync_tx m). Qed.

Lemma inv_threads ex m w w' hs : threads w' = threads w -> mgr_inv ex m w hs -> mgr_inv ex m w' hs.
Proof. intros E []. split; try done. by eapply table_threads. Qed.

Lemma inv_action ex m w hs a l : action_ok (length hs) (a, l) -> mgr_inv ex m w hs -> mgr_inv ex (set_vcpus_action m a l) w hs.
Proof. by intros ? [[]]. Qed.

Lemma inv_present ex m w hs : mgr_inv ex m w hs -> present_vcpus m = seqZ 0 (Z.of_nat (length hs)).
Proof. intros [[]]. by apply present_ok. Qed.

(** The new vCPUs are stopped because of the error [e]. *)
Definition rolled_back m w hs new (e : VcpuManagerError) (o : outcome (option (result unit VcpuResizeError * VcpuManager H * W))) : Prop :=
  exists o', stopped m w (hs ++ new) (length hs) new o' /\
    o = (let! o := o' in Ret (match o with None => None | Some (_, m, w) => Some (Err (ResizeVcpuError e), m, w) end)).

(** Adding up to [c] vCPUs.  KVM may refuse.  If a thread cannot be started, those started before it wait at the barrier for
    ever, and the roll back for them.  Past the barrier, threads may not give their ids or not be told to run: the new
    ones are rolled back then, and as many ids are cut off the list as there are new vCPUs, even if theirs were never added. *)
Definition added m w hs (c : Z) (o : outcome (option (result unit VcpuResizeError * VcpuManager H * W))) : Prop :=
  let n := Z.of_nat (length hs) in
  let cpus := seqZ n (c - n) in
  exists r m1 w1, create_each cpus m w None = Ret (r, m1, w1) /\ table_inv m1 w1 hs /\ rest m1 = rest m /\
  match r with
  | Err e => o = Ret (Some (Err (ResizeVcpuError e), m1, w1))
  | Ok _ =>
      let '(new, failed, w2) := start_all cpus w1 in
      match failed, new with
      | Some x, [] => exists m2, o = Ret (Some (Err (ResizeVcpuError (VcpuFailed x)), m2, w2)) /\ table_inv m2 w2 hs /\ rest m2 = rest m
      | Some x, _ => o = Ret None
      | None, _ => length new = length cpus /\
          match ask_ids new (barrier_wait w2) with
          | Panic => o = Panic
          | Ret (Err e, w3) => exists m3, table_inv m3 w3 (hs ++ new) /\ rest m3 = rest m /\ rolled_back m3 w3 hs new e o
          | Ret (Ok ids, w3) => exists m3, table_inv m3 w3 (hs ++ new) /\ rest m3 = rest (set_vm_tids m (vm_tids m ++ zip cpus ids)) /\ length ids = length cpus /\
              match tell new w3 Resume with
              | Panic => o = Panic
              | Ret (Err x, w4) => rolled_back m3 w4 hs new (VcpuEventFailed x) o
              | Ret (Ok _, w4) =>
                  match upcall_send_request w4 (AddVcpu (c - n) (id_array cpus)) with
                  | (Err e, w5) => o = Ret (Some (Err (Upcall e), m3, w5))
                  | (Ok _, w5) => o = Ret (Some (Ok tt, set_vcpus_action m3 Hotplug cpus, w5))
                  end
              end
          end
      end
  end.

Lemma activated_cons m cpu cpus : activated m (cpu :: cpus) =
  (let! l := activated m cpus in let! info := unwrap (info_at m cpu) in Ret (if has_handle info then cpu :: l else l)).
Proof. done. Qed.

Lemma activated_ok m hs n k l : shape m hs -> (length hs <= n + k)%nat -> (n + l = length hs)%nat -> (n + k <= length (vm_infos m))%nat ->
  activated m (seqZ (Z.of_nat n) (Z.of_nat k)) = Ret (seqZ (Z.of_nat n) (Z.of_nat l)).
Proof.
  intros Hs. revert n l. induction k as [|k IH]; intros n l Hk Hl Hm; [by replace l with 0%nat by lia|].
  rewrite (seqZ_cons (Z.of_nat n)) by lia. rewrite activated_cons. replace (Z.succ (Z.of_nat n)) with (Z.of_nat (S n)) by lia.
  replace (Z.pred (Z.of_nat (S k))) with (Z.of_nat k) by lia. destruct (shape_info m hs (Z.of_nat n) Hs) as (info & Hi & Hh); [lia|]. rewrite Nat2Z.id in Hh.
  destruct l as [|l].
  - assert (Hnil : forall k n, (length hs <= n)%nat -> (n + k <= length (vm_infos m))%nat -> activated m (seqZ (Z.of_nat n) (Z.of_nat k)) = Ret []).
    { clear -Hs. induction k as [|k IH]; intros n Hn Hm; [done|]. rewrite (seqZ_cons (Z.of_nat n)) by lia. rewrite activated_cons.
      replace (Z.succ (Z.of_nat n)) with (Z.of_nat (S n)) by lia. replace (Z.pred (Z.of_nat (S k))) with (Z.of_nat k) by lia.
      rewrite IH by lia. cbn [obind]. destruct (shape_info m hs (Z.of_nat n) Hs) as (info & -> & Hh); [lia|]. rewrite Nat2Z.id in Hh. cbn [unwrap obind].
      unfold has_handle. by rewrite Hh, (proj2 (lookup_ge_None hs n)) by lia. }
    rewrite Hnil by lia. cbn [obind]. rewrite Hi. cbn [unwrap obind]. unfold has_handle. by rewrite Hh, (proj2 (lookup_ge_None hs n)) by lia.
  - rewrite (IH (S n) l) by lia. cbn [obind]. rewrite Hi. cbn [unwrap obind]. unfold has_handle. destruct (hs !! n) as [h|] eqn:E; [|apply lookup_ge_None in E; lia].
    rewrite Hh. rewrite (seqZ_cons (Z.of_nat n) (Z.of_nat (S l))) by lia. do 2 f_equal. f_equal; lia.
Qed.

(** The roll back past the barrier. *)
Lemma roll_back_ok m w hs new c e : table_inv m w (hs ++ new) -> Z.of_nat (length (hs ++ new)) = c ->
  rolled_back m w hs new e
    (let! cpus := activated m (seqZ (Z.of_nat (length hs)) (c - Z.of_nat (length hs))) in
     let! o := exit_vcpus m w cpus in
     Ret (match o with None => None | Some (_, m, w) => Some (Err (ResizeVcpuError e), m, w) end)).
Proof.
  intros Ht Hc. pose proof (proj1 (ti_shape _ _ _ Ht)) as Hle. rewrite length_app in *. replace (c - Z.of_nat (length hs)) with (Z.of_nat (length new)) by lia.
  rewrite (activated_ok m (hs ++ new) _ _ (length new)) by (rewrite ?length_app; (lia || apply Ht)). cbn [obind]. eexists. split; [|reflexivity].
  apply exit_last_ok; [done|rewrite length_app; lia| | |by rewrite drop_app_length].
  - rewrite <- (drop_app_length hs new) at 2. apply shape_handles; [apply Ht|by rewrite length_app].
  - rewrite length_app. by replace (Z.of_nat (length hs + length new) - Z.of_nat (length hs)) with (Z.of_nat (length new)) by lia.
Qed.

(** The roll back before it. *)
Lemma roll_back_waiting m w hs new c e : shape m (hs ++ new) -> Z.of_nat (length (hs ++ new)) <= c -> (Z.to_nat c <= length (vm_infos m))%nat ->
  (forall h, h ∈ new -> threads w !! h = Some false) ->
  (let! cpus := activated m (seqZ (Z.of_nat (length hs)) (c - Z.of_nat (length hs))) in
   let! o := exit_vcpus m w cpus in
   Ret (match o with None => None | Some (_, m, w) => Some (Err (ResizeVcpuError e), m, w) end)) =
  match new return outcome (option (result unit VcpuResizeError * VcpuManager H * W)) with
  | [] => Ret (Some (Err (ResizeVcpuError e), set_vm_tids m (vm_tids m), w))
  | _ => Ret None
  end.
Proof.
  intros Hs Hc Hm Hw. rewrite length_app in *. replace (c - Z.of_nat (length hs)) with (Z.of_nat (Z.to_nat c - length hs)) by lia.
  rewrite (activated_ok m (hs ++ new) _ _ (length new)) by (rewrite ?length_app; (lia || done)). cbn [obind]. destruct (decide (new = [])) as [->|En].
  - rewrite seqZ_nil by done. unfold exit_vcpus. cbn [length send_each join_each obind]. change (Z.of_nat 0) with 0. rewrite sub_u_ret by lia. cbn [obind]. rewrite Z.sub_0_r, Nat2Z.id, firstn_all. done.
  - rewrite (exit_waiting_hangs m w _ new); [by destruct new| |done|done|apply NoDup_seqZ|apply Forall_forall; intros j Hj%elem_of_seqZ; lia].
    rewrite <- (drop_app_length hs new) at 2. apply shape_handles; [done|by rewrite length_app].
Qed.

Lemma do_add_ok m w hs c : table_inv m w hs -> Z.of_nat (length hs) < c <= vm_max m -> added m w hs c (do_add_vcpu m w c).
Proof.
  intros Hinv Hc. destruct (table_count m w hs Hinv) as [Hle Hcnt]. pose proof Hinv as [Hs Hd Ha Hl Hm Hb Hio Hre].
  unfold added, do_add_vcpu, create_vcpus. rewrite Z.gtb_ltb, (proj2 (Z.ltb_ge _ _)) by lia. rewrite (available_ok m hs) by (done || lia). cbn [obind].
  set (cpus := seqZ _ _). destruct (create_vcpus_ok cpus m w None Hio Hre) as (r & m1 & w1 & -> & Hr1 & Hk1 & Ht1 & Hok1 & _).
  { apply Forall_forall. intros j Hj%elem_of_seqZ. lia. } { apply NoDup_seqZ. }
  cbn [obind]. assert (Htab : table_inv m1 w1 hs) by (eapply table_threads; [exact Ht1|by eapply table_keeps]).
  exists r, m1, w1. split; [done|]. split; [done|]. split; [done|]. destruct r as [[]|e]; [|done].
  destruct (rest_fields _ _ Hr1) as (E1 & _). pose proof (activate_vcpus_ok m1 w1 hs c Htab ltac:(lia) (Hok1 eq_refl)) as Hact. fold cpus in Hact.
  destruct (start_all cpus w1) as [[new failed] w2]. destruct Hact as (m2 & Hr2 & Hs2 & Hl2 & Hn & Hnew & Hold & Hact).
  assert (Hlc : Z.of_nat (length cpus) = c - Z.of_nat (length hs)) by (unfold cpus; rewrite length_seqZ; lia).
  destruct failed as [x|].
  { rewrite Hact. cbn [obind]. pose proof (ti_len _ _ _ Htab) as Hl1. unfold cpus. rewrite (roll_back_waiting m2 w2 hs new) by (rewrite ?length_app; (done || lia)).
    destruct new; [|done]. rewrite app_nil_r in Hs2. eexists. split; [reflexivity|]. split; [|unfold rest in *; cbn; congruence]. apply table_tids.
    destruct (rest_fields _ _ Hr2) as (F1 & F2 & F3 & F4 & _). destruct Htab. split; rewrite ?F1, ?F2, ?F3, ?F4; try done. by rewrite Hl2. }
  destruct Hact as [Hall Hact]. split; [done|]. destruct (ask_ids new (barrier_wait w2)) as [[r w3]|]; [|by rewrite Hact].
  destruct Hact as (m3 & Ht3 & Hact). assert (Hc3 : Z.of_nat (length (hs ++ new)) = c) by (rewrite length_app; lia). destruct r as [ids|e].
  - destruct Hact as (Hr3 & Hli & ->). exists m3. split; [done|]. split.
    { destruct (rest_fields _ _ Hr1) as (_ & _ & _ & _ & _ & <- & _). unfold rest in *. cbn in *. congruence. }
    split; [done|]. destruct (tell new w3 Resume) as [[[[]|x] w4]|] eqn:Et; cbn [obind]; [|by apply roll_back_ok; [eapply table_threads; [eapply tell_threads|]|]|done].
    rewrite Hlc. destruct (upcall_send_request w4 _) as [[[]|e] w5]; done.
  - destruct Hact as (Hr3 & ->). exists m3. split; [done|]. split; [congruence|]. by apply roll_back_ok.
Qed.

(** Asking the guest to give up all but [c] vCPUs. *)
Definition asked_to_remove m w hs (c : Z) (o : outcome (option (result unit VcpuResizeError * VcpuManager H * W))) : Prop :=
  let n := Z.of_nat (length hs) in
  let cpus := reverse (seqZ c (n - c)) in
  match upcall_send_request w (DelVcpu (n - c) (id_array cpus)) with
  | (Err e, w1) => o = Ret (Some (Err (Upcall e), m, w1))
  | (Ok _, w1) => o = Ret (Some (Ok tt, set_vcpus_action m Hotunplug cpus, w1))
  end.

Lemma do_del_ok m w hs c : table_inv m w hs -> 0 < c < Z.of_nat (length hs) -> asked_to_remove m w hs c (let! r := do_del_vcpu m w c in Ret (Some r)).
Proof.
  intros Hinv Hc. destruct (table_count m w hs Hinv) as [Hle Hcnt]. unfold asked_to_remove, do_del_vcpu, calculate_removable_vcpus.
  rewrite (proj2 (Z.eqb_neq c 0)) by lia. rewrite (present_ok m hs) by apply Hinv. rewrite Hcnt. cbn [obind]. rewrite sub_u_ret by lia. cbn [obind].
  rewrite length_seqZ, Z.geb_leb, (proj2 (Z.leb_gt _ _)) by lia.
  assert (E : take (Z.to_nat (Z.of_nat (length hs) - c)) (reverse (seqZ 0 (Z.of_nat (length hs)))) = reverse (seqZ c (Z.of_nat (length hs) - c))).
  { replace (Z.of_nat (length hs)) with (c + (Z.of_nat (length hs) - c)) at 2 by lia. rewrite seqZ_app, reverse_app by lia.
    rewrite take_app_le by (rewrite length_reverse, length_seqZ; lia). rewrite take_ge by (rewrite length_reverse, length_seqZ; lia). done. }
  rewrite E. destruct (upcall_send_request w _) as [[[]|e] w1]; done.
Qed.

(** ** The answer of the guest *)

Lemma handles_reverse m cpus hs : handles m cpus hs -> handles m (reverse cpus) (reverse hs).
Proof. unfold handles. induction 1; [constructor|]. rewrite !reverse_cons. apply Forall2_app; [done|by repeat constructor]. Qed.

(** No change is in progress any more, and whoever waits for it is told. *)
Definition finished m : VcpuManager H := sync_action_finish (set_vcpus_action m NoAction []) true.

(** What an answer of the guest does.  The vCPUs to remove are stopped, the last one first. *)
Definition answered m w hs (r : VcpuResizeResult) (o : outcome (option (VcpuManager H * W))) : Prop :=
  match r with
  | Failed => o = Ret (Some (m, w))
  | Success =>
      match vm_action m with
      | (NoAction, _) => o = Ret (Some (finished m, w))
      | (Hotplug, _) => o = Ret (Some (finished (sync_action_finish m false), w))
      | (Hotunplug, cpus) =>
          let c := (length hs - length cpus)%nat in
          exists o', stopped m w hs c (reverse (drop c hs)) o' /\
            o = (let! o := o' in Ret (match o with None => None | Some (_, m, w) => Some (finished (sync_action_finish m false), w) end))
      end
  end.

Lemma process_cpu_action_ok ex m w hs r : mgr_inv ex m w hs -> answered m w hs r (process_cpu_action m w r).
Proof.
  intros [Ht Hb Hac]. unfold process_cpu_action, answered. destruct r; [|done]. unfold get_vcpus_action.
  destruct (vm_action m) as [[] cpus] eqn:Ea; cbn [fst obind]; [done|done|]. destruct Hac as (c & Hc & ->). unfold stop_vcpus_in_action. rewrite Ea. cbn [snd].
  rewrite length_reverse, length_seqZ. replace (length hs - Z.to_nat (Z.of_nat (length hs) - c))%nat with (Z.to_nat c) by lia. eexists. split.
  - apply (exit_last_ok _ _ _ _ (reverse (seqZ c (Z.of_nat (length hs) - c)))); [done|lia| |rewrite reverse_Permutation; by replace (Z.of_nat (Z.to_nat c)) with c by lia|by rewrite reverse_Permutation].
    apply handles_reverse. replace c with (Z.of_nat (Z.to_nat c)) at 1 by lia. replace (Z.of_nat (length hs) - c) with (Z.of_nat (length hs - Z.to_nat c)) by lia.
    apply shape_handles; [apply Ht|lia].
  - destruct (exit_vcpus m w _) as [[[[r m1] w1]|]|]; done.
Qed.

Lemma inv_finished ex m w hs : table_inv m w hs -> books ex (length hs) (vm_tids m) -> mgr_inv ex (finished m) w hs.
Proof. intros Ht Hb. apply inv_synced. split; [by destruct Ht|done|done]. Qed.

Lemma answered_inv ex m w hs r o m' w' : mgr_inv ex m w hs -> answered m w hs r o -> o = Ret (Some (m', w')) -> exists hs', mgr_inv ex m' w' hs'.
Proof.
  intros Hi. unfold answered. destruct r; [|intros -> [= <- <-]; by exists hs]. pose proof (mi_action _ _ _ _ Hi) as Hac. destruct (vm_action m) as [[] cpus] eqn:Ea.
  - intros -> [= <- <-]. exists hs. apply inv_finished; apply Hi.
  - intros -> [= <- <-]. exists hs. apply (inv_synced _ _ _ _ false) in Hi. apply inv_finished; apply Hi.
  - intros (o' & Hst & ->). destruct o' as [[[[r m1] w1]|]|]; cbn [obind]; [|done..]. intros [= <- <-].
    destruct Hac as (c & Hc & ->). rewrite length_reverse, length_seqZ in Hst.
    edestruct (fun A B => stopped_inv ex m w hs _ _ _ r m1 w1 Hi A B Hst eq_refl) as (hs' & Ht & Hb & _); [by rewrite length_reverse, length_drop|lia|].
    exists hs'. unfold sync_action_finish at 1. apply inv_finished; destruct (vm_sync_tx m1); try done. by destruct Ht.
Qed.

(** ** Whatever the request *)

(** What [resize_vcpu] does to a manager with vCPUs [hs]. *)
Definition resized m w hs (c : Z) (tx : option Z) (o : outcome (option (result unit VcpuResizeError * VcpuManager H * W))) : Prop :=
  let n := Z.of_nat (length hs) in
  let mt := set_vm_sync m tx (vm_synced m) in
  match get_vcpus_action m with
  | Hotplug | Hotunplug => o = Ret (Some (Err VcpuIsHotplugging, m, w))
  | NoAction =>
      if negb (vm_upcall m) then o = Ret (Some (Err UpdateNotAllowedPostBoot, mt, w))
      else if c =? n then o = Ret (Some (Ok tt, sync_action_finish mt false, w))
      else if c >? vm_max m then o = Ret (Some (Err ResizeExceedMax, mt, w))
      else if c =? 0 then o = Ret (Some (Err Vcpu0CanNotBeRemoved, mt, w))
      else if n <? c then added mt w hs c o
      else asked_to_remove mt w hs c o
  end.

Lemma resize_vcpu_ok ex m w hs c tx : mgr_inv ex m w hs -> 0 <= c <= u8_max -> resized m w hs c tx (resize_vcpu m w c tx).
Proof.
  intros Hinv Hc. unfold resized, resize_vcpu. pose proof (mi_table _ _ _ _ (inv_sync ex m w hs tx (vm_synced m) Hinv)) as Hi. set (mt := set_vm_sync m tx (vm_synced m)) in *.
  destruct (get_vcpus_action m) eqn:Ea; cbn [negb bool_decide]; [|done..]. rewrite bool_decide_true by done. cbn [negb].
  change (vm_upcall mt) with (vm_upcall m). destruct (vm_upcall m); cbn [negb]; [|done].
  destruct (table_count mt w hs Hi) as [Hle ->]. cbn [obind]. change (vm_max mt) with (vm_max m) in *. pose proof (ti_max _ _ _ (mi_table _ _ _ _ Hinv)).
  destruct (Z.compare_spec c (Z.of_nat (length hs))) as [E|E|E].
  - by rewrite (proj2 (Z.eqb_eq _ _) E).
  - rewrite (proj2 (Z.eqb_neq _ _)) by lia. rewrite Z.gtb_ltb, (proj2 (Z.ltb_ge _ _)) by lia.
    destruct (Z.eqb_spec c 0) as [->|Hn0]; [done|]. rewrite (proj2 (Z.ltb_ge _ _)) by lia. apply do_del_ok; [done|lia].
  - rewrite (proj2 (Z.eqb_neq _ _)) by lia. destruct (Z.gtb_spec c (vm_max m)) as [Hg|Hg].
    + unfold do_add_vcpu. change (vm_max mt) with (vm_max m). by rewrite Z.gtb_ltb, (proj2 (Z.ltb_lt _ _)) by lia.
    + rewrite (proj2 (Z.eqb_neq _ _)), (proj2 (Z.ltb_lt _ _)) by lia. apply do_add_ok; [done|]. change (vm_max mt) with (vm_max m). lia.
Qed.

(** Whether the list of ids is left complete: it may not be after a failure to ask the threads or to make them run. *)
Definition keeps_ids (r : result unit VcpuResizeError) : bool :=
  match r with Err (ResizeVcpuError VcpuGettid) | Err (ResizeVcpuError (VcpuEventFailed _)) => false | _ => true end.

(** The vCPUs that there will be when the guest has answered. *)
Definition planned m hs : Z :=
  match vm_action m with (Hotunplug, l) => Z.of_nat (length hs) - Z.of_nat (length l) | _ => Z.of_nat (length hs) end.

Definition after (ex : bool) m (c : Z) (r : result unit VcpuResizeError) (m' : VcpuManager H) (w' : W) : Prop :=
  exists hs', mgr_inv (ex && keeps_ids r) m' w' hs' /\ vm_max m' = vm_max m /\ vm_upcall m' = vm_upcall m /\ (r = Ok tt -> planned m' hs' = c).

Lemma inv_weaken ex b m w hs : mgr_inv ex m w hs -> mgr_inv (ex && b) m w hs.
Proof. intros []. split; try done. destruct b; [by rewrite andb_true_r|]. rewrite andb_false_r. by eapply books_weaken. Qed.

Lemma ask_ids_err hl w e w' : ask_ids hl w = Ret (Err e, w') -> keeps_ids (Err (ResizeVcpuError e)) = false.
Proof.
  unfold ask_ids. destruct (tell hl w Gettid) as [[[[]|x] w1]|]; cbn [obind]; [|by intros [= <- _]|done]. destruct (recv_all hl w1) as [[ids|] w2]; [done|]. by intros [= <- _].
Qed.

Lemma rolled_back_after ex m0 m w hs new c e o r m' w' : table_inv m w (hs ++ new) -> books false (length (hs ++ new)) (vm_tids m) -> action_ok 0 (vm_action m) -> get_vcpus_action m = NoAction ->
  vm_max m = vm_max m0 -> vm_upcall m = vm_upcall m0 -> keeps_ids (Err (ResizeVcpuError e)) = false ->
  rolled_back m w hs new e o -> o = Ret (Some (r, m', w')) -> after ex m0 c r m' w'.
Proof.
  intros Ht Hb Ha Hna Em Eu Hk (o' & Hst & ->). destruct o' as [[[[r' m1] w1]|]|]; cbn [obind]; [|done..]. intros [= <- <- <-]. unfold after. rewrite Hk, andb_false_r.
  assert (Hno : forall n, action_ok n (vm_action m)) by (intros n; unfold get_vcpus_action in Hna; destruct (vm_action m) as [[] l]; done).
  assert (Hi : mgr_inv false m w (hs ++ new)) by (split; [done|done|apply Hno]). destruct (stopped_inv false m w (hs ++ new) (length hs) new (Ret (Some (r', m1, w1))) r' m1 w1 Hi) as (hs' & Ht' & Hb' & Ea' & _);
    [rewrite length_app; lia|rewrite length_app; lia|exact Hst|done|].
  exists hs'. split; [split; [done|done|rewrite Ea'; apply Hno]|]. unfold stopped in Hst.
  assert (Hr : vm_max m1 = vm_max m /\ vm_upcall m1 = vm_upcall m); [|destruct Hr; split_and!; [congruence|congruence|done]].
  destruct (tell new w Exit) as [[[[]|x] w2]|]; [|by injection Hst as _ -> _|done]. destruct (join_all new w2) as [w3|]; [|done]. destruct (_ <? _)%nat; [done|].
  destruct Hst as (m2 & E & _ & Hr & _). injection E as _ -> _. destruct (rest_fields _ _ Hr) as (F1 & _ & _ & _ & F5 & _). by rewrite F1, F5.
Qed.

Lemma added_after ex m w hs c o r m' w' : mgr_inv ex m w hs -> get_vcpus_action m = NoAction -> Z.of_nat (length hs) <= c -> added m w hs c o -> o = Ret (Some (r, m', w')) -> after ex m c r m' w'.
Proof.
  intros [Ht Hb Ha] Hna Hc (r1 & m1 & w1 & _ & Ht1 & Hr1 & Hadd). set (n := Z.of_nat (length hs)) in *. set (cpus := seqZ n (c - n)) in *.
  assert (Hno : forall n, action_ok n (vm_action m)) by (intros n'; unfold get_vcpus_action in Hna; destruct (vm_action m) as [[] l]; done).
  assert (Hsame : forall m2 w2 e, table_inv m2 w2 hs -> rest m2 = rest m -> after ex m c (Err e) m2 w2).
  { intros m2 w2 e Ht2 Hr2. exists hs. destruct (rest_fields _ _ Hr2) as (E1 & _ & _ & _ & E5 & _). split_and!; try done. apply inv_weaken. by eapply inv_rest. }
  destruct r1 as [[]|e]; [|subst o; intros [= <- <- <-]; by apply Hsame]. destruct (start_all cpus w1) as [[new failed] w2].
  destruct failed as [x|]; [destruct new; [|by subst o]; destruct Hadd as (m2 & -> & Ht2 & Hr2); intros [= <- <- <-]; by apply Hsame|].
  destruct Hadd as [Hn Hadd]. destruct (ask_ids new (barrier_wait w2)) as [[[ids|e] w3]|] eqn:Eask; [| |by subst o].
  - destruct Hadd as (m3 & Ht3 & Hr3 & Hli & Hadd). destruct (rest_fields _ _ Hr3) as (E1 & _ & _ & _ & E5 & E6 & E7). cbn in E1, E5, E6, E7.
    assert (Hlc : Z.of_nat (length cpus) = c - n) by (unfold cpus; rewrite length_seqZ; lia).
    assert (Hb3 : books ex (length (hs ++ new)) (vm_tids m3)).
    { rewrite E6, length_app, Hn. unfold cpus at 2. rewrite <- Hlc. apply books_app; [done|lia]. }
    destruct (tell new w3 Resume) as [[[[]|x] w4]|] eqn:Et; [| |by subst o].
    + apply tell_threads in Et. assert (Hi4 : mgr_inv ex m3 w4 (hs ++ new)) by (split; [by eapply table_threads|done|rewrite E7; apply Hno]).
      destruct (upcall_send_request w4 _) as [[[]|e] w5] eqn:Eu; subst o; intros [= <- <- <-]; apply upcall_law in Eu; exists (hs ++ new).
      * split; [apply inv_weaken, inv_action; [done|by eapply inv_threads]|]. split_and!; try done. intros _. unfold planned. cbn. rewrite length_app. lia.
      * split; [apply inv_weaken; by eapply inv_threads|]. by split_and!.
    + intros Ho. eapply (rolled_back_after ex m m3 _ hs new c (VcpuEventFailed x)); [|by eapply books_weaken|rewrite E7; apply Hno|unfold get_vcpus_action; by rewrite E7|done|done|done|exact Hadd|exact Ho].
      by eapply table_threads; [eapply tell_threads|].
  - destruct Hadd as (m3 & Ht3 & Hr3 & Hadd). destruct (rest_fields _ _ Hr3) as (E1 & _ & _ & _ & E5 & E6 & E7). apply ask_ids_err in Eask.
    intros Ho. eapply (rolled_back_after ex m m3 _ hs new c e); [done| |rewrite E7; apply Hno|unfold get_vcpus_action; by rewrite E7|done|done|done|exact Hadd|exact Ho].
    rewrite E6. eapply books_weaken; [exact Hb|]. rewrite length_app. lia.
Qed.

Lemma resized_after ex m w hs c tx o r m' w' : mgr_inv ex m w hs -> 0 <= c -> resized m w hs c tx o -> o = Ret (Some (r, m', w')) -> after ex m c r m' w'.
Proof.
  intros Hinv Hpos. pose proof (inv_sync ex m w hs tx (vm_synced m) Hinv) as Hi. unfold resized. set (mt := set_vm_sync m tx (vm_synced m)) in *.
  assert (Herr : forall e m1 w1, mgr_inv ex m1 w1 hs -> vm_max m1 = vm_max m -> vm_upcall m1 = vm_upcall m -> after ex m c (Err e) m1 w1).
  { intros e m1 w1 Hi1 Em Eu. exists hs. split_and!; try done. by apply inv_weaken. }
  destruct (get_vcpus_action m) eqn:Ea; [|by intros -> [= <- <- <-]; apply Herr..]. destruct (vm_upcall m) eqn:Eu; cbn [negb]; [|intros -> [= <- <- <-]; by apply Herr].
  destruct (Z.eqb_spec c (Z.of_nat (length hs))) as [Ec|Ec].
  { intros -> [= <- <- <-]. exists hs. destruct (synced_fields mt false) as [Em' Eu']. rewrite Em', Eu'. split_and!; try done; [by apply inv_weaken, inv_synced|].
    intros _. unfold planned. rewrite synced_action. unfold get_vcpus_action in Ea. cbn. by destruct (vm_action m) as [[] ?]. }
  destruct (c >? vm_max m); [intros -> [= <- <- <-]; by apply Herr|]. destruct (Z.eqb_spec c 0) as [|Hc0]; [intros -> [= <- <- <-]; by apply Herr|].
  destruct (Z.ltb_spec (Z.of_nat (length hs)) c) as [Hlt|Hge].
  - intros Hadd Ho. destruct (added_after ex mt w hs c o r m' w' Hi Ea ltac:(lia) Hadd Ho) as (hs' & ?). by exists hs'.
  - unfold asked_to_remove. destruct (upcall_send_request w _) as [[[]|e] w1] eqn:Eup; intros -> [= <- <- <-]; apply upcall_law in Eup; [|apply Herr; [by eapply inv_threads|done|done]].
    exists hs. split_and!; try done.
    + apply inv_weaken, inv_action; [exists c; split; [lia|done]|by eapply inv_threads].
    + intros _. unfold planned. cbn. rewrite length_reverse, length_seqZ. lia.
Qed.

(** ** Booting *)

Definition boot_manager (max boot kvm_max : Z) : result (VcpuManager H) unit :=
  match VcpuManager_new max boot kvm_max with Ok m => set_reset_event_fd m | Err _ => Err tt end.

Lemma boot_manager_inv max boot kvm_max m w : 0 <= boot <= max -> max <= u8_max -> boot_manager max boot kvm_max = Ok m ->
  mgr_inv true m w [] /\ vm_boot m = boot /\ vm_max m = max /\ vm_action m = (NoAction, []).
Proof.
  intros Hb Hm. unfold boot_manager, VcpuManager_new. destruct (max >? kvm_max); [done|]. cbn. intros [= <-]. split; [|done].
  split; [split| |]; cbn; try done.
  - split; cbn; [lia|]. intros i info Hi. apply lookup_replicate in Hi as [-> _]. done.
  - constructor.
  - by intros h ?%elem_of_nil.
  - apply length_replicate.
  - lia.
  - split_and!; try done. constructor.
Qed.

(** Activation of all that there is to activate. *)
Lemma activated_inv m w c l m2 w2 : mgr_inv true m w [] -> vm_action m = (NoAction, []) -> 0 <= c <= vm_max m -> Forall (created_ok m) (seqZ 0 c) ->
  activate_vcpus m w c true = Ret (Ok l, m2, w2) -> exists hs, mgr_inv true m2 w2 hs /\ Z.of_nat (length hs) = c.
Proof.
  intros [Ht Hb Ha] Hna Hc Hcr E. pose proof (activate_vcpus_ok m w [] c Ht ltac:(cbn; lia)) as Hact. cbn [length] in Hact. change (Z.of_nat 0) with 0 in Hact. rewrite Z.sub_0_r in Hact. specialize (Hact Hcr).
  assert (Hlc : Z.of_nat (length (seqZ 0 c)) = c) by (rewrite length_seqZ; lia).
  destruct (start_all (seqZ 0 c) w) as [[new failed] w1]. destruct Hact as (m1 & _ & _ & _ & _ & _ & _ & Hact). destruct failed as [x|]; [by rewrite Hact in E|].
  destruct Hact as [Hn Hact]. destruct (ask_ids new (barrier_wait w1)) as [[[ids|e] w3]|]; [|destruct Hact as (m3 & _ & _ & Hact); by rewrite Hact in E|by rewrite Hact in E].
  destruct Hact as (m3 & Ht3 & Hr3 & Hli & Hact). rewrite Hact in E. destruct (tell new w3 Resume) as [[[[]|x] w4]|] eqn:Et; [|done..]. cbn [obind] in E. injection E as _ <- <-.
  apply tell_threads in Et. cbn [app] in Ht3. exists new. split; [|lia]. destruct (rest_fields _ _ Hr3) as (_ & _ & _ & _ & _ & E6 & E7). cbn in E6, E7.
  split; [by eapply table_threads| |by rewrite E7, Hna]. rewrite E6. pose proof (books_app true 0 (length new) (vm_tids m) ids Hb ltac:(lia)) as Hbk. cbn [Nat.add] in Hbk.
  replace (Z.of_nat (length new)) with c in Hbk by lia. exact Hbk.
Qed.

(** The vCPUs of the configuration, if they could be created and started. *)
Lemma boot_inv max boot kvm_max m w e m1 w1 m2 w2 : 0 <= boot <= max -> max <= u8_max -> boot_manager max boot kvm_max = Ok m ->
  create_boot_vcpus m w e = Ret (Ok tt, m1, w1) -> start_boot_vcpus m1 w1 = Ret (Ok tt, m2, w2) -> exists hs, mgr_inv true m2 w2 hs /\ Z.of_nat (length hs) = boot.
Proof.
  intros Hb Hm Hn. destruct (boot_manager_inv _ _ _ _ w Hb Hm Hn) as (Hinv & Eb & Em & Ea). unfold create_boot_vcpus, create_vcpus. rewrite Eb, Em, Z.gtb_ltb, (proj2 (Z.ltb_ge _ _)) by lia.
  pose proof (mi_table _ _ _ _ Hinv) as [Hs Hd Hal Hl Hmx Hbt Hio Hre]. rewrite (available_ok m []) by (done || lia). cbn [obind length].
  change (Z.of_nat 0) with 0. rewrite Z.sub_0_r.
  destruct (create_vcpus_ok (seqZ 0 boot) m w (Some e) Hio Hre) as (r & m1' & w1' & -> & Hr1 & Hk1 & Ht1 & Hok1 & _).
  { apply Forall_forall. intros j Hj%elem_of_seqZ. lia. } { apply NoDup_seqZ. }
  cbn [obind]. destruct r as [[]|e']; [|done]. intros [= <- <-]. destruct (rest_fields _ _ Hr1) as (E1 & E2 & _ & _ & _ & E6 & E7). unfold start_boot_vcpus. rewrite E2, Eb.
  destruct (activate_vcpus m1' w1' boot true) as [[[[l|x] m3] w3]|] eqn:Eact; cbn [obind]; [|done..]. intros [= <- <-].
  apply (activated_inv m1' w1' boot l m3 w3); [|congruence|rewrite E1; lia|by apply Hok1|done].
  eapply inv_rest; [exact Hr1| |apply Hinv..]. eapply table_threads; [exact Ht1|]. eapply table_keeps; [done|done|apply Hinv].
Qed.

(** ** Every life of a manager *)

Inductive VmOp : Type := OpPause | OpResume | OpRevalidate | OpResize (c : Z) (tx : option Z) | OpReply (r : UpcallClientResponse).
Definition op_ok (o : VmOp) : Prop := match o with OpResize c _ => 0 <= c <= u8_max | _ => True end.

(** An operation that returns, and whether it leaves the list of ids complete. *)
Definition do_op (o : VmOp) m w : outcome (option (bool * VcpuManager H * W)) :=
  match o with
  | OpPause => let! (_, w) := pause_all_vcpus m w in Ret (Some (true, m, w))
  | OpResume => let! (_, w) := resume_all_vcpus m w in Ret (Some (true, m, w))
  | OpRevalidate => let! (_, w) := revalidate_all_vcpus_cache m w in Ret (Some (true, m, w))
  | OpResize c tx => let! o := resize_vcpu m w c tx in Ret (match o with Some (r, m, w) => Some (keeps_ids r, m, w) | None => None end)
  | OpReply r => let! o := process_cpu_state_event (option_list (upcall_event r)) m w in Ret (match o with Some (m, w) => Some (true, m, w) | None => None end)
  end.

(** The managers there can be; [ex] as long as no resize failed to ask threads for their ids or to make them run. *)
Inductive managed : bool -> VcpuManager H -> W -> Prop :=
| managed_boot max boot kvm_max e up m w m1 w1 m2 w2 : 0 <= boot <= max -> max <= u8_max -> boot_manager max boot kvm_max = Ok m ->
    create_boot_vcpus m w e = Ret (Ok tt, m1, w1) -> start_boot_vcpus m1 w1 = Ret (Ok tt, m2, w2) -> managed true (set_upcall_channel m2 up) w2
| managed_op ex m w o b m' w' : managed ex m w -> op_ok o -> do_op o m w = Ret (Some (b, m', w')) -> managed (ex && b) m' w'.

Lemma inv_handles ex m w hs : mgr_inv ex m w hs -> handles m (present_vcpus m) hs.
Proof. intros Hi. rewrite (inv_present _ _ _ _ Hi). by apply (shape_handles m hs 0 (length hs)); [apply Hi|]. Qed.

(** An event to all. *)
Definition told hs w (e : VcpuEvent) : outcome (result unit VcpuManagerError * W) :=
  let! (r, w) := tell hs w e in Ret (match r with Ok _ => Ok tt | Err x => Err (VcpuEventFailed x) end, w).

Lemma mgr_send ex m w hs e : mgr_inv ex m w hs -> send_each (present_vcpus m) m w e = told hs w e.
Proof. intros Hi. apply send_each_tell. by eapply inv_handles. Qed.

Lemma told_threads hs w e r w' : told hs w e = Ret (r, w') -> threads w' = threads w.
Proof. unfold told. destruct (tell hs w e) as [[r1 w1]|] eqn:E; cbn [obind]; [|done]. intros [= _ <-]. by eapply tell_threads. Qed.

Lemma do_op_inv ex o m w hs b m' w' : mgr_inv ex m w hs -> op_ok o -> do_op o m w = Ret (Some (b, m', w')) -> exists hs', mgr_inv (ex && b) m' w' hs'.
Proof.
  intros Hi Ho. destruct o as [| | |c tx|r]; cbn [do_op]; unfold pause_all_vcpus, pause_vcpus, resume_all_vcpus, resume_vcpus, revalidate_all_vcpus_cache, revalidate_vcpus_cache.
  1-3: rewrite (mgr_send ex m w hs) by done; match goal with |- context [told ?l ?x ?e] => destruct (told l x e) as [[r w1]|] eqn:E; cbn [obind]; [|done] end;
    intros [= <- <- <-]; apply told_threads in E; exists hs; rewrite andb_true_r; by eapply inv_threads.
  - pose proof (resize_vcpu_ok ex m w hs c tx Hi Ho) as Hr. destruct (resize_vcpu m w c tx) as [[[[r m1] w1]|]|]; cbn [obind]; [|done..]. intros [= <- <- <-].
    destruct (resized_after ex m w hs c tx _ r m1 w1 Hi ltac:(cbn in Ho; lia) Hr eq_refl) as (hs' & Hi' & _). by exists hs'.
  - destruct (upcall_event r) as [[a x]|]; simpl; [|intros [= <- <- <-]; exists hs; by rewrite andb_true_r].
    pose proof (process_cpu_action_ok ex m w hs a Hi) as Hr. destruct (process_cpu_action m w a) as [[[m1 w1]|]|]; simpl; [|done..]. intros [= <- <- <-].
    rewrite andb_true_r. by eapply (answered_inv ex m w hs a).
Qed.

Lemma managed_inv ex m w : managed ex m w -> exists hs, mgr_inv ex m w hs.
Proof.
  induction 1 as [max boot kvm_max e up m w m1 w1 m2 w2 Hb Hm Hn Hc Hs|ex m w o b m' w' _ [hs Hi] Ho E].
  - destruct (boot_inv _ _ _ _ w e _ _ _ _ Hb Hm Hn Hc Hs) as (hs & [[] ? ?] & _). by exists hs.
  - by eapply do_op_inv.
Qed.

(** Stopping all. *)
Lemma exit_all_ok ex m w hs : mgr_inv ex m w hs ->
  match tell hs w Exit with
  | Panic => exit_all_vcpus m w = Panic
  | Ret (Err x, w1) => exit_all_vcpus m w = Ret (Some (Err (VcpuEventFailed x), m, w1))
  | Ret (Ok _, w1) =>
      match join_all hs w1 with
      | None => exit_all_vcpus m w = Ret None
      | Some w2 =>
          if (length (vm_tids m) <? length hs)%nat then exit_all_vcpus m w = Panic
          else exists m', exit_all_vcpus m w = Ret (Some (Ok tt, m', w2)) /\ vm_infos m' = [] /\ vm_tids m' = [] /\ forall h, h ∈ hs -> threads w2 !! h = None
      end
  end.
Proof.
  intros Hi. unfold exit_all_vcpus. pose proof (exit_last_ok m w hs 0 _ _ (mi_table _ _ _ _ Hi) ltac:(lia) (inv_handles _ _ _ _ Hi)) as Hst. unfold stopped in Hst.
  rewrite (inv_present _ _ _ _ Hi), Z.sub_0_r in Hst. specialize (Hst ltac:(done) ltac:(done)). rewrite (inv_present _ _ _ _ Hi).
  destruct (tell hs w Exit) as [[[[]|x] w1]|]; [|by rewrite Hst..]. destruct (join_all hs w1) as [w2|]; [|by rewrite Hst].
  destruct (Nat.ltb_spec (length (vm_tids m)) (length hs)) as [Hlt|Hge]; [by rewrite Hst|]. destruct Hst as (m' & -> & _ & Hr & Hg). cbn [obind]. eexists. split; [reflexivity|]. cbn.
  split; [done|]. split; [|done]. destruct (rest_fields _ _ Hr) as (_ & _ & _ & _ & _ & -> & _). cbn. destruct (books_length _ _ _ (mi_books _ _ _ _ Hi)) as [Hle _].
  by replace (length (vm_tids m) - length hs)%nat with 0%nat by lia.
Qed.

(** C10. The vCPU manager keeps its books.  Threads may fail to start, may have ended when an event is sent, may not answer and may never end.
    Whatever sequence of pausing, resuming, revalidating, resizing and guest answers follows the boot, failed ones
    included: the vCPUs present are the first ones without gaps; the shared list has thread ids in increasing order of vCPU, each of one
    that is present, and exactly one for each as long as no resize failed to ask new threads for their ids or to
    make them run; an event for all goes to the threads of the vCPUs present, in order, up to the first that cannot be reached.
    Stopping all tells all, waits for all and leaves no vCPU, no id and no thread; otherwise
    it fails with the table as it was if a thread cannot be told, waits for ever if a thread does not end, and panics if a thread closed its
    channel or (only when the list is incomplete) there are fewer ids than vCPUs. *)
Theorem vcpu_manager_invariant ex m w : managed ex m w ->
  exists hs, mgr_inv ex m w hs /\ present_vcpus m = seqZ 0 (Z.of_nat (length hs)) /\
    StronglySorted Z.lt (vm_tids m).*1 /\ (vm_tids m).*1 ⊆ present_vcpus m /\ (ex = true -> (vm_tids m).*1 = present_vcpus m) /\
    pause_all_vcpus m w = told hs w Pause /\ resume_all_vcpus m w = told hs w Resume /\ revalidate_all_vcpus_cache m w = told hs w RevalidateCache /\
    match tell hs w Exit with
    | Panic => exit_all_vcpus m w = Panic
    | Ret (Err x, w1) => exit_all_vcpus m w = Ret (Some (Err (VcpuEventFailed x), m, w1))
    | Ret (Ok _, w1) =>
        match join_all hs w1 with
        | None => exit_all_vcpus m w = Ret None
        | Some w2 =>
            (exit_all_vcpus m w = Panic /\ ex = false /\ (length (vm_tids m) < length hs)%nat) \/
            exists m', exit_all_vcpus m w = Ret (Some (Ok tt, m', w2)) /\ vm_infos m' = [] /\ vm_tids m' = [] /\ forall h, h ∈ hs -> threads w2 !! h = None
        end
    end.
Proof.
  intros Hm. destruct (managed_inv ex m w Hm) as [hs Hi]. exists hs. pose proof (inv_present _ _ _ _ Hi) as Hp. pose proof (mi_books _ _ _ _ Hi) as Hb. rewrite Hp.
  destruct (books_length _ _ _ Hb) as [_ Hex]. destruct Hb as (Hs & Hf & He). split_and!; try done; try (by eapply mgr_send).
  - intros i Hin. rewrite Forall_forall in Hf. specialize (Hf i Hin). cbn in Hf. apply elem_of_seqZ. lia.
  - pose proof (exit_all_ok ex m w hs Hi) as He'. destruct (tell hs w Exit) as [[[[]|x] w1]|]; [|done..]. destruct (join_all hs w1) as [w2|]; [|done].
    destruct (Nat.ltb_spec (length (vm_tids m)) (length hs)); [|by right]. left. split_and!; [done| |done]. destruct ex; [|done]. specialize (Hex eq_refl). lia.
Qed.

(** C11. Resizing is exact on every branch.  With [hs] present: a change in progress refuses; without a channel to the guest nothing
    changes; the same number is confirmed at once; more than the maximum and zero are refused.  A larger number creates and starts
    the missing vCPUs, asks their ids, lets them run and tells the guest ([added]).  If KVM refuses, or no thread can be started, all is as
    before; if only some threads can be started the roll back waits for ever for those that wait at the barrier; if new threads
    do not give their ids or cannot be told to run, they are told to exit and waited for, the table is as before and as many ids are cut off the
    list, or the code panics if it has fewer.  A smaller number asks the guest for the last ones, largest first, and only its answer stops
    them ([answered]); an answer of failure changes nothing at all, so the change stays in progress.
    Whenever the resize returns, the invariant of the manager holds, and after success the vCPUs planned are those asked for. *)
Theorem vcpu_resize_correct ex m w c tx : managed ex m w -> 0 <= c <= u8_max ->
  exists hs, mgr_inv ex m w hs /\ resized m w hs c tx (resize_vcpu m w c tx) /\
    (forall r m' w', resize_vcpu m w c tx = Ret (Some (r, m', w')) -> after ex m c r m' w') /\
    (forall r, answered m w hs r (process_cpu_action m w r)) /\
    (forall r m' w', process_cpu_action m w r = Ret (Some (m', w')) -> exists hs', mgr_inv ex m' w' hs').
Proof.
  intros Hm Hc. destruct (managed_inv ex m w Hm) as [hs Hi]. exists hs. pose proof (resize_vcpu_ok ex m w hs c tx Hi Hc) as Hr. split; [done|]. split; [done|]. split_and!.
  - intros r m' w' E. by eapply resized_after; [exact Hi|lia|exact Hr|].
  - intros r. by eapply process_cpu_action_ok.
  - intros r m' w' E. by eapply answered_inv; [exact Hi|by eapply process_cpu_action_ok|].
Qed.
End Spec.

(** ** The threads of [Vcpu] *)

(** The laws hold of the thread of [Vcpu] itself, with a guest that leaves on a signal: sending an event lets the thread run until it waits. *)
Record ActiveThread := mkActive {
  at_ready : bool;
  at_sm : StateMachine;
  at_vcpu : Vcpu;
}.

(** At the barrier events wait in the channel. *)
Definition take_event (a : ActiveThread) (e : VcpuEvent) : ActiveThread :=
  let v := post (at_vcpu a) e in
  if negb (at_ready a) then mkActive false (at_sm a) v
  else match sm_run 3 (at_sm a) (kick v) quiet_machine with
       | Ret (sf, v, _) => mkActive true sf v
       | Panic => mkActive true (mkSM (sm_function (at_sm a)) true) v
       end.

Definition take_response (a : ActiveThread) : option (VcpuResponse * ActiveThread) :=
  match v_responses (at_vcpu a) with
  | [] => None
  | r :: rs => Some (r, mkActive (at_ready a) (at_sm a) (set_v_responses (at_vcpu a) rs))
  end.

Definition new_thread (i : Z) : ActiveThread := mkActive false vcpu_start (mkVcpu i (1000 + i) [] [] true 0 false true).
Definition has_ended (a : ActiveThread) : bool := at_ready a && sm_end_state (at_sm a).

(** KVM and the guest accept; the guest has been asked for what is in the second part of the world.  [can_start] says when threads can be
    started, [in_time] when they answer in time.  The channel of a thread that has ended is closed. *)
Definition paced_world (can_start : Z -> bool) (in_time : gmap Z ActiveThread -> bool) : VcpuWorld (gmap Z ActiveThread * list DevMgrRequest) Z := {|
  kvm_create_vcpu w _ := (Ok tt, w);
  vcpu_configure w _ _ := (Ok tt, w);
  start_threaded w i := if can_start i then let h := fresh (dom w.1) in (Ok h, (<[h := new_thread i]> w.1, w.2)) else (Err 11, w);
  barrier_wait w := ((fun a => mkActive true (at_sm a) (at_vcpu a)) <$> w.1, w.2);
  send_event w h e := match w.1 !! h with Some a => if has_ended a then Panic else Ret (Ok tt, (<[h := take_event a e]> w.1, w.2)) | None => Panic end;
  recv_timeout w h := match (if in_time w.1 then w.1 !! h else None) ≫= take_response with Some (r, a) => (Some r, (<[h := a]> w.1, w.2)) | None => (None, w) end;
  join_vcpu_thread w h := match w.1 !! h with Some a => if has_ended a then Some (delete h w.1, w.2) else None | None => None end;
  upcall_send_request w q := (Ok tt, (w.1, w.2 ++ [q]));
|}.
#[export] Instance paced : VcpuWorld (gmap Z ActiveThread * list DevMgrRequest) Z := paced_world (fun _ => true) (fun _ => true).

Lemma take_event_ready a e : at_ready (take_event a e) = at_ready a.
Proof. unfold take_event. destruct (at_ready a); cbn [negb]; [|done]. by destruct (sm_run _ _ _ _) as [[[? ?] ?]|]. Qed.

Definition paced_laws can_start in_time : @ThreadLaws (gmap Z ActiveThread * list DevMgrRequest) Z (paced_world can_start in_time) _ _.
Proof.
  refine {| threads (w : gmap Z ActiveThread * list DevMgrRequest) := at_ready <$> w.1 |}.
  - by intros w i r w' [= <- <-].
  - by intros w i a r w' [= <- <-].
  - by intros w q r w' [= <- <-].
  - intros w i h w'. cbn. destruct (can_start i); [|done]. intros [= <- <-]. cbn. rewrite fmap_insert, lookup_fmap. split; [|done].
    by rewrite (not_elem_of_dom_1 _ _ (is_fresh (dom w.1))).
  - intros w i e w'. cbn. destruct (can_start i); [done|]. by intros [= _ <-].
  - intros w. cbn. rewrite <- !map_fmap_compose. by apply map_fmap_ext.
  - intros w h e r w'. cbn. destruct (w.1 !! h) as [a|] eqn:E; [|done]. destruct (has_ended a); [done|]. intros [= _ <-]. cbn. rewrite fmap_insert, take_event_ready.
    apply insert_id. by rewrite lookup_fmap, E.
  - intros w h e Hh. rewrite lookup_fmap in Hh. cbn. destruct (w.1 !! h) as [a|]; [|done]. apply (inj Some) in Hh. unfold has_ended. rewrite Hh. by eexists.
  - intros w h r w'. cbn. destruct (in_time w.1); [|by intros [= _ <-]]. destruct (w.1 !! h) as [a|] eqn:E; cbn; [|by intros [= _ <-]]. unfold take_response.
    destruct (v_responses (at_vcpu a)); [by intros [= _ <-]|]. intros [= _ <-]. cbn. rewrite fmap_insert. apply insert_id. by rewrite lookup_fmap, E.
  - intros w h w'. cbn. destruct (w.1 !! h) as [a|]; [|done]. destruct (has_ended a); [|done]. intros [= <-]. cbn. apply fmap_delete.
  - intros w h Hh. rewrite lookup_fmap in Hh. cbn. destruct (w.1 !! h) as [a|]; [|done]. apply (inj Some) in Hh. unfold has_ended. by rewrite Hh.
Defined.

#[export] Instance paced_laws_all : ThreadLaws (gmap Z ActiveThread * list DevMgrRequest) Z := paced_laws _ _.

(** Two of four vCPUs at boot. *)
Lemma booted : exists (m : VcpuManager Z) w, managed true m w /\ present_vcpus m = [0; 1] /\ get_vcpus_action m = NoAction /\ vm_upcall m = true /\ vm_max m = 4.
Proof.
  do 2 eexists. split.
  - eapply (managed_boot 4 2 8 0 true _ (∅, [])); [lia|done|reflexivity|vm_compute; reflexivity|vm_compute; reflexivity].
  - vm_compute. done.
Qed.

Lemma vcpu_manager_invariant_witness : exists (m : VcpuManager Z) w hs, present_vcpus m = [0; 1] /\ mgr_inv true m w hs /\ (vm_tids m).*1 = [0; 1] /\
  pause_all_vcpus m w = told hs w Pause.
Proof.
  destruct booted as (m & w & Hm & Hp & _). destruct (vcpu_manager_invariant true m w Hm) as (hs & Hi & _ & _ & _ & Ht & Hpa & _).
  exists m, w, hs. split; [done|]. split; [done|]. split; [by rewrite <- Hp; apply Ht|done].
Defined.

(** Threads that answer in time only while there is one: a resize to three vCPUs is rolled back. *)
Definition slow_threads : gmap Z ActiveThread -> bool := fun ts => Z.of_nat (size ts) <=? 1.

Lemma slow_booted : exists (m : VcpuManager Z) w, @managed _ _ (paced_world (fun _ => true) slow_threads) true m w /\ present_vcpus m = [0] /\ get_vcpus_action m = NoAction /\
  vm_upcall m = true /\ vm_max m = 4.
Proof.
  do 2 eexists. split.
  - eapply (@managed_boot _ _ (paced_world (fun _ => true) slow_threads) 4 1 8 0 true _ (∅, [])); [lia|done|reflexivity|vm_compute; reflexivity|vm_compute; reflexivity].
  - vm_compute. done.
Qed.

Lemma one_handle {W H} `{VcpuWorld W H} `{!EqDecision H} `{!Countable H} `{!ThreadLaws W H} ex (m : VcpuManager H) (w : W) hs l :
  mgr_inv ex m w hs -> present_vcpus m = l -> length hs = length l.
Proof. intros Hi Hp. pose proof (inv_present ex m w hs Hi) as Hl. rewrite Hp in Hl. rewrite Hl, length_seqZ. lia. Qed.

(** Both without and with failures. *)
Lemma vcpu_resize_correct_witness :
  (exists (m : VcpuManager Z) w hs, present_vcpus m = [0; 1] /\ length hs = 2%nat /\ added (set_vm_sync m None (vm_synced m)) w hs 3 (resize_vcpu m w 3 None)) /\
  (exists (m : VcpuManager Z) w hs, present_vcpus m = [0] /\ length hs = 1%nat /\
    @added _ _ (paced_world (fun _ => true) slow_threads) _ _ (paced_laws _ _) (set_vm_sync m None (vm_synced m)) w hs 3 (@resize_vcpu _ _ (paced_world (fun _ => true) slow_threads) m w 3 None)).
Proof.
  split.
  - destruct booted as (m & w & Hm & Hp & Ha & Hu & Hx). destruct (vcpu_resize_correct true m w 3 None Hm) as (hs & Hi & Hr & _); [done|]. exists m, w, hs. split; [done|].
    pose proof (one_handle _ _ _ _ _ Hi Hp) as E. cbn in E. split; [done|]. unfold resized in Hr. by rewrite Ha, Hu, Hx, E in Hr.
  - destruct slow_booted as (m & w & Hm & Hp & Ha & Hu & Hx).
    destruct (@vcpu_resize_correct _ _ (paced_world (fun _ => true) slow_threads) _ _ (paced_laws _ _) true m w 3 None Hm) as (hs & Hi & Hr & _); [done|]. exists m, w, hs. split; [done|].
    pose proof (@one_handle _ _ (paced_world (fun _ => true) slow_threads) _ _ (paced_laws _ _) _ _ _ _ _ Hi Hp) as E. cbn in E. split; [done|]. unfold resized in Hr. by rewrite Ha, Hu, Hx, E in Hr.
Defined.

(** ** When adding fails *)

(** Boot with [boot] vCPUs, then ask for [c]. *)
Definition boot_and_resize {W} `{VcpuWorld W Z} (boot c : Z) (w : W) : outcome (option (result unit VcpuResizeError * list Z * list (Z * Z))) :=
  match boot_manager 4 boot 8 with
  | Ok m =>
      let! (r, m, w) := create_boot_vcpus m w 0 in
      let! (r, m, w) := start_boot_vcpus m w in
      let! o := resize_vcpu (set_upcall_channel m true) w c None in
      Ret (match o with Some (r, m, _) => Some (r, present_vcpus m, vm_tids m) | None => None end)
  | Err _ => Panic
  end.

(** A thread that cannot be started: those started before it wait at the barrier, and the roll back waits for them. *)
Lemma rollback_hangs : @boot_and_resize _ (paced_world (fun i => i <? 2) (fun _ => true)) 1 3 (∅, []) = Ret None.
Proof. vm_compute. reflexivity. Qed.

(** Threads that do not give their id in time: the roll back takes two ids from a list of one. *)
Lemma rollback_underflows : @boot_and_resize _ (paced_world (fun _ => true) slow_threads) 1 3 (∅, []) = Panic.
Proof. vm_compute. reflexivity. Qed.

(** Or it takes the id of a vCPU that stays. *)
Lemma rollback_loses_id : @boot_and_resize _ (paced_world (fun _ => true) (fun ts => Z.of_nat (size ts) <=? 2)) 2 3 (∅, []) =
  Ret (Some (Err (ResizeVcpuError VcpuGettid), [0; 1], [(0, 1000)])).
Proof. vm_compute. reflexivity. Qed.
