(* ===== verification/CpuSet.v ===== *)
(** Sets of CPUs and their text, in the two runtimes: virtcontainers/pkg/cpuset/cpuset.go with its use in
    virtcontainers/sandbox.go, and libs/kata-types/src/utils/u32_set.rs.

    A set of the Go code is a [gset], one of the Rust code a sorted list without duplicates. *)

From stdpp Require Import sorting.
From S2P Require Import Prelude Text.

Definition COMMA : Z := 44.

(** ** cpuset.go *)

Definition int_max : Z := 2 ^ 63 - 1.
Definition Atoi (s : text) : option Z := from_str_radix 10 (- 2 ^ 63) int_max s.

Definition CPUSet := gset Z.

(** A [Builder] is passed by value, its map is shared: [b_map] is a place in a store of maps. *)
Record Builder := mkBuilder { b_map : nat; b_done : bool }.
Definition Builder_Add (b : Builder) (elems : list Z) (st : gmap nat CPUSet) : gmap nat CPUSet :=
  if b_done b then st else partial_alter (fun m => Some (list_to_set elems ∪ default ∅ m)) (b_map b) st.
(** [Result] sets the flag of its copy of the builder, and hands out the map. *)
Definition Builder_Result (b : Builder) : nat := b_map (mkBuilder (b_map b) true).

(** Below no builder is used after its result has been taken, so its map is a value. *)
Definition NewCPUSet (cpus : list Z) : CPUSet := list_to_set cpus.
Definition CPUSet_Size (s : CPUSet) : Z := Z.of_nat (size s).
Definition CPUSet_IsEmpty (s : CPUSet) : bool := CPUSet_Size s =? 0.
Definition CPUSet_Contains (s : CPUSet) (cpu : Z) : bool := bool_decide (cpu ∈ s).
Definition CPUSet_Equals (s s2 : CPUSet) : bool := bool_decide (s = s2).
Definition CPUSet_Filter (s : CPUSet) (p : Z -> bool) : CPUSet := NewCPUSet (List.filter p (elements s)).
Definition CPUSet_FilterNot (s : CPUSet) (p : Z -> bool) : CPUSet := NewCPUSet (List.filter (fun cpu => negb (p cpu)) (elements s)).
Definition CPUSet_IsSubsetOf (s s2 : CPUSet) : bool := forallb (CPUSet_Contains s2) (elements s).
Definition CPUSet_Union (s s2 : CPUSet) : CPUSet := NewCPUSet (elements s ++ elements s2).
Definition CPUSet_UnionAll (s : CPUSet) (s2 : list CPUSet) : CPUSet := NewCPUSet (elements s ++ concat (elements <$> s2)).
Definition CPUSet_Intersection (s s2 : CPUSet) : CPUSet := CPUSet_Filter s (CPUSet_Contains s2).
Definition CPUSet_Difference (s s2 : CPUSet) : CPUSet := CPUSet_FilterNot s (CPUSet_Contains s2).
Definition CPUSet_Clone (s : CPUSet) : CPUSet := NewCPUSet (elements s).
Definition CPUSet_ToSlice (s : CPUSet) : list Z := merge_sort Z.le (elements s).

(** The ranges of a sorted slice, the last one being [start] to [end_]. *)
Fixpoint ranges_of (start end_ : Z) (elems : list Z) : list (Z * Z) :=
  match elems with
  | [] => [(start, end_)]
  | e :: elems => if e =? end_ + 1 then ranges_of start e elems else (start, end_) :: ranges_of e e elems
  end.

(** [strconv.Itoa] *)
Definition Itoa (n : Z) : text := if n <? 0 then MINUS :: dec (- n) else dec n.
Definition range_text (r : Z * Z) : text := if r.1 =? r.2 then Itoa r.1 else Itoa r.1 ++ MINUS :: Itoa r.2.

(** [strings.TrimRight] with one character. *)
Fixpoint trim_left (c : Z) (s : text) : text :=
  match s with [] => [] | x :: s' => if x =? c then trim_left c s' else s end.
Definition trim_right (c : Z) (s : text) : text := reverse (trim_left c (reverse s)).

Definition CPUSet_String (s : CPUSet) : text :=
  match CPUSet_ToSlice s with
  | [] => []
  | e :: elems => trim_right COMMA (concat ((fun r => range_text r ++ [COMMA]) <$> ranges_of e e elems))
  end.

(** The elements of a part of a list.  The loop from [start] to [end_] does not end ([None]) if [end_] is the largest int. *)
Definition list_part (r : text) : option (result (list Z) unit) :=
  match split MINUS r with
  | [a] => Some (ok_or (e ← Atoi a; Some [e]) tt)
  | [a; b] =>
      match Atoi a, Atoi b with
      | Some start, Some end_ => if (start <=? end_) && (end_ =? int_max) then None else Some (Ok (seqZ start (end_ - start + 1)))
      | _, _ => Some (Err tt)
      end
  | _ => Some (Ok [])
  end.

Fixpoint list_parts (ranges : list text) (acc : list Z) : option (result (list Z) unit) :=
  match ranges with
  | [] => Some (Ok acc)
  | r :: ranges =>
      match list_part r with
      | None => None
      | Some (Err e) => Some (Err e)
      | Some (Ok elems) => list_parts ranges (acc ++ elems)
      end
  end.

Definition CPUSet_Parse (s : text) : option (result CPUSet unit) :=
  match s with
  | [] => Some (Ok ∅)
  | _ =>
      match list_parts (split COMMA s) [] with
      | None => None
      | Some (Err e) => Some (Err e)
      | Some (Ok elems) => Some (Ok (NewCPUSet elems))
      end
  end.

(** ** u32_set.rs *)

Definition U32Set := list Z.
Definition U32Set_new : U32Set := [].

(** [sort_unstable] and [dedup]. *)
Definition sort_unstable (l : list Z) : list Z := merge_sort Z.le l.
Fixpoint dedup (l : list Z) : list Z :=
  match l with
  | [] => []
  | x :: l' =>
      match l' with
      | [] => [x]
      | y :: _ => if x =? y then dedup l' else x :: dedup l'
      end
  end.

Definition U32Set_from (cpus : list Z) : U32Set := dedup (sort_unstable cpus).
Definition U32Set_add (s : U32Set) (cpu : Z) : U32Set := dedup (sort_unstable (s ++ [cpu])).
Definition U32Set_extend (s : U32Set) (cpus : list Z) : U32Set := dedup (sort_unstable (s ++ cpus)).
Definition U32Set_is_empty (s : U32Set) : bool := match s with [] => true | _ => false end.
Definition U32Set_len (s : U32Set) : Z := Z.of_nat (length s).

Inductive ListError : Type := InvalidList (s : text).

(** One round of the loop of [from_str]; [None] is the error. *)
Definition split_cpu (t : text) : option (list Z) :=
  if negb (bool_decide (MINUS ∈ t)) then
    match t with [] => None | _ => cpu_id ← parse_u32 t; Some [cpu_id] end
  else
    match split MINUS t with
    | [a; b] =>
        start ← parse_u32 a;
        end_ ← parse_u32 b;
        if start <? end_ then Some (seqZ start (end_ - start + 1)) else None
    | _ => None
    end.

Fixpoint split_cpus (ts : list text) (cpus : list Z) : option (list Z) :=
  match ts with
  | [] => Some cpus
  | t :: ts => l ← split_cpu t; split_cpus ts (cpus ++ l)
  end.

Definition U32Set_from_str (s : text) : result U32Set ListError :=
  match s with
  | [] => Ok U32Set_new
  | _ =>
      match split_cpus (split COMMA s) [] with
      | Some cpus => Ok (U32Set_from cpus)
      | None => Err (InvalidList s)
      end
  end.

(** ** The sets of a sandbox (sandbox.go) *)

(** The cpus and mems of a container, if it has CPU resources. *)
Definition ContainerCPU : Type := option (text * text).

Fixpoint sandbox_sets (ctrs : list ContainerCPU) (cpus mems : CPUSet) : option (result (CPUSet * CPUSet) unit) :=
  match ctrs with
  | [] => Some (Ok (cpus, mems))
  | None :: ctrs => sandbox_sets ctrs cpus mems
  | Some (c, m) :: ctrs =>
      match CPUSet_Parse c with
      | None => None
      | Some (Err e) => Some (Err e)
      | Some (Ok curr) =>
          let cpus := CPUSet_Union cpus curr in
          match CPUSet_Parse m with
          | None => None
          | Some (Err e) => Some (Err e)
          | Some (Ok curr) => sandbox_sets ctrs cpus (CPUSet_Union mems curr)
          end
      end
  end.

Definition getSandboxCPUSet (config : option (list ContainerCPU)) : option (result (text * text) unit) :=
  match config with
  | None => Some (Ok ([], []))
  | Some ctrs =>
      match sandbox_sets ctrs (NewCPUSet []) (NewCPUSet []) with
      | None => None
      | Some (Err e) => Some (Err e)
      | Some (Ok (cpus, mems)) => Some (Ok (CPUSet_String cpus, CPUSet_String mems))
      end
  end.

(** *** Pinning vCPU threads *)

(** The threads of the vCPUs, in the order in which the map is visited, and setting the affinity of a thread. *)
Class Affinity (W : Type) := {
  GetThreadIDs : W -> result (list (Z * Z)) unit;
  SetThreadAffinity : W -> Z -> list Z -> result unit unit * W;
}.

Section Pinning.
Context {W : Type} `{Affinity W}.
Implicit Types (w : W).

Fixpoint resetVCPUsPinning w (vcpus : list (Z * Z)) (cpus : list Z) : result unit unit * W :=
  match vcpus with
  | [] => (Ok tt, w)
  | (_, tid) :: vcpus =>
      match SetThreadAffinity w tid cpus with
      | (Err e, w) => (Err e, w)
      | (Ok _, w) => resetVCPUsPinning w vcpus cpus
      end
  end.

(** The capacity that a slice has beyond its length, filled with zeros; [cpuSetSlice[i:i+1]] panics beyond it. *)
Variable spare : nat.

(** The loop that pins; [all] are the threads to reset after a failure. *)
Fixpoint pin_each w (vcpus all : list (Z * Z)) (cpus : list Z) : outcome (result unit unit * W) :=
  match vcpus with
  | [] => Ret (Ok tt, w)
  | (i, tid) :: vcpus =>
      let! cpu := unwrap (if i <? 0 then None else (cpus ++ replicate spare 0) !! Z.to_nat i) in
      match SetThreadAffinity w tid [cpu] with
      | (Err _, w) => let '(_, w) := resetVCPUsPinning w all cpus in Ret (Err tt, w)
      | (Ok _, w) => pin_each w vcpus all cpus
      end
  end.

(** [on] is [isVCPUsPinningOn]; [None] if parsing does not end. *)
Definition checkVCPUsPinning (config : option (bool * list ContainerCPU)) (on : bool) w : outcome (option (result unit unit * bool * W)) :=
  match config with
  | None => Ret (Some (Err tt, on, w))
  | Some (enabled, ctrs) =>
      if negb enabled then Ret (Some (Ok tt, on, w))
      else
        match GetThreadIDs w with
        | Err e => Ret (Some (Err e, on, w))
        | Ok vcpus =>
            match getSandboxCPUSet (Some ctrs) with
            | None => Ret None
            | Some (Err e) => Ret (Some (Err e, on, w))
            | Some (Ok (s, _)) =>
                match CPUSet_Parse s with
                | None => Ret None
                | Some (Err e) => Ret (Some (Err e, on, w))
                | Some (Ok set) =>
                    let cpus := CPUSet_ToSlice set in
                    if negb (length vcpus =? length cpus)%nat then
                      if on then let '(r, w) := resetVCPUsPinning w vcpus cpus in Ret (Some (r, false, w))
                      else Ret (Some (Ok tt, on, w))
                    else
                      let! (r, w) := pin_each w vcpus vcpus cpus in
                      Ret (Some (r, match r with Ok _ => true | Err _ => on end, w))
                end
            end
        end
  end.
End Pinning.
