(* ===== verification/CpuSetSpec.v ===== *)
(** Correctness of CPU sets: their text can be read back, and the two runtimes read the same text as the same set. *)

From stdpp Require Import sorting.
From S2P Require Import Prelude Text CpuSet.

(** ** Sorted lists *)

#[local] Instance Zle_antisymm : AntiSymm eq Z.le.
Proof. intros x y. lia. Qed.

Lemma strictly_sorted l : StronglySorted Z.le l -> NoDup l -> StronglySorted Z.lt l.
Proof.
  induction 1 as [|x l Hs IH Hf]; intros Hd; constructor; apply NoDup_cons in Hd as [Hn Hd]; [by apply IH|].
  rewrite Forall_forall in *. intros y Hy. specialize (Hf y Hy). assert (x <> y) by (intros ->; done). lia.
Qed.

Lemma sorted_nodup l : StronglySorted Z.lt l -> NoDup l /\ StronglySorted Z.le l.
Proof.
  induction 1 as [|x l Hs [IHd IHs] Hf]; split; try constructor; try done; rewrite Forall_forall in *.
  - intros Hx. specialize (Hf x Hx). lia.
  - intros y Hy. specialize (Hf y Hy). lia.
Qed.

(** A set has one sorted list. *)
Lemma sorted_unique l k : StronglySorted Z.lt l -> StronglySorted Z.lt k -> (forall x, x ∈ l <-> x ∈ k) -> l = k.
Proof.
  intros Hl Hk He. destruct (sorted_nodup l Hl) as [Dl Sl]. destruct (sorted_nodup k Hk) as [Dk Sk].
  apply (StronglySorted_unique Z.le); [done|done|]. by apply NoDup_Permutation.
Qed.

Lemma slice_ok (s : CPUSet) : StronglySorted Z.lt (CPUSet_ToSlice s) /\ forall x, x ∈ CPUSet_ToSlice s <-> x ∈ s.
Proof.
  unfold CPUSet_ToSlice. split.
  - apply strictly_sorted; [apply Sorted_StronglySorted; [intros x y z; lia|]; apply Sorted_merge_sort; intros x y; lia|].
    rewrite merge_sort_Permutation. apply NoDup_elements.
  - intros x. by rewrite merge_sort_Permutation, elem_of_elements.
Qed.

Lemma dedup_ok l : StronglySorted Z.le l -> StronglySorted Z.lt (dedup l) /\ forall x, x ∈ dedup l <-> x ∈ l.
Proof.
  induction 1 as [|x l Hs [IHs IHe] Hf]; [split; [constructor|done]|]. simpl. destruct l as [|y l]; [split; [repeat constructor|done]|].
  destruct (Z.eqb_spec x y) as [->|Hne].
  - split; [done|]. intros z. rewrite IHe. set_solver.
  - split.
    + constructor; [done|]. apply Forall_forall. intros z Hz%IHe. apply Forall_cons in Hf as [Hxy Hf]. apply StronglySorted_inv in Hs as [_ Hy].
      apply elem_of_cons in Hz as [->|Hz]; [lia|]. rewrite Forall_forall in Hy. specialize (Hy z Hz). lia.
    + intros z. rewrite !(elem_of_cons _ z x), IHe. done.
Qed.

Lemma from_slice l : U32Set_from l = CPUSet_ToSlice (NewCPUSet l).
Proof.
  unfold U32Set_from, sort_unstable, NewCPUSet. destruct (dedup_ok (merge_sort Z.le l)) as [Hs He].
  { apply Sorted_StronglySorted; [intros x y z; lia|]. apply Sorted_merge_sort. intros x y. lia. }
  destruct (slice_ok (list_to_set l)) as [Hs' He']. apply sorted_unique; [done|done|].
  intros x. rewrite He, He', merge_sort_Permutation, elem_of_list_to_set. done.
Qed.

(** ** The two parsers *)

Lemma u32_Atoi a n : MINUS ∉ a -> parse_u32 a = Some n <-> Atoi a = Some n /\ n <= u32_max.
Proof.
  intros Hm. unfold parse_u32, Atoi. split.
  - intros Hp. destruct (from_str_max 10 0 (- 2 ^ 63) u32_max int_max a n) as [Hb Hi]; [lia|done|done|done|]. split; [|lia]. apply Hi. unfold int_max. ulia.
  - intros [Hp Hu]. destruct (from_str_max 10 (- 2 ^ 63) 0 int_max u32_max a n) as [Hb Hi]; [lia|done|done|done|]. by apply Hi.
Qed.

Lemma Atoi_bounds a n : MINUS ∉ a -> Atoi a = Some n -> 0 <= n <= int_max.
Proof. intros Hm Hp. by destruct (from_str_max 10 (- 2 ^ 63) 0 int_max 0 a n) as [? _]. Qed.

(** The parts of a list that the Rust parser takes: one number, or two in ascending order, of 32 bits. *)
Definition strict (t : text) : Prop :=
  match split MINUS t with
  | [a] => exists n, Atoi a = Some n /\ n <= u32_max
  | [a; b] => exists x y, Atoi a = Some x /\ Atoi b = Some y /\ x < y <= u32_max
  | _ => False
  end.

Lemma part_free t : match split MINUS t with [a] => MINUS ∉ a | [a; b] => MINUS ∉ a /\ MINUS ∉ b | _ => True end.
Proof. pose proof (split_parts MINUS t) as Hp. destruct (split MINUS t) as [|a [|b [|]]]; try done; rewrite !Forall_cons in Hp; naive_solver. Qed.

Lemma split_cpu_strict t l : split_cpu t = Some l <-> strict t /\ list_part t = Some (Ok l).
Proof.
  unfold split_cpu, strict, list_part. pose proof (part_free t) as Hf. pose proof (split_one MINUS t) as H1. case_bool_decide as Hd; cbn [negb].
  - destruct (split MINUS t) as [|a [|b [|]]] eqn:E; try (split; [done|intros [? _]; done]); [by destruct (proj1 H1 eq_refl)|].
    destruct Hf as [Ha Hb]. split.
    + destruct (parse_u32 a) as [x|] eqn:Ex; [|done]. destruct (parse_u32 b) as [y|] eqn:Ey; [|done]. apply (u32_Atoi a x Ha) in Ex as [-> Hx]. apply (u32_Atoi b y Hb) in Ey as [-> Hy].
      cbn. destruct (Z.ltb_spec x y); [|done]. intros [= <-]. rewrite (proj2 (Z.eqb_neq y _)), andb_false_r by (unfold int_max; ulia). split; [by exists x, y|done].
    + intros ((x & y & Hx & Hy & Hxy) & Hl). rewrite Hx, Hy in Hl. rewrite (proj2 (Z.eqb_neq y _)), andb_false_r in Hl by (unfold int_max; ulia).
      rewrite (proj2 (u32_Atoi a x Ha)), (proj2 (u32_Atoi b y Hb)) by (split; [done|lia]). cbn. rewrite (proj2 (Z.ltb_lt x y)) by lia. congruence.
  - assert (E : split MINUS t = [t]) by (by apply split_free). rewrite E. clear Hf H1 E. split.
    + destruct t as [|c t]; [done|]. destruct (parse_u32 (c :: t)) as [x|] eqn:Ex; [|done]. apply (u32_Atoi (c :: t) x Hd) in Ex as [Hx Hu].
      rewrite Hx. intros [= <-]. split; [by exists x|done].
    + intros ((x & Hx & Hu) & Hl). rewrite Hx in Hl. cbn in Hl. destruct t as [|c t]; [done|]. rewrite (proj2 (u32_Atoi _ x Hd)) by done. cbn. congruence.
Qed.

Lemma split_cpus_strict ts l acc : split_cpus ts acc = Some l <-> Forall strict ts /\ list_parts ts acc = Some (Ok l).
Proof.
  revert acc. induction ts as [|t ts IH]; intros acc; cbn.
  - split; [intros [= <-]; split; [constructor|done]|naive_solver].
  - rewrite Forall_cons. destruct (split_cpu t) as [k|] eqn:E.
    + apply split_cpu_strict in E as [Hs ->]. cbn. rewrite IH. naive_solver.
    + cbn. split; [done|]. intros [[Hs _] Hl]. destruct (list_part t) as [[k|]|] eqn:E'; try done. assert (split_cpu t = Some k) by (by apply split_cpu_strict). congruence.
Qed.

Lemma from_str_iff s v : U32Set_from_str s = Ok v <->
  exists c, CPUSet_Parse s = Some (Ok c) /\ (s = [] \/ Forall strict (split COMMA s)) /\ v = CPUSet_ToSlice c.
Proof.
  unfold U32Set_from_str, CPUSet_Parse. destruct s as [|x s].
  - split; [intros [= <-]; exists ∅; split; [done|]; split; [by left|done]|]. by intros (c & [= <-] & _ & ->).
  - set (t := x :: s). split.
    + destruct (split_cpus _ _) as [l|] eqn:E; [|done]. intros [= <-]. apply split_cpus_strict in E as [Hs ->]. eexists. split; [done|]. split; [by right|]. apply from_slice.
    + intros (c & Hp & [?|Hs] & ->); [done|]. destruct (list_parts _ _) as [[l|]|] eqn:E; try done. injection Hp as <-.
      rewrite (proj2 (split_cpus_strict _ l []) (conj Hs E)). by rewrite from_slice.
Qed.

(** ** Printing *)

Definition range_elems (r : Z * Z) : list Z := seqZ r.1 (r.2 - r.1 + 1).

Lemma ranges_elems elems start end_ : start <= end_ -> concat (range_elems <$> ranges_of start end_ elems) = range_elems (start, end_) ++ elems.
Proof.
  revert start end_. induction elems as [|e elems IH]; intros start end_ Hse; simpl; [done|]. destruct (Z.eqb_spec e (end_ + 1)) as [->|Hne].
  - rewrite IH by lia. unfold range_elems. simpl. replace (end_ + 1 - start + 1) with ((end_ - start + 1) + 1) by lia. rewrite seqZ_app by lia.
    rewrite <- app_assoc. f_equal. replace (start + (end_ - start + 1)) with (end_ + 1) by lia. done.
  - simpl. rewrite IH by lia. unfold range_elems at 2. simpl. by replace (e - e + 1) with 1 by lia.
Qed.

Lemma ranges_ok (P : Z -> Prop) elems start end_ : start <= end_ -> P start -> P end_ -> Forall P elems ->
  Forall (fun r => r.1 <= r.2 /\ P r.1 /\ P r.2) (ranges_of start end_ elems) /\ ranges_of start end_ elems <> [].
Proof.
  revert start end_. induction elems as [|e elems IH]; intros start end_ Hse Hs He Hf; simpl; [split; [by repeat constructor|done]|].
  apply Forall_cons in Hf as [Hpe Hf]. destruct (Z.eqb_spec e (end_ + 1)); [apply IH; (done || lia)|]. split; [|done]. constructor; [done|]. apply IH; (done || lia).
Qed.

Lemma trim_right_snoc c s : trim_right c (s ++ [c]) = trim_right c s.
Proof. unfold trim_right. rewrite reverse_snoc. simpl. by rewrite Z.eqb_refl. Qed.

Lemma trim_right_same c s d : d <> c -> trim_right c (s ++ [d]) = s ++ [d].
Proof. intros Hd. unfold trim_right. rewrite reverse_snoc. simpl. rewrite (proj2 (Z.eqb_neq d c)) by done. by rewrite reverse_cons, reverse_involutive. Qed.

Lemma join_snoc c ts : ts <> [] -> concat ((fun t => t ++ [c]) <$> ts) = join c ts ++ [c].
Proof.
  intros Hne. induction ts as [|t ts IH]; [done|]. destruct ts as [|t' ts]; [simpl; by rewrite app_nil_r|]. rewrite fmap_cons. cbn [concat].
  rewrite IH by done. cbn [join]. by rewrite <- !app_assoc.
Qed.

(** The text of a list does not end in a separator. *)
Lemma join_last c ts : ts <> [] -> Forall (fun t => c ∉ t /\ t <> []) ts -> exists s d, join c ts = s ++ [d] /\ d <> c.
Proof.
  intros Hne Hf. induction Hf as [|t ts [Hc Ht] Hf IH]; [done|]. destruct ts as [|t' ts].
  - destruct t as [|d s] using rev_ind; [done|]. exists s, d. split; [done|]. set_solver.
  - destruct IH as (s & d & E & Hd); [done|]. exists (t ++ c :: s), d. cbn [join] in *. rewrite E, <- app_assoc. done.
Qed.

Lemma dec_free n c : 0 <= n <= u64_max -> ~ (48 <= c <= 57 \/ 97 <= c <= 122) -> c ∉ dec n.
Proof. intros Hn Hc Hin. destruct (dec_digits n Hn) as (Hd & _). rewrite Forall_forall in Hd. by apply Hd, is_digit_range in Hin. Qed.

Lemma range_text_ok r : r.1 <= r.2 -> 0 <= r.1 < int_max -> 0 <= r.2 < int_max ->
  COMMA ∉ range_text r /\ range_text r <> [] /\ list_part (range_text r) = Some (Ok (range_elems r)) /\ (r.2 <= u32_max -> strict (range_text r)).
Proof.
  destruct r as [x y]. unfold int_max. simpl. intros Hxy Hx Hy. assert (Hx' : 0 <= x <= u64_max) by ulia. assert (Hy' : 0 <= y <= u64_max) by ulia.
  pose proof (dec_free x COMMA Hx' ltac:(unfold COMMA; lia)). pose proof (dec_free y COMMA Hy' ltac:(unfold COMMA; lia)).
  pose proof (dec_free x MINUS Hx' ltac:(unfold MINUS; lia)). pose proof (dec_free y MINUS Hy' ltac:(unfold MINUS; lia)).
  destruct (dec_digits x Hx') as (_ & Hne & _).
  assert (Ax : Atoi (dec x) = Some x) by (apply dec_parse; [done|unfold int_max; lia]). assert (Ay : Atoi (dec y) = Some y) by (apply dec_parse; [done|unfold int_max; lia]).
  unfold range_text, Itoa, list_part, strict, range_elems. simpl. rewrite !(proj2 (Z.ltb_ge _ 0)) by lia. destruct (Z.eqb_spec x y) as [<-|Hn].
  - rewrite split_free by done. rewrite Ax. replace (x - x + 1) with 1 by lia. split_and!; try done. intros Hu. by exists x.
  - rewrite split_app, split_free by done. rewrite Ax, Ay. rewrite (proj2 (Z.eqb_neq y _)), andb_false_r by (unfold int_max; lia). split_and!.
    + rewrite elem_of_app, elem_of_cons. unfold COMMA, MINUS in *. naive_solver lia.
    + by destruct (dec x).
    + done.
    + intros Hu. exists x, y. split_and!; (done || lia).
Qed.

Lemma list_parts_ok rs acc : Forall (fun r => r.1 <= r.2 /\ 0 <= r.1 < int_max /\ 0 <= r.2 < int_max) rs ->
  list_parts (range_text <$> rs) acc = Some (Ok (acc ++ concat (range_elems <$> rs))).
Proof.
  intros Hf. revert acc. induction Hf as [|r rs (H1 & H2 & H3) Hf IH]; intros acc; cbn; [by rewrite app_nil_r|].
  destruct (range_text_ok r H1 H2 H3) as (_ & _ & -> & _). rewrite IH. by rewrite app_assoc.
Qed.

(** The text of a set as a list. *)
Lemma string_join (c : CPUSet) : c <> ∅ -> (forall x, x ∈ c -> 0 <= x < int_max) ->
  exists rs, rs <> [] /\ Forall (fun r => r.1 <= r.2 /\ 0 <= r.1 < int_max /\ 0 <= r.2 < int_max) rs /\
    (forall m, (forall x, x ∈ c -> x <= m) -> Forall (fun r => r.2 <= m) rs) /\
    concat (range_elems <$> rs) = CPUSet_ToSlice c /\ CPUSet_String c = join COMMA (range_text <$> rs) /\ CPUSet_String c <> [].
Proof.
  intros Hne Hb. unfold CPUSet_String. destruct (slice_ok c) as [Hs He]. destruct (CPUSet_ToSlice c) as [|e elems].
  { destruct Hne. apply set_eq. intros x. rewrite <- He. set_solver. }
  assert (Hall : forall P : Z -> Prop, (forall x, x ∈ c -> P x) -> P e /\ Forall P elems).
  { intros P HP. split; [apply HP, He; set_solver|]. apply Forall_forall. intros x Hx. apply HP, He. set_solver. }
  exists (ranges_of e e elems). destruct (Hall _ Hb) as [Be Bf]. destruct (ranges_ok (fun x => 0 <= x < int_max) elems e e ltac:(lia) Be Be Bf) as [Hr Hn].
  split; [done|]. split; [done|]. split; [|split].
  - intros m Hm. destruct (Hall _ Hm) as [Me Mf]. destruct (ranges_ok (fun x => x <= m) elems e e ltac:(lia) Me Me Mf) as [Hr' _].
    eapply Forall_impl; [exact Hr'|]. naive_solver.
  - rewrite ranges_elems by lia. unfold range_elems. simpl. by replace (e - e + 1) with 1 by lia.
  - set (rs := ranges_of e e elems) in *. assert (Hts : Forall (fun t => COMMA ∉ t /\ t <> []) (range_text <$> rs)).
    { apply Forall_fmap. eapply Forall_impl; [exact Hr|]. intros r (H1 & H2 & H3). destruct (range_text_ok r H1 H2 H3) as (? & ? & _). done. }
    assert (Htn : range_text <$> rs <> []) by (by destruct rs).
    destruct (join_last COMMA _ Htn Hts) as (s & d & E & Hd).
    assert (Ec : concat ((fun r => range_text r ++ [COMMA]) <$> rs) = join COMMA (range_text <$> rs) ++ [COMMA]) by (rewrite <- join_snoc by done; by rewrite <- list_fmap_compose).
    rewrite Ec, trim_right_snoc, E, trim_right_same by done. split; [done|]. by destruct s.
Qed.

Lemma parse_string (c : CPUSet) : (forall x, x ∈ c -> 0 <= x < int_max) ->
  CPUSet_Parse (CPUSet_String c) = Some (Ok c) /\
  ((forall x, x ∈ c -> x <= u32_max) -> CPUSet_String c = [] \/ Forall strict (split COMMA (CPUSet_String c))).
Proof.
  intros Hb. destruct (decide (c = ∅)) as [->|Hne]; [split; [done|by left]|]. destruct (string_join c Hne Hb) as (rs & Hn & Hr & Hm & Hc & E & Hs).
    assert (Hsp : split COMMA (CPUSet_String c) = range_text <$> rs).
    { rewrite E. apply split_join; [by destruct rs|]. apply Forall_fmap. eapply Forall_impl; [exact Hr|]. intros r (H1 & H2 & H3). by destruct (range_text_ok r H1 H2 H3). }
    split.
    + unfold CPUSet_Parse. destruct (CPUSet_String c) as [|x s]; [done|]. rewrite Hsp, list_parts_ok by done. do 2 f_equal. apply set_eq. intros y.
      unfold NewCPUSet. simpl app. rewrite elem_of_list_to_set, Hc. apply slice_ok.
    + intros Hu. right. rewrite Hsp. apply Forall_fmap. specialize (Hm _ Hu). rewrite Forall_forall in *. intros r Hin. destruct (Hr r Hin) as (H1 & H2 & H3).
      apply (range_text_ok r H1 H2 H3). by apply Hm.
Qed.

(** C36. The text of a CPU set is read back as the set, by the Go parser for CPUs below the largest int, and by the Rust
    parser, as the sorted list, for CPUs of 32 bits. *)
Theorem cpu_list_roundtrip (c : CPUSet) : (forall x, x ∈ c -> 0 <= x < int_max) ->
  CPUSet_Parse (CPUSet_String c) = Some (Ok c) /\
  ((forall x, x ∈ c -> x <= u32_max) -> U32Set_from_str (CPUSet_String c) = Ok (CPUSet_ToSlice c)).
Proof.
  intros Hb. destruct (parse_string c Hb) as [Hp Hstrict]. split; [done|]. intros Hu. apply from_str_iff. exists c. split; [done|]. split; [by apply Hstrict|done].
Qed.

(** C16. The two runtimes agree on CPU lists.  The Rust parser takes a text exactly if the Go parser does and every
    part is a number or an ascending range of 32 bits; then the sorted list of the one is the slice of the set of the
    other. *)
Theorem cpu_lists_agree s v : U32Set_from_str s = Ok v <->
  exists c, CPUSet_Parse s = Some (Ok c) /\ (s = [] \/ Forall strict (split COMMA s)) /\ v = CPUSet_ToSlice c.
Proof. apply from_str_iff. Qed.

Lemma cpu_list_roundtrip_witness :
  CPUSet_Parse (CPUSet_String (NewCPUSet [3; 0; 1; 7; 2])) = Some (Ok (NewCPUSet [3; 0; 1; 7; 2])) /\
  CPUSet_String (NewCPUSet [3; 0; 1; 7; 2]) = [48; 45; 51; 44; 55].
Proof.
  split; [|reflexivity]. apply (cpu_list_roundtrip (NewCPUSet [3; 0; 1; 7; 2])). intros x Hx. unfold NewCPUSet in Hx. unfold int_max.
  rewrite elem_of_list_to_set in Hx. repeat (apply elem_of_cons in Hx as [->|Hx]; [lia|]). by apply elem_of_nil in Hx.
Defined.

(** ** The sets of a sandbox *)

Lemma list_part_nonneg t l : list_part t = Some (Ok l) -> Forall (Z.le 0) l.
Proof.
  unfold list_part. pose proof (part_free t) as Hf. destruct (split MINUS t) as [|a [|b [|]]]; try (intros [= <-]; constructor).
  - destruct (Atoi a) as [n|] eqn:E; [|done]. intros [= <-]. apply Atoi_bounds in E as [? _]; [|done]. by repeat constructor.
  - destruct (Atoi a) as [x|] eqn:Ex; [|done]. destruct (Atoi b) as [y|]; [|done]. case_match; [done|]. intros [= <-]. apply Atoi_bounds in Ex as [? _]; [|by destruct Hf].
    apply Forall_forall. intros z Hz%elem_of_seqZ. lia.
Qed.

Lemma list_parts_nonneg ts l acc : Forall (Z.le 0) acc -> list_parts ts acc = Some (Ok l) -> Forall (Z.le 0) l.
Proof.
  revert acc. induction ts as [|t ts IH]; intros acc Ha; cbn; [by intros [= <-]|]. destruct (list_part t) as [[k|]|] eqn:E; try done.
  apply IH. apply Forall_app. split; [done|by eapply list_part_nonneg].
Qed.

Lemma parse_nonneg s c x : CPUSet_Parse s = Some (Ok c) -> x ∈ c -> 0 <= x.
Proof.
  unfold CPUSet_Parse. destruct s; [intros [= <-]; set_solver|]. destruct (list_parts _ _) as [[l|]|] eqn:E; try done. intros [= <-].
  unfold NewCPUSet. rewrite elem_of_list_to_set. apply list_parts_nonneg in E; [|constructor]. rewrite Forall_forall in E. apply E.
Qed.

(** What the containers ask for. *)
Definition parsed (t : text) : CPUSet := match CPUSet_Parse t with Some (Ok c) => c | _ => ∅ end.
Definition cpus_of (ctrs : list ContainerCPU) : CPUSet := ⋃ ((fun ctr => match ctr with Some (c, _) => parsed c | None => ∅ end) <$> ctrs).
Definition mems_of (ctrs : list ContainerCPU) : CPUSet := ⋃ ((fun ctr => match ctr with Some (_, m) => parsed m | None => ∅ end) <$> ctrs).
Definition reads (t : text) : Prop := exists c, CPUSet_Parse t = Some (Ok c).

Lemma union_ok (s s2 : CPUSet) : CPUSet_Union s s2 = s ∪ s2.
Proof. unfold CPUSet_Union, NewCPUSet. apply set_eq. intros x. rewrite elem_of_list_to_set, elem_of_app, !elem_of_elements. set_solver. Qed.

Lemma sandbox_sets_ok ctrs a b : Forall (fun ctr => match ctr with Some (c, m) => reads c /\ reads m | None => True end) ctrs ->
  sandbox_sets ctrs a b = Some (Ok (a ∪ cpus_of ctrs, b ∪ mems_of ctrs)).
Proof.
  intros Hf. revert a b. induction Hf as [|[[c m]|] ctrs Hc Hf IH]; intros a b.
  - cbn. do 2 f_equal. f_equal; unfold cpus_of, mems_of; cbn; set_solver.
  - destruct Hc as [[x Hx] [y Hy]]. cbn [sandbox_sets]. rewrite Hx, Hy, IH, !union_ok. do 2 f_equal. unfold cpus_of, mems_of, parsed. cbn. rewrite Hx, Hy. f_equal; set_solver.
  - cbn [sandbox_sets]. rewrite IH. do 2 f_equal. unfold cpus_of, mems_of. cbn. f_equal; set_solver.
Qed.

Lemma parsed_nonneg t x : x ∈ parsed t -> 0 <= x.
Proof. unfold parsed. destruct (CPUSet_Parse t) as [[c|]|] eqn:E; try set_solver. by apply parse_nonneg with (s := t). Qed.

Lemma union_nonneg (f : ContainerCPU -> CPUSet) ctrs x : (forall ctr y, y ∈ f ctr -> 0 <= y) -> x ∈ ⋃ (f <$> ctrs) -> 0 <= x.
Proof. intros Hf (s & Hs & Hx)%elem_of_union_list. apply list_elem_of_fmap in Hs as (ctr & -> & _). by eapply Hf. Qed.

Lemma cpus_nonneg ctrs x : x ∈ cpus_of ctrs -> 0 <= x.
Proof. apply union_nonneg. intros [[c m]|] y; [apply parsed_nonneg|set_solver]. Qed.
Lemma mems_nonneg ctrs x : x ∈ mems_of ctrs -> 0 <= x.
Proof. apply union_nonneg. intros [[c m]|] y; [apply parsed_nonneg|set_solver]. Qed.

(** The containers of a sandbox, their lists being of CPUs below the largest int. *)
Definition ctrs_ok (ctrs : list ContainerCPU) : Prop :=
  Forall (fun ctr => match ctr with Some (c, m) => reads c /\ reads m | None => True end) ctrs /\
  (forall x, x ∈ cpus_of ctrs \/ x ∈ mems_of ctrs -> x < int_max).

Lemma sandbox_text ctrs : ctrs_ok ctrs ->
  exists s m, getSandboxCPUSet (Some ctrs) = Some (Ok (s, m)) /\ CPUSet_Parse s = Some (Ok (cpus_of ctrs)) /\ CPUSet_Parse m = Some (Ok (mems_of ctrs)).
Proof.
  intros [Hf Hb]. unfold getSandboxCPUSet. rewrite sandbox_sets_ok by done. do 2 eexists. split; [reflexivity|].
  change (NewCPUSet []) with (∅ : CPUSet). rewrite !union_empty_l_L. split; apply parse_string; intros x Hx.
  - split; [by eapply cpus_nonneg|apply Hb; by left].
  - split; [by eapply mems_nonneg|apply Hb; by right].
Qed.

(** ** Pinning *)

(** Where threads may run. *)
Class AffinityLaws (W : Type) `{Affinity W} := {
  affinity : W -> gmap Z (list Z);
  affinity_law w tid cpus r w' : SetThreadAffinity w tid cpus = (r, w') ->
    affinity w' = match r with Ok _ => <[tid := cpus]> (affinity w) | Err _ => affinity w end;
}.

Section Pinning.
Context {W : Type} `{AffinityLaws W}.
Implicit Types (w : W).

Lemma reset_ok vcpus cpus w r w' : resetVCPUsPinning w vcpus cpus = (r, w') ->
  (r = Ok tt -> forall p, p ∈ vcpus -> affinity w' !! p.2 = Some cpus) /\ forall tid, tid ∉ vcpus.*2 -> affinity w' !! tid = affinity w !! tid.
Proof.
  revert w. induction vcpus as [|[i t] vcpus IH]; intros w; cbn; [intros [= <- <-]; set_solver|].
  destruct (SetThreadAffinity w t cpus) as [[[]|e] w1] eqn:E; apply affinity_law in E; [|intros [= <- <-]; by rewrite E].
  intros Hr. apply IH in Hr as [Hok Hout]. split.
  - intros Hr p [->|Hp]%elem_of_cons; [|by apply Hok]. destruct (decide (t ∈ vcpus.*2)) as [Hin|Hni].
    + apply list_elem_of_fmap in Hin as (q & -> & Hq). by apply (Hok Hr q).
    + cbn. by rewrite Hout, E, lookup_insert_eq.
  - intros tid Hn. rewrite Hout, E, lookup_insert_ne; [done|set_solver|set_solver].
Qed.

Lemma pin_ok spare vcpus all cpus w : NoDup (vcpus.*2) -> Forall (fun p => 0 <= p.1 < Z.of_nat (length cpus)) vcpus ->
  exists r w', pin_each spare w vcpus all cpus = Ret (r, w') /\
    (r = Ok tt -> (forall p, p ∈ vcpus -> exists cpu, cpus !! Z.to_nat p.1 = Some cpu /\ affinity w' !! p.2 = Some [cpu]) /\
       forall tid, tid ∉ vcpus.*2 -> affinity w' !! tid = affinity w !! tid).
Proof.
  revert w. induction vcpus as [|[i t] vcpus IH]; intros w Hd Hf; cbn; [do 2 eexists; split; [reflexivity|]; set_solver|].
  apply NoDup_cons in Hd as [Hn Hd]. apply Forall_cons in Hf as [Hi Hf]. cbn in Hi. rewrite (proj2 (Z.ltb_ge i 0)) by lia.
  destruct (lookup_lt_is_Some_2 cpus (Z.to_nat i)) as [cpu Hc]; [lia|]. rewrite (lookup_app_l_Some _ _ _ _ Hc). cbn [unwrap obind].
  destruct (SetThreadAffinity w t [cpu]) as [[[]|e] w1] eqn:E.
  - apply affinity_law in E. destruct (IH w1 Hd Hf) as (r & w' & -> & Hok). do 2 eexists. split; [reflexivity|]. intros Hr. destruct (Hok Hr) as [Hin Hout]. split.
    + intros p [->|Hp]%elem_of_cons; [|by apply Hin]. exists cpu. split; [done|]. cbn. by rewrite Hout, E, lookup_insert_eq.
    + intros tid Ht. rewrite Hout, E, lookup_insert_ne; [done|set_solver|set_solver].
  - destruct (resetVCPUsPinning w1 all cpus) as [r' w2]. by do 2 eexists.
Qed.

(** C27. Pinning vCPU threads to the CPUs of a sandbox.  With the vCPUs numbered from 0 the check never panics; if there are as many
    vCPUs as CPUs in the union of the containers' sets, success means that each thread may run on one CPU only, the
    one of its number in ascending order, and so on a CPU of its own; if not, success means that threads pinned before may run on every
    CPU of the sandbox, and threads that were not pinned are left alone. *)
Theorem vcpu_pinning_correct spare ctrs on w vcpus : ctrs_ok ctrs -> GetThreadIDs w = Ok vcpus ->
  Permutation (vcpus.*1) (seqZ 0 (Z.of_nat (length vcpus))) -> NoDup (vcpus.*2) ->
  exists r on' w', checkVCPUsPinning spare (Some (true, ctrs)) on w = Ret (Some (r, on', w')) /\
    let cpus := CPUSet_ToSlice (cpus_of ctrs) in
    if decide (length vcpus = size (cpus_of ctrs)) then
      (r = Ok tt -> on' = true /\ forall p, p ∈ vcpus -> exists cpu, cpus !! Z.to_nat p.1 = Some cpu /\ affinity w' !! p.2 = Some [cpu]) /\
      (forall p q cpu, p ∈ vcpus -> q ∈ vcpus -> cpus !! Z.to_nat p.1 = Some cpu -> cpus !! Z.to_nat q.1 = Some cpu -> p.1 = q.1)
    else if on then on' = false /\ (r = Ok tt -> forall p, p ∈ vcpus -> affinity w' !! p.2 = Some cpus)
    else r = Ok tt /\ on' = false /\ w' = w.
Proof.
  intros Hctrs Hids Hperm Hd. unfold checkVCPUsPinning. cbn [negb]. rewrite Hids. destruct (sandbox_text ctrs Hctrs) as (s & m & -> & -> & _).
  destruct (slice_ok (cpus_of ctrs)) as [Hsort Hmem]. assert (Hlen : length (CPUSet_ToSlice (cpus_of ctrs)) = size (cpus_of ctrs)).
  { unfold CPUSet_ToSlice. by rewrite merge_sort_Permutation. }
  rewrite Hlen. set (cpus := CPUSet_ToSlice (cpus_of ctrs)) in *. destruct (decide (length vcpus = size (cpus_of ctrs))) as [El|El].
  - rewrite (proj2 (Nat.eqb_eq _ _) El). cbn [negb]. assert (Hrange : forall p, p ∈ vcpus -> 0 <= p.1 < Z.of_nat (length cpus)).
    { intros p Hp. assert (Hin : p.1 ∈ vcpus.*1) by (by apply list_elem_of_fmap_2). rewrite Hperm, elem_of_seqZ in Hin. lia. }
    destruct (pin_ok spare vcpus vcpus cpus w Hd) as (r & w' & -> & Hok); [by apply Forall_forall|]. cbn [obind]. do 3 eexists. split; [reflexivity|]. cbn. split.
    + intros ->. split; [done|]. by apply Hok.
    + intros p q cpu Hp Hq Ep Eq. destruct (sorted_nodup cpus Hsort) as [Hnd _]. pose proof (NoDup_lookup _ _ _ _ Hnd Ep Eq). pose proof (Hrange p Hp). pose proof (Hrange q Hq). lia.
  - rewrite (proj2 (Nat.eqb_neq _ _) El). cbn [negb]. destruct on; [|do 3 eexists; split; [reflexivity|done]].
    destruct (resetVCPUsPinning w vcpus cpus) as [r w'] eqn:E. do 3 eexists. split; [reflexivity|]. split; [done|]. by apply (reset_ok _ _ _ _ _ E).
Qed.
End Pinning.

(** A host that sets what it is asked to, with two vCPU threads. *)
#[export] Instance two_threads : Affinity (gmap Z (list Z)) :=
  {| GetThreadIDs _ := Ok [(1, 101); (0, 100)]; SetThreadAffinity w tid cpus := (Ok tt, <[tid := cpus]> w) |}.
#[export] Instance two_threads_laws : AffinityLaws (gmap Z (list Z)).
Proof. refine {| affinity w := w |}. by intros w tid cpus r w' [= <- <-]. Defined.

(** The containers ask for the CPUs "4" and "2". *)
Lemma vcpu_pinning_correct_witness :
  exists r on' w', checkVCPUsPinning 0 (Some (true, [Some ([52], []); None; Some ([50], [])])) false (∅ : gmap Z (list Z)) = Ret (Some (r, on', w')) /\
    (r = Ok tt -> on' = true /\ exists cpu, affinity w' !! 101 = Some [cpu]).
Proof.
  set (ctrs := [Some ([52], []); None; Some ([50], [])]). assert (Hc : cpus_of ctrs = {[4; 2]}) by (vm_compute; reflexivity).
  destruct (vcpu_pinning_correct 0 ctrs false (∅ : gmap Z (list Z)) [(1, 101); (0, 100)]) as (r & on' & w' & E & Hr).
  - split; [repeat constructor; eexists; reflexivity|]. intros x. rewrite Hc. change (mems_of ctrs) with (∅ : CPUSet). unfold int_max. intros [Hx|Hx]; [|set_solver].
    assert (x = 4 \/ x = 2) as [->| ->] by set_solver; lia.
  - reflexivity.
  - apply Permutation_swap.
  - repeat constructor; set_solver.
  - exists r, on', w'. split; [exact E|]. intros Hok. rewrite Hc in Hr. change (length _) with 2%nat in Hr. change (size _) with 2%nat in Hr. cbn in Hr.
    destruct Hr as [Hr _]. destruct (Hr Hok) as [Hon Hp]. split; [done|]. destruct (Hp (1, 101)) as (cpu & _ & Ha); [set_solver|]. by exists cpu.
Defined.

(** ** What goes wrong *)

(** Text with more than one minus sign is ignored, and an empty range gives no CPU: the Go parser takes
    "1-2-3" and "3-1" as empty sets, where the Rust parser has an error. *)
Lemma lenient_parser :
  CPUSet_Parse [49; 45; 50; 45; 51] = Some (Ok ∅) /\ U32Set_from_str [49; 45; 50; 45; 51] = Err (InvalidList [49; 45; 50; 45; 51]) /\
  CPUSet_Parse [51; 45; 49] = Some (Ok ∅) /\ U32Set_from_str [51; 45; 49] = Err (InvalidList [51; 45; 49]).
Proof. split_and!; reflexivity. Qed.

(** A set changes when its builder is used after the result has been taken. *)
Lemma builder_shares_result :
  let b := mkBuilder 0 false in
  let st := Builder_Add b [1] {[ 0%nat := ∅ ]} in
  st !! Builder_Result b = Some {[ 1 ]} /\ Builder_Add b [2] st !! Builder_Result b = Some {[ 2; 1 ]}.
Proof. split; reflexivity. Qed.
