(* ===== verification/CpuResource.v ===== *)
(** The number of vCPUs that the containers of a sandbox need, and resizing the virtual machine to it:
    libs/kata-types/src/cpu.rs, runtime-rs/crates/resource/src/cpu_mem/cpu.rs and initial_size.rs, and the
    way of a request through runtime-rs/crates/hypervisor/src/dragonball/inner.rs and dragonball/src/api/v1/vmm_action.rs to the
    vCPU manager.

    Containers are named by text; the map of containers is visited in any order. *)

From S2P Require Import Prelude Text CpuSet Vcpu VcpuManager.

(** ** Containers (cpu.rs) *)

(** [oci::LinuxCpu], the fields that are used. *)
Record LinuxCpu := mkLinuxCpu { lc_shares : option Z; lc_quota : option Z; lc_period : option Z; lc_cpus : text; lc_mems : text }.
Definition LinuxCpu_default : LinuxCpu := mkLinuxCpu None None None [] [].

Inductive CpuError : Type := InvalidCpuSet (e : ListError) | InvalidNodeSet (e : ListError).

Record LinuxContainerCpuResources := mkContainerCpu {
  cc_shares : Z;
  cc_period : Z;
  cc_quota : Z;
  cc_cpuset : U32Set;
  cc_nodeset : U32Set;
  cc_vcpu_time_ms : option Z;
}.

Definition saturating_mul_u64 (x y : Z) : Z := Z.min (x * y) u64_max.
Definition saturating_add_u64 (x y : Z) : Z := Z.min (x + y) u64_max.

Definition ContainerCpu_try_from (value : LinuxCpu) : result LinuxContainerCpuResources CpuError :=
  let period := default 0 (lc_period value) in
  let quota := default (-1) (lc_quota value) in
  match U32Set_from_str (lc_cpus value) with
  | Err e => Err (InvalidCpuSet e)
  | Ok cpuset =>
      match U32Set_from_str (lc_mems value) with
      | Err e => Err (InvalidNodeSet e)
      | Ok nodeset =>
          let milli_sec := if (0 <=? quota) && negb (period =? 0) then Some (saturating_mul_u64 quota 1000 / period) else None in
          Ok (mkContainerCpu (default 0 (lc_shares value)) period quota cpuset nodeset milli_sec)
      end
  end.

Definition ContainerCpu_get_vcpus (c : LinuxContainerCpuResources) : option Z :=
  (fun v => saturating_add_u64 v 999 / 1000) <$> cc_vcpu_time_ms c.

(** *** A pod *)

Record LinuxSandboxCpuResources := mkSandboxCpu { sc_shares : Z; sc_vcpu_time_ms : Z; sc_cpuset : U32Set; sc_nodeset : U32Set }.
Definition SandboxCpu_new (shares : Z) : LinuxSandboxCpuResources := mkSandboxCpu shares 0 U32Set_new U32Set_new.

Definition SandboxCpu_get_vcpus (s : LinuxSandboxCpuResources) : Z :=
  if (sc_vcpu_time_ms s =? 0) && negb (U32Set_is_empty (sc_cpuset s)) then U32Set_len (sc_cpuset s)
  else saturating_add_u64 (sc_vcpu_time_ms s) 999 / 1000.

Definition SandboxCpu_merge (s : LinuxSandboxCpuResources) (c : LinuxContainerCpuResources) : outcome LinuxSandboxCpuResources :=
  let! ms := match cc_vcpu_time_ms c with Some v => add_u u64_max (sc_vcpu_time_ms s) v | None => Ret (sc_vcpu_time_ms s) end in
  Ret (mkSandboxCpu (sc_shares s) ms (U32Set_extend (sc_cpuset s) (cc_cpuset c)) (U32Set_extend (sc_nodeset s) (cc_nodeset c))).

(** ** The initial size (initial_size.rs) *)

Definition get_nr_vcpu (c : LinuxContainerCpuResources) : Z :=
  match ContainerCpu_get_vcpus c with Some v => v `mod` 2 ^ 32 | None => 0 end.

Definition convert_memory_to_mb (memory_in_byte : Z) : Z :=
  if memory_in_byte <? 0 then 0 else (memory_in_byte / 1024 / 1024) `mod` 2 ^ 32.

Record InitialSize := mkInitialSize { is_vcpu : Z; is_mem_mb : Z }.

(** The size information of a specification: the annotations of a pod sandbox, or the resources of a
    single container. *)
Inductive SizeSpec : Type :=
| PodSandbox (period quota memory : Z)
| SingleContainer (cpu : option LinuxCpu) (memory_limit : option (option Z)).

Definition InitialSize_try_from (spec : SizeSpec) : InitialSize :=
  match spec with
  | PodSandbox period quota memory =>
      let cpu := mkLinuxCpu None (Some quota) (Some period) [] [] in
      mkInitialSize (match ContainerCpu_try_from cpu with Ok c => get_nr_vcpu c | Err _ => 0 end) (convert_memory_to_mb memory)
  | SingleContainer cpu memory =>
      mkInitialSize
        (match cpu with Some cpu => match ContainerCpu_try_from cpu with Ok c => get_nr_vcpu c | Err _ => 0 end | None => 0 end)
        (match memory with Some limit => convert_memory_to_mb (default 0 limit) | None => 0 end)
  end.

(** The vCPUs (an i32) and the memory of the configuration of the hypervisor. *)
Definition setup_config (size : InitialSize) (default_vcpus default_memory : Z) : outcome (Z * Z) :=
  let vcpus := if 0 <? is_vcpu size then (if is_vcpu size <? 2 ^ 31 then is_vcpu size else is_vcpu size - 2 ^ 32) else default_vcpus in
  let! memory := if 0 <? is_mem_mb size then add_u u32_max default_memory (is_mem_mb size) else Ret default_memory in
  Ret (vcpus, memory).

(** ** The vCPUs of a sandbox (cpu_mem/cpu.rs) *)

Inductive ResourceUpdateOp : Type := Add | Del | Update.

#[global] Instance ResourceUpdateOp_eq_dec : EqDecision ResourceUpdateOp.
Proof. solve_decision. Defined.

(** What this code uses of a hypervisor and of the agent; a call that does not return is [None]. *)
Class Hypervisor (W : Type) := {
  hv_resize_vcpu : W -> Z -> Z -> outcome (option (result (Z * Z) unit * W));
  online_cpu_mem : W -> Z -> result unit unit * W;
}.

Record CpuResource := mkCpuResource {
  cr_current : Z;
  cr_default : Z;
  cr_containers : gmap text LinuxContainerCpuResources;
}.

(** [default_vcpus] is an i32. *)
Definition CpuResource_new (default_vcpus : Z) : CpuResource := mkCpuResource (default_vcpus `mod` 2 ^ 32) (default_vcpus `mod` 2 ^ 32) ∅.

Inductive UpdateError : Type := BadCpus (e : CpuError) | ResizeFailed | OnlineFailed.

Definition set_cr_containers (r : CpuResource) (l : gmap text LinuxContainerCpuResources) : CpuResource := mkCpuResource (cr_current r) (cr_default r) l.
Definition update_current_vcpu (r : CpuResource) (n : Z) : CpuResource := mkCpuResource n (cr_default r) (cr_containers r).

Definition update_container_cpu_resources (r : CpuResource) (cid : text) (linux_cpus : option LinuxCpu) (op : ResourceUpdateOp) : result CpuResource UpdateError :=
  match linux_cpus with
  | None => Ok r
  | Some cpu =>
      match ContainerCpu_try_from cpu with
      | Err e => Err (BadCpus e)
      | Ok c =>
          Ok (set_cr_containers r
            match op with
            | Add => <[cid := c]> (cr_containers r)
            | Update =>
                match cr_containers r !! cid with
                | Some old => if (0 <? cc_quota old) && (cc_quota c <? 0) then <[cid := old]> (<[cid := c]> (cr_containers r)) else <[cid := c]> (cr_containers r)
                | None => <[cid := c]> (cr_containers r)
                end
            | Del => delete cid (cr_containers r)
            end)
      end
  end.

(** The loop over the containers: the sum, and the union of the sets. *)
Fixpoint sum_vcpus (cs : list LinuxContainerCpuResources) (total : Z) (cpuset : gset Z) : outcome (Z * gset Z) :=
  match cs with
  | [] => Ret (total, cpuset)
  | c :: cs =>
      let vcpu := default 0 (ContainerCpu_get_vcpus c) `mod` 2 ^ 32 in
      let cpuset := cpuset ∪ list_to_set (cc_cpuset c) in
      let! total := add_u u32_max total vcpu in
      sum_vcpus cs total cpuset
  end.

Definition calc_cpu_resources (r : CpuResource) : outcome Z :=
  let! (total, cpuset) := sum_vcpus (map_to_list (cr_containers r)).*2 0 ∅ in
  if (total =? 0) && negb (bool_decide (cpuset = ∅)) then Ret (Z.of_nat (size cpuset) `mod` 2 ^ 32)
  else Ret total.

Section Update.
Context {W : Type} `{Hypervisor W}.

Definition do_update_cpu_resources (r : CpuResource) (new_vcpus : Z) (op : ResourceUpdateOp) (w : W) : outcome (option (result Z UpdateError * W)) :=
  let old_vcpus := cr_current r in
  if (bool_decide (op = Add) && (old_vcpus >? new_vcpus)) || (bool_decide (op = Del) && (old_vcpus <? new_vcpus)) then Ret (Some (Ok old_vcpus, w))
  else
    let new_vcpus := Z.max new_vcpus (cr_default r) in
    let! o := hv_resize_vcpu w old_vcpus new_vcpus in
    match o with
    | None => Ret None
    | Some (Err _, w) => Ret (Some (Err ResizeFailed, w))
    | Some (Ok (old, new), w) =>
        if old <? new then
          match online_cpu_mem w new with
          | (Err _, w) => Ret (Some (Err OnlineFailed, w))
          | (Ok _, w) => Ret (Some (Ok new, w))
          end
        else Ret (Some (Ok new, w))
    end.

Definition update_cpu_resources (r : CpuResource) (cid : text) (linux_cpus : option LinuxCpu) (op : ResourceUpdateOp) (w : W) :
  outcome (option (result unit UpdateError * CpuResource * W)) :=
  match update_container_cpu_resources r cid linux_cpus op with
  | Err e => Ret (Some (Err e, r, w))
  | Ok r =>
      let! vcpu_required := calc_cpu_resources r in
      if vcpu_required =? cr_current r then Ret (Some (Ok tt, r, w))
      else
        let! o := do_update_cpu_resources r vcpu_required op w in
        match o with
        | None => Ret None
        | Some (Err e, w) => Ret (Some (Err e, r, w))
        | Some (Ok curr, w) => Ret (Some (Ok tt, update_current_vcpu r curr, w))
        end
  end.
End Update.

(** ** Dragonball (inner.rs, vmm_action.rs) *)

Section Dragonball.
Context {W H : Type} `{VcpuWorld W H}.

(** The machine, its manager, the number of vCPUs in its configuration and the maximum of the runtime. *)
Record Dragonball := mkDragonball {
  db_initialized : bool;
  db_client : bool;
  db_ready : bool;
  db_count : Z;
  db_manager : VcpuManager H;
  db_world : W;
  db_maxvcpus : Z;
}.
Definition set_db (d : Dragonball) (count : Z) (m : VcpuManager H) (w : W) : Dragonball :=
  mkDragonball (db_initialized d) (db_client d) (db_ready d) count m w (db_maxvcpus d).

(** [resize_vcpu] of vmm_action.rs, the feature dbs-upcall being on; its errors are not told apart by the runtime. *)
Definition vmm_resize_vcpu (d : Dragonball) (vcpu_count : Z) : outcome (option (result unit unit * Dragonball)) :=
  if negb (db_initialized d) then Ret (Some (Err tt, d))
  else
    let! o := Vm_resize_vcpu (db_client d) (db_ready d) (db_count d) (db_manager d) (db_world d) (Some vcpu_count) None in
    Ret (match o with
         | None => None
         | Some (r, count, m, w) => Some (match r with Ok _ => Ok tt | Err _ => Err tt end, set_db d count m w)
         end).

Definition precheck_resize_vcpus (d : Dragonball) (old_vcpus new_vcpus : Z) : result (Z * Z) unit :=
  if new_vcpus =? 0 then Err tt
  else if new_vcpus >? db_maxvcpus d then Ok (old_vcpus, db_maxvcpus d)
  else Ok (old_vcpus, new_vcpus).

(** [resize_vcpu] of inner.rs; [new_vcpus as u8]. *)
Definition db_resize_vcpu (d : Dragonball) (old_vcpus new_vcpus : Z) : outcome (option (result (Z * Z) unit * Dragonball)) :=
  if old_vcpus =? new_vcpus then Ret (Some (Ok (new_vcpus, new_vcpus), d))
  else
    match precheck_resize_vcpus d old_vcpus new_vcpus with
    | Err e => Ret (Some (Err e, d))
    | Ok (old_vcpus, new_vcpus) =>
        let! o := vmm_resize_vcpu d (new_vcpus `mod` 2 ^ 8) in
        Ret (match o with
             | None => None
             | Some (Err e, d) => Some (Err e, d)
             | Some (Ok _, d) => Some (Ok (old_vcpus, new_vcpus), d)
             end)
    end.
End Dragonball.
Arguments Dragonball : clear implicits.
