(* ===== verification/CpuResourceSpec.v ===== *)
(** Correctness of the number of vCPUs: what containers get, and that the runtime and the vCPU manager agree. *)

From S2P Require Import Prelude Text CpuSet CpuSetSpec Vcpu VcpuManager VcpuManagerSpec CpuResource.

(** ** One container *)

(** C38. A container with quota [q] in periods of [p] gets the fewest vCPUs that are enough up to a thousandth: one fewer would
    be less than its quota, and what is missing is less than 1/1000 of a vCPU.  Without a quota or a period it is unconstrained. *)
Theorem container_vcpus cpu c q p : ContainerCpu_try_from cpu = Ok c -> default (-1) (lc_quota cpu) = q -> default 0 (lc_period cpu) = p -> 0 <= p ->
  q * 1000 + 999 <= u64_max ->
  (q < 0 \/ p = 0 -> ContainerCpu_get_vcpus c = None) /\
  (0 <= q -> p <> 0 -> exists v, ContainerCpu_get_vcpus c = Some v /\ 0 <= v /\ (v - 1) * p < q /\ 1000 * q < (1000 * v + 1) * p).
Proof.
  intros Ht Hq Hp Hp0 Hb. unfold ContainerCpu_try_from in Ht. rewrite Hq, Hp in Ht. destruct (U32Set_from_str _); [|done]. destruct (U32Set_from_str _); [|done].
  injection Ht as <-. unfold ContainerCpu_get_vcpus. cbn. split.
  - intros [Hn| ->]; [by rewrite (proj2 (Z.leb_gt 0 q)) by lia|]. by rewrite andb_false_r.
  - intros Hq0 Hpn. rewrite (proj2 (Z.leb_le 0 q)), (proj2 (Z.eqb_neq p 0)) by lia. cbn. unfold saturating_mul_u64, saturating_add_u64. rewrite (Z.min_l (q * 1000)) by lia.
    set (ms := q * 1000 / p). pose proof (Z.div_mod (q * 1000) p Hpn). pose proof (Z.mod_pos_bound (q * 1000) p ltac:(lia)). fold ms in H.
    assert (0 <= ms) by (apply Z.div_pos; lia). assert (ms <= q * 1000) by nia. rewrite Z.min_l by lia.
    pose proof (Z.div_mod (ms + 999) 1000 ltac:(lia)). pose proof (Z.mod_pos_bound (ms + 999) 1000 ltac:(lia)). set (v := (ms + 999) / 1000) in *.
    exists v. split; [done|]. split; [lia|]. split; nia.
Qed.

Lemma container_vcpus_witness : exists c v, ContainerCpu_try_from (mkLinuxCpu None (Some 1001) (Some 100) [] []) = Ok c /\ ContainerCpu_get_vcpus c = Some v /\ (v - 1) * 100 < 1001.
Proof.
  eexists. destruct (container_vcpus (mkLinuxCpu None (Some 1001) (Some 100) [] []) _ 1001 100 eq_refl eq_refl eq_refl) as [_ Hv]; [lia|ulia|].
  destruct (Hv ltac:(lia) ltac:(lia)) as (v & E & _ & Hlt & _). exists v. split; [reflexivity|]. done.
Defined.

(** ** The sum *)

Definition vcpus_of (c : LinuxContainerCpuResources) : Z := default 0 (ContainerCpu_get_vcpus c) `mod` 2 ^ 32.
Definition total_vcpus (cs : list LinuxContainerCpuResources) : Z := foldr (fun c n => vcpus_of c + n) 0 cs.
Definition all_cpus (cs : list LinuxContainerCpuResources) : gset Z := ⋃ ((fun c => list_to_set (cc_cpuset c)) <$> cs).

Lemma vcpus_nonneg c : 0 <= vcpus_of c.
Proof. unfold vcpus_of. apply Z.mod_pos_bound. lia. Qed.
Lemma total_nonneg cs : 0 <= total_vcpus cs.
Proof. induction cs as [|c cs IH]; simpl; [lia|]. pose proof (vcpus_nonneg c). lia. Qed.

Lemma sum_vcpus_ok cs t s : 0 <= t ->
  sum_vcpus cs t s = if t + total_vcpus cs <=? u32_max then Ret (t + total_vcpus cs, s ∪ all_cpus cs) else if t <=? u32_max then Panic else sum_vcpus cs t s.
Proof.
  revert t s. induction cs as [|c cs IH]; intros t s Ht; simpl; [rewrite Z.add_0_r; destruct (t <=? u32_max); [|done]; do 2 f_equal; unfold all_cpus; simpl; by rewrite union_empty_r_L|].
  fold (vcpus_of c). pose proof (vcpus_nonneg c). pose proof (total_nonneg cs). destruct (Z.leb_spec (t + vcpus_of c) u32_max) as [Hle|Hgt].
  - rewrite add_u_ret by done. cbn [obind]. rewrite IH by lia. rewrite <- Z.add_assoc. destruct (Z.leb_spec (t + (vcpus_of c + total_vcpus cs)) u32_max).
    + unfold all_cpus. simpl. by rewrite (assoc_L (∪)).
    + by rewrite !(proj2 (Z.leb_le _ u32_max)) by lia.
  - rewrite (proj2 (Z.leb_gt _ u32_max)) by lia. unfold add_u, checked_add. rewrite (proj2 (Z.leb_gt _ u32_max)) by lia. cbn. by destruct (t <=? u32_max).
Qed.

Lemma total_perm cs cs' : Permutation cs cs' -> total_vcpus cs = total_vcpus cs' /\ all_cpus cs = all_cpus cs'.
Proof.
  intros Hp. split; [induction Hp; simpl; lia|]. unfold all_cpus. apply set_eq. intros x. rewrite !elem_of_union_list. split; intros (X & HX & Hx); exists X; (split; [|done]).
  - by rewrite <- Hp.
  - by rewrite Hp.
Qed.

(** What the containers need: their vCPUs, or as many as there are CPUs in their sets. *)
Definition required_vcpus (cs : list LinuxContainerCpuResources) : Z :=
  if (total_vcpus cs =? 0) && negb (bool_decide (all_cpus cs = ∅)) then Z.of_nat (size (all_cpus cs)) `mod` 2 ^ 32 else total_vcpus cs.
Definition containers_of (r : CpuResource) : list LinuxContainerCpuResources := (map_to_list (cr_containers r)).*2.

Lemma calc_ok r : calc_cpu_resources r = if total_vcpus (containers_of r) <=? u32_max then Ret (required_vcpus (containers_of r)) else Panic.
Proof.
  unfold calc_cpu_resources, required_vcpus. fold (containers_of r). rewrite sum_vcpus_ok by lia. rewrite Z.add_0_l.
  destruct (total_vcpus (containers_of r) <=? u32_max); [|done]. cbn [obind]. rewrite (union_empty_l_L (all_cpus _)). by destruct (_ && _).
Qed.

(** The sum over the containers is the same in whatever order the map of containers is visited, the panic on overflow
    included. *)
Lemma required_order_independent r cs : Permutation cs (map_to_list (cr_containers r)).*2 ->
  (let! (total, cpuset) := sum_vcpus cs 0 ∅ in if (total =? 0) && negb (bool_decide (cpuset = ∅)) then Ret (Z.of_nat (size cpuset) `mod` 2 ^ 32) else Ret total) = calc_cpu_resources r.
Proof.
  intros Hp. rewrite calc_ok. destruct (total_perm cs _ Hp) as [Et Ea]. fold (containers_of r) in Et, Ea. rewrite sum_vcpus_ok by lia. rewrite Z.add_0_l, Et, Ea.
  destruct (total_vcpus (containers_of r) <=? u32_max); [|done]. cbn [obind]. rewrite union_empty_l_L. unfold required_vcpus. by destruct (_ && _).
Qed.

(** ** The runtime and the vCPU manager *)

(** The agent in the guest, which leaves the threads of the host alone. *)
Class GuestAgent (W : Type) := agent_online : W -> Z -> result unit unit * W.

#[export] Instance dragonball_hypervisor {W H} `{VcpuWorld W H} `{!GuestAgent W} : Hypervisor (Dragonball W H) := {|
  hv_resize_vcpu := db_resize_vcpu;
  online_cpu_mem d n := let '(r, w) := agent_online (db_world d) n in (r, set_db d (db_count d) (db_manager d) w);
|}.

Class GuestAgentLaws (W H : Type) `{ThreadLaws W H} `{!GuestAgent W} := agent_law w n r w' : agent_online w n = (r, w') -> threads w' = threads w.

Section Agree.
Context {W H : Type} `{VcpuWorld W H} `{!EqDecision H} `{!Countable H} `{!ThreadLaws W H} `{!GuestAgent W} `{!GuestAgentLaws W H}.
Implicit Types (d : Dragonball W H) (hs : list H) (r : CpuResource).

(** A running machine of at most 255 vCPUs whose channel to the guest works. *)
Record machine_ok (ex : bool) r d hs : Prop := mk_machine_ok {
  mo_inv : mgr_inv ex (db_manager d) (db_world d) hs;
  mo_up : vm_upcall (db_manager d) = true;
  mo_ready : db_initialized d = true /\ db_client d = true /\ db_ready d = true;
  mo_max : db_maxvcpus d = vm_max (db_manager d);
  mo_default : 1 <= cr_default r <= db_maxvcpus d;
}.

(** The machine still works. *)
Definition works r d : Prop := exists ex hs, machine_ok ex r d hs.
Definition works_with r d (c : Z) : Prop := exists ex hs, machine_ok ex r d hs /\ planned (db_manager d) hs = c.

(** The request at the vCPU manager. *)
Lemma vmm_resize_ok ex r d hs c : machine_ok ex r d hs -> 1 <= c <= db_maxvcpus d ->
  match resize_vcpu (db_manager d) (db_world d) c None with
  | Panic => vmm_resize_vcpu d c = Panic
  | Ret None => vmm_resize_vcpu d c = Ret None
  | Ret (Some (res, m', w')) => exists d', db_manager d' = m' /\ db_world d' = w' /\ db_maxvcpus d' = db_maxvcpus d /\
      match res with
      | Ok _ => vmm_resize_vcpu d c = Ret (Some (Ok tt, d')) /\ works_with r d' c
      | Err _ => vmm_resize_vcpu d c = Ret (Some (Err tt, d')) /\ works r d'
      end
  end.
Proof.
  intros [Hinv Hup (Hi & Hcl & Hrd) Hmax Hdef] Hc. unfold vmm_resize_vcpu, Vm_resize_vcpu. rewrite Hi, Hcl, Hrd. cbn [negb].
  pose proof (ti_max _ _ _ (mi_table _ _ _ _ Hinv)) as Hm8. rewrite Hmax in Hc. pose proof (resize_vcpu_ok ex (db_manager d) (db_world d) hs c None Hinv ltac:(lia)) as Hr.
  destruct (resize_vcpu (db_manager d) (db_world d) c None) as [[[[res m'] w']|]|]; cbn [obind]; [|done..].
  destruct (resized_after ex _ _ hs c None _ res m' w' Hinv ltac:(lia) Hr eq_refl) as (hs' & Hi' & Em & Eu & Hp).
  exists (set_db d (match res with Ok _ => c | Err _ => db_count d end) m' w'). split_and!; try done.
  assert (Hok : machine_ok (ex && keeps_ids res) r (set_db d (match res with Ok _ => c | Err _ => db_count d end) m' w') hs') by (split; try done; cbn; congruence).
  destruct res as [[]|e]; (split; [done|]); eexists _, hs'; [split; [exact Hok|]|exact Hok]. by apply Hp.
Qed.

(** *** The request of the runtime *)

(** Whether the hypervisor is asked for another number, and for which. *)
Definition asks r (op : ResourceUpdateOp) (n : Z) : bool :=
  negb ((n =? cr_current r) || (bool_decide (op = Add) && (cr_current r >? n)) || (bool_decide (op = Del) && (cr_current r <? n)) || (cr_current r =? Z.max n (cr_default r))).
Definition target r d (n : Z) : Z := Z.min (Z.max n (cr_default r)) (db_maxvcpus d).

Lemma db_resize_ok ex r d hs old n : machine_ok ex r d hs -> old <> Z.max n (cr_default r) ->
  match resize_vcpu (db_manager d) (db_world d) (target r d n) None with
  | Panic => db_resize_vcpu d old (Z.max n (cr_default r)) = Panic
  | Ret None => db_resize_vcpu d old (Z.max n (cr_default r)) = Ret None
  | Ret (Some (res, m', w')) => exists d', db_manager d' = m' /\ db_world d' = w' /\
      match res with
      | Ok _ => db_resize_vcpu d old (Z.max n (cr_default r)) = Ret (Some (Ok (old, target r d n), d')) /\ works_with r d' (target r d n)
      | Err _ => db_resize_vcpu d old (Z.max n (cr_default r)) = Ret (Some (Err tt, d')) /\ works r d'
      end
  end.
Proof.
  intros Hm Hne. unfold db_resize_vcpu, precheck_resize_vcpus. pose proof (mo_default _ _ _ _ Hm) as Hd.
  assert (H8 : db_maxvcpus d <= u8_max) by (rewrite (mo_max _ _ _ _ Hm); apply (ti_max _ _ _ (mi_table _ _ _ _ (mo_inv _ _ _ _ Hm)))).
  rewrite (proj2 (Z.eqb_neq _ _) Hne), (proj2 (Z.eqb_neq (Z.max n _) 0)) by lia.
  assert (Hcase : (if Z.max n (cr_default r) >? db_maxvcpus d then Ok (old, db_maxvcpus d) else Ok (old, Z.max n (cr_default r))) = (Ok (old, target r d n) : result (Z * Z) unit)).
  { unfold target. rewrite Z.gtb_ltb. destruct (Z.ltb_spec (db_maxvcpus d) (Z.max n (cr_default r))); do 2 f_equal; lia. }
  rewrite Hcase. assert (Ht : 1 <= target r d n <= db_maxvcpus d) by (unfold target; lia). rewrite Z.mod_small by (unfold u8_max in H8; lia).
  pose proof (vmm_resize_ok ex r d hs _ Hm Ht) as Hv. destruct (resize_vcpu _ _ _ _) as [[[[res m'] w']|]|]; [|by rewrite Hv..].
  destruct Hv as (d' & E1 & E2 & _ & Hv). exists d'. split; [done|]. split; [done|]. destruct res; destruct Hv as [-> Hv]; done.
Qed.

Lemma update_container_keeps r cid cpus op r1 : update_container_cpu_resources r cid cpus op = Ok r1 -> cr_current r1 = cr_current r /\ cr_default r1 = cr_default r.
Proof. unfold update_container_cpu_resources. repeat case_match; by intros [= <-]. Qed.

Lemma machine_keeps ex r r1 d hs : cr_default r1 = cr_default r -> machine_ok ex r d hs -> machine_ok ex r1 d hs.
Proof. intros E []. split; try done. by rewrite E. Qed.

Lemma works_keeps r r1 d : cr_default r1 = cr_default r -> works r d -> works r1 d.
Proof. intros E (ex & hs & Hm). exists ex, hs. by apply (machine_keeps _ r). Qed.

Lemma works_with_keeps r r1 d c : cr_default r1 = cr_default r -> works_with r d c -> works_with r1 d c.
Proof. intros E (ex & hs & Hm & Hp). exists ex, hs. split; [by apply (machine_keeps _ r)|done]. Qed.

Lemma works_online r d c n res d' : works_with r d c -> online_cpu_mem d n = (res, d') -> works_with r d' c /\ db_manager d' = db_manager d.
Proof.
  intros (ex & hs & [Hi Hu Hr Hm Hd] & Hp) E. cbn in E. destruct (agent_online (db_world d) n) as [res' w'] eqn:Ea. injection E as <- <-. split; [|done].
  exists ex, hs. split; [|done]. split; try done. cbn. eapply inv_threads; [by eapply agent_law|done].
Qed.

(** C12. The runtime and the hypervisor agree on the number of vCPUs.  On a machine whose channel to the guest works, whatever its
    threads do and whatever number the runtime had before: an update for a container with bad CPU lists changes nothing;
    otherwise the map of containers is updated.  It panics if the sum of vCPUs exceeds 32 bits.  If
    the number required is the current one, would shrink on adding or grow on removing, or is the current one when raised to the default, the
    hypervisor is not asked and all counts stay.  Otherwise the hypervisor is asked for the number required, but not below the default nor above
    the maximum; the update hangs or panics exactly if that resize does; on success the count of the runtime and the vCPUs
    there will be when the guest has answered are both that number; if the resize fails the runtime keeps its count; if the agent
    does not put new vCPUs online the runtime keeps its old, smaller count although the vCPUs are there.  The machine keeps its invariant. *)
Theorem vcpu_count_agrees ex r d hs cid cpus op : machine_ok ex r d hs ->
  match update_container_cpu_resources r cid cpus op with
  | Err e => update_cpu_resources r cid cpus op d = Ret (Some (Err e, r, d))
  | Ok r1 =>
      let n := required_vcpus (containers_of r1) in
      let resize := resize_vcpu (db_manager d) (db_world d) (target r d n) None in
      if negb (total_vcpus (containers_of r1) <=? u32_max) then update_cpu_resources r cid cpus op d = Panic
      else if negb (asks r op n) then
        exists r', update_cpu_resources r cid cpus op d = Ret (Some (Ok tt, r', d)) /\ cr_current r' = cr_current r /\ cr_containers r' = cr_containers r1
      else
        match resize with
        | Panic => update_cpu_resources r cid cpus op d = Panic
        | Ret None => update_cpu_resources r cid cpus op d = Ret None
        | Ret (Some (Err _, m', w')) =>
            exists d', update_cpu_resources r cid cpus op d = Ret (Some (Err ResizeFailed, r1, d')) /\ cr_current r1 = cr_current r /\ works r1 d' /\ db_manager d' = m' /\ db_world d' = w'
        | Ret (Some (Ok _, m', _)) =>
            exists res r' d', update_cpu_resources r cid cpus op d = Ret (Some (res, r', d')) /\ cr_containers r' = cr_containers r1 /\ works_with r' d' (target r d n) /\ db_manager d' = m' /\
              match res with
              | Ok _ => cr_current r' = target r d n
              | Err e => e = OnlineFailed /\ cr_current r' = cr_current r /\ cr_current r < target r d n
              end
        end
  end.
Proof.
  intros Hm. unfold update_cpu_resources. destruct (update_container_cpu_resources r cid cpus op) as [r1|e] eqn:Eu; [|done].
  destruct (update_container_keeps _ _ _ _ _ Eu) as [E1 E2]. rewrite calc_ok. destruct (total_vcpus (containers_of r1) <=? u32_max); [|done]. cbn [obind negb].
  apply (machine_keeps ex r r1 d hs E2) in Hm. unfold asks. set (n := required_vcpus (containers_of r1)).
  assert (Et : target r d n = target r1 d n) by (unfold target; by rewrite E2). rewrite Et, <- E1, <- E2.
  destruct (n =? cr_current r1); cbn [orb negb]; [by exists r1|]. unfold do_update_cpu_resources.
  destruct (bool_decide (op = Add) && (cr_current r1 >? n) || bool_decide (op = Del) && (cr_current r1 <? n)); cbn [orb negb]; [by eexists|].
  cbn [hv_resize_vcpu dragonball_hypervisor]. destruct (Z.eqb_spec (cr_current r1) (Z.max n (cr_default r1))) as [Ec|Ec]; cbn [negb].
  { unfold db_resize_vcpu. rewrite (proj2 (Z.eqb_eq _ _) Ec). cbn [obind]. rewrite Z.ltb_irrefl. eexists. split; [reflexivity|]. by rewrite Ec. }
  pose proof (db_resize_ok ex r1 d hs _ n Hm Ec) as Hdb. destruct (resize_vcpu _ _ _ _) as [[[[res m'] w']|]|]; [|by rewrite Hdb..].
  destruct Hdb as (d' & Em & Ew & Hdb). destruct res as [[]|e]; destruct Hdb as [-> Hw]; cbn [obind]; [|by exists d'].
  destruct (Z.ltb_spec (cr_current r1) (target r1 d n)) as [Hlt|Hge]; [|do 3 eexists; split; [reflexivity|]; by split_and!; [|apply (works_with_keeps r1)|..]].
  destruct (online_cpu_mem d' (target r1 d n)) as [res d2] eqn:Eo. destruct (works_online _ _ _ _ _ _ Hw Eo) as [Hw2 Em2].
  destruct res as [[]|[]]; cbn [obind]; do 3 eexists; (split; [reflexivity|]); split_and!; try done; [by apply (works_with_keeps r1)|congruence..].
Qed.

(** An answer of the guest that succeeds makes the plan true, unless threads cannot be told to exit. *)
Lemma planned_answered ex (m : VcpuManager H) w hs m' w' : mgr_inv ex m w hs -> answered m w hs Success (Ret (Some (m', w'))) ->
  (forall x w1, tell (reverse (drop (Z.to_nat (planned m hs)) hs)) w Exit <> Ret (Err x, w1)) ->
  exists hs', mgr_inv ex m' w' hs' /\ planned m' hs' = planned m hs /\ planned m' hs' = Z.of_nat (length hs').
Proof.
  intros Hi Ha Ht. unfold answered in Ha. pose proof (mi_action _ _ _ _ Hi) as Hok. unfold planned in *.
  assert (Hf : forall m1 : VcpuManager H, vm_action (finished m1) = (NoAction, [])) by (intros m1; unfold finished; by rewrite synced_action).
  destruct (vm_action m) as [[] l] eqn:Ea.
  - injection Ha as -> ->. exists hs. rewrite Hf. split_and!; try done. apply inv_finished; apply Hi.
  - injection Ha as -> ->. exists hs. rewrite Hf. split_and!; try done. apply (inv_synced _ _ _ _ false) in Hi. apply inv_finished; apply Hi.
  - destruct Ha as (o' & Hst & E). destruct Hok as (c & Hc & ->). rewrite length_reverse, length_seqZ in *. replace (length hs - Z.to_nat (Z.of_nat (length hs) - c))%nat with (Z.to_nat c) in Hst by lia.
    replace (Z.to_nat (Z.of_nat (length hs) - Z.of_nat (Z.to_nat (Z.of_nat (length hs) - c)))) with (Z.to_nat c) in Ht by lia. unfold stopped in Hst.
    destruct (tell _ w Exit) as [[[[]|x] w1]|]; [|by destruct (Ht x w1)|by subst o']. destruct (join_all _ w1) as [w2|]; [|by subst o'].
    destruct (Nat.ltb_spec (length (vm_tids m)) (length (reverse (drop (Z.to_nat c) hs)))) as [Hlt|Hge]; [by subst o'|].
    destruct Hst as (m1 & -> & Ht1 & Hr & _). cbn [obind] in E. injection E as -> ->. exists (take (Z.to_nat c) hs). rewrite Hf, length_take.
    split; [|lia]. destruct (rest_fields _ _ Hr) as (_ & _ & _ & _ & _ & E6 & _). cbn in E6. apply inv_finished; unfold sync_action_finish; destruct (vm_sync_tx m1); try done; try (by destruct Ht1).
    all: cbn; rewrite E6, length_take, Nat.min_l by lia; rewrite length_reverse, length_drop in *; pose proof (books_take ex (length hs) (vm_tids m) (length hs - Z.to_nat c) (mi_books _ _ _ _ Hi) Hge) as Hb; by replace (length hs - (length hs - Z.to_nat c))%nat with (Z.to_nat c) in Hb by lia.
Qed.
End Agree.

(** ** A machine *)

#[export] Instance willing_agent : GuestAgent (gmap Z ActiveThread * list DevMgrRequest) := fun w _ => (Ok tt, w).
#[export] Instance willing_agent_laws : GuestAgentLaws (gmap Z ActiveThread * list DevMgrRequest) Z.
Proof. by intros w n r w' [= <- <-]. Qed.

Definition three_cpus : LinuxCpu := mkLinuxCpu None (Some 300) (Some 100) [] [].

(** The runtime thinks there is one vCPU although there are two, as after a failed online. *)
Lemma vcpu_count_agrees_witness : exists (d : Dragonball _ Z) hs r1, planned (db_manager d) hs = 2 /\
  update_container_cpu_resources (mkCpuResource 1 1 ∅) [99] (Some three_cpus) Add = Ok r1 /\ machine_ok true (mkCpuResource 1 1 ∅) d hs /\
  match resize_vcpu (db_manager d) (db_world d) 3 None with
  | Ret (Some (Ok _, _, _)) =>
      exists res r' d', update_cpu_resources (mkCpuResource 1 1 ∅) [99] (Some three_cpus) Add d = Ret (Some (res, r', d')) /\ works_with r' d' 3 /\ (res = Ok tt -> cr_current r' = 3)
  | _ => True
  end.
Proof.
  destruct booted as (m & w & Hm & Hp & Ha & Hu & Hx). destruct (managed_inv true m w Hm) as [hs Hi]. set (d := mkDragonball true true true 2 m w 4 : Dragonball _ Z).
  pose proof (one_handle _ _ _ _ _ Hi Hp) as Hl. cbn in Hl.
  assert (Hmo : machine_ok true (mkCpuResource 1 1 ∅) d hs) by (split; cbn; (done || lia)).
  assert (Hpl : planned m hs = 2) by (unfold planned, get_vcpus_action in *; destruct (vm_action m) as [[] ?]; cbn in *; (done || lia)).
  pose proof (vcpu_count_agrees true (mkCpuResource 1 1 ∅) d hs [99] (Some three_cpus) Add Hmo) as Hc.
  destruct (update_container_cpu_resources (mkCpuResource 1 1 ∅) [99] (Some three_cpus) Add) as [r1|e] eqn:E; [|done].
  assert (Hn : total_vcpus (containers_of r1) <=? u32_max = true /\ required_vcpus (containers_of r1) = 3) by (injection E as <-; split; vm_compute; reflexivity).
  destruct Hn as [Ht Hn]. rewrite Ht, Hn in Hc. exists d, hs, r1. split_and!; try done. change (asks _ Add 3) with true in Hc. cbn [negb] in Hc.
  change (target _ d 3) with 3 in Hc. destruct (resize_vcpu _ _ _ _) as [[[[[[]|?] m'] w']|]|]; try done. destruct Hc as (res & r' & d' & Eu & _ & Hw & _ & Hres).
  exists res, r', d'. split_and!; try done. by intros ->.
Defined.

(** Boot with one vCPU, then add containers. *)
Definition boot_and_add (cpus : list LinuxCpu) : outcome (list (option (result unit UpdateError))) :=
  match boot_manager 4 1 8 with
  | Ok m =>
      let! (_, m, w) := create_boot_vcpus m (∅, []) 0 in
      let! (_, m, w) := start_boot_vcpus m w in
      (fix go (cpus : list LinuxCpu) (i : Z) (r : CpuResource) (d : Dragonball _ Z) : outcome (list (option (result unit UpdateError))) :=
         match cpus with
         | [] => Ret []
         | c :: cpus =>
             let! o := update_cpu_resources r [i] (Some c) Add d in
             match o with
             | None => Ret [None]
             | Some (res, r, d) => let! l := go cpus (i + 1) r d in Ret (Some res :: l)
             end
         end) cpus 0 (mkCpuResource 1 1 ∅) (mkDragonball true true true 1 (set_upcall_channel m true) w 4)
  | Err _ => Panic
  end.

(** A second container that needs more vCPUs fails to start while the guest has not answered for the first. *)
Lemma second_add_refused : boot_and_add [three_cpus; three_cpus] = Ret [Some (Ok tt); Some (Err ResizeFailed)].
Proof. vm_compute. reflexivity. Qed.
