(* ===== verification/Pci.v ===== *)
(** PCI paths and addresses as text, at both ends of the protocol between runtime and agent:
    agent/src/pci.rs and runtime/virtcontainers/types/pcipath.go, and the slots of
    runtime/virtcontainers/types/bridges.go.

    The runtime names a device in the guest by the text of its [PciPath]; the agent reads
    it as a [Path], or as an [Address] for a block device.

    Correctness of PCI text: what is printed can be read back, and what the agent makes of the paths of the runtime. *)

From S2P Require Import Prelude Text.

Definition DOT : Z := 46.
Definition COLON : Z := 58.
Definition SLASH : Z := 47.

(** ** pci.rs *)

Definition SLOT_BITS : Z := 5.
Definition SLOT_MAX : Z := Z.shiftl 1 SLOT_BITS - 1.
Definition FUNCTION_BITS : Z := 3.
Definition FUNCTION_MAX : Z := Z.shiftl 1 FUNCTION_BITS - 1.
Definition isize_min : Z := - 2 ^ 63.
Definition isize_max : Z := 2 ^ 63 - 1.

(** A [SlotFn] is a byte. *)
Definition SlotFn := Z.
Definition SlotFn_new (ss f : Z) : option SlotFn :=
  if (0 <=? ss) && (ss <=? SLOT_MAX) then
    if (0 <=? f) && (f <=? FUNCTION_MAX) then Some (Z.lor (Z.shiftl ss FUNCTION_BITS `mod` 2 ^ 8) f) else None
  else None.
Definition SlotFn_slot (s : SlotFn) : Z := Z.shiftr s FUNCTION_BITS.
Definition SlotFn_function (s : SlotFn) : Z := Z.land s FUNCTION_MAX.

Definition SlotFn_from_str (s : text) : option SlotFn :=
  match split DOT s with
  | [slot] => slot ← from_str_radix 16 isize_min isize_max slot; SlotFn_new slot 0
  | [slot; func] =>
      slot ← from_str_radix 16 isize_min isize_max slot;
      func ← from_str_radix 16 isize_min isize_max func;
      SlotFn_new slot func
  | _ => None
  end.

Definition SlotFn_fmt (s : SlotFn) : text := hex_pad 2 (SlotFn_slot s) ++ DOT :: hex_pad 1 (SlotFn_function s).

Record Address := mkAddress { ad_domain : Z; ad_bus : Z; ad_slotfn : SlotFn }.

#[global] Instance Address_eq_dec : EqDecision Address.
Proof. solve_decision. Defined.
#[global] Instance Address_countable : Countable Address.
Proof.
  apply (inj_countable' (fun a => (ad_domain a, ad_bus a, ad_slotfn a)) (fun '(d, b, s) => mkAddress d b s)). by intros [].
Defined.

Definition Address_from_str (s : text) : option Address :=
  match split COLON s with
  | [domain; bus; slotfn] =>
      domain ← from_str_radix 16 0 u16_max domain;
      bus ← from_str_radix 16 0 u8_max bus;
      slotfn ← SlotFn_from_str slotfn;
      Some (mkAddress domain bus slotfn)
  | _ => None
  end.

Definition Address_fmt (a : Address) : text :=
  hex_pad 4 (ad_domain a) ++ COLON :: hex_pad 2 (ad_bus a) ++ COLON :: SlotFn_fmt (ad_slotfn a).

(** "/devices/pci{:04x}:00/{:04x}:{:02x}:{}" *)
Definition get_sysfs_path (a : Address) : text :=
  [47; 100; 101; 118; 105; 99; 101; 115; 47; 112; 99; 105] ++ hex_pad 4 (ad_domain a) ++ [58; 48; 48; 47] ++ Address_fmt a.

Definition Path := list SlotFn.
Definition Path_new (slots : list SlotFn) : option Path := match slots with [] => None | _ => Some slots end.
Definition Path_fmt (p : Path) : text := join SLASH (SlotFn_fmt <$> p).
Definition Path_from_str (s : text) : option Path := slots ← mapM SlotFn_from_str (split SLASH s); Path_new slots.

(** ** pcipath.go *)

Definition maxPciSlot : Z := 31.
Definition maxPcidomain : Z := 65535.

Record PciSlot := mkPciSlot { ps_domain : Z; ps_slot : Z }.

Definition PciSlotFromDeviceIndexString (s : text) : option Z := parse_uint 16 maxPciSlot s.

Definition PciSlotFromBdfString (bdfTokens : text * text * text) : option PciSlot :=
  let '(t0, t1, t2) := bdfTokens in
  if negb (bool_decide (t1 = [48; 48])) then None
  else
    domain ← parse_uint 16 maxPcidomain t0;
    match split DOT t2 with
    | [dev; fn] =>
        if negb (bool_decide (fn = [48])) || negb (length dev =? 2)%nat then None
        else device ← PciSlotFromDeviceIndexString dev; Some (mkPciSlot domain device)
    | _ => None
    end.

Definition PciSlotFromString (s : text) : option PciSlot :=
  match split COLON s with
  | [t0; t1; t2] => PciSlotFromBdfString (t0, t1, t2)
  | _ => device ← PciSlotFromDeviceIndexString s; Some (mkPciSlot 0 device)
  end.

Definition PciSlotFromInt (v : Z) : option PciSlot := if (v <? 0) || (v >? maxPciSlot) then None else Some (mkPciSlot 0 v).

Definition PciSlot_String (s : PciSlot) : text :=
  if ps_domain s =? 0 then hex_pad 2 (ps_slot s)
  else hex_pad 4 (ps_domain s) ++ [58; 48; 48; 58] ++ hex_pad 2 (ps_slot s) ++ [46; 48].

(** The nil path is the empty list. *)
Definition PciPath := list PciSlot.
Definition PciPath_String (p : PciPath) : text := join SLASH (PciSlot_String <$> p).
Definition PciPath_IsNil (p : PciPath) : bool := match p with [] => true | _ => false end.
Definition PciPath_ToArray (p : PciPath) : list Z := ps_slot <$> p.
Definition PciPathFromString (s : text) : option PciPath := match s with [] => Some [] | _ => mapM PciSlotFromString (split SLASH s) end.
Definition PciPathFromSlots (slots : list PciSlot) : option PciPath := match slots with [] => None | _ => Some slots end.

(** ** bridges.go *)

Inductive BridgeType : Type := PCI | PCIE | CCW | OtherBridge.
Definition PCIBridgeMaxCapacity : Z := 30.
Definition CCWBridgeMaxCapacity : Z := 65535.

Record Bridge := mkBridge { br_devices : gmap Z text; br_id : text; br_type : BridgeType; br_addr : Z; br_max : Z }.

Definition NewBridge (bt : BridgeType) (id : text) (devices : gmap Z text) (addr : Z) : Bridge :=
  mkBridge devices id bt addr (match bt with PCI | PCIE => PCIBridgeMaxCapacity | CCW => CCWBridgeMaxCapacity | OtherBridge => 0 end).

(** The first free of the addresses. *)
Definition first_free (devices : gmap Z text) (addrs : list Z) : option Z :=
  head (List.filter (fun i => bool_decide (devices !! i = None)) addrs).

Definition set_br_devices (b : Bridge) (l : gmap Z text) : Bridge := mkBridge l (br_id b) (br_type b) (br_addr b) (br_max b).
Definition AddDevice (b : Bridge) (ID : text) : option (Z * Bridge) :=
  addr ← first_free (br_devices b) (seqZ 1 (br_max b)); Some (addr, set_br_devices b (<[addr := ID]> (br_devices b))).

(** The map is visited in the order [order]. *)
Definition RemoveDevice (order : gmap Z text -> list (Z * text)) (b : Bridge) (ID : text) : option Bridge :=
  match List.find (fun p => bool_decide (p.2 = ID)) (order (br_devices b)) with
  | Some (addr, _) => Some (set_br_devices b (delete addr (br_devices b)))
  | None => None
  end.

(** ** Hexadecimal text *)

Lemma hex_read w n min max : 0 <= n <= u64_max -> n <= max -> from_str_radix 16 min max (hex_pad w n) = Some n.
Proof. intros Hn Hm. destruct (hex_pad_digits w n Hn) as [Hd He]. rewrite unsigned_text by (done || lia). by apply hex_pad_parse. Qed.

Lemma hex_read_uint w n max : 0 <= n <= u64_max -> n <= max -> parse_uint 16 max (hex_pad w n) = Some n.
Proof. intros Hn Hm. destruct (hex_pad_digits w n Hn) as [_ He]. pose proof (hex_pad_parse w n max Hn Hm). unfold parse_uint. by destruct (hex_pad w n). Qed.

Lemma hex_free w n c : 0 <= n <= u64_max -> ~ (48 <= c <= 57 \/ 97 <= c <= 122) -> c ∉ hex_pad w n.
Proof. intros Hn Hc Hin. destruct (hex_pad_digits w n Hn) as (Hd & _). rewrite Forall_forall in Hd. by apply Hd, is_digit_range in Hin. Qed.

(** A number contains no other characters than digits and a sign. *)
Lemma digits_free radix max ds acc n c : digit_value c = None -> parse_digits radix max acc ds = Some n -> c ∉ ds.
Proof.
  intros Hc. revert acc. induction ds as [|d ds IH]; intros acc; simpl; [intros _; apply not_elem_of_nil|].
  destruct (digit_value d) eqn:E; [|done]. destruct (_ && _); [|done]. intros Hp. apply IH in Hp. intros [->|Hin]%elem_of_cons; [congruence|done].
Qed.

Lemma number_free radix min max s n c : digit_value c = None -> c <> PLUS -> c <> MINUS -> from_str_radix radix min max s = Some n -> c ∉ s.
Proof.
  intros Hc Hp Hm. unfold from_str_radix. destruct s as [|x ds]; [done|]. destruct (_ || _) eqn:E; [|by apply digits_free].
  assert (Hx : x = PLUS \/ x = MINUS) by (bools; destruct E as [?|?]; bools; auto). destruct ds as [|d ds]; [done|]. intros Hr Hin.
  apply elem_of_cons in Hin as [->|Hin]; [destruct Hx; done|]. revert Hin. destruct (x =? PLUS); [by eapply digits_free|].
  destruct (parse_digits radix (- min) 0 (d :: ds)) eqn:Ed; [|done]. by eapply digits_free.
Qed.

(** ** Slots and functions *)

Definition byte_ok (s : Z) : bool :=
  (0 <=? SlotFn_slot s) && (SlotFn_slot s <=? 31) && (0 <=? SlotFn_function s) && (SlotFn_function s <=? 7) &&
  bool_decide (SlotFn_new (SlotFn_slot s) (SlotFn_function s) = Some s).

Lemma all_bytes : forallb byte_ok (seqZ 0 256) = true.
Proof. vm_compute. reflexivity. Qed.

Lemma slotfn_byte s : 0 <= s <= 255 -> 0 <= SlotFn_slot s <= 31 /\ 0 <= SlotFn_function s <= 7 /\ SlotFn_new (SlotFn_slot s) (SlotFn_function s) = Some s.
Proof.
  intros Hs. pose proof (proj1 (forallb_forall _ _) all_bytes s) as Hb. rewrite <- list_elem_of_In, elem_of_seqZ in Hb. specialize (Hb ltac:(lia)).
  unfold byte_ok in Hb. rewrite !andb_true_iff, bool_decide_eq_true in Hb. bools. destruct Hb as [[[[? ?] ?] ?] ?]. bools. split_and!; (done || lia).
Qed.

Definition slot_ok (k : Z) : bool := bool_decide (SlotFn_new k 0 = Some (8 * k)).
Lemma all_slots : forallb slot_ok (seqZ 0 32) = true.
Proof. vm_compute. reflexivity. Qed.

Lemma slotfn_new0 k : 0 <= k <= 31 -> SlotFn_new k 0 = Some (8 * k).
Proof.
  intros Hk. pose proof (proj1 (forallb_forall _ _) all_slots k) as Hb. rewrite <- list_elem_of_In, elem_of_seqZ in Hb. specialize (Hb ltac:(lia)).
  by apply bool_decide_eq_true in Hb.
Qed.

Lemma slotfn_read s : 0 <= s <= 255 -> SlotFn_from_str (SlotFn_fmt s) = Some s /\ COLON ∉ SlotFn_fmt s /\ SLASH ∉ SlotFn_fmt s.
Proof.
  intros Hs. destruct (slotfn_byte s Hs) as (Hsl & Hf & Hn). unfold SlotFn_from_str, SlotFn_fmt.
  assert (H1 : 0 <= SlotFn_slot s <= u64_max) by ulia. assert (H2 : 0 <= SlotFn_function s <= u64_max) by ulia.
  pose proof (fun c => hex_free 2 (SlotFn_slot s) c H1) as F1. pose proof (fun c => hex_free 1 (SlotFn_function s) c H2) as F2. unfold DOT, COLON, SLASH. split_and!.
  - rewrite split_app, split_free by (apply F1 || apply F2; lia). rewrite !hex_read by (done || unfold isize_max; ulia). done.
  - rewrite elem_of_app, elem_of_cons. intros [?|[?|?]]; [by apply (F1 58 ltac:(lia))|lia|by apply (F2 58 ltac:(lia))].
  - rewrite elem_of_app, elem_of_cons. intros [?|[?|?]]; [by apply (F1 47 ltac:(lia))|lia|by apply (F2 47 ltac:(lia))].
Qed.

Definition slots_ok (p : Path) : Prop := Forall (fun s => 0 <= s <= 255) p.
Definition address_ok (a : Address) : Prop := in_u16 (ad_domain a) /\ in_u8 (ad_bus a) /\ 0 <= ad_slotfn a <= 255.

Lemma address_read a : address_ok a -> Address_from_str (Address_fmt a) = Some a.
Proof.
  intros (Hd & Hb & Hs). unfold Address_from_str, Address_fmt. destruct (slotfn_read _ Hs) as (Hr & Hc & _).
  assert (H1 : 0 <= ad_domain a <= u64_max) by ulia. assert (H2 : 0 <= ad_bus a <= u64_max) by ulia.
  rewrite !split_app by (apply hex_free; [done|unfold COLON; lia]). rewrite split_free by done. rewrite !hex_read by (done || ulia). cbn [mbind option_bind]. rewrite Hr. by destruct a.
Qed.

Lemma mapM_fmt {A} (fmt : A -> text) (read : text -> option A) (P : A -> Prop) l : (forall x, P x -> read (fmt x) = Some x) -> Forall P l -> mapM read (fmt <$> l) = Some l.
Proof. intros Hr Hl. induction Hl as [|x l Hx Hl IH]; [done|]. cbn. by rewrite Hr, IH. Qed.

(** What the agent prints it reads back: slots and functions, addresses, and paths of at least one slot. *)
Theorem pci_text_roundtrip s a p : 0 <= s <= 255 -> address_ok a -> slots_ok p -> p <> [] ->
  SlotFn_from_str (SlotFn_fmt s) = Some s /\ Address_from_str (Address_fmt a) = Some a /\ Path_from_str (Path_fmt p) = Some p.
Proof.
  intros Hs Ha Hp Hne. split; [by apply slotfn_read|]. split; [by apply address_read|]. unfold Path_from_str, Path_fmt. rewrite split_join.
  - erewrite mapM_fmt; [by destruct p|intros x; apply slotfn_read|done].
  - by destruct p.
  - apply Forall_fmap. eapply Forall_impl; [exact Hp|]. intros x Hx. by apply slotfn_read.
Qed.

Lemma pci_text_roundtrip_witness :
  SlotFn_from_str (SlotFn_fmt 255) = Some 255 /\ Address_from_str (Address_fmt (mkAddress 1 0 16)) = Some (mkAddress 1 0 16) /\ Path_from_str (Path_fmt [16; 25]) = Some [16; 25].
Proof. apply (pci_text_roundtrip 255 (mkAddress 1 0 16) [16; 25]); [lia|split_and!; cbn; unfold in_u16, in_u8; ulia|repeat constructor; lia|done]. Defined.

(** ** The paths of the runtime *)

Definition pcislot_ok (s : PciSlot) : Prop := 0 <= ps_domain s <= 65535 /\ 0 <= ps_slot s <= 31.

(** The text of a slot outside domain 0. *)
Lemma bdf_split s : pcislot_ok s -> split COLON (hex_pad 4 (ps_domain s) ++ [58; 48; 48; 58] ++ hex_pad 2 (ps_slot s) ++ [46; 48]) = [hex_pad 4 (ps_domain s); [48; 48]; hex_pad 2 (ps_slot s) ++ [46; 48]].
Proof.
  intros [Hd Hs]. assert (H1 : 0 <= ps_domain s <= u64_max) by ulia. assert (H2 : 0 <= ps_slot s <= u64_max) by ulia.
  change (hex_pad 4 (ps_domain s) ++ [58; 48; 48; 58] ++ hex_pad 2 (ps_slot s) ++ [46; 48]) with (hex_pad 4 (ps_domain s) ++ COLON :: [48; 48] ++ COLON :: (hex_pad 2 (ps_slot s) ++ [46; 48])).
  rewrite !split_app; [|unfold COLON; set_solver|apply hex_free; [done|unfold COLON; lia]]. rewrite split_free; [done|].
  rewrite elem_of_app. intros [Hin|Hin]; [|unfold COLON in Hin; set_solver]. revert Hin. apply hex_free; [done|unfold COLON; lia].
Qed.

Lemma dot_split s : 0 <= s <= 31 -> split DOT (hex_pad 2 s ++ [46; 48]) = [hex_pad 2 s; [48]].
Proof. intros Hs. change (hex_pad 2 s ++ [46; 48]) with (hex_pad 2 s ++ DOT :: [48]). rewrite split_app, split_free; [done|unfold DOT; set_solver|]. apply hex_free; [ulia|unfold DOT; lia]. Qed.

Lemma pcislot_read s : pcislot_ok s -> PciSlotFromString (PciSlot_String s) = Some s /\ SLASH ∉ PciSlot_String s /\ PciSlot_String s <> [].
Proof.
  intros Hok. pose proof Hok as [Hd Hs]. assert (H1 : 0 <= ps_domain s <= u64_max) by ulia. assert (H2 : 0 <= ps_slot s <= u64_max) by ulia. unfold PciSlotFromString, PciSlot_String.
  destruct (hex_pad_digits 2 (ps_slot s) H2) as [_ Hne]. destruct (Z.eqb_spec (ps_domain s) 0) as [E|E].
  - rewrite split_free by (apply hex_free; [done|unfold COLON; lia]). unfold PciSlotFromDeviceIndexString. rewrite hex_read_uint by (done || unfold maxPciSlot; lia).
    split_and!; [cbn; by destruct s; cbn in *; subst|apply hex_free; [done|unfold SLASH; lia]|done].
  - rewrite bdf_split by done. unfold PciSlotFromBdfString, PciSlotFromDeviceIndexString. rewrite bool_decide_true by done. cbn [negb]. rewrite hex_read_uint by (done || unfold maxPcidomain; lia).
    cbn [mbind option_bind]. rewrite dot_split by lia. rewrite bool_decide_true by done. rewrite hex_pad_length by (cbn; lia). cbn [negb orb Nat.eqb]. rewrite hex_read_uint by (done || unfold maxPciSlot; lia).
    split_and!; [by destruct s| |by destruct (hex_pad 4 (ps_domain s))].
    rewrite !elem_of_app. intros [Hin|[Hin|[Hin|Hin]]]; try (unfold SLASH in Hin; set_solver); revert Hin; apply hex_free; (done || unfold SLASH; lia).
Qed.

Lemma path_split p : p <> [] -> Forall pcislot_ok p -> split SLASH (PciPath_String p) = PciSlot_String <$> p.
Proof.
  intros Hne Hp. apply split_join; [by destruct p|]. apply Forall_fmap. eapply Forall_impl; [exact Hp|]. intros s Hs. by apply pcislot_read.
Qed.

Lemma gopath_read p : Forall pcislot_ok p -> PciPathFromString (PciPath_String p) = Some p.
Proof.
  intros Hp. destruct p as [|s p]; [done|]. pose proof (path_split (s :: p) ltac:(done) Hp) as Hs.
  assert (Hr : mapM PciSlotFromString (PciSlot_String <$> s :: p) = Some (s :: p)) by (eapply mapM_fmt; [intros x; apply pcislot_read|done]).
  unfold PciPathFromString. destruct (PciPath_String (s :: p)) as [|c t] eqn:E; [|by rewrite Hs].
  exfalso. unfold PciPath_String in E. apply Forall_cons in Hp as [H1 _]. destruct (pcislot_read s H1) as (_ & _ & Hn). cbn in E. destruct p; [done|]. cbn in E. by destruct (PciSlot_String s).
Qed.

(** ** What the agent makes of them *)

(** Neither of its parsers takes text with a slash, and for a slot no colon. *)
Lemma slotfn_free s v c : SlotFn_from_str s = Some v -> digit_value c = None -> c <> PLUS -> c <> MINUS -> c <> DOT -> c ∉ s.
Proof.
  intros Hs Hc Hp Hm Hd. rewrite <- (join_split DOT s). unfold SlotFn_from_str in Hs. destruct (split DOT s) as [|a [|b [|]]]; try done.
  - destruct (from_str_radix 16 isize_min isize_max a) eqn:Ea; [|done]. by eapply number_free.
  - destruct (from_str_radix 16 isize_min isize_max a) eqn:Ea; [|done]. cbn in Hs. destruct (from_str_radix 16 isize_min isize_max b) eqn:Eb; [|done].
    cbn. rewrite elem_of_app, elem_of_cons. intros [Hin|[?|Hin]]; [|done|]; revert Hin; by eapply number_free.
Qed.

Lemma address_free s a : Address_from_str s = Some a -> SLASH ∉ s.
Proof.
  intros Hs. rewrite <- (join_split COLON s). unfold Address_from_str in Hs. destruct (split COLON s) as [|x [|y [|z [|]]]]; try done.
  destruct (from_str_radix 16 0 u16_max x) eqn:Ex; [|done]. cbn in Hs. destruct (from_str_radix 16 0 u8_max y) eqn:Ey; [|done]. cbn in Hs.
  destruct (SlotFn_from_str z) eqn:Ez; [|done]. cbn. rewrite !elem_of_app, !elem_of_cons, elem_of_app, elem_of_cons.
  intros [Hin|[Hin|[Hin|[Hin|Hin]]]]; try done; revert Hin; [by eapply number_free|by eapply number_free|by eapply slotfn_free].
Qed.

Lemma agent_slot s : pcislot_ok s -> SlotFn_from_str (PciSlot_String s) = if ps_domain s =? 0 then Some (8 * ps_slot s) else None.
Proof.
  intros Hok. pose proof Hok as [Hd Hs]. assert (H2 : 0 <= ps_slot s <= u64_max) by ulia. destruct (Z.eqb_spec (ps_domain s) 0) as [E|E].
  - unfold SlotFn_from_str, PciSlot_String. rewrite (proj2 (Z.eqb_eq _ _) E). rewrite split_free by (apply hex_free; [done|unfold DOT; lia]).
    rewrite hex_read by (done || unfold isize_max; lia). cbn. by rewrite slotfn_new0.
  - destruct (SlotFn_from_str (PciSlot_String s)) as [v|] eqn:Ev; [|done]. exfalso. apply (slotfn_free _ _ COLON) in Ev; [|done..].
    apply Ev. unfold PciSlot_String. rewrite (proj2 (Z.eqb_neq _ _) E). rewrite !elem_of_app. right. left. unfold COLON. set_solver.
Qed.

Lemma agent_address s : pcislot_ok s -> Address_from_str (PciSlot_String s) = if ps_domain s =? 0 then None else Some (mkAddress (ps_domain s) 0 (8 * ps_slot s)).
Proof.
  intros Hok. pose proof Hok as [Hd Hs]. assert (H1 : 0 <= ps_domain s <= u64_max) by ulia. assert (H2 : 0 <= ps_slot s <= u64_max) by ulia. unfold Address_from_str, PciSlot_String.
  destruct (ps_domain s =? 0).
  - by rewrite split_free by (apply hex_free; [done|unfold COLON; lia]).
  - rewrite bdf_split by done. rewrite hex_read by (done || ulia). cbn [mbind option_bind]. change (from_str_radix 16 0 u8_max [48; 48]) with (Some 0). cbn [mbind option_bind].
    unfold SlotFn_from_str. rewrite dot_split by lia. rewrite hex_read by (done || unfold isize_max; lia). cbn [mbind option_bind]. change (from_str_radix 16 isize_min isize_max [48]) with (Some 0).
    cbn [mbind option_bind]. by rewrite slotfn_new0.
Qed.

(** C23. Which device the agent understands when the runtime names one.  A path of the runtime is read back by the runtime; the agent reads it
    as a path of the same slots, with function 0, exactly if every slot is in domain 0, and as the address of a device exactly if it is
    one slot in another domain.  So no path can be read both ways. *)
Theorem pci_path_exchange p : Forall pcislot_ok p -> p <> [] ->
  PciPathFromString (PciPath_String p) = Some p /\
  Path_from_str (PciPath_String p) = (if forallb (fun s => ps_domain s =? 0) p then Some ((fun s => 8 * ps_slot s) <$> p) else None) /\
  Address_from_str (PciPath_String p) =
    match p with [s] => if ps_domain s =? 0 then None else Some (mkAddress (ps_domain s) 0 (8 * ps_slot s)) | _ => None end.
Proof.
  intros Hp Hne. split; [by apply gopath_read|]. split.
  - unfold Path_from_str. rewrite path_split by done. assert (E : mapM SlotFn_from_str (PciSlot_String <$> p) = if forallb (fun s => ps_domain s =? 0) p then Some ((fun s => 8 * ps_slot s) <$> p) else None).
    { clear Hne. induction Hp as [|s p Hs Hp IH]; [done|]. cbn. rewrite agent_slot, IH by done. destruct (ps_domain s =? 0); [|done]. cbn. by destruct (forallb _ p). }
    rewrite E. destruct (forallb _ p); [|done]. by destruct p.
  - destruct p as [|s [|s' p]]; [done| |].
    + apply agent_address. by apply Forall_cons in Hp as [? _].
    + destruct (Address_from_str _) as [a|] eqn:E; [|done]. exfalso. apply address_free in E. apply E. unfold PciPath_String. cbn. set_solver.
Qed.

Lemma pci_path_exchange_witness :
  Path_from_str (PciPath_String [mkPciSlot 0 2; mkPciSlot 0 3]) = Some [16; 24] /\ Address_from_str (PciPath_String [mkPciSlot 0 2; mkPciSlot 0 3]) = None.
Proof.
  destruct (pci_path_exchange [mkPciSlot 0 2; mkPciSlot 0 3]) as (_ & H1 & H2); [repeat constructor; cbn; lia|done|]. split; [exact H1|exact H2].
Defined.

(** ** Slots of a bridge *)

(** A device gets the first free slot of the bridge, and fails to get one exactly if all are taken. *)
Lemma bridge_slots b ID : match AddDevice b ID with
  | Some (addr, b') => 1 <= addr <= br_max b /\ br_devices b !! addr = None /\ (forall i, 1 <= i < addr -> br_devices b !! i <> None) /\ br_devices b' = <[addr := ID]> (br_devices b)
  | None => forall i, 1 <= i <= br_max b -> br_devices b !! i <> None
  end.
Proof.
  unfold AddDevice, first_free. assert (Hg : forall k n, match head (List.filter (fun i => bool_decide (br_devices b !! i = None)) (seqZ k n)) with
    | Some a => k <= a < k + n /\ br_devices b !! a = None /\ forall i, k <= i < a -> br_devices b !! i <> None
    | None => forall i, k <= i < k + n -> br_devices b !! i <> None end).
  { intros k n. remember (Z.to_nat n) as l eqn:El. revert k n El. induction l as [|l IH]; intros k n El; [rewrite seqZ_nil by lia; cbn; lia|].
    rewrite seqZ_cons by lia. cbn. case_bool_decide as Hd; [cbn; split_and!; (done || lia)|]. specialize (IH (Z.succ k) (Z.pred n) ltac:(lia)).
    destruct (head _) as [a|].
    - destruct IH as (? & ? & Hb). split_and!; [lia|lia|done|]. intros i Hi. destruct (decide (i = k)) as [->|]; [done|apply Hb; lia].
    - intros i Hi. destruct (decide (i = k)) as [->|]; [done|apply IH; lia]. }
  specialize (Hg 1 (br_max b)). destruct (head _) as [a|]; cbn; [|intros i Hi; apply Hg; lia]. destruct Hg as (? & ? & ?). split_and!; (done || lia).
Qed.
