(* ===== verification/AgentDevices.v ===== *)
(** Devices of a container in the guest (agent/src/device.rs): finding them, and correcting the numbers and PCI addresses in the
    specification of the container from those of the host to those of the guest.

    Waiting for uevents and looking at device nodes and sysfs are a parameter.  An [anyhow] error is [Err tt]. *)

From S2P Require Import Prelude Text Pci.

Definition EQUALS : Z := 61.
Definition SEP_COMMA : Z := 44.

(** ** The specification *)

(** The parts of [oci::Spec] that are used. *)
Record LinuxDevice := mkLinuxDevice { ld_path : text; ld_type : text; ld_major : Z; ld_minor : Z }.
Record LinuxDeviceCgroup := mkCgroup { cg_allow : bool; cg_type : text; cg_major : option Z; cg_minor : option Z; cg_access : text }.
Record Linux := mkLinux { lx_devices : list LinuxDevice; lx_resources : option (list LinuxDeviceCgroup) }.
Record Spec := mkSpec { sp_linux : option Linux; sp_env : option (list text) }.

Record DeviceInfo := mkDeviceInfo { di_cgroup_type : text; di_major : Z; di_minor : Z }.
Record DevUpdate := mkDevUpdate { du_info : DeviceInfo; du_final_path : option text }.
Record SpecUpdate := mkSpecUpdate { su_dev : option DevUpdate; su_pci : list (Address * Address) }.

(** The request ([protocols::agent::Device]). *)
Record Device := mkDevice { dv_id : text; dv_type : text; dv_vm_path : text; dv_container_path : text; dv_options : list text }.

(** "blk", "blk-ccw", "mmioblk", "scsi", "nvdimm", "vfio-pci-gk", "vfio-pci", "vfio-ap" *)
Definition DRIVER_BLK_PCI_TYPE : text := [98; 108; 107].
Definition DRIVER_BLK_CCW_TYPE : text := [98; 108; 107; 45; 99; 99; 119].
Definition DRIVER_BLK_MMIO_TYPE : text := [109; 109; 105; 111; 98; 108; 107].
Definition DRIVER_SCSI_TYPE : text := [115; 99; 115; 105].
Definition DRIVER_NVDIMM_TYPE : text := [110; 118; 100; 105; 109; 109].
Definition DRIVER_VFIO_PCI_GK_TYPE : text := [118; 102; 105; 111; 45; 112; 99; 105; 45; 103; 107].
Definition DRIVER_VFIO_PCI_TYPE : text := [118; 102; 105; 111; 45; 112; 99; 105].
Definition DRIVER_VFIO_AP_TYPE : text := [118; 102; 105; 111; 45; 97; 112].
(** "PCIDEVICE_", "rwm" *)
Definition PCIDEVICE : text := [80; 67; 73; 68; 69; 86; 73; 67; 69; 95].
Definition RWM : text := [114; 119; 109].

(** ** Correcting the specification *)

Definition text_eqb (a b : text) : bool := bool_decide (a = b).

(** The renumbering of the devices: what is left of the updates, and what was renumbered so far. *)
Fixpoint update_devices (devs : list LinuxDevice) (updates : gmap text DevUpdate) (res : gmap (text * Z * Z) DeviceInfo) :
  result unit unit * list LinuxDevice * gmap text DevUpdate * gmap (text * Z * Z) DeviceInfo :=
  match devs with
  | [] => (Ok tt, [], updates, res)
  | dev :: devs =>
      match updates !! ld_path dev with
      | None => let '(r, devs, updates, res) := update_devices devs updates res in (r, dev :: devs, updates, res)
      | Some u =>
          let updates := delete (ld_path dev) updates in
          let key := (ld_type dev, ld_major dev, ld_minor dev) in
          let dev := mkLinuxDevice (default (ld_path dev) (du_final_path u)) (ld_type dev) (di_major (du_info u)) (di_minor (du_info u)) in
          match res !! key with
          | Some _ => (Err tt, dev :: devs, updates, <[key := du_info u]> res)
          | None => let '(r, devs, updates, res) := update_devices devs updates (<[key := du_info u]> res) in (r, dev :: devs, updates, res)
          end
      end
  end.

Definition update_rule (res : gmap (text * Z * Z) DeviceInfo) (r : LinuxDeviceCgroup) : LinuxDeviceCgroup :=
  match cg_major r, cg_minor r with
  | Some host_major, Some host_minor =>
      match res !! (cg_type r, host_major, host_minor) with
      | Some u => mkCgroup (cg_allow r) (cg_type r) (Some (di_major u)) (Some (di_minor u)) (cg_access r)
      | None => r
      end
  | _, _ => r
  end.

Definition update_spec_devices (spec : Spec) (updates : gmap text DevUpdate) : result unit unit * Spec :=
  match sp_linux spec with
  | None => (Err tt, spec)
  | Some linux =>
      let '(r, devs, unused, res) := update_devices (lx_devices linux) updates ∅ in
      let linux := mkLinux devs (lx_resources linux) in
      match r with
      | Err e => (Err e, mkSpec (Some linux) (sp_env spec))
      | Ok _ =>
          if negb (bool_decide (unused = ∅)) then (Err tt, mkSpec (Some linux) (sp_env spec))
          else (Ok tt, mkSpec (Some (mkLinux devs (option_map (List.map (update_rule res)) (lx_resources linux)))) (sp_env spec))
      end
  end.

(** [envvar.find('=')] and [split_at]. *)
Fixpoint split_at_eq (s : text) : option (text * text) :=
  match s with
  | [] => None
  | c :: s => if c =? EQUALS then Some ([], s) else '(name, val) ← split_at_eq s; Some (c :: name, val)
  end.

Definition starts_with (prefix s : text) : bool := bool_decide (take (length prefix) s = prefix).

(** The addresses of one variable in the guest. *)
Definition guest_addrs (pcimap : gmap Address Address) (val : text) : option (list text) :=
  mapM (fun t => host ← Address_from_str t; guest ← pcimap !! host; Some (Address_fmt guest)) (split SEP_COMMA val).

Fixpoint update_env_pci (env : list text) (pcimap : gmap Address Address) : result unit unit * list text :=
  match env with
  | [] => (Ok tt, [])
  | envvar :: env =>
      match split_at_eq envvar with
      | None => (Err tt, envvar :: env)
      | Some (name, val) =>
          if negb (starts_with PCIDEVICE name) then let '(r, env) := update_env_pci env pcimap in (r, envvar :: env)
          else
            match guest_addrs pcimap val with
            | None => (Err tt, envvar :: env)
            | Some addrs => let '(r, env) := update_env_pci env pcimap in (r, (name ++ EQUALS :: join SEP_COMMA addrs) :: env)
            end
      end
  end.

Definition insert_devices_cgroup_rule (spec : Spec) (info : DeviceInfo) (allow : bool) (access : text) : result unit unit * Spec :=
  match sp_linux spec with
  | None => (Err tt, spec)
  | Some linux =>
      let rules := default [] (lx_resources linux) in
      let rule := mkCgroup allow (di_cgroup_type info) (Some (di_major info)) (Some (di_minor info)) access in
      (Ok tt, mkSpec (Some (mkLinux (lx_devices linux) (Some (rules ++ [rule])))) (sp_env spec))
  end.

(** ** Finding devices *)

(** "DDDD:BB:DD.F=<pcipath>" *)
Definition split_vfio_pci_option (opt : text) : option (text * text) :=
  match split EQUALS opt with [host; path] => Some (host, path) | _ => None end.

(** Waiting for a device to appear, binding it, and its node; [new_info] is [DeviceInfo::new] with [is_rdev]. *)
Class GuestDevices (W : Type) := {
  blk_pci_device_name : W -> Address -> result text unit * W;
  mmio_path_exists : W -> text -> bool;
  mmio_device_name : W -> text -> result unit unit * W;
  scsi_device_name : W -> text -> result text unit * W;
  wait_for_pci_device : W -> Path -> result Address unit * W;
  pci_driver_override : W -> Address -> result unit unit * W;
  pci_iommu_group : W -> Address -> result (option Z) unit;
  vfio_device_name : W -> Z -> result text unit * W;
  new_info : W -> text -> result DeviceInfo unit;
}.

Section Add.
Context {W : Type} `{GuestDevices W}.
Implicit Types (w : W).

(** [DeviceInfo::new(..)?.into()] *)
Definition info_update w (vm_path : text) : result SpecUpdate unit :=
  match new_info w vm_path with Ok info => Ok (mkSpecUpdate (Some (mkDevUpdate info None)) []) | Err e => Err e end.

Definition virtio_blk_device_handler w (d : Device) : result SpecUpdate unit * W :=
  match Address_from_str (dv_id d) with
  | None => (Err tt, w)
  | Some addr => match blk_pci_device_name w addr with (Err e, w) => (Err e, w) | (Ok vm_path, w) => (info_update w vm_path, w) end
  end.

Definition virtiommio_blk_device_handler w (d : Device) : result SpecUpdate unit * W :=
  match dv_vm_path d with
  | [] => (Err tt, w)
  | path =>
      if mmio_path_exists w path then (info_update w path, w)
      else match mmio_device_name w path with (Err e, w) => (Err e, w) | (Ok _, w) => (info_update w path, w) end
  end.

Definition virtio_scsi_device_handler w (d : Device) : result SpecUpdate unit * W :=
  match scsi_device_name w (dv_id d) with (Err e, w) => (Err e, w) | (Ok vm_path, w) => (info_update w vm_path, w) end.

Definition virtio_nvdimm_device_handler w (d : Device) : result SpecUpdate unit * W :=
  match dv_vm_path d with [] => (Err tt, w) | path => (info_update w path, w) end.

(** The loop of [vfio_pci_device_handler] over the options. *)
Fixpoint vfio_options (opts : list text) (in_guest : bool) w (fixups : list (Address * Address)) (group : option Z) :
  result (list (Address * Address) * option Z) unit * W :=
  match opts with
  | [] => (Ok (fixups, group), w)
  | opt :: opts =>
      match split_vfio_pci_option opt with
      | None => (Err tt, w)
      | Some (host, pcipath) =>
          match Address_from_str host, Path_from_str pcipath with
          | Some host, Some pcipath =>
              match wait_for_pci_device w pcipath with
              | (Err e, w) => (Err e, w)
              | (Ok guestdev, w) =>
                  if in_guest then
                    match pci_driver_override w guestdev with
                    | (Err e, w) => (Err e, w)
                    | (Ok _, w) =>
                        match pci_iommu_group w guestdev with
                        | Ok (Some devgroup) =>
                            if match group with Some g => negb (g =? devgroup) | None => false end then (Err tt, w)
                            else vfio_options opts in_guest w (fixups ++ [(host, guestdev)]) (Some devgroup)
                        | _ => (Err tt, w)
                        end
                    end
                  else vfio_options opts in_guest w fixups group
              end
          | _, _ => (Err tt, w)
          end
      end
  end.

Definition vfio_pci_device_handler w (d : Device) : result SpecUpdate unit * W :=
  let in_guest := negb (text_eqb (dv_type d) DRIVER_VFIO_PCI_GK_TYPE) in
  match vfio_options (dv_options d) in_guest w [] None with
  | (Err e, w) => (Err e, w)
  | (Ok (fixups, group), w) =>
      if in_guest then
        match group with
        | None => (Err tt, w)
        | Some group =>
            match vfio_device_name w group with
            | (Err e, w) => (Err e, w)
            | (Ok vm_path, w) =>
                match new_info w vm_path with
                | Err e => (Err e, w)
                | Ok info => (Ok (mkSpecUpdate (Some (mkDevUpdate info (Some vm_path))) fixups), w)
                end
            end
        end
      else (Ok (mkSpecUpdate None fixups), w)
  end.

Definition add_device w (d : Device) : result SpecUpdate unit * W :=
  if text_eqb (dv_type d) [] then (Err tt, w)
  else if text_eqb (dv_id d) [] && text_eqb (dv_vm_path d) [] then (Err tt, w)
  else if text_eqb (dv_container_path d) [] then (Err tt, w)
  else if text_eqb (dv_type d) DRIVER_BLK_PCI_TYPE then virtio_blk_device_handler w d
  else if text_eqb (dv_type d) DRIVER_BLK_CCW_TYPE then (Err tt, w)
  else if text_eqb (dv_type d) DRIVER_BLK_MMIO_TYPE then virtiommio_blk_device_handler w d
  else if text_eqb (dv_type d) DRIVER_NVDIMM_TYPE then virtio_nvdimm_device_handler w d
  else if text_eqb (dv_type d) DRIVER_SCSI_TYPE then virtio_scsi_device_handler w d
  else if text_eqb (dv_type d) DRIVER_VFIO_PCI_GK_TYPE || text_eqb (dv_type d) DRIVER_VFIO_PCI_TYPE then vfio_pci_device_handler w d
  else (Err tt, w).

(** [sb.pcimap.insert]; a second guest address for a host device is an error. *)
Fixpoint insert_pcimap (pci : list (Address * Address)) (pcimap : gmap Address Address) : result unit unit * gmap Address Address :=
  match pci with
  | [] => (Ok tt, pcimap)
  | (host, guest) :: pci =>
      match pcimap !! host with
      | Some _ => (Err tt, <[host := guest]> pcimap)
      | None => insert_pcimap pci (<[host := guest]> pcimap)
      end
  end.

(** The loop of [add_devices]. *)
Fixpoint add_each (devices : list Device) (spec : Spec) (pcimap : gmap Address Address) (updates : gmap text DevUpdate) w :
  result unit unit * Spec * gmap Address Address * gmap text DevUpdate * W :=
  match devices with
  | [] => (Ok tt, spec, pcimap, updates, w)
  | d :: devices =>
      match add_device w d with
      | (Err e, w) => (Err e, spec, pcimap, updates, w)
      | (Ok u, w) =>
          match su_dev u with
          | None => add_each devices spec pcimap updates w
          | Some du =>
              match updates !! dv_container_path d with
              | Some _ => (Err tt, spec, pcimap, <[dv_container_path d := du]> updates, w)
              | None =>
                  let updates := <[dv_container_path d := du]> updates in
                  match insert_pcimap (su_pci u) pcimap with
                  | (Err e, pcimap) => (Err e, spec, pcimap, updates, w)
                  | (Ok _, pcimap) =>
                      match insert_devices_cgroup_rule spec (du_info du) true RWM with
                      | (Err e, spec) => (Err e, spec, pcimap, updates, w)
                      | (Ok _, spec) => add_each devices spec pcimap updates w
                      end
                  end
              end
          end
      end
  end.

Definition add_devices (devices : list Device) (spec : Spec) (pcimap : gmap Address Address) w : result unit unit * Spec * gmap Address Address * W :=
  let '(r, spec, pcimap, updates, w) := add_each devices spec pcimap ∅ w in
  match r with
  | Err e => (Err e, spec, pcimap, w)
  | Ok _ =>
      let '(r, spec) :=
        match sp_env spec with
        | None => (Ok tt, spec)
        | Some env => let '(r, env) := update_env_pci env pcimap in (r, mkSpec (sp_linux spec) (Some env))
        end in
      match r with
      | Err e => (Err e, spec, pcimap, w)
      | Ok _ => let '(r, spec) := update_spec_devices spec updates in (r, spec, pcimap, w)
      end
  end.
End Add.
