(* ===== verification/AgentDevicesSpec.v ===== *)
(** Correctness of the devices of a container in the guest. *)

From S2P Require Import Prelude Text Pci AgentDevices.

(** ** Renumbering *)

Definition host_key (dev : LinuxDevice) : text * Z * Z := (ld_type dev, ld_major dev, ld_minor dev).

(** A device with its numbers, and perhaps its path, in the guest. *)
Definition renumber (u : DevUpdate) (dev : LinuxDevice) : LinuxDevice :=
  mkLinuxDevice (default (ld_path dev) (du_final_path u)) (ld_type dev) (di_major (du_info u)) (di_minor (du_info u)).
Definition renumbered (updates : gmap text DevUpdate) (dev : LinuxDevice) : LinuxDevice :=
  match updates !! ld_path dev with Some u => renumber u dev | None => dev end.

(** The devices with an update, by their numbers on the host. *)
Definition moved (updates : gmap text DevUpdate) (devs : list LinuxDevice) : list ((text * Z * Z) * DeviceInfo) :=
  omap (fun dev => u ← updates !! ld_path dev; Some (host_key dev, du_info u)) devs.

Definition all_found (updates : gmap text DevUpdate) (devs : list LinuxDevice) : Prop := forall path u, updates !! path = Some u -> path ∈ ld_path <$> devs.

(** Deleting an update that no other device uses. *)
Lemma renumbered_delete updates path devs : path ∉ ld_path <$> devs ->
  renumbered (delete path updates) <$> devs = renumbered updates <$> devs /\ moved (delete path updates) devs = moved updates devs.
Proof.
  induction devs as [|dev devs IH]; intros Hn; [done|]. rewrite fmap_cons in Hn. destruct IH as [E1 E2]; [set_solver|].
  assert (El : delete path updates !! ld_path dev = updates !! ld_path dev) by (apply lookup_delete_ne; set_solver).
  cbn. unfold renumbered at 1 3. rewrite El. unfold moved in *. rewrite E2, E1. done.
Qed.

Lemma update_devices_ok devs updates res : NoDup (ld_path <$> devs) ->
  if decide (NoDup (moved updates devs).*1 /\ Forall (fun k => res !! k = None) (moved updates devs).*1) then
    update_devices devs updates res = (Ok tt, renumbered updates <$> devs, filter (fun p => p.1 ∉ ld_path <$> devs) updates, list_to_map (moved updates devs) ∪ res)
  else exists devs' updates' res', update_devices devs updates res = (Err tt, devs', updates', res').
Proof.
  revert updates res. induction devs as [|dev devs IH]; intros updates res Hd.
  { rewrite decide_True by (split; constructor). cbn. rewrite map_filter_id by (intros; set_solver). by rewrite (left_id_L ∅ (∪)). }
  rewrite fmap_cons in Hd. apply NoDup_cons in Hd as [Hni Hd]. cbn [update_devices]. destruct (updates !! ld_path dev) as [u|] eqn:Eu.
  - assert (Em : moved updates (dev :: devs) = (host_key dev, du_info u) :: moved updates devs) by (unfold moved; cbn; by rewrite Eu).
    rewrite Em. destruct (renumbered_delete updates (ld_path dev) devs Hni) as [E1 E2]. fold (host_key dev). rewrite fmap_cons. cbn [fst].
    assert (Erd : renumbered updates dev = renumber u dev) by (unfold renumbered; by rewrite Eu).
    destruct (res !! host_key dev) as [i|] eqn:Er.
    { rewrite decide_False; [by do 3 eexists|]. intros [_ Hf]. apply Forall_cons in Hf as [? _]. cbn in *. congruence. }
    specialize (IH (delete (ld_path dev) updates) (<[host_key dev := du_info u]> res) Hd). rewrite E2 in IH.
    destruct (decide (NoDup (moved updates devs).*1 /\ _)) as [[Hnd Hf]|Hn] in IH.
    + assert (Hk : host_key dev ∉ (moved updates devs).*1) by (intros Hin; rewrite Forall_forall in Hf; specialize (Hf _ Hin); by rewrite lookup_insert_eq in Hf).
      rewrite decide_True.
      2: { split; [by apply NoDup_cons|]. constructor; [done|]. rewrite Forall_forall in *. intros k Hin. specialize (Hf k Hin). apply lookup_insert_None in Hf as [? _]. done. }
      rewrite IH. cbv beta iota. f_equal; [f_equal; [f_equal|]|].
      * by rewrite fmap_cons, Erd, E1.
      * apply map_eq. intros path. rewrite !map_lookup_filter. destruct (decide (path = ld_path dev)) as [->|Hne].
        -- rewrite lookup_delete_eq. cbn. rewrite Eu. cbn. case_guard as Hg; [|done]. exfalso. apply Hg. set_solver.
        -- rewrite lookup_delete_ne by done. destruct (updates !! path) as [v|]; [|done]. cbn [mbind option_bind fst]. rewrite fmap_cons. repeat case_guard; try done; exfalso; [by apply elem_of_cons in H0 as [?|?]|apply H0; by apply elem_of_cons; right].
      * cbn. rewrite <- insert_union_r, insert_union_l; [done|]. by apply not_elem_of_list_to_map_1.
    + rewrite decide_False; [destruct IH as (d' & u' & r' & ->); by do 3 eexists|]. intros [Hnd Hf]. apply Hn. apply NoDup_cons in Hnd as [Hk Hnd]. apply Forall_cons in Hf as [_ Hf].
      split; [done|]. rewrite Forall_forall in *. intros k Hin. rewrite lookup_insert_ne; [by apply Hf|]. intros E. by rewrite E in Hk.
  - assert (Em : moved updates (dev :: devs) = moved updates devs) by (unfold moved; cbn; by rewrite Eu). rewrite Em. specialize (IH updates res Hd).
    destruct (decide _); [|destruct IH as (d' & u' & r' & ->); by do 3 eexists]. rewrite IH. cbv beta iota. f_equal. f_equal; [f_equal|].
    + rewrite fmap_cons. assert (Erd : renumbered updates dev = dev) by (unfold renumbered; by rewrite Eu). by rewrite Erd.
    + apply map_filter_ext. intros path v Hv. rewrite fmap_cons, not_elem_of_cons. assert (path <> ld_path dev) by congruence. naive_solver.
Qed.

(** A rule for the numbers of a device on the host, and what becomes of a rule. *)
Definition rule_for (r : LinuxDeviceCgroup) (dev : LinuxDevice) : Prop :=
  cg_type r = ld_type dev /\ cg_major r = Some (ld_major dev) /\ cg_minor r = Some (ld_minor dev).
Definition rule_renumbered (updates : gmap text DevUpdate) (devs : list LinuxDevice) (r r' : LinuxDeviceCgroup) : Prop :=
  (exists dev u, dev ∈ devs /\ updates !! ld_path dev = Some u /\ rule_for r dev /\
     r' = mkCgroup (cg_allow r) (cg_type r) (Some (di_major (du_info u))) (Some (di_minor (du_info u))) (cg_access r)) \/
  (r' = r /\ forall dev u, dev ∈ devs -> updates !! ld_path dev = Some u -> ~ rule_for r dev).

Lemma elem_of_moved updates devs k i : (k, i) ∈ moved updates devs <->
  exists dev u, dev ∈ devs /\ updates !! ld_path dev = Some u /\ k = host_key dev /\ i = du_info u.
Proof.
  unfold moved. rewrite list_elem_of_omap. split.
  - intros (dev & Hin & E). destruct (updates !! ld_path dev) as [u|] eqn:Eu; [|done]. cbn in E. injection E as <- <-. by exists dev, u.
  - intros (dev & u & Hin & Eu & -> & ->). exists dev. by rewrite Eu.
Qed.

Lemma rule_for_key r dev : rule_for r dev <-> exists a b, cg_major r = Some a /\ cg_minor r = Some b /\ (cg_type r, a, b) = host_key dev.
Proof.
  unfold rule_for, host_key. split; [intros (E & -> & ->); eexists _, _; by rewrite E|]. intros (a & b & -> & -> & E). by injection E as -> -> ->.
Qed.

Lemma update_rule_ok updates devs r r' : NoDup (moved updates devs).*1 ->
  rule_renumbered updates devs r r' <-> r' = update_rule (list_to_map (moved updates devs)) r.
Proof.
  intros Hnd. unfold update_rule. destruct (cg_major r) as [a|] eqn:Ea, (cg_minor r) as [b|] eqn:Eb;
    [|split; [intros [(dev & u & _ & _ & (_ & ? & ?) & _)|[-> _]]; congruence|intros ->; right; split; [done|intros dev u _ _ (_ & ? & ?); congruence]]..].
  destruct (list_to_map (moved updates devs) !! (cg_type r, a, b)) as [i|] eqn:El.
  - apply elem_of_list_to_map_2, elem_of_moved in El as (dev & u & Hin & Eu & Ek & ->). split.
    + intros [(dev' & u' & Hin' & Eu' & Hr & ->)|[_ Hno]]; [|destruct (Hno dev u Hin Eu); apply rule_for_key; naive_solver].
      apply rule_for_key in Hr as (a' & b' & ? & ? & Ek'). simplify_eq. assert (Hi : du_info u' = du_info u); [|by rewrite Hi].
      assert (Hk : forall d v, d ∈ devs -> updates !! ld_path d = Some v -> host_key d = host_key dev -> (list_to_map (moved updates devs) : gmap _ _) !! host_key dev = Some (du_info v)).
      { intros d v Hd Hv Ed. apply elem_of_list_to_map_1; [done|]. apply elem_of_moved. by exists d, v. }
      pose proof (Hk dev u Hin Eu eq_refl). pose proof (Hk dev' u' Hin' Eu' ltac:(congruence)). congruence.
    + intros ->. left. exists dev, u. split_and!; [done..| |done]. apply rule_for_key. naive_solver.
  - apply not_elem_of_list_to_map_2 in El. assert (Hno : forall dev u, dev ∈ devs -> updates !! ld_path dev = Some u -> ~ rule_for r dev).
    { intros dev u Hin Eu Hr. apply rule_for_key in Hr as (a' & b' & ? & ? & Ek). simplify_eq. apply El, list_elem_of_fmap. exists (host_key dev, du_info u).
      split; [done|]. apply elem_of_moved. by exists dev, u. }
    split; [intros [(dev & u & Hin & Eu & Hr & _)|[-> _]]; [by destruct (Hno dev u)|done]|intros ->; by right].
Qed.

Lemma update_rules_ok updates devs rs rs' : NoDup (moved updates devs).*1 ->
  option_Forall2 (Forall2 (rule_renumbered updates devs)) rs rs' <-> rs' = option_map (List.map (update_rule (list_to_map (moved updates devs)))) rs.
Proof.
  intros Hnd. assert (Hl : forall l l', Forall2 (rule_renumbered updates devs) l l' <-> l' = List.map (update_rule (list_to_map (moved updates devs))) l).
  { induction l as [|r l IH]; intros l'; [split; [by inversion 1|by intros ->; constructor]|]. split.
    - inversion 1 as [|? r' ? l0 Hr Hf]; subst. apply update_rule_ok in Hr as ->; [|done]. apply IH in Hf as ->. done.
    - intros ->. constructor; [by apply update_rule_ok|by apply IH]. }
  split; [intros [l l' Hf|]; [by apply Hl in Hf as ->|done]|]. intros ->. destruct rs; constructor. by apply Hl.
Qed.

(** C35. The devices in the specification get the numbers of the guest, and so do the rules about them.  With distinct device paths, the update
    succeeds exactly if every update has its device and no two devices with an update have the same type and numbers on
    the host; then exactly the devices with an update are changed, and a rule is changed exactly if it is for the numbers
    of such a device on the host, to the numbers of that device in the guest. *)
Theorem spec_devices_updated spec updates linux : sp_linux spec = Some linux -> NoDup (ld_path <$> lx_devices linux) ->
  forall spec', update_spec_devices spec updates = (Ok tt, spec') <->
    all_found updates (lx_devices linux) /\ NoDup (moved updates (lx_devices linux)).*1 /\
    exists rules, option_Forall2 (Forall2 (rule_renumbered updates (lx_devices linux))) (lx_resources linux) rules /\
      spec' = mkSpec (Some (mkLinux (renumbered updates <$> lx_devices linux) rules)) (sp_env spec).
Proof.
  intros Hl Hd spec'. unfold update_spec_devices. rewrite Hl. pose proof (update_devices_ok (lx_devices linux) updates ∅ Hd) as Hu.
  assert (Hempty : filter (fun p => p.1 ∉ ld_path <$> lx_devices linux) updates = ∅ <-> all_found updates (lx_devices linux)).
  { split.
    - intros He path u Hp. destruct (decide (path ∈ ld_path <$> lx_devices linux)) as [|Hn]; [done|]. exfalso.
      assert (Hs : filter (fun p => p.1 ∉ ld_path <$> lx_devices linux) updates !! path = Some u) by (by apply map_lookup_filter_Some). by rewrite He in Hs.
    - intros Ha. apply map_eq. intros path. rewrite lookup_empty. destruct (filter _ updates !! path) as [u|] eqn:E; [|done].
      apply map_lookup_filter_Some in E as [Hp Hn]. by apply Ha in Hp. }
  destruct (decide _) as [[Hnd Hf]|Hn] in Hu.
  - rewrite Hu. case_bool_decide as Hb; cbn [negb].
    + rewrite (right_id_L ∅ (∪)). rewrite Hempty in Hb. cbn. split.
      * intros [= <-]. do 2 (split; [done|]). eexists. split; [by apply update_rules_ok|done].
      * intros (_ & _ & rules & Hr & ->). by apply update_rules_ok in Hr as ->.
    + split; [done|]. intros (Ha & _). by rewrite <- Hempty in Ha.
  - destruct Hu as (d' & u' & r' & ->). split; [done|]. intros (_ & Hnd & _). destruct Hn. split; [done|]. apply Forall_forall. intros; apply lookup_empty.
Qed.

(** ** PCI addresses in the environment *)

Lemma split_at_eq_ok s name val : split_at_eq s = Some (name, val) -> s = name ++ EQUALS :: val.
Proof.
  revert name. induction s as [|c s IH]; intros name; cbn; [done|]. destruct (Z.eqb_spec c EQUALS) as [->|Hn]; [by intros [= <- <-]|].
  destruct (split_at_eq s) as [[n v]|]; [|done]. cbn. intros [= <- <-]. by rewrite (IH n).
Qed.

Lemma mapM_three {A B C D} (f : A -> option B) (g : B -> option C) (k : C -> D) (ts : list A) (l : list D) :
  mapM (fun t => h ← f t; c ← g h; Some (k c)) ts = Some l <-> exists (hosts : list B) (guests : list C), mapM f ts = Some hosts /\ mapM g hosts = Some guests /\ l = k <$> guests.
Proof.
  revert l. induction ts as [|t ts IH]; intros l; cbn.
  { split; [intros [= <-]; by exists [], []|]. by intros (? & ? & [= <-] & [= <-] & ->). }
  split.
  - destruct (f t) as [h|]; [|done]. cbn. destruct (g h) as [c|] eqn:Eg; [|done]. cbn. destruct (mapM _ ts) as [l'|] eqn:E; [|done]. cbn. intros [= <-].
    destruct (proj1 (IH l') eq_refl) as (hosts & guests & -> & Hg & ->). exists (h :: hosts), (c :: guests). cbn. by rewrite Eg, Hg.
  - intros (hosts & guests & Hh & Hg & ->). destruct (f t) as [h|]; [|done]. cbn in *. destruct (mapM f ts) as [hs|]; [|done]. injection Hh as <-.
    cbn in Hg. destruct (g h) as [c|]; [|done]. cbn in *. destruct (mapM g hs) as [gs|] eqn:Egs; [|done]. injection Hg as <-.
    rewrite (proj2 (IH (k <$> gs))); [done|by exists hs, gs].
Qed.

Lemma guest_addrs_ok (pcimap : gmap Address Address) val l : guest_addrs pcimap val = Some l <->
  exists hosts guests, mapM Address_from_str (split SEP_COMMA val) = Some hosts /\ mapM (fun h => pcimap !! h) hosts = Some guests /\ l = Address_fmt <$> guests.
Proof. apply mapM_three. Qed.

Lemma slotfn_fmt_free s c : 0 <= s <= 255 -> ~ (48 <= c <= 57 \/ 97 <= c <= 122) -> c <> DOT -> c ∉ SlotFn_fmt s.
Proof.
  intros Hs Hc Hd. destruct (slotfn_byte s Hs) as (Hsl & Hf & _). unfold SlotFn_fmt. rewrite elem_of_app, elem_of_cons. intros [Hin|[?|Hin]]; [|done|]; revert Hin; apply hex_free; (done || ulia).
Qed.

Lemma address_fmt_free a : address_ok a -> SEP_COMMA ∉ Address_fmt a.
Proof.
  intros (Hd & Hb & Hs). unfold Address_fmt. rewrite elem_of_app, elem_of_cons, elem_of_app, elem_of_cons. unfold SEP_COMMA, COLON.
  intros [Hin|[?|[Hin|[?|Hin]]]]; try lia; revert Hin; [apply hex_free; [ulia|lia]|apply hex_free; [ulia|lia]|apply slotfn_fmt_free; [done|lia|unfold DOT; lia]].
Qed.

(** A variable and what becomes of it. *)
Definition env_var_ok (pcimap : gmap Address Address) (v v' : text) : Prop :=
  exists name val, split_at_eq v = Some (name, val) /\
    if starts_with PCIDEVICE name then
      exists hosts guests, mapM Address_from_str (split SEP_COMMA val) = Some hosts /\ mapM (fun h => pcimap !! h) hosts = Some guests /\
        v' = name ++ EQUALS :: join SEP_COMMA (Address_fmt <$> guests) /\
        mapM Address_from_str (split SEP_COMMA (join SEP_COMMA (Address_fmt <$> guests))) = Some guests
    else v' = v.

Lemma guests_read (pcimap : gmap Address Address) hosts guests : map_Forall (fun _ g => address_ok g) pcimap -> mapM (fun h => pcimap !! h) hosts = Some guests -> hosts <> [] ->
  mapM Address_from_str (split SEP_COMMA (join SEP_COMMA (Address_fmt <$> guests))) = Some guests.
Proof.
  intros Hm Hg Hne. assert (Hok : Forall address_ok guests).
  { apply mapM_Some_1 in Hg. clear Hne. induction Hg as [|h g hs gs Hh Hg IH]; constructor; [by eapply Hm|done]. }
  assert (guests <> []) by (apply length_mapM in Hg; destruct hosts; [done|by destruct guests]).
  rewrite split_join; [|by destruct guests|apply Forall_fmap; eapply Forall_impl; [exact Hok|intros a; apply address_fmt_free]]. by eapply mapM_fmt; [apply address_read|].
Qed.

(** The PCI addresses in the environment are those of the guest.  The update succeeds exactly if every entry has a name and every address
    in a variable PCIDEVICE_... can be read and is known; then the value of such a variable is the text of the guest addresses
    in the same order, which reads back as these addresses, and other variables are as before. *)
Theorem env_pci_translated env (pcimap : gmap Address Address) env' : map_Forall (fun _ g => address_ok g) pcimap ->
  update_env_pci env pcimap = (Ok tt, env') <-> Forall2 (env_var_ok pcimap) env env'.
Proof.
  intros Hm. revert env'. induction env as [|v env IH]; intros env'; cbn [update_env_pci].
  { split; [intros [= <-]; constructor|]. intros He. by inversion He. }
  assert (Hrest : forall v', (let '(r, e) := update_env_pci env pcimap in (r, v' :: e)) = (Ok tt, env') <-> exists e, env' = v' :: e /\ Forall2 (env_var_ok pcimap) env e).
  { intros v'. destruct (update_env_pci env pcimap) as [r e] eqn:E. split.
    - intros [= -> <-]. exists e. split; [done|]. by apply IH.
    - intros (e' & -> & He). apply IH in He. congruence. }
  split.
  - destruct (split_at_eq v) as [[name val]|] eqn:Ev; [|done]. destruct (starts_with PCIDEVICE name) eqn:Es; cbn [negb].
    + destruct (guest_addrs pcimap val) as [l|] eqn:Eg; [|done]. apply guest_addrs_ok in Eg as (hosts & guests & Hh & Hg & ->).
      assert (Hne : hosts <> []) by (apply length_mapM in Hh; pose proof (split_nonempty SEP_COMMA val); destruct hosts; [by destruct (split SEP_COMMA val)|done]).
      assert (Hv : env_var_ok pcimap v (name ++ EQUALS :: join SEP_COMMA (Address_fmt <$> guests))).
      { exists name, val. split; [done|]. rewrite Es. exists hosts, guests. split_and!; try done. by eapply guests_read. }
      intros Hu. apply (Hrest _) in Hu as (e & -> & He). by constructor.
    + assert (Hv : env_var_ok pcimap v v) by (exists name, val; split; [done|by rewrite Es]). intros Hu. apply (Hrest _) in Hu as (e & -> & He). by constructor.
  - intros Hf. inversion Hf as [|? v' ? e Hv He]; subst. pose proof Hv as (name & val & Ev & Hc). rewrite Ev. destruct (starts_with PCIDEVICE name); cbn [negb].
    + destruct Hc as (hosts & guests & Hh & Hg & -> & _). rewrite (proj2 (guest_addrs_ok pcimap val (Address_fmt <$> guests))) by (by exists hosts, guests).
      apply (Hrest _). by exists e.
    + subst v'. apply (Hrest _). by exists e.
Qed.

(** ** All devices of a container *)

(** What was found for a device: its update, at its path in the container. *)
Definition allow_rule (u : DevUpdate) : LinuxDeviceCgroup :=
  mkCgroup true (di_cgroup_type (du_info u)) (Some (di_major (du_info u))) (Some (di_minor (du_info u))) RWM.

Section Add.
Context {W : Type} `{GuestDevices W}.
Implicit Types (w : W).

(** The devices found, each with its path in the container: the answers of the handlers, asked one after the other. *)
Fixpoint found (devices : list Device) w : option (list (text * DevUpdate)) :=
  match devices with
  | [] => Some []
  | d :: devices =>
      match add_device w d with
      | (Ok su, w) => us ← found devices w; Some (match su_dev su with Some u => (dv_container_path d, u) :: us | None => us end)
      | (Err _, _) => None
      end
  end.

Lemma add_each_ok devices spec pcimap updates w spec' pcimap' updates' w' linux : sp_linux spec = Some linux ->
  add_each devices spec pcimap updates w = (Ok tt, spec', pcimap', updates', w') ->
  exists us, found devices w = Some us /\ updates' = list_to_map us ∪ updates /\ NoDup us.*1 /\ (forall p, p ∈ us -> updates !! p.1 = None) /\ sp_env spec' = sp_env spec /\
    exists linux', sp_linux spec' = Some linux' /\ lx_devices linux' = lx_devices linux /\
      (us <> [] -> lx_resources linux' = Some (default [] (lx_resources linux) ++ (allow_rule <$> us.*2))) /\ (us = [] -> lx_resources linux' = lx_resources linux).
Proof.
  revert spec pcimap updates w linux. induction devices as [|d devices IH]; intros spec pcimap updates w linux Hl; cbn [add_each found].
  { intros [= <- <- <- <-]. exists []. cbn. split; [done|]. split; [by rewrite (left_id_L ∅ (∪))|]. split; [constructor|]. split; [intros p Hp; by apply elem_of_nil in Hp|]. split; [done|]. by exists linux. }
  destruct (add_device w d) as [[su|e] w1] eqn:Ed; [|done]. destruct (su_dev su) as [u|] eqn:Eu.
  - destruct (updates !! dv_container_path d) eqn:El; [done|]. destruct (insert_pcimap _ pcimap) as [[[]|] pm]; [|done].
    unfold insert_devices_cgroup_rule. rewrite Hl. intros Ha.
    apply (IH _ _ _ _ (mkLinux (lx_devices linux) (Some (default [] (lx_resources linux) ++ [allow_rule u])))) in Ha; [|done].
    destruct Ha as (us & -> & -> & Hnd & Hus & He & linux' & Hl' & Hdev & Hr & Hr0). exists ((dv_container_path d, u) :: us).
    assert (Hni : dv_container_path d ∉ us.*1). { intros Hin. apply list_elem_of_fmap in Hin as (p & Ep & Hp). specialize (Hus p Hp) as Hn. by rewrite <- Ep, lookup_insert_eq in Hn. }
    split; [done|]. split; [cbn; rewrite <- insert_union_r, insert_union_l; [done|by apply not_elem_of_list_to_map_1]|]. split; [cbn; by apply NoDup_cons|]. split.
    { intros p [->|Hp]%elem_of_cons; [done|]. specialize (Hus p Hp) as Hn. by apply lookup_insert_None in Hn as [? _]. }
    split; [done|]. exists linux'. split; [done|]. split; [done|]. split; [|done]. intros _. cbn in Hr, Hr0 |- *. destruct us as [|u' us]; [by rewrite Hr0|]. rewrite Hr by done. by rewrite <- app_assoc.
  - intros Ha. apply (IH _ _ _ _ linux) in Ha; [|done]. destruct Ha as (us & -> & Hrest). by exists us.
Qed.

Lemma update_env_linux spec pcimap r spec' :
  match sp_env spec with None => (Ok tt, spec) | Some env => let '(r, env) := update_env_pci env pcimap in (r, mkSpec (sp_linux spec) (Some env)) end = (r, spec') -> sp_linux spec' = sp_linux spec.
Proof. destruct (sp_env spec) as [env|]; [|by intros [= <- <-]]. destruct (update_env_pci env pcimap). by intros [= <- <-]. Qed.

(** C24. Every device that was found can be used in the container.  If adding the devices succeeds, every handler has answered and no two devices
    found have the same path; and if no device has in the guest the numbers that one of them had on the host, then the
    specification has, for each device found, its node with the numbers of the guest, at its place in the container or the
    place the handler chose, and a rule that allows access to it. *)
Theorem devices_usable devices spec pcimap w spec' pcimap' w' linux : sp_linux spec = Some linux -> NoDup (ld_path <$> lx_devices linux) ->
  add_devices devices spec pcimap w = (Ok tt, spec', pcimap', w') ->
  exists us linux', found devices w = Some us /\ NoDup us.*1 /\ sp_linux spec' = Some linux' /\
    ((forall path u, (path, u) ∈ us -> (di_cgroup_type (du_info u), di_major (du_info u), di_minor (du_info u)) ∉ (moved (list_to_map us) (lx_devices linux)).*1) ->
     forall path u, (path, u) ∈ us ->
       (exists dev, dev ∈ lx_devices linux' /\ ld_path dev = default path (du_final_path u) /\ ld_major dev = di_major (du_info u) /\ ld_minor dev = di_minor (du_info u)) /\
       exists rules, lx_resources linux' = Some rules /\ allow_rule u ∈ rules).
Proof.
  intros Hl Hd. unfold add_devices. destruct (add_each devices spec pcimap ∅ w) as [[[[[[]|e] spec1] pm1] updates] w1] eqn:Ea; [|done].
  destruct (add_each_ok _ _ _ _ _ _ _ _ _ _ Hl Ea) as (us & Hfound & Eus & Hnd & _ & He1 & linux1 & Hl1 & Hd1 & Hr1 & Hr0). rewrite (right_id_L ∅ (∪)) in Eus. subst updates.
  destruct (match sp_env spec1 with None => _ | Some _ => _ end) as [r spec2] eqn:Ee. apply update_env_linux in Ee. destruct r as [[]|]; [|done].
  destruct (update_spec_devices spec2 (list_to_map us)) as [r3 spec3] eqn:Es. intros [= -> <- <- <-]. rewrite Hl1 in Ee.
  pose proof (update_devices_ok (lx_devices linux1) (list_to_map us) ∅) as Hu. rewrite Hd1 in Hu. specialize (Hu Hd). unfold update_spec_devices in Es. rewrite Ee, Hd1 in Es.
  destruct (decide _) in Hu; [|destruct Hu as (? & ? & ? & Hu); by rewrite Hu in Es]. rewrite Hu in Es. match type of Es with context [bool_decide ?P] => destruct (bool_decide_reflect P) as [Hb|] end; [|done]. cbn [negb] in Es. injection Es as <-.
  rewrite (right_id_L ∅ (∪)). exists us. eexists. do 2 (split; [done|]). split; [reflexivity|]. intros Hfree path u Hin.
  assert (Hp : (list_to_map us : gmap text DevUpdate) !! path = Some u) by (by apply elem_of_list_to_map_1). cbn [lx_devices lx_resources]. split.
  - assert (Hf : path ∈ ld_path <$> lx_devices linux).
    { destruct (decide (path ∈ ld_path <$> lx_devices linux)) as [|Hn]; [done|]. exfalso.
      assert (Hs : filter (fun p => p.1 ∉ ld_path <$> lx_devices linux) (list_to_map us : gmap text DevUpdate) !! path = Some u) by (by apply map_lookup_filter_Some). by rewrite Hb in Hs. }
    apply list_elem_of_fmap in Hf as (dev & -> & Hdev). exists (renumbered (list_to_map us) dev). split; [by apply list_elem_of_fmap_2|]. unfold renumbered. rewrite Hp. done.
  - assert (Hne : us <> []) by (by destruct us; [apply elem_of_nil in Hin|]). rewrite (Hr1 Hne). eexists. split; [reflexivity|].
    apply list_elem_of_In, in_map_iff. exists (allow_rule u). split; [|apply list_elem_of_In, elem_of_app; right; apply list_elem_of_fmap_2, (list_elem_of_fmap_2 snd _ (path, u) Hin)].
    unfold update_rule, allow_rule. cbn. specialize (Hfree path u Hin). by rewrite not_elem_of_list_to_map_1.
Qed.
End Add.

(** ** A guest with device nodes *)

#[export] Instance device_nodes : GuestDevices (gmap text DeviceInfo) := {|
  blk_pci_device_name w _ := (Err tt, w);
  mmio_path_exists w path := bool_decide (is_Some (w !! path));
  mmio_device_name w _ := (Err tt, w);
  scsi_device_name w _ := (Err tt, w);
  wait_for_pci_device w _ := (Err tt, w);
  pci_driver_override w _ := (Err tt, w);
  pci_iommu_group _ _ := Err tt;
  vfio_device_name w _ := (Err tt, w);
  new_info w path := ok_or (w !! path) tt;
|}.

(** Two disks, "/A" and "/B", which the container has at "/x" and "/y"; on the host they are 8:0 and 254:0. *)
Definition disk (vm path : Z) : Device := mkDevice [] DRIVER_NVDIMM_TYPE [47; vm] [47; path] [].
Definition disk_spec : Spec :=
  mkSpec (Some (mkLinux [mkLinuxDevice [47; 120] [98] 8 0; mkLinuxDevice [47; 121] [98] 254 0] None)) None.
Definition disks (a b : Z * Z) : gmap text DeviceInfo := {[ [47; 65] := mkDeviceInfo [98] a.1 a.2; [47; 66] := mkDeviceInfo [98] b.1 b.2 ]}.

Lemma disk_paths : NoDup (ld_path <$> [mkLinuxDevice [47; 120] [98] 8 0; mkLinuxDevice [47; 121] [98] 254 0]).
Proof. repeat constructor; set_solver. Qed.

Lemma spec_devices_updated_witness :
  update_spec_devices disk_spec {[ [47; 120] := mkDevUpdate (mkDeviceInfo [98] 259 0) None ]} =
  (Ok tt, mkSpec (Some (mkLinux [mkLinuxDevice [47; 120] [98] 259 0; mkLinuxDevice [47; 121] [98] 254 0] None)) None).
Proof.
  apply (spec_devices_updated disk_spec {[ [47; 120] := mkDevUpdate (mkDeviceInfo [98] 259 0) None ]} _ eq_refl disk_paths). split_and!.
  - intros path u [<- _]%lookup_singleton_Some. cbn. set_solver.
  - repeat constructor. set_solver.
  - exists None. split; [constructor|reflexivity].
Defined.

Lemma env_pci_translated_witness :
  let v := PCIDEVICE ++ [65; 61] ++ Address_fmt (mkAddress 0 1 16) in
  update_env_pci [v; [65; 61; 66]] {[ mkAddress 0 1 16 := mkAddress 0 0 8 ]} = (Ok tt, [PCIDEVICE ++ [65; 61] ++ Address_fmt (mkAddress 0 0 8); [65; 61; 66]]).
Proof.
  apply (env_pci_translated [_; _]).
  - apply map_Forall_singleton. split_and!; cbn; unfold in_u16, in_u8; ulia.
  - repeat constructor.
    + eexists _, _. split; [reflexivity|]. exists [mkAddress 0 1 16], [mkAddress 0 0 8]. split_and!; reflexivity.
    + eexists _, _. split; reflexivity.
Defined.

Lemma devices_usable_witness : exists spec' pcimap' w' linux' rules dev,
  add_devices [disk 65 120; disk 66 121] disk_spec ∅ (disks (259, 0) (259, 1)) = (Ok tt, spec', pcimap', w') /\ sp_linux spec' = Some linux' /\
  (dev ∈ lx_devices linux' /\ ld_path dev = [47; 121] /\ ld_major dev = 259 /\ ld_minor dev = 1) /\
  lx_resources linux' = Some rules /\ mkCgroup true [98] (Some 259) (Some 1) RWM ∈ rules.
Proof.
  destruct (add_devices [disk 65 120; disk 66 121] disk_spec ∅ (disks (259, 0) (259, 1))) as [[[r spec'] pcimap'] w'] eqn:E.
  assert (Hr : r = Ok tt) by (apply (f_equal (fun p => p.1.1.1)) in E; vm_compute in E; by rewrite <- E). subst r.
  destruct (devices_usable _ disk_spec _ _ _ _ _ _ eq_refl disk_paths E) as (us & linux' & Hf & _ & Hl & Hu).
  assert (us = [([47; 120], mkDevUpdate (mkDeviceInfo [98] 259 0) None); ([47; 121], mkDevUpdate (mkDeviceInfo [98] 259 1) None)]) as -> by (vm_compute in Hf; by injection Hf as <-).
  destruct (fun F => Hu F [47; 121] (mkDevUpdate (mkDeviceInfo [98] 259 1) None)) as [(dev & Hd) (rules & Hr & Hin)].
  - intros path u Hin. match goal with |- _ ∉ ?l => change l with [([98], 8, 0); ([98], 254, 0)] end. set_solver.
  - set_solver.
  - by exists spec', pcimap', w', linux', rules, dev.
Defined.

(** The rules added for devices are themselves renumbered: the guest has the first disk as 254:0, which was the second on the host, so its
    rule becomes one for the second disk, and the first cannot be used. *)
Lemma rule_renumbered_twice :
  (let '(r, spec, _, _) := add_devices [disk 65 120; disk 66 121] disk_spec ∅ (disks (254, 0) (8, 16)) in (r, linux ← sp_linux spec; lx_resources linux)) =
  (Ok tt, Some [mkCgroup true [98] (Some 8) (Some 16) RWM; mkCgroup true [98] (Some 8) (Some 16) RWM]).
Proof. vm_compute. reflexivity. Qed.
